(* ===== verification/_CoqProject ===== *)
-Q . S2P
Prelude.v
FixedPt.v
CircArray.v
Messages.v
Hashing.v
Heap.v
Timers.v
TimersProps.v
Queues.v
QueuesProps.v
QueueThreads.v
QueueThreadsProps.v
Buffers.v
IndicatorBase.v
IndicatorLaws.v
Smoothing.v
Directional.v
Ratios.v
IndicatorProps.v
FirstGen.v
FirstGenProps.v
HandCoded.v
AdLine.v
Parsing.v
Feed.v
FeedProps.v
Shmq.v
Sorting.v
Packets.v
PacketsInv.v
PacketsOps.v
PacketsProps.v
ConfParse.v
ConfProps.v
Lexer.v
LexerProps.v
Hookup.v
HookupProps.v
HookupVisit.v
FlowCodes.v
Startup.v
Capture.v
CaptureProps.v
Sources.v
SourceProps.v
Processor.v
Router.v
Configs.v
Renaming.v
ConfigText.v
HookupFiles.v
Dataflow.v
Propagation.v
RouterProps.v
Typing.v
Baseline.v
BaselineProps.v
TrixGraph.v
Stepping.v
VortexGraph.v
DmiGraph.v
