(* ===== verification/Prelude.v ===== *)
(** * Synapse: technical indicators on a packet router, verified

    Synapse computes technical indicators of traded symbols (TRIX, DMI, Vortex,
    the advance/decline line) inside the Click modular router, and compares that
    with a monolithic program.  This library models both programs and proves what
    makes them correct, element by element, and that they agree.

    ** The program and its parts

    A trade arrives as a UDP packet [timestamp time|delta|symbol|price|size].

    - In Click (src/click-2.0.1/elements/standard, include/click, lib) the
      [TradeProcessor] parses it, keeps the open, high, low and close of the
      current interval per symbol and sends a source message: INIT for the first
      trade of a symbol, UPDATE for a later one, ADD when its timer closes the
      interval.  [Timestamper] stamps it, [SourceSplit] turns it into value
      messages on one port per price, [ReuseTee] copies packets, and a graph of
      indicator elements computes the value that [StatPrinter] records.  Every
      indicator element derives from [IndicatorBase], which collects one value
      per input port and time stamp in [Buffers] (rings, [CircArray]) and calls
      the element's methods: [process_naive] recomputes from the window,
      [process_ext] does so once and fills a cache, [process_opt_ext] works from
      the cache and the increments.  UPDATE values are temporary, ADD values are
      kept.
    - The baseline (src/hand_coded) does the same in one process: [main.cpp] with
      an [IndicatorManager] per symbol and one class per indicator.
    - An older generation of Click elements works from a Chi-X feed:
      [ChixTradeHandler] keeps the open orders and sends a trade per execution,
      [MsgFilterSymbol] selects symbols, and [TrueRange], [DirectionalMovement],
      [EwmaElement], [DirectionalIndex] and [DxIndicator] compute the directional
      movement index per symbol and interval.  Their state is in the router's
      [HashMap]s.
    - The elements rest on Click itself (lib, include/click, elements/standard): a text is
      parsed into elements and connections, the router checks and makes the
      connections and configures the elements, packets are pushed and pulled along
      them, wait in queues between threads, and timers call the elements.
    - Around them, a sender replays files of trades (tools/tcp_probe), a kernel
      module stamps its datagrams, and another hands captured packets to clients
      through a shared-memory queue (kernel_modules, tools/shmq_client).

    ** Files

    - [Prelude]: faults and the error monad [res], machine integers with their
      wrap-around, bytes, tactics ([res_inv], [res_simpl], [zrange], [divlia]) and
      list lemmas.
    - [FixedPt]: [fixedptc.h] (Module [fixedptc]) and Click's class [FixedPt]
      (Module [FPt]).
    - [CircArray]: circ_array.hpp (Module [CircArray]), lemmas about the
      represented sequence (Module [CircArrayFacts]) and the bounded deque it
      refines (Module [BoundedDeque]).
    - [Messages]: appmsgs.hh, packets and their bytes.
    - [Hashing]: hashmap.{hh,cc} (Module [HashMap]) and array_wrapper.hh (Module
      [ArrayWrapper]); the class [LawfulKey] is what the table needs of its keys.
    - [Heap]: heap.hh; [Timers]: timer.{hh,cc} and timerset.{hh,cc}; [TimersProps]:
      their specification, a list of timers in the order in which they are due.
    - [Queues]: storage.hh and the six queue elements on one thread, [QueuesProps]
      their specification; [QueueThreads]: threadsafequeue.cc as steps of any number
      of threads, [QueueThreadsProps] its invariant.
    - [Packets]: packet.{hh,cc}, packets that share buffers, their pools, and
      unique_tee.cc; [PacketsInv]: the invariant of objects, buffers and counts;
      [PacketsOps]: every operation preserves it; [PacketsProps]: programs on packets
      and the specification they meet.
    - [Sorting]: [click_qsort] of glue.cc.
    - [ConfParse]: confparse.cc and args.cc; [ConfProps]: quoting.  [Lexer]: lexer.cc;
      [LexerProps]: it ends on every text.
    - [Hookup]: the checks of router.cc before elements are configured, the codes of
      element.cc that they read, and the search along connections; [HookupProps],
      [HookupVisit], [FlowCodes]: their theorems.  [Startup]: [Router::initialize] and
      the destructor as calls of the elements' methods.
    - [Buffers]: buffers.{hh,cc} (Module [Buffers]); rounds of messages and what
      the rings hold after them (Modules [Rounds], [BuffersFacts]).
    - [IndicatorBase]: indicator_base.{hh,cc}; the virtual methods are the class
      [IndicatorElement].
    - [IndicatorLaws]: the contract [IndicatorLaws] an element offers to the base
      class, the specification [spec_run] of the base class, and the proof that
      the base class meets it for every element with the contract.
    - [Smoothing] (ewma_incremental.cc, sum.cc), [Directional] (pdm.cc, ndm.cc,
      new_true_range.cc, vmu.cc, vmd.cc), [Ratios] (pdi.cc, ndi.cc, viu.cc, vid.cc,
      dx.cc, trix.cc): one Module per element and its instance of the contract.
    - [IndicatorProps]: the theorems about the indicator elements.
    - [FirstGen]: true_range.cc, directional_movement.cc, ewma_calculator.cc,
      directional_index.cc and dx_indicator.cc, one Module each; [FirstGenProps]:
      their theorems.
    - [HandCoded]: the baseline's FixedPt (Module [Fx]), ewma, trix, dmi, vortex.
    - [AdLine]: ad_line.cpp and running_stat.cc.
    - [Parsing]: msg_parsing.h and its copy in trade_processor.cc.
    - [Capture]: chix_trade_handler.{hh,cc} with its utilities and
      msg_filter_symbol.cc; [CaptureProps]: the order book.
    - [Feed]: PbFileReader.h, MsgSenderApp.cc and timestamper.c; [FeedProps]: lines of
      a file as they reach the parser.  [Shmq]: shmq.c, packet_capture.c, shmqueue.cc
      and the clients; the kernel's ring is an interface with laws.
    - [Sources]: trade_processor.cc, source_split.cc, reuse_tee.cc, timestamper.cc,
      stat_printer.cc; [SourceProps]: their theorems, with the trade processor as
      a step relation ([tp_step], [tp_reach]).  [Processor]: the trade processor on
      its hash tables, and the proof that it answers as the one of [Sources].
    - [Router]: the part of Click that connects and runs elements (router.cc,
      element.{hh,cc}): a network of elements and connections, and the
      depth-first delivery of a packet, [router_push].  [Configs]: the nine files
      of indicator_configs as declarations and connections.  [Renaming]: the order of
      the declarations does not matter; [ConfigText]: the texts of the files, read by
      the parser as those graphs; [HookupFiles]: the routers made of them are hooked up.
    - [Dataflow]: the specification of a network, [flow]: a graph of functions on
      rounds.  [Propagation], [RouterProps]: a router refines it, round by round.
      [Typing]: executable checks of a configuration (every port connected to an
      element that reads it, all inputs of an element updated alike) that make the
      refinement, termination and the recording of every update hold.
    - [Baseline]: hc_types.h, indicator_manager.cpp and main.cpp;
      [BaselineProps]: the simulation between it and the trade processor.
    - [TrixGraph]: the graph of indicator_configs/trix_opt.click, and its
      agreement with the baseline's TRIX; [Stepping], [VortexGraph], [DmiGraph]:
      the same for the diamonds of the Vortex and DMI configurations, through the
      router.

    ** Conventions

    A method is a function from the object's state (a record with the members' names)
    to the new state and the result; pushing a packet returns the packets sent, with
    their ports, in order.  Code that can fail returns a [res]: a failed assertion, a
    division by zero, an access out of bounds, falling off the end of a function,
    shifting by more than the width, using what was freed or dereferencing null is a
    [Fault].  A [w]-bit integer is a [Z] kept in range by explicit wraps.  To the
    elements a packet is its application type and its bytes; structs are read from and
    written to the bytes at their offsets.  The objects and buffers behind it are in
    [Packets] alone.  Values that come from outside -- cycle counters, uninitialised
    bytes, received datagrams, parsed options, what [send] and [msgsnd] return -- are
    arguments; so are the elements behind the outputs of [UniqueTee] and the methods
    that a router calls.  Debug output is left out.

    ** What is proved

    - Representation: a ring buffer is a bounded deque in every sequence of
      operations, faults included, while its capacity is an [int]; copies preserve it;
      [Buffers] holds, after any sequence of rounds, exactly the committed values plus
      those of the current round, temporary values leaving no trace.
    - Indicators: the base class, for every element that meets its contract, every
      mode, any order of ports and any sequence of rounds, emits the packets of a
      short functional specification; all thirteen elements meet the contract; eleven
      of them give the same packets in the naive and in the optimised mode; the
      average does while the rounds fit the window; TRIX differs by rounding, with a
      bound.  The formulas are what the indicators' definitions say, with bounds that
      exclude overflow.
    - Messages: encoding round-trips; prices and well-formed trade messages parse to
      what they denote, in both copies of the parser; the interval statistics are
      maximum, minimum, last and sum of the trades; the trade processor, the splitter,
      the tee, the timestamper and the recorders do what their names say.
    - Routing: whatever a checked configuration is, pushing the packets of a round
      through the router ends, faults nowhere, fires every element once with the
      values of the round, and computes what the dataflow graph does; every update
      after the first interval is recorded.
    - Configuration: quoting and splitting of arguments round-trip; the parser ends on
      every text, none of its assertions failing, and reads the nine files as their
      graphs.  The router's checks are exact: push and pull are assigned if and only
      if an assignment fits, and no error is reported if and only if every port is
      connected and every active one once; in a router that passes, exactly one end of
      each connection is active and points to the other; the routers of the nine files
      pass.  A search along the connections finds every port that is reached, once and
      at its least distance.  Flow codes of letters mean what is documented.  Every
      element is cleaned up once, told how far it got.  [click_qsort] sorts, and ends
      for every comparison function.
    - Packets: whatever a program does with packets that share buffers, it sees what
      it would see if every packet had bytes of its own; use counts are exact, and
      nothing is freed twice or lost.  The packets that [UniqueTee] pushes are
      separate, whatever the elements behind its outputs do with theirs.
    - Queues and timers: under any sequence of calls a queue is a bounded list with
      its signals, and one that is swapped in goes on with the packets of the old one;
      with any number of threads, in any interleaving, a packet is taken at most once
      and in order, under the condition the theorem states; a timer set runs the
      timers that are due in order, and stays consistent when a router is killed.
    - The feed: lines of the trade files reach the parser as the trades they tell,
      through the sender and the kernel's stamp, each sent at the first reading of the
      clock after it is due; messages through the shared-memory queue arrive whole and
      in order while the ring has room and the system's queue takes them.
    - Hash tables: in every sequence of operations, resizing included, a table with
      lawful keys answers as a finite map; copies and iterators keep it.  The trade
      processor on such tables answers to every sequence of trades and timer calls as
      it does on a map and a list, up to the order of the symbols.
    - The first generation: the true ranges, movements and averages are those of the
      trades of a symbol by interval, whatever other symbols do; packets of two inputs
      are paired by time stamp; the formulas are those of the second generation, with
      the exceptions stated.  A Chi-X feed makes the order book its messages describe,
      and its trades drive TrueRange.
    - The two programs: from the same configuration, trade by trade and timer by
      timer, the baseline makes on a symbol's indicators the calls that the packets of
      the trade processor ask for, and the Click graphs for TRIX, Vortex and DMI
      compute bit for bit what the baseline computes, under the conditions each
      theorem states.
    - Where the code does not do what it means to -- square roots, prices below ten,
      truncated and short messages, symbols that have not traded, flat first
      intervals, a printed integer taken for a string, long orders, symbols that are
      not padded, killed routers' timers, slow threads, full rings, the pools with
      threads, a timer for only one of several trade processors -- the behaviour is a
      theorem as well.

    ** Bounds and fuel

    Loops over a ring recurse on its occupancy, which the code decreases by one per
    step; the theorems are about runs with that fuel and show a result.  The decimal
    printer has twelve characters for the integral part, the size of the code's buffer
    (one more digit is a fault), and one turn more than the decimals asked for; the
    square root's bit count has 16 turns, as it shifts a 32-bit number by two; the
    scaling loop of [fixedpt_ln] has 64, one per bit.  The growth of a hash table has
    22 turns, one more than it takes from 1 to the most buckets; the loop over its
    elements has as many as it has elements.  A packet is pushed through the router
    with as much fuel as there are elements, the length of the longest path in an
    acyclic graph; [router_terminates] shows that it is enough.  The parser has two
    rounds per character and two more, shown to be enough by [parser_total];
    connecting lists of ports has three rounds per port; loops of a queue have its
    capacity and one; sifting in a heap has the length of the heap.  Killing a packet
    recurses over as many packets as there are, and making one unique calls itself at
    most once.  The stack of [click_qsort] has [2 * n + 1] rounds for [n] items, the
    spreading of push and pull one round more than there are ports, the search along
    connections two more, and the search for unused ports one per element, port and
    connection and two more; the theorems show that all of them are enough.  Where a
    loop could need more rounds than the model gives it, it is a fault [OutOfFuel],
    which the theorems exclude.  Queue capacities and packet buffers are below 2^31,
    so are the capacities of rings that are resized or shortened in the middle, whose
    loops count in [int]; arrays that are sorted are below 2^64.  The text of a
    configuration is below 2^30 bytes, so that the [int]s that number its anonymous
    elements do not run out.  [BUF_SIZE] is at least 2 in the theorems about elements,
    since their formulas look one value back.

    ** What is not modelled

    Of the configuration language, compound elements, groups, requirements,
    definitions and variables, which no file of the project uses; of the arguments,
    addresses, real numbers, times and bandwidths.  Of the router, tasks, handlers,
    hot swapping as a whole (the queues' part is modelled), the master and its threads:
    their effects are those of the operating system's scheduler, or output.  Error
    messages are values, without their texts.  Annotations of packets other than the
    headers; the kernel's versions of the code.  Memory between threads is
    sequentially consistent.  The theorems about a graph use the trade processor of
    [Sources], on a finite map and a list, which [Processor] justifies; the baseline's
    maps are the compiler library's [hash_map].  Elements that compute in floating
    point or write files (Aroon, TradeAggregator, MsgPrinter, SynapseEWMA), which no
    configuration uses; the start of threads, the patched file of the kernel, and the
    receivers and converters among the tools, which are calls of libraries and of the
    system.  The other elements of Click. *)

From stdpp Require Export base tactics numbers list option.
From Stdlib Require Export ZArith Lia.
From stdpp Require Export strings.

#[global] Open Scope Z_scope.

(** ** Faults

    C++ code that asserts, divides by zero, reads or writes outside an object
    or falls off the end of a value-returning function has no result.  Such a
    run is a [Fault]; every operation that can do so returns a [res]. *)

Inductive fault :=
| AssertFailed      (* a failed [assert] *)
| DivByZero         (* integer division by zero (SIGFPE) *)
| OutOfBounds       (* access outside an array, packet or string buffer *)
| NoReturn          (* falling off the end of a non-void function *)
| NullDeref         (* access through a null pointer *)
| BadAlloc          (* an allocation that throws *)
| StackOverflow     (* a recursion deeper than the stack *)
| BadShift          (* a shift by a negative count, or by the width of the word or more *)
| UseAfterFree      (* access to memory that has been freed *)
| OutOfFuel         (* more rounds of a loop than the model allows *).

Inductive res (A : Type) :=
| Ok (a : A)
| Fault (f : fault).
Arguments Ok {A} a.
Arguments Fault {A} f.

#[global] Instance fault_eq_dec : EqDecision fault.
Proof. solve_decision. Defined.

#[global] Instance res_eq_dec `{EqDecision A} : EqDecision (res A).
Proof. solve_decision. Defined.

#[global] Instance res_ret : MRet res := fun A a => Ok a.
#[global] Instance res_bind : MBind res := fun A B k m =>
  match m with Ok a => k a | Fault f => Fault f end.
#[global] Instance res_fmap : FMap res := fun A B k m =>
  match m with Ok a => Ok (k a) | Fault f => Fault f end.

Declare Scope res_scope.
Delimit Scope res_scope with res.
Notation "'let*' x := m 'in' k" := (mbind (M:=res) (fun x => k) m)
  (at level 10, x pattern, m at level 100, k at level 200) : res_scope.
Notation "'assert*' b ';' k" := (if (b : bool) then k else Fault AssertFailed)
  (at level 10, b at level 100, k at level 200) : res_scope.
#[global] Open Scope res_scope.

(** [of_option f o]: the value of [o], or the fault [f]. *)
Definition of_option {A} (f : fault) (o : option A) : res A :=
  match o with Some a => Ok a | None => Fault f end.

Lemma bind_Ok {A B} (m : res A) (k : A -> res B) (b : B) :
  mbind k m = Ok b <-> exists a, m = Ok a /\ k a = Ok b.
Proof.
  destruct m as [a|f]; simpl; split.
  - intros H. exists a. auto.
  - intros (a' & [= ->] & H). exact H.
  - discriminate.
  - intros (a' & H & _). discriminate H.
Qed.

Lemma Ok_inj {A} (a b : A) : Ok a = Ok b -> a = b.
Proof. congruence. Qed.

(** [res_rel R m n]: both computations fault alike, or both succeed with
    results related by [R]. *)
Definition res_rel {A B} (R : A -> B -> Prop) (m : res A) (n : res B) : Prop :=
  match m, n with
  | Ok a, Ok b => R a b
  | Fault f, Fault g => f = g
  | _, _ => False
  end.

Lemma res_rel_bind {A B C D} (R : A -> B -> Prop) (S : C -> D -> Prop)
    (m : res A) (n : res B) (k : A -> res C) (l : B -> res D) :
  res_rel R m n -> (forall a b, R a b -> res_rel S (k a) (l b)) ->
  res_rel S (mbind k m) (mbind l n).
Proof. destruct m, n; simpl; intros H Hk; try done. by apply Hk. Qed.

Lemma res_rel_refl {A} (m : res A) : res_rel eq m m.
Proof. by destruct m. Qed.

Lemma res_rel_eq {A} (m n : res A) : res_rel eq m n <-> m = n.
Proof. destruct m, n; simpl; split; intros; try done; congruence. Qed.

(** ** Machine integers

    A [w]-bit integer is a [Z]; a conversion to the type is written out as the
    wrap-around below.  Signed conversions wrap in two's complement, which is
    what gcc does for narrowing conversions and what the hardware does for
    additions; where C++ leaves signed overflow undefined the theorems carry
    the range hypotheses that exclude it. *)

Definition uwrap (w z : Z) : Z := z mod 2 ^ w.
Definition swrap (w z : Z) : Z := (z + 2 ^ (w - 1)) mod 2 ^ w - 2 ^ (w - 1).

Definition u8 : Z -> Z := uwrap 8.
Definition u32 : Z -> Z := uwrap 32.
Definition u64 : Z -> Z := uwrap 64.
Definition u128 : Z -> Z := uwrap 128.
Definition i32 : Z -> Z := swrap 32.
Definition i64 : Z -> Z := swrap 64.
Definition i128 : Z -> Z := swrap 128.

Definition in_u (w z : Z) : Prop := 0 <= z < 2 ^ w.
Definition in_s (w z : Z) : Prop := - 2 ^ (w - 1) <= z < 2 ^ (w - 1).

#[global] Instance in_u_dec w z : Decision (in_u w z).
Proof. unfold in_u. apply _. Defined.
#[global] Instance in_s_dec w z : Decision (in_s w z).
Proof. unfold in_s. apply _. Defined.

Section wrap.
Context (w : Z) (Hw : 0 < w).

Lemma pow_split : 2 ^ w = 2 * 2 ^ (w - 1).
Proof. rewrite <- Z.pow_succ_r by lia. f_equal. lia. Qed.

Lemma pow_pos : 0 < 2 ^ w.
Proof. apply Z.pow_pos_nonneg; lia. Qed.

Lemma uwrap_range z : in_u w (uwrap w z).
Proof. unfold in_u, uwrap. apply Z.mod_pos_bound, pow_pos. Qed.

Lemma uwrap_id z : in_u w z -> uwrap w z = z.
Proof. intros H. apply Z.mod_small, H. Qed.

Lemma swrap_range z : in_s w (swrap w z).
Proof.
  unfold in_s, swrap. pose proof pow_split.
  pose proof (Z.mod_pos_bound (z + 2 ^ (w - 1)) (2 ^ w) pow_pos). lia.
Qed.

Lemma swrap_id z : in_s w z -> swrap w z = z.
Proof.
  unfold in_s, swrap. intros H. pose proof pow_split.
  rewrite Z.mod_small by lia. lia.
Qed.

Lemma swrap_idem z : swrap w (swrap w z) = swrap w z.
Proof. apply swrap_id, swrap_range. Qed.

(** The wrapped value is congruent to the exact one. *)
Lemma swrap_cong z : exists k, swrap w z = z + k * 2 ^ w.
Proof.
  unfold swrap. exists (- ((z + 2 ^ (w - 1)) / 2 ^ w)).
  pose proof pow_pos. rewrite Z.mod_eq by lia. lia.
Qed.

Lemma swrap_eq_cong a b k : a = b + k * 2 ^ w -> swrap w a = swrap w b.
Proof.
  intros ->. unfold swrap.
  replace (b + k * 2 ^ w + 2 ^ (w - 1)) with (b + 2 ^ (w - 1) + k * 2 ^ w) by ring.
  rewrite Z_mod_plus_full. reflexivity.
Qed.

Lemma swrap_add_l a b : swrap w (swrap w a + b) = swrap w (a + b).
Proof. destruct (swrap_cong a) as [k ->]. apply (swrap_eq_cong _ _ k). ring. Qed.

Lemma swrap_add_r a b : swrap w (a + swrap w b) = swrap w (a + b).
Proof. destruct (swrap_cong b) as [k ->]. apply (swrap_eq_cong _ _ k). ring. Qed.

Lemma swrap_sub_l a b : swrap w (swrap w a - b) = swrap w (a - b).
Proof. destruct (swrap_cong a) as [k ->]. apply (swrap_eq_cong _ _ k). ring. Qed.

Lemma swrap_sub_r a b : swrap w (a - swrap w b) = swrap w (a - b).
Proof. destruct (swrap_cong b) as [k ->]. apply (swrap_eq_cong _ _ (- k)). ring. Qed.

Lemma swrap_0 : swrap w 0 = 0.
Proof.
  apply swrap_id. unfold in_s.
  assert (0 < 2 ^ (w - 1)) by (apply Z.pow_pos_nonneg; lia). lia.
Qed.
End wrap.

Lemma i32_id z : in_s 32 z -> i32 z = z.
Proof. apply swrap_id. lia. Qed.
Lemma i64_id z : in_s 64 z -> i64 z = z.
Proof. apply swrap_id. lia. Qed.
Lemma i64_range z : in_s 64 (i64 z).
Proof. apply swrap_range. lia. Qed.
Lemma u64_id z : in_u 64 z -> u64 z = z.
Proof. apply uwrap_id. Qed.

(** [zrange] closes range side conditions with literal bounds. *)
Ltac zrange := unfold in_s, in_u in *; simpl Z.sub in *; lia.

(** [divlia] is [lia] with the defining equations of [/] and [mod] added. *)
Ltac divlia := Z.div_mod_to_equations; lia.

Create Rewrite HintDb wrap.
#[export] Hint Rewrite swrap_add_l swrap_add_r swrap_sub_l swrap_sub_r swrap_idem
  using lia : wrap.

(** ** Automation

    [res_inv] splits every hypothesis that says a monadic computation
    succeeded into the successes of its steps. *)
Ltac res_inv :=
  repeat match goal with
  | H : mbind _ _ = Ok _ |- _ => apply bind_Ok in H; destruct H as (? & ? & ?)
  | H : Ok _ = Ok _ |- _ => injection H as ?; subst
  | H : Fault _ = Ok _ |- _ => discriminate H
  | H : (if ?b then _ else Fault _) = Ok _ |- _ => destruct b eqn:?; [|discriminate H]
  | H : of_option _ ?o = Ok _ |- _ => destruct o eqn:?; simpl in H; [|discriminate H]
  end.

(** [res_simpl] runs the binds whose first step is a value. *)
Ltac res_simpl := cbn [mbind res_bind mret res_ret fmap res_fmap of_option].

(** ** Bytes and C strings

    Memory is a list of bytes, each a [Z] in [0, 255]. *)

Abbreviation byte := Z (only parsing).
Abbreviation bytes := (list Z) (only parsing).

Definition byte_of_ascii (c : Ascii.ascii) : byte := Z.of_N (Ascii.N_of_ascii c).
Fixpoint bytes_of_string (s : string) : bytes :=
  match s with
  | EmptyString => []
  | String c s => byte_of_ascii c :: bytes_of_string s
  end.

Definition is_byte (b : Z) : Prop := 0 <= b < 256.

(** Little-endian representation of a word of [n] bytes. *)
Fixpoint le_encode (n : nat) (z : Z) : bytes :=
  match n with
  | O => []
  | S n => z mod 256 :: le_encode n (z / 256)
  end.

Fixpoint le_decode (bs : bytes) : Z :=
  match bs with
  | [] => 0
  | b :: bs => b + 256 * le_decode bs
  end.

Lemma length_le_encode n z : length (le_encode n z) = n.
Proof. revert z. induction n; intros; simpl; auto. Qed.

Lemma le_decode_encode n z : le_decode (le_encode n z) = z mod 256 ^ Z.of_nat n.
Proof.
  revert z. induction n as [|n IH]; intros z; simpl le_encode; simpl le_decode.
  - rewrite Z.mod_1_r. reflexivity.
  - rewrite IH, Nat2Z.inj_succ, Z.pow_succ_r by lia.
    rewrite Z.rem_mul_r by (try apply Z.pow_pos_nonneg; try apply Z.pow_nonzero; lia).
    reflexivity.
Qed.

Lemma le_encode_bytes n z : Forall is_byte (le_encode n z).
Proof.
  revert z. induction n; intros z; simpl; constructor; auto.
  apply Z.mod_pos_bound. lia.
Qed.

(** ** Lists *)

Section lists.
Context {A : Type}.
Implicit Types l : list A.

Lemma take_S_cons n (x : A) l : take (S n) (x :: l) = x :: take n l.
Proof. reflexivity. Qed.

(** Dropping the last element of a full window and consing is truncation. *)
Lemma take_cons_full n (x : A) l :
  length l = n -> (0 < n)%nat -> take n (x :: l) = x :: removelast l.
Proof.
  intros Hl Hn. destruct n as [|n]; [lia|]. simpl. f_equal.
  rewrite removelast_firstn_len, Hl. reflexivity.
Qed.

Lemma take_cons_room n (x : A) l :
  (length l < n)%nat -> take n (x :: l) = x :: l.
Proof. intros H. apply firstn_all2. simpl. lia. Qed.

Lemma take_cons_take n (x : A) l : take n (x :: take n l) = take n (x :: l).
Proof. destruct n as [|n]; [done|]. simpl. f_equal. rewrite take_take. f_equal. lia. Qed.

Lemma take_insert_S i (x : A) l : (i < length l)%nat -> take (S i) (<[i := x]> l) = take i l ++ [x].
Proof.
  intros Hi. rewrite (take_S_r _ _ x) by (by rewrite list_lookup_insert_eq).
  by rewrite take_insert_ge.
Qed.

Lemma lookup_total_map_seq `{Inhabited A} (f : nat -> A) n i :
  (i < n)%nat -> (map f (seq 0 n)) !! i = Some (f i).
Proof.
  intros Hi. rewrite list_lookup_fmap, lookup_seq_lt by lia. reflexivity.
Qed.
End lists.
