(* ===== verification/FixedPt.v ===== *)
(** * Fixed-point arithmetic

    [Module fixedptc] models fixedptc.h (the copies under hand_coded/ and
    click-2.0.1/include/click/ are the same file) with the build's
    [FIXEDPT_BITS = 64] and [FIXEDPT_WBITS = 24]: a [fixedpt] is an [int64_t]
    holding the number times [2^40]; products and quotients are computed in
    [__int128_t].  A shift by a count outside 0 .. 63, which [fixedpt_exp] can come to,
    is a fault.  [Module FPt] models the class [FixedPt] of the Click side
    (fixedpt_cpp.h, fixedpt_cpp.cc), whose objects carry a validity flag. *)

From S2P Require Import Prelude.

Module fixedptc.

Definition FIXEDPT_BITS : Z := 64.
Definition FIXEDPT_WBITS : Z := 24.
Definition FIXEDPT_FBITS : Z := FIXEDPT_BITS - FIXEDPT_WBITS.
Definition FIXEDPT_FMASK : Z := Z.shiftl 1 FIXEDPT_FBITS - 1.
Definition FIXEDPT_ONE : Z := Z.shiftl 1 FIXEDPT_FBITS.
Definition FIXEDPT_ONE_HALF : Z := Z.shiftr FIXEDPT_ONE 1.
Definition FIXEDPT_TWO : Z := FIXEDPT_ONE + FIXEDPT_ONE.

(** [fixedpt_rconst R] for the decimal literal [R = num / den].  The source
    computes it in double precision; scaling by [2^40] is exact there and the
    rounding of the literal does not change the integer obtained. *)
Definition fixedpt_rconst (num den : Z) : Z :=
  Z.quot (2 * num * FIXEDPT_ONE + (if 0 <=? num then den else - den)) (2 * den).

Definition FIXEDPT_PI : Z := fixedpt_rconst 314159265358979323846 (10 ^ 20).
Definition FIXEDPT_HALF_PI : Z := fixedpt_rconst 314159265358979323846 (2 * 10 ^ 20).

(** The macros.  [fixedpt_fromint] has type [fixedptd]; storing it in a
    [fixedpt] narrows it, which the uses below write as [i64]. *)
Definition fixedpt_fromint (i : Z) : Z := i128 (Z.shiftl i FIXEDPT_FBITS).
Definition fixedpt_toint (f : Z) : Z := Z.shiftr f FIXEDPT_FBITS.
Definition fixedpt_add (a b : Z) : Z := i64 (a + b).
Definition fixedpt_sub (a b : Z) : Z := i64 (a - b).
Definition fixedpt_fracpart (a : Z) : Z := Z.land a FIXEDPT_FMASK.
Definition fixedpt_abs (a : Z) : Z := if a <? 0 then i64 (- a) else a.

Definition fixedpt_mul (a b : Z) : Z := i64 (Z.shiftr (a * b) FIXEDPT_FBITS).

Definition fixedpt_div (a b : Z) : res Z :=
  if b =? 0 then Fault DivByZero
  else Ok (i64 (Z.quot (Z.shiftl a FIXEDPT_FBITS) b)).

(** ** Conversion to a decimal string *)

(** The digits of [ip], least significant first, as written to [tmp]; [room]
    is what is left of [tmp[12]]. *)
Fixpoint ip_digits (room : nat) (ip : Z) : res bytes :=
  match room with
  | O => Fault OutOfBounds
  | S room =>
      let d := 48 + ip mod 10 in
      let ip := ip / 10 in
      if ip =? 0 then Ok [d]
      else let* ds := ip_digits room ip in Ok (d :: ds)
  end.

(** The fraction loop: [fr = (fr & mask) * 10], one digit per turn, until [fr]
    is zero or [max_dec] digits are out.  [fuel] is the number of turns left. *)
Fixpoint fr_digits (fuel : nat) (fr ndec max_dec : Z) : bytes :=
  match fuel with
  | O => []
  | S fuel =>
      let mask := Z.shiftl 1 FIXEDPT_BITS - 1 in
      let fr := u128 (Z.land fr mask * 10) in
      let d := 48 + Z.shiftr fr FIXEDPT_BITS mod 10 in
      let ndec := ndec + 1 in
      if negb (fr =? 0) && (ndec <? max_dec) then d :: fr_digits fuel fr ndec max_dec
      else [d]
  end.

Definition str_max_dec (max_dec : Z) : Z :=
  if max_dec =? -1 then 10 else if max_dec =? -2 then 15 else max_dec.

(** The characters before the terminating NUL. *)
Definition fixedpt_str (A max_dec : Z) : res bytes :=
  let max_dec := str_max_dec max_dec in
  let sign := if A <? 0 then [45] else [] in
  let A := if A <? 0 then i64 (A * -1) else A in
  let ip := u128 (fixedpt_toint A) in
  let* tmp := ip_digits 12 ip in
  let mask := Z.shiftl 1 FIXEDPT_BITS - 1 in
  let fr := Z.land (u128 (i64 (Z.shiftl (fixedpt_fracpart A) FIXEDPT_WBITS))) mask in
  let ds := fr_digits (S (Z.to_nat max_dec)) fr 0 max_dec in
  let ds := if (1 <? Z.of_nat (length ds)) && (default 0 (last ds) =? 48)
            then removelast ds else ds in
  Ok (sign ++ reverse tmp ++ [46] ++ ds).

(** ** Elementary functions *)

(** [while (s > 0) { s >>= 2; iter++; }] on an [int]. *)
Fixpoint sqrt_iters (fuel : nat) (s : Z) : nat :=
  match fuel with
  | O => O
  | S fuel => if 0 <? s then S (sqrt_iters fuel (Z.shiftr s 2)) else O
  end.

(** Newton's iterations; [l] is an [int]. *)
Fixpoint sqrt_newton (iter : nat) (A l : Z) : res Z :=
  match iter with
  | O => Ok l
  | S iter =>
      let* q := fixedpt_div A l in
      sqrt_newton iter A (i32 (Z.shiftr (i64 (l + q)) 1))
  end.

Definition fixedpt_sqrt (A : Z) : res Z :=
  if A <? 0 then Ok (-1)
  else if (A =? 0) || (A =? FIXEDPT_ONE) then Ok A
  else
    let invert := (A <? FIXEDPT_ONE) && (6 <? A) in
    let* A := if invert then fixedpt_div FIXEDPT_ONE A else Ok A in
    let iter := if FIXEDPT_ONE <? A then sqrt_iters 16 (i32 A)
                else Z.to_nat FIXEDPT_FBITS in
    let* l := sqrt_newton iter A (i32 (Z.shiftr A 1 + 1)) in
    if invert then fixedpt_div FIXEDPT_ONE l else Ok l.

Definition fixedpt_sin (fp : Z) : Z :=
  let SK0 := fixedpt_rconst 761 (10 ^ 5) in
  let SK1 := fixedpt_rconst 16605 (10 ^ 5) in
  let fp := Z.rem fp (2 * FIXEDPT_PI) in
  let fp := if fp <? 0 then FIXEDPT_PI * 2 + fp else fp in
  let '(fp, sign) :=
    if (FIXEDPT_HALF_PI <? fp) && (fp <=? FIXEDPT_PI) then (FIXEDPT_PI - fp, 1)
    else if (FIXEDPT_PI <? fp) && (fp <=? FIXEDPT_PI + FIXEDPT_HALF_PI)
    then (fp - FIXEDPT_PI, -1)
    else if FIXEDPT_PI + FIXEDPT_HALF_PI <? fp
    then (Z.shiftl FIXEDPT_PI 1 - fp, -1)
    else (fp, 1) in
  let sqr := fixedpt_mul fp fp in
  let result := fixedpt_mul SK0 sqr in
  let result := i64 (result - SK1) in
  let result := fixedpt_mul result sqr in
  let result := i64 (result + FIXEDPT_ONE) in
  let result := fixedpt_mul result fp in
  i64 (sign * result).

Definition fixedpt_cos (A : Z) : Z := fixedpt_sin (i64 (FIXEDPT_HALF_PI - A)).

Definition fixedpt_tan (A : Z) : res Z := fixedpt_div (fixedpt_sin A) (fixedpt_cos A).

Definition LN2 : Z := fixedpt_rconst 69314718055994530942 (10 ^ 20).
Definition LN2_INV : Z := fixedpt_rconst 14426950408889634074 (10 ^ 19).

Definition EXP_P0 : Z := fixedpt_rconst 166666666666666019037 (10 ^ 21).
Definition EXP_P1 : Z := fixedpt_rconst (-277777777770155933842) (10 ^ 23).
Definition EXP_P2 : Z := fixedpt_rconst 661375632143793436117 (10 ^ 25).
Definition EXP_P3 : Z := fixedpt_rconst (-165339022054652515390) (10 ^ 26).
Definition EXP_P4 : Z := fixedpt_rconst 413813679705723846039 (10 ^ 28).

(** [a << n] and [a >> n] on [int64_t], undefined unless [0 <= n < 64]. *)
Definition shift_left (a n : Z) : res Z :=
  if (0 <=? n) && (n <? 64) then Ok (i64 (Z.shiftl a n)) else Fault BadShift.

Definition shift_right (a n : Z) : res Z :=
  if (0 <=? n) && (n <? 64) then Ok (Z.shiftr a n) else Fault BadShift.

Definition fixedpt_exp (fp : Z) : res Z :=
  if fp =? 0 then Ok FIXEDPT_ONE
  else
    let xabs := fixedpt_abs fp in
    let k := fixedpt_mul xabs LN2_INV in
    let k := i64 (k + FIXEDPT_ONE_HALF) in
    let k := Z.land k (Z.lnot FIXEDPT_FMASK) in
    let k := if fp <? 0 then i64 (- k) else k in
    let fp := i64 (fp - fixedpt_mul k LN2) in
    let z := fixedpt_mul fp fp in
    let R :=
      i64 (FIXEDPT_TWO +
        fixedpt_mul z (i64 (EXP_P0 + fixedpt_mul z (i64 (EXP_P1 +
        fixedpt_mul z (i64 (EXP_P2 + fixedpt_mul z (i64 (EXP_P3 +
        fixedpt_mul z EXP_P4)))))))) ) in
    let* q := fixedpt_div (fixedpt_mul fp FIXEDPT_TWO) (i64 (R - fp)) in
    let xp := i64 (FIXEDPT_ONE + q) in
    let* k := if k <? 0 then shift_right FIXEDPT_ONE (Z.shiftr (i64 (- k)) FIXEDPT_FBITS)
              else shift_left FIXEDPT_ONE (Z.shiftr k FIXEDPT_FBITS) in
    Ok (fixedpt_mul k xp).

Definition LG0 : Z := fixedpt_rconst 6666666666666735130 (10 ^ 19).
Definition LG1 : Z := fixedpt_rconst 3999999999940941908 (10 ^ 19).
Definition LG2 : Z := fixedpt_rconst 2857142874366239149 (10 ^ 19).
Definition LG3 : Z := fixedpt_rconst 2222219843214978396 (10 ^ 19).
Definition LG4 : Z := fixedpt_rconst 1818357216161805012 (10 ^ 19).
Definition LG5 : Z := fixedpt_rconst 1531383769920937332 (10 ^ 19).
Definition LG6 : Z := fixedpt_rconst 1479819860511658591 (10 ^ 19).

(** [while (xi > FIXEDPT_TWO) { xi >>= 1; log2++; }] *)
Fixpoint ln_scale (fuel : nat) (xi log2 : Z) : Z * Z :=
  match fuel with
  | O => (xi, log2)
  | S fuel =>
      if FIXEDPT_TWO <? xi then ln_scale fuel (Z.shiftr xi 1) (log2 + 1)
      else (xi, log2)
  end.

Definition fixedpt_ln (x : Z) : res Z :=
  if x <? 0 then Ok 0
  else if x =? 0 then Ok 4294967295
  else
    let '(xi, log2) := ln_scale 64 x 0 in
    let f := i64 (xi - FIXEDPT_ONE) in
    let* s := fixedpt_div f (i64 (FIXEDPT_TWO + f)) in
    let z := fixedpt_mul s s in
    let w := fixedpt_mul z z in
    let R :=
      i64 (fixedpt_mul w (i64 (LG1 + fixedpt_mul w (i64 (LG3 + fixedpt_mul w LG5)))) +
           fixedpt_mul z (i64 (LG0 + fixedpt_mul w (i64 (LG2 + fixedpt_mul w
             (i64 (LG4 + fixedpt_mul w LG6))))))) in
    Ok (i64 (i64 (fixedpt_mul LN2 (i64 (Z.shiftl log2 FIXEDPT_FBITS)) + f) -
             fixedpt_mul s (i64 (f - R)))).

Definition fixedpt_log (x base : Z) : res Z :=
  let* a := fixedpt_ln x in
  let* b := fixedpt_ln base in
  fixedpt_div a b.

Definition fixedpt_pow (n exp : Z) : res Z :=
  if exp =? 0 then Ok FIXEDPT_ONE
  else if n <? 0 then Ok 0
  else
    let* l := fixedpt_ln n in
    fixedpt_exp (fixedpt_mul l exp).

End fixedptc.

(** ** The class FixedPt *)
Module FPt.
Import fixedptc.

Record FixedPt := mkFixedPt { _value : Z; _valid : bool }.

#[global] Instance FixedPt_eq_dec : EqDecision FixedPt.
Proof. solve_decision. Defined.
#[global] Instance FixedPt_inhabited : Inhabited FixedPt := populate (mkFixedPt 0 true).

(** The default constructor: value 0, valid. *)
Definition FixedPt_default : FixedPt := mkFixedPt 0 true.

Definition fromC (value : Z) : FixedPt := mkFixedPt value true.
Definition fromInt (value : Z) : FixedPt := fromC (i64 (fixedpt_fromint value)).
Definition getC (f : FixedPt) : Z := _value f.
Definition set_valid (f : FixedPt) (valid : bool) : FixedPt := mkFixedPt (_value f) valid.
Definition get_valid (f : FixedPt) : bool := _valid f.

Definition add (a b : FixedPt) : FixedPt := fromC (fixedpt_add (_value a) (_value b)).
Definition sub (a b : FixedPt) : FixedPt := fromC (fixedpt_sub (_value a) (_value b)).
Definition mul (a b : FixedPt) : FixedPt := fromC (fixedpt_mul (_value a) (_value b)).
Definition div (a b : FixedPt) : res FixedPt := fromC <$> fixedpt_div (_value a) (_value b).

Definition int_add (lhs : Z) (rhs : FixedPt) : FixedPt := add (fromInt lhs) rhs.
Definition int_sub (lhs : Z) (rhs : FixedPt) : FixedPt := sub (fromInt lhs) rhs.
Definition int_mul (lhs : Z) (rhs : FixedPt) : FixedPt := mul (fromInt lhs) rhs.
Definition gt (lhs rhs : FixedPt) : bool := getC rhs <? getC lhs.
Definition lt (lhs rhs : FixedPt) : bool := getC lhs <? getC rhs.
Definition fpt_abs (value : FixedPt) : FixedPt :=
  if getC value <? 0 then fromC (i64 (- getC value)) else value.

End FPt.

Declare Scope fpt_scope.
Delimit Scope fpt_scope with fpt.
Bind Scope fpt_scope with FPt.FixedPt.
Infix "+" := FPt.add : fpt_scope.
Infix "-" := FPt.sub : fpt_scope.
Infix "*" := FPt.mul : fpt_scope.
Infix "/" := FPt.div : fpt_scope.

(** ** Arithmetic: exactness and rounding *)
Section arithmetic.
Import fixedptc.

Lemma ONE_eq : FIXEDPT_ONE = 2 ^ 40.
Proof. reflexivity. Qed.

Lemma shl_FBITS a : Z.shiftl a FIXEDPT_FBITS = a * 2 ^ 40.
Proof. rewrite Z.shiftl_mul_pow2 by (vm_compute; discriminate). reflexivity. Qed.

Lemma shr_FBITS a : Z.shiftr a FIXEDPT_FBITS = a / 2 ^ 40.
Proof. rewrite Z.shiftr_div_pow2 by (vm_compute; discriminate). reflexivity. Qed.

Lemma fromint_val i : in_s 24 i -> i64 (fixedpt_fromint i) = i * 2 ^ 40.
Proof.
  intros H. unfold fixedpt_fromint, i128. rewrite shl_FBITS, (swrap_id 128) by zrange.
  apply i64_id. zrange.
Qed.

Lemma fromInt_val i : in_s 24 i -> FPt.fromInt i = FPt.fromC (i * 2 ^ 40).
Proof. intros H. unfold FPt.fromInt. by rewrite fromint_val. Qed.

(** Integers survive the conversion to fixed point and back. *)
Lemma toint_fromint i : in_s 24 i -> fixedpt_toint (i64 (fixedpt_fromint i)) = i.
Proof. intros H. unfold fixedpt_toint. rewrite fromint_val, shr_FBITS by done. apply Z.div_mul. lia. Qed.

(** The product is the exact product rounded down to a multiple of [2^-40]. *)
Lemma mul_floor a b :
  in_s 64 (a * b / 2 ^ 40) ->
  0 <= a * b - fixedpt_mul a b * 2 ^ 40 < 2 ^ 40.
Proof.
  intros H. unfold fixedpt_mul. rewrite shr_FBITS, i64_id by done.
  pose proof (Z.mod_pos_bound (a * b) (2 ^ 40) ltac:(lia)).
  rewrite Z.mod_eq in H0 by lia. lia.
Qed.

(** Multiplying by an integer is exact, modulo the word size. *)
Lemma mul_fromint n x : in_s 24 n -> fixedpt_mul (i64 (fixedpt_fromint n)) x = i64 (n * x).
Proof.
  intros H. unfold fixedpt_mul. rewrite fromint_val, shr_FBITS by done.
  f_equal. replace (n * 2 ^ 40 * x) with (n * x * 2 ^ 40) by ring.
  apply Z.div_mul. lia.
Qed.

(** The quotient is the exact quotient rounded toward zero. *)
Lemma div_trunc a b :
  b <> 0 -> in_s 64 (Z.quot (a * 2 ^ 40) b) ->
  exists q, fixedpt_div a b = Ok q /\ Z.abs (a * 2 ^ 40 - q * b) < Z.abs b /\
            0 <= (a * 2 ^ 40 - q * b) * a.
Proof.
  intros Hb H. exists (Z.quot (a * 2 ^ 40) b). unfold fixedpt_div.
  rewrite (proj2 (Z.eqb_neq _ _) Hb), shl_FBITS, i64_id by done.
  pose proof (Z.quot_rem' (a * 2 ^ 40) b) as E.
  pose proof (Z.rem_bound_abs (a * 2 ^ 40) b Hb) as B.
  pose proof (Z.rem_sign_mul (a * 2 ^ 40) b Hb) as S.
  split; [done|]. replace (a * 2 ^ 40 - (a * 2 ^ 40) ÷ b * b) with (Z.rem (a * 2 ^ 40) b) by lia.
  split; [done|]. nia.
Qed.

Lemma div_zero a : fixedpt_div a 0 = Fault DivByZero.
Proof. reflexivity. Qed.

Lemma div_nonzero a b : b <> 0 -> fixedpt_div a b = Ok (i64 (Z.quot (a * 2 ^ 40) b)).
Proof. intros H. unfold fixedpt_div. by rewrite (proj2 (Z.eqb_neq _ _) H), shl_FBITS. Qed.

(** Scaling both operands does not change the quotient. *)
Lemma div_scale k a b : k <> 0 -> fixedpt_div (k * a) (k * b) = fixedpt_div a b.
Proof.
  intros Hk. destruct (decide (b = 0)) as [->|Hb].
  - by rewrite Z.mul_0_r, !div_zero.
  - rewrite !div_nonzero by nia. do 2 f_equal. rewrite <- Z.mul_assoc.
    apply Z.quot_mul_cancel_l; done.
Qed.

End arithmetic.

(** ** Printing *)
Section printing.
Import fixedptc.

Definition is_digit (b : byte) : Prop := 48 <= b <= 57.

(** The number a list of decimal digits denotes. *)
Definition dec_value (ds : bytes) : Z := fold_left (fun a d => 10 * a + (d - 48)) ds 0.

Lemma dec_value_app ds ds' :
  dec_value (ds ++ ds') = dec_value ds * 10 ^ Z.of_nat (length ds') + dec_value ds'.
Proof.
  unfold dec_value. rewrite fold_left_app. generalize (fold_left (fun a d => 10 * a + (d - 48)) ds 0).
  induction ds' as [|d ds' IH]; intros a; cbn [fold_left length].
  - change (10 ^ Z.of_nat 0) with 1. lia.
  - rewrite IH, (IH (10 * 0 + (d - 48))), Nat2Z.inj_succ, Z.pow_succ_r by lia. lia.
Qed.

Lemma dec_value_cons d ds :
  dec_value (d :: ds) = (d - 48) * 10 ^ Z.of_nat (length ds) + dec_value ds.
Proof. apply (dec_value_app [d]). Qed.

Lemma dec_value_snoc ds d : dec_value (ds ++ [d]) = 10 * dec_value ds + (d - 48).
Proof. rewrite dec_value_app. unfold dec_value at 2. simpl. lia. Qed.

Lemma ip_digits_spec room n ip :
  (n <= room)%nat -> (1 <= n)%nat -> 0 <= ip < 10 ^ Z.of_nat n ->
  exists ds, ip_digits room ip = Ok ds /\ dec_value (reverse ds) = ip /\
             Forall is_digit ds /\ (1 <= length ds <= n)%nat.
Proof.
  revert n ip. induction room as [|room IH]; intros n ip Hr Hn Hip; [lia|].
  pose proof (Z.mod_pos_bound ip 10 ltac:(lia)) as Hm.
  pose proof (Z.div_mod ip 10 ltac:(lia)) as Hd.
  assert (is_digit (48 + ip mod 10)) by (unfold is_digit; lia).
  simpl ip_digits. destruct (Z.eqb_spec (ip / 10) 0) as [E|E].
  - exists [48 + ip mod 10]. split_and!; [done| |by constructor|simpl; lia..].
    unfold dec_value. cbn. lia.
  - destruct n as [|n]; [lia|]. rewrite Nat2Z.inj_succ, Z.pow_succ_r in Hip by lia.
    assert (1 <= n)%nat.
    { destruct n; [|lia]. change (10 ^ Z.of_nat 0) with 1 in Hip. lia. }
    destruct (IH n (ip / 10)) as (ds & Hds & Hv & Hf & Hl); [lia..|].
    exists ((48 + ip mod 10) :: ds). rewrite Hds. split_and!; [done| |by constructor|simpl; lia..].
    rewrite reverse_cons, dec_value_snoc, Hv. lia.
Qed.

Lemma land_mask64 z : Z.land z (Z.shiftl 1 FIXEDPT_BITS - 1) = z mod 2 ^ 64.
Proof.
  replace (Z.shiftl 1 FIXEDPT_BITS - 1) with (Z.ones 64) by reflexivity.
  apply Z.land_ones. lia.
Qed.

Lemma fr_digits_spec fuel fr ndec max :
  (Z.to_nat (max - ndec) <= fuel)%nat -> (1 <= fuel)%nat ->
  let ds := fr_digits fuel fr ndec max in
  dec_value ds = (fr mod 2 ^ 64) * 10 ^ Z.of_nat (length ds) / 2 ^ 64 /\
  Forall is_digit ds /\ 1 <= Z.of_nat (length ds) <= Z.max 1 (max - ndec).
Proof.
  revert fr ndec. induction fuel as [|fuel IH]; intros fr ndec Hf H1; [lia|].
  cbn zeta. simpl fr_digits. rewrite land_mask64. set (f := fr mod 2 ^ 64).
  assert (0 <= f < 2 ^ 64) by (apply Z.mod_pos_bound; lia).
  assert (Hu : u128 (f * 10) = f * 10) by (apply uwrap_id; zrange). rewrite Hu.
  assert (Hs : Z.shiftr (f * 10) FIXEDPT_BITS mod 10 = f * 10 / 2 ^ 64).
  { rewrite Z.shiftr_div_pow2 by (vm_compute; discriminate).
    change (2 ^ FIXEDPT_BITS) with (2 ^ 64). apply Z.mod_small. divlia. }
  rewrite Hs. set (d := f * 10 / 2 ^ 64).
  assert (0 <= d <= 9) by (unfold d; divlia).
  assert (is_digit (48 + d)) by (unfold is_digit; lia).
  destruct (negb (f * 10 =? 0) && (ndec + 1 <? max)) eqn:E.
  - apply andb_true_iff in E as [_ E]. apply Z.ltb_lt in E.
    destruct (IH (f * 10) (ndec + 1)) as (Hv & Hd & Hl); [lia..|].
    set (ds := fr_digits fuel (f * 10) (ndec + 1) max) in *. cbv zeta in Hv, Hl.
    split; [|split; [constructor; auto|simpl length; lia]].
    rewrite dec_value_cons, Hv. simpl length. rewrite Nat2Z.inj_succ, Z.pow_succ_r by lia.
    set (t := 10 ^ Z.of_nat (length ds)).
    pose proof (Z.div_mod (f * 10) (2 ^ 64) ltac:(lia)) as D. fold d in D.
    replace (f * (10 * t)) with ((f * 10) mod 2 ^ 64 * t + (d * t) * 2 ^ 64) by nia.
    rewrite Z.div_add by lia. lia.
  - split; [|split; [by constructor|simpl; lia]].
    unfold dec_value. simpl fold_left. change (10 ^ Z.of_nat (length [48 + d])) with 10.
    fold d. lia.
Qed.

(** Cutting a trailing zero keeps the digits a truncation of the fraction. *)
Lemma cut_zero_spec F ds :
  0 <= F -> dec_value ds = F * 10 ^ Z.of_nat (length ds) / 2 ^ 64 -> Forall is_digit ds ->
  (1 <= length ds)%nat ->
  let ds' := if (1 <? Z.of_nat (length ds)) && (default 0 (last ds) =? 48)
             then removelast ds else ds in
  dec_value ds' = F * 10 ^ Z.of_nat (length ds') / 2 ^ 64 /\ Forall is_digit ds' /\
  (1 <= length ds' <= length ds)%nat.
Proof.
  intros HF Hv Hd Hl ds'. unfold ds'.
  destruct (_ && _) eqn:E; [|auto with lia].
  apply andb_true_iff in E as [E1 E2]. apply Z.ltb_lt in E1. apply Z.eqb_eq in E2.
  destruct ds as [|d ds _] using rev_ind; [simpl in *; lia|].
  rewrite last_snoc in E2. simpl in E2. subst d.
  rewrite removelast_last. rewrite length_app in *. simpl length in *.
  apply Forall_app in Hd as [Hd _].
  split; [|split; [done|lia]].
  rewrite dec_value_snoc in Hv. rewrite Nat2Z.inj_add, Z.pow_add_r in Hv by lia.
  change (10 ^ Z.of_nat 1) with 10 in Hv.
  assert (E : dec_value ds = 10 * dec_value ds / 10) by (rewrite Z.mul_comm, Z.div_mul; lia).
  rewrite E, <- (Z.add_0_r (10 * _)), <- (Z.sub_diag 48), Hv, Z.div_div by lia.
  rewrite Z.mul_assoc. apply Z.div_mul_cancel_r; lia.
Qed.

Lemma str_fr A :
  Z.land (u128 (i64 (Z.shiftl (fixedpt_fracpart A) FIXEDPT_WBITS)))
    (Z.shiftl 1 FIXEDPT_BITS - 1) = (A mod 2 ^ 40) * 2 ^ 24.
Proof.
  rewrite land_mask64. unfold fixedpt_fracpart.
  replace FIXEDPT_FMASK with (Z.ones 40) by reflexivity. rewrite Z.land_ones by lia.
  rewrite Z.shiftl_mul_pow2 by (vm_compute; discriminate). change (2 ^ FIXEDPT_WBITS) with (2 ^ 24).
  pose proof (Z.mod_pos_bound A (2 ^ 40) ltac:(lia)).
  set (x := A mod 2 ^ 40 * 2 ^ 24) in *. assert (0 <= x < 2 ^ 64) by lia.
  destruct (swrap_cong 64 ltac:(lia) x) as [k Hk]. unfold i64, u128, uwrap. rewrite Hk.
  change (2 ^ 128) with (2 ^ 64 * 2 ^ 64). rewrite Z.rem_mul_r by lia.
  rewrite (Z.mul_comm (2 ^ 64) (_ mod _)), Z_mod_plus_full, Z.mod_mod, Z_mod_plus_full by lia.
  apply Z.mod_small. lia.
Qed.

End printing.

(** ** Properties *)
Section properties.
Import fixedptc.

(** C40: multiplication and division of fixed-point numbers round correctly.
    Whenever the exact product fits the word, [fixedpt_mul] is that product rounded
    down, and whenever the divisor is not zero and the exact quotient fits the word,
    [fixedpt_div] is that quotient rounded toward zero, each within one unit of
    [2^-40]; a zero divisor is a fault, not a value. *)
Theorem fixedpt_rounding a b :
  (in_s 64 (a * b / 2 ^ 40) -> 0 <= a * b - fixedpt_mul a b * 2 ^ 40 < 2 ^ 40) /\
  (b <> 0 -> in_s 64 (Z.quot (a * 2 ^ 40) b) ->
   exists q, fixedpt_div a b = Ok q /\ Z.abs (a * 2 ^ 40 - q * b) < Z.abs b /\
             0 <= (a * 2 ^ 40 - q * b) * a) /\
  fixedpt_div a 0 = Fault DivByZero.
Proof. split_and!; intros; auto using div_trunc, div_zero; by apply mul_floor. Qed.

Lemma fixedpt_rounding_witness :
  let a := 5 * 2 ^ 40 in let b := - 3 * 2 ^ 40 in
  0 <= a * b - fixedpt_mul a b * 2 ^ 40 < 2 ^ 40 /\
  (exists q, fixedpt_div a b = Ok q /\ Z.abs (a * 2 ^ 40 - q * b) < Z.abs b /\
             0 <= (a * 2 ^ 40 - q * b) * a).
Proof.
  destruct (fixedpt_rounding (5 * 2 ^ 40) (- 3 * 2 ^ 40)) as (Hm & Hd & _).
  split; [apply Hm|apply Hd]; vm_compute; repeat split; discriminate.
Defined.

(** [fixedpt_str] prints the truncated decimal expansion.  For every number
    but [INT64_MIN] it succeeds; the text is an optional minus sign, the digits
    of the integral part, a dot, and [k >= 1] digits that are the fraction
    truncated to [k] decimals; with [max_dec] at most 15 (every caller) text
    and NUL fit the 25-byte buffers the callers pass. *)
Theorem fixedpt_str_spec A max_dec :
  in_s 64 A -> A <> - 2 ^ 63 ->
  exists ip fr,
    fixedpt_str A max_dec = Ok ((if A <? 0 then [45] else []) ++ ip ++ [46] ++ fr) /\
    Forall is_digit ip /\ Forall is_digit fr /\
    dec_value ip = Z.abs A / 2 ^ 40 /\
    dec_value fr = (Z.abs A mod 2 ^ 40) * 10 ^ Z.of_nat (length fr) / 2 ^ 40 /\
    1 <= Z.of_nat (length fr) <= Z.max 1 (str_max_dec max_dec) /\
    (str_max_dec max_dec <= 15 ->
     Z.of_nat (length ((if A <? 0 then [45] else []) ++ ip ++ [46] ++ fr)) + 1 <= 25).
Proof.
  intros HA Hmin. unfold fixedpt_str. set (m := str_max_dec max_dec).
  assert (HB : (if A <? 0 then i64 (A * -1) else A) = Z.abs A).
  { destruct (Z.ltb_spec A 0); [|lia]. rewrite i64_id by zrange. lia. }
  rewrite HB. set (B := Z.abs A). assert (0 <= B < 2 ^ 63) by (subst B; zrange).
  assert (Hip : u128 (fixedpt_toint B) = B / 2 ^ 40).
  { unfold fixedpt_toint. rewrite shr_FBITS. apply uwrap_id. unfold in_u. divlia. }
  rewrite Hip. destruct (ip_digits_spec 12 7 (B / 2 ^ 40)) as (tmp & -> & Hv & Hd & Hl);
    [lia..|change (10 ^ Z.of_nat 7) with 10000000; divlia|]. res_simpl.
  rewrite str_fr.
  destruct (fr_digits_spec (S (Z.to_nat m)) (B mod 2 ^ 40 * 2 ^ 24) 0 m) as (Fv & Fd & Fl); [lia..|].
  set (ds := fr_digits _ _ 0 m) in *. cbv zeta in Fv, Fl.
  rewrite (Z.mod_small (_ * 2 ^ 24)) in Fv by divlia.
  destruct (cut_zero_spec (B mod 2 ^ 40 * 2 ^ 24) ds ltac:(divlia) Fv Fd ltac:(lia)) as (Cv & Cd & Cl).
  set (ds' := if (1 <? Z.of_nat (length ds)) && (default 0 (last ds) =? 48)
              then removelast ds else ds) in *.
  exists (reverse tmp), ds'. split; [reflexivity|].
  split; [by apply Forall_reverse|]. split; [exact Cd|]. split; [exact Hv|]. split.
  { rewrite Cv. rewrite <- Z.mul_assoc, (Z.mul_comm (2 ^ 24)), Z.mul_assoc.
    change (2 ^ 64) with (2 ^ 40 * 2 ^ 24). apply Z.div_mul_cancel_r; lia. }
  split; [lia|]. intros Hm. rewrite !length_app, length_reverse.
  clear Fv Cv Hv Hip HB. clearbody ds' ds m. destruct (A <? 0); simpl length; lia.
Qed.

Lemma fixedpt_str_spec_witness :
  exists ip fr,
    fixedpt_str (- 5 * 2 ^ 40 - 2 ^ 38) 4 = Ok ([45] ++ ip ++ [46] ++ fr) /\
    Forall is_digit ip /\ Forall is_digit fr /\
    dec_value ip = 5 /\
    dec_value fr = 2 ^ 38 * 10 ^ Z.of_nat (length fr) / 2 ^ 40 /\
    1 <= Z.of_nat (length fr) <= 4 /\
    (4 <= 15 -> Z.of_nat (length ([45] ++ ip ++ [46] ++ fr)) + 1 <= 25).
Proof.
  apply (fixedpt_str_spec (- 5 * 2 ^ 40 - 2 ^ 38) 4); [zrange|lia].
Defined.

(** the square root is wrong for every integer above one.  [fixedpt_sqrt]
    keeps its iterate and its iteration count in a 32-bit [int]: for an
    integral operand the count comes out as 0 and the start value as 1, so the
    result is the smallest positive fixed-point number, [2^-40]. *)
Theorem fixedpt_sqrt_integer n :
  2 <= n < 2 ^ 23 -> fixedpt_sqrt (i64 (fixedpt_fromint n)) = Ok 1.
Proof.
  intros Hn. rewrite fromint_val by zrange. unfold fixedpt_sqrt. rewrite !ONE_eq.
  rewrite (proj2 (Z.ltb_ge _ _)), (proj2 (Z.eqb_neq _ 0)), (proj2 (Z.eqb_neq _ (2 ^ 40))) by lia.
  cbn [orb]. rewrite (proj2 (Z.ltb_ge (n * 2 ^ 40) (2 ^ 40))) by lia. cbn [andb].
  res_simpl. rewrite (proj2 (Z.ltb_lt (2 ^ 40) _)) by lia.
  assert (Hw : forall k, i32 (k * 2 ^ 32) = 0).
  { intros k. unfold i32. rewrite (swrap_eq_cong 32 _ 0 k) by lia. apply swrap_0. lia. }
  replace (n * 2 ^ 40) with (n * 2 ^ 8 * 2 ^ 32) at 1 by ring. rewrite Hw. simpl sqrt_iters.
  cbn [sqrt_newton mbind res_bind]. f_equal.
  rewrite Z.shiftr_div_pow2 by lia. change (2 ^ 1) with 2.
  replace (n * 2 ^ 40) with (n * 2 ^ 7 * 2 ^ 32 * 2) by ring. rewrite Z.div_mul by lia.
  unfold i32. rewrite (swrap_eq_cong 32 _ 1 (n * 2 ^ 7)) by lia. reflexivity.
Qed.

Lemma fixedpt_sqrt_integer_witness : fixedpt_sqrt (i64 (fixedpt_fromint 4)) = Ok 1.
Proof. apply (fixedpt_sqrt_integer 4). split; [discriminate|reflexivity]. Defined.

End properties.

(** Powers of one: what the price parser's denominator evaluates to. *)
Lemma fixedpt_pow_one e : fixedptc.fixedpt_pow fixedptc.FIXEDPT_ONE e = Ok fixedptc.FIXEDPT_ONE.
Proof.
  unfold fixedptc.fixedpt_pow. destruct (Z.eqb_spec e 0); [done|].
  replace (fixedptc.fixedpt_ln fixedptc.FIXEDPT_ONE) with (Ok 0) by (vm_compute; reflexivity).
  reflexivity.
Qed.
