(* ===== verification/CircArray.v ===== *)
(** * CircArray: the ring buffer

    Models the class template [CircArray] of circ_array.hpp (Click copy under
    click-2.0.1/include/click/, baseline copy under hand_coded/; they differ in
    [deep_copy] only).  The element type's default constructor, which
    [new T[capacity]] runs, is the [Inhabited] instance of the type.  Sizes and
    indices are [nat]: an array of more than [2^63] elements cannot be allocated,
    so the [size_t] arithmetic on them does not wrap; the doubled capacity of
    [resize_by_two] does, and so do the [int] counters of its loop and of that of
    [pop_at].  The copy loops count over the elements of the source: their [int]
    counter is exact below [2^31] elements, and every ring the program makes has a
    capacity that is an [int].

    [contents] abstracts a ring to the list of its elements, front first; the
    lemmas show every operation to be the corresponding operation on lists. *)

From S2P Require Import Prelude.

Inductive RC := SUCCESS | NO_SPACE_ERROR | BUFFER_EMPTY_ERROR.

#[global] Instance RC_eq_dec : EqDecision RC.
Proof. solve_decision. Defined.

Local Open Scope nat_scope.

Module CircArray.
Section ops.
Context {T : Type} `{Inhabited T}.

Record CircArray := mkCA {
  _array : list T;
  _start : nat;
  _size : nat;
  _capacity : nat
}.

(** [x % _capacity]; the modulus by zero is a fault. *)
Definition mod_capacity (a : CircArray) (x : nat) : res nat :=
  if _capacity a =? 0 then Fault DivByZero else Ok (x mod _capacity a).

(** A store to [_array[i]]. *)
Definition store (a : CircArray) (i : nat) (v : T) : res CircArray :=
  if i <? length (_array a)
  then Ok (mkCA (<[i := v]> (_array a)) (_start a) (_size a) (_capacity a))
  else Fault OutOfBounds.

Definition load (a : CircArray) (i : nat) : res T := of_option OutOfBounds (_array a !! i).

Definition set_initial_values (capacity : nat) : CircArray :=
  mkCA (replicate capacity inhabitant) 0 0 capacity.

Definition CircArray_new : nat -> CircArray := set_initial_values.
Definition CircArray_default : CircArray := set_initial_values 10.

Definition occupancy (a : CircArray) : nat := _size a.
Definition capacity (a : CircArray) : nat := _capacity a.
Definition is_full (a : CircArray) : bool := _size a =? _capacity a.
Definition empty (a : CircArray) : bool := _size a =? 0.

(** [operator[]], read through and written through. *)
Definition get (a : CircArray) (index : nat) : res T :=
  assert* (index <? _size a);
  let* i := mod_capacity a (_start a + index) in
  load a i.

Definition set (a : CircArray) (index : nat) (v : T) : res CircArray :=
  assert* (index <? _size a);
  let* i := mod_capacity a (_start a + index) in
  store a i v.

Definition with_size (a : CircArray) (size : nat) : CircArray :=
  mkCA (_array a) (_start a) size (_capacity a).
Definition with_start (a : CircArray) (start : nat) : CircArray :=
  mkCA (_array a) start (_size a) (_capacity a).

(** [RC pop_back (T& value)] *)
Definition pop_back_rc (a : CircArray) (value : T) : res (CircArray * T * RC) :=
  if _size a =? 0 then Ok (a, value, BUFFER_EMPTY_ERROR)
  else
    let* i := mod_capacity a (_start a + _size a - 1) in
    let* value := load a i in
    Ok (with_size a (_size a - 1), value, SUCCESS).

(** [T pop_back ()] *)
Definition pop_back (a : CircArray) : res (CircArray * T) :=
  let* r := pop_back_rc a inhabitant in
  let '(a, value, rc) := r in
  assert* bool_decide (rc = SUCCESS);
  Ok (a, value).

(** [RC pop_front (T& value)] *)
Definition pop_front_rc (a : CircArray) (value : T) : res (CircArray * T * RC) :=
  if _size a =? 0 then Ok (a, value, BUFFER_EMPTY_ERROR)
  else
    let* value := load a (_start a) in
    let a := with_size a (_size a - 1) in
    let* start := mod_capacity a (_start a + 1) in
    Ok (with_start a start, value, SUCCESS).

(** [T pop_front ()] *)
Definition pop_front (a : CircArray) : res (CircArray * T) :=
  let* r := pop_front_rc a inhabitant in
  let '(a, value, rc) := r in
  assert* bool_decide (rc = SUCCESS);
  Ok (a, value).

Definition push_back (a : CircArray) (value : T) (overwrite_when_full : bool)
  : res (CircArray * RC) :=
  if (_size a =? _capacity a) && negb overwrite_when_full then Ok (a, NO_SPACE_ERROR)
  else
    let* a :=
      if _size a =? _capacity a then
        let* r := pop_front a in
        assert* (_size r.1 <? _capacity r.1);
        Ok r.1
      else Ok a in
    let* i := mod_capacity a (_start a + _size a) in
    let* a := store a i value in
    Ok (with_size a (_size a + 1), SUCCESS).

Definition push_front (a : CircArray) (value : T) (overwrite_when_full : bool)
  : res (CircArray * RC) :=
  if (_size a =? _capacity a) && negb overwrite_when_full then Ok (a, NO_SPACE_ERROR)
  else
    let* a :=
      if _size a =? _capacity a then
        let* r := pop_back a in
        assert* (_size r.1 <? _capacity r.1);
        Ok r.1
      else Ok a in
    let a := with_start a (if _start a =? 0 then _capacity a - 1 else _start a - 1) in
    let* a := store a (_start a) value in
    Ok (with_size a (_size a + 1), SUCCESS).

(** The copy loops: [for (i ...; ++i) lhs[i] = rhs[i]], [n] turns from [i]. *)
Fixpoint copy_loop (n i : nat) (lhs rhs : CircArray) : res CircArray :=
  match n with
  | O => Ok lhs
  | S n =>
      let* v := get rhs i in
      let* lhs := set lhs i v in
      copy_loop n (S i) lhs rhs
  end.

(** Click's [deep_copy].  [lhs] is [None] inside the copy constructor, where
    [_array] is still [NULL]; arrays of equal capacity are reused. *)
Definition deep_copy (lhs : option CircArray) (rhs : CircArray) : res CircArray :=
  let array :=
    match lhs with
    | Some l => if _capacity l =? _capacity rhs then _array l
                else replicate (_capacity rhs) inhabitant
    | None => replicate (_capacity rhs) inhabitant
    end in
  copy_loop (_size rhs) 0 (mkCA array (_start rhs) (_size rhs) (_capacity rhs)) rhs.

(** The baseline's [deep_copy] always reallocates. *)
Definition deep_copy_hc (lhs : option CircArray) (rhs : CircArray) : res CircArray :=
  copy_loop (_size rhs) 0
    (mkCA (replicate (_capacity rhs) inhabitant) (_start rhs) (_size rhs) (_capacity rhs)) rhs.

Definition CircArray_copy (copy : CircArray) : res CircArray := deep_copy None copy.
Definition assign (lhs rhs : CircArray) : res CircArray := deep_copy (Some lhs) rhs.

(** [int i = index] and [i + 1], as the [size_t] that [i < _size] compares and
    [operator[]] takes. *)
Definition int_index (index : nat) : nat := Z.to_nat (u64 (i32 (Z.of_nat index))).
Definition next_index (i : nat) : nat := Z.to_nat (u64 (i32 (Z.of_nat i + 1))).

(** [for (int i = 0; i < _size; ++i) temp[i] = this->operator[](i)]; [fuel] bounds the turns
    by the size. *)
Fixpoint resize_loop (fuel i : nat) (temp : list T) (a : CircArray) : res (list T) :=
  match fuel with
  | O => Ok temp
  | S fuel =>
      if i <? _size a then
        let* v := get a i in
        if i <? length temp then resize_loop fuel (next_index i) (<[i := v]> temp) a
        else Fault OutOfBounds
      else Ok temp
  end.

Definition resize_by_two (a : CircArray) : res CircArray :=
  let capacity := Z.to_nat (u64 (Z.of_nat (_capacity a) * 2)) in
  let* temp := resize_loop (_size a) 0 (replicate capacity inhabitant) a in
  Ok (mkCA temp 0 (_size a) capacity).

(** [for (int i = index; i < _size; ++i)]: shift left, popping the last element
    when it is reached; [fuel] bounds the turns by the initial size. *)
Fixpoint pop_at_loop (fuel i : nat) (a : CircArray) : res CircArray :=
  match fuel with
  | O => Ok a
  | S fuel =>
      if i <? _size a then
        if i =? _size a - 1 then
          let* r := pop_back a in pop_at_loop fuel (next_index i) r.1
        else
          let* v := get a (next_index i) in
          let* a := set a i v in
          pop_at_loop fuel (next_index i) a
      else Ok a
  end.

Definition pop_at (a : CircArray) (index : nat) : res (CircArray * T) :=
  assert* (index <? _size a);
  let* element := get a index in
  let* a := pop_at_loop (_size a) (int_index index) a in
  Ok (a, element).

(** ** Abstraction and invariant *)

Definition slot (a : CircArray) (i : nat) : nat := (_start a + i) mod _capacity a.

Definition contents (a : CircArray) : list T :=
  map (fun i => _array a !!! slot a i) (seq 0 (_size a)).

(** The class invariant. *)
Record wf (a : CircArray) : Prop := {
  wf_length : length (_array a) = _capacity a;
  wf_size : _size a <= _capacity a;
  wf_start : _start a < _capacity a \/ _capacity a = 0 /\ _start a = 0
}.

End ops.
Arguments CircArray T : clear implicits.
End CircArray.

(** ** Representation lemmas

    [repr a cap l]: the ring [a] is well formed, has capacity [cap] and holds
    the elements [l], front first. *)
Module CircArrayFacts.
Import CircArray.
Section facts.
Context {T : Type} `{Inhabited T}.
Implicit Types (a : CircArray T) (l : list T) (v x : T).

Definition repr a (cap : nat) l : Prop := wf a /\ _capacity a = cap /\ contents a = l.

Lemma mod_shift_ne s c i j : i < j -> j - i < c -> (s + i) mod c <> (s + j) mod c.
Proof.
  intros Hij Hc E.
  pose proof (Nat.div_mod_eq (s + i) c). pose proof (Nat.div_mod_eq (s + j) c).
  assert (c * ((s + j) / c - (s + i) / c) = j - i) by nia. nia.
Qed.

Lemma slot_lt a i : 0 < _capacity a -> slot a i < _capacity a.
Proof. intros. apply Nat.mod_upper_bound. lia. Qed.

Lemma length_contents a : length (contents a) = _size a.
Proof. unfold contents. by rewrite length_map, length_seq. Qed.

Lemma contents_lookup a i :
  wf a -> i < _size a -> contents a !! i = _array a !! slot a i.
Proof.
  intros [Hl Hs Hst] Hi. unfold contents.
  rewrite list_lookup_fmap, lookup_seq_lt by done. simpl.
  symmetry. apply list_lookup_lookup_total_lt. rewrite Hl. apply slot_lt. lia.
Qed.

(** Contents are determined slot by slot. *)
Lemma contents_eq a l :
  wf a -> length l = _size a ->
  (forall i, i < _size a -> _array a !! slot a i = l !! i) -> contents a = l.
Proof.
  intros Hwf Hl Hs. apply list_eq. intros i.
  destruct (decide (i < _size a)) as [Hi|Hi].
  - by rewrite contents_lookup, Hs.
  - rewrite !lookup_ge_None_2; rewrite ?length_contents; auto; lia.
Qed.

Lemma repr_length a cap l : repr a cap l -> length l = _size a /\ _size a <= cap.
Proof. intros ([] & <- & <-). by rewrite length_contents. Qed.

Lemma repr_unique a cap l cap' l' : repr a cap l -> repr a cap' l' -> cap = cap' /\ l = l'.
Proof. by intros (_ & <- & <-) (_ & <- & <-). Qed.

Lemma repr_new cap : repr (CircArray_new (T:=T) cap) cap [].
Proof.
  split; [|done]. split; simpl; [by rewrite length_replicate|lia|].
  destruct cap; auto with lia.
Qed.

Lemma mod_capacity_slot a i : 0 < _capacity a -> mod_capacity a (_start a + i) = Ok (slot a i).
Proof. intros. unfold mod_capacity. by rewrite (proj2 (Nat.eqb_neq _ _)) by lia. Qed.

Lemma load_slot a cap l i x :
  repr a cap l -> l !! i = Some x -> 0 < _capacity a /\ load a (slot a i) = Ok x.
Proof.
  intros (Hwf & <- & <-) Hx. pose proof (lookup_lt_Some _ _ _ Hx) as Hi.
  rewrite length_contents in Hi. destruct Hwf as [? ? ?]. split; [lia|].
  rewrite contents_lookup in Hx by done. unfold load. by rewrite Hx.
Qed.

Lemma repr_get a cap l i : repr a cap l -> get a i = of_option AssertFailed (l !! i).
Proof.
  intros Hr. destruct (repr_length _ _ _ Hr) as [Hl Hc]. unfold get.
  destruct (Nat.ltb_spec i (_size a)) as [Hi|Hi].
  - destruct (lookup_lt_is_Some_2 l i) as [x Hx]; [lia|].
    destruct (load_slot _ _ _ _ _ Hr Hx). by rewrite mod_capacity_slot, Hx.
  - rewrite (lookup_ge_None_2 l i) by lia. done.
Qed.

Lemma repr_set a cap l i v :
  repr a cap l -> i < length l ->
  exists a', set a i v = Ok a' /\ repr a' cap (<[i := v]> l).
Proof.
  intros (Hwf & <- & <-) Hi. rewrite length_contents in Hi.
  pose proof Hwf as [Hl Hs Hst]. unfold set. rewrite (proj2 (Nat.ltb_lt _ _) Hi).
  rewrite mod_capacity_slot by lia. res_simpl. unfold store.
  rewrite (proj2 (Nat.ltb_lt _ _)) by (rewrite Hl; apply slot_lt; lia).
  eexists. split; [done|].
  assert (Hwf' : wf (mkCA (<[slot a i:=v]> (_array a)) (_start a) (_size a) (_capacity a))).
  { split; simpl; [by rewrite length_insert|done..]. }
  split; [done|]. split; [done|]. apply contents_eq; [done|by rewrite length_insert, length_contents|].
  simpl. intros j Hj. change (slot _ j) with (slot a j).
  destruct (decide (i = j)) as [->|Hne].
  - rewrite !list_lookup_insert_eq; [done|by rewrite length_contents|rewrite Hl; apply slot_lt; lia].
  - rewrite !list_lookup_insert_ne, contents_lookup; auto.
    unfold slot. destruct (decide (i < j)).
    + apply mod_shift_ne; lia.
    + symmetry. apply mod_shift_ne; lia.
Qed.

Lemma repr_pop_front a cap x l :
  repr a cap (x :: l) -> exists a', pop_front a = Ok (a', x) /\ repr a' cap l.
Proof.
  intros Hr. destruct (repr_length _ _ _ Hr) as [Hl Hc]. simpl in Hl.
  destruct (load_slot _ _ _ 0 _ Hr eq_refl) as [Hpos Hload].
  destruct Hr as (Hwf & <- & Hcont). destruct Hwf as [Hlen Hsz Hst].
  replace (slot a 0) with (_start a) in Hload
    by (unfold slot; rewrite Nat.add_0_r, Nat.mod_small; lia).
  unfold pop_front, pop_front_rc. rewrite (proj2 (Nat.eqb_neq _ 0)) by lia.
  rewrite Hload. res_simpl. unfold mod_capacity. simpl.
  rewrite (proj2 (Nat.eqb_neq _ 0)) by lia. res_simpl. eexists. split; [done|].
  assert (Hm : (_start a + 1) mod _capacity a < _capacity a) by (apply Nat.mod_upper_bound; lia).
  split; [split; simpl; [done|lia|auto]|]. split; [done|].
  apply contents_eq; [split; simpl; [done|lia|auto]|simpl; lia|].
  simpl. intros i Hi. change (l !! i) with ((x :: l) !! S i).
  rewrite <- Hcont, contents_lookup by (try split; auto; lia).
  f_equal. unfold slot. simpl. rewrite Nat.Div0.add_mod_idemp_l. f_equal. lia.
Qed.

Lemma repr_pop_front_nil a cap : repr a cap [] -> pop_front a = Fault AssertFailed.
Proof.
  intros Hr. destruct (repr_length _ _ _ Hr) as [Hl _]. simpl in Hl.
  unfold pop_front, pop_front_rc. by rewrite <- Hl.
Qed.

Lemma repr_pop_back a cap x l :
  repr a cap (l ++ [x]) -> exists a', pop_back a = Ok (a', x) /\ repr a' cap l.
Proof.
  intros Hr. destruct (repr_length _ _ _ Hr) as [Hl Hc]. rewrite length_app in Hl. simpl in Hl.
  destruct (load_slot _ _ _ (length l) x Hr) as [Hpos Hload].
  { by rewrite lookup_app_r, Nat.sub_diag by lia. }
  destruct Hr as (Hwf & <- & Hcont). destruct Hwf as [Hlen Hsz Hst].
  unfold pop_back, pop_back_rc. rewrite (proj2 (Nat.eqb_neq _ 0)) by lia.
  replace (_start a + _size a - 1) with (_start a + length l) by lia.
  rewrite mod_capacity_slot by lia. res_simpl. rewrite Hload. res_simpl.
  eexists. split; [done|].
  split; [split; simpl; [done|lia|auto]|]. split; [done|].
  apply contents_eq; [split; simpl; [done|lia|auto]|simpl; lia|].
  simpl. intros i Hi. change (slot _ i) with (slot a i).
  rewrite <- (lookup_app_l l [x]) by lia. rewrite <- Hcont, contents_lookup; auto; [|lia].
  by split.
Qed.

Lemma repr_pop_back_nil a cap : repr a cap [] -> pop_back a = Fault AssertFailed.
Proof.
  intros Hr. destruct (repr_length _ _ _ Hr) as [Hl _]. simpl in Hl.
  unfold pop_back, pop_back_rc. by rewrite <- Hl.
Qed.

(** Storing behind the last element of a ring with room. *)
Lemma store_back a cap l v :
  repr a cap l -> length l < cap ->
  exists a', (let* i := mod_capacity a (_start a + _size a) in
              let* a := store a i v in
              Ok (with_size a (_size a + 1), SUCCESS)) = Ok (a', SUCCESS) /\
             repr a' cap (l ++ [v]).
Proof.
  intros Hr Hroom. destruct (repr_length _ _ _ Hr) as [Hl _].
  destruct Hr as (Hwf & <- & Hcont). pose proof Hwf as [Hlen Hsz Hst].
  rewrite mod_capacity_slot by lia. res_simpl. unfold store.
  rewrite (proj2 (Nat.ltb_lt _ _)) by (rewrite Hlen; apply slot_lt; lia).
  res_simpl. eexists. split; [done|].
  assert (Hwf' : wf (mkCA (<[slot a (_size a):=v]> (_array a)) (_start a) (_size a + 1) (_capacity a))).
  { split; simpl; [by rewrite length_insert|lia|done]. }
  split; [done|]. split; [done|].
  apply contents_eq; [done|rewrite length_app; simpl; lia|].
  simpl. intros i Hi. unfold with_size. simpl. change (slot _ i) with (slot a i).
  destruct (decide (i = _size a)) as [->|Hne].
  - rewrite list_lookup_insert_eq by (rewrite Hlen; apply slot_lt; lia).
    rewrite lookup_app_r by lia. by replace (_size a - length l) with 0 by lia.
  - rewrite list_lookup_insert_ne by (unfold slot; intros E; symmetry in E; revert E; apply mod_shift_ne; lia).
    rewrite lookup_app_l by lia. rewrite <- Hcont, contents_lookup; auto; lia.
Qed.

(** Storing before the first element of a ring with room. *)
Lemma store_front a cap l v :
  repr a cap l -> length l < cap ->
  exists a', (let a := with_start a (if _start a =? 0 then _capacity a - 1 else _start a - 1) in
              let* a := store a (_start a) v in
              Ok (with_size a (_size a + 1), SUCCESS)) = Ok (a', SUCCESS) /\
             repr a' cap (v :: l).
Proof.
  intros Hr Hroom. destruct (repr_length _ _ _ Hr) as [Hl _].
  destruct Hr as (Hwf & <- & Hcont). pose proof Hwf as [Hlen Hsz Hst].
  set (st := if _start a =? 0 then _capacity a - 1 else _start a - 1).
  assert (Hst' : st < _capacity a /\ (st + 1) mod _capacity a = _start a).
  { unfold st. destruct (Nat.eqb_spec (_start a) 0) as [E|E].
    - split; [lia|]. replace (_capacity a - 1 + 1) with (_capacity a) by lia.
      by rewrite Nat.Div0.mod_same.
    - split; [lia|]. rewrite Nat.mod_small; lia. }
  destruct Hst' as [Hlt Hnext]. cbv zeta. unfold store, with_start. simpl.
  rewrite (proj2 (Nat.ltb_lt _ _)) by lia. res_simpl. eexists. split; [done|].
  unfold with_size. simpl. set (a' := mkCA _ st _ _).
  assert (Hwf' : wf a') by (split; simpl; [by rewrite length_insert|lia|auto]).
  assert (Hslot : forall i, slot a' (S i) = slot a i).
  { intros i. unfold slot. simpl. rewrite <- Hnext.
    rewrite Nat.Div0.add_mod_idemp_l. f_equal. lia. }
  assert (Hst0 : slot a' 0 = st) by (unfold slot; simpl; rewrite Nat.add_0_r, Nat.mod_small; lia).
  split; [done|]. split; [done|].
  apply contents_eq; [done|simpl; lia|]. simpl. intros [|i] Hi.
  - rewrite Hst0, list_lookup_insert_eq by lia. done.
  - rewrite list_lookup_insert_ne.
    + rewrite Hslot. simpl. rewrite <- Hcont, contents_lookup; auto; lia.
    + rewrite <- Hst0. unfold slot. apply mod_shift_ne; simpl; lia.
Qed.

Lemma repr_push_back_room a cap l v ow :
  repr a cap l -> length l < cap ->
  exists a', push_back a v ow = Ok (a', SUCCESS) /\ repr a' cap (l ++ [v]).
Proof.
  intros Hr Hroom. destruct (repr_length _ _ _ Hr) as [Hl _].
  destruct (store_back _ _ _ v Hr Hroom) as (a' & E & Hr').
  exists a'. split; [|done]. rewrite <- E. unfold push_back.
  destruct Hr as (_ & Hc & _). by rewrite (proj2 (Nat.eqb_neq _ _)) by lia.
Qed.

Lemma repr_push_front_room a cap l v ow :
  repr a cap l -> length l < cap ->
  exists a', push_front a v ow = Ok (a', SUCCESS) /\ repr a' cap (v :: l).
Proof.
  intros Hr Hroom. destruct (repr_length _ _ _ Hr) as [Hl _].
  destruct (store_front _ _ _ v Hr Hroom) as (a' & E & Hr').
  exists a'. split; [|done]. rewrite <- E. unfold push_front.
  destruct Hr as (_ & Hc & _). by rewrite (proj2 (Nat.eqb_neq _ _)) by lia.
Qed.

(** A push into a full ring without [overwrite_when_full] is refused. *)
Lemma repr_push_full a cap l v :
  repr a cap l -> length l = cap ->
  push_back a v false = Ok (a, NO_SPACE_ERROR) /\
  push_front a v false = Ok (a, NO_SPACE_ERROR).
Proof.
  intros Hr Hf. destruct (repr_length _ _ _ Hr) as [Hl _]. destruct Hr as (_ & Hc & _).
  unfold push_back, push_front. by rewrite (proj2 (Nat.eqb_eq _ _)) by lia.
Qed.

(** A push into a full ring with [overwrite_when_full] drops the far end. *)
Lemma repr_push_back_over a cap x l v :
  repr a cap (x :: l) -> length (x :: l) = cap ->
  exists a', push_back a v true = Ok (a', SUCCESS) /\ repr a' cap (l ++ [v]).
Proof.
  intros Hr Hf. destruct (repr_length _ _ _ Hr) as [Hl _].
  destruct (repr_pop_front _ _ _ _ Hr) as (b & Hb & Hrb).
  destruct (repr_length _ _ _ Hrb) as [Hlb _]. simpl in Hf, Hl.
  destruct (store_back _ _ _ v Hrb) as (a' & E & Hr'); [lia|].
  exists a'. split; [|done]. rewrite <- E. unfold push_back.
  destruct Hr as (_ & Hc & _). destruct Hrb as (_ & Hcb & _).
  rewrite (proj2 (Nat.eqb_eq _ _)) by lia. cbn [andb negb]. rewrite Hb. res_simpl.
  cbn [fst]. by rewrite (proj2 (Nat.ltb_lt _ _)) by lia.
Qed.

Lemma repr_push_front_over a cap x l v :
  repr a cap (l ++ [x]) -> length (l ++ [x]) = cap ->
  exists a', push_front a v true = Ok (a', SUCCESS) /\ repr a' cap (v :: l).
Proof.
  intros Hr Hf. destruct (repr_length _ _ _ Hr) as [Hl _].
  destruct (repr_pop_back _ _ _ _ Hr) as (b & Hb & Hrb).
  destruct (repr_length _ _ _ Hrb) as [Hlb _]. rewrite length_app in Hf, Hl. simpl in Hf, Hl.
  destruct (store_front _ _ _ v Hrb) as (a' & E & Hr'); [lia|].
  exists a'. split; [|done]. rewrite <- E. unfold push_front.
  destruct Hr as (_ & Hc & _). destruct Hrb as (_ & Hcb & _).
  rewrite (proj2 (Nat.eqb_eq _ _)) by lia. cbn [andb negb]. rewrite Hb. res_simpl.
  cbn [fst]. by rewrite (proj2 (Nat.ltb_lt _ _)) by lia.
Qed.

(** Overwriting pushes keep a sliding window of the last [cap] values. *)
Lemma repr_push_front a cap l v :
  repr a cap l -> 0 < cap ->
  exists a', push_front a v true = Ok (a', SUCCESS) /\ repr a' cap (take cap (v :: l)).
Proof.
  intros Hr Hc. destruct (repr_length _ _ _ Hr) as [Hl Hle].
  destruct (decide (length l < cap)) as [Hroom|Hfull].
  - rewrite take_cons_room by done. by apply repr_push_front_room.
  - rewrite take_cons_full by lia.
    destruct l as [|x l _] using rev_ind; [simpl in *; lia|].
    rewrite removelast_last. apply (repr_push_front_over _ _ x); [done|lia].
Qed.

Lemma repr_push_back a cap l v :
  repr a cap l -> 0 < cap ->
  exists a', push_back a v true = Ok (a', SUCCESS) /\
             repr a' cap (reverse (take cap (v :: reverse l))).
Proof.
  intros Hr Hc. destruct (repr_length _ _ _ Hr) as [Hl Hle].
  destruct (decide (length l < cap)) as [Hroom|Hfull].
  - rewrite take_cons_room by (rewrite length_reverse; done).
    rewrite reverse_cons, reverse_involutive. by apply repr_push_back_room.
  - rewrite take_cons_full by (rewrite ?length_reverse; lia).
    destruct l as [|x l]; [simpl in *; lia|].
    rewrite (reverse_cons l), removelast_last, reverse_cons, reverse_involutive.
    apply (repr_push_back_over _ _ x); [done|lia].
Qed.

(** *** Copying, resizing, deleting in the middle *)

Lemma take_S_insert l l0 i v :
  take i l0 = take i l -> l !! i = Some v -> i < length l0 ->
  take (S i) (<[i := v]> l0) = take (S i) l.
Proof.
  intros Ht Hv Hi. rewrite (take_S_r l i v) by done.
  rewrite (take_S_r (<[i:=v]> l0) i v) by (apply list_lookup_insert_eq; done).
  by rewrite take_insert_ge, Ht by lia.
Qed.

Lemma copy_loop_spec n i lhs rhs cap cap' l l0 :
  repr lhs cap l0 -> repr rhs cap' l -> length l0 = length l ->
  i + n = length l -> take i l0 = take i l ->
  exists a', copy_loop n i lhs rhs = Ok a' /\ repr a' cap l.
Proof.
  revert i lhs l0. induction n as [|n IH]; intros i lhs l0 Hl Hr Hlen Hi Ht.
  - exists lhs. split; [done|]. rewrite !firstn_all2 in Ht by lia. by rewrite <- Ht.
  - destruct (lookup_lt_is_Some_2 l i) as [v Hv]; [lia|].
    simpl. rewrite (repr_get _ _ _ _ Hr), Hv. res_simpl.
    destruct (repr_set _ _ _ i v Hl) as (lhs' & -> & Hl'); [lia|]. res_simpl.
    apply (IH (S i) lhs' _ Hl' Hr); rewrite ?length_insert; try lia.
    apply take_S_insert; auto; lia.
Qed.

Lemma copy_target a cap l array :
  repr a cap l -> length array = cap ->
  repr (mkCA array (_start a) (_size a) (_capacity a)) cap
    (contents (mkCA array (_start a) (_size a) (_capacity a))).
Proof. intros ([] & <- & <-) Hl. by repeat split. Qed.

Lemma repr_deep_copy lhs rhs cap l :
  repr rhs cap l -> match lhs with Some a => wf a | None => True end ->
  exists a', deep_copy lhs rhs = Ok a' /\ repr a' cap l.
Proof.
  intros Hr Hw. destruct (repr_length _ _ _ Hr) as [Hlen _]. unfold deep_copy.
  match goal with |- context [mkCA ?arr _ _ _] => set (array := arr) end.
  assert (Hal : length array = cap).
  { destruct Hr as (_ & <- & _). unfold array. destruct lhs as [b|]; [|by rewrite length_replicate].
    destruct (Nat.eqb_spec (_capacity b) (_capacity rhs)); [|by rewrite length_replicate].
    destruct Hw. lia. }
  pose proof (copy_target _ _ _ _ Hr Hal) as Ht.
  eapply (copy_loop_spec _ 0); [exact Ht|exact Hr|by rewrite length_contents|lia|done].
Qed.

Lemma repr_deep_copy_hc lhs rhs cap l :
  repr rhs cap l -> exists a', deep_copy_hc lhs rhs = Ok a' /\ repr a' cap l.
Proof. intros Hr. apply (repr_deep_copy None rhs cap l Hr I). Qed.

Lemma int_index_id i : (Z.of_nat i < 2 ^ 31)%Z -> int_index i = i.
Proof. intros Hi. unfold int_index. rewrite i32_id, u64_id by zrange. lia. Qed.

Lemma next_index_S i : (Z.of_nat (S i) < 2 ^ 31)%Z -> next_index i = S i.
Proof.
  intros Hi. unfold next_index. replace (Z.of_nat i + 1)%Z with (Z.of_nat (S i)) by lia. by apply int_index_id.
Qed.

Lemma resize_loop_spec n i temp a cap l :
  repr a cap l -> (Z.of_nat cap < 2 ^ 31)%Z -> i + n = length l -> length l <= length temp -> take i temp = take i l ->
  exists t, resize_loop n i temp a = Ok t /\ length t = length temp /\ take (length l) t = l.
Proof.
  intros Hr Hc. destruct (repr_length _ _ _ Hr) as [Hsz Hle].
  revert i temp. induction n as [|n IH]; intros i temp Hi Hlen Ht.
  - exists temp. split_and!; [done..|]. replace (length l) with i by lia.
    rewrite Ht. apply firstn_all2. lia.
  - destruct (lookup_lt_is_Some_2 l i) as [v Hv]; [lia|].
    cbn [resize_loop]. rewrite (proj2 (Nat.ltb_lt i (_size a))) by lia.
    rewrite (repr_get _ _ _ _ Hr), Hv. res_simpl.
    rewrite (proj2 (Nat.ltb_lt _ _)), next_index_S by lia.
    destruct (IH (S i) (<[i := v]> temp)) as (t & Et & El & Eq);
      [lia|rewrite length_insert; lia|apply take_S_insert; auto; lia|].
    exists t. by rewrite length_insert in El.
Qed.

Lemma repr_resize_by_two a cap l :
  repr a cap l -> (Z.of_nat cap < 2 ^ 31)%Z -> exists a', resize_by_two a = Ok a' /\ repr a' (cap * 2) l.
Proof.
  intros Hr Hc. destruct (repr_length _ _ _ Hr) as [Hlen Hle]. unfold resize_by_two.
  assert (E : Z.to_nat (u64 (Z.of_nat (_capacity a) * 2)) = _capacity a * 2).
  { destruct Hr as (_ & -> & _). rewrite u64_id by zrange. lia. }
  rewrite E. cbv zeta.
  destruct (resize_loop_spec (_size a) 0 (replicate (_capacity a * 2) inhabitant) a cap l)
    as (t & -> & Hlt & Htake); [done|done|lia|..].
  { destruct Hr as (_ & -> & _). rewrite length_replicate. lia. }
  { done. }
  destruct Hr as (Hwf & <- & _). rewrite length_replicate in Hlt.
  res_simpl. eexists. split; [done|].
  assert (W : wf (mkCA t 0 (_size a) (_capacity a * 2))).
  { split; simpl; [done|lia|]. destruct (_capacity a); auto with lia. }
  split; [done|]. split; [done|]. apply contents_eq; [done|simpl; lia|].
  simpl. intros i Hi. rewrite <- Htake, lookup_take_lt by lia. f_equal.
  unfold slot. simpl. apply Nat.mod_small. lia.
Qed.

Lemma delete_shift l i v :
  l !! S i = Some v -> delete (S i) (<[i := v]> l) = delete i l.
Proof.
  revert i. induction l as [|x l IH]; intros i Hv; [done|].
  destruct i as [|i]; simpl in *.
  - destruct l as [|y l]; [done|]. simpl in *. by injection Hv as ->.
  - f_equal. by apply IH.
Qed.

Lemma pop_at_loop_spec fuel i a cap l :
  repr a cap l -> (Z.of_nat cap < 2 ^ 31)%Z -> i < length l -> length l - i <= fuel ->
  exists a', pop_at_loop fuel i a = Ok a' /\ repr a' cap (delete i l).
Proof.
  revert i a l. induction fuel as [|fuel IH]; intros i a l Hr Hc Hi Hf; [lia|].
  destruct (repr_length _ _ _ Hr) as [Hlen Hle].
  cbn [pop_at_loop]. rewrite next_index_S by lia. rewrite (proj2 (Nat.ltb_lt _ _)) by lia.
  destruct (Nat.eqb_spec i (_size a - 1)) as [->|Hne].
  - destruct l as [|x l _] using rev_ind; [simpl in *; lia|].
    destruct (repr_pop_back _ _ _ _ Hr) as (a' & -> & Hr'). res_simpl. cbn [fst].
    rewrite length_app in Hlen, Hi. simpl in Hlen, Hi.
    exists a'. replace (_size a - 1) with (length l) by lia.
    rewrite (delete_middle l [] x), app_nil_r. split; [|done].
    destruct (repr_length _ _ _ Hr') as [Hlen' _].
    destruct fuel; cbn [pop_at_loop]; [done|]. by rewrite (proj2 (Nat.ltb_ge _ _)) by lia.
  - destruct (lookup_lt_is_Some_2 l (S i)) as [v Hv]; [lia|].
    rewrite (repr_get _ _ _ _ Hr), Hv. res_simpl.
    destruct (repr_set _ _ _ i v Hr) as (a' & -> & Hr'); [lia|]. res_simpl.
    rewrite <- (delete_shift l i v) by done.
    apply IH; [done|done|rewrite length_insert; lia..].
Qed.

Lemma repr_pop_at a cap l i x :
  repr a cap l -> (Z.of_nat cap < 2 ^ 31)%Z -> l !! i = Some x ->
  exists a', pop_at a i = Ok (a', x) /\ repr a' cap (delete i l).
Proof.
  intros Hr Hc Hx. pose proof (lookup_lt_Some _ _ _ Hx). destruct (repr_length _ _ _ Hr) as [Hlen Hle].
  unfold pop_at. rewrite int_index_id by lia. rewrite (proj2 (Nat.ltb_lt _ _)) by lia.
  rewrite (repr_get _ _ _ _ Hr), Hx. res_simpl.
  destruct (pop_at_loop_spec (_size a) i a cap l Hr Hc) as (a' & -> & Hr'); [lia..|].
  by exists a'.
Qed.


End facts.
End CircArrayFacts.

(** ** Refinement of a bounded deque

    [spec_step] says what each member function promises in terms of a capacity
    and a list; [impl_step] calls the member function. *)
Module BoundedDeque.
Import CircArray CircArrayFacts.
Section deque.
Context {T : Type} `{Inhabited T}.
Implicit Types (a : CircArray T) (l : list T).

Inductive op :=
| OpPushFront (v : T) (overwrite_when_full : bool)
| OpPushBack (v : T) (overwrite_when_full : bool)
| OpPopFront
| OpPopBack
| OpPopFrontRc
| OpPopBackRc
| OpPopAt (index : nat)
| OpGet (index : nat)
| OpSet (index : nat) (v : T)
| OpOccupancy
| OpIsFull
| OpEmpty
| OpResizeByTwo.

Inductive answer :=
| ARc (rc : RC)
| AVal (v : T)
| ARcVal (rc : RC) (v : T)
| ANum (n : nat)
| ABool (b : bool)
| AUnit.

Definition impl_step (a : CircArray T) (o : op) : res (CircArray T * answer) :=
  match o with
  | OpPushFront v ow => let* r := push_front a v ow in Ok (r.1, ARc r.2)
  | OpPushBack v ow => let* r := push_back a v ow in Ok (r.1, ARc r.2)
  | OpPopFront => let* r := pop_front a in Ok (r.1, AVal r.2)
  | OpPopBack => let* r := pop_back a in Ok (r.1, AVal r.2)
  | OpPopFrontRc => let* r := pop_front_rc a inhabitant in Ok (r.1.1, ARcVal r.2 r.1.2)
  | OpPopBackRc => let* r := pop_back_rc a inhabitant in Ok (r.1.1, ARcVal r.2 r.1.2)
  | OpPopAt i => let* r := pop_at a i in Ok (r.1, AVal r.2)
  | OpGet i => let* v := get a i in Ok (a, AVal v)
  | OpSet i v => let* a := set a i v in Ok (a, AUnit)
  | OpOccupancy => Ok (a, ANum (occupancy a))
  | OpIsFull => Ok (a, ABool (is_full a))
  | OpEmpty => Ok (a, ABool (empty a))
  | OpResizeByTwo => let* a := resize_by_two a in Ok (a, AUnit)
  end.

(** A push: refused when full, or the window moves on. *)
Definition spec_push (cap : nat) (l l_room l_full : list T) (ow : bool)
  : res (nat * list T * answer) :=
  if length l =? cap then
    if ow then if cap =? 0 then Fault AssertFailed else Ok (cap, l_full, ARc SUCCESS)
    else Ok (cap, l, ARc NO_SPACE_ERROR)
  else Ok (cap, l_room, ARc SUCCESS).

Definition spec_step (cap : nat) (l : list T) (o : op) : res (nat * list T * answer) :=
  match o with
  | OpPushFront v ow => spec_push cap l (v :: l) (v :: removelast l) ow
  | OpPushBack v ow => spec_push cap l (l ++ [v]) (tail l ++ [v]) ow
  | OpPopFront => match head l with
                  | Some v => Ok (cap, tail l, AVal v)
                  | None => Fault AssertFailed
                  end
  | OpPopBack => match last l with
                 | Some v => Ok (cap, removelast l, AVal v)
                 | None => Fault AssertFailed
                 end
  | OpPopFrontRc => match head l with
                    | Some v => Ok (cap, tail l, ARcVal SUCCESS v)
                    | None => Ok (cap, l, ARcVal BUFFER_EMPTY_ERROR inhabitant)
                    end
  | OpPopBackRc => match last l with
                   | Some v => Ok (cap, removelast l, ARcVal SUCCESS v)
                   | None => Ok (cap, l, ARcVal BUFFER_EMPTY_ERROR inhabitant)
                   end
  | OpPopAt i => match l !! i with
                 | Some v => Ok (cap, delete i l, AVal v)
                 | None => Fault AssertFailed
                 end
  | OpGet i => match l !! i with
               | Some v => Ok (cap, l, AVal v)
               | None => Fault AssertFailed
               end
  | OpSet i v => if i <? length l then Ok (cap, <[i := v]> l, AUnit) else Fault AssertFailed
  | OpOccupancy => Ok (cap, l, ANum (length l))
  | OpIsFull => Ok (cap, l, ABool (length l =? cap))
  | OpEmpty => Ok (cap, l, ABool (length l =? 0))
  | OpResizeByTwo => Ok (cap * 2, l, AUnit)
  end.

(** Outcomes correspond: the same fault, or the same answer and
    representations of the same deque. *)
Inductive agree : res (CircArray T * answer) -> res (nat * list T * answer) -> Prop :=
| agree_ok a cap l ans : repr a cap l -> agree (Ok (a, ans)) (Ok (cap, l, ans))
| agree_fault f : agree (Fault f) (Fault f).

(** A whole session: the answers of a sequence of calls, in order. *)
Fixpoint impl_run (a : CircArray T) (os : list op) : res (list answer) :=
  match os with
  | [] => Ok []
  | o :: os => let* r := impl_step a o in let* ans := impl_run r.1 os in Ok (r.2 :: ans)
  end.

Fixpoint spec_run (cap : nat) (l : list T) (os : list op) : res (list answer) :=
  match os with
  | [] => Ok []
  | o :: os => let* r := spec_step cap l o in
               let* ans := spec_run r.1.1 r.1.2 os in Ok (r.2 :: ans)
  end.

Ltac step_ok := res_simpl; cbn [fst snd]; by constructor.

Lemma push_front_agree a cap l v ow :
  repr a cap l -> agree (impl_step a (OpPushFront v ow)) (spec_step cap l (OpPushFront v ow)).
Proof.
  intros Hr. destruct (repr_length _ _ _ Hr) as [Hlen Hle]. simpl. unfold spec_push.
  destruct (Nat.eqb_spec (length l) cap) as [Hf|Hf].
  - destruct ow; [|rewrite (proj2 (repr_push_full _ _ _ v Hr Hf)); step_ok].
    destruct l as [|x l _] using rev_ind.
    + simpl in Hf. subst cap. simpl. pose proof (repr_pop_back_nil _ _ Hr) as Hp.
      unfold push_front. destruct Hr as (_ & Hc & _). simpl in Hlen.
      rewrite Hc, <- Hlen. simpl. rewrite Hp. constructor.
    + destruct (repr_push_front_over _ _ _ _ v Hr Hf) as (a' & -> & Hr').
      rewrite length_app in Hf. simpl in Hf. rewrite (proj2 (Nat.eqb_neq _ 0)) by lia.
      rewrite removelast_last. step_ok.
  - destruct (repr_push_front_room _ _ _ v ow Hr) as (a' & -> & Hr'); [lia|]. step_ok.
Qed.

Lemma push_back_agree a cap l v ow :
  repr a cap l -> agree (impl_step a (OpPushBack v ow)) (spec_step cap l (OpPushBack v ow)).
Proof.
  intros Hr. destruct (repr_length _ _ _ Hr) as [Hlen Hle]. simpl. unfold spec_push.
  destruct (Nat.eqb_spec (length l) cap) as [Hf|Hf].
  - destruct ow; [|rewrite (proj1 (repr_push_full _ _ _ v Hr Hf)); step_ok].
    destruct l as [|x l].
    + simpl in Hf. subst cap. simpl. pose proof (repr_pop_front_nil _ _ Hr) as Hp.
      unfold push_back. destruct Hr as (_ & Hc & _). simpl in Hlen.
      rewrite Hc, <- Hlen. simpl. rewrite Hp. constructor.
    + destruct (repr_push_back_over _ _ _ _ v Hr Hf) as (a' & -> & Hr').
      simpl in Hf. rewrite (proj2 (Nat.eqb_neq _ 0)) by lia. step_ok.
  - destruct (repr_push_back_room _ _ _ v ow Hr) as (a' & -> & Hr'); [lia|]. step_ok.
Qed.

Lemma pop_front_agree a cap l :
  repr a cap l -> agree (impl_step a OpPopFront) (spec_step cap l OpPopFront) /\
                  agree (impl_step a OpPopFrontRc) (spec_step cap l OpPopFrontRc).
Proof.
  intros Hr. destruct l as [|x l]; simpl.
  - rewrite (repr_pop_front_nil _ _ Hr). destruct (repr_length _ _ _ Hr) as [Hlen _].
    simpl in Hlen. unfold pop_front_rc. rewrite <- Hlen. split; [constructor|step_ok].
  - destruct (repr_pop_front _ _ _ _ Hr) as (a' & E & Hr'). rewrite E. split; [step_ok|].
    unfold pop_front in E. destruct (pop_front_rc a inhabitant) as [[[b v] rc]|] eqn:Erc; [|done].
    simpl in E. case_bool_decide; [|done]. simplify_eq. step_ok.
Qed.

Lemma pop_back_agree a cap l :
  repr a cap l -> agree (impl_step a OpPopBack) (spec_step cap l OpPopBack) /\
                  agree (impl_step a OpPopBackRc) (spec_step cap l OpPopBackRc).
Proof.
  intros Hr. destruct l as [|x l _] using rev_ind; simpl.
  - rewrite (repr_pop_back_nil _ _ Hr). destruct (repr_length _ _ _ Hr) as [Hlen _].
    simpl in Hlen. unfold pop_back_rc. rewrite <- Hlen. split; [constructor|step_ok].
  - rewrite last_snoc, removelast_last.
    destruct (repr_pop_back _ _ _ _ Hr) as (a' & E & Hr'). rewrite E. split; [step_ok|].
    unfold pop_back in E. destruct (pop_back_rc a inhabitant) as [[[b v] rc]|] eqn:Erc; [|done].
    simpl in E. case_bool_decide; [|done]. simplify_eq. step_ok.
Qed.

Lemma index_agree a cap l i v :
  repr a cap l -> (Z.of_nat cap < 2 ^ 31)%Z -> agree (impl_step a (OpPopAt i)) (spec_step cap l (OpPopAt i)) /\
                  agree (impl_step a (OpGet i)) (spec_step cap l (OpGet i)) /\
                  agree (impl_step a (OpSet i v)) (spec_step cap l (OpSet i v)).
Proof.
  intros Hr Hc. destruct (repr_length _ _ _ Hr) as [Hlen _]. simpl.
  rewrite (repr_get _ _ _ i Hr). destruct (l !! i) as [x|] eqn:Hx.
  - pose proof (lookup_lt_Some _ _ _ Hx).
    destruct (repr_pop_at _ _ _ _ _ Hr Hc Hx) as (a' & -> & Hr').
    destruct (repr_set _ _ _ i v Hr) as (b & -> & Hb); [done|].
    rewrite (proj2 (Nat.ltb_lt _ _)) by done. split_and!; step_ok.
  - apply lookup_ge_None in Hx. unfold pop_at, set.
    rewrite !(proj2 (Nat.ltb_ge _ _)) by lia. split_and!; constructor.
Qed.

Lemma step_agree a cap l o : repr a cap l -> (Z.of_nat cap < 2 ^ 31)%Z -> agree (impl_step a o) (spec_step cap l o).
Proof.
  intros Hr Hc. pose proof (repr_length _ _ _ Hr) as [Hlen _].
  destruct o; try (by apply push_front_agree || by apply push_back_agree ||
                   by apply pop_front_agree || by apply pop_back_agree ||
                   by apply (index_agree _ _ _ _ inhabitant)); try by apply (index_agree _ _ _ _ v).
  - simpl. unfold occupancy. rewrite <- Hlen. step_ok.
  - simpl. unfold is_full. pose proof Hr as (_ & -> & _). rewrite <- Hlen. step_ok.
  - simpl. unfold empty. rewrite <- Hlen. step_ok.
  - simpl. destruct (repr_resize_by_two _ _ _ Hr Hc) as (a' & -> & Hr'). step_ok.
Qed.

(** How often the capacity is doubled. *)
Definition doublings (os : list op) : nat :=
  list_sum (map (fun o => match o with OpResizeByTwo => 1 | _ => 0 end) os).

Lemma spec_capacity cap l o cap' l' ans os :
  spec_step cap l o = Ok (cap', l', ans) -> cap * 2 ^ doublings (o :: os) = cap' * 2 ^ doublings os.
Proof.
  destruct o; cbn [spec_step]; unfold doublings, spec_push; intros Hs;
    repeat case_match; simplify_eq; try reflexivity.
  change (cap * 2 ^ S (doublings os) = cap * 2 * 2 ^ doublings os). cbn [Nat.pow]. lia.
Qed.

Lemma deque_runs_agree os a cap l :
  repr a cap l -> (Z.of_nat (cap * 2 ^ doublings os) < 2 ^ 31)%Z -> impl_run a os = spec_run cap l os.
Proof.
  revert a cap l. induction os as [|o os IH]; intros a cap l Hr Hc; [done|]. cbn [impl_run spec_run].
  assert (Hcap : (Z.of_nat cap < 2 ^ 31)%Z).
  { assert (1 <= 2 ^ doublings (o :: os)) by (change 1 with (2 ^ 0); apply Nat.pow_le_mono_r; lia). nia. }
  pose proof (step_agree a cap l o Hr Hcap) as Ha. destruct (spec_step cap l o) as [[[c' l'] ans]|f] eqn:Es; inversion Ha; subst; [|done].
  res_simpl. cbn [fst snd]. rewrite (IH a0 c' l'); [done|done|]. by rewrite <- (spec_capacity _ _ _ _ _ _ os Es).
Qed.

End deque.
Arguments op T : clear implicits.
Arguments answer T : clear implicits.
End BoundedDeque.

Section properties.
Import CircArray CircArrayFacts BoundedDeque.

(** C27: [CircArray] refines a bounded deque.  For every sequence of calls of
    the ring buffer's member functions on a freshly constructed ring whose
    capacity, doubled as often as the sequence asks for, stays below [2^31] (the
    loops of the class count with an [int]), the
    values, return codes and assertion failures are exactly those of a list of
    at most [capacity] elements pushed and popped at both ends (overwriting
    drops the far end, a refused push returns NO_SPACE_ERROR, an empty pop
    returns BUFFER_EMPTY_ERROR or asserts); no call reads or writes outside the
    array and no call divides by a zero capacity. *)
Theorem circ_array_refines_deque `{Inhabited T} (cap : nat) (os : list (op T))
  (Hcap : (Z.of_nat (cap * 2 ^ doublings os) < 2 ^ 31)%Z) :
  impl_run (CircArray_new cap) os = spec_run cap [] os.
Proof. by apply deque_runs_agree; [apply repr_new|]. Qed.

Lemma circ_array_refines_deque_witness :
  let os := [OpPushBack 1%Z false; OpPushFront 2%Z false; OpPushBack 3%Z false; OpResizeByTwo; OpPushBack 4%Z false;
             OpPopAt 1; OpOccupancy; OpPopBack; OpPopFront; OpPopBackRc] in
  impl_run (CircArray_new 2) os = spec_run 2 [] os /\
  spec_run 2 [] os = Ok [ARc SUCCESS; ARc SUCCESS; ARc NO_SPACE_ERROR; AUnit; ARc SUCCESS; AVal 1%Z; ANum 2; AVal 4%Z;
                         AVal 2%Z; ARcVal BUFFER_EMPTY_ERROR inhabitant].
Proof. split; [|reflexivity]. apply (circ_array_refines_deque 2). reflexivity. Defined.

(** copying a ring (the copy constructor and [operator=]) preserves its
    elements, order and capacity, whatever ring it is assigned to; with equal
    capacities Click reuses the target's array and the result is the same as the
    baseline's fresh allocation. *)
Theorem circ_array_copy_contents `{Inhabited T} (lhs rhs : CircArray T) :
  wf lhs -> wf rhs ->
  exists a b c,
    assign lhs rhs = Ok a /\ CircArray_copy rhs = Ok b /\ deep_copy_hc (Some lhs) rhs = Ok c /\
    contents a = contents rhs /\ contents b = contents rhs /\ contents c = contents rhs /\
    capacity a = capacity rhs /\ capacity b = capacity rhs /\ capacity c = capacity rhs.
Proof.
  intros Hl Hr. assert (R : repr rhs (_capacity rhs) (contents rhs)) by done.
  destruct (repr_deep_copy (Some lhs) _ _ _ R Hl) as (a & Ha & _ & Hca & Hla).
  destruct (repr_deep_copy None _ _ _ R I) as (b & Hb & _ & Hcb & Hlb).
  destruct (repr_deep_copy_hc (Some lhs) _ _ _ R) as (c & Hc & _ & Hcc & Hlc).
  by exists a, b, c.
Qed.

Lemma circ_array_copy_contents_witness :
  exists a b c,
    assign (mkCA [7%Z; 8%Z; 9%Z] 1 1 3) (mkCA [3%Z; 1%Z; 2%Z] 1 3 3) = Ok a /\
    CircArray_copy (mkCA [3%Z; 1%Z; 2%Z] 1 3 3) = Ok b /\
    deep_copy_hc (Some (mkCA [7%Z; 8%Z; 9%Z] 1 1 3)) (mkCA [3%Z; 1%Z; 2%Z] 1 3 3) = Ok c /\
    contents a = [1%Z; 2%Z; 3%Z] /\ contents b = [1%Z; 2%Z; 3%Z] /\ contents c = [1%Z; 2%Z; 3%Z] /\
    capacity a = 3 /\ capacity b = 3 /\ capacity c = 3.
Proof.
  apply (circ_array_copy_contents (mkCA [7%Z; 8%Z; 9%Z] 1 1 3) (mkCA [3%Z; 1%Z; 2%Z] 1 3 3));
    split; simpl; lia.
Defined.

End properties.
