(* ===== verification/Messages.v ===== *)
(** * Messages: the application messages carried in packets

    Models click-2.0.1/include/click/appmsgs.hh and the packet operations the
    Synapse elements use.  A packet is its application type (an annotation) and
    its data bytes; the elements overlay packed structs on the data, so reading
    a struct from a shorter packet is an out-of-bounds access and writing one is
    a [memcpy] over the front of the data.  A packet obtained with [put (0)] is
    uniquely owned (Click copies shared data), so packets are values.

    [FixedPt] is laid out by the compiler outside [#pragma pack(1)]: eight bytes
    of value, one of flag and seven of padding.  The padding is indeterminate,
    hence an argument of the encoder. *)

From S2P Require Import Prelude FixedPt.
Import FPt.

Definition ORDER_SYMBOL_LEN : nat := 10.

Inductive PacketAppType :=
| NO_APP_MSG
| MSG_TRADE
| MSG_TIME_PERIOD_STATS
| MSG_INDICATOR
| MSG_UPDATE_SOURCE
| MSG_ADD_SOURCE
| MSG_UPDATE
| MSG_ADD
| MSG_INIT
| MSG_INIT_SOURCE.

#[global] Instance PacketAppType_eq_dec : EqDecision PacketAppType.
Proof. solve_decision. Defined.

Record Packet := mkPacket { pk_app_type : PacketAppType; pk_data : bytes }.

Definition length_of (p : Packet) : nat := length (pk_data p).
Definition set_packet_app_type (p : Packet) (t : PacketAppType) : Packet := mkPacket t (pk_data p).

(** A read of [n] bytes at offset [off] of the packet's data. *)
Definition read_at (off n : nat) (data : bytes) : res bytes :=
  if (off + n <=? length data)%nat then Ok (take n (drop off data)) else Fault OutOfBounds.

(** [memcpy (p->data (), src, sizeof src)] *)
Definition write_front (src data : bytes) : res bytes :=
  if (length src <=? length data)%nat then Ok (src ++ drop (length src) data)
  else Fault OutOfBounds.

Record MsgTrade := mkMsgTrade {
  mt_price : Z;
  mt_size : Z;
  mt_symbol : bytes;
  mt_timestamp : Z;
  mt_src_timestamp : Z
}.
Definition MsgTrade_new : MsgTrade := mkMsgTrade 0 0 (replicate ORDER_SYMBOL_LEN 0) 0 0.

Record MsgIndicator := mkMsgIndicator {
  mi_symbol : bytes;
  mi_indicator : Z;
  mi_timestamp : Z
}.

Record MsgValue := mkMsgValue { mv_value : FixedPt; mv_timestamp : Z }.

Record MsgSource := mkMsgSource {
  ms_close : Z;
  ms_high : Z;
  ms_low : Z;
  ms_open : Z;
  ms_timestamp : Z;
  ms_volume : Z
}.
Definition MsgSource_new : MsgSource := mkMsgSource 0 0 0 0 0 0.

Definition sizeof_MsgValue : nat := 24.
Definition sizeof_MsgSource : nat := 48.
Definition sizeof_MsgIndicator : nat := 26.

Definition bool_byte (b : bool) : Z := if b then 1 else 0.

Definition encode_MsgValue (pad : bytes) (m : MsgValue) : bytes :=
  le_encode 8 (FPt._value (mv_value m)) ++ [bool_byte (_valid (mv_value m))] ++ pad ++
  le_encode 8 (mv_timestamp m).

Definition encode_MsgSource (m : MsgSource) : bytes :=
  le_encode 8 (ms_close m) ++ le_encode 8 (ms_high m) ++ le_encode 8 (ms_low m) ++
  le_encode 8 (ms_open m) ++ le_encode 8 (ms_timestamp m) ++ le_encode 8 (ms_volume m).

Definition encode_MsgIndicator (m : MsgIndicator) : bytes :=
  mi_symbol m ++ le_encode 8 (mi_indicator m) ++ le_encode 8 (mi_timestamp m).

Definition read_i64 (off : nat) (data : bytes) : res Z :=
  let* bs := read_at off 8 data in Ok (i64 (le_decode bs)).
Definition read_u64 (off : nat) (data : bytes) : res Z :=
  let* bs := read_at off 8 data in Ok (le_decode bs).
Definition read_bool (off : nat) (data : bytes) : res bool :=
  let* bs := read_at off 1 data in Ok (negb (le_decode bs =? 0)).

(** The fields as read through [reinterpret_cast<const MsgValue*>(p->data ())]. *)
Definition decode_MsgValue (data : bytes) : res MsgValue :=
  let* v := read_i64 0 data in
  let* valid := read_bool 8 data in
  let* ts := read_u64 16 data in
  Ok (mkMsgValue (mkFixedPt v valid) ts).

Definition decode_MsgSource (data : bytes) : res MsgSource :=
  let* close := read_i64 0 data in
  let* high := read_i64 8 data in
  let* low := read_i64 16 data in
  let* open := read_i64 24 data in
  let* ts := read_u64 32 data in
  let* volume := read_i64 40 data in
  Ok (mkMsgSource close high low open ts volume).

Definition decode_MsgIndicator (data : bytes) : res MsgIndicator :=
  let* symbol := read_at 0 ORDER_SYMBOL_LEN data in
  let* indicator := read_i64 10 data in
  let* ts := read_u64 18 data in
  Ok (mkMsgIndicator symbol indicator ts).

(** [SynapseElement::populate_msg_indicator]: [None] when the packet is too
    small.  The two assertions compare the addresses of the arguments with the
    packet's buffer; the arguments live outside it. *)
Definition populate_msg_indicator (packet : Packet) (symbol : bytes) (indicator timestamp : Z)
  : res (option Packet) :=
  if (length_of packet <? sizeof_MsgIndicator)%nat then Ok None
  else
    let* data := write_front (encode_MsgIndicator (mkMsgIndicator symbol indicator timestamp))
                   (pk_data packet) in
    Ok (Some (mkPacket MSG_INDICATOR data)).

(** ** Well-formed messages and their round trips *)

Definition wf_fpt (f : FixedPt) : Prop := in_s 64 (FPt._value f).
Definition wf_MsgValue (m : MsgValue) : Prop := wf_fpt (mv_value m) /\ in_u 64 (mv_timestamp m).
Definition wf_MsgSource (m : MsgSource) : Prop :=
  in_s 64 (ms_close m) /\ in_s 64 (ms_high m) /\ in_s 64 (ms_low m) /\ in_s 64 (ms_open m) /\
  in_u 64 (ms_timestamp m) /\ in_s 64 (ms_volume m).

#[global] Instance wf_fpt_dec f : Decision (wf_fpt f).
Proof. unfold wf_fpt. apply _. Defined.
#[global] Instance wf_MsgValue_dec m : Decision (wf_MsgValue m).
Proof. unfold wf_MsgValue. apply _. Defined.

Lemma read_at_app off n (pre x post : bytes) :
  length pre = off -> length x = n -> read_at off n (pre ++ x ++ post) = Ok x.
Proof.
  intros <- <-. unfold read_at. rewrite !length_app.
  rewrite (proj2 (Nat.leb_le _ _)) by lia. by rewrite drop_app_length, take_app_length.
Qed.

Lemma i64_decode_encode z : in_s 64 z -> i64 (le_decode (le_encode 8 z)) = z.
Proof.
  intros Hz. rewrite le_decode_encode. transitivity (i64 z); [|by apply i64_id].
  apply (swrap_eq_cong _ _ _ (- (z / 2 ^ 64))). change (256 ^ Z.of_nat 8) with (2 ^ 64).
  pose proof (Z_div_mod_eq_full z (2 ^ 64)). lia.
Qed.

Lemma u64_decode_encode z : in_u 64 z -> le_decode (le_encode 8 z) = z.
Proof. intros Hz. rewrite le_decode_encode. by apply Z.mod_small. Qed.

Section reads.
Context (off : nat) (pre post : bytes) (Hpre : length pre = off).

Lemma read_i64_app z : in_s 64 z -> read_i64 off (pre ++ le_encode 8 z ++ post) = Ok z.
Proof.
  intros Hz. unfold read_i64. rewrite read_at_app by (done || apply length_le_encode).
  res_simpl. by rewrite i64_decode_encode.
Qed.
Lemma read_u64_app z : in_u 64 z -> read_u64 off (pre ++ le_encode 8 z ++ post) = Ok z.
Proof.
  intros Hz. unfold read_u64. rewrite read_at_app by (done || apply length_le_encode).
  res_simpl. by rewrite u64_decode_encode.
Qed.
Lemma read_bool_app b : read_bool off (pre ++ [bool_byte b] ++ post) = Ok b.
Proof. unfold read_bool. rewrite read_at_app by done. by destruct b. Qed.
End reads.

Lemma read_i64_front z post : in_s 64 z -> read_i64 0 (le_encode 8 z ++ post) = Ok z.
Proof. apply (read_i64_app 0 []). done. Qed.

Lemma decode_encode_MsgValue pad m rest :
  length pad = 7%nat -> wf_MsgValue m -> decode_MsgValue (encode_MsgValue pad m ++ rest) = Ok m.
Proof.
  destruct m as [[v b] ts]. intros Hp (Hv & Ht). unfold encode_MsgValue, decode_MsgValue. simpl mv_value.
  simpl _value. simpl _valid. simpl mv_timestamp. rewrite <- !app_assoc.
  rewrite read_i64_front by done. res_simpl.
  rewrite (read_bool_app 8) by (apply length_le_encode). res_simpl.
  rewrite !(app_assoc (le_encode 8 v)), (app_assoc _ pad).
  rewrite (read_u64_app 16) by (done || rewrite !length_app, length_le_encode, Hp; done).
  done.
Qed.

Lemma length_encode_MsgValue pad m :
  length pad = 7%nat -> length (encode_MsgValue pad m) = sizeof_MsgValue.
Proof. intros Hp. unfold encode_MsgValue. by rewrite !length_app, !length_le_encode, Hp. Qed.

Lemma length_encode_MsgSource m : length (encode_MsgSource m) = sizeof_MsgSource.
Proof. unfold encode_MsgSource. by rewrite !length_app, !length_le_encode. Qed.

Lemma decode_encode_MsgSource m rest :
  wf_MsgSource m -> decode_MsgSource (encode_MsgSource m ++ rest) = Ok m.
Proof.
  destruct m as [c h l o t v]. intros (Hc & Hh & Hl & Ho & Ht & Hv).
  unfold encode_MsgSource, decode_MsgSource. cbn [ms_close ms_high ms_low ms_open ms_timestamp ms_volume].
  rewrite <- !app_assoc. rewrite read_i64_front by done. res_simpl.
  rewrite (read_i64_app 8) by (done || apply length_le_encode). res_simpl.
  rewrite (app_assoc (le_encode 8 c)).
  rewrite (read_i64_app 16) by (done || rewrite !length_app, !length_le_encode; done). res_simpl.
  rewrite (app_assoc _ (le_encode 8 l)).
  rewrite (read_i64_app 24) by (done || rewrite !length_app, !length_le_encode; done). res_simpl.
  rewrite (app_assoc _ (le_encode 8 o)).
  rewrite (read_u64_app 32) by (done || rewrite !length_app, !length_le_encode; done). res_simpl.
  rewrite (app_assoc _ (le_encode 8 t)).
  rewrite (read_i64_app 40) by (done || rewrite !length_app, !length_le_encode; done).
  done.
Qed.

Lemma decode_encode_MsgIndicator m rest :
  length (mi_symbol m) = ORDER_SYMBOL_LEN -> in_s 64 (mi_indicator m) -> in_u 64 (mi_timestamp m) ->
  decode_MsgIndicator (encode_MsgIndicator m ++ rest) = Ok m.
Proof.
  destruct m as [s i t]. cbn [mi_symbol mi_indicator mi_timestamp]. intros Hs Hi Ht.
  unfold encode_MsgIndicator, decode_MsgIndicator. cbn [mi_symbol mi_indicator mi_timestamp].
  rewrite <- !app_assoc. pose proof (read_at_app 0 ORDER_SYMBOL_LEN [] s) as E.
  cbn [app] in E. rewrite E by done. res_simpl.
  rewrite (read_i64_app 10) by done. res_simpl. rewrite (app_assoc s).
  by rewrite (read_u64_app 18) by (done || rewrite length_app, length_le_encode, Hs; done).
Qed.

(** Writing a struct over the front of a packet and reading it back. *)
Lemma write_front_Ok src data :
  (length src <= length data)%nat -> write_front src data = Ok (src ++ drop (length src) data).
Proof. intros H. unfold write_front. by rewrite (proj2 (Nat.leb_le _ _)). Qed.

Lemma length_write_front src data data' :
  write_front src data = Ok data' -> length data' = length data.
Proof.
  unfold write_front. destruct (Nat.leb_spec (length src) (length data)); [|done].
  intros [= <-]. rewrite length_app, length_drop. lia.
Qed.

(** A packet whose struct does not fit is not read. *)
Lemma read_at_short off n data : (length data < off + n)%nat -> read_at off n data = Fault OutOfBounds.
Proof. intros H. unfold read_at. by rewrite (proj2 (Nat.leb_gt _ _)). Qed.

Module MessagesProps.

(** The packed structs survive a packet: [MsgValue] and [MsgSource] written
    over the front of a packet that is long enough read back field for field,
    whatever the padding bytes were, and the packet keeps its length;
    [populate_msg_indicator] likewise, and it refuses a packet that is too
    small. *)
Theorem messages_roundtrip pad p mv ms symbol indicator ts
  (Hpad : length pad = 7%nat) (Hmv : wf_MsgValue mv) (Hms : wf_MsgSource ms)
  (Hsym : length symbol = ORDER_SYMBOL_LEN) (Hind : in_s 64 indicator) (Hts : in_u 64 ts)
  (Hlen : (sizeof_MsgSource <= length (pk_data p))%nat) :
  (exists d, write_front (encode_MsgValue pad mv) (pk_data p) = Ok d /\
             length d = length (pk_data p) /\ decode_MsgValue d = Ok mv) /\
  (exists d, write_front (encode_MsgSource ms) (pk_data p) = Ok d /\
             length d = length (pk_data p) /\ decode_MsgSource d = Ok ms) /\
  (exists p', populate_msg_indicator p symbol indicator ts = Ok (Some p') /\
              pk_app_type p' = MSG_INDICATOR /\ length_of p' = length_of p /\
              decode_MsgIndicator (pk_data p') = Ok (mkMsgIndicator symbol indicator ts)) /\
  populate_msg_indicator (mkPacket (pk_app_type p) (take 25 (pk_data p))) symbol indicator ts = Ok None.
Proof.
  pose proof (length_encode_MsgValue pad mv Hpad) as H1.
  pose proof (length_encode_MsgSource ms) as H2. unfold sizeof_MsgSource, sizeof_MsgValue in *.
  assert (H3 : length (encode_MsgIndicator (mkMsgIndicator symbol indicator ts)) = sizeof_MsgIndicator).
  { unfold encode_MsgIndicator. cbn [mi_symbol]. by rewrite !length_app, !length_le_encode, Hsym. }
  unfold sizeof_MsgIndicator in *. split_and!.
  - eexists. split; [apply write_front_Ok; lia|]. rewrite length_app, length_drop. split; [lia|].
    by apply decode_encode_MsgValue.
  - eexists. split; [apply write_front_Ok; lia|]. rewrite length_app, length_drop. split; [lia|].
    by apply decode_encode_MsgSource.
  - unfold populate_msg_indicator, length_of, sizeof_MsgIndicator.
    rewrite (proj2 (Nat.ltb_ge _ _)) by lia. rewrite write_front_Ok by lia. eexists. split; [done|].
    cbn [pk_data pk_app_type]. rewrite length_app, length_drop. split_and!; [done|lia|].
    by apply decode_encode_MsgIndicator.
  - unfold populate_msg_indicator, length_of, sizeof_MsgIndicator. cbn [pk_data].
    by rewrite length_take, (proj2 (Nat.ltb_lt _ _)) by lia.
Qed.

Lemma messages_roundtrip_witness :
  let p := mkPacket MSG_ADD (replicate 50 0) in
  exists p', populate_msg_indicator p (replicate 10 65) (-9) 4 = Ok (Some p') /\
              pk_app_type p' = MSG_INDICATOR /\ length_of p' = length_of p /\
              decode_MsgIndicator (pk_data p') = Ok (mkMsgIndicator (replicate 10 65) (-9) 4).
Proof.
  apply (messages_roundtrip (replicate 7 170) (mkPacket MSG_ADD (replicate 50 0))
           (mkMsgValue (fromInt (-3)) 77) (mkMsgSource 5 (-6) 7 8 9 10) (replicate 10 65) (-9) 4).
  - reflexivity.
  - apply (bool_decide_unpack _). vm_compute. exact I.
  - unfold wf_MsgSource. simpl. split_and!; zrange.
  - reflexivity.
  - zrange.
  - zrange.
  - vm_compute. lia.
Defined.

End MessagesProps.
