(* ===== verification/Hashing.v ===== *)
(** * Hashing: the chained hash table of the router, and its keys

    Models [HashMap] of click-2.0.1/include/click/hashmap.{hh,cc}, the generic
    template, which keeps the state of the elements by symbol or order number.
    A chain of elements is a list, the newest element first; a pointer to a pair is
    the number of its bucket and its place in the chain.  Allocation succeeds.

    The table needs of its keys an equality and a hash code that agree: the class
    [LawfulKey] states it, for the keys [good_key] and up to the identity [key_id].
    Against it the table refines a finite map. *)

From stdpp Require Import gmap.
From S2P Require Import Prelude.

(** What the template uses of [K]; comparing may fault. *)
Class HashKey (K : Type) := {
  key_eq : K -> K -> res bool;
  hashcode : K -> Z
}.

Module HashMap.

Definition MAX_NBUCKETS : Z := 4194303.
Definition DEFAULT_INITIAL_NBUCKETS : Z := 127.
Definition DEFAULT_RESIZE_THRESHOLD : Z := 2.

Record HashMap (K V : Type) := mkHashMap {
  _buckets : list (list (K * V));
  _nbuckets : Z;
  _default_value : V;
  _n : Z;
  _capacity : Z
}.
Arguments mkHashMap {K V}.
Arguments _buckets {K V}.
Arguments _nbuckets {K V}.
Arguments _default_value {K V}.
Arguments _n {K V}.
Arguments _capacity {K V}.

(** [Pair *]: the bucket and the place in its chain. *)
Definition PairPtr : Type := nat * nat.

Section HashMap.
Context {K V : Type} `{HashKey K}.
Implicit Types (m o : HashMap K V).

Definition with_buckets (bs : list (list (K * V))) (n : Z) m : HashMap K V :=
  mkHashMap bs (_nbuckets m) (_default_value m) n (_capacity m).

Definition dynamic_resizing m : bool := _capacity m <? 0x7FFFFFFF.

Definition set_dynamic_resizing (on : bool) m : HashMap K V :=
  mkHashMap (_buckets m) (_nbuckets m) (_default_value m) (_n m)
    (if negb on then 0x7FFFFFFF
     else if MAX_NBUCKETS <=? _nbuckets m then 0x7FFFFFFE
     else DEFAULT_RESIZE_THRESHOLD * _nbuckets m).

Definition initialize (def : V) (initial_nbuckets : Z) : HashMap K V :=
  set_dynamic_resizing true (mkHashMap (replicate (Z.to_nat initial_nbuckets) []) initial_nbuckets def 0 0).

(** [HashMap ()] and [HashMap (def)] *)
Definition HashMap_new (def : V) : HashMap K V := initialize def DEFAULT_INITIAL_NBUCKETS.

Definition bucket (key : K) m : res nat :=
  if _nbuckets m =? 0 then Fault DivByZero else Ok (Z.to_nat (u64 (hashcode key) mod _nbuckets m)).

Definition chain_at (b : nat) m : res (list (K * V)) := of_option OutOfBounds (_buckets m !! b).

(** [for (Elt *e = ...; e; e = e->next) if (e->key == key)] *)
Fixpoint chain_find (key : K) (chain : list (K * V)) : res (option nat) :=
  match chain with
  | [] => Ok None
  | e :: chain =>
      let* same := key_eq (fst e) key in
      if same : bool then Ok (Some 0%nat) else let* i := chain_find key chain in Ok (S <$> i)
  end.

Definition find_pair (key : K) m : res (option PairPtr) :=
  let* b := bucket key m in
  let* chain := chain_at b m in
  let* i := chain_find key chain in
  Ok (pair b <$> i).

(** [p->value] and [p->value = v] *)
Definition pair_value (p : PairPtr) m : res V :=
  let* chain := chain_at (fst p) m in
  let* e := of_option OutOfBounds (chain !! snd p) in
  Ok (snd e).

Definition set_pair_value (p : PairPtr) (v : V) m : res (HashMap K V) :=
  let* chain := chain_at (fst p) m in
  let* e := of_option OutOfBounds (chain !! snd p) in
  Ok (with_buckets (<[fst p := <[snd p := (fst e, v)]> chain]> (_buckets m)) (_n m) m).

(** [e->next = _buckets[b]; _buckets[b] = e] *)
Definition link (b : nat) (e : K * V) (n : Z) m : res (HashMap K V) :=
  let* chain := chain_at b m in
  Ok (with_buckets (<[b := e :: chain]> (_buckets m)) n m).

(** The elements in the order of the loops over the buckets and their chains. *)
Definition entries m : list (K * V) := concat (take (Z.to_nat (_nbuckets m)) (_buckets m)).

Fixpoint relink (es : list (K * V)) m : res (HashMap K V) :=
  match es with
  | [] => Ok m
  | e :: es => let* b := bucket (fst e) m in let* m := link b e (_n m) m in relink es m
  end.

Definition resize0 (new_nbuckets : Z) m : res (HashMap K V) :=
  let m1 := mkHashMap (replicate (Z.to_nat new_nbuckets) []) new_nbuckets (_default_value m) (_n m) (_capacity m) in
  let m1 := if dynamic_resizing m1 then set_dynamic_resizing true m1 else m1 in
  relink (entries m) m1.

(** The loop of [resize]; from 1 it takes 21 steps to [MAX_NBUCKETS]. *)
Fixpoint grow (fuel : nat) (want_nbuckets new_nbuckets : Z) : Z :=
  match fuel with
  | O => new_nbuckets
  | S fuel =>
      if (new_nbuckets <? want_nbuckets) && (new_nbuckets <? MAX_NBUCKETS)
      then grow fuel want_nbuckets (Z.shiftl (new_nbuckets + 1) 1 - 1)
      else new_nbuckets
  end.

Definition resize (want_nbuckets : Z) m : res (HashMap K V) :=
  let new_nbuckets := grow 22 want_nbuckets 1 in
  assert* (0 <? new_nbuckets) && (new_nbuckets <=? MAX_NBUCKETS);
  if negb (_nbuckets m =? new_nbuckets) then resize0 new_nbuckets m else Ok m.

(** The end of [insert] and of [find_pair_force]: a new element, after growing. *)
Definition add_pair (key : K) (value : V) (b : nat) m : res (HashMap K V * PairPtr) :=
  let* r :=
    if _capacity m <=? _n m then
      let* m := resize (_nbuckets m + 1) m in
      let* b := bucket key m in Ok (m, b)
    else Ok (m, b) in
  let '(m, b) := r in
  let* m := link b (key, value) (_n m + 1) m in
  Ok (m, (b, 0%nat)).

Definition insert (key : K) (value : V) m : res (HashMap K V * bool) :=
  let* b := bucket key m in
  let* chain := chain_at b m in
  let* i := chain_find key chain in
  match i with
  | Some i => let* m := set_pair_value (b, i) value m in Ok (m, false)
  | None => let* r := add_pair key value b m in Ok (fst r, true)
  end.

Definition find_pair_force (key : K) (default_value : V) m : res (HashMap K V * PairPtr) :=
  let* b := bucket key m in
  let* chain := chain_at b m in
  let* i := chain_find key chain in
  match i with
  | Some i => Ok (m, (b, i))
  | None => add_pair key default_value b m
  end.

Definition erase (key : K) m : res (HashMap K V * bool) :=
  let* b := bucket key m in
  let* chain := chain_at b m in
  let* i := chain_find key chain in
  match i with
  | Some i => Ok (with_buckets (<[b := delete i chain]> (_buckets m)) (_n m - 1) m, true)
  | None => Ok (m, false)
  end.

(** [findp], as the value pointed to *)
Definition findp (key : K) m : res (option V) :=
  let* p := find_pair key m in
  match p with
  | Some p => let* v := pair_value p m in Ok (Some v)
  | None => Ok None
  end.

Definition clear m : HashMap K V :=
  let nb := Z.to_nat (_nbuckets m) in
  with_buckets (replicate (length (take nb (_buckets m))) [] ++ drop nb (_buckets m)) 0 m.

Definition copy_from o m : HashMap K V :=
  let nb := Z.to_nat (_nbuckets m) in
  with_buckets (take nb (_buckets o) ++ drop nb (_buckets m)) (_n o) m.

(** The copy constructor, and the assignment from another table. *)
Definition HashMap_copy o : HashMap K V :=
  copy_from o (mkHashMap (replicate (Z.to_nat (_nbuckets o)) []) (_nbuckets o) (_default_value o) 0 (_capacity o)).

Definition assign o m : res (HashMap K V) :=
  let m := clear m in
  let m := mkHashMap (_buckets m) (_nbuckets m) (_default_value o) (_n m) (_capacity m) in
  let* m := if _nbuckets m <? _nbuckets o then resize0 (_nbuckets o) m else Ok m in
  Ok (copy_from o (mkHashMap (_buckets m) (_nbuckets o) (_default_value m) (_n m) (_capacity o))).

(** Both tables, exchanged. *)
Definition swap m o : HashMap K V * HashMap K V := (o, m).

(** ** Iterators: the element an iterator is at, [None] at the end *)

(** The first element from bucket [b] on, [len] buckets to go. *)
Fixpoint first_from (len b : nat) m : option PairPtr :=
  match len with
  | O => None
  | S len =>
      match _buckets m !! b with
      | Some (_ :: _) => Some (b, 0%nat)
      | _ => first_from len (S b) m
      end
  end.

Definition begin_ m : option PairPtr := first_from (Z.to_nat (_nbuckets m)) 0 m.

Definition next (p : PairPtr) m : option PairPtr :=
  match _buckets m !! fst p with
  | Some chain =>
      if (S (snd p) <? length chain)%nat then Some (fst p, S (snd p))
      else first_from (Z.to_nat (_nbuckets m) - S (fst p)) (S (fst p)) m
  | None => None
  end.

(** [for (iterator i = begin (); i.live (); ++i)], with the pairs it visits. *)
Fixpoint iterate (fuel : nat) (i : option PairPtr) m : list PairPtr :=
  match fuel, i with
  | S fuel, Some p => p :: iterate fuel (next p m) m
  | _, _ => []
  end.

(** The pair an iterator is at. *)
Definition iter_pair (p : PairPtr) m : res (K * V) :=
  let* chain := chain_at (fst p) m in of_option OutOfBounds (chain !! snd p).

(** The same loop with a body that may change the value of the pair; [n] counts the
    turns. *)
Fixpoint for_each {O : Type} (body : nat -> K * V -> res (V * list O)) (fuel n : nat) (i : option PairPtr) m
  : res (HashMap K V * list O) :=
  match fuel, i with
  | S fuel, Some p =>
      let* e := iter_pair p m in
      let* r := body n e in
      let* m := set_pair_value p (fst r) m in
      let* rs := for_each body fuel (S n) (next p m) m in
      Ok (fst rs, snd r ++ snd rs)
  | _, _ => Ok (m, [])
  end.

End HashMap.

End HashMap.

(** ** Refinement of a finite map *)

(** For the keys [good_key], [k1 == k2] compares the identities, and equal keys have
    equal hash codes. *)
Class LawfulKey (K : Type) {key : HashKey K} (C : Type) := {
  good_key : K -> Prop;
  key_id : K -> C;
  key_eq_id k1 k2 : good_key k1 -> good_key k2 ->
    exists b : bool, key_eq k1 k2 = Ok b /\ (b = true <-> key_id k1 = key_id k2);
  hashcode_id k1 k2 : good_key k1 -> good_key k2 -> key_id k1 = key_id k2 -> hashcode k1 = hashcode k2
}.

Section refinement.
Context {K V C : Type} {key : HashKey K} `{Countable C} {lawful : LawfulKey K C}.
Implicit Types (m : HashMap.HashMap K V) (M : gmap C V).
Import HashMap.

Definition ids (es : list (K * V)) : list (C * V) := map (fun e => (key_id (fst e), snd e)) es.

Definition home (k : K) (nb : Z) : nat := Z.to_nat (u64 (hashcode k) mod nb).

(** The shape of a table: its buckets are there and an element is in its bucket. *)
Record shaped m : Prop := {
  sh_nbuckets : 1 <= _nbuckets m;
  sh_length : (Z.to_nat (_nbuckets m) <= length (_buckets m))%nat;
  sh_home b chain e : _buckets m !! b = Some chain -> (b < Z.to_nat (_nbuckets m))%nat -> e ∈ chain ->
    good_key (fst e) /\ home (fst e) (_nbuckets m) = b
}.

(** The table represents the finite map from identities to values. *)
Record represents m M : Prop := {
  rp_shaped : shaped m;
  rp_nodup : NoDup (ids (entries m)).*1;
  rp_map : list_to_map (ids (entries m)) = M;
  rp_n : _n m = Z.of_nat (length (entries m))
}.

Lemma bucket_home k m : shaped m -> bucket k m = Ok (home k (_nbuckets m)).
Proof. intros []. unfold bucket. by rewrite (proj2 (Z.eqb_neq _ _)) by lia. Qed.

Lemma home_bound k m : shaped m -> (home k (_nbuckets m) < Z.to_nat (_nbuckets m))%nat.
Proof. intros []. unfold home. pose proof (Z.mod_pos_bound (u64 (hashcode k)) (_nbuckets m)). lia. Qed.

Lemma home_id k1 k2 nb : good_key k1 -> good_key k2 -> key_id k1 = key_id k2 -> home k1 nb = home k2 nb.
Proof. intros H1 H2 Hid. unfold home. by rewrite (hashcode_id k1 k2). Qed.

Lemma chain_lookup b m : shaped m -> (b < Z.to_nat (_nbuckets m))%nat -> exists chain, _buckets m !! b = Some chain.
Proof. intros [] Hb. apply lookup_lt_is_Some. lia. Qed.

(** The elements around a chain, which a change of the chain leaves alone. *)
Lemma entries_split b chain m :
  shaped m -> (b < Z.to_nat (_nbuckets m))%nat -> _buckets m !! b = Some chain ->
  exists before after, entries m = before ++ chain ++ after /\
    (forall chain' n, entries (with_buckets (<[b := chain']> (_buckets m)) n m) = before ++ chain' ++ after) /\
    (forall e, e ∈ before ++ after -> good_key (fst e) /\ home (fst e) (_nbuckets m) <> b).
Proof.
  intros Hm Hb Hc. set (l := take (Z.to_nat (_nbuckets m)) (_buckets m)).
  assert (Hl : l !! b = Some chain) by (unfold l; by rewrite lookup_take_lt).
  exists (concat (take b l)), (concat (drop (S b) l)). split_and!.
  - unfold entries. fold l. rewrite <- (take_drop_middle l b chain Hl) at 1. by rewrite concat_app.
  - intros chain' n. unfold entries, with_buckets. cbn [_buckets _nbuckets]. rewrite take_insert_lt by done. fold l.
    rewrite insert_take_drop by (by eapply lookup_lt_Some). by rewrite concat_app.
  - intros e He. assert (Hk : exists i c, i <> b /\ l !! i = Some c /\ e ∈ c).
    { apply elem_of_app in He as [He|He]; apply list_elem_of_In, in_concat in He as (c & Hin & He);
        apply list_elem_of_In in He; apply list_elem_of_In, list_elem_of_lookup in Hin as [i Hi].
      - apply lookup_take_Some in Hi as [Hi ?]. exists i, c. split_and!; [lia|done|done].
      - rewrite lookup_drop in Hi. exists (S b + i)%nat, c. split_and!; [lia|done|done]. }
    destruct Hk as (i & c & Hne & Hi & Hin). unfold l in Hi. apply lookup_take_Some in Hi as [Hi Hlt].
    destruct (sh_home m Hm i c e Hi Hlt Hin) as [Hg Hh]. split; [done|congruence].
Qed.

Lemma chain_find_spec k chain :
  good_key k -> (forall e, e ∈ chain -> good_key (fst e)) ->
  (chain_find k chain = Ok None /\ key_id k ∉ (ids chain).*1) \/
  (exists i e c1 c2, chain_find k chain = Ok (Some i) /\ chain = c1 ++ e :: c2 /\ length c1 = i /\ key_id (fst e) = key_id k).
Proof.
  intros Hk. induction chain as [|e chain IH]; intros Hc; cbn [chain_find]; [left; split; [done|apply not_elem_of_nil]|].
  destruct (key_eq_id (fst e) k) as (b & -> & Hb); [apply Hc; left|done|]. res_simpl. destruct b.
  - right. exists 0%nat, e, [], chain. split_and!; try done. by apply Hb.
  - destruct IH as [[-> Hn]|(i & e' & c1 & c2 & -> & -> & <- & Hid)]; [intros; apply Hc; by right| |].
    + left. split; [done|]. cbn. apply not_elem_of_cons. split; [|done]. intros Heq.
      by assert (false = true) by (apply Hb; congruence).
    + right. by exists (S (length c1)), e', (e :: c1), c2.
Qed.

Lemma ids_app es es' : ids (es ++ es') = ids es ++ ids es'.
Proof. apply map_app. Qed.

Lemma fst_ids es : (ids es).*1 = map (fun e => key_id (fst e)) es.
Proof. unfold ids. induction es as [|e es IH]; [done|]. cbn. by f_equal. Qed.

Lemma list_to_map_middle (l1 l2 : list (C * V)) c v :
  NoDup (l1 ++ (c, v) :: l2).*1 ->
  (list_to_map (l1 ++ (c, v) :: l2) : gmap C V) = <[c := v]> (list_to_map (l1 ++ l2)) /\
  (list_to_map (l1 ++ l2) : gmap C V) !! c = None /\ NoDup (l1 ++ l2).*1.
Proof.
  intros Hn. assert (Hp : l1 ++ (c, v) :: l2 ≡ₚ (c, v) :: l1 ++ l2) by (symmetry; apply Permutation_middle).
  assert (Hn' : NoDup ((c, v) :: l1 ++ l2).*1) by (by rewrite <- Hp). apply NoDup_cons in Hn' as [Hc Hn'].
  split_and!; [by rewrite (list_to_map_proper _ _ Hn Hp)|by apply not_elem_of_list_to_map_1|done].
Qed.

(** A key in a table: its bucket, the chain, and what the map says. *)
Lemma locate k m M :
  represents m M -> good_key k ->
  exists chain before after,
    bucket k m = Ok (home k (_nbuckets m)) /\ _buckets m !! home k (_nbuckets m) = Some chain /\
    entries m = before ++ chain ++ after /\
    (forall chain' n, entries (with_buckets (<[home k (_nbuckets m) := chain']> (_buckets m)) n m) = before ++ chain' ++ after) /\
    ((chain_find k chain = Ok None /\ M !! key_id k = None) \/
     (exists i e c1 c2, chain_find k chain = Ok (Some i) /\ chain = c1 ++ e :: c2 /\ length c1 = i /\
        key_id (fst e) = key_id k /\ M !! key_id k = Some (snd e))).
Proof.
  intros [Hm Hnd HM Hn] Hk. set (b := home k (_nbuckets m)). pose proof (home_bound k m Hm) as Hb.
  destruct (chain_lookup b m Hm Hb) as [chain Hc].
  destruct (entries_split b chain m Hm Hb Hc) as (before & after & He & Hupd & Hout).
  exists chain, before, after. split; [by apply bucket_home|]. do 3 (split; [done|]).
  destruct (chain_find_spec k chain Hk) as [[Hf Hni]|(i & e & c1 & c2 & Hf & -> & Hi & Hid)].
  { intros e He'. by apply (sh_home m Hm b chain e). }
  - left. split; [done|]. rewrite <- HM. apply not_elem_of_list_to_map_1. rewrite He, fst_ids, !map_app.
    rewrite fst_ids in Hni. intros Hin. apply elem_of_app in Hin as [Hin|[Hin|Hin]%elem_of_app]; [|done|];
      apply list_elem_of_fmap in Hin as (e & Hid & Hin);
      destruct (Hout e) as [Hg Hh]; try (apply elem_of_app; auto); apply Hh; by apply home_id.
  - right. exists i, e, c1, c2. split_and!; try done. rewrite <- HM, He, !ids_app. cbn [ids map].
    assert (Hl : ids before ++ (ids c1 ++ (key_id (fst e), snd e) :: ids c2) ++ ids after =
                 (ids before ++ ids c1) ++ (key_id (fst e), snd e) :: (ids c2 ++ ids after))
      by (rewrite <- !app_assoc; done).
    unfold ids in Hl at 2 4. cbn [ids map] in *. rewrite He, !ids_app in Hnd. cbn [ids map] in Hnd.
    setoid_rewrite Hl. setoid_rewrite Hl in Hnd. destruct (list_to_map_middle _ _ _ _ Hnd) as (-> & _ & _).
    by rewrite Hid, lookup_insert_eq.
Qed.

Lemma shaped_chain b chain n m :
  shaped m -> (forall e, e ∈ chain -> good_key (fst e) /\ home (fst e) (_nbuckets m) = b) ->
  shaped (with_buckets (<[b := chain]> (_buckets m)) n m).
Proof.
  intros [H1 H2 H3] Hc. split; cbn [with_buckets _nbuckets _buckets]; [done|by rewrite length_insert|].
  intros b' c e. rewrite list_lookup_insert_Some. intros [(<- & <- & _)|[_ Hb]] Hlt He; [by apply Hc|by apply (H3 b' c e)].
Qed.

Lemma chain_home b chain m e :
  shaped m -> _buckets m !! b = Some chain -> (b < Z.to_nat (_nbuckets m))%nat -> e ∈ chain ->
  good_key (fst e) /\ home (fst e) (_nbuckets m) = b.
Proof. intros Hm Hb Hlt He. by apply (sh_home m Hm b chain e). Qed.

(** Writing the value of a pair that was found. *)
Lemma set_found k m M c1 e c2 before after v :
  represents m M -> _buckets m !! home k (_nbuckets m) = Some (c1 ++ e :: c2) ->
  entries m = before ++ (c1 ++ e :: c2) ++ after ->
  (forall chain' n, entries (with_buckets (<[home k (_nbuckets m) := chain']> (_buckets m)) n m) = before ++ chain' ++ after) ->
  key_id (fst e) = key_id k ->
  exists m', set_pair_value (home k (_nbuckets m), length c1) v m = Ok m' /\
    represents m' (<[key_id k := v]> M) /\ _capacity m' = _capacity m /\ _nbuckets m' = _nbuckets m /\ _n m' = _n m /\
    pair_value (home k (_nbuckets m), length c1) m' = Ok v.
Proof.
  intros [Hm Hnd HM Hn] Hc He Hupd Hid. set (b := home k (_nbuckets m)) in *. pose proof (home_bound k m Hm) as Hb. fold b in Hb.
  unfold set_pair_value, chain_at. cbn [fst snd]. rewrite Hc. res_simpl.
  rewrite list_lookup_middle by done. res_simpl. eexists. split; [done|].
  rewrite insert_app_r_alt, Nat.sub_diag by done.
  change (<[0%nat := (fst e, v)]> (e :: c2)) with ((fst e, v) :: c2).
  split; [|split_and!; try done].
  2:{ unfold pair_value, chain_at. cbn [fst snd with_buckets _buckets].
      rewrite list_lookup_insert_eq by (by eapply lookup_lt_Some). res_simpl. by rewrite list_lookup_middle. }
  assert (Hkeys : (ids (before ++ (c1 ++ (fst e, v) :: c2) ++ after)).*1 = (ids (entries m)).*1)
    by (rewrite He, !fst_ids, !map_app; done).
  split.
  - apply shaped_chain; [done|]. intros e' He'. apply elem_of_app in He' as [He'|He'%elem_of_cons].
    + apply (chain_home b _ m e' Hm Hc Hb). apply elem_of_app. by left.
    + destruct He' as [->|He']; cbn [fst].
      * apply (chain_home b _ m e Hm Hc Hb). apply elem_of_app. right. left.
      * apply (chain_home b _ m e' Hm Hc Hb). apply elem_of_app. right. by right.
  - rewrite Hupd, Hkeys. done.
  - rewrite Hupd. rewrite He in Hnd, HM, Hkeys. rewrite !ids_app in *. cbn [ids map] in *.
    rewrite <- HM. change (map (fun e => (key_id (fst e), snd e))) with ids in *. cbn [fst snd] in *.
    rewrite <- Hkeys in Hnd. pose proof Hnd as Hnd2. rewrite Hkeys in Hnd2.
    rewrite <- !app_assoc, !(app_assoc (ids before)) in *. cbn [app] in *.
    destruct (list_to_map_middle _ _ _ _ Hnd) as (-> & Hnone & _).
    destruct (list_to_map_middle _ _ _ _ Hnd2) as (-> & _ & _). rewrite Hid. by rewrite insert_insert_eq.
  - cbn [with_buckets _n]. rewrite Hupd, Hn, He, !length_app. cbn. lia.
Qed.

Lemma find_pair_spec k m M :
  represents m M -> good_key k ->
  match M !! key_id k with
  | None => find_pair k m = Ok None
  | Some v => exists p, find_pair k m = Ok (Some p) /\ pair_value p m = Ok v /\
      forall v', exists m', set_pair_value p v' m = Ok m' /\ represents m' (<[key_id k := v']> M)
  end.
Proof.
  intros Hr Hk. destruct (locate k m M Hr Hk) as (chain & before & after & Eb & Ec & He & Hupd & Hf).
  unfold find_pair, chain_at. rewrite Eb. res_simpl. rewrite Ec. res_simpl.
  destruct Hf as [[-> ->]|(i & e & c1 & c2 & -> & -> & <- & Hid & ->)]; res_simpl; [done|].
  eexists. split; [done|]. cbn [fmap option_fmap option_map]. split.
  - unfold pair_value, chain_at. cbn [fst snd]. rewrite Ec. res_simpl. by rewrite list_lookup_middle.
  - intros v'. destruct (set_found k m M c1 e c2 before after v' Hr Ec He Hupd Hid) as (m' & ? & ? & _). eauto.
Qed.

(** Linking a new element in front of its chain. *)
Lemma link_spec k v n m :
  shaped m -> good_key k ->
  exists m', link (home k (_nbuckets m)) (k, v) n m = Ok m' /\ shaped m' /\ entries m' ≡ₚ (k, v) :: entries m /\
    _nbuckets m' = _nbuckets m /\ _capacity m' = _capacity m /\ _n m' = n /\
    pair_value (home k (_nbuckets m), 0%nat) m' = Ok v.
Proof.
  intros Hm Hk. pose proof (home_bound k m Hm) as Hb. set (b := home k (_nbuckets m)) in *.
  destruct (chain_lookup b m Hm Hb) as [chain Hc]. destruct (entries_split b chain m Hm Hb Hc) as (before & after & He & Hupd & _).
  unfold link, chain_at. rewrite Hc. res_simpl. eexists. split; [done|]. split.
  { apply shaped_chain; [done|]. intros e [->|He']%elem_of_cons; [done|]. by apply (chain_home b chain m e). }
  split; [rewrite Hupd, He; cbn [app]; symmetry; apply Permutation_middle|]. split_and!; try done.
  unfold pair_value, chain_at. cbn [fst snd with_buckets _buckets].
  by rewrite list_lookup_insert_eq by (by eapply lookup_lt_Some).
Qed.

Lemma relink_spec es m :
  shaped m -> (forall e, e ∈ es -> good_key (fst e)) ->
  exists m', relink es m = Ok m' /\ shaped m' /\ entries m' ≡ₚ es ++ entries m /\
    _nbuckets m' = _nbuckets m /\ _capacity m' = _capacity m /\ _n m' = _n m.
Proof.
  revert m. induction es as [|[k v] es IH]; intros m Hm Hes; cbn [relink fst]; [by exists m|].
  rewrite (bucket_home k m Hm). res_simpl.
  destruct (link_spec k v (_n m) m Hm) as (m1 & -> & Hm1 & He1 & Hb1 & Hc1 & Hn1 & _); [apply (Hes (k, v)); left|]. res_simpl.
  destruct (IH m1 Hm1) as (m2 & -> & Hm2 & He2 & Hb2 & Hc2 & Hn2); [intros; apply Hes; by right|].
  exists m2. split_and!; try done; [|congruence..]. rewrite He2, He1. symmetry. apply Permutation_middle.
Qed.

Lemma represents_permutation m m' M :
  represents m M -> shaped m' -> entries m' ≡ₚ entries m -> _n m' = _n m -> represents m' M.
Proof.
  intros [Hm Hnd HM Hn] Hm' Hp Hn'. assert (Hp' : ids (entries m') ≡ₚ ids (entries m)) by (by apply Permutation_map).
  split; [done|by rewrite Hp'| |by rewrite Hn', Hn, Hp].
  rewrite <- HM. apply list_to_map_proper; [by rewrite Hp'|done].
Qed.

Lemma entries_good m M e : represents m M -> e ∈ entries m -> good_key (fst e).
Proof.
  intros [Hm _ _ _] He. apply list_elem_of_In, in_concat in He as (c & Hc & He). apply list_elem_of_In in He.
  apply list_elem_of_In, list_elem_of_lookup in Hc as [b Hb]. apply lookup_take_Some in Hb as [Hb Hlt].
  by apply (sh_home m Hm b c e).
Qed.

Lemma shaped_empty nb def n cap : 1 <= nb -> shaped (mkHashMap (replicate (Z.to_nat nb) []) nb def n cap).
Proof.
  intros Hnb. split; cbn [_buckets _nbuckets]; [done|by rewrite length_replicate|].
  intros b c e Hb Hlt He. apply lookup_replicate in Hb as [-> _]. by apply not_elem_of_nil in He.
Qed.

Lemma entries_empty nb def n cap :
  entries (mkHashMap (replicate (Z.to_nat nb) []) nb def n cap : HashMap K V) = [].
Proof.
  unfold entries. cbn [_nbuckets _buckets]. rewrite take_ge by (by rewrite length_replicate).
  induction (Z.to_nat nb) as [|j IH]; [done|exact IH].
Qed.

(** The number of buckets that [resize] comes to. *)
Lemma grow_spec want fuel j :
  (j + fuel = 23)%nat -> (1 <= j)%nat ->
  exists i, grow fuel want (2 ^ Z.of_nat j - 1) = 2 ^ Z.of_nat i - 1 /\ (j <= i <= 22)%nat /\
    (want <= 2 ^ Z.of_nat i - 1 \/ i = 22%nat) \/ fuel = O.
Proof.
  revert j. induction fuel as [|fuel IH]; intros j Hj H1; [exists 0%nat; by right|].
  cbn [grow]. destruct (Z.ltb_spec (2 ^ Z.of_nat j - 1) want) as [Hw|Hw]; cbn [andb].
  - destruct (Z.ltb_spec (2 ^ Z.of_nat j - 1) MAX_NBUCKETS) as [Hx|Hx].
    + assert (Hj22 : (j < 22)%nat).
      { destruct (decide (j < 22)%nat); [done|]. assert (2 ^ 22 <= 2 ^ Z.of_nat j) by (apply Z.pow_le_mono_r; lia).
        unfold MAX_NBUCKETS in Hx. lia. }
      replace (Z.shiftl (2 ^ Z.of_nat j - 1 + 1) 1 - 1) with (2 ^ Z.of_nat (S j) - 1).
      2:{ rewrite Z.shiftl_mul_pow2 by done. rewrite Nat2Z.inj_succ, Z.pow_succ_r by lia. lia. }
      destruct (IH (S j)) as (i & [(E & Hi & Hor)|Hf]); [lia|lia| |lia]. exists i. left. split_and!; [done|lia|lia|done].
    + exists j. left. split_and!; [done|lia|lia|]. right.
      assert (Hle : ~ (j < 22)%nat); [|lia]. intros Hlt.
      assert (2 ^ Z.of_nat j <= 2 ^ 21) by (apply Z.pow_le_mono_r; lia). unfold MAX_NBUCKETS in Hx. lia.
  - exists j. left. split_and!; [done|lia|lia|by left].
Qed.

Lemma grow_bound want :
  1 <= grow 22 want 1 <= MAX_NBUCKETS /\ (want <= grow 22 want 1 \/ grow 22 want 1 = MAX_NBUCKETS).
Proof.
  destruct (grow_spec want 22 1) as (i & [(E & Hi & Hor)|Hf]); [done|lia| |done]. change (2 ^ Z.of_nat 1 - 1) with 1 in E.
  rewrite E. assert (2 ^ 1 <= 2 ^ Z.of_nat i <= 2 ^ 22) by (split; apply Z.pow_le_mono_r; lia).
  unfold MAX_NBUCKETS. split; [lia|]. destruct Hor as [Hor| ->]; [by left|by right].
Qed.

(** While the table is resized dynamically and not resized by hand, it has two
    elements per bucket at most, until it has the most buckets it can have. *)
Definition default_capacity (nb : Z) : Z :=
  if MAX_NBUCKETS <=? nb then 0x7FFFFFFE else DEFAULT_RESIZE_THRESHOLD * nb.

Record loaded m : Prop := {
  ld_max : _nbuckets m <= MAX_NBUCKETS;
  ld_capacity : _capacity m = default_capacity (_nbuckets m);
  ld_n : _n m <= DEFAULT_RESIZE_THRESHOLD * _nbuckets m \/ _nbuckets m = MAX_NBUCKETS
}.

Lemma default_capacity_dynamic nb : nb <= MAX_NBUCKETS -> default_capacity nb < 0x7FFFFFFF.
Proof. intros. unfold default_capacity, DEFAULT_RESIZE_THRESHOLD, MAX_NBUCKETS in *. case_match; lia. Qed.

Lemma resize_spec want m M :
  represents m M ->
  exists m', resize want m = Ok m' /\ represents m' M /\ _nbuckets m' = grow 22 want 1 /\ _n m' = _n m /\
    (loaded m -> _capacity m' = default_capacity (_nbuckets m')).
Proof.
  intros Hr. destruct (grow_bound want) as [Hg _]. unfold resize. set (nb := grow 22 want 1) in *.
  rewrite (proj2 (Z.ltb_lt 0 nb)), (proj2 (Z.leb_le _ _)) by lia. cbn [andb].
  destruct (Z.eqb_spec (_nbuckets m) nb) as [Hnb|Hnb]; cbn [negb].
  { exists m. split_and!; try done. by intros []. }
  unfold resize0. set (m1 := mkHashMap _ _ _ _ _).
  set (m2 := if dynamic_resizing m1 then set_dynamic_resizing true m1 else m1).
  assert (E : exists cap, m2 = mkHashMap (replicate (Z.to_nat nb) []) nb (_default_value m) (_n m) cap /\
              (loaded m -> cap = default_capacity nb)).
  { unfold m2, dynamic_resizing. cbn [m1 _capacity]. destruct (Z.ltb_spec (_capacity m) 0x7FFFFFFF) as [Hd|Hd].
    - eexists. split; [reflexivity|]. done.
    - eexists. split; [reflexivity|]. intros [Hmax Hcap _]. pose proof (default_capacity_dynamic _ Hmax). lia. }
  destruct E as (cap & -> & Hcap).
  destruct (relink_spec (entries m) (mkHashMap (replicate (Z.to_nat nb) []) nb (_default_value m) (_n m) cap))
    as (m' & -> & Hm' & He & Hb & Hc & Hn); [apply shaped_empty; lia|intros; by eapply entries_good|].
  exists m'. rewrite entries_empty, app_nil_r in He. cbn [_nbuckets _capacity _n] in *.
  split; [done|]. split; [by apply (represents_permutation m)|]. split_and!; [done|done|].
  intros Hl. rewrite Hc, Hb. by apply Hcap.
Qed.

Lemma add_pair_spec k v m M :
  represents m M -> good_key k -> M !! key_id k = None ->
  exists m' p, add_pair k v (home k (_nbuckets m)) m = Ok (m', p) /\ represents m' (<[key_id k := v]> M) /\
    pair_value p m' = Ok v /\ (loaded m -> loaded m').
Proof.
  intros Hr Hk HM. unfold add_pair.
  assert (Hgrow : exists m1, (if _capacity m <=? _n m then
      let* m := resize (_nbuckets m + 1) m in let* b := bucket k m in Ok (m, b) else Ok (m, home k (_nbuckets m)))
      = Ok (m1, home k (_nbuckets m1)) /\ represents m1 M /\
      (loaded m -> _nbuckets m1 <= MAX_NBUCKETS /\ _capacity m1 = default_capacity (_nbuckets m1) /\
         (_n m1 + 1 <= DEFAULT_RESIZE_THRESHOLD * _nbuckets m1 \/ _nbuckets m1 = MAX_NBUCKETS))).
  { destruct (Z.leb_spec (_capacity m) (_n m)) as [Hfull|Hroom].
    - destruct (resize_spec (_nbuckets m + 1) m M Hr) as (m1 & -> & Hr1 & Hb & Hn & Hc). res_simpl.
      rewrite (bucket_home k m1 (rp_shaped _ _ Hr1)). res_simpl. exists m1. split_and!; [done|done|].
      intros Hl. destruct (grow_bound (_nbuckets m + 1)) as [Hg Hw]. rewrite <- Hb in Hg, Hw.
      split_and!; [lia|by apply Hc|]. destruct Hw as [Hw|Hw]; [|by right]. destruct Hl as [Hmax _ [Hl|Hl]]; [|lia].
      left. unfold DEFAULT_RESIZE_THRESHOLD in *. lia.
    - exists m. split; [done|]. split; [done|]. intros [Hmax Hcap Hl]. split; [done|]. split; [done|].
      unfold default_capacity in Hcap. destruct (Z.leb_spec MAX_NBUCKETS (_nbuckets m)); [right; lia|left; lia]. }
  destruct Hgrow as (m1 & -> & Hr1 & Hl1). res_simpl.
  destruct (link_spec k v (_n m1 + 1) m1 (rp_shaped _ _ Hr1) Hk) as (m2 & -> & Hm2 & He & Hb & Hc & Hn & Hv). res_simpl.
  eexists _, _. split; [done|]. destruct Hr1 as [Hm1 Hnd1 HM1 Hn1].
  assert (Hp : ids (entries m2) ≡ₚ (key_id k, v) :: ids (entries m1)) by (by apply (Permutation_map (fun e => (key_id (fst e), snd e)) He)).
  assert (Hnd2 : NoDup (ids (entries m2)).*1).
  { rewrite Hp. apply NoDup_cons. split; [|done]. apply not_elem_of_list_to_map_2. by rewrite HM1. }
  split_and!; [|done|].
  - split; [done|done| |].
    + rewrite (list_to_map_proper _ _ Hnd2 Hp). cbn [list_to_map foldr]. by rewrite <- HM1.
    + rewrite Hn, Hn1, He. cbn [length]. lia.
  - intros Hl. destruct (Hl1 Hl) as (H1 & H2 & H3). split; rewrite Hb; [done|by rewrite Hc|by rewrite Hn].
Qed.

Lemma insert_spec k v m M :
  represents m M -> good_key k ->
  exists m', insert k v m = Ok (m', bool_decide (M !! key_id k = None)) /\ represents m' (<[key_id k := v]> M) /\
    (loaded m -> loaded m').
Proof.
  intros Hr Hk. destruct (locate k m M Hr Hk) as (chain & before & after & Eb & Ec & He & Hupd & Hf).
  unfold insert, chain_at. rewrite Eb. res_simpl. rewrite Ec. res_simpl.
  destruct Hf as [[-> HM]|(i & e & c1 & c2 & -> & -> & <- & Hid & HM)]; rewrite HM; res_simpl.
  - destruct (add_pair_spec k v m M Hr Hk HM) as (m' & p & -> & Hr' & _ & Hl). res_simpl. by exists m'.
  - destruct (set_found k m M c1 e c2 before after v Hr Ec He Hupd Hid) as (m' & -> & Hr' & Hcap & Hb & Hn & _). res_simpl.
    exists m'. split_and!; [done|done|]. intros []. split; congruence.
Qed.

Lemma find_pair_force_spec k v m M :
  represents m M -> good_key k ->
  exists m' p, find_pair_force k v m = Ok (m', p) /\ pair_value p m' = Ok (default v (M !! key_id k)) /\
    represents m' (<[key_id k := default v (M !! key_id k)]> M) /\ (loaded m -> loaded m').
Proof.
  intros Hr Hk. destruct (locate k m M Hr Hk) as (chain & before & after & Eb & Ec & He & Hupd & Hf).
  unfold find_pair_force, chain_at. rewrite Eb. res_simpl. rewrite Ec. res_simpl.
  destruct Hf as [[-> HM]|(i & e & c1 & c2 & -> & -> & <- & Hid & HM)]; rewrite HM; res_simpl.
  - destruct (add_pair_spec k v m M Hr Hk HM) as (m' & p & -> & Hr' & Hv & Hl). by exists m', p.
  - eexists _, _. split; [done|]. split; [|by rewrite insert_id].
    unfold pair_value, chain_at. cbn [fst snd]. rewrite Ec. res_simpl. by rewrite list_lookup_middle.
Qed.

Lemma erase_spec k m M :
  represents m M -> good_key k ->
  exists m', erase k m = Ok (m', bool_decide (is_Some (M !! key_id k))) /\ represents m' (delete (key_id k) M) /\
    (loaded m -> loaded m').
Proof.
  intros Hr Hk. destruct (locate k m M Hr Hk) as (chain & before & after & Eb & Ec & He & Hupd & Hf).
  unfold erase, chain_at. rewrite Eb. res_simpl. rewrite Ec. res_simpl.
  destruct Hf as [[-> HM]|(i & e & c1 & c2 & -> & -> & <- & Hid & HM)]; rewrite HM; res_simpl.
  { exists m. split_and!; [done|by rewrite delete_id|done]. }
  eexists. split; [done|]. destruct Hr as [Hm Hnd HMe Hn]. rewrite delete_middle. split; [split|].
  - apply shaped_chain; [done|]. intros e' He'. apply (chain_home _ _ m e' Hm Ec); [by apply home_bound|].
    apply elem_of_app in He' as [He'|He']; apply elem_of_app; [by left|by right; right].
  - rewrite Hupd. rewrite He, !ids_app in Hnd. cbn [ids map] in Hnd. rewrite !ids_app.
    change (map (fun e => (key_id (fst e), snd e))) with ids in *. rewrite <- !app_assoc, !(app_assoc (ids before)) in *.
    cbn [app] in Hnd. by destruct (list_to_map_middle _ _ _ _ Hnd) as (_ & _ & Hnd').
  - rewrite Hupd. rewrite He, !ids_app in Hnd, HMe. cbn [ids map] in Hnd, HMe. rewrite !ids_app.
    change (map (fun e => (key_id (fst e), snd e))) with ids in *. rewrite <- !app_assoc, !(app_assoc (ids before)) in *.
    cbn [app] in Hnd, HMe. destruct (list_to_map_middle _ _ _ _ Hnd) as (Heq & Hnone & _).
    rewrite <- HMe, Heq, Hid. rewrite Hid in Hnone. by rewrite delete_insert_id.
  - cbn [with_buckets _n]. rewrite Hupd, Hn, He, !length_app. cbn [length]. lia.
  - intros [H1 H2 H3]. split; cbn [with_buckets _nbuckets _capacity _n]; [done|done|]. lia.
Qed.

Lemma findp_spec k m M : represents m M -> good_key k -> findp k m = Ok (M !! key_id k).
Proof.
  intros Hr Hk. pose proof (find_pair_spec k m M Hr Hk) as Hf. unfold findp.
  destruct (M !! key_id k); [destruct Hf as (p & -> & Hv & _); res_simpl; by rewrite Hv|by rewrite Hf].
Qed.

Lemma entries_set_dynamic on m : entries (set_dynamic_resizing on m) = entries m.
Proof. done. Qed.

Lemma set_dynamic_spec on m M : represents m M -> represents (set_dynamic_resizing on m) M.
Proof. intros Hr. apply (represents_permutation m); [done| |done|done]. by destruct Hr as [[] _ _ _]. Qed.

Lemma represents_new def : represents (HashMap_new def) ∅ /\ loaded (HashMap_new def).
Proof.
  split; [|split; try done; left; done].
  assert (He : entries (HashMap_new def : HashMap K V) = []) by (unfold HashMap_new, initialize; rewrite entries_set_dynamic; apply entries_empty).
  split; rewrite ?He; try done; [|apply NoDup_nil; exact I].
  unfold HashMap_new, initialize. by destruct (shaped_empty DEFAULT_INITIAL_NBUCKETS def 0 0) as [].
Qed.

Lemma empty_buckets bs : (forall c, c ∈ bs -> c = []) -> concat bs = ([] : list (K * V)).
Proof.
  induction bs as [|c bs IH]; intros Hb; [done|]. cbn [concat]. rewrite (Hb c) by left. apply IH. intros. apply Hb. by right.
Qed.

Lemma represents_empty m : shaped m -> entries m = [] -> _n m = 0 -> represents m ∅.
Proof. intros Hm He Hn. split; rewrite ?He; try done. apply NoDup_nil. exact I. Qed.

Lemma clear_spec m : shaped m -> represents (clear m) ∅ /\ (loaded m -> loaded (clear m)).
Proof.
  intros Hm. set (nb := Z.to_nat (_nbuckets m)).
  assert (Hl : length (take nb (_buckets m)) = nb) by (rewrite length_take; destruct Hm; lia).
  assert (Ht : take nb (_buckets (clear m)) = replicate nb []).
  { unfold clear. cbn [with_buckets _buckets]. fold nb. rewrite Hl, take_app_le, take_ge by (rewrite length_replicate; lia). done. }
  assert (Hc : forall c, c ∈ take nb (_buckets (clear m)) -> c = []).
  { intros c. rewrite Ht. intros Hin. by apply elem_of_replicate in Hin as [-> _]. }
  split.
  - apply represents_empty; [|by apply empty_buckets|done]. destruct Hm as [H1 H2 _]. split; [done| |].
    + unfold clear. cbn [with_buckets _buckets _nbuckets]. fold nb.
      rewrite length_app, length_replicate, Hl, length_drop. lia.
    + intros b c e Hb Hlt He. assert (c = []) as ->; [|by apply not_elem_of_nil in He].
      apply Hc. apply list_elem_of_lookup. exists b. by rewrite lookup_take_lt.
  - intros [H1 H2 H3]. split; [done|done|]. left. destruct Hm as [Hnb _ _].
    unfold clear, DEFAULT_RESIZE_THRESHOLD. cbn [with_buckets _n _nbuckets]. lia.
Qed.

(** Copies: the buckets are those of the source. *)
Lemma copy_from_spec o m M :
  represents o M -> _nbuckets m = _nbuckets o -> represents (copy_from o m) M.
Proof.
  intros Hr Hnb. assert (Hle : (Z.to_nat (_nbuckets o) <= length (_buckets o))%nat) by apply Hr.
  assert (Hb : _nbuckets (copy_from o m) = _nbuckets o) by done.
  assert (Hbs : _buckets (copy_from o m) = take (Z.to_nat (_nbuckets o)) (_buckets o) ++ drop (Z.to_nat (_nbuckets o)) (_buckets m))
    by (unfold copy_from; by rewrite Hnb).
  assert (Ht : take (Z.to_nat (_nbuckets o)) (_buckets (copy_from o m)) = take (Z.to_nat (_nbuckets o)) (_buckets o)).
  { rewrite Hbs, take_app_le by (rewrite length_take; lia). by rewrite take_take, Nat.min_id. }
  apply (represents_permutation o); [done| | |done].
  - destruct Hr as [[H1 H2 H3] _ _ _]. split; rewrite ?Hb; [done| |].
    + rewrite Hbs, length_app, length_take. lia.
    + intros b c e Hc Hlt He. apply (H3 b c e); [|done|done].
      rewrite <- (lookup_take_lt _ (Z.to_nat (_nbuckets o))), <- Ht, lookup_take_lt by done. done.
  - unfold entries. by rewrite Hb, Ht.
Qed.

Lemma assign_spec o m M :
  represents o M -> shaped m ->
  exists m', assign o m = Ok m' /\ represents m' M /\ _capacity m' = _capacity o /\ _nbuckets m' = _nbuckets o.
Proof.
  intros Hr Hm. unfold assign. destruct (clear_spec m Hm) as [Hc _]. set (m0 := clear m) in *.
  set (m1 := mkHashMap (_buckets m0) (_nbuckets m0) (_default_value o) (_n m0) (_capacity m0)).
  assert (Hm1 : represents m1 ∅) by (apply (represents_permutation m0); [done| |done|done]; by destruct Hc as [[] _ _ _]).
  destruct (_nbuckets m1 <? _nbuckets o); [|res_simpl; eexists; split; [done|]; split_and!; [by apply copy_from_spec|done|done]].
  unfold resize0. assert (He : entries m1 = []).
  { destruct Hm1 as [_ _ _ Hn]. apply length_zero_iff_nil. change (_n m1) with 0 in Hn. lia. }
  rewrite He. cbn [relink]. res_simpl. eexists. split; [done|]. split_and!; [by apply copy_from_spec|done|done].
Qed.

Lemma HashMap_copy_spec o M : represents o M -> represents (HashMap_copy o) M.
Proof. intros Hr. by apply copy_from_spec. Qed.

(** ** Iteration *)

Definition pair_at (p : PairPtr) m : option (K * V) := _buckets m !! fst p ≫= (fun chain => chain !! snd p).

Lemma first_from_spec m len b :
  (b + len = Z.to_nat (_nbuckets m))%nat -> (Z.to_nat (_nbuckets m) <= length (_buckets m))%nat ->
  let l := take (Z.to_nat (_nbuckets m)) (_buckets m) in
  (first_from len b m = None /\ concat (drop b l) = []) \/
  (exists b' e chain, first_from len b m = Some (b', 0%nat) /\ l !! b' = Some (e :: chain) /\
     concat (drop b l) = (e :: chain) ++ concat (drop (S b') l)).
Proof.
  intros Hb Hl l. revert b Hb. induction len as [|len IH]; intros b Hb; cbn [first_from].
  - left. split; [done|]. rewrite drop_ge; [done|]. unfold l. rewrite length_take. lia.
  - destruct (lookup_lt_is_Some_2 (_buckets m) b) as [c Hc]; [lia|]. rewrite Hc.
    assert (Hlb : l !! b = Some c) by (unfold l; by rewrite lookup_take_lt by lia).
    rewrite (drop_S l c b Hlb). cbn [concat]. destruct c as [|e c].
    + destruct (IH (S b)) as [[H1 H2]|(b' & e & ch & H1 & H2 & H3)]; [lia|by left|right; by exists b', e, ch].
    + right. exists b, e, c. done.
Qed.

Lemma iterate_spec m fuel b i e chain :
  let l := take (Z.to_nat (_nbuckets m)) (_buckets m) in
  (Z.to_nat (_nbuckets m) <= length (_buckets m))%nat ->
  l !! b = Some chain -> chain !! i = Some e ->
  (length (drop i chain ++ concat (drop (S b) l)) <= fuel)%nat ->
  Forall2 (fun p e => pair_at p m = Some e) (iterate fuel (Some (b, i)) m) (drop i chain ++ concat (drop (S b) l)).
Proof.
  intros l Hl. revert b i e chain. induction fuel as [|fuel IH]; intros b i e chain Hb Hi Hf.
  { rewrite (drop_S chain e i Hi) in Hf. cbn in Hf. lia. }
  assert (Hb' : _buckets m !! b = Some chain /\ (b < Z.to_nat (_nbuckets m))%nat) by (by apply lookup_take_Some in Hb).
  destruct Hb' as [Hbm Hlt]. rewrite (drop_S chain e i Hi) in Hf |- *. cbn [app length] in Hf. cbn [iterate app]. constructor.
  { unfold pair_at. cbn [fst snd]. by rewrite Hbm. }
  unfold next. cbn [fst snd]. rewrite Hbm. destruct (Nat.ltb_spec (S i) (length chain)) as [Hlen|Hlen].
  - destruct (lookup_lt_is_Some_2 chain (S i) Hlen) as [e' He']. apply (IH b (S i) e' chain); [done|done|lia].
  - rewrite (drop_ge chain (S i)) in Hf |- * by lia. cbn [app] in Hf |- *.
    destruct (first_from_spec m (Z.to_nat (_nbuckets m) - S b) (S b)) as [[-> E]|(b' & e' & ch & -> & Hb2 & E)]; [lia|done| |];
      unfold l; rewrite E; [destruct fuel; constructor|].
    apply (IH b' 0%nat e' (e' :: ch)); [done|done|]. unfold l in Hf |- *. rewrite E in Hf. cbn [drop]. apply le_S_n, Hf.
Qed.

(** A loop that changes values, from a place in a chain on. *)
Section for_each.
Context {O : Type} (body : nat -> K * V -> res (V * list O)) (g : K * V -> V) (o : nat -> K * V -> list O).

Definition turned (e : K * V) : K * V := (fst e, g e).

Lemma first_from_post m len P post :
  _buckets m = P ++ post -> (len <= length post)%nat ->
  (first_from len (length P) m = None /\ Forall (fun c => c = []) (take len post)) \/
  (exists p1 e c p2, post = p1 ++ (e :: c) :: p2 /\ Forall (fun c => c = []) p1 /\ (length p1 < len)%nat /\
     first_from len (length P) m = Some ((length P + length p1)%nat, 0%nat)).
Proof.
  revert P post. induction len as [|len IH]; intros P post Hm Hlen; [by left|]. cbn [first_from]. rewrite Hm.
  destruct post as [|c post]; [cbn in Hlen; lia|]. rewrite list_lookup_middle by done. destruct c as [|e c].
  - destruct (IH (P ++ [[]]) post) as [[Hf Hall]|(p1 & e & c & p2 & -> & Hall & Hl & Hf)];
      [by rewrite <- app_assoc|cbn in Hlen; lia| |]; rewrite length_app in Hf; cbn [length] in Hf;
      replace (S (length P)) with (length P + 1)%nat by lia.
    + left. split; [done|]. cbn [take]. by constructor.
    + right. exists ([] :: p1), e, c, p2. split_and!; [done|by constructor|cbn; lia|]. rewrite Hf. cbn [length]. do 2 f_equal. lia.
  - right. exists [], e, c, post. split_and!; [done|constructor|cbn; lia|]. cbn [length]. by rewrite Nat.add_0_r.
Qed.

Lemma map_empties (p : list (list (K * V))) : Forall (fun c => c = []) p -> map (map turned) p = p /\ concat p = [].
Proof. induction 1 as [|c p -> _ [IH1 IH2]]; [done|]. cbn. by rewrite IH1, IH2. Qed.

Lemma for_each_from m fuel n pre chain post i :
  let rest := (Z.to_nat (_nbuckets m) - S (length pre))%nat in
  let todo := drop i chain ++ concat (take rest post) in
  (forall j e, todo !! j = Some e -> body (n + j)%nat e = Ok (g e, o (n + j)%nat e)) ->
  _buckets m = pre ++ chain :: post -> (length pre < Z.to_nat (_nbuckets m) <= length (_buckets m))%nat ->
  (i < length chain)%nat -> (length todo <= fuel)%nat ->
  for_each body fuel n (Some (length pre, i)) m =
  Ok (with_buckets (pre ++ (take i chain ++ map turned (drop i chain)) :: (map (map turned) (take rest post) ++ drop rest post)) (_n m) m,
      concat (imap (fun j e => o (n + j)%nat e) todo)).
Proof.
  revert m n pre chain post i. induction fuel as [|fuel IH]; intros m n pre chain post i rest todo Hbody Hm Hnb Hi Hf.
  { unfold todo in Hf. rewrite length_app, length_drop in Hf. lia. }
  destruct (lookup_lt_is_Some_2 chain i Hi) as [e He]. pose proof (drop_S chain e i He) as Hd.
  cbn [for_each]. unfold iter_pair, set_pair_value, chain_at. cbn [fst snd]. rewrite Hm, list_lookup_middle by done. res_simpl.
  rewrite He. res_simpl. pose proof (Hbody 0%nat e) as Hb0. unfold todo in Hb0. rewrite Hd in Hb0. specialize (Hb0 eq_refl).
  rewrite Nat.add_0_r in Hb0. rewrite Hb0. res_simpl. cbn [fst snd].
  rewrite insert_app_r_alt, Nat.sub_diag by done. change (<[0%nat := ?x]> (chain :: post)) with (x :: post). cbn [fst].
  fold (turned e). set (chain1 := <[i := turned e]> chain). set (m1 := with_buckets (pre ++ chain1 :: post) (_n m) m).
  assert (Hl1 : length chain1 = length chain) by apply length_insert.
  assert (Ht1 : take (S i) chain1 = take i chain ++ [turned e]) by (by apply take_insert_S).
  assert (Hd1 : drop (S i) chain1 = drop (S i) chain) by (unfold chain1; by rewrite drop_insert_lt by lia).
  unfold next at 1. cbn [fst snd]. change (_buckets m1) with (pre ++ chain1 :: post). rewrite list_lookup_middle by done. rewrite Hl1.
  assert (Htodo : todo = e :: drop (S i) chain ++ concat (take rest post)) by (unfold todo; by rewrite Hd).
  clearbody todo. subst todo. cbn [length] in Hf. rewrite Hd. cbn [map].
  assert (Hbody1 : forall j e', (drop (S i) chain ++ concat (take rest post)) !! j = Some e' -> body (S n + j)%nat e' = Ok (g e', o (S n + j)%nat e')).
  { intros j e' Hj. replace (S n + j)%nat with (n + S j)%nat by lia. by apply Hbody. }
  assert (Hout : forall l, concat (imap (fun j e' => o (n + j)%nat e') (e :: l)) = o n e ++ concat (imap (fun j e' => o (S n + j)%nat e') l)).
  { intros l. cbn. rewrite Nat.add_0_r. f_equal. f_equal. apply imap_ext. intros j x _. cbn. f_equal. lia. }
  rewrite Hout.
  assert (Hlen : length (_buckets m1) = length (_buckets m)) by (rewrite Hm; unfold m1, with_buckets; cbn; by rewrite !length_app).
  destruct (Nat.ltb_spec (S i) (length chain)) as [Hs|Hs].
  - rewrite (IH m1 (S n) pre chain1 post (S i)); cbv zeta; change (_nbuckets m1) with (_nbuckets m);
      fold rest; rewrite ?Hd1, ?Hl1, ?Hlen; [|done|done|done|done|lia].
    res_simpl. cbn [fst snd]. rewrite Ht1, <- app_assoc. done.
  - rewrite (drop_ge chain (S i)) in Hbody1, Hf |- * by lia. cbn [app] in *.
    assert (Hc1 : chain1 = take i chain ++ [turned e]) by (etrans; [|exact Ht1]; rewrite take_ge by lia; done).
    destruct (first_from_post m1 rest (pre ++ [chain1]) post) as [[Hff Hall]|(p1 & e' & c & p2 & -> & Hall & Hl & Hff)].
    + unfold m1, with_buckets. cbn. by rewrite <- app_assoc.
    + rewrite Hm, length_app in Hnb. cbn in Hnb. lia.
    + rewrite length_app in Hff. cbn [length] in Hff. rewrite Nat.add_1_r in Hff. change (_nbuckets m1) with (_nbuckets m). fold rest.
      rewrite Hff. destruct (map_empties _ Hall) as [Ha1 Ha2]. rewrite Ha1, Ha2, take_drop. cbn [map]. rewrite <- Hc1. by destruct fuel.
    + rewrite length_app in Hff. cbn [length] in Hff. rewrite Nat.add_1_r in Hff. change (_nbuckets m1) with (_nbuckets m). fold rest.
      rewrite Hff. destruct (map_empties _ Hall) as [Ha1 Ha2].
      assert (Hrest : (rest = length p1 + S (Z.to_nat (_nbuckets m) - S (length (pre ++ chain1 :: p1))))%nat) by (unfold rest; rewrite length_app; cbn [length]; lia).
      assert (Htake : take rest (p1 ++ (e' :: c) :: p2) = p1 ++ (e' :: c) :: take (Z.to_nat (_nbuckets m) - S (length (pre ++ chain1 :: p1))) p2)
        by (rewrite Hrest, take_app_add; done).
      rewrite Htake in Hf, Hbody1 |- *. rewrite concat_app, Ha2 in Hf, Hbody1 |- *. cbn [app concat] in Hf, Hbody1 |- *.
      replace (S (length pre) + length p1)%nat with (length (pre ++ chain1 :: p1)) by (rewrite length_app; cbn; lia).
      rewrite (IH m1 (S n) (pre ++ chain1 :: p1) (e' :: c) p2 0%nat); cbv zeta; change (_nbuckets m1) with (_nbuckets m);
        rewrite ?Hlen; [|done| | |cbn; lia|cbn in Hf |- *; lia].
      * res_simpl. cbn [fst snd drop take map app]. do 2 f_equal. unfold m1, with_buckets. cbn [_buckets _nbuckets _default_value _n _capacity].
        f_equal. rewrite map_app, Ha1, Hc1. cbn [map]. rewrite (f_equal (fun k => drop k _) Hrest), drop_app_add.
        repeat (rewrite <- ?app_assoc; cbn [app drop]). by rewrite Hc1.
      * unfold m1, with_buckets. cbn. by rewrite <- app_assoc.
      * split; [|lia]. rewrite length_app. cbn [length]. unfold rest in Hl. lia.
Qed.

(** The table after the loop. *)
Definition all_turned m : HashMap K V :=
  with_buckets (map (map turned) (take (Z.to_nat (_nbuckets m)) (_buckets m)) ++ drop (Z.to_nat (_nbuckets m)) (_buckets m)) (_n m) m.

Lemma for_each_begin m fuel n :
  shaped m -> (forall j e, entries m !! j = Some e -> body (n + j)%nat e = Ok (g e, o (n + j)%nat e)) ->
  (length (entries m) <= fuel)%nat ->
  for_each body fuel n (begin_ m) m = Ok (all_turned m, concat (imap (fun j e => o (n + j)%nat e) (entries m))).
Proof.
  intros [_ Hl _] Hbody Hf. unfold begin_, all_turned.
  destruct (first_from_post m (Z.to_nat (_nbuckets m)) [] (_buckets m) eq_refl Hl) as [[Hff Hall]|(p1 & e & c & p2 & Hm & Hall & Hlt & Hff)];
    cbn [length] in Hff; rewrite ?Nat.add_0_l in Hff; rewrite Hff; destruct (map_empties _ Hall) as [Ha1 Ha2].
  - unfold entries in *. rewrite Ha1, Ha2, take_drop. cbn. unfold with_buckets. by destruct fuel, m.
  - assert (Hnb : exists k, Z.to_nat (_nbuckets m) = (length p1 + S k)%nat) by (exists (Z.to_nat (_nbuckets m) - S (length p1))%nat; lia).
    destruct Hnb as [k Hk]. assert (He : entries m = (e :: c) ++ concat (take k p2)).
    { unfold entries. by rewrite Hm, Hk, take_app_add, take_S_cons, concat_app, Ha2. }
    rewrite He in Hbody, Hf. assert (Hr : (Z.to_nat (_nbuckets m) - S (length p1))%nat = k) by lia.
    rewrite (for_each_from m fuel n p1 (e :: c) p2 0%nat); cbv zeta; rewrite ?Hr; [|done|done|lia|cbn; lia|done].
    rewrite He, Hm, Hk, take_app_add, drop_app_add, take_S_cons, map_app, Ha1, <- app_assoc. done.
Qed.

Lemma entries_all_turned m : shaped m -> entries (all_turned m) = map turned (entries m).
Proof.
  intros [_ Hl _]. unfold entries, all_turned. cbn [with_buckets _buckets _nbuckets].
  rewrite take_app_length' by (rewrite length_map, length_take; lia). by rewrite concat_map.
Qed.

Lemma all_turned_spec m M :
  represents m M -> represents (all_turned m) (list_to_map (ids (map turned (entries m)))).
Proof.
  intros [Hm Hnd HM Hn]. pose proof (entries_all_turned m Hm) as He. destruct Hm as [Hnb Hl Hh].
  assert (Hlt : length (take (Z.to_nat (_nbuckets m)) (_buckets m)) = Z.to_nat (_nbuckets m)) by (rewrite length_take; lia).
  constructor.
  - constructor; [done| |].
    + unfold all_turned. cbn. rewrite length_app, length_map, length_drop. lia.
    + intros b chain e. unfold all_turned. cbn [with_buckets _buckets _nbuckets]. intros Hc Hb.
      rewrite lookup_app_l in Hc by (rewrite length_map; lia). rewrite list_lookup_fmap in Hc.
      apply fmap_Some in Hc as (chain0 & Hc0 & ->). rewrite lookup_take_lt in Hc0 by done.
      intros (e0 & -> & He0)%list_elem_of_fmap. apply (Hh b chain0 e0 Hc0 Hb He0).
  - rewrite He. unfold ids in *. by rewrite map_map, <- list_fmap_compose in *.
  - by rewrite He.
  - rewrite He, length_map. apply Hn.
Qed.
End for_each.

(** A loop from [begin] visits the elements one after another. *)
Lemma iterate_entries m fuel :
  shaped m -> (length (entries m) <= fuel)%nat ->
  Forall2 (fun p e => pair_at p m = Some e) (iterate fuel (begin_ m) m) (entries m).
Proof.
  intros [_ Hl _] Hf. unfold begin_. destruct (first_from_spec m (Z.to_nat (_nbuckets m)) 0) as [[-> E]|(b & e & ch & -> & Hb & E)];
    [lia|done| |]; rewrite drop_0 in E; fold (entries m) in E.
  - rewrite E. destruct fuel; constructor.
  - rewrite E. apply (iterate_spec m fuel b 0 e (e :: ch)); [done|done|done|]. cbn [drop]. by rewrite <- E.
Qed.
End refinement.

(** ** Runs of a table against a finite map *)
Section runs.
Context {K V C : Type} {key : HashKey K} `{Countable C} {lawful : LawfulKey K C}.
Import HashMap.

Inductive map_op :=
| Insert (k : K) (v : V)
| Erase (k : K)
| Find (k : K)
| FindForce (k : K) (v : V)
| Clear
| Resize (want_nbuckets : Z)
| SetDynamicResizing (on : bool).

Inductive map_answer :=
| Nothing
| Flag (b : bool)
| Found (v : option V).

Definition map_step (o : map_op) (m : HashMap K V) : res (HashMap K V * map_answer) :=
  match o with
  | Insert k v => let* r := insert k v m in Ok (fst r, Flag (snd r))
  | Erase k => let* r := erase k m in Ok (fst r, Flag (snd r))
  | Find k => let* v := findp k m in Ok (m, Found v)
  | FindForce k v =>
      let* r := find_pair_force k v m in let* v := pair_value (snd r) (fst r) in Ok (fst r, Found (Some v))
  | Clear => Ok (clear m, Nothing)
  | Resize want => let* m := resize want m in Ok (m, Nothing)
  | SetDynamicResizing on => Ok (set_dynamic_resizing on m, Nothing)
  end.

Definition map_spec (o : map_op) (M : gmap C V) : gmap C V * map_answer :=
  match o with
  | Insert k v => (<[key_id k := v]> M, Flag (bool_decide (M !! key_id k = None)))
  | Erase k => (delete (key_id k) M, Flag (bool_decide (is_Some (M !! key_id k))))
  | Find k => (M, Found (M !! key_id k))
  | FindForce k v => let w := default v (M !! key_id k) in (<[key_id k := w]> M, Found (Some w))
  | Clear => (∅, Nothing)
  | Resize _ | SetDynamicResizing _ => (M, Nothing)
  end.

Definition good_op (o : map_op) : Prop :=
  match o with
  | Insert k _ | Erase k | Find k | FindForce k _ => good_key k
  | Clear | Resize _ | SetDynamicResizing _ => True
  end.

Definition tunes (o : map_op) : bool :=
  match o with Resize _ | SetDynamicResizing _ => true | _ => false end.

Fixpoint map_run (os : list map_op) (m : HashMap K V) : res (HashMap K V * list map_answer) :=
  match os with
  | [] => Ok (m, [])
  | o :: os => let* r := map_step o m in let* rs := map_run os (fst r) in Ok (fst rs, snd r :: snd rs)
  end.

Fixpoint spec_run (os : list map_op) (M : gmap C V) : gmap C V * list map_answer :=
  match os with
  | [] => (M, [])
  | o :: os => let r := map_spec o M in let rs := spec_run os (fst r) in (fst rs, snd r :: snd rs)
  end.

Lemma map_step_refines o m M :
  represents m M -> good_op o ->
  exists m', map_step o m = Ok (m', snd (map_spec o M)) /\ represents m' (fst (map_spec o M)) /\
    (tunes o = false -> loaded m -> loaded m').
Proof.
  intros Hr Ho. destruct o as [k v|k|k|k v| |w|on]; cbn [map_step map_spec good_op tunes fst snd] in *.
  - destruct (insert_spec k v m M Hr Ho) as (m' & -> & ? & ?). res_simpl. by exists m'.
  - destruct (erase_spec k m M Hr Ho) as (m' & -> & ? & ?). res_simpl. by exists m'.
  - rewrite (findp_spec k m M) by done. res_simpl. by exists m.
  - destruct (find_pair_force_spec k v m M Hr Ho) as (m' & p & -> & Hv & ? & ?). res_simpl. cbn [fst snd]. rewrite Hv. res_simpl. by exists m'.
  - destruct (clear_spec m (rp_shaped _ _ Hr)) as [? ?]. by exists (clear m).
  - destruct (resize_spec w m M Hr) as (m' & -> & ? & _). res_simpl. by exists m'.
  - exists (set_dynamic_resizing on m). split_and!; [done|by apply set_dynamic_spec|done].
Qed.

Lemma map_run_refines os m M :
  represents m M -> Forall good_op os ->
  exists m', map_run os m = Ok (m', snd (spec_run os M)) /\ represents m' (fst (spec_run os M)) /\
    (forallb (fun o => negb (tunes o)) os = true -> loaded m -> loaded m').
Proof.
  intros Hr Hos. revert m M Hr. induction Hos as [|o os Ho Hos IH]; intros m M Hr; cbn [map_run spec_run]; [by exists m|].
  destruct (map_step_refines o m M Hr Ho) as (m1 & -> & Hr1 & Hl1). res_simpl. cbn [fst snd].
  destruct (IH m1 _ Hr1) as (m2 & -> & Hr2 & Hl2). res_simpl. cbn [fst snd]. exists m2. split_and!; [done|done|].
  cbn [forallb]. intros [Ht Hts]%andb_true_iff Hl. apply Hl2; [done|]. apply Hl1; [by destruct (tunes o)|done].
Qed.
End runs.
Arguments map_op : clear implicits.
Arguments map_answer : clear implicits.

(** ** Keys *)

(** [HashMap<int, V>] *)
#[global] Instance int_key : HashKey Z := {
  key_eq a b := Ok (a =? b);
  hashcode a := u64 a
}.

#[global, program] Instance int_lawful : LawfulKey Z Z := {
  good_key _ := True;
  key_id a := a
}.
Next Obligation. intros a b _ _. exists (a =? b). split; [done|apply Z.eqb_eq]. Qed.
Next Obligation. by intros a b _ _ ->. Qed.

(** [ArrayWrapper<char, ORDER_SYMBOL_LEN>]: the table compares two of them with the
    [operator==] for constant arguments, which calls [strcmp]; the hash code is the
    first four bytes as an [int32_t]. *)
Module ArrayWrapper.

Record ArrayWrapper := mkArrayWrapper { _array : bytes }.

Definition ArrayWrapper_new (array_size : nat) : ArrayWrapper := mkArrayWrapper (replicate array_size 0).

(** [operator= (const char *str)] *)
Definition assign (str : bytes) (a : ArrayWrapper) : ArrayWrapper :=
  let array_size := length (_array a) in
  if (array_size <=? length str)%nat then mkArrayWrapper (replicate array_size 0)
  else mkArrayWrapper (str ++ replicate (array_size - length str) 0).

(** [strcmp (a, b) == 0]; past the end of both arrays there is nothing to read. *)
Fixpoint strcmp_eq (a b : bytes) : res bool :=
  match a, b with
  | x :: a, y :: b => if negb (x =? y) then Ok false else if x =? 0 then Ok true else strcmp_eq a b
  | _, _ => Fault OutOfBounds
  end.

Definition hashcode (a : ArrayWrapper) : Z := u64 (i32 (le_decode (take 4 (_array a)))).

End ArrayWrapper.

#[global] Instance symbol_hash_key : HashKey ArrayWrapper.ArrayWrapper := {
  key_eq a b := ArrayWrapper.strcmp_eq (ArrayWrapper._array a) (ArrayWrapper._array b);
  hashcode := ArrayWrapper.hashcode
}.

(** The string in an array: the bytes before the first NUL. *)
Fixpoint cstr (a : bytes) : bytes :=
  match a with
  | [] => []
  | x :: a => if x =? 0 then [] else x :: cstr a
  end.

(** The arrays the table works for: a NUL is there, and the bytes of the hash code
    after it are zero. *)
Definition keyable (a : bytes) : Prop :=
  (length (cstr a) < length a)%nat /\ take 4 a = take 4 (cstr a ++ replicate 4 0).
#[global] Instance keyable_dec a : Decision (keyable a).
Proof. unfold keyable. apply _. Defined.

Lemma strcmp_eq_cstr a b :
  (length (cstr a) < length a)%nat -> (length (cstr b) < length b)%nat ->
  exists r : bool, ArrayWrapper.strcmp_eq a b = Ok r /\ (r = true <-> cstr a = cstr b).
Proof.
  revert b. induction a as [|x a IH]; intros [|y b]; cbn [cstr length ArrayWrapper.strcmp_eq]; [lia..|]. intros Ha Hb.
  destruct (Z.eqb_spec x y) as [<-|Hxy]; cbn [negb].
  - destruct (Z.eqb_spec x 0); [by exists true|]. destruct (IH b) as (r & -> & Hr); [cbn in *; lia..|].
    exists r. split; [done|]. rewrite Hr. split; [by intros ->|by intros [= ->]].
  - exists false. split; [done|]. split; [done|].
    destruct (Z.eqb_spec x 0), (Z.eqb_spec y 0); try done; try lia. by intros [= -> _].
Qed.

#[global, program] Instance symbol_lawful : LawfulKey ArrayWrapper.ArrayWrapper bytes := {
  good_key a := keyable (ArrayWrapper._array a);
  key_id a := cstr (ArrayWrapper._array a)
}.
Next Obligation. intros a b [Ha _] [Hb _]. by apply strcmp_eq_cstr. Qed.
Next Obligation.
  intros a b [_ Ha] [_ Hb] Hid. cbn [hashcode symbol_hash_key]. unfold ArrayWrapper.hashcode. by rewrite Ha, Hb, Hid.
Qed.

(** A string that fits, padded with NULs, is good. *)
Lemma cstr_app s t : 0 ∉ s -> cstr (s ++ 0 :: t) = s.
Proof.
  induction s as [|x s IH]; intros Hs; [done|]. cbn [app cstr]. apply not_elem_of_cons in Hs as [Hx Hs].
  rewrite (proj2 (Z.eqb_neq x 0)) by done. by rewrite IH.
Qed.

Lemma padded_good s n : 0 ∉ s -> (length s < n)%nat -> (4 <= n)%nat -> keyable (s ++ replicate (n - length s) 0).
Proof.
  intros Hs Hl Hn. destruct (n - length s)%nat as [|j] eqn:Ej; [lia|]. unfold keyable. change (replicate (S j) 0) with (0 :: replicate j 0).
  rewrite cstr_app by done. rewrite length_app. cbn [length]. rewrite length_replicate. split; [lia|].
  change (0 :: replicate j 0) with (replicate (S j) 0). rewrite !take_app, !take_replicate.
  by replace ((4 - length s) `min` S j)%nat with ((4 - length s) `min` 4)%nat by lia.
Qed.

(** ** Properties *)
Module HashingProps.

(** C23: Whatever is done to a hash table with keys that keep its contract (equal keys have
    equal hash codes), from an empty table on, it does not fault and answers as a
    finite map does, and its size is the number of keys in the map; while it is not
    resized by hand it has at most two elements per bucket, or the most buckets it
    can have. *)
Theorem hash_map_refines {K V C} {key : HashKey K} `{Countable C} {lawful : LawfulKey K C} (def : V)
  (os : list (map_op K V)) (Hos : Forall good_op os) :
  exists m, map_run os (HashMap.HashMap_new def) = Ok (m, snd (spec_run os ∅)) /\
    represents m (fst (spec_run os ∅)) /\ HashMap._n m = Z.of_nat (size (fst (spec_run os ∅))) /\
    (forallb (fun o => negb (tunes o)) os = true ->
     HashMap._n m <= 2 * HashMap._nbuckets m \/ HashMap._nbuckets m = HashMap.MAX_NBUCKETS).
Proof.
  destruct (represents_new def) as [Hr Hl]. destruct (map_run_refines os _ _ Hr Hos) as (m & Hrun & Hm & Hload).
  exists m. split_and!; [done|done| |].
  - destruct Hm as [_ Hnd <- ->]. rewrite map_size_list_to_map by done. unfold ids. by rewrite length_map.
  - intros Ht. by apply (Hload Ht).
Qed.

Definition demo_symbol (s : bytes) : ArrayWrapper.ArrayWrapper := ArrayWrapper.assign s (ArrayWrapper.ArrayWrapper_new 10).
Definition demo_ops : list (map_op ArrayWrapper.ArrayWrapper Z) :=
  [Insert (demo_symbol [65; 66]) 1; Insert (demo_symbol [67]) 2; Insert (demo_symbol [65; 66]) 3;
   Find (demo_symbol [65; 66]); Erase (demo_symbol [67]); Find (demo_symbol [67]); FindForce (demo_symbol [68]) 4].

Lemma hash_map_refines_witness :
  (exists m, map_run demo_ops (HashMap.HashMap_new 0) = Ok (m, snd (spec_run demo_ops ∅)) /\ HashMap._n m = 2) /\
  snd (spec_run demo_ops ∅) =
    [Flag true; Flag true; Flag false; Found (Some 3); Flag true; Found None; Found (Some 4)].
Proof.
  split; [|vm_compute; reflexivity]. destruct (hash_map_refines 0 demo_ops) as (m & Hrun & _ & Hn & _).
  - repeat constructor; apply (bool_decide_eq_true_1 (keyable _)); vm_compute; reflexivity.
  - exists m. split; [exact Hrun|]. rewrite Hn. vm_compute. reflexivity.
Defined.

(** Copying a table by its constructor or by assignment gives a table that represents
    the same map, whatever the sizes of the tables; a loop over the iterators visits
    every element of the table once, in as many steps as it has elements. *)
Theorem hash_map_copied_and_iterated {K V C} {key : HashKey K} `{Countable C} {lawful : LawfulKey K C}
  (o m : HashMap.HashMap K V) (M N : gmap C V) fuel
  (Ho : represents o M) (Hm : represents m N) (Hf : HashMap._n o <= Z.of_nat fuel) :
  represents (HashMap.HashMap_copy o) M /\
  (exists m', HashMap.assign o m = Ok m' /\ represents m' M /\ HashMap._nbuckets m' = HashMap._nbuckets o) /\
  exists es, Forall2 (fun p e => pair_at p o = Some e) (HashMap.iterate fuel (HashMap.begin_ o) o) es /\
    NoDup (ids es).*1 /\ list_to_map (ids es) = M.
Proof.
  split_and!.
  - by apply HashMap_copy_spec.
  - destruct (assign_spec o m M Ho (rp_shaped _ _ Hm)) as (m' & ? & ? & _ & ?). by exists m'.
  - exists (HashMap.entries o). destruct Ho as [Hsh Hnd HM Hn]. split_and!; [|done|done]. apply iterate_entries; [done|lia].
Qed.

Definition demo_table : HashMap.HashMap Z Z :=
  match map_run [Insert 5 50; Insert 132 60; Insert 7 70] (HashMap.HashMap_new 0) with
  | Ok r => fst r
  | Fault _ => HashMap.HashMap_new 0
  end.

Lemma demo_represents : represents demo_table (fst (spec_run [Insert 5 50; Insert 132 60; Insert 7 70] ∅)).
Proof.
  destruct (represents_new (K := Z) (C := Z) 0) as [Hr _].
  destruct (map_run_refines [Insert 5 50; Insert 132 60; Insert 7 70] _ _ Hr) as (m & Hrun & Hm & _); [by repeat constructor|].
  unfold demo_table. by rewrite Hrun.
Qed.

Lemma hash_map_copied_and_iterated_witness :
  HashMap.iterate 3 (HashMap.begin_ demo_table) demo_table = [(5, 0); (5, 1); (7, 0)]%nat /\
  represents (HashMap.HashMap_copy demo_table) (fst (spec_run [Insert 5 50; Insert 132 60; Insert 7 70] ∅)).
Proof.
  split; [vm_compute; reflexivity|].
  apply (hash_map_copied_and_iterated demo_table demo_table _ _ 3 demo_represents demo_represents). vm_compute. discriminate.
Defined.

(** Symbols that are the same to [operator==] can have different hash codes, against
    the contract of the table, when the bytes after the NUL differ: one inserted is
    not found with the other.  Two equal symbols without a NUL make the comparison
    read past their ends. *)
Theorem symbol_contract_broken :
  let a := ArrayWrapper.mkArrayWrapper [65; 66; 0; 1; 0; 0; 0; 0; 0; 0] in
  let b := ArrayWrapper.mkArrayWrapper [65; 66; 0; 2; 0; 0; 0; 0; 0; 0] in
  let full := ArrayWrapper.mkArrayWrapper [65; 66; 67; 68; 69; 70; 71; 72; 73; 74] in
  key_eq a b = Ok true /\ hashcode a <> hashcode b /\
  (let* r := HashMap.insert a 1 (HashMap.HashMap_new 0) in HashMap.find_pair b (fst r)) = Ok None /\
  (let* r := HashMap.insert full 1 (HashMap.HashMap_new 0) in HashMap.find_pair full (fst r)) = Fault OutOfBounds.
Proof. cbn zeta. split_and!; [by vm_compute|by vm_compute|vm_compute; reflexivity|vm_compute; reflexivity]. Qed.

End HashingProps.
