(* ===== verification/Heap.v ===== *)
(** * Heap: the heaps of include/click/heap.hh

    [push_heap], [change_heap], [remove_heap] and [pop_heap], the binary ones and
    those of a higher arity, as one algorithm over a [Shape] that says which
    positions are related: the loops of the code differ in nothing else.  A heap is a
    list; [place] is called as in the code whenever an element arrives at a position,
    and its effect is a state that is passed along.

    The theorems are about any order that is a strict weak one and any [place] that
    records positions: the result is a heap with the same elements, each recorded at
    its position. *)

From S2P Require Import Prelude.

(** Parents and children: those of [i] are the positions from [first_child i] up to
    [end_child i]. *)
Record Shape := mkShape { parent : nat -> nat; first_child : nat -> nat; end_child : nat -> nat }.

Definition binary : Shape := mkShape (fun i => (i - 1) / 2)%nat (fun i => i * 2 + 1)%nat (fun i => i * 2 + 3)%nat.
Definition dary (arity : nat) : Shape :=
  mkShape (fun i => i / arity)%nat
    (fun i => if (i =? 0)%nat then 1 else i * arity)%nat
    (fun i => if (i =? 0)%nat then arity else i * arity + arity)%nat.

Class ShapeLaws (sh : Shape) : Prop := {
  parent_lt : forall i, (0 < i)%nat -> (parent sh i < i)%nat;
  child_range : forall i j, (0 < j)%nat -> parent sh j = i <-> (first_child sh i <= j < end_child sh i)%nat;
  child_gt : forall i, (i < first_child sh i)%nat
}.

Section heap.
Context {A P : Type} (sh : Shape) (comp : A -> A -> bool) (place : nat -> A -> P -> P).

(** The first loop: up, as long as the parent is greater. *)
Fixpoint sift_up (fuel i : nat) (l : list A) (p : P) : nat * list A * P :=
  match fuel with
  | O => (i, l, p)
  | S fuel =>
      if (i =? 0)%nat then (i, l, p)
      else
        let npos := parent sh i in
        match l !! i, l !! npos with
        | Some x, Some y =>
            if comp x y then sift_up fuel npos (<[i := y]> (<[npos := x]> l)) (place i y p) else (i, l, p)
        | _, _ => (i, l, p)
        end
  end.

(** The smallest of the element at [smallest] and [n] children from [trial] on. *)
Fixpoint smallest_child (l : list A) (n trial smallest : nat) : nat :=
  match n with
  | O => smallest
  | S n =>
      let smallest :=
        match l !! trial, l !! smallest with
        | Some x, Some y => if comp x y then trial else smallest
        | _, _ => smallest
        end in
      smallest_child l n (S trial) smallest
  end.

(** The second loop: down, as long as a child is smaller. *)
Fixpoint sift_down (fuel i : nat) (l : list A) (p : P) : nat * list A * P :=
  match fuel with
  | O => (i, l, p)
  | S fuel =>
      let trial := first_child sh i in
      let end_trial := Nat.min (end_child sh i) (length l) in
      let smallest := smallest_child l (end_trial - trial) trial i in
      if (smallest =? i)%nat then (i, l, p)
      else
        match l !! i, l !! smallest with
        | Some x, Some y => sift_down fuel smallest (<[i := y]> (<[smallest := x]> l)) (place i y p)
        | _, _ => (i, l, p)
        end
  end.

Definition place_at (i : nat) (l : list A) (p : P) : P :=
  match l !! i with Some x => place i x p | None => p end.

Definition push_heap (l : list A) (p : P) : res (list A * P) :=
  assert* (0 <? length l)%nat;
  let '(i, l, p) := sift_up (length l) (length l - 1) l p in
  Ok (l, place_at i l p).

Definition change_heap (element : nat) (l : list A) (p : P) : res (nat * list A * P) :=
  assert* (element <? length l)%nat;
  let '(i, l, p) := sift_up (S element) element l p in
  let '(i, l, p) := sift_down (length l) i l p in
  Ok (i, l, if (i =? element)%nat then p else place_at i l p).

(** The element ends up behind the heap. *)
Definition remove_heap (element : nat) (l : list A) (p : P) : res (list A * P) :=
  assert* (element <? length l)%nat;
  let back := (length l - 1)%nat in
  if (element =? back)%nat then Ok (l, p)
  else
    match l !! element, l !! back with
    | Some x, Some y =>
        let heap := <[element := y]> (take back l) in
        let p := place_at element heap p in
        let* r := change_heap element heap p in
        Ok (r.1.2 ++ [x], r.2)
    | _, _ => Fault AssertFailed
    end.

Definition pop_heap (l : list A) (p : P) : res (list A * P) := remove_heap 0 l p.
End heap.

(** ** The shapes *)

#[global] Instance binary_laws : ShapeLaws binary.
Proof.
  split.
  - intros i Hi. cbn [parent first_child end_child binary dary]. pose proof (Nat.div_mod (i - 1) 2 ltac:(lia)). lia.
  - intros i j Hj. cbn [parent first_child end_child binary dary]. pose proof (Nat.div_mod (j - 1) 2 ltac:(lia)). pose proof (Nat.mod_upper_bound (j - 1) 2 ltac:(lia)).
    split; intros; nia.
  - intros i. cbn [parent first_child end_child binary dary]. lia.
Qed.

Lemma dary_laws arity : (1 < arity)%nat -> ShapeLaws (dary arity).
Proof.
  intros Ha. split.
  - intros i Hi. cbn [parent first_child end_child binary dary]. apply Nat.div_lt; lia.
  - intros i j Hj. cbn [parent first_child end_child binary dary]. pose proof (Nat.div_mod j arity ltac:(lia)) as Hd.
    pose proof (Nat.mod_upper_bound j arity ltac:(lia)) as Hm.
    destruct (Nat.eqb_spec i 0) as [->|Hi]; split; intros; nia.
  - intros i. cbn [parent first_child end_child binary dary]. destruct (Nat.eqb_spec i 0) as [->|Hi]; [lia|nia].
Qed.
#[global] Instance dary4_laws : ShapeLaws (dary 4).
Proof. apply dary_laws. lia. Qed.

(** ** Correctness *)

Section correct.
Context {A P I : Type} (sh : Shape) `{!ShapeLaws sh} (comp : A -> A -> bool) (place : nat -> A -> P -> P).

(** [comp] is a strict weak order, and [le] the order it comes from. *)
Definition le (a b : A) : Prop := comp b a = false.
Context (le_trans : forall a b c, le a b -> le b c -> le a c).
Context (comp_asym : forall a b, comp a b = true -> le a b).

(** [place] records the position of an element, and touches no other's. *)
Context (name : A -> I) (pos_ok : nat -> A -> P -> Prop).
Context (place_here : forall i a p, pos_ok i a (place i a p)).
Context (place_other : forall i a j b p, name b <> name a -> pos_ok j b p -> pos_ok j b (place i a p)).

Lemma le_refl a : le a a.
Proof. unfold le. destruct (comp a a) eqn:E; [|done]. pose proof (comp_asym a a E) as H. unfold le in H. congruence. Qed.

Definition heap (l : list A) : Prop :=
  forall j x y, (0 < j)%nat -> l !! j = Some x -> l !! parent sh j = Some y -> le y x.

(** A heap but for the element at [i]: it may be too small or too great. *)
Definition heap_but (i : nat) (l : list A) : Prop :=
  (forall j x y, (0 < j)%nat -> j <> i -> parent sh j <> i -> l !! j = Some x -> l !! parent sh j = Some y -> le y x) /\
  (forall j x y, (0 < i)%nat -> (0 < j)%nat -> parent sh j = i -> l !! j = Some x -> l !! parent sh i = Some y -> le y x).

(** The element at [i] is not smaller than its parent. *)
Definition above_ok (i : nat) (l : list A) : Prop :=
  forall x y, (0 < i)%nat -> l !! i = Some x -> l !! parent sh i = Some y -> le y x.

(** Nor are its children smaller. *)
Definition below_ok (i : nat) (l : list A) : Prop :=
  forall j x y, (0 < j)%nat -> parent sh j = i -> l !! j = Some x -> l !! i = Some y -> le y x.

Lemma heap_whole i l : heap_but i l -> above_ok i l -> below_ok i l -> heap l.
Proof.
  intros [Hb _] Ha Hc j a b Hj Ea Eb. destruct (decide (j = i)) as [->|Hji]; [by apply (Ha a b)|].
  destruct (decide (parent sh j = i)) as [Hpj|Hpj]; [|by apply (Hb j a b)]. rewrite Hpj in Eb. by apply (Hc j a b).
Qed.

Definition placed (l : list A) (p : P) : Prop := forall j x, l !! j = Some x -> pos_ok j x p.

(** The element [x] is at [i], and recorded at [e] if it is recorded; all others are
    where they are recorded. *)
Record moving (i : nat) (e : option nat) (x : A) (l : list A) (p : P) : Prop := mkMoving {
  moving_at : l !! i = Some x;
  moving_rest : forall j y, j <> i -> l !! j = Some y -> pos_ok j y p;
  moving_old : forall j, e = Some j -> pos_ok j x p;
  moving_names : NoDup (map name l)
}.

Lemma swapped_lookup (l : list A) i k x y j :
  i <> k -> l !! i = Some x -> l !! k = Some y ->
  <[i := y]> (<[k := x]> l) !! j = if decide (j = i) then Some y else if decide (j = k) then Some x else l !! j.
Proof.
  intros Hik Hi Hk. pose proof (lookup_lt_Some _ _ _ Hi). pose proof (lookup_lt_Some _ _ _ Hk).
  destruct (decide (j = i)) as [->|Hji]; [by rewrite list_lookup_insert_eq by (rewrite length_insert; lia)|].
  rewrite list_lookup_insert_ne by done. destruct (decide (j = k)) as [->|Hjk]; [by rewrite list_lookup_insert_eq|].
  by rewrite list_lookup_insert_ne by done.
Qed.

Lemma swapped_permutation (l : list A) i k x y :
  l !! i = Some x -> l !! k = Some y -> <[i := y]> (<[k := x]> l) ≡ₚ l.
Proof. intros Hi Hk. by apply Permutation_insert_swap. Qed.

Lemma names_differ (l : list A) i j x y :
  NoDup (map name l) -> l !! i = Some x -> l !! j = Some y -> i <> j -> name x <> name y.
Proof.
  intros Hd Hi Hj Hij E. apply Hij. eapply (NoDup_lookup (map name l)); [exact Hd| |].
  - change (map name l) with (name <$> l). by rewrite list_lookup_fmap, Hi.
  - change (map name l) with (name <$> l). by rewrite list_lookup_fmap, Hj, E.
Qed.

Lemma moving_swap i k e x y l p :
  i <> k -> l !! k = Some y -> moving i e x l p -> moving k e x (<[i := y]> (<[k := x]> l)) (place i y p).
Proof.
  intros Hik Hk [H1 H2 H3 H4].
  pose proof (names_differ l i k x y H4 H1 Hk Hik) as Hn.
  split.
  - rewrite (swapped_lookup l i k x y k Hik H1 Hk). rewrite decide_False by done. by rewrite decide_True.
  - intros j z Hj Ej. rewrite (swapped_lookup l i k x y j Hik H1 Hk) in Ej.
    destruct (decide (j = i)) as [->|Hji]; [injection Ej as <-; apply place_here|].
    rewrite decide_False in Ej by done. apply place_other; [by apply (names_differ l j k z y)|by apply H2].
  - intros j Hj. apply place_other; [done|by apply H3].
  - by rewrite (swapped_permutation l i k x y H1 Hk).
Qed.

Lemma moving_placed i e x l p : moving i e x l p -> placed l (place_at place i l p).
Proof.
  intros [M1 M2 M3 M4] j y Hj. unfold place_at. rewrite M1.
  destruct (decide (j = i)) as [->|Hn]; [simplify_eq; apply place_here|].
  apply place_other; [by apply (names_differ l j i)|by apply M2].
Qed.

Lemma sift_up_spec fuel i e x l p i' l' p' :
  (i < fuel)%nat -> heap_but i l -> moving i e x l p -> sift_up sh comp place fuel i l p = (i', l', p') ->
  heap_but i' l' /\ above_ok i' l' /\ (below_ok i l -> below_ok i' l') /\ moving i' e x l' p' /\ l' ≡ₚ l.
Proof.
  revert i l p. induction fuel as [|fuel IH]; intros i l p Hf Hb Hm E; [lia|]. cbn [sift_up] in E.
  destruct (Nat.eqb_spec i 0) as [->|Hi]; [injection E as <- <- <-; split_and!; [done| |done|done|done]; intros ? ? ?; lia|].
  pose proof (parent_lt i ltac:(lia)) as Hpi. rewrite (moving_at _ _ _ _ _ Hm) in E.
  destruct (lookup_lt_is_Some_2 l (parent sh i)) as [y Hy].
  { pose proof (lookup_lt_Some _ _ _ (moving_at _ _ _ _ _ Hm)). lia. }
  rewrite Hy in E. destruct (comp x y) eqn:Ec.
  2: { injection E as <- <- <-. split_and!; [done| |done|done|done]. intros x' y' _ E1 E2.
       rewrite (moving_at _ _ _ _ _ Hm) in E1. simplify_eq. done. }
  set (k := parent sh i) in *. pose proof (moving_swap i k e x y l p ltac:(lia) Hy Hm) as Hm'.
  pose proof (fun j => swapped_lookup l i k x y j ltac:(lia) (moving_at _ _ _ _ _ Hm) Hy) as Hl.
  assert (heap_but k (<[i := y]> (<[k := x]> l))) as Hb'.
  { destruct Hb as [Hb1 Hb2]. split.
    - intros j a b Hj Hjk Hpk. rewrite !Hl.
      destruct (decide (j = i)) as [->|Hji]; [done|]. rewrite (decide_False (P := j = k)) by done.
      destruct (decide (parent sh j = i)) as [Hji'|Hji'].
      + intros Ea [= <-]. apply (Hb2 j a y); [lia|done|done|done|exact Hy].
      + rewrite decide_False by done. intros Ea Eb. by apply (Hb1 j a b).
    - intros j a b Hk Hj Hjk. rewrite !Hl. pose proof (parent_lt k Hk) as Hpk.
      rewrite !(decide_False (P := parent sh k = _)) by lia. intros Ea Eb.
      assert (le b y) as Hby by (apply (Hb1 k y b); [done|lia|lia|exact Hy|exact Eb]).
      destruct (decide (j = i)) as [->|Hji]; [injection Ea as <-; exact Hby|].
      rewrite decide_False in Ea by (intros ->; lia).
      apply (le_trans b y a Hby). apply (Hb1 j a y); [done|done|lia|exact Ea|by rewrite Hjk]. }
  assert (below_ok k (<[i := y]> (<[k := x]> l))) as Hc'.
  { intros j a b Hj Hjk. rewrite !Hl. rewrite (decide_False (P := k = i)) by lia. rewrite (decide_True (P := k = k)) by done.
    intros Ea [= <-]. pose proof (comp_asym x y Ec) as Hxy. destruct (decide (j = i)) as [->|Hji]; [by injection Ea as <-|].
    pose proof (parent_lt j Hj). rewrite decide_False in Ea by lia. apply (le_trans x y a Hxy).
    apply (proj1 Hb j a y); [done|done|lia|exact Ea|by rewrite Hjk]. }
  destruct (IH k _ _ ltac:(lia) Hb' Hm' E) as (R1 & R2 & R3 & R4 & R5). split_and!; [done|done|intros _; by apply R3|done|].
  by rewrite R5, (swapped_permutation l i k x y (moving_at _ _ _ _ _ Hm) Hy).
Qed.

(** The smallest of a range and of an element before it. *)
Lemma smallest_child_spec l n trial s ys :
  (trial + n <= length l)%nat -> l !! s = Some ys ->
  let r := smallest_child comp l n trial s in
  exists y, l !! r = Some y /\ (r = s \/ (trial <= r < trial + n)%nat) /\ le y ys /\
    forall j x, (trial <= j < trial + n)%nat -> l !! j = Some x -> le y x.
Proof.
  revert trial s ys. induction n as [|n IH]; intros trial s ys Hn Hs; cbn [smallest_child].
  - exists ys. split_and!; [done|by left|apply le_refl|]. intros j x Hj. lia.
  - destruct (lookup_lt_is_Some_2 l trial) as [yt Ht]; [lia|]. rewrite Ht, Hs.
    destruct (comp yt ys) eqn:Ec.
    + destruct (IH (S trial) trial yt) as (y & Hy & Hr & Hle & Hall); [lia|done|].
      assert (le y ys) by (by apply (le_trans y yt ys), comp_asym).
      exists y. split_and!; [done|lia|done|]. intros j x Hj Hx.
      destruct (decide (j = trial)) as [->|Hjt]; [|apply (Hall j x); [lia|done]]. by assert (x = yt) as -> by congruence.
    + destruct (IH (S trial) s ys) as (y & Hy & Hr & Hle & Hall); [lia|done|].
      exists y. split_and!; [done|lia|done|]. intros j x Hj Hx.
      destruct (decide (j = trial)) as [->|Hjt]; [|apply (Hall j x); [lia|done]].
      assert (x = yt) as -> by congruence. by apply (le_trans y ys yt).
Qed.

Lemma sift_down_spec fuel i e x l p i' l' p' :
  (length l <= fuel + i)%nat -> heap_but i l -> above_ok i l -> moving i e x l p ->
  sift_down sh comp place fuel i l p = (i', l', p') ->
  heap l' /\ moving i' e x l' p' /\ l' ≡ₚ l.
Proof.
  revert i l p. induction fuel as [|fuel IH]; intros i l p Hf Hb Ha Hm E.
  { pose proof (lookup_lt_Some _ _ _ (moving_at _ _ _ _ _ Hm)). lia. }
  cbn [sift_down] in E. pose proof (moving_at _ _ _ _ _ Hm) as Hi. pose proof (lookup_lt_Some _ _ _ Hi) as Hil.
  set (trial := first_child sh i) in *. set (n := (Nat.min (end_child sh i) (length l) - trial)%nat) in *.
  set (s := smallest_child comp l n trial i) in *.
  assert (trial + n <= length l \/ n = 0)%nat as Hrange by (unfold n; lia).
  assert (exists y, l !! s = Some y /\ (s = i \/ (trial <= s < trial + n)%nat) /\ le y x /\
    forall j z, (0 < j)%nat -> parent sh j = i -> l !! j = Some z -> le y z) as (y & Hy & Hs & Hyx & Hall).
  { destruct Hrange as [Hr|Hr].
    - destruct (smallest_child_spec l n trial i x Hr Hi) as (y & Hy & Hs & Hyx & Hall). exists y. split_and!; [done..|].
      intros j z Hj Hpj Ez. apply (Hall j z); [|done]. apply (child_range i j Hj) in Hpj.
      pose proof (lookup_lt_Some _ _ _ Ez). unfold n, trial. lia.
    - assert (s = i) as -> by (unfold s; by rewrite Hr). exists x. split_and!; [done|by left|apply le_refl|].
      intros j z Hj Hpj Ez. exfalso. apply (child_range i j Hj) in Hpj. pose proof (lookup_lt_Some _ _ _ Ez).
      unfold n, trial in Hr. lia. }
  destruct (Nat.eqb_spec s i) as [Hsi|Hsi].
  { injection E as <- <- <-. split_and!; [|done|done]. rewrite Hsi in Hy. simplify_eq. intros j a b Hj Ea Eb.
    destruct (decide (parent sh j = i)) as [Hpj|Hpj]; [rewrite Hpj in Eb; simplify_eq; by apply (Hall j a)|].
    destruct (decide (j = i)) as [->|Hji]; [by apply (Ha a b)|]. by apply (proj1 Hb j a b). }
  rewrite Hi, Hy in E. destruct Hs as [Hs|Hs]; [done|].
  assert (i < s)%nat as His by (pose proof (child_gt i); unfold trial in Hs; lia).
  assert (parent sh s = i) as Hps by (apply child_range; [lia|]; unfold n, trial in Hs; lia).
  pose proof (moving_swap i s e x y l p ltac:(lia) Hy Hm) as Hm'.
  pose proof (fun j => swapped_lookup l i s x y j ltac:(lia) Hi Hy) as Hl.
  assert (above_ok s (<[i := y]> (<[s := x]> l))) as Ha'.
  { intros a b _. rewrite !Hl, Hps. rewrite (decide_False (P := s = i)) by done. rewrite (decide_True (P := s = s)) by done.
    rewrite decide_True by done. intros [= <-] [= <-]. exact Hyx. }
  assert (heap_but s (<[i := y]> (<[s := x]> l))) as Hb'.
  { destruct Hb as [Hb1 Hb2]. split.
    - intros j a b Hj Hjs Hpj. rewrite !Hl. rewrite (decide_False (P := j = s)) by done.
      rewrite (decide_False (P := parent sh j = s)) by done.
      destruct (decide (j = i)) as [->|Hji].
      + pose proof (parent_lt i Hj). rewrite decide_False by lia. intros [= <-] Eb. by apply (Hb2 s y b); [|lia|..].
      + destruct (decide (parent sh j = i)) as [Hpi|Hpi].
        * intros Ea [= <-]. by apply (Hall j a).
        * intros Ea Eb. by apply (Hb1 j a b).
    - intros j a b _ Hj Hpj. rewrite !Hl, Hps. rewrite (decide_True (P := i = i)) by done. intros Ea [= <-].
      pose proof (parent_lt j Hj). rewrite !decide_False in Ea by lia.
      apply (Hb1 j a y); [done|lia|lia|exact Ea|by rewrite Hpj]. }
  assert (length (<[i := y]> (<[s := x]> l)) <= fuel + s)%nat as Hf' by (rewrite !length_insert; lia).
  destruct (IH s _ _ Hf' Hb' Ha' Hm' E) as (R1 & R2 & R3). split_and!; [done..|].
  by rewrite R3, (swapped_permutation l i s x y Hi Hy).
Qed.

(** An element of a heap that is replaced may be anywhere in the order. *)
Lemma heap_insert i x l : heap l -> heap_but i (<[i := x]> l).
Proof.
  intros Hh. split.
  - intros j a b Hj Hji Hpj. rewrite !list_lookup_insert_ne by done. by apply Hh.
  - intros j a b Hi Hj Hpj. pose proof (parent_lt i Hi). pose proof (parent_lt j Hj).
    rewrite !list_lookup_insert_ne by lia. intros Ea Eb.
    destruct (lookup_lt_is_Some_2 l i) as [c Ec]; [pose proof (lookup_lt_Some _ _ _ Ea); lia|].
    apply (le_trans b c a); [by apply (Hh i c b)|]. apply (Hh j a c); [done|done|by rewrite Hpj].
Qed.

Lemma heap_app x l : heap l -> heap_but (length l) (l ++ [x]).
Proof.
  intros Hh. split.
  - intros j a b Hj Hji Hpj Ea Eb. pose proof (lookup_lt_Some _ _ _ Ea) as Hl. rewrite length_app in Hl. cbn in Hl.
    pose proof (parent_lt j Hj). rewrite lookup_app_l in Ea, Eb by lia. by apply (Hh j a b).
  - intros j a b Hi Hj Hpj Ea. pose proof (lookup_lt_Some _ _ _ Ea) as Hl. rewrite length_app in Hl. cbn in Hl.
    pose proof (parent_lt j Hj). lia.
Qed.

Lemma heap_take n l : heap l -> heap (take n l).
Proof. intros Hh j a b Hj [Ea _]%lookup_take_Some [Eb _]%lookup_take_Some. by apply (Hh j a b). Qed.

Theorem change_heap_spec element x l p :
  heap_but element l -> l !! element = Some x -> placed l p -> NoDup (map name l) ->
  exists i l' p', change_heap sh comp place element l p = Ok (i, l', p') /\
    heap l' /\ placed l' p' /\ l' ≡ₚ l /\ l' !! i = Some x.
Proof.
  intros Hb Hx Hp Hd. unfold change_heap. pose proof (lookup_lt_Some _ _ _ Hx) as Hlt.
  rewrite (proj2 (Nat.ltb_lt _ _) Hlt).
  assert (moving element (Some element) x l p) as Hm by (split; [done|intros; by apply Hp|intros j [= <-]; by apply Hp|done]).
  destruct (sift_up sh comp place (S element) element l p) as [[i1 l1] p1] eqn:E1.
  destruct (sift_up_spec (S element) element (Some element) x l p i1 l1 p1 ltac:(lia) Hb Hm E1) as (Hb1 & Ha1 & _ & Hm1 & Hp1).
  destruct (sift_down sh comp place (length l1) i1 l1 p1) as [[i2 l2] p2] eqn:E2.
  destruct (sift_down_spec (length l1) i1 (Some element) x l1 p1 i2 l2 p2 ltac:(lia) Hb1 Ha1 Hm1 E2) as (Hh & Hm2 & Hp2).
  eexists _, _, _. split; [done|]. split_and!; [done| |by rewrite Hp2|exact (moving_at _ _ _ _ _ Hm2)].
  destruct (Nat.eqb_spec i2 element) as [->|Hne]; [|by apply (moving_placed i2 (Some element) x)].
  destruct Hm2 as [M1 M2 M3 M4]. intros j y Hj.
  destruct (decide (j = element)) as [->|Hn]; [simplify_eq; by apply M3|by apply M2].
Qed.

Theorem push_heap_spec x l p :
  heap l -> placed l p -> NoDup (map name (l ++ [x])) ->
  exists l' p', push_heap sh comp place (l ++ [x]) p = Ok (l', p') /\ heap l' /\ placed l' p' /\ l' ≡ₚ l ++ [x].
Proof.
  intros Hh Hp Hd. unfold push_heap. rewrite length_app. cbn [length].
  rewrite (proj2 (Nat.ltb_lt _ _)) by lia. replace (length l + 1 - 1)%nat with (length l) by lia.
  assert (moving (length l) None x (l ++ [x]) p) as Hm.
  { split; [by rewrite lookup_app_r, Nat.sub_diag by lia| |done|done]. intros j y Hj Ey. apply Hp.
    pose proof (lookup_lt_Some _ _ _ Ey) as Hl. rewrite length_app in Hl. cbn in Hl. by rewrite lookup_app_l in Ey by lia. }
  destruct (sift_up sh comp place (length l + 1) (length l) (l ++ [x]) p) as [[i1 l1] p1] eqn:E1.
  destruct (sift_up_spec (length l + 1) (length l) None x (l ++ [x]) p i1 l1 p1 ltac:(lia) (heap_app x l Hh) Hm E1)
    as (Hb1 & Ha1 & Hc1 & Hm1 & Hp1).
  eexists _, _. split; [done|]. split_and!; [|by eapply moving_placed|done].
  apply (heap_whole i1); [done|done|]. apply Hc1. intros j a b Hj Hpj Ea. pose proof (parent_lt j Hj).
  pose proof (lookup_lt_Some _ _ _ Ea) as Hl. rewrite length_app in Hl. cbn in Hl. lia.
Qed.

Lemma swap_last (l : list A) i x y : l !! i = Some x -> <[i := y]> l ++ [x] ≡ₚ l ++ [y].
Proof.
  intros Hi. pose proof (lookup_lt_Some _ _ _ Hi) as Hlt.
  rewrite <- (Permutation_insert_swap (l ++ [y]) (length l) i y x).
  - rewrite insert_app_r_alt, Nat.sub_diag by lia. cbn. by rewrite insert_app_l by done.
  - by rewrite lookup_app_r, Nat.sub_diag by lia.
  - by rewrite lookup_app_l by done.
Qed.

(** The heap without its element, and the element behind it. *)
Theorem remove_heap_spec element x l p :
  heap l -> l !! element = Some x -> placed l p -> NoDup (map name l) ->
  exists l' p', remove_heap sh comp place element l p = Ok (l' ++ [x], p') /\
    heap l' /\ placed l' p' /\ l' ++ [x] ≡ₚ l.
Proof.
  intros Hh Hx Hp Hd. unfold remove_heap. pose proof (lookup_lt_Some _ _ _ Hx) as Hlt.
  rewrite (proj2 (Nat.ltb_lt _ _) Hlt).
  destruct (exists_last (l := l)) as (l0 & y & ->); [by intros ->|].
  rewrite length_app in *. cbn [length] in *. replace (length l0 + 1 - 1)%nat with (length l0) by lia.
  assert (placed l0 p) as Hp0 by (intros j z Ez; apply Hp; by rewrite lookup_app_l by (by eapply lookup_lt_Some)).
  pose proof (heap_take (length l0) _ Hh) as Hh0. rewrite take_app_length in Hh0.
  destruct (Nat.eqb_spec element (length l0)) as [->|Hne].
  { rewrite lookup_app_r, Nat.sub_diag in Hx by lia. injection Hx as ->. exists l0, p. by split_and!. }
  rewrite lookup_app_l in Hx by lia. rewrite lookup_app_l, Hx by lia.
  rewrite lookup_app_r, Nat.sub_diag by lia. cbn [lookup list_lookup]. rewrite take_app_length.
  assert (NoDup (map name (<[element := y]> l0 ++ [x]))) as Hd'.
  { assert (<[element := y]> l0 ++ [x] ≡ₚ l0 ++ [y]) as ->; [|done]. by apply swap_last. }
  rewrite map_app in Hd'. apply NoDup_app in Hd' as (Hd1 & Hd2 & _).
  assert (<[element := y]> l0 !! element = Some y) as Hy by (apply list_lookup_insert_eq; lia).
  destruct (change_heap_spec element y (<[element := y]> l0) (place_at place element (<[element := y]> l0) p))
    as (i & l' & p' & Ec & R1 & R2 & R3 & R4); [by apply heap_insert|done| |done|].
  { apply (moving_placed element None y). split; [done| |done|done]. intros j z Hj Ez.
    apply Hp0. by rewrite list_lookup_insert_ne in Ez by done. }
  rewrite Ec. cbn. exists l', p'. split_and!; [done..|]. rewrite R3. by apply swap_last.
Qed.

(** Nothing is smaller than the root. *)
Lemma heap_root x l : heap l -> l !! 0%nat = Some x -> forall j y, l !! j = Some y -> le x y.
Proof.
  intros Hh H0 j. induction j as [j IH] using lt_wf_ind. intros y Hy.
  destruct (decide (j = 0)%nat) as [->|Hj]; [simplify_eq; apply le_refl|].
  pose proof (parent_lt j ltac:(lia)) as Hp. destruct (lookup_lt_is_Some_2 l (parent sh j)) as [z Hz].
  { pose proof (lookup_lt_Some _ _ _ Hy). lia. }
  apply (le_trans x z y); [by apply (IH (parent sh j))|]. by apply (Hh j y z); [lia|..].
Qed.
End correct.

(** ** What is not touched *)

Section frame.
Context {A P : Type} (sh : Shape) (comp : A -> A -> bool) (place : nat -> A -> P -> P) (Q : A -> Prop) (K : P -> Prop).
Context (HK : forall i a p, Q a -> K p -> K (place i a p)).

Lemma sift_up_frame fuel i l p i' l' p' :
  Forall Q l -> K p -> sift_up sh comp place fuel i l p = (i', l', p') -> Forall Q l' /\ K p'.
Proof.
  revert i l p. induction fuel as [|fuel IH]; intros i l p Hl Hp E; cbn in E; [by simplify_eq|].
  destruct (i =? 0)%nat; [by simplify_eq|].
  destruct (l !! i) as [x|] eqn:Hx; [|by simplify_eq]. destruct (l !! parent sh i) as [y|] eqn:Hy; [|by simplify_eq].
  destruct (comp x y); [|by simplify_eq].
  pose proof (Forall_lookup_1 _ _ _ _ Hl Hx). pose proof (Forall_lookup_1 _ _ _ _ Hl Hy).
  apply IH in E; [done| |by apply HK]. by apply Forall_insert; [apply Forall_insert|].
Qed.

Lemma sift_down_frame fuel i l p i' l' p' :
  Forall Q l -> K p -> sift_down sh comp place fuel i l p = (i', l', p') -> Forall Q l' /\ K p'.
Proof.
  revert i l p. induction fuel as [|fuel IH]; intros i l p Hl Hp E; cbn [sift_down] in E; [by simplify_eq|].
  set (s := smallest_child _ _ _ _ _) in *. destruct (s =? i)%nat; [by simplify_eq|].
  destruct (l !! i) as [x|] eqn:Hx; [|by simplify_eq]. destruct (l !! s) as [y|] eqn:Hy; [|by simplify_eq].
  pose proof (Forall_lookup_1 _ _ _ _ Hl Hx). pose proof (Forall_lookup_1 _ _ _ _ Hl Hy).
  apply IH in E; [done| |by apply HK]. by apply Forall_insert; [apply Forall_insert|].
Qed.

Lemma place_at_frame i l p : Forall Q l -> K p -> K (place_at place i l p).
Proof.
  intros Hl Hp. unfold place_at. destruct (l !! i) as [x|] eqn:Hx; [|done]. apply HK; [by apply (Forall_lookup_1 _ _ _ _ Hl Hx)|done].
Qed.

Lemma change_heap_frame element l p i' l' p' :
  Forall Q l -> K p -> change_heap sh comp place element l p = Ok (i', l', p') -> K p'.
Proof.
  intros Hl Hp. unfold change_heap. destruct (element <? length l)%nat; [|done].
  destruct (sift_up sh comp place (S element) element l p) as [[i1 l1] p1] eqn:E1.
  destruct (sift_up_frame _ _ _ _ _ _ _ Hl Hp E1) as [Hl1 Hp1].
  destruct (sift_down sh comp place (length l1) i1 l1 p1) as [[i2 l2] p2] eqn:E2.
  destruct (sift_down_frame _ _ _ _ _ _ _ Hl1 Hp1 E2) as [Hl2 Hp2].
  intros [= <- <- <-]. destruct (i2 =? element)%nat; [done|by apply place_at_frame].
Qed.

Lemma remove_heap_frame element l p l' p' :
  Forall Q l -> K p -> remove_heap sh comp place element l p = Ok (l', p') -> K p'.
Proof.
  intros Hl Hp. unfold remove_heap. destruct (element <? length l)%nat; [|done].
  destruct (element =? length l - 1)%nat; [by intros [= <- <-]|].
  destruct (l !! element) as [x|] eqn:Hx; [|done]. destruct (l !! (length l - 1)%nat) as [y|] eqn:Hy; [|done].
  assert (Forall Q (<[element := y]> (take (length l - 1) l))) as Hl'.
  { apply Forall_insert; [by apply Forall_take|by apply (Forall_lookup_1 _ _ _ _ Hl Hy)]. }
  destruct (change_heap _ _ _ _ _ _) as [[[i l2] p2]|f] eqn:E; [|done]. cbn. intros [= <- <-].
  eapply change_heap_frame; [exact Hl'| |exact E]. by apply place_at_frame.
Qed.
End frame.
