(* ===== verification/Timers.v ===== *)
(** * Timers: lib/timer.cc and lib/timerset.cc

    A thread's timers.  The scheduled ones are in a 4-ary heap ordered by expiry, and
    each timer records where it is: [_schedpos1] is its position in the heap plus
    one, 0 when it is not scheduled, or minus its position in the [_timer_runchunk]
    minus one.  Times are numbers of [subsec_per_sec]ths of a second on the steady
    clock, and 0 is no time.

    What a timer's callback does is a parameter: it may schedule and unschedule any
    timers, and stop the thread. *)

From stdpp Require Import gmap.
From S2P Require Import Prelude Heap.

Definition subsec_per_sec : Z := 1000000000.
Definition sec (t : Z) : Z := t / subsec_per_sec.
Definition behind_sec : Z := 1.
(** [Timer::adjustment]: 500 microseconds *)
Definition adjustment : Z := 500000.

(** [_owner]: the router of the element, or none before initialisation. *)
Record Timer := mkTimer { _expiry_s : Z; _schedpos1 : Z; _owner : option nat }.
Definition Timer_new : Timer := mkTimer 0 0 None.

(** [heap_element]: expiry and timer *)
Abbreviation heap_element := (Z * nat)%type (only parsing).

(** A thread: its [TimerSet], its timers, and whether it is to stop. *)
Record TimerSet := mkTimerSet {
  _timer_expiry : Z;
  _max_timer_stride : Z;
  _timer_stride : Z;
  _timer_count : Z;
  _timer_heap : list heap_element;
  _timer_runchunk : list (option nat);
  _timer_check : Z;
  timers : gmap nat Timer;
  stop_flag : bool
}.
Definition TimerSet_new (now : Z) (ts : gmap nat Timer) : TimerSet := mkTimerSet 0 32 32 0 [] [] now ts false.

Definition timer (s : TimerSet) (t : nat) : Timer := default Timer_new (timers s !! t).

Definition set_heap (h : list heap_element) (ts : gmap nat Timer) (s : TimerSet) : TimerSet :=
  mkTimerSet (_timer_expiry s) (_max_timer_stride s) (_timer_stride s) (_timer_count s) h (_timer_runchunk s) (_timer_check s) ts (stop_flag s).
Definition set_chunk (c : list (option nat)) (s : TimerSet) : TimerSet :=
  mkTimerSet (_timer_expiry s) (_max_timer_stride s) (_timer_stride s) (_timer_count s) (_timer_heap s) c (_timer_check s) (timers s) (stop_flag s).
Definition set_timers (ts : gmap nat Timer) (s : TimerSet) : TimerSet := set_heap (_timer_heap s) ts s.
Definition set_stride (stride count : Z) (s : TimerSet) : TimerSet :=
  mkTimerSet (_timer_expiry s) (_max_timer_stride s) stride count (_timer_heap s) (_timer_runchunk s) (_timer_check s) (timers s) (stop_flag s).
Definition set_check (now : Z) (s : TimerSet) : TimerSet :=
  mkTimerSet (_timer_expiry s) (_max_timer_stride s) (_timer_stride s) (_timer_count s) (_timer_heap s) (_timer_runchunk s) now (timers s) (stop_flag s).
Definition set_stop (s : TimerSet) : TimerSet :=
  mkTimerSet (_timer_expiry s) (_max_timer_stride s) (_timer_stride s) (_timer_count s) (_timer_heap s) (_timer_runchunk s) (_timer_check s) (timers s) true.

Definition set_timer_expiry (s : TimerSet) : TimerSet :=
  mkTimerSet (match _timer_heap s with [] => 0 | e :: _ => e.1 end) (_max_timer_stride s) (_timer_stride s) (_timer_count s)
    (_timer_heap s) (_timer_runchunk s) (_timer_check s) (timers s) (stop_flag s).

Definition with_schedpos1 (pos : Z) (tm : Timer) : Timer := mkTimer (_expiry_s tm) pos (_owner tm).
Definition set_schedpos1 (t : nat) (pos : Z) (ts : gmap nat Timer) : gmap nat Timer :=
  <[t := with_schedpos1 pos (default Timer_new (ts !! t))]> ts.

Definition heap_less (a b : heap_element) : bool := a.1 <? b.1.
Definition heap_place (i : nat) (e : heap_element) (ts : gmap nat Timer) : gmap nat Timer :=
  set_schedpos1 e.2 (Z.of_nat i + 1) ts.

(** A timer is not scheduled for too far in the past. *)
Definition check_timer_expiry (check : Z) (expiry : Z) : Z :=
  if sec expiry + behind_sec <? sec check then check else expiry.

(** The expiry a timer gets: not zero, and not too far in the past. *)
Definition new_expiry (check : Z) (when_ : Z) : Z := check_timer_expiry check (if when_ =? 0 then 1 else when_).

Definition schedule_at_steady (t : nat) (when_ : Z) (s : TimerSet) : res TimerSet :=
  let tm := timer s t in
  assert* (bool_decide (is_Some (_owner tm)));
  let expiry := new_expiry (_timer_check s) when_ in
  let old_schedpos1 := _schedpos1 tm in
  let '(heap, chunk, pos) :=
    if old_schedpos1 <=? 0 then
      (_timer_heap s ++ [(expiry, t)],
       (if old_schedpos1 <? 0 then <[Z.to_nat (- old_schedpos1 - 1) := None]> (_timer_runchunk s) else _timer_runchunk s),
       Z.of_nat (length (_timer_heap s)) + 1)
    else (<[Z.to_nat (old_schedpos1 - 1) := (expiry, t)]> (_timer_heap s), _timer_runchunk s, old_schedpos1) in
  let ts := <[t := mkTimer expiry pos (_owner tm)]> (timers s) in
  let* r := change_heap (dary 4) heap_less heap_place (Z.to_nat (pos - 1)) heap ts in
  let s := set_chunk chunk (set_heap r.1.2 r.2 s) in
  Ok (if (old_schedpos1 =? 1) || (_schedpos1 (timer s t) =? 1) then set_timer_expiry s else s).

(** [remove_heap] and [pop_back] *)
Definition remove_at (pos : nat) (s : TimerSet) : res TimerSet :=
  let* r := remove_heap (dary 4) heap_less heap_place pos (_timer_heap s) (timers s) in
  Ok (set_heap (removelast r.1) r.2 s).

Definition unschedule (t : nat) (s : TimerSet) : res TimerSet :=
  let pos := _schedpos1 (timer s t) in
  if pos =? 0 then Ok s
  else if 0 <? pos then
    let* s := remove_at (Z.to_nat (pos - 1)) s in
    let s := if pos =? 1 then set_timer_expiry s else s in
    Ok (set_timers (set_schedpos1 t 0 (timers s)) s)
  else
    let s := set_chunk (<[Z.to_nat (- pos - 1) := None]> (_timer_runchunk s)) s in
    Ok (set_timers (set_schedpos1 t 0 (timers s)) s).

(** The loop of [kill_router] down from position [n]. *)
Fixpoint kill_loop (router : nat) (n : nat) (s : TimerSet) : res TimerSet :=
  match n with
  | O => Ok s
  | S n =>
      match _timer_heap s !! n with
      | None => Fault NullDeref
      | Some e =>
          if bool_decide (_owner (timer s e.2) = Some router) then
            let* s := remove_at n s in
            kill_loop router n (set_timers (<[e.2 := mkTimer (_expiry_s (timer s e.2)) 0 None]> (timers s)) s)
          else kill_loop router n s
      end
  end.

Definition kill_router (router : nat) (s : TimerSet) : res TimerSet :=
  assert* (length (_timer_runchunk s) =? 0)%nat;
  let* s := kill_loop router (length (_timer_heap s)) s in
  Ok (set_timer_expiry s).

Definition set_max_timer_stride (stride : Z) (s : TimerSet) : TimerSet :=
  mkTimerSet (_timer_expiry s) stride (if stride <? _timer_stride s then stride else _timer_stride s) (_timer_count s)
    (_timer_heap s) (_timer_runchunk s) (_timer_check s) (timers s) (stop_flag s).

(** ** Running timers *)

(** What happens while timers run: a callback is called, or it does something. *)
Inductive Event :=
| ERun (t : nat) (expiry : Z)
| ESchedule (t : nat) (when_ : Z)
| EUnschedule (t : nat)
| EStop.

Section run.
(** What a callback does, in order: no [ERun]. *)
Context (callback : nat -> TimerSet -> list Event).

Definition perform (e : Event) (s : TimerSet) : res TimerSet :=
  match e with
  | ERun _ _ => Fault AssertFailed
  | ESchedule t w => schedule_at_steady t w s
  | EUnschedule t => unschedule t s
  | EStop => Ok (set_stop s)
  end.

Fixpoint perform_all (es : list Event) (s : TimerSet) : res TimerSet :=
  match es with
  | [] => Ok s
  | e :: es => let* s := perform e s in perform_all es s
  end.

Definition run_one_timer (t : nat) (s : TimerSet) : res (TimerSet * list Event) :=
  let es := callback t s in
  let* s' := perform_all es s in
  Ok (s', ERun t (_expiry_s (timer s t)) :: es).

(** The adjustment of the stride when the first timer is late or in time. *)
Definition adjust_stride (first : Z) (s : TimerSet) : TimerSet :=
  if first + adjustment <=? _timer_check s then
    set_stride (if 1 <? _timer_stride s then u32 (_timer_stride s * 4) / 5 else _timer_stride s) 0 s
  else if 12 <=? u32 (_timer_count s + 1) then
    let stride := u32 (_timer_stride s + 1) in
    set_stride (if _max_timer_stride s <=? stride then _max_timer_stride s else stride) 0 s
  else set_stride (_timer_stride s) (u32 (_timer_count s + 1)) s.

(** Whether there is a timer to run. *)
Definition expired (s : TimerSet) : bool :=
  match _timer_heap s with
  | [] => false
  | e :: _ => e.1 <=? _timer_check s
  end.

(** The first loop, with [n] rounds to go; it says whether it ran out of them. *)
Fixpoint run_some (n : nat) (s : TimerSet) : res (TimerSet * list Event * bool) :=
  match _timer_heap s with
  | [] => Fault NullDeref
  | e :: _ =>
      assert* (_expiry_s (timer s e.2) =? e.1);
      let* s := remove_at 0 s in
      let s := set_timer_expiry s in
      let s := set_timers (set_schedpos1 e.2 0 (timers s)) s in
      let* r := run_one_timer e.2 s in
      let '(s, es) := r in
      if negb (stop_flag s) && expired s then
        match n with
        | O => Ok (s, es, true)
        | S n => let* r := run_some n s in let '(s, es', b) := r in Ok (s, es ++ es', b)
        end
      else Ok (s, es, false)
  end.

(** The second loop takes all expired timers. *)
Fixpoint collect (n : nat) (s : TimerSet) : res TimerSet :=
  match n with
  | O => Ok s
  | S n =>
      match _timer_heap s with
      | [] => Fault NullDeref
      | e :: _ =>
          let* s := remove_at 0 s in
          let s := set_timers (set_schedpos1 e.2 (- Z.of_nat (length (_timer_runchunk s)) - 1) (timers s)) s in
          let s := set_chunk (_timer_runchunk s ++ [Some e.2]) s in
          if expired s then collect n s else Ok s
      end
  end.

(** The third runs those that are still in the chunk, from position [i] on; when the
    thread is to stop, the rest is scheduled again. *)
Fixpoint run_chunk (n i : nat) (s : TimerSet) : res (TimerSet * list Event) :=
  match n with
  | O => Ok (s, [])
  | S n =>
      match mjoin (_timer_runchunk s !! i) with
      | None => run_chunk n (S i) s
      | Some t =>
          let s := set_timers (set_schedpos1 t 0 (timers s)) s in
          let* r :=
            (if stop_flag s then
               let e := _expiry_s (timer s t) in
               let* s := schedule_at_steady t e s in Ok (s, [ESchedule t e])
             else run_one_timer t s) in
          let '(s, es) := r in
          let* r := run_chunk n (S i) s in
          let '(s, es') := r in Ok (s, es ++ es')
      end
  end.

Definition run_timers (paused : bool) (now : Z) (s : TimerSet) : res (TimerSet * list Event) :=
  if paused || stop_flag s then Ok (s, [])
  else
    match _timer_heap s with
    | [] => Ok (s, [])
    | e :: _ =>
        let s := set_check now s in
        if now <? e.1 then Ok (s, [])
        else
          let* r := run_some 64 (adjust_stride e.1 s) in
          let '(s, es, again) := r in
          if again && negb (stop_flag s) then
            let* s := collect (length (_timer_heap s)) s in
            let s := set_timer_expiry s in
            let* r := run_chunk (length (_timer_runchunk s)) 0 s in
            let '(s, es') := r in
            Ok (set_chunk [] s, es ++ es')
          else Ok (s, es)
    end.
End run.
