(* ===== verification/TimersProps.v ===== *)
(** * TimersProps: scheduling refines a map from timers to expiry times

    The scheduled timers, as a map ([schedule_of]).  The heap, the positions that the
    timers record and the chunk that is being run are consistent with it
    ([timer_inv]), scheduling and unscheduling change it at the one timer, and what
    [run_timers] does is a sequence of events that the map allows: timers run when
    they have expired, none is lost, and none runs without being scheduled.  Killing a
    router unschedules timers of that router only, but not always all of them. *)

From stdpp Require Import gmap.
From S2P Require Import Prelude Heap Timers.

(** ** The heap of timers *)

Definition timer_in (ts : gmap nat Timer) (t : nat) : Timer := default Timer_new (ts !! t).
Definition pos_of (ts : gmap nat Timer) (t : nat) : Z := _schedpos1 (timer_in ts t).

(** The scheduled timers with their expiry times. *)
Definition schedule_of (ts : gmap nat Timer) : gmap nat Z :=
  omap (fun tm => if _schedpos1 tm =? 0 then None else Some (_expiry_s tm)) ts.

Lemma schedule_of_lookup ts t :
  schedule_of ts !! t = if pos_of ts t =? 0 then None else Some (_expiry_s (timer_in ts t)).
Proof. unfold schedule_of, pos_of, timer_in. rewrite lookup_omap. by destruct (ts !! t). Qed.

Definition pos_recorded (i : nat) (e : heap_element) (ts : gmap nat Timer) : Prop := pos_of ts e.2 = Z.of_nat i + 1.

Lemma timer_in_set_schedpos1 t pos ts t' :
  timer_in (set_schedpos1 t pos ts) t' = if decide (t' = t) then with_schedpos1 pos (timer_in ts t) else timer_in ts t'.
Proof.
  unfold timer_in, set_schedpos1. destruct (decide (t' = t)) as [->|Hn].
  - by rewrite lookup_insert_eq.
  - by rewrite lookup_insert_ne.
Qed.

Lemma heap_place_here i a ts : pos_recorded i a (heap_place i a ts).
Proof. unfold pos_recorded, pos_of, heap_place. rewrite timer_in_set_schedpos1. by rewrite decide_True. Qed.

Lemma heap_place_other i a j b ts : b.2 <> a.2 -> pos_recorded j b ts -> pos_recorded j b (heap_place i a ts).
Proof. unfold pos_recorded, pos_of, heap_place. intros Hn. rewrite timer_in_set_schedpos1. by rewrite decide_False. Qed.

Lemma heap_less_trans a b c : le heap_less a b -> le heap_less b c -> le heap_less a c.
Proof. unfold le, heap_less. rewrite !Z.ltb_ge. lia. Qed.
Lemma heap_less_asym a b : heap_less a b = true -> le heap_less a b.
Proof. unfold le, heap_less. rewrite Z.ltb_ge, Z.ltb_lt. lia. Qed.

Abbreviation timer_heap := (heap (dary 4) heap_less).
Abbreviation recorded := (placed pos_recorded).

(** What moving the timers of a heap leaves alone. *)
Record frame (h : list heap_element) (ts ts' : gmap nat Timer) : Prop := mkFrame {
  frame_expiry : forall t, _expiry_s (timer_in ts' t) = _expiry_s (timer_in ts t);
  frame_owner : forall t, _owner (timer_in ts' t) = _owner (timer_in ts t);
  frame_pos : forall t, t ∉ map snd h -> pos_of ts' t = pos_of ts t
}.

Lemma frame_place h ts i a ts' : a ∈ h -> frame h ts ts' -> frame h ts (heap_place i a ts').
Proof.
  intros Ha [H1 H2 H3]. unfold heap_place. split; intros t; unfold pos_of; rewrite timer_in_set_schedpos1.
  - destruct (decide (t = a.2)) as [->|Hn]; [|done]. by rewrite <- H1.
  - destruct (decide (t = a.2)) as [->|Hn]; [|done]. by rewrite <- H2.
  - intros Ht. rewrite decide_False; [by apply H3|]. intros ->. apply Ht. by apply (list_elem_of_fmap_2 snd).
Qed.

Lemma frame_refl h ts : frame h ts ts.
Proof. done. Qed.

(** The state of a heap, a chunk and the timers.  The chunk is run from position [i]
    on; before it, it is history. *)
Record coherent (i : nat) (h : list heap_element) (c : list (option nat)) (ts : gmap nat Timer) : Prop := mkCoherent {
  co_placed : recorded h ts;
  co_nodup : NoDup (map snd h);
  co_expiry : forall e t, (e, t) ∈ h -> _expiry_s (timer_in ts t) = e;
  co_only : forall t, 0 < pos_of ts t -> t ∈ map snd h;
  co_chunk : forall j t, (i <= j)%nat -> c !! j = Some (Some t) -> pos_of ts t = - Z.of_nat j - 1;
  co_neg : forall t, pos_of ts t < 0 -> (i <= Z.to_nat (- pos_of ts t - 1))%nat /\ c !! Z.to_nat (- pos_of ts t - 1) = Some (Some t)
}.

Lemma recorded_positive h ts t : recorded h ts -> t ∈ map snd h -> 0 < pos_of ts t.
Proof.
  intros Hr Ht. apply list_elem_of_fmap in Ht as (e & -> & He). apply list_elem_of_lookup_1 in He as [k Hk].
  pose proof (Hr k e Hk) as Hp. unfold pos_recorded in Hp. lia.
Qed.

Lemma coherent_moved i h c ts h' ts' :
  coherent i h c ts -> h' ≡ₚ h -> recorded h' ts' -> frame h ts ts' -> coherent i h' c ts'.
Proof.
  intros [C1 C2 C3 C4 C5 C6] Hp Hr [F1 F2 F3].
  assert (forall t, pos_of ts t <= 0 -> t ∉ map snd h) as Hout.
  { intros t Ht Hin. pose proof (recorded_positive h ts t C1 Hin). lia. }
  assert (forall t, pos_of ts' t <= 0 -> t ∉ map snd h) as Hout'.
  { intros t Ht Hin. rewrite <- Hp in Hin. pose proof (recorded_positive h' ts' t Hr Hin). lia. }
  split; [done|by rewrite Hp| | | |].
  - intros e t Hin. rewrite F1. apply C3. by rewrite <- Hp.
  - intros t Ht. rewrite Hp. destruct (decide (t ∈ map snd h)) as [Hin|Hin]; [done|]. apply C4. by rewrite <- F3.
  - intros j t Hj Hc. pose proof (C5 j t Hj Hc) as Hn. rewrite F3; [done|]. apply Hout. lia.
  - intros t Ht. assert (t ∉ map snd h) as Hin by (apply Hout'; lia). rewrite (F3 t Hin) in *. by apply C6.
Qed.

Lemma frame_schedule h ts ts' h' :
  frame h ts ts' -> recorded h ts -> recorded h' ts' -> h' ≡ₚ h -> schedule_of ts' = schedule_of ts.
Proof.
  intros [F1 F2 F3] Hr Hr' Hp. apply map_eq. intros t. rewrite !schedule_of_lookup, F1.
  destruct (decide (t ∈ map snd h)) as [Hin|Hin]; [|by rewrite F3].
  pose proof (recorded_positive h ts t Hr Hin). rewrite <- Hp in Hin. pose proof (recorded_positive h' ts' t Hr' Hin).
  rewrite !(proj2 (Z.eqb_neq _ _)) by lia. done.
Qed.

Lemma coherent_change i h c ts element x :
  coherent i h c ts -> heap_but (dary 4) heap_less element h -> h !! element = Some x ->
  exists k h' ts', change_heap (dary 4) heap_less heap_place element h ts = Ok (k, h', ts') /\
    timer_heap h' /\ coherent i h' c ts' /\ h' ≡ₚ h /\ frame h ts ts' /\ schedule_of ts' = schedule_of ts.
Proof.
  intros Hc Hb Hx.
  destruct (change_heap_spec (dary 4) heap_less heap_place heap_less_trans heap_less_asym snd pos_recorded
    heap_place_here heap_place_other element x h ts Hb Hx (co_placed _ _ _ _ Hc) (co_nodup _ _ _ _ Hc))
    as (k & h' & ts' & E & R1 & R2 & R3 & _).
  assert (frame h ts ts') as Hf.
  { eapply (change_heap_frame _ _ _ (fun a => a ∈ h) (frame h ts)); [| |apply frame_refl|exact E].
    - intros j a p Ha. by apply frame_place.
    - by apply Forall_forall. }
  exists k, h', ts'. split_and!; [done|done|by eapply coherent_moved|done|done|].
  by eapply frame_schedule; [|exact (co_placed _ _ _ _ Hc)|..].
Qed.

Lemma heap_remove i h c ts pos x :
  coherent i h c ts -> timer_heap h -> h !! pos = Some x ->
  exists h' ts', remove_heap (dary 4) heap_less heap_place pos h ts = Ok (h' ++ [x], ts') /\
    timer_heap h' /\ recorded h' ts' /\ h' ++ [x] ≡ₚ h /\ frame h ts ts'.
Proof.
  intros Hc Hh Hx.
  destruct (remove_heap_spec (dary 4) heap_less heap_place heap_less_trans heap_less_asym snd pos_recorded
    heap_place_here heap_place_other pos x h ts Hh Hx (co_placed _ _ _ _ Hc) (co_nodup _ _ _ _ Hc))
    as (h' & ts' & E & R1 & R2 & R3).
  exists h', ts'. split_and!; [done..|].
  eapply (remove_heap_frame _ _ _ (fun a => a ∈ h) (frame h ts)); [| |apply frame_refl|exact E].
  - intros j a p Ha. by apply frame_place.
  - by apply Forall_forall.
Qed.

Lemma pos_of_set t v ts t' : pos_of (set_schedpos1 t v ts) t' = if decide (t' = t) then v else pos_of ts t'.
Proof. unfold pos_of. rewrite timer_in_set_schedpos1. by destruct (decide (t' = t)). Qed.

Lemma expiry_set t v ts t' : _expiry_s (timer_in (set_schedpos1 t v ts) t') = _expiry_s (timer_in ts t').
Proof. rewrite timer_in_set_schedpos1. by destruct (decide (t' = t)) as [->|]. Qed.

Lemma owner_set t v ts t' : _owner (timer_in (set_schedpos1 t v ts) t') = _owner (timer_in ts t').
Proof. rewrite timer_in_set_schedpos1. by destruct (decide (t' = t)) as [->|]. Qed.

(** An element that has left the heap goes nowhere, or to the end of the chunk. *)
Lemma coherent_removed i h h' c c' ts ts' x v :
  coherent i h c ts -> h' ++ [x] ≡ₚ h -> recorded h' ts' -> frame h ts ts' ->
  (v = 0 /\ c' = c \/ v = - Z.of_nat (length c) - 1 /\ c' = c ++ [Some x.2] /\ (i <= length c)%nat) ->
  coherent i h' c' (set_schedpos1 x.2 v ts').
Proof.
  intros [C1 C2 C3 C4 C5 C6] Hp Hr [F1 F2 F3] Hv.
  assert (map snd h ≡ₚ map snd h' ++ [x.2]) as Hpn by (by rewrite <- Hp, map_app).
  rewrite Hpn in C2. apply NoDup_app in C2 as (D1 & D2 & _).
  assert (x.2 ∉ map snd h') as Hx by (intros Hin; apply (D2 x.2 Hin); by left).
  assert (forall t, t ∉ map snd h' -> t <> x.2 -> t ∉ map snd h) as Hnot.
  { intros t H1 H2 Hin. rewrite Hpn, elem_of_app, list_elem_of_singleton in Hin. by destruct Hin. }
  assert (0 < pos_of ts x.2) as Hpx.
  { apply (recorded_positive h ts x.2 C1). rewrite Hpn, elem_of_app. right. by left. }
  split.
  - intros k e Hk. unfold pos_recorded. rewrite pos_of_set, decide_False; [by apply Hr|].
    intros E. apply Hx. rewrite <- E. apply (list_elem_of_fmap_2 snd). by eapply list_elem_of_lookup_2.
  - done.
  - intros e t Hin. rewrite expiry_set, F1. apply C3. rewrite <- Hp, elem_of_app. by left.
  - intros t. rewrite pos_of_set. destruct (decide (t = x.2)) as [->|Hn]; [intros; lia|]. intros Ht.
    destruct (decide (t ∈ map snd h')) as [Hin|Hin]; [done|]. exfalso. apply (Hnot t Hin Hn). apply C4.
    by rewrite <- (F3 t (Hnot t Hin Hn)).
  - intros j t Hj Hc. rewrite pos_of_set. destruct Hv as [[-> ->]|(-> & -> & Hi)].
    + pose proof (C5 j t Hj Hc) as Hn. destruct (decide (t = x.2)) as [->|Htx]; [lia|].
      rewrite F3; [done|]. intros Hin. pose proof (recorded_positive h ts t C1 Hin). lia.
    + apply lookup_app_Some in Hc as [Hc|[Hl Hc]].
      * pose proof (C5 j t Hj Hc) as Hn. destruct (decide (t = x.2)) as [->|Htx]; [lia|].
        rewrite F3; [done|]. intros Hin. pose proof (recorded_positive h ts t C1 Hin). lia.
      * apply list_lookup_singleton_Some in Hc as [Hj0 [= <-]]. rewrite decide_True by done. lia.
  - intros t. rewrite pos_of_set. destruct (decide (t = x.2)) as [->|Htx].
    + intros Hv0. destruct Hv as [[-> _]|(-> & -> & Hi)]; [lia|].
      replace (Z.to_nat (- (- Z.of_nat (length c) - 1) - 1)) with (length c) by lia.
      split; [done|]. by rewrite lookup_app_r, Nat.sub_diag by lia.
    + intros Ht. assert (t ∉ map snd h') as Hin by (intros Hin; pose proof (recorded_positive h' ts' t Hr Hin); lia).
      rewrite (F3 t (Hnot t Hin Htx)) in *. destruct (C6 t Ht) as [G1 G2]. split; [done|].
      destruct Hv as [[_ ->]|(_ & -> & _)]; [done|]. by apply lookup_app_l_Some.
Qed.

Lemma schedule_removed h h' ts ts' x :
  frame h ts ts' -> recorded h ts -> recorded h' ts' -> h' ++ [x] ≡ₚ h ->
  schedule_of (set_schedpos1 x.2 0 ts') = delete x.2 (schedule_of ts) /\
  forall v, v < 0 -> schedule_of (set_schedpos1 x.2 v ts') = schedule_of ts.
Proof.
  intros [F1 F2 F3] Hr Hr' Hp.
  assert (forall v t, t <> x.2 -> schedule_of (set_schedpos1 x.2 v ts') !! t = schedule_of ts !! t) as Hne.
  { intros v t Hn. rewrite !schedule_of_lookup, pos_of_set, expiry_set, F1, decide_False by done.
    destruct (decide (t ∈ map snd h)) as [Hin|Hin]; [|by rewrite F3].
    pose proof (recorded_positive h ts t Hr Hin). rewrite <- Hp, map_app in Hin. cbn [map] in Hin.
    rewrite elem_of_app, list_elem_of_singleton in Hin. destruct Hin as [Hin|Hin]; [|done]. pose proof (recorded_positive h' ts' t Hr' Hin).
    by rewrite !(proj2 (Z.eqb_neq _ _)) by lia. }
  assert (0 < pos_of ts x.2) as Hpx.
  { apply (recorded_positive h ts x.2 Hr). rewrite <- Hp, map_app, elem_of_app. right. by left. }
  split.
  - apply map_eq. intros t. destruct (decide (t = x.2)) as [->|Hn].
    + by rewrite lookup_delete_eq, schedule_of_lookup, pos_of_set, decide_True.
    + rewrite lookup_delete_ne by done. by apply Hne.
  - intros v Hv. apply map_eq. intros t. destruct (decide (t = x.2)) as [->|Hn]; [|by apply Hne].
    rewrite !schedule_of_lookup, pos_of_set, expiry_set, F1, decide_True by done.
    by rewrite !(proj2 (Z.eqb_neq _ _)) by lia.
Qed.

(** ** Operations *)

Record timer_inv (i : nat) (s : TimerSet) : Prop := mkTimerInv {
  ti_heap : timer_heap (_timer_heap s);
  ti_coherent : coherent i (_timer_heap s) (_timer_runchunk s) (timers s)
}.

Definition heap_expiry (h : list heap_element) : Z := match h with [] => 0 | e :: _ => e.1 end.
Definition expiry_ok (s : TimerSet) : Prop := _timer_expiry s = heap_expiry (_timer_heap s).

(** What scheduling leaves alone. *)
Record kept (s s' : TimerSet) : Prop := mkKept {
  kept_check : _timer_check s' = _timer_check s;
  kept_owner : forall t, _owner (timer s' t) = _owner (timer s t);
  kept_chunk : length (_timer_runchunk s') = length (_timer_runchunk s)
}.

Lemma kept_refl s : kept s s.
Proof. done. Qed.
Lemma kept_trans s1 s2 s3 : kept s1 s2 -> kept s2 s3 -> kept s1 s3.
Proof. intros [A1 A2 A3] [B1 B2 B3]. split; [congruence|intros t; congruence|congruence]. Qed.

(** The root is the earliest. *)
Lemma root_earliest h e t e' t' : timer_heap h -> h !! 0%nat = Some (e, t) -> (e', t') ∈ h -> e <= e'.
Proof.
  intros Hh H0 Hin. apply list_elem_of_lookup_1 in Hin as [j Hj].
  pose proof (heap_root (dary 4) heap_less heap_less_trans heap_less_asym _ _ Hh H0 j _ Hj) as Hle.
  unfold le, heap_less in Hle. cbn in Hle. apply Z.ltb_ge in Hle. done.
Qed.

(** Two heaps that differ in a timer that is the root of neither. *)
Lemma heap_expiry_same h h' t :
  timer_heap h -> timer_heap h' -> h <> [] -> h' <> [] ->
  (forall e, h !! 0%nat <> Some (e, t)) -> (forall e, h' !! 0%nat <> Some (e, t)) ->
  (forall e t', t' <> t -> (e, t') ∈ h <-> (e, t') ∈ h') -> heap_expiry h = heap_expiry h'.
Proof.
  intros Hh Hh' Hn Hn' Ht Ht' Hsame. destruct h as [|[e0 t0] h]; [done|]. destruct h' as [|[e1 t1] h']; [done|].
  assert (t0 <> t) as H0 by (intros ->; by apply (Ht e0)). assert (t1 <> t) as H1 by (intros ->; by apply (Ht' e1)).
  pose proof (root_earliest _ e0 t0 e1 t1 Hh eq_refl (proj2 (Hsame e1 t1 H1) ltac:(by left))).
  pose proof (root_earliest _ e1 t1 e0 t0 Hh' eq_refl (proj1 (Hsame e0 t0 H0) ltac:(by left))). cbn. lia.
Qed.

Lemma coherent_lookup i h c ts t :
  coherent i h c ts -> 0 < pos_of ts t ->
  h !! Z.to_nat (pos_of ts t - 1) = Some (_expiry_s (timer_in ts t), t).
Proof.
  intros [C1 C2 C3 C4 C5 C6] Ht. pose proof (C4 t Ht) as Hin. apply list_elem_of_fmap in Hin as ([e t'] & Et & Hin).
  cbn in Et. subst t'. rewrite (C3 e t Hin). apply list_elem_of_lookup_1 in Hin as [k Hk].
  pose proof (C1 k _ Hk) as Hp. unfold pos_recorded in Hp. cbn in Hp. rewrite Hp.
  by replace (Z.to_nat (Z.of_nat k + 1 - 1)) with k by lia.
Qed.

Lemma timer_in_insert t tm (ts : gmap nat Timer) t' : timer_in (<[t := tm]> ts) t' = if decide (t' = t) then tm else timer_in ts t'.
Proof.
  unfold timer_in. destruct (decide (t' = t)) as [->|Hn]; [by rewrite lookup_insert_eq|by rewrite lookup_insert_ne].
Qed.

(** The chunk without a timer that is not in the heap. *)
Definition cleared (pos : Z) (c : list (option nat)) : list (option nat) :=
  if pos <? 0 then <[Z.to_nat (- pos - 1) := None]> c else c.

Lemma length_cleared pos c : length (cleared pos c) = length c.
Proof. unfold cleared. destruct (pos <? 0); [apply length_insert|done]. Qed.

Lemma cleared_other i h c ts t j t' :
  coherent i h c ts -> (i <= j)%nat -> cleared (pos_of ts t) c !! j = Some (Some t') ->
  t' <> t /\ c !! j = Some (Some t').
Proof.
  intros [_ _ _ _ C5 C6] Hij Hj. unfold cleared in Hj. destruct (Z.ltb_spec (pos_of ts t) 0) as [Hneg|Hz].
  - destruct (C6 t Hneg) as [Hi Ht]. destruct (decide (j = Z.to_nat (- pos_of ts t - 1))) as [->|Hjn].
    + rewrite list_lookup_insert_eq in Hj; [done|]. by eapply lookup_lt_Some.
    + rewrite list_lookup_insert_ne in Hj by done. split; [|done]. intros ->. pose proof (C5 j t Hij Hj). lia.
  - split; [|done]. intros ->. pose proof (C5 j t Hij Hj). lia.
Qed.

Lemma cleared_kept i h c ts t t' :
  coherent i h c ts -> t' <> t -> pos_of ts t' < 0 ->
  cleared (pos_of ts t) c !! Z.to_nat (- pos_of ts t' - 1) = Some (Some t').
Proof.
  intros [_ _ _ _ _ C6] Hn Ht'. destruct (C6 t' Ht') as [_ G]. unfold cleared.
  destruct (Z.ltb_spec (pos_of ts t) 0) as [Hneg|Hz]; [|done].
  rewrite list_lookup_insert_ne; [done|]. intros E. destruct (C6 t Hneg) as [_ G3]. rewrite E in G3. congruence.
Qed.

Section entered.
Context (ts : gmap nat Timer) (t : nat) (expiry : Z) (owner : option nat).

Lemma pos_of_insert v t' : pos_of (<[t := mkTimer expiry v owner]> ts) t' = if decide (t' = t) then v else pos_of ts t'.
Proof. unfold pos_of. rewrite timer_in_insert. by destruct (decide (t' = t)). Qed.

(** A timer that is not in the heap is put at its end. *)
Lemma coherent_pushed i h c :
  coherent i h c ts -> pos_of ts t <= 0 ->
  coherent i (h ++ [(expiry, t)]) (cleared (pos_of ts t) c) (<[t := mkTimer expiry (Z.of_nat (length h) + 1) owner]> ts).
Proof.
  intros Hc Hp. pose proof Hc as [C1 C2 C3 C4 C5 C6].
  assert (t ∉ map snd h) as Hnin by (intros Hin; pose proof (recorded_positive h ts t C1 Hin); lia).
  split.
  - intros k e Hk. unfold pos_recorded. rewrite pos_of_insert. apply lookup_app_Some in Hk as [Hk|[Hl Hk]].
    + rewrite decide_False; [by apply C1|]. intros <-. apply Hnin. apply (list_elem_of_fmap_2 snd). by eapply list_elem_of_lookup_2.
    + apply list_lookup_singleton_Some in Hk as [Hk0 <-]. cbn. rewrite decide_True by done. lia.
  - rewrite map_app. apply NoDup_app. split_and!; [done| |apply NoDup_singleton]. by intros x Hx ->%list_elem_of_singleton.
  - intros e t' Hin. rewrite timer_in_insert. apply elem_of_app in Hin as [Hin|Hin].
    + rewrite decide_False; [by apply C3|]. intros ->. apply Hnin. by apply (list_elem_of_fmap_2 snd) in Hin.
    + apply list_elem_of_singleton in Hin. injection Hin as -> ->. by rewrite decide_True.
  - intros t'. rewrite pos_of_insert, map_app, elem_of_app. intros Ht'.
    destruct (decide (t' = t)) as [->|Hn]; [right; by left|left; by apply C4].
  - intros j t' Hj Hcj. destruct (cleared_other i h c ts t j t' Hc Hj Hcj) as [Hn Hcj'].
    rewrite pos_of_insert, decide_False by done. by apply C5.
  - intros t'. rewrite pos_of_insert. destruct (decide (t' = t)) as [->|Hn]; [lia|]. intros Ht'.
    split; [by apply C6|by apply (cleared_kept i h)].
Qed.

(** A timer that is in the heap gets its new expiry. *)
Lemma coherent_updated i h c :
  coherent i h c ts -> 0 < pos_of ts t ->
  coherent i (<[Z.to_nat (pos_of ts t - 1) := (expiry, t)]> h) c (<[t := mkTimer expiry (pos_of ts t) owner]> ts).
Proof.
  intros Hc Hp. pose proof Hc as [C1 C2 C3 C4 C5 C6]. pose proof (coherent_lookup i h c ts t Hc Hp) as Hl.
  set (k0 := Z.to_nat (pos_of ts t - 1)) in *.
  assert (map snd (<[k0 := (expiry, t)]> h) = map snd h) as Hnames.
  { change (map snd ?l) with (snd <$> l). rewrite list_fmap_insert. apply list_insert_id. rewrite list_lookup_fmap.
    exact (f_equal (fmap snd) Hl). }
  assert (forall t', pos_of (<[t := mkTimer expiry (pos_of ts t) owner]> ts) t' = pos_of ts t') as Hpos.
  { intros t'. rewrite pos_of_insert. by destruct (decide (t' = t)) as [->|]. }
  split.
  - intros k e Hk. unfold pos_recorded. rewrite Hpos. apply list_lookup_insert_Some in Hk as [(<- & <- & _)|[Hn Hk]]; [cbn; lia|by apply C1].
  - by rewrite Hnames.
  - intros e t' Hin. apply list_elem_of_lookup_1 in Hin as [k Hk]. rewrite timer_in_insert.
    apply list_lookup_insert_Some in Hk as [(<- & [= <- <-] & _)|[Hn Hk]]; [by rewrite decide_True|].
    rewrite decide_False; [apply C3; by eapply list_elem_of_lookup_2|]. intros ->.
    pose proof (C1 k _ Hk) as Hr. unfold pos_recorded in Hr. cbn in Hr. lia.
  - intros t'. rewrite Hpos, Hnames. apply C4.
  - intros j t'. rewrite Hpos. apply C5.
  - intros t'. rewrite !Hpos. apply C6.
Qed.
End entered.

Lemma entered_schedule ts t expiry pos owner :
  pos <> 0 -> schedule_of (<[t := mkTimer expiry pos owner]> ts) = <[t := expiry]> (schedule_of ts).
Proof. intros Hp. unfold schedule_of. rewrite omap_insert. cbn. by rewrite (proj2 (Z.eqb_neq _ _) Hp). Qed.

(** A heap whose order was restored, and the expiry that the thread waits for. *)
Lemma expiry_after h h' ts' i c t x :
  timer_heap h -> timer_heap h' -> coherent i h' c ts' ->
  (forall e t', t' <> t -> (e, t') ∈ h <-> (e, t') ∈ h') ->
  (h = [] -> h' !! 0%nat = Some (x, t)) -> (x, t) ∈ h' -> (forall e, h !! 0%nat <> Some (e, t)) -> pos_of ts' t <> 1 ->
  heap_expiry h = heap_expiry h'.
Proof.
  intros Hh Hh' Hc Hsame Hempty Hin Hnot Hpos.
  assert (forall e, h' !! 0%nat <> Some (e, t)) as Hnot'.
  { intros e E. apply Hpos. pose proof (co_placed _ _ _ _ Hc 0%nat _ E) as Hp. unfold pos_recorded in Hp. cbn in Hp. lia. }
  apply (heap_expiry_same h h' t Hh Hh'); [|intros ->; by apply elem_of_nil in Hin|done|done|done].
  intros ->. by apply (Hnot' x), Hempty.
Qed.

(** What is in the heap before its order is restored. *)
Lemma entered_spec i s t x :
  timer_inv i s ->
  let pos := pos_of (timers s) t in
  let '(h1, c1, pos1) :=
    if pos <=? 0 then (_timer_heap s ++ [(x, t)], cleared pos (_timer_runchunk s), Z.of_nat (length (_timer_heap s)) + 1)
    else (<[Z.to_nat (pos - 1) := (x, t)]> (_timer_heap s), _timer_runchunk s, pos) in
  coherent i h1 c1 (<[t := mkTimer x pos1 (_owner (timer s t))]> (timers s)) /\
  heap_but (dary 4) heap_less (Z.to_nat (pos1 - 1)) h1 /\ h1 !! Z.to_nat (pos1 - 1) = Some (x, t) /\ pos1 <> 0 /\
  c1 = cleared pos (_timer_runchunk s) /\
  (forall e t', t' <> t -> (e, t') ∈ _timer_heap s <-> (e, t') ∈ h1) /\ (_timer_heap s = [] -> h1 = [(x, t)]).
Proof.
  intros [Hh Hc] pos. set (h := _timer_heap s) in *. destruct (Z.leb_spec pos 0) as [Hp|Hp].
  - replace (Z.to_nat (Z.of_nat (length h) + 1 - 1)) with (length h) by lia. split_and!.
    + by apply coherent_pushed.
    + by apply heap_app; [apply _|].
    + by apply list_lookup_middle.
    + lia.
    + done.
    + intros e t' Hn. rewrite elem_of_app, list_elem_of_singleton. split; [by left|]. intros [Hin|Hin]; [done|congruence].
    + by intros ->.
  - pose proof (coherent_lookup i h _ _ t Hc Hp) as Hl. fold pos in Hl. split_and!.
    + by apply coherent_updated.
    + apply heap_insert; [apply _|exact heap_less_trans|done].
    + apply list_lookup_insert_eq. by eapply lookup_lt_Some.
    + lia.
    + unfold cleared. by rewrite (proj2 (Z.ltb_ge _ _)) by lia.
    + intros e t' Hn. split; intros Hin; apply list_elem_of_lookup_1 in Hin as [k Hk].
      * apply (list_elem_of_lookup_2 _ k). rewrite list_lookup_insert_ne; [done|]. intros E. rewrite E in Hl. congruence.
      * apply list_lookup_insert_Some in Hk as [(_ & [= <- <-] & _)|[_ Hk]]; [done|by eapply list_elem_of_lookup_2].
    + intros E. rewrite E in Hl. by rewrite lookup_nil in Hl.
Qed.

(** The timers waiting in the chunk are those that did, but for [t]. *)
Definition waiting_kept (t : nat) (s s' : TimerSet) : Prop :=
  forall t', pos_of (timers s') t' < 0 <-> t' <> t /\ pos_of (timers s) t' < 0.

Lemma waiting_cleared i s s' t :
  timer_inv i s -> timer_inv i s' -> _timer_runchunk s' = cleared (pos_of (timers s) t) (_timer_runchunk s) -> waiting_kept t s s'.
Proof.
  intros [_ Hc] [_ Hc'] E t'. split; [intros Ht'|intros [Hn Ht']].
  - destruct (co_neg _ _ _ _ Hc' t' Ht') as [Hi Hl]. rewrite E in Hl.
    destruct (cleared_other _ _ _ _ _ _ _ Hc Hi Hl) as [Hn Hl']. split; [done|]. rewrite (co_chunk _ _ _ _ Hc _ _ Hi Hl'). lia.
  - pose proof (cleared_kept i _ _ _ t t' Hc Hn Ht') as Hl. rewrite <- E in Hl.
    destruct (co_neg _ _ _ _ Hc t' Ht') as [Hi _]. rewrite (co_chunk _ _ _ _ Hc' _ _ Hi Hl). lia.
Qed.

Lemma schedule_spec i t w s :
  timer_inv i s -> is_Some (_owner (timer s t)) ->
  exists s', schedule_at_steady t w s = Ok s' /\ timer_inv i s' /\ kept s s' /\ waiting_kept t s s' /\ stop_flag s' = stop_flag s /\
    schedule_of (timers s') = <[t := new_expiry (_timer_check s) w]> (schedule_of (timers s)) /\
    (expiry_ok s -> expiry_ok s').
Proof.
  intros Hi Ho. pose proof Hi as [Hh Hc]. unfold schedule_at_steady. rewrite (bool_decide_eq_true_2 _ Ho).
  set (x := new_expiry (_timer_check s) w). change (_schedpos1 (timer s t)) with (pos_of (timers s) t).
  pose proof (entered_spec i s t x Hi) as Hent. set (pos := pos_of (timers s) t) in *. unfold cleared in Hent.
  destruct (if pos <=? 0 then _ else _) as [[h1 c1] pos1]. fold (cleared pos (_timer_runchunk s)) in Hent.
  destruct Hent as (Hc1 & Hb1 & Hl1 & Hp1 & Hc1' & Hsame & Hempty).
  destruct (coherent_change i h1 c1 _ _ _ Hc1 Hb1 Hl1) as (k & h2 & ts2 & Ec & R1 & R2 & R3 & [F1 F2 F3] & R5).
  rewrite Ec. cbn [mbind res_bind fst snd]. set (s1 := set_chunk c1 (set_heap h2 ts2 s)).
  assert (schedule_of ts2 = <[t := x]> (schedule_of (timers s))) as Hsch by (by rewrite R5, entered_schedule).
  assert (kept s s1) as Hk.
  { split; [done| |cbn; rewrite Hc1'; apply length_cleared].
    intros t'. change (_owner (timer_in ts2 t') = _owner (timer s t')). rewrite F2, timer_in_insert. by destruct (decide (t' = t)) as [->|]. }
  assert (timer_inv i s1) as Hi1 by done.
  destruct ((pos =? 1) || (_schedpos1 (timer s1 t) =? 1)) eqn:Eset; eexists; (split; [done|]);
    (split_and!; [by split|by destruct Hk; split|by eapply waiting_cleared|done|exact Hsch|]); [done|].
  apply orb_false_iff in Eset as [Ep1 Ep2]. apply Z.eqb_neq in Ep1, Ep2. intros Hx. unfold expiry_ok in *. cbn. rewrite Hx.
  apply (expiry_after (_timer_heap s) h2 ts2 i c1 t x Hh R1 R2).
  - intros e t' Hn. rewrite R3. by apply Hsame.
  - intros E. rewrite (Hempty E) in R3. apply Permutation_singleton_r in R3. by rewrite R3.
  - rewrite R3. by eapply list_elem_of_lookup_2.
  - intros e E. apply Ep1. pose proof (co_placed _ _ _ _ Hc 0%nat _ E) as Hp. unfold pos_recorded in Hp. cbn in Hp. unfold pos. lia.
  - exact Ep2.
Qed.

Lemma remove_at_spec i pos x s :
  timer_inv i s -> _timer_heap s !! pos = Some x ->
  exists h' ts', remove_at pos s = Ok (set_heap h' ts' s) /\
    timer_heap h' /\ recorded h' ts' /\ h' ++ [x] ≡ₚ _timer_heap s /\ frame (_timer_heap s) (timers s) ts'.
Proof.
  intros [Hh Hc] Hx. destruct (heap_remove i _ _ _ pos x Hc Hh Hx) as (h' & ts' & E & R).
  exists h', ts'. split; [|done]. unfold remove_at. rewrite E. cbn. by rewrite removelast_last.
Qed.

(** Taking a timer out of the heap; [v] is where it is recorded to be then. *)
Lemma taken_spec i pos x s v c' :
  timer_inv i s -> _timer_heap s !! pos = Some x ->
  (v = 0 /\ c' = _timer_runchunk s \/
   v = - Z.of_nat (length (_timer_runchunk s)) - 1 /\ c' = _timer_runchunk s ++ [Some x.2] /\ (i <= length (_timer_runchunk s))%nat) ->
  exists h' ts', remove_at pos s = Ok (set_heap h' ts' s) /\
    timer_heap h' /\ coherent i h' c' (set_schedpos1 x.2 v ts') /\ h' ++ [x] ≡ₚ _timer_heap s /\
    (forall t, _owner (timer_in (set_schedpos1 x.2 v ts') t) = _owner (timer s t)) /\
    schedule_of (set_schedpos1 x.2 v ts') = (if v =? 0 then delete x.2 (schedule_of (timers s)) else schedule_of (timers s)) /\
    (forall t, t <> x.2 -> pos_of (set_schedpos1 x.2 v ts') t < 0 <-> pos_of (timers s) t < 0).
Proof.
  intros Hi Hx Hv. destruct (remove_at_spec i pos x s Hi Hx) as (h' & ts' & E & R1 & R2 & R3 & R4).
  pose proof Hi as [Hh Hc].
  destruct (schedule_removed _ _ _ _ _ R4 (co_placed _ _ _ _ Hc) R2 R3) as [S0 S1].
  exists h', ts'. split_and!; [done|done|by eapply coherent_removed|done| | |].
  - intros t. rewrite owner_set. exact (frame_owner _ _ _ R4 t).
  - destruct (Z.eqb_spec v 0) as [->|Hn]; [exact S0|]. apply S1. destruct Hv as [[? _]|(-> & _)]; lia.
  - intros t Hn. rewrite pos_of_set, decide_False by done.
    destruct (decide (t ∈ map snd (_timer_heap s))) as [Hin|Hin]; [|by rewrite (frame_pos _ _ _ R4)].
    pose proof (recorded_positive _ _ _ (co_placed _ _ _ _ Hc) Hin).
    rewrite <- R3, map_app, elem_of_app in Hin. destruct Hin as [Hin|Hin%list_elem_of_singleton]; [|done].
    pose proof (recorded_positive _ _ _ R2 Hin). lia.
Qed.

(** A timer that is not in the heap is not scheduled any more. *)
Lemma schedule_dropped t ts : schedule_of (set_schedpos1 t 0 ts) = delete t (schedule_of ts).
Proof.
  apply map_eq. intros t'. rewrite schedule_of_lookup, pos_of_set, expiry_set.
  destruct (decide (t' = t)) as [->|Hn]; [by rewrite lookup_delete_eq|]. by rewrite lookup_delete_ne, schedule_of_lookup.
Qed.

Lemma coherent_unset i i' h c c' ts t :
  coherent i h c ts -> pos_of ts t <= 0 ->
  (forall j t', (i' <= j)%nat -> c' !! j = Some (Some t') -> t' <> t /\ c !! j = Some (Some t')) ->
  (forall t', t' <> t -> pos_of ts t' < 0 ->
    (i' <= Z.to_nat (- pos_of ts t' - 1))%nat /\ c' !! Z.to_nat (- pos_of ts t' - 1) = Some (Some t')) -> (i <= i')%nat ->
  coherent i' h c' (set_schedpos1 t 0 ts).
Proof.
  intros [C1 C2 C3 C4 C5 C6] Hp H1 H2 Hle.
  assert (t ∉ map snd h) as Hnin by (intros Hin; pose proof (recorded_positive h ts t C1 Hin); lia).
  split; [|done| | | |].
  - intros k e Hk. unfold pos_recorded. rewrite pos_of_set, decide_False; [by apply C1|]. intros <-. apply Hnin.
    apply (list_elem_of_fmap_2 snd). by eapply list_elem_of_lookup_2.
  - intros e t' Hin. rewrite expiry_set. by apply C3.
  - intros t'. rewrite pos_of_set. destruct (decide (t' = t)); [lia|apply C4].
  - intros j t' Hj Hc. destruct (H1 j t' Hj Hc) as [Hn Hc']. rewrite pos_of_set, decide_False by done. apply C5; [lia|done].
  - intros t'. rewrite pos_of_set. destruct (decide (t' = t)) as [|Hn]; [lia|]. by apply H2.
Qed.

Lemma coherent_dropped i h c ts t :
  coherent i h c ts -> pos_of ts t <= 0 -> coherent i h (cleared (pos_of ts t) c) (set_schedpos1 t 0 ts).
Proof.
  intros Hc Hp. apply (coherent_unset i i h c); [done|done| | |lia].
  - intros j t' Hj. by apply (cleared_other i h).
  - intros t' Hn Ht'. split; [by apply (co_neg _ _ _ _ Hc)|by apply (cleared_kept i h)].
Qed.

(** The chunk is run one further; the timer there is not scheduled any more. *)
Lemma coherent_started i h c ts t :
  coherent i h c ts -> c !! i = Some (Some t) -> coherent (S i) h c (set_schedpos1 t 0 ts).
Proof.
  intros Hc Ht. pose proof (co_chunk _ _ _ _ Hc i t (le_n _) Ht) as Hp.
  apply (coherent_unset i (S i) h c); [done|lia| | |lia].
  - intros j t' Hj Hc'. split; [|done]. intros ->. pose proof (co_chunk _ _ _ _ Hc j t ltac:(lia) Hc'). lia.
  - intros t' Hn Ht'. destruct (co_neg _ _ _ _ Hc t' Ht') as [Hi Hl]. split; [|done].
    destruct (decide (i = Z.to_nat (- pos_of ts t' - 1))) as [E|]; [|lia]. rewrite <- E in Hl. congruence.
Qed.

Lemma coherent_skipped i h c ts : coherent i h c ts -> mjoin (c !! i) = None -> coherent (S i) h c ts.
Proof.
  intros [C1 C2 C3 C4 C5 C6] Hn. split; [done..| |].
  - intros j t Hj. apply C5. lia.
  - intros t Ht. destruct (C6 t Ht) as [Hi Hl]. split; [|done].
    destruct (decide (i = Z.to_nat (- pos_of ts t - 1))) as [E|]; [|lia]. by rewrite E, Hl in Hn.
Qed.

Lemma unschedule_spec i t s :
  timer_inv i s ->
  exists s', unschedule t s = Ok s' /\ timer_inv i s' /\ kept s s' /\ waiting_kept t s s' /\ stop_flag s' = stop_flag s /\
    schedule_of (timers s') = delete t (schedule_of (timers s)) /\ (expiry_ok s -> expiry_ok s').
Proof.
  intros Hi. pose proof Hi as [Hh Hc]. unfold unschedule. change (_schedpos1 (timer s t)) with (pos_of (timers s) t).
  set (pos := pos_of (timers s) t). destruct (Z.eqb_spec pos 0) as [Hz|Hz].
  { exists s. split_and!; [done|done|done| |done| |done].
    { intros t'. destruct (decide (t' = t)) as [->|]; [|tauto]. fold pos. lia. }
    symmetry. apply delete_id.
    rewrite schedule_of_lookup. fold pos. by rewrite Hz. }
  destruct (Z.ltb_spec 0 pos) as [Hp|Hp].
  - pose proof (coherent_lookup i _ _ _ t Hc Hp) as Hl. fold pos in Hl.
    destruct (taken_spec i _ _ s 0 _ Hi Hl (or_introl (conj eq_refl eq_refl))) as (h' & ts' & -> & R1 & R2 & R3 & R4 & R5 & R6).
    cbn [mbind res_bind fst snd] in *. cbn [Z.eqb] in R5. eexists. split; [done|].
    assert (t ∉ map snd h') as Hnin.
    { pose proof (co_nodup _ _ _ _ Hc) as Hd. rewrite <- R3, map_app in Hd. apply NoDup_app in Hd as (_ & Hd & _).
      intros Hin. apply (Hd t Hin). by left. }
    split_and!.
    + destruct (pos =? 1); by split.
    + split; [by destruct (pos =? 1)|intros t'; destruct (pos =? 1); apply R4|by destruct (pos =? 1)].
    + intros t'. assert (pos_of (set_schedpos1 t 0 ts') t' < 0 <-> t' <> t /\ pos_of (timers s) t' < 0) as Hw; [|by destruct (pos =? 1)].
      destruct (decide (t' = t)) as [->|Hn]; [|rewrite (R6 t' Hn); tauto]. rewrite pos_of_set, decide_True by done. lia.
    + by destruct (pos =? 1).
    + by destruct (pos =? 1).
    + destruct (Z.eqb_spec pos 1) as [E1|E1]; [done|]. unfold expiry_ok. cbn. intros ->.
      apply (heap_expiry_same _ h' t Hh R1).
      * intros E. rewrite E in Hl. by rewrite lookup_nil in Hl.
      * intros ->. cbn in R3. apply Permutation_singleton_l in R3. rewrite <- R3 in Hl.
        apply list_lookup_singleton_Some in Hl as [Hl _]. lia.
      * intros e E. pose proof (co_placed _ _ _ _ Hc 0%nat _ E) as Hr. unfold pos_recorded in Hr. cbn in Hr. unfold pos in E1. lia.
      * intros e E. apply Hnin. apply (list_elem_of_fmap_2 snd h' (e, t)). by eapply list_elem_of_lookup_2.
      * intros e t' Hn. rewrite <- R3, elem_of_app, list_elem_of_singleton. split; [|by left]. intros [?|[= _ ?]]; [done|congruence].
  - assert (cleared pos (_timer_runchunk s) = <[Z.to_nat (- pos - 1) := None]> (_timer_runchunk s)) as Ecl.
    { unfold cleared. by rewrite (proj2 (Z.ltb_lt _ _)) by lia. }
    rewrite <- Ecl. eexists. split; [done|].
    assert (timer_inv i (set_timers (set_schedpos1 t 0 (timers s)) (set_chunk (cleared pos (_timer_runchunk s)) s))) as Hi'.
    { split; [done|]. apply coherent_dropped; [done|]. fold pos. lia. }
    split_and!; [done| |by eapply waiting_cleared|done|apply schedule_dropped|done].
    split; [done|intros t'; apply owner_set|apply length_cleared].
Qed.

(** ** What running timers does to the map *)

Definition replay1 (now : Z) (e : Event) (m : gmap nat Z) : option (gmap nat Z) :=
  match e with
  | ERun t x => if bool_decide (m !! t = Some x /\ x <= now) then Some (delete t m) else None
  | ESchedule t w => Some (<[t := new_expiry now w]> m)
  | EUnschedule t => Some (delete t m)
  | EStop => Some m
  end.

Fixpoint replay (now : Z) (es : list Event) (m : gmap nat Z) : option (gmap nat Z) :=
  match es with
  | [] => Some m
  | e :: es => m ← replay1 now e m; replay now es m
  end.

Lemma replay_app now es es' m : replay now (es ++ es') m = (m ← replay now es m; replay now es' m).
Proof.
  revert m. induction es as [|e es IH]; intros m; [done|]. cbn. destruct (replay1 now e m) as [m'|]; [apply IH|done].
Qed.

(** Callbacks do not run others, and schedule initialised timers only. *)
Definition allowed (s : TimerSet) (e : Event) : Prop :=
  match e with
  | ERun _ _ => False
  | ESchedule t _ => is_Some (_owner (timer s t))
  | EUnschedule _ | EStop => True
  end.

Definition owned (s : TimerSet) : Prop := forall t x, schedule_of (timers s) !! t = Some x -> is_Some (_owner (timer s t)).

(** From [s] to [s'] by [es]. *)
Record ran (i : nat) (s s' : TimerSet) (es : list Event) : Prop := mkRan {
  ran_inv : timer_inv i s';
  ran_kept : kept s s';
  ran_expiry : expiry_ok s -> expiry_ok s';
  ran_owned : owned s -> owned s';
  ran_replay : replay (_timer_check s) es (schedule_of (timers s)) = Some (schedule_of (timers s'));
  ran_waiting : forall t, pos_of (timers s') t < 0 ->
    pos_of (timers s) t < 0 /\ _expiry_s (timer_in (timers s') t) = _expiry_s (timer_in (timers s) t);
  ran_late : forall t x, schedule_of (timers s') !! t = Some x ->
    schedule_of (timers s) !! t = Some x /\ (pos_of (timers s) t < 0 -> pos_of (timers s') t < 0) \/ exists w, ESchedule t w ∈ es
}.

Lemma ran_trans i j s1 s2 s3 es es' : ran i s1 s2 es -> ran j s2 s3 es' -> ran j s1 s3 (es ++ es').
Proof.
  intros [A1 A2 A3 A4 A5 A6 A7] [B1 B2 B3 B4 B5 B6 B7]. split; [done|by eapply kept_trans|auto|auto| | |].
  - rewrite replay_app, A5. cbn. by rewrite <- (kept_check _ _ A2).
  - intros t Ht. destruct (B6 t Ht) as [Ht' E]. destruct (A6 t Ht') as [Ht'' E']. split; [done|congruence].
  - intros t x Hx. destruct (B7 t x Hx) as [[Hx' Hp]|[w Hw]]; [|right; exists w; rewrite elem_of_app; by right].
    destruct (A7 t x Hx') as [[Hx'' Hp']|[w Hw]]; [left; auto|right; exists w; rewrite elem_of_app; by left].
Qed.

Lemma scheduled_expiry ts t : pos_of ts t < 0 -> schedule_of ts !! t = Some (_expiry_s (timer_in ts t)).
Proof. intros Ht. rewrite schedule_of_lookup. by rewrite (proj2 (Z.eqb_neq _ _)) by lia. Qed.

(** A step that changes the map at one timer. *)
Lemma ran_step i s s' t es m :
  timer_inv i s' -> kept s s' -> waiting_kept t s s' -> (expiry_ok s -> expiry_ok s') ->
  replay (_timer_check s) es (schedule_of (timers s)) = Some m -> schedule_of (timers s') = m ->
  (forall t', t' <> t -> m !! t' = schedule_of (timers s) !! t') ->
  (m !! t = None \/ (exists w, ESchedule t w ∈ es) /\ is_Some (_owner (timer s t))) -> ran i s s' es.
Proof.
  intros Hi Hk Hw Hx Hr Hm Hne Ht. split; [done|done|done| |by rewrite Hm| |].
  - intros Ho t' x Hx'. rewrite (kept_owner _ _ Hk). rewrite Hm in Hx'.
    destruct (decide (t' = t)) as [->|Hn]; [|rewrite Hne in Hx' by done; by eapply Ho].
    destruct Ht as [Ht|[_ Ht]]; [congruence|done].
  - intros t' Ht'. destruct (proj1 (Hw t') Ht') as [Hn Hp]. split; [done|].
    pose proof (scheduled_expiry _ _ Ht') as E'. pose proof (scheduled_expiry _ _ Hp) as E. rewrite Hm, Hne in E' by done. congruence.
  - intros t' x Hx'. rewrite Hm in Hx'. destruct (decide (t' = t)) as [->|Hn].
    + destruct Ht as [Ht|[Ht _]]; [congruence|by right].
    + left. rewrite <- Hne by done. split; [done|]. intros Hp. by apply Hw.
Qed.

Lemma ran_nil i s : timer_inv i s -> ran i s s [].
Proof. intros Hi. split; [done..|]. by left. Qed.

Lemma perform_ran i s e : timer_inv i s -> allowed s e -> exists s', perform e s = Ok s' /\ ran i s s' [e].
Proof.
  intros Hi Ha. destruct e as [t x|t w|t|]; cbn in *; [done| | |].
  - destruct (schedule_spec i t w s Hi Ha) as (s' & -> & H1 & H2 & H3 & _ & H5 & H6). exists s'. split; [done|].
    eapply (ran_step i s s' t); try done.
    + intros t' Hn. by rewrite lookup_insert_ne.
    + right. split; [exists w; by left|done].
  - destruct (unschedule_spec i t s Hi) as (s' & -> & H1 & H2 & H3 & _ & H5 & H6). exists s'. split; [done|].
    eapply (ran_step i s s' t); try done.
    + intros t' Hn. by rewrite lookup_delete_ne.
    + left. apply lookup_delete_eq.
  - eexists. split; [done|]. destruct (ran_nil i s Hi) as [A1 A2 A3 A4 A5 A6 A7].
    split; [by destruct A1|by destruct A2|done|done|done|done|by left].
Qed.

Lemma perform_all_ran i es s :
  timer_inv i s -> Forall (allowed s) es -> exists s', perform_all es s = Ok s' /\ ran i s s' es.
Proof.
  revert s. induction es as [|e es IH]; intros s Hi Ha.
  { exists s. split; [done|by apply ran_nil]. }
  apply Forall_cons in Ha as [He Ha]. destruct (perform_ran i s e Hi He) as (s1 & E & R1). cbn. rewrite E. cbn.
  destruct (IH s1 (ran_inv _ _ _ _ R1)) as (s2 & -> & R2).
  - eapply Forall_impl; [exact Ha|]. intros [t x|t w|t|]; cbn; try done. by rewrite (kept_owner _ _ (ran_kept _ _ _ _ R1)).
  - exists s2. split; [done|]. exact (ran_trans _ _ _ _ _ _ _ R1 R2).
Qed.

(** A timer that has been taken out to be run. *)
Record started (t : nat) (s s1 : TimerSet) : Prop := mkStarted {
  st_kept : kept s s1;
  st_waiting : waiting_kept t s s1;
  st_expiry : expiry_ok s -> expiry_ok s1;
  st_schedule : schedule_of (timers s1) = delete t (schedule_of (timers s));
  st_same : _expiry_s (timer_in (timers s1) t) = _expiry_s (timer_in (timers s) t)
}.

Section running.
Context (callback : nat -> TimerSet -> list Event) (Hcb : forall t s, Forall (allowed s) (callback t s)).

Lemma run_one_timer_ran i s s1 t x :
  timer_inv i s1 -> started t s s1 -> schedule_of (timers s) !! t = Some x -> x <= _timer_check s ->
  exists s' es, run_one_timer callback t s1 = Ok (s', es) /\ ran i s s' es.
Proof.
  intros Hi [A1 A2 A3 A4 A5] Hx Hle. unfold run_one_timer.
  destruct (perform_all_ran i (callback t s1) s1 Hi (Hcb t s1)) as (s' & -> & R). cbn. eexists _, _. split; [done|].
  apply (ran_trans i i s s1 s' [_]); [|done]. rewrite schedule_of_lookup in Hx.
  assert (_expiry_s (timer s1 t) = x) as ->.
  { destruct (pos_of (timers s) t =? 0); [done|]. injection Hx as <-. exact A5. }
  eapply (ran_step i s s1 t); try done.
  - cbn. rewrite bool_decide_eq_true_2 by (by rewrite schedule_of_lookup). done.
  - intros t' Hn. by rewrite lookup_delete_ne.
  - left. apply lookup_delete_eq.
Qed.

(** The first loop: the earliest timer is taken out and run. *)
Lemma popped_spec s e h :
  timer_inv 0 s -> _timer_heap s = e :: h ->
  _expiry_s (timer s e.2) = e.1 /\ schedule_of (timers s) !! e.2 = Some e.1 /\
  exists s0, remove_at 0 s = Ok s0 /\
    let s1 := set_timer_expiry s0 in let s1 := set_timers (set_schedpos1 e.2 0 (timers s1)) s1 in
    timer_inv 0 s1 /\ started e.2 s s1.
Proof.
  intros Hi Eh. pose proof Hi as [Hh Hc]. assert (_timer_heap s !! 0%nat = Some e) as H0 by (by rewrite Eh).
  assert (_expiry_s (timer s e.2) = e.1) as Ex.
  { apply (co_expiry _ _ _ _ Hc). destruct e. by eapply list_elem_of_lookup_2. }
  split; [done|]. split.
  { rewrite schedule_of_lookup. pose proof (co_placed _ _ _ _ Hc 0%nat e H0) as Hp. unfold pos_recorded in Hp. rewrite Hp. cbn. by f_equal. }
  destruct (remove_at_spec 0 0 e s Hi H0) as (h1 & ts1 & E1 & _ & _ & _ & R4).
  destruct (taken_spec 0 0 e s 0 _ Hi H0 (or_introl (conj eq_refl eq_refl))) as (h' & ts' & E & R1 & R2 & R3 & R5 & R6 & R7).
  rewrite E1 in E. injection E as <- <-. eexists. split; [exact E1|]. cbn. split; [by split|]. split.
  - by split.
  - intros t. destruct (decide (t = e.2)) as [->|Hn]; cbn; [rewrite pos_of_set, decide_True by done; lia|]. rewrite R7 by done. tauto.
  - done.
  - exact R6.
  - cbn. rewrite expiry_set. apply (frame_expiry _ _ _ R4).
Qed.

Lemma run_some_step s :
  timer_inv 0 s -> expired s = true ->
  exists s' es, ran 0 s s' es /\ forall n, run_some callback n s =
    if negb (stop_flag s') && expired s' then
      match n with
      | O => Ok (s', es, true)
      | S n => let* r := run_some callback n s' in let '(s, es', b) := r in Ok (s, es ++ es', b)
      end
    else Ok (s', es, false).
Proof.
  intros Hi He. unfold expired in He. destruct (_timer_heap s) as [|e h] eqn:Eh; [done|]. apply Z.leb_le in He.
  destruct (popped_spec s e h Hi Eh) as (Ex & Hs & s0 & E0 & H1 & H2).
  destruct (run_one_timer_ran 0 s _ e.2 e.1 H1 H2 Hs He) as (s' & es & Er & R). exists s', es. split; [done|].
  intros n. destruct n; cbn [run_some]; rewrite Eh, Ex, Z.eqb_refl, E0; cbn [mbind res_bind]; rewrite Er; done.
Qed.

Lemma run_some_ran n s :
  timer_inv 0 s -> expired s = true ->
  exists s' es b, run_some callback n s = Ok (s', es, b) /\ ran 0 s s' es /\
    if b : bool then stop_flag s' = false /\ expired s' = true else stop_flag s' = true \/ expired s' = false.
Proof.
  revert s. induction n as [|n IH]; intros s Hi He; destruct (run_some_step s Hi He) as (s' & es & R & ->);
    destruct (stop_flag s') eqn:Es; cbn [negb andb]; [by eexists _, _, _; eauto| |by eexists _, _, _; eauto|];
    (destruct (expired s') eqn:Ee; [|by eexists _, _, _; eauto]).
  - by eexists _, _, _.
  - destruct (IH s' (ran_inv _ _ _ _ R) Ee) as (s2 & es2 & b & -> & R2 & Hb). cbn. eexists _, _, b. split; [done|].
    split; [exact (ran_trans _ _ _ _ _ _ _ R R2)|done].
Qed.

(** The second loop: what has expired is waiting in the chunk. *)
Lemma not_expired_heap s t x :
  timer_inv 0 s -> expired s = false -> schedule_of (timers s) !! t = Some x -> x <= _timer_check s -> pos_of (timers s) t < 0.
Proof.
  intros [Hh Hc] He Hx Hle. rewrite schedule_of_lookup in Hx. destruct (Z.eqb_spec (pos_of (timers s) t) 0) as [|Hn]; [done|].
  injection Hx as <-. destruct (Z.ltb_spec (pos_of (timers s) t) 0) as [|Hp]; [done|]. exfalso.
  pose proof (coherent_lookup 0 _ _ _ t Hc ltac:(lia)) as Hl. apply list_elem_of_lookup_2 in Hl.
  unfold expired in He. destruct (_timer_heap s) as [|[e0 t0] h] eqn:Eh; [by apply elem_of_nil in Hl|].
  pose proof (root_earliest _ e0 t0 _ _ Hh eq_refl Hl). apply Z.leb_gt in He. cbn in He. lia.
Qed.

Definition due (s : TimerSet) : Prop := forall t, pos_of (timers s) t < 0 -> _expiry_s (timer s t) <= _timer_check s.

Lemma collect_step s e h :
  timer_inv 0 s -> due s -> _timer_heap s = e :: h -> e.1 <= _timer_check s ->
  exists s0, remove_at 0 s = Ok s0 /\
    let s1 := set_timers (set_schedpos1 e.2 (- Z.of_nat (length (_timer_runchunk s0)) - 1) (timers s0)) s0 in
    let s1 := set_chunk (_timer_runchunk s1 ++ [Some e.2]) s1 in
    timer_inv 0 s1 /\ due s1 /\ (length (_timer_heap s1) < length (_timer_heap s))%nat /\ _timer_check s1 = _timer_check s /\
    stop_flag s1 = stop_flag s /\ (forall t, _owner (timer s1 t) = _owner (timer s t)) /\
    schedule_of (timers s1) = schedule_of (timers s).
Proof.
  intros Hi Hd Eh Hle. pose proof Hi as [Hh Hc]. assert (_timer_heap s !! 0%nat = Some e) as H0 by (by rewrite Eh).
  destruct (remove_at_spec 0 0 e s Hi H0) as (h1 & ts1 & E1 & _ & _ & _ & R4).
  destruct (taken_spec 0 0 e s (- Z.of_nat (length (_timer_runchunk s)) - 1) (_timer_runchunk s ++ [Some e.2]) Hi H0)
    as (h' & ts' & E & R1 & R2 & R3 & R5 & R6 & R7).
  { right. split_and!; [done|done|lia]. }
  rewrite E1 in E. injection E as <- <-. eexists. split; [exact E1|]. cbn. rewrite (proj2 (Z.eqb_neq _ _)) in R6 by lia.
  split_and!; [by split| | |done|done|done|done].
  - intros t Ht. change (_expiry_s (timer_in (set_schedpos1 e.2 (- Z.of_nat (length (_timer_runchunk s)) - 1) ts1) t) <= _timer_check s).
    rewrite expiry_set, (frame_expiry _ _ _ R4). destruct (decide (t = e.2)) as [->|Hn].
    + rewrite (co_expiry _ _ _ _ Hc e.1 e.2); [done|]. destruct e. by eapply list_elem_of_lookup_2.
    + cbn in Ht. rewrite R7 in Ht by done. by apply Hd.
  - rewrite <- R3, length_app. cbn. lia.
Qed.

Lemma collect_spec n s :
  timer_inv 0 s -> due s -> expired s = true -> (length (_timer_heap s) <= n)%nat ->
  exists s', collect n s = Ok s' /\ timer_inv 0 s' /\ due s' /\ expired s' = false /\ _timer_check s' = _timer_check s /\
    stop_flag s' = stop_flag s /\ (forall t, _owner (timer s' t) = _owner (timer s t)) /\
    schedule_of (timers s') = schedule_of (timers s).
Proof.
  revert s. induction n as [|n IH]; intros s Hi Hd He Hn; unfold expired in He; destruct (_timer_heap s) as [|e h] eqn:Eh; try done;
    cbn in Hn; [lia|]. apply Z.leb_le in He.
  destruct (collect_step s e h Hi Hd Eh He) as (s0 & E0 & H1 & H2 & H3 & H4 & H5 & H6 & H7).
  cbn [collect]. rewrite Eh, E0. cbn [mbind res_bind]. rewrite Eh in H3. cbn [length] in H3. set (s1 := set_chunk _ _) in *. clearbody s1.
  destruct (expired s1) eqn:Ee; [|by exists s1].
  destruct (IH s1 H1 H2 Ee) as (s' & E' & G1 & G2 & G3 & G4 & G5 & G6 & G7); [lia|].
  exists s'. split_and!; [done|done|done|done|congruence|congruence|intros t; by rewrite G6|congruence].
Qed.

(** The third loop: what is still waiting is run, or scheduled again. *)
Lemma chunk_step i s t :
  timer_inv i s -> _timer_runchunk s !! i = Some (Some t) ->
  let s1 := set_timers (set_schedpos1 t 0 (timers s)) s in timer_inv (S i) s1 /\ started t s s1.
Proof.
  intros [Hh Hc] Hl s1. split; [split; [done|by apply coherent_started]|]. split.
  - split; [done|intros t'; apply owner_set|done].
  - intros t'. cbn. rewrite pos_of_set. destruct (decide (t' = t)) as [->|]; [lia|tauto].
  - done.
  - apply schedule_dropped.
  - apply expiry_set.
Qed.

Lemma run_chunk_step i s t :
  timer_inv i s -> due s -> owned s -> _timer_runchunk s !! i = Some (Some t) ->
  let s1 := set_timers (set_schedpos1 t 0 (timers s)) s in
  exists s' es, (if stop_flag s1 then
      let e := _expiry_s (timer s1 t) in let* s := schedule_at_steady t e s1 in Ok (s, [ESchedule t e])
    else run_one_timer callback t s1) = Ok (s', es) /\ ran (S i) s s' es.
Proof.
  intros Hi Hd Ho Hl s1. destruct (chunk_step i s t Hi Hl) as [Hi1 Hst]. fold s1 in Hi1, Hst.
  pose proof Hi as [_ Hc]. pose proof (co_chunk _ _ _ _ Hc i t (le_n _) Hl) as Hp.
  pose proof (scheduled_expiry (timers s) t ltac:(lia)) as Hs.
  destruct (stop_flag s1) eqn:Es; [|by apply (run_one_timer_ran (S i) s s1 t _ Hi1 Hst Hs), Hd; lia].
  destruct Hst as [A1 A2 A3 A4 A5]. cbv zeta. set (e := _expiry_s (timer s1 t)).
  destruct (schedule_spec (S i) t e s1 Hi1) as (s' & -> & H1 & H2 & H3 & _ & H5 & H6).
  { rewrite (kept_owner _ _ A1). by eapply Ho. }
  cbn. eexists _, _. split; [done|]. eapply (ran_step (S i) s s' t); [done|by eapply kept_trans| |auto|done| | |].
  - intros t'. rewrite (H3 t'), (A2 t'). tauto.
  - rewrite H5, A4. apply insert_delete_eq.
  - intros t' Hn. by rewrite lookup_insert_ne.
  - right. split; [exists e; by left|]. by eapply Ho.
Qed.

Lemma due_ran i s s' es : due s -> ran i s s' es -> due s'.
Proof.
  intros Hd R t Ht. destruct (ran_waiting _ _ _ _ R t Ht) as [Hp E]. rewrite (kept_check _ _ (ran_kept _ _ _ _ R)).
  unfold timer. unfold timer_in in E. rewrite E. by apply Hd.
Qed.

Lemma run_chunk_ran n i s :
  timer_inv i s -> due s -> owned s -> (i + n = length (_timer_runchunk s))%nat ->
  exists s' es, run_chunk callback n i s = Ok (s', es) /\ ran (i + n) s s' es.
Proof.
  revert i s. induction n as [|n IH]; intros i s Hi Hd Ho Hn; cbn [run_chunk].
  { exists s, []. split; [done|]. rewrite Nat.add_0_r. by apply ran_nil. }
  rewrite Nat.add_succ_r, <- Nat.add_succ_l. destruct (mjoin (_timer_runchunk s !! i)) as [t|] eqn:Et.
  - assert (_timer_runchunk s !! i = Some (Some t)) as Hl by (by destruct (_timer_runchunk s !! i); cbn in Et; subst).
    destruct (run_chunk_step i s t Hi Hd Ho Hl) as (s' & es & Er & R). cbv zeta in Er |- *. rewrite Er. cbn [mbind res_bind].
    destruct (IH (S i) s' (ran_inv _ _ _ _ R) (due_ran _ _ _ _ Hd R) (ran_owned _ _ _ _ R Ho)) as (s2 & es2 & -> & R2).
    { rewrite (kept_chunk _ _ (ran_kept _ _ _ _ R)). lia. }
    cbn. eexists _, _. split; [done|]. exact (ran_trans _ _ _ _ _ _ _ R R2).
  - apply IH; [|done|done|lia]. destruct Hi as [Hh Hc]. split; [done|]. by apply coherent_skipped.
Qed.

(** A thread between two calls of [run_timers]. *)
Record idle (s : TimerSet) : Prop := mkIdle {
  idle_inv : timer_inv 0 s;
  idle_chunk : _timer_runchunk s = [];
  idle_expiry : expiry_ok s;
  idle_owned : owned s
}.

Lemma none_waiting i s t : timer_inv i s -> (length (_timer_runchunk s) <= i)%nat -> ~ pos_of (timers s) t < 0.
Proof.
  intros [_ Hc] Hl Ht. destruct (co_neg _ _ _ _ Hc t Ht) as [Hi Hj]. apply lookup_lt_Some in Hj. lia.
Qed.

(** The chunk has been run. *)
Lemma inv_done i s : timer_inv i s -> (length (_timer_runchunk s) <= i)%nat -> timer_inv 0 (set_chunk [] s).
Proof.
  intros Hi Hl. pose proof Hi as [Hh [C1 C2 C3 C4 C5 C6]]. split; [done|]. split; [done..| |].
  - by intros j t _ ?.
  - intros t Ht. by destruct (none_waiting i s t Hi Hl).
Qed.

Lemma idle_ran s s' es : idle s -> ran 0 s s' es -> idle s'.
Proof.
  intros [H1 H2 H3 H4] [R1 R2 R3 R4 _ _ _]. split; [done| |auto|auto].
  apply nil_length_inv. rewrite (kept_chunk _ _ R2). by rewrite H2.
Qed.

(** The second and third loop. *)
Lemma run_rest s :
  idle s -> expired s = true ->
  exists s1 s' es, collect (length (_timer_heap s)) s = Ok s1 /\
    run_chunk callback (length (_timer_runchunk (set_timer_expiry s1))) 0 (set_timer_expiry s1) = Ok (s', es) /\
    idle (set_chunk [] s') /\
    replay (_timer_check s) es (schedule_of (timers s)) = Some (schedule_of (timers s')) /\
    forall t x, schedule_of (timers s') !! t = Some x -> x <= _timer_check s -> exists w, ESchedule t w ∈ es.
Proof.
  intros [Hi Hn Hx Ho] He.
  assert (due s) as Hd by (intros t Ht; destruct (none_waiting 0 s t Hi); [by rewrite Hn|done]).
  destruct (collect_spec _ s Hi Hd He (le_n _)) as (s1 & E1 & G1 & G2 & G3 & G4 & G5 & G6 & G7).
  set (s2 := set_timer_expiry s1).
  assert (owned s2) as Ho2.
  { intros t x Hx2. change (timer s2 t) with (timer s1 t). rewrite G6. apply (Ho t x). by rewrite <- G7. }
  assert (timer_inv 0 s2) as Hi2 by (by destruct G1).
  destruct (run_chunk_ran (length (_timer_runchunk s2)) 0 s2 Hi2 G2 Ho2 eq_refl) as (s' & es & E' & R).
  exists s1, s', es. split; [done|]. split; [done|]. pose proof R as [R1 R2 R3 R4 R5 R6 R7]. cbn [Nat.add] in *.
  assert (length (_timer_runchunk s') <= length (_timer_runchunk s2))%nat as Hlen by (by rewrite (kept_chunk _ _ R2)).
  split_and!.
  - split; [by eapply inv_done|done|by apply R3|by apply R4].
  - rewrite <- G7, <- G4. exact R5.
  - intros t x Ht Hle. destruct (R7 t x Ht) as [[Hs Hw]|Hw]; [|done]. exfalso. apply (none_waiting _ s' t R1 Hlen), Hw.
    apply (not_expired_heap s1 t x G1 G3); [done|by rewrite G4].
Qed.

Lemma idle_check now s : idle s -> idle (set_check now s).
Proof. intros [[H1 H2] H3 H4 H5]. by split. Qed.

Lemma adjust_stride_same first s :
  let s' := adjust_stride first s in
  _timer_check s' = _timer_check s /\ _timer_heap s' = _timer_heap s /\ timers s' = timers s /\ (idle s -> idle s').
Proof.
  cbn zeta. unfold adjust_stride. repeat case_match; (split_and!; [done..|]); intros [[? ?] ? ? ?]; by split.
Qed.

Lemma not_expired_idle s t x :
  idle s -> expired s = false -> schedule_of (timers s) !! t = Some x -> ~ x <= _timer_check s.
Proof.
  intros [H1 H2 H3 H4] He Hx Hle. apply (none_waiting 0 s t H1); [by rewrite H2|]. by eapply not_expired_heap.
Qed.

(** C14: [TimerSet::run_timers] always returns: none of its assertions fails and the
    heap is never read beyond its end.  What it does is a sequence of events that the
    map from scheduled timers to expiry times allows: a timer is run only when it is
    scheduled and has expired, and is unscheduled then; what callbacks schedule or
    unschedule while it is under way (also timers that are about to be run) takes
    effect at once.  Afterwards the heap, the recorded positions and [_timer_expiry]
    are consistent again, and unless the thread is paused or was stopped every timer
    that still has expired was scheduled by a callback in this call. *)
Theorem run_timers_refines paused now s :
  idle s ->
  exists s' es, run_timers callback paused now s = Ok (s', es) /\ idle s' /\
    replay now es (schedule_of (timers s)) = Some (schedule_of (timers s')) /\
    (paused = false -> stop_flag s' = false ->
     forall t x, schedule_of (timers s') !! t = Some x -> x <= now -> exists w, ESchedule t w ∈ es).
Proof.
  intros Hi. unfold run_timers. destruct (paused || stop_flag s) eqn:Ep.
  { exists s, []. split_and!; [done..|]. intros -> E. by rewrite E in Ep. }
  apply orb_false_iff in Ep as [-> Es]. destruct (_timer_heap s) as [|e h] eqn:Eh.
  { exists s, []. split_and!; [done..|]. intros _ _ t x Hx Hle.
    destruct (not_expired_idle (set_check now s) t x (idle_check now s Hi)); [unfold expired; cbn; by rewrite Eh|done..]. }
  destruct (Z.ltb_spec now e.1) as [Hlt|Hge].
  { eexists _, []. split_and!; [done|by apply idle_check|done|]. intros _ _ t x Hx Hle.
    destruct (not_expired_idle (set_check now s) t x (idle_check now s Hi)); [|done..].
    unfold expired. cbn. rewrite Eh. by apply Z.leb_gt. }
  destruct (adjust_stride_same e.1 (set_check now s)) as (A1 & A2 & A3 & A4). cbn [_timer_check set_check] in A1.
  set (s0 := adjust_stride e.1 (set_check now s)) in *. pose proof (A4 (idle_check now s Hi)) as Hi0.
  destruct (run_some_ran 64 s0 (idle_inv _ Hi0)) as (s1 & es & b & -> & R & Hb).
  { unfold expired. rewrite A1, A2. cbn. rewrite Eh. by apply Z.leb_le. }
  pose proof (idle_ran _ _ _ Hi0 R) as Hi1. pose proof (kept_check _ _ (ran_kept _ _ _ _ R)) as Ec. rewrite A1 in Ec.
  pose proof (ran_replay _ _ _ _ R) as Hr. rewrite A1, A3 in Hr. cbn [mbind res_bind].
  destruct b; cbn [andb].
  - destruct Hb as [-> He]. cbn [negb]. destruct (run_rest s1 Hi1 He) as (s2 & s3 & es' & -> & E2 & Hi3 & Hr' & Hl). cbn [mbind res_bind].
    rewrite E2. cbn [mbind res_bind]. rewrite Ec in Hr', Hl. eexists _, _. split_and!; [done|done| |].
    + rewrite replay_app. change (timers (set_check now s)) with (timers s) in Hr. rewrite Hr. exact Hr'.
    + intros _ _ t x Hx Hle. destruct (Hl t x Hx Hle) as [w Hw]. exists w. rewrite elem_of_app. by right.
  - exists s1, es. split_and!; [done..|]. intros _ Est t x Hx Hle. destruct Hb as [Hb|Hb]; [congruence|].
    destruct (not_expired_idle s1 t x Hi1 Hb Hx). by rewrite Ec.
Qed.
End running.

(** ** Between runs *)

Lemma idle_new now ts : (forall t, pos_of ts t = 0) -> idle (TimerSet_new now ts).
Proof.
  intros H0. split; [|done|done|].
  - split; [by intros i x Hx|]. split; cbn.
    + by intros i x Hx.
    + apply NoDup_nil_2.
    + by intros e t ?%elem_of_nil.
    + intros t. rewrite H0. lia.
    + by intros j t _ Hj.
    + intros t. rewrite H0. lia.
  - intros t x. rewrite schedule_of_lookup. cbn. by rewrite H0.
Qed.

(** What an element does outside its timers' callbacks. *)
Lemma idle_perform_all es s :
  idle s -> Forall (allowed s) es ->
  exists s', perform_all es s = Ok s' /\ idle s' /\ replay (_timer_check s) es (schedule_of (timers s)) = Some (schedule_of (timers s')).
Proof.
  intros Hi Ha. destruct (perform_all_ran 0 es s (idle_inv _ Hi) Ha) as (s' & E & R).
  exists s'. split_and!; [done|by eapply idle_ran|by apply (ran_replay _ _ _ _ R)].
Qed.

(** Three timers; 0 schedules itself again, 1 unschedules 2, and all have expired. *)
Definition example_timers : gmap nat Timer :=
  <[0%nat := mkTimer 0 0 (Some 0%nat)]> (<[1%nat := mkTimer 0 0 (Some 0%nat)]> (<[2%nat := mkTimer 0 0 (Some 0%nat)]> ∅)).
Definition example_callback (t : nat) (s : TimerSet) : list Event :=
  match t with
  | 0%nat => if bool_decide (is_Some (_owner (timer s 0))) then [ESchedule 0 8000000000] else []
  | 1%nat => [EUnschedule 2]
  | _ => []
  end.
Definition example_set : TimerSet :=
  match perform_all [ESchedule 2 5000000003; ESchedule 1 5000000002; ESchedule 0 5000000001] (TimerSet_new 5000000000 example_timers) with
  | Ok s => s
  | Fault _ => TimerSet_new 0 ∅
  end.

Lemma example_idle : idle example_set.
Proof.
  destruct (idle_perform_all [ESchedule 2 5000000003; ESchedule 1 5000000002; ESchedule 0 5000000001] (TimerSet_new 5000000000 example_timers)) as (s & E & Hi & _).
  - apply idle_new. intros t. unfold pos_of, timer_in, example_timers. rewrite !lookup_insert. by repeat case_decide.
  - repeat constructor; by eexists.
  - unfold example_set. rewrite E. exact Hi.
Qed.

Lemma example_callback_allowed t s : Forall (allowed s) (example_callback t s).
Proof.
  destruct t as [|[|t]]; cbn; [|by repeat constructor|done]. case_bool_decide; by repeat constructor.
Qed.

Lemma run_timers_refines_witness :
  exists s' es, run_timers example_callback false 6000000000 example_set = Ok (s', es) /\
    es = [ERun 0 5000000001; ESchedule 0 8000000000; ERun 1 5000000002; EUnschedule 2] /\
    replay 6000000000 es (schedule_of (timers example_set)) = Some (schedule_of (timers s')).
Proof.
  destruct (run_timers_refines example_callback example_callback_allowed false 6000000000 example_set example_idle)
    as (s' & es & E & _ & Hr & _).
  exists s', es. split_and!; [done| |done]. vm_compute in E. by injection E as <- <-.
Defined.

(** ** Killing a router *)

Lemma coherent_ext i h c ts ts' :
  (forall t, pos_of ts' t = pos_of ts t) -> (forall t, _expiry_s (timer_in ts' t) = _expiry_s (timer_in ts t)) ->
  coherent i h c ts -> coherent i h c ts'.
Proof.
  intros Hp Hx [C1 C2 C3 C4 C5 C6]. split; [|done| | | |].
  - intros k e Hk. unfold pos_recorded. rewrite Hp. by apply C1.
  - intros e t. rewrite Hx. apply C3.
  - intros t. rewrite Hp. apply C4.
  - intros j t. rewrite Hp. apply C5.
  - intros t. rewrite Hp. apply C6.
Qed.

(** From [s] to [s'], some timers of [router] are no longer scheduled. *)
Definition killed (router : nat) (s s' : TimerSet) : Prop :=
  forall t, schedule_of (timers s') !! t = schedule_of (timers s) !! t /\ _owner (timer s' t) = _owner (timer s t) \/
    schedule_of (timers s') !! t = None /\ _owner (timer s t) = Some router.

Lemma kill_step router s n e :
  timer_inv 0 s -> _timer_heap s !! n = Some e -> _owner (timer s e.2) = Some router ->
  exists s0, remove_at n s = Ok s0 /\
    let s1 := set_timers (<[e.2 := mkTimer (_expiry_s (timer s0 e.2)) 0 None]> (timers s0)) s0 in
    timer_inv 0 s1 /\ length (_timer_heap s) = S (length (_timer_heap s1)) /\ _timer_runchunk s1 = _timer_runchunk s /\ killed router s s1 /\
    schedule_of (timers s1) !! e.2 = None.
Proof.
  intros Hi Hn Ho.
  destruct (taken_spec 0 n e s 0 _ Hi Hn (or_introl (conj eq_refl eq_refl))) as (h' & ts' & -> & R1 & R2 & R3 & R4 & R5 & _).
  eexists. split; [done|]. cbn in *.
  set (ts1 := <[e.2 := _]> ts').
  assert (forall t, pos_of ts1 t = pos_of (set_schedpos1 e.2 0 ts') t) as Hp.
  { intros t. unfold ts1. by rewrite pos_of_insert, pos_of_set. }
  assert (forall t, _expiry_s (timer_in ts1 t) = _expiry_s (timer_in (set_schedpos1 e.2 0 ts') t)) as Hx.
  { intros t. unfold ts1. rewrite timer_in_insert, expiry_set. by destruct (decide (t = e.2)) as [->|]. }
  split_and!.
  - split; [done|]. by apply (coherent_ext _ _ _ (set_schedpos1 e.2 0 ts')).
  - rewrite <- R3, length_app. cbn. lia.
  - done.
  - intros t. cbn. rewrite schedule_of_lookup, Hp, Hx, <- schedule_of_lookup, R5. destruct (decide (t = e.2)) as [->|Hne].
    + right. by rewrite lookup_delete_eq.
    + left. rewrite lookup_delete_ne by done. split; [done|]. rewrite <- R4, owner_set.
      change (_owner (timer_in ts1 t) = _owner (timer_in ts' t)). unfold ts1. by rewrite timer_in_insert, decide_False.
  - by rewrite schedule_of_lookup, Hp, Hx, <- schedule_of_lookup, R5, lookup_delete_eq.
Qed.

Lemma killed_trans router s1 s2 s3 : killed router s1 s2 -> killed router s2 s3 -> killed router s1 s3.
Proof.
  intros H1 H2 t. destruct (H1 t) as [[A1 A2]|[A1 A2]], (H2 t) as [[B1 B2]|[B1 B2]].
  - left. split; congruence.
  - right. split; congruence.
  - right. split; congruence.
  - by right.
Qed.

Lemma kill_loop_spec router n s :
  timer_inv 0 s -> (n <= length (_timer_heap s))%nat ->
  exists s', kill_loop router n s = Ok s' /\ timer_inv 0 s' /\ _timer_runchunk s' = _timer_runchunk s /\ killed router s s'.
Proof.
  revert s. induction n as [|n IH]; intros s Hi Hn; cbn [kill_loop].
  { exists s. split_and!; [done..|]. by left. }
  destruct (lookup_lt_is_Some_2 (_timer_heap s) n) as [e He]; [lia|]. rewrite He. case_bool_decide as Ho; [|by apply IH; [|lia]].
  destruct (kill_step router s n e Hi He Ho) as (s0 & -> & K1 & K2 & K3 & K4 & _). cbn [mbind res_bind].
  set (s1 := set_timers _ s0) in *. clearbody s1. destruct (IH s1 K1) as (s' & -> & G1 & G2 & G3); [lia|].
  exists s'. split_and!; [done|done|congruence|by eapply killed_trans].
Qed.

Lemma heap_scheduled i s n e :
  timer_inv i s -> _timer_heap s !! n = Some e -> is_Some (schedule_of (timers s) !! e.2).
Proof.
  intros [_ Hc] Hn. pose proof (co_placed _ _ _ _ Hc n e Hn) as Hp. unfold pos_recorded in Hp.
  rewrite schedule_of_lookup, (proj2 (Z.eqb_neq _ _)) by lia. by eexists.
Qed.

Lemma scheduled_heap s t x :
  timer_inv 0 s -> _timer_runchunk s = [] -> schedule_of (timers s) !! t = Some x ->
  exists n e, _timer_heap s !! n = Some e /\ e.2 = t.
Proof.
  intros Hi Hr Ht. rewrite schedule_of_lookup in Ht. destruct (Z.eqb_spec (pos_of (timers s) t) 0) as [|Hp]; [done|].
  pose proof (none_waiting 0 s t Hi ltac:(rewrite Hr; cbn; lia)) as Hneg. destruct Hi as [_ Hc].
  pose proof (co_only _ _ _ _ Hc t ltac:(lia)) as Hin. apply list_elem_of_fmap in Hin as (e & -> & He).
  apply list_elem_of_lookup_1 in He as [n Hn]. by exists n, e.
Qed.

Lemma killed_stays router s s' t : killed router s s' -> schedule_of (timers s) !! t = None -> schedule_of (timers s') !! t = None.
Proof. intros H Ht. destruct (H t) as [[A _]|[A _]]; congruence. Qed.

Lemma kill_loop_some router n s p e :
  timer_inv 0 s -> (p < n <= length (_timer_heap s))%nat -> _timer_heap s !! p = Some e -> _owner (timer s e.2) = Some router ->
  exists s' t x, kill_loop router n s = Ok s' /\ schedule_of (timers s) !! t = Some x /\ _owner (timer s t) = Some router /\
    schedule_of (timers s') !! t = None.
Proof.
  intros Hi Hn Hp Ho. induction n as [|n IH]; cbn [kill_loop]; [lia|].
  destruct (lookup_lt_is_Some_2 (_timer_heap s) n) as [e' He]; [lia|]. rewrite He. case_bool_decide as Ho'.
  - destruct (kill_step router s n e' Hi He Ho') as (s0 & -> & K1 & K2 & K3 & K4 & K5). cbn [mbind res_bind].
    set (s1 := set_timers _ s0) in *. clearbody s1. destruct (kill_loop_spec router n s1 K1) as (s' & -> & G1 & G2 & G3); [lia|].
    destruct (heap_scheduled 0 s n e' Hi He) as [x Hx]. exists s', e'.2, x. split_and!; [done..|]. by eapply killed_stays.
  - assert (p <> n) by congruence. apply IH. lia.
Qed.

Lemma kill_loop_all router s n :
  timer_inv 0 s -> length (_timer_heap s) = n ->
  (forall t x, schedule_of (timers s) !! t = Some x -> _owner (timer s t) = Some router) ->
  exists s', kill_loop router n s = Ok s' /\ _timer_heap s' = [].
Proof.
  revert s. induction n as [|n IH]; intros s Hi Hn Ho; cbn [kill_loop]; [exists s; by destruct (_timer_heap s)|].
  destruct (lookup_lt_is_Some_2 (_timer_heap s) n) as [e He]; [lia|]. rewrite He.
  destruct (heap_scheduled 0 s n e Hi He) as [x Hx]. rewrite bool_decide_eq_true_2 by (by eapply Ho).
  destruct (kill_step router s n e Hi He (Ho _ _ Hx)) as (s0 & -> & K1 & K2 & K3 & K4 & K5). cbn [mbind res_bind].
  apply IH; [done|lia|]. intros t y Hy. destruct (K4 t) as [[A1 A2]|[A1 _]]; [|congruence]. rewrite A2. apply (Ho t y). congruence.
Qed.

(** C34: [TimerSet::kill_router], when a router goes, keeps the set of timers in order
    for the routers that stay.  It returns with the heap, the positions that the timers
    record and [_timer_expiry] consistent, whatever was scheduled.  A timer that it
    unschedules is of that router, and every other timer keeps its owner and its expiry.
    If the router has a timer scheduled, one at least is unscheduled, so that the timer
    of a router with only one is always gone; and if all scheduled timers are of that
    router, none is left.  (That all of its timers are unscheduled does not hold in
    general: [kill_router_misses_timer].) *)
Theorem kill_router_safe router s :
  idle s -> exists s', kill_router router s = Ok s' /\ idle s' /\ killed router s s' /\
    (forall t x, schedule_of (timers s) !! t = Some x -> _owner (timer s t) = Some router ->
      exists t' x', schedule_of (timers s) !! t' = Some x' /\ _owner (timer s t') = Some router /\ schedule_of (timers s') !! t' = None) /\
    ((forall t x, schedule_of (timers s) !! t = Some x -> _owner (timer s t) = Some router) -> schedule_of (timers s') = ∅).
Proof.
  intros [H1 H2 H3 H4]. unfold kill_router. rewrite H2. cbn [length Nat.eqb].
  destruct (kill_loop_spec router _ s H1 (le_n _)) as (s' & E & G1 & G2 & G3). rewrite E. cbn [mbind res_bind].
  eexists. split; [done|]. split_and!.
  - split; [by destruct G1|cbn; congruence|done|].
    intros t x Hx. change (timer (set_timer_expiry s') t) with (timer s' t). change (schedule_of (timers s') !! t = Some x) in Hx.
    destruct (G3 t) as [[A1 A2]|[A1 A2]]; [|congruence]. rewrite A2. apply (H4 t x). congruence.
  - exact G3.
  - intros t x Hx Ho. destruct (scheduled_heap s t x H1 H2 Hx) as (p & e & Hp & <-). pose proof (lookup_lt_Some _ _ _ Hp).
    destruct (kill_loop_some router (length (_timer_heap s)) s p e H1 ltac:(lia) Hp Ho) as (s1 & t' & x' & E1 & K). rewrite E in E1. injection E1 as <-. by exists t', x'.
  - intros Ho. destruct (kill_loop_all router s _ H1 eq_refl Ho) as (s1 & E1 & Hh). rewrite E in E1. injection E1 as <-.
    apply map_eq. intros t. rewrite lookup_empty. change (schedule_of (timers s') !! t = None).
    destruct (schedule_of (timers s') !! t) as [x|] eqn:Ex; [|done]. exfalso.
    destruct (scheduled_heap s' t x G1 ltac:(congruence) Ex) as (p & e & Hp & _). by rewrite Hh in Hp.
Qed.

(** Timers 0 to 8 in a heap; 1 and 4 are of router 1, the others of router 0. *)
Definition shared_expiries : list Z := [1; 10; 2; 3; 11; 12; 13; 14; 4].
Definition shared_timers : gmap nat Timer :=
  list_to_map (imap (fun t _ => (t, mkTimer 0 0 (Some (if (t =? 1)%nat || (t =? 4)%nat then 1%nat else 0%nat)))) shared_expiries).
Definition shared_set : TimerSet :=
  match perform_all (imap ESchedule shared_expiries) (TimerSet_new 1 shared_timers) with
  | Ok s => s
  | Fault _ => TimerSet_new 0 ∅
  end.

Lemma shared_idle : idle shared_set.
Proof.
  unfold shared_set. destruct (idle_perform_all (imap ESchedule shared_expiries) (TimerSet_new 1 shared_timers)) as (s & E & Hi & _).
  - apply idle_new. intros t. unfold pos_of, timer_in. destruct (shared_timers !! t) as [tm|] eqn:E; [|done].
    apply elem_of_list_to_map_2, elem_of_lookup_imap in E as (i & x & [= -> ->] & _). done.
  - unfold shared_expiries. cbn [imap]. repeat constructor; vm_compute; by eexists.
  - rewrite E. exact Hi.
Qed.

(** Of the timers 1 and 4 of router 1 at least one is unscheduled; the timers of router
    0 stay. *)
Lemma kill_router_safe_witness :
  exists s', kill_router 1 shared_set = Ok s' /\ schedule_of (timers s') !! 0%nat = Some 1 /\
    exists t', _owner (timer shared_set t') = Some 1%nat /\ schedule_of (timers s') !! t' = None.
Proof.
  destruct (kill_router_safe 1 shared_set shared_idle) as (s' & E & _ & K & Some1 & _). exists s'. split; [exact E|]. split.
  - destruct (K 0%nat) as [[A _]|[_ B]]; [|vm_compute in B; discriminate B]. rewrite A. vm_compute. reflexivity.
  - destruct (Some1 4%nat 11) as (t' & x' & _ & B & C); [vm_compute; reflexivity..|]. exists t'. split; [exact B|exact C].
Defined.

(** [TimerSet::kill_router] walks the heap from its end and removes the router's
    timers one by one, but the element that [remove_heap] moves into the place of one
    may have to move up, which moves a parent down to a position that has been passed.
    So a timer of the router can stay scheduled, to fire when its element is gone: of
    the two timers of router 1, one is left. *)
Theorem kill_router_misses_timer :
  exists s', kill_router 1 shared_set = Ok s' /\
    schedule_of (timers shared_set) !! 1%nat = Some 10 /\ schedule_of (timers shared_set) !! 4%nat = Some 11 /\
    schedule_of (timers s') !! 4%nat = None /\
    schedule_of (timers s') !! 1%nat = Some 10 /\ _owner (timer s' 1) = Some 1%nat.
Proof.
  assert (exists s', kill_router 1 shared_set = Ok s') as [s' E] by (vm_compute; by eexists).
  exists s'. split; [done|]. vm_compute in E. injection E as <-. vm_compute. done.
Qed.
