(* ===== verification/Queues.v ===== *)
(** * Queues: the packet queues of elements/standard

    [Storage] (include/click/standard/storage.hh) is a ring of [_capacity + 1] slots
    with a head and a tail index; SimpleQueue stores packets in it, NotifierQueue,
    FullNoteQueue (the element Queue) and QuickNoteQueue add signals for queues that
    are empty or full, MixedQueue and FrontDropQueue change which packet is dropped.

    A slot that has not been written since the ring was allocated is [None]: using its
    contents as a packet is a fault.  Packets that are killed or pushed to the second
    output are part of an operation's result. *)

From S2P Require Import Prelude.

Section queues.
Context {P : Type}.

(** [Storage] and [SimpleQueue] *)
Record SimpleQueue := mkSimpleQueue {
  _q : list (option P);
  _capacity : Z;
  _head : Z;
  _tail : Z;
  _drops : Z;
  _highwater_length : Z
}.

(** ** Storage *)

Definition next_i (cap i : Z) : Z := if i =? cap then 0 else u32 (i + 1).
Definition prev_i (cap i : Z) : Z := if i =? 0 then cap else u32 (i - 1).
Definition size_between (cap head tail : Z) : Z :=
  let x := u32 (tail - head) in
  if 0 <=? i32 x then i32 x else i32 (u32 (cap + x + 1)).
Definition size (q : SimpleQueue) : Z := size_between (_capacity q) (_head q) (_tail q).
Definition next (q : SimpleQueue) : Z -> Z := next_i (_capacity q).
Definition prev (q : SimpleQueue) : Z -> Z := prev_i (_capacity q).

Definition set_head (h : Z) (q : SimpleQueue) : SimpleQueue := mkSimpleQueue (_q q) (_capacity q) h (_tail q) (_drops q) (_highwater_length q).
Definition set_tail (t : Z) (q : SimpleQueue) : SimpleQueue := mkSimpleQueue (_q q) (_capacity q) (_head q) t (_drops q) (_highwater_length q).
Definition set_slots (l : list (option P)) (q : SimpleQueue) : SimpleQueue := mkSimpleQueue l (_capacity q) (_head q) (_tail q) (_drops q) (_highwater_length q).
Definition add_drop (q : SimpleQueue) : SimpleQueue := mkSimpleQueue (_q q) (_capacity q) (_head q) (_tail q) (i32 (_drops q + 1)) (_highwater_length q).
Definition set_highwater (n : Z) (q : SimpleQueue) : SimpleQueue := mkSimpleQueue (_q q) (_capacity q) (_head q) (_tail q) (_drops q) n.
Definition raise_highwater (s : Z) (q : SimpleQueue) : SimpleQueue := if _highwater_length q <? s then set_highwater s q else q.

(** The packet in a slot, and a slot's assignment. *)
Definition get_in (slots : list (option P)) (i : Z) : res P :=
  match slots !! Z.to_nat i with
  | None => Fault OutOfBounds
  | Some None => Fault NullDeref
  | Some (Some p) => Ok p
  end.
Definition put_in (i : Z) (p : P) (slots : list (option P)) : res (list (option P)) :=
  if (Z.to_nat i <? length slots)%nat then Ok (<[Z.to_nat i := Some p]> slots) else Fault OutOfBounds.
Definition get (q : SimpleQueue) (i : Z) : res P := get_in (_q q) i.
Definition put (i : Z) (p : P) (q : SimpleQueue) : res SimpleQueue := let* l := put_in i p (_q q) in Ok (set_slots l q).

(** ** SimpleQueue *)

Definition SimpleQueue_new (capacity : Z) : SimpleQueue := mkSimpleQueue [] capacity 0 0 0 0.

(** The capacity of the configuration string, if there is one. *)
Definition configure (capacity : option Z) (q : SimpleQueue) : SimpleQueue :=
  mkSimpleQueue (_q q) (default 1000 capacity) (_head q) (_tail q) (_drops q) (_highwater_length q).

Definition allocate (capacity : Z) : list (option P) := replicate (Z.to_nat (u32 (capacity + 1))) None.

Definition initialize (q : SimpleQueue) : res SimpleQueue :=
  assert* ((length (_q q) =? 0)%nat && (_head q =? 0) && (_tail q =? 0));
  Ok (mkSimpleQueue (allocate (_capacity q)) (_capacity q) 0 0 0 0).

(** The new queue, whether the packet is in it, and the packets that are killed. *)
Definition enq (p : P) (q : SimpleQueue) : res (SimpleQueue * bool * list P) :=
  let h := _head q in
  let t := _tail q in
  let nt := next q t in
  if negb (nt =? h) then
    let* q := put t p q in
    Ok (raise_highwater (size_between (_capacity q) h nt) (set_tail nt q), true, [])
  else Ok (add_drop q, false, [p]).

Definition lifo_enq (p : P) (q : SimpleQueue) : res (SimpleQueue * list P) :=
  let h := _head q in
  let t := _tail q in
  let ph := prev q h in
  let* r :=
    (if ph =? t then
       let t := prev q t in
       let* old := get q t in Ok (set_tail t q, [old])
     else Ok (q, [])) in
  let '(q, killed) := r in
  let* q := put ph p q in
  Ok (set_head ph q, killed).

Definition deq (q : SimpleQueue) : res (SimpleQueue * option P) :=
  let h := _head q in
  let t := _tail q in
  if negb (h =? t) then
    let* p := get q h in Ok (set_head (next q h) q, Some p)
  else Ok (q, None).

Definition fuel_of (q : SimpleQueue) : nat := S (Z.to_nat (_capacity q)).

(** The packets before position [trav] move up by one. *)
Fixpoint shift_loop (fuel : nat) (trav prev_ : Z) (q : SimpleQueue) : res SimpleQueue :=
  match fuel with
  | O => Fault StackOverflow
  | S fuel =>
      if negb (trav =? _head q) then
        let* p := get q prev_ in
        let* q := put trav p q in
        shift_loop fuel prev_ (prev q prev_) q
      else Ok q
  end.

Fixpoint yank1_loop (filter : P -> bool) (fuel : nat) (trav : Z) (q : SimpleQueue) : res (SimpleQueue * option P) :=
  match fuel with
  | O => Fault StackOverflow
  | S n =>
      if negb (trav =? _tail q) then
        let* p := get q trav in
        if filter p then
          let* q := shift_loop (fuel_of q) trav (prev q trav) q in
          Ok (set_head (next q (_head q)) q, Some p)
        else yank1_loop filter n (next q trav) q
      else Ok (q, None)
  end.
Definition yank1 (filter : P -> bool) (q : SimpleQueue) : res (SimpleQueue * option P) :=
  yank1_loop filter (fuel_of q) (_head q) q.

Fixpoint yank1_peek_loop (filter : P -> bool) (fuel : nat) (trav : Z) (q : SimpleQueue) : res (option P) :=
  match fuel with
  | O => Fault StackOverflow
  | S n =>
      if negb (trav =? _tail q) then
        let* p := get q trav in
        if filter p then Ok (Some p) else yank1_peek_loop filter n (next q trav) q
      else Ok None
  end.
Definition yank1_peek (filter : P -> bool) (q : SimpleQueue) : res (option P) :=
  yank1_peek_loop filter (fuel_of q) (_head q) q.

Fixpoint yank_loop (filter : P -> bool) (fuel : nat) (trav write_ptr : Z) (yanked : list P) (q : SimpleQueue)
    : res (SimpleQueue * list P) :=
  match fuel with
  | O => Fault StackOverflow
  | S n =>
      if negb (trav =? _head q) then
        let trav := prev q trav in
        let* p := get q trav in
        if filter p then yank_loop filter n trav write_ptr (yanked ++ [p]) q
        else
          let write_ptr := prev q write_ptr in
          let* q := put write_ptr p q in
          yank_loop filter n trav write_ptr yanked q
      else Ok (set_head write_ptr q, yanked)
  end.
Definition yank (filter : P -> bool) (q : SimpleQueue) : res (SimpleQueue * list P) :=
  yank_loop filter (fuel_of q) (_tail q) (_tail q) [] q.

(** The packets from position [i] on, which are killed. *)
Fixpoint kill_from (fuel : nat) (i : Z) (q : SimpleQueue) : res (list P) :=
  match fuel with
  | O => Fault StackOverflow
  | S n =>
      if negb (i =? _tail q) then
        let* p := get q i in
        let* r := kill_from n (next q i) q in Ok (p :: r)
      else Ok []
  end.

(** The packets of [q] from [i] on are copied to [new_q] from [j] on, as long as
    there is room for them. *)
Fixpoint copy_loop (fuel : nat) (limit i j : Z) (q : SimpleQueue) (new_q : list (option P)) : res (Z * Z * list (option P)) :=
  match fuel with
  | O => Fault StackOverflow
  | S n =>
      if negb (i =? _tail q) && negb (j =? limit) then
        let* p := get q i in
        let* new_q := put_in j p new_q in
        copy_loop n limit (next q i) (u32 (j + 1)) q new_q
      else Ok (i, j, new_q)
  end.

Definition live_reconfigure (capacity : option Z) (q : SimpleQueue) : res (SimpleQueue * list P) :=
  let new_capacity := _capacity (configure capacity q) in
  if (new_capacity =? _capacity q) || (length (_q q) =? 0)%nat then Ok (configure capacity q, [])
  else
    let* r := copy_loop (fuel_of q) new_capacity (_head q) 0 q (allocate new_capacity) in
    let '(i, j, new_q) := r in
    let* killed := kill_from (fuel_of q) i q in
    Ok (mkSimpleQueue new_q new_capacity 0 j (_drops q) (_highwater_length q), killed).

(** [q] takes the packets of [old]: both queues, the packets that are killed, and
    whether there was an error. *)
Definition take_state (old q : SimpleQueue) : res (SimpleQueue * SimpleQueue * list P * bool) :=
  if negb (_tail q =? _head q) || negb (_head q =? 0) then Ok (old, q, [], true)
  else
    let* r := copy_loop (fuel_of old) (_capacity q) (_head old) 0 old (_q q) in
    let '(j, i, slots) := r in
    let q := set_tail i (set_head 0 (set_slots slots q)) in
    let q := set_highwater (size q) q in
    let* killed := kill_from (fuel_of old) j old in
    Ok (set_tail 0 (set_head 0 old), q, killed, false).

Definition cleanup (q : SimpleQueue) : res (SimpleQueue * list P) :=
  let* killed := kill_from (fuel_of q) (_head q) q in Ok (set_slots [] q, killed).

(** The new queue and what leaves through the second output. *)
Definition push (p : P) (q : SimpleQueue) : res (SimpleQueue * list P) :=
  let h := _head q in
  let t := _tail q in
  let nt := next q t in
  if negb (nt =? h) then
    let* q := put t p q in
    Ok (raise_highwater (size_between (_capacity q) h nt) (set_tail nt q), [])
  else Ok (add_drop q, [p]).

Definition pull : SimpleQueue -> res (SimpleQueue * option P) := deq.

Fixpoint reset_loop (fuel : nat) (q : SimpleQueue) : res (SimpleQueue * list P) :=
  match fuel with
  | O => Fault StackOverflow
  | S n =>
      let* r := pull q in
      match r with
      | (q, Some p) => let* r := reset_loop n q in Ok (r.1, p :: r.2)
      | (q, None) => Ok (q, [])
      end
  end.
Definition reset (q : SimpleQueue) : res (SimpleQueue * list P) := reset_loop (fuel_of q) q.

Definition reset_counts (q : SimpleQueue) : SimpleQueue :=
  mkSimpleQueue (_q q) (_capacity q) (_head q) (_tail q) 0 (size q).

(** ** Queues with signals *)

Record NotifierQueue := mkNotifierQueue {
  simple : SimpleQueue;
  _sleepiness : Z;
  _empty_note : bool;
  _full_note : bool
}.
Definition SLEEPINESS_TRIGGER : Z := 9.

Definition wake_empty (n : NotifierQueue) : NotifierQueue := mkNotifierQueue (simple n) (_sleepiness n) true (_full_note n).
Definition sleep_empty (n : NotifierQueue) : NotifierQueue := mkNotifierQueue (simple n) (_sleepiness n) false (_full_note n).
Definition wake_full (n : NotifierQueue) : NotifierQueue := mkNotifierQueue (simple n) (_sleepiness n) (_empty_note n) true.
Definition sleep_full (n : NotifierQueue) : NotifierQueue := mkNotifierQueue (simple n) (_sleepiness n) (_empty_note n) false.
Definition set_sleepiness (k : Z) (n : NotifierQueue) : NotifierQueue := mkNotifierQueue (simple n) k (_empty_note n) (_full_note n).
Definition set_simple (q : SimpleQueue) (n : NotifierQueue) : NotifierQueue := mkNotifierQueue q (_sleepiness n) (_empty_note n) (_full_note n).

(** Going to sleep, and waking up again when there are packets after all. *)
Definition doze_empty (n : NotifierQueue) : NotifierQueue :=
  let n := sleep_empty n in if negb (size (simple n) =? 0) then wake_empty n else n.
Definition doze_full (n : NotifierQueue) : NotifierQueue :=
  let n := sleep_full n in if size (simple n) <? _capacity (simple n) then wake_full n else n.

Definition NotifierQueue_push (p : P) (n : NotifierQueue) : res (NotifierQueue * list P) :=
  let q := simple n in
  let h := _head q in
  let t := _tail q in
  let nt := next q t in
  if negb (nt =? h) then
    let* q := put t p q in
    let q := raise_highwater (size_between (_capacity q) h nt) (set_tail nt q) in
    Ok (wake_empty (set_simple q n), [])
  else Ok (set_simple (add_drop q) n, [p]).

Definition NotifierQueue_pull (n : NotifierQueue) : res (NotifierQueue * option P) :=
  let* r := deq (simple n) in
  let n := set_simple r.1 n in
  match r.2 with
  | Some p => Ok (set_sleepiness 0 n, Some p)
  | None => Ok (if SLEEPINESS_TRIGGER <=? _sleepiness n then doze_empty n else set_sleepiness (_sleepiness n + 1) n, None)
  end.

Definition push_success (h t nt : Z) (p : P) (n : NotifierQueue) : res NotifierQueue :=
  let* q := put t p (simple n) in
  let s := size_between (_capacity q) h nt in
  let n := wake_empty (set_simple (raise_highwater s (set_tail nt q)) n) in
  Ok (if s =? _capacity q then doze_full n else n).
Definition push_failure (p : P) (n : NotifierQueue) : NotifierQueue * list P := (set_simple (add_drop (simple n)) n, [p]).
Definition pull_success (h nh : Z) (n : NotifierQueue) : res (NotifierQueue * option P) :=
  let* p := get (simple n) h in
  Ok (wake_full (set_sleepiness 0 (set_simple (set_head nh (simple n)) n)), Some p).
Definition pull_failure (n : NotifierQueue) : NotifierQueue * option P :=
  (if SLEEPINESS_TRIGGER <=? _sleepiness n then doze_empty n else set_sleepiness (_sleepiness n + 1) n, None).

Definition FullNoteQueue_push (p : P) (n : NotifierQueue) : res (NotifierQueue * list P) :=
  let q := simple n in
  let h := _head q in
  let t := _tail q in
  let nt := next q t in
  if negb (nt =? h) then let* n := push_success h t nt p n in Ok (n, []) else Ok (push_failure p n).

Definition FullNoteQueue_pull (n : NotifierQueue) : res (NotifierQueue * option P) :=
  let q := simple n in
  let h := _head q in
  let t := _tail q in
  let nh := next q h in
  if negb (h =? t) then pull_success h nh n else Ok (pull_failure n).

Definition FullNoteQueue_live_reconfigure (capacity : option Z) (n : NotifierQueue) : res (NotifierQueue * list P) :=
  let* r := live_reconfigure capacity (simple n) in
  let n := set_simple r.1 n in
  Ok (if (size r.1 <? _capacity r.1) && negb (length (_q r.1) =? 0)%nat then wake_full n else n, r.2).

Definition QuickNoteQueue_pull (n : NotifierQueue) : res (NotifierQueue * option P) :=
  let q := simple n in
  let h := _head q in
  let t := _tail q in
  let* r :=
    (if negb (h =? t) then
       let* p := get q h in
       let h := next q h in
       Ok (wake_full (set_simple (set_head h q) n), Some p, h)
     else Ok (n, None, h)) in
  let '(n, p, h) := r in
  Ok (if h =? t then doze_empty n else n, p).

(** [wake] of the two queues that test the signal first *)
Definition note_first (n : NotifierQueue) : NotifierQueue :=
  let s := size (simple n) in
  let n := set_simple (raise_highwater s (simple n)) n in
  if (s =? 1) && negb (_empty_note n) then wake_empty n else n.

Definition MixedQueue_push (port : Z) (p : P) (n : NotifierQueue) : res (NotifierQueue * list P) :=
  let q := simple n in
  let h := _head q in
  let t := _tail q in
  let* r :=
    (if port =? 0 then
       let nt := next q t in
       if nt =? h then Ok (add_drop q, [p])
       else let* q := put t p q in Ok (set_tail nt q, [])
     else
       let ph := prev q h in
       let* r :=
         (if ph =? t then
            let q := add_drop q in
            let t := prev q t in
            let* old := get q t in Ok (set_tail t q, [old])
          else Ok (q, [])) in
       let '(q, oldp) := r in
       let* q := put ph p q in
       Ok (set_head ph q, oldp)) in
  Ok (note_first (set_simple r.1 n), r.2).

Definition FrontDropQueue_push (p : P) (n : NotifierQueue) : res (NotifierQueue * list P) :=
  let q := simple n in
  let next_ := next q (_tail q) in
  let* r :=
    (if next_ =? _head q then
       let* old := get q (_head q) in
       let q := add_drop q in Ok (set_head (next q (_head q)) q, [old])
     else Ok (q, [])) in
  let '(q, out) := r in
  let* q := put (_tail q) p q in
  Ok (note_first (set_simple (set_tail next_ q) n), out).

Definition slot_at (slots : list (option P)) (i : Z) : option (option P) :=
  if i <? Z.of_nat (length slots) then slots !! Z.to_nat i else None.

(** The loop of its [live_reconfigure], from the newest packet down. *)
Fixpoint copy_down (fuel : nat) (i j : Z) (q : SimpleQueue) (new_q : list (option P)) : res (Z * Z * list (option P)) :=
  match fuel with
  | O => Fault StackOverflow
  | S n =>
      if negb (i =? _head q) then
        match slot_at (_q q) i with
        | None => Fault OutOfBounds
        | Some x =>
            let j := u32 (j - 1) in
            if j <? Z.of_nat (length new_q) then
              let new_q := <[Z.to_nat j := x]> new_q in
              if j =? 0 then Ok (i, j, new_q) else copy_down n (prev q i) j q new_q
            else Fault OutOfBounds
        end
      else Ok (i, j, new_q)
  end.

Fixpoint kill_down (fuel : nat) (i : Z) (q : SimpleQueue) : res (list P) :=
  match fuel with
  | O => Fault StackOverflow
  | S n =>
      if negb (i =? _head q) then
        let* p := get q i in
        let* r := kill_down n (prev q i) q in Ok (p :: r)
      else Ok []
  end.

Definition FrontDropQueue_live_reconfigure (capacity : option Z) (q : SimpleQueue) : res (SimpleQueue * list P) :=
  let new_capacity := _capacity (configure capacity q) in
  if (new_capacity =? _capacity q) || (length (_q q) =? 0)%nat then Ok (configure capacity q, [])
  else
    let* r := copy_down (fuel_of q) (u32 (_tail q - 1)) new_capacity q (allocate new_capacity) in
    let '(i, j, new_q) := r in
    let* killed := kill_down (fuel_of q) i q in
    Ok (mkSimpleQueue new_q new_capacity j new_capacity (_drops q) (_highwater_length q), killed).

Fixpoint take_down (fuel : nat) (i j : Z) (old : SimpleQueue) (slots : list (option P)) : res (Z * Z * list (option P)) :=
  match fuel with
  | O => Fault StackOverflow
  | S n =>
      if (0 <? i) && negb (j =? _head old) then
        let i := i - 1 in
        let j := prev old j in
        let* p := get old j in
        let* slots := put_in i p slots in
        take_down n i j old slots
      else Ok (i, j, slots)
  end.

Fixpoint kill_before (fuel : nat) (j : Z) (old : SimpleQueue) : res (list P) :=
  match fuel with
  | O => Fault StackOverflow
  | S n =>
      if negb (j =? _head old) then
        let j := prev old j in
        let* p := get old j in
        let* r := kill_before n j old in Ok (p :: r)
      else Ok []
  end.

Definition FrontDropQueue_take_state (old q : SimpleQueue) : res (SimpleQueue * SimpleQueue * list P * bool) :=
  if negb (_tail q =? _head q) || negb (_head q =? 0) then Ok (old, q, [], true)
  else
    let* r := take_down (fuel_of old) (_capacity q) (_tail old) old (_q q) in
    let '(i, j, slots) := r in
    let q := set_head i (set_tail (_capacity q) (set_slots slots q)) in
    let q := set_highwater (size q) q in
    let* killed := kill_before (fuel_of old) j old in
    Ok (set_tail 0 (set_head 0 old), q, killed, false).
End queues.
Arguments SimpleQueue : clear implicits.
Arguments NotifierQueue : clear implicits.
