(* ===== verification/QueuesProps.v ===== *)
(** * QueuesProps: queues refine bounded lists

    [ring q l]: the slots of [q] from its head up to its tail hold the packets [l].
    Every operation does to the list what it should, for any capacity below 2^31 - 1,
    and faults on none of them; the exceptions are shown.  A queue that replaces another
    takes its packets over and goes on as a list that starts with them. *)

From S2P Require Import Prelude Queues.

Section ring.
Context {P : Type}.
Implicit Types (q : SimpleQueue P) (l : list P) (p : P).

(** The index [k] slots after [i] in a ring of [cap + 1]. *)
Definition after (cap i : Z) (k : nat) : Z := (i + Z.of_nat k) mod (cap + 1).

Record ring q l : Prop := mkRing {
  ring_capacity : 0 <= _capacity q < 2 ^ 31 - 1;
  ring_slots : Z.of_nat (length (_q q)) = _capacity q + 1;
  ring_head : 0 <= _head q <= _capacity q;
  ring_length : Z.of_nat (length l) <= _capacity q;
  ring_tail : _tail q = after (_capacity q) (_head q) (length l);
  ring_holds : forall k p, l !! k = Some p -> _q q !! Z.to_nat (after (_capacity q) (_head q) k) = Some (Some p)
}.

Section index.
Context (cap : Z) (Hcap : 0 <= cap < 2 ^ 31 - 1).

Lemma after_range i k : 0 <= after cap i k <= cap.
Proof. unfold after. pose proof (Z.mod_pos_bound (i + Z.of_nat k) (cap + 1)). lia. Qed.

(** Within one turn. *)
Lemma after_cases i k : 0 <= i <= cap -> Z.of_nat k <= cap ->
  after cap i k = if i + Z.of_nat k <=? cap then i + Z.of_nat k else i + Z.of_nat k - (cap + 1).
Proof.
  intros Hi Hk. unfold after. destruct (Z.leb_spec (i + Z.of_nat k) cap) as [Hle|Hgt].
  - apply Z.mod_small. lia.
  - symmetry. apply (Z.mod_unique _ _ 1); lia.
Qed.

Lemma after_0 i : 0 <= i <= cap -> after cap i 0 = i.
Proof. intros Hi. rewrite after_cases by lia. destruct (Z.leb_spec (i + Z.of_nat 0) cap); lia. Qed.

Lemma after_after i j k : after cap (after cap i j) k = after cap i (j + k).
Proof. unfold after. rewrite Z.add_mod_idemp_l by lia. f_equal. lia. Qed.

Lemma next_after i : 0 <= i <= cap -> next_i cap i = after cap i 1.
Proof.
  intros Hi. unfold next_i. destruct (Z.eqb_spec i cap) as [->|Hn].
  - unfold after. by rewrite Z.mod_same by lia.
  - unfold after. rewrite Z.mod_small by lia. apply uwrap_id. zrange.
Qed.

Lemma next_after_k i k : next_i cap (after cap i k) = after cap i (S k).
Proof. rewrite next_after by apply after_range. rewrite after_after. f_equal. lia. Qed.

Lemma prev_after_k i k : prev_i cap (after cap i (S k)) = after cap i k.
Proof.
  pose proof (after_range i k) as Hr. replace (S k) with (k + 1)%nat by lia. rewrite <- after_after. set (x := after cap i k) in *.
  clearbody x. unfold prev_i. rewrite <- next_after by lia. unfold next_i. destruct (Z.eqb_spec x cap) as [->|Hn]; [done|].
  unfold u32. rewrite (uwrap_id 32) by zrange. destruct (Z.eqb_spec (x + 1) 0) as [|]; [lia|].
  replace (x + 1 - 1) with x by lia. apply uwrap_id. zrange.
Qed.

Lemma after_inj i j k : 0 <= i <= cap -> Z.of_nat j <= cap -> Z.of_nat k <= cap -> after cap i j = after cap i k -> j = k.
Proof.
  intros Hi Hj Hk. rewrite !after_cases by lia.
  destruct (Z.leb_spec (i + Z.of_nat j) cap), (Z.leb_spec (i + Z.of_nat k) cap); lia.
Qed.

Lemma after_turn i : 0 <= i <= cap -> after cap i (Z.to_nat cap + 1) = i.
Proof.
  intros Hi. unfold after. replace (i + Z.of_nat (Z.to_nat cap + 1)) with (i + 1 * (cap + 1)) by lia.
  rewrite Z_mod_plus_full. apply Z.mod_small. lia.
Qed.

Lemma size_between_after i k : 0 <= i <= cap -> Z.of_nat k <= cap -> size_between cap i (after cap i k) = Z.of_nat k.
Proof.
  intros Hi Hk. unfold size_between. rewrite after_cases by lia. unfold u32, i32.
  destruct (Z.leb_spec (i + Z.of_nat k) cap) as [Hle|Hgt].
  - replace (i + Z.of_nat k - i) with (Z.of_nat k) by lia. rewrite (uwrap_id 32) by zrange.
    rewrite (swrap_id 32 ltac:(lia)) by zrange. by rewrite (proj2 (Z.leb_le _ _)) by lia.
  - replace (i + Z.of_nat k - (cap + 1) - i) with (Z.of_nat k - (cap + 1)) by lia.
    assert (uwrap 32 (Z.of_nat k - (cap + 1)) = Z.of_nat k - (cap + 1) + 2 ^ 32) as ->.
    { unfold uwrap. symmetry. apply (Z.mod_unique _ _ (-1)); lia. }
    rewrite (swrap_eq_cong 32 _ (Z.of_nat k - (cap + 1)) 1) by lia. rewrite (swrap_id 32 ltac:(lia)) by zrange.
    rewrite (proj2 (Z.leb_gt _ _)) by lia. replace (cap + (Z.of_nat k - (cap + 1) + 2 ^ 32) + 1) with (Z.of_nat k + 1 * 2 ^ 32) by lia.
    unfold uwrap. rewrite Z_mod_plus_full, Z.mod_small by lia. apply swrap_id; [lia|]. zrange.
Qed.
End index.

Lemma ring_size q l : ring q l -> size q = Z.of_nat (length l).
Proof. intros [H1 H2 H3 H4 H5 H6]. unfold size. rewrite H5. by apply size_between_after. Qed.

(** The tail is the head exactly for the empty queue, and is behind it for a full one. *)
Lemma ring_empty q l : ring q l -> (_head q =? _tail q) = bool_decide (l = []).
Proof.
  intros [H1 H2 H3 H4 H5 H6]. rewrite H5. destruct (Z.eqb_spec (_head q) (after (_capacity q) (_head q) (length l))) as [E|E].
  - symmetry. apply bool_decide_eq_true_2. rewrite <- (after_0 (_capacity q) H1 (_head q) H3) in E at 1.
    apply nil_length_inv. by rewrite <- (after_inj _ _ 0%nat (length l) H3 ltac:(lia) H4 E).
  - symmetry. apply bool_decide_eq_false_2. intros ->. apply E. by rewrite after_0.
Qed.

Lemma ring_full q l : ring q l -> (next q (_tail q) =? _head q) = (Z.of_nat (length l) =? _capacity q).
Proof.
  intros [H1 H2 H3 H4 H5 H6]. unfold next. rewrite H5, next_after_k by done.
  destruct (Z.eqb_spec (Z.of_nat (length l)) (_capacity q)) as [E|E].
  - rewrite <- (Nat2Z.id (length l)), E, <- Nat.add_1_r, after_turn by done. by apply Z.eqb_refl.
  - apply Z.eqb_neq. intros E'. rewrite <- (after_0 (_capacity q) H1 (_head q) H3) in E' at 2.
    by pose proof (after_inj _ _ (S (length l)) 0%nat H3 ltac:(lia) ltac:(lia) E').
Qed.

Lemma ring_get q l k p : ring q l -> l !! k = Some p -> get q (after (_capacity q) (_head q) k) = Ok p.
Proof. intros [H1 H2 H3 H4 H5 H6] Hk. unfold get, get_in. by rewrite (H6 k p Hk). Qed.

Lemma ring_get_lt q l k : ring q l -> (k < length l)%nat -> exists p, l !! k = Some p /\ get q (after (_capacity q) (_head q) k) = Ok p.
Proof. intros Hr Hk. apply lookup_lt_is_Some_2 in Hk as [p Hp]. exists p. split; [done|by eapply ring_get]. Qed.

(** What an operation on a ring needs of the queue. *)
Lemma ring_same q q' l :
  _q q' = _q q -> _capacity q' = _capacity q -> _head q' = _head q -> _tail q' = _tail q -> ring q l -> ring q' l.
Proof. intros E1 E2 E3 E4 [H1 H2 H3 H4 H5 H6]. split; rewrite ?E1, ?E2, ?E3, ?E4; done. Qed.

(** Any slot of the ring can be assigned. *)
Lemma put_after q l i k p : ring q l -> put (after (_capacity q) i k) p q = Ok (set_slots (<[Z.to_nat (after (_capacity q) i k) := Some p]> (_q q)) q).
Proof.
  intros [H1 H2 H3 H4 H5 H6]. unfold put, put_in. pose proof (after_range (_capacity q) H1 i k).
  rewrite (proj2 (Nat.ltb_lt _ _)) by lia. done.
Qed.

Lemma ring_update q l k p :
  ring q l -> (k < length l)%nat ->
  exists q', put (after (_capacity q) (_head q) k) p q = Ok q' /\ ring q' (<[k := p]> l) /\ q' = set_slots (_q q') q.
Proof.
  intros Hr Hk. pose proof Hr as [H1 H2 H3 H4 H5 H6]. eexists. split; [by eapply put_after|]. split; [|done].
  split; cbn; rewrite ?length_insert; [done..|]. intros j p' Hj. pose proof (lookup_lt_Some _ _ _ Hj) as Hj'. rewrite length_insert in Hj'.
  destruct (decide (j = k)) as [->|Hn].
  - rewrite list_lookup_insert_eq in Hj by done. injection Hj as <-. apply list_lookup_insert_eq.
    pose proof (after_range (_capacity q) H1 (_head q) k). lia.
  - rewrite list_lookup_insert_ne in Hj by done. rewrite list_lookup_insert_ne; [by apply H6|].
    intros E. apply Hn. apply (after_inj (_capacity q) (_head q)); [done|lia|lia|].
    pose proof (after_range (_capacity q) H1 (_head q) k). pose proof (after_range (_capacity q) H1 (_head q) j). lia.
Qed.

(** A packet is put behind the tail, and before the head. *)
Lemma ring_push_tail q l p :
  ring q l -> Z.of_nat (length l) <> _capacity q ->
  exists q', put (_tail q) p q = Ok q' /\ ring (set_tail (next q (_tail q)) q') (l ++ [p]) /\ q' = set_slots (_q q') q.
Proof.
  intros Hr Hk. pose proof Hr as [H1 H2 H3 H4 H5 H6]. rewrite H5. eexists. split; [by eapply put_after|]. split; [|done].
  split; cbn; rewrite ?length_insert, ?length_app; cbn [length]; [done|done|done|lia| |].
  - unfold next. rewrite next_after_k by done. f_equal. lia.
  - intros j p' Hj. pose proof (after_range (_capacity q) H1 (_head q) (length l)).
    pose proof (after_range (_capacity q) H1 (_head q) j). apply lookup_app_Some in Hj as [Hj|[Hj1 Hj2]].
    + rewrite list_lookup_insert_ne; [by apply H6|]. intros E. apply lookup_lt_Some in Hj.
      pose proof (after_inj (_capacity q) (_head q) j (length l) H3 ltac:(lia) ltac:(lia) ltac:(lia)). lia.
    + apply list_lookup_singleton_Some in Hj2 as [Hj2 ->]. replace j with (length l) by lia. apply list_lookup_insert_eq. lia.
Qed.

Lemma prev_head q l k : ring q l -> after (_capacity q) (prev q (_head q)) (S k) = after (_capacity q) (_head q) k.
Proof.
  intros [H1 H2 H3 H4 H5 H6]. assert (_head q = after (_capacity q) (prev q (_head q)) 1) as E.
  { unfold prev. rewrite <- (after_turn (_capacity q) H1 (_head q) H3) at 2. rewrite Nat.add_1_r, prev_after_k by done.
    rewrite after_after by done. rewrite Nat.add_1_r, <- Nat.add_1_r. symmetry. by apply after_turn. }
  rewrite E at 2. rewrite after_after by done. f_equal.
Qed.

Lemma ring_push_front q l p :
  ring q l -> Z.of_nat (length l) <> _capacity q ->
  exists q', put (prev q (_head q)) p q = Ok q' /\ ring (set_head (prev q (_head q)) q') (p :: l) /\ q' = set_slots (_q q') q.
Proof.
  intros Hr Hk. pose proof Hr as [H1 H2 H3 H4 H5 H6]. set (ph := prev q (_head q)).
  assert (0 <= ph <= _capacity q) as Hph.
  { unfold ph, prev. rewrite <- (after_turn (_capacity q) H1 (_head q) H3). rewrite Nat.add_1_r, prev_after_k by done. by apply after_range. }
  pose proof (put_after q l ph 0 p Hr) as Hput. rewrite after_0 in Hput by done. eexists. split; [exact Hput|]. split; [|done].
  split; cbn; rewrite ?length_insert, ?after_0 by done; [done|done|done|lia| |].
  - rewrite H5. symmetry. by apply (prev_head q l).
  - intros [|j] p' Hj; cbn in Hj.
    + injection Hj as ->. rewrite after_0 by done. apply list_lookup_insert_eq. lia.
    + unfold ph at 2. rewrite (prev_head q l) by done. rewrite list_lookup_insert_ne; [by apply H6|].
      intros E. apply lookup_lt_Some in Hj. pose proof (after_range (_capacity q) H1 (_head q) j).
      assert (after (_capacity q) ph 0 = after (_capacity q) ph (S j)) as E2.
      { rewrite after_0 by done. unfold ph at 2. rewrite (prev_head q l) by done. lia. }
      by pose proof (after_inj _ _ 0%nat (S j) Hph ltac:(lia) ltac:(lia) E2).
Qed.

(** The first packets are taken away, and the last one. *)
Lemma ring_drop q l k : ring q l -> (k <= length l)%nat -> ring (set_head (after (_capacity q) (_head q) k) q) (drop k l).
Proof.
  intros [H1 H2 H3 H4 H5 H6] Hk. split; cbn; rewrite ?length_drop; [done|done|by apply after_range|lia| |].
  - rewrite H5, after_after by done. f_equal. lia.
  - intros j p. rewrite lookup_drop, after_after by done. apply H6.
Qed.

Lemma ring_pop q l p : ring q (p :: l) -> get q (_head q) = Ok p /\ ring (set_head (next q (_head q)) q) l.
Proof.
  intros Hr. pose proof Hr as [H1 H2 H3 H4 H5 H6]. rewrite <- (after_0 (_capacity q) H1 (_head q) H3) at 1.
  split; [by apply (ring_get q (p :: l) 0)|]. unfold next. rewrite next_after by done.
  change l with (drop 1 (p :: l)). apply ring_drop; [done|cbn; lia].
Qed.

Lemma ring_pop_last q l p : ring q (l ++ [p]) -> get q (prev q (_tail q)) = Ok p /\ ring (set_tail (prev q (_tail q)) q) l.
Proof.
  intros Hr. pose proof Hr as [H1 H2 H3 H4 H5 H6]. rewrite length_app in H4, H5. cbn in H4, H5.
  assert (prev q (_tail q) = after (_capacity q) (_head q) (length l)) as E.
  { unfold prev. rewrite H5, Nat.add_1_r. by apply prev_after_k. }
  rewrite E. split; [apply (ring_get q (l ++ [p]) _ p Hr); by apply list_lookup_middle|].
  split; cbn; [done|done|done|lia|done|]. intros k p' Hk. apply H6. by apply lookup_app_l_Some.
Qed.

(** ** Loops *)

Lemma at_tail q l k : ring q l -> (k <= length l)%nat -> (after (_capacity q) (_head q) k =? _tail q) = (k =? length l)%nat.
Proof.
  intros [H1 H2 H3 H4 H5 H6] Hk. rewrite H5. destruct (Nat.eqb_spec k (length l)) as [->|Hn]; [by apply Z.eqb_refl|].
  apply Z.eqb_neq. intros E. by pose proof (after_inj _ _ k (length l) H3 ltac:(lia) ltac:(lia) E).
Qed.

Lemma at_head q l k : ring q l -> (k <= length l)%nat -> (after (_capacity q) (_head q) k =? _head q) = (k =? 0)%nat.
Proof.
  intros [H1 H2 H3 H4 H5 H6] Hk. rewrite <- (after_0 (_capacity q) H1 (_head q) H3) at 2.
  destruct (Nat.eqb_spec k 0) as [->|Hn]; [by apply Z.eqb_refl|].
  apply Z.eqb_neq. intros E. by pose proof (after_inj _ _ k 0%nat H3 ltac:(lia) ltac:(lia) E).
Qed.

Lemma ring_fuel q l : ring q l -> (length l < fuel_of q)%nat.
Proof. intros [H1 H2 H3 H4 H5 H6]. unfold fuel_of. lia. Qed.

Lemma ring_next q l k : ring q l -> next q (after (_capacity q) (_head q) k) = after (_capacity q) (_head q) (S k).
Proof. intros [H1 H2 H3 H4 H5 H6]. by apply next_after_k. Qed.
Lemma ring_prev q l k : ring q l -> prev q (after (_capacity q) (_head q) (S k)) = after (_capacity q) (_head q) k.
Proof. intros [H1 H2 H3 H4 H5 H6]. by apply prev_after_k. Qed.
Lemma head_after q l : ring q l -> _head q = after (_capacity q) (_head q) 0.
Proof. intros [H1 H2 H3 H4 H5 H6]. by rewrite after_0. Qed.

Lemma kill_from_spec q l k fuel :
  ring q l -> (k <= length l)%nat -> (length l - k < fuel)%nat -> kill_from fuel (after (_capacity q) (_head q) k) q = Ok (drop k l).
Proof.
  intros Hr. revert k. induction fuel as [|fuel IH]; intros k Hk Hf; [lia|]. cbn [kill_from]. rewrite (at_tail q l) by done.
  destruct (Nat.eqb_spec k (length l)) as [->|Hn]; cbn [negb]; [by rewrite drop_all|].
  destruct (ring_get_lt q l k Hr) as (p & Hp & ->); [lia|]. cbn [mbind res_bind]. rewrite (ring_next q l) by done.
  rewrite IH by lia. cbn. by rewrite (drop_S l p k Hp).
Qed.

Lemma reset_loop_spec q l fuel :
  ring q l -> (length l < fuel)%nat ->
  reset_loop fuel q = Ok (set_head (after (_capacity q) (_head q) (length l)) q, l).
Proof.
  revert q l. induction fuel as [|fuel IH]; intros q l Hr Hf; [lia|]. cbn [reset_loop]. unfold pull, deq. rewrite (ring_empty q l) by done.
  destruct l as [|p l]; [cbn; rewrite <- (head_after q []) by done; by destruct q|].
  rewrite bool_decide_eq_false_2 by done. cbn [negb]. destruct (ring_pop q l p Hr) as [-> Hr']. cbn [mbind res_bind].
  rewrite (IH _ l Hr') by (cbn in Hf; lia). cbn [mbind res_bind fst snd]. unfold set_head. cbn [_capacity _head _q _tail _drops _highwater_length].
  enough (after (_capacity q) (next q (_head q)) (length l) = after (_capacity q) (_head q) (length (p :: l))) as -> by done.
  pose proof Hr as [H1 H2 H3 H4 H5 H6]. unfold next. by rewrite next_after, after_after.
Qed.

Lemma yank1_peek_spec q l f k fuel :
  ring q l -> (k <= length l)%nat -> (length l - k < fuel)%nat ->
  yank1_peek_loop f fuel (after (_capacity q) (_head q) k) q = Ok (snd <$> list_find f (drop k l)).
Proof.
  intros Hr. revert k. induction fuel as [|fuel IH]; intros k Hk Hf; [lia|]. cbn [yank1_peek_loop]. rewrite (at_tail q l) by done.
  destruct (Nat.eqb_spec k (length l)) as [->|Hn]; cbn [negb]; [by rewrite drop_all|].
  destruct (ring_get_lt q l k Hr) as (p & Hp & ->); [lia|]. cbn [mbind res_bind]. rewrite (ring_next q l) by done.
  rewrite (drop_S l p k Hp). cbn. destruct (decide (f p)) as [Hfp|Hfp].
  - by rewrite (Is_true_true_1 _ Hfp).
  - apply Is_true_false_1 in Hfp as ->. rewrite IH by lia. f_equal. by destruct (list_find _ _) as [[]|].
Qed.

(** [l] with its [k]-th packet replaced by those before it, moved up by one. *)
Lemma shift_loop_spec q l k fuel :
  ring q l -> (k < length l)%nat -> (k < fuel)%nat ->
  exists q', shift_loop fuel (after (_capacity q) (_head q) k) (prev q (after (_capacity q) (_head q) k)) q = Ok q' /\
    ring q' (take 1 l ++ take k l ++ drop (S k) l) /\ q' = set_slots (_q q') q.
Proof.
  revert q l k. induction fuel as [|fuel IH]; intros q l k Hr Hk Hf; [lia|]. cbn [shift_loop]. rewrite (at_head q l) by (done || lia).
  destruct k as [|k]; cbn [Nat.eqb negb].
  - exists q. split; [done|]. split; [|by destruct q]. destruct l; [cbn in Hk; lia|done].
  - rewrite (ring_prev q l) by done. destruct (ring_get_lt q l k Hr) as (p & Hp & ->); [lia|]. cbn [mbind res_bind].
    destruct (ring_update q l (S k) p Hr Hk) as (q1 & -> & Hr1 & E1). cbn [mbind res_bind].
    assert (_capacity q1 = _capacity q /\ _head q1 = _head q) as [Ec Eh] by (by rewrite E1).
    destruct (IH q1 (<[S k := p]> l) k Hr1) as (q' & E & Hr' & E'); [rewrite length_insert; lia|lia|]. rewrite Ec, Eh in E.
    exists q'. split; [done|]. split; [|rewrite E', E1; done].
    enough (take 1 (<[S k := p]> l) ++ take k (<[S k := p]> l) ++ drop (S k) (<[S k := p]> l) = take 1 l ++ take (S k) l ++ drop (S (S k)) l) as <-;
      [done|].
    rewrite !take_insert_ge by lia. rewrite (take_S_r l k p Hp), <- app_assoc. do 2 f_equal.
    rewrite (drop_S _ p) by (by apply list_lookup_insert_eq). rewrite drop_insert_lt by lia. done.
Qed.

(** The first packet that [f] accepts is taken out. *)
Fixpoint remove_first (f : P -> bool) l : list P * option P :=
  match l with
  | [] => ([], None)
  | p :: l => if f p then (l, Some p) else let r := remove_first f l in (p :: r.1, r.2)
  end.

Lemma yank1_spec q l f k fuel :
  ring q l -> (k <= length l)%nat -> (length l - k < fuel)%nat ->
  exists q', yank1_loop f fuel (after (_capacity q) (_head q) k) q = Ok (q', (remove_first f (drop k l)).2) /\
    ring q' (take k l ++ (remove_first f (drop k l)).1) /\ q' = set_head (_head q') (set_slots (_q q') q).
Proof.
  intros Hr. revert k. induction fuel as [|fuel IH]; intros k Hk Hf; [lia|]. cbn [yank1_loop]. rewrite (at_tail q l) by done.
  destruct (Nat.eqb_spec k (length l)) as [->|Hn]; cbn [negb].
  { exists q. rewrite drop_all, take_ge by lia. cbn. rewrite app_nil_r. split_and!; [done|done|by destruct q]. }
  destruct (ring_get_lt q l k Hr) as (p & Hp & ->); [lia|]. cbn [mbind res_bind]. rewrite (drop_S l p k Hp). cbn [remove_first].
  destruct (f p).
  - destruct (shift_loop_spec q l k (fuel_of q) Hr) as (q' & -> & Hr' & E'); [lia|pose proof (ring_fuel q l Hr); lia|].
    cbn [mbind res_bind]. eexists. split; [done|]. split; [|rewrite E'; done].
    destruct l as [|x l]; [cbn in Hk, Hn; lia|]. by apply ring_pop in Hr' as [_ Hr'].
  - rewrite (ring_next q l) by done. destruct (IH (S k)) as (q' & -> & Hr' & E'); [lia|lia|]. cbn. exists q'. split_and!; [done| |done].
    by rewrite (take_S_r l k p Hp), <- app_assoc in Hr'.
Qed.

(** The loop of [yank]: below [m] the list is as before, and the kept packets are at its end. *)
Lemma yank_spec q l f m junk kept yanked fuel :
  ring q (take m l ++ junk ++ kept) -> (m <= length l)%nat -> (m < fuel)%nat ->
  exists q', yank_loop f fuel (after (_capacity q) (_head q) m) (after (_capacity q) (_head q) (m + length junk)) yanked q
      = Ok (q', yanked ++ rev (List.filter f (take m l))) /\
    ring q' (List.filter (fun p => negb (f p)) (take m l) ++ kept) /\ q' = set_head (_head q') (set_slots (_q q') q).
Proof.
  revert q m junk kept yanked. induction fuel as [|fuel IH]; intros q m junk kept yanked Hr Hm Hf; [lia|]. cbn [yank_loop].
  assert (length (take m l) = m) as Hlm by (rewrite length_take; lia).
  rewrite (at_head q _) by (done || rewrite !length_app; lia).
  destruct m as [|m]; cbn [Nat.eqb negb].
  { exists (set_head (after (_capacity q) (_head q) (length junk)) q). cbn [take List.filter rev app firstn]. rewrite app_nil_r.
    split_and!; [done| |by destruct q]. cbn in Hr.
    rewrite <- (drop_app_length junk kept). apply ring_drop; [done|rewrite length_app; lia]. }
  destruct (lookup_lt_is_Some_2 l m) as [p Hp]; [lia|].
  rewrite (ring_prev q _ m Hr). rewrite (ring_get q _ m p Hr); [|apply lookup_app_l_Some; rewrite lookup_take; by rewrite decide_True by lia].
  cbn [mbind res_bind]. rewrite (take_S_r l m p Hp), !List.filter_app. cbn [List.filter]. rewrite (take_S_r l m p Hp), <- app_assoc in Hr.
  destruct (f p) eqn:Ef; cbn [negb].
  - destruct (IH q m (p :: junk) kept (yanked ++ [p])) as (q' & E & Hr' & E'); [done|lia|lia|].
    replace (m + length (p :: junk))%nat with (S m + length junk)%nat in E by (cbn; lia). rewrite E.
    exists q'. rewrite rev_app_distr, app_nil_r. cbn [rev app]. by rewrite <- app_assoc.
  - replace (S m + length junk)%nat with (S (m + length junk)) by lia. rewrite (ring_prev q _ _ Hr).
    assert (m = length (take m l)) as Hlm' by (rewrite length_take; lia).
    destruct (ring_update q _ (m + length junk) p Hr) as (q1 & -> & Hr1 & E1); [rewrite !length_app; cbn; lia|]. cbn [mbind res_bind].
    assert (exists junk', length junk' = length junk /\ <[(m + length junk)%nat := p]> (take m l ++ [p] ++ junk ++ kept) = take m l ++ junk' ++ p :: kept) as (junk' & Hl' & Ej).
    { exists (take (length junk) (p :: junk)). split; [rewrite length_take; cbn; lia|].
      rewrite insert_app_r_alt by lia. replace (m + length junk - length (take m l))%nat with (length junk) by lia.
      f_equal. rewrite insert_take_drop by (cbn; rewrite length_app; lia).
      change ([p] ++ junk ++ kept) with ((p :: junk) ++ kept). rewrite take_app_le by (cbn; lia). f_equal. f_equal.
      change (S (length junk)) with (length (p :: junk)). by rewrite drop_app_length. }
    rewrite Ej in Hr1. assert (_capacity q1 = _capacity q /\ _head q1 = _head q) as [Ec Eh] by (by rewrite E1).
    destruct (IH q1 m junk' (p :: kept) yanked Hr1) as (q' & E & Hr' & E'); [lia|lia|]. rewrite Ec, Eh, Hl' in E. rewrite E.
    exists q'. rewrite app_nil_r, <- app_assoc. split_and!; [done|done|rewrite E', E1; done].
Qed.

(** Slots that hold the packets of [l] from [from] on. *)
Definition holds (slots : list (option P)) (from : nat) l : Prop :=
  forall k p, l !! k = Some p -> slots !! (from + k)%nat = Some (Some p).

Lemma put_in_ok (slots : list (option P)) i p : (i < length slots)%nat -> put_in (Z.of_nat i) p slots = Ok (<[i := Some p]> slots).
Proof. intros Hi. unfold put_in. rewrite Nat2Z.id. by rewrite (proj2 (Nat.ltb_lt _ _)). Qed.

Lemma copy_slots_spec q l limit fuel slots k :
  ring q l -> (k <= length l)%nat -> (k <= limit)%nat -> (length l - k < fuel)%nat -> (limit < length slots)%nat -> holds slots 0 (take k l) ->
  Z.of_nat limit < 2 ^ 31 - 1 ->
  let m := Nat.min (length l) limit in
  exists slots', copy_loop fuel (Z.of_nat limit) (after (_capacity q) (_head q) k) (Z.of_nat k) q slots = Ok (after (_capacity q) (_head q) m, Z.of_nat m, slots') /\
    length slots' = length slots /\ holds slots' 0 (take m l).
Proof.
  intros Hr Hk Hkl Hf Hs Hh Hlim m. revert k slots Hk Hkl Hf Hs Hh. induction fuel as [|fuel IH]; intros k slots Hk Hkl Hf Hs Hh; [lia|].
  cbn [copy_loop]. rewrite (at_tail q l) by done. destruct (Nat.eqb_spec k (length l)) as [E|Hn]; cbn [negb andb].
  { assert (k = m) as -> by lia. by exists slots. }
  destruct (Z.eqb_spec (Z.of_nat k) (Z.of_nat limit)) as [E|Hn']; cbn [negb].
  { assert (k = m) as -> by lia. by exists slots. }
  destruct (ring_get_lt q l k Hr) as (p & Hp & ->); [lia|]. cbn [mbind res_bind]. rewrite put_in_ok by lia. cbn [mbind res_bind].
  rewrite (ring_next q l) by done. unfold u32. rewrite uwrap_id by zrange. replace (Z.of_nat k + 1) with (Z.of_nat (S k)) by lia.
  destruct (IH (S k) (<[k := Some p]> slots)) as (slots' & E & Hl & Hh'); [lia|lia|lia|by rewrite length_insert| |].
  - rewrite (take_S_r l k p Hp). intros j p' Hj. cbn. apply lookup_app_Some in Hj as [Hj|[Hj1 Hj2]].
    + pose proof (lookup_lt_Some _ _ _ Hj) as Hlt. rewrite length_take in Hlt. rewrite list_lookup_insert_ne by lia. by apply Hh.
    + rewrite length_take in Hj1, Hj2. apply list_lookup_singleton_Some in Hj2 as [Hj2 ->]. replace j with k by lia.
      apply list_lookup_insert_eq. lia.
  - exists slots'. rewrite length_insert in Hl. by rewrite E.
Qed.

Lemma take_min l n : take (Nat.min n (length l)) l = take n l.
Proof. destruct (decide (n <= length l)%nat); [f_equal; lia|]. by rewrite !take_ge by lia. Qed.
Lemma drop_min l n : drop (Nat.min n (length l)) l = drop n l.
Proof. destruct (decide (n <= length l)%nat); [f_equal; lia|]. by rewrite !drop_ge by lia. Qed.

Lemma copy_start q l limit fuel slots :
  ring q l -> 0 <= limit < 2 ^ 31 - 1 -> (length l < fuel)%nat -> limit < Z.of_nat (length slots) ->
  let m := Nat.min (Z.to_nat limit) (length l) in
  exists slots', copy_loop fuel limit (_head q) 0 q slots = Ok (after (_capacity q) (_head q) m, Z.of_nat m, slots') /\
    length slots' = length slots /\ holds slots' 0 (take m l).
Proof.
  intros Hr Hlim Hf Hs m. destruct (copy_slots_spec q l (Z.to_nat limit) fuel slots 0 Hr) as (slots' & E & Hl & Hh); [lia|lia|lia|lia|done|lia|].
  exists slots'. rewrite Z2Nat.id, <- (head_after q l Hr), Nat.min_comm in E by lia. rewrite Nat.min_comm in Hh. done.
Qed.

Lemma ring_fresh slots cap l d hw :
  Z.of_nat (length slots) = cap + 1 -> 0 <= cap < 2 ^ 31 - 1 -> Z.of_nat (length l) <= cap -> holds slots 0 l ->
  ring (mkSimpleQueue slots cap 0 (Z.of_nat (length l)) d hw) l.
Proof.
  intros Hs Hc Hl Hh. split; cbn; [done|done|lia|done| |].
  - unfold after. symmetry. apply Z.mod_small. lia.
  - intros k p Hp. pose proof (lookup_lt_Some _ _ _ Hp). unfold after. rewrite Z.mod_small by lia. rewrite Z.add_0_l, Nat2Z.id. by apply (Hh k p).
Qed.

Lemma allocate_length cap : 0 <= cap < 2 ^ 31 - 1 -> Z.of_nat (length (allocate (P := P) cap)) = cap + 1.
Proof. intros Hc. unfold allocate, u32. rewrite length_replicate, uwrap_id by zrange. lia. Qed.

Lemma live_reconfigure_spec q l c :
  ring q l -> 0 <= default 1000 c < 2 ^ 31 - 1 ->
  exists q', live_reconfigure c q = Ok (q', drop (Z.to_nat (default 1000 c)) l) /\ ring q' (take (Z.to_nat (default 1000 c)) l) /\
    _capacity q' = default 1000 c /\ _drops q' = _drops q /\ _highwater_length q' = _highwater_length q.
Proof.
  intros Hr Hc. pose proof Hr as [H1 H2 H3 H4 H5 H6]. unfold live_reconfigure. change (_capacity (configure c q)) with (default 1000 c). set (cap := default 1000 c) in *.
  rewrite (proj2 (Nat.eqb_neq _ _)) by lia. rewrite orb_false_r. destruct (Z.eqb_spec cap (_capacity q)) as [E|Hn].
  - exists (configure c q). rewrite drop_ge, take_ge by lia. split_and!; try done. by apply (ring_same q).
  - destruct (copy_start q l cap (fuel_of q) (allocate cap) Hr) as (slots' & -> & Hl & Hh); [done|by apply ring_fuel| |].
    { pose proof (allocate_length cap Hc). lia. }
    cbn [mbind res_bind]. rewrite (kill_from_spec q l) by (done || pose proof (ring_fuel q l Hr); lia). cbn [mbind res_bind].
    rewrite drop_min, take_min in *. eexists. split; [done|]. split; [|done]. pose proof (allocate_length cap Hc).
    rewrite <- length_take. apply ring_fresh; [lia|done|rewrite length_take; lia|done].
Qed.

Lemma take_state_spec old l q :
  ring old l -> ring q [] -> _head q = 0 ->
  exists old' q', take_state old q = Ok (old', q', drop (Z.to_nat (_capacity q)) l, false) /\
    ring old' [] /\ ring q' (take (Z.to_nat (_capacity q)) l) /\ _capacity q' = _capacity q /\ _drops q' = _drops q /\
    _highwater_length q' = Z.of_nat (Nat.min (length l) (Z.to_nat (_capacity q))).
Proof.
  intros Hr Hq H0. pose proof Hq as [H1 H2 H3 H4 H5 H6]. unfold take_state. rewrite Z.eqb_sym, (ring_empty q [] Hq), H0. cbn [negb orb Z.eqb bool_decide].
  rewrite bool_decide_eq_true_2 by done. cbn [negb orb].
  destruct (copy_start old l (_capacity q) (fuel_of old) (_q q) Hr) as (slots' & -> & Hl & Hh); [done|by apply ring_fuel|lia|].
  cbn [mbind res_bind]. rewrite (kill_from_spec old l) by (done || pose proof (ring_fuel old l Hr); lia). cbn [mbind res_bind].
  rewrite drop_min, take_min in *. set (m := Nat.min (Z.to_nat (_capacity q)) (length l)) in *.
  set (q' := set_tail (Z.of_nat m) (set_head 0 (set_slots slots' q))).
  assert (ring q' (take (Z.to_nat (_capacity q)) l)) as Hr'.
  { unfold q', m, set_tail, set_head, set_slots. cbn. rewrite <- length_take. apply ring_fresh; [lia|done|rewrite length_take; lia|done]. }
  eexists _, _. split; [done|]. split_and!; [| |done|done|].
  - pose proof Hr as [G1 G2 G3 G4 G5 G6]. split; cbn; [done|done|lia|lia| |done]. by rewrite after_0 by lia.
  - by apply (ring_same q').
  - cbn. rewrite (ring_size q' _ Hr'), length_take. lia.
Qed.
End ring.

(** ** The queues as bounded lists *)

Section spec.
Context {P : Type}.

Record Bounded := mkBounded { b_capacity : Z; b_list : list P; b_drops : Z; b_highwater : Z }.

Definition b_full (b : Bounded) : bool := Z.of_nat (length (b_list b)) =? b_capacity b.
Definition with_list (l : list P) (b : Bounded) : Bounded := mkBounded (b_capacity b) l (b_drops b) (b_highwater b).
Definition dropped (b : Bounded) : Bounded := mkBounded (b_capacity b) (b_list b) (i32 (b_drops b + 1)) (b_highwater b).
Definition noted (b : Bounded) : Bounded :=
  mkBounded (b_capacity b) (b_list b) (b_drops b) (Z.max (b_highwater b) (Z.of_nat (length (b_list b)))).

(** The methods of the queues. *)
Inductive Op :=
| SPush (p : P) | SPull | Enq (p : P) | LifoEnq (p : P) | Yank1 (f : P -> bool) | Yank1Peek (f : P -> bool) | Yank (f : P -> bool)
| Reconfigure (c : option Z) | Reset | ResetCounts
| NPush (p : P) | NPull
| FPush (p : P) | FPull | FReconfigure (c : option Z)
| QPull
| MPush (port : Z) (p : P)
| DPush (p : P).

(** The packet that is returned, and those that leave otherwise. *)
Abbreviation Out := (option P * list P)%type.

Definition on_simple (n : NotifierQueue P) {A} (m : res (SimpleQueue P * A)) : res (NotifierQueue P * A) :=
  let* r := m in Ok (set_simple r.1 n, r.2).
Definition returning {S} (m : res (S * option P)) : res (S * Out) := let* r := m in Ok (r.1, (r.2, [])).
Definition leaving {S} (m : res (S * list P)) : res (S * Out) := let* r := m in Ok (r.1, (None, r.2)).

Definition exec (op : Op) (n : NotifierQueue P) : res (NotifierQueue P * Out) :=
  match op with
  | SPush p => leaving (on_simple n (push p (simple n)))
  | SPull => returning (on_simple n (pull (simple n)))
  | Enq p => let* r := enq p (simple n) in Ok (set_simple r.1.1 n, (None, r.2))
  | LifoEnq p => leaving (on_simple n (lifo_enq p (simple n)))
  | Yank1 f => returning (on_simple n (yank1 f (simple n)))
  | Yank1Peek f => let* r := yank1_peek f (simple n) in Ok (n, (r, []))
  | Yank f => leaving (on_simple n (yank f (simple n)))
  | Reconfigure c => leaving (on_simple n (live_reconfigure c (simple n)))
  | Reset => leaving (on_simple n (reset (simple n)))
  | ResetCounts => Ok (set_simple (reset_counts (simple n)) n, (None, []))
  | NPush p => leaving (NotifierQueue_push p n)
  | NPull => returning (NotifierQueue_pull n)
  | FPush p => leaving (FullNoteQueue_push p n)
  | FPull => returning (FullNoteQueue_pull n)
  | FReconfigure c => leaving (FullNoteQueue_live_reconfigure c n)
  | QPull => returning (QuickNoteQueue_pull n)
  | MPush port p => leaving (MixedQueue_push port p n)
  | DPush p => leaving (FrontDropQueue_push p n)
  end.

(** A packet behind the others, or dropped when there is no room. *)
Definition spec_push (p : P) (b : Bounded) : Bounded * Out :=
  if b_full b then (dropped b, (None, [p])) else (noted (with_list (b_list b ++ [p]) b), (None, [])).
(** A packet before the others; the last one makes room. *)
Definition spec_lifo (p : P) (b : Bounded) : Bounded * Out :=
  if b_full b then (with_list (p :: removelast (b_list b)) b, (None, option_list (last (b_list b))))
  else (with_list (p :: b_list b) b, (None, [])).
Definition spec_pull (b : Bounded) : Bounded * Out := (with_list (tail (b_list b)) b, (head (b_list b), [])).
Definition spec_reconfigure (c : option Z) (b : Bounded) : Bounded * Out :=
  let cap := default 1000 c in
  (mkBounded cap (take (Z.to_nat cap) (b_list b)) (b_drops b) (b_highwater b), (None, drop (Z.to_nat cap) (b_list b))).

Definition spec (op : Op) (b : Bounded) : Bounded * Out :=
  match op with
  | SPush p | Enq p | NPush p | FPush p => spec_push p b
  | SPull | NPull | FPull | QPull => spec_pull b
  | LifoEnq p => spec_lifo p b
  | Yank1 f => let r := remove_first f (b_list b) in (with_list r.1 b, (r.2, []))
  | Yank1Peek f => (b, ((remove_first f (b_list b)).2, []))
  | Yank f => (with_list (List.filter (fun p => negb (f p)) (b_list b)) b, (None, rev (List.filter f (b_list b))))
  | Reconfigure c | FReconfigure c => spec_reconfigure c b
  | Reset => (with_list [] b, (None, b_list b))
  | ResetCounts => (mkBounded (b_capacity b) (b_list b) 0 (Z.of_nat (length (b_list b))), (None, []))
  | MPush port p =>
      let r := (if port =? 0 then
                  if b_full b then (dropped b, (None, [p])) else (with_list (b_list b ++ [p]) b, (None, []))
                else spec_lifo p (if b_full b then dropped b else b)) in (noted r.1, r.2)
  | DPush p =>
      if b_full b then (noted (with_list (tail (b_list b) ++ [p]) (dropped b)), (None, option_list (head (b_list b))))
      else (noted (with_list (b_list b ++ [p]) b), (None, []))
  end.

(** What the methods need: a queue that packets are put into at the other end has room
    for one, and no more slots are asked for than their indices can count. *)
Definition valid (op : Op) (b : Bounded) : Prop :=
  match op with
  | LifoEnq _ | DPush _ => 0 < b_capacity b
  | MPush port _ => port = 0 \/ 0 < b_capacity b
  | Reconfigure c | FReconfigure c => 0 <= default 1000 c < 2 ^ 31 - 1
  | _ => True
  end.

Record refines (q : SimpleQueue P) (b : Bounded) : Prop := mkRefines {
  rf_ring : ring q (b_list b);
  rf_capacity : _capacity q = b_capacity b;
  rf_drops : _drops q = b_drops b;
  rf_highwater : _highwater_length q = b_highwater b
}.

Lemma refines_full q b : refines q b -> (next q (_tail q) =? _head q) = b_full b.
Proof. intros [R1 R2 R3 R4]. rewrite (ring_full q _ R1), R2. done. Qed.

Lemma refines_dropped q b : refines q b -> refines (add_drop q) (dropped b).
Proof. intros [R1 R2 R3 R4]. split; cbn; [by apply (ring_same q)|done|by rewrite R3|done]. Qed.

(** After a push: the high water mark is raised. *)
Lemma refines_noted q l b s :
  ring q l -> _capacity q = b_capacity b -> _drops q = b_drops b -> _highwater_length q = b_highwater b -> s = Z.of_nat (length l) ->
  refines (raise_highwater s q) (noted (with_list l b)).
Proof.
  intros R1 R2 R3 R4 ->. unfold raise_highwater. destruct (Z.ltb_spec (_highwater_length q) (Z.of_nat (length l)));
    split; cbn; try done; [by apply (ring_same q)|lia|lia].
Qed.

Lemma refines_put_tail q b p :
  refines q b -> b_full b = false ->
  exists q1, put (_tail q) p q = Ok q1 /\ q1 = set_slots (_q q1) q /\ ring (set_tail (next q (_tail q)) q1) (b_list b ++ [p]) /\
    size_between (_capacity q1) (_head q) (next q (_tail q)) = Z.of_nat (length (b_list b ++ [p])).
Proof.
  intros [R1 R2 R3 R4] Hf. unfold b_full in Hf. apply Z.eqb_neq in Hf. destruct (ring_push_tail q (b_list b) p R1) as (q1 & E & Hr & E1); [lia|].
  exists q1. split_and!; [done|done|done|]. rewrite <- (ring_size _ _ Hr). unfold size. cbn. by rewrite E1.
Qed.

Lemma push_refines q b p :
  refines q b -> exists q', push p q = Ok (q', (spec_push p b).2.2) /\ refines q' (spec_push p b).1.
Proof.
  intros Hr. unfold push, spec_push. rewrite (refines_full q b Hr). destruct (b_full b) eqn:Ef; cbn [negb].
  - eexists. split; [done|]. by apply refines_dropped.
  - destruct (refines_put_tail q b p Hr Ef) as (q1 & -> & E1 & H1 & H2). cbn [mbind res_bind]. eexists. split; [done|].
    destruct Hr as [R1 R2 R3 R4]. apply refines_noted; rewrite ?H2; [done|..|done]; rewrite E1; done.
Qed.

Lemma pull_refines q b :
  refines q b -> exists q', deq q = Ok (q', (spec_pull b).2.1) /\ refines q' (spec_pull b).1.
Proof.
  intros [R1 R2 R3 R4]. unfold deq, spec_pull. rewrite (ring_empty q _ R1). destruct (b_list b) as [|p l] eqn:El.
  - eexists. split; [done|]. by split.
  - rewrite bool_decide_eq_false_2 by done. cbn [negb]. destruct (ring_pop q l p R1) as [-> Hr']. cbn. eexists. split; [done|]. by split.
Qed.

Lemma ring_full_front {Q} (q : SimpleQueue Q) l : ring q l -> (prev q (_head q) =? _tail q) = (Z.of_nat (length l) =? _capacity q).
Proof.
  intros Hr. pose proof Hr as [H1 H2 H3 H4 H5 H6]. assert (prev q (_head q) = after (_capacity q) (_head q) (Z.to_nat (_capacity q))) as ->.
  { unfold prev. rewrite <- (after_turn (_capacity q) H1 (_head q) H3) at 1. rewrite Nat.add_1_r. by apply prev_after_k. }
  rewrite H5. destruct (Z.eqb_spec (Z.of_nat (length l)) (_capacity q)) as [E|E].
  - rewrite <- E, Nat2Z.id. apply Z.eqb_refl.
  - apply Z.eqb_neq. intros E'. pose proof (after_inj _ _ (Z.to_nat (_capacity q)) (length l) H3 ltac:(lia) H4 E'). lia.
Qed.

(** Both ways of putting a packet first. *)
Lemma ring_lifo_full {Q} (q : SimpleQueue Q) l p :
  ring q l -> Z.of_nat (length l) = _capacity q -> 0 < _capacity q ->
  exists old q2, get q (prev q (_tail q)) = Ok old /\ last l = Some old /\
    put (prev q (_head q)) p (set_tail (prev q (_tail q)) q) = Ok q2 /\ ring (set_head (prev q (_head q)) q2) (p :: removelast l) /\
    q2 = set_slots (_q q2) (set_tail (prev q (_tail q)) q).
Proof.
  intros Hr Hf Hc. destruct l as [|old l0 _] using rev_ind; [cbn in Hf; lia|]. destruct (ring_pop_last q l0 old Hr) as [Hg Hr1].
  rewrite length_app in Hf. cbn in Hf. set (q1 := set_tail (prev q (_tail q)) q) in *.
  destruct (ring_push_front q1 l0 p Hr1) as (q2 & E2 & Hr2 & Eq2); [cbn; lia|].
  exists old, q2. rewrite last_snoc, removelast_last. split_and!; [done|done|done|done|done].
Qed.

Lemma lifo_refines q b p :
  refines q b -> 0 < b_capacity b ->
  exists q', lifo_enq p q = Ok (q', (spec_lifo p b).2.2) /\ refines q' (spec_lifo p b).1.
Proof.
  intros [R1 R2 R3 R4] Hc. unfold lifo_enq, spec_lifo, b_full. rewrite (ring_full_front q _ R1), R2.
  destruct (Z.eqb_spec (Z.of_nat (length (b_list b))) (b_capacity b)) as [Hf|Hf].
  - destruct (ring_lifo_full q _ p R1) as (old & q2 & -> & -> & E & Hr & E2); [lia|lia|]. cbn [mbind res_bind]. rewrite E. cbn.
    eexists. split; [done|]. split; cbn; [done|rewrite E2; done..].
  - cbn [mbind res_bind]. destruct (ring_push_front q _ p R1) as (q2 & -> & Hr & E2); [lia|]. cbn. eexists. split; [done|].
    split; cbn; [done|rewrite E2; done..].
Qed.

Lemma note_first_refines n q b :
  refines q b -> refines (simple (note_first (set_simple q n))) (noted b).
Proof.
  intros [R1 R2 R3 R4]. unfold note_first. cbn [simple set_simple]. rewrite (ring_size q _ R1).
  assert (refines (raise_highwater (Z.of_nat (length (b_list b))) q) (noted (with_list (b_list b) b))) as H by (by apply refines_noted).
  destruct (_ && _); exact H.
Qed.

Lemma mixed_refines n b port p :
  refines (simple n) b -> port = 0 \/ 0 < b_capacity b ->
  exists n', MixedQueue_push port p n = Ok (n', (spec (MPush port p) b).2.2) /\ refines (simple n') (spec (MPush port p) b).1.
Proof.
  intros Hr Hv. pose proof Hr as [R1 R2 R3 R4]. unfold MixedQueue_push. cbn [spec]. set (q := simple n) in *. destruct (Z.eqb_spec port 0) as [->|Hp].
  - rewrite (refines_full q b Hr). destruct (b_full b) eqn:Ef; cbn [mbind res_bind].
    + eexists. split; [done|]. apply note_first_refines. by apply refines_dropped.
    + destruct (refines_put_tail q b p Hr Ef) as (q1 & -> & E1 & H1 & H2). cbn [mbind res_bind fst snd]. eexists. split; [done|].
      apply note_first_refines. split; cbn; [done|rewrite E1; done..].
  - destruct Hv as [|Hc]; [done|]. rewrite (ring_full_front q _ R1), R2. fold (b_full b). destruct (b_full b) eqn:Ef.
    + destruct (ring_lifo_full (add_drop q) (b_list b) p) as (old & q2 & E1 & E2 & E3 & E4 & E5);
        [by apply (ring_same q)|cbn; unfold b_full in Ef; apply Z.eqb_eq in Ef; lia|cbn; lia|].
      change (prev (add_drop q)) with (prev q) in *. cbn [_tail add_drop _head] in *. cbn zeta. change (prev (add_drop q)) with (prev q). rewrite E1. cbn [mbind res_bind].
      rewrite E3. cbn [mbind res_bind fst snd]. unfold spec_lifo. change (b_full (dropped b)) with (b_full b). rewrite Ef. cbn [b_list dropped fst snd]. rewrite E2.
      eexists. split; [done|]. apply note_first_refines. split; cbn; [done|rewrite E5; cbn; by rewrite ?R3..].
    + unfold spec_lifo. rewrite Ef. cbn [mbind res_bind fst snd]. unfold b_full in Ef. apply Z.eqb_neq in Ef.
      destruct (ring_push_front q _ p R1) as (q2 & -> & H2 & E2); [lia|]. cbn [mbind res_bind fst snd]. eexists. split; [done|].
      apply note_first_refines. split; cbn; [done|rewrite E2; done..].
Qed.

Lemma front_drop_refines n b p :
  refines (simple n) b -> 0 < b_capacity b ->
  exists n', FrontDropQueue_push p n = Ok (n', (spec (DPush p) b).2.2) /\ refines (simple n') (spec (DPush p) b).1.
Proof.
  intros Hr Hc. pose proof Hr as [R1 R2 R3 R4]. unfold FrontDropQueue_push. cbn [spec]. set (q := simple n) in *. rewrite (refines_full q b Hr).
  destruct (b_full b) eqn:Ef.
  - pose proof Ef as Ef'. unfold b_full in Ef'. apply Z.eqb_eq in Ef'.
    destruct (b_list b) as [|x l] eqn:El; [cbn in Ef'; lia|]. destruct (ring_pop q l x R1) as [-> Hr1]. cbn [mbind res_bind tail head option_list].
    change (next (add_drop q)) with (next q). cbn [_head add_drop]. set (q1 := set_head (next q (_head q)) (add_drop q)).
    destruct (ring_push_tail q1 l p) as (q2 & E2 & Hr2 & Eq2); [by apply (ring_same (set_head (next q (_head q)) q))|cbn in *; lia|].
    cbn [_tail q1 set_head add_drop] in *. change (next q1) with (next q) in Hr2. rewrite E2. cbn [mbind res_bind fst snd]. eexists. split; [done|].
    apply note_first_refines. split; cbn; [done|rewrite Eq2; cbn; by rewrite ?R3..].
  - cbn [mbind res_bind]. destruct (refines_put_tail q b p Hr Ef) as (q1 & -> & E1 & H1 & H2). cbn [mbind res_bind fst snd]. eexists. split; [done|].
    apply note_first_refines. split; cbn; [done|rewrite E1; done..].
Qed.

(** The methods with signals do to the ring what [push] and [pull] do. *)
Lemma NotifierQueue_push_eq (p : P) (n : NotifierQueue P) :
  NotifierQueue_push p n =
  let* r := push p (simple n) in Ok (match r.2 with [] => wake_empty (set_simple r.1 n) | _ => set_simple r.1 n end, r.2).
Proof.
  unfold NotifierQueue_push, push. destruct (negb _); [|done]. by destruct (put _ _ _).
Qed.

Lemma FullNoteQueue_push_eq (p : P) (n : NotifierQueue P) b :
  refines (simple n) b ->
  FullNoteQueue_push p n =
  let* r := push p (simple n) in
  Ok (match r.2 with
      | [] => let n := wake_empty (set_simple r.1 n) in if b_full (spec_push p b).1 then doze_full n else n
      | _ => set_simple r.1 n
      end, r.2).
Proof.
  intros Hr. unfold FullNoteQueue_push, push, push_success, spec_push. rewrite (refines_full _ b Hr). destruct (b_full b) eqn:Ef; cbn [negb]; [done|].
  destruct (refines_put_tail _ b p Hr Ef) as (q1 & -> & E1 & H1 & H2). cbn [mbind res_bind fst snd]. rewrite H2. unfold b_full. cbn [noted with_list b_list b_capacity].
  destruct Hr as [R1 R2 R3 R4]. assert (_capacity q1 = b_capacity b) as -> by (by rewrite E1). done.
Qed.

Lemma FullNoteQueue_pull_eq (n : NotifierQueue P) :
  FullNoteQueue_pull n =
  let* r := deq (simple n) in
  Ok (match r.2 with
      | Some _ => wake_full (set_sleepiness 0 (set_simple r.1 n))
      | None => if SLEEPINESS_TRIGGER <=? _sleepiness n then doze_empty (set_simple r.1 n) else set_sleepiness (_sleepiness n + 1) (set_simple r.1 n)
      end, r.2).
Proof.
  unfold FullNoteQueue_pull, deq, pull_success, pull_failure. destruct (negb _); [by destruct (get _ _)|]. cbn. by destruct n.
Qed.

Lemma QuickNoteQueue_pull_eq (n : NotifierQueue P) :
  QuickNoteQueue_pull n =
  let* r := deq (simple n) in
  Ok (let n' := match r.2 with Some _ => wake_full (set_simple r.1 n) | None => n end in
      if _head r.1 =? _tail r.1 then doze_empty n' else n', r.2).
Proof.
  unfold QuickNoteQueue_pull, deq. destruct (negb _) eqn:E; [by destruct (get _ _)|]. done.
Qed.

Lemma simple_doze_empty (n : NotifierQueue P) : simple (doze_empty n) = simple n.
Proof. unfold doze_empty. by destruct (negb _). Qed.
Lemma simple_doze_full (n : NotifierQueue P) : simple (doze_full n) = simple n.
Proof. unfold doze_full. by destruct (_ <? _). Qed.

(** Signals: a queue with packets says so, and one with room as well. *)
Definition signalled (n : NotifierQueue P) (b : Bounded) : Prop :=
  (b_list b <> [] -> _empty_note n = true) /\ (Z.of_nat (length (b_list b)) < b_capacity b -> _full_note n = true).
Definition signals (op : Op) : bool :=
  match op with FPush _ | FPull | QPull | FReconfigure _ => true | _ => false end.

Lemma doze_empty_signalled n b : refines (simple n) b -> signalled n b -> signalled (doze_empty n) b.
Proof.
  intros [R1 R2 R3 R4] [S1 S2]. unfold doze_empty. cbn [simple sleep_empty]. rewrite (ring_size _ _ R1).
  destruct (Z.eqb_spec (Z.of_nat (length (b_list b))) 0) as [E|E]; split; cbn; try done.
  intros Hn. destruct (b_list b); [done|cbn in E; lia].
Qed.
Lemma doze_full_signalled n b : refines (simple n) b -> signalled n b -> signalled (doze_full n) b.
Proof.
  intros [R1 R2 R3 R4] [S1 S2]. unfold doze_full. cbn [simple sleep_full]. rewrite (ring_size _ _ R1), R2.
  destruct (Z.ltb_spec (Z.of_nat (length (b_list b))) (b_capacity b)) as [E|E]; split; cbn; try done. lia.
Qed.

Definition step_ok (op : Op) (n : NotifierQueue P) (b : Bounded) : Prop :=
  exists n', exec op n = Ok (n', (spec op b).2) /\ refines (simple n') (spec op b).1 /\
    (signals op = true -> signalled n b -> signalled n' (spec op b).1).

Lemma full_push_ok p n b : refines (simple n) b -> step_ok (FPush p) n b.
Proof.
  intros Hr. unfold step_ok. cbn [exec spec signals]. rewrite (FullNoteQueue_push_eq p n b Hr). destruct (push_refines _ b p Hr) as (q' & -> & Hr').
  unfold leaving. cbn [mbind res_bind fst snd]. unfold spec_push in *. destruct (b_full b) eqn:Ef; cbn [fst snd] in *.
  - eexists. split; [done|]. split; [done|]. by intros _ [S1 S2].
  - set (b' := noted _) in *. eexists. split; [done|].
    assert (signalled n b -> signalled (wake_empty (set_simple q' n)) b') as Hs.
    { intros [S1 S2]. split; cbn; [done|]. intros H. apply S2. rewrite length_app in H. cbn in H. lia. }
    destruct (b_full b'); split; rewrite ?simple_doze_full; [done| |done|by intros _].
    intros _ S. apply doze_full_signalled; [done|by apply Hs].
Qed.

Lemma full_pull_ok n b : refines (simple n) b -> step_ok FPull n b.
Proof.
  intros Hr. unfold step_ok. cbn [exec spec signals]. rewrite FullNoteQueue_pull_eq. destruct (pull_refines _ b Hr) as (q' & -> & Hr').
  unfold returning. cbn [mbind res_bind fst snd spec_pull] in *. destruct (b_list b) as [|p l] eqn:El; cbn [head tail] in *.
  - assert (signalled n b -> signalled (set_simple q' n) (with_list [] b)) as Hs by (by intros [S1 S2]; rewrite El in *; split).
    destruct (_ <=? _); eexists; (split; [done|]); (split; [by rewrite ?simple_doze_empty|]); intros _ S.
    + apply doze_empty_signalled; [done|by apply Hs].
    + destruct (Hs S) as [S1 S2]. by split.
  - eexists. split; [done|]. split; [done|]. intros _ [S1 S2]. split; cbn; [intros _|done]. apply S1. by rewrite El.
Qed.

Lemma quick_pull_ok n b : refines (simple n) b -> step_ok QPull n b.
Proof.
  intros Hr. unfold step_ok. cbn [exec spec signals]. rewrite QuickNoteQueue_pull_eq. destruct (pull_refines _ b Hr) as (q' & -> & Hr').
  unfold returning. cbn [mbind res_bind fst snd spec_pull] in *.
  set (n' := match head (b_list b) with Some _ => _ | None => n end). set (b' := with_list (tail (b_list b)) b) in *.
  assert (refines (simple n') b' /\ (signalled n b -> signalled n' b')) as [Hr2 Hs].
  { unfold n', b' in *. destruct (b_list b) as [|p l] eqn:El; cbn [head tail] in *.
    - split; [|intros [S1 S2]; rewrite El in *; by split]. destruct Hr as [R1 R2 R3 R4]. rewrite El in R1. by split.
    - split; [done|]. intros [S1 S2]. split; cbn; [intros _|done]. apply S1. by rewrite El. }
  destruct (_ =? _); eexists; (split; [done|]); (split; [by rewrite ?simple_doze_empty|]); intros _ S; [|by apply Hs].
  apply doze_empty_signalled; [done|by apply Hs].
Qed.

Lemma reconfigure_refines q b c :
  refines q b -> 0 <= default 1000 c < 2 ^ 31 - 1 ->
  exists q', live_reconfigure c q = Ok (q', (spec_reconfigure c b).2.2) /\ refines q' (spec_reconfigure c b).1.
Proof.
  intros [R1 R2 R3 R4] Hc. destruct (live_reconfigure_spec q _ c R1 Hc) as (q' & -> & H1 & H2 & H3 & H4). eexists. split; [done|].
  split; cbn; [done|done|congruence|congruence].
Qed.

Lemma full_reconfigure_ok c n b : refines (simple n) b -> 0 <= default 1000 c < 2 ^ 31 - 1 -> step_ok (FReconfigure c) n b.
Proof.
  intros Hr Hc. unfold step_ok. cbn [exec spec signals]. unfold FullNoteQueue_live_reconfigure.
  destruct (reconfigure_refines _ b c Hr Hc) as (q' & -> & Hr'). unfold leaving. cbn [mbind res_bind fst snd].
  pose proof Hr' as [R1 R2 R3 R4]. rewrite (ring_size _ _ R1), R2, (proj2 (Nat.eqb_neq _ _)), andb_true_r
    by (pose proof (ring_slots _ _ R1); pose proof (ring_capacity _ _ R1); lia).
  set (b' := (spec_reconfigure c b).1) in *. eexists. split; [done|].
  assert (signalled n b -> b_list b' <> [] -> _empty_note n = true) as He.
  { intros [S1 _] H. apply S1. intros E. apply H. cbn. by rewrite E, take_nil. }
  destruct (Z.ltb_spec (Z.of_nat (length (b_list b'))) (b_capacity b')) as [E|E]; (split; [done|]); intros _ S; (split; [by apply He|]); [done|lia].
Qed.

Lemma yank1_refines q b f :
  refines q b -> exists q', yank1 f q = Ok (q', (spec (Yank1 f) b).2.1) /\ refines q' (spec (Yank1 f) b).1.
Proof.
  intros [R1 R2 R3 R4]. unfold yank1. rewrite (head_after q _ R1).
  destruct (yank1_spec q _ f 0 (fuel_of q) R1) as (q' & -> & Hr & E); [lia|pose proof (ring_fuel q _ R1); lia|]. eexists. split; [done|].
  split; cbn; [done|rewrite E; done..].
Qed.

Lemma yank_refines q b f :
  refines q b -> exists q', yank f q = Ok (q', (spec (Yank f) b).2.2) /\ refines q' (spec (Yank f) b).1.
Proof.
  intros [R1 R2 R3 R4]. unfold yank. pose proof R1 as [H1 H2 H3 H4 H5 H6]. rewrite H5. set (l := b_list b) in *.
  destruct (yank_spec q l f (length l) [] [] [] (fuel_of q)) as (q' & E & Hr & E'); [by rewrite take_ge, app_nil_r by lia|lia|by apply ring_fuel|].
  rewrite Nat.add_0_r, take_ge in E by lia. rewrite take_ge, app_nil_r in Hr by lia. rewrite E. eexists. split; [done|].
  split; cbn; [done|rewrite E'; done..].
Qed.

Lemma find_remove_first (f : P -> bool) (l : list P) : snd <$> list_find f l = (remove_first f l).2.
Proof.
  induction l as [|p l IH]; [done|]. cbn. destruct (decide (f p)) as [Hf|Hf].
  - by rewrite (Is_true_true_1 _ Hf).
  - apply Is_true_false_1 in Hf as ->. cbn. rewrite <- IH. by destruct (list_find f l) as [[]|].
Qed.

Lemma reset_refines q b : refines q b -> exists q', reset q = Ok (q', b_list b) /\ refines q' (with_list [] b).
Proof.
  intros [R1 R2 R3 R4]. unfold reset. rewrite (reset_loop_spec q _ _ R1) by (by apply ring_fuel). eexists. split; [done|].
  split; cbn; [|done..]. rewrite <- (drop_all (b_list b)). by apply ring_drop.
Qed.

(** Methods that take no part in the signals. *)
Lemma step_plain op n b n' :
  signals op = false -> exec op n = Ok (n', (spec op b).2) -> refines (simple n') (spec op b).1 -> step_ok op n b.
Proof. intros Hs E Hr. exists n'. split_and!; [done|done|]. by rewrite Hs. Qed.

Ltac exec_with E := cbn [exec spec]; unfold leaving, returning, on_simple, pull; rewrite E; cbn [mbind res_bind fst snd].

Lemma exec_ok op n b : refines (simple n) b -> valid op b -> step_ok op n b.
Proof.
  intros Hr Hv. destruct op as [p| |p|p|f|f|f|c| | |p| |p| |c| |port p|p]; cbn [valid] in Hv;
    auto using full_push_ok, full_pull_ok, quick_pull_ok, full_reconfigure_ok.
  - destruct (push_refines _ b p Hr) as (q' & E & Hr'). eapply (step_plain _ _ _ (set_simple q' n)); [done| |done].
    exec_with E. unfold spec_push. by destruct (b_full b).
  - destruct (pull_refines _ b Hr) as (q' & E & Hr'). eapply (step_plain _ _ _ (set_simple q' n)); [done| |done]. by exec_with E.
  - destruct (push_refines _ b p Hr) as (q' & E & Hr'). eapply (step_plain _ _ _ (set_simple q' n)); [done| |done]. cbn [exec spec].
    assert (enq p (simple n) = let* r := push p (simple n) in Ok (r.1, bool_decide (r.2 = []), r.2)) as ->.
    { unfold enq, push. destruct (negb _); [by destruct (put _ _ _)|done]. }
    rewrite E. cbn. unfold spec_push. by destruct (b_full b).
  - destruct (lifo_refines _ b p Hr Hv) as (q' & E & Hr'). eapply (step_plain _ _ _ (set_simple q' n)); [done| |done].
    exec_with E. unfold spec_lifo. by destruct (b_full b).
  - destruct (yank1_refines _ b f Hr) as (q' & E & Hr'). eapply (step_plain _ _ _ (set_simple q' n)); [done| |done]. by exec_with E.
  - eapply (step_plain _ _ _ n); [done| |done]. destruct Hr as [R1 R2 R3 R4]. cbn [exec spec]. unfold yank1_peek. rewrite (head_after _ _ R1).
    rewrite (yank1_peek_spec _ _ f 0 (fuel_of (simple n)) R1); [|lia|pose proof (ring_fuel _ _ R1); lia]. cbn. by rewrite drop_0, find_remove_first.
  - destruct (yank_refines _ b f Hr) as (q' & E & Hr'). eapply (step_plain _ _ _ (set_simple q' n)); [done| |done]. by exec_with E.
  - destruct (reconfigure_refines _ b c Hr Hv) as (q' & E & Hr'). eapply (step_plain _ _ _ (set_simple q' n)); [done| |done]. by exec_with E.
  - destruct (reset_refines _ b Hr) as (q' & E & Hr'). eapply (step_plain _ _ _ (set_simple q' n)); [done| |done]. by exec_with E.
  - eapply (step_plain _ _ _ (set_simple (reset_counts (simple n)) n)); [done|done|]. destruct Hr as [R1 R2 R3 R4].
    split; cbn; [by apply (ring_same (simple n))|done|done|by apply ring_size].
  - destruct (push_refines _ b p Hr) as (q' & E & Hr').
    eapply (step_plain _ _ _ (match (spec_push p b).2.2 with [] => wake_empty (set_simple q' n) | _ => set_simple q' n end)); [done| |].
    + cbn [exec spec]. rewrite NotifierQueue_push_eq.  rewrite E. unfold spec_push. by destruct (b_full b).
    + unfold spec_push in *. cbn [spec]. unfold spec_push. by destruct (b_full b).
  - destruct (pull_refines _ b Hr) as (q' & E & Hr').
    unfold step_ok. cbn [exec spec signals]. unfold NotifierQueue_pull. rewrite E. cbn [mbind res_bind fst snd spec_pull] in *.
    destruct (head (b_list b)); [|destruct (_ <=? _)]; eexists; (split; [done|]); (split; [|discriminate]); cbn [fst]; by rewrite ?simple_doze_empty.
  - destruct (mixed_refines n b port p Hr Hv) as (n' & E & Hr'). eapply (step_plain _ _ _ n'); [done| |done].
    exec_with E. cbn [spec]. unfold spec_lifo. by repeat case_match.
  - destruct (front_drop_refines n b p Hr Hv) as (n' & E & Hr'). eapply (step_plain _ _ _ n'); [done| |done].
    exec_with E. cbn [spec]. by destruct (b_full b).
Qed.

(** ** Sequences of calls *)

Fixpoint exec_all (ops : list Op) (n : NotifierQueue P) : res (NotifierQueue P * list Out) :=
  match ops with
  | [] => Ok (n, [])
  | op :: ops => let* r := exec op n in let* r' := exec_all ops r.1 in Ok (r'.1, r.2 :: r'.2)
  end.
Fixpoint spec_all (ops : list Op) (b : Bounded) : Bounded * list Out :=
  match ops with
  | [] => (b, [])
  | op :: ops => let r := spec op b in let r' := spec_all ops r.1 in (r'.1, r.2 :: r'.2)
  end.
Fixpoint valid_all (ops : list Op) (b : Bounded) : Prop :=
  match ops with
  | [] => True
  | op :: ops => valid op b /\ valid_all ops (spec op b).1
  end.

Lemma exec_all_ok ops n b :
  refines (simple n) b -> valid_all ops b ->
  exists n', exec_all ops n = Ok (n', (spec_all ops b).2) /\ refines (simple n') (spec_all ops b).1 /\
    (forallb signals ops = true -> signalled n b -> signalled n' (spec_all ops b).1).
Proof.
  revert n b. induction ops as [|op ops IH]; intros n b Hr Hv; [by exists n|]. cbn in Hv |- *. destruct Hv as [Hv1 Hv2].
  destruct (exec_ok op n b Hr Hv1) as (n1 & -> & Hr1 & Hs1). cbn. destruct (IH n1 _ Hr1 Hv2) as (n2 & -> & Hr2 & Hs2). cbn.
  exists n2. split_and!; [done|done|]. intros H S. apply andb_true_iff in H as [Ha Hb]. auto.
Qed.

Lemma new_refines c :
  0 <= c < 2 ^ 31 - 1 ->
  exists q, initialize (configure (Some c) (SimpleQueue_new 0)) = Ok q /\ refines q (mkBounded c [] 0 0).
Proof.
  intros Hc. eexists. split; [done|]. split; [|done..]. apply (ring_fresh (allocate c) c []); [by apply allocate_length|done|cbn; lia|done].
Qed.

(** C19: A packet queue of any capacity below 2^31 - 1, under any sequence of pushes,
    pulls, [enq], [lifo_enq], [yank1], [yank1_peek], [yank], resets and
    reconfigurations, as SimpleQueue, NotifierQueue, FullNoteQueue, QuickNoteQueue,
    MixedQueue and FrontDropQueue define them, returns and gives away exactly the
    packets that a list bounded by the capacity does.  Three conditions are the
    code's own: new capacities are below 2^31 - 1 as well; a queue without room for
    any packet is not given one at its front ([lifo_enq], input 1 of MixedQueue) nor
    through FrontDropQueue's push, which would use a slot never written; and
    FrontDropQueue's own [live_reconfigure], which loses packets, is not called.  So
    packets come in order, dropping only what there is no room for, and counting
    the drops and the greatest length.  No slot is read before it was written and no
    index leaves the ring.  When only the methods of Queue, QuickNoteQueue and their
    reconfiguration are used, a queue that holds packets says so in its empty signal
    and one that has room in its full signal. *)
Theorem queue_refines c ops empty :
  0 <= c < 2 ^ 31 - 1 -> valid_all ops (mkBounded c [] 0 0) ->
  exists q n', initialize (configure (Some c) (SimpleQueue_new 0)) = Ok q /\
    exec_all ops (mkNotifierQueue q 0 empty true) = Ok (n', (spec_all ops (mkBounded c [] 0 0)).2) /\
    refines (simple n') (spec_all ops (mkBounded c [] 0 0)).1 /\
    (forallb signals ops = true -> signalled n' (spec_all ops (mkBounded c [] 0 0)).1).
Proof.
  intros Hc Hv. destruct (new_refines c Hc) as (q & Eq & Hr). exists q.
  destruct (exec_all_ok ops (mkNotifierQueue q 0 empty true) _ Hr Hv) as (n' & E & Hr' & Hs).
  exists n'. split_and!; [done|done|done|]. intros H. by apply Hs.
Qed.
End spec.

Lemma queue_refines_witness :
  exists q n', initialize (configure (Some 2) (SimpleQueue_new 0)) = Ok q /\
    exec_all [FPush 1; FPush 2; FPush 3; FPull; FPush 4; Yank1 (Z.eqb 4); FReconfigure (Some 1); FPull; QPull] (mkNotifierQueue q 0 true true)
      = Ok (n', [(None, []); (None, []); (None, [3]); (Some 1, []); (None, []); (Some 4, []); (None, []); (Some 2, []); (None, [])]) /\
    _empty_note n' = false.
Proof.
  destruct (queue_refines 2 [FPush 1; FPush 2; FPush 3; FPull; FPush 4; Yank1 (Z.eqb 4); FReconfigure (Some 1); FPull; QPull] true)
    as (q & n' & E1 & E2 & _ & _); [lia|cbn; lia|].
  exists q, n'. split; [done|]. split; [exact E2|]. injection E1 as <-. vm_compute in E2. by injection E2 as <-.
Defined.

(** ** FrontDropQueue *)

Section front_drop.
Context {P : Type}.
Implicit Types (q old : SimpleQueue P) (l : list P).

Lemma take_down_spec old l cap fuel slots m :
  ring old l -> (m <= length l)%nat -> (m <= cap)%nat -> (length l - m < fuel)%nat -> (cap < length slots)%nat ->
  holds slots (cap - m) (drop (length l - m) l) ->
  let k := Nat.min (length l) cap in
  exists slots', take_down fuel (Z.of_nat (cap - m)) (after (_capacity old) (_head old) (length l - m)) old slots
      = Ok (Z.of_nat (cap - k), after (_capacity old) (_head old) (length l - k), slots') /\
    length slots' = length slots /\ holds slots' (cap - k) (drop (length l - k) l).
Proof.
  intros Hr Hm Hmc Hf Hs Hh k. revert m slots Hm Hmc Hf Hs Hh. induction fuel as [|fuel IH]; intros m slots Hm Hmc Hf Hs Hh; [lia|].
  cbn [take_down]. rewrite (at_head old l) by (done || lia). destruct (Z.ltb_spec 0 (Z.of_nat (cap - m))) as [Hc|Hc]; cbn [andb].
  2:{ assert (m = k) as -> by lia. by exists slots. }
  destruct (Nat.eqb_spec (length l - m) 0) as [E|Hn]; cbn [negb].
  { assert (m = k) as -> by lia. by exists slots. }
  destruct (length l - m)%nat as [|i] eqn:Ei; [lia|]. rewrite (ring_prev old l) by done.
  destruct (ring_get_lt old l i Hr) as (p & Hp & ->); [lia|]. cbn [mbind res_bind].
  replace (Z.of_nat (cap - m) - 1) with (Z.of_nat (cap - S m)) by lia. rewrite put_in_ok by lia. cbn [mbind res_bind].
  destruct (IH (S m) (<[(cap - S m)%nat := Some p]> slots)) as (slots' & E & Hl & Hh'); [lia|lia|lia|by rewrite length_insert| |].
  - replace (length l - S m)%nat with i by lia. rewrite (drop_S l p i Hp). intros [|j] x Hx; cbn in Hx.
    + injection Hx as <-. rewrite Nat.add_0_r. apply list_lookup_insert_eq. lia.
    + rewrite list_lookup_insert_ne by lia. replace (cap - S m + S j)%nat with (cap - m + j)%nat by lia. by apply Hh.
  - replace (length l - S m)%nat with i in E by lia. rewrite length_insert in Hl. exists slots'. by rewrite E.
Qed.

Lemma kill_before_spec old l k fuel :
  ring old l -> (k <= length l)%nat -> (k < fuel)%nat -> kill_before fuel (after (_capacity old) (_head old) k) old = Ok (rev (take k l)).
Proof.
  intros Hr. revert k. induction fuel as [|fuel IH]; intros k Hk Hf; [lia|]. cbn [kill_before]. rewrite (at_head old l) by done.
  destruct k as [|k]; [done|]. cbn [Nat.eqb negb]. rewrite (ring_prev old l) by done.
  destruct (ring_get_lt old l k Hr) as (p & Hp & ->); [lia|]. cbn [mbind res_bind]. rewrite IH by lia. cbn.
  by rewrite (take_S_r l k p Hp), rev_app_distr.
Qed.

(** When a FrontDropQueue takes the packets of another queue and has not room for all,
    the oldest are killed. *)
Lemma front_drop_take_state_spec old l q :
  ring old l -> ring q [] -> _head q = 0 ->
  let k := Nat.min (length l) (Z.to_nat (_capacity q)) in
  exists old' q', FrontDropQueue_take_state old q = Ok (old', q', rev (take (length l - k) l), false) /\
    ring old' [] /\ ring q' (drop (length l - k) l) /\ _capacity q' = _capacity q /\ _drops q' = _drops q /\
    _highwater_length q' = Z.of_nat k.
Proof.
  intros Hr Hq H0 k. pose proof Hq as [H1 H2 H3 H4 H5 H6]. pose proof Hr as [G1 G2 G3 G4 G5 G6].
  unfold FrontDropQueue_take_state. rewrite Z.eqb_sym, (ring_empty q [] Hq), H0. rewrite bool_decide_eq_true_2 by done. cbn [negb orb Z.eqb].
  destruct (take_down_spec old l (Z.to_nat (_capacity q)) (fuel_of old) (_q q) 0 Hr) as (slots' & E & Hl & Hh);
    [lia|lia|pose proof (ring_fuel old l Hr); lia|lia|by rewrite !Nat.sub_0_r, drop_all|].
  fold k in E, Hh. rewrite !Nat.sub_0_r, Z2Nat.id, <- G5 in E by lia. rewrite E. cbn [mbind res_bind].
  rewrite (kill_before_spec old l) by (done || pose proof (ring_fuel old l Hr); lia). cbn [mbind res_bind].
  set (q' := set_head (Z.of_nat (Z.to_nat (_capacity q) - k)) (set_tail (_capacity q) (set_slots slots' q))).
  assert (length (drop (length l - k) l) = k) as Hk by (rewrite length_drop; lia).
  assert (ring q' (drop (length l - k) l)) as Hr'.
  { split; cbn [_capacity _q _head _tail set_head set_tail set_slots q']; rewrite ?Hk; [done|lia|lia|lia| |].
    - rewrite after_cases by lia. destruct (Z.leb_spec (Z.of_nat (Z.to_nat (_capacity q) - k) + Z.of_nat k) (_capacity q)); lia.
    - intros j p Hj. pose proof (lookup_lt_Some _ _ _ Hj) as Hlt. rewrite Hk in Hlt. rewrite after_cases by lia. rewrite (proj2 (Z.leb_le _ _)) by lia.
      replace (Z.to_nat (Z.of_nat (Z.to_nat (_capacity q) - k) + Z.of_nat j)) with (Z.to_nat (_capacity q) - k + j)%nat by lia. by apply Hh. }
  eexists _, _. split; [done|]. split_and!.
  - split; cbn; [done|done|lia|lia| |done]. by rewrite after_0 by lia.
  - by apply (ring_same q').
  - done.
  - done.
  - cbn. by rewrite (ring_size q' _ Hr'), Hk.
Qed.
End front_drop.

(** ** Hot swapping *)

Section hot_swap.
Context {P : Type}.
Implicit Types (l : list P).

(** What is left of [l] when a queue of capacity [c] takes it over, and what is killed
    in the order of the kills: a SimpleQueue keeps the oldest packets, a FrontDropQueue
    the newest. *)
Definition taken_over (front : bool) (c : nat) l : list P * list P :=
  if front then (drop (length l - c) l, rev (take (length l - c) l)) else (take c l, drop c l).

(** The [take_state] of the class of the new queue. *)
Definition swap (front : bool) (old q : SimpleQueue P) : res (SimpleQueue P * SimpleQueue P * list P * bool) :=
  if front then FrontDropQueue_take_state old q else take_state old q.

(** A new queue after it has taken over [l]. *)
Definition after_swap (front : bool) (c : Z) l : Bounded :=
  let kept := (taken_over front (Z.to_nat c) l).1 in mkBounded c kept 0 (Z.of_nat (length kept)).

Lemma swap_spec front old l c q :
  ring old l -> refines q (mkBounded c [] 0 0) -> _head q = 0 ->
  exists old' q', swap front old q = Ok (old', q', (taken_over front (Z.to_nat c) l).2, false) /\
    ring old' [] /\ refines q' (after_swap front c l).
Proof.
  intros Hr [H1 H2 H3 H4] H0. cbn in *. subst c. destruct front; cbn [swap].
  - destruct (front_drop_take_state_spec old l q Hr H1 H0) as (old' & q' & E & A1 & A2 & A3 & A4 & A5). exists old', q'.
    replace (length l - Nat.min (length l) (Z.to_nat (_capacity q)))%nat with (length l - Z.to_nat (_capacity q))%nat in * by lia.
    split_and!; [done|done|]. split; cbn; [done|done|congruence|]. rewrite A5, length_drop. lia.
  - destruct (take_state_spec old l q Hr H1 H0) as (old' & q' & E & A1 & A2 & A3 & A4 & A5). exists old', q'.
    split_and!; [done|done|]. split; cbn; [done|done|congruence|]. rewrite A5, length_take. lia.
Qed.

Lemma swap_refused front old q b : refines q b -> b_list b <> [] -> swap front old q = Ok (old, q, [], true).
Proof.
  intros [H1 _ _ _] Hb. unfold swap, take_state, FrontDropQueue_take_state.
  rewrite Z.eqb_sym, (ring_empty q _ H1), bool_decide_eq_false_2 by done. by destruct front.
Qed.

(** C20: A queue that replaces another when the configuration is hot swapped goes on
    where the old one stopped.  After any sequence of operations on the old queue, as in
    the refinement of a single queue, the new one of any capacity below 2^31 - 1 takes
    its packets over: all that there is room for, in their order, the oldest if it is a
    SimpleQueue and the newest if it is a FrontDropQueue; the others are killed, each
    once, and the old queue is left empty, so that no packet is in both or lost.  Under
    any further sequence of operations the new queue gives away what a list bounded by
    its capacity does that starts with these packets.  A queue that already holds
    packets refuses to take over any: nothing changes, and an error is reported. *)
Theorem hot_swap_refines front c ops c' ops' empty empty' :
  0 <= c < 2 ^ 31 - 1 -> valid_all ops (mkBounded c [] 0 0) -> 0 <= c' < 2 ^ 31 - 1 ->
  let b := (spec_all ops (mkBounded c [] 0 0)).1 in
  let b' := after_swap front c' (b_list b) in
  valid_all ops' b' ->
  exists q n q1 old' q' n',
    initialize (configure (Some c) (SimpleQueue_new 0)) = Ok q /\
    exec_all ops (mkNotifierQueue q 0 empty true) = Ok (n, (spec_all ops (mkBounded c [] 0 0)).2) /\
    initialize (configure (Some c') (SimpleQueue_new 0)) = Ok q1 /\
    swap front (simple n) q1 = Ok (old', q', (taken_over front (Z.to_nat c') (b_list b)).2, false) /\
    ring old' [] /\
    exec_all ops' (mkNotifierQueue q' 0 empty' true) = Ok (n', (spec_all ops' b').2) /\
    refines (simple n') (spec_all ops' b').1 /\
    (b_list (spec_all ops' b').1 <> [] -> swap front old' (simple n') = Ok (old', simple n', [], true)).
Proof.
  intros Hc Hv Hc' b b' Hv'. destruct (new_refines (P := P) c Hc) as (q & Eq & Hr).
  destruct (exec_all_ok ops (mkNotifierQueue q 0 empty true) _ Hr Hv) as (n & E & Hn & _). fold b in Hn.
  destruct (new_refines (P := P) c' Hc') as (q1 & Eq1 & Hr1).
  destruct (swap_spec front (simple n) (b_list b) c' q1 (rf_ring _ _ Hn) Hr1) as (old' & q' & Es & Ho & Hq'); [by injection Eq1 as <-|].
  destruct (exec_all_ok ops' (mkNotifierQueue q' 0 empty' true) b' Hq' Hv') as (n' & E' & Hn' & _).
  exists q, n, q1, old', q', n'. split_and!; try done. intros Hne. by eapply swap_refused.
Qed.
End hot_swap.

(** Three packets and room for two of them: a SimpleQueue kills the last, a
    FrontDropQueue the first. *)
Lemma hot_swap_refines_witness :
  (exists n q1 old' q' n', swap false (simple n) q1 = Ok (old', q', [3], false) /\
    exec_all [SPush 4; SPull] (mkNotifierQueue q' 0 true true) = Ok (n', [(None, [4]); (Some 1, [])])) /\
  (exists n q1 old' q' n', swap true (simple n) q1 = Ok (old', q', [1], false) /\
    exec_all [DPush 4; SPull] (mkNotifierQueue q' 0 true true) = Ok (n', [(None, [2]); (Some 3, [])])).
Proof.
  split.
  - destruct (hot_swap_refines false 3 [SPush 1; SPush 2; SPush 3] 2 [SPush 4; SPull] true true)
      as (q & n & q1 & old' & q' & n' & _ & _ & _ & E & _ & E' & _ & _); [lia|cbn; lia|lia|cbn; lia|].
    exists n, q1, old', q', n'. split; [exact E|exact E'].
  - destruct (hot_swap_refines true 3 [SPush 1; SPush 2; SPush 3] 2 [DPush 4; SPull] true true)
      as (q & n & q1 & old' & q' & n' & _ & _ & _ & E & _ & E' & _ & _); [lia|cbn; lia|lia|cbn; lia|].
    exists n, q1, old', q', n'. split; [exact E|exact E'].
Defined.

(** A FrontDropQueue that holds 1, 2 and 3. *)
Definition three_packets : res (NotifierQueue Z) :=
  let* q := initialize (configure (Some 4) (SimpleQueue_new 0)) in
  let* r := exec_all [DPush 1; DPush 2; DPush 3] (mkNotifierQueue q 0 true true) in Ok r.1.

(** FrontDropQueue's live_reconfigure goes wrong for every kind of change.  With
    room for all packets, the oldest is neither kept nor killed.  With less room the
    packet that fills the queue is killed as well, and stays in it.  An empty queue
    makes it read before the start of its ring. *)
Theorem front_drop_reconfigure_loses :
  exists n, three_packets = Ok n /\ ring (simple n) [1; 2; 3] /\
    (exists q, FrontDropQueue_live_reconfigure (Some 6) (simple n) = Ok (q, []) /\ ring q [2; 3]) /\
    (exists q, FrontDropQueue_live_reconfigure (Some 1) (simple n) = Ok (q, [3; 2]) /\ ring q [3]) /\
    (exists q, initialize (P := Z) (configure (Some 4) (SimpleQueue_new 0)) = Ok q /\
      FrontDropQueue_live_reconfigure (Some 6) q = Fault OutOfBounds).
Proof.
  destruct (new_refines (P := Z) 4 ltac:(lia)) as (q & Eq & Hr).
  destruct (exec_all_ok [DPush 1; DPush 2; DPush 3] (mkNotifierQueue q 0 true true) _ Hr ltac:(by repeat split)) as (n & E & Hn & _).
  exists n. split; [unfold three_packets; rewrite Eq; cbn [mbind res_bind]; by rewrite E|]. split; [exact (rf_ring _ _ Hn)|].
  injection Eq as <-. vm_compute in E. injection E as <-.
  assert (forall slots cap h t d hw (l : list Z), 0 <= cap < 2 ^ 31 - 1 -> Z.of_nat (length slots) = cap + 1 -> 0 <= h <= cap ->
    t = after cap h (length l) -> Z.of_nat (length l) <= cap ->
    forallb (fun k => bool_decide (slots !! Z.to_nat (after cap h k) = Some (l !! k))) (seq 0 (length l)) = true ->
    ring (mkSimpleQueue slots cap h t d hw) l) as Hring.
  { intros slots cap h t d hw l A1 A2 A3 A4 A5 A6. split; cbn; try done. intros k p Hk. rewrite <- Hk.
    apply (bool_decide_eq_true_1 _), (proj1 (List.forallb_forall _ _) A6 k), in_seq. pose proof (lookup_lt_Some _ _ _ Hk). lia. }
  split_and!.
  - eexists. split; [vm_compute; reflexivity|]. apply Hring; (lia || (vm_compute; done)).
  - eexists. split; [vm_compute; reflexivity|]. apply Hring; (lia || (vm_compute; done)).
  - eexists. split; [done|]. vm_compute. reflexivity.
Qed.
