(* ===== verification/QueueThreads.v ===== *)
(** * QueueThreads: ThreadSafeQueue with several threads

    [ThreadSafeQueue::push] and [pull] (elements/standard/threadsafequeue.cc; MSQueue is
    the same class) as threads execute them: every access to a shared variable is a
    step of its own, and the steps of the threads interleave.  The compare-and-swap of
    include/click/atomic.hh and the waking and putting to sleep of a signal are atomic,
    and memory is sequentially consistent.

    [size ()] reads the two indices in an order that the language leaves open: the
    action of the step chooses.  The counters [_drops] and [_highwater_length], which
    nothing depends on, are left out. *)

From S2P Require Import Prelude Queues.

Section threads.
Context {P : Type}.

(** Where a thread is: what it is about to do, with its local variables. *)
Inductive Pc :=
| Idle
(* push *)
| PStart (p : P)                    (* t = _tail *)
| PRead (p : P) (t : Z)             (* _xtail.compare_swap (t, nt) *)
| PReserved (p : P) (t : Z)         (* h = _head *)
| PChecked (p : P) (t h : Z)        (* _q[t] = p *)
| PWrote (p : P) (t h : Z)          (* _tail = nt *)
| PPushed (h nt : Z)                (* _empty_note.wake () *)
| PSleep                            (* _full_note.sleep () *)
| PSlept                            (* the first read of size () *)
| PSize (of_head : bool) (v : Z)    (* the second, and the test *)
| PWake                             (* _full_note.wake () *)
| PFull (p : P) (t : Z)             (* _xtail = t *)
(* pull *)
| GStart                            (* h = _head *)
| GRead (h : Z)                     (* _xhead.compare_swap (h, nh) *)
| GReserved (h : Z)                 (* t = _tail *)
| GChecked (h : Z)                  (* p = _q[h] *)
| GTook (h : Z) (p : P)             (* _head = nh *)
| GPulled (p : P)                   (* _sleepiness = 0 *)
| GCalmed (p : P)                   (* _full_note.wake () *)
| GEmpty (h : Z)                    (* _xhead = h *)
| GFailed                           (* the test of _sleepiness *)
| GBump (v : Z)                     (* ++_sleepiness *)
| GSleep                            (* _empty_note.sleep () *)
| GSlept                            (* the first read of size () *)
| GSize (of_head : bool) (v : Z)    (* the second, and the test *)
| GWake                             (* _empty_note.wake () *).

Record State := mkState {
  queue : SimpleQueue P;
  _xhead : Z;
  _xtail : Z;
  sleepiness : Z;
  empty_note : bool;
  full_note : bool;
  pcs : list Pc
}.

Definition start (q : SimpleQueue P) (threads : nat) : State := mkState q 0 0 0 true true (replicate threads Idle).

Definition set_queue (q : SimpleQueue P) (s : State) : State := mkState q (_xhead s) (_xtail s) (sleepiness s) (empty_note s) (full_note s) (pcs s).
Definition set_xhead (x : Z) (s : State) : State := mkState (queue s) x (_xtail s) (sleepiness s) (empty_note s) (full_note s) (pcs s).
Definition set_xtail (x : Z) (s : State) : State := mkState (queue s) (_xhead s) x (sleepiness s) (empty_note s) (full_note s) (pcs s).
Definition set_sleepy (x : Z) (s : State) : State := mkState (queue s) (_xhead s) (_xtail s) x (empty_note s) (full_note s) (pcs s).
Definition set_empty (b : bool) (s : State) : State := mkState (queue s) (_xhead s) (_xtail s) (sleepiness s) b (full_note s) (pcs s).
Definition set_full (b : bool) (s : State) : State := mkState (queue s) (_xhead s) (_xtail s) (sleepiness s) (empty_note s) b (pcs s).
Definition goto (i : nat) (pc : Pc) (s : State) : State :=
  mkState (queue s) (_xhead s) (_xtail s) (sleepiness s) (empty_note s) (full_note s) (<[i := pc]> (pcs s)).

(** What a call does to the queue. *)
Inductive Call :=
| CPush (p : P)
| CDrop (p : P)
| CPull (p : P)
| CEmpty.

(** An idle thread starts a call; the others go on. *)
Inductive Act := StartPush (p : P) | StartPull | Go (head_first : bool).

Definition cap (s : State) : Z := _capacity (queue s).
Definition hd_ (s : State) : Z := _head (queue s).
Definition tl_ (s : State) : Z := _tail (queue s).
Definition nxt (s : State) : Z -> Z := next (queue s).

(** The other index is read, and the size is that of the pair. *)
Definition other_size (s : State) (of_head : bool) (v : Z) : Z :=
  if of_head then size_between (cap s) v (tl_ s) else size_between (cap s) (hd_ s) v.

(** A step of thread [i] that is at [pc]. *)
Definition step_pc (i : nat) (pc : Pc) (a : Act) (s : State) : option (State * option Call) :=
  let to pc s := Some (goto i pc s, None) in
  match pc, a with
  | Idle, StartPush p => to (PStart p) s
  | Idle, StartPull => to GStart s
  | Idle, Go _ => None
  | PStart p, Go _ => to (PRead p (tl_ s)) s
  | PRead p t, Go _ => if _xtail s =? t then to (PReserved p t) (set_xtail (nxt s t) s) else to (PStart p) s
  | PReserved p t, Go _ =>
      let h := hd_ s in
      if negb (nxt s t =? h) then to (PChecked p t h) s else Some (goto i (PFull p t) s, Some (CDrop p))
  | PChecked p t h, Go _ =>
      match put t p (queue s) with
      | Ok q => to (PWrote p t h) (set_queue q s)
      | Fault _ => None
      end
  | PWrote p t h, Go _ =>
      Some (goto i (PPushed h (nxt s t)) (set_queue (set_tail (nxt s t) (queue s)) s), Some (CPush p))
  | PPushed h nt, Go _ =>
      to (if size_between (cap s) h nt =? cap s then PSleep else Idle) (set_empty true s)
  | PSleep, Go _ => to PSlept (set_full false s)
  | PSlept, Go head_first => to (PSize head_first (if head_first then hd_ s else tl_ s)) s
  | PSize of_head v, Go _ => to (if other_size s of_head v <? cap s then PWake else Idle) s
  | PWake, Go _ => to Idle (set_full true s)
  | PFull p t, Go _ => to Idle (set_xtail t s)
  | GStart, Go _ => to (GRead (hd_ s)) s
  | GRead h, Go _ => if _xhead s =? h then to (GReserved h) (set_xhead (nxt s h) s) else to GStart s
  | GReserved h, Go _ =>
      if negb (tl_ s =? h) then to (GChecked h) s else Some (goto i (GEmpty h) s, Some CEmpty)
  | GChecked h, Go _ =>
      match get (queue s) h with
      | Ok p => to (GTook h p) s
      | Fault _ => None
      end
  | GTook h p, Go _ => Some (goto i (GPulled p) (set_queue (set_head (nxt s h) (queue s)) s), Some (CPull p))
  | GPulled p, Go _ => to (GCalmed p) (set_sleepy 0 s)
  | GCalmed p, Go _ => to Idle (set_full true s)
  | GEmpty h, Go _ => to GFailed (set_xhead h s)
  | GFailed, Go _ => to (if SLEEPINESS_TRIGGER <=? sleepiness s then GSleep else GBump (sleepiness s)) s
  | GBump v, Go _ => to Idle (set_sleepy (v + 1) s)
  | GSleep, Go _ => to GSlept (set_empty false s)
  | GSlept, Go head_first => to (GSize head_first (if head_first then hd_ s else tl_ s)) s
  | GSize of_head v, Go _ => to (if negb (other_size s of_head v =? 0) then GWake else Idle) s
  | GWake, Go _ => to Idle (set_empty true s)
  | _, _ => None
  end.

Definition step (i : nat) (a : Act) (s : State) : option (State * option Call) :=
  match pcs s !! i with
  | Some pc => step_pc i pc a s
  | None => None
  end.

(** [live_reconfigure], which is called when no thread is within [push] or [pull]. *)
Definition reconfigure_all (capacity : option Z) (s : State) : res (State * list P) :=
  let* r := live_reconfigure capacity (queue s) in
  let q := r.1 in
  let full := if (size q <? _capacity q) && negb (length (_q q) =? 0)%nat then true else full_note s in
  Ok (mkState q (_head q) (_tail q) (sleepiness s) (empty_note s) full (pcs s), r.2).

(** The steps of a schedule, and what the calls did, in order. *)
Fixpoint run (schedule : list (nat * Act)) (s : State) : option (State * list Call) :=
  match schedule with
  | [] => Some (s, [])
  | (i, a) :: schedule =>
      r ← step i a s;
      r' ← run schedule r.1;
      Some (r'.1, option_list r.2 ++ r'.2)
  end.

(** A compare-and-swap that succeeds finds the index where it was when it was read. *)
Definition fresh_step (i : nat) (s : State) : bool :=
  match pcs s !! i with
  | Some (PRead _ t) => if _xtail s =? t then tl_ s =? t else true
  | Some (GRead h) => if _xhead s =? h then hd_ s =? h else true
  | _ => true
  end.

Fixpoint fresh (schedule : list (nat * Act)) (s : State) : bool :=
  match schedule with
  | [] => true
  | (i, a) :: schedule =>
      fresh_step i s && match step i a s with Some r => fresh schedule r.1 | None => true end
  end.
End threads.
Arguments State : clear implicits.
Arguments Pc : clear implicits.
