(* ===== verification/QueueThreadsProps.v ===== *)
(** * QueueThreadsProps: several threads on one ThreadSafeQueue

    When no thread is so slow that the ring makes a turn between its reading of an
    index and its compare-and-swap, the calls take effect one after the other as they
    would on a bounded list, and when all threads have finished the signals are
    right.  Without that condition packets are lost and the queue stays shut. *)

From S2P Require Import Prelude Queues QueuesProps QueueThreads.

Section threads.
Context {P : Type}.
Implicit Types (s : State P) (l : list P) (p : P) (pc : Pc P).

(** One call on a list bounded by [c]. *)
Inductive call_ok (c : Z) : list P -> Call -> list P -> Prop :=
| ok_push l p : Z.of_nat (length l) < c -> call_ok c l (CPush p) (l ++ [p])
| ok_drop l p : Z.of_nat (length l) = c -> call_ok c l (CDrop p) l
| ok_pull l p : call_ok c (p :: l) (CPull p) l
| ok_empty : call_ok c [] CEmpty [].

Inductive fifo (c : Z) : list P -> list Call -> list P -> Prop :=
| fifo_nil l : fifo c l [] l
| fifo_cons l k l1 calls l2 : call_ok c l k l1 -> fifo c l1 calls l2 -> fifo c l (k :: calls) l2.

(** The index that a thread has reserved. *)
Definition push_hold pc : option Z :=
  match pc with
  | PReserved _ t | PChecked _ t _ | PWrote _ t _ | PFull _ t => Some t
  | _ => None
  end.
Definition pull_hold pc : option Z :=
  match pc with
  | GReserved h | GChecked h | GTook h _ | GEmpty h => Some h
  | _ => None
  end.

(** What a thread that has reserved an index knows. *)
Definition knows (q : SimpleQueue P) l pc : Prop :=
  match pc with
  | PChecked _ _ _ => Z.of_nat (length l) < _capacity q
  | PWrote p _ _ => Z.of_nat (length l) < _capacity q /\ _q q !! Z.to_nat (_tail q) = Some (Some p)
  | GChecked _ => l <> []
  | GTook _ p => head l = Some p
  | GSize _ v => 0 <= v <= _capacity q
  | _ => True
  end.

(** Threads that will wake the signals, or will find that they have to. *)
Definition wakes_empty (q : SimpleQueue P) pc : bool :=
  match pc with
  | PPushed _ _ | GSlept | GWake => true
  | GSize true v => negb (v =? _tail q)
  | GSize false v => v =? _tail q
  | _ => false
  end.
Definition wakes_full (q : SimpleQueue P) pc : bool :=
  match pc with
  | GPulled _ | GCalmed _ | PSlept | PWake => true
  | PSize true v => v =? _head q
  | PSize false v => size_between (_capacity q) (_head q) v <? _capacity q
  | _ => false
  end.

(** [ph] and [gh]: the thread that has reserved the tail, and the one that has the head. *)
Record inv s l (ph gh : option nat) : Prop := mkInv {
  inv_ring : ring (queue s) l;
  inv_xtail : _xtail s = match ph with Some _ => nxt s (tl_ s) | None => tl_ s end;
  inv_xhead : _xhead s = match gh with Some _ => nxt s (hd_ s) | None => hd_ s end;
  inv_push : forall i pc, pcs s !! i = Some pc -> push_hold pc = if decide (ph = Some i) then Some (tl_ s) else None;
  inv_pull : forall i pc, pcs s !! i = Some pc -> pull_hold pc = if decide (gh = Some i) then Some (hd_ s) else None;
  inv_knows : forall i pc, pcs s !! i = Some pc -> knows (queue s) l pc;
  inv_threads : forall i, ph = Some i \/ gh = Some i -> (i < length (pcs s))%nat;
  inv_empty : l <> [] -> empty_note s = true \/ exists i pc, pcs s !! i = Some pc /\ wakes_empty (queue s) pc = true;
  inv_full : Z.of_nat (length l) < cap s -> full_note s = true \/ exists i pc, pcs s !! i = Some pc /\ wakes_full (queue s) pc = true
}.

(** What is left to show when thread [i] goes from [pc] to [pc']: about its own
    reservation, what it and the others know, and who wakes the signals. *)
Lemma inv_goto s s' l l' ph ph' gh gh' i pc pc' :
  inv s l ph gh -> pcs s !! i = Some pc -> pcs s' = <[i := pc']> (pcs s) ->
  ring (queue s') l' ->
  _xtail s' = match ph' with Some _ => nxt s' (tl_ s') | None => tl_ s' end ->
  _xhead s' = match gh' with Some _ => nxt s' (hd_ s') | None => hd_ s' end ->
  push_hold pc' = (if decide (ph' = Some i) then Some (tl_ s') else None) ->
  pull_hold pc' = (if decide (gh' = Some i) then Some (hd_ s') else None) ->
  (forall j, j <> i -> (ph' = Some j <-> ph = Some j) /\ (ph = Some j -> tl_ s' = tl_ s)) ->
  (forall j, j <> i -> (gh' = Some j <-> gh = Some j) /\ (gh = Some j -> hd_ s' = hd_ s)) ->
  knows (queue s') l' pc' ->
  (forall j pcj, j <> i -> (is_Some (push_hold pcj) -> ph = Some j) -> (is_Some (pull_hold pcj) -> gh = Some j) ->
    knows (queue s) l pcj -> knows (queue s') l' pcj) ->
  (l' <> [] -> empty_note s' = true \/ wakes_empty (queue s') pc' = true \/
    l <> [] /\ empty_note s' = empty_note s /\ wakes_empty (queue s) pc = false /\
    forall pcj, wakes_empty (queue s) pcj = true -> wakes_empty (queue s') pcj = true) ->
  (Z.of_nat (length l') < cap s' -> full_note s' = true \/ wakes_full (queue s') pc' = true \/
    Z.of_nat (length l) < cap s /\ full_note s' = full_note s /\ wakes_full (queue s) pc = false /\
    forall pcj, wakes_full (queue s) pcj = true -> wakes_full (queue s') pcj = true) ->
  inv s' l' ph' gh'.
Proof.
  intros [I1 I2 I3 I4 I5 I6 I0 I7 I8] Hi Epcs Hr Hxt Hxh Hp Hg Hop Hog Hk Hok He Hf.
  assert (forall j, pcs s' !! j = if decide (j = i) then Some pc' else pcs s !! j) as Hl.
  { intros j. rewrite Epcs. destruct (decide (j = i)) as [->|Hn]; [apply list_lookup_insert_eq; by eapply lookup_lt_Some|by apply list_lookup_insert_ne]. }
  assert (forall f f' : Pc P -> bool, f pc = false -> (forall pcj, f pcj = true -> f' pcj = true) ->
    (exists j pcj, pcs s !! j = Some pcj /\ f pcj = true) -> exists j pcj, pcs s' !! j = Some pcj /\ f' pcj = true) as Hex.
  { intros f f' Hfpc Hff (j & pcj & Hj & Hfj). exists j, pcj. rewrite Hl, decide_False; [by auto|]. intros ->. congruence. }
  split; [done|done|done| | | | | |].
  - intros j pcj. rewrite Hl. destruct (decide (j = i)) as [->|Hn]; [by intros [= <-]|]. intros Hj. rewrite (I4 j pcj Hj).
    destruct (Hop j Hn) as [H1 H2]. destruct (decide (ph = Some j)) as [E|E].
    + rewrite decide_True by (by apply H1). by rewrite (H2 E).
    + by rewrite decide_False by (by intros E'; apply E, H1).
  - intros j pcj. rewrite Hl. destruct (decide (j = i)) as [->|Hn]; [by intros [= <-]|]. intros Hj. rewrite (I5 j pcj Hj).
    destruct (Hog j Hn) as [H1 H2]. destruct (decide (gh = Some j)) as [E|E].
    + rewrite decide_True by (by apply H1). by rewrite (H2 E).
    + by rewrite decide_False by (by intros E'; apply E, H1).
  - intros j pcj. rewrite Hl. destruct (decide (j = i)) as [->|Hn]; [by intros [= <-]|]. intros Hj. apply (Hok j pcj Hn); [| |by eapply I6].
    + rewrite (I4 j pcj Hj). destruct (decide (ph = Some j)); [done|]. by intros [].
    + rewrite (I5 j pcj Hj). destruct (decide (gh = Some j)); [done|]. by intros [].
  - intros j Hj. rewrite Epcs, length_insert. destruct (decide (j = i)) as [->|Hn]; [by eapply lookup_lt_Some|].
    apply I0. destruct Hj as [Hj|Hj]; [left; by apply (Hop j Hn)|right; by apply (Hog j Hn)].
  - intros Hne. destruct (He Hne) as [H|[H|(H1 & H2 & H3 & H4)]]; [by left| |].
    + right. exists i, pc'. by rewrite Hl, decide_True.
    + destruct (I7 H1) as [H|H]; [left; congruence|]. right. by apply (Hex (wakes_empty (queue s)) (wakes_empty (queue s'))).
  - intros Hlt. destruct (Hf Hlt) as [H|[H|(H1 & H2 & H3 & H4)]]; [by left| |].
    + right. exists i, pc'. by rewrite Hl, decide_True.
    + destruct (I8 H1) as [H|H]; [left; congruence|]. right. by apply (Hex (wakes_full (queue s)) (wakes_full (queue s'))).
Qed.

(** The same when the queue and the reservations stay as they are. *)
Lemma inv_local s s' l ph gh i pc pc' :
  inv s l ph gh -> pcs s !! i = Some pc -> pcs s' = <[i := pc']> (pcs s) ->
  queue s' = queue s -> _xtail s' = _xtail s -> _xhead s' = _xhead s ->
  push_hold pc' = push_hold pc -> pull_hold pc' = pull_hold pc -> knows (queue s) l pc' ->
  (l <> [] -> empty_note s' = true \/ wakes_empty (queue s) pc' = true \/ empty_note s' = empty_note s /\ wakes_empty (queue s) pc = false) ->
  (Z.of_nat (length l) < cap s -> full_note s' = true \/ wakes_full (queue s) pc' = true \/ full_note s' = full_note s /\ wakes_full (queue s) pc = false) ->
  inv s' l ph gh.
Proof.
  intros Hinv Hi Ep Eq Et Eh Hp Hg Hk He Hf. pose proof Hinv as [I1 I2 I3 I4 I5 I6 I0 I7 I8].
  assert (tl_ s' = tl_ s /\ hd_ s' = hd_ s /\ nxt s' = nxt s /\ cap s' = cap s) as (E1 & E2 & E3 & E4) by (unfold tl_, hd_, nxt, cap; by rewrite Eq).
  eapply (inv_goto s s' l l ph ph gh gh i pc pc'); rewrite ?Eq, ?E1, ?E2, ?E3, ?E4, ?Et, ?Eh; try done.
  - rewrite Hp. by apply I4.
  - rewrite Hg. by apply I5.
  - intros Hn. destruct (He Hn) as [H|[H|[H1 H2]]]; [by left|by right; left|by right; right].
  - intros Hn. destruct (Hf Hn) as [H|[H|[H1 H2]]]; [by left|by right; left|by right; right].
Qed.

(** A packet behind the tail, and the tail behind the packet. *)
Lemma ring_put_tail (q : SimpleQueue P) l p :
  ring q l -> Z.of_nat (length l) < _capacity q ->
  exists q1, put (_tail q) p q = Ok q1 /\ ring q1 l /\ _q q1 !! Z.to_nat (_tail q) = Some (Some p) /\ q1 = set_slots (_q q1) q.
Proof.
  intros Hr Hl. pose proof Hr as [H1 H2 H3 H4 H5 H6]. pose proof (after_range (_capacity q) H1 (_head q) (length l)) as Hrange.
  rewrite H5. eexists. split; [by eapply put_after|]. split_and!; [| |done].
  - split; cbn; rewrite ?length_insert; [done..|]. intros k x Hk. pose proof (lookup_lt_Some _ _ _ Hk).
    pose proof (after_range (_capacity q) H1 (_head q) k). rewrite list_lookup_insert_ne; [by apply H6|]. intros E.
    pose proof (after_inj (_capacity q) (_head q) k (length l) H3 ltac:(lia) ltac:(lia) ltac:(lia)). lia.
  - cbn. apply list_lookup_insert_eq. lia.
Qed.

Lemma ring_commit (q : SimpleQueue P) l p :
  ring q l -> Z.of_nat (length l) < _capacity q -> _q q !! Z.to_nat (_tail q) = Some (Some p) ->
  ring (set_tail (next q (_tail q)) q) (l ++ [p]).
Proof.
  intros [H1 H2 H3 H4 H5 H6] Hl Hp. split; cbn; rewrite ?length_app; cbn [length]; [done|done|done|lia| |].
  - unfold next. rewrite H5, next_after_k by done. f_equal. lia.
  - intros k x Hk. apply lookup_app_Some in Hk as [Hk|[Hk1 Hk2]]; [by apply H6|].
    apply list_lookup_singleton_Some in Hk2 as [Hk2 <-]. replace k with (length l) by lia. by rewrite <- H5.
Qed.

Lemma size_between_zero c v t : 0 <= c < 2 ^ 31 - 1 -> 0 <= v <= c -> 0 <= t <= c -> size_between c v t = 0 -> v = t.
Proof.
  intros Hc Hv Ht. pose proof (Z.mod_pos_bound (t - v) (c + 1) ltac:(lia)).
  assert (t = after c v (Z.to_nat ((t - v) mod (c + 1)))) as E.
  { unfold after. rewrite Z2Nat.id by lia. rewrite Z.add_mod_idemp_r by lia. replace (v + (t - v)) with t by lia. symmetry. apply Z.mod_small. lia. }
  set (k := Z.to_nat ((t - v) mod (c + 1))) in *. assert (Z.of_nat k <= c) as Hk by lia. clearbody k.
  rewrite E at 1. rewrite size_between_after by lia. intros E0. replace k with 0%nat in E by lia. rewrite after_0 in E by lia. lia.
Qed.

(** ** Steps *)

Section steps.
Context (i : nat) (s : State P) (l : list P) (ph gh : option nat) (Hinv : inv s l ph gh).

Lemma tail_range : 0 <= tl_ s <= cap s.
Proof using Hinv. destruct (inv_ring _ _ _ _ Hinv) as [R1 R2 R3 R4 R5 R6]. unfold tl_, cap. rewrite R5. by apply after_range. Qed.

Lemma holds_tail pc t : pcs s !! i = Some pc -> push_hold pc = Some t -> ph = Some i /\ t = tl_ s.
Proof using Hinv.
  intros Hi Ht. rewrite (inv_push _ _ _ _ Hinv i pc Hi) in Ht. destruct (decide (ph = Some i)); [|done]. by injection Ht as <-.
Qed.
Lemma holds_head pc h : pcs s !! i = Some pc -> pull_hold pc = Some h -> gh = Some i /\ h = hd_ s.
Proof using Hinv.
  intros Hi Ht. rewrite (inv_pull _ _ _ _ Hinv i pc Hi) in Ht. destruct (decide (gh = Some i)); [|done]. by injection Ht as <-.
Qed.
Lemma free_head pc : pcs s !! i = Some pc -> pull_hold pc = None -> gh <> Some i.
Proof using Hinv. intros Hi Ht. rewrite (inv_pull _ _ _ _ Hinv i pc Hi) in Ht. by destruct (decide (gh = Some i)). Qed.
Lemma free_tail pc : pcs s !! i = Some pc -> push_hold pc = None -> ph <> Some i.
Proof using Hinv. intros Hi Ht. rewrite (inv_push _ _ _ _ Hinv i pc Hi) in Ht. by destruct (decide (ph = Some i)). Qed.

(** One slot is never used, so the next index is another. *)
Lemma next_ne t : 0 < cap s -> 0 <= t <= cap s -> nxt s t <> t.
Proof using Hinv.
  intros Hc Ht. destruct (inv_ring _ _ _ _ Hinv) as [R1 R2 R3 R4 R5 R6]. unfold nxt, next. fold (cap s). unfold next_i.
  destruct (Z.eqb_spec t (cap s)) as [->|Hn]; [lia|]. unfold u32. rewrite uwrap_id by (unfold cap in *; zrange). lia.
Qed.

(** What a step has to show. *)
Definition step_good (s' : State P) (k : option Call) : Prop :=
  exists l' ph' gh', inv s' l' ph' gh' /\ cap s' = cap s /\ match k with None => l' = l | Some k => call_ok (cap s) l k l' end.

Context (Hcap : 0 < cap s).

(** The index is reserved. *)
Lemma reserve_tail p t :
  pcs s !! i = Some (PRead p t) -> _xtail s = t -> tl_ s = t -> step_good (goto i (PReserved p t) (set_xtail (nxt s t) s)) None.
Proof using Hinv Hcap.
  intros Hi Hx Ht. pose proof (inv_xtail _ _ _ _ Hinv) as Hxt. pose proof (free_tail _ Hi eq_refl) as Hph. pose proof (free_head _ Hi eq_refl) as Hgh.
  pose proof (next_ne (tl_ s) Hcap tail_range) as Hne. pose proof Hinv as HI.
  assert (ph = None) as Eph by (destruct ph as [j|]; [|done]; congruence). rewrite Eph in HI.
  exists l, (Some i), gh. split; [|done]. eapply (inv_goto s _ l l None (Some i) gh gh i); try done;
    first [exact (inv_ring _ _ _ _ HI)|exact (inv_xtail _ _ _ _ HI)|exact (inv_xhead _ _ _ _ HI)|idtac].
  - change (nxt s t = nxt s (tl_ s)). by rewrite Ht.
  - rewrite decide_True by done. change (Some t = Some (tl_ s)). by rewrite Ht.
  - by rewrite decide_False.
  - intros j Hj. split; [|done]. split; [intros [= ->]; done|done].
  - intros Hl. by right; right.
  - intros Hl. by right; right.
Qed.

Lemma reserve_head h :
  pcs s !! i = Some (GRead h) -> _xhead s = h -> hd_ s = h -> step_good (goto i (GReserved h) (set_xhead (nxt s h) s)) None.
Proof using Hinv Hcap.
  intros Hi Hx Ht. pose proof (inv_xhead _ _ _ _ Hinv) as Hxt. pose proof (free_tail _ Hi eq_refl) as Hph. pose proof (free_head _ Hi eq_refl) as Hgh.
  pose proof (next_ne (hd_ s) Hcap (ring_head _ _ (inv_ring _ _ _ _ Hinv))) as Hne. pose proof Hinv as HI.
  assert (gh = None) as Egh by (destruct gh as [j|]; [|done]; congruence). rewrite Egh in HI.
  exists l, ph, (Some i). split; [|done]. eapply (inv_goto s _ l l ph ph None (Some i) i); try done;
    first [exact (inv_ring _ _ _ _ HI)|exact (inv_xtail _ _ _ _ HI)|exact (inv_xhead _ _ _ _ HI)|idtac].
  - change (nxt s h = nxt s (hd_ s)). by rewrite Ht.
  - by rewrite decide_False.
  - rewrite decide_True by done. change (Some h = Some (hd_ s)). by rewrite Ht.
  - intros j Hj. split; [|done]. split; [intros [= ->]; done|done].
  - intros Hl. by right; right.
  - intros Hl. by right; right.
Qed.

(** The reservation is given up. *)
Lemma release_tail p t :
  pcs s !! i = Some (PFull p t) -> step_good (goto i Idle (set_xtail t s)) None.
Proof using Hinv.
  intros Hi. pose proof Hinv as HI. destruct (holds_tail _ _ Hi eq_refl) as [Eph ->]. rewrite Eph in HI. pose proof (free_head _ Hi eq_refl) as Hgh.
  exists l, None, gh. split; [|done]. eapply (inv_goto s _ l l (Some i) None gh gh i); try done;
    first [exact (inv_ring _ _ _ _ HI)|exact (inv_xtail _ _ _ _ HI)|exact (inv_xhead _ _ _ _ HI)|idtac].
  - by rewrite decide_False.
  - intros j Hj. split; [|done]. split; [done|congruence].
  - intros Hl. by right; right.
  - intros Hl. by right; right.
Qed.

Lemma release_head h :
  pcs s !! i = Some (GEmpty h) -> step_good (goto i GFailed (set_xhead h s)) None.
Proof using Hinv.
  intros Hi. pose proof Hinv as HI. destruct (holds_head _ _ Hi eq_refl) as [Egh ->]. rewrite Egh in HI. pose proof (free_tail _ Hi eq_refl) as Hph.
  exists l, ph, None. split; [|done]. eapply (inv_goto s _ l l ph ph (Some i) None i); try done;
    first [exact (inv_ring _ _ _ _ HI)|exact (inv_xtail _ _ _ _ HI)|exact (inv_xhead _ _ _ _ HI)|idtac].
  - by rewrite decide_False.
  - intros j Hj. split; [|done]. split; [done|congruence].
  - intros Hl. by right; right.
  - intros Hl. by right; right.
Qed.

Lemma write_slot p t h :
  pcs s !! i = Some (PChecked p t h) ->
  exists q, put t p (queue s) = Ok q /\ step_good (goto i (PWrote p t h) (set_queue q s)) None.
Proof using Hinv.
  intros Hi. pose proof (inv_knows _ _ _ _ Hinv i _ Hi) as Hk. cbn in Hk. destruct (holds_tail _ _ Hi eq_refl) as [Eph ->].
  pose proof (free_head _ Hi eq_refl) as Hgh. destruct (ring_put_tail (queue s) l p (inv_ring _ _ _ _ Hinv) Hk) as (q & E & Hr & Hp & Eq).
  exists q. split; [exact E|]. exists l, ph, gh.
  assert (_tail q = tl_ s /\ _head q = hd_ s /\ _capacity q = cap s) as (E1 & E2 & E3) by (by rewrite Eq).
  split; [|split; [exact E3|done]]. eapply (inv_goto s _ l l ph ph gh gh i); try done; cbn [queue goto set_queue _xtail _xhead];
    unfold tl_, hd_, nxt, next, cap; cbn [queue goto set_queue]; rewrite ?E1, ?E2, ?E3; unfold tl_, hd_, cap;
    try exact (inv_xtail _ _ _ _ Hinv); try exact (inv_xhead _ _ _ _ Hinv).
  - rewrite decide_True by done. done.
  - by rewrite decide_False.
  - cbn. rewrite E1, E3. done.
  - intros j pcj Hj Hhp Hhg. destruct pcj; cbn; rewrite ?E3; try done. intros [Ha Hb]. exfalso. rewrite Eph in Hhp.
    assert (Some i = Some j) as [= ->] by (by apply Hhp). done.
  - intros Hl. right; right. split_and!; try done. intros []; cbn; rewrite ?E1; done.
  - intros Hl. right; right. split_and!; try done. intros []; cbn; rewrite ?E2, ?E3; done.
Qed.

Lemma write_tail p t h :
  pcs s !! i = Some (PWrote p t h) ->
  step_good (goto i (PPushed h (nxt s t)) (set_queue (set_tail (nxt s t) (queue s)) s)) (Some (CPush p)).
Proof using Hinv.
  intros Hi. pose proof (inv_knows _ _ _ _ Hinv i _ Hi) as [Hk Hp]. destruct (holds_tail _ _ Hi eq_refl) as [Eph ->].
  pose proof (free_head _ Hi eq_refl) as Hgh. pose proof (ring_commit (queue s) l p (inv_ring _ _ _ _ Hinv) Hk Hp) as Hr.
  exists (l ++ [p]), None, gh. split; [|split; [done|by constructor]].
  pose proof (inv_xtail _ _ _ _ Hinv) as Hxt. rewrite Eph in Hxt.
  eapply (inv_goto s _ l _ ph None gh gh i); try done; try exact (inv_xhead _ _ _ _ Hinv).
  - by rewrite decide_False.
  - intros j Hj. rewrite Eph. split; [split; [done|congruence]|congruence].
  - intros j pcj Hj Hhp Hhg. rewrite Eph in Hhp. destruct pcj; cbn; try done; try (by intros ? ?%app_nil).
    + intros _. exfalso. assert (Some i = Some j) as [= ->] by (by apply Hhp). done.
    + intros _. exfalso. assert (Some i = Some j) as [= ->] by (by apply Hhp). done.
    + intros Hl ?%app_nil. tauto.
    + destruct l; [done|]. by intros [= ->].
  - intros _. by right; left.
  - intros Hl. right; right. by split_and!.
Qed.

Lemma write_head p h :
  pcs s !! i = Some (GTook h p) ->
  step_good (goto i (GPulled p) (set_queue (set_head (nxt s h) (queue s)) s)) (Some (CPull p)).
Proof using Hinv.
  intros Hi. pose proof (inv_knows _ _ _ _ Hinv i _ Hi) as Hk. cbn in Hk. destruct (holds_head _ _ Hi eq_refl) as [Egh ->].
  pose proof (free_tail _ Hi eq_refl) as Hph. pose proof Hinv as HI. destruct l as [|x l'] eqn:El; [done|]. injection Hk as ->.
  destruct (ring_pop (queue s) l' p (inv_ring _ _ _ _ HI)) as [_ Hr].
  exists l', ph, None. split; [|split; [done|rewrite El; constructor]].
  pose proof (inv_xhead _ _ _ _ HI) as Hxh. rewrite Egh in Hxh.
  eapply (inv_goto s _ (p :: l') l' ph ph gh None i); try done; try exact (inv_xtail _ _ _ _ HI).
  - by rewrite decide_False.
  - intros j Hj. rewrite Egh. split; [split; [done|congruence]|congruence].
  - intros j pcj Hj Hhp Hhg. rewrite Egh in Hhg. destruct pcj; cbn; try done; try lia.
    + intros [Ha Hb]. split; [lia|done].
    + intros _. exfalso. assert (Some i = Some j) as [= ->] by (by apply Hhg). done.
    + intros _. exfalso. assert (Some i = Some j) as [= ->] by (by apply Hhg). done.
  - intros Hl. by right; right.
  - intros _. by right; left.
Qed.

(** A step that leaves the queue and the reservations alone; [e] and [f] say what it
    does to the signals. *)
Lemma local_good pc pc' s' k :
  pcs s !! i = Some pc -> pcs s' = <[i := pc']> (pcs s) -> queue s' = queue s -> _xtail s' = _xtail s -> _xhead s' = _xhead s ->
  push_hold pc' = push_hold pc -> pull_hold pc' = pull_hold pc -> knows (queue s) l pc' ->
  match k with None => True | Some k => call_ok (cap s) l k l end ->
  (l <> [] -> empty_note s' = true \/ wakes_empty (queue s) pc' = true \/ empty_note s' = empty_note s /\ wakes_empty (queue s) pc = false) ->
  (Z.of_nat (length l) < cap s -> full_note s' = true \/ wakes_full (queue s) pc' = true \/ full_note s' = full_note s /\ wakes_full (queue s) pc = false) ->
  step_good s' k.
Proof using Hinv.
  intros Hi E1 E2 E3 E4 E5 E6 Hk Hc He Hf. exists l, ph, gh. split; [by eapply (inv_local s s')|].
  split; [unfold cap; by rewrite E2|by destruct k].
Qed.

Ltac plain Hi := eapply (local_good _ _ _ _ Hi); [done|done|done|done|done|done|try done|try done|intros _; right; right; done|intros _; right; right; done].

(** The reservation holds while the other end is read. *)
Lemma check_tail p t :
  pcs s !! i = Some (PReserved p t) ->
  if negb (nxt s t =? hd_ s) then step_good (goto i (PChecked p t (hd_ s)) s) None else step_good (goto i (PFull p t) s) (Some (CDrop p)).
Proof using Hinv.
  intros Hi. destruct (holds_tail _ _ Hi eq_refl) as [_ ->]. pose proof (inv_ring _ _ _ _ Hinv) as Hr.
  unfold nxt, tl_, hd_. rewrite (ring_full _ _ Hr). pose proof (ring_length _ _ Hr).
  destruct (Z.eqb_spec (Z.of_nat (length l)) (_capacity (queue s))) as [E|E]; cbn [negb].
  - plain Hi. by constructor.
  - plain Hi. cbn. lia.
Qed.

Lemma check_head h :
  pcs s !! i = Some (GReserved h) ->
  if negb (tl_ s =? h) then step_good (goto i (GChecked h) s) None else step_good (goto i (GEmpty h) s) (Some CEmpty).
Proof using Hinv.
  intros Hi. destruct (holds_head _ _ Hi eq_refl) as [_ ->]. pose proof (inv_ring _ _ _ _ Hinv) as Hr.
  unfold tl_, hd_. rewrite Z.eqb_sym, (ring_empty _ _ Hr). case_bool_decide as E; cbn [negb].
  - plain Hi. rewrite E. constructor.
  - plain Hi.
Qed.

Lemma read_slot h :
  pcs s !! i = Some (GChecked h) -> exists p, get (queue s) h = Ok p /\ step_good (goto i (GTook h p) s) None.
Proof using Hinv.
  intros Hi. destruct (holds_head _ _ Hi eq_refl) as [_ ->]. pose proof (inv_knows _ _ _ _ Hinv i _ Hi) as Hk. cbn in Hk.
  pose proof (inv_ring _ _ _ _ Hinv) as Hr. assert (exists p l', l = p :: l') as (p & l' & El) by (destruct l; [done|by eexists _, _]).
  rewrite El in Hr. destruct (ring_pop _ _ _ Hr) as [Hg _]. exists p. split; [exact Hg|]. plain Hi. cbn. by rewrite El.
Qed.

(** The signals are tested again. *)
Lemma size_full of_head v :
  pcs s !! i = Some (PSize of_head v) -> step_good (goto i (if other_size s of_head v <? cap s then PWake else Idle) s) None.
Proof using Hinv.
  intros Hi. eapply (local_good _ _ _ _ Hi); [done|done|done|done|by destruct (_ <? _)|by destruct (_ <? _)|by destruct (_ <? _)|done|
    intros _; right; right; done|].
  intros Hl. destruct (wakes_full (queue s) (PSize of_head v)) eqn:Ew; [|by right; right]. right; left.
  assert (other_size s of_head v < cap s) as Hlt; [|by rewrite (proj2 (Z.ltb_lt _ _) Hlt)].
  destruct of_head; cbn in Ew |- *; [|by apply Z.ltb_lt in Ew]. apply Z.eqb_eq in Ew as ->.
  pose proof (ring_size _ _ (inv_ring _ _ _ _ Hinv)) as Hs. unfold size in Hs. unfold cap, tl_ in *. lia.
Qed.

Lemma size_empty of_head v :
  pcs s !! i = Some (GSize of_head v) -> step_good (goto i (if negb (other_size s of_head v =? 0) then GWake else Idle) s) None.
Proof using Hinv.
  intros Hi. eapply (local_good _ _ _ _ Hi); [done|done|done|done|by destruct (negb _)|by destruct (negb _)|by destruct (negb _)|done| |
    intros _; right; right; done].
  intros Hl. destruct (wakes_empty (queue s) (GSize of_head v)) eqn:Ew; [|by right; right]. right; left.
  pose proof (inv_ring _ _ _ _ Hinv) as Hr. pose proof (inv_knows _ _ _ _ Hinv i _ Hi) as Hv. cbn in Hv.
  assert (other_size s of_head v <> 0) as Hne; [|by rewrite (proj2 (Z.eqb_neq _ _) Hne)].
  destruct of_head; cbn in Ew |- *.
  - apply negb_true_iff, Z.eqb_neq in Ew. intros E. apply Ew. apply (size_between_zero (cap s)); [apply Hr|done|apply tail_range|done].
  - apply Z.eqb_eq in Ew as ->. pose proof (ring_size _ _ Hr) as Hs. unfold size in Hs. unfold cap, hd_. rewrite Hs.
    destruct l; [done|]. cbn. lia.
Qed.
End steps.

Ltac plain Hinv Hi :=
  eapply (local_good _ _ _ _ _ Hinv _ _ _ _ Hi); [done|done|done|done|done|done|try done|done|try (intros _; right; right; done)|try (intros _; right; right; done)].

Lemma step_inv i a s l ph gh s' k :
  inv s l ph gh -> 0 < cap s -> fresh_step i s = true -> step i a s = Some (s', k) -> step_good s l s' k.
Proof.
  intros Hinv Hcap Hfresh Hstep. unfold step in Hstep. unfold fresh_step in Hfresh. destruct (pcs s !! i) as [pc|] eqn:Hi; [|done].
  destruct pc as [|p|p t|p t|p t h|p t h|h nt| | |of_head v| |p t| |h|h|h|h p|p|p|h| |v| | |of_head v|], a as [| |hf]; cbn [step_pc] in Hstep; try discriminate;
    repeat match type of Hstep with Some _ = Some _ => injection Hstep as <- <- end.
  - plain Hinv Hi.
  - plain Hinv Hi.
  - plain Hinv Hi.
  - destruct (Z.eqb_spec (_xtail s) t) as [E|E]; injection Hstep as <- <-; [|by plain Hinv Hi]. apply Z.eqb_eq in Hfresh. by eapply reserve_tail.
  - pose proof (check_tail _ _ _ _ _ Hinv p t Hi) as H. by destruct (negb _); injection Hstep as <- <-.
  - destruct (write_slot _ _ _ _ _ Hinv p t h Hi) as (q & E & H). rewrite E in Hstep. by injection Hstep as <- <-.
  - by eapply write_tail.
  - eapply (local_good _ _ _ _ _ Hinv _ _ _ _ Hi); [done|done|done|done|by destruct (_ =? _)|by destruct (_ =? _)|by destruct (_ =? _)|done|by left|
      by intros _; right; right].
  - plain Hinv Hi. intros _. by right; left.
  - plain Hinv Hi. intros Hl. right; left. destruct hf; cbn; [apply Z.eqb_refl|]. apply Z.ltb_lt.
    pose proof (ring_size _ _ (inv_ring _ _ _ _ Hinv)) as Hs. unfold size in Hs. unfold tl_, cap in *. lia.
  - by eapply size_full.
  - plain Hinv Hi. intros _. by left.
  - by eapply release_tail.
  - plain Hinv Hi.
  - destruct (Z.eqb_spec (_xhead s) h) as [E|E]; injection Hstep as <- <-; [|by plain Hinv Hi]. apply Z.eqb_eq in Hfresh. by eapply reserve_head.
  - pose proof (check_head _ _ _ _ _ Hinv h Hi) as H. by destruct (negb _); injection Hstep as <- <-.
  - destruct (read_slot _ _ _ _ _ Hinv h Hi) as (p & E & H). rewrite E in Hstep. by injection Hstep as <- <-.
  - by eapply write_head.
  - plain Hinv Hi. intros _. by right; left.
  - plain Hinv Hi. intros _. by left.
  - by eapply release_head.
  - eapply (local_good _ _ _ _ _ Hinv _ _ _ _ Hi); [done|done|done|done|by destruct (_ <=? _)|by destruct (_ <=? _)|by destruct (_ <=? _)|done|
      by intros _; right; right|by intros _; right; right].
  - plain Hinv Hi.
  - plain Hinv Hi. intros _. by right; left.
  - pose proof (inv_ring _ _ _ _ Hinv) as Hr. plain Hinv Hi.
    + cbn. destruct hf; [apply Hr|by eapply tail_range].
    + intros Hl. right; left. destruct hf; cbn; [|apply Z.eqb_refl]. unfold hd_. rewrite (ring_empty _ _ Hr). by rewrite bool_decide_eq_false_2.
  - by eapply size_empty.
  - plain Hinv Hi. intros _. by left.
Qed.

(** No step of a thread goes wrong: packets are written and read within the ring. *)
Lemma step_possible i s l ph gh pc :
  inv s l ph gh -> pcs s !! i = Some pc -> pc <> Idle -> is_Some (step i (Go true) s).
Proof.
  intros Hinv Hi Hn. unfold step. rewrite Hi. destruct pc; cbn [step_pc]; try done; try (by eexists); try (destruct (_ =? _); by eexists).
  - destruct (write_slot _ _ _ _ _ Hinv _ _ _ Hi) as (q & -> & _). by eexists.
  - destruct (read_slot _ _ _ _ _ Hinv _ Hi) as (q & -> & _). by eexists.
Qed.

Lemma schedule_inv schedule s l ph gh s' calls :
  inv s l ph gh -> 0 < cap s -> fresh schedule s = true -> run schedule s = Some (s', calls) ->
  exists l' ph' gh', inv s' l' ph' gh' /\ cap s' = cap s /\ fifo (cap s) l calls l'.
Proof.
  revert s l ph gh calls. induction schedule as [|[i a] schedule IH]; intros s l ph gh calls Hinv Hcap Hf Hrun; cbn in Hf, Hrun.
  { injection Hrun as <- <-. exists l, ph, gh. split_and!; [done|done|constructor]. }
  apply andb_true_iff in Hf as [Hf1 Hf2]. destruct (step i a s) as [[s1 k]|] eqn:Es; [|done]. cbn in Hrun, Hf2.
  destruct (run schedule s1) as [[s2 calls']|] eqn:Er; [|done]. cbn in Hrun. injection Hrun as <- <-.
  destruct (step_inv _ _ _ _ _ _ _ _ Hinv Hcap Hf1 Es) as (l1 & ph1 & gh1 & Hinv1 & Ec & Hk).
  destruct (IH s1 l1 ph1 gh1 calls' Hinv1) as (l2 & ph2 & gh2 & Hinv2 & Ec2 & Hfifo); [lia|done|done|].
  exists l2, ph2, gh2. split_and!; [done|congruence|]. rewrite Ec in Hfifo. destruct k as [k|]; cbn; [by econstructor|by subst].
Qed.

Lemma start_inv c threads :
  0 <= c < 2 ^ 31 - 1 ->
  exists q, initialize (configure (Some c) (SimpleQueue_new (P := P) 0)) = Ok q /\ inv (start q threads) [] None None /\ cap (start q threads) = c.
Proof.
  intros Hc. destruct (new_refines (P := P) c Hc) as (q & E & [R1 R2 R3 R4]). exists q. split; [done|]. split; [|exact R2].
  injection E as <-.
  assert (forall i pc, pcs (start (mkSimpleQueue (allocate c) c 0 0 0 0) threads) !! i = Some pc -> pc = Idle) as Hidle.
  { intros i pc Hi. cbn in Hi. by apply lookup_replicate in Hi as [-> _]. }
  split; try done; try (by left); [..|by intros i [?|?]]; intros i pc Hi; rewrite (Hidle i pc Hi); done.
Qed.

(** A reconfiguration between calls. *)
Lemma reconfigure_inv s l c :
  inv s l None None -> Forall (eq Idle) (pcs s) -> 0 <= default 1000 c < 2 ^ 31 - 1 ->
  exists s', reconfigure_all c s = Ok (s', drop (Z.to_nat (default 1000 c)) l) /\ inv s' (take (Z.to_nat (default 1000 c)) l) None None.
Proof.
  intros [I1 I2 I3 I4 I5 I6 I0 I7 I8] Hidle Hc. rewrite Forall_lookup in Hidle. unfold reconfigure_all.
  destruct (live_reconfigure_spec (queue s) l c I1 Hc) as (q & -> & Hr & Ec & _). cbn [mbind res_bind fst snd].
  eexists. split; [done|]. rewrite (ring_size _ _ Hr), (proj2 (Nat.eqb_neq _ _)), andb_true_r by (pose proof (ring_slots _ _ Hr); lia).
  split; try done; cbn.
  - intros i pc Hi. by rewrite <- (Hidle i pc Hi).
  - intros Hl. destruct I7 as [H|(i & pc & Hi & Hw)]; [by intros ->; rewrite take_nil in Hl|by left|]. by rewrite <- (Hidle i pc Hi) in Hw.
  - intros Hl. left. unfold cap in Hl. cbn in Hl. by rewrite (proj2 (Z.ltb_lt _ _) Hl).
Qed.

(** C16: Any number of threads push to and pull from a ThreadSafeQueue, in any interleaving
    of their reads and writes in which each successful compare-and-swap finds the index
    where the thread had read it.  Then the calls take effect one at a time, as on a
    list bounded by the capacity: packets come out in the order in which they went in,
    once each; a push is refused only when the queue is full and a pull only when it is
    empty.  No thread can get stuck within a call, and when all have finished, the
    signals are right whatever the order in which they were woken and put to sleep:
    a queue with packets says so, and so does one with room. *)
Theorem threads_fifo c threads schedule q s calls :
  0 < c < 2 ^ 31 - 1 -> initialize (configure (Some c) (SimpleQueue_new 0)) = Ok q ->
  run schedule (start q threads) = Some (s, calls) -> fresh schedule (start q threads) = true ->
  exists l, fifo c [] calls l /\ ring (queue s) l /\
    (forall i pc, pcs s !! i = Some pc -> pc <> Idle -> is_Some (step i (Go true) s)) /\
    (Forall (eq Idle) (pcs s) ->
      _xhead s = hd_ s /\ _xtail s = tl_ s /\ (l <> [] -> empty_note s = true) /\ (Z.of_nat (length l) < c -> full_note s = true)).
Proof.
  intros Hc Hq Hrun Hf. destruct (start_inv c threads ltac:(lia)) as (q' & E & Hinv & Ec). rewrite Hq in E. injection E as <-.
  destruct (schedule_inv _ _ _ _ _ _ _ Hinv ltac:(lia) Hf Hrun) as (l & ph & gh & Hinv' & Ec' & Hfifo). rewrite Ec in Hfifo. rewrite Ec in Ec'.
  exists l. split_and!; [done|by apply (inv_ring _ _ _ _ Hinv')|by intros i pc; eapply step_possible|].
  intros Hidle. rewrite Forall_lookup in Hidle.
  assert (forall f : Pc P -> bool, f Idle = false -> ~ exists i pc, pcs s !! i = Some pc /\ f pc = true) as Hno.
  { intros f Hf0 (i & pc & Hi & Hfi). rewrite <- (Hidle i pc Hi) in Hfi. congruence. }
  assert (forall i, ~ (ph = Some i \/ gh = Some i)) as Hfree.
  { intros i Hi. pose proof (inv_threads _ _ _ _ Hinv' i Hi) as Hlt. apply lookup_lt_is_Some_2 in Hlt as [pc Hpc].
    pose proof (inv_push _ _ _ _ Hinv' i pc Hpc) as Hp. pose proof (inv_pull _ _ _ _ Hinv' i pc Hpc) as Hg. rewrite <- (Hidle i pc Hpc) in Hp, Hg.
    destruct Hi as [Hi|Hi]; [by rewrite decide_True in Hp|by rewrite decide_True in Hg]. }
  pose proof (inv_xhead _ _ _ _ Hinv') as Hxh. pose proof (inv_xtail _ _ _ _ Hinv') as Hxt. split_and!.
  - destruct gh as [i|]; [|done]. exfalso. apply (Hfree i). by right.
  - destruct ph as [i|]; [|done]. exfalso. apply (Hfree i). by left.
  - intros Hl. destruct (inv_empty _ _ _ _ Hinv' Hl) as [H|H]; [done|]. by apply Hno in H.
  - intros Hl. destruct (inv_full _ _ _ _ Hinv' ltac:(lia)) as [H|H]; [done|]. by apply Hno in H.
Qed.
End threads.

(** ** Examples *)

Definition go (i n : nat) : list (nat * Act (P := Z)) := replicate n (i, Go true).
(** Calls of thread [i] that nobody gets in the way of. *)
Definition pushing (i : nat) (p : Z) : list (nat * Act) := (i, StartPush p) :: go i 6.
Definition pulling (i : nat) : list (nat * Act (P := Z)) := (i, StartPull) :: go i 7.

Definition ring_of (c : Z) : SimpleQueue Z := mkSimpleQueue (allocate c) c 0 0 0 0.

(** Two threads push at the same time, and a third pulls. *)
Definition two_pushers : list (nat * Act) :=
  [(0%nat, StartPush 1); (1%nat, StartPush 2); (0%nat, Go true); (1%nat, Go true); (1%nat, Go true); (0%nat, Go true)] ++
  go 1 3 ++ go 0 2 ++ go 1 1 ++ go 0 7 ++ pulling 2 ++ pulling 2 ++ [(2%nat, StartPull)] ++ go 2 5.

Lemma threads_fifo_witness :
  exists s calls l, run two_pushers (start (ring_of 2) 3) = Some (s, calls) /\ calls = [CPush 2; CPush 1; CPull 2; CPull 1; CEmpty] /\
    fifo 2 [] calls l /\ ring (queue s) l.
Proof.
  assert (is_Some (run two_pushers (start (ring_of 2) 3))) as [[s calls] E] by (vm_compute; by eexists).
  destruct (threads_fifo 2 3 two_pushers (ring_of 2) s calls ltac:(lia) eq_refl E) as (l & H1 & H2 & _); [by vm_compute|].
  exists s, calls, l. split_and!; [done| |done|done]. vm_compute in E. by injection E as _ <-.
Defined.

(** Thread 0 reads the tail and is slow; the ring makes a turn; thread 1 has reserved
    the slot before the one that thread 0 read, when thread 0 goes on. *)
Definition slow_pusher : list (nat * Act) :=
  pushing 1 1 ++ [(0%nat, StartPush 10); (0%nat, Go true)] ++ pulling 2 ++
  pushing 1 2 ++ pulling 2 ++ pushing 1 3 ++ pulling 2 ++
  [(1%nat, StartPush 4)] ++ go 1 2 ++ go 0 8 ++ go 1 4 ++ pulling 2.

(** The tail and its reservation differ, and nobody is about to make them meet. *)
Definition shut {P} (s : State P) : Prop :=
  _xtail s <> tl_ s /\
  forall i pc, pcs s !! i = Some pc -> push_hold pc = None /\ match pc with PRead _ t => t <> _xtail s | _ => True end.

Definition is_pull {P} (k : Call (P := P)) : Prop :=
  match k with CPull _ | CEmpty => True | CPush _ | CDrop _ => False end.

Lemma shut_goto {P} i pc (s s' : State P) pc0 :
  shut s -> pcs s !! i = Some pc0 -> pcs s' = <[i := pc]> (pcs s) -> _xtail s' = _xtail s -> tl_ s' = tl_ s ->
  push_hold pc = None -> match pc with PRead _ t => t <> _xtail s | _ => True end -> shut s'.
Proof.
  intros [H1 H2] Hi Ep Ex Et Hp Hr. split; [by rewrite Ex, Et|]. rewrite Ex, Ep. intros j pcj Hj.
  apply list_lookup_insert_Some in Hj as [(-> & <- & _)|[_ Hj]]; [done|by eapply H2].
Qed.

Lemma shut_step {P} i a (s s' : State P) k : shut s -> step i a s = Some (s', k) -> shut s' /\ Forall is_pull (option_list k).
Proof.
  intros Hs Hstep. pose proof Hs as [Hx Hpcs]. unfold step in Hstep. destruct (pcs s !! i) as [pc|] eqn:Hi; [|done].
  destruct (Hpcs i pc Hi) as [Hhold Hread].
  assert (forall pc' s1, pcs s1 = <[i := pc']> (pcs s) -> _xtail s1 = _xtail s -> tl_ s1 = tl_ s -> push_hold pc' = None ->
    match pc' with PRead _ t => t <> _xtail s | _ => True end -> shut s1) as Hto by (intros pc' s1 ?????; by eapply shut_goto).
  destruct pc, a as [| |hf]; cbn [step_pc push_hold] in Hstep, Hhold; try discriminate;
    repeat match type of Hstep with
    | Some _ = Some _ => injection Hstep as <- <-
    | (if ?b then _ else _) = _ => destruct b eqn:?
    | match ?m with _ => _ end = _ => destruct m eqn:?
    end; try discriminate;
    try (split; [eapply Hto; [reflexivity|reflexivity|reflexivity|..]|repeat constructor]; first [done|by destruct (_ =? _)|by destruct (_ <? _)|by destruct (_ <=? _)|idtac]).
  apply Z.eqb_eq in Heqb. congruence.
Qed.

Lemma shut_run {P} schedule (s s' : State P) calls : shut s -> run schedule s = Some (s', calls) -> Forall is_pull calls.
Proof.
  revert s calls. induction schedule as [|[i a] schedule IH]; intros s calls Hs Hrun; cbn in Hrun; [by injection Hrun as <- <-|].
  destruct (step i a s) as [[s1 k]|] eqn:Es; [|done]. cbn in Hrun. destruct (run schedule s1) as [[s2 calls']|] eqn:Er; [|done]. cbn in Hrun.
  injection Hrun as <- <-. destruct (shut_step _ _ _ _ _ Hs Es) as [Hs1 Hk]. apply Forall_app. split; [done|by eapply IH].
Qed.

(** Packets come out in order. *)
Fixpoint in_order (calls : list (Call (P := Z))) (l : list Z) : bool :=
  match calls with
  | [] => true
  | CPush p :: calls => in_order calls (l ++ [p])
  | CPull p :: calls => match l with x :: l => (x =? p) && in_order calls l | [] => false end
  | CDrop _ :: calls | CEmpty :: calls => in_order calls l
  end.

Lemma fifo_in_order c l calls l' : fifo c l calls l' -> in_order calls l = true.
Proof. induction 1 as [|l k l1 calls l2 Hk _ IH]; [done|]. destruct Hk; cbn; [done|done|by rewrite Z.eqb_refl|done]. Qed.

(** The compare-and-swap of ThreadSafeQueue does not protect it from slow threads.  A
    thread that read the tail a turn of the ring ago can reserve the slot behind one
    that another thread is filling; the two then write the tail in the wrong order.
    The first packet is lost, a later one comes out in its place, and from then on the
    tail and its reservation differ for ever: no thread's push ever ends again. *)
Theorem slow_pusher_shuts_queue :
  exists q s calls, initialize (configure (Some 2) (SimpleQueue_new 0)) = Ok q /\
    run slow_pusher (start q 3) = Some (s, calls) /\ Forall (eq Idle) (pcs s) /\
    ~ (exists l, fifo 2 [] calls l) /\
    forall schedule s' calls', run schedule s = Some (s', calls') -> Forall is_pull calls'.
Proof.
  assert (is_Some (run slow_pusher (start (ring_of 2) 3))) as [[s calls] E] by (vm_compute; by eexists).
  exists (ring_of 2), s, calls. split; [done|]. split; [done|]. vm_compute in E. injection E as <- <-. split_and!.
  - repeat constructor.
  - intros [l H]. by apply fifo_in_order in H.
  - intros schedule s' calls'. apply shut_run. split; [by vm_compute|]. intros i pc Hi. cbn in Hi.
    destruct i as [|[|[|i]]]; [by injection Hi as <-..|done].
Qed.
