(* ===== verification/Buffers.v ===== *)
(** * Buffers: per-port histories of an indicator element

    Models the class [Buffers] (click-2.0.1/include/click/buffers.hh,
    click-2.0.1/lib/buffers.cc): one ring buffer per input port, a flag per
    port saying whether the current timestamp's value has arrived, and the
    state machine that takes a temporary value out again (restoring the value it
    displaced) when the next timestamp arrives.

    A {e round} is the arrival of one value per port, in any order, all with one
    timestamp.  The lemmas below reduce a round to a list operation on the
    histories. *)

From S2P Require Import Prelude FixedPt CircArray.
Import FPt CircArray CircArrayFacts.

Abbreviation RingBuffer := (CircArray FixedPt).

Inductive BufferStates :=
| INITIAL
| ACCUMULATING
| ACCUMULATING_POP
| ACCUMULATED
| ACCUMULATED_TEMP
| ACCUMULATED_TEMP_POP.

#[global] Instance BufferStates_eq_dec : EqDecision BufferStates.
Proof. solve_decision. Defined.

Module Buffers.

(** [_updated] holds the flags ['Y'] ([true]) and ['N'] ([false]). *)
Record Buffers := mkBuffers {
  _buffers : list RingBuffer;
  _updated : list bool;
  _temp_updates : list FixedPt;
  _tstamp : Z;
  _num_ports : nat;
  _state : BufferStates
}.

Definition with_buffers (b : Buffers) (bufs : list RingBuffer) : Buffers :=
  mkBuffers bufs (_updated b) (_temp_updates b) (_tstamp b) (_num_ports b) (_state b).
Definition with_updated (b : Buffers) (u : list bool) : Buffers :=
  mkBuffers (_buffers b) u (_temp_updates b) (_tstamp b) (_num_ports b) (_state b).
Definition with_temp_updates (b : Buffers) (t : list FixedPt) : Buffers :=
  mkBuffers (_buffers b) (_updated b) t (_tstamp b) (_num_ports b) (_state b).
Definition with_tstamp (b : Buffers) (t : Z) : Buffers :=
  mkBuffers (_buffers b) (_updated b) (_temp_updates b) t (_num_ports b) (_state b).
Definition with_state (b : Buffers) (s : BufferStates) : Buffers :=
  mkBuffers (_buffers b) (_updated b) (_temp_updates b) (_tstamp b) (_num_ports b) s.

(** [memset (_updated, 'N', _num_ports)] *)
Definition reset (b : Buffers) : Buffers := with_updated b (replicate (_num_ports b) false).

Definition Buffers_new (num_ports buf_len : nat) : Buffers :=
  with_state
    (reset (mkBuffers (replicate num_ports (CircArray_new buf_len))
              [] (replicate num_ports FixedPt_default) 0 num_ports INITIAL))
    INITIAL.

Fixpoint check_updated (updated : list bool) : bool :=
  match updated with
  | [] => true
  | u :: updated => if negb u then false else check_updated updated
  end.

Definition is_update_complete (b : Buffers) : bool :=
  match _state b with
  | ACCUMULATED | ACCUMULATED_TEMP | ACCUMULATED_TEMP_POP => true
  | _ => false
  end.

Definition get_num_ports (b : Buffers) : nat := _num_ports b.

(** [operator[]] *)
Definition at_port (b : Buffers) (index : nat) : res RingBuffer :=
  assert* (index <? _num_ports b)%nat;
  of_option OutOfBounds (_buffers b !! index).

(** [_buffers[i]->pop_front ()] for every port. *)
Fixpoint pop_front_all (bufs : list RingBuffer) : res (list RingBuffer) :=
  match bufs with
  | [] => Ok []
  | rb :: bufs =>
      let* r := pop_front rb in
      let* rest := pop_front_all bufs in
      Ok (r.1 :: rest)
  end.

(** [_buffers[i]->push_back (_temp_updates[i], true)] for every port. *)
Fixpoint push_back_all (bufs : list RingBuffer) (temps : list FixedPt) : res (list RingBuffer) :=
  match bufs, temps with
  | [], _ => Ok []
  | rb :: bufs, t :: temps =>
      let* r := push_back rb t true in
      let* rest := push_back_all bufs temps in
      Ok (r.1 :: rest)
  | _ :: _, [] => Fault OutOfBounds
  end.

(** The part of [new_value_check] that takes back temporary values. *)
Definition restore (b : Buffers) : res Buffers :=
  match _state b with
  | ACCUMULATED_TEMP | ACCUMULATED_TEMP_POP =>
      let* bufs := pop_front_all (_buffers b) in
      let* bufs :=
        match _state b with
        | ACCUMULATED_TEMP_POP => push_back_all bufs (_temp_updates b)
        | _ => Ok bufs
        end in
      Ok (with_buffers b bufs)
  | _ => Ok b
  end.

Definition new_value_check (port : Z) (tstamp : Z) (b : Buffers) : res (bool * Buffers) :=
  if (port <? 0) || (Z.of_nat (_num_ports b) - 1 <? port) then Ok (false, b)
  else if _tstamp b <? tstamp then
    let b := reset b in
    let b := with_tstamp b tstamp in
    let* b := restore b in
    Ok (true, with_state b ACCUMULATING)
  else Ok (true, b).

(** [_buffers[port]->push_front (value, true); _updated[port] = 'Y';] *)
Definition push_port (value : FixedPt) (port : nat) (b : Buffers) : res Buffers :=
  let* rb := of_option OutOfBounds (_buffers b !! port) in
  let* r := push_front rb value true in
  Ok (with_updated (with_buffers b (<[port := r.1]> (_buffers b)))
        (<[port := true]> (_updated b))).

Definition add_new_value (value : FixedPt) (tstamp : Z) (port : Z) (b : Buffers) : res Buffers :=
  let* r := new_value_check port tstamp b in
  let '(ok, b) := r in
  if negb ok then Ok b
  else
    let* b := push_port value (Z.to_nat port) b in
    if check_updated (_updated b) then Ok (with_state b ACCUMULATED) else Ok b.

(** [if (occupancy () == capacity ()) { _temp_updates[port] = pop_back (); ... }] *)
Definition save_oldest (port : nat) (b : Buffers) : res Buffers :=
  let* rb := of_option OutOfBounds (_buffers b !! port) in
  if (occupancy rb =? capacity rb)%nat then
    let* r := pop_back rb in
    Ok (with_state
          (with_temp_updates (with_buffers b (<[port := r.1]> (_buffers b)))
             (<[port := r.2]> (_temp_updates b)))
          ACCUMULATING_POP)
  else Ok b.

Definition add_new_value_temp (value : FixedPt) (tstamp : Z) (port : Z) (b : Buffers)
  : res Buffers :=
  let* r := new_value_check port tstamp b in
  let '(ok, b) := r in
  if negb ok then Ok b
  else
    let* b := save_oldest (Z.to_nat port) b in
    let* b := push_port value (Z.to_nat port) b in
    if check_updated (_updated b) then
      if decide (_state b = ACCUMULATING) then Ok (with_state b ACCUMULATED_TEMP)
      else Ok (with_state b ACCUMULATED_TEMP_POP)
    else Ok b.

End Buffers.

(** ** Rounds

    A round is the delivery of one message per port under one timestamp; an
    UPDATE round is temporary. *)
Module Rounds.
Import Buffers.

Record round := Round { rd_temp : bool; rd_tstamp : Z; rd_msgs : list (nat * FixedPt) }.

Definition deliver1 (temp : bool) (ts : Z) (pv : nat * FixedPt) (b : Buffers) : res Buffers :=
  if temp then add_new_value_temp pv.2 ts (Z.of_nat pv.1) b
  else add_new_value pv.2 ts (Z.of_nat pv.1) b.

Fixpoint deliver (temp : bool) (ts : Z) (msgs : list (nat * FixedPt)) (b : Buffers) : res Buffers :=
  match msgs with
  | [] => Ok b
  | pv :: msgs =>
      let* b := deliver1 temp ts pv b in
      deliver temp ts msgs b
  end.

Definition deliver_round (r : round) : Buffers -> res Buffers :=
  deliver (rd_temp r) (rd_tstamp r) (rd_msgs r).

Fixpoint deliver_rounds (rs : list round) (b : Buffers) : res Buffers :=
  match rs with
  | [] => Ok b
  | r :: rs => let* b := deliver_round r b in deliver_rounds rs b
  end.

(** The windows a round is computed on, newest value first: the histories
    shifted by one, at most [cap] long. *)
Definition window (n cap : nat) (h : list (list FixedPt)) (r : round) : list (list FixedPt) :=
  zip_with (fun g l => match g with Some v => take cap (v :: l) | None => l end)
    (fold_left (fun g pv => <[pv.1 := Some pv.2]> g) (rd_msgs r) (replicate n None)) h.

(** What a round leaves behind: a temporary one leaves nothing. *)
Definition commit (n cap : nat) (h : list (list FixedPt)) (r : round) : list (list FixedPt) :=
  if rd_temp r then h else window n cap h r.

(** Timestamps increase from round to round and every port is served once. *)
Fixpoint rounds_ok (n : nat) (ts : Z) (rs : list round) : Prop :=
  match rs with
  | [] => True
  | r :: rs => ts < rd_tstamp r /\ (rd_msgs r).*1 ≡ₚ seq 0 n /\ rounds_ok n (rd_tstamp r) rs
  end.

End Rounds.

(** ** Rounds on histories *)
Module BuffersFacts.
Import Buffers Rounds.
Section facts.
Context (n cap : nat).
Implicit Types (b : Buffers) (h : list (list FixedPt)) (got : list (option FixedPt)).

(** Histories of [n] ports, all of length [k]. *)
Definition hist_ok (k : nat) h : Prop :=
  length h = n /\ Forall (fun l => length l = k) h /\ (k <= cap)%nat.

Definition reprs (bufs : list RingBuffer) h : Prop := Forall2 (fun rb l => repr rb cap l) bufs h.

(** A port's history with the value that has arrived, if any, in front. *)
Definition seen (g : option FixedPt) (l : list FixedPt) : list FixedPt :=
  match g with Some v => take cap (v :: l) | None => l end.

Definition is_in (g : option FixedPt) : bool := match g with Some _ => true | None => false end.

(** The shape shared by all states. *)
Record shape b (ts : Z) : Prop := {
  shape_ts : _tstamp b = ts;
  shape_np : _num_ports b = n;
  shape_tl : length (_temp_updates b) = n
}.

(** Between rounds: what the buffers will hold once temporary values are out. *)
Definition steady b (ts : Z) h : Prop :=
  shape b ts /\ exists k, hist_ok k h /\
  match _state b with
  | INITIAL | ACCUMULATED => reprs (_buffers b) h
  | ACCUMULATED_TEMP =>
      (k < cap)%nat /\ exists vs, length vs = n /\ reprs (_buffers b) (zip_with cons vs h)
  | ACCUMULATED_TEMP_POP =>
      k = cap /\ Forall2 (fun t l => last l = Some t) (_temp_updates b) h /\
      exists vs, length vs = n /\
        reprs (_buffers b) (zip_with (fun v l => v :: removelast l) vs h)
  | _ => False
  end.

(** Within a round: the values [got] so far are in front of their histories. *)
Definition mid b (ts : Z) h got : Prop :=
  shape b ts /\ length got = n /\ _updated b = map is_in got /\
  reprs (_buffers b) (zip_with seen got h).

Lemma steady_new : (0 < n)%nat -> steady (Buffers_new n cap) 0 (replicate n []).
Proof.
  intros Hn. split; [split; simpl; by rewrite ?length_replicate|].
  exists 0%nat. split.
  - split_and!; [by rewrite length_replicate| |lia]. by apply Forall_replicate.
  - simpl. apply Forall2_replicate. apply repr_new.
Qed.

Lemma pop_front_all_spec bufs vs h :
  length vs = length h -> reprs bufs (zip_with cons vs h) ->
  exists bufs', pop_front_all bufs = Ok bufs' /\ reprs bufs' h.
Proof.
  revert bufs vs. induction h as [|l h IH]; intros bufs vs Hl Hr.
  - destruct vs; [|done]. inversion Hr; subst. by exists [].
  - destruct vs as [|v vs]; [done|]. simpl in Hr. apply Forall2_cons_inv_r in Hr.
    destruct Hr as (rb & bufs' & Hrb & Hr & ->).
    destruct (repr_pop_front _ _ _ _ Hrb) as (rb' & E & Hrb').
    destruct (IH bufs' vs) as (out & Eo & Ho); [simpl in Hl; lia|done|].
    simpl. rewrite E. res_simpl. rewrite Eo. res_simpl. eexists. split; [done|].
    by constructor.
Qed.

Lemma push_back_all_spec bufs temps h :
  (0 < cap)%nat -> Forall (fun l => length l = cap) h ->
  Forall2 (fun t l => last l = Some t) temps h -> reprs bufs (map (@removelast _) h) ->
  exists bufs', push_back_all bufs temps = Ok bufs' /\ reprs bufs' h.
Proof.
  intros Hc Hk Ht. revert bufs. induction Ht as [|t l temps h Hlast Ht IH]; intros bufs Hr.
  - inversion Hr; subst. by exists [].
  - inversion Hk as [|? ? Hl Hk']; subst. simpl in Hr. apply Forall2_cons_inv_r in Hr.
    destruct Hr as (rb & bufs' & Hrb & Hr & ->).
    destruct (IH Hk' bufs' Hr) as (out & Eo & Ho).
    destruct l as [|x l _] using rev_ind; [done|].
    rewrite last_snoc in Hlast. injection Hlast as ->. rewrite removelast_last in Hrb.
    rewrite length_app in Hl. simpl in Hl.
    destruct (repr_push_back_room _ _ _ t true Hrb) as (rb' & E & Hrb'); [lia|].
    simpl. rewrite E. res_simpl. rewrite Eo. res_simpl. eexists. split; [done|].
    by constructor.
Qed.

Lemma zip_with_removelast (vs : list FixedPt) h :
  length vs = length h ->
  zip_with (fun v l => v :: removelast l) vs h = zip_with cons vs (map (@removelast _) h).
Proof.
  revert vs. induction h as [|l h IH]; intros [|v vs] Hl; try done.
  simpl. f_equal. apply IH. simpl in Hl. lia.
Qed.

(** Taking the temporary values out gives the histories back. *)
Lemma restore_spec b ts h :
  (0 < cap)%nat -> steady b ts h ->
  exists b', restore b = Ok b' /\ reprs (_buffers b') h /\ shape b' ts /\
             _updated b' = _updated b.
Proof.
  intros Hc ([Ht Hn Hl] & k & (Hh & Hk & Hle) & Hs). unfold restore.
  destruct (_state b) eqn:Est; try done.
  - by exists b.
  - by exists b.
  - destruct Hs as (_ & vs & Hvs & Hr).
    destruct (pop_front_all_spec _ vs h ltac:(lia) Hr) as (bufs & -> & Hb).
    res_simpl. eexists. by split_and!.
  - destruct Hs as (-> & Htemps & vs & Hvs & Hr).
    rewrite zip_with_removelast in Hr by lia.
    destruct (pop_front_all_spec _ vs (map (@removelast _) h) ltac:(rewrite length_map; lia) Hr) as (bufs & -> & Hb).
    res_simpl. destruct (push_back_all_spec _ _ _ Hc Hk Htemps Hb) as (bufs' & -> & Hb').
    res_simpl. eexists. by split_and!.
Qed.

Lemma zip_with_seen_None m h :
  length h = m -> zip_with seen (replicate m None) h = h.
Proof.
  revert h. induction m as [|m IH]; intros [|l h] Hl; try done. simpl.
  f_equal. apply IH. simpl in Hl. lia.
Qed.

Lemma restore_reset_tstamp b ts' b' :
  restore b = Ok b' ->
  restore (with_tstamp (reset b) ts') = Ok (with_tstamp (reset b') ts').
Proof.
  unfold restore. simpl. destruct (_state b); simpl; intros E; res_inv; try done.
  - by rewrite H.
  - rewrite H. res_simpl. by rewrite H0.
Qed.

(** The first message of a round. *)
Lemma check_start b ts ts' h p :
  (0 < cap)%nat -> steady b ts h -> ts < ts' -> (p < n)%nat ->
  exists b', new_value_check (Z.of_nat p) ts' b = Ok (true, b') /\
             mid b' ts' h (replicate n None) /\ _state b' = ACCUMULATING.
Proof.
  intros Hc Hs Hts Hp. pose proof Hs as ([Ht Hn Hl] & k & (Hh & _ & _) & _).
  destruct (restore_spec _ _ _ Hc Hs) as (b' & E & Hr & [Ht' Hn' Hl'] & Hu).
  unfold new_value_check. rewrite Hn, Ht.
  rewrite (proj2 (Z.ltb_ge _ _)), (proj2 (Z.ltb_ge _ _)) by lia. cbn [orb].
  rewrite (proj2 (Z.ltb_lt _ _)) by lia. rewrite (restore_reset_tstamp _ _ _ E). res_simpl.
  eexists. split; [done|]. split; [|done].
  split; [by split|]. split; [by rewrite length_replicate|]. split.
  - simpl. by rewrite Hn', fmap_replicate.
  - simpl. by rewrite zip_with_seen_None.
Qed.

(** The other messages of a round: the timestamp is the current one. *)
Lemma check_same b ts h got p :
  mid b ts h got -> (p < n)%nat -> new_value_check (Z.of_nat p) ts b = Ok (true, b).
Proof.
  intros ([Ht Hn _] & _) Hp. unfold new_value_check. rewrite Hn, Ht.
  rewrite (proj2 (Z.ltb_ge _ _)), (proj2 (Z.ltb_ge _ _)) by lia. cbn [orb].
  by rewrite (proj2 (Z.ltb_ge _ _)) by lia.
Qed.

(** *** One message *)

Lemma zip_with_seen_insert got h p v l :
  h !! p = Some l ->
  zip_with seen (<[p := Some v]> got) h = <[p := take cap (v :: l)]> (zip_with seen got h).
Proof.
  intros Hl. rewrite <- (list_insert_id h p l) at 1 by done.
  by rewrite <- (insert_zip_with seen got h p (Some v) l).
Qed.

Lemma map_is_in_insert got p v :
  map is_in (<[p := Some v]> got) = <[p := true]> (map is_in got).
Proof. apply list_fmap_insert. Qed.

Lemma mid_lookup b ts h got p :
  mid b ts h got -> length h = n -> got !! p = Some None ->
  exists rb l, _buffers b !! p = Some rb /\ h !! p = Some l /\ repr rb cap l.
Proof.
  intros (_ & Hg & _ & Hr) Hh Hp. pose proof (lookup_lt_Some _ _ _ Hp).
  destruct (lookup_lt_is_Some_2 h p) as [l Hl]; [lia|].
  destruct (Forall2_lookup_r _ _ _ p l Hr) as (rb & Hrb & Hrepr).
  { by rewrite lookup_zip_with, Hp, Hl. }
  by exists rb, l.
Qed.

(** The value is in front of its port's history and nothing else changes. *)
Lemma push_port_spec b ts h got p v :
  (0 < cap)%nat -> mid b ts h got -> length h = n -> got !! p = Some None ->
  exists b', push_port v p b = Ok b' /\ mid b' ts h (<[p := Some v]> got) /\
             _state b' = _state b /\ _temp_updates b' = _temp_updates b.
Proof.
  intros Hc Hm Hh Hp. destruct (mid_lookup _ _ _ _ _ Hm Hh Hp) as (rb & l & Hrb & Hl & Hrepr).
  destruct (repr_push_front _ _ _ v Hrepr Hc) as (rb' & E & Hrepr').
  unfold push_port. rewrite Hrb. res_simpl. rewrite E. res_simpl. eexists. split; [done|].
  split; [|done]. destruct Hm as ([Ht Hn Htl] & Hg & Hu & Hr).
  split; [by split|]. split; [by rewrite length_insert|]. simpl. split.
  - by rewrite map_is_in_insert, Hu.
  - rewrite (zip_with_seen_insert _ _ _ _ l) by done. by apply Forall2_insert.
Qed.

(** A temporary value displaces the oldest one, which is saved, when the
    history is full. *)
Lemma save_push_spec k b ts h got p v :
  (0 < cap)%nat -> hist_ok k h -> mid b ts h got -> got !! p = Some None ->
  exists b1 b', save_oldest p b = Ok b1 /\ push_port v p b1 = Ok b' /\
    mid b' ts h (<[p := Some v]> got) /\
    ((k < cap)%nat -> _state b' = _state b /\ _temp_updates b' = _temp_updates b) /\
    (k = cap -> _state b' = ACCUMULATING_POP /\
       exists t l, h !! p = Some l /\ last l = Some t /\
                   _temp_updates b' = <[p := t]> (_temp_updates b)).
Proof.
  intros Hc (Hh & Hk & Hle) Hm Hp.
  destruct (mid_lookup _ _ _ _ _ Hm Hh Hp) as (rb & l & Hrb & Hl & Hrepr).
  pose proof (Forall_lookup_1 _ _ _ _ Hk Hl) as Hlk. simpl in Hlk.
  destruct (repr_length _ _ _ Hrepr) as [Hsz _].
  unfold save_oldest. rewrite Hrb. res_simpl.
  assert (Hcap : capacity rb = cap) by apply Hrepr. unfold occupancy. rewrite Hcap.
  destruct (Nat.eqb_spec (_size rb) cap) as [Hf|Hf].
  - destruct l as [|t l _] using rev_ind; [simpl in *; lia|].
    destruct (repr_pop_back _ _ _ _ Hrepr) as (rb1 & E & Hrepr1). rewrite E. res_simpl.
    rewrite length_app in Hlk, Hsz. simpl in Hlk, Hsz.
    destruct (repr_push_front_room _ _ _ v true Hrepr1) as (rb' & E' & Hrepr'); [lia|].
    eexists _, _. split; [done|]. unfold push_port. cbn [_buffers with_buffers with_state with_temp_updates fst].
    rewrite list_lookup_insert_eq by (eapply lookup_lt_Some; done). res_simpl.
    rewrite E'. res_simpl. split; [done|]. split; [|split; [intros; lia|]].
    + destruct Hm as ([Ht Hn Htl] & Hg & Hu & Hr).
      split; [by split; simpl; rewrite ?length_insert|]. split; [by rewrite length_insert|]. simpl. split.
      * by rewrite map_is_in_insert, Hu.
      * rewrite (zip_with_seen_insert _ _ _ _ (l ++ [t])) by done. rewrite list_insert_insert_eq.
        rewrite take_cons_full, removelast_last by (rewrite ?length_app; simpl; lia).
        by apply Forall2_insert.
    + intros _. simpl. split; [done|]. exists t, (l ++ [t]). by rewrite last_snoc.
  - destruct (push_port_spec _ _ _ _ _ v Hc Hm Hh Hp) as (b' & E & Hm' & Hst & Htm).
    exists b, b'. split; [done|]. split; [done|]. split; [done|]. split; [done|]. intros; lia.
Qed.

Lemma check_updated_all got :
  check_updated (map is_in got) = bool_decide (Forall is_Some got).
Proof.
  induction got as [|[v|] got IH]; cbn [map check_updated is_in negb].
  - symmetry. by apply bool_decide_eq_true_2.
  - rewrite IH. apply bool_decide_ext. rewrite Forall_cons. split; [by eauto|by intros [_ ?]].
  - symmetry. apply bool_decide_eq_false_2. rewrite Forall_cons. by intros [[? ?] _].
Qed.


(** The displaced values of the ports served so far are saved. *)
Definition temps_ok (k : nat) b h got : Prop :=
  k = cap -> forall p v, got !! p = Some (Some v) ->
  exists l t, h !! p = Some l /\ last l = Some t /\ _temp_updates b !! p = Some t.

(** Where a round stands: not begun, or under way. *)
Inductive phase (temp : bool) b (ts : Z) h got : Prop :=
| phase_start ts0 : steady b ts0 h -> ts0 < ts -> got = replicate n None -> phase temp b ts h got
| phase_mid k :
    hist_ok k h -> mid b ts h got ->
    (temp = false -> _state b = ACCUMULATING) ->
    (temp = true -> _state b = if decide (k = cap) then ACCUMULATING_POP else ACCUMULATING) ->
    (temp = true -> temps_ok k b h got) ->
    phase temp b ts h got.

Lemma phase_check temp b ts h got p :
  (0 < cap)%nat -> phase temp b ts h got -> got !! p = Some None ->
  exists b0 k, new_value_check (Z.of_nat p) ts b = Ok (true, b0) /\ hist_ok k h /\
    mid b0 ts h got /\ (temp = false -> _state b0 = ACCUMULATING) /\
    (temp = true -> (k < cap)%nat -> _state b0 = ACCUMULATING) /\
    (temp = true -> temps_ok k b0 h got).
Proof.
  intros Hc [ts0 Hs Hts ->|k Hh Hm Hf Ht Htm] Hp.
  - pose proof (lookup_lt_Some _ _ _ Hp) as Hpn. rewrite length_replicate in Hpn.
    destruct (check_start _ _ _ _ _ Hc Hs Hts Hpn) as (b0 & E & Hm & Hst).
    pose proof Hs as (_ & k & Hh & _). exists b0, k. split_and!; try done.
    intros _ _ q v Hq. apply lookup_replicate in Hq as [Hq _]. done.
  - pose proof (lookup_lt_Some _ _ _ Hp) as Hpn. pose proof Hm as (_ & Hg & _).
    exists b, k. rewrite (check_same _ _ _ _ _ Hm) by lia. split_and!; try done.
    intros Htrue Hk. rewrite (Ht Htrue). rewrite decide_False; [done|lia].
Qed.

Lemma Forall_is_Some_seen k got h :
  (0 < cap)%nat -> hist_ok k h -> length got = n -> Forall is_Some got ->
  hist_ok (Nat.min cap (S k)) (zip_with seen got h).
Proof.
  intros Hc (Hh & Hk & Hle) Hg Hall. split_and!; [rewrite length_zip_with; lia| |lia].
  apply Forall_lookup_2. intros i l. rewrite lookup_zip_with. intros E.
  destruct (got !! i) as [g|] eqn:Eg; [|done]. destruct (h !! i) as [l0|] eqn:El; [|done].
  injection E as <-. destruct (Forall_lookup_1 _ _ _ _ Hall Eg) as [v ->].
  pose proof (Forall_lookup_1 _ _ _ _ Hk El) as Hl. simpl in Hl. subst k.
  unfold seen. rewrite length_take. simpl. lia.
Qed.

(** [add_new_value]: the value joins its history; the last one of the round
    completes the update. *)
Lemma add_new_value_msg b ts h got p v :
  (0 < cap)%nat -> phase false b ts h got -> got !! p = Some None ->
  let got' := <[p := Some v]> got in
  exists b', add_new_value v ts (Z.of_nat p) b = Ok b' /\
    if decide (Forall is_Some got')
    then _state b' = ACCUMULATED /\ steady b' ts (zip_with seen got' h) /\
         reprs (_buffers b') (zip_with seen got' h)
    else is_update_complete b' = false /\ phase false b' ts h got'.
Proof.
  intros Hc Hph Hp got'.
  destruct (phase_check _ _ _ _ _ _ Hc Hph Hp) as (b0 & k & E & Hh & Hm & Hst & _ & _).
  pose proof Hh as (Hhn & _ & _).
  destruct (push_port_spec _ _ _ _ _ v Hc Hm Hhn Hp) as (b1 & E1 & Hm1 & Hst1 & _).
  unfold add_new_value. rewrite E. res_simpl. cbn [negb]. rewrite Nat2Z.id, E1. res_simpl.
  pose proof Hm1 as (Hsh & Hg & Hu & Hr). rewrite Hu, check_updated_all. fold got' in Hg, Hr, Hu |- *.
  rewrite Hst in Hst1 by done. destruct (decide (Forall is_Some got')) as [Ha|Ha].
  - rewrite bool_decide_eq_true_2 by done. eexists. split; [done|].
    split_and!; [done| |done]. destruct Hsh as [? ? ?]. split; [by split|].
    eexists. split; [by eapply Forall_is_Some_seen|done].
  - rewrite bool_decide_eq_false_2 by done. eexists. split; [done|].
    unfold is_update_complete. rewrite Hst1. split; [done|].
    by eapply phase_mid.
Qed.

Lemma temps_ok_insert k b b' h got p v :
  hist_ok k h -> length got = n -> got !! p = Some None ->
  length (_temp_updates b) = n -> temps_ok k b h got ->
  ((k < cap)%nat -> _temp_updates b' = _temp_updates b) ->
  (k = cap -> exists t l, h !! p = Some l /\ last l = Some t /\
                          _temp_updates b' = <[p := t]> (_temp_updates b)) ->
  temps_ok k b' h (<[p := Some v]> got).
Proof.
  intros (_ & _ & Hle) Hg Hp Htl Hok _ Hfull Hk q w Hq. destruct (Hfull Hk) as (t & l & Hl & Hlast & Et).
  pose proof (lookup_lt_Some _ _ _ Hp). rewrite Et.
  destruct (decide (p = q)) as [<-|Hne].
  - exists l, t. by rewrite list_lookup_insert_eq by lia.
  - rewrite list_lookup_insert_ne in Hq by done. destruct (Hok Hk q w Hq) as (l' & t' & ? & ? & ?).
    exists l', t'. by rewrite list_lookup_insert_ne.
Qed.

Lemma temps_ok_all k b h got :
  hist_ok k h -> length got = n -> length (_temp_updates b) = n -> k = cap ->
  temps_ok k b h got -> Forall is_Some got ->
  Forall2 (fun t l => last l = Some t) (_temp_updates b) h.
Proof.
  intros (Hh & _ & _) Hg Htl Hk Hok Hall. apply Forall2_same_length_lookup_2; [lia|].
  intros i t l Ht Hl. destruct (lookup_lt_is_Some_2 got i) as [g Hgi].
  { apply lookup_lt_Some in Hl. lia. }
  destruct (Forall_lookup_1 _ _ _ _ Hall Hgi) as [v ->].
  destruct (Hok Hk i v Hgi) as (l' & t' & ? & ? & ?). congruence.
Qed.

(** With every value in, the temporary contents are the windows shifted by one. *)
Lemma all_in_split got :
  Forall is_Some got -> exists vs, got = map Some vs.
Proof.
  induction 1 as [|g got [v ->] _ [vs ->]]; [by exists []|by exists (v :: vs)].
Qed.

Lemma seen_room k (vs : list FixedPt) h :
  hist_ok k h -> (k < cap)%nat -> zip_with seen (map Some vs) h = zip_with cons vs h.
Proof.
  intros (_ & Hk & _) Hlt. revert vs. induction Hk as [|l h Hl Hk IH]; intros [|v vs]; try done.
  cbn [map zip_with]. f_equal; [|apply IH]. apply take_cons_room. lia.
Qed.

Lemma seen_full k (vs : list FixedPt) h :
  (0 < cap)%nat -> hist_ok k h -> k = cap ->
  zip_with seen (map Some vs) h = zip_with (fun v l => v :: removelast l) vs h.
Proof.
  intros Hc (_ & Hk & _) ->. revert vs. induction Hk as [|l h Hl Hk IH]; intros [|v vs]; try done.
  cbn [map zip_with]. f_equal; [|apply IH]. by apply take_cons_full.
Qed.

(** [add_new_value_temp]: the round is computed on shifted windows, and the
    histories are what the next round starts from again. *)
Lemma add_new_value_temp_msg b ts h got p v :
  (0 < cap)%nat -> phase true b ts h got -> got !! p = Some None ->
  let got' := <[p := Some v]> got in
  exists b', add_new_value_temp v ts (Z.of_nat p) b = Ok b' /\
    if decide (Forall is_Some got')
    then is_update_complete b' = true /\ steady b' ts h /\
         reprs (_buffers b') (zip_with seen got' h)
    else is_update_complete b' = false /\ phase true b' ts h got'.
Proof.
  intros Hc Hph Hp got'.
  destruct (phase_check _ _ _ _ _ _ Hc Hph Hp) as (b0 & k & E & Hh & Hm & _ & Hst & Htm).
  destruct (save_push_spec _ _ _ _ _ _ v Hc Hh Hm Hp) as (b1 & b2 & E1 & E2 & Hm2 & Hroom & Hfull).
  pose proof Hm as ([_ _ Htl] & Hg & _ & _).
  assert (Htm2 : temps_ok k b2 h got').
  { eapply temps_ok_insert; eauto; intros; [by apply Hroom|by apply Hfull]. }
  unfold add_new_value_temp. rewrite E. res_simpl. cbn [negb].
  rewrite Nat2Z.id, E1. res_simpl. rewrite E2. res_simpl.
  pose proof Hm2 as ([Ht2 Hn2 Htl2] & Hg2 & Hu2 & Hr2).
  rewrite Hu2, check_updated_all. fold got' in Hg2, Hr2, Hu2, Hm2 |- *.
  assert (Hst2 : _state b2 = if decide (k = cap) then ACCUMULATING_POP else ACCUMULATING).
  { destruct (decide (k = cap)) as [Hk|Hk]; [by apply Hfull|].
    destruct Hh as (_ & _ & Hle). destruct Hroom as [-> _]; [lia|]. apply Hst; [done|lia]. }
  destruct (decide (Forall is_Some got')) as [Ha|Ha].
  - rewrite bool_decide_eq_true_2 by done. destruct (all_in_split _ Ha) as [vs Hvs].
    assert (Hlv : length vs = n) by (rewrite <- Hg2, Hvs; by rewrite length_map).
    rewrite Hst2. destruct (decide (k = cap)) as [Hk|Hk]; simpl.
    + eexists. split; [done|]. split_and!; [done| |done]. split; [by split|]. exists k. split; [done|].
      simpl. split; [done|]. split; [by eapply temps_ok_all|]. exists vs. split; [done|].
      rewrite <- (seen_full k), <- Hvs; done.
    + eexists. split; [done|]. split_and!; [done| |done]. split; [by split|]. exists k. split; [done|].
      simpl. destruct Hh as (? & ? & ?). split; [lia|]. exists vs. split; [done|].
      rewrite <- (seen_room k), <- Hvs; [done|by split_and!|lia].
  - rewrite bool_decide_eq_false_2 by done. eexists. split; [done|].
    unfold is_update_complete. rewrite Hst2. split; [by destruct (decide (k = cap))|].
    by eapply phase_mid.
Qed.


(** *** Whole rounds *)

(** The values of a round by port, whatever order they came in. *)
Definition fill got (msgs : list (nat * FixedPt)) : list (option FixedPt) :=
  fold_left (fun g pv => <[pv.1 := Some pv.2]> g) msgs got.

(** [msgs] serves exactly the ports that are still waiting. *)
Definition remaining got (msgs : list (nat * FixedPt)) : Prop :=
  NoDup msgs.*1 /\ forall p, p ∈ msgs.*1 <-> got !! p = Some None.

Lemma remaining_cons got p v msgs :
  remaining got ((p, v) :: msgs) -> got !! p = Some None /\ remaining (<[p := Some v]> got) msgs.
Proof.
  intros [Hnd Hports]. rewrite fmap_cons in Hnd, Hports. cbn [fst] in Hnd, Hports.
  apply NoDup_cons in Hnd as [Hp Hnd]. assert (Hgp : got !! p = Some None) by (apply Hports; left).
  split; [done|]. split; [done|]. intros q. destruct (decide (p = q)) as [<-|Hq].
  - rewrite list_lookup_insert_eq by (by eapply lookup_lt_Some). split; [done|congruence].
  - rewrite list_lookup_insert_ne by done. rewrite <- Hports, elem_of_cons.
    split; [by right|intros [?|?]; congruence].
Qed.

Lemma remaining_all got msgs : remaining got msgs -> Forall is_Some got <-> msgs = [].
Proof.
  intros [_ Hports]. split.
  - intros Hall. destruct msgs as [|m msgs]; [done|].
    assert (Hm : m.1 ∈ (m :: msgs).*1) by left. apply Hports in Hm.
    by destruct (Forall_lookup_1 _ _ _ _ Hall Hm).
  - intros ->. apply Forall_forall. intros g Hg. apply list_elem_of_lookup in Hg as [q Hq].
    destruct g; [done|]. apply Hports in Hq. by apply elem_of_nil in Hq.
Qed.

(** What a buffer looks like when a round is over. *)
Definition round_done (temp : bool) b ts h got : Prop :=
  is_update_complete b = true /\ (temp = false -> _state b = ACCUMULATED) /\
  steady b ts (if temp then h else zip_with seen got h) /\
  reprs (_buffers b) (zip_with seen got h).

(** One message of a round: the last one completes it. *)
Lemma deliver1_spec temp b ts h got p v msgs :
  (0 < cap)%nat -> phase temp b ts h got -> remaining got ((p, v) :: msgs) ->
  let got' := <[p := Some v]> got in
  exists b', deliver1 temp ts (p, v) b = Ok b' /\
    if decide (msgs = []) then round_done temp b' ts h got'
    else is_update_complete b' = false /\ phase temp b' ts h got' /\ remaining got' msgs.
Proof.
  intros Hc Hph Hrem got'. apply remaining_cons in Hrem as [Hgp Hrem].
  pose proof (remaining_all _ _ Hrem) as Hall. unfold deliver1, round_done. cbn [fst snd].
  destruct temp.
  - destruct (add_new_value_temp_msg b ts h got p v Hc Hph Hgp) as (b' & E & Hb').
    exists b'. split; [done|].
    destruct (decide (msgs = [])) as [Hm|Hm];
      [rewrite decide_True in Hb' by (by apply Hall)|rewrite decide_False in Hb' by (by rewrite Hall)].
    + by destruct Hb' as (? & ? & ?).
    + by destruct Hb'.
  - destruct (add_new_value_msg b ts h got p v Hc Hph Hgp) as (b' & E & Hb').
    exists b'. split; [done|].
    destruct (decide (msgs = [])) as [Hm|Hm];
      [rewrite decide_True in Hb' by (by apply Hall)|rewrite decide_False in Hb' by (by rewrite Hall)].
    + destruct Hb' as (Hst & ? & ?). split_and!; try done. unfold is_update_complete. by rewrite Hst.
    + by destruct Hb'.
Qed.

Lemma deliver_spec temp b ts h got msgs :
  (0 < cap)%nat -> phase temp b ts h got -> msgs <> [] -> remaining got msgs ->
  exists b', deliver temp ts msgs b = Ok b' /\ round_done temp b' ts h (fill got msgs).
Proof.
  intros Hc. revert b got. induction msgs as [|[p v] msgs IH]; intros b got Hph Hne Hrem; [done|].
  destruct (deliver1_spec _ _ _ _ _ _ _ _ Hc Hph Hrem) as (b' & E & Hb'). cbn [deliver].
  rewrite E. res_simpl. destruct (decide (msgs = [])) as [->|Hm]; [by exists b'|].
  destruct Hb' as (_ & Hph' & Hrem'). by apply IH.
Qed.

Lemma remaining_start msgs : msgs.*1 ≡ₚ seq 0 n -> remaining (replicate n None) msgs.
Proof.
  intros Hp. split; [rewrite Hp; apply NoDup_seq|].
  intros p. rewrite Hp, elem_of_seq, lookup_replicate. split; [intros; split; [done|lia]|intros [_ ?]; lia].
Qed.

Lemma ports_nonempty (msgs : list (nat * FixedPt)) : (0 < n)%nat -> msgs.*1 ≡ₚ seq 0 n -> msgs <> [].
Proof.
  intros Hn Hp ->. apply Permutation_length in Hp. rewrite length_seq in Hp. simpl in Hp. lia.
Qed.

Lemma round_spec b ts0 h (r : round) :
  (0 < cap)%nat -> (0 < n)%nat -> steady b ts0 h -> ts0 < rd_tstamp r -> (rd_msgs r).*1 ≡ₚ seq 0 n ->
  exists b', deliver_round r b = Ok b' /\ is_update_complete b' = true /\
    steady b' (rd_tstamp r) (commit n cap h r) /\ reprs (_buffers b') (window n cap h r).
Proof.
  intros Hc Hn Hs Hts Hperm.
  destruct (deliver_spec (rd_temp r) b (rd_tstamp r) h (replicate n None) (rd_msgs r))
    as (b' & E & ? & _ & ? & ?); [done|by eapply phase_start|by apply ports_nonempty|
    by apply remaining_start|]. by exists b'.
Qed.

Lemma rounds_spec b ts0 h (rs : list round) (r : round) :
  (0 < cap)%nat -> (0 < n)%nat -> steady b ts0 h -> rounds_ok n ts0 (rs ++ [r]) ->
  exists b', deliver_rounds (rs ++ [r]) b = Ok b' /\ is_update_complete b' = true /\
    reprs (_buffers b') (window n cap (fold_left (commit n cap) rs h) r).
Proof.
  intros Hc Hn. revert b ts0 h. induction rs as [|r0 rs IH]; intros b ts0 h Hs Hok.
  - destruct Hok as (Hts & Hp & _).
    destruct (round_spec _ _ _ _ Hc Hn Hs Hts Hp) as (b' & E & Hcomp & _ & Hr).
    simpl. rewrite E. by exists b'.
  - destruct Hok as (Hts & Hp & Hok).
    destruct (round_spec _ _ _ _ Hc Hn Hs Hts Hp) as (b' & E & _ & Hs' & _).
    simpl. rewrite E. by apply (IH b' (rd_tstamp r0)).
Qed.

Lemma reprs_contents bufs h : reprs bufs h -> map contents bufs = h.
Proof. induction 1 as [|rb l bufs h (_ & _ & <-) _ IH]; [done|]. simpl. by rewrite IH. Qed.


End facts.
End BuffersFacts.

(** ** Properties *)
Module BuffersProps.
Import Buffers Rounds BuffersFacts.

(** C26: After any sequence of rounds -- ADD rounds and temporary UPDATE rounds
    in any order, each delivering its messages in any port order -- the update
    is complete and every port's ring holds the last round's value in front of
    the port's ADD history, cut at the capacity: the UPDATE rounds in between
    have left no trace. *)
Theorem buffers_rounds (n cap : nat) (rs : list round) (r : round)
  (Hcap : (0 < cap)%nat) (Hn : (0 < n)%nat) (Hok : rounds_ok n 0 (rs ++ [r])) :
  exists b, deliver_rounds (rs ++ [r]) (Buffers_new n cap) = Ok b /\
    is_update_complete b = true /\
    map contents (_buffers b) =
      window n cap (fold_left (commit n cap) rs (replicate n [])) r.
Proof.
  destruct (rounds_spec n cap _ 0 _ rs r Hcap Hn (steady_new n cap Hn) Hok) as (b & E & Hc & Hr).
  exists b. split_and!; [done|done|]. by eapply reprs_contents.
Qed.

Lemma buffers_rounds_witness :
  let fx n := fromInt n in
  let rs := [ Round false 1 [(1%nat, fx 11); (0%nat, fx 1)];
              Round false 2 [(0%nat, fx 2); (1%nat, fx 12)];
              Round true 3 [(1%nat, fx 13); (0%nat, fx 3)] ] in
  let r := Round false 4 [(0%nat, fx 4); (1%nat, fx 14)] in
  window 2 2 (fold_left (commit 2 2) rs (replicate 2 [])) r = [[fx 4; fx 2]; [fx 14; fx 12]] /\
  exists b, deliver_rounds (rs ++ [r]) (Buffers_new 2 2) = Ok b /\
    is_update_complete b = true /\
    map contents (_buffers b) = window 2 2 (fold_left (commit 2 2) rs (replicate 2 [])) r.
Proof.
  split; [vm_compute; reflexivity|]. apply (buffers_rounds 2 2); [lia|lia|].
  simpl. split_and!; try lia; try done; apply Permutation_swap.
Defined.

End BuffersProps.
