(* ===== verification/IndicatorLaws.v ===== *)
(** * IndicatorLaws: what the base class computes

    The contract an indicator element offers to [IndicatorBase] and the
    refinement theorem behind every indicator: fed rounds of packets, the base
    class emits, per round, one packet with the value the element's output
    functions give on the history of committed rounds.

    A history [H] lists the committed rounds, newest first; a round is the vector
    of its values by port.  Only INIT and ADD rounds are committed, except that
    the round that initialises an element is committed whatever its type. *)

From S2P Require Import Prelude FixedPt CircArray Messages Buffers IndicatorBase.
Import FPt CircArray CircArrayFacts Buffers BuffersFacts IndicatorBase.

Abbreviation history := (list (list FixedPt)).

(** ** Histories and windows *)

Definition column (p : nat) (H : history) : list FixedPt := map (fun v => v !!! p) H.

(** The windows of [n] ports over a history. *)
Definition windows (n cap : nat) (H : history) : list (list FixedPt) :=
  map (fun p => take cap (column p H)) (seq 0 n).

(** The rings of [b] hold the windows of [H]. *)
Definition holds (n cap : nat) (b : Buffers) (H : history) : Prop :=
  _num_ports b = n /\ reprs cap (_buffers b) (windows n cap H).

Section windows.
Context (n cap : nat).
Implicit Types H : history.

Lemma length_windows H : length (windows n cap H) = n.
Proof. unfold windows. by rewrite length_map, length_seq. Qed.

Lemma windows_lookup H p : (p < n)%nat -> windows n cap H !! p = Some (take cap (column p H)).
Proof. intros Hp. unfold windows. by rewrite list_lookup_fmap, lookup_seq_lt. Qed.

Lemma windows_cons vs H :
  length vs = n ->
  zip_with (seen cap) (map Some vs) (windows n cap H) = windows n cap (vs :: H).
Proof.
  intros Hl. apply list_eq. intros p. rewrite lookup_zip_with, list_lookup_fmap.
  destruct (decide (p < n)%nat) as [Hp|Hp].
  - rewrite !windows_lookup by done. rewrite (list_lookup_lookup_total_lt vs p) by lia. simpl.
    by rewrite take_cons_take.
  - by rewrite !lookup_ge_None_2 by (rewrite ?length_windows; lia).
Qed.

Lemma windows_nil : windows n cap [] = replicate n [].
Proof.
  apply list_eq. intros p. destruct (decide (p < n)%nat) as [Hp|Hp].
  - rewrite windows_lookup, lookup_replicate_2 by done. by destruct cap.
  - by rewrite !lookup_ge_None_2 by (rewrite ?length_windows, ?length_replicate; lia).
Qed.

(** A port's ring, and an element of it. *)
Lemma holds_port b H p :
  holds n cap b H -> (p < n)%nat ->
  exists rb, at_port b p = Ok rb /\ repr rb cap (take cap (column p H)).
Proof.
  intros [Hn Hr] Hp. destruct (Forall2_lookup_r _ _ _ _ _ Hr (windows_lookup H p Hp)) as (rb & E & Hrb).
  exists rb. unfold at_port. rewrite Hn, (proj2 (Nat.ltb_lt _ _)) by done. by rewrite E.
Qed.

Lemma holds_get b H p i v :
  holds n cap b H -> (p < n)%nat -> (i < cap)%nat -> H !! i = Some v ->
  (let* rb := at_port b p in get rb i) = Ok (v !!! p).
Proof.
  intros Hh Hp Hi Hv. destruct (holds_port _ _ _ Hh Hp) as (rb & E & Hrb). rewrite E. res_simpl.
  rewrite (repr_get _ _ _ _ Hrb), lookup_take_lt by done. unfold column.
  by rewrite list_lookup_fmap, Hv.
Qed.
End windows.

(** A round's messages, in any order, fill the ports. *)
Lemma fill_cons got m msgs : fill got (m :: msgs) = fill (<[m.1 := Some m.2]> got) msgs.
Proof. done. Qed.

Lemma length_fill got msgs : length (fill got msgs) = length got.
Proof.
  revert got. induction msgs as [|m msgs IH]; intros got; [done|].
  rewrite fill_cons, IH. apply length_insert.
Qed.

Lemma fill_notin got msgs p : p ∉ msgs.*1 -> fill got msgs !! p = got !! p.
Proof.
  revert got. induction msgs as [|[q v] msgs IH]; intros got Hp; [done|].
  rewrite fmap_cons, not_elem_of_cons in Hp. destruct Hp as [Hq Hp].
  rewrite fill_cons, (IH _ Hp). by apply list_lookup_insert_ne.
Qed.

Lemma fill_in got msgs p v :
  NoDup msgs.*1 -> (p, v) ∈ msgs -> (p < length got)%nat -> fill got msgs !! p = Some (Some v).
Proof.
  revert got. induction msgs as [|[q w] msgs IH]; intros got Hnd Hin Hp; [by apply elem_of_nil in Hin|].
  rewrite fmap_cons in Hnd. apply NoDup_cons in Hnd as [Hq Hnd].
  apply elem_of_cons in Hin as [E|Hin].
  - injection E as -> ->. rewrite fill_cons, fill_notin by done. by apply list_lookup_insert_eq.
  - rewrite fill_cons. apply (IH _ Hnd Hin). by rewrite length_insert.
Qed.

Lemma fill_round n msgs vs :
  length vs = n -> msgs ≡ₚ zip (seq 0 n) vs -> fill (replicate n None) msgs = map Some vs.
Proof.
  intros Hl Hp. assert (Hk : msgs.*1 ≡ₚ seq 0 n).
  { rewrite Hp, fst_zip; [done|]. rewrite length_seq. lia. }
  apply list_eq. intros p. rewrite list_lookup_fmap. destruct (decide (p < n)%nat) as [Hpn|Hpn].
  - destruct (lookup_lt_is_Some_2 vs p) as [v Hv]; [lia|]. rewrite Hv. apply fill_in.
    + rewrite Hk. apply NoDup_seq.
    + rewrite Hp. apply (list_elem_of_lookup_2 _ p). rewrite lookup_zip_with, lookup_seq_lt by done.
      by rewrite Hv.
    + by rewrite length_replicate.
  - by rewrite !lookup_ge_None_2 by (rewrite ?length_fill, ?length_replicate; lia).
Qed.

(** ** The contract *)

Definition cache_wf (c : VectorCache) : Prop := Forall (fun s => wf (cs_ring_buffer s)) c.

(** Equal up to the slots of the rings that are not in use. *)
Definition cache_entry_equiv (s s' : CacheStruct) : Prop :=
  cs_value s = cs_value s' /\
  forall cap l, repr (cs_ring_buffer s) cap l -> repr (cs_ring_buffer s') cap l.
Definition cache_equiv : VectorCache -> VectorCache -> Prop := Forall2 cache_entry_equiv.

Lemma copy_cache_spec c : cache_wf c -> exists c', copy_cache c = Ok c' /\ cache_equiv c c'.
Proof.
  induction 1 as [|s c Hs _ (c' & E & Hc)]; [exists []; split; [done|constructor]|].
  destruct (repr_deep_copy None (cs_ring_buffer s) _ _ (conj Hs (conj eq_refl eq_refl)) I)
    as (r & Er & Hr). simpl. unfold CircArray_copy. rewrite Er. res_simpl. rewrite E. res_simpl.
  eexists. split; [done|]. constructor; [|done]. split; [done|].
  intros cap l (_ & <- & <-). apply Hr.
Qed.

Definition head_value (c : VectorCache) (v : FixedPt) : Prop :=
  exists s, c !! 0%nat = Some s /\ cs_value s = v.

Lemma head_value_equiv c c' v : cache_equiv c c' -> head_value c v -> head_value c' v.
Proof.
  intros He (s & Hs & <-). destruct (Forall2_lookup_l _ _ _ _ _ He Hs) as (s' & Hs' & E & _).
  by exists s'.
Qed.

Class IndicatorLaws (E : Type) `{IndicatorElement E} := {
  nports : nat;
  par : Type;
  params : E -> par;
  elem_ok : E -> Prop;
  out_init : par -> list FixedPt -> FixedPt;
  out_naive : par -> nat -> history -> list FixedPt -> res FixedPt;
  out_opt : par -> nat -> history -> list FixedPt -> res FixedPt;
  cacheR : par -> nat -> history -> VectorCache -> Prop;
  cacheR_equiv P cap H c c' : cache_equiv c c' -> cacheR P cap H c -> cacheR P cap H c';
  cacheR_wf P cap H c : cacheR P cap H c -> cache_wf c;
  law_init e cap b vs :
    (2 <= cap)%nat -> elem_ok e -> length vs = nports -> holds nports cap b [vs] ->
    initialize_element e b = Ok (out_init (params e) vs);
  law_naive e cap b H vs :
    (2 <= cap)%nat -> elem_ok e -> H <> [] -> length vs = nports -> holds nports cap b (vs :: H) ->
    process_naive e b = out_naive (params e) cap H vs;
  law_ext e cap b H vs :
    (2 <= cap)%nat -> elem_ok e -> length H = 1%nat -> length vs = nports ->
    holds nports cap b (vs :: H) ->
    res_rel (fun e' v => elem_ok e' /\ params e' = params e /\ head_value (local_cache e') v /\
                         cacheR (params e) cap (vs :: H) (local_cache e'))
      (process_ext e b) (out_naive (params e) cap H vs);
  law_opt e cap c H vs :
    (2 <= cap)%nat -> elem_ok e -> H <> [] -> length vs = nports -> cacheR (params e) cap H c ->
    res_rel (fun e' v => elem_ok e' /\ params e' = params e /\ head_value (local_cache e') v /\
                         cacheR (params e) cap (vs :: H) (local_cache e'))
      (process_opt_ext e vs c) (out_opt (params e) cap H vs)
}.

(** ** Rounds of packets *)

(** Packet [pp.2] on port [pp.1] carries the value [pv.2] for port [pv.1]. *)
Definition carries (t : PacketAppType) (ts : Z) (pp : nat * Packet) (pv : nat * FixedPt) : Prop :=
  pp.1 = pv.1 /\ pk_app_type pp.2 = t /\
  decode_MsgValue (pk_data pp.2) = Ok (mkMsgValue pv.2 ts).

Record pround := PRound {
  pr_type : PacketAppType;
  pr_tstamp : Z;
  pr_values : list FixedPt;
  pr_pkts : list (nat * Packet)
}.

(** One packet per port, in any order. *)
Definition pround_ok (n : nat) (r : pround) : Prop :=
  length (pr_values r) = n /\
  exists msgs, msgs ≡ₚ zip (seq 0 n) (pr_values r) /\
               Forall2 (carries (pr_type r) (pr_tstamp r)) (pr_pkts r) msgs.

(** The packet a round's result is sent in: the last one, overwritten. *)
Definition out_packet (pad : bytes) (r : pround) (v : FixedPt) : list Packet :=
  match last (pr_pkts r) with
  | Some pp => [mkPacket (pr_type r)
                  (encode_MsgValue pad (mkMsgValue v (pr_tstamp r)) ++
                   drop sizeof_MsgValue (pk_data pp.2))]
  | None => []
  end.

(** ** The specification of the base class *)
Section spec.
Context {E : Type} `{IndicatorLaws E} (P : par) (cap : nat).

(** Mode and committed history; the value a round of type [t] gives. *)
Definition spec_out (m : OpMode) : history -> list FixedPt -> res FixedPt :=
  match m with NORMAL => out_opt P cap | _ => out_naive P cap end.

Definition spec_step (st : OpMode * history) (t : PacketAppType) (vs : list FixedPt)
  : res ((OpMode * history) * FixedPt) :=
  let '(m, Hs) := st in
  let* v := spec_out m Hs vs in
  if decide (t = MSG_ADD)
  then Ok ((match m with STARTUP => NORMAL | _ => m end, vs :: Hs), v)
  else Ok ((m, Hs), v).

Fixpoint spec_run (st : OpMode * history) (rs : list pround) : res (list FixedPt) :=
  match rs with
  | [] => Ok []
  | r :: rs =>
      let* s := spec_step st (pr_type r) (pr_values r) in
      let* vs := spec_run s.1 rs in
      Ok (s.2 :: vs)
  end.
End spec.

Fixpoint prounds_ok (n : nat) (ts : Z) (rs : list pround) : Prop :=
  match rs with
  | [] => True
  | r :: rs =>
      ts < pr_tstamp r /\ (pr_type r = MSG_ADD \/ pr_type r = MSG_UPDATE) /\
      pround_ok n r /\ prounds_ok n (pr_tstamp r) rs
  end.

Lemma decode_MsgValue_length d m : decode_MsgValue d = Ok m -> (sizeof_MsgValue <= length d)%nat.
Proof.
  unfold decode_MsgValue, read_u64, read_at, sizeof_MsgValue. intros. res_inv.
  apply Nat.leb_le in Heqb. lia.
Qed.

(** ** The base class meets its specification *)
Module IndicatorBaseFacts.
Section facts.
Context {E : Type} `{IndicatorLaws E} (pad : bytes) (Hpad : length pad = 7%nat).
Context (cap : nat) (Hcap : (2 <= cap)%nat) (Hn : (0 < nports)%nat).
Implicit Types (ib : IndicatorBase E) (b : Buffers) (p : Packet) (t : PacketAppType).

(** The branches of [push] differ in how they take a value in and in what
    they do once the round is complete. *)
Definition initialising ib t : bool := bool_decide (t = MSG_INIT) || negb (_initialized ib).
Definition is_temp ib t : bool :=
  negb (initialising ib t) && negb (bool_decide (t = MSG_ADD)) &&
  match _op_mode ib with NORMAL => false | _ => true end.

(** What [push] does with the element's cache: an ADD keeps a copy. *)
Definition settle (next : IndicatorBase E -> IndicatorBase E) ib (e : E) t
  : res (IndicatorBase E * FixedPt) :=
  if decide (t = MSG_ADD) then
    let* cache := copy_cache (local_cache e) in
    let* s := cache_at cache 0 in
    Ok (next (set_cache (set_derived ib e) cache), cs_value s)
  else let* s := cache_at (local_cache e) 0 in Ok (set_derived ib e, cs_value s).

Definition finish ib b p (ts : Z) : res (IndicatorBase E * list Packet) :=
  let ib := set_buffers ib b in
  if initialising ib (pk_app_type p) then
    let* v := initialize_element (derived ib) b in
    let* out := if get_valid v then send_msg_value pad p v ts (pk_app_type p) else Ok [] in
    Ok (set_initialized ib true, out)
  else
    let* r :=
      match _op_mode ib with
      | NAIVE => let* v := process_naive (derived ib) b in Ok (ib, v)
      | STARTUP =>
          let* e := process_ext (derived ib) b in
          settle (fun ib => set_op_mode ib NORMAL) ib e (pk_app_type p)
      | NORMAL =>
          let* bi := pop_increments (get_num_ports b) 0 b in
          let ib := set_buffers ib bi.1 in
          let* e := process_opt_ext (derived ib) bi.2 (_cache ib) in
          settle (fun ib => ib) ib e (pk_app_type p)
      end in
    let* out := send_msg_value pad p r.2 ts (pk_app_type p) in
    Ok (r.1, out).

Definition known t : Prop := t = MSG_ADD \/ t = MSG_UPDATE \/ t = MSG_INIT.

Lemma push_shape ib b (port : nat) p (v : FixedPt) (ts : Z) :
  _active ib = true -> known (pk_app_type p) -> ib_buffers ib = Some b ->
  decode_MsgValue (pk_data p) = Ok (mkMsgValue v ts) ->
  push pad ib (Z.of_nat port) p =
    let* b' := Rounds.deliver1 (is_temp ib (pk_app_type p)) ts (port, v) b in
    if is_update_complete b' then finish ib b' p ts else Ok (set_buffers ib b', []).
Proof.
  intros Ha Hk Hb Hd. unfold push. rewrite Ha. cbn [negb].
  replace (negb _ && _ && _) with false
    by (destruct Hk as [-> | [-> | ->]]; by rewrite !bool_decide_decide).
  rewrite Hd, Hb. res_simpl. unfold Rounds.deliver1, is_temp, finish, settle, initialising. cbn [fst snd].
  cbn [set_buffers _initialized _op_mode derived _cache].
  destruct (bool_decide (pk_app_type p = MSG_INIT) || negb (_initialized ib)) eqn:Ei; cbn [negb andb].
  - unfold push_init. cbn [mv_value mv_timestamp]. by destruct (add_new_value _ _ _ _).
  - destruct (_op_mode ib); [unfold push_startup|unfold push_normal|unfold push_naive];
      cbn [mv_value mv_timestamp].
    + rewrite andb_true_r, bool_decide_decide. destruct (decide _) as [Et|Et]; cbn [negb].
      all: match goal with |- mbind _ ?m = _ => destruct m as [b'|f]; [|done] end; res_simpl.
      all: destruct (is_update_complete b'); [|done]; cbn [set_buffers derived].
      all: destruct (process_ext _ _) as [e|f]; [|done]; res_simpl.
      * destruct (copy_cache _) as [c|f]; [|done]. res_simpl.
        cbn [set_op_mode set_cache _cache]. by destruct (cache_at _ _).
      * by destruct (cache_at _ _).
    + rewrite andb_false_r. destruct (add_new_value _ _ _ _) as [b'|f]; [|done]. res_simpl.
      destruct (is_update_complete b'); cbn [negb]; [|done].
      destruct (pop_increments _ _ _) as [bi|f]; [|done]. res_simpl.
      cbn [set_buffers derived _cache]. destruct (process_opt_ext _ _ _) as [e|f]; [|done]. res_simpl.
      destruct (decide _) as [Et|Et].
      * destruct (copy_cache _) as [c|f]; [|done]. res_simpl.
        cbn [set_cache _cache]. by destruct (cache_at _ _).
      * by destruct (cache_at _ _).
    + rewrite andb_true_r, bool_decide_decide. destruct (decide _) as [Et|Et]; cbn [negb].
      all: match goal with |- mbind _ ?m = _ => destruct m as [b'|f]; [|done] end; res_simpl.
      all: destruct (is_update_complete b'); [|done]; cbn [set_buffers derived].
      all: by destruct (process_naive _ _).
Qed.

Lemma finish_set_buffers ib b b' p ts : finish (set_buffers ib b') b p ts = finish ib b p ts.
Proof. done. Qed.

Lemma is_temp_set_buffers ib b t : is_temp (set_buffers ib b) t = is_temp ib t.
Proof. done. Qed.

(** A round of packets, in any port order, is one [finish] on the buffers
    with the round in front. *)
Lemma push_all_deliver ib b h t ts got pkts msgs :
  _active ib = true -> known t -> ib_buffers ib = Some b ->
  Forall2 (carries t ts) pkts msgs -> msgs <> [] -> remaining got msgs ->
  phase nports cap (is_temp ib t) b ts h got ->
  exists b' pp, last pkts = Some pp /\ pk_app_type pp.2 = t /\
    (exists v, decode_MsgValue (pk_data pp.2) = Ok (mkMsgValue v ts)) /\
    round_done nports cap (is_temp ib t) b' ts h (fill got msgs) /\
    push_all pad ib pkts = finish ib b' pp.2 ts.
Proof.
  intros Ha Hk Hb Hc. revert ib b got Ha Hb. induction Hc as [|pp [q v] pkts msgs Hcar Hc IH];
    intros ib b got Ha Hb Hne Hrem Hph; [done|].
  assert (Hc0 : (0 < cap)%nat) by lia.
  destruct Hcar as (Hq & Ht & Hd). cbn [fst snd] in Hq, Hd.
  destruct (deliver1_spec _ _ _ _ _ _ _ _ _ _ Hc0 Hph Hrem) as (b' & E1 & Hb').
  cbn [push_all]. rewrite (push_shape ib b pp.1 pp.2 v ts Ha), Ht, Hq by (rewrite ?Ht; done).
  rewrite E1. res_simpl. destruct (decide (msgs = [])) as [->|Hm].
  - inversion Hc; subst pkts. exists b', pp. pose proof Hb' as (Hcomp & _). rewrite Hcomp.
    split_and!; [done|done|by exists v|done|].
    destruct (finish _ _ _ _) as [[ib' out]|f]; [|done]. cbn. by rewrite app_nil_r.
  - destruct Hb' as (Hcomp & Hph' & Hrem'). rewrite Hcomp. res_simpl. cbn [fst snd].
    destruct (IH (set_buffers ib b') b' (<[q := Some v]> got)) as (b2 & pp2 & Hl & Ht2 & Hd2 & Hdone & Ep);
      [done|done|done|done|by rewrite is_temp_set_buffers|].
    exists b2, pp2. rewrite Ep, finish_set_buffers. split_and!; try done.
    + by destruct Hc as [|pp0 ? pkts0].
    + by destruct (finish _ _ _ _) as [[ib' out]|f].
Qed.

Lemma send_msg_value_Ok p v ts m t :
  decode_MsgValue (pk_data p) = Ok m ->
  send_msg_value pad p v ts t =
    Ok [mkPacket t (encode_MsgValue pad (mkMsgValue v ts) ++ drop sizeof_MsgValue (pk_data p))].
Proof.
  intros Hd%decode_MsgValue_length. unfold send_msg_value, length_of.
  rewrite (proj2 (Nat.ltb_ge _ _)) by done.
  rewrite write_front_Ok by (by rewrite length_encode_MsgValue).
  res_simpl. by rewrite length_encode_MsgValue.
Qed.

Lemma push_all_round ib b h ts0 (r : pround) :
  _active ib = true -> known (pr_type r) -> ib_buffers ib = Some b -> pround_ok nports r ->
  steady nports cap b ts0 h -> ts0 < pr_tstamp r ->
  exists b' p, round_done nports cap (is_temp ib (pr_type r)) b' (pr_tstamp r) h (map Some (pr_values r)) /\
    pk_app_type p = pr_type r /\
    (forall v, send_msg_value pad p v (pr_tstamp r) (pr_type r) = Ok (out_packet pad r v)) /\
    push_all pad ib (pr_pkts r) = finish ib b' p (pr_tstamp r).
Proof.
  intros Ha Hk Hb (Hl & msgs & Hperm & Hc) Hs Hts.
  assert (Hports : msgs.*1 ≡ₚ seq 0 nports).
  { rewrite Hperm, fst_zip; [done|]. rewrite length_seq. lia. }
  destruct (push_all_deliver ib b h (pr_type r) (pr_tstamp r) (replicate nports None) (pr_pkts r) msgs)
    as (b' & pp & Hlast & Ht & (v & Hd) & Hdone & E1); try done.
  - by eapply ports_nonempty.
  - by apply remaining_start.
  - by eapply phase_start.
  - rewrite (fill_round nports msgs (pr_values r)) in Hdone by done.
    exists b', pp.2. split_and!; try done. intros w. unfold out_packet. rewrite Hlast.
    by eapply send_msg_value_Ok.
Qed.

Lemma round_done_holds temp b ts Hs vs :
  length vs = nports ->
  round_done nports cap temp b ts (windows nports cap Hs) (map Some vs) ->
  holds nports cap b (vs :: Hs) /\
  steady nports cap b ts (windows nports cap (if temp then Hs else vs :: Hs)).
Proof.
  intros Hl (_ & _ & Hst & Hr). rewrite windows_cons in * by done.
  split; [|by destruct temp]. destruct Hst as ([_ ? _] & _). by split.
Qed.

(** *** Popping the increments of the optimised mode *)
Lemma pop_increments_spec m i b (pre : list (list FixedPt)) (vs : list FixedPt) h :
  _num_ports b = nports -> length pre = i -> (i + m)%nat = nports -> length vs = m -> length h = m ->
  reprs cap (_buffers b) (pre ++ zip_with cons vs h) ->
  exists bufs, pop_increments m i b = Ok (with_buffers b bufs, vs) /\ reprs cap bufs (pre ++ h).
Proof.
  revert i b pre vs h. induction m as [|m IH]; intros i b pre vs h Hnp Hi Hm Hvs Hh Hr.
  - destruct vs; [|done]. destruct h; [|done]. exists (_buffers b). split; [by destruct b|done].
  - destruct vs as [|v vs]; [done|]. destruct h as [|l h]; [done|]. cbn [zip_with] in Hr.
    assert (Hlk : (pre ++ (v :: l) :: zip_with cons vs h) !! i = Some (v :: l)).
    { rewrite lookup_app_r by lia. by rewrite Hi, Nat.sub_diag. }
    destruct (Forall2_lookup_r _ _ _ _ _ Hr Hlk) as (rb & Hrb & Hrep).
    destruct (repr_pop_front _ _ _ _ Hrep) as (rb' & Epop & Hrb').
    destruct (IH (S i) (with_buffers b (<[i := rb']> (_buffers b))) (pre ++ [l]) vs h)
      as (bufs & Ei & Hbufs); try (simpl in *; lia || done).
    + rewrite length_app. simpl. lia.
    + rewrite <- app_assoc. cbn [app].
      replace (pre ++ l :: zip_with cons vs h) with (<[i := l]> (pre ++ (v :: l) :: zip_with cons vs h)).
      * by apply Forall2_insert.
      * rewrite insert_app_r_alt by lia. by rewrite Hi, Nat.sub_diag.
    + exists bufs. cbn [pop_increments]. unfold at_port. rewrite Hnp, (proj2 (Nat.ltb_lt _ _)) by lia.
      rewrite Hrb. res_simpl. rewrite Epop. res_simpl. cbn [fst snd]. rewrite Ei. res_simpl.
      split; [done|]. by rewrite <- app_assoc in Hbufs.
Qed.

Lemma seen_cons_take (vs : list FixedPt) h :
  zip_with (seen cap) (map Some vs) h = zip_with cons vs (map (take (cap - 1)) h).
Proof.
  revert h. induction vs as [|v vs IH]; intros [|l h]; try done. cbn [map zip_with]. f_equal; [|apply IH].
  unfold seen. destruct cap as [|c]; [lia|]. cbn [take]. by rewrite Nat.sub_succ, Nat.sub_0_r.
Qed.

Lemma pop_increments_round b ts h vs :
  length vs = nports -> length h = nports ->
  round_done nports cap false b ts h (map Some vs) ->
  exists b' h', pop_increments (get_num_ports b) 0 b = Ok (b', vs) /\ steady nports cap b' ts h' .
Proof.
  intros Hl Hh (_ & Hacc & ([Hts Hnp Htl] & k & Hok & _) & Hr).
  rewrite seen_cons_take in Hr. unfold get_num_ports. rewrite Hnp.
  destruct (pop_increments_spec nports 0 b [] vs (map (take (cap - 1)) h)) as (bufs & E1 & Hb);
    try done; [by rewrite length_map|].
  exists (with_buffers b bufs), (map (take (cap - 1)) h). split; [done|]. split; [by split|].
  exists (k - 1)%nat. cbn [with_buffers _state]. rewrite Hacc by done. split; [|done].
  destruct Hok as (_ & Hk & Hle). split_and!; [by rewrite length_map| |lia].
  rewrite seen_cons_take in Hk. revert Hk Hl Hh. clear -Hcap. revert vs. generalize nports.
  induction h as [|l h IH]; intros m vs Hk Hl Hh; [constructor|].
  destruct vs as [|v vs]; [simpl in *; lia|]. cbn [map zip_with] in Hk |- *.
  apply Forall_cons in Hk as [Hk1 Hk]. constructor; [simpl in Hk1; lia|].
  destruct m as [|m]; [done|]. apply (IH m vs); simpl in *; auto; lia.
Qed.


(** *** The invariant between rounds *)
Definition inv (P : par) ib (ts : Z) (st : OpMode * history) : Prop :=
  _active ib = true /\ _initialized ib = true /\ _op_mode ib = st.1 /\
  elem_ok (derived ib) /\ params (derived ib) = P /\ st.2 <> [] /\
  exists b, ib_buffers ib = Some b /\
  match st.1 with
  | NAIVE => steady nports cap b ts (windows nports cap st.2)
  | STARTUP => length st.2 = 1%nat /\ steady nports cap b ts (windows nports cap st.2)
  | NORMAL => (exists h, steady nports cap b ts h) /\ cacheR P cap st.2 (_cache ib)
  end.

(** An element is configured and idle, not yet initialised. *)
Definition idle ib (m : OpMode) (P : par) : Prop :=
  _active ib = true /\ _initialized ib = false /\ _op_mode ib = m /\ m <> NORMAL /\
  elem_ok (derived ib) /\ params (derived ib) = P /\
  ib_buffers ib = Some (Buffers_new nports cap).

(** The first round initialises the element, whatever its type. *)
Lemma finish_init P ib m (r : pround) b p :
  idle ib m P -> length (pr_values r) = nports -> pk_app_type p = pr_type r ->
  (forall v, send_msg_value pad p v (pr_tstamp r) (pr_type r) = Ok (out_packet pad r v)) ->
  round_done nports cap (is_temp ib (pr_type r)) b (pr_tstamp r) (windows nports cap [])
    (map Some (pr_values r)) ->
  exists ib', finish ib b p (pr_tstamp r) =
      Ok (ib', if get_valid (out_init P (pr_values r))
               then out_packet pad r (out_init P (pr_values r)) else []) /\
    inv P ib' (pr_tstamp r) (m, [pr_values r]).
Proof.
  intros (Ha & Hi & Hm & HmN & He & HP & Hb) Hl Ht Hsend Hdone.
  assert (Htemp : is_temp ib (pr_type r) = false).
  { unfold is_temp, initialising. rewrite Hi. by rewrite orb_true_r. }
  rewrite Htemp in Hdone. apply round_done_holds in Hdone as [Hh Hs]; [|done].
  unfold finish, initialising. cbn [set_buffers _initialized derived].
  rewrite Hi, orb_true_r. rewrite (law_init _ cap _ (pr_values r)), HP by done. res_simpl.
  rewrite Ht, Hsend. eexists. split; [by destruct (get_valid _)|].
  split_and!; try done. exists b. split; [done|]. cbn [fst snd]. by destruct m.
Qed.

Lemma idle_steady ib m P :
  idle ib m P -> exists b, ib_buffers ib = Some b /\ steady nports cap b 0 (windows nports cap []).
Proof.
  intros (_ & _ & _ & _ & _ & _ & Hb). eexists. split; [exact Hb|]. rewrite windows_nil. by apply steady_new.
Qed.

Lemma init_round P ib m (r : pround) :
  idle ib m P -> known (pr_type r) -> pround_ok nports r -> 0 < pr_tstamp r ->
  exists ib', push_all pad ib (pr_pkts r) =
      Ok (ib', if get_valid (out_init P (pr_values r))
               then out_packet pad r (out_init P (pr_values r)) else []) /\
    inv P ib' (pr_tstamp r) (m, [pr_values r]).
Proof.
  intros Hidle Hk Hok Hts. destruct (idle_steady _ _ _ Hidle) as (b & Hb & Hs).
  destruct (push_all_round ib b _ 0 r (proj1 Hidle) Hk Hb Hok Hs Hts) as (b' & p & Hdone & Ht & Hsend & ->).
  by apply (finish_init P ib m r b' p Hidle (proj1 Hok)).
Qed.

Lemma settle_spec next ib e t v :
  head_value (local_cache e) v -> cache_wf (local_cache e) ->
  exists c, cache_equiv (local_cache e) c /\
    settle next ib e t =
      Ok (if decide (t = MSG_ADD) then next (set_cache (set_derived ib e) c) else set_derived ib e, v).
Proof.
  intros Hv Hwf. destruct (copy_cache_spec _ Hwf) as (c & Ec & Heq). exists c. split; [done|].
  unfold settle. destruct (decide _).
  - rewrite Ec. res_simpl. destruct (head_value_equiv _ _ _ Heq Hv) as (s & Hs & <-).
    unfold cache_at. by rewrite Hs.
  - destruct Hv as (s & Hs & <-). unfold cache_at. by rewrite Hs.
Qed.

(** The end of a round, mode by mode. *)
Definition round_rel (P : par) (r : pround) (i : IndicatorBase E * list Packet)
    (s : (OpMode * history) * FixedPt) : Prop :=
  i.2 = out_packet pad r s.2 /\ inv P i.1 (pr_tstamp r) s.1.

Section step.
Context (P : par) ib (Hs : history) (r : pround) b p.
Context (Ha : _active ib = true) (Hi : _initialized ib = true).
Context (He : elem_ok (derived ib)) (HP : params (derived ib) = P) (Hne : Hs <> []).
Context (Hk : pr_type r = MSG_ADD \/ pr_type r = MSG_UPDATE) (Ht : pk_app_type p = pr_type r).
Context (Hl : length (pr_values r) = nports).
Context (Hsend : forall v, send_msg_value pad p v (pr_tstamp r) (pr_type r) = Ok (out_packet pad r v)).

Lemma not_initialising i : _initialized i = true -> initialising i (pr_type r) = false.
Proof. intros Hii. unfold initialising. rewrite Hii, orb_false_r. by destruct Hk as [-> | ->]. Qed.

Lemma finish_naive :
  _op_mode ib = NAIVE ->
  round_done nports cap (is_temp ib (pr_type r)) b (pr_tstamp r) (windows nports cap Hs)
    (map Some (pr_values r)) ->
  res_rel (round_rel P r) (finish ib b p (pr_tstamp r))
    (spec_step P cap (NAIVE, Hs) (pr_type r) (pr_values r)).
Proof.
  intros Hm Hdone. unfold is_temp in Hdone. rewrite not_initialising, Hm in Hdone by done.
  cbn [negb andb] in Hdone. rewrite andb_true_r in Hdone.
  apply round_done_holds in Hdone as [Hho Hs']; [|done].
  unfold finish, spec_step. rewrite Ht, not_initialising by done. cbn [set_buffers _op_mode derived].
  rewrite Hm. rewrite (law_naive _ cap _ Hs _ Hcap He Hne Hl Hho), HP. cbn [spec_out].
  destruct (out_naive _ _ _ _) as [v|g]; [|done]. res_simpl. cbn [fst snd]. rewrite Hsend. res_simpl.
  destruct (decide _) as [Et|Et];
    [rewrite bool_decide_eq_true_2 in Hs' by done|rewrite bool_decide_eq_false_2 in Hs' by done].
  all: split; [done|]; split_and!; try done; by exists b.
Qed.

Lemma finish_startup :
  _op_mode ib = STARTUP -> length Hs = 1%nat ->
  round_done nports cap (is_temp ib (pr_type r)) b (pr_tstamp r) (windows nports cap Hs)
    (map Some (pr_values r)) ->
  res_rel (round_rel P r) (finish ib b p (pr_tstamp r))
    (spec_step P cap (STARTUP, Hs) (pr_type r) (pr_values r)).
Proof.
  intros Hm H1 Hdone. unfold is_temp in Hdone. rewrite not_initialising, Hm in Hdone by done.
  cbn [negb andb] in Hdone. rewrite andb_true_r in Hdone.
  apply round_done_holds in Hdone as [Hho Hs']; [|done].
  unfold finish, spec_step. rewrite Ht, not_initialising by done. cbn [set_buffers _op_mode derived].
  rewrite Hm. pose proof (law_ext _ cap _ Hs _ Hcap He H1 Hl Hho) as Hext. rewrite HP in Hext.
  cbn [spec_out]. destruct (process_ext _ _) as [e|f], (out_naive _ _ _ _) as [v|g]; try done.
  destruct Hext as (He' & HP' & Hhd & HcR). res_simpl.
  match goal with |- context [settle ?f ?i e ?t] =>
    destruct (settle_spec f i e t v Hhd (cacheR_wf _ _ _ _ HcR)) as (c & Heq & ->) end.
  res_simpl. cbn [fst snd]. rewrite Hsend. res_simpl. destruct (decide _) as [Et|Et].
  - split; [done|]. split_and!; try done. exists b. split; [done|]. split; [by eexists|].
    by eapply cacheR_equiv.
  - rewrite bool_decide_eq_false_2 in Hs' by done. split; [done|]. split_and!; try done. by exists b.
Qed.

Lemma finish_normal h :
  _op_mode ib = NORMAL -> length h = nports -> cacheR P cap Hs (_cache ib) ->
  round_done nports cap (is_temp ib (pr_type r)) b (pr_tstamp r) h (map Some (pr_values r)) ->
  res_rel (round_rel P r) (finish ib b p (pr_tstamp r))
    (spec_step P cap (NORMAL, Hs) (pr_type r) (pr_values r)).
Proof.
  intros Hm Hlh HcR Hdone. unfold is_temp in Hdone. rewrite Hm, andb_false_r in Hdone.
  unfold finish, spec_step. rewrite Ht, not_initialising by done. cbn [set_buffers _op_mode derived].
  rewrite Hm. destruct (pop_increments_round _ _ _ _ Hl Hlh Hdone) as (b2 & h2 & E2 & Hst2).
  rewrite E2. res_simpl. cbn [fst snd set_buffers derived _cache spec_out].
  rewrite <- HP in HcR. pose proof (law_opt _ cap _ Hs _ Hcap He Hne Hl HcR) as Hopt. rewrite HP in Hopt, HcR.
  destruct (process_opt_ext _ _ _) as [e|f], (out_opt _ _ _ _) as [v|g]; try done.
  destruct Hopt as (He' & HP' & Hhd & HcR'). res_simpl.
  match goal with |- context [settle ?f ?i e ?t] =>
    destruct (settle_spec f i e t v Hhd (cacheR_wf _ _ _ _ HcR')) as (c & Heq & ->) end.
  res_simpl. cbn [fst snd]. rewrite Hsend. res_simpl. destruct (decide _) as [Et|Et].
  - split; [done|]. split_and!; try done. exists b2. split; [done|]. split; [by eexists|].
    by eapply cacheR_equiv.
  - split; [done|]. split_and!; try done. exists b2. split; [done|]. split; [by eexists|done].
Qed.
End step.

(** Every further round computes the specification's value. *)
Lemma finish_step P ib ts0 st :
  inv P ib ts0 st ->
  exists b h, ib_buffers ib = Some b /\ steady nports cap b ts0 h /\
    forall (r : pround) b' p,
      pr_type r = MSG_ADD \/ pr_type r = MSG_UPDATE -> length (pr_values r) = nports ->
      pk_app_type p = pr_type r ->
      (forall v, send_msg_value pad p v (pr_tstamp r) (pr_type r) = Ok (out_packet pad r v)) ->
      round_done nports cap (is_temp ib (pr_type r)) b' (pr_tstamp r) h (map Some (pr_values r)) ->
      res_rel (round_rel P r) (finish ib b' p (pr_tstamp r))
        (spec_step P cap st (pr_type r) (pr_values r)).
Proof.
  destruct st as [m Hs]. intros (Ha & Hi & Hm & He & HP & Hne & b & Hb & Hinv). cbn [fst snd] in *.
  destruct m.
  - destruct Hinv as [H1 Hst]. exists b, (windows nports cap Hs). split_and!; [done|done|].
    intros. by apply finish_startup.
  - destruct Hinv as [[h Hst] HcR]. pose proof Hst as (_ & k & (Hlh & _) & _).
    exists b, h. split_and!; [done|done|]. intros. by eapply finish_normal.
  - exists b, (windows nports cap Hs). split_and!; [done|done|]. intros. by apply finish_naive.
Qed.

Lemma step_round P ib ts0 st (r : pround) :
  inv P ib ts0 st -> pr_type r = MSG_ADD \/ pr_type r = MSG_UPDATE -> pround_ok nports r ->
  ts0 < pr_tstamp r ->
  res_rel (round_rel P r) (push_all pad ib (pr_pkts r)) (spec_step P cap st (pr_type r) (pr_values r)).
Proof.
  intros Hinv Hk Hok Hts. destruct (finish_step P ib ts0 st Hinv) as (b & h & Hb & Hst & Hfin).
  assert (Hkn : known (pr_type r)) by (destruct Hk; [by left|by right; left]).
  destruct (push_all_round ib b _ ts0 r (proj1 Hinv) Hkn Hb Hok Hst Hts) as (b' & p & Hd & Ht & Hsend & ->).
  by apply (Hfin r b' p Hk (proj1 Hok)).
Qed.

Lemma push_all_app ib ps ps' :
  push_all pad ib (ps ++ ps') =
    let* r := push_all pad ib ps in let* s := push_all pad r.1 ps' in Ok (s.1, r.2 ++ s.2).
Proof.
  revert ib. induction ps as [|p ps IH]; intros ib; cbn [push_all app].
  - res_simpl. cbn [fst snd app]. by destruct (push_all _ _ _) as [[? ?]|].
  - destruct (push _ _ _ _) as [[ib1 o1]|f]; [|done]. res_simpl. cbn [fst snd]. rewrite IH.
    destruct (push_all _ _ ps) as [[ib2 o2]|f]; [|done]. res_simpl. cbn [fst snd].
    destruct (push_all _ _ ps') as [[ib3 o3]|f]; [|done]. res_simpl. cbn. by rewrite app_assoc.
Qed.

(** The packets emitted over a run, round by round. *)
Definition out_packets (rs : list pround) (vs : list FixedPt) : list Packet :=
  concat (zip_with (out_packet pad) rs vs).

Lemma run_rounds P ib ts0 st (rs : list pround) :
  inv P ib ts0 st -> prounds_ok nports ts0 rs ->
  res_rel (fun i vs => i.2 = out_packets rs vs)
    (push_all pad ib (concat (map pr_pkts rs))) (spec_run P cap st rs).
Proof.
  revert ib ts0 st. induction rs as [|r rs IH]; intros ib ts0 st Hinv Hok; [done|].
  destruct Hok as (Hts & Hk & Hr & Hok). cbn [map concat spec_run]. rewrite push_all_app.
  eapply res_rel_bind; [by eapply step_round|]. intros [ib1 o1] [st1 v] [Ho Hinv1].
  eapply res_rel_bind; [by eapply IH|]. intros [ib2 o2] vs Ho2. cbn [fst snd] in *.
  cbn. by rewrite Ho, Ho2.
Qed.


End facts.
End IndicatorBaseFacts.
