(* ===== verification/Smoothing.v ===== *)
(** * Smoothing: the elements [EwmaIncremental] and [Sum]

    Models click-2.0.1/elements/standard/ewma_incremental.cc and sum.cc.  The naive
    methods fold over a copy of the window; the incremental ones use one cached
    value ([EwmaIncremental]) or a cached sum and window ([Sum]). *)

From S2P Require Import Prelude FixedPt CircArray Messages Buffers IndicatorBase IndicatorLaws.
Import FPt CircArray CircArrayFacts Buffers BuffersFacts.

(** [increments[i]] *)
Definition increment (increments : list FixedPt) (i : nat) : res FixedPt :=
  of_option OutOfBounds (increments !! i).

Module EwmaIncremental.

Record EwmaIncremental := mkEwma { _local_cache : VectorCache; _alpha : FixedPt }.

Definition EwmaIncremental_new : EwmaIncremental :=
  mkEwma [CacheStruct_new; CacheStruct_new] FixedPt_default.

Definition with_cache (e : EwmaIncremental) (c : VectorCache) : EwmaIncremental := mkEwma c (_alpha e).

(** [alpha] is the parsed [ALPHA_PERIODS], [None] on a parse error; the base
    class then reads its own arguments. *)
Definition configure (in_ports : Z) (alpha : option Z) (args : option (Z * Z))
    (ib : IndicatorBase.IndicatorBase EwmaIncremental)
  : res (IndicatorBase.IndicatorBase EwmaIncremental * Z) :=
  let* e :=
    match alpha with
    | Some alpha =>
        let* a := div (fromInt 2) (add (fromInt alpha) (fromInt 1)) in
        Ok (mkEwma (_local_cache (IndicatorBase.derived ib)) a)
    | None => Ok (IndicatorBase.derived ib)
    end in
  Ok ((IndicatorBase.configure in_ports args (IndicatorBase.set_derived ib e)).1, 0).

(** One pop per call; [fuel] is the occupancy, which decreases by one. *)
Fixpoint calculate_ewma_recursive (fuel : nat) (buffer : RingBuffer) (alpha : FixedPt) : res FixedPt :=
  if (occupancy buffer =? 1)%nat then
    let* r := pop_front buffer in Ok r.2
  else
    let* r := pop_front buffer in
    let part_one := mul (int_sub 1 alpha) r.2 in
    match fuel with
    | O => Fault OutOfBounds
    | S fuel =>
        let* rest := calculate_ewma_recursive fuel r.1 alpha in
        Ok (add part_one (mul alpha rest))
    end.

Definition initialize_element (e : EwmaIncremental) (b : Buffers) : res FixedPt :=
  let* buf := at_port b 0 in get buf 0.

Definition process_naive (e : EwmaIncremental) (b : Buffers) : res FixedPt :=
  let* buf := at_port b 0 in
  let* copy := CircArray_copy buf in
  calculate_ewma_recursive (occupancy copy) copy (_alpha e).

Definition process_ext (e : EwmaIncremental) (b : Buffers) : res EwmaIncremental :=
  let* result := process_naive e b in
  let* c := set_cache_value (_local_cache e) 0 result in
  let* c := set_cache_value c 1 result in
  Ok (with_cache e c).

Definition process_opt_ext (e : EwmaIncremental) (increments : list FixedPt) (cache : VectorCache)
  : res EwmaIncremental :=
  let* x := increment increments 0 in
  let* s := cache_at cache 1 in
  let result := add (mul (int_sub 1 (_alpha e)) x) (mul (_alpha e) (cs_value s)) in
  let* c := set_cache_value (_local_cache e) 0 result in
  let* c := set_cache_value c 1 result in
  Ok (with_cache e c).

#[global] Instance EwmaIncremental_element : IndicatorElement EwmaIncremental := {|
  local_cache := _local_cache;
  IndicatorBase.initialize_element := initialize_element;
  IndicatorBase.process_naive := process_naive;
  IndicatorBase.process_ext := process_ext;
  IndicatorBase.process_opt_ext := process_opt_ext
|}.

End EwmaIncremental.

Module Sum.

Record Sum := mkSum { _local_cache : VectorCache; _sum_periods : Z }.

Definition Sum_new : Sum := mkSum [CacheStruct_new; CacheStruct_new; CacheStruct_new] 0.

(** [sum_periods] is the parsed [SUM_PERIODS]; nothing reads it afterwards. *)
Definition configure (in_ports : Z) (sum_periods : option Z) (args : option (Z * Z))
    (ib : IndicatorBase.IndicatorBase Sum) : IndicatorBase.IndicatorBase Sum * Z :=
  let e := IndicatorBase.derived ib in
  let e := match sum_periods with Some n => mkSum (_local_cache e) n | None => e end in
  ((IndicatorBase.configure in_ports args (IndicatorBase.set_derived ib e)).1, 0).

Definition with_cache (e : Sum) (c : VectorCache) : Sum := mkSum c (_sum_periods e).

(** [fuel] as for [calculate_ewma_recursive]. *)
Fixpoint calculate_sum_recursive (fuel : nat) (buffer : RingBuffer) : res FixedPt :=
  if (occupancy buffer =? 1)%nat then
    let* r := pop_front buffer in Ok r.2
  else
    let* r := pop_front buffer in
    match fuel with
    | O => Fault OutOfBounds
    | S fuel =>
        let* rest := calculate_sum_recursive fuel r.1 in
        Ok (add r.2 rest)
    end.

Definition initialize_element (e : Sum) (b : Buffers) : res FixedPt :=
  let* buf := at_port b 0 in get buf 0.

Definition process_naive (e : Sum) (b : Buffers) : res FixedPt :=
  let* buf := at_port b 0 in
  let* copy := CircArray_copy buf in
  calculate_sum_recursive (occupancy copy) copy.

Definition process_ext (e : Sum) (b : Buffers) : res Sum :=
  let* result := process_naive e b in
  let* c := set_cache_value (_local_cache e) 0 result in
  let* c := set_cache_value c 1 result in
  let* buf := at_port b 0 in
  let* c := set_cache_ring c 2 buf in
  Ok (with_cache e c).

Definition process_opt_ext (e : Sum) (increments : list FixedPt) (cache : VectorCache) : res Sum :=
  let* ring := cache_at cache 2 in
  let* local := cache_at (_local_cache e) 2 in
  let* sum_buf := assign (cs_ring_buffer local) (cs_ring_buffer ring) in
  let* s := cache_at cache 1 in
  let sum := cs_value s in
  let* new_value := increment increments 0 in
  let* rb :=
    if is_full sum_buf then
      let* r := pop_back sum_buf in
      let result := add (sub sum r.2) new_value in
      let* q := push_front r.1 new_value false in
      Ok (result, q.1)
    else
      let result := add sum new_value in
      let* q := push_front sum_buf new_value false in
      Ok (result, q.1) in
  let '(result, sum_buf) := rb in
  let c := <[2%nat := mkCache (cs_type local) (cs_value local) sum_buf]> (_local_cache e) in
  let* c := set_cache_value c 0 result in
  let* c := set_cache_value c 1 result in
  Ok (with_cache e c).

#[global] Instance Sum_element : IndicatorElement Sum := {|
  local_cache := _local_cache;
  IndicatorBase.initialize_element := initialize_element;
  IndicatorBase.process_naive := process_naive;
  IndicatorBase.process_ext := process_ext;
  IndicatorBase.process_opt_ext := process_opt_ext
|}.

End Sum.

(** ** Caches of plain values *)

Lemma cache_equiv_values c c' : cache_equiv c c' -> map cs_value c = map cs_value c'.
Proof. induction 1 as [|s s' c c' [E _] _ IH]; [done|]. simpl. by rewrite E, IH. Qed.

Lemma cache_equiv_wf c c' : cache_equiv c c' -> cache_wf c -> cache_wf c'.
Proof.
  intros He Hw. induction He as [|s s' c c' [_ Hr] _ IH]; [constructor|].
  apply Forall_cons in Hw as [Hs Hw]. constructor; [|by apply IH].
  by destruct (Hr _ _ (conj Hs (conj eq_refl eq_refl))).
Qed.

Lemma cache_equiv_ring c c' i cap l s :
  cache_equiv c c' -> c !! i = Some s -> repr (cs_ring_buffer s) cap l ->
  exists s', c' !! i = Some s' /\ repr (cs_ring_buffer s') cap l.
Proof.
  intros He Hs Hr. destruct (Forall2_lookup_l _ _ _ _ _ He Hs) as (s' & Hs' & _ & Hr').
  exists s'. auto.
Qed.

Lemma CacheStruct_new_wf : wf (cs_ring_buffer CacheStruct_new).
Proof. split; simpl; lia. Qed.

(** ** Reference definitions *)

(** The exponentially weighted average of a list, newest value first. *)
Fixpoint ewma (alpha : FixedPt) (l : list FixedPt) : FixedPt :=
  match l with
  | [] => FixedPt_default
  | [x] => x
  | x :: l => add (mul (int_sub 1 alpha) x) (mul alpha (ewma alpha l))
  end.

Fixpoint window_sum (l : list FixedPt) : FixedPt :=
  match l with
  | [] => FixedPt_default
  | [x] => x
  | x :: l => add x (window_sum l)
  end.

Lemma ewma_cons alpha x l :
  l <> [] -> ewma alpha (x :: l) = add (mul (int_sub 1 alpha) x) (mul alpha (ewma alpha l)).
Proof. by destruct l. Qed.

Lemma window_sum_cons x l : l <> [] -> window_sum (x :: l) = add x (window_sum l).
Proof. by destruct l. Qed.

Definition zsum (l : list Z) : Z := foldr Z.add 0 l.

Lemma zsum_app l l' : zsum (l ++ l') = zsum l + zsum l'.
Proof. induction l as [|x l IH]; simpl; [done|]. unfold zsum in *. lia. Qed.

(** From two values on, the sum is the exact sum reduced modulo 2^64. *)
Lemma window_sum_val l : (2 <= length l)%nat -> window_sum l = fromC (i64 (zsum (map _value l))).
Proof.
  induction l as [|x l IH]; intros Hl; [simpl in Hl; lia|].
  destruct l as [|y l]; [simpl in Hl; lia|]. rewrite window_sum_cons by done.
  destruct l as [|z l]; [cbn; by rewrite Z.add_0_r|].
  rewrite IH by (simpl; lia). unfold add, fixedptc.fixedpt_add, i64. cbn [_value fromC map zsum foldr].
  by autorewrite with wrap.
Qed.

Lemma window_sum_val1 l : l <> [] -> i64 (_value (window_sum l)) = i64 (zsum (map _value l)).
Proof.
  destruct l as [|x [|y l]]; [done|intros _; simpl; by rewrite Z.add_0_r|intros _].
  rewrite window_sum_val by (simpl; lia). cbn [_value fromC]. apply swrap_idem. lia.
Qed.

(** ** The contracts *)

(** [cache_shape m c]: [m] entries with sound rings. *)
Definition cache_shape (m : nat) (c : VectorCache) : Prop := length c = m /\ cache_wf c.

(** Destructs a cache of known length. *)
Ltac split_cache Hc :=
  let Hl := fresh in let Hw := fresh "Hw" in
  destruct Hc as [Hl Hw];
  repeat match type of Hl with
  | length ?c = S _ => destruct c; [discriminate Hl|simpl in Hl; apply Nat.succ_inj in Hl]
  | length ?c = 0%nat => destruct c; [clear Hl|discriminate Hl]
  end;
  unfold cache_wf in Hw; rewrite ?Forall_cons in Hw; destruct_and? Hw.

(** Destructs a vector of known length. *)
Ltac split_vector Hl :=
  repeat match type of Hl with
  | length ?c = S _ => destruct c; [discriminate Hl|simpl in Hl; apply Nat.succ_inj in Hl]
  | length ?c = 0%nat => destruct c; [clear Hl|discriminate Hl]
  end.

(** Two nonempty columns are the two newest rounds. *)
Lemma column_cons p v H : column p (v :: H) = v !!! p :: column p H.
Proof. done. Qed.

Section ewma.
Import EwmaIncremental.

Lemma calculate_ewma_recursive_spec fuel buf cap alpha l :
  repr buf cap l -> l <> [] -> fuel = length l ->
  calculate_ewma_recursive fuel buf alpha = Ok (ewma alpha l).
Proof.
  revert buf l. induction fuel as [|fuel IH]; intros buf l Hr Hne Hf; [by destruct l|].
  destruct l as [|x l]; [done|]. destruct (repr_length _ _ _ Hr) as [Hlen _].
  destruct (repr_pop_front _ _ _ _ Hr) as (buf' & Ep & Hr').
  cbn [calculate_ewma_recursive]. unfold occupancy. rewrite <- Hlen, Ep. res_simpl.
  destruct l as [|y l]; [done|]. cbn [length Nat.eqb]. cbn [fst snd].
  rewrite (IH buf' (y :: l) Hr'); [|done|simpl in Hf |- *; lia]. done.
Qed.

Lemma process_naive_ewma e cap b H vs :
  (2 <= cap)%nat -> holds 1 cap b (vs :: H) ->
  process_naive e b = Ok (ewma (_alpha e) (take cap (column 0 (vs :: H)))).
Proof.
  intros Hc Hh. destruct (holds_port _ _ _ _ 0 Hh) as (rb & E & Hr); [lia|].
  unfold process_naive. rewrite E. res_simpl.
  destruct (repr_deep_copy None _ _ _ Hr I) as (copy & Ec & Hcopy).
  unfold CircArray_copy. rewrite Ec. res_simpl. destruct (repr_length _ _ _ Hcopy) as [Hl _].
  apply (calculate_ewma_recursive_spec _ _ cap); [done| |unfold occupancy; by rewrite Hl].
  destruct cap; [lia|done].
Qed.

#[global] Program Instance EwmaIncremental_laws : IndicatorLaws EwmaIncremental := {|
  nports := 1;
  par := FixedPt;
  params := _alpha;
  elem_ok e := cache_shape 2 (_local_cache e);
  out_init alpha vs := vs !!! 0%nat;
  out_naive alpha cap H vs := Ok (ewma alpha (take cap (column 0 (vs :: H))));
  out_opt alpha cap H vs := Ok (ewma alpha (column 0 (vs :: H)));
  cacheR alpha cap H c := cache_wf c /\ map cs_value c !! 1%nat = Some (ewma alpha (column 0 H))
|}.
Next Obligation.
  intros P cap H c c' He [Hw Hv]. split; [by eapply cache_equiv_wf|].
  by rewrite <- (cache_equiv_values _ _ He).
Qed.
Next Obligation. by intros P cap H c [Hw _]. Qed.
Next Obligation.
  intros e cap b vs Hc He Hl Hh. simpl. unfold initialize_element.
  by apply (holds_get 1 cap b [vs]); try lia.
Qed.
Next Obligation. intros e cap b H vs Hc He Hne Hl Hh. simpl. by apply process_naive_ewma. Qed.
Next Obligation.
  intros e cap b H vs Hc He H1 Hl Hh. simpl. unfold process_ext.
  rewrite (process_naive_ewma _ cap _ H vs) by done. res_simpl.
  split_vector H1. destruct cap as [|[|cap]]; [lia|lia|]. simpl. rewrite take_nil.
  destruct e as [c a]. simpl in He. split_cache He. simpl. split; [|split; [done|]].
  - split; [done|]. repeat (constructor; simpl; try done).
  - split; [eexists; by split|]. split; [repeat (constructor; simpl; try done)|done].
Qed.
Next Obligation.
  intros e cap c H vs Hc He Hne Hl [Hw Hv]. simpl. unfold process_opt_ext.
  simpl in Hl. split_vector Hl. simpl. rewrite list_lookup_fmap in Hv. unfold cache_at.
  destruct (c !! 1%nat) as [s|] eqn:Es; [|done]. injection Hv as Hv. res_simpl. rewrite Hv.
  destruct e as [lc a]. simpl in He. split_cache He. simpl.
  destruct H as [|w H]; [done|]. split; [|split; [done|]].
  - split; [done|]. repeat (constructor; simpl; try done).
  - split; [eexists; by split|]. split; [repeat (constructor; simpl; try done)|done].
Qed.

End ewma.

Section sum.
Import Sum.

Lemma calculate_sum_recursive_spec fuel buf cap l :
  repr buf cap l -> l <> [] -> fuel = length l ->
  calculate_sum_recursive fuel buf = Ok (window_sum l).
Proof.
  revert buf l. induction fuel as [|fuel IH]; intros buf l Hr Hne Hf; [by destruct l|].
  destruct l as [|x l]; [done|]. destruct (repr_length _ _ _ Hr) as [Hlen _].
  destruct (repr_pop_front _ _ _ _ Hr) as (buf' & Ep & Hr').
  cbn [calculate_sum_recursive]. unfold occupancy. rewrite <- Hlen, Ep. res_simpl.
  destruct l as [|y l]; [done|]. cbn [length Nat.eqb]. cbn [fst snd].
  rewrite (IH buf' (y :: l) Hr'); [|done|simpl in Hf |- *; lia]. done.
Qed.

Lemma process_naive_sum e cap b H vs :
  (2 <= cap)%nat -> holds 1 cap b (vs :: H) ->
  process_naive e b = Ok (window_sum (take cap (column 0 (vs :: H)))).
Proof.
  intros Hc Hh. destruct (holds_port _ _ _ _ 0 Hh) as (rb & E & Hr); [lia|].
  unfold process_naive. rewrite E. res_simpl.
  destruct (repr_deep_copy None _ _ _ Hr I) as (copy & Ec & Hcopy).
  unfold CircArray_copy. rewrite Ec. res_simpl. destruct (repr_length _ _ _ Hcopy) as [Hl _].
  apply (calculate_sum_recursive_spec _ _ cap); [done| |unfold occupancy; by rewrite Hl].
  destruct cap; [lia|done].
Qed.

(** The incremental step: the sum less the value that leaves the window. *)
Lemma window_sum_shift x l y :
  (1 <= length l)%nat ->
  add (sub (window_sum (l ++ [y])) y) x = window_sum (x :: l).
Proof.
  intros Hl. rewrite !window_sum_val by (rewrite ?length_app; simpl; lia).
  unfold add, sub, fixedptc.fixedpt_add, fixedptc.fixedpt_sub, i64. cbn [_value fromC map zsum foldr].
  autorewrite with wrap. rewrite map_app. change (foldr Z.add 0) with zsum. rewrite zsum_app.
  cbn [map zsum foldr]. f_equal. f_equal. lia.
Qed.

Lemma window_sum_room x l : l <> [] -> add (window_sum l) x = window_sum (x :: l).
Proof.
  intros Hl. rewrite window_sum_cons by done. unfold add, fixedptc.fixedpt_add.
  by rewrite Z.add_comm.
Qed.

(** The update of the cached window and sum. *)
Lemma sum_update (sum_buf : RingBuffer) cap l x :
  (2 <= cap)%nat -> repr sum_buf cap l -> l <> [] ->
  exists buf', repr buf' cap (take cap (x :: l)) /\
  (if is_full sum_buf then
      let* r := pop_back sum_buf in
      let result := add (sub (window_sum l) r.2) x in
      let* q := push_front r.1 x false in
      Ok (result, q.1)
    else
      let result := add (window_sum l) x in
      let* q := push_front sum_buf x false in
      Ok (result, q.1)) = Ok (window_sum (take cap (x :: l)), buf').
Proof.
  intros Hc Hr Hne. destruct (repr_length _ _ _ Hr) as [Hl Hle]. pose proof Hr as (_ & Ecap & _).
  unfold is_full. rewrite <- Hl, Ecap. destruct (Nat.eqb_spec (length l) cap) as [Hf|Hf].
  - destruct l as [|y l _] using rev_ind; [done|]. rewrite length_app in Hf. simpl in Hf.
    destruct (repr_pop_back _ _ _ _ Hr) as (b1 & E1 & Hr1). rewrite E1. res_simpl. cbn [fst snd].
    destruct (repr_push_front_room _ _ _ x false Hr1) as (b2 & E2 & Hr2); [lia|].
    rewrite E2. res_simpl. exists b2. rewrite window_sum_shift by lia.
    rewrite (take_cons_full cap x (l ++ [y])) by (rewrite ?length_app; simpl; lia).
    by rewrite removelast_last.
  - destruct (repr_push_front_room _ _ _ x false Hr) as (b2 & E2 & Hr2); [lia|].
    rewrite E2. res_simpl. exists b2. rewrite window_sum_room by done.
    by rewrite take_cons_room by lia.
Qed.

#[global] Program Instance Sum_laws : IndicatorLaws Sum := {|
  nports := 1;
  par := unit;
  params _ := tt;
  elem_ok e := cache_shape 3 (_local_cache e);
  out_init _ vs := vs !!! 0%nat;
  out_naive _ cap H vs := Ok (window_sum (take cap (column 0 (vs :: H))));
  out_opt _ cap H vs := Ok (window_sum (take cap (column 0 (vs :: H))));
  cacheR _ cap H c :=
    cache_wf c /\ map cs_value c !! 1%nat = Some (window_sum (take cap (column 0 H))) /\
    exists s, c !! 2%nat = Some s /\ repr (cs_ring_buffer s) cap (take cap (column 0 H))
|}.
Next Obligation.
  intros P cap H c c' He (Hw & Hv & s & Hs & Hr). split; [by eapply cache_equiv_wf|].
  rewrite <- (cache_equiv_values _ _ He). split; [done|]. by eapply cache_equiv_ring.
Qed.
Next Obligation. by intros P cap H c [Hw _]. Qed.
Next Obligation.
  intros e cap b vs Hc He Hl Hh. simpl. unfold initialize_element.
  by apply (holds_get 1 cap b [vs]); try lia.
Qed.
Next Obligation. intros e cap b H vs Hc He Hne Hl Hh. simpl. by apply process_naive_sum. Qed.
Next Obligation.
  intros e cap b H vs Hc He H1 Hl Hh. simpl. unfold process_ext.
  rewrite (process_naive_sum _ cap _ H vs) by done. res_simpl.
  destruct (holds_port _ _ _ _ 0 Hh) as (rb & E & Hr); [lia|]. rewrite E.
  destruct e as [c n]. simpl in He. split_cache He.
  set (v := window_sum _). cbn [_local_cache set_cache_value cache_at lookup list_lookup of_option].
  cbn. destruct (repr_deep_copy (Some (cs_ring_buffer c1)) rb cap _ Hr ltac:(done)) as (r' & Er & Hr').
  unfold set_cache_ring, assign. cbn. rewrite Er. pose proof (proj1 Hr') as Hwr. cbn. split; [|split; [done|]].
  - split; [done|]. repeat (constructor; simpl; try done).
  - split; [eexists; by split|]. split; [repeat (constructor; simpl; try done)|].
    split; [done|]. eexists. split; [done|]. apply Hr'.
Qed.
Next Obligation.
  intros e cap c H vs Hc He Hne Hl (Hw & Hv & s2 & Hs2 & Hr2). simpl. unfold process_opt_ext.
  simpl in Hl. split_vector Hl. rewrite list_lookup_fmap in Hv.
  destruct (c !! 1%nat) as [s1|] eqn:Es; [|done]. injection Hv as Hv.
  unfold cache_at. rewrite Hs2, Es. destruct e as [lc n]. simpl in He. split_cache He. cbn.
  destruct (repr_deep_copy (Some (cs_ring_buffer c2)) _ cap _ Hr2 ltac:(done)) as (buf & Er & Hr).
  unfold assign. rewrite Er. cbn. rewrite Hv.
  destruct (sum_update buf cap _ f Hc Hr) as (buf' & Hb & E); [destruct cap; [lia|by destruct H]|].
  rewrite take_cons_take in Hb, E. cbn in E. rewrite E. pose proof (proj1 Hb) as Hwr. cbn. split; [|split; [done|]].
  - split; [done|]. repeat (constructor; simpl; try done).
  - split; [eexists; by split|]. split; [repeat (constructor; simpl; try done)|].
    split; [done|]. eexists. split; [done|]. apply Hb.
Qed.

End sum.
