(* ===== verification/Directional.v ===== *)
(** * Directional: the elements that compare a round with the previous one

    Models click-2.0.1/elements/standard/pdm.cc, ndm.cc, new_true_range.cc, vmu.cc
    and vmd.cc: the directional movements, the true range and the vortex
    movements.  Each reads the newest round and the one before it, from the
    rings in the naive mode and from a cache of the previous round's values in
    the optimised one. *)

From S2P Require Import Prelude FixedPt CircArray Messages Buffers IndicatorBase IndicatorLaws Smoothing.
Import FPt CircArray CircArrayFacts Buffers BuffersFacts.

Module Pdm.

Record Pdm := mkPdm { _local_cache : VectorCache }.

Definition Pdm_new : Pdm := mkPdm (replicate 3 CacheStruct_new).

Definition configure (in_ports : Z) (args : option (Z * Z)) (ib : IndicatorBase.IndicatorBase Pdm)
  : IndicatorBase.IndicatorBase Pdm * Z :=
  ((IndicatorBase.configure in_ports args ib).1, 0).

(** No value yet: the result is flagged invalid. *)
Definition initialize_element (e : Pdm) (b : Buffers) : res FixedPt :=
  Ok (set_valid FixedPt_default false).

Definition calculate_pdm (new_low prev_low new_high prev_high : FixedPt) : FixedPt :=
  if lt (sub new_high prev_high) (sub prev_low new_low) then fromInt 0
  else if lt (sub new_high prev_high) (fromInt 0) then fromInt 0
  else sub new_high prev_high.

Definition process_naive (e : Pdm) (b : Buffers) : res FixedPt :=
  let* high_buf := at_port b 0 in
  let* low_buf := at_port b 1 in
  let* new_low := get low_buf 0 in
  let* prev_low := get low_buf 1 in
  let* new_high := get high_buf 0 in
  let* prev_high := get high_buf 1 in
  Ok (calculate_pdm new_low prev_low new_high prev_high).

Definition process_ext (e : Pdm) (b : Buffers) : res Pdm :=
  let* result := process_naive e b in
  let* c := set_cache_value (_local_cache e) 0 result in
  let* high_buf := at_port b 0 in
  let* high := get high_buf 0 in
  let* c := set_cache_value c 1 high in
  let* low_buf := at_port b 1 in
  let* low := get low_buf 0 in
  let* c := set_cache_value c 2 low in
  Ok (mkPdm c).

Definition process_opt_ext (e : Pdm) (increments : list FixedPt) (cache : VectorCache)
  : res Pdm :=
  let* new_high := increment increments 0 in
  let* new_low := increment increments 1 in
  let* s1 := cache_at cache 1 in
  let prev_high := cs_value s1 in
  let* s2 := cache_at cache 2 in
  let prev_low := cs_value s2 in
  let result := calculate_pdm new_low prev_low new_high prev_high in
  let* c := set_cache_value (_local_cache e) 0 result in
  let* c := set_cache_value c 1 new_high in
  let* c := set_cache_value c 2 new_low in
  Ok (mkPdm c).

#[global] Instance Pdm_element : IndicatorElement Pdm := {|
  local_cache := _local_cache;
  IndicatorBase.initialize_element := initialize_element;
  IndicatorBase.process_naive := process_naive;
  IndicatorBase.process_ext := process_ext;
  IndicatorBase.process_opt_ext := process_opt_ext
|}.

End Pdm.

Module Ndm.

Record Ndm := mkNdm { _local_cache : VectorCache }.

Definition Ndm_new : Ndm := mkNdm (replicate 3 CacheStruct_new).

Definition configure (in_ports : Z) (args : option (Z * Z)) (ib : IndicatorBase.IndicatorBase Ndm)
  : IndicatorBase.IndicatorBase Ndm * Z :=
  ((IndicatorBase.configure in_ports args ib).1, 0).

(** No value yet: the result is flagged invalid. *)
Definition initialize_element (e : Ndm) (b : Buffers) : res FixedPt :=
  Ok (set_valid FixedPt_default false).

Definition calculate_ndm (new_low prev_low new_high prev_high : FixedPt) : FixedPt :=
  if lt (sub prev_low new_low) (sub new_high prev_high) then fromInt 0
  else if lt (sub prev_low new_low) (fromInt 0) then fromInt 0
  else sub prev_low new_low.

Definition process_naive (e : Ndm) (b : Buffers) : res FixedPt :=
  let* high_buf := at_port b 0 in
  let* low_buf := at_port b 1 in
  let* new_low := get low_buf 0 in
  let* prev_low := get low_buf 1 in
  let* new_high := get high_buf 0 in
  let* prev_high := get high_buf 1 in
  Ok (calculate_ndm new_low prev_low new_high prev_high).

Definition process_ext (e : Ndm) (b : Buffers) : res Ndm :=
  let* result := process_naive e b in
  let* c := set_cache_value (_local_cache e) 0 result in
  let* high_buf := at_port b 0 in
  let* high := get high_buf 0 in
  let* c := set_cache_value c 1 high in
  let* low_buf := at_port b 1 in
  let* low := get low_buf 0 in
  let* c := set_cache_value c 2 low in
  Ok (mkNdm c).

Definition process_opt_ext (e : Ndm) (increments : list FixedPt) (cache : VectorCache)
  : res Ndm :=
  let* new_high := increment increments 0 in
  let* new_low := increment increments 1 in
  let* s1 := cache_at cache 1 in
  let prev_high := cs_value s1 in
  let* s2 := cache_at cache 2 in
  let prev_low := cs_value s2 in
  let result := calculate_ndm new_low prev_low new_high prev_high in
  let* c := set_cache_value (_local_cache e) 0 result in
  let* c := set_cache_value c 1 new_high in
  let* c := set_cache_value c 2 new_low in
  Ok (mkNdm c).

#[global] Instance Ndm_element : IndicatorElement Ndm := {|
  local_cache := _local_cache;
  IndicatorBase.initialize_element := initialize_element;
  IndicatorBase.process_naive := process_naive;
  IndicatorBase.process_ext := process_ext;
  IndicatorBase.process_opt_ext := process_opt_ext
|}.

End Ndm.

Module NewTrueRange.

Record NewTrueRange := mkNewTrueRange { _local_cache : VectorCache }.

Definition NewTrueRange_new : NewTrueRange := mkNewTrueRange (replicate 2 CacheStruct_new).

Definition configure (in_ports : Z) (args : option (Z * Z)) (ib : IndicatorBase.IndicatorBase NewTrueRange)
  : IndicatorBase.IndicatorBase NewTrueRange * Z :=
  ((IndicatorBase.configure in_ports args ib).1, 0).

Definition fpt_max (a b : FixedPt) : FixedPt := if gt a b then a else b.

(** No value yet: the result is flagged invalid. *)
Definition initialize_element (e : NewTrueRange) (b : Buffers) : res FixedPt :=
  Ok (set_valid FixedPt_default false).

Definition calculate_tr (new_low new_high prev_close : FixedPt) : FixedPt :=
  fpt_max (sub prev_close new_low) (fpt_max (sub new_high new_low) (sub new_high prev_close)).

Definition process_naive (e : NewTrueRange) (b : Buffers) : res FixedPt :=
  let* high_buf := at_port b 0 in
  let* low_buf := at_port b 1 in
  let* close_buf := at_port b 2 in
  let* new_low := get low_buf 0 in
  let* new_high := get high_buf 0 in
  let* prev_close := get close_buf 1 in
  Ok (calculate_tr new_low new_high prev_close).

Definition process_ext (e : NewTrueRange) (b : Buffers) : res NewTrueRange :=
  let* result := process_naive e b in
  let* c := set_cache_value (_local_cache e) 0 result in
  let* close_buf := at_port b 2 in
  let* close := get close_buf 0 in
  let* c := set_cache_value c 1 close in
  Ok (mkNewTrueRange c).

Definition process_opt_ext (e : NewTrueRange) (increments : list FixedPt) (cache : VectorCache)
  : res NewTrueRange :=
  let* new_high := increment increments 0 in
  let* new_low := increment increments 1 in
  let* new_close := increment increments 2 in
  let* s1 := cache_at cache 1 in
  let prev_close := cs_value s1 in
  let result := calculate_tr new_low new_high prev_close in
  let* c := set_cache_value (_local_cache e) 0 result in
  let* c := set_cache_value c 1 new_close in
  Ok (mkNewTrueRange c).

#[global] Instance NewTrueRange_element : IndicatorElement NewTrueRange := {|
  local_cache := _local_cache;
  IndicatorBase.initialize_element := initialize_element;
  IndicatorBase.process_naive := process_naive;
  IndicatorBase.process_ext := process_ext;
  IndicatorBase.process_opt_ext := process_opt_ext
|}.

End NewTrueRange.

Module Vmu.

Record Vmu := mkVmu { _local_cache : VectorCache }.

Definition Vmu_new : Vmu := mkVmu (replicate 2 CacheStruct_new).

Definition configure (in_ports : Z) (args : option (Z * Z)) (ib : IndicatorBase.IndicatorBase Vmu)
  : IndicatorBase.IndicatorBase Vmu * Z :=
  ((IndicatorBase.configure in_ports args ib).1, 0).

(** No value yet: the result is flagged invalid. *)
Definition initialize_element (e : Vmu) (b : Buffers) : res FixedPt :=
  Ok (set_valid FixedPt_default false).

Definition process_naive (e : Vmu) (b : Buffers) : res FixedPt :=
  let* high_buf := at_port b 0 in
  let* low_buf := at_port b 1 in
  let* prev_low := get low_buf 1 in
  let* new_high := get high_buf 0 in
  Ok (fpt_abs (sub new_high prev_low)).

Definition process_ext (e : Vmu) (b : Buffers) : res Vmu :=
  let* result := process_naive e b in
  let* c := set_cache_value (_local_cache e) 0 result in
  let* low_buf := at_port b 1 in
  let* low := get low_buf 0 in
  let* c := set_cache_value c 1 low in
  Ok (mkVmu c).

Definition process_opt_ext (e : Vmu) (increments : list FixedPt) (cache : VectorCache)
  : res Vmu :=
  let* new_high := increment increments 0 in
  let* new_low := increment increments 1 in
  let* s1 := cache_at cache 1 in
  let prev_low := cs_value s1 in
  let result := fpt_abs (sub new_high prev_low) in
  let* c := set_cache_value (_local_cache e) 0 result in
  let* c := set_cache_value c 1 new_low in
  Ok (mkVmu c).

#[global] Instance Vmu_element : IndicatorElement Vmu := {|
  local_cache := _local_cache;
  IndicatorBase.initialize_element := initialize_element;
  IndicatorBase.process_naive := process_naive;
  IndicatorBase.process_ext := process_ext;
  IndicatorBase.process_opt_ext := process_opt_ext
|}.

End Vmu.

Module Vmd.

Record Vmd := mkVmd { _local_cache : VectorCache }.

Definition Vmd_new : Vmd := mkVmd (replicate 2 CacheStruct_new).

Definition configure (in_ports : Z) (args : option (Z * Z)) (ib : IndicatorBase.IndicatorBase Vmd)
  : IndicatorBase.IndicatorBase Vmd * Z :=
  ((IndicatorBase.configure in_ports args ib).1, 0).

(** No value yet: the result is flagged invalid. *)
Definition initialize_element (e : Vmd) (b : Buffers) : res FixedPt :=
  Ok (set_valid FixedPt_default false).

Definition process_naive (e : Vmd) (b : Buffers) : res FixedPt :=
  let* high_buf := at_port b 0 in
  let* low_buf := at_port b 1 in
  let* new_low := get low_buf 0 in
  let* prev_high := get high_buf 1 in
  Ok (fpt_abs (sub new_low prev_high)).

Definition process_ext (e : Vmd) (b : Buffers) : res Vmd :=
  let* result := process_naive e b in
  let* c := set_cache_value (_local_cache e) 0 result in
  let* high_buf := at_port b 0 in
  let* high := get high_buf 0 in
  let* c := set_cache_value c 1 high in
  Ok (mkVmd c).

Definition process_opt_ext (e : Vmd) (increments : list FixedPt) (cache : VectorCache)
  : res Vmd :=
  let* new_high := increment increments 0 in
  let* new_low := increment increments 1 in
  let* s1 := cache_at cache 1 in
  let prev_high := cs_value s1 in
  let result := fpt_abs (sub new_low prev_high) in
  let* c := set_cache_value (_local_cache e) 0 result in
  let* c := set_cache_value c 1 new_high in
  Ok (mkVmd c).

#[global] Instance Vmd_element : IndicatorElement Vmd := {|
  local_cache := _local_cache;
  IndicatorBase.initialize_element := initialize_element;
  IndicatorBase.process_naive := process_naive;
  IndicatorBase.process_ext := process_ext;
  IndicatorBase.process_opt_ext := process_opt_ext
|}.

End Vmd.

(** ** The contracts

    The proofs are alike: read the two newest rounds from the rings or from
    the cache, compute. *)

Ltac cacheR_equiv_tac :=
  intros P cap H c c' He (Hw & Hv); split; [by eapply cache_equiv_wf|];
  by rewrite <- (cache_equiv_values _ _ He).

(** Replaces every ring of [b] by its window. *)
Ltac open_rings Hh :=
  repeat match goal with
  | |- context [at_port ?b ?p] =>
      let rb := fresh "rb" in let E := fresh "E" in let Hr := fresh "Hr" in
      destruct (holds_port _ _ _ _ p Hh) as (rb & E & Hr); [lia|];
      rewrite E; clear E; res_simpl
  end;
  repeat match goal with
  | Hr : repr ?rb _ _ |- context [get ?rb ?i] => rewrite (repr_get _ _ _ i Hr);
      cbn [take column map lookup list_lookup of_option mbind res_bind]
  end.

Ltac naive_tac f :=
  intros e cap b H vs Hc He Hne Hl Hh; simpl in *; unfold f;
  destruct cap as [|[|cap]]; [lia|lia|]; destruct H as [|w H]; [done|];
  open_rings Hh; done.

(** Stores the results into a cache of known length. *)
Ltac store_tac He :=
  match type of He with cache_shape _ (_ ?e) => destruct e end; simpl in He;
  split_cache He; simpl; split; [split; [done|repeat (constructor; simpl; try done)]|];
  split; [done|]; split; [eexists; by split|];
  split_and?; try done; repeat (constructor; simpl; try done).

Ltac ext_tac f g :=
  intros e cap b H vs Hc He H1 Hl Hh; simpl in *; unfold f, g;
  split_vector H1; split_vector Hl; destruct cap as [|[|cap]]; [lia|lia|];
  open_rings Hh; store_tac He.

Ltac opt_tac f :=
  intros e cap c H vs Hc He Hne Hl (Hw & Hv); simpl in *; unfold f;
  split_vector Hl; destruct H as [|w H]; [done|]; simpl in *; destruct_and? Hv;
  repeat match goal with
  | Hv : map cs_value c !! _ = Some _ |- _ =>
      let s := fresh "s" in let Es := fresh "Es" in let Ev := fresh "Ev" in
      rewrite list_lookup_fmap in Hv; apply fmap_Some in Hv as (s & Es & Ev)
  end;
  unfold cache_at; simpl;
  repeat match goal with
  | Es : c !! ?i = Some _ |- context [c !! ?i] => rewrite Es; simpl
  end;
  repeat match goal with Ev : _ = cs_value _ |- _ => rewrite <- Ev end; store_tac He.

Section pdm.
Import Pdm.
#[global] Program Instance Pdm_laws : IndicatorLaws Pdm := {|
  nports := 2;
  par := unit;
  params _ := tt;
  elem_ok e := cache_shape 3 (_local_cache e);
  out_init _ vs := set_valid FixedPt_default false;
  out_naive _ cap H vs := let w := hd [] H in Ok (calculate_pdm (vs !!! 1%nat) (w !!! 1%nat) (vs !!! 0%nat) (w !!! 0%nat));
  out_opt _ cap H vs := let w := hd [] H in Ok (calculate_pdm (vs !!! 1%nat) (w !!! 1%nat) (vs !!! 0%nat) (w !!! 0%nat));
  cacheR _ cap H c :=
    cache_wf c /\
    map cs_value c !! 1%nat = Some (hd [] H !!! 0%nat) /\
    map cs_value c !! 2%nat = Some (hd [] H !!! 1%nat)
|}.
Next Obligation. cacheR_equiv_tac. Qed.
Next Obligation. by intros P cap H c [Hw _]. Qed.
Next Obligation. done. Qed.
Next Obligation. naive_tac process_naive. Qed.
Next Obligation. ext_tac process_ext process_naive. Qed.
Next Obligation. opt_tac process_opt_ext. Qed.
End pdm.

Section ndm.
Import Ndm.
#[global] Program Instance Ndm_laws : IndicatorLaws Ndm := {|
  nports := 2;
  par := unit;
  params _ := tt;
  elem_ok e := cache_shape 3 (_local_cache e);
  out_init _ vs := set_valid FixedPt_default false;
  out_naive _ cap H vs := let w := hd [] H in Ok (calculate_ndm (vs !!! 1%nat) (w !!! 1%nat) (vs !!! 0%nat) (w !!! 0%nat));
  out_opt _ cap H vs := let w := hd [] H in Ok (calculate_ndm (vs !!! 1%nat) (w !!! 1%nat) (vs !!! 0%nat) (w !!! 0%nat));
  cacheR _ cap H c :=
    cache_wf c /\
    map cs_value c !! 1%nat = Some (hd [] H !!! 0%nat) /\
    map cs_value c !! 2%nat = Some (hd [] H !!! 1%nat)
|}.
Next Obligation. cacheR_equiv_tac. Qed.
Next Obligation. by intros P cap H c [Hw _]. Qed.
Next Obligation. done. Qed.
Next Obligation. naive_tac process_naive. Qed.
Next Obligation. ext_tac process_ext process_naive. Qed.
Next Obligation. opt_tac process_opt_ext. Qed.
End ndm.

Section newtruerange.
Import NewTrueRange.
#[global] Program Instance NewTrueRange_laws : IndicatorLaws NewTrueRange := {|
  nports := 3;
  par := unit;
  params _ := tt;
  elem_ok e := cache_shape 2 (_local_cache e);
  out_init _ vs := set_valid FixedPt_default false;
  out_naive _ cap H vs := let w := hd [] H in Ok (calculate_tr (vs !!! 1%nat) (vs !!! 0%nat) (w !!! 2%nat));
  out_opt _ cap H vs := let w := hd [] H in Ok (calculate_tr (vs !!! 1%nat) (vs !!! 0%nat) (w !!! 2%nat));
  cacheR _ cap H c :=
    cache_wf c /\
    map cs_value c !! 1%nat = Some (hd [] H !!! 2%nat)
|}.
Next Obligation. cacheR_equiv_tac. Qed.
Next Obligation. by intros P cap H c [Hw _]. Qed.
Next Obligation. done. Qed.
Next Obligation. naive_tac process_naive. Qed.
Next Obligation. ext_tac process_ext process_naive. Qed.
Next Obligation. opt_tac process_opt_ext. Qed.
End newtruerange.

Section vmu.
Import Vmu.
#[global] Program Instance Vmu_laws : IndicatorLaws Vmu := {|
  nports := 2;
  par := unit;
  params _ := tt;
  elem_ok e := cache_shape 2 (_local_cache e);
  out_init _ vs := set_valid FixedPt_default false;
  out_naive _ cap H vs := let w := hd [] H in Ok (fpt_abs (sub (vs !!! 0%nat) (w !!! 1%nat)));
  out_opt _ cap H vs := let w := hd [] H in Ok (fpt_abs (sub (vs !!! 0%nat) (w !!! 1%nat)));
  cacheR _ cap H c :=
    cache_wf c /\
    map cs_value c !! 1%nat = Some (hd [] H !!! 1%nat)
|}.
Next Obligation. cacheR_equiv_tac. Qed.
Next Obligation. by intros P cap H c [Hw _]. Qed.
Next Obligation. done. Qed.
Next Obligation. naive_tac process_naive. Qed.
Next Obligation. ext_tac process_ext process_naive. Qed.
Next Obligation. opt_tac process_opt_ext. Qed.
End vmu.

Section vmd.
Import Vmd.
#[global] Program Instance Vmd_laws : IndicatorLaws Vmd := {|
  nports := 2;
  par := unit;
  params _ := tt;
  elem_ok e := cache_shape 2 (_local_cache e);
  out_init _ vs := set_valid FixedPt_default false;
  out_naive _ cap H vs := let w := hd [] H in Ok (fpt_abs (sub (vs !!! 1%nat) (w !!! 0%nat)));
  out_opt _ cap H vs := let w := hd [] H in Ok (fpt_abs (sub (vs !!! 1%nat) (w !!! 0%nat)));
  cacheR _ cap H c :=
    cache_wf c /\
    map cs_value c !! 1%nat = Some (hd [] H !!! 0%nat)
|}.
Next Obligation. cacheR_equiv_tac. Qed.
Next Obligation. by intros P cap H c [Hw _]. Qed.
Next Obligation. done. Qed.
Next Obligation. naive_tac process_naive. Qed.
Next Obligation. ext_tac process_ext process_naive. Qed.
Next Obligation. opt_tac process_opt_ext. Qed.
End vmd.
