(* ===== verification/Ratios.v ===== *)
(** * Ratios: the elements that divide

    Models click-2.0.1/elements/standard/pdi.cc, ndi.cc, viu.cc, vid.cc (a
    quotient of two inputs, zero when the denominator is), dx.cc (the
    directional index) and trix.cc (the relative change of the last value in
    percent).  [Trix] multiplies by 100 before the division in its naive method and
    after it in the incremental one. *)

From S2P Require Import Prelude FixedPt CircArray Messages Buffers IndicatorBase IndicatorLaws Smoothing.
From S2P Require Import Directional.
Import FPt CircArray CircArrayFacts Buffers BuffersFacts.

Module Pdi.

Record Pdi := mkPdi { _local_cache : VectorCache }.

Definition Pdi_new : Pdi := mkPdi (replicate 1 CacheStruct_new).

Definition configure (in_ports : Z) (args : option (Z * Z)) (ib : IndicatorBase.IndicatorBase Pdi)
  : IndicatorBase.IndicatorBase Pdi * Z :=
  ((IndicatorBase.configure in_ports args ib).1, 0).

Definition process_naive (e : Pdi) (b : Buffers) : res FixedPt :=
  let* pdm_buf := at_port b 0 in
  let* tr_buf := at_port b 1 in
  let* pdm_smoothed := get pdm_buf 0 in
  let* tr_smoothed := get tr_buf 0 in
  if getC tr_smoothed =? 0 then Ok (fromInt 0) else div pdm_smoothed tr_smoothed.

Definition initialize_element (e : Pdi) (b : Buffers) : res FixedPt := process_naive e b.

Definition process_ext (e : Pdi) (b : Buffers) : res Pdi :=
  let* result := process_naive e b in
  let* c := set_cache_value (_local_cache e) 0 result in
  Ok (mkPdi c).

Definition process_opt_ext (e : Pdi) (increments : list FixedPt) (cache : VectorCache)
  : res Pdi :=
  let* pdm_smoothed := increment increments 0 in
  let* tr_smoothed := increment increments 1 in
  let* result := if getC tr_smoothed =? 0 then Ok (fromInt 0) else div pdm_smoothed tr_smoothed in
  let* c := set_cache_value (_local_cache e) 0 result in
  Ok (mkPdi c).

#[global] Instance Pdi_element : IndicatorElement Pdi := {|
  local_cache := _local_cache;
  IndicatorBase.initialize_element := initialize_element;
  IndicatorBase.process_naive := process_naive;
  IndicatorBase.process_ext := process_ext;
  IndicatorBase.process_opt_ext := process_opt_ext
|}.

End Pdi.

Module Ndi.

Record Ndi := mkNdi { _local_cache : VectorCache }.

Definition Ndi_new : Ndi := mkNdi (replicate 1 CacheStruct_new).

Definition configure (in_ports : Z) (args : option (Z * Z)) (ib : IndicatorBase.IndicatorBase Ndi)
  : IndicatorBase.IndicatorBase Ndi * Z :=
  ((IndicatorBase.configure in_ports args ib).1, 0).

Definition process_naive (e : Ndi) (b : Buffers) : res FixedPt :=
  let* ndm_buf := at_port b 0 in
  let* tr_buf := at_port b 1 in
  let* ndm_smoothed := get ndm_buf 0 in
  let* tr_smoothed := get tr_buf 0 in
  if getC tr_smoothed =? 0 then Ok (fromInt 0) else div ndm_smoothed tr_smoothed.

Definition initialize_element (e : Ndi) (b : Buffers) : res FixedPt := process_naive e b.

Definition process_ext (e : Ndi) (b : Buffers) : res Ndi :=
  let* result := process_naive e b in
  let* c := set_cache_value (_local_cache e) 0 result in
  Ok (mkNdi c).

Definition process_opt_ext (e : Ndi) (increments : list FixedPt) (cache : VectorCache)
  : res Ndi :=
  let* ndm_smoothed := increment increments 0 in
  let* tr_smoothed := increment increments 1 in
  let* result := if getC tr_smoothed =? 0 then Ok (fromInt 0) else div ndm_smoothed tr_smoothed in
  let* c := set_cache_value (_local_cache e) 0 result in
  Ok (mkNdi c).

#[global] Instance Ndi_element : IndicatorElement Ndi := {|
  local_cache := _local_cache;
  IndicatorBase.initialize_element := initialize_element;
  IndicatorBase.process_naive := process_naive;
  IndicatorBase.process_ext := process_ext;
  IndicatorBase.process_opt_ext := process_opt_ext
|}.

End Ndi.

Module Viu.

Record Viu := mkViu { _local_cache : VectorCache }.

Definition Viu_new : Viu := mkViu (replicate 1 CacheStruct_new).

Definition configure (in_ports : Z) (args : option (Z * Z)) (ib : IndicatorBase.IndicatorBase Viu)
  : IndicatorBase.IndicatorBase Viu * Z :=
  ((IndicatorBase.configure in_ports args ib).1, 0).

Definition process_naive (e : Viu) (b : Buffers) : res FixedPt :=
  let* vmu_buf := at_port b 0 in
  let* tr_buf := at_port b 1 in
  let* vmu_summed := get vmu_buf 0 in
  let* tr_summed := get tr_buf 0 in
  if getC tr_summed =? 0 then Ok (fromInt 0) else div vmu_summed tr_summed.

Definition initialize_element (e : Viu) (b : Buffers) : res FixedPt := process_naive e b.

Definition process_ext (e : Viu) (b : Buffers) : res Viu :=
  let* result := process_naive e b in
  let* c := set_cache_value (_local_cache e) 0 result in
  Ok (mkViu c).

Definition process_opt_ext (e : Viu) (increments : list FixedPt) (cache : VectorCache)
  : res Viu :=
  let* vmu_summed := increment increments 0 in
  let* tr_summed := increment increments 1 in
  let* result := if getC tr_summed =? 0 then Ok (fromInt 0) else div vmu_summed tr_summed in
  let* c := set_cache_value (_local_cache e) 0 result in
  Ok (mkViu c).

#[global] Instance Viu_element : IndicatorElement Viu := {|
  local_cache := _local_cache;
  IndicatorBase.initialize_element := initialize_element;
  IndicatorBase.process_naive := process_naive;
  IndicatorBase.process_ext := process_ext;
  IndicatorBase.process_opt_ext := process_opt_ext
|}.

End Viu.

Module Vid.

Record Vid := mkVid { _local_cache : VectorCache }.

Definition Vid_new : Vid := mkVid (replicate 1 CacheStruct_new).

Definition configure (in_ports : Z) (args : option (Z * Z)) (ib : IndicatorBase.IndicatorBase Vid)
  : IndicatorBase.IndicatorBase Vid * Z :=
  ((IndicatorBase.configure in_ports args ib).1, 0).

Definition process_naive (e : Vid) (b : Buffers) : res FixedPt :=
  let* vmd_buf := at_port b 0 in
  let* tr_buf := at_port b 1 in
  let* vmd_summed := get vmd_buf 0 in
  let* tr_summed := get tr_buf 0 in
  if getC tr_summed =? 0 then Ok (fromInt 0) else div vmd_summed tr_summed.

Definition initialize_element (e : Vid) (b : Buffers) : res FixedPt := process_naive e b.

Definition process_ext (e : Vid) (b : Buffers) : res Vid :=
  let* result := process_naive e b in
  let* c := set_cache_value (_local_cache e) 0 result in
  Ok (mkVid c).

Definition process_opt_ext (e : Vid) (increments : list FixedPt) (cache : VectorCache)
  : res Vid :=
  let* vmd_summed := increment increments 0 in
  let* tr_summed := increment increments 1 in
  let* result := if getC tr_summed =? 0 then Ok (fromInt 0) else div vmd_summed tr_summed in
  let* c := set_cache_value (_local_cache e) 0 result in
  Ok (mkVid c).

#[global] Instance Vid_element : IndicatorElement Vid := {|
  local_cache := _local_cache;
  IndicatorBase.initialize_element := initialize_element;
  IndicatorBase.process_naive := process_naive;
  IndicatorBase.process_ext := process_ext;
  IndicatorBase.process_opt_ext := process_opt_ext
|}.

End Vid.

Module Dx.

Record Dx := mkDx { _local_cache : VectorCache }.

Definition Dx_new : Dx := mkDx (replicate 1 CacheStruct_new).

Definition configure (in_ports : Z) (args : option (Z * Z)) (ib : IndicatorBase.IndicatorBase Dx)
  : IndicatorBase.IndicatorBase Dx * Z :=
  ((IndicatorBase.configure in_ports args ib).1, 0).

Definition process_naive (e : Dx) (b : Buffers) : res FixedPt :=
  let* pdi_buf := at_port b 0 in
  let* ndi_buf := at_port b 1 in
  let* pdi := get pdi_buf 0 in
  let* ndi := get ndi_buf 0 in
  if getC (add pdi ndi) =? 0 then Ok (fromInt 0)
  else div (int_mul 100 (fpt_abs (sub pdi ndi))) (add pdi ndi).

Definition initialize_element (e : Dx) (b : Buffers) : res FixedPt := process_naive e b.

Definition process_ext (e : Dx) (b : Buffers) : res Dx :=
  let* result := process_naive e b in
  let* c := set_cache_value (_local_cache e) 0 result in
  Ok (mkDx c).

Definition process_opt_ext (e : Dx) (increments : list FixedPt) (cache : VectorCache)
  : res Dx :=
  let* pdi := increment increments 0 in
  let* ndi := increment increments 1 in
  let* result :=
    if getC (add pdi ndi) =? 0 then Ok (fromInt 0)
    else div (int_mul 100 (fpt_abs (sub pdi ndi))) (add pdi ndi) in
  let* c := set_cache_value (_local_cache e) 0 result in
  Ok (mkDx c).

#[global] Instance Dx_element : IndicatorElement Dx := {|
  local_cache := _local_cache;
  IndicatorBase.initialize_element := initialize_element;
  IndicatorBase.process_naive := process_naive;
  IndicatorBase.process_ext := process_ext;
  IndicatorBase.process_opt_ext := process_opt_ext
|}.

End Dx.

Module Trix.

Record Trix := mkTrix { _local_cache : VectorCache }.

Definition Trix_new : Trix := mkTrix (replicate 2 CacheStruct_new).

Definition configure (in_ports : Z) (args : option (Z * Z)) (ib : IndicatorBase.IndicatorBase Trix)
  : IndicatorBase.IndicatorBase Trix * Z :=
  ((IndicatorBase.configure in_ports args ib).1, 0).

Definition initialize_element (e : Trix) (b : Buffers) : res FixedPt := Ok (fromInt 0).

Definition process_naive (e : Trix) (b : Buffers) : res FixedPt :=
  let* buf := at_port b 0 in
  let* copy := CircArray_copy buf in
  let* r := pop_front copy in
  let last_value := r.2 in
  let* r := pop_front r.1 in
  let penultimate_value := r.2 in
  div (int_mul 100 (sub last_value penultimate_value)) penultimate_value.

Definition process_ext (e : Trix) (b : Buffers) : res Trix :=
  let* result := process_naive e b in
  let* c := set_cache_value (_local_cache e) 0 result in
  let* buf := at_port b 0 in
  let* last := get buf 0 in
  let* c := set_cache_value c 1 last in
  Ok (mkTrix c).

Definition process_opt_ext (e : Trix) (increments : list FixedPt) (cache : VectorCache)
  : res Trix :=
  let* s1 := cache_at cache 1 in
  let penultimate_value := cs_value s1 in
  let* last_value := increment increments 0 in
  let* q := div (sub last_value penultimate_value) penultimate_value in
  let result := int_mul 100 q in
  let* c := set_cache_value (_local_cache e) 0 result in
  let* c := set_cache_value c 1 last_value in
  Ok (mkTrix c).

#[global] Instance Trix_element : IndicatorElement Trix := {|
  local_cache := _local_cache;
  IndicatorBase.initialize_element := initialize_element;
  IndicatorBase.process_naive := process_naive;
  IndicatorBase.process_ext := process_ext;
  IndicatorBase.process_opt_ext := process_opt_ext
|}.

End Trix.

(** ** The contracts *)

(** The guarded quotient and the directional index, as total functions. *)
Definition ratio (x y : FixedPt) : FixedPt :=
  if getC y =? 0 then fromInt 0 else fromC (i64 (Z.quot (getC x * 2 ^ 40) (getC y))).

Definition dx_value (pdi ndi : FixedPt) : FixedPt :=
  ratio (int_mul 100 (fpt_abs (sub pdi ndi))) (add pdi ndi).

Lemma ratio_div x y : (if getC y =? 0 then Ok (fromInt 0) else div x y) = Ok (ratio x y).
Proof.
  unfold ratio, div. destruct (Z.eqb_spec (getC y) 0) as [|Hy]; [done|].
  by rewrite div_nonzero.
Qed.

(** Elements without memory: the value of a round depends on the round only. *)
Ltac memoryless_init_tac f g :=
  intros e cap b vs Hc He Hl Hh; simpl in Hl, Hh |- *; unfold f, g;
  destruct cap as [|[|cap]]; [lia|lia|]; open_rings Hh; rewrite ratio_div; done.
Ltac memoryless_naive_tac f :=
  intros e cap b H vs Hc He Hne Hl Hh; simpl in *; unfold f;
  destruct cap as [|[|cap]]; [lia|lia|]; open_rings Hh; rewrite ratio_div; done.
Ltac memoryless_ext_tac f g :=
  intros e cap b H vs Hc He H1 Hl Hh; simpl in *; unfold f, g;
  destruct cap as [|[|cap]]; [lia|lia|]; open_rings Hh; rewrite ratio_div; simpl; store_tac He.
Ltac memoryless_opt_tac f :=
  intros e cap c H vs Hc He Hne Hl Hw; simpl in *; unfold f;
  split_vector Hl; unfold increment; cbn [lookup list_lookup of_option mbind res_bind];
  rewrite ratio_div; simpl; store_tac He.

Section pdi.
Import Pdi.
#[global] Program Instance Pdi_laws : IndicatorLaws Pdi := {|
  nports := 2;
  par := unit;
  params _ := tt;
  elem_ok e := cache_shape 1 (_local_cache e);
  out_init _ vs := ratio (vs !!! 0%nat) (vs !!! 1%nat);
  out_naive _ cap H vs := Ok (ratio (vs !!! 0%nat) (vs !!! 1%nat));
  out_opt _ cap H vs := Ok (ratio (vs !!! 0%nat) (vs !!! 1%nat));
  cacheR _ cap H c := cache_wf c
|}.
Next Obligation. intros P cap H c c' He Hw. by eapply cache_equiv_wf. Qed.
Next Obligation. done. Qed.
Next Obligation. memoryless_init_tac initialize_element process_naive. Qed.
Next Obligation. memoryless_naive_tac process_naive. Qed.
Next Obligation. memoryless_ext_tac process_ext process_naive. Qed.
Next Obligation. memoryless_opt_tac process_opt_ext. Qed.
End pdi.

Section ndi.
Import Ndi.
#[global] Program Instance Ndi_laws : IndicatorLaws Ndi := {|
  nports := 2;
  par := unit;
  params _ := tt;
  elem_ok e := cache_shape 1 (_local_cache e);
  out_init _ vs := ratio (vs !!! 0%nat) (vs !!! 1%nat);
  out_naive _ cap H vs := Ok (ratio (vs !!! 0%nat) (vs !!! 1%nat));
  out_opt _ cap H vs := Ok (ratio (vs !!! 0%nat) (vs !!! 1%nat));
  cacheR _ cap H c := cache_wf c
|}.
Next Obligation. intros P cap H c c' He Hw. by eapply cache_equiv_wf. Qed.
Next Obligation. done. Qed.
Next Obligation. memoryless_init_tac initialize_element process_naive. Qed.
Next Obligation. memoryless_naive_tac process_naive. Qed.
Next Obligation. memoryless_ext_tac process_ext process_naive. Qed.
Next Obligation. memoryless_opt_tac process_opt_ext. Qed.
End ndi.

Section viu.
Import Viu.
#[global] Program Instance Viu_laws : IndicatorLaws Viu := {|
  nports := 2;
  par := unit;
  params _ := tt;
  elem_ok e := cache_shape 1 (_local_cache e);
  out_init _ vs := ratio (vs !!! 0%nat) (vs !!! 1%nat);
  out_naive _ cap H vs := Ok (ratio (vs !!! 0%nat) (vs !!! 1%nat));
  out_opt _ cap H vs := Ok (ratio (vs !!! 0%nat) (vs !!! 1%nat));
  cacheR _ cap H c := cache_wf c
|}.
Next Obligation. intros P cap H c c' He Hw. by eapply cache_equiv_wf. Qed.
Next Obligation. done. Qed.
Next Obligation. memoryless_init_tac initialize_element process_naive. Qed.
Next Obligation. memoryless_naive_tac process_naive. Qed.
Next Obligation. memoryless_ext_tac process_ext process_naive. Qed.
Next Obligation. memoryless_opt_tac process_opt_ext. Qed.
End viu.

Section vid.
Import Vid.
#[global] Program Instance Vid_laws : IndicatorLaws Vid := {|
  nports := 2;
  par := unit;
  params _ := tt;
  elem_ok e := cache_shape 1 (_local_cache e);
  out_init _ vs := ratio (vs !!! 0%nat) (vs !!! 1%nat);
  out_naive _ cap H vs := Ok (ratio (vs !!! 0%nat) (vs !!! 1%nat));
  out_opt _ cap H vs := Ok (ratio (vs !!! 0%nat) (vs !!! 1%nat));
  cacheR _ cap H c := cache_wf c
|}.
Next Obligation. intros P cap H c c' He Hw. by eapply cache_equiv_wf. Qed.
Next Obligation. done. Qed.
Next Obligation. memoryless_init_tac initialize_element process_naive. Qed.
Next Obligation. memoryless_naive_tac process_naive. Qed.
Next Obligation. memoryless_ext_tac process_ext process_naive. Qed.
Next Obligation. memoryless_opt_tac process_opt_ext. Qed.
End vid.

Section dx.
Import Dx.
#[global] Program Instance Dx_laws : IndicatorLaws Dx := {|
  nports := 2;
  par := unit;
  params _ := tt;
  elem_ok e := cache_shape 1 (_local_cache e);
  out_init _ vs := dx_value (vs !!! 0%nat) (vs !!! 1%nat);
  out_naive _ cap H vs := Ok (dx_value (vs !!! 0%nat) (vs !!! 1%nat));
  out_opt _ cap H vs := Ok (dx_value (vs !!! 0%nat) (vs !!! 1%nat));
  cacheR _ cap H c := cache_wf c
|}.
Next Obligation. intros P cap H c c' He Hw. by eapply cache_equiv_wf. Qed.
Next Obligation. done. Qed.
Next Obligation. memoryless_init_tac initialize_element process_naive. Qed.
Next Obligation. memoryless_naive_tac process_naive. Qed.
Next Obligation. memoryless_ext_tac process_ext process_naive. Qed.
Next Obligation. memoryless_opt_tac process_opt_ext. Qed.
End dx.

Section trix.
Import Trix.

(** The two orders of rounding. *)
Definition trix_naive (last_value penultimate_value : FixedPt) : res FixedPt :=
  div (int_mul 100 (sub last_value penultimate_value)) penultimate_value.
Definition trix_opt (last_value penultimate_value : FixedPt) : res FixedPt :=
  int_mul 100 <$> div (sub last_value penultimate_value) penultimate_value.

Lemma process_naive_ring e b rb cap x y l :
  at_port b 0 = Ok rb -> repr rb cap (x :: y :: l) -> process_naive e b = trix_naive x y.
Proof.
  intros E Hr. unfold process_naive. rewrite E. res_simpl.
  destruct (repr_deep_copy None _ _ _ Hr I) as (copy & Ec & Hcopy).
  unfold CircArray_copy. rewrite Ec. res_simpl.
  destruct (repr_pop_front _ _ _ _ Hcopy) as (c1 & E1 & Hc1). rewrite E1. res_simpl. cbn [fst snd].
  destruct (repr_pop_front _ _ _ _ Hc1) as (c2 & E2 & _). rewrite E2. done.
Qed.

Lemma process_naive_trix e cap b H vs :
  (2 <= cap)%nat -> H <> [] -> holds 1 cap b (vs :: H) ->
  process_naive e b = trix_naive (vs !!! 0%nat) (hd [] H !!! 0%nat).
Proof.
  intros Hc Hne Hh. destruct (holds_port _ _ _ _ 0 Hh) as (rb & E & Hr); [lia|].
  destruct cap as [|[|cap]]; [lia|lia|]. destruct H as [|w H]; [done|]. simpl in Hr.
  by eapply process_naive_ring.
Qed.

#[global] Program Instance Trix_laws : IndicatorLaws Trix := {|
  nports := 1;
  par := unit;
  params _ := tt;
  elem_ok e := cache_shape 2 (_local_cache e);
  out_init _ vs := fromInt 0;
  out_naive _ cap H vs := trix_naive (vs !!! 0%nat) (hd [] H !!! 0%nat);
  out_opt _ cap H vs := trix_opt (vs !!! 0%nat) (hd [] H !!! 0%nat);
  cacheR _ cap H c := cache_wf c /\ map cs_value c !! 1%nat = Some (hd [] H !!! 0%nat)
|}.
Next Obligation. cacheR_equiv_tac. Qed.
Next Obligation. by intros P cap H c [Hw _]. Qed.
Next Obligation. done. Qed.
Next Obligation. intros e cap b H vs Hc He Hne Hl Hh. by apply (process_naive_trix e cap). Qed.
Next Obligation.
  intros e cap b H vs Hc He H1 Hl Hh. simpl in *. unfold process_ext.
  split_vector H1. rewrite (process_naive_trix _ cap b [l] vs) by done.
  destruct (trix_naive _ _) as [v|f]; [|done]. simpl. destruct cap as [|[|cap]]; [lia|lia|].
  open_rings Hh. store_tac He.
Qed.
Next Obligation.
  intros e cap c H vs Hc He Hne Hl (Hw & Hv). simpl in *. unfold process_opt_ext, trix_opt.
  split_vector Hl. rewrite list_lookup_fmap in Hv. apply fmap_Some in Hv as (s & Es & Ev).
  unfold cache_at. rewrite Es. simpl. rewrite <- Ev.
  destruct (div _ _) as [q|g]; [|done]. simpl. store_tac He.
Qed.

End trix.
