(* ===== verification/IndicatorProps.v ===== *)
(** * IndicatorProps: properties of the indicator elements

    The refinement theorem of the base class, the equivalence of the naive and
    the optimised modes element by element, and the meaning of the individual
    indicators' formulas. *)

From S2P Require Import Prelude FixedPt CircArray Messages Buffers IndicatorBase IndicatorLaws.
From S2P Require Import Smoothing Directional Ratios.
Import FPt CircArray CircArrayFacts Buffers IndicatorBase IndicatorBaseFacts.

(** ** The base class *)

Lemma idle_configured {E} `{IndicatorLaws E} (e : E) cap op_mode :
  elem_ok e -> (0 < nports)%nat ->
  idle cap (configure (Z.of_nat nports) (Some (Z.of_nat cap, op_mode)) (IndicatorBase_new e)).1
    (if op_mode =? 1 then NAIVE else STARTUP) (params e).
Proof.
  intros He Hn. unfold configure. destruct (Z.ltb_spec (Z.of_nat nports) 1) as [Hl|Hl]; [lia|].
  rewrite (proj2 (Z.ltb_ge _ 0)) by lia. unfold idle. simpl. rewrite !Nat2Z.id. split_and!; try done. by destruct (op_mode =? 1).
Qed.

(** The run of a configured element: an initialising round, then further ones. *)
Lemma full_run {E} `{IndicatorLaws E} pad cap ib m P (r0 : pround) (rs : list pround) :
  length pad = 7%nat -> (2 <= cap)%nat -> (0 < nports)%nat -> idle cap ib m P ->
  known (pr_type r0) -> pround_ok nports r0 -> 0 < pr_tstamp r0 ->
  prounds_ok nports (pr_tstamp r0) rs ->
  res_rel
    (fun i vs => i.2 = (if get_valid (out_init P (pr_values r0))
                        then out_packet pad r0 (out_init P (pr_values r0)) else []) ++
                       out_packets pad rs vs)
    (push_all pad ib (pr_pkts r0 ++ concat (map pr_pkts rs)))
    (spec_run P cap (m, [pr_values r0]) rs).
Proof.
  intros Hpad Hcap Hn Hidle Hk Hr0 Hts Hrs.
  destruct (init_round pad Hpad cap Hcap Hn P ib m r0 Hidle Hk Hr0 Hts) as (ib1 & E1 & Hinv).
  pose proof (run_rounds pad Hpad cap Hcap Hn P ib1 _ _ rs Hinv Hrs) as Hrun.
  rewrite push_all_app, E1. res_simpl. cbn [fst snd].
  destruct (push_all pad ib1 _) as [[ib2 o]|f], (spec_run _ _ _ rs) as [vs|g]; try done.
  simpl in Hrun |- *. by rewrite Hrun.
Qed.

(** Elements whose incremental method gives exactly the naive value. *)
Class Exact (E : Type) `{IndicatorLaws E} : Prop :=
  exact_out P cap Hs vs : out_naive P cap Hs vs = out_opt P cap Hs vs.

#[global] Instance Sum_exact : Exact Sum.Sum. Proof. done. Qed.
#[global] Instance Pdm_exact : Exact Pdm.Pdm. Proof. done. Qed.
#[global] Instance Ndm_exact : Exact Ndm.Ndm. Proof. done. Qed.
#[global] Instance NewTrueRange_exact : Exact NewTrueRange.NewTrueRange. Proof. done. Qed.
#[global] Instance Vmu_exact : Exact Vmu.Vmu. Proof. done. Qed.
#[global] Instance Vmd_exact : Exact Vmd.Vmd. Proof. done. Qed.
#[global] Instance Pdi_exact : Exact Pdi.Pdi. Proof. done. Qed.
#[global] Instance Ndi_exact : Exact Ndi.Ndi. Proof. done. Qed.
#[global] Instance Viu_exact : Exact Viu.Viu. Proof. done. Qed.
#[global] Instance Vid_exact : Exact Vid.Vid. Proof. done. Qed.
#[global] Instance Dx_exact : Exact Dx.Dx. Proof. done. Qed.

(** The modes of an exact element have the same specification. *)
Lemma spec_out_exact {E} `{Exact E} P cap m m' Hs vs :
  spec_out P cap m Hs vs = spec_out P cap m' Hs vs.
Proof. destruct m, m'; cbn [spec_out]; by rewrite ?exact_out. Qed.

Lemma spec_run_exact {E} `{Exact E} P cap m m' Hs rs :
  spec_run P cap (m, Hs) rs = spec_run P cap (m', Hs) rs.
Proof.
  revert m m' Hs. induction rs as [|r rs IH]; intros m m' Hs; [done|].
  cbn [spec_run]. unfold spec_step. rewrite (spec_out_exact P cap m m').
  destruct (spec_out _ _ _ _ _) as [v|f]; [|done]. res_simpl.
  destruct (decide _); res_simpl; cbn [fst snd]; by erewrite IH.
Qed.

(** Two runs with the same specification emit the same packets. *)
Lemma runs_agree {A B} (f : list FixedPt -> list Packet) (x : res (A * list Packet))
    (y : res (B * list Packet)) s :
  res_rel (fun i vs => i.2 = f vs) x s -> res_rel (fun i vs => i.2 = f vs) y s ->
  res_rel (fun i j => i.2 = j.2) x y.
Proof. destruct x as [[? ?]|], y as [[? ?]|], s; simpl; intros; subst; done. Qed.

(** A packet carrying a value, for the witnesses. *)
Definition value_packet (t : PacketAppType) (ts : Z) (v : FixedPt) : Packet :=
  mkPacket t (encode_MsgValue (replicate 7 0) (mkMsgValue v ts)).
Definition value_round (t : PacketAppType) (ts : Z) (vs : list FixedPt) : pround :=
  PRound t ts vs (imap (fun i v => (i, value_packet t ts v)) vs).

Lemma value_round_ok t ts vs :
  Forall wf_fpt vs -> in_u 64 ts -> pround_ok (length vs) (value_round t ts vs).
Proof.
  intros Hvs Hts. split; [done|]. exists (zip (seq 0 (length vs)) vs). split; [done|].
  apply Forall2_same_length_lookup_2.
  - simpl. rewrite length_imap, length_zip_with, length_seq. lia.
  - intros i pp pv. simpl. rewrite list_lookup_imap, lookup_zip_with.
    destruct (vs !! i) as [v|] eqn:Ev; [|by destruct (_ !! i)]. pose proof (lookup_lt_Some _ _ _ Ev).
    rewrite lookup_seq_lt by done. simpl. intros [= <-] [= <-]. split; [done|]. split; [done|].
    rewrite <- (app_nil_r (pk_data _)). simpl pk_data. apply decode_encode_MsgValue; [done|].
    split; [|done]. by eapply Forall_lookup_1 in Ev.
Qed.


(** Rounds with consecutive timestamps, and a decidable check on them. *)
Fixpoint value_rounds (ts : Z) (rows : list (PacketAppType * list FixedPt)) : list pround :=
  match rows with
  | [] => []
  | row :: rows => value_round row.1 ts row.2 :: value_rounds (ts + 1) rows
  end.

Definition row_ok (n : nat) (row : PacketAppType * list FixedPt) : Prop :=
  (row.1 = MSG_ADD \/ row.1 = MSG_UPDATE) /\ length row.2 = n /\ Forall wf_fpt row.2.
#[global] Instance row_ok_dec n row : Decision (row_ok n row).
Proof. unfold row_ok. apply _. Defined.

Lemma value_rounds_ok n ts rows :
  0 < ts -> ts + Z.of_nat (length rows) < 2 ^ 64 -> bool_decide (Forall (row_ok n) rows) = true ->
  prounds_ok n (ts - 1) (value_rounds ts rows).
Proof.
  intros H0 Hts Hok%bool_decide_eq_true. revert ts H0 Hts. induction Hok as [|[t vs] rows Hr Hok IH]; intros ts H0 Hts; [done|].
  destruct Hr as (Ht & Hl & Hw). cbn [length] in Hts. cbn [value_rounds prounds_ok fst snd].
  split; [simpl; lia|]. split; [done|]. split.
  - cbn [snd] in Hl. rewrite <- Hl. apply value_round_ok; [done|zrange].
  - replace (pr_tstamp (value_round t ts vs)) with (ts + 1 - 1) by (simpl; lia). apply IH; lia.
Qed.

Lemma init_round_ok n vs :
  bool_decide (length vs = n /\ Forall wf_fpt vs) = true ->
  known MSG_INIT /\ pround_ok n (value_round MSG_INIT 1 vs) /\ 0 < pr_tstamp (value_round MSG_INIT 1 vs).
Proof.
  intros [Hl Hw]%bool_decide_eq_true. split; [by right; right|]. split; [|done].
  rewrite <- Hl. apply value_round_ok; [done|zrange].
Qed.

(** C1: The base class refines its specification, for every element that
    meets the [IndicatorLaws] contract, every mode and every sequence of rounds
    whose packets arrive in any port order: the packets it emits are, round by
    round, the values the element's output functions give on the history of
    committed rounds (the naive function until the first ADD of the optimised
    mode, the incremental one from then on; UPDATE rounds leave no trace), and
    it faults exactly when they do. *)
Theorem indicator_base_refines {E} `{IndicatorLaws E} pad cap ib m P (r0 : pround) (rs : list pround)
  (Hpad : length pad = 7%nat) (Hcap : (2 <= cap)%nat) (Hn : (0 < nports)%nat)
  (Hidle : idle cap ib m P) (Hk : known (pr_type r0)) (Hr0 : pround_ok nports r0)
  (Hts : 0 < pr_tstamp r0) (Hrs : prounds_ok nports (pr_tstamp r0) rs) :
  res_rel
    (fun i vs => i.2 = (if get_valid (out_init P (pr_values r0))
                        then out_packet pad r0 (out_init P (pr_values r0)) else []) ++
                       out_packets pad rs vs)
    (push_all pad ib (pr_pkts r0 ++ concat (map pr_pkts rs)))
    (spec_run P cap (m, [pr_values r0]) rs).
Proof. by apply full_run. Qed.

Definition demo_pdm : IndicatorBase Pdm.Pdm :=
  (configure 2 (Some (3, 2)) (IndicatorBase_new Pdm.Pdm_new)).1.
Definition demo_pdm_init : pround := value_round MSG_INIT 1 [fromInt 10; fromInt 8].
Definition demo_pdm_rounds : list pround :=
  value_rounds 2 [(MSG_ADD, [fromInt 12; fromInt 9]); (MSG_UPDATE, [fromInt 15; fromInt 9]);
                  (MSG_ADD, [fromInt 13; fromInt 5])].

Lemma indicator_base_refines_witness :
  spec_run (params Pdm.Pdm_new) 3 (STARTUP, [pr_values demo_pdm_init]) demo_pdm_rounds =
    Ok [fromInt 2; fromInt 3; fromInt 0] /\
  res_rel
    (fun i vs => i.2 = (if get_valid (out_init (params Pdm.Pdm_new) (pr_values demo_pdm_init))
                        then out_packet (replicate 7 0) demo_pdm_init
                               (out_init (params Pdm.Pdm_new) (pr_values demo_pdm_init)) else []) ++
                       out_packets (replicate 7 0) demo_pdm_rounds vs)
    (push_all (replicate 7 0) demo_pdm (pr_pkts demo_pdm_init ++ concat (map pr_pkts demo_pdm_rounds)))
    (spec_run (params Pdm.Pdm_new) 3 (STARTUP, [pr_values demo_pdm_init]) demo_pdm_rounds).
Proof.
  split; [vm_compute; reflexivity|].
  destruct (init_round_ok 2 [fromInt 10; fromInt 8]) as (Hk & Hr & Ht); [vm_compute; reflexivity|].
  refine (indicator_base_refines (replicate 7 0) 3 demo_pdm STARTUP (params Pdm.Pdm_new)
           demo_pdm_init demo_pdm_rounds eq_refl _ _ _ Hk Hr Ht _).
  - lia.
  - cbn. lia.
  - refine (idle_configured Pdm.Pdm_new 3 2 _ _); [|cbn; lia].
    split; [reflexivity|]. repeat constructor; apply CacheStruct_new_wf.
  - refine (value_rounds_ok 2 2 _ _ _ _); [lia|cbn; lia|vm_compute; reflexivity].
Defined.

(** C25: The optimisation is exact.  For [Sum], [Pdm], [Ndm], [NewTrueRange],
    [Vmu], [Vmd], [Pdi], [Ndi], [Viu], [Vid] and [Dx] (the [Exact] instances), an
    element configured as naive and one configured as optimised, fed the same
    rounds, emit the same packets byte for byte and fault alike. *)
Theorem naive_optimised_equal {E} `{Exact E} (e : E) pad cap (r0 : pround) (rs : list pround)
  (He : elem_ok e) (Hpad : length pad = 7%nat) (Hcap : (2 <= cap)%nat) (Hn : (0 < nports)%nat)
  (Hk : known (pr_type r0)) (Hr0 : pround_ok nports r0)
  (Hts : 0 < pr_tstamp r0) (Hrs : prounds_ok nports (pr_tstamp r0) rs) :
  let start op_mode :=
    (configure (Z.of_nat nports) (Some (Z.of_nat cap, op_mode)) (IndicatorBase_new e)).1 in
  let packets := pr_pkts r0 ++ concat (map pr_pkts rs) in
  res_rel (fun i j => i.2 = j.2)
    (push_all pad (start 1) packets) (push_all pad (start 2) packets).
Proof.
  intros start packets. eapply runs_agree.
  - apply (full_run pad cap (start 1) NAIVE (params e)); auto. by apply (idle_configured e cap 1).
  - rewrite (spec_run_exact _ _ NAIVE STARTUP).
    apply (full_run pad cap (start 2) STARTUP (params e)); auto. by apply (idle_configured e cap 2).
Qed.

Definition demo_sum (op_mode : Z) : IndicatorBase Sum.Sum :=
  (configure (Z.of_nat 1) (Some (Z.of_nat 2, op_mode)) (IndicatorBase_new Sum.Sum_new)).1.
Definition demo_sum_packets : list (nat * Packet) :=
  pr_pkts (value_round MSG_INIT 1 [fromInt 1]) ++
  concat (map pr_pkts (value_rounds 2 [(MSG_ADD, [fromInt 5]); (MSG_UPDATE, [fromInt 7]); (MSG_ADD, [fromInt 11])])).

Lemma naive_optimised_equal_witness :
  res_rel (fun i j => i.2 = j.2)
    (push_all (replicate 7 0) (demo_sum 1) demo_sum_packets)
    (push_all (replicate 7 0) (demo_sum 2) demo_sum_packets).
Proof.
  destruct (init_round_ok 1 [fromInt 1]) as (Hk & Hr & Ht); [vm_compute; reflexivity|].
  refine (naive_optimised_equal Sum.Sum_new (replicate 7 0) 2 (value_round MSG_INIT 1 [fromInt 1])
           (value_rounds 2 [(MSG_ADD, [fromInt 5]); (MSG_UPDATE, [fromInt 7]); (MSG_ADD, [fromInt 11])])
           _ eq_refl _ _ Hk Hr Ht _).
  - split; [reflexivity|]. repeat constructor; apply CacheStruct_new_wf.
  - lia.
  - cbn. lia.
  - refine (value_rounds_ok 1 2 _ _ _ _); [lia|cbn; lia|vm_compute; reflexivity].
Defined.

(** ** [EwmaIncremental]: the two modes *)

Definition adds (rs : list pround) : nat := length (filter (fun r => pr_type r = MSG_ADD) rs).

(** As long as no value has left the window. *)
Lemma spec_run_ewma alpha cap m m' Hs rs :
  (length Hs + adds rs + 1 <= cap)%nat ->
  spec_run (E:=EwmaIncremental.EwmaIncremental) alpha cap (m, Hs) rs =
  spec_run (E:=EwmaIncremental.EwmaIncremental) alpha cap (m', Hs) rs.
Proof.
  revert m m' Hs. induction rs as [|r rs IH]; intros m m' Hs Hl; [done|].
  assert (Hout : forall k, spec_out (E:=EwmaIncremental.EwmaIncremental) alpha cap k Hs (pr_values r) =
                           Ok (ewma alpha (column 0 (pr_values r :: Hs)))).
  { intros k. assert (take cap (column 0 (pr_values r :: Hs)) = column 0 (pr_values r :: Hs)) as Ht.
    { apply firstn_all2. unfold column. rewrite length_map. simpl. lia. }
    destruct k; cbn [spec_out out_naive out_opt EwmaIncremental_laws]; by rewrite ?Ht. }
  cbn [spec_run]. unfold spec_step. rewrite !Hout. res_simpl. unfold adds in Hl. rewrite filter_cons in Hl.
  destruct (decide (pr_type r = MSG_ADD)); res_simpl; cbn [fst snd];
    (erewrite IH; [done|unfold adds; cbn [length] in *; lia]).
Qed.

(** The optimised EWMA equals the naive one while the rounds committed fit
    the window ([BUF_SIZE]); the naive mode folds over the window only, so
    beyond that it forgets what the optimised mode still remembers. *)
Theorem ewma_naive_optimised alpha pad cap (r0 : pround) (rs : list pround)
  (Hpad : length pad = 7%nat) (Hcap : (2 <= cap)%nat)
  (Hk : known (pr_type r0)) (Hr0 : pround_ok 1 r0) (Hts : 0 < pr_tstamp r0)
  (Hrs : prounds_ok 1 (pr_tstamp r0) rs) (Hroom : (adds rs + 2 <= cap)%nat) :
  let e := EwmaIncremental.mkEwma [CacheStruct_new; CacheStruct_new] alpha in
  let start op_mode := (configure 1 (Some (Z.of_nat cap, op_mode)) (IndicatorBase_new e)).1 in
  let packets := pr_pkts r0 ++ concat (map pr_pkts rs) in
  res_rel (fun i j => i.2 = j.2)
    (push_all pad (start 1) packets) (push_all pad (start 2) packets).
Proof.
  intros e start packets. assert (He : elem_ok e).
  { split; [done|]. repeat constructor; simpl; lia. }
  assert (Hn : (0 < nports (E:=EwmaIncremental.EwmaIncremental))%nat) by (simpl; lia).
  eapply runs_agree.
  - apply (full_run pad cap (start 1) NAIVE (params e)); auto.
    exact (idle_configured e cap 1 He Hn).
  - rewrite (spec_run_ewma _ _ NAIVE STARTUP) by (simpl; lia).
    apply (full_run pad cap (start 2) STARTUP (params e)); auto.
    exact (idle_configured e cap 2 He Hn).
Qed.

Definition demo_ewma_rounds : list pround :=
  value_rounds 2 [(MSG_ADD, [fromInt 5]); (MSG_UPDATE, [fromInt 7]); (MSG_ADD, [fromInt 11])].

Lemma ewma_naive_optimised_witness :
  let e := EwmaIncremental.mkEwma [CacheStruct_new; CacheStruct_new] (fromC (2 ^ 39)) in
  let start op_mode := (configure 1 (Some (Z.of_nat 4, op_mode)) (IndicatorBase_new e)).1 in
  let packets := pr_pkts (value_round MSG_INIT 1 [fromInt 1]) ++ concat (map pr_pkts demo_ewma_rounds) in
  res_rel (fun i j => i.2 = j.2)
    (push_all (replicate 7 0) (start 1) packets) (push_all (replicate 7 0) (start 2) packets).
Proof.
  destruct (init_round_ok 1 [fromInt 1]) as (Hk & Hr & Ht); [vm_compute; reflexivity|].
  refine (ewma_naive_optimised (fromC (2 ^ 39)) (replicate 7 0) 4 (value_round MSG_INIT 1 [fromInt 1])
            demo_ewma_rounds eq_refl _ Hk Hr Ht _ _).
  - lia.
  - refine (value_rounds_ok 1 2 _ _ _ _); [lia|cbn; lia|vm_compute; reflexivity].
  - vm_compute. lia.
Defined.

(** ** What the formulas compute *)

(** A fixed-point number between [lo] and [hi]. *)
Definition between (lo hi : Z) (f : FixedPt) : Prop := lo <= getC f <= hi.

Lemma int_sub_1 alpha : 0 <= getC alpha <= 2 ^ 40 -> getC (int_sub 1 alpha) = 2 ^ 40 - getC alpha.
Proof.
  intros Ha. unfold int_sub, sub, getC. rewrite fromInt_val by zrange. cbn [_value fromC].
  unfold fixedptc.fixedpt_sub. rewrite i64_id; [lia|]. unfold getC in Ha. zrange.
Qed.

(** One step of the average loses at most one unit in the last place. *)
Lemma ewma_step_bounds alpha x y lo hi e :
  0 <= getC alpha <= 2 ^ 40 -> - 2 ^ 62 <= lo - e - 1 -> hi <= 2 ^ 62 -> 0 <= e ->
  between lo hi x -> between (lo - e) hi y ->
  between (lo - (e + 1)) hi (add (mul (int_sub 1 alpha) x) (mul alpha y)).
Proof.
  intros Ha Hlo Hhi He Hx Hy. unfold between in *. unfold add, mul. cbn [getC fromC _value].
  change (_value (int_sub 1 alpha)) with (getC (int_sub 1 alpha)). rewrite int_sub_1 by done.
  unfold getC in *. set (a := _value alpha) in *. set (u := _value x) in *. set (v := _value y) in *.
  unfold fixedptc.fixedpt_mul, fixedptc.fixedpt_add. rewrite !shr_FBITS.
  set (A := (2 ^ 40 - a) * u). set (B := a * v).
  assert (HA : (2 ^ 40 - a) * lo <= A <= (2 ^ 40 - a) * hi) by (subst A; nia).
  assert (HB : a * (lo - e) <= B <= a * hi) by (subst B; nia).
  assert (Hsum : 2 ^ 40 * (lo - e) <= A + B <= 2 ^ 40 * hi) by nia.
  assert (- 2 ^ 102 <= A <= 2 ^ 102 /\ - 2 ^ 102 <= B <= 2 ^ 102) as [HA' HB'].
  { assert (2 ^ 102 = 2 ^ 40 * 2 ^ 62) as -> by reflexivity. split; nia. }
  clearbody A B. clear HA HB. unfold i64. autorewrite with wrap.
  assert (2 ^ 102 = 2 ^ 40 * 2 ^ 62) by reflexivity.
  pose proof (Z_div_mod_eq_full A (2 ^ 40)). pose proof (Z.mod_pos_bound A (2 ^ 40) ltac:(lia)).
  pose proof (Z_div_mod_eq_full B (2 ^ 40)). pose proof (Z.mod_pos_bound B (2 ^ 40) ltac:(lia)).
  change (swrap 64) with i64. rewrite i64_id; [lia|]. zrange.
Qed.

Lemma ewma_list_bounds alpha lo hi x l
  (Ha : 0 <= getC alpha <= 2 ^ 40)
  (Hlo : - 2 ^ 62 <= lo - Z.of_nat (length l)) (Hhi : hi <= 2 ^ 62)
  (Hl : Forall (between lo hi) (x :: l)) :
  between (lo - Z.of_nat (length l)) hi (ewma alpha (x :: l)).
Proof.
  revert x Hlo Hl. induction l as [|y l IH]; intros x Hlo [Hx Hl]%Forall_cons.
  - simpl. unfold between in *. lia.
  - rewrite ewma_cons by done. cbn [length] in *. rewrite Nat2Z.inj_succ in *.
    apply (ewma_step_bounds alpha x _ lo hi (Z.of_nat (length l))); try lia; [done|].
    apply IH; [lia|done].
Qed.

(** The recursive average of a ring whose values lie in [lo, hi] returns a
    value of [lo, hi], up to one unit in the last place per value for the
    rounding (always downward), for every weight between 0 and 1; no
    intermediate result overflows. *)
Theorem ewma_bounds alpha lo hi buf cap x l
  (Hb : repr buf cap (x :: l)) (Ha : 0 <= getC alpha <= 2 ^ 40)
  (Hlo : - 2 ^ 62 <= lo - Z.of_nat (length l)) (Hhi : hi <= 2 ^ 62)
  (Hl : Forall (between lo hi) (x :: l)) :
  exists v, EwmaIncremental.calculate_ewma_recursive (occupancy buf) buf alpha = Ok v /\
    between (lo - Z.of_nat (length l)) hi v.
Proof.
  exists (ewma alpha (x :: l)). split; [|by apply ewma_list_bounds].
  apply (calculate_ewma_recursive_spec _ _ cap); [done|done|].
  destruct (repr_length _ _ _ Hb) as [Hn _]. unfold occupancy. by rewrite <- Hn.
Qed.

(** A ring of capacity 4 that wraps around, holding 10, 14 and 11. *)
Definition demo_ring : CircArray FixedPt := mkCA [fromInt 11; fromInt 9; fromInt 10; fromInt 14] 2 3 4.

Lemma demo_ring_repr : repr demo_ring 4 [fromInt 10; fromInt 14; fromInt 11].
Proof. split; [|done]. split; simpl; lia. Qed.

Lemma ewma_bounds_witness :
  exists v, EwmaIncremental.calculate_ewma_recursive (occupancy demo_ring) demo_ring (fromC (2 ^ 40 / 7)) = Ok v /\
    between (10 * 2 ^ 40 - 2) (14 * 2 ^ 40) v.
Proof.
  apply (ewma_bounds (fromC (2 ^ 40 / 7)) (10 * 2 ^ 40) (14 * 2 ^ 40) demo_ring 4 (fromInt 10) [fromInt 14; fromInt 11]).
  - exact demo_ring_repr.
  - vm_compute. split; discriminate.
  - vm_compute. discriminate.
  - vm_compute. discriminate.
  - repeat constructor; vm_compute; discriminate.
Defined.

(** Prices are far inside the machine range. *)
Definition price_range (f : FixedPt) : Prop := - 2 ^ 60 <= getC f <= 2 ^ 60.
#[global] Instance price_range_dec f : Decision (price_range f).
Proof. unfold price_range. apply _. Defined.

Lemma sub_val a b : price_range a -> price_range b -> getC (sub a b) = getC a - getC b.
Proof.
  unfold price_range, sub, fixedptc.fixedpt_sub, getC. intros. cbn [_value fromC].
  apply i64_id. zrange.
Qed.

Lemma fromInt_0 : getC (fromInt 0) = 0.
Proof. reflexivity. Qed.

(** The directional movements are what the indicator's definition says.
    With [up] the rise of the high and [down] the fall of the low, the positive
    movement is [up] if it is nonnegative and not below [down], else zero; the
    negative movement is symmetric; neither is negative, and both are positive
    only when [up] and [down] are equal. *)
Theorem directional_movement nl pl nh ph
  (Hnl : price_range nl) (Hpl : price_range pl) (Hnh : price_range nh) (Hph : price_range ph) :
  let up := getC nh - getC ph in
  let down := getC pl - getC nl in
  let pdm := getC (Pdm.calculate_pdm nl pl nh ph) in
  let ndm := getC (Ndm.calculate_ndm nl pl nh ph) in
  pdm = (if (down <=? up) && (0 <=? up) then up else 0) /\
  ndm = (if (up <=? down) && (0 <=? down) then down else 0) /\
  0 <= pdm /\ 0 <= ndm /\ (0 < pdm -> 0 < ndm -> up = down).
Proof.
  intros up down pdm ndm.
  assert (Ep : pdm = (if (down <=? up) && (0 <=? up) then up else 0)).
  { subst pdm. unfold Pdm.calculate_pdm, lt. rewrite !sub_val, fromInt_0 by done. fold up down.
    destruct (Z.ltb_spec up down), (Z.leb_spec down up), (Z.ltb_spec up 0), (Z.leb_spec 0 up);
      try lia; cbn [andb]; rewrite ?fromInt_0, ?sub_val by done; done. }
  assert (En : ndm = (if (up <=? down) && (0 <=? down) then down else 0)).
  { subst ndm. unfold Ndm.calculate_ndm, lt. rewrite !sub_val, fromInt_0 by done. fold up down.
    destruct (Z.ltb_spec down up), (Z.leb_spec up down), (Z.ltb_spec down 0), (Z.leb_spec 0 down);
      try lia; cbn [andb]; rewrite ?fromInt_0, ?sub_val by done; done. }
  rewrite Ep, En. split; [done|]. split; [done|].
  destruct (Z.leb_spec down up), (Z.leb_spec 0 up), (Z.leb_spec up down), (Z.leb_spec 0 down);
    simpl; lia.
Qed.

Lemma directional_movement_witness :
  getC (Pdm.calculate_pdm (fromInt 9) (fromInt 10) (fromInt 15) (fromInt 12)) = 3 * 2 ^ 40 /\
  getC (Ndm.calculate_ndm (fromInt 9) (fromInt 10) (fromInt 15) (fromInt 12)) = 0.
Proof.
  assert (Hp : forall n, bool_decide (price_range (fromInt n)) = true -> price_range (fromInt n))
    by (intros n Hn; by apply bool_decide_eq_true in Hn).
  destruct (directional_movement (fromInt 9) (fromInt 10) (fromInt 15) (fromInt 12))
    as (-> & -> & _); try (apply Hp; vm_compute; reflexivity).
  vm_compute. split; reflexivity.
Defined.

(** The true range is the extent of today's prices extended to yesterday's
    close: for [low <= high] it is [max high close - min low close], hence
    nonnegative and at least the plain range. *)
Theorem true_range_spec low high close
  (Hl : price_range low) (Hh : price_range high) (Hc : price_range close)
  (Hlh : getC low <= getC high) :
  getC (NewTrueRange.calculate_tr low high close) =
    Z.max (getC high) (getC close) - Z.min (getC low) (getC close).
Proof.
  unfold NewTrueRange.calculate_tr, NewTrueRange.fpt_max, gt. rewrite !sub_val by done.
  destruct (Z.ltb_spec (getC high - getC close) (getC high - getC low));
    rewrite sub_val by done;
    match goal with |- context [?x <? ?y] => destruct (Z.ltb_spec x y) end;
    rewrite sub_val by done; lia.
Qed.

Lemma true_range_spec_witness :
  getC (NewTrueRange.calculate_tr (fromInt 9) (fromInt 12) (fromInt 14)) = 5 * 2 ^ 40.
Proof.
  rewrite (true_range_spec (fromInt 9) (fromInt 12) (fromInt 14));
    [vm_compute; reflexivity|vm_compute; split; discriminate..|vm_compute; discriminate].
Defined.

Lemma fpt_abs_val f : price_range f -> getC (fpt_abs f) = Z.abs (getC f).
Proof.
  unfold price_range, fpt_abs. intros Hf. destruct (Z.ltb_spec (getC f) 0); [|lia].
  cbn [getC fromC _value] in *. rewrite i64_id by zrange. lia.
Qed.

Lemma int_mul_val n f : in_s 24 n -> in_s 64 (n * getC f) -> getC (int_mul n f) = n * getC f.
Proof.
  intros Hn Hf. unfold int_mul, mul, fromInt, fromC, getC in *. cbn [_value].
  by rewrite mul_fromint, i64_id.
Qed.

(** The directional index is a percentage: for nonnegative [pdi] and [ndi]
    (below 2^14) it lies between 0 and 100, whatever the rounding, and the element
    returns it without a division by zero. *)
Theorem dx_percentage (e : Dx.Dx) pdi ndi c
  (He : elem_ok e) (Hp : 0 <= getC pdi < 2 ^ 54) (Hn : 0 <= getC ndi < 2 ^ 54) :
  exists e' v, Dx.process_opt_ext e [pdi; ndi] c = Ok e' /\ head_value (local_cache e') v /\
               0 <= getC v <= 100 * 2 ^ 40.
Proof.
  destruct e as [lc]. simpl in He. unfold Dx.process_opt_ext, increment.
  cbn [lookup list_lookup of_option mbind res_bind]. rewrite ratio_div. split_cache He.
  eexists. exists (dx_value pdi ndi). split; [reflexivity|]. split; [eexists; split; reflexivity|].
  unfold dx_value, ratio. assert (Hadd : getC (add pdi ndi) = getC pdi + getC ndi).
  { unfold add, fixedptc.fixedpt_add, getC in *. cbn [_value fromC]. apply i64_id. zrange. }
  rewrite Hadd. destruct (Z.eqb_spec (getC pdi + getC ndi) 0) as [|Hs]; [rewrite fromInt_0; lia|].
  assert (Habs : getC (fpt_abs (sub pdi ndi)) = Z.abs (getC pdi - getC ndi)).
  { assert (price_range pdi /\ price_range ndi) as [? ?] by (unfold price_range; lia).
    rewrite fpt_abs_val; unfold price_range; rewrite sub_val by done; lia. }
  rewrite int_mul_val, Habs by (try zrange; rewrite Habs; zrange).
  set (d := Z.abs (getC pdi - getC ndi)). set (s := getC pdi + getC ndi) in *.
  assert (0 <= d <= s) by lia. cbn [getC fromC _value].
  assert (Hq : 0 <= Z.quot (100 * d * 2 ^ 40) s <= 100 * 2 ^ 40).
  { rewrite Z.quot_div_nonneg by lia. split; [apply Z.div_pos; lia|].
    apply Z.div_le_upper_bound; [lia|]. nia. }
  rewrite i64_id by zrange. done.
Qed.

Lemma dx_percentage_witness :
  exists e' v, Dx.process_opt_ext Dx.Dx_new [fromInt 3; fromInt 1] [] = Ok e' /\
    head_value (local_cache e') v /\ 0 <= getC v <= 100 * 2 ^ 40.
Proof.
  apply (dx_percentage Dx.Dx_new (fromInt 3) (fromInt 1) []).
  - split; [reflexivity|]. repeat constructor; apply CacheStruct_new_wf.
  - vm_compute. split; [discriminate|reflexivity].
  - vm_compute. split; [discriminate|reflexivity].
Defined.

Lemma quot_100 D p : p <> 0 -> Z.abs (Z.quot (100 * D) p - 100 * Z.quot D p) <= 99.
Proof.
  intros Hp. pose proof (Z.quot_rem' D p) as E. pose proof (Z.rem_bound_abs D p Hp) as B.
  pose proof (Z.rem_sign_mul D p Hp) as S.
  assert (Z.quot (100 * D) p = 100 * Z.quot D p + Z.quot (100 * Z.rem D p) p) as ->.
  { rewrite <- Z.quot_add_l; [|done|].
    - f_equal. lia.
    - replace (100 * Z.quot D p * p + 100 * Z.rem D p) with (100 * D) by lia. nia. }
  assert (Z.abs (Z.quot (100 * Z.rem D p) p) < 100); [|lia].
  rewrite <- Z.quot_abs by done. rewrite Z.quot_div_nonneg by lia.
  apply Z.div_lt_upper_bound; lia.
Qed.

Lemma trix_orders last pen
  (Hl : - 2 ^ 55 <= getC last <= 2 ^ 55) (Hp : - 2 ^ 55 <= getC pen <= 2 ^ 55) (Hp0 : getC pen <> 0)
  (Hq : Z.abs (getC last - getC pen) <= 2 ^ 14 * Z.abs (getC pen)) :
  exists a b, trix_naive last pen = Ok a /\ trix_opt last pen = Ok b /\
              Z.abs (getC a - getC b) <= 99.
Proof.
  set (D := getC last - getC pen) in *. set (p := getC pen) in *.
  assert (Hs : getC (sub last pen) = D) by (apply sub_val; unfold price_range; fold p; lia).
  assert (Habs : forall k, 0 < k -> Z.abs (Z.quot (k * (D * 2 ^ 40)) p) <= k * 2 ^ 54).
  { intros k Hk. rewrite <- Z.quot_abs by done. rewrite Z.quot_div_nonneg by lia.
    apply Z.div_le_upper_bound; [lia|]. rewrite !Z.abs_mul. rewrite (Z.abs_eq k), (Z.abs_eq (2 ^ 40)) by lia. nia. }
  unfold trix_naive, trix_opt, div. change (_value (sub last pen)) with (getC (sub last pen)).
  change (_value (int_mul 100 (sub last pen))) with (getC (int_mul 100 (sub last pen))).
  change (_value pen) with p. rewrite int_mul_val, Hs by (try zrange; rewrite Hs; zrange).
  rewrite !div_nonzero by done. eexists _, _. split; [reflexivity|]. split; [reflexivity|].
  pose proof (Habs 1 ltac:(lia)) as H1. rewrite Z.mul_1_l in H1.
  pose proof (Habs 100 ltac:(lia)) as H100. pose proof (quot_100 (D * 2 ^ 40) p Hp0) as Hd.
  rewrite Z.mul_assoc in H100, Hd.
  rewrite int_mul_val; cbn [getC fromC _value]; rewrite ?i64_id; try zrange.
Qed.

(** [Trix] rounds at different places in its two modes: the naive method
    multiplies by 100 before the division, the incremental one after it.  On a
    ring and a cache that hold the same two values both return, and for a change
    that does not overflow the results differ by at most 99 units in the last
    place (99 * 2^-40 percentage points). *)
Theorem trix_rounding (e : Trix.Trix) b rb cap last pen l c s
  (Hb : at_port b 0 = Ok rb) (Hr : repr rb cap (last :: pen :: l)) (He : elem_ok e)
  (Hc : cache_at c 1 = Ok s) (Hs : cs_value s = pen)
  (Hl : - 2 ^ 55 <= getC last <= 2 ^ 55) (Hp : - 2 ^ 55 <= getC pen <= 2 ^ 55) (Hp0 : getC pen <> 0)
  (Hq : Z.abs (getC last - getC pen) <= 2 ^ 14 * Z.abs (getC pen)) :
  exists a e' v, Trix.process_naive e b = Ok a /\ Trix.process_opt_ext e [last] c = Ok e' /\
    head_value (local_cache e') v /\ Z.abs (getC a - getC v) <= 99.
Proof.
  destruct (trix_orders last pen Hl Hp Hp0 Hq) as (a & v & Ea & Ev & Hd).
  rewrite (process_naive_ring e b rb cap last pen l Hb Hr). exists a.
  unfold Trix.process_opt_ext. rewrite Hc. res_simpl. rewrite Hs. cbn [increment lookup list_lookup of_option].
  unfold trix_opt in Ev. unfold increment. cbn [lookup list_lookup of_option]. res_simpl.
  destruct (div (sub last pen) pen) as [q|]; [|done]. injection Ev as <-. res_simpl.
  destruct e as [lc]. simpl in He. split_cache He. eexists _, _. split; [done|]. split; [reflexivity|].
  split; [|exact Hd]. eexists. by split.
Qed.

Definition demo_trix_buffers : Buffers := with_buffers (Buffers_new 1 4) [demo_ring].

Lemma trix_rounding_witness :
  let c := [CacheStruct_new; mkCache None (fromInt 14) (CircArray_new 2)] in
  exists a e' v, Trix.process_naive Trix.Trix_new demo_trix_buffers = Ok a /\
    Trix.process_opt_ext Trix.Trix_new [fromInt 10] c = Ok e' /\
    head_value (local_cache e') v /\ Z.abs (getC a - getC v) <= 99.
Proof.
  refine (trix_rounding Trix.Trix_new demo_trix_buffers demo_ring 4 (fromInt 10) (fromInt 14) [fromInt 11] _
    (mkCache None (fromInt 14) (CircArray_new 2)) _ demo_ring_repr _ _ _ _ _ _ _);
    try reflexivity; try (vm_compute; (split; discriminate) || discriminate).
  split; [reflexivity|]. repeat constructor; simpl; lia.
Defined.
