(* ===== verification/FirstGen.v ===== *)
(** * FirstGen: the first generation of indicator elements

    Models the elements that compute the directional movement index from trades
    directly, before the [IndicatorBase] family: ewma_calculator.{hh,cc},
    true_range.{hh,cc}, directional_movement.{hh,cc}, directional_index.{hh,cc}
    and dx_indicator.{hh,cc}, with [SavedPacket], [PacketPort] and
    [get_or_create] of synapseelement.hh.

    Every element keeps its state per symbol in a hash table or pairs the packets of
    two inputs; an interval is the time since the start of the router divided by
    [INTERVAL_LEN], so that the start time is an argument [start].  [push] returns
    the new state and the packets pushed, with their output ports.

    A packet is not shared with another element, so that it is written in place.
    The time stamp that TrueRange passes on by reference lies behind the bytes
    written before it is read, and the other elements pass the one at its own place
    or a copy, so that the writing does not change it. *)

From stdpp Require Import gmap.
From S2P Require Import Prelude FixedPt Messages Hashing.
Import fixedptc.
Import HashMap (HashMap, HashMap_new, PairPtr, find_pair, pair_value, set_pair_value).

Definition sizeof_MsgTrade : nat := 42.

(** [reinterpret_cast<const MsgTrade*>(p->data ())] *)
Definition decode_MsgTrade (data : bytes) : res MsgTrade :=
  let* price := read_i64 0 data in
  let* size := read_i64 8 data in
  let* symbol := read_at 16 ORDER_SYMBOL_LEN data in
  let* ts := read_u64 26 data in
  let* src_ts := read_u64 34 data in
  Ok (mkMsgTrade price size symbol ts src_ts).

Notation SymbolMap V := (HashMap ArrayWrapper.ArrayWrapper V).

(** [SynapseElement::get_or_create]: the table, a pointer to the entry of the symbol,
    null when it could not be created, and whether it was. *)
Definition get_or_create {V} (default_value : V) (symbol : bytes) (m : SymbolMap V)
  : res (SymbolMap V * option PairPtr * bool) :=
  let key := ArrayWrapper.mkArrayWrapper symbol in
  let* q := find_pair key m in
  match q with
  | Some p => Ok (m, Some p, false)
  | None =>
      let* r := HashMap.insert key default_value m in
      let '(m, inserted) := r in
      if negb inserted then Ok (m, None, false)
      else let* q := find_pair key m in Ok (m, q, true)
  end.

(** [int64_t (timestamp - start) / int64_t (interval_len)], a division that traps
    for zero and for the one quotient that does not fit. *)
Definition interval_of (start interval_len timestamp : Z) : res Z :=
  let d := i64 (timestamp - start) in
  if (interval_len =? 0) || ((d =? - 2 ^ 63) && (interval_len =? -1)) then Fault DivByZero
  else Ok (Z.quot d interval_len).

(** The end of every [push]: the packet is overwritten with a [MsgIndicator] and
    sent to [port], or discarded when it is too small. *)
Definition publish (port : Z) (p : Packet) (symbol : bytes) (indicator timestamp : Z) : res (list (Z * Packet)) :=
  let* r := populate_msg_indicator p symbol indicator timestamp in
  Ok (match r with Some p => [(port, p)] | None => [] end).

(** ** EwmaElement *)
Module EwmaElement.

Record EwmaCalculator := mkCalculator {
  _prev_ewma_value : Z;
  _current_ewma_value : Z;
  _prev_interval_num : Z;
  _current_interval_num : Z
}.
Definition EwmaCalculator_new : EwmaCalculator := mkCalculator 0 0 0 0.

Record EwmaElement := mkEwmaElement {
  _ewma_map : SymbolMap EwmaCalculator;
  _ewma_alpha_value : Z;
  _interval_len : Z;
  _active : bool
}.
Definition EwmaElement_new : EwmaElement := mkEwmaElement (HashMap_new EwmaCalculator_new) 0 0 true.

(** [args] is what the parser read: [ACTIVE], [EWMA_ALPHA] and [INTERVAL_LEN];
    [None] when it reported an error, which assigns nothing. *)
Definition configure (args : option (option bool * Z * Z)) (e : EwmaElement) : res (EwmaElement * Z) :=
  match args with
  | Some (active, alpha, interval_len) =>
      let* a := fixedpt_div (i64 (fixedpt_fromint 1)) (i64 (fixedpt_fromint alpha)) in
      Ok (mkEwmaElement (_ewma_map e) a interval_len (default (_active e) active), 0)
  | None => Ok (e, 0)
  end.

(** The recurrence, or the first value while there is no previous one. *)
Definition next_ewma (alpha indicator prev : Z) : Z :=
  if prev =? 0 then indicator
  else
    let part_one := fixedpt_mul (fixedpt_sub (fixedpt_fromint 1) alpha) indicator in
    let part_two := fixedpt_mul alpha prev in
    fixedpt_add part_one part_two.

Definition update (alpha interval_num indicator : Z) (c : EwmaCalculator) : EwmaCalculator :=
  if interval_num =? _current_interval_num c then
    mkCalculator (_prev_ewma_value c) (next_ewma alpha indicator (_prev_ewma_value c))
      (_prev_interval_num c) (_current_interval_num c)
  else
    let prev := _current_ewma_value c in
    mkCalculator prev (next_ewma alpha indicator prev) (_current_interval_num c) interval_num.

Definition push (start : Z) (port : Z) (p : Packet) (e : EwmaElement) : res (EwmaElement * list (Z * Packet)) :=
  if negb (_active e) then Ok (e, [(port, p)])
  else if negb (bool_decide (pk_app_type p = MSG_INDICATOR)) then Ok (e, [(0, p)])
  else
    assert* (sizeof_MsgIndicator <=? length_of p)%nat;
    let* msg := decode_MsgIndicator (pk_data p) in
    let* r := get_or_create EwmaCalculator_new (mi_symbol msg) (_ewma_map e) in
    let '(m, ewma_calculator, _) := r in
    let* interval_num := interval_of start (_interval_len e) (mi_timestamp msg) in
    let* ewma_calculator := of_option NullDeref ewma_calculator in
    let* c := pair_value ewma_calculator m in
    let c := update (_ewma_alpha_value e) interval_num (mi_indicator msg) c in
    let* m := set_pair_value ewma_calculator c m in
    let* out := publish 0 p (mi_symbol msg) (_current_ewma_value c) (mi_timestamp msg) in
    Ok (mkEwmaElement m (_ewma_alpha_value e) (_interval_len e) (_active e), out).

End EwmaElement.

(** ** TrueRange *)
Module TrueRange.

Record HighLowClose := mkHighLowClose {
  _current_high : Z;
  _current_low : Z;
  _prev_close : Z;
  _current_close : Z;
  _current_interval_num : Z;
  _prev_interval_num : Z
}.
Definition HighLowClose_new : HighLowClose := mkHighLowClose 0 0 0 0 (-1) (-1).

Record TrueRange := mkTrueRange {
  _high_low_close_map : SymbolMap HighLowClose;
  _interval_len : Z;
  _active : bool
}.
Definition TrueRange_new : TrueRange := mkTrueRange (HashMap_new HighLowClose_new) 0 true.

(** [INTERVAL_LEN], or [None] when it is left out or the parser reports an error. *)
Definition configure (interval_len : option Z) (e : TrueRange) : TrueRange * Z :=
  match interval_len with
  | Some interval_len => (mkTrueRange (_high_low_close_map e) interval_len (_active e), 0)
  | None => (e, 0)
  end.

Definition calculate_true_range (high low previous_close : Z) : Z :=
  let high_low := fixedpt_sub high low in
  let high_close := fixedpt_sub high previous_close in
  let close_low := fixedpt_sub previous_close low in
  let max1 := if high_close <? high_low then high_low else high_close in
  if close_low <? max1 then max1 else close_low.

Definition update (interval_num price : Z) (h : HighLowClose) : HighLowClose :=
  if _current_interval_num h =? interval_num then
    mkHighLowClose (if _current_high h <? price then price else _current_high h)
      (if price <? _current_low h then price else _current_low h)
      (_prev_close h) price (_current_interval_num h) (_prev_interval_num h)
  else mkHighLowClose price price (_current_close h) price interval_num (_current_interval_num h).

Definition push (start : Z) (port : Z) (p : Packet) (e : TrueRange) : res (TrueRange * list (Z * Packet)) :=
  if negb (_active e) then Ok (e, [(0, p)])
  else if negb (bool_decide (pk_app_type p = MSG_TRADE)) then Ok (e, [(0, p)])
  else
    assert* (sizeof_MsgTrade <=? length_of p)%nat;
    let* msg := decode_MsgTrade (pk_data p) in
    let* r := get_or_create HighLowClose_new (mt_symbol msg) (_high_low_close_map e) in
    let '(m, high_low_close, _) := r in
    let* interval_num := interval_of start (_interval_len e) (mt_timestamp msg) in
    let* high_low_close := of_option NullDeref high_low_close in
    let* h := pair_value high_low_close m in
    let h := update interval_num (mt_price msg) h in
    let* m := set_pair_value high_low_close h m in
    let e := mkTrueRange m (_interval_len e) (_active e) in
    if _prev_close h =? 0 then Ok (e, [])
    else
      let true_range := calculate_true_range (_current_high h) (_current_low h) (_prev_close h) in
      let* out := publish 0 p (mt_symbol msg) true_range (mt_timestamp msg) in
      Ok (e, out).

End TrueRange.

(** ** DirectionalMovement *)
Module DirectionalMovement.

Record HighLow := mkHighLow {
  _prev_low : Z;
  _current_low : Z;
  _prev_high : Z;
  _current_high : Z;
  _current_interval_num : Z;
  _prev_interval_num : Z
}.
Definition HighLow_new : HighLow := mkHighLow 0 0 0 0 (-1) (-1).

Record DirectionalMovement := mkDirectionalMovement {
  _high_low_map : SymbolMap HighLow;
  _interval_len : Z;
  _active : bool
}.
Definition DirectionalMovement_new : DirectionalMovement := mkDirectionalMovement (HashMap_new HighLow_new) 0 true.

(** [INTERVAL_LEN], or [None] when it is left out or the parser reports an error. *)
Definition configure (interval_len : option Z) (e : DirectionalMovement) : DirectionalMovement * Z :=
  match interval_len with
  | Some interval_len => (mkDirectionalMovement (_high_low_map e) interval_len (_active e), 0)
  | None => (e, 0)
  end.

(** [(plus_dm, minus_dm)] *)
Definition calculate_dm (previous_high previous_low current_high current_low : Z) : Z * Z :=
  let up_move := fixedpt_sub current_high previous_high in
  let down_move := fixedpt_sub previous_low current_low in
  (if (down_move <? up_move) && (0 <? up_move) then up_move else 0,
   if (up_move <? down_move) && (0 <? down_move) then down_move else 0).

Definition update (interval_num price : Z) (h : HighLow) : HighLow :=
  if _current_interval_num h =? interval_num then
    mkHighLow (_prev_low h) (if price <? _current_low h then price else _current_low h)
      (_prev_high h) (if _current_high h <? price then price else _current_high h)
      (_current_interval_num h) (_prev_interval_num h)
  else mkHighLow (_current_low h) price (_current_high h) price interval_num (_current_interval_num h).

(** The packet itself carries -DM to output 0, its copy +DM to output 1. *)
Definition push (start : Z) (port : Z) (p : Packet) (e : DirectionalMovement)
  : res (DirectionalMovement * list (Z * Packet)) :=
  if negb (_active e) then Ok (e, [(0, p)])
  else if negb (bool_decide (pk_app_type p = MSG_TRADE)) then Ok (e, [(0, p)])
  else
    assert* (sizeof_MsgTrade <=? length_of p)%nat;
    let* msg := decode_MsgTrade (pk_data p) in
    let* r := get_or_create HighLow_new (mt_symbol msg) (_high_low_map e) in
    let '(m, high_low, _) := r in
    let* interval_num := interval_of start (_interval_len e) (mt_timestamp msg) in
    if interval_num <? 0 then Ok (mkDirectionalMovement m (_interval_len e) (_active e), [])
    else
      let* high_low := of_option NullDeref high_low in
      let* h := pair_value high_low m in
      let h := update interval_num (mt_price msg) h in
      let* m := set_pair_value high_low h m in
      let e := mkDirectionalMovement m (_interval_len e) (_active e) in
      if (_prev_low h =? 0) && (_prev_high h =? 0) then Ok (e, [])
      else
        let '(plus_dm, minus_dm) := calculate_dm (_prev_high h) (_prev_low h) (_current_high h) (_current_low h) in
        let plus_dm_packet := p in
        let* minus := publish 0 p (mt_symbol msg) minus_dm (mt_timestamp msg) in
        let* plus := publish 1 plus_dm_packet (mt_symbol msg) plus_dm (mt_timestamp msg) in
        Ok (e, minus ++ plus).

End DirectionalMovement.

(** ** Elements with two inputs *)

Inductive PacketPort := NO_PORT | TR_PORT | DM_PORT | PDI_PORT | MDI_PORT.

#[global] Instance PacketPort_eq_dec : EqDecision PacketPort.
Proof. solve_decision. Defined.

Record SavedPacket := mkSaved { sp_packet : option Packet; sp_port : PacketPort }.
Definition SavedPacket_new : SavedPacket := mkSaved None NO_PORT.

(** Steps 2 and 3 of [push], the same in both elements: the packet is saved, or
    discarded, or it meets the saved one with the same time stamp. *)
Inductive Meeting :=
| Waits (saved : SavedPacket)
| Meets (saved : Packet).

Definition compare_tstamps (saved : SavedPacket) (packet_port : PacketPort) (p : Packet) : res Meeting :=
  let* q := of_option NullDeref (sp_packet saved) in
  let* msg := decode_MsgIndicator (pk_data q) in
  let saved_packet_tstamp := mi_timestamp msg in
  let* msg := decode_MsgIndicator (pk_data p) in
  let new_packet_tstamp := mi_timestamp msg in
  if new_packet_tstamp <? saved_packet_tstamp then Ok (Waits saved)
  else if saved_packet_tstamp <? new_packet_tstamp then Ok (Waits (mkSaved (Some p) packet_port))
  else Ok (Meets q).

Definition meet (saved : SavedPacket) (packet_port : PacketPort) (p : Packet) : res Meeting :=
  if decide (sp_port saved = packet_port) then
    match sp_packet saved with
    | Some _ => Ok (Waits (mkSaved (Some p) (sp_port saved)))
    | None => compare_tstamps saved packet_port p
    end
  else if decide (sp_port saved = NO_PORT) then Ok (Waits (mkSaved (Some p) packet_port))
  else compare_tstamps saved packet_port p.

Module DirectionalIndex.

Record DirectionalIndex := mkDirectionalIndex {
  _dm_port : Z;
  _tr_port : Z;
  _saved_packet : SavedPacket;
  _active : bool
}.
Definition DirectionalIndex_new : DirectionalIndex := mkDirectionalIndex (-1) (-1) SavedPacket_new true.

(** [ACTIVE], [TR_PORT] and [DM_PORT]; [None] when the parser reports an error. *)
Definition configure (args : option (option bool * Z * Z)) (e : DirectionalIndex) : DirectionalIndex * Z :=
  match args with
  | Some (active, tr_port, dm_port) =>
      (mkDirectionalIndex dm_port tr_port (_saved_packet e) (default (_active e) active), 0)
  | None => (e, 0)
  end.

Definition detect_packet_port (packet_port : Z) (e : DirectionalIndex) : PacketPort :=
  if (_tr_port e <? 0) || (_dm_port e <? 0) then NO_PORT
  else if packet_port =? _tr_port e then TR_PORT
  else if packet_port =? _dm_port e then DM_PORT
  else NO_PORT.

Definition with_saved (s : SavedPacket) (e : DirectionalIndex) : DirectionalIndex :=
  mkDirectionalIndex (_dm_port e) (_tr_port e) s (_active e).

Definition push (port : Z) (p : Packet) (e : DirectionalIndex) : res (DirectionalIndex * list (Z * Packet)) :=
  if negb (_active e) then Ok (e, [(port, p)])
  else if negb (bool_decide (pk_app_type p = MSG_INDICATOR)) then Ok (e, [(0, p)])
  else
    let packet_port := detect_packet_port port e in
    if decide (packet_port = NO_PORT) then Ok (e, [(port, p)])
    else
      let* m := meet (_saved_packet e) packet_port p in
      match m with
      | Waits s => Ok (with_saved s e, [])
      | Meets q =>
          let tr_packet := if decide (sp_port (_saved_packet e) = TR_PORT) then q else p in
          let dm_packet := if decide (sp_port (_saved_packet e) = DM_PORT) then q else p in
          let* tr_msg := decode_MsgIndicator (pk_data tr_packet) in
          let* dm_msg := decode_MsgIndicator (pk_data dm_packet) in
          let* di :=
            if negb (mi_indicator tr_msg =? 0) then fixedpt_div (mi_indicator dm_msg) (mi_indicator tr_msg)
            else Ok 0 in
          let* out := publish 0 p (mi_symbol tr_msg) di (mi_timestamp tr_msg) in
          Ok (with_saved SavedPacket_new e, out)
      end.

End DirectionalIndex.

Module DxIndicator.

Record DxIndicator := mkDxIndicator {
  _pdi_port : Z;
  _mdi_port : Z;
  _saved_packet : SavedPacket;
  _active : bool
}.
(** The ports start as [Synapse::NO_PORT], which is 0. *)
Definition DxIndicator_new : DxIndicator := mkDxIndicator 0 0 SavedPacket_new true.

(** [ACTIVE], [PDI_PORT] and [MDI_PORT]; [None] when the parser reports an error. *)
Definition configure (args : option (option bool * Z * Z)) (e : DxIndicator) : DxIndicator * Z :=
  match args with
  | Some (active, pdi_port, mdi_port) =>
      (mkDxIndicator pdi_port mdi_port (_saved_packet e) (default (_active e) active), 0)
  | None => (e, 0)
  end.

Definition detect_packet_port (packet_port : Z) (e : DxIndicator) : PacketPort :=
  if (_mdi_port e <? 0) || (_pdi_port e <? 0) then NO_PORT
  else if packet_port =? _mdi_port e then MDI_PORT
  else if packet_port =? _pdi_port e then PDI_PORT
  else NO_PORT.

Definition with_saved (s : SavedPacket) (e : DxIndicator) : DxIndicator :=
  mkDxIndicator (_pdi_port e) (_mdi_port e) s (_active e).

Definition calculate_dx (pdi mdi : Z) : res Z :=
  let part_two := fixedpt_add pdi mdi in
  if negb (part_two =? 0) then
    let part_one := fixedpt_abs (fixedpt_sub pdi mdi) in
    let* part_three := fixedpt_div part_one part_two in
    Ok (fixedpt_mul (i64 (fixedpt_fromint 100)) part_three)
  else Ok 0.

Definition push (port : Z) (p : Packet) (e : DxIndicator) : res (DxIndicator * list (Z * Packet)) :=
  if negb (_active e) then Ok (e, [(port, p)])
  else if negb (bool_decide (pk_app_type p = MSG_INDICATOR)) then Ok (e, [(0, p)])
  else
    let packet_port := detect_packet_port port e in
    if decide (packet_port = NO_PORT) then Ok (e, [(port, p)])
    else
      let* m := meet (_saved_packet e) packet_port p in
      match m with
      | Waits s => Ok (with_saved s e, [])
      | Meets q =>
          let pdi_packet := if decide (sp_port (_saved_packet e) = PDI_PORT) then q else p in
          let mdi_packet := if decide (sp_port (_saved_packet e) = MDI_PORT) then q else p in
          let* pdi_msg := decode_MsgIndicator (pk_data pdi_packet) in
          let* mdi_msg := decode_MsgIndicator (pk_data mdi_packet) in
          let* dx := calculate_dx (mi_indicator pdi_msg) (mi_indicator mdi_msg) in
          let* out := publish 0 p (mi_symbol mdi_msg) dx (mi_timestamp mdi_msg) in
          Ok (with_saved SavedPacket_new e, out)
      end.

End DxIndicator.

(** [get_or_create] finds the entry, or makes it with the default value; either way
    it can then be written.  For any law the keys are known to follow. *)
Section get_or_create.
Context {V C : Type} `{Countable C} {lawful : LawfulKey ArrayWrapper.ArrayWrapper C}.

Lemma get_or_create_spec (new : V) symbol (m : SymbolMap V) (M : gmap C V) :
  let key := ArrayWrapper.mkArrayWrapper symbol in
  represents m M -> good_key key ->
  exists m1 p, get_or_create new symbol m = Ok (m1, Some p, bool_decide (M !! key_id key = None)) /\
    pair_value p m1 = Ok (default new (M !! key_id key)) /\
    forall v, exists m2, set_pair_value p v m1 = Ok m2 /\ represents m2 (<[key_id key := v]> M).
Proof.
  intros key Hr Hs. pose proof (find_pair_spec key m M Hr Hs) as Hf. unfold get_or_create. fold key.
  destruct (M !! key_id key) as [a|] eqn:Ek.
  - destruct Hf as (p & -> & Hv & Hset). res_simpl. by exists m, p.
  - rewrite Hf. res_simpl. destruct (insert_spec key new m M Hr Hs) as (m1 & -> & Hr1 & _). res_simpl.
    rewrite bool_decide_eq_true_2 by done. cbn [negb]. pose proof (find_pair_spec key m1 _ Hr1 Hs) as Hf1.
    rewrite lookup_insert_eq in Hf1. destruct Hf1 as (p & -> & Hv & Hset). res_simpl.
    exists m1, p. split_and!; [done|done|]. intros v. destruct (Hset v) as (m2 & ? & Hr2). exists m2. by rewrite insert_insert_eq in Hr2.
Qed.
End get_or_create.
