(* ===== verification/FirstGenProps.v ===== *)
(** * FirstGenProps: the first generation against the second

    The formulas of the two generations, the per-symbol statistics of trades by
    interval, the averages, and the pairing of packets by their time stamps. *)

From stdpp Require Import gmap.
From S2P Require Import Prelude FixedPt Messages Hashing IndicatorLaws Smoothing Directional Ratios IndicatorProps FirstGen.
Import FPt fixedptc.

(** ** Formulas *)

Lemma true_range_same high low close :
  TrueRange.calculate_true_range high low close = getC (NewTrueRange.calculate_tr (fromC low) (fromC high) (fromC close)).
Proof.
  unfold TrueRange.calculate_true_range, NewTrueRange.calculate_tr, NewTrueRange.fpt_max, gt, getC.
  cbn [sub fromC _value]. repeat case_match; cbn [_value sub fromC] in *; lia.
Qed.

Definition up_move (ph h : Z) : Z := fixedpt_sub h ph.
Definition down_move (pl l : Z) : Z := fixedpt_sub pl l.

Lemma movements_same ph pl h l :
  DirectionalMovement.calculate_dm ph pl h l =
    (getC (Pdm.calculate_pdm (fromC l) (fromC pl) (fromC h) (fromC ph)),
     getC (Ndm.calculate_ndm (fromC l) (fromC pl) (fromC h) (fromC ph))) <->
  ~ (up_move ph h = down_move pl l /\ 0 < up_move ph h).
Proof.
  unfold DirectionalMovement.calculate_dm, Pdm.calculate_pdm, Ndm.calculate_ndm, lt, getC, up_move, down_move.
  change (_value (fromInt 0)) with 0. cbn [sub fromC _value].
  set (u := fixedpt_sub h ph). set (d := fixedpt_sub pl l).
  destruct (Z.ltb_spec d u), (Z.ltb_spec u d), (Z.ltb_spec 0 u), (Z.ltb_spec 0 d), (Z.ltb_spec u 0), (Z.ltb_spec d 0);
    cbn [andb _value sub fromC]; fold u d; change (_value (fromInt 0)) with 0;
    split; intros H'; try (injection H'; intros); try (f_equal; lia); lia.
Qed.

Lemma dx_same pdi mdi :
  0 <= pdi < 2 ^ 54 -> 0 <= mdi < 2 ^ 54 ->
  exists dx, DxIndicator.calculate_dx pdi mdi = Ok dx /\ Z.abs (getC (dx_value (fromC pdi) (fromC mdi)) - dx) <= 99.
Proof.
  intros Hp Hm. unfold DxIndicator.calculate_dx, dx_value, ratio.
  assert (Ha : fixedpt_add pdi mdi = pdi + mdi) by (apply i64_id; zrange).
  change (getC (add (fromC pdi) (fromC mdi))) with (fixedpt_add pdi mdi). rewrite Ha.
  destruct (Z.eqb_spec (pdi + mdi) 0) as [|Hs]; cbn [negb]; [exists 0; split; [done|]; by vm_compute|].
  assert (Hd : fixedpt_abs (fixedpt_sub pdi mdi) = Z.abs (pdi - mdi)).
  { unfold fixedpt_abs, fixedpt_sub. rewrite (i64_id (pdi - mdi)) by zrange.
    destruct (Z.ltb_spec (pdi - mdi) 0); [rewrite i64_id by zrange|]; lia. }
  rewrite Hd. rewrite div_nonzero by done. res_simpl. eexists. split; [done|].
  assert (Hpr : price_range (sub (fromC pdi) (fromC mdi))).
  { unfold price_range. rewrite sub_val by (unfold price_range; cbn [getC fromC _value]; lia). cbn [getC fromC _value]. lia. }
  assert (Habs : getC (fpt_abs (sub (fromC pdi) (fromC mdi))) = Z.abs (pdi - mdi)).
  { rewrite fpt_abs_val by done. by rewrite sub_val by (unfold price_range; cbn [getC fromC _value]; lia). }
  rewrite int_mul_val, Habs by (try zrange; rewrite Habs; zrange).
  set (d := Z.abs (pdi - mdi)). set (s := pdi + mdi) in *. assert (Hds : 0 <= d <= s) by lia.
  cbn [getC fromC _value]. replace (100 * d * 2 ^ 40) with (100 * (d * 2 ^ 40)) by ring.
  assert (Hq : 0 <= Z.quot (d * 2 ^ 40) s <= 2 ^ 40).
  { rewrite Z.quot_div_nonneg by lia. split; [apply Z.div_pos; lia|]. apply Z.div_le_upper_bound; [lia|]. nia. }
  pose proof (quot_100 (d * 2 ^ 40) s Hs) as H99. rewrite (i64_id (Z.quot (d * 2 ^ 40) s)) by zrange.
  assert (Hmul : fixedpt_mul (i64 (fixedpt_fromint 100)) (Z.quot (d * 2 ^ 40) s) = 100 * Z.quot (d * 2 ^ 40) s).
  { change (i64 (fixedpt_fromint 100)) with (100 * 2 ^ 40). unfold fixedpt_mul.
    rewrite Z.shiftr_div_pow2 by done. change FIXEDPT_FBITS with 40.
    replace (100 * 2 ^ 40 * Z.quot (d * 2 ^ 40) s) with (100 * Z.quot (d * 2 ^ 40) s * 2 ^ 40) by ring.
    rewrite Z.div_mul by done. apply i64_id. zrange. }
  rewrite Hmul. rewrite i64_id by zrange. done.
Qed.

(** ** Values by symbol and interval

    An event is a symbol (the string in the array of a message), the number of its interval and a value.  [groups] are the
    values of one symbol by interval, the newest interval and the newest value
    first. *)

Record event := Event { ev_symbol : bytes; ev_interval : Z; ev_value : Z }.

Definition add_value (g : list (Z * list Z)) (v : Z * Z) : list (Z * list Z) :=
  match g with
  | (n, xs) :: g' => if n =? v.1 then (n, v.2 :: xs) :: g' else (v.1, [v.2]) :: g
  | [] => [(v.1, [v.2])]
  end.

Definition own (k : bytes) (evs : list event) : list (Z * Z) :=
  map (fun v => (ev_interval v, ev_value v)) (filter (fun v => ev_symbol v = k) evs).

Definition groups (k : bytes) (evs : list event) : list (Z * list Z) := fold_left add_value (own k evs) [].

Definition newest (xs : list Z) : Z := hd 0 xs.
Definition highest (xs : list Z) : Z := fold_left Z.max (tl xs) (hd 0 xs).
Definition lowest (xs : list Z) : Z := fold_left Z.min (tl xs) (hd 0 xs).

Lemma groups_snoc k evs v :
  groups k (evs ++ [v]) =
  if decide (ev_symbol v = k) then add_value (groups k evs) (ev_interval v, ev_value v) else groups k evs.
Proof.
  unfold groups, own. rewrite filter_app, map_app, fold_left_app. cbn [filter list_filter].
  case_decide; done.
Qed.

Lemma fold_left_assoc (f : Z -> Z -> Z) l :
  (forall a b c, f (f a b) c = f a (f b c)) -> (forall a b, f a b = f b a) ->
  forall a b, fold_left f l (f a b) = f a (fold_left f l b).
Proof. intros Ha Hc. induction l as [|x l IH]; intros a b; [done|]. cbn. by rewrite Ha, IH. Qed.

Lemma highest_cons x y xs : highest (x :: y :: xs) = Z.max x (highest (y :: xs)).
Proof. unfold highest. cbn [hd tl fold_left]. apply fold_left_assoc; intros; lia. Qed.
Lemma lowest_cons x y xs : lowest (x :: y :: xs) = Z.min x (lowest (y :: xs)).
Proof. unfold lowest. cbn [hd tl fold_left]. apply fold_left_assoc; intros; lia. Qed.

#[global] Arguments newest : simpl never.
#[global] Arguments highest : simpl never.
#[global] Arguments lowest : simpl never.

(** An element that keeps a value per symbol: if one update follows the groups of
    one symbol, the map follows the groups of all of them. *)
Section by_symbol.
Context {A : Type} (new : A) (upd : Z -> Z -> A -> A) (R : A -> list (Z * list Z) -> Prop) (ok : Z -> Prop).
Hypothesis R_new : R new [].
Hypothesis R_upd : forall n x a g, ok n -> R a g -> R (upd n x a) (add_value g (n, x)).

Definition entry (k : bytes) (M : gmap bytes A) : A := default new (M !! k).
Definition table_follows (m : SymbolMap A) (evs : list event) : Prop :=
  exists M : gmap bytes A, represents m M /\ forall k, R (entry k M) (groups k evs).

Lemma table_follows_new def : table_follows (HashMap.HashMap_new def) [].
Proof using R_new. exists ∅. split; [apply represents_new|]. intros k. unfold entry. by rewrite lookup_empty. Qed.

(** The entry of a symbol, and the table once it is updated. *)
Lemma table_follows_update m evs symbol n x :
  ok n -> keyable symbol -> table_follows m evs ->
  exists m1 p created a m2,
    get_or_create new symbol m = Ok (m1, Some p, created) /\ HashMap.pair_value p m1 = Ok a /\
    HashMap.set_pair_value p (upd n x a) m1 = Ok m2 /\
    table_follows m2 (evs ++ [Event (cstr symbol) n x]) /\
    R (upd n x a) (groups (cstr symbol) (evs ++ [Event (cstr symbol) n x])).
Proof using R_upd.
  intros Hok Hs (M & Hr & HM).
  destruct (get_or_create_spec new symbol m M Hr Hs) as (m1 & p & Hget & Hv & Hset). cbn [key_id symbol_lawful ArrayWrapper._array] in *.
  fold (entry (cstr symbol) M) in Hv. destruct (Hset (upd n x (entry (cstr symbol) M))) as (m2 & Hm2 & Hr2).
  eexists m1, p, _, (entry (cstr symbol) M), m2. split_and!; try done.
  - eexists. split; [done|]. intros k. rewrite groups_snoc. cbn [ev_symbol ev_interval ev_value].
    unfold entry at 1. destruct (decide (cstr symbol = k)) as [<-|Hk].
    + rewrite lookup_insert_eq. by apply R_upd.
    + rewrite lookup_insert_ne by done. apply HM.
  - rewrite groups_snoc. cbn [ev_symbol ev_interval ev_value]. rewrite decide_True by done. by apply R_upd.
Qed.
End by_symbol.

(** A run of an element over packets, with what every packet makes it send. *)
Fixpoint run {E I} (push : I -> E -> res (E * list (Z * Packet))) (ps : list I) (e : E)
  : res (E * list (list (Z * Packet))) :=
  match ps with
  | [] => Ok (e, [])
  | p :: ps => let* r := push p e in let* rs := run push ps (fst r) in Ok (fst rs, snd r :: snd rs)
  end.

Lemma run_app {E I} push (ps qs : list I) (e e1 e2 : E) o1 o2 :
  run push ps e = Ok (e1, o1) -> run push qs e1 = Ok (e2, o2) -> run push (ps ++ qs) e = Ok (e2, o1 ++ o2).
Proof.
  revert e o1. induction ps as [|p ps IH]; intros e o1 H1 H2; cbn [run app] in *.
  - injection H1 as -> <-. by rewrite H2.
  - destruct (push p e) as [[e' o']|]; [|done]. revert H1. res_simpl. cbn [fst snd].
    destruct (run push ps e') as [[e'' os]|] eqn:Er; [|done]. res_simpl. cbn [fst snd]. intros [= -> <-].
    by rewrite (IH _ _ Er H2).
Qed.

(** What the packets say, with the output ports they are sent to. *)
Definition messages (out : list (Z * Packet)) : list (Z * res MsgIndicator) :=
  map (fun o => (o.1, decode_MsgIndicator (pk_data o.2))) out.

(** The message of a [push] and the groups of its symbol up to and with it
    determine what is sent. *)
Definition answers {M} (ev : M -> event) (expected : list (Z * list Z) -> M -> list (Z * res MsgIndicator)) (ms : list M)
  : list (list (Z * res MsgIndicator)) :=
  imap (fun i m => expected (groups (ev_symbol (ev m)) (take (S i) (map ev ms))) m) ms.

Section run_by_symbol.
Context {E M : Type} (push : Packet -> E -> res (E * list (Z * Packet))) (valid : Packet -> M -> Prop).
Context (ev : M -> event) (expected : list (Z * list Z) -> M -> list (Z * res MsgIndicator)).
Context (inv : E -> list event -> Prop).
Hypothesis push_step : forall p m e evs, valid p m -> inv e evs ->
  exists e' o, push p e = Ok (e', o) /\ inv e' (evs ++ [ev m]) /\
    messages o = expected (groups (ev_symbol (ev m)) (evs ++ [ev m])) m.

Lemma answers_snoc ms m :
  answers ev expected (ms ++ [m]) =
  answers ev expected ms ++ [expected (groups (ev_symbol (ev m)) (map ev (ms ++ [m]))) m].
Proof.
  unfold answers. rewrite imap_app. f_equal.
  - apply imap_ext. intros i x Hi. apply lookup_lt_Some in Hi.
    by rewrite map_app, take_app_le by (rewrite length_map; lia).
  - cbn [imap]. by rewrite take_ge by (rewrite length_map, length_app; cbn; lia).
Qed.

Lemma run_answers ps ms e :
  Forall2 valid ps ms -> inv e [] ->
  exists e' outs, run push ps e = Ok (e', outs) /\ inv e' (map ev ms) /\ map messages outs = answers ev expected ms.
Proof using push_step.
  intros Hv He. revert ms Hv. induction ps as [|p ps IH] using rev_ind; intros ms Hv.
  { apply Forall2_nil_inv_l in Hv as ->. by exists e, []. }
  apply Forall2_app_inv_l in Hv as (ms1 & ms2 & Hv1 & Hv2 & ->).
  apply Forall2_cons_inv_l in Hv2 as (m & ms3 & Hm & Hn & ->). apply Forall2_nil_inv_l in Hn as ->.
  destruct (IH _ Hv1) as (e1 & outs & Hr & Hi & Ha). destruct (push_step p m e1 _ Hm Hi) as (e2 & o & Hp & Hi2 & Ho).
  exists e2, (outs ++ [o]). split; [apply (run_app _ _ _ _ e1); [done|]; cbn [run]; by rewrite Hp|]. rewrite map_app. split; [done|].
  by rewrite map_app, Ha, answers_snoc, map_app; cbn [map]; rewrite Ho.
Qed.
End run_by_symbol.

(** *** Reading the packets *)

Lemma read_at_length off n data bs : read_at off n data = Ok bs -> length bs = n /\ (off + n <= length data)%nat.
Proof.
  unfold read_at. destruct (Nat.leb_spec (off + n) (length data)); [|done]. intros [= <-].
  rewrite length_take, length_drop. lia.
Qed.

Lemma decode_MsgTrade_length data m :
  decode_MsgTrade data = Ok m -> (sizeof_MsgTrade <= length data)%nat /\ length (mt_symbol m) = ORDER_SYMBOL_LEN.
Proof.
  unfold decode_MsgTrade, read_i64, read_u64, sizeof_MsgTrade. intros H. res_inv.
  repeat match goal with H : read_at _ _ _ = Ok _ |- _ => apply read_at_length in H as [] end.
  cbn [mt_symbol]. lia.
Qed.

Lemma decode_MsgIndicator_length data m :
  decode_MsgIndicator data = Ok m ->
  (sizeof_MsgIndicator <= length data)%nat /\ length (mi_symbol m) = ORDER_SYMBOL_LEN /\ in_s 64 (mi_indicator m).
Proof.
  unfold decode_MsgIndicator, read_i64, read_u64, sizeof_MsgIndicator. intros H. res_inv.
  repeat match goal with H : read_at _ _ _ = Ok _ |- _ => apply read_at_length in H as [] end.
  cbn [mi_symbol mi_indicator]. split_and!; [lia|done|apply i64_range].
Qed.

Lemma publish_Ok port p symbol indicator ts :
  (sizeof_MsgIndicator <= length (pk_data p))%nat -> length symbol = ORDER_SYMBOL_LEN ->
  in_s 64 indicator -> in_u 64 ts ->
  exists p', publish port p symbol indicator ts = Ok [(port, p')] /\
    decode_MsgIndicator (pk_data p') = Ok (mkMsgIndicator symbol indicator ts).
Proof.
  intros Hl Hs Hi Ht. unfold publish, populate_msg_indicator, length_of.
  rewrite (proj2 (Nat.ltb_ge _ _)) by done.
  assert (H3 : length (encode_MsgIndicator (mkMsgIndicator symbol indicator ts)) = sizeof_MsgIndicator).
  { unfold encode_MsgIndicator. cbn [mi_symbol]. by rewrite !length_app, !length_le_encode, Hs. }
  rewrite write_front_Ok by lia. res_simpl. eexists. split; [done|]. by apply decode_encode_MsgIndicator.
Qed.

(** ** Trades: TrueRange and DirectionalMovement *)

(** The packets are trades that carry a time stamp of the run. *)
Definition trade_event (start len : Z) (m : MsgTrade) : event :=
  Event (cstr (mt_symbol m)) (Z.quot (i64 (mt_timestamp m - start)) len) (mt_price m).

Record trade_of (start : Z) (p : Packet) (m : MsgTrade) : Prop := {
  tr_type : pk_app_type p = MSG_TRADE;
  tr_decode : decode_MsgTrade (pk_data p) = Ok m;
  tr_stamp : in_u 64 (mt_timestamp m);
  tr_started : 0 <= i64 (mt_timestamp m - start);
  tr_price : 0 <= mt_price m;
  tr_symbol : keyable (mt_symbol m)
}.

Lemma interval_of_Ok start len ts :
  0 < len -> interval_of start len ts = Ok (Z.quot (i64 (ts - start)) len).
Proof. intros. unfold interval_of. rewrite (proj2 (Z.eqb_neq len 0)), (proj2 (Z.eqb_neq len (-1))), andb_false_r by lia. done. Qed.

(** A group is never empty and its newest interval is the current one. *)
Definition rolled {A} (new : A) (current : Z) (a : A) (now : list Z -> list Z -> Prop) (g : list (Z * list Z)) : Prop :=
  match g with
  | [] => a = new
  | (n, xs) :: g => 0 <= n /\ n = current /\ xs <> [] /\ now xs (match g with [] => [] | (_, ys) :: _ => ys end)
  end.

Definition range_follows (h : TrueRange.HighLowClose) (g : list (Z * list Z)) : Prop :=
  rolled TrueRange.HighLowClose_new (TrueRange._current_interval_num h) h
    (fun xs ys => TrueRange._current_high h = highest xs /\ TrueRange._current_low h = lowest xs /\
       TrueRange._current_close h = newest xs /\ TrueRange._prev_close h = newest ys) g.

Definition movement_follows (h : DirectionalMovement.HighLow) (g : list (Z * list Z)) : Prop :=
  rolled DirectionalMovement.HighLow_new (DirectionalMovement._current_interval_num h) h
    (fun xs ys => DirectionalMovement._current_high h = highest xs /\ DirectionalMovement._current_low h = lowest xs /\
       DirectionalMovement._prev_high h = highest ys /\ DirectionalMovement._prev_low h = lowest ys) g.

Lemma range_follows_update n x h g :
  0 <= n -> range_follows h g -> range_follows (TrueRange.update n x h) (add_value g (n, x)).
Proof.
  intros Hn Hg. unfold TrueRange.update. destruct g as [|[k xs] g].
  - cbn in Hg. subst h. cbn [TrueRange._current_interval_num TrueRange.HighLowClose_new].
    rewrite (proj2 (Z.eqb_neq (-1) n)) by lia. cbn. split_and!; done.
  - destruct Hg as (Hk & -> & Hx & Hh & Hl & Hc & Hp). cbn [add_value fst snd].
    destruct (Z.eqb_spec (TrueRange._current_interval_num h) n) as [<-|Hne]; cbn; [|split_and!; done].
    destruct xs as [|y xs]; [done|]. rewrite highest_cons, lowest_cons, <- Hh, <- Hl.
    split_and!; try done; match goal with |- context [Z.ltb ?a ?b] => destruct (Z.ltb_spec a b) end; lia.
Qed.

Lemma movement_follows_update n x h g :
  0 <= n -> movement_follows h g -> movement_follows (DirectionalMovement.update n x h) (add_value g (n, x)).
Proof.
  intros Hn Hg. unfold DirectionalMovement.update. destruct g as [|[k xs] g].
  - cbn in Hg. subst h. cbn [DirectionalMovement._current_interval_num DirectionalMovement.HighLow_new].
    rewrite (proj2 (Z.eqb_neq (-1) n)) by lia. cbn. split_and!; done.
  - destruct Hg as (Hk & -> & Hx & Hh & Hl & Hc & Hp). cbn [add_value fst snd].
    destruct (Z.eqb_spec (DirectionalMovement._current_interval_num h) n) as [<-|Hne]; cbn; [|split_and!; done].
    destruct xs as [|y xs]; [done|]. rewrite highest_cons, lowest_cons, <- Hh, <- Hl.
    split_and!; try done; match goal with |- context [Z.ltb ?a ?b] => destruct (Z.ltb_spec a b) end; lia.
Qed.

Definition previous (g : list (Z * list Z)) : list Z :=
  match g with _ :: (_, ys) :: _ => ys | _ => [] end.
Definition current (g : list (Z * list Z)) : list Z :=
  match g with (_, xs) :: _ => xs | [] => [] end.

(** Wilder's definitions, on exact numbers.  The true range is the greatest of the
    range of the interval and the distances of its ends from the last close; a
    directional movement is how far an extreme moved outward, where that is more than
    the other one moved, and zero elsewhere. *)
Definition true_range (high low close : Z) : Z :=
  Z.max (high - low) (Z.max (Z.abs (high - close)) (Z.abs (low - close))).
Definition movement (outward other : Z) : Z := if Z.max 0 other <? outward then outward else 0.

Definition range_expected (g : list (Z * list Z)) (m : MsgTrade) : list (Z * res MsgIndicator) :=
  if newest (previous g) =? 0 then []
  else [(0, Ok (mkMsgIndicator (mt_symbol m)
                  (true_range (highest (current g)) (lowest (current g)) (newest (previous g)))
                  (mt_timestamp m)))].

(** The minus movement goes to output 0, the plus movement to output 1. *)
Definition movement_expected (g : list (Z * list Z)) (m : MsgTrade) : list (Z * res MsgIndicator) :=
  if (lowest (previous g) =? 0) && (highest (previous g) =? 0) then []
  else
    let up := highest (current g) - highest (previous g) in
    let down := lowest (previous g) - lowest (current g) in
    [(0, Ok (mkMsgIndicator (mt_symbol m) (movement down up) (mt_timestamp m)));
     (1, Ok (mkMsgIndicator (mt_symbol m) (movement up down) (mt_timestamp m)))].

(** Prices that are not negative have differences in 64 bits. *)
Definition priced (x : Z) : Prop := 0 <= x < 2 ^ 63.

Lemma fold_priced f xs x : (forall a b, priced a -> priced b -> priced (f a b)) -> priced x -> Forall priced xs -> priced (fold_left f xs x).
Proof. intros Hf. revert x. induction xs as [|y xs IH]; intros x Hx Hxs; [done|]. apply Forall_cons in Hxs as [? ?]. apply IH; [by apply Hf|done]. Qed.

Lemma extremes_priced xs : Forall priced xs ->
  priced (highest xs) /\ priced (lowest xs) /\ priced (newest xs) /\ lowest xs <= highest xs.
Proof.
  intros H. destruct xs as [|x xs]; [done|]. apply Forall_cons in H as [Hx Hxs].
  unfold highest, lowest, newest. cbn [hd tl]. split_and!; [apply fold_priced; [unfold priced; lia|done..]|
    apply fold_priced; [unfold priced; lia|done..]|done|].
  assert (Hm : forall ys y, y <= fold_left Z.max ys y /\ fold_left Z.min ys y <= y).
  { induction ys as [|z ys IH]; intros y; [done|]. cbn. pose proof (IH (Z.max y z)). pose proof (IH (Z.min y z)). lia. }
  pose proof (Hm xs x). lia.
Qed.

Lemma groups_priced k evs : Forall (fun v => priced (ev_value v)) evs -> Forall (fun i => Forall priced i.2) (groups k evs).
Proof.
  induction evs as [|v evs IH] using rev_ind; intros H; [done|]. apply Forall_app in H as [H Hv]. apply Forall_cons in Hv as [Hv _].
  rewrite groups_snoc. specialize (IH H). destruct (decide _); [|done]. destruct (groups k evs) as [|[n xs] g]; cbn.
  - by apply Forall_cons; split; [apply Forall_cons|].
  - apply Forall_cons in IH as [Hxs Hg]. case_match; cbn [snd]; rewrite !Forall_cons; naive_solver.
Qed.

Lemma current_previous_priced g : Forall (fun i => Forall priced i.2) g -> Forall priced (current g) /\ Forall priced (previous g).
Proof. destruct g as [|[n xs] [|[k ys] g]]; rewrite ?Forall_cons; cbn; intros H; split; try apply Forall_nil_2; apply H. Qed.

Lemma calculate_true_range_spec high low close : priced high -> priced low -> priced close -> low <= high ->
  TrueRange.calculate_true_range high low close = true_range high low close.
Proof.
  unfold priced. intros. unfold TrueRange.calculate_true_range, true_range, fixedpt_sub. rewrite !i64_id by zrange. cbv zeta.
  destruct (Z.ltb_spec (high - close) (high - low)); case_match; lia.
Qed.

Lemma calculate_dm_spec ph pl h l : priced ph -> priced pl -> priced h -> priced l ->
  DirectionalMovement.calculate_dm ph pl h l = (movement (h - ph) (pl - l), movement (pl - l) (h - ph)).
Proof.
  unfold priced. intros. unfold DirectionalMovement.calculate_dm, movement, fixedpt_sub. rewrite !i64_id by zrange.
  f_equal; repeat match goal with |- context [?a <? ?b] => destruct (Z.ltb_spec a b) end; cbn [andb]; lia.
Qed.

Lemma add_value_not_nil g v : add_value g v <> [].
Proof. destruct g as [|[]]; cbn; [done|case_match; done]. Qed.

Lemma true_range_range h l c : in_s 64 (TrueRange.calculate_true_range h l c).
Proof. unfold TrueRange.calculate_true_range. repeat case_match; apply i64_range. Qed.

Lemma calculate_dm_range ph pl h l :
  in_s 64 (fst (DirectionalMovement.calculate_dm ph pl h l)) /\ in_s 64 (snd (DirectionalMovement.calculate_dm ph pl h l)).
Proof.
  unfold DirectionalMovement.calculate_dm. cbn [fst snd].
  split; case_match; try apply i64_range; by vm_compute.
Qed.

Definition range_element (len : Z) (e : TrueRange.TrueRange) (evs : list event) : Prop :=
  TrueRange._active e = true /\ TrueRange._interval_len e = len /\ Forall (fun v => priced (ev_value v)) evs /\
  table_follows TrueRange.HighLowClose_new range_follows (TrueRange._high_low_close_map e) evs.

Definition movement_element (len : Z) (e : DirectionalMovement.DirectionalMovement) (evs : list event) : Prop :=
  DirectionalMovement._active e = true /\ DirectionalMovement._interval_len e = len /\ Forall (fun v => priced (ev_value v)) evs /\
  table_follows DirectionalMovement.HighLow_new movement_follows (DirectionalMovement._high_low_map e) evs.

(** What a pair of statistics says of the groups it follows. *)
Lemma range_follows_view h g :
  g <> [] -> range_follows h g ->
  TrueRange._current_high h = highest (current g) /\ TrueRange._current_low h = lowest (current g) /\
  TrueRange._prev_close h = newest (previous g).
Proof. destruct g as [|[n xs] [|[k ys] g]]; [done| |]; intros _ (_ & _ & _ & H1 & H2 & _ & H3); done. Qed.

Lemma movement_follows_view h g :
  g <> [] -> movement_follows h g ->
  DirectionalMovement._current_high h = highest (current g) /\ DirectionalMovement._current_low h = lowest (current g) /\
  DirectionalMovement._prev_high h = highest (previous g) /\ DirectionalMovement._prev_low h = lowest (previous g).
Proof. destruct g as [|[n xs] [|[k ys] g]]; [done| |]; intros _ (_ & _ & _ & H1 & H2 & H3); done. Qed.

Lemma decode_price data m : decode_MsgTrade data = Ok m -> in_s 64 (mt_price m).
Proof. unfold decode_MsgTrade, read_i64. intros H. res_inv. apply i64_range. Qed.

Section trades.
Context (start len : Z) (Hlen : 0 < len).

Lemma events_priced evs m : 0 <= mt_price m -> in_s 64 (mt_price m) ->
  Forall (fun v => priced (ev_value v)) evs -> Forall (fun v => priced (ev_value v)) (evs ++ [trade_event start len m]).
Proof. intros H1 H2 He. apply Forall_app. split; [done|]. constructor; [|done]. cbn. unfold priced. zrange. Qed.

Lemma event_started p m : trade_of start p m -> 0 <= ev_interval (trade_event start len m).
Proof using Hlen. intros []. cbn. by apply Z.quot_pos. Qed.

Lemma groups_last_not_nil m evs :
  groups (cstr (mt_symbol m)) (evs ++ [trade_event start len m]) <> [].
Proof. rewrite groups_snoc. cbn [ev_symbol trade_event]. rewrite decide_True by done. apply add_value_not_nil. Qed.

Lemma range_push p m e evs :
  trade_of start p m -> range_element len e evs ->
  exists e' o, TrueRange.push start 0 p e = Ok (e', o) /\ range_element len e' (evs ++ [trade_event start len m]) /\
    messages o = range_expected (groups (cstr (mt_symbol m)) (evs ++ [trade_event start len m])) m.
Proof using Hlen.
  intros Ht (Ha & Hl & Hpr & Hm). pose proof (event_started p m Ht) as Hs. destruct Ht as [Ht Hd Hst _ Hnn Hgood].
  apply (events_priced evs m) in Hpr; [|done|exact (decode_price _ _ Hd)].
  destruct (current_previous_priced _ (groups_priced (cstr (mt_symbol m)) _ Hpr)) as [Hcur Hprev].
  apply extremes_priced in Hcur as (C1 & C2 & C3 & C4), Hprev as (P1 & P2 & P3 & P4).
  destruct (decode_MsgTrade_length _ _ Hd) as [Hsz Hsym].
  destruct (table_follows_update _ TrueRange.update range_follows (fun n => 0 <= n) range_follows_update
              _ _ (mt_symbol m) _ (mt_price m) Hs Hgood Hm) as (m1 & q & created & h & m2 & Hget & Hq & Hset & Hm2 & Hf).
  fold (trade_event start len m) in Hm2, Hf. cbn [ev_interval trade_event] in Hset, Hf.
  destruct (range_follows_view _ _ (groups_last_not_nil m evs) Hf) as (H1 & H2 & H3).
  unfold TrueRange.push. rewrite Ha, bool_decide_eq_true_2 by done. cbn [negb]. unfold length_of.
  rewrite (proj2 (Nat.leb_le _ _)), Hd by done. res_simpl. rewrite Hget. res_simpl.
  rewrite Hl, interval_of_Ok by done. res_simpl. rewrite Hq. res_simpl. rewrite Hset. res_simpl.
  rewrite H1, H2, H3. unfold range_expected. case_match.
  { eexists _, []. split; [done|]. by split_and!. }
  rewrite <- calculate_true_range_spec by done.
  match goal with |- context [TrueRange.calculate_true_range ?a ?b ?c] =>
    destruct (publish_Ok 0 p (mt_symbol m) (TrueRange.calculate_true_range a b c) (mt_timestamp m)) as (p' & Hp & Hdec) end;
    [unfold sizeof_MsgTrade, sizeof_MsgIndicator in *; lia|done|apply true_range_range|done|].
  rewrite Hp. res_simpl. eexists _, _. split; [done|]. split; [by split_and!|].
  cbn [messages map fst snd]. by rewrite Hdec.
Qed.

Lemma movement_push p m e evs :
  trade_of start p m -> movement_element len e evs ->
  exists e' o, DirectionalMovement.push start 0 p e = Ok (e', o) /\
    movement_element len e' (evs ++ [trade_event start len m]) /\
    messages o = movement_expected (groups (cstr (mt_symbol m)) (evs ++ [trade_event start len m])) m.
Proof using Hlen.
  intros Ht (Ha & Hl & Hpr & Hm). pose proof (event_started p m Ht) as Hs. destruct Ht as [Ht Hd Hst _ Hnn Hgood].
  apply (events_priced evs m) in Hpr; [|done|exact (decode_price _ _ Hd)].
  destruct (current_previous_priced _ (groups_priced (cstr (mt_symbol m)) _ Hpr)) as [Hcur Hprev].
  apply extremes_priced in Hcur as (C1 & C2 & C3 & C4), Hprev as (P1 & P2 & P3 & P4).
  destruct (decode_MsgTrade_length _ _ Hd) as [Hsz Hsym].
  destruct (table_follows_update _ DirectionalMovement.update movement_follows (fun n => 0 <= n) movement_follows_update
              _ _ (mt_symbol m) _ (mt_price m) Hs Hgood Hm) as (m1 & q & created & h & m2 & Hget & Hq & Hset & Hm2 & Hf).
  fold (trade_event start len m) in Hm2, Hf. cbn [ev_interval trade_event] in Hset, Hf.
  destruct (movement_follows_view _ _ (groups_last_not_nil m evs) Hf) as (H1 & H2 & H3 & H4).
  unfold DirectionalMovement.push. rewrite Ha, bool_decide_eq_true_2 by done. cbn [negb]. unfold length_of.
  rewrite (proj2 (Nat.leb_le _ _)), Hd by done. res_simpl. rewrite Hget. res_simpl.
  rewrite Hl, interval_of_Ok by done. res_simpl. cbn [ev_interval trade_event] in Hs.
  rewrite (proj2 (Z.ltb_ge _ _)) by done. rewrite Hq. res_simpl. rewrite Hset. res_simpl.
  rewrite H1, H2, H3, H4. unfold movement_expected. case_match.
  { eexists _, []. split; [done|]. by split_and!. }
  match goal with |- context [DirectionalMovement.calculate_dm ?a ?b ?c ?d] =>
    destruct (calculate_dm_range a b c d) as [Hr1 Hr2]; pose proof (calculate_dm_spec a b c d P1 P2 C1 C2) as Hdm;
    destruct (DirectionalMovement.calculate_dm a b c d) as [plus minus] end.
  injection Hdm as <- <-.
  assert (Hsz' : (sizeof_MsgIndicator <= length (pk_data p))%nat) by (unfold sizeof_MsgTrade, sizeof_MsgIndicator in *; lia).
  destruct (publish_Ok 0 p _ minus _ Hsz' Hsym Hr2 Hst) as (p0 & Hp0 & Hd0).
  destruct (publish_Ok 1 p _ plus _ Hsz' Hsym Hr1 Hst) as (p1 & Hp1 & Hd1).
  rewrite Hp0. res_simpl. rewrite Hp1. res_simpl. eexists _, _. split; [done|]. split; [by split_and!|].
  cbn [messages map fst snd app]. by rewrite Hd0, Hd1.
Qed.
End trades.

(** ** Averages: EwmaElement *)

Definition indicator_event (start len : Z) (m : MsgIndicator) : event :=
  Event (cstr (mi_symbol m)) (Z.quot (i64 (mi_timestamp m - start)) len) (mi_indicator m).

Record indicator_of (p : Packet) (m : MsgIndicator) : Prop := {
  in_type : pk_app_type p = MSG_INDICATOR;
  in_decode : decode_MsgIndicator (pk_data p) = Ok m;
  in_stamp : in_u 64 (mi_timestamp m)
}.

(** The average over the newest value of every interval. *)
Definition average (alpha : Z) (g : list (Z * list Z)) : Z :=
  foldr (fun i prev => EwmaElement.next_ewma alpha (newest i.2) prev) 0 g.

Definition average_follows (alpha : Z) (c : EwmaElement.EwmaCalculator) (g : list (Z * list Z)) : Prop :=
  match g with
  | [] => c = EwmaElement.EwmaCalculator_new
  | (n, _) :: g' => n = EwmaElement._current_interval_num c /\
      EwmaElement._current_ewma_value c = average alpha g /\ EwmaElement._prev_ewma_value c = average alpha g'
  end.

Lemma average_follows_update alpha n x c g :
  average_follows alpha c g -> average_follows alpha (EwmaElement.update alpha n x c) (add_value g (n, x)).
Proof.
  unfold EwmaElement.update. destruct g as [|[k xs] g]; cbn [average_follows add_value fst snd].
  - intros ->. cbn. by destruct (Z.eqb_spec n 0) as [->|].
  - intros (-> & Hc & Hp). rewrite Z.eqb_sym.
    destruct (Z.eqb_spec (EwmaElement._current_interval_num c) n) as [<-|]; cbn -[average].
    + split_and!; [done| |done]. by rewrite Hp.
    + split_and!; [done| |done]. by rewrite Hc.
Qed.

Definition average_expected (alpha : Z) (g : list (Z * list Z)) (m : MsgIndicator) : list (Z * res MsgIndicator) :=
  [(0, Ok (mkMsgIndicator (mi_symbol m) (average alpha g) (mi_timestamp m)))].

Definition average_element (alpha len : Z) (e : EwmaElement.EwmaElement) (evs : list event) : Prop :=
  EwmaElement._active e = true /\ EwmaElement._interval_len e = len /\ EwmaElement._ewma_alpha_value e = alpha /\
  table_follows EwmaElement.EwmaCalculator_new (average_follows alpha) (EwmaElement._ewma_map e) evs.

Lemma update_range alpha n x c : in_s 64 x -> in_s 64 (EwmaElement._current_ewma_value (EwmaElement.update alpha n x c)).
Proof.
  intros Hx. unfold EwmaElement.update, EwmaElement.next_ewma.
  repeat case_match; cbn [EwmaElement._current_ewma_value]; try done; apply i64_range.
Qed.

Lemma average_push start len alpha p m e evs :
  0 < len -> indicator_of p m -> keyable (mi_symbol m) -> average_element alpha len e evs ->
  exists e' o, EwmaElement.push start 0 p e = Ok (e', o) /\
    average_element alpha len e' (evs ++ [indicator_event start len m]) /\
    messages o = average_expected alpha (groups (cstr (mi_symbol m)) (evs ++ [indicator_event start len m])) m.
Proof.
  intros Hlen [Ht Hd Hst] Hgood (Ha & Hl & Hal & Hm). destruct (decode_MsgIndicator_length _ _ Hd) as (Hsz & Hsym & Hin).
  destruct (table_follows_update _ (EwmaElement.update alpha) (average_follows alpha) (fun _ => True)
              (fun n x c g _ => average_follows_update alpha n x c g)
              _ _ (mi_symbol m) (Z.quot (i64 (mi_timestamp m - start)) len) (mi_indicator m) I Hgood Hm)
    as (m1 & q & created & c & m2 & Hget & Hq & Hset & Hm2 & Hf).
  fold (indicator_event start len m) in Hm2, Hf.
  unfold EwmaElement.push. rewrite Ha, bool_decide_eq_true_2 by done. cbn [negb]. unfold length_of.
  rewrite (proj2 (Nat.leb_le _ _)), Hd by done. res_simpl. rewrite Hget. res_simpl.
  rewrite Hl, Hal, interval_of_Ok by done. res_simpl. rewrite Hq. res_simpl. rewrite Hset. res_simpl.
  set (c' := EwmaElement.update _ _ _ _) in *.
  destruct (publish_Ok 0 p (mi_symbol m) (EwmaElement._current_ewma_value c') (mi_timestamp m) Hsz Hsym)
    as (p' & Hp & Hdec); [by apply update_range|done|].
  rewrite Hp. res_simpl. eexists _, _. split; [done|]. split; [by split_and!|].
  cbn [messages map fst snd]. rewrite Hdec. unfold average_expected. do 4 f_equal.
  pose proof (add_value_not_nil (groups (cstr (mi_symbol m)) evs)
                (Z.quot (i64 (mi_timestamp m - start)) len, mi_indicator m)) as Hn.
  rewrite groups_snoc in Hf |- *. cbn [indicator_event ev_symbol ev_interval ev_value] in *.
  rewrite decide_True in Hf |- * by done. destruct (add_value _ _) as [|[n xs] g]; [done|]. by destruct Hf as (_ & Hf & _).
Qed.

(** While no average is zero, which the element takes for a missing one, it is the
    average of the second generation. *)
Fixpoint no_zero_average (alpha : Z) (g : list (Z * list Z)) : bool :=
  match g with
  | [] | [_] => true
  | _ :: g => negb (average alpha g =? 0) && no_zero_average alpha g
  end.

Lemma average_ewma alpha g :
  no_zero_average alpha g = true -> average alpha g = getC (ewma (fromC alpha) (map (fun i => fromC (newest i.2)) g)).
Proof.
  induction g as [|i [|j g] IH]; [done|done|]. intros [Hz Hg]%andb_true_iff.
  change (average alpha (i :: j :: g)) with (EwmaElement.next_ewma alpha (newest i.2) (average alpha (j :: g))).
  unfold EwmaElement.next_ewma. destruct (average alpha (j :: g) =? 0) eqn:E; [done|].
  rewrite (IH Hg) in E |- *. cbn [map]. rewrite (ewma_cons _ (fromC (newest i.2))) by done. done.
Qed.

(** ** Pairs: DirectionalIndex and DxIndicator

    The inputs come in rounds: both packets of a time stamp in either order, or one
    of them alone. *)

Inductive round :=
| Both (a_first : bool) (a b : Packet)
| Alone (is_a : bool) (p : Packet).

Definition inputs (port_a port_b : Z) (r : round) : list (Z * Packet) :=
  match r with
  | Both true a b => [(port_a, a); (port_b, b)]
  | Both false a b => [(port_b, b); (port_a, a)]
  | Alone is_a p => [(if is_a then port_a else port_b, p)]
  end.

(** A complete round is answered at its second packet. *)
Definition round_answers (f : MsgIndicator -> MsgIndicator -> MsgIndicator) (r : round) : list (list (Z * res MsgIndicator)) :=
  match r with
  | Both _ a b =>
      [[]; [(0, let* ma := decode_MsgIndicator (pk_data a) in let* mb := decode_MsgIndicator (pk_data b) in Ok (f ma mb))]]
  | Alone _ _ => [[]]
  end.

Definition stamped_at (t : Z) (p : Packet) : Prop := exists m, indicator_of p m /\ mi_timestamp m = t.

Definition round_at (t : Z) (r : round) : Prop :=
  match r with Both _ a b => stamped_at t a /\ stamped_at t b | Alone _ p => stamped_at t p end.

(** The rounds carry the time stamps [ts], later and later. *)
Fixpoint rounds_at (last : Z) (ts : list Z) (rs : list round) : Prop :=
  match ts, rs with
  | t :: ts, r :: rs => last < t /\ round_at t r /\ rounds_at t ts rs
  | [], [] => True
  | _, _ => False
  end.

(** What is saved is older than what comes. *)
Definition saved_before (A B : PacketPort) (t : Z) (s : SavedPacket) : Prop :=
  s = SavedPacket_new \/
  exists q m, indicator_of q m /\ mi_timestamp m <= t /\ (s = mkSaved (Some q) A \/ s = mkSaved (Some q) B).

Section pairs.
Context {E : Type} (push : Z * Packet -> E -> res (E * list (Z * Packet))).
Context (saved : E -> SavedPacket) (with_saved : SavedPacket -> E -> E) (live : E -> Prop).
Context (A B : PacketPort) (port_a port_b : Z) (f : MsgIndicator -> MsgIndicator -> MsgIndicator).
Hypothesis AB : A <> B /\ A <> NO_PORT /\ B <> NO_PORT.
Hypothesis saved_with : forall s e, saved (with_saved s e) = s.
Hypothesis live_with : forall s e, live e -> live (with_saved s e).

Definition side (is_a : bool) : PacketPort := if is_a then A else B.
Definition side_port (is_a : bool) : Z := if is_a then port_a else port_b.

Hypothesis push_waits : forall is_a p m e s, live e -> indicator_of p m ->
  meet (saved e) (side is_a) p = Ok (Waits s) -> push (side_port is_a, p) e = Ok (with_saved s e, []).
Hypothesis push_meets : forall is_a p m q mq e, live e -> indicator_of p m -> indicator_of q mq ->
  saved e = mkSaved (Some q) (side (negb is_a)) -> mi_timestamp mq = mi_timestamp m ->
  exists o, push (side_port is_a, p) e = Ok (with_saved SavedPacket_new e, o) /\
    messages o = [(0, Ok (if is_a then f m mq else f mq m))].

Lemma side_not_no is_a : side is_a <> NO_PORT.
Proof using AB. by destruct AB as (_ & H1 & H2), is_a. Qed.
Lemma side_negb is_a : side is_a <> side (negb is_a).
Proof using AB. destruct AB as (H1 & _ & _), is_a; [done|by apply not_eq_sym]. Qed.

(** The first packet of a later round replaces what is saved. *)
Lemma first_push is_a p t last e :
  live e -> stamped_at t p -> last < t -> saved_before A B last (saved e) ->
  push (side_port is_a, p) e = Ok (with_saved (mkSaved (Some p) (side is_a)) e, []).
Proof using AB push_waits.
  intros Hl (m & Hm & Ht) Hlt Hs. apply (push_waits is_a p m); [done|done|]. pose proof (side_not_no is_a) as Hn.
  destruct Hs as [->|(q & mq & Hq & Hle & Hs)]; unfold meet.
  - cbn [SavedPacket_new sp_port]. by rewrite decide_False, decide_True by done.
  - assert (Hs' : exists b, saved e = mkSaved (Some q) (side b)) by (destruct Hs as [->| ->]; [by exists true|by exists false]).
    destruct Hs' as [b ->]. cbn [sp_port sp_packet]. case_decide as Hd; [by rewrite Hd|].
    rewrite decide_False by apply side_not_no. unfold compare_tstamps. cbn [sp_packet of_option]. res_simpl.
    rewrite (in_decode _ _ Hq). res_simpl. rewrite (in_decode _ _ Hm). res_simpl.
    rewrite (proj2 (Z.ltb_ge _ _)), (proj2 (Z.ltb_lt _ _)) by lia. done.
Qed.

Lemma pair_push is_a p q t last e :
  live e -> stamped_at t p -> stamped_at t q -> last < t -> saved_before A B last (saved e) ->
  exists e' o mp mq, decode_MsgIndicator (pk_data p) = Ok mp /\ decode_MsgIndicator (pk_data q) = Ok mq /\
    run push [(side_port is_a, p); (side_port (negb is_a), q)] e = Ok (e', [[]; o]) /\
    messages o = [(0, Ok (if is_a then f mp mq else f mq mp))] /\ live e' /\ saved e' = SavedPacket_new.
Proof using AB push_waits push_meets saved_with live_with.
  intros Hl Hp (mq & Hq & Htq) Hlt Hs. cbn [run]. rewrite (first_push is_a p t last e) by done.
  destruct Hp as (mp & Hp & Htp). res_simpl. cbn [fst snd].
  destruct (push_meets (negb is_a) q mq p mp (with_saved (mkSaved (Some p) (side is_a)) e)) as (o & Ho & Hm);
    [by apply live_with|done|done|by rewrite saved_with, negb_involutive|congruence|].
  rewrite Ho. res_simpl. cbn [fst snd]. eexists _, _, mp, mq. split; [apply Hp|]. split; [apply Hq|]. split; [done|].
  split; [|split; [auto using live_with|by rewrite saved_with]]. rewrite Hm. by destruct is_a.
Qed.

Lemma round_push r t last e :
  live e -> round_at t r -> last < t -> saved_before A B last (saved e) ->
  exists e' outs, run push (inputs port_a port_b r) e = Ok (e', outs) /\ map messages outs = round_answers f r /\
    live e' /\ saved_before A B t (saved e').
Proof using AB push_waits push_meets saved_with live_with.
  intros Hl Hr Hlt Hs. destruct r as [[] a b|is_a p].
  - destruct Hr as [Ha Hb]. destruct (pair_push true a b t last e) as (e' & o & ma & mb & Da & Db & Hrun & Hm & Hl' & Hs');
      [done..|]. exists e', [[]; o]. split; [exact Hrun|]. cbn [map round_answers]. rewrite Hm, Da, Db, Hs'. split; [done|]. split; [done|]. by left.
  - destruct Hr as [Ha Hb]. destruct (pair_push false b a t last e) as (e' & o & mb & ma & Db & Da & Hrun & Hm & Hl' & Hs');
      [done..|]. exists e', [[]; o]. split; [exact Hrun|]. cbn [map round_answers]. rewrite Hm, Da, Db, Hs'. split; [done|]. split; [done|]. by left.
  - cbn [inputs run]. fold (side_port is_a). rewrite (first_push is_a p t last e) by done. res_simpl. cbn [fst snd].
    eexists _, _. split; [done|]. split; [done|]. split; [by apply live_with|]. rewrite saved_with.
    destruct Hr as (m & Hm & <-). right. exists p, m. split_and!; [done|lia|]. destruct is_a; [by left|by right].
Qed.

Lemma rounds_run rs ts last e :
  live e -> rounds_at last ts rs -> saved_before A B last (saved e) ->
  exists e' outs, run push (concat (map (inputs port_a port_b) rs)) e = Ok (e', outs) /\
    map messages outs = concat (map (round_answers f) rs).
Proof using AB push_waits push_meets saved_with live_with.
  revert ts last e. induction rs as [|r rs IH]; intros [|t ts] last e Hl Hrs Hs; try done.
  { by exists e, []. }
  destruct Hrs as (Hlt & Hr & Hrs). destruct (round_push r t last e Hl Hr Hlt Hs) as (e1 & o1 & Hrun & Ho & Hl1 & Hs1).
  destruct (IH ts t e1 Hl1 Hrs Hs1) as (e2 & o2 & Hrun2 & Ho2). exists e2, (o1 ++ o2).
  split; [by apply (run_app _ _ _ _ e1)|]. by rewrite map_app, Ho, Ho2.
Qed.
End pairs.

Definition index_of (tr dm : MsgIndicator) : MsgIndicator :=
  mkMsgIndicator (mi_symbol tr) (getC (ratio (fromC (mi_indicator dm)) (fromC (mi_indicator tr)))) (mi_timestamp tr).

Definition dx_first (pdi mdi : Z) : Z :=
  match DxIndicator.calculate_dx pdi mdi with Ok dx => dx | Fault _ => 0 end.

Definition dx_of (pdi mdi : MsgIndicator) : MsgIndicator :=
  mkMsgIndicator (mi_symbol mdi) (dx_first (mi_indicator pdi) (mi_indicator mdi)) (mi_timestamp mdi).

Lemma ratio_range x y : in_s 64 (getC (ratio x y)).
Proof. unfold ratio. case_match; [by vm_compute|apply i64_range]. Qed.

Lemma calculate_dx_total pdi mdi :
  DxIndicator.calculate_dx pdi mdi = Ok (dx_first pdi mdi) /\ in_s 64 (dx_first pdi mdi).
Proof.
  unfold dx_first, DxIndicator.calculate_dx. destruct (Z.eqb_spec (fixedpt_add pdi mdi) 0) as [|Hs]; cbn [negb].
  - split; [done|by vm_compute].
  - rewrite div_nonzero by done. res_simpl. split; [done|apply i64_range].
Qed.

Lemma meet_same_stamp saved P p q mp mq :
  saved = mkSaved (Some q) P -> P <> NO_PORT -> forall Q, Q <> P ->
  indicator_of p mp -> indicator_of q mq -> mi_timestamp mq = mi_timestamp mp -> meet saved Q p = Ok (Meets q).
Proof.
  intros -> HP Q HQ Hp Hq Ht. unfold meet, compare_tstamps. cbn [sp_port sp_packet].
  rewrite decide_False by congruence. rewrite decide_False by done. cbn [of_option]. res_simpl.
  rewrite (in_decode _ _ Hq). res_simpl. rewrite (in_decode _ _ Hp). res_simpl. by rewrite Ht, Z.ltb_irrefl.
Qed.

Section index_ports.
Context (port_a port_b : Z) (Hports : 0 <= port_a /\ 0 <= port_b /\ port_a <> port_b).

Definition di_live (e : DirectionalIndex.DirectionalIndex) : Prop :=
  DirectionalIndex._active e = true /\ DirectionalIndex._tr_port e = port_a /\ DirectionalIndex._dm_port e = port_b.
Definition dx_live (e : DxIndicator.DxIndicator) : Prop :=
  DxIndicator._active e = true /\ DxIndicator._pdi_port e = port_a /\ DxIndicator._mdi_port e = port_b.

Lemma di_port e is_a :
  di_live e -> DirectionalIndex.detect_packet_port (side_port port_a port_b is_a) e = side TR_PORT DM_PORT is_a.
Proof using Hports.
  intros (_ & Ha & Hb). unfold DirectionalIndex.detect_packet_port. rewrite Ha, Hb.
  rewrite (proj2 (Z.ltb_ge port_a 0)), (proj2 (Z.ltb_ge port_b 0)) by lia. cbn [orb].
  destruct is_a; cbn [side_port side]; rewrite ?Z.eqb_refl; [done|]. by rewrite (proj2 (Z.eqb_neq _ _)) by lia.
Qed.
Lemma dx_port e is_a :
  dx_live e -> DxIndicator.detect_packet_port (side_port port_a port_b is_a) e = side PDI_PORT MDI_PORT is_a.
Proof using Hports.
  intros (_ & Ha & Hb). unfold DxIndicator.detect_packet_port. rewrite Ha, Hb.
  rewrite (proj2 (Z.ltb_ge port_a 0)), (proj2 (Z.ltb_ge port_b 0)) by lia. cbn [orb].
  destruct is_a; cbn [side_port side]; rewrite ?Z.eqb_refl; [|done]. by rewrite (proj2 (Z.eqb_neq _ _)) by lia.
Qed.

Lemma di_waits is_a p m e s :
  di_live e -> indicator_of p m -> meet (DirectionalIndex._saved_packet e) (side TR_PORT DM_PORT is_a) p = Ok (Waits s) ->
  DirectionalIndex.push (side_port port_a port_b is_a) p e = Ok (DirectionalIndex.with_saved s e, []).
Proof using Hports.
  intros He Hp Hm. unfold DirectionalIndex.push. rewrite (di_port _ _ He), (in_type _ _ Hp).
  destruct He as (-> & _). rewrite bool_decide_eq_true_2 by done. cbn [negb].
  rewrite decide_False by (by destruct is_a). by rewrite Hm.
Qed.
Lemma dx_waits is_a p m e s :
  dx_live e -> indicator_of p m -> meet (DxIndicator._saved_packet e) (side PDI_PORT MDI_PORT is_a) p = Ok (Waits s) ->
  DxIndicator.push (side_port port_a port_b is_a) p e = Ok (DxIndicator.with_saved s e, []).
Proof using Hports.
  intros He Hp Hm. unfold DxIndicator.push. rewrite (dx_port _ _ He), (in_type _ _ Hp).
  destruct He as (-> & _). rewrite bool_decide_eq_true_2 by done. cbn [negb].
  rewrite decide_False by (by destruct is_a). by rewrite Hm.
Qed.

Lemma di_meets is_a p m q mq e :
  di_live e -> indicator_of p m -> indicator_of q mq ->
  DirectionalIndex._saved_packet e = mkSaved (Some q) (side TR_PORT DM_PORT (negb is_a)) ->
  mi_timestamp mq = mi_timestamp m ->
  exists o, DirectionalIndex.push (side_port port_a port_b is_a) p e = Ok (DirectionalIndex.with_saved SavedPacket_new e, o) /\
    messages o = [(0, Ok (if is_a then index_of m mq else index_of mq m))].
Proof using Hports.
  intros He Hp Hq Hs Ht. unfold DirectionalIndex.push. rewrite (di_port _ _ He), (in_type _ _ Hp).
  destruct He as (-> & _). rewrite bool_decide_eq_true_2 by done. cbn [negb].
  rewrite decide_False by (by destruct is_a).
  rewrite (meet_same_stamp _ (side TR_PORT DM_PORT (negb is_a)) p q m mq) by (done || by destruct is_a). res_simpl.
  rewrite Hs. cbn [sp_port].
  set (tr := if is_a then m else mq). set (dm := if is_a then mq else m).
  assert (Htr : decode_MsgIndicator (pk_data (if decide (side TR_PORT DM_PORT (negb is_a) = TR_PORT) then q else p)) = Ok tr)
    by (destruct is_a; [apply Hp|apply Hq]).
  assert (Hdm : decode_MsgIndicator (pk_data (if decide (side TR_PORT DM_PORT (negb is_a) = DM_PORT) then q else p)) = Ok dm)
    by (destruct is_a; [apply Hq|apply Hp]).
  rewrite Htr. res_simpl. rewrite Hdm. res_simpl.
  assert (Hdi : (if negb (mi_indicator tr =? 0) then fixedpt_div (mi_indicator dm) (mi_indicator tr) else Ok 0)
                = Ok (mi_indicator (index_of tr dm))).
  { unfold index_of, ratio. cbn [mi_indicator getC fromC _value].
    destruct (Z.eqb_spec (mi_indicator tr) 0); cbn [negb]; [done|]. by rewrite div_nonzero. }
  rewrite Hdi. res_simpl. destruct (decode_MsgIndicator_length _ _ (in_decode _ _ Hp)) as (Hl & _ & _).
  destruct (decode_MsgIndicator_length _ _ Htr) as (_ & Hsym & _).
  assert (Hst : in_u 64 (mi_timestamp tr)) by (destruct is_a; [apply Hp|apply Hq]).
  destruct (publish_Ok 0 p (mi_symbol tr) (mi_indicator (index_of tr dm)) (mi_timestamp tr) Hl Hsym) as (p' & Ho & Hd);
    [apply ratio_range|done|]. rewrite Ho. res_simpl. eexists. split; [done|]. cbn [messages map fst snd]. rewrite Hd.
  by destruct is_a.
Qed.

Lemma dx_meets is_a p m q mq e :
  dx_live e -> indicator_of p m -> indicator_of q mq ->
  DxIndicator._saved_packet e = mkSaved (Some q) (side PDI_PORT MDI_PORT (negb is_a)) ->
  mi_timestamp mq = mi_timestamp m ->
  exists o, DxIndicator.push (side_port port_a port_b is_a) p e = Ok (DxIndicator.with_saved SavedPacket_new e, o) /\
    messages o = [(0, Ok (if is_a then dx_of m mq else dx_of mq m))].
Proof using Hports.
  intros He Hp Hq Hs Ht. unfold DxIndicator.push. rewrite (dx_port _ _ He), (in_type _ _ Hp).
  destruct He as (-> & _). rewrite bool_decide_eq_true_2 by done. cbn [negb].
  rewrite decide_False by (by destruct is_a).
  rewrite (meet_same_stamp _ (side PDI_PORT MDI_PORT (negb is_a)) p q m mq) by (done || by destruct is_a). res_simpl.
  rewrite Hs. cbn [sp_port].
  set (pdi := if is_a then m else mq). set (mdi := if is_a then mq else m).
  assert (Hpd : decode_MsgIndicator (pk_data (if decide (side PDI_PORT MDI_PORT (negb is_a) = PDI_PORT) then q else p)) = Ok pdi)
    by (destruct is_a; [apply Hp|apply Hq]).
  assert (Hmd : decode_MsgIndicator (pk_data (if decide (side PDI_PORT MDI_PORT (negb is_a) = MDI_PORT) then q else p)) = Ok mdi)
    by (destruct is_a; [apply Hq|apply Hp]).
  rewrite Hpd. res_simpl. rewrite Hmd. res_simpl.
  destruct (calculate_dx_total (mi_indicator pdi) (mi_indicator mdi)) as [Hdx Hr]. rewrite Hdx. res_simpl.
  destruct (decode_MsgIndicator_length _ _ (in_decode _ _ Hp)) as (Hl & _ & _).
  destruct (decode_MsgIndicator_length _ _ Hmd) as (_ & Hsym & _).
  assert (Hst : in_u 64 (mi_timestamp mdi)) by (destruct is_a; [apply Hq|apply Hp]).
  destruct (publish_Ok 0 p (mi_symbol mdi) (dx_first (mi_indicator pdi) (mi_indicator mdi)) (mi_timestamp mdi) Hl Hsym Hr Hst)
    as (p' & Ho & Hd). rewrite Ho. res_simpl. eexists. split; [done|]. cbn [messages map fst snd]. rewrite Hd.
  by destruct is_a.
Qed.
End index_ports.

(** ** Packets for the examples *)

Definition demo_symbol (c : Z) : bytes := [c; c; 0; 0; 0; 0; 0; 0; 0; 0].
Definition demo_trade (c price ts : Z) : MsgTrade := mkMsgTrade price 1 (demo_symbol c) ts ts.
Definition trade_packet (m : MsgTrade) : Packet :=
  mkPacket MSG_TRADE (le_encode 8 (mt_price m) ++ le_encode 8 (mt_size m) ++ mt_symbol m ++
                      le_encode 8 (mt_timestamp m) ++ le_encode 8 (mt_src_timestamp m)).
Definition demo_indicator (value ts : Z) : MsgIndicator := mkMsgIndicator (demo_symbol 65) value ts.
Definition indicator_packet (m : MsgIndicator) : Packet := mkPacket MSG_INDICATOR (encode_MsgIndicator m).

(** Two symbols in three intervals of 100 from time 1000. *)
Definition demo_trades : list MsgTrade :=
  [demo_trade 65 50 1000; demo_trade 66 9 1010; demo_trade 65 70 1020; demo_trade 65 60 1110;
   demo_trade 66 4 1120; demo_trade 65 90 1130; demo_trade 65 80 1290].

Definition demo_rounds : list round :=
  [Both true (indicator_packet (demo_indicator (2 ^ 40) 10)) (indicator_packet (demo_indicator (3 * 2 ^ 40) 10));
   Alone true (indicator_packet (demo_indicator (2 ^ 40) 20));
   Both false (indicator_packet (demo_indicator 0 30)) (indicator_packet (demo_indicator (2 ^ 40) 30))].

Lemma demo_rounds_at : rounds_at 0 [10; 20; 30] demo_rounds.
Proof.
  cbn [rounds_at demo_rounds round_at]; unfold stamped_at.
  split_and!; try lia; eexists; (split; [split; [reflexivity|vm_compute; reflexivity|by vm_compute]|reflexivity]).
Qed.

Module FirstGenProps.

(** The two generations of elements compute the same true range.  Their directional
    movements are the same except when the price moved up and down by the same positive
    amount, where the first generation reports neither.  For indices below 16384 the
    two directional movement indices differ by at most 99 units of the last place,
    as the older one multiplies by a hundred after the division. *)
Theorem first_generation_formulas high low close ph pl pdi mdi
  (Hp : 0 <= pdi < 2 ^ 54) (Hm : 0 <= mdi < 2 ^ 54) :
  TrueRange.calculate_true_range high low close =
    getC (NewTrueRange.calculate_tr (fromC low) (fromC high) (fromC close)) /\
  (DirectionalMovement.calculate_dm ph pl high low =
     (getC (Pdm.calculate_pdm (fromC low) (fromC pl) (fromC high) (fromC ph)),
      getC (Ndm.calculate_ndm (fromC low) (fromC pl) (fromC high) (fromC ph))) <->
   ~ (up_move ph high = down_move pl low /\ 0 < up_move ph high)) /\
  exists dx, DxIndicator.calculate_dx pdi mdi = Ok dx /\ Z.abs (getC (dx_value (fromC pdi) (fromC mdi)) - dx) <= 99.
Proof. split; [apply true_range_same|]. split; [apply movements_same|]. by apply dx_same. Qed.

Lemma first_generation_formulas_witness :
  getC (dx_value (fromC 2) (fromC 1)) - dx_first 2 1 = 33 /\
  exists dx, DxIndicator.calculate_dx 2 1 = Ok dx /\ Z.abs (getC (dx_value (fromC 2) (fromC 1)) - dx) <= 99.
Proof. split; [vm_compute; reflexivity|]. apply (first_generation_formulas 0 0 0 0 0 2 1); lia. Defined.

(** C33: With an INTERVAL_LEN above zero (at its default, zero, both divide by it), on any
    sequence of trades from the start of the router on, of any number of symbols padded
    with NULs, neither TrueRange nor DirectionalMovement faults.  A trade makes
    TrueRange send the true range of the highest and lowest price of its symbol in the
    current interval and the last price in the previous interval with trades, and
    nothing while that price is missing or zero.  DirectionalMovement sends the minus
    and the plus movement between the extremes of the two intervals to outputs 0 and
    1, and nothing while those of the previous one are missing or zero.  Range and
    movements are Wilder's, on exact numbers; prices are not negative. *)
Theorem trades_by_interval start len ps ms
  (Hlen : 0 < len) (Hps : Forall2 (trade_of start) ps ms) :
  (exists e outs,
     run (TrueRange.push start 0) ps (fst (TrueRange.configure (Some len) TrueRange.TrueRange_new)) = Ok (e, outs) /\
     map messages outs = answers (trade_event start len) range_expected ms) /\
  (exists e outs,
     run (DirectionalMovement.push start 0) ps
       (fst (DirectionalMovement.configure (Some len) DirectionalMovement.DirectionalMovement_new)) = Ok (e, outs) /\
     map messages outs = answers (trade_event start len) movement_expected ms).
Proof.
  split.
  - destruct (run_answers (TrueRange.push start 0) (trade_of start) (trade_event start len) range_expected
                (range_element len) (range_push start len Hlen) ps ms
                (fst (TrueRange.configure (Some len) TrueRange.TrueRange_new)) Hps) as (e & outs & Hr & _ & Ho); [|by exists e, outs].
    split_and!; [done|done|done|]. by apply table_follows_new.
  - destruct (run_answers (DirectionalMovement.push start 0) (trade_of start) (trade_event start len) movement_expected
                (movement_element len) (movement_push start len Hlen) ps ms
                (fst (DirectionalMovement.configure (Some len) DirectionalMovement.DirectionalMovement_new)) Hps) as (e & outs & Hr & _ & Ho); [|by exists e, outs].
    split_and!; [done|done|done|]. by apply table_follows_new.
Qed.

Lemma trades_by_interval_witness :
  (exists e outs,
     run (TrueRange.push 1000 0) (map trade_packet demo_trades)
       (fst (TrueRange.configure (Some 100) TrueRange.TrueRange_new)) = Ok (e, outs) /\
     map messages outs = answers (trade_event 1000 100) range_expected demo_trades) /\
  answers (trade_event 1000 100) range_expected demo_trades =
    [[]; []; []; [(0, Ok (mkMsgIndicator (demo_symbol 65) 10 1110))];
     [(0, Ok (mkMsgIndicator (demo_symbol 66) 5 1120))]; [(0, Ok (mkMsgIndicator (demo_symbol 65) 30 1130))];
     [(0, Ok (mkMsgIndicator (demo_symbol 65) 10 1290))]].
Proof.
  split; [|vm_compute; reflexivity]. apply (trades_by_interval 1000 100 (map trade_packet demo_trades) demo_trades); [lia|].
  repeat constructor; vm_compute; (reflexivity || discriminate).
Defined.

(** EwmaElement answers every indicator of a run, whatever the padded symbols and intervals,
    with the average over the newest value of every interval of its symbol so far;
    while no average is zero it is the exponential average of the second generation. *)
Theorem interval_averages start len a alpha ps ms
  (Hlen : 0 < len) (Ha : fixedpt_div (i64 (fixedpt_fromint 1)) (i64 (fixedpt_fromint a)) = Ok alpha)
  (Hps : Forall2 (fun p m => indicator_of p m /\ keyable (mi_symbol m)) ps ms) :
  (exists e0 e outs,
     EwmaElement.configure (Some (None, a, len)) EwmaElement.EwmaElement_new = Ok (e0, 0) /\
     run (EwmaElement.push start 0) ps e0 = Ok (e, outs) /\
     map messages outs = answers (indicator_event start len) (average_expected alpha) ms) /\
  forall g, no_zero_average alpha g = true ->
    average alpha g = getC (ewma (fromC alpha) (map (fun i => fromC (newest i.2)) g)).
Proof.
  split; [|apply average_ewma]. cbn [EwmaElement.configure]. rewrite Ha. res_simpl. eexists.
  destruct (run_answers (EwmaElement.push start 0) (fun p m => indicator_of p m /\ keyable (mi_symbol m))
              (indicator_event start len) (average_expected alpha) (average_element alpha len)
              (fun p m e evs H => average_push start len alpha p m e evs Hlen (proj1 H) (proj2 H)) ps ms
              (EwmaElement.mkEwmaElement (HashMap.HashMap_new EwmaElement.EwmaCalculator_new) alpha len true) Hps)
    as (e & outs & Hr & _ & Ho); [|exists e, outs; split; [reflexivity|split; [exact Hr|exact Ho]]].
  split_and!; [done|done|done|]. by apply table_follows_new.
Qed.

Lemma interval_averages_witness :
  (exists e0 e outs,
     EwmaElement.configure (Some (None, 2, 100)) EwmaElement.EwmaElement_new = Ok (e0, 0) /\
     run (EwmaElement.push 0 0) (map indicator_packet [demo_indicator 8 10; demo_indicator 6 20; demo_indicator 10 110]) e0
       = Ok (e, outs) /\
     map messages outs = answers (indicator_event 0 100) (average_expected (2 ^ 39))
                           [demo_indicator 8 10; demo_indicator 6 20; demo_indicator 10 110]) /\
  answers (indicator_event 0 100) (average_expected (2 ^ 39)) [demo_indicator 8 10; demo_indicator 6 20; demo_indicator 10 110] =
    [[(0, Ok (demo_indicator 8 10))]; [(0, Ok (demo_indicator 6 20))]; [(0, Ok (demo_indicator 8 110))]].
Proof.
  split; [|vm_compute; reflexivity].
  apply (interval_averages 0 100 2 (2 ^ 39) (map indicator_packet [demo_indicator 8 10; demo_indicator 6 20; demo_indicator 10 110])
           [demo_indicator 8 10; demo_indicator 6 20; demo_indicator 10 110]); [lia|vm_compute; reflexivity|].
  repeat constructor; vm_compute; (reflexivity || discriminate).
Defined.

(** DirectionalIndex and DxIndicator pair the packets of their two inputs by time
    stamp: when rounds come later and later, each with both packets in either order or
    with one of them, they never fault and answer every complete round at its second
    packet with the quotient of the movement and the true range, or with the
    directional movement index, and never answer an incomplete round. *)
Theorem rounds_paired port_a port_b last ts rs
  (Hports : 0 <= port_a /\ 0 <= port_b /\ port_a <> port_b) (Hrs : rounds_at last ts rs) :
  (exists e outs,
     run (fun i => DirectionalIndex.push i.1 i.2) (concat (map (inputs port_a port_b) rs))
       (fst (DirectionalIndex.configure (Some (None, port_a, port_b)) DirectionalIndex.DirectionalIndex_new)) = Ok (e, outs) /\
     map messages outs = concat (map (round_answers index_of) rs)) /\
  (exists e outs,
     run (fun i => DxIndicator.push i.1 i.2) (concat (map (inputs port_a port_b) rs))
       (fst (DxIndicator.configure (Some (None, port_a, port_b)) DxIndicator.DxIndicator_new)) = Ok (e, outs) /\
     map messages outs = concat (map (round_answers dx_of) rs)).
Proof.
  split.
  - apply (rounds_run (fun i => DirectionalIndex.push i.1 i.2) DirectionalIndex._saved_packet DirectionalIndex.with_saved
             (di_live port_a port_b) TR_PORT DM_PORT) with (ts := ts) (last := last);
      [done|done|done|by apply di_waits|by apply di_meets|done|done|by left].
  - apply (rounds_run (fun i => DxIndicator.push i.1 i.2) DxIndicator._saved_packet DxIndicator.with_saved
             (dx_live port_a port_b) PDI_PORT MDI_PORT) with (ts := ts) (last := last);
      [done|done|done|by apply dx_waits|by apply dx_meets|done|done|by left].
Qed.

Lemma rounds_paired_witness :
  (exists e outs,
     run (fun i => DirectionalIndex.push i.1 i.2) (concat (map (inputs 0 1) demo_rounds))
       (fst (DirectionalIndex.configure (Some (None, 0, 1)) DirectionalIndex.DirectionalIndex_new)) = Ok (e, outs) /\
     map messages outs = concat (map (round_answers index_of) demo_rounds)) /\
  concat (map (round_answers index_of) demo_rounds) =
    [[]; [(0, Ok (demo_indicator (3 * 2 ^ 40) 10))]; []; []; [(0, Ok (demo_indicator 0 30))]].
Proof.
  split; [|vm_compute; reflexivity]. apply (rounds_paired 0 1 0 [10; 20; 30] demo_rounds); [lia|apply demo_rounds_at].
Defined.

End FirstGenProps.
