(* ===== verification/HandCoded.v ===== *)
(** * HandCoded: the monolithic indicators of the baseline

    Models hand_coded/fixedpt_cpp.{h,cc} (a [FixedPt] without the validity flag,
    hence a bare [Z]), hand_coded/ewma.cpp, trix.cpp, dmi.cpp, vortex.cpp and
    common.h.  An indicator is a state; [calculate_value] returns the new state
    and the value, and only an ADD changes what later values are computed from
    -- with the exceptions the code has: the first value seen initialises an
    average or a sum whatever its type.  Debug output is not modelled. *)

From S2P Require Import Prelude FixedPt CircArray.
Import CircArray CircArrayFacts.

(** [class FixedPt] of the baseline and its free operators. *)
Module Fx.
Import fixedptc.
Definition fromInt (value : Z) : Z := i64 (fixedpt_fromint value).
Definition fromC (value : Z) : Z := value.
Definition getC (f : Z) : Z := f.
Definition add (a b : Z) : Z := fixedpt_add a b.
Definition sub (a b : Z) : Z := fixedpt_sub a b.
Definition mul (a b : Z) : Z := fixedpt_mul a b.
Definition div (a b : Z) : res Z := fixedpt_div a b.
Definition int_add (lhs rhs : Z) : Z := add (fromInt lhs) rhs.
Definition int_sub (lhs rhs : Z) : Z := sub (fromInt lhs) rhs.
Definition int_mul (lhs rhs : Z) : Z := mul (fromInt lhs) rhs.
Definition gt (lhs rhs : Z) : bool := getC rhs <? getC lhs.
Definition lt (lhs rhs : Z) : bool := getC lhs <? getC rhs.
Definition abs (value : Z) : Z := if getC value <? 0 then fromC (i64 (- getC value)) else value.
(** [SynapseHC::max] *)
Definition max (a b : Z) : Z := if gt a b then a else b.
End Fx.

Inductive UpdateType := ADD | UPDATE.

#[global] Instance UpdateType_eq_dec : EqDecision UpdateType.
Proof. solve_decision. Defined.

(** [2 / (ewma_periods + 1)], as both constructors below compute it. *)
Definition alfa_of_periods (ewma_periods : Z) : res Z :=
  Fx.div (Fx.fromInt 2) (Fx.add (Fx.fromInt ewma_periods) (Fx.fromInt 1)).

Module EwmaHc.

Record EwmaHc := mkEwmaHc { _initialized : bool; _last_value : Z; _alfa : Z }.

Definition EwmaHc_new : EwmaHc := mkEwmaHc false (Fx.fromInt 0) (Fx.fromInt 0).
Definition set_alfa (alfa : Z) (e : EwmaHc) : EwmaHc := mkEwmaHc (_initialized e) (_last_value e) alfa.
Definition set_last_value (value : Z) (e : EwmaHc) : EwmaHc := mkEwmaHc true value (_alfa e).
Definition get_last_value (e : EwmaHc) : Z := _last_value e.

Definition calculate_new_value (update : Z) (e : EwmaHc) : EwmaHc * Z :=
  if negb (_initialized e) then (mkEwmaHc true update (_alfa e), update)
  else (e, Fx.add (Fx.mul (Fx.int_sub 1 (_alfa e)) update) (Fx.mul (_alfa e) (_last_value e))).

End EwmaHc.

Module TrixHc.
Import EwmaHc.

Record Trix := mkTrix { _ewma_1 : EwmaHc; _ewma_2 : EwmaHc; _ewma_3 : EwmaHc }.

Definition Trix_new (ewma_periods : Z) : res Trix :=
  let* alfa := alfa_of_periods ewma_periods in
  Ok (mkTrix (set_alfa alfa EwmaHc_new) (set_alfa alfa EwmaHc_new) (set_alfa alfa EwmaHc_new)).

Definition initialize (update : Z) (t : Trix) : Trix :=
  mkTrix (set_last_value update (_ewma_1 t)) (set_last_value update (_ewma_2 t))
    (set_last_value update (_ewma_3 t)).

Definition calculate_value (update : Z) (update_type : UpdateType) (t : Trix) : res (Trix * Z) :=
  let '(e1, ewma_1) := calculate_new_value update (_ewma_1 t) in
  let '(e2, ewma_2) := calculate_new_value ewma_1 (_ewma_2 t) in
  let '(e3, ewma_3) := calculate_new_value ewma_2 (_ewma_3 t) in
  let last_ewma_3 := get_last_value e3 in
  let* q := Fx.div (Fx.sub ewma_3 last_ewma_3) last_ewma_3 in
  let result := Fx.int_mul 100 q in
  let t :=
    match update_type with
    | ADD => mkTrix (set_last_value ewma_1 e1) (set_last_value ewma_2 e2) (set_last_value ewma_3 e3)
    | UPDATE => mkTrix e1 e2 e3
    end in
  Ok (t, result).

End TrixHc.

Module Dmi.
Import EwmaHc.

Record Dmi := mkDmi {
  _prev_close : Z;
  _prev_high : Z;
  _prev_low : Z;
  _ewma_pdm : EwmaHc;
  _ewma_ndm : EwmaHc;
  _ewma_tr : EwmaHc;
  _ewma_dx : EwmaHc
}.

Definition calculate_pdm (update_high update_low : Z) (d : Dmi) : Z :=
  if Fx.lt (Fx.sub update_high (_prev_high d)) (Fx.sub (_prev_low d) update_low) then Fx.fromInt 0
  else if Fx.lt (Fx.sub update_high (_prev_high d)) (Fx.fromInt 0) then Fx.fromInt 0
  else Fx.sub update_high (_prev_high d).

Definition calculate_ndm (update_high update_low : Z) (d : Dmi) : Z :=
  if Fx.lt (Fx.sub (_prev_low d) update_low) (Fx.sub update_high (_prev_high d)) then Fx.fromInt 0
  else if Fx.lt (Fx.sub (_prev_low d) update_low) (Fx.fromInt 0) then Fx.fromInt 0
  else Fx.sub (_prev_low d) update_low.

Definition calculate_tr (update_close update_high update_low : Z) (d : Dmi) : Z :=
  Fx.max (Fx.sub (_prev_close d) update_low)
    (Fx.max (Fx.sub update_high update_low) (Fx.sub update_high (_prev_close d))).

Definition Dmi_new (ewma_periods : Z) : res Dmi :=
  let* alfa := alfa_of_periods ewma_periods in
  let e := set_alfa alfa EwmaHc_new in
  Ok (mkDmi 0 0 0 e e e e).

(** The function is declared [bool] but has no [return]; its caller ignores
    the value. *)
Definition initialize (update_close update_high update_low : Z) (d : Dmi) : Dmi :=
  mkDmi update_close update_high update_low (_ewma_pdm d) (_ewma_ndm d) (_ewma_tr d) (_ewma_dx d).

Definition calculate_value (update_close update_high update_low : Z) (update_type : UpdateType)
    (d : Dmi) : res (Dmi * Z) :=
  let pdm := calculate_pdm update_high update_low d in
  let ndm := calculate_ndm update_high update_low d in
  let tr := calculate_tr update_close update_high update_low d in
  let '(e_pdm, pdm_smoothed) := calculate_new_value pdm (_ewma_pdm d) in
  let '(e_ndm, ndm_smoothed) := calculate_new_value ndm (_ewma_ndm d) in
  let '(e_tr, tr_smoothed) := calculate_new_value tr (_ewma_tr d) in
  let d := mkDmi (_prev_close d) (_prev_high d) (_prev_low d) e_pdm e_ndm e_tr (_ewma_dx d) in
  let* pdi := Fx.div pdm_smoothed tr_smoothed in
  let* ndi := Fx.div ndm_smoothed tr_smoothed in
  if Fx.getC (Fx.add pdi ndi) =? 0 then Ok (d, Fx.fromInt 0)
  else
    let* dx := Fx.div (Fx.int_mul 100 (Fx.abs (Fx.sub pdi ndi))) (Fx.add pdi ndi) in
    let '(e_dx, result) := calculate_new_value dx (_ewma_dx d) in
    let d :=
      match update_type with
      | ADD =>
          mkDmi update_close update_high update_low
            (set_last_value pdm_smoothed e_pdm) (set_last_value ndm_smoothed e_ndm)
            (set_last_value tr_smoothed e_tr) (set_last_value result e_dx)
      | UPDATE => mkDmi (_prev_close d) (_prev_high d) (_prev_low d) e_pdm e_ndm e_tr e_dx
      end in
    Ok (d, result).

End Dmi.

Module SumRingBuffer.

Record SumRingBuffer := mkSumRing { _ring_buffer : CircArray Z; _last_sum : Z; _initialized : bool }.

Definition SumRingBuffer_new (capacity : nat) : SumRingBuffer :=
  mkSumRing (CircArray_new capacity) 0 false.
Definition get_total_sum (s : SumRingBuffer) : Z := _last_sum s.
Definition is_initialized (s : SumRingBuffer) : bool := _initialized s.

(** [_last_sum = _last_sum + _ring_buffer[i]] for [n] indices from [i]. *)
Fixpoint sum_loop (n i : nat) (rb : CircArray Z) (last_sum : Z) : res Z :=
  match n with
  | O => Ok last_sum
  | S n => let* v := get rb i in sum_loop n (S i) rb (Fx.add last_sum v)
  end.

Definition push_back_new_value (new_value : Z) (s : SumRingBuffer) : res SumRingBuffer :=
  let* r := push_back (_ring_buffer s) new_value true in
  let* last_sum := sum_loop (occupancy r.1) 0 r.1 (Fx.fromInt 0) in
  Ok (mkSumRing r.1 last_sum true).

End SumRingBuffer.

Module Vortex.
Import SumRingBuffer.

Record Vortex := mkVortex {
  _prev_close : Z;
  _prev_high : Z;
  _prev_low : Z;
  _vmu_sum : SumRingBuffer;
  _vmd_sum : SumRingBuffer;
  _tr_sum : SumRingBuffer
}.

(** [sum_len - 1] wraps around for [0], and the allocation throws. *)
Definition Vortex_new (sum_len : nat) : res Vortex :=
  match sum_len with
  | O => Fault BadAlloc
  | S n => Ok (mkVortex 0 0 0 (SumRingBuffer_new n) (SumRingBuffer_new n) (SumRingBuffer_new n))
  end.

Definition initialize (update_close update_high update_low : Z) (v : Vortex) : Vortex :=
  mkVortex update_close update_high update_low (_vmu_sum v) (_vmd_sum v) (_tr_sum v).

Definition push_sums (vmu vmd tr : Z) (v : Vortex) : res Vortex :=
  let* su := push_back_new_value vmu (_vmu_sum v) in
  let* sd := push_back_new_value vmd (_vmd_sum v) in
  let* st := push_back_new_value tr (_tr_sum v) in
  Ok (mkVortex (_prev_close v) (_prev_high v) (_prev_low v) su sd st).

Definition calculate_value (update_close update_high update_low : Z) (update_type : UpdateType)
    (v : Vortex) : res (Vortex * (Z * Z)) :=
  let vmu := Fx.abs (Fx.sub update_high (_prev_low v)) in
  let vmd := Fx.abs (Fx.sub update_low (_prev_high v)) in
  let tr := Fx.max (Fx.sub (_prev_close v) update_low)
              (Fx.max (Fx.sub update_high update_low) (Fx.sub update_high (_prev_close v))) in
  let* v :=
    if bool_decide (update_type = UPDATE) && negb (is_initialized (_vmu_sum v))
    then push_sums vmu vmd tr v else Ok v in
  let vmu_total := get_total_sum (_vmu_sum v) in
  let vmd_total := get_total_sum (_vmd_sum v) in
  let tr_total := get_total_sum (_tr_sum v) in
  let* viu := Fx.div (Fx.add vmu_total vmu) (Fx.add tr_total tr) in
  let* vid := Fx.div (Fx.add vmd_total vmd) (Fx.add tr_total tr) in
  let* v :=
    match update_type with
    | ADD =>
        let* v := push_sums vmu vmd tr v in
        Ok (mkVortex update_close update_high update_low (_vmu_sum v) (_vmd_sum v) (_tr_sum v))
    | UPDATE => Ok v
    end in
  Ok (v, (viu, vid)).

End Vortex.
