(* ===== verification/AdLine.v ===== *)
(** * AdLine: the advance/decline line and the running statistics

    Models hand_coded/ad_line.{h,cpp} -- one tick per symbol ([ADLineTick]) and
    the singleton that counts the rising and falling symbols ([ADLine]) -- and
    hand_coded/running_stat.{hh,cc}.  A symbol is its ten-byte array; two symbols
    are the same key when [strcmp] says so, which for zero-padded arrays is
    equality. *)

From stdpp Require Import gmap fin_maps.
From S2P Require Import Prelude FixedPt HandCoded.

Inductive Tick := UP | DOWN | FLAT.

#[global] Instance Tick_eq_dec : EqDecision Tick.
Proof. solve_decision. Defined.

Module ADLine.

Record ADLine := mkADLine { _tick_map : gmap (list Z) Tick; _total_up : Z; _total_down : Z }.

Definition ADLine_new : ADLine := mkADLine ∅ 0 0.

(** [unsigned] counters. *)
Definition incr (n : Z) : Z := u32 (n + 1).
Definition decr (n : Z) : Z := u32 (n - 1).

(** [int(_total_up) - int(_total_down)] *)
Definition difference (up down : Z) : Z := i32 (i32 up - i32 down).

(** The nested switches: previous tick, new tick.  The case FLAT to DOWN falls
    through to FLAT to FLAT, which does nothing. *)
Definition transition (current_tick tick : Tick) (up down : Z) : Z * Z :=
  match current_tick, tick with
  | UP, UP => (up, down)
  | UP, DOWN => (decr up, incr down)
  | UP, FLAT => (decr up, down)
  | DOWN, UP => (incr up, decr down)
  | DOWN, DOWN => (up, down)
  | DOWN, FLAT => (up, decr down)
  | FLAT, UP => (incr up, down)
  | FLAT, DOWN => (up, incr down)
  | FLAT, FLAT => (up, down)
  end.

Definition calculate_value (tick : Tick) (symbol : list Z) (a : ADLine) : ADLine * Z :=
  let '(up, down) :=
    match _tick_map a !! symbol with
    | None =>
        match tick with
        | UP => (incr (_total_up a), _total_down a)
        | DOWN => (_total_up a, incr (_total_down a))
        | FLAT => (_total_up a, _total_down a)
        end
    | Some current_tick => transition current_tick tick (_total_up a) (_total_down a)
    end in
  (mkADLine (<[symbol := tick]> (_tick_map a)) up down, difference up down).

(** A sequence of calls, with the last value returned. *)
Definition run (calls : list (list Z * Tick)) (a : ADLine) : ADLine * Z :=
  fold_left (fun s c => calculate_value c.2 c.1 s.1) calls (a, 0).

End ADLine.

Module ADLineTick.

Record ADLineTick := mkADLineTick { _prev_close : Z; _symbol : list Z }.

Definition ADLineTick_new (symbol : list Z) : ADLineTick := mkADLineTick 0 symbol.
Definition initialize (close : Z) (t : ADLineTick) : ADLineTick := mkADLineTick close (_symbol t).

Definition tick_of (diff : Z) : Tick :=
  if Fx.gt diff (Fx.fromInt 0) then UP else if Fx.lt diff (Fx.fromInt 0) then DOWN else FLAT.

(** [printf ("ad_line is %s\n", rv)]: the integer is read as the address of a
    string.  The null address prints as text; no other small integer is an
    address. *)
Definition print_as_string (rv : Z) : res unit := if rv =? 0 then Ok tt else Fault NullDeref.

(** The singleton [ADLine::get_instance ()] is passed along. *)
Definition calculate_value (close : Z) (update_type : UpdateType) (t : ADLineTick) (line : ADLine.ADLine)
  : res (ADLineTick * ADLine.ADLine * Z) :=
  let diff := Fx.sub close (_prev_close t) in
  let result := tick_of diff in
  let t := match update_type with ADD => mkADLineTick close (_symbol t) | UPDATE => t end in
  let '(line, rv) := ADLine.calculate_value result (_symbol t) line in
  let* _ := print_as_string rv in
  Ok (t, line, Fx.fromInt rv).

End ADLineTick.

Module RunningStat.

Record Stats := mkStats {
  _N : Z;
  _aggregate_cycles : Z;
  _highest : Z;
  _lowest : Z;
  _s1 : Z;
  _s2 : Z
}.
Definition Stats_new : Stats := mkStats 0 0 0 0 0 0.

Definition update_counter (value : Z) (s : Stats) : Stats :=
  mkStats (u32 (_N s + 1))
    (u64 (_aggregate_cycles s + value))
    (if _highest s <? value then value else _highest s)
    (if _lowest s =? 0 then value else if value <? _lowest s then value else _lowest s)
    (u64 (_s1 s + value))
    (u64 (_s2 s + u64 (value * value))).

Definition run (values : list Z) (s : Stats) : Stats := fold_left (fun s v => update_counter v s) values s.

End RunningStat.

(** ** The totals count the symbols *)

Definition count (t : Tick) (m : gmap (list Z) Tick) : nat := size (filter (fun kv => kv.2 = t) m).

Section count.
Implicit Types m : gmap (list Z) Tick.

Lemma count_insert_new t m k x :
  m !! k = None -> count t (<[k := x]> m) = (count t m + if decide (x = t) then 1 else 0)%nat.
Proof.
  intros Hk. unfold count. destruct (decide (x = t)) as [->|Hne].
  - rewrite map_filter_insert_True by done. rewrite map_size_insert_None; [lia|].
    apply map_lookup_filter_None. by left.
  - rewrite map_filter_insert_False by done. rewrite delete_id by done. lia.
Qed.

Lemma count_delete t m k y :
  m !! k = Some y -> count t m = (count t (delete k m) + if decide (y = t) then 1 else 0)%nat.
Proof.
  intros Hk. rewrite <- (insert_delete_id m k y) at 1 by done.
  apply count_insert_new. apply lookup_delete_eq.
Qed.

Lemma count_insert_old t m k x y :
  m !! k = Some y ->
  (count t (<[k := x]> m) + (if decide (y = t) then 1 else 0) =
   count t m + if decide (x = t) then 1 else 0)%nat.
Proof.
  intros Hk. rewrite (count_delete t m k y Hk). rewrite <- insert_delete_eq.
  rewrite count_insert_new by apply lookup_delete_eq. lia.
Qed.
End count.

(** The counters are the counts, modulo the width of [unsigned]. *)
Definition line_inv (a : ADLine.ADLine) : Prop :=
  ADLine._total_up a = u32 (Z.of_nat (count UP (ADLine._tick_map a))) /\
  ADLine._total_down a = u32 (Z.of_nat (count DOWN (ADLine._tick_map a))).

Lemma incr_u32 n : ADLine.incr (u32 n) = u32 (n + 1).
Proof. unfold ADLine.incr, u32, uwrap. by rewrite Zplus_mod_idemp_l. Qed.
Lemma decr_u32 n : ADLine.decr (u32 n) = u32 (n - 1).
Proof. unfold ADLine.decr, u32, uwrap. by rewrite Zminus_mod_idemp_l. Qed.

Lemma line_inv_step tick symbol a :
  line_inv a -> line_inv (ADLine.calculate_value tick symbol a).1.
Proof.
  intros [Hu Hd]. unfold ADLine.calculate_value, line_inv.
  destruct (ADLine._tick_map a !! symbol) as [cur|] eqn:Ek.
  - pose proof (count_insert_old UP _ symbol tick cur Ek) as Cu.
    pose proof (count_insert_old DOWN _ symbol tick cur Ek) as Cd.
    destruct cur, tick; simpl in *; rewrite Hu, Hd, ?incr_u32, ?decr_u32;
      split; f_equal; lia.
  - pose proof (count_insert_new UP _ symbol tick Ek) as Cu.
    pose proof (count_insert_new DOWN _ symbol tick Ek) as Cd.
    destruct tick; simpl in *; rewrite Hu, Hd, ?incr_u32; split; f_equal; lia.
Qed.

Lemma step_result tick symbol a :
  line_inv a -> let a' := (ADLine.calculate_value tick symbol a).1 in
  Z.of_nat (count UP (ADLine._tick_map a')) < 2 ^ 31 ->
  Z.of_nat (count DOWN (ADLine._tick_map a')) < 2 ^ 31 ->
  (ADLine.calculate_value tick symbol a).2 =
    Z.of_nat (count UP (ADLine._tick_map a')) - Z.of_nat (count DOWN (ADLine._tick_map a')).
Proof.
  intros Hinv a' Hu Hd. pose proof (line_inv_step tick symbol a Hinv) as [Eu Ed]. fold a' in Eu, Ed.
  assert (E : (ADLine.calculate_value tick symbol a).2 =
              ADLine.difference (ADLine._total_up a') (ADLine._total_down a')).
  { subst a'. unfold ADLine.calculate_value.
    by destruct (ADLine._tick_map a !! symbol) as [[]|], tick. }
  rewrite E, Eu, Ed. unfold ADLine.difference, u32, i32. rewrite !uwrap_id by zrange.
  rewrite (swrap_id 32 ltac:(lia) (Z.of_nat (count UP _))),
    (swrap_id 32 ltac:(lia) (Z.of_nat (count DOWN _))) by zrange.
  apply swrap_id; [lia|]. zrange.
Qed.

Lemma run_snoc calls c a :
  ADLine.run (calls ++ [c]) a = ADLine.calculate_value c.2 c.1 (ADLine.run calls a).1.
Proof. unfold ADLine.run. by rewrite fold_left_app. Qed.

Lemma run_inv calls : line_inv (ADLine.run calls ADLine.ADLine_new).1.
Proof.
  induction calls as [|c calls IH] using rev_ind; [by split|]. rewrite run_snoc. by apply line_inv_step.
Qed.

(** The latest tick of every symbol. *)
Definition latest (calls : list (list Z * Tick)) : gmap (list Z) Tick :=
  fold_left (fun m c => <[c.1 := c.2]> m) calls ∅.

Lemma run_map calls : ADLine._tick_map (ADLine.run calls ADLine.ADLine_new).1 = latest calls.
Proof.
  induction calls as [|c calls IH] using rev_ind; [done|]. rewrite run_snoc. unfold latest.
  rewrite fold_left_app. simpl. fold (latest calls). rewrite <- IH. unfold ADLine.calculate_value.
  by destruct (_ !! c.1) as [[]|], c.2.
Qed.

Lemma latest_size calls : (size (latest calls) <= length calls)%nat.
Proof.
  induction calls as [|c calls IH] using rev_ind; [done|]. unfold latest. rewrite fold_left_app. simpl.
  fold (latest calls). rewrite length_app. simpl.
  pose proof (map_size_insert c.1 c.2 (latest calls)) as Hs.
  destruct (latest calls !! c.1); simpl in Hs; lia.
Qed.

Lemma count_size t m : (count t m <= size m)%nat.
Proof. unfold count. apply map_subseteq_size, map_filter_subseteq. Qed.

Module AdLineProps.

(** After any sequence of ticks (fewer than 2^31 of them) the advance/decline
    line returns the number of symbols whose latest tick is UP minus the number
    whose latest tick is DOWN. *)
Theorem ad_line_counts calls symbol tick
  (Hlen : Z.of_nat (length calls) + 1 < 2 ^ 31) :
  (ADLine.run (calls ++ [(symbol, tick)]) ADLine.ADLine_new).2 =
    Z.of_nat (count UP (latest (calls ++ [(symbol, tick)]))) -
    Z.of_nat (count DOWN (latest (calls ++ [(symbol, tick)]))).
Proof.
  rewrite run_snoc, <- run_map, run_snoc. cbn [fst snd].
  assert (Hb : forall t, Z.of_nat (count t (ADLine._tick_map
    (ADLine.calculate_value tick symbol (ADLine.run calls ADLine.ADLine_new).1).1)) < 2 ^ 31).
  { intros t. pose proof (run_map (calls ++ [(symbol, tick)])) as Em. rewrite run_snoc in Em.
    cbn [fst snd] in Em. rewrite Em. pose proof (latest_size (calls ++ [(symbol, tick)])) as Hs.
    pose proof (count_size t (latest (calls ++ [(symbol, tick)]))). rewrite length_app in Hs.
    simpl in Hs. lia. }
  apply step_result; [apply run_inv|apply Hb..].
Qed.

Lemma ad_line_counts_witness :
  (ADLine.run ([([65], UP); ([66], DOWN); ([65], UP); ([67], UP)] ++ [([66], FLAT)]) ADLine.ADLine_new).2 = 2.
Proof.
  rewrite (ad_line_counts [([65], UP); ([66], DOWN); ([65], UP); ([67], UP)] [66] FLAT);
    [vm_compute; reflexivity|simpl; lia].
Defined.

(** Printing the line crashes unless it is zero: [ADLineTick::calculate_value]
    passes the integer to a [%s] conversion, so the first tick that makes the
    number of rising and falling symbols differ ends the program. *)
Theorem ad_line_tick_print_fault close update_type t line line' rv
  (Hcalc : ADLine.calculate_value (ADLineTick.tick_of (Fx.sub close (ADLineTick._prev_close t)))
             (ADLineTick._symbol t) line = (line', rv)) :
  ADLineTick.calculate_value close update_type t line =
    if rv =? 0
    then Ok (match update_type with
             | ADD => ADLineTick.mkADLineTick close (ADLineTick._symbol t)
             | UPDATE => t end, line', Fx.fromInt 0)
    else Fault NullDeref.
Proof.
  unfold ADLineTick.calculate_value, ADLineTick.print_as_string.
  destruct update_type; cbn [ADLineTick._symbol]; rewrite Hcalc;
    destruct (Z.eqb_spec rv 0) as [->|]; done.
Qed.

Lemma ad_line_tick_print_fault_witness :
  ADLineTick.calculate_value 5 UPDATE (ADLineTick.mkADLineTick 3 [65]) ADLine.ADLine_new = Fault NullDeref.
Proof.
  rewrite (ad_line_tick_print_fault 5 UPDATE (ADLineTick.mkADLineTick 3 [65]) ADLine.ADLine_new
             (ADLine.mkADLine (<[[65] := UP]> ∅) 1 0) 1); [reflexivity|vm_compute; reflexivity].
Defined.

(** The statistics of a list of positive measurements. *)
Definition stats_of (values : list Z) : RunningStat.Stats :=
  RunningStat.mkStats (Z.of_nat (length values)) (foldr Z.add 0 values) (foldr Z.max 0 values)
    (match values with [] => 0 | v :: values => fold_left Z.min values v end)
    (foldr Z.add 0 values) (foldr Z.add 0 (map (fun v => v * v) values)).

Lemma foldr_add_snoc l x : foldr Z.add 0 (l ++ [x]) = foldr Z.add 0 l + x.
Proof. induction l as [|y l IH]; simpl; [lia|]. rewrite IH. lia. Qed.

Lemma foldr_max_snoc l x : 0 <= x -> foldr Z.max 0 (l ++ [x]) = Z.max (foldr Z.max 0 l) x.
Proof. intros Hx. induction l as [|y l IH]; simpl; [lia|]. rewrite IH. lia. Qed.

Lemma foldr_add_nonneg l : Forall (fun v => 0 <= v) l -> 0 <= foldr Z.add 0 l.
Proof. induction 1; simpl; lia. Qed.

Lemma fold_min_pos l x : 0 < x -> Forall (fun v => 0 < v) l -> 0 < fold_left Z.min l x.
Proof. intros Hx Hl. revert x Hx. induction Hl; intros x0 Hx0; simpl; [done|]. apply IHHl. lia. Qed.

(** The running statistics of positive cycle counts are the exact count,
    sum, sum of squares, maximum and minimum, as long as these fit their
    unsigned words. *)
Theorem running_stat_spec values
  (Hpos : Forall (fun v => 0 < v) values)
  (HN : Z.of_nat (length values) < 2 ^ 32)
  (Hs2 : foldr Z.add 0 (map (fun v => v * v) values) < 2 ^ 64) :
  RunningStat.run values RunningStat.Stats_new = stats_of values.
Proof.
  induction values as [|v values IH] using rev_ind; [done|].
  rewrite length_app in HN. rewrite map_app in Hs2. simpl in HN, Hs2. rewrite foldr_add_snoc in Hs2.
  apply Forall_app in Hpos as [Hpos Hv]. rewrite Forall_singleton in Hv.
  assert (Hnn : 0 <= foldr Z.add 0 (map (fun v => v * v) values)).
  { apply foldr_add_nonneg, Forall_map. eapply Forall_impl; [exact Hpos|]. simpl. nia. }
  assert (Hle : 0 <= foldr Z.add 0 values <= foldr Z.add 0 (map (fun v => v * v) values)).
  { clear -Hpos. induction Hpos; simpl; [lia|]. nia. }
  unfold RunningStat.run in *. rewrite fold_left_app. cbn [fold_left]. rewrite IH by (done || lia || nia).
  unfold RunningStat.update_counter, stats_of, u32, u64. cbn -[Z.mul].
  rewrite length_app, !map_app, !foldr_add_snoc, foldr_max_snoc by lia. cbn [map length].
  rewrite foldr_add_snoc.
  set (S2 := foldr Z.add 0 (map _ values)) in *. set (S1 := foldr Z.add 0 values) in *.
  assert (Hvv : v <= v * v) by nia. rewrite (uwrap_id 64 (v * v)) by (unfold in_u; lia).
  rewrite (uwrap_id 64 (S1 + v)), (uwrap_id 64 (S2 + v * v)), (uwrap_id 32) by (unfold in_u; lia).
  f_equal.
  - lia.
  - destruct (Z.ltb_spec (foldr Z.max 0 values) v); lia.
  - destruct values as [|w values]; [done|]. apply Forall_cons in Hpos as [Hw Hpos]. simpl.
    rewrite fold_left_app. simpl. pose proof (fold_min_pos values w Hw Hpos).
    rewrite (proj2 (Z.eqb_neq _ _)) by lia. destruct (Z.ltb_spec v (fold_left Z.min values w)); lia.
Qed.

Lemma running_stat_spec_witness :
  RunningStat.run [7; 3; 9] RunningStat.Stats_new = RunningStat.mkStats 3 19 9 3 19 139.
Proof.
  rewrite (running_stat_spec [7; 3; 9]); [reflexivity|repeat constructor; lia|simpl; lia|simpl; lia].
Defined.

(** A measurement of zero is lost from the minimum: [_lowest == 0] also
    means that nothing was recorded yet, so a zero is overwritten by the next
    value, whatever was recorded before. *)
Theorem running_stat_zero_lost s w (Hs : 0 <= RunningStat._lowest s) :
  RunningStat._lowest (RunningStat.update_counter w (RunningStat.update_counter 0 s)) = w.
Proof.
  unfold RunningStat.update_counter. cbn [RunningStat._lowest].
  assert ((if RunningStat._lowest s =? 0 then 0
           else if 0 <? RunningStat._lowest s then 0 else RunningStat._lowest s) = 0) as ->; [|done].
  destruct (Z.eqb_spec (RunningStat._lowest s) 0); [done|].
  destruct (Z.ltb_spec 0 (RunningStat._lowest s)); [done|lia].
Qed.

Lemma running_stat_zero_lost_witness :
  RunningStat._lowest (RunningStat.run [3; 0; 5] RunningStat.Stats_new) = 5.
Proof.
  apply (running_stat_zero_lost (RunningStat.run [3] RunningStat.Stats_new) 5). vm_compute. discriminate.
Defined.

End AdLineProps.
