(* ===== verification/Parsing.v ===== *)
(** * Parsing: trade messages

    Models hand_coded/msg_parsing.h and its copy in
    click-2.0.1/elements/standard/trade_processor.cc: prices with an optional
    fraction, and the scan of a market-data message
    [time|delta|symbol|price|size] behind an eight-byte timestamp (and, in
    Click, behind the Ethernet, IP and UDP headers).

    [strtol] and [strncpy] are modelled on NUL-terminated byte lists; reading past
    the end of a list is an out-of-bounds access. *)

From S2P Require Import Prelude FixedPt Messages.
Import fixedptc.

(** ** The C library functions used *)

Definition is_space (c : byte) : bool := (c =? 32) || ((9 <=? c) && (c <=? 13)).
Definition is_dec (c : byte) : bool := (48 <=? c) && (c <=? 57).

(** [LONG_MIN] and [LONG_MAX] bound the result. *)
Definition clamp_long (z : Z) : Z := Z.max (- 2 ^ 63) (Z.min (2 ^ 63 - 1) z).

Fixpoint skip_spaces (s : bytes) : bytes :=
  match s with
  | c :: s' => if is_space c then skip_spaces s' else s
  | [] => []
  end.

Fixpoint strtol_digits (acc : Z) (s : bytes) : res Z :=
  match s with
  | [] => Fault OutOfBounds
  | c :: s => if is_dec c then strtol_digits (10 * acc + (c - 48)) s else Ok acc
  end.

(** [strtol (s, NULL, 10)] *)
Definition strtol (s : bytes) : res Z :=
  match skip_spaces s with
  | [] => Fault OutOfBounds
  | c :: s =>
      if c =? 45 then let* n := strtol_digits 0 s in Ok (clamp_long (- n))
      else if c =? 43 then let* n := strtol_digits 0 s in Ok (clamp_long n)
      else let* n := strtol_digits 0 (c :: s) in Ok (clamp_long n)
  end.

(** The [n] characters [strncpy] writes. *)
Fixpoint strncpy_chars (n : nat) (src : bytes) : res bytes :=
  match n with
  | O => Ok []
  | S n' =>
      match src with
      | [] => Fault OutOfBounds
      | c :: src =>
          if c =? 0 then Ok (replicate n 0)
          else let* r := strncpy_chars n' src in Ok (c :: r)
      end
  end.

Definition strncpy (dst src : bytes) (n : nat) : res bytes :=
  let* cs := strncpy_chars n src in write_front cs dst.

(** ** Prices *)

Definition s_whole_price_len : nat := 10.
Definition s_fractional_price_len : nat := 10.

(** There is no [default]: other lengths run off the end of the function. *)
Definition denominator_for_len (len : nat) : res Z :=
  match len with
  | 1%nat => Ok 10
  | 2%nat => Ok 100
  | 3%nat => Ok 1000
  | 4%nat => Ok 10000
  | 5%nat => Ok 100000
  | 6%nat => Ok 1000000
  | _ => Fault NoReturn
  end.

(** Index of the first dot. *)
Fixpoint find_dot (str : bytes) (i : nat) : option nat :=
  match str with
  | [] => None
  | c :: str => if c =? 46 then Some i else find_dot str (S i)
  end.

(** [str] are the [strlen] characters of the price. *)
Definition parse_price_as_fixedpt (str : bytes) : res Z :=
  match find_dot str 0 with
  | None =>
      let* n := strtol (str ++ [0]) in
      Ok (i64 (fixedpt_fromint n))
  | Some 1%nat =>
      let buffer := drop 1 str ++ [0] in
      let price := 0 in
      let* fr := strtol buffer in
      let* p := fixedpt_pow FIXEDPT_ONE (Z.of_nat (length str) - 1) in
      let* q := fixedpt_div (i64 (fixedpt_fromint fr)) p in
      let _ := fixedpt_add price q in
      Ok price
  | Some whole_part_len =>
      let fractional_part_len := (length str - whole_part_len - 1)%nat in
      let* whole_part := strncpy (replicate s_whole_price_len 0) str whole_part_len in
      let* fractional_part :=
        strncpy (replicate s_fractional_price_len 0) (drop (whole_part_len + 1) str)
          fractional_part_len in
      let* w := strtol whole_part in
      let price := i64 (fixedpt_fromint w) in
      let* fr := strtol fractional_part in
      let* d := denominator_for_len fractional_part_len in
      let* frac_fixedpt := fixedpt_div (i64 (fixedpt_fromint fr)) (i64 (fixedpt_fromint d)) in
      Ok (fixedpt_add price frac_fixedpt)
  end.

(** ** Messages *)

Definition with_symbol (m : MsgTrade) (s : bytes) : MsgTrade :=
  mkMsgTrade (mt_price m) (mt_size m) s (mt_timestamp m) (mt_src_timestamp m).
Definition with_price_size (m : MsgTrade) (price size : Z) : MsgTrade :=
  mkMsgTrade price size (mt_symbol m) (mt_timestamp m) (mt_src_timestamp m).
Definition with_src_timestamp (m : MsgTrade) (ts : Z) : MsgTrade :=
  mkMsgTrade (mt_price m) (mt_size m) (mt_symbol m) (mt_timestamp m) ts.

(** The loop over the message [md]: [rest] are the characters from [i] on.
    [None] is a [return false]; otherwise the final counter and message. *)
Fixpoint scan (md rest : bytes) (i component_start counter : nat) (msg : MsgTrade)
  : res (option (nat * MsgTrade)) :=
  match rest with
  | [] => Ok (Some (counter, msg))
  | c :: rest =>
      if c =? 124 then
        let counter := S counter in
        match counter with
        | 0 | 1 | 2 => scan md rest (S i) (i + 1) counter msg
        | 3 =>
            let symbol_len := (i - component_start)%nat in
            if (ORDER_SYMBOL_LEN - 1 <? symbol_len)%nat then Ok None
            else
              let* s := strncpy (mt_symbol msg) (drop component_start md) symbol_len in
              scan md rest (S i) (i + 1) counter (with_symbol msg s)
        | 4 =>
            let price_len := (i - component_start)%nat in
            let* price := parse_price_as_fixedpt (take price_len (drop component_start md)) in
            if (length md <=? i + 1)%nat then Ok None
            else
              let* size := strtol (drop (i + 1) md ++ [0%Z]) in
              scan md rest (S i) (i + 1) counter (with_price_size msg price size)
        | _ => Ok None
        end%nat
      else scan md rest (S i) component_start counter msg
  end.

Definition tstamp_len : nat := 8.

(** The end shared by both copies: the timestamp is in front of the message. *)
Definition scan_message (tstamp md : bytes) (msg : MsgTrade) : res (option MsgTrade) :=
  let* r := scan md md 0 0 0 msg in
  match r with
  | None => Ok None
  | Some (counter, msg) =>
      if (counter <? 1)%nat then Ok None
      else Ok (Some (with_src_timestamp msg (le_decode tstamp)))
  end.

(** The baseline's copy.  [md_len] is unsigned: with fewer than eight bytes it
    wraps around and the loop leaves the packet at once. *)
Definition populate_msg_trade (msg : MsgTrade) (packet : bytes) : res (option MsgTrade) :=
  if (length packet <? tstamp_len)%nat then Fault OutOfBounds
  else scan_message (take tstamp_len packet) (drop tstamp_len packet) msg.

(** Click's copy. *)
Definition s_mac_ip_udp_len : nat := 42.

Definition populate_msg_trade_click (msg : MsgTrade) (p : Packet) : res (option MsgTrade) :=
  let packet_len := length_of p in
  if (packet_len <? s_mac_ip_udp_len + 1)%nat then Ok None
  else if (packet_len <? s_mac_ip_udp_len + tstamp_len)%nat then Fault OutOfBounds
  else
    scan_message (take tstamp_len (drop s_mac_ip_udp_len (pk_data p)))
      (drop (s_mac_ip_udp_len + tstamp_len) (pk_data p)) msg.

(** ** Numbers *)

Lemma is_dec_spec c : is_dec c = true <-> is_digit c.
Proof. unfold is_dec, is_digit. rewrite andb_true_iff, !Z.leb_le. lia. Qed.

Lemma strtol_digits_spec acc ds rest c :
  Forall is_digit ds -> is_dec c = false ->
  strtol_digits acc (ds ++ c :: rest) = Ok (acc * 10 ^ Z.of_nat (length ds) + dec_value ds).
Proof.
  intros Hd Hc. revert acc. induction Hd as [|d ds Hd _ IH]; intros acc.
  - cbn [app strtol_digits length]. rewrite Hc. change (dec_value []) with 0. f_equal. lia.
  - cbn [app strtol_digits length]. rewrite (proj2 (is_dec_spec d) Hd), IH, dec_value_cons.
    f_equal. rewrite Nat2Z.inj_succ, Z.pow_succ_r by lia. ring.
Qed.

Lemma dec_value_bound ds : Forall is_digit ds -> 0 <= dec_value ds < 10 ^ Z.of_nat (length ds).
Proof.
  induction 1 as [|d ds Hd _ IH]; [done|]. rewrite dec_value_cons. cbn [length].
  rewrite Nat2Z.inj_succ, Z.pow_succ_r by lia. unfold is_digit in Hd. nia.
Qed.

(** A run of at most 18 digits is read as the number it denotes. *)
Lemma strtol_digits_only ds rest :
  Forall is_digit ds -> (length ds <= 18)%nat -> strtol (ds ++ 0 :: rest) = Ok (dec_value ds).
Proof.
  intros Hd Hl. pose proof (dec_value_bound ds Hd) as Hb.
  assert (Hp : 10 ^ Z.of_nat (length ds) <= 10 ^ 18) by (apply Z.pow_le_mono_r; lia).
  assert (Hc : clamp_long (dec_value ds) = dec_value ds) by (unfold clamp_long; lia).
  pose proof (strtol_digits_spec 0 ds rest 0 Hd eq_refl) as E. rewrite Z.mul_0_l, Z.add_0_l in E.
  unfold strtol. destruct ds as [|d ds].
  - cbn [app skip_spaces is_space]. cbn [app] in E. simpl. by rewrite <- Hc.
  - apply Forall_cons in Hd as [Hd _]. unfold is_digit in Hd. cbn [app skip_spaces].
    replace (is_space d) with false by (unfold is_space; symmetry; apply orb_false_iff; rewrite andb_false_iff, Z.eqb_neq, !Z.leb_gt; lia).
    rewrite (proj2 (Z.eqb_neq d 45)), (proj2 (Z.eqb_neq d 43)) by lia.
    cbn [app] in E. rewrite E. res_simpl. by rewrite Hc.
Qed.

Lemma strncpy_chars_Ok s rest :
  Forall (fun c => c <> 0) s -> strncpy_chars (length s) (s ++ rest) = Ok s.
Proof.
  induction 1 as [|c s Hc _ IH]; [done|]. cbn [length app strncpy_chars].
  by rewrite (proj2 (Z.eqb_neq _ _) Hc), IH.
Qed.

Lemma strncpy_Ok dst s rest :
  Forall (fun c => c <> 0) s -> (length s <= length dst)%nat ->
  strncpy dst (s ++ rest) (length s) = Ok (s ++ drop (length s) dst).
Proof.
  intros Hs Hl. unfold strncpy. rewrite strncpy_chars_Ok by done. res_simpl. by apply write_front_Ok.
Qed.

Lemma digits_nonzero ds : Forall is_digit ds -> Forall (fun c => c <> 0) ds.
Proof. intros H. eapply Forall_impl; [exact H|]. unfold is_digit. simpl. lia. Qed.

Lemma find_dot_None ds i : Forall (fun c => c <> 46) ds -> find_dot ds i = None.
Proof.
  intros Hd. revert i. induction Hd as [|c ds Hc _ IH]; intros i; [done|]. cbn [find_dot].
  by rewrite (proj2 (Z.eqb_neq _ _) Hc).
Qed.

Lemma find_dot_app ds rest i :
  Forall (fun c => c <> 46) ds -> find_dot (ds ++ 46 :: rest) i = Some (i + length ds)%nat.
Proof.
  intros Hd. revert i. induction Hd as [|c ds Hc _ IH]; intros i; cbn [app find_dot length].
  - by rewrite Nat.add_0_r.
  - rewrite (proj2 (Z.eqb_neq _ _) Hc), IH. f_equal. lia.
Qed.

Lemma digits_no_dot ds : Forall is_digit ds -> Forall (fun c => c <> 46) ds.
Proof. intros H. eapply Forall_impl; [exact H|]. unfold is_digit. simpl. lia. Qed.

Lemma denominator_spec n : (1 <= n <= 6)%nat -> denominator_for_len n = Ok (10 ^ Z.of_nat n).
Proof. intros Hn. do 7 (destruct n as [|n]; [try lia; try reflexivity|]). lia. Qed.

(** ** Messages *)

(** Characters without a bar are skipped. *)
Lemma scan_skip md s rest i st cnt msg :
  Forall (fun c => c <> 124) s ->
  scan md (s ++ rest) i st cnt msg = scan md rest (i + length s) st cnt msg.
Proof.
  intros Hs. revert i. induction Hs as [|c s Hc _ IH]; intros i; cbn [app length scan].
  - by rewrite Nat.add_0_r.
  - rewrite (proj2 (Z.eqb_neq _ _) Hc), IH. f_equal. lia.
Qed.

Lemma scan_nil md i st cnt msg : scan md [] i st cnt msg = Ok (Some (cnt, msg)).
Proof. done. Qed.

Lemma scan_bar12 md rest i st cnt msg :
  (cnt < 2)%nat -> scan md (124 :: rest) i st cnt msg = scan md rest (S i) (i + 1) (S cnt) msg.
Proof. intros Hc. destruct cnt as [|[|cnt]]; [done|done|lia]. Qed.

Lemma scan_bar3 md rest i st msg s :
  strncpy (mt_symbol msg) (drop st md) (i - st) = Ok s -> (i - st <= 9)%nat ->
  scan md (124 :: rest) i st 2 msg = scan md rest (S i) (i + 1) 3 (with_symbol msg s).
Proof.
  intros Es Hl. change (scan md (124 :: rest) i st 2 msg) with
    (if (ORDER_SYMBOL_LEN - 1 <? i - st)%nat then Ok None
     else let* s := strncpy (mt_symbol msg) (drop st md) (i - st) in
          scan md rest (S i) (i + 1) 3 (with_symbol msg s)).
  rewrite (proj2 (Nat.ltb_ge _ _)) by (unfold ORDER_SYMBOL_LEN; lia). by rewrite Es.
Qed.

Lemma scan_bar4 md rest i st msg price size :
  parse_price_as_fixedpt (take (i - st) (drop st md)) = Ok price ->
  (i + 1 < length md)%nat -> strtol (drop (i + 1) md ++ [0]) = Ok size ->
  scan md (124 :: rest) i st 3 msg = scan md rest (S i) (i + 1) 4 (with_price_size msg price size).
Proof.
  intros Ep Hl Es. change (scan md (124 :: rest) i st 3 msg) with
    (let* price := parse_price_as_fixedpt (take (i - st) (drop st md)) in
     if (length md <=? i + 1)%nat then Ok None
     else let* size := strtol (drop (i + 1) md ++ [0]) in
          scan md rest (S i) (i + 1) 4 (with_price_size msg price size)).
  rewrite Ep. res_simpl. rewrite (proj2 (Nat.leb_gt _ _)) by done. by rewrite Es.
Qed.

Lemma scan_bar5 md rest i st msg : scan md (124 :: rest) i st 4 msg = Ok None.
Proof. done. Qed.

(** The text of a well-formed trade. *)
Definition trade_text (time delta symbol price size : bytes) : bytes :=
  time ++ [124] ++ delta ++ [124] ++ symbol ++ [124] ++ price ++ [124] ++ size.

Definition no_bar (s : bytes) : Prop := Forall (fun c => c <> 124) s.
#[global] Instance no_bar_dec s : Decision (no_bar s).
Proof. unfold no_bar. apply _. Defined.

Definition symbol_field (symbol : bytes) : bytes :=
  symbol ++ replicate (ORDER_SYMBOL_LEN - length symbol) 0.

Section fields.
Context (md pre s rest : bytes) (i : nat) (msg : MsgTrade).
Context (Hmd : md = pre ++ s ++ 124 :: rest) (Hi : length pre = i) (Hs : no_bar s).

Lemma scan_field12 cnt :
  (cnt < 2)%nat ->
  scan md (s ++ 124 :: rest) i i cnt msg =
    scan md rest (i + length s + 1) (i + length s + 1) (S cnt) msg.
Proof using Hs. clear Hmd Hi. intros Hc. rewrite scan_skip, scan_bar12 by done. f_equal. lia. Qed.

Lemma scan_field3 :
  length (mt_symbol msg) = ORDER_SYMBOL_LEN -> Forall (fun c => c <> 0) s -> (length s <= 9)%nat ->
  scan md (s ++ 124 :: rest) i i 2 msg =
    scan md rest (i + length s + 1) (i + length s + 1) 3
      (with_symbol msg (s ++ drop (length s) (mt_symbol msg))).
Proof.
  intros Hm H0 Hl. rewrite scan_skip by done.
  rewrite (scan_bar3 _ _ _ _ _ (s ++ drop (length s) (mt_symbol msg))); [f_equal; lia| |lia].
  replace (i + length s - i)%nat with (length s) by lia.
  rewrite Hmd, <- Hi, drop_app_length. apply strncpy_Ok; [done|]. rewrite Hm. unfold ORDER_SYMBOL_LEN. lia.
Qed.

Lemma scan_field4 price size :
  parse_price_as_fixedpt s = Ok price -> rest <> [] -> strtol (rest ++ [0]) = Ok size ->
  scan md (s ++ 124 :: rest) i i 3 msg =
    scan md rest (i + length s + 1) (i + length s + 1) 4 (with_price_size msg price size).
Proof.
  intros Ep Hr Es. rewrite scan_skip by done.
  rewrite (scan_bar4 _ _ _ _ _ price size); [f_equal; lia| | |].
  - replace (i + length s - i)%nat with (length s) by lia.
    by rewrite Hmd, <- Hi, drop_app_length, take_app_length.
  - rewrite Hmd, !length_app. cbn [length]. destruct rest; [done|]. cbn [length]. lia.
  - replace (drop (i + length s + 1) md) with rest; [done|].
    replace (i + length s + 1)%nat with (length (pre ++ s ++ [124])) by (rewrite !length_app; simpl; lia).
    rewrite Hmd. replace (pre ++ s ++ 124 :: rest) with ((pre ++ s ++ [124]) ++ rest)
      by (by rewrite <- !app_assoc). by rewrite drop_app_length.
Qed.
End fields.

Lemma scan_trade_text time delta symbol price size p n :
  no_bar time -> no_bar delta -> no_bar symbol -> no_bar price -> no_bar size ->
  Forall (fun c => c <> 0) symbol -> (length symbol <= 9)%nat -> size <> [] ->
  parse_price_as_fixedpt price = Ok p -> strtol (size ++ [0]) = Ok n ->
  let md := trade_text time delta symbol price size in
  scan md md 0 0 0 MsgTrade_new = Ok (Some (4%nat, mkMsgTrade p n (symbol_field symbol) 0 0)).
Proof.
  intros Ht Hd Hs Hp Hz Hs0 Hsl Hsz Ep En md.
  replace (scan md md) with (scan md (time ++ 124 :: delta ++ 124 :: symbol ++ 124 :: price ++ 124 :: size)) by done.
  rewrite (scan_field12 md time) by (done || lia).
  rewrite (scan_field12 md delta) by (done || lia).
  rewrite (scan_field3 md (time ++ [124] ++ delta ++ [124])); try done.
  2: { subst md. unfold trade_text. by rewrite <- !app_assoc. }
  2: { rewrite !length_app. simpl. lia. }
  erewrite (scan_field4 md (time ++ [124] ++ delta ++ [124] ++ symbol ++ [124]) price size) by
    (exact Ep || exact En || done || (rewrite !length_app; simpl; lia) ||
     (subst md; unfold trade_text; by rewrite <- !app_assoc)).
  rewrite <- (app_nil_r size) at 1. rewrite scan_skip, scan_nil by done. f_equal. f_equal. f_equal.
  unfold with_price_size, with_symbol, symbol_field. cbn [mt_symbol MsgTrade_new mt_timestamp mt_src_timestamp].
  by rewrite drop_replicate.
Qed.

(** *** Prices with a fraction *)

Lemma strncpy_digits ds rest :
  Forall is_digit ds -> (length ds <= 9)%nat ->
  strncpy (replicate 10 0) (ds ++ rest) (length ds) = Ok (ds ++ 0 :: replicate (9 - length ds) 0).
Proof.
  intros Hd Hl. rewrite strncpy_Ok by (rewrite ?length_replicate; auto using digits_nonzero; lia).
  rewrite drop_replicate. by replace (10 - length ds)%nat with (S (9 - length ds)) by lia.
Qed.

Lemma parse_fraction w f :
  Forall is_digit w -> Forall is_digit f -> length w <> 1%nat -> (length w <= 9)%nat ->
  (1 <= length f <= 6)%nat ->
  parse_price_as_fixedpt (w ++ 46 :: f) =
    let* q := fixedpt_div (i64 (fixedpt_fromint (dec_value f)))
                (i64 (fixedpt_fromint (10 ^ Z.of_nat (length f)))) in
    Ok (fixedpt_add (i64 (fixedpt_fromint (dec_value w))) q).
Proof.
  intros Hw Hf Hw1 Hwl Hfl. unfold parse_price_as_fixedpt.
  rewrite (find_dot_app w f 0) by (by apply digits_no_dot). rewrite Nat.add_0_l.
  assert (E : (length (w ++ 46%Z :: f) - length w - 1)%nat = length f).
  { rewrite length_app. simpl. lia. }
  assert (D : drop (length w + 1) (w ++ 46 :: f) = f ++ []).
  { rewrite app_nil_r. by rewrite drop_app_add. }
  assert (Hgoal : forall k, k = length w ->
    (let fractional_part_len := (length (w ++ 46%Z :: f) - k - 1)%nat in
     let* whole_part := strncpy (replicate s_whole_price_len 0) (w ++ 46 :: f) k in
     let* fractional_part :=
       strncpy (replicate s_fractional_price_len 0) (drop (k + 1) (w ++ 46 :: f)) fractional_part_len in
     let* w := strtol whole_part in
     let price := i64 (fixedpt_fromint w) in
     let* fr := strtol fractional_part in
     let* d := denominator_for_len fractional_part_len in
     let* frac_fixedpt := fixedpt_div (i64 (fixedpt_fromint fr)) (i64 (fixedpt_fromint d)) in
     Ok (fixedpt_add price frac_fixedpt)) =
    let* q := fixedpt_div (i64 (fixedpt_fromint (dec_value f)))
                (i64 (fixedpt_fromint (10 ^ Z.of_nat (length f)))) in
    Ok (fixedpt_add (i64 (fixedpt_fromint (dec_value w))) q)).
  { intros k ->. cbv zeta. rewrite E, D. unfold s_whole_price_len, s_fractional_price_len.
    rewrite !strncpy_digits by (done || lia). res_simpl.
    rewrite !strtol_digits_only by (done || lia). res_simpl.
    by rewrite denominator_spec. }
  destruct (length w) as [|[|k]] eqn:Ew; [|done|]; by apply Hgoal.
Qed.

Lemma fraction_value f n :
  0 <= f < 10 ^ Z.of_nat n -> (1 <= n <= 6)%nat ->
  fixedpt_div (i64 (fixedpt_fromint f)) (i64 (fixedpt_fromint (10 ^ Z.of_nat n))) =
    Ok (f * 2 ^ 40 / 10 ^ Z.of_nat n).
Proof.
  intros Hf Hn. assert (Hp : 10 <= 10 ^ Z.of_nat n <= 10 ^ 6).
  { split; [change 10 with (10 ^ 1) at 1|]; apply Z.pow_le_mono_r; lia. }
  rewrite !fromint_val by zrange. rewrite !(Z.mul_comm _ (2 ^ 40)), div_scale by lia.
  rewrite div_nonzero by lia. rewrite Z.quot_div_nonneg by lia.
  rewrite i64_id; [f_equal; f_equal; ring|].
  assert (0 <= f * 2 ^ 40 / 10 ^ Z.of_nat n < 2 ^ 40); [|zrange].
  split; [apply Z.div_pos; lia|]. apply Z.div_lt_upper_bound; [lia|]. nia.
Qed.

Module ParsingProps.

(** A price with two to nine digits before the dot (or none) and one to six
    after it parses to its value rounded down to a multiple of 2^-40: no digit
    is lost and nothing overflows while the integral part is below 2^23. *)
Theorem parse_price_spec w f
  (Hw : Forall is_digit w) (Hf : Forall is_digit f) (Hw1 : length w <> 1%nat)
  (Hwl : (length w <= 9)%nat) (Hfl : (1 <= length f <= 6)%nat) (Hv : dec_value w < 2 ^ 23 - 1) :
  exists p, parse_price_as_fixedpt (w ++ [46] ++ f) = Ok p /\
    p = (dec_value w * 10 ^ Z.of_nat (length f) + dec_value f) * 2 ^ 40 / 10 ^ Z.of_nat (length f).
Proof.
  pose proof (dec_value_bound w Hw). pose proof (dec_value_bound f Hf) as Hb.
  change (w ++ [46] ++ f) with (w ++ 46 :: f). rewrite parse_fraction, fraction_value by done. res_simpl. eexists. split; [reflexivity|].
  rewrite fromint_val by zrange. set (d := 10 ^ Z.of_nat (length f)) in *.
  assert (0 < d) by (apply Z.pow_pos_nonneg; lia).
  assert (0 <= dec_value f * 2 ^ 40 / d < 2 ^ 40).
  { split; [apply Z.div_pos; lia|]. apply Z.div_lt_upper_bound; [lia|]. nia. }
  unfold fixedpt_add. rewrite i64_id by zrange.
  replace ((dec_value w * d + dec_value f) * 2 ^ 40) with (dec_value f * 2 ^ 40 + dec_value w * 2 ^ 40 * d) by ring.
  rewrite Z.div_add by lia. lia.
Qed.

Lemma parse_price_spec_witness :
  exists p, parse_price_as_fixedpt (bytes_of_string "123.45") = Ok p /\ p = 12345 * 2 ^ 40 / 100.
Proof.
  apply (parse_price_spec (bytes_of_string "123") (bytes_of_string "45")).
  - repeat constructor; discriminate.
  - repeat constructor; discriminate.
  - discriminate.
  - simpl. lia.
  - simpl. lia.
  - reflexivity.
Defined.

(** A price with exactly one digit before the dot parses to zero: the branch
    meant for a missing integral part tests for a dot at index 1 and discards
    the sum it computes. *)
Theorem parse_price_one_digit c f
  (Hc : c <> 46) (Hf : Forall is_digit f) (Hl : (length f <= 18)%nat) :
  parse_price_as_fixedpt (c :: 46 :: f) = Ok 0.
Proof.
  unfold parse_price_as_fixedpt. cbn [find_dot]. rewrite (proj2 (Z.eqb_neq _ _) Hc).
  cbn [Z.eqb Pos.eqb drop app]. change (46 :: f ++ [0]) with (([] : bytes) ++ 46 :: (f ++ [0])).
  assert (E : strtol ([] ++ 46 :: f ++ [0]) = Ok 0) by reflexivity. rewrite E. res_simpl.
  rewrite FixedPt.fixedpt_pow_one. reflexivity.
Qed.

Lemma parse_price_one_digit_witness : parse_price_as_fixedpt (bytes_of_string "5.25") = Ok 0.
Proof.
  apply (parse_price_one_digit 53 (bytes_of_string "25")); [discriminate|repeat constructor; discriminate|simpl; lia].
Defined.

(** Both copies of the parser on a well-formed message. *)
Lemma trade_text_parses headers tstamp time delta symbol price size p n t
  (Hh : length headers = s_mac_ip_udp_len) (Hts : length tstamp = tstamp_len)
  (Htime : no_bar time) (Hdelta : no_bar delta) (Hsym : no_bar symbol) (Hprice : no_bar price)
  (Hsize : no_bar size) (Hsym0 : Forall (fun c => c <> 0) symbol) (Hsyml : (length symbol <= 9)%nat)
  (Hsz : size <> []) (Hp : parse_price_as_fixedpt price = Ok p) (Hn : strtol (size ++ [0]) = Ok n) :
  let text := trade_text time delta symbol price size in
  let msg := mkMsgTrade p n (symbol_field symbol) 0 (le_decode tstamp) in
  populate_msg_trade MsgTrade_new (tstamp ++ text) = Ok (Some msg) /\
  populate_msg_trade_click MsgTrade_new (mkPacket t (headers ++ tstamp ++ text)) = Ok (Some msg).
Proof.
  intros text msg.
  assert (Hscan : scan_message tstamp text MsgTrade_new = Ok (Some msg)).
  { unfold scan_message. subst text. by rewrite (scan_trade_text _ _ _ _ _ p n). }
  split.
  - unfold populate_msg_trade. rewrite length_app, (proj2 (Nat.ltb_ge _ _)) by lia.
    by rewrite <- Hts, take_app_length, drop_app_length.
  - unfold populate_msg_trade_click, length_of. cbn [pk_data]. rewrite !length_app.
    assert (1 <= length text)%nat by (subst text; unfold trade_text; rewrite !length_app; simpl; lia).
    rewrite (proj2 (Nat.ltb_ge _ (_ + 1))), (proj2 (Nat.ltb_ge _ (_ + tstamp_len))) by lia.
    rewrite <- Hh at 1. rewrite drop_app_length, <- Hts at 1. rewrite take_app_length.
    replace (drop (s_mac_ip_udp_len + tstamp_len) (headers ++ tstamp ++ text)) with text; [done|].
    by rewrite <- Hh, <- Hts, drop_app_add, drop_app_length.
Qed.

(** A well-formed trade message survives the parser: symbol (zero-padded),
    price, size and timestamp come back, in the baseline and in Click, whatever
    headers precede it there. *)
Theorem trade_message_roundtrip headers tstamp time delta symbol price size p n t
  (Hh : length headers = s_mac_ip_udp_len) (Hts : length tstamp = tstamp_len)
  (Htime : no_bar time) (Hdelta : no_bar delta) (Hsym : no_bar symbol) (Hprice : no_bar price)
  (Hsize : no_bar size) (Hsym0 : Forall (fun c => c <> 0) symbol) (Hsyml : (length symbol <= 9)%nat)
  (Hsz : size <> []) (Hp : parse_price_as_fixedpt price = Ok p) (Hn : strtol (size ++ [0]) = Ok n) :
  let text := trade_text time delta symbol price size in
  let msg := mkMsgTrade p n (symbol_field symbol) 0 (le_decode tstamp) in
  populate_msg_trade MsgTrade_new (tstamp ++ text) = Ok (Some msg) /\
  populate_msg_trade_click MsgTrade_new (mkPacket t (headers ++ tstamp ++ text)) = Ok (Some msg).
Proof. by apply trade_text_parses. Qed.

Lemma trade_message_roundtrip_witness :
  let msg := mkMsgTrade (5025 * 2 ^ 40 / 100) 300 (symbol_field (bytes_of_string "BPl")) 0 1 in
  populate_msg_trade MsgTrade_new ([1; 0; 0; 0; 0; 0; 0; 0] ++ bytes_of_string "X|12|BPl|50.25|300") = Ok (Some msg) /\
  populate_msg_trade_click MsgTrade_new
    (mkPacket NO_APP_MSG (replicate 42 7 ++ [1; 0; 0; 0; 0; 0; 0; 0] ++ bytes_of_string "X|12|BPl|50.25|300")) =
  Ok (Some msg).
Proof.
  apply (trade_message_roundtrip (replicate 42 7) [1; 0; 0; 0; 0; 0; 0; 0] (bytes_of_string "X")
           (bytes_of_string "12") (bytes_of_string "BPl") (bytes_of_string "50.25") (bytes_of_string "300")).
  1,2: reflexivity.
  1-5: repeat constructor; discriminate.
  - repeat constructor; discriminate.
  - simpl. lia.
  - discriminate.
  - vm_compute. reflexivity.
  - vm_compute. reflexivity.
Defined.

(** A message cut off after the symbol is taken for a trade: with three
    bars, and any symbol of at most nine characters, both parsers report success
    with price and size zero. *)
Theorem truncated_message_accepted tstamp time delta symbol rest
  (Hts : length tstamp = tstamp_len)
  (Htime : no_bar time) (Hdelta : no_bar delta) (Hsym : no_bar symbol) (Hrest : no_bar rest)
  (Hsym0 : Forall (fun c => c <> 0) symbol) (Hsyml : (length symbol <= 9)%nat) :
  populate_msg_trade MsgTrade_new
    (tstamp ++ time ++ [124] ++ delta ++ [124] ++ symbol ++ [124] ++ rest) =
  Ok (Some (mkMsgTrade 0 0 (symbol_field symbol) 0 (le_decode tstamp))).
Proof.
  unfold populate_msg_trade. rewrite length_app, (proj2 (Nat.ltb_ge _ _)) by lia.
  rewrite <- Hts, take_app_length, drop_app_length. unfold scan_message.
  set (md := time ++ _). change (scan md md) with (scan md (time ++ 124 :: delta ++ 124 :: symbol ++ 124 :: rest)).
  rewrite (scan_field12 md time) by (done || lia). rewrite (scan_field12 md delta) by (done || lia).
  rewrite (scan_field3 md (time ++ [124] ++ delta ++ [124])) by
    (done || (rewrite !length_app; simpl; lia) || (subst md; by rewrite <- !app_assoc)).
  rewrite <- (app_nil_r rest) at 1. rewrite scan_skip, scan_nil by done. res_simpl.
  unfold with_src_timestamp, with_symbol, symbol_field. cbn -[replicate le_decode].
  by rewrite drop_replicate.
Qed.

Lemma truncated_message_accepted_witness :
  populate_msg_trade MsgTrade_new ([1; 0; 0; 0; 0; 0; 0; 0] ++ bytes_of_string "X|12|BPl|50") =
  Ok (Some (mkMsgTrade 0 0 (symbol_field (bytes_of_string "BPl")) 0 1)).
Proof.
  apply (truncated_message_accepted [1; 0; 0; 0; 0; 0; 0; 0] (bytes_of_string "X") (bytes_of_string "12")
           (bytes_of_string "BPl") (bytes_of_string "50")).
  1: reflexivity.
  1-4: repeat constructor; discriminate.
  - repeat constructor; discriminate.
  - simpl. lia.
Defined.

(** Short packets are read out of bounds: the baseline for fewer than 8
    bytes, Click -- whose length check covers the headers but not the timestamp
    -- for 43 to 49 bytes; Click rejects shorter ones. *)
Theorem short_packet_faults packet p
  (Hb : (length packet < 8)%nat) (Hp : (length_of p < 50)%nat) :
  populate_msg_trade MsgTrade_new packet = Fault OutOfBounds /\
  populate_msg_trade_click MsgTrade_new p =
    (if (43 <=? length_of p)%nat then Fault OutOfBounds else Ok None).
Proof.
  unfold populate_msg_trade, populate_msg_trade_click, tstamp_len, s_mac_ip_udp_len. cbv zeta.
  split; [by rewrite (proj2 (Nat.ltb_lt _ _))|].
  destruct (Nat.leb_spec 43 (length_of p)).
  - rewrite (proj2 (Nat.ltb_ge _ _)), (proj2 (Nat.ltb_lt _ _)) by lia. done.
  - by rewrite (proj2 (Nat.ltb_lt _ _)) by lia.
Qed.

Lemma short_packet_faults_witness :
  populate_msg_trade_click MsgTrade_new (mkPacket NO_APP_MSG (replicate 45 0)) = Fault OutOfBounds.
Proof.
  destruct (short_packet_faults [1; 2] (mkPacket NO_APP_MSG (replicate 45 0))) as [_ E];
    [simpl; lia|vm_compute; lia|]. exact E.
Defined.

End ParsingProps.
