(* ===== verification/Feed.v ===== *)
(** * Feed: how trades get to the indicators

    [PbFileReader] and MsgSenderApp (tools/tcp_probe/src) replay a file of messages as
    datagrams, at the times that the messages tell; the kernel module timestamper
    (kernel_modules/timestamper) overwrites the front of each with the cycle counter,
    and the receivers of Parsing take them apart.

    A line is what [getline] delivers, as the characters before a NUL.  The clock and
    the socket of the sender are the list of the clock's readings, each with what the
    socket's [send] returns in that round, should it be called. *)

From S2P Require Import Prelude Messages Parsing.

(** ** PbFileReader *)

Definition LINE_MAX_LEN : nat := 200.

Inductive PbMode := CHIX | KB.

(** The lines that are still in the file are part of the reader. *)
Record PbFileReader := mkPbFileReader {
  _current_line : bytes;
  _next_line : bytes;
  _interval : Z;
  _file : list bytes;
  _mode : PbMode
}.

(** A buffer's contents as a C string: a line up to a NUL. *)
Fixpoint c_string (s : bytes) : bytes :=
  match s with
  | [] => []
  | c :: s => if c =? 0 then [] else c :: c_string s
  end.

(** [getline] until the buffer holds a character; none is left at the end. *)
Fixpoint getline_loop (file : list bytes) : bytes * list bytes :=
  match file with
  | [] => ([], [])
  | l :: file => match c_string l with [] => getline_loop file | s => (s, file) end
  end.

Definition atoi (s : bytes) : res Z := let* z := strtol (s ++ [0]) in Ok (i32 z).

Definition get_chix_tstamp (msg : bytes) : res Z := atoi (take 8 msg).

Fixpoint find_bar (s : bytes) (i : nat) : option nat :=
  match s with
  | [] => None
  | c :: s => if c =? 124 then Some i else find_bar s (S i)
  end.

(** The loop stops at the first bar: it counts it and then finds the count to be one.
    The pointer is compared with NUL and not the character: without a bar the loop
    leaves the buffer. *)
Definition get_KB_tstamp (msg : bytes) : res Z :=
  match find_bar msg 0 with
  | Some bar => let* z := strtol (drop (bar + 1) msg ++ [0]) in Ok (u64 z)
  | None => Fault OutOfBounds
  end.

Definition get_interval (mode : PbMode) (next_line current_line : bytes) : res Z :=
  match mode with
  | CHIX =>
      let* n := get_chix_tstamp next_line in
      let* c := get_chix_tstamp current_line in
      Ok (u64 (u64 (i32 (n - c)) * 1000))
  | KB => get_KB_tstamp next_line
  end.

Definition advance (r : PbFileReader) : res PbFileReader :=
  match _current_line r, _next_line r with
  | [], [] =>
      let '(current, file) := getline_loop (_file r) in
      let '(next, file) := getline_loop file in
      let* interval := get_interval (_mode r) next current in
      Ok (mkPbFileReader current next interval file (_mode r))
  | _ :: _, _ :: _ =>
      let current := _next_line r in
      let '(next, file) := getline_loop (_file r) in
      let* interval := get_interval (_mode r) next current in
      Ok (mkPbFileReader current next interval file (_mode r))
  | _, _ => Ok r
  end.

Definition PbFileReader_new (file : list bytes) (mode : PbMode) : res PbFileReader :=
  advance (mkPbFileReader [] [] 0 file mode).

(** The line, if there is one, its length without the newline, and the status. *)
Definition read_line (r : PbFileReader) : option bytes * Z * bool :=
  let trim (n : nat) := Z.of_nat n - (if (0 <? n)%nat then 1 else 0) in
  match _current_line r, _next_line r with
  | _ :: _, _ :: _ => (Some (_current_line r), trim (length (_current_line r)), true)
  | _ :: _, [] => (Some (_current_line r), trim (length (_current_line r)), false)
  | [], _ => (None, 0, false)
  end.

(** ** MsgSenderApp *)

Definition E_9 : Z := 1000000000.
Record timespec := mkTimespec { tv_sec : Z; tv_nsec : Z }.

Definition advance_time_by_period (time : timespec) (period : Z) : timespec :=
  let next_time_nsecs := u64 (u64 (u64 (tv_sec time) * E_9) + u64 (tv_nsec time) + u64 period) in
  mkTimespec (next_time_nsecs / E_9) (next_time_nsecs mod E_9).

Definition compare_timespec (first_time second_time : timespec) : Z :=
  let first_time_nsecs := i64 (i64 (tv_sec first_time * E_9) + tv_nsec first_time) in
  let second_time_nsecs := i64 (i64 (tv_sec second_time * E_9) + tv_nsec second_time) in
  i64 (second_time_nsecs - first_time_nsecs).

(** What [send] returns: the number of bytes or -1, and [errno]. *)
Abbreviation send_result := (Z * Z)%type.

(** What is given to the socket, and whether there is more. *)
Definition timeout_cb (result : send_result) (file_reader : PbFileReader) : option bytes * bool :=
  match read_line file_reader with
  | (None, _, _) => (None, false)
  | (Some line, linelen, status) =>
      if linelen =? 0 then (None, false)
      else
        let datagram := take (Z.to_nat linelen) line in
        let '(bytes_written, errno) := result in
        if (bytes_written <? 0) && negb (errno =? 111) then (Some datagram, false) else (Some datagram, status)
  end.

(** The loop of [main], one round for each reading of the clock: what is given to the
    socket, with the reading, and whether it ended by itself. *)
Fixpoint send_loop (msg_rate : Z) (rounds : list (timespec * send_result)) (trigger_time : timespec)
    (file_reader : PbFileReader) : res (list (timespec * bytes) * bool) :=
  match rounds with
  | [] => Ok ([], false)
  | (now_time, result) :: rounds =>
      if 0 <? compare_timespec trigger_time now_time then
        let '(sent, more) := timeout_cb result file_reader in
        let out := match sent with Some d => [(now_time, d)] | None => [] end in
        if negb more then Ok (out, true)
        else
          let trigger_time := advance_time_by_period trigger_time (u64 (_interval file_reader * 1000) / msg_rate) in
          let* file_reader := advance file_reader in
          let* r := send_loop msg_rate rounds trigger_time file_reader in
          Ok (out ++ r.1, r.2)
      else send_loop msg_rate rounds trigger_time file_reader
  end.

(** [main] from the opening of the file on; the first reading sets the trigger. *)
Definition msg_sender (mode : PbMode) (msg_rate : Z) (file : list bytes) (start : timespec)
    (rounds : list (timespec * send_result)) : res (list (timespec * bytes) * bool) :=
  let* file_reader := PbFileReader_new file mode in
  if msg_rate <? 1 then Ok ([], true) else send_loop msg_rate rounds start file_reader.

(** ** timestamper *)

Definition s_ip_udp_len : nat := 28.
Definition reserved_field_len : nat := 9.

(** [memcpy (data + at, src)] within the data *)
Definition write_at (at_ : nat) (src data : bytes) : bytes := take at_ data ++ src ++ drop (at_ + length src) data.

(** The packet of device [dev], with its IP and UDP headers; [timestamp] is the cycle
    counter. *)
Definition custom_hook_new (s_capture_netif : option nat) (timestamp : Z) (dev : nat) (data : bytes) : bytes :=
  if match s_capture_netif with Some d => negb (dev =? d)%nat | None => false end then data
  else if (length data <? s_ip_udp_len + reserved_field_len + 1)%nat then data
  else if negb (forallb (Z.eqb 82) (take reserved_field_len (drop s_ip_udp_len data))) then data
  else write_at (s_ip_udp_len - 2) [0; 0] (write_at s_ip_udp_len (le_encode 8 timestamp) data).
