(* ===== verification/FeedProps.v ===== *)
(** * FeedProps: what is sent is what the file says

    The sender gives every line of a file in the format of the exchange to the socket
    once, in order, at the first reading of the clock after it is due; with the format of the
    project's own files it leaves its buffer before the last line.  A datagram that
    has passed the kernel module parses to the trade of its line with the time stamp
    of the module. *)

From Stdlib Require Import Sorting.Sorted.
From S2P Require Import Prelude FixedPt Messages Parsing Feed.

(** ** Lines *)

Lemma strtol_digits_total acc s : exists z, strtol_digits acc (s ++ [0]) = Ok z.
Proof. revert acc. induction s as [|c s IH]; intros acc; cbn; [by eexists|]. destruct (is_dec c); [apply IH|by eexists]. Qed.

Lemma strtol_total s : exists z, strtol (s ++ [0]) = Ok z.
Proof.
  unfold strtol. assert (exists s', skip_spaces (s ++ [0]) = s' ++ [0]) as [s' ->].
  { induction s as [|c s IH]; cbn; [by exists []|]. destruct (is_space c); [apply IH|by exists (c :: s)]. }
  destruct s' as [|c s']; cbn [app]; [by eexists|]. destruct (strtol_digits_total 0 s') as [z Hz].
  destruct (c =? 45); [rewrite Hz; by eexists|]. destruct (c =? 43); [rewrite Hz; by eexists|].
  destruct (strtol_digits_total 0 (c :: s')) as [z' Hz']. cbn [app] in Hz'. rewrite Hz'. by eexists.
Qed.

(** A line with a character before its newline, and no NUL. *)
Definition good_line (l : bytes) : Prop := Forall (fun c => c <> 0) l /\ (2 <= length l)%nat.

Lemma c_string_good l : Forall (fun c => c <> 0) l -> c_string l = l.
Proof. induction 1 as [|c l Hc _ IH]; [done|]. cbn. rewrite (proj2 (Z.eqb_neq _ _) Hc). by rewrite IH. Qed.

Lemma getline_good l file : good_line l -> getline_loop (l :: file) = (l, file).
Proof. intros [H1 H2]. cbn. rewrite c_string_good by done. destruct l; [cbn in H2; lia|done]. Qed.

Definition has_bar (l : bytes) : bool := existsb (Z.eqb 124) l.

Lemma find_bar_None l i : has_bar l = false -> find_bar l i = None.
Proof.
  revert i. induction l as [|c l IH]; intros i H; [done|]. unfold has_bar in *. cbn [existsb find_bar] in *. rewrite Z.eqb_sym. apply orb_false_iff in H as [-> H]. by apply IH.
Qed.
Lemma find_bar_Some l i : has_bar l = true -> exists k, find_bar l i = Some k.
Proof.
  revert i. induction l as [|c l IH]; intros i H; [done|]. unfold has_bar in *. cbn [existsb find_bar] in *. rewrite Z.eqb_sym. destruct (124 =? c); [by eexists|]. by apply IH.
Qed.

(** When the interval before a line can be computed, and what it is. *)
Definition has_interval (mode : PbMode) (next : bytes) : bool := match mode with CHIX => true | KB => has_bar next end.
Definition interval_of (mode : PbMode) (next current : bytes) : Z :=
  match get_interval mode next current with Ok z => z | Fault _ => 0 end.

Lemma get_interval_ok mode next current :
  has_interval mode next = true -> get_interval mode next current = Ok (interval_of mode next current).
Proof.
  unfold interval_of. intros H. destruct mode; cbn in *.
  - unfold get_chix_tstamp, atoi. destruct (strtol_total (take 8 next)) as [z ->]. destruct (strtol_total (take 8 current)) as [z' ->]. done.
  - unfold get_KB_tstamp. destruct (find_bar_Some next 0 H) as [k ->]. by destruct (strtol_total (drop (k + 1) next)) as [z ->].
Qed.

(** ** The sender *)

(** A reader with the lines [l :: rest] before it. *)
Definition reader (mode : PbMode) (l : bytes) (rest : list bytes) : PbFileReader :=
  mkPbFileReader l (hd [] rest) (interval_of mode (hd [] rest) l) (tail rest) mode.

Lemma getline_rest rest : Forall good_line rest -> getline_loop rest = (hd [] rest, tail rest).
Proof. intros H. destruct rest as [|l rest]; [done|]. apply Forall_cons in H as [H _]. by apply getline_good. Qed.

Lemma advance_reader mode l l2 rest :
  good_line l -> good_line l2 -> Forall good_line rest ->
  advance (reader mode l (l2 :: rest)) =
    if has_interval mode (hd [] rest) then Ok (reader mode l2 rest) else Fault OutOfBounds.
Proof.
  intros [_ H1] [_ H2] Hr. unfold advance, reader at 1 2 3 4 5. cbn [_current_line _next_line hd tail _file _mode].
  destruct l; [cbn in H1; lia|]. destruct l2 as [|c l2]; [cbn in H2; lia|]. rewrite getline_rest by done.
  destruct (has_interval mode (hd [] rest)) eqn:E; [by rewrite get_interval_ok|].
  destruct mode; [done|]. cbn in E |- *. unfold get_KB_tstamp. by rewrite find_bar_None.
Qed.

Lemma new_reader mode l rest :
  good_line l -> Forall good_line rest ->
  PbFileReader_new (l :: rest) mode = if has_interval mode (hd [] rest) then Ok (reader mode l rest) else Fault OutOfBounds.
Proof.
  intros Hl Hr. unfold PbFileReader_new, advance. cbn [_current_line _next_line _file _mode]. rewrite getline_good, getline_rest by done.
  destruct (has_interval mode (hd [] rest)) eqn:E; [by rewrite get_interval_ok|].
  destruct mode; [done|]. cbn in E |- *. unfold get_KB_tstamp. by rewrite find_bar_None.
Qed.

Lemma read_line_reader mode l rest :
  good_line l -> Forall good_line rest ->
  read_line (reader mode l rest) = (Some l, Z.of_nat (length l) - 1, negb (bool_decide (rest = []))).
Proof.
  intros [_ Hl] Hr. unfold read_line, reader. cbn [_current_line _next_line]. destruct l as [|c l]; [cbn in Hl; lia|].
  destruct rest as [|l2 rest]; [done|]. apply Forall_cons in Hr as [[_ H2] _]. cbn [hd]. destruct l2; [cbn in H2; lia|done].
Qed.

(** The first round whose reading is after [trigger]. *)
Fixpoint first_after (trigger : timespec) (rounds : list (timespec * send_result)) : option (timespec * send_result * list (timespec * send_result)) :=
  match rounds with
  | [] => None
  | r :: rounds => if 0 <? compare_timespec trigger r.1 then Some (r, rounds) else first_after trigger rounds
  end.

(** [send] failed, and not because nobody listens (ECONNREFUSED). *)
Definition refused (result : send_result) : bool := (result.1 <? 0) && negb (result.2 =? 111).

(** The loop on the lines, with the intervals and the clock as the code computes them. *)
Fixpoint replay_file (mode : PbMode) (msg_rate : Z) (lines : list bytes) (trigger : timespec) (rounds : list (timespec * send_result))
    : list (timespec * bytes) * bool :=
  match lines with
  | [] => ([], true)
  | l :: rest =>
      match first_after trigger rounds with
      | None => ([], false)
      | Some ((now, result), rounds) =>
          if refused result then ([(now, removelast l)], true)
          else
            let trigger := advance_time_by_period trigger (u64 (interval_of mode (hd [] rest) l * 1000) / msg_rate) in
            let r := replay_file mode msg_rate rest trigger rounds in
            ((now, removelast l) :: r.1, r.2)
      end
  end.

Lemma take_removelast (l : bytes) : take (Z.to_nat (Z.of_nat (length l) - 1)) l = removelast l.
Proof. rewrite removelast_firstn_len. f_equal. lia. Qed.

Lemma timeout_cb_reader result mode l rest :
  good_line l -> Forall good_line rest ->
  timeout_cb result (reader mode l rest) = (Some (removelast l), negb (refused result) && negb (bool_decide (rest = []))).
Proof.
  intros Hl Hr. unfold timeout_cb. rewrite read_line_reader by done. destruct Hl as [_ Hl].
  rewrite (proj2 (Z.eqb_neq _ _)) by lia. rewrite take_removelast.
  destruct result as [n e]. unfold refused. cbn [fst snd]. by destruct ((n <? 0) && negb (e =? 111)).
Qed.

Lemma send_loop_skip rate rounds trigger r :
  send_loop rate rounds trigger r =
  match first_after trigger rounds with
  | None => Ok ([], false)
  | Some (round, rounds) => send_loop rate (round :: rounds) trigger r
  end.
Proof.
  induction rounds as [|[now result] rounds IH]; [done|]. cbn [first_after fst]. destruct (0 <? compare_timespec trigger now) eqn:E; [done|].
  cbn [send_loop]. rewrite E. exact IH.
Qed.

Lemma first_after_now trigger rounds r rounds' : first_after trigger rounds = Some (r, rounds') -> (0 <? compare_timespec trigger r.1) = true.
Proof.
  induction rounds as [|n rounds IH]; [done|]. cbn. destruct (0 <? compare_timespec trigger n.1) eqn:E; [|done]. by intros [= <- <-].
Qed.

(** The loop with the lines [l :: rest], when the intervals of all further lines can be
    computed. *)
Lemma send_loop_reader mode rate l rest rounds trigger :
  good_line l -> Forall good_line rest ->
  (forall next, next ∈ tail rest ++ [[]] -> has_interval mode next = true) ->
  send_loop rate rounds trigger (reader mode l rest) = Ok (replay_file mode rate (l :: rest) trigger rounds).
Proof.
  revert l rounds trigger. induction rest as [|l2 rest IH]; intros l rounds trigger Hl Hr Hi; rewrite send_loop_skip; cbn [replay_file];
    (destruct (first_after trigger rounds) as [[[now result] rounds']|] eqn:Ef; [|done]); pose proof (first_after_now _ _ _ _ Ef) as Hnow;
    cbn [fst] in Hnow; cbn [send_loop]; rewrite Hnow, timeout_cb_reader by done; destruct (refused result) eqn:Er; cbn [negb andb]; try done.
  rewrite bool_decide_eq_false_2 by done. cbn [negb]. apply Forall_cons in Hr as [H2 Hr]. rewrite advance_reader by done.
  rewrite Hi by (destruct rest; cbn; by left). cbn [mbind res_bind].
  assert (forall next, next ∈ tail rest ++ [[]] -> has_interval mode next = true) as Hi'.
  { intros next Hn. apply Hi. cbn. destruct rest; [done|]. cbn in *. by right. }
  rewrite (IH l2 rounds' _ H2 Hr Hi'). done.
Qed.

(** *** The exact times *)

(** A reading of the clock in nanoseconds, and the readings that can be: the seconds fit
    32 bits. *)
Definition nanos (t : timespec) : Z := tv_sec t * 10 ^ 9 + tv_nsec t.
Definition reading (t : timespec) : Prop := 0 <= tv_sec t < 2 ^ 32 /\ 0 <= tv_nsec t < 10 ^ 9.

(** A line of the exchange's files: eight digits, the milliseconds of the day, and the
    message up to the newline. *)
Definition chix_line (l : bytes) : Prop := good_line l /\ (8 <= length l)%nat /\ Forall is_digit (take 8 l).
Definition stamp_of (l : bytes) : Z := dec_value (take 8 l).

(** The first round later than [due] nanoseconds. *)
Fixpoint first_later (due : Z) (rounds : list (timespec * send_result)) : option (timespec * send_result * list (timespec * send_result)) :=
  match rounds with
  | [] => None
  | r :: rounds => if due <? nanos r.1 then Some (r, rounds) else first_later due rounds
  end.

(** What is given to the socket when, and whether the sender ends: the first line is due
    at [due], and the next when the milliseconds between them have passed, [rate] times
    as fast. *)
Fixpoint replay (rate : Z) (lines : list bytes) (due : Z) (rounds : list (timespec * send_result)) : list (timespec * bytes) * bool :=
  match lines with
  | [] => ([], true)
  | l :: rest =>
      match first_later due rounds with
      | None => ([], false)
      | Some ((now, result), rounds) =>
          if refused result then ([(now, removelast l)], true)
          else
            match rest with
            | [] => ([(now, removelast l)], true)
            | l2 :: _ =>
                let r := replay rate rest (due + (stamp_of l2 - stamp_of l) * 10 ^ 6 / rate) rounds in
                ((now, removelast l) :: r.1, r.2)
            end
      end
  end.

Lemma nanos_i64 t : in_s 64 (nanos t) -> 0 <= tv_sec t -> 0 <= tv_nsec t -> i64 (i64 (tv_sec t * E_9) + tv_nsec t) = nanos t.
Proof. unfold nanos, E_9. change (10 ^ 9) with 1000000000. intros H Hs Hn. rewrite (i64_id (_ * _)), i64_id by zrange. done. Qed.

Lemma reading_nanos t : reading t -> 0 <= nanos t < 2 ^ 62.
Proof. unfold reading, nanos. change (10 ^ 9) with 1000000000. lia. Qed.

(** A trigger time that stands for [due]. *)
Definition triggers (due : Z) (t : timespec) : Prop := nanos t = due /\ 0 <= tv_sec t /\ 0 <= tv_nsec t < 10 ^ 9 /\ due < 2 ^ 62 + 2 ^ 61.

Lemma compare_timespec_spec due t now : triggers due t -> reading now -> compare_timespec t now = nanos now - due.
Proof.
  intros (Hd & Hs & Hn & Hb) Hr. pose proof (reading_nanos _ Hr). destruct Hr. assert (0 <= due) by (rewrite <- Hd; unfold nanos; lia).
  unfold compare_timespec. rewrite !nanos_i64, Hd by (lia || zrange). apply i64_id. zrange.
Qed.

Lemma first_after_spec due t rounds :
  triggers due t -> Forall (fun r => reading r.1) rounds -> first_after t rounds = first_later due rounds.
Proof.
  intros Ht. induction 1 as [|r rounds Hr _ IH]; [done|]. cbn [first_after first_later]. rewrite (compare_timespec_spec due) by done.
  destruct (Z.ltb_spec 0 (nanos r.1 - due)), (Z.ltb_spec due (nanos r.1)); (lia || done).
Qed.

Lemma advance_time_by_period_spec due t period :
  triggers due t -> 0 <= period -> due + period < 2 ^ 62 + 2 ^ 61 -> triggers (due + period) (advance_time_by_period t period).
Proof.
  intros (Hd & Hs & Hn & Hb) Hp Hb'. unfold advance_time_by_period. unfold nanos in Hd. change (10 ^ 9) with 1000000000 in *.
  assert (0 <= due) by lia. unfold E_9. rewrite (u64_id (tv_sec t)), (u64_id (tv_nsec t)), (u64_id period) by zrange.
  rewrite (u64_id (_ * _)), Hd, u64_id by zrange. unfold triggers, nanos. cbn [tv_sec tv_nsec]. change (10 ^ 9) with 1000000000.
  pose proof (Z.div_mod (due + period) 1000000000). pose proof (Z.mod_pos_bound (due + period) 1000000000).
  pose proof (Z.div_pos (due + period) 1000000000). lia.
Qed.

Lemma stamp_bound l : chix_line l -> 0 <= stamp_of l < 10 ^ 8.
Proof. intros (_ & Hl & Hd). pose proof (dec_value_bound _ Hd) as H. rewrite length_take_le in H by done. exact H. Qed.

Lemma get_chix_tstamp_spec l : chix_line l -> get_chix_tstamp l = Ok (stamp_of l).
Proof.
  intros Hc. pose proof (stamp_bound l Hc). destruct Hc as (_ & Hl & Hd). unfold get_chix_tstamp, atoi, stamp_of in *.
  rewrite strtol_digits_only by (done || rewrite length_take; lia). res_simpl. rewrite i32_id by zrange. done.
Qed.

Lemma interval_of_chix l l2 :
  chix_line l -> chix_line l2 -> stamp_of l <= stamp_of l2 ->
  u64 (interval_of CHIX l2 l * 1000) = (stamp_of l2 - stamp_of l) * 10 ^ 6.
Proof.
  intros H1 H2 Hle. pose proof (stamp_bound l H1). pose proof (stamp_bound l2 H2). unfold interval_of, get_interval.
  rewrite !get_chix_tstamp_spec by done. res_simpl. change (10 ^ 8) with 100000000 in *. change (10 ^ 6) with 1000000.
  rewrite i32_id, (u64_id (_ - _)), (u64_id ((_ - _) * 1000)), u64_id by zrange. lia.
Qed.

(** The stamps of a file do not go back. *)
Definition in_order (lines : list bytes) : Prop := StronglySorted (fun l l2 => stamp_of l <= stamp_of l2) lines.

Lemma replay_file_cons mode rate l rest trigger rounds :
  replay_file mode rate (l :: rest) trigger rounds =
  match first_after trigger rounds with
  | None => ([], false)
  | Some ((now, result), rounds) =>
      if refused result then ([(now, removelast l)], true)
      else
        let r := replay_file mode rate rest
          (advance_time_by_period trigger (u64 (interval_of mode (hd [] rest) l * 1000) / rate)) rounds in
        ((now, removelast l) :: r.1, r.2)
  end.
Proof. done. Qed.

Lemma replay_cons rate l rest due rounds :
  replay rate (l :: rest) due rounds =
  match first_later due rounds with
  | None => ([], false)
  | Some ((now, result), rounds) =>
      if refused result then ([(now, removelast l)], true)
      else
        match rest with
        | [] => ([(now, removelast l)], true)
        | l2 :: _ =>
            let r := replay rate rest (due + (stamp_of l2 - stamp_of l) * 10 ^ 6 / rate) rounds in
            ((now, removelast l) :: r.1, r.2)
        end
  end.
Proof. done. Qed.

Lemma replay_file_spec rate l rest due t rounds :
  1 <= rate -> Forall chix_line (l :: rest) -> in_order (l :: rest) -> Forall (fun r => reading r.1) rounds ->
  triggers due t -> due <= 2 ^ 62 + 10 ^ 6 * stamp_of l ->
  replay_file CHIX rate (l :: rest) t rounds = replay rate (l :: rest) due rounds.
Proof.
  intros Hrate. revert l due t rounds. induction rest as [|l2 rest IH]; intros l due t rounds Hg Hs Hr Ht Hb;
    rewrite replay_file_cons, replay_cons, (first_after_spec due) by done; destruct (first_later due rounds) as [[[now result] rounds']|] eqn:Ef; try done;
    destruct (refused result); try done.
  apply Forall_cons in Hg as [Hl Hg]. pose proof Hg as Hg2. apply Forall_cons in Hg2 as [Hl2 _].
  inversion Hs as [|? ? Hs2 Hle]; subst. apply Forall_cons in Hle as [Hle _].
  pose proof (stamp_bound l Hl). pose proof (stamp_bound l2 Hl2). change (10 ^ 8) with 100000000 in *.
  cbn [hd]. rewrite interval_of_chix by done.
  assert (0 <= (stamp_of l2 - stamp_of l) * 10 ^ 6 / rate <= (stamp_of l2 - stamp_of l) * 10 ^ 6).
  { split; [apply Z.div_pos; lia|]. apply Z.div_le_upper_bound; nia. }
  rewrite (IH l2 (due + (stamp_of l2 - stamp_of l) * 10 ^ 6 / rate)); [done|done|done| | |lia].
  - clear - Ef Hr. revert Ef. induction Hr as [|r rs Hr0 Hrs IH]; [done|]. cbn. destruct (due <? nanos r.1); [by intros [= -> ->]|done].
  - apply advance_time_by_period_spec; [done|lia|lia].
Qed.

(** C38: MsgSenderApp replays a file in the exchange's format: every line is given to the
    socket once, in the order of the file and without its newline, each at the first
    reading of the clock after it is due.  The first is due when the program starts, and
    every other [(s' - s) * 10^6 / rate] nanoseconds, rounded down, after the line before
    it, [s] and [s'] being the milliseconds that the two lines begin with.  It ends after
    the last line, or after one that [send] fails for, unless because nobody listens.
    The lines begin with eight digits, which do not decrease, and the clock has seconds
    below 2^32. *)
Theorem chix_sender_replays rate l rest start rounds :
  1 <= rate -> Forall chix_line (l :: rest) -> in_order (l :: rest) ->
  reading start -> Forall (fun r => reading r.1) rounds ->
  msg_sender CHIX rate (l :: rest) start rounds = Ok (replay rate (l :: rest) (nanos start) rounds).
Proof.
  intros Hrate Hg Hs Hst Hr. pose proof (reading_nanos _ Hst).
  assert (Forall good_line (l :: rest)) as Hgood by (eapply Forall_impl; [exact Hg|by intros x []]).
  apply Forall_cons in Hgood as [Hl Hrest]. unfold msg_sender. rewrite new_reader by done. cbn [has_interval mbind res_bind].
  rewrite (proj2 (Z.ltb_ge _ _)) by lia. rewrite send_loop_reader by done. f_equal. apply replay_file_spec; try done.
  - unfold triggers. destruct Hst as [? ?]. lia.
  - apply Forall_cons in Hg as [Hg _]. pose proof (stamp_bound l Hg). lia.
Qed.

Lemma send_loop_kb rate l rest rounds trigger :
  good_line l -> Forall good_line rest -> Forall (fun l => has_bar l = true) rest ->
  length (replay_file KB rate (l :: rest) trigger rounds).1 = S (length rest) -> rest <> [] ->
  send_loop rate rounds trigger (reader KB l rest) = Fault OutOfBounds.
Proof.
  revert l rounds trigger. induction rest as [|l2 rest IH]; intros l rounds trigger Hl Hr Hb Hlen Hne; [done|]. rewrite send_loop_skip.
  rewrite replay_file_cons in Hlen. destruct (first_after trigger rounds) as [[[now result] rounds']|] eqn:Ef; [|cbn in Hlen; lia].
  pose proof (first_after_now _ _ _ _ Ef) as Hnow. cbn [fst] in Hnow. cbn [send_loop]. rewrite Hnow, timeout_cb_reader by done.
  destruct (refused result); [cbn in Hlen; lia|].
  rewrite bool_decide_eq_false_2 by done. cbn [negb andb]. apply Forall_cons in Hr as [H2 Hr]. rewrite advance_reader by done.
  apply Forall_cons in Hb as [Hb2 Hb]. destruct rest as [|l3 rest]; [done|]. cbn [hd has_interval].
  pose proof Hb as Hb3. apply Forall_cons in Hb3 as [-> _]. cbn [mbind res_bind].
  cbn [fst] in Hlen. rewrite length_cons in Hlen. apply Nat.succ_inj in Hlen.
  rewrite (IH l2 rounds' (advance_time_by_period trigger (u64 (_interval (reader KB l (l2 :: l3 :: rest)) * 1000) / rate)) H2 Hr Hb Hlen); done.
Qed.

(** In the project's own format, which is the default, the sender never sends the
    last line: after the line before it, it looks for the interval of a line that is
    not there, in a buffer without a bar, and the loop that compares its pointer with
    NUL leaves the buffer. *)
Theorem kb_sender_overruns rate l rest start rounds :
  1 <= rate -> Forall good_line (l :: rest) -> Forall (fun l => has_bar l = true) rest ->
  length (replay_file KB rate (l :: rest) start rounds).1 = S (length rest) ->
  msg_sender KB rate (l :: rest) start rounds = Fault OutOfBounds.
Proof.
  intros Hrate Hg Hb Hlen. apply Forall_cons in Hg as [Hl Hr]. unfold msg_sender. rewrite new_reader by done.
  destruct rest as [|l2 rest]; [done|]. cbn [hd has_interval]. pose proof Hb as Hb2. apply Forall_cons in Hb2 as [-> _]. cbn [mbind res_bind].
  rewrite (proj2 (Z.ltb_ge _ _)) by lia. by apply send_loop_kb.
Qed.

(** ** From the file to the indicators *)

Lemma length_write_at at_ src data : (at_ + length src <= length data)%nat -> length (write_at at_ src data) = length data.
Proof. intros H. unfold write_at. rewrite !length_app, length_take, length_drop. lia. Qed.

(** A message that starts with the reserved field, as the kernel module leaves it. *)
Lemma hook_stamps netif timestamp dev headers rest :
  length headers = s_ip_udp_len -> match netif with Some d => dev = d | None => True end -> rest <> [] ->
  custom_hook_new netif timestamp dev (headers ++ replicate reserved_field_len 82 ++ rest) =
    take 26 headers ++ [0; 0] ++ le_encode 8 timestamp ++ [82] ++ rest.
Proof.
  intros Hh Hd Hr. unfold custom_hook_new. assert (1 <= length rest)%nat as Hl by (destruct rest; [done|cbn; lia]).
  assert (match netif with Some d => negb (dev =? d)%nat | None => false end = false) as ->.
  { destruct netif; [|done]. rewrite Hd. by rewrite Nat.eqb_refl. }
  rewrite !length_app, length_replicate, Hh. rewrite (proj2 (Nat.ltb_ge _ _)) by lia.
  rewrite <- Hh, drop_app_length. change (take reserved_field_len (replicate reserved_field_len 82 ++ rest)) with (replicate reserved_field_len 82).
  cbn [reserved_field_len replicate forallb Z.eqb Pos.eqb andb negb]. unfold write_at at 2. rewrite take_app_length, drop_app_add, length_le_encode.
  cbn [replicate reserved_field_len drop app]. unfold write_at. rewrite Hh. cbn [length]. change (s_ip_udp_len - 2)%nat with 26%nat.
  rewrite take_app_le by (rewrite Hh; unfold s_ip_udp_len; lia). f_equal. cbn [app]. do 2 f_equal.
  change (26 + 2)%nat with s_ip_udp_len. by rewrite <- Hh, drop_app_length.
Qed.

Lemma digits_no_bar s : Forall is_digit s -> no_bar s.
Proof. intros Hs. eapply Forall_impl; [exact Hs|]. intros c Hc E. subst c. by destruct Hc. Qed.

(** The sender gives a line to the socket without its newline. *)
Lemma timeout_cb_line result reader text :
  _current_line reader = text ++ [10] -> text <> [] -> exists more, timeout_cb result reader = (Some text, more).
Proof.
  intros Hl Ht. assert (length (text ++ [10]) = S (length text)) as E by (rewrite length_app; cbn; lia).
  assert (exists status, read_line reader = (Some (text ++ [10]), Z.of_nat (length text), status)) as [status Hr].
  { unfold read_line. rewrite Hl, E. destruct text as [|c text]; [done|]. cbn [app Nat.ltb Nat.leb].
    rewrite Nat2Z.inj_succ, Z.sub_1_r, Z.pred_succ. destruct (_next_line reader); by eexists. }
  unfold timeout_cb. rewrite Hr. rewrite (proj2 (Z.eqb_neq _ _)) by (destruct text; [done|cbn; lia]).
  rewrite Nat2Z.id, take_app_length. destruct result as [n e]. destruct (_ && _); by eexists.
Qed.

(** C37: A line of the project's trade files that the sender gives to the socket reaches
    the indicators as the trade that it tells: after the kernel module has put its time
    stamp over the front of the datagram, it is parsed by the baseline and, behind a MAC
    header, by Click's trade processor to the line's symbol, its size and its price,
    rounded down to a multiple of 2^-40, with that time stamp.  The UDP checksum is zero
    then, so that the change is not taken for damage.  The symbol has at most nine
    characters, the size at most 18 digits, and the price at most six decimals and none
    or two to nine digits before the point, below 2^23 - 1: with one digit it would be
    read as zero.  Which lines are given to the socket is not part of this: in this
    format the sender loses the last. *)
Theorem stamped_line_parses netif timestamp dev mac headers delta symbol w f size result reader t
  (Hm : length mac = 14%nat) (Hh : length headers = s_ip_udp_len) (Hd : match netif with Some d => dev = d | None => True end)
  (Hts : in_u 64 timestamp) (Hdelta : no_bar delta) (Hsym : no_bar symbol)
  (Hsym0 : Forall (fun c => c <> 0) symbol) (Hsyml : (length symbol <= 9)%nat)
  (Hw : Forall is_digit w) (Hf : Forall is_digit f) (Hw1 : length w <> 1%nat)
  (Hwl : (length w <= 9)%nat) (Hfl : (1 <= length f <= 6)%nat) (Hv : dec_value w < 2 ^ 23 - 1)
  (Hsize : Forall is_digit size) (Hsz : (1 <= length size <= 18)%nat)
  (Hline : _current_line reader = trade_text (replicate reserved_field_len 82) delta symbol (w ++ [46] ++ f) size ++ [10]) :
  exists datagram more, timeout_cb result reader = (Some datagram, more) /\
  let received := custom_hook_new netif timestamp dev (headers ++ datagram) in
  let price := (dec_value w * 10 ^ Z.of_nat (length f) + dec_value f) * 2 ^ 40 / 10 ^ Z.of_nat (length f) in
  let msg := mkMsgTrade price (dec_value size) (symbol_field symbol) 0 timestamp in
  length received = length (headers ++ datagram) /\ take 2 (drop 26 received) = [0; 0] /\
  populate_msg_trade MsgTrade_new (drop s_ip_udp_len received) = Ok (Some msg) /\
  populate_msg_trade_click MsgTrade_new (mkPacket t (mac ++ received)) = Ok (Some msg).
Proof.
  destruct (ParsingProps.parse_price_spec w f Hw Hf Hw1 Hwl Hfl Hv) as (p & Hp & Ep).
  destruct (timeout_cb_line result reader _ Hline) as [more Hcb]; [done|]. eexists _, more. split; [exact Hcb|]. rewrite <- Ep. clear Hcb Ep.
  intros received price msg. subst price. unfold received.
  set (rest := [124] ++ delta ++ [124] ++ symbol ++ [124] ++ (w ++ [46] ++ f) ++ [124] ++ size).
  change (trade_text (replicate reserved_field_len 82) delta symbol (w ++ [46] ++ f) size) with (replicate reserved_field_len 82 ++ rest).
  rewrite hook_stamps by done. assert (length (take 26 headers) = 26%nat) as Hl by (rewrite length_take, Hh; done).
  assert (length (le_encode 8 timestamp) = 8%nat) as He by apply length_le_encode.
  assert (le_decode (le_encode 8 timestamp) = timestamp) as Hdec by (rewrite le_decode_encode; apply Z.mod_small; exact Hts).
  destruct (ParsingProps.trade_text_parses (mac ++ take 26 headers ++ [0; 0]) (le_encode 8 timestamp) [82] delta symbol
    (w ++ [46] ++ f) size p (dec_value size) t) as [P1 P2]; try done.
  { rewrite !length_app, Hl, Hm. done. }
  { by repeat constructor. }
  { unfold no_bar. rewrite !Forall_app. split_and!; [by apply digits_no_bar| |by apply digits_no_bar]. by repeat constructor. }
  { by apply digits_no_bar. }
  { destruct size; [cbn in Hsz; lia|done]. }
  { apply strtol_digits_only; [done|lia]. }
  rewrite Hdec in P1, P2. split_and!.
  - rewrite !length_app, He, Hl, Hh, length_replicate. done.
  - rewrite <- Hl at 1. by rewrite drop_app_length.
  - change s_ip_udp_len with (26 + 2)%nat. rewrite <- Hl at 1. rewrite drop_app_add. exact P1.
  - rewrite <- !app_assoc in P2. exact P2.
Qed.

Definition demo_line : bytes := bytes_of_string "RRRRRRRRR|566000|SYM3|11.1796|930".

Lemma stamped_line_parses_witness :
  let reader := mkPbFileReader (demo_line ++ [10]) (demo_line ++ [10]) 566000 [] KB in
  exists datagram more, timeout_cb (33, 0) reader = (Some datagram, more) /\
  populate_msg_trade MsgTrade_new (drop 28 (custom_hook_new (Some 3%nat) 77 3 (replicate 28 7 ++ datagram))) =
    Ok (Some (mkMsgTrade (111796 * 2 ^ 40 / 10000) 930 (symbol_field (bytes_of_string "SYM3")) 0 77)).
Proof.
  intros reader.
  destruct (stamped_line_parses (Some 3%nat) 77 3 (replicate 14 1) (replicate 28 7) (bytes_of_string "566000") (bytes_of_string "SYM3")
    (bytes_of_string "11") (bytes_of_string "1796") (bytes_of_string "930") (33, 0) reader NO_APP_MSG)
    as (datagram & more & Hcb & _ & _ & H & _).
  1-3: done.
  1: by vm_compute.
  1-3: repeat constructor; discriminate.
  1: cbn; lia.
  1-2: repeat constructor; discriminate.
  1: discriminate.
  1-2: cbn; lia.
  1: by vm_compute.
  1: repeat constructor; discriminate.
  1: cbn; lia.
  1: by vm_compute.
  exists datagram, more. split; [exact Hcb|exact H].
Defined.

Definition second (n : Z) : timespec := mkTimespec n 0.

(** Rounds at these seconds in which all is sent. *)
Definition rounds_at (ns : list Z) : list (timespec * send_result) := map (fun n => (second n, (10, 0))) ns.

(** Three messages, 1500 and 200 milliseconds apart, at double speed. *)
Definition chix_file : list bytes :=
  map (fun s => bytes_of_string s ++ [10]) ["36000000A1"%string; "36001500A2"%string; "36001700A3"%string].

Lemma chix_sender_replays_witness :
  msg_sender CHIX 2 chix_file (second 5) (rounds_at [5; 6; 6; 7; 8])
    = Ok ([(second 6, bytes_of_string "36000000A1"); (second 6, bytes_of_string "36001500A2"); (second 7, bytes_of_string "36001700A3")], true).
Proof.
  etransitivity.
  - apply (chix_sender_replays 2); [lia| | | |]; unfold chix_line, good_line, in_order, reading; cbn [map chix_file rounds_at];
      repeat constructor; vm_compute; (done || lia).
  - by vm_compute.
Defined.

(** The first lines of data/trades.txt. *)
Definition kb_file : list bytes :=
  map (fun s => bytes_of_string s ++ [10]) ["RRRRRRRRR|0|SYM1|294.5|100"%string; "RRRRRRRRR|1469000|SYM2|358.7968|500"%string].
Lemma kb_sender_overruns_witness :
  msg_sender KB 1 kb_file (second 0) (rounds_at [1; 2; 3; 4]) = Fault OutOfBounds.
Proof.
  apply (kb_sender_overruns 1).
  - lia.
  - repeat constructor; cbn; (lia || discriminate).
  - by repeat constructor.
  - by vm_compute.
Defined.
