(* ===== verification/Shmq.v ===== *)
(** * Shmq: messages from the kernel to user space

    The kernel module shmq (kernel_modules/shmq/shmq.c) takes messages from other
    modules, such as packet_capture, puts them into a kfifo, and a worker moves them
    from there to a System V message queue; Click's ShmQueue element writes to such a
    queue directly.  The clients (tools/shmq_client) read from it.

    The kfifo of the kernel is an interface ([Kfifo]): a bounded queue of bytes that
    takes as much of what it is given as there is room for.  The message queue is the
    list of what was sent; the result of every call of [msgsnd] is an argument, and a
    call whose result is negative puts nothing on the queue. *)

From stdpp Require Import pretty.
From S2P Require Import Prelude Messages FirstGen.

(** ** The kernel's kfifo *)

Class Kfifo (F : Type) := {
  kfifo_len : F -> nat;
  kfifo_in : F -> bytes -> F * nat;
  kfifo_out : F -> nat -> F * bytes
}.

(** [contents] are the bytes in it, at most [size]. *)
Class KfifoLaws (F : Type) `{Kfifo F} (size : nat) (contents : F -> bytes) : Prop := {
  kf_len : forall f, kfifo_len f = length (contents f);
  kf_bound : forall f, (length (contents f) <= size)%nat;
  kf_in : forall f b, let n := Nat.min (length b) (size - length (contents f)) in
    contents (kfifo_in f b).1 = contents f ++ take n b /\ (kfifo_in f b).2 = n;
  kf_out : forall f n, contents (kfifo_out f n).1 = drop n (contents f) /\ (kfifo_out f n).2 = take n (contents f)
}.

(** ** shmq *)

Definition SHMQ_MSG_MAX_DATA_LEN : nat := 120.
Definition SHMQ_MSG_KERNEL_TYPE : Z := 1.
(** [sizeof (struct shmq_msg)] and of its part without the type *)
Definition shmq_msg_len : nat := 136.
Definition RING_SIZE : nat := 2048.

(** [struct shmq_msg] with the message in it, cut off to leave a NUL *)
Definition fill_msg (msg : bytes) : bytes :=
  let copy_size := if (SHMQ_MSG_MAX_DATA_LEN <=? length msg)%nat then (SHMQ_MSG_MAX_DATA_LEN - 1)%nat else length msg in
  le_encode 8 SHMQ_MSG_KERNEL_TYPE ++ le_encode 8 (Z.of_nat copy_size) ++
  take copy_size msg ++ replicate (SHMQ_MSG_MAX_DATA_LEN - copy_size) 0.

(** [msgsnd], with its result; a message is its type and the rest. *)
Definition msgsnd (result : Z) (msg : Z * bytes) (queue : list (Z * bytes)) : list (Z * bytes) :=
  if result <? 0 then queue else queue ++ [msg].

Section shmq.
Context {F : Type} `{Kfifo F}.

(** The module, and the messages that it has put on the system's queue. *)
Record Shmq := mkShmq {
  s_ring_buffer : F;
  cancel_work : bool;
  s_max_msg_size : nat;
  sent : list (Z * bytes)
}.

Definition shm_queue_send_msg (msg : bytes) (s : Shmq) : Shmq * Z :=
  if cancel_work s then (s, 0)
  else
    let max := if (s_max_msg_size s <? length msg)%nat then length msg else s_max_msg_size s in
    let r := kfifo_in (s_ring_buffer s) (fill_msg msg) in
    (mkShmq r.1 (cancel_work s) max (sent s), Z.of_nat r.2).

(** One round of the worker, in which [msgsnd] would return [result], which the code
    does not look at; without a whole message it sleeps. *)
Definition send_msg_from_queue (result : Z) (s : Shmq) : Shmq :=
  if cancel_work s || (kfifo_len (s_ring_buffer s) <? shmq_msg_len)%nat then s
  else
    let r := kfifo_out (s_ring_buffer s) shmq_msg_len in
    mkShmq r.1 (cancel_work s) (s_max_msg_size s) (msgsnd result (le_decode (take 8 r.2), drop 8 r.2) (sent s)).

Definition cleanup_func (s : Shmq) : Shmq := mkShmq (s_ring_buffer s) true (s_max_msg_size s) (sent s).

(** packet_capture: a packet of the device is sent with its MAC header and consumed;
    others are passed on. *)
Definition capture_hook (s_capture_netif : option nat) (dev : nat) (mac data : bytes) (s : Shmq) : Shmq * option bytes :=
  if match s_capture_netif with Some d => negb (dev =? d)%nat | None => false end then (s, Some data)
  else ((shm_queue_send_msg (mac ++ data) s).1, None).

Inductive ShmqAct := Send (msg : bytes) | Work (result : Z).
Definition shmq_act (a : ShmqAct) (s : Shmq) : Shmq :=
  match a with
  | Send msg => (shm_queue_send_msg msg s).1
  | Work result => send_msg_from_queue result s
  end.
Definition shmq_run (acts : list ShmqAct) (s : Shmq) : Shmq := fold_left (fun s a => shmq_act a s) acts s.
End shmq.
Arguments Shmq : clear implicits.

(** What a client makes of a message: its first bytes as the size tells. *)
Definition client_data (m : Z * bytes) : bytes := take (Z.to_nat (le_decode (take 8 m.2))) (drop 8 m.2).

(** Click's element sends a trade message as it is in the packet. *)
Definition ShmQueue_push (active : bool) (result : Z) (data : bytes) (queue : list (Z * bytes)) : res (list (Z * bytes)) :=
  if negb active then Ok queue
  else
    let* msg_trade := read_at 0 sizeof_MsgTrade data in
    Ok (msgsnd result (SHMQ_MSG_KERNEL_TYPE, drop 8 (fill_msg msg_trade)) queue).

(** ** CyclesCounter *)

Definition MAX_PREV_COUNTERS : nat := 100.

Record CyclesCounter := mkCyclesCounter {
  _cycles_counter : Z;
  _reporting_interval : Z;
  _current_interval : Z;
  _num_prev_counters : Z;
  _prev_counters : list Z
}.
Definition CyclesCounter_new : CyclesCounter := mkCyclesCounter 0 0 0 0 (replicate MAX_PREV_COUNTERS 0).

Definition set_reporting_interval (n : Z) (c : CyclesCounter) : CyclesCounter :=
  mkCyclesCounter (_cycles_counter c) n (_current_interval c) (_num_prev_counters c) (_prev_counters c).

Definition update_prev_counters (c : CyclesCounter) : CyclesCounter :=
  mkCyclesCounter (_cycles_counter c) (_reporting_interval c) (_current_interval c) (u32 (_num_prev_counters c + 1))
    (<[Z.to_nat (_num_prev_counters c mod Z.of_nat MAX_PREV_COUNTERS) := _cycles_counter c]> (_prev_counters c)).

Definition update_counter (value : Z) (c : CyclesCounter) : CyclesCounter * bool :=
  let c := mkCyclesCounter (u64 (_cycles_counter c + value)) (_reporting_interval c) (i32 (_current_interval c + 1))
             (_num_prev_counters c) (_prev_counters c) in
  if _reporting_interval c <=? _current_interval c then
    (update_prev_counters (mkCyclesCounter (_cycles_counter c) (_reporting_interval c) 0 (_num_prev_counters c) (_prev_counters c)), true)
  else (c, false).

Definition reset_counter (c : CyclesCounter) : CyclesCounter :=
  mkCyclesCounter 0 (_reporting_interval c) (_current_interval c) (_num_prev_counters c) (_prev_counters c).

(** [snprintf (..., remaining_size, "%llu,", v)] *)
Definition print_counter (v : Z) : bytes := bytes_of_string (pretty (Z.to_N v)) ++ [44].

(** The loop over [n] rounds from [i] on. *)
Fixpoint print_counters (c : CyclesCounter) (n : nat) (i remaining_size : Z) : bytes :=
  match n with
  | O => []
  | S n =>
      if 0 <=? i32 (_num_prev_counters c) - i - 1 then
        let v := nth (Z.to_nat (u32 (_num_prev_counters c - i - 1) mod Z.of_nat MAX_PREV_COUNTERS)) (_prev_counters c) 0 in
        let text := print_counter v in
        let remaining := remaining_size - Z.of_nat (length text) in
        take (Z.to_nat (remaining_size - 1)) text ++ (if remaining <? 1 then [] else print_counters c n (i + 1) remaining)
      else []
  end.
Definition get_x_last_counters_str (buf_len : Z) (num_of_intervals : nat) (c : CyclesCounter) : bytes :=
  print_counters c num_of_intervals 0 buf_len.

(** What the client does with a message: the cycles since the time stamp. *)
Definition print_time_stamp (now timestamp : Z) (c : CyclesCounter) : CyclesCounter :=
  reset_counter (update_counter (u64 (now - timestamp)) c).1.

(** ** Properties *)

Lemma fill_msg_length msg : length (fill_msg msg) = shmq_msg_len.
Proof.
  unfold fill_msg. rewrite !length_app, !length_le_encode, length_replicate, length_take. unfold SHMQ_MSG_MAX_DATA_LEN, shmq_msg_len.
  destruct (Nat.leb_spec 120 (length msg)); lia.
Qed.

(** What the system's queue gets for a message. *)
Definition delivered (msg : bytes) : Z * bytes := (SHMQ_MSG_KERNEL_TYPE, drop 8 (fill_msg msg)).

Lemma fill_msg_type msg : le_decode (take 8 (fill_msg msg)) = SHMQ_MSG_KERNEL_TYPE.
Proof. unfold fill_msg. change (take 8 (le_encode 8 SHMQ_MSG_KERNEL_TYPE ++ ?x)) with (le_encode 8 SHMQ_MSG_KERNEL_TYPE). done. Qed.

(** A client reads the message back, but for what is cut off. *)
Lemma client_data_delivered msg : client_data (delivered msg) = take 119 msg.
Proof.
  unfold client_data, delivered, fill_msg. set (n := if (SHMQ_MSG_MAX_DATA_LEN <=? length msg)%nat then _ else _).
  assert (n <= 119 /\ take n msg = take 119 msg)%nat as [Hn Et].
  { unfold n, SHMQ_MSG_MAX_DATA_LEN. destruct (Nat.leb_spec 120 (length msg)); [done|]. split; [lia|]. by rewrite !take_ge by lia. }
  cbn [snd]. change (drop 8 (le_encode 8 SHMQ_MSG_KERNEL_TYPE ++ ?x)) with x.
  rewrite take_app_length', drop_app_length' by (symmetry; apply length_le_encode).
  rewrite le_decode_encode, Z.mod_small by lia. rewrite Nat2Z.id.
  assert (length (take n msg) = n) as Hl.
  { rewrite length_take. unfold n, SHMQ_MSG_MAX_DATA_LEN. destruct (Nat.leb_spec 120 (length msg)); lia. }
  rewrite <- Hl at 1. by rewrite take_app_length.
Qed.

Section shmq_props.
Context {F : Type} `{KfifoLaws F RING_SIZE contents}.
Implicit Types s : Shmq F.

(** The queue holds the messages [pending]. *)
Definition framed (pending : list bytes) s : Prop := contents (s_ring_buffer s) = concat (map fill_msg pending) /\ cancel_work s = false.

(** There is room for every message when it is sent. *)
Fixpoint roomy (acts : list ShmqAct) s : Prop :=
  match acts with
  | [] => True
  | a :: acts =>
      match a with Send _ => (kfifo_len (s_ring_buffer s) + shmq_msg_len <= RING_SIZE)%nat | Work _ => True end /\ roomy acts (shmq_act a s)
  end.

(** What the module promises: the messages that have arrived and those that wait.  A
    round of the worker takes the oldest of those that wait, which is lost when the
    call of [msgsnd] fails. *)
Definition queue_act (a : ShmqAct) (q : list bytes * list bytes) : list bytes * list bytes :=
  match a, q.2 with
  | Send msg, waiting => (q.1, waiting ++ [msg])
  | Work _, [] => q
  | Work result, msg :: waiting => (if result <? 0 then q.1 else q.1 ++ [msg], waiting)
  end.
Definition queue_run (acts : list ShmqAct) (q : list bytes * list bytes) : list bytes * list bytes :=
  fold_left (fun q a => queue_act a q) acts q.

Definition sends (acts : list ShmqAct) : list bytes := omap (fun a => match a with Send m => Some m | Work _ => None end) acts.
Definition all_sent (acts : list ShmqAct) : Prop := Forall (fun a => match a with Send _ => True | Work result => 0 <= result end) acts.

Lemma queue_run_lossless acts q : all_sent acts -> (queue_run acts q).1 ++ (queue_run acts q).2 = q.1 ++ q.2 ++ sends acts.
Proof.
  revert q. induction acts as [|a acts IH]; intros [arrived waiting] Ha; [by cbn; rewrite app_nil_r|].
  apply Forall_cons in Ha as [Ha Hs]. cbn [queue_run fold_left]. unfold queue_run in IH. rewrite IH by done. unfold queue_act.
  destruct a as [msg|result]; cbn [fst snd]; [by rewrite <- app_assoc|].
  destruct waiting as [|msg waiting]; [done|]. rewrite (proj2 (Z.ltb_ge _ _)) by done. cbn [fst snd]. by rewrite <- app_assoc.
Qed.

Lemma send_framed msg pending s :
  framed pending s -> (kfifo_len (s_ring_buffer s) + shmq_msg_len <= RING_SIZE)%nat ->
  framed (pending ++ [msg]) (shm_queue_send_msg msg s).1 /\ sent (shm_queue_send_msg msg s).1 = sent s /\
  (shm_queue_send_msg msg s).2 = Z.of_nat shmq_msg_len.
Proof.
  intros [Hc Hw] Hroom. unfold shm_queue_send_msg. rewrite Hw. cbn [fst snd s_ring_buffer cancel_work sent].
  destruct (kf_in (s_ring_buffer s) (fill_msg msg)) as [E1 E2]. rewrite kf_len in Hroom. pose proof (fill_msg_length msg) as Hl.
  split_and!; [|done|rewrite E2; f_equal; lia]. split; [|done]. cbn [s_ring_buffer]. rewrite E1, take_ge by lia. by rewrite map_app, concat_app, Hc; cbn; rewrite app_nil_r.
Qed.

Lemma work_framed result pending s :
  framed pending s ->
  framed (tail pending) (send_msg_from_queue result s) /\
  sent (send_msg_from_queue result s) = sent s ++ (if result <? 0 then [] else map delivered (option_list (head pending))).
Proof.
  intros [Hc Hw]. unfold send_msg_from_queue, msgsnd. rewrite Hw, kf_len, Hc. cbn [orb]. destruct pending as [|m pending]; cbn [map concat tail head option_list].
  - cbn. destruct (result <? 0); rewrite app_nil_r; by split.
  - rewrite length_app, fill_msg_length. rewrite (proj2 (Nat.ltb_ge _ _)) by lia. destruct (kf_out (s_ring_buffer s) shmq_msg_len) as [E1 E2].
    rewrite Hc in E1, E2. cbn [map concat] in E1, E2. rewrite drop_app_length' in E1 by (symmetry; apply fill_msg_length).
    rewrite take_app_length' in E2 by (symmetry; apply fill_msg_length). rewrite E2. cbn [sent]. rewrite fill_msg_type.
    destruct (result <? 0); rewrite ?app_nil_r; by split.
Qed.

Lemma run_framed acts q s :
  framed q.2 s -> sent s = map delivered q.1 -> roomy acts s ->
  framed (queue_run acts q).2 (shmq_run acts s) /\ sent (shmq_run acts s) = map delivered (queue_run acts q).1.
Proof.
  revert q s. induction acts as [|a acts IH]; intros [arrived waiting] s Hf Hs Hr; [done|]. cbn [roomy fst snd] in *.
  destruct Hr as [Ha Hr]. apply IH; [| |exact Hr]; destruct a as [msg|result]; cbn [shmq_act queue_act fst snd].
  - apply (send_framed msg waiting s Hf Ha).
  - destruct (work_framed result waiting s Hf) as [Hf' _]. by destruct waiting.
  - destruct (send_framed msg waiting s Hf Ha) as (_ & -> & _). done.
  - destruct (work_framed result waiting s Hf) as [_ ->]. rewrite Hs.
    destruct waiting; cbn; destruct (result <? 0); rewrite ?app_nil_r; cbn [fst]; [done..|by rewrite map_app].
Qed.

(** C39: The kernel module is a first-in first-out queue: in any order of sending and
    of the worker's rounds, as long as its ring has room for a message whenever one is
    sent, a client reads the messages that [queue_run] says have arrived, whole but cut
    off after 119 bytes, in order and once each, and the ring holds those that wait.  A
    message is lost exactly when the call of [msgsnd] for it fails, whose result the code
    ignores; when no call fails, every message sent has arrived or waits. *)
Theorem shmq_delivers acts s :
  contents (s_ring_buffer s) = [] -> cancel_work s = false -> sent s = [] -> roomy acts s ->
  contents (s_ring_buffer (shmq_run acts s)) = concat (map fill_msg (queue_run acts ([], [])).2) /\
  map client_data (sent (shmq_run acts s)) = map (take 119) (queue_run acts ([], [])).1 /\
  (all_sent acts -> (queue_run acts ([], [])).1 ++ (queue_run acts ([], [])).2 = sends acts).
Proof.
  intros Hc Hw Hs Hr. destruct (run_framed acts ([], []) s) as ([Hp _] & E); [by split|done|done|].
  split_and!; [exact Hp| |by apply queue_run_lossless]. rewrite E, map_map. apply map_ext, client_data_delivered.
Qed.
End shmq_props.

(** A kfifo as a list, of which at most [RING_SIZE] bytes count. *)
#[global] Instance list_kfifo : Kfifo bytes := {
  kfifo_len f := length (take RING_SIZE f);
  kfifo_in f b := let c := take RING_SIZE f in let n := Nat.min (length b) (RING_SIZE - length c) in (c ++ take n b, n);
  kfifo_out f n := (drop n (take RING_SIZE f), take n (take RING_SIZE f))
}.

#[global] Instance list_kfifo_laws : KfifoLaws bytes RING_SIZE (take RING_SIZE).
Proof.
  split.
  - done.
  - intros f. rewrite length_take. lia.
  - intros f b n. subst n. cbn [kfifo_in list_kfifo fst snd]. split; [|done]. apply take_ge. rewrite length_app, !length_take. lia.
  - intros f n. cbn [kfifo_out list_kfifo fst snd]. split; [|done]. apply take_ge. rewrite length_drop, length_take. lia.
Qed.

Definition idle_shmq : Shmq bytes := mkShmq [] false 0 [].

Lemma shmq_delivers_witness :
  let acts := [Send [65]; Send [66; 67]; Work 0; Send (replicate 300 68); Work (-1); Work 0; Work 0] in
  map client_data (sent (shmq_run acts idle_shmq)) = [[65]; replicate 119 68] /\
  s_ring_buffer (shmq_run acts idle_shmq) = [].
Proof.
  destruct (shmq_delivers (F := bytes) [Send [65]; Send [66; 67]; Work 0; Send (replicate 300 68); Work (-1); Work 0; Work 0] idle_shmq)
    as (E1 & E2 & _).
  1-3: done.
  - vm_compute. repeat split; lia.
  - cbv zeta. rewrite E2. split; by vm_compute.
Defined.

(** When the ring is full, [kfifo_in] takes only the part of a message that fits, and
    nobody looks at its result.  From then on the worker cuts the ring in the wrong
    places: after sixteen messages of one byte and fifteen rounds, the next message to
    arrive starts with the remains of the sixteenth, its size is the type of the
    seventeenth and its only byte was never sent. *)
Theorem shmq_overflow_misframes :
  let acts := replicate 16 (Send [65]) ++ replicate 15 (Work 0) ++ [Send [66; 67]; Work 0] in
  exists m, sent (shmq_run acts idle_shmq) = replicate 15 (delivered [65]) ++ [m] /\
    client_data m = [2] /\ length (s_ring_buffer (shmq_run acts idle_shmq)) = 8%nat.
Proof. eexists. split; [vm_compute; reflexivity|]. by vm_compute. Qed.

(** ** The last counters *)

(** After the values [vs], of which the last hundred are kept. *)
Record counted (vs : list Z) (c : CyclesCounter) : Prop := mkCounted {
  ct_idle : _cycles_counter c = 0 /\ _reporting_interval c = 0 /\ _current_interval c = 0;
  ct_num : _num_prev_counters c = Z.of_nat (length vs);
  ct_length : length (_prev_counters c) = MAX_PREV_COUNTERS;
  ct_values : forall k v, (length vs <= k + MAX_PREV_COUNTERS)%nat -> vs !! k = Some v -> _prev_counters c !! (k mod MAX_PREV_COUNTERS)%nat = Some v
}.

Lemma counted_new : counted [] CyclesCounter_new.
Proof. by split. Qed.

Lemma print_time_stamp_counted vs c now timestamp :
  counted vs c -> Z.of_nat (length vs) < 2 ^ 32 - 1 -> counted (vs ++ [u64 (now - timestamp)]) (print_time_stamp now timestamp c).
Proof.
  intros [(I1 & I2 & I3) Hn Hl Hv] Hb. unfold print_time_stamp, update_counter. cbn [_reporting_interval _current_interval _cycles_counter _num_prev_counters _prev_counters].
  rewrite I1, I2, I3. change (0 <=? i32 (0 + 1)) with true. cbn [fst]. rewrite Z.add_0_l.
  set (v := u64 (now - timestamp)). assert (u64 v = v) as Ev by (apply uwrap_id, uwrap_range; lia). clearbody v.
  unfold update_prev_counters, reset_counter. cbn [_cycles_counter _reporting_interval _current_interval _num_prev_counters _prev_counters].
  rewrite Ev. split; cbn [_cycles_counter _reporting_interval _current_interval _num_prev_counters _prev_counters].
  - done.
  - unfold u32. rewrite uwrap_id by (rewrite Hn; zrange). rewrite length_app, Hn. cbn. lia.
  - by rewrite length_insert.
  - intros k x Hk Hx. rewrite length_app in Hk. cbn in Hk.
    replace (Z.to_nat (_num_prev_counters c mod Z.of_nat MAX_PREV_COUNTERS)) with (length vs mod MAX_PREV_COUNTERS)%nat
      by (rewrite Hn, <- Nat2Z.inj_mod, Nat2Z.id; done).
    assert (length vs mod MAX_PREV_COUNTERS < MAX_PREV_COUNTERS)%nat by (apply Nat.mod_upper_bound; done).
    apply lookup_app_Some in Hx as [Hx|[Hx1 Hx2]].
    + apply lookup_lt_Some in Hx as Hlt. rewrite list_lookup_insert_ne; [apply Hv; [lia|done]|]. intros E. unfold MAX_PREV_COUNTERS in *.
      pose proof (Nat.div_mod (length vs) 100 ltac:(lia)). pose proof (Nat.div_mod k 100 ltac:(lia)). lia.
    + apply list_lookup_singleton_Some in Hx2 as [Hx2 <-]. replace k with (length vs) by lia. apply list_lookup_insert_eq. lia.
Qed.

(** The client prints the last counters, the newest first, as far as the buffer goes. *)
Lemma print_counters_spec vs c n i room :
  counted vs c -> Z.of_nat (length vs) < 2 ^ 31 -> (n + i <= MAX_PREV_COUNTERS)%nat ->
  Z.of_nat (length (concat (map print_counter (take n (drop i (reverse vs)))))) < room ->
  print_counters c n (Z.of_nat i) room = concat (map print_counter (take n (drop i (reverse vs)))).
Proof.
  intros Hc Hb. pose proof Hc as [_ Hn Hl Hv]. revert i room. induction n as [|n IH]; intros i room Hni Hroom; [done|].
  cbn [print_counters]. rewrite Hn. unfold i32. rewrite (swrap_id 32 ltac:(lia)) by zrange.
  destruct (Z.leb_spec 0 (Z.of_nat (length vs) - Z.of_nat i - 1)) as [Hle|Hgt].
  2:{ rewrite drop_ge by (rewrite length_reverse; lia). done. }
  destruct (lookup_lt_is_Some_2 vs (length vs - i - 1)) as [v Hk]; [lia|].
  assert (reverse vs !! i = Some v) as Hr.
  { rewrite reverse_lookup by lia. rewrite <- Hk. f_equal. lia. }
  assert (nth (Z.to_nat (u32 (Z.of_nat (length vs) - Z.of_nat i - 1) mod Z.of_nat MAX_PREV_COUNTERS)) (_prev_counters c) 0 = v) as ->.
  { unfold u32. rewrite uwrap_id by zrange. replace (Z.of_nat (length vs) - Z.of_nat i - 1) with (Z.of_nat (length vs - i - 1)) by lia.
    rewrite <- Nat2Z.inj_mod, Nat2Z.id. apply nth_lookup_Some. apply Hv; [lia|done]. }
  rewrite (drop_S _ v i Hr) in *. cbn [take map concat] in *. rewrite length_app in Hroom.
  rewrite take_ge by lia. f_equal. rewrite (proj2 (Z.ltb_ge _ _)) by lia.
  replace (Z.of_nat i + 1) with (Z.of_nat (S i)) by lia. apply IH; lia.
Qed.

Lemma last_counters_printed vs c n room :
  counted vs c -> Z.of_nat (length vs) < 2 ^ 31 -> (n <= MAX_PREV_COUNTERS)%nat ->
  Z.of_nat (length (concat (map print_counter (take n (reverse vs))))) < room ->
  get_x_last_counters_str room n c = concat (map print_counter (take n (reverse vs))).
Proof. intros Hc Hb Hn Hr. apply (print_counters_spec vs c n 0); [done|done|lia|done]. Qed.
