(* ===== verification/Sorting.v ===== *)
(** * Sorting: click_qsort of lib/glue.cc

    The sort that the router uses for its connections, for the order in which elements
    are configured and for the names of its elements: Bentley and McIlroy's quicksort
    with an explicit stack of subranges.  An array is a list, a pointer into it the
    number of an item, and an access outside the array a fault.  The comparison is any
    function to integers.

    Exchanging ranges word by word or byte by byte, as [cq_swapfunc] does, is exchanging
    them item by item, because the ranges do not overlap. *)

From Stdlib Require Import Sorting.Sorted.
From stdpp Require Import sorting.
From S2P Require Import Prelude.

Definition CQ_STACKSIZ : nat := (8 * 8 + 1) * 2.

Section qsort.
Context {A : Type} (compar : A -> A -> Z).

Definition load (l : list A) (i : nat) : res A := of_option OutOfBounds (l !! i).

Definition cq_swap (i j : nat) (l : list A) : res (list A) :=
  let* x := load l i in
  let* y := load l j in
  Ok (<[j := x]> (<[i := y]> l)).

Fixpoint cq_swapfunc (i j n : nat) (l : list A) : res (list A) :=
  match n with
  | O => Ok l
  | S n => let* l := cq_swap i j l in cq_swapfunc (S i) (S j) n l
  end.

Definition cq_med3 (l : list A) (a b c : nat) : res nat :=
  let* x := load l a in
  let* y := load l b in
  let* z := load l c in
  let ab := compar x y in
  let bc := compar y z in
  Ok (if ab <? 0 then (if bc <? 0 then b else if compar x z <? 0 then c else a)
      else (if 0 <? bc then b else if 0 <? compar x z then c else a)).

(** The insertion sort of a small range: the inner loop, with [pj = a + k], and the
    outer one, with [pi = a + i] and [rem] items left. *)
Fixpoint insert_item (a k : nat) (l : list A) : res (list A) :=
  match k with
  | O => Ok l
  | S k' =>
      let* x := load l (a + k') in
      let* y := load l (a + k) in
      if 0 <? compar x y then let* l := cq_swap (a + k) (a + k') l in insert_item a k' l else Ok l
  end.

Fixpoint insert_items (a i rem : nat) (l : list A) : res (list A) :=
  match rem with
  | O => Ok l
  | S rem => let* l := insert_item a i l in insert_items a (S i) rem l
  end.

(** The pivot: the middle item, the median of three or the pseudomedian of nine. *)
Definition find_pivot (l : list A) (a n : nat) : res nat :=
  let pm := (a + n / 2)%nat in
  if (7 <? n)%nat then
    let p1 := a in
    let p2 := (a + (n - 1))%nat in
    if (40 <? n)%nat then
      let offset := (n / 8)%nat in
      let* p1 := cq_med3 l p1 (p1 + offset) (p1 + 2 * offset) in
      let* pm := cq_med3 l (pm - offset) pm (pm + offset) in
      let* p2 := cq_med3 l (p2 - 2 * offset) (p2 - offset) p2 in
      cq_med3 l p1 pm p2
    else cq_med3 l p1 pm p2
  else Ok pm.

(** Where the comparisons find the pivot: in a copy of it if items are words
    ([swaptype] 0), else at the start of the range. *)
Definition pivot_of (swaptype : nat) (tmp : A) (a : nat) (l : list A) : res A :=
  if (swaptype =? 0)%nat then Ok tmp else load l a.

(** The two inner loops of the partition; [k] is [pc + 1 - pb], the number of items
    not yet looked at. *)
Fixpoint scan_up (swaptype : nat) (tmp : A) (a k pa pb : nat) (l : list A) : res (nat * nat * list A) :=
  match k with
  | O => Ok (pa, pb, l)
  | S k =>
      let* x := load l pb in
      let* pivot := pivot_of swaptype tmp a l in
      let r := compar x pivot in
      if r <=? 0 then
        if r =? 0 then let* l := cq_swap pa pb l in scan_up swaptype tmp a k (S pa) (S pb) l
        else scan_up swaptype tmp a k pa (S pb) l
      else Ok (pa, pb, l)
  end.

Fixpoint scan_down (swaptype : nat) (tmp : A) (a k pc pd : nat) (l : list A) : res (nat * nat * list A) :=
  match k with
  | O => Ok (pc, pd, l)
  | S k =>
      let* x := load l pc in
      let* pivot := pivot_of swaptype tmp a l in
      let r := compar x pivot in
      if 0 <=? r then
        if r =? 0 then let* l := cq_swap pc pd l in scan_down swaptype tmp a k (pc - 1) (pd - 1) l
        else scan_down swaptype tmp a k (pc - 1) pd l
      else Ok (pc, pd, l)
  end.

(** The loop around them. *)
Fixpoint partition_scan (fuel swaptype : nat) (tmp : A) (a pa pb pc pd : nat) (l : list A)
    : res (nat * nat * nat * nat * list A) :=
  match fuel with
  | O => Fault OutOfFuel
  | S fuel =>
      let* (pa, pb, l) := scan_up swaptype tmp a (pc + 1 - pb) pa pb l in
      let* (pc, pd, l) := scan_down swaptype tmp a (pc + 1 - pb) pc pd l in
      if (pc <? pb)%nat then Ok (pa, pb, pc, pd, l)
      else
        let* l := cq_swap pb pc l in
        partition_scan fuel swaptype tmp a pa (pb + 1) (pc - 1) pd l
  end.

(** The range of [n] items at [a], partitioned: the items less than the pivot, those
    equal to it, those greater.  The numbers of the first and of the last are returned. *)
Definition partition (swaptype a n : nat) (l : list A) : res (nat * nat * list A) :=
  let* pm := find_pivot l a n in
  let* tmp := load l pm in
  let* l := cq_swap a pm l in
  let* (pa, pb, pc, pd, l) := partition_scan n swaptype tmp a (a + 1) (a + 1) (a + (n - 1)) (a + (n - 1)) l in
  let pn := (a + n)%nat in
  let s := if (pa - a <? pb - pa)%nat then (pa - a)%nat else (pb - pa)%nat in
  let* l := cq_swapfunc a (pb - s) s l in
  let s := if (pd - pc <? pn - pd - 1)%nat then (pd - pc)%nat else (pn - pd - 1)%nat in
  let* l := cq_swapfunc pb (pn - s) s l in
  Ok ((pb - pa)%nat, (pd - pc)%nat, l).

(** The loop over the stack of subranges, its top first. *)
Fixpoint sort_ranges (fuel swaptype : nat) (stack : list (nat * nat)) (l : list A) : res (list A) :=
  match stack with
  | [] => Ok l
  | (lo, hi) :: stack =>
      match fuel with
      | O => Fault OutOfFuel
      | S fuel =>
          let n := (hi - lo)%nat in
          if (n <? 7)%nat then
            let* l := insert_items lo 1 (n - 1) l in
            sort_ranges fuel swaptype stack l
          else
            let* (less, greater, l) := partition swaptype lo n l in
            if (less =? 0)%nat && (greater =? 0)%nat then sort_ranges fuel swaptype stack l
            else
              assert* (2 * length stack + 4 <? CQ_STACKSIZ)%nat;
              let left := (lo, (lo + less)%nat) in
              let right := ((hi - greater)%nat, hi) in
              let (first, second) := if (less <? greater)%nat then (right, left) else (left, right) in
              sort_ranges fuel swaptype
                (if (second.1 =? second.2)%nat then first :: stack else second :: first :: stack) l
      end
  end.

Definition click_qsort (swaptype : nat) (l : list A) : res (list A) :=
  sort_ranges (2 * length l + 1) swaptype [(O, length l)] l.

End qsort.

(** ** Exchanges

    Everything the sort does to the array is an exchange of two items of the range at
    hand. *)

Section exchanges.
Context {A : Type}.
Implicit Types l : list A.

(** The position from which an exchange takes the item at [k]. *)
Definition tr (i j k : nat) : nat := if (k =? j)%nat then i else if (k =? i)%nat then j else k.

Lemma load_Ok l i : (i < length l)%nat -> exists x, load l i = Ok x /\ l !! i = Some x.
Proof.
  intros (x & Hx)%lookup_lt_is_Some. exists x. unfold load. rewrite Hx. done.
Qed.

Lemma load_inv l i x : load l i = Ok x -> l !! i = Some x.
Proof. unfold load. destruct (l !! i); simpl; congruence. Qed.

Lemma cq_swap_Ok i j l : (i < length l)%nat -> (j < length l)%nat ->
  exists l', cq_swap i j l = Ok l'.
Proof.
  intros Hi Hj. destruct (load_Ok l i Hi) as (x & Hx & _), (load_Ok l j Hj) as (y & Hy & _).
  unfold cq_swap. rewrite Hx, Hy. by eexists.
Qed.

Lemma tr_inj i j : Inj (=) (=) (tr i j).
Proof.
  intros a b. unfold tr.
  destruct (Nat.eqb_spec a j), (Nat.eqb_spec b j), (Nat.eqb_spec a i), (Nat.eqb_spec b i); lia.
Qed.

Lemma tr_other i j k : k <> i -> k <> j -> tr i j k = k.
Proof. intros. unfold tr. destruct (Nat.eqb_spec k j), (Nat.eqb_spec k i); done. Qed.

Lemma cq_swap_lookup i j l l' : cq_swap i j l = Ok l' ->
  length l' = length l /\ forall k, l' !! k = l !! tr i j k.
Proof.
  unfold cq_swap. intros (x & Hx%load_inv & (y & Hy%load_inv & <-%Ok_inj)%bind_Ok)%bind_Ok.
  pose proof (lookup_lt_Some _ _ _ Hx). pose proof (lookup_lt_Some _ _ _ Hy).
  split; [by rewrite !length_insert|]. intros k. unfold tr.
  destruct (Nat.eqb_spec k j) as [->|]; [by rewrite list_lookup_insert_eq by (rewrite length_insert; lia)|].
  rewrite list_lookup_insert_ne by done.
  destruct (Nat.eqb_spec k i) as [->|]; [by rewrite list_lookup_insert_eq|by rewrite list_lookup_insert_ne].
Qed.

Lemma cq_swap_Permutation i j l l' : cq_swap i j l = Ok l' -> Permutation l' l.
Proof.
  intros [Hlen Hl]%cq_swap_lookup. apply Permutation_inj. split; [done|].
  exists (tr i j). split; [apply tr_inj|done].
Qed.

(** Arrays that exchanges within the positions from [lo] up to [hi] lead to. *)
Inductive shuffle (lo hi : nat) : list A -> list A -> Prop :=
| shuffle_refl l : shuffle lo hi l l
| shuffle_step i j l1 l2 l3 :
    (lo <= i < hi)%nat -> (lo <= j < hi)%nat -> cq_swap i j l1 = Ok l2 ->
    shuffle lo hi l2 l3 -> shuffle lo hi l1 l3.

Lemma shuffle_one lo hi i j l l' :
  (lo <= i < hi)%nat -> (lo <= j < hi)%nat -> cq_swap i j l = Ok l' -> shuffle lo hi l l'.
Proof. intros Hi Hj E. exact (shuffle_step _ _ _ _ _ _ _ Hi Hj E (shuffle_refl _ _ _)). Qed.

Lemma shuffle_trans lo hi l1 l2 l3 : shuffle lo hi l1 l2 -> shuffle lo hi l2 l3 -> shuffle lo hi l1 l3.
Proof. induction 1 as [|i j ??? Hi Hj E _ IH]; intros H3; [done|]. exact (shuffle_step _ _ _ _ _ _ _ Hi Hj E (IH H3)). Qed.

Lemma shuffle_wider lo hi lo' hi' l l' :
  (lo' <= lo)%nat -> (hi <= hi')%nat -> shuffle lo hi l l' -> shuffle lo' hi' l l'.
Proof.
  intros Hlo Hhi. induction 1 as [|i j ??? Hi Hj E _ IH]; [constructor|].
  refine (shuffle_step _ _ _ _ _ _ _ _ _ E IH); lia.
Qed.

Lemma shuffle_length lo hi l l' : shuffle lo hi l l' -> length l' = length l.
Proof. induction 1 as [|i j ??? _ _ [? _]%cq_swap_lookup]; congruence. Qed.

Lemma shuffle_Permutation lo hi l l' : shuffle lo hi l l' -> Permutation l' l.
Proof. induction 1 as [|i j ??? _ _ Hs%cq_swap_Permutation _ IH]; [done|]. by rewrite IH. Qed.

Lemma shuffle_outside lo hi l l' k :
  shuffle lo hi l l' -> (k < lo \/ hi <= k)%nat -> l' !! k = l !! k.
Proof.
  induction 1 as [|i j ??? Hi Hj [_ Hl]%cq_swap_lookup _ IH]; [done|]. intros Hk.
  rewrite IH, Hl by done. unfold tr.
  destruct (Nat.eqb_spec k j), (Nat.eqb_spec k i); try lia; done.
Qed.

Lemma shuffle_inside lo hi l l' k :
  shuffle lo hi l l' -> (lo <= k < hi)%nat -> exists k', (lo <= k' < hi)%nat /\ l' !! k = l !! k'.
Proof.
  induction 1 as [|i j ??? Hi Hj [_ Hl]%cq_swap_lookup _ IH]; [by eauto|]. intros Hk.
  destruct (IH Hk) as (k' & Hk' & ->). exists (tr i j k'). split; [|done].
  unfold tr. destruct (Nat.eqb_spec k' j), (Nat.eqb_spec k' i); lia.
Qed.

(** All items at the positions from [lo] up to [hi] satisfy [P]. *)
Definition zone (lo hi : nat) (P : A -> Prop) l : Prop :=
  forall k x, (lo <= k < hi)%nat -> l !! k = Some x -> P x.

Lemma zone_shuffle lo hi P l l' : shuffle lo hi l l' -> zone lo hi P l -> zone lo hi P l'.
Proof.
  intros Hs Hz k x Hk Hx. destruct (shuffle_inside _ _ _ _ _ Hs Hk) as (k' & Hk' & E).
  apply (Hz k'); congruence.
Qed.

(** An exchange of ranges that do not overlap. *)
Lemma cq_swapfunc_Ok n : forall i j l, (i + n <= j)%nat -> (j + n <= length l)%nat ->
  exists l', cq_swapfunc i j n l = Ok l' /\ shuffle i (j + n) l l' /\
    forall k, l' !! k = l !! (if (i <=? k) && (k <? i + n) then k - i + j
                             else if (j <=? k) && (k <? j + n) then k - j + i else k)%nat.
Proof.
  induction n as [|n IH]; intros i j l Hij Hj; simpl.
  - exists l. split_and!; [done|constructor|]. intros k. f_equal.
    destruct (Nat.leb_spec i k), (Nat.ltb_spec k (i + 0)), (Nat.leb_spec j k), (Nat.ltb_spec k (j + 0));
      simpl; lia.
  - destruct (cq_swap_Ok i j l) as [l1 E1]; [lia..|]. rewrite E1. simpl.
    pose proof (cq_swap_lookup _ _ _ _ E1) as [Hlen Hl].
    destruct (IH (S i) (S j) l1) as (l' & -> & Hs & Hl'); [lia..|]. exists l'. split_and!; [done| |].
    + eapply shuffle_step; [| |exact E1|]; [lia..|]. eapply shuffle_wider; [| |exact Hs]; lia.
    + intros k. rewrite Hl', Hl. unfold tr. f_equal.
      destruct (Nat.leb_spec (S i) k), (Nat.ltb_spec k (S i + n)), (Nat.leb_spec (S j) k), (Nat.ltb_spec k (S j + n)),
        (Nat.leb_spec i k), (Nat.ltb_spec k (i + S n)), (Nat.leb_spec j k), (Nat.ltb_spec k (j + S n));
        cbn [andb]; repeat case_match; try lia;
        repeat match goal with H : (_ =? _)%nat = _ |- _ => apply Nat.eqb_eq in H || apply Nat.eqb_neq in H end; lia.
Qed.

End exchanges.

(** ** The partition *)

Section partition.
Context {A : Type} (compar : A -> A -> Z) (swaptype : nat).
Implicit Types l : list A.

Lemma cq_med3_Ok lo hi l a b c :
  (hi <= length l)%nat -> (lo <= a < hi)%nat -> (lo <= b < hi)%nat -> (lo <= c < hi)%nat ->
  exists m, cq_med3 compar l a b c = Ok m /\ (lo <= m < hi)%nat.
Proof.
  intros Hl Ha Hb Hc.
  destruct (load_Ok l a) as (x & Hx & _), (load_Ok l b) as (y & Hy & _), (load_Ok l c) as (z & Hz & _); [lia..|].
  unfold cq_med3. rewrite Hx, Hy, Hz. simpl. eexists. split; [done|]. by repeat case_match.
Qed.

Lemma find_pivot_Ok l a n : (7 <= n)%nat -> (a + n <= length l)%nat ->
  exists pm, find_pivot compar l a n = Ok pm /\ (a <= pm < a + n)%nat.
Proof.
  intros Hn Hl. unfold find_pivot.
  pose proof (Nat.div_mod_eq n 2). pose proof (Nat.mod_upper_bound n 2).
  pose proof (Nat.div_mod_eq n 8). pose proof (Nat.mod_upper_bound n 8).
  destruct (Nat.ltb_spec 7 n); [|eexists; split; [done|lia]].
  destruct (Nat.ltb_spec 40 n); [|apply cq_med3_Ok; lia].
  destruct (cq_med3_Ok a (a + n) l a (a + n / 8) (a + 2 * (n / 8))) as (p1 & -> & Hp1); [lia..|].
  res_simpl.
  destruct (cq_med3_Ok a (a + n) l (a + n / 2 - n / 8) (a + n / 2) (a + n / 2 + n / 8)) as (pm & -> & Hpm); [lia..|].
  res_simpl.
  destruct (cq_med3_Ok a (a + n) l (a + (n - 1) - 2 * (n / 8)) (a + (n - 1) - n / 8) (a + (n - 1)))
    as (p2 & -> & Hp2); [lia..|].
  res_simpl. apply cq_med3_Ok; lia.
Qed.

(** A range that is being partitioned around [v]. *)
Record Parted (a hi : nat) (v : A) (pa pb pc pd : nat) (l : list A) : Prop := mkParted {
  parted_order : (a < pa <= pb /\ pb <= pc + 1 /\ pc <= pd < hi /\ hi <= length l)%nat;
  parted_pivot : l !! a = Some v;
  parted_first : zone (a + 1) pa (fun x => compar x v = 0) l;
  parted_less : zone pa pb (fun x => compar x v < 0) l;
  parted_greater : zone (pc + 1) (pd + 1) (fun x => 0 < compar x v) l;
  parted_last : zone (pd + 1) hi (fun x => compar x v = 0) l
}.

Lemma pivot_of_Ok v a l : l !! a = Some v -> pivot_of swaptype v a l = Ok v.
Proof. intros E. unfold pivot_of, load. rewrite E. by destruct (_ =? _)%nat. Qed.

(** The zones after an exchange are made of the zones before it. *)
Ltac zones Hl :=
  unfold zone in *; intros k z Hk; rewrite ?Hl; unfold tr;
  repeat match goal with |- context [(?a =? ?b)%nat] => destruct (Nat.eqb_spec a b); subst end;
  intros Hz; try lia;
  first
    [ match goal with H : _ !! ?p = Some _ |- _ =>
        match type of Hz with _ !! ?q = Some _ =>
          let E := fresh in assert (E : q = p) by lia; try rewrite E in Hz; congruence end end
    | match goal with H : forall k x, _ -> _ !! k = Some x -> _ |- _ => eapply H; [|exact Hz]; lia end ].

Lemma parted_equal_up a hi v pa pb pc pd l l' x :
  Parted a hi v pa pb pc pd l -> (pb <= pc)%nat -> l !! pb = Some x -> compar x v = 0 ->
  cq_swap pa pb l = Ok l' -> Parted a hi v (S pa) (S pb) pc pd l'.
Proof.
  intros [Ho Hp Hf Hs Hg He] Hb Ex Hx [Hlen Hl]%cq_swap_lookup.
  constructor; [lia|by rewrite Hl, tr_other by lia|zones Hl..].
Qed.

Lemma parted_less_up a hi v pa pb pc pd l x :
  Parted a hi v pa pb pc pd l -> (pb <= pc)%nat -> l !! pb = Some x -> compar x v < 0 ->
  Parted a hi v pa (S pb) pc pd l.
Proof.
  intros [Ho Hp Hf Hs Hg He] Hb Ex Hx. constructor; try done; [lia|].
  intros k z Hk Hz. destruct (decide (k = pb)) as [->|]; [congruence|]. apply (Hs k); [lia|done].
Qed.

Lemma parted_equal_down a hi v pa pb pc pd l l' x :
  Parted a hi v pa pb pc pd l -> (pb <= pc)%nat -> l !! pc = Some x -> compar x v = 0 ->
  cq_swap pc pd l = Ok l' -> Parted a hi v pa pb (pc - 1) (pd - 1) l'.
Proof.
  intros [Ho Hp Hf Hs Hg He] Hb Ex Hx [Hlen Hl]%cq_swap_lookup.
  constructor; [lia|by rewrite Hl, tr_other by lia|zones Hl..].
Qed.

Lemma parted_greater_down a hi v pa pb pc pd l x :
  Parted a hi v pa pb pc pd l -> (pb <= pc)%nat -> l !! pc = Some x -> 0 < compar x v ->
  Parted a hi v pa pb (pc - 1) pd l.
Proof.
  intros [Ho Hp Hf Hs Hg He] Hb Ex Hx. constructor; try done; [lia|].
  intros k z Hk Hz. destruct (decide (k = pc)) as [->|]; [congruence|]. apply (Hg k); [lia|done].
Qed.

Lemma parted_exchange a hi v pa pb pc pd l l' x y :
  Parted a hi v pa pb pc pd l -> (pb < pc)%nat ->
  l !! pb = Some x -> 0 < compar x v -> l !! pc = Some y -> compar y v < 0 ->
  cq_swap pb pc l = Ok l' -> Parted a hi v pa (pb + 1) (pc - 1) pd l'.
Proof.
  intros [Ho Hp Hf Hs Hg He] Hb Ex Hx Ey Hy [Hlen Hl]%cq_swap_lookup.
  constructor; [lia|by rewrite Hl, tr_other by lia|zones Hl..].
Qed.

Lemma scan_up_Ok a hi v pc pd : forall k pa pb l,
  Parted a hi v pa pb pc pd l -> k = (pc + 1 - pb)%nat ->
  exists pa' pb' l', scan_up compar swaptype v a k pa pb l = Ok (pa', pb', l') /\
    Parted a hi v pa' pb' pc pd l' /\ shuffle (a + 1) hi l l' /\ (pb <= pb')%nat /\
    (pb' = (pc + 1)%nat \/ exists x, l' !! pb' = Some x /\ 0 < compar x v).
Proof.
  induction k as [|k IH]; intros pa pb l HP Ek; pose proof (parted_order _ _ _ _ _ _ _ _ HP) as Ho; simpl.
  - exists pa, pb, l. split_and!; [done|done|constructor|lia|lia].
  - destruct (load_Ok l pb) as (x & Hx & Ex); [lia|]. rewrite Hx. res_simpl.
    rewrite (pivot_of_Ok v a l) by apply HP. res_simpl.
    destruct (Z.leb_spec (compar x v) 0); [destruct (Z.eqb_spec (compar x v) 0)|].
    + destruct (cq_swap_Ok pa pb l) as [l1 E]; [lia..|]. rewrite E. res_simpl.
      destruct (IH (S pa) (S pb) l1) as (pa' & pb' & l' & -> & HP' & Hs & ?); [by eapply parted_equal_up; eauto; lia|lia|].
      exists pa', pb', l'. split_and!; [done..| |lia|tauto].
      refine (shuffle_step _ _ _ _ _ _ _ _ _ E Hs); lia.
    + destruct (IH pa (S pb) l) as (pa' & pb' & l' & -> & HP' & Hs & ?); [by eapply parted_less_up; eauto; lia|lia|].
      exists pa', pb', l'. split_and!; [done..|lia|tauto].
    + exists pa, pb, l. split_and!; [done|done|constructor|lia|by eauto].
Qed.

Lemma scan_down_Ok a hi v pa pb : forall k pc pd l,
  Parted a hi v pa pb pc pd l -> k = (pc + 1 - pb)%nat ->
  (pb = (pc + 1)%nat \/ exists x, l !! pb = Some x /\ 0 < compar x v) ->
  exists pc' pd' l', scan_down compar swaptype v a k pc pd l = Ok (pc', pd', l') /\
    Parted a hi v pa pb pc' pd' l' /\ shuffle (a + 1) hi l l' /\ (pc' <= pc)%nat /\
    ((pc' < pb)%nat \/ (pb < pc')%nat /\ exists x y, l' !! pb = Some x /\ 0 < compar x v /\
       l' !! pc' = Some y /\ compar y v < 0).
Proof.
  induction k as [|k IH]; intros pc pd l HP Ek Hb; pose proof (parted_order _ _ _ _ _ _ _ _ HP) as Ho; simpl.
  - exists pc, pd, l. split_and!; [done|done|constructor|lia|lia].
  - destruct Hb as [?|(b & Eb & Hb)]; [lia|].
    destruct (load_Ok l pc) as (x & Hx & Ex); [lia|]. rewrite Hx. res_simpl.
    rewrite (pivot_of_Ok v a l) by apply HP. res_simpl.
    destruct (Z.leb_spec 0 (compar x v)); [destruct (Z.eqb_spec (compar x v) 0)|].
    + assert (pb <> pc) by (intros ->; simplify_eq; lia).
      destruct (cq_swap_Ok pc pd l) as [l1 E]; [lia..|]. rewrite E. res_simpl.
      destruct (IH (pc - 1)%nat (pd - 1)%nat l1) as (pc' & pd' & l' & -> & HP' & Hs & ?);
        [by eapply parted_equal_down; eauto; lia|lia| |].
      { right. exists b. split; [|done]. apply cq_swap_lookup in E as [_ ->]. by rewrite tr_other by lia. }
      exists pc', pd', l'. split_and!; [done..| |lia|tauto].
      refine (shuffle_step _ _ _ _ _ _ _ _ _ E Hs); lia.
    + destruct (IH (pc - 1)%nat pd l) as (pc' & pd' & l' & -> & HP' & Hs & ?);
        [by eapply parted_greater_down; eauto; lia|lia| |].
      { destruct (decide (pb = pc)); [left; lia|right; by eauto]. }
      exists pc', pd', l'. split_and!; [done..|lia|tauto].
    + exists pc, pd, l. split_and!; [done|done|constructor|lia|]. right.
      split; [|by eauto 10]. destruct (decide (pb = pc)); [|lia]. subst. simplify_eq. lia.
Qed.

Lemma partition_scan_Ok a hi v : forall fuel pa pb pc pd l,
  Parted a hi v pa pb pc pd l -> (pc + 1 - pb < fuel)%nat ->
  exists pa' pb' pc' pd' l', partition_scan compar fuel swaptype v a pa pb pc pd l = Ok (pa', pb', pc', pd', l') /\
    Parted a hi v pa' pb' pc' pd' l' /\ shuffle (a + 1) hi l l' /\ pb' = (pc' + 1)%nat.
Proof.
  induction fuel as [|fuel IH]; intros pa pb pc pd l HP Hfuel; [lia|]. cbn [partition_scan].
  destruct (scan_up_Ok a hi v pc pd _ pa pb l HP eq_refl) as (pa1 & pb1 & l1 & -> & HP1 & Hs1 & Hb1 & Hup). res_simpl.
  destruct (scan_down_Ok a hi v pa1 pb1 _ pc pd l1 HP1 eq_refl Hup) as (pc1 & pd1 & l2 & -> & HP2 & Hs2 & Hc1 & Hdown).
  res_simpl. pose proof (parted_order _ _ _ _ _ _ _ _ HP2).
  destruct (Nat.ltb_spec pc1 pb1).
  - exists pa1, pb1, pc1, pd1, l2. split_and!; [done|done|by eapply shuffle_trans|lia].
  - destruct Hdown as [?|(Hlt & x & y & Ex & Hx & Ey & Hy)]; [lia|].
    destruct (cq_swap_Ok pb1 pc1 l2) as [l3 E]; [lia..|]. rewrite E. res_simpl.
    destruct (IH pa1 (pb1 + 1)%nat (pc1 - 1)%nat pd1 l3) as (pa' & pb' & pc' & pd' & l' & -> & HP' & Hs & ?);
      [by eapply parted_exchange; eauto|lia|].
    exists pa', pb', pc', pd', l'. split_and!; [done..| |done].
    eapply shuffle_trans; [exact Hs1|]. eapply shuffle_trans; [exact Hs2|].
    refine (shuffle_step _ _ _ _ _ _ _ _ _ E Hs); lia.
Qed.

(** A range of items below [v], of items level with it and of items above it. *)
Record Split (a m : nat) (v : A) (less greater : nat) (l : list A) : Prop := mkSplit {
  split_less : zone a (a + less) (fun x => compar x v < 0) l;
  split_equal : zone (a + less) (a + m - greater) (fun x => compar x v = 0 \/ x = v) l;
  split_greater : zone (a + m - greater) (a + m) (fun x => 0 < compar x v) l
}.

(** Two neighbouring zones, exchanged by moving only as many items as the smaller has. *)
Lemma exchange_zones (P Q : A -> Prop) p q r l :
  (p <= q <= r)%nat -> (r <= length l)%nat -> zone p q P l -> zone q r Q l ->
  let s := if (q - p <? r - q)%nat then (q - p)%nat else (r - q)%nat in
  exists l', cq_swapfunc p (r - s) s l = Ok l' /\ shuffle p r l l' /\
    zone p (p + (r - q)) Q l' /\ zone (p + (r - q)) r P l'.
Proof.
  intros Ho Hr HP HQ s.
  assert (Hs : (s <= q - p /\ s <= r - q /\ (s = q - p \/ s = r - q))%nat)
    by (subst s; destruct (Nat.ltb_spec (q - p) (r - q)); lia).
  clearbody s. destruct (cq_swapfunc_Ok s p (r - s) l) as (l' & E & Sh & L); [lia..|].
  exists l'. split_and!; [done|eapply shuffle_wider; [| |exact Sh]; lia| |];
    intros k x Hk; rewrite L;
    destruct (Nat.leb_spec p k); try lia; destruct (Nat.ltb_spec k (p + s)); cbn [andb];
    try (destruct (Nat.leb_spec (r - s) k), (Nat.ltb_spec k (r - s + s)); cbn [andb]; try lia);
    intros Hx; first [eapply HP; [|exact Hx]; lia | eapply HQ; [|exact Hx]; lia].
Qed.

Lemma zone_outside lo hi P l l' p q :
  shuffle lo hi l l' -> (q <= lo \/ hi <= p)%nat -> zone p q P l -> zone p q P l'.
Proof.
  intros Hs Ho Hz k x Hk Hx. apply (Hz k); [done|].
  by rewrite <- (shuffle_outside _ _ _ _ k Hs) by lia.
Qed.

Lemma partition_Ok a m l : (7 <= m)%nat -> (a + m <= length l)%nat ->
  exists v less greater l', partition compar swaptype a m l = Ok (less, greater, l') /\
    shuffle a (a + m) l l' /\ (less + greater + 1 <= m)%nat /\ Split a m v less greater l'.
Proof.
  intros Hm Hl. unfold partition.
  destruct (find_pivot_Ok l a m Hm Hl) as (pm & -> & Hpm). res_simpl.
  destruct (load_Ok l pm) as (v & -> & Ev); [lia|]. res_simpl.
  destruct (cq_swap_Ok a pm l) as [l1 E1]; [lia..|]. rewrite E1. res_simpl.
  pose proof (cq_swap_lookup _ _ _ _ E1) as [Hlen1 L1].
  destruct (partition_scan_Ok a (a + m) v m (a + 1) (a + 1) (a + (m - 1)) (a + (m - 1)) l1)
    as (pa & pb & pc & pd & l2 & -> & [Ho Hp Hf Hs Hg He] & Sh2 & Epb); [|lia|].
  { constructor; [lia| |intros ??; lia..]. rewrite L1. unfold tr.
    destruct (Nat.eqb_spec a pm) as [<-|]; [done|]. by rewrite Nat.eqb_refl. }
  res_simpl. assert (Hfp : zone a pa (fun x => compar x v = 0 \/ x = v) l2).
  { intros k x Hk Hx. destruct (decide (k = a)) as [->|]; [right; congruence|].
    left. apply (Hf k); [lia|done]. }
  destruct (exchange_zones _ _ a pa pb l2 ltac:(lia) ltac:(lia) Hfp Hs) as (l3 & -> & Sh3 & Hs3 & Hf3). res_simpl.
  pose proof (shuffle_length _ _ _ _ Sh3).
  eapply zone_outside in Hg; [|exact Sh3|lia]. eapply zone_outside in He; [|exact Sh3|lia].
  replace (pc + 1)%nat with pb in Hg by lia.
  destruct (exchange_zones _ _ pb (pd + 1) (a + m) l3 ltac:(lia) ltac:(lia) Hg He) as (l4 & E4 & Sh4 & He4 & Hg4).
  replace (pd + 1 - pb)%nat with (pd - pc)%nat in E4 by lia.
  replace (a + m - (pd + 1))%nat with (a + m - pd - 1)%nat in * by lia. rewrite E4. res_simpl.
  eapply zone_outside in Hs3; [|exact Sh4|lia]. eapply zone_outside in Hf3; [|exact Sh4|lia].
  exists v, (pb - pa)%nat, (pd - pc)%nat, l4. split_and!; [done| |lia|].
  - eapply shuffle_trans; [eapply (shuffle_one _ _ a pm); [| |exact E1]; lia|].
    repeat (eapply shuffle_trans; [eapply shuffle_wider; [| |eassumption]; lia|]). constructor.
  - constructor; [done| |].
    + intros k x Hk Hx. destruct (decide (k < pb)%nat); [apply (Hf3 k)|left; apply (He4 k)]; auto with lia.
    + intros k x Hk Hx. apply (Hg4 k); [lia|done].
Qed.

End partition.

(** ** The sort *)

(** What a comparison function promises: it is a total order of the items, up to items
    that compare equal. *)
Class Comparison {A} (compar : A -> A -> Z) : Prop := {
  compar_flip : forall x y, 0 < compar x y <-> compar y x < 0;
  compar_trans : forall x y z, compar x y <= 0 -> compar y z <= 0 -> compar x z <= 0
}.

Section sort.
Context {A : Type} (compar : A -> A -> Z) (swaptype : nat).
Implicit Types l : list A.

Definition ordered (lo hi : nat) l : Prop :=
  forall p q x y, (lo <= p < q)%nat -> (q < hi)%nat -> l !! p = Some x -> l !! q = Some y -> compar x y <= 0.

Lemma compar_below `{!Comparison compar} x y v : compar x v <= 0 -> 0 <= compar y v -> compar x y <= 0.
Proof.
  intros Hx Hy. apply (compar_trans x v y Hx). pose proof (compar_flip v y). lia.
Qed.

Lemma compar_refl `{!Comparison compar} x : compar x x = 0.
Proof. pose proof (compar_flip x x). lia. Qed.

Lemma insert_item_Ok a : forall k l, (a + k < length l)%nat ->
  exists l', insert_item compar a k l = Ok l' /\ shuffle a (a + k + 1) l l'.
Proof.
  induction k as [|k IH]; intros l Hl; cbn [insert_item].
  - exists l. split; [done|constructor].
  - destruct (load_Ok l (a + k)) as (x & -> & _); [lia|]. res_simpl.
    destruct (load_Ok l (a + S k)) as (y & -> & _); [lia..|]. res_simpl.
    destruct (0 <? compar x y); [|exists l; split; [done|constructor]].
    destruct (cq_swap_Ok (a + S k) (a + k) l) as [l1 E]; [lia..|]. rewrite E. res_simpl.
    pose proof (cq_swap_lookup _ _ _ _ E) as [Hlen _].
    destruct (IH l1) as (l' & -> & Hs); [lia|]. exists l'. split; [done|].
    eapply shuffle_step; [| |exact E|eapply shuffle_wider; [| |exact Hs]]; lia.
Qed.

(** The items up to [a + i] are in order, but for the one at [a + k], which may have to
    move to the front. *)
Definition nearly (a i k : nat) l : Prop :=
  forall p q x y, (a <= p < q)%nat -> (q <= a + i)%nat -> q <> (a + k)%nat ->
    l !! p = Some x -> l !! q = Some y -> compar x y <= 0.

Lemma nearly_swap `{!Comparison compar} a i k l l' x y :
  (S k <= i)%nat -> nearly a i (S k) l -> l !! (a + k)%nat = Some x -> l !! (a + S k)%nat = Some y ->
  0 < compar x y -> cq_swap (a + S k) (a + k) l = Ok l' -> nearly a i k l'.
Proof.
  intros Hk Hn Ex Ey Hxy [_ L]%cq_swap_lookup p q z w Hpq Hq Hne.
  assert (Hyx : compar y x <= 0) by (apply compar_flip in Hxy; lia).
  rewrite !L. unfold tr.
  destruct (Nat.eqb_spec p (a + k)), (Nat.eqb_spec q (a + k)), (Nat.eqb_spec p (a + S k)), (Nat.eqb_spec q (a + S k));
    subst; try lia; intros Hz Hw; try congruence.
  - apply (Hn (a + S k)%nat q); auto with lia.
  - apply (Hn (a + k)%nat q); auto with lia.
  - apply (Hn p (a + k)%nat); auto with lia.
  - apply (Hn p q); auto with lia.
Qed.

Lemma insert_item_ordered `{!Comparison compar} a i : forall k l l',
  (k <= i)%nat -> nearly a i k l -> insert_item compar a k l = Ok l' -> ordered a (a + i + 1) l'.
Proof.
  induction k as [|k IH]; intros l l' Hk Hn; cbn [insert_item].
  - intros <-%Ok_inj p q x y Hpq Hq. apply Hn; lia.
  - intros (x & Ex%load_inv & (y & Ey%load_inv & E)%bind_Ok)%bind_Ok.
    destruct (Z.ltb_spec 0 (compar x y)) as [Hxy|Hxy].
    + apply bind_Ok in E as (l1 & E1 & E2).
      eapply IH; [|eapply nearly_swap; eauto|exact E2]; lia.
    + apply Ok_inj in E as <-. intros p q z w Hpq Hq Hz Hw.
      destruct (decide (q = a + S k)%nat) as [->|]; [|apply (Hn p q); auto with lia].
      assert (w = y) as -> by congruence. destruct (decide (p = a + k)%nat) as [->|]; [congruence|].
      apply (compar_trans z x y); [apply (Hn p (a + k)%nat); auto with lia|done].
Qed.

Lemma insert_items_Ok a : forall rem i l, (a + i + rem <= length l)%nat ->
  exists l', insert_items compar a i rem l = Ok l' /\ shuffle a (a + i + rem) l l' /\
    (Comparison compar -> ordered a (a + i) l -> ordered a (a + i + rem) l').
Proof.
  induction rem as [|rem IH]; intros i l Hl; cbn [insert_items].
  - exists l. split_and!; [done|constructor|]. by rewrite Nat.add_0_r.
  - destruct (insert_item_Ok a i l) as (l1 & E & Hs1); [lia|]. rewrite E. res_simpl.
    pose proof (shuffle_length _ _ _ _ Hs1).
    destruct (IH (S i) l1) as (l' & -> & Hs & Ho); [lia|]. exists l'. split_and!; [done| |].
    + eapply shuffle_trans; (eapply shuffle_wider; [| |eassumption]; lia).
    + intros HC Hord. replace (a + i + S rem)%nat with (a + S i + rem)%nat by lia. apply (Ho HC).
      replace (a + S i)%nat with (a + i + 1)%nat by lia.
      apply (insert_item_ordered a i i l); [done| |done]. intros p q x y Hpq Hq Hne. apply Hord; lia.
Qed.

Lemma insert_range_Ok lo hi l : (lo <= hi <= length l)%nat ->
  exists l', insert_items compar lo 1 (hi - lo - 1) l = Ok l' /\ shuffle lo hi l l' /\
    (Comparison compar -> ordered lo hi l').
Proof.
  intros Hl. destruct (decide (lo = hi)) as [->|].
  - rewrite Nat.sub_diag. exists l. split_and!; [done|constructor|]. intros _ p q x y; lia.
  - destruct (insert_items_Ok lo (hi - lo - 1) 1 l) as (l' & E & Hs & Ho); [lia|].
    replace (lo + 1 + (hi - lo - 1))%nat with hi in * by lia.
    exists l'. split_and!; [done..|]. intros HC. apply Ho; [done|]. intros p q x y; lia.
Qed.

(** *** The stack of subranges *)

Definition size (r : nat * nat) : nat := (r.2 - r.1)%nat.
Definition within (n : nat) (r : nat * nat) : Prop := (r.1 <= r.2 <= n)%nat.
Definition apart (r s : nat * nat) : Prop := (r.2 <= s.1 \/ s.2 <= r.1)%nat.

(** The rounds that the ranges still take, at most. *)
Definition work (stack : list (nat * nat)) : nat := sum_list (map (fun r => 2 * size r + 1)%nat stack).

Lemma work_app s t : work (s ++ t) = (work s + work t)%nat.
Proof. unfold work. induction s as [|r s IH]; [done|]. simpl in *. lia. Qed.

(** A range with [d] others below it has at most [N / 2 ^ d] items. *)
Fixpoint deep (N : Z) (stack : list (nat * nat)) : Prop :=
  match stack with
  | [] => True
  | r :: stack => Z.of_nat (size r) * 2 ^ Z.of_nat (length stack) <= N /\ deep N stack
  end.

(** Items that are not in one range of the stack are in order. *)
Definition settled (stack : list (nat * nat)) l : Prop :=
  forall p q x y, (p < q)%nat -> l !! p = Some x -> l !! q = Some y ->
    (exists r, r ∈ stack /\ r.1 <= p /\ q < r.2)%nat \/ compar x y <= 0.

Lemma settled_step lo hi stack stack' l l' :
  Forall (apart (lo, hi)) stack -> settled ((lo, hi) :: stack) l -> shuffle lo hi l l' ->
  (forall p q x y, (lo <= p < q)%nat -> (q < hi)%nat -> l' !! p = Some x -> l' !! q = Some y ->
     (exists r, r ∈ stack' /\ r.1 <= p /\ q < r.2)%nat \/ compar x y <= 0) ->
  settled (stack' ++ stack) l'.
Proof.
  intros Ha Hset Hs Hin p q x y Hpq Hx Hy. rewrite Forall_forall in Ha.
  setoid_rewrite elem_of_app.
  destruct (decide (lo <= p < hi)%nat) as [Hp|Hp], (decide (lo <= q < hi)%nat) as [Hq|Hq].
  - destruct (Hin p q x y) as [(r & ? & ?)|]; [lia|lia|done|done|left|by right]. by eauto.
  - destruct (shuffle_inside _ _ _ _ _ Hs Hp) as (p' & Hp' & E). rewrite E in Hx.
    rewrite (shuffle_outside _ _ _ _ q Hs) in Hy by lia.
    destruct (Hset p' q x y) as [(r & [->|Hr]%elem_of_cons & ? & ?)|]; [lia|done|done|simpl in *; lia| |by right].
    destruct (Ha r Hr); simpl in *; lia.
  - destruct (shuffle_inside _ _ _ _ _ Hs Hq) as (q' & Hq' & E). rewrite E in Hy.
    rewrite (shuffle_outside _ _ _ _ p Hs) in Hx by lia.
    destruct (Hset p q' x y) as [(r & [->|Hr]%elem_of_cons & ? & ?)|]; [lia|done|done|simpl in *; lia| |by right].
    destruct (Ha r Hr); simpl in *; lia.
  - rewrite (shuffle_outside _ _ _ _ p Hs) in Hx by lia. rewrite (shuffle_outside _ _ _ _ q Hs) in Hy by lia.
    destruct (Hset p q x y) as [(r & [->|Hr]%elem_of_cons & ? & ?)|]; [lia|done|done|simpl in *; lia| |by right].
    left. by eauto.
Qed.

Lemma split_settled `{!Comparison compar} a m v less greater l p q x y :
  (less + greater <= m)%nat -> Split compar a m v less greater l ->
  (a <= p < q)%nat -> (q < a + m)%nat -> l !! p = Some x -> l !! q = Some y ->
  (exists r, r ∈ [(a, a + less); (a + m - greater, a + m)] /\ r.1 <= p /\ q < r.2)%nat \/ compar x y <= 0.
Proof.
  intros Hm [Hl He Hg] Hpq Hq Hx Hy.
  destruct (decide (q < a + less)%nat); [left; eexists; split; [left|simpl; lia]|].
  destruct (decide (a + m - greater <= p)%nat); [left; eexists; split; [right; left|simpl; lia]|].
  right. apply (compar_below x y v).
  - destruct (decide (p < a + less)%nat); [apply Z.lt_le_incl, (Hl p); auto with lia|].
    destruct (He p x) as [?| ->]; [lia|done|lia|]. by rewrite compar_refl.
  - destruct (decide (a + m - greater <= q)%nat); [apply Z.lt_le_incl, (Hg q); auto with lia|].
    destruct (He q y) as [?| ->]; [lia|done|lia|]. by rewrite compar_refl.
Qed.

(** The ranges pushed: the greater one below the smaller, which is left out if it is
    empty. *)
Definition pushed (left right : nat * nat) : list (nat * nat) :=
  let (first, second) := if (size left <? size right)%nat then (right, left) else (left, right) in
  if (second.1 =? second.2)%nat then [first] else [second; first].

Lemma elem_of_pushed left right r p q :
  (left.1 <= left.2)%nat -> (right.1 <= right.2)%nat ->
  r ∈ [left; right] -> (r.1 <= p < q)%nat -> (q < r.2)%nat -> r ∈ pushed left right.
Proof.
  intros Hl Hr Hin Hp Hq. unfold pushed.
  destruct (size left <? size right)%nat; match goal with |- context [(?a =? ?b)%nat] => destruct (Nat.eqb_spec a b) end;
    rewrite !elem_of_cons in *; destruct Hin as [->|[->|Hin]]; try tauto; try lia; by apply elem_of_nil in Hin.
Qed.

Lemma pushed_Forall (P : nat * nat -> Prop) left right : P left -> P right -> Forall P (pushed left right).
Proof. intros. unfold pushed. repeat case_match; simplify_eq; auto. Qed.

Lemma pushed_work left right : (work (pushed left right) <= 2 * (size left + size right) + 2)%nat.
Proof.
  unfold pushed, work.
  destruct (size left <? size right)%nat; destruct (_ =? _)%nat; simpl; lia.
Qed.

Lemma pushed_deep N m left right stack :
  (size left + size right <= m)%nat -> Z.of_nat m * 2 ^ Z.of_nat (length stack) <= N -> deep N stack ->
  deep N (pushed left right ++ stack).
Proof.
  intros Hm HN Hd. unfold pushed. pose proof (Z.pow_pos_nonneg 2 (Z.of_nat (length stack))).
  destruct (Nat.ltb_spec (size left) (size right)); destruct (_ =? _)%nat; simpl; rewrite ?Nat2Z.inj_succ, ?Z.pow_succ_r by lia;
    (split_and!; [nia..|done]).
Qed.

Lemma pushed_apart left right stack :
  (left.2 <= right.1)%nat -> Forall (apart left) stack -> Forall (apart right) stack ->
  ForallOrdPairs apart stack -> ForallOrdPairs apart (pushed left right ++ stack).
Proof.
  intros Hlr Hl Hr Hs. unfold pushed.
  destruct (size left <? size right)%nat; destruct (_ =? _)%nat; simpl;
    repeat constructor; try done; unfold apart; lia.
Qed.

Lemma within_length l l' stack : length l' = length l ->
  Forall (within (length l)) stack -> Forall (within (length l')) stack.
Proof. by intros ->. Qed.

(** The ranges that a partition leaves to sort. *)
Definition subranges (lo hi less greater : nat) : list (nat * nat) :=
  if (less =? 0)%nat && (greater =? 0)%nat then []
  else pushed (lo, lo + less)%nat (hi - greater, hi)%nat.

Lemma subranges_ok N lo hi less greater n stack :
  (less + greater + 1 <= hi - lo)%nat -> (hi <= n)%nat ->
  Z.of_nat (hi - lo) * 2 ^ Z.of_nat (length stack) <= N -> deep N stack -> Forall (within n) stack ->
  let stack' := subranges lo hi less greater ++ stack in
  (work stack' + 1 <= 2 * (hi - lo) + 1 + work stack)%nat /\ Forall (within n) stack' /\ deep N stack'.
Proof.
  intros Hm Hn HN Hd Hb stack'. subst stack'. rewrite work_app. unfold subranges. destruct (_ && _); [cbn; split_and!; [lia|done..]|].
  split_and!.
  - pose proof (pushed_work (lo, lo + less)%nat (hi - greater, hi)%nat). unfold size in *. simpl in *. lia.
  - apply Forall_app. split; [|done]. apply pushed_Forall; unfold within; simpl; lia.
  - apply (pushed_deep N (hi - lo)); [unfold size; simpl; lia|done|done].
Qed.

Lemma subranges_apart lo hi less greater stack :
  (less + greater + 1 <= hi - lo)%nat -> Forall (apart (lo, hi)) stack -> ForallOrdPairs apart stack ->
  ForallOrdPairs apart (subranges lo hi less greater ++ stack).
Proof.
  intros Hm Ha Hs. unfold subranges. destruct (_ && _); [done|].
  apply pushed_apart; [simpl; lia| | |done]; (eapply Forall_impl; [exact Ha|]; unfold apart; simpl; lia).
Qed.

Lemma partition_step lo hi l : (7 <= hi - lo)%nat -> (hi <= length l)%nat ->
  exists less greater l', partition compar swaptype lo (hi - lo) l = Ok (less, greater, l') /\
    shuffle lo hi l l' /\ (less + greater + 1 <= hi - lo)%nat /\
    (Comparison compar -> forall stack, Forall (apart (lo, hi)) stack -> settled ((lo, hi) :: stack) l ->
       settled (subranges lo hi less greater ++ stack)%nat l').
Proof.
  intros Hn Hl.
  destruct (partition_Ok compar swaptype lo (hi - lo) l) as (v & less & greater & l' & -> & Hs & Hm & Hsp); [lia..|].
  replace (lo + (hi - lo))%nat with hi in Hs by lia. exists less, greater, l'. split_and!; [done..|].
  intros HC stack Ha Hset. apply (settled_step lo hi stack _ l); [done..|]. intros p q x y Hp Hq Hx Hy.
  destruct (split_settled lo (hi - lo) v less greater l' p q x y) as [(r & Hin & Hpq)|]; [lia|done|lia|lia|done|done|left|by right].
  replace (lo + (hi - lo))%nat with hi in Hin by lia. exists r. split; [|done]. unfold subranges.
  destruct (Nat.eqb_spec less 0) as [->|], (Nat.eqb_spec greater 0) as [->|]; cbn [andb];
    try (eapply elem_of_pushed; [| |exact Hin|split; [apply Hpq|apply Hp]|apply Hpq]; simpl; lia).
  rewrite !elem_of_cons, elem_of_nil in Hin. destruct Hin as [->|[->|[]]]; simpl in Hpq; lia.
Qed.

(** A range of seven items or more has at most 61 others below it. *)
Lemma deep_room N n (stack : list (nat * nat)) :
  N < 2 ^ 64 -> (7 <= n)%nat -> Z.of_nat n * 2 ^ Z.of_nat (length stack) <= N ->
  (2 * length stack + 4 <? CQ_STACKSIZ)%nat = true.
Proof.
  intros HN Hn Hd. apply Nat.ltb_lt. unfold CQ_STACKSIZ.
  destruct (decide (length stack < 62)%nat); [lia|].
  assert (2 ^ 62 <= 2 ^ Z.of_nat (length stack)) by (apply Z.pow_le_mono_r; lia). nia.
Qed.

Lemma sort_ranges_partition fuel lo hi stack l less greater l' :
  (7 <= hi - lo)%nat -> (greater <= hi)%nat -> (2 * length stack + 4 <? CQ_STACKSIZ)%nat = true ->
  partition compar swaptype lo (hi - lo) l = Ok (less, greater, l') ->
  sort_ranges compar (S fuel) swaptype ((lo, hi) :: stack) l =
  sort_ranges compar fuel swaptype (subranges lo hi less greater ++ stack) l'.
Proof.
  intros Hn Hg Hroom E. cbn [sort_ranges]. destruct (Nat.ltb_spec (hi - lo) 7); [lia|].
  rewrite E. res_simpl. rewrite Hroom. unfold subranges, pushed, size. simpl.
  replace (lo + less - lo)%nat with less by lia. replace (hi - (hi - greater))%nat with greater by lia.
  destruct ((less =? 0)%nat && (greater =? 0)%nat); [done|]. repeat case_match; simplify_eq; done.
Qed.

Lemma sort_ranges_Ok N : N < 2 ^ 64 -> forall fuel stack l,
  (work stack <= fuel)%nat -> Forall (within (length l)) stack -> deep N stack ->
  exists l', sort_ranges compar fuel swaptype stack l = Ok l' /\ Permutation l' l /\
    (Comparison compar -> ForallOrdPairs apart stack -> settled stack l -> settled [] l').
Proof.
  intros HN. induction fuel as [|fuel IH]; intros [|[lo hi] stack] l Hw Hb Hd;
    try (by eexists; split_and!); [unfold work in Hw; simpl in Hw; lia|].
  apply Forall_cons in Hb as [Hr Hb]. unfold within in Hr. simpl in Hr. destruct Hd as [Hdeep Hd].
  assert (Hwork : (2 * (hi - lo) + 1 + work stack <= S fuel)%nat) by apply Hw. clear Hw.
  unfold size in Hdeep. simpl in Hdeep.
  destruct (decide (hi - lo < 7)%nat) as [Hn|Hn].
  - cbn [sort_ranges]. destruct (Nat.ltb_spec (hi - lo) 7); [|lia].
    destruct (insert_range_Ok lo hi l Hr) as (l1 & -> & Hs & Ho). res_simpl.
    destruct (IH stack l1) as (l' & -> & HP & Hset); [lia|by erewrite shuffle_length|done|].
    exists l'. split_and!; [done|by rewrite HP; eapply shuffle_Permutation|].
    intros HC Ha Hl. inversion_clear Ha. apply Hset; [done..|].
    apply (settled_step lo hi stack [] l); [done..|]. intros. right. by eapply Ho.
  - destruct (partition_step lo hi l ltac:(lia) ltac:(lia)) as (less & greater & l1 & E & Hs & Hm & Hset1).
    pose proof (shuffle_length _ _ _ _ Hs) as Hlen.
    rewrite (sort_ranges_partition _ _ _ _ _ less greater l1); [|lia|lia|by apply (deep_room N (hi - lo)); auto with lia|done].
    destruct (subranges_ok N lo hi less greater (length l1) stack) as (Hw' & Hb' & Hd');
      [done|lia|done|done|by rewrite Hlen|].
    destruct (IH (subranges lo hi less greater ++ stack) l1 ltac:(lia) Hb' Hd') as (l' & -> & HP & Hset).
    exists l'. split_and!; [done|by rewrite HP; eapply shuffle_Permutation|].
    intros HC Ha Hl. inversion_clear Ha. apply Hset; [done|by apply subranges_apart|by apply Hset1].
Qed.

Lemma settled_sorted l : settled [] l -> StronglySorted (fun x y => compar x y <= 0) l.
Proof.
  induction l as [|x l IH]; intros H; constructor.
  - apply IH. intros p q y z Hpq Hy Hz. destruct (H (S p) (S q) y z) as [(r & Hr%elem_of_nil & _)|]; auto with lia.
  - apply Forall_lookup. intros i y Hy.
    destruct (H 0%nat (S i) x y) as [(r & Hr%elem_of_nil & _)|]; auto with lia.
Qed.

Lemma click_qsort_Ok l : Z.of_nat (length l) < 2 ^ 64 ->
  exists l', click_qsort compar swaptype l = Ok l' /\ Permutation l' l /\
    (Comparison compar -> StronglySorted (fun x y => compar x y <= 0) l').
Proof.
  intros Hl. unfold click_qsort.
  destruct (sort_ranges_Ok (Z.of_nat (length l)) Hl (2 * length l + 1) [(0, length l)]%nat l) as (l' & E & HP & Hset).
  - unfold work, size. simpl. lia.
  - repeat constructor; simpl; lia.
  - split; [|done]. unfold size. cbn [fst snd length]. change (2 ^ Z.of_nat 0) with 1. lia.
  - exists l'. split_and!; [done..|]. intros HC. apply settled_sorted, Hset; [done|by repeat constructor|].
    intros p q x y Hpq Hx Hy. left. exists (0, length l)%nat. split; [left|]. simpl.
    apply lookup_lt_Some in Hy. lia.
Qed.

End sort.

(** C22: [click_qsort] terminates for every comparison function, even one that is no
    order: it returns, with the items of the array rearranged, never looks outside the
    array and never exceeds its stack of 65 subranges. *)
Theorem click_qsort_total {A} (compar : A -> A -> Z) (swaptype : nat) (l : list A) :
  Z.of_nat (length l) < 2 ^ 64 ->
  exists l', click_qsort compar swaptype l = Ok l' /\ Permutation l' l.
Proof. intros Hl. destruct (click_qsort_Ok compar swaptype l Hl) as (l' & ? & ? & _). by exists l'. Qed.

Lemma click_qsort_total_witness :
  exists l', click_qsort (fun _ _ : Z => 1) 0 (map Z.of_nat (seq 0 60)) = Ok l' /\ Permutation l' (map Z.of_nat (seq 0 60)).
Proof. apply (click_qsort_total (fun _ _ : Z => 1) 0 (map Z.of_nat (seq 0 60))). reflexivity. Defined.

(** C21: [click_qsort] sorts: for a comparison function that orders the items, the
    result has the items of the array, none of them before one that is less. *)
Theorem click_qsort_sorts {A} (compar : A -> A -> Z) (swaptype : nat) (l : list A) :
  Comparison compar -> Z.of_nat (length l) < 2 ^ 64 ->
  exists l', click_qsort compar swaptype l = Ok l' /\ Permutation l' l /\
    StronglySorted (fun x y => compar x y <= 0) l'.
Proof. intros HC Hl. destruct (click_qsort_Ok compar swaptype l Hl) as (l' & ? & ? & Hs). exists l'. auto. Qed.

#[global] Instance Z_sub_comparison : Comparison Z.sub.
Proof. split; lia. Qed.

Lemma click_qsort_sorts_witness :
  exists l', click_qsort Z.sub 0 (map (fun i => Z.of_nat i * 37 mod 50) (seq 0 50)) = Ok l' /\
    Permutation l' (map (fun i => Z.of_nat i * 37 mod 50) (seq 0 50)) /\
    StronglySorted (fun x y => Z.sub x y <= 0) l'.
Proof.
  apply (click_qsort_sorts Z.sub 0 (map (fun i => Z.of_nat i * 37 mod 50) (seq 0 50)));
    [apply Z_sub_comparison|reflexivity].
Defined.
