(* ===== verification/Packets.v ===== *)
(** Packets: src/click-2.0.1/lib/packet.cc and include/click/packet.hh at user
    level, with the pools of packet objects and of data buffers, and the element
    UniqueTee (elements/standard/unique_tee.cc).

    A packet object is a block in [pkts]; its data lie in a buffer, a block in
    [bufs].  Clones share the buffer of the packet they were made of and count in
    its [_use_count].  The four pointers into the buffer and the header pointers
    are offsets in it.  Accessing a block that has been freed is a fault.

    What the compiler and the machine decide is an argument: whether Click was
    configured for threads ([HAVE_MULTITHREAD]; then this is one thread's view,
    with the lock free), the contents of fresh memory ([garbage]) and the addresses
    of blocks ([addr]). *)

From stdpp Require Import gmap.
From S2P Require Import Prelude.

(** ** Data *)

Record Packet := mkPacket {
  _use_count : Z;               (* 32 bits, unsigned *)
  _data_packet : option positive;
  _buf : option positive;       (* the block of [_head] ... [_end]; null after recycling *)
  _head : Z;
  _data : Z;
  _tail : Z;
  _end : Z;
  _destructor : bool;           (* whether a destructor was given *)
  _cb : bytes;                  (* annotations *)
  _mac : option Z;
  _nh : option Z;
  _h : option Z
}.

Record PacketPool := mkPacketPool {
  pp_p : list positive;
  pp_pcount : Z;
  pp_pd : list positive;
  pp_pdcount : Z
}.

(** The global pool is made of whole pools of threads, of objects and of
    buffers. *)
Record GlobalPool := mkGlobalPool {
  gp_p : list (list positive);
  gp_pcount : Z;
  gp_pd : list (list positive);
  gp_pdcount : Z
}.

Record Mem := mkMem {
  pkts : gmap positive Packet;
  bufs : gmap positive bytes;
  packet_pool : PacketPool;
  global_packet_pool : GlobalPool;
  next_addr : positive;          (* blocks from here on are unused *)
  destroyed : list positive      (* buffers given to a destructor *)
}.

Definition mem_start : Mem :=
  mkMem ∅ ∅ (mkPacketPool [] 0 [] 0) (mkGlobalPool [] 0 [] 0) 1 [].

Definition CLICK_PACKET_POOL_BUFSIZ : Z := 2048.
Definition CLICK_PACKET_POOL_SIZE : Z := 1000.
Definition CLICK_GLOBAL_PACKET_POOL_COUNT : Z := 16.
Definition default_headroom : Z := 28.
Definition min_buffer_length : Z := 64.
Definition anno_size : nat := 48.

Definition with_pkts (f : gmap positive Packet -> gmap positive Packet) (m : Mem) : Mem :=
  mkMem (f (pkts m)) (bufs m) (packet_pool m) (global_packet_pool m) (next_addr m) (destroyed m).
Definition with_bufs (f : gmap positive bytes -> gmap positive bytes) (m : Mem) : Mem :=
  mkMem (pkts m) (f (bufs m)) (packet_pool m) (global_packet_pool m) (next_addr m) (destroyed m).
Definition with_pool (f : PacketPool -> PacketPool) (m : Mem) : Mem :=
  mkMem (pkts m) (bufs m) (f (packet_pool m)) (global_packet_pool m) (next_addr m) (destroyed m).
Definition with_global (f : GlobalPool -> GlobalPool) (m : Mem) : Mem :=
  mkMem (pkts m) (bufs m) (packet_pool m) (f (global_packet_pool m)) (next_addr m) (destroyed m).

Definition with_p (l : list positive) (n : Z) (pp : PacketPool) : PacketPool :=
  mkPacketPool l n (pp_pd pp) (pp_pdcount pp).
Definition with_pd (l : list positive) (n : Z) (pp : PacketPool) : PacketPool :=
  mkPacketPool (pp_p pp) (pp_pcount pp) l n.
Definition with_gp (l : list (list positive)) (n : Z) (g : GlobalPool) : GlobalPool :=
  mkGlobalPool l n (gp_pd g) (gp_pdcount g).
Definition with_gpd (l : list (list positive)) (n : Z) (g : GlobalPool) : GlobalPool :=
  mkGlobalPool (gp_p g) (gp_pcount g) l n.

(** ** Memory *)

Definition get (m : Mem) (a : positive) : res Packet := of_option UseAfterFree (pkts m !! a).
Definition set (a : positive) (p : Packet) : Mem -> Mem := with_pkts (insert a p).
Definition get_buf (m : Mem) (p : Packet) : res (positive * bytes) :=
  let* b := of_option NullDeref (_buf p) in
  let* bs := of_option UseAfterFree (bufs m !! b) in
  Ok (b, bs).

Definition read_range (bs : bytes) (off n : Z) : res bytes :=
  if (0 <=? off) && (0 <=? n) && (off + n <=? Z.of_nat (length bs))
  then Ok (take (Z.to_nat n) (drop (Z.to_nat off) bs)) else Fault OutOfBounds.

Definition write_range (bs : bytes) (off : Z) (src : bytes) : res bytes :=
  if (0 <=? off) && (off + Z.of_nat (length src) <=? Z.of_nat (length bs))
  then Ok (take (Z.to_nat off) bs ++ src ++ drop (Z.to_nat off + length src) bs)
  else Fault OutOfBounds.

Definition delete_array (m : Mem) (b : positive) : res Mem :=
  let* _ := of_option UseAfterFree (bufs m !! b) in
  Ok (with_bufs (delete b) m).

Fixpoint delete_arrays (m : Mem) (l : list positive) : res Mem :=
  match l with
  | [] => Ok m
  | b :: l => let* m := delete_array m b in delete_arrays m l
  end.

(** ** Views of a packet *)

Definition Packet_length (p : Packet) : Z := u32 (_tail p - _data p).
Definition headroom (p : Packet) : Z := u32 (_data p - _head p).
Definition tailroom (p : Packet) : Z := u32 (_end p - _tail p).
Definition buffer_length (p : Packet) : Z := u32 (_end p - _head p).
Definition shared (p : Packet) : bool := bool_decide (is_Some (_data_packet p)) || (1 <? _use_count p).

Definition with_range (head data tail e : Z) (p : Packet) : Packet :=
  mkPacket (_use_count p) (_data_packet p) (_buf p) head data tail e (_destructor p)
    (_cb p) (_mac p) (_nh p) (_h p).
Definition with_count (n : Z) (p : Packet) : Packet :=
  mkPacket n (_data_packet p) (_buf p) (_head p) (_data p) (_tail p) (_end p) (_destructor p)
    (_cb p) (_mac p) (_nh p) (_h p).
Definition with_buf (b : option positive) (p : Packet) : Packet :=
  mkPacket (_use_count p) (_data_packet p) b (_head p) (_data p) (_tail p) (_end p) (_destructor p)
    (_cb p) (_mac p) (_nh p) (_h p).
Definition with_data_packet (d : option positive) (p : Packet) : Packet :=
  mkPacket (_use_count p) d (_buf p) (_head p) (_data p) (_tail p) (_end p) (_destructor p)
    (_cb p) (_mac p) (_nh p) (_h p).
Definition with_destructor (x : bool) (p : Packet) : Packet :=
  mkPacket (_use_count p) (_data_packet p) (_buf p) (_head p) (_data p) (_tail p) (_end p) x
    (_cb p) (_mac p) (_nh p) (_h p).
Definition with_headers (mac nh h : option Z) (p : Packet) : Packet :=
  mkPacket (_use_count p) (_data_packet p) (_buf p) (_head p) (_data p) (_tail p) (_end p)
    (_destructor p) (_cb p) mac nh h.

(** [initialize] and the data pointers the callers set after it. *)
Definition initialize (b : positive) (data tail e : Z) (destructor : bool) : Packet :=
  mkPacket 1 None (Some b) 0 data tail e destructor (replicate anno_size 0) None None None.

Definition shift_header_annotations (old_head extra_headroom : Z) (p : Packet) : Packet :=
  let shift := _head p - old_head + extra_headroom in
  with_headers (Z.add shift <$> _mac p) (Z.add shift <$> _nh p) (Z.add shift <$> _h p) p.

Definition set_mac_header (x len : Z) (p : Packet) : res Packet :=
  assert* (_head p <=? x) && (x + len <=? _end p);
  Ok (with_headers (Some x) (Some (x + len)) (_h p) p).

Definition set_network_header (x len : Z) (p : Packet) : res Packet :=
  assert* (_head p <=? x) && (x + len <=? _end p);
  Ok (with_headers (_mac p) (Some x) (Some (x + len)) p).

Definition Packet_pull (len : Z) (p : Packet) : Packet :=
  let len := if Packet_length p <? len then Packet_length p else len in
  with_range (_head p) (_data p + len) (_tail p) (_end p) p.

Definition Packet_take (len : Z) (p : Packet) : Packet :=
  let len := if Packet_length p <? len then Packet_length p else len in
  with_range (_head p) (_data p) (_tail p - len) (_end p) p.

Definition shrink_data (data len : Z) (p : Packet) : res Packet :=
  assert* bool_decide (is_Some (_data_packet p));
  Ok (if (_head p <=? data) && (data <=? data + len) && (data + len <=? _end p)
      then with_range data data (data + len) (data + len) p else p).

Definition change_headroom_and_length (hr len : Z) (p : Packet) : Packet :=
  if u32 (hr + len) <=? buffer_length p
  then with_range (_head p) (_head p + hr) (_head p + hr + len) (_end p) p else p.

(** ** Programs

    What elements do with packets, each known by a name: [Write] and the data of
    [Push] and [Put] are written through the [WritablePacket] the call returns. *)

Inductive op :=
| Make (x : nat) (data : bytes)
| MakeDestructor (x : nat) (data : bytes)
| Clone (x y : nat)
| Kill (x : nat)
| Uniqueify (x : nat)
| Write (x off : nat) (data : bytes)
| Push (x : nat) (data : bytes)
| Put (x : nat) (data : bytes)
| Pull (x : nat) (n : Z)
| Take (x : nat) (n : Z)
| NetworkHeader (x off len : nat)
| Shift (x : nat) (offset : Z).

Abbreviation env := (gmap nat positive).

(** ** Allocation and release *)

Section packet.
Variable HAVE_MULTITHREAD : bool.
Variable garbage : positive -> nat -> Z.
Variable addr : positive -> Z.

Definition new_object (m : Mem) : positive * Mem :=
  (next_addr m,
   mkMem (pkts m) (bufs m) (packet_pool m) (global_packet_pool m) (Pos.succ (next_addr m)) (destroyed m)).

Definition fresh_bytes (b : positive) (n : nat) : bytes := garbage b <$> seq 0 n.

Definition new_block (bs : positive -> bytes) (m : Mem) : positive * Mem :=
  let b := next_addr m in
  (b, mkMem (pkts m) (<[b := bs b]> (bufs m)) (packet_pool m) (global_packet_pool m) (Pos.succ b)
        (destroyed m)).

Definition new_array (n : Z) : Mem -> positive * Mem := new_block (fun b => fresh_bytes b (Z.to_nat n)).

(** Taking a pool of objects, or of buffers, from the global pool. *)
Definition refill (with_data : bool) (m : Mem) : Mem :=
  let m := match pp_p (packet_pool m), gp_p (global_packet_pool m) with
           | [], l :: ls =>
               with_pool (with_p l CLICK_PACKET_POOL_SIZE)
                 (with_global (with_gp ls (u32 (gp_pcount (global_packet_pool m) - 1))) m)
           | _, _ => m
           end in
  match with_data, pp_pd (packet_pool m), gp_pd (global_packet_pool m) with
  | true, [], l :: ls =>
      with_pool (with_pd l CLICK_PACKET_POOL_SIZE)
        (with_global (with_gpd ls (u32 (gp_pdcount (global_packet_pool m) - 1))) m)
  | _, _, _ => m
  end.

(** [pool_allocate(bool)]: the address of an object. *)
Definition pool_allocate_object (with_data : bool) (m : Mem) : positive * Mem :=
  let m := if HAVE_MULTITHREAD then refill with_data m else m in
  match pp_p (packet_pool m) with
  | a :: l => (a, with_pool (with_p l (u32 (pp_pcount (packet_pool m) - 1))) m)
  | [] => new_object m
  end.

Definition pool_allocate (hr len tr : Z) (m : Mem) : positive * Mem :=
  let n := u32 (hr + len + tr) in
  let n := if n <? CLICK_PACKET_POOL_BUFSIZ then CLICK_PACKET_POOL_BUFSIZ else n in
  let '(a, m) := pool_allocate_object (n =? CLICK_PACKET_POOL_BUFSIZ) m in
  let '(b, m) := match (if n =? CLICK_PACKET_POOL_BUFSIZ then pp_pd (packet_pool m) else []) with
                 | b :: l => (b, with_pool (with_pd l (u32 (pp_pdcount (packet_pool m) - 1))) m)
                 | [] => new_array n m
                 end in
  (a, set a (initialize b hr (hr + len) n false) m).

(** [~Packet].  The object is no more from here on: what is left of it is what
    the body reads. *)
Definition Packet_destroy (kill : Mem -> positive -> res Mem) (m : Mem) (a : positive) : res Mem :=
  let* p := get m a in
  let m := with_pkts (delete a) m in
  match _data_packet p, _buf p with
  | Some d, _ => kill m d
  | None, None => Ok m
  | None, Some b =>
      if _destructor p
      then Ok (mkMem (pkts m) (delete b (bufs m)) (packet_pool m) (global_packet_pool m) (next_addr m)
                 (b :: destroyed m))
      else delete_array m b
  end.

(** The part of [recycle] under the lock: a full pool goes to the global pool, or
    is freed. *)
Definition flush_objects (m : Mem) : Mem :=
  let pp := packet_pool m in
  let g := global_packet_pool m in
  match pp_p pp with
  | [] => m
  | l => if pp_pcount pp =? CLICK_PACKET_POOL_SIZE then
           with_pool (with_p [] 0)
             (if gp_pcount g =? CLICK_GLOBAL_PACKET_POOL_COUNT then m
              else with_global (with_gp (l :: gp_p g) (u32 (gp_pcount g + 1))) m)
         else m
  end.

(** [packet_pool.pd->pool_next = global_packet_pool.pd], stored in the buffer. *)
Definition link_pool (l : list positive) (m : Mem) : res Mem :=
  let* b := of_option NullDeref (head l) in
  let* bs := of_option UseAfterFree (bufs m !! b) in
  let next := match gp_pd (global_packet_pool m) with (x :: _) :: _ => addr x | _ => 0 end in
  let* bs := write_range bs 8 (le_encode 8 next) in
  Ok (with_bufs (insert b bs) m).

Definition flush_data (m : Mem) : res Mem :=
  let pp := packet_pool m in
  let g := global_packet_pool m in
  match pp_pd pp with
  | [] => Ok m
  | l => if pp_pdcount pp =? CLICK_PACKET_POOL_SIZE then
           let* m := if gp_pdcount g =? CLICK_GLOBAL_PACKET_POOL_COUNT then delete_arrays m l
                     else let* m := link_pool l m in
                          Ok (with_global (with_gpd (l :: gp_pd g) (u32 (gp_pdcount g + 1))) m) in
           Ok (with_pool (with_pd [] 0) m)
         else Ok m
  end.

(** [pd->next = packet_pool.pd]: the link is stored in the buffer. *)
Definition link_data (b : positive) (m : Mem) : res Mem :=
  let pp := packet_pool m in
  let* bs := of_option UseAfterFree (bufs m !! b) in
  let* bs := write_range bs 0 (le_encode 8 (match pp_pd pp with x :: _ => addr x | [] => 0 end)) in
  Ok (with_pool (with_pd (b :: pp_pd pp) (pp_pdcount pp)) (with_bufs (insert b bs) m)).

(** The data buffer of a packet that goes to the pool. *)
Definition pooled_data (p : Packet) : option positive :=
  match _data_packet p, _buf p with
  | None, Some b =>
      if negb (_destructor p) && (_end p - _head p =? CLICK_PACKET_POOL_BUFSIZ) then Some b else None
  | _, _ => None
  end.

(** Before the packet and its buffer are put into the pool: room is made, or what
    does not fit is freed, in which case the result says so. *)
Definition make_room (kill : Mem -> positive -> res Mem) (data : option positive) (m : Mem) (a : positive)
    : res (bool * option positive * Mem) :=
  if HAVE_MULTITHREAD then
    let m := flush_objects m in
    let* m := match data with Some _ => flush_data m | None => Ok m end in
    Ok (true, data, m)
  else
    let* (object, m) :=
      if pp_pcount (packet_pool m) =? CLICK_PACKET_POOL_SIZE
      then let* m := Packet_destroy kill m a in Ok (false, m) else Ok (true, m) in
    match data with
    | Some b => if pp_pdcount (packet_pool m) =? CLICK_PACKET_POOL_SIZE
                then let* m := delete_array m b in Ok (object, None, m) else Ok (object, data, m)
    | None => Ok (object, data, m)
    end.

Definition count_object (m : Mem) : Mem :=
  with_pool (with_p (pp_p (packet_pool m)) (u32 (pp_pcount (packet_pool m) + 1))) m.
Definition count_data (m : Mem) : Mem :=
  with_pool (with_pd (pp_pd (packet_pool m)) (u32 (pp_pdcount (packet_pool m) + 1))) m.
Definition link_object (a : positive) (m : Mem) : Mem :=
  with_pool (with_p (a :: pp_p (packet_pool m)) (pp_pcount (packet_pool m))) m.

Definition recycle_object (kill : Mem -> positive -> res Mem) (m : Mem) (a : positive) : res Mem :=
  let* m := Packet_destroy kill (count_object m) a in
  let m := link_object a m in
  assert* pp_pcount (packet_pool m) <=? CLICK_PACKET_POOL_SIZE;
  Ok m.

Definition recycle_data (m : Mem) (b : positive) : res Mem :=
  let* m := link_data b (count_data m) in
  assert* pp_pdcount (packet_pool m) <=? CLICK_PACKET_POOL_SIZE;
  Ok m.

Definition recycle (kill : Mem -> positive -> res Mem) (m : Mem) (a : positive) : res Mem :=
  let* p := get m a in
  let data := pooled_data p in
  let m := match data with Some _ => set a (with_buf None p) m | None => m end in
  let* (object, data, m) := make_room kill data m a in
  let* m := if object : bool then recycle_object kill m a else Ok m in
  match data with Some b => recycle_data m b | None => Ok m end.

(** [kill] releases a reference; the last one recycles the packet, which releases
    the packet it was cloned of.  Each turn frees a packet. *)
Fixpoint kill_loop (fuel : nat) (m : Mem) (a : positive) : res Mem :=
  match fuel with
  | O => Fault StackOverflow
  | S fuel =>
      let* p := get m a in
      let n := u32 (_use_count p - 1) in
      let m := set a (with_count n p) m in
      if n =? 0 then recycle (kill_loop fuel) m a else Ok m
  end.

Definition kill (m : Mem) (a : positive) : res Mem := kill_loop (size (pkts m)) m a.

Definition cleanup_pool (m : Mem) (pp : PacketPool) : res Mem :=
  let* m := delete_arrays m (pp_pd pp) in
  assert* (Z.of_nat (length (pp_p pp)) =? pp_pcount pp)
          && (Z.of_nat (length (pp_pd pp)) =? pp_pdcount pp)
          && (pp_pcount pp <=? CLICK_PACKET_POOL_SIZE) && (pp_pdcount pp <=? CLICK_PACKET_POOL_SIZE);
  Ok m.

(** The loop over the global pool: [cleanup_pool] is called on the global pool
    itself, its lists being the first pools in it. *)
Fixpoint cleanup_global (m : Mem) (ps pds : list (list positive)) : res Mem :=
  let g := global_packet_pool m in
  let next l pds' k := let* m := cleanup_pool m (mkPacketPool l (gp_pcount g) pds' (gp_pdcount g)) in k m in
  match ps with
  | l :: ps => match pds with
               | l' :: pds => next l l' (fun m => cleanup_global m ps pds)
               | [] => next l [] (fun m => cleanup_global m ps [])
               end
  | [] => (fix loop (m : Mem) (pds : list (list positive)) : res Mem :=
             match pds with
             | [] => Ok m
             | l' :: pds =>
                 let g := global_packet_pool m in
                 let* m := cleanup_pool m (mkPacketPool [] (gp_pcount g) l' (gp_pdcount g)) in
                 loop m pds
             end) m pds
  end.

Definition static_cleanup (m : Mem) : res Mem :=
  let pp := packet_pool m in
  let* m := cleanup_pool m pp in
  let m := with_pool (fun _ => mkPacketPool [] (pp_pcount pp) [] (pp_pdcount pp)) m in
  if HAVE_MULTITHREAD then
    let* m := cleanup_global m (gp_p (global_packet_pool m)) (gp_pd (global_packet_pool m)) in
    Ok (with_global (fun g => mkGlobalPool [] (gp_pcount g) [] (gp_pdcount g)) m)
  else Ok m.

(** ** Making and copying *)

Definition make (hr : Z) (data : option bytes) (len tr : Z) (m : Mem) : res (positive * Mem) :=
  let '(a, m) := pool_allocate hr len tr m in
  match data with
  | None => Ok (a, m)
  | Some data =>
      let* p := get m a in
      let* src := read_range data 0 len in
      let* (b, bs) := get_buf m p in
      let* bs := write_range bs (_data p) src in
      Ok (a, with_bufs (insert b bs) m)
  end.

(** A packet around the caller's buffer. *)
Definition make_destructor (data : bytes) (m : Mem) : positive * Mem :=
  let '(b, m) := new_block (fun _ => data) m in
  let '(a, m) := pool_allocate_object false m in
  let len := Z.of_nat (length data) in
  (a, set a (initialize b 0 len len true) m).

Definition clone (m : Mem) (a : positive) : res (positive * Mem) :=
  let* p := get m a in
  let '(q, m) := pool_allocate_object false m in
  let m := set q (with_destructor false (with_data_packet (Some a) (with_count 1 p))) m in
  Ok (q, set a (with_count (u32 (_use_count p + 1)) p) m).

(** [alloc_data] on packet [a]. *)
Definition alloc_data (hr len tr : Z) (m : Mem) (a : positive) : res Mem :=
  let n := u32 (len + hr + tr) in
  let n := if n <? min_buffer_length then min_buffer_length else n in
  let* p := get m a in
  let '(b, m) := new_array n m in
  Ok (set a (with_range 0 hr (hr + len) n (with_buf (Some b) p)) m).

Fixpoint expensive_uniqueify_loop (fuel : nat) (extra_headroom extra_tailroom : Z) (m : Mem) (a : positive)
    : res (positive * Mem) :=
  match fuel with
  | O => Fault StackOverflow
  | S fuel =>
      let* p := get m a in
      assert* (i32 (u32 (- headroom p)) <=? extra_headroom) && (i32 (u32 (- tailroom p)) <=? extra_tailroom);
      if 1 <? _use_count p then
        let* (c, m) := clone m a in
        let* (q, m) := expensive_uniqueify_loop fuel extra_headroom extra_tailroom m c in
        let* m := kill m a in
        Ok (q, m)
      else
        let old_head := _head p in
        let old_end := _end p in
        let* (old_b, old) := get_buf m p in
        let* m := alloc_data (u32 (headroom p + extra_headroom)) (Packet_length p)
                    (u32 (tailroom p + extra_tailroom)) m a in
        let* q := get m a in
        let start_copy := old_head + (if 0 <=? extra_headroom then 0 else - extra_headroom) in
        let end_copy := old_end + (if 0 <=? extra_tailroom then 0 else extra_tailroom) in
        let* src := read_range old start_copy (end_copy - start_copy) in
        let* (b, bs) := get_buf m q in
        let* bs := write_range bs (_head q + (if 0 <=? extra_headroom then extra_headroom else 0)) src in
        let m := with_bufs (insert b bs) m in
        let* m := match _data_packet q with
                  | Some d => kill m d
                  | None =>
                      if _destructor q
                      then Ok (mkMem (pkts m) (delete old_b (bufs m)) (packet_pool m) (global_packet_pool m)
                                 (next_addr m) (old_b :: destroyed m))
                      else delete_array m old_b
                  end in
        let* q := get m a in
        Ok (a, set a (shift_header_annotations old_head extra_headroom
                        (with_data_packet None (with_count 1 (with_destructor false q)))) m)
  end.

(** A clone has one reference, so that a second call makes no third. *)
Definition expensive_uniqueify : Z -> Z -> Mem -> positive -> res (positive * Mem) :=
  expensive_uniqueify_loop 2.

Definition uniqueify (m : Mem) (a : positive) : res (positive * Mem) :=
  let* p := get m a in
  if negb (shared p) then Ok (a, m) else expensive_uniqueify 0 0 m a.

(** ** Room before and after the data *)

Definition expensive_push (nbytes : Z) (m : Mem) (a : positive) : res (positive * Mem) :=
  let* (q, m) := expensive_uniqueify (i32 (Z.land (u32 (nbytes + 128)) (u32 (Z.lnot 3)))) 0 m a in
  let* p := get m q in
  Ok (q, set q (with_range (_head p) (_data p - nbytes) (_tail p) (_end p) p) m).

Definition expensive_put (nbytes : Z) (m : Mem) (a : positive) : res (positive * Mem) :=
  let* (q, m) := expensive_uniqueify 0 (i32 (u32 (nbytes + 128))) m a in
  let* p := get m q in
  Ok (q, set q (with_range (_head p) (_data p) (_tail p + nbytes) (_end p) p) m).

Definition Packet_push (len : Z) (m : Mem) (a : positive) : res (positive * Mem) :=
  let* p := get m a in
  if (len <=? headroom p) && negb (shared p)
  then Ok (a, set a (with_range (_head p) (_data p - len) (_tail p) (_end p) p) m)
  else expensive_push len m a.

Definition nonunique_push (len : Z) (m : Mem) (a : positive) : res (positive * Mem) :=
  let* p := get m a in
  if len <=? headroom p
  then Ok (a, set a (with_range (_head p) (_data p - len) (_tail p) (_end p) p) m)
  else expensive_push len m a.

Definition push_mac_header (len : Z) (m : Mem) (a : positive) : res (positive * Mem) :=
  let* (q, m) := Packet_push len m a in
  let* p := get m q in
  let* p := set_mac_header (_data p) len p in
  Ok (q, set q p m).

Definition Packet_put (len : Z) (m : Mem) (a : positive) : res (positive * Mem) :=
  let* p := get m a in
  if (len <=? tailroom p) && negb (shared p)
  then Ok (a, set a (with_range (_head p) (_data p) (_tail p + len) (_end p) p) m)
  else expensive_put len m a.

Definition nonunique_put (len : Z) (m : Mem) (a : positive) : res (positive * Mem) :=
  let* p := get m a in
  if len <=? tailroom p
  then Ok (a, set a (with_range (_head p) (_data p) (_tail p + len) (_end p) p) m)
  else expensive_put len m a.

(** A header pointer that is set, lies in the buffer and before [dp]. *)
Definition earlier (p : Packet) (x : option Z) (dp : Z) : bool :=
  match x with
  | Some x => (_head p <=? x) && (x <=? _end p) && (x <? dp)
  | None => false
  end.

(** Where the data to move start.  The last case takes the network header, which
    may be null. *)
Definition shift_start (p : Packet) : option Z :=
  let dp := _data p in
  let dp := if earlier p (_mac p) dp then default dp (_mac p) else dp in
  let dp := if earlier p (_nh p) dp then default dp (_nh p) else dp in
  if earlier p (_h p) dp then _nh p else Some dp.

Definition shift_data (offset : Z) (m : Mem) (a : positive) : res (positive * Mem) :=
  if offset =? 0 then Ok (a, m) else
  let* p := get m a in
  let dp := shift_start p in
  let fits := match dp with
              | Some dp => if offset <? 0 then - offset <=? dp - _head p else offset <=? tailroom p
              | None => (0 <=? offset) && (offset <=? tailroom p)
              end in
  if negb (shared p) && fits then
    let* dp := of_option NullDeref dp in
    let* (b, bs) := get_buf m p in
    let* src := read_range bs dp (_tail p - dp) in
    let* bs := write_range bs (dp + offset) src in
    let p := with_range (_head p) (_data p + offset) (_tail p + offset) (_end p) p in
    Ok (a, set a (shift_header_annotations (_head p) offset p) (with_bufs (insert b bs) m))
  else
    let* b := of_option NullDeref (_buf p) in
    let tailroom_offset := if offset <? 0 then - offset else 0 in
    let offset := if (offset <? 0) && (headroom p <? u32 (- offset))
                  then i32 (u32 (- headroom p) + Z.land (u64 (addr b + _data p + offset)) 7)
                  else i32 (offset + Z.land (u64 (addr b + _head p)) 7) in
    expensive_uniqueify offset tailroom_offset m a.

(** ** UniqueTee *)

(** [UniqueTee::push]; [output i] is what the element at output [i] does with a
    packet, [W] being the state of the elements behind the outputs. *)
Fixpoint UniqueTee_loop {W} (output : nat -> W * Mem -> positive -> res (W * Mem)) (i n : nat) (w : W) (m : Mem) (p : positive)
    : res (W * Mem) :=
  match n with
  | O => output i (w, m) p
  | S n =>
      let* (q, m) := clone m p in
      let* (write_packet, m) := uniqueify m q in
      let* (w, m) := output i (w, m) write_packet in
      UniqueTee_loop output (S i) n w m p
  end.

Definition UniqueTee_push {W} (output : nat -> W * Mem -> positive -> res (W * Mem)) (noutputs : nat) (w : W) (m : Mem)
    (p : positive) : res (W * Mem) :=
  match noutputs with
  | O => Fault OutOfBounds
  | S n => UniqueTee_loop output 0 n w m p
  end.

(** ** Running programs *)

(** Writing through the data pointer. *)
Definition write_data (m : Mem) (a : positive) (off : Z) (data : bytes) : res Mem :=
  let* p := get m a in
  let* (b, bs) := get_buf m p in
  let* bs := write_range bs (_data p + off) data in
  Ok (with_bufs (insert b bs) m).

Definition lookup_env (e : env) (x : nat) : res positive := of_option NullDeref (e !! x).

Definition update_packet (m : Mem) (a : positive) (f : Packet -> res Packet) : res Mem :=
  let* p := get m a in
  let* p := f p in
  Ok (set a p m).

Definition exec (o : op) (s : env * Mem) : res (env * Mem) :=
  let '(e, m) := s in
  match o with
  | Make x data =>
      let* (a, m) := make default_headroom (Some data) (Z.of_nat (length data)) 0 m in
      Ok (<[x := a]> e, m)
  | MakeDestructor x data => let '(a, m) := make_destructor data m in Ok (<[x := a]> e, m)
  | Clone x y =>
      let* a := lookup_env e x in
      let* (q, m) := clone m a in
      Ok (<[y := q]> e, m)
  | Kill x =>
      let* a := lookup_env e x in
      let* m := kill m a in
      Ok (delete x e, m)
  | Uniqueify x =>
      let* a := lookup_env e x in
      let* (q, m) := uniqueify m a in
      Ok (<[x := q]> e, m)
  | Write x off data =>
      let* a := lookup_env e x in
      let* (q, m) := uniqueify m a in
      let* m := write_data m q (Z.of_nat off) data in
      Ok (<[x := q]> e, m)
  | Push x data =>
      let* a := lookup_env e x in
      let* (q, m) := Packet_push (Z.of_nat (length data)) m a in
      let* m := write_data m q 0 data in
      Ok (<[x := q]> e, m)
  | Put x data =>
      let* a := lookup_env e x in
      let* (q, m) := Packet_put (Z.of_nat (length data)) m a in
      let* p := get m q in
      let* m := write_data m q (Packet_length p - Z.of_nat (length data)) data in
      Ok (<[x := q]> e, m)
  | Pull x n =>
      let* a := lookup_env e x in
      let* m := update_packet m a (fun p => Ok (Packet_pull n p)) in
      Ok (e, m)
  | Take x n =>
      let* a := lookup_env e x in
      let* m := update_packet m a (fun p => Ok (Packet_take n p)) in
      Ok (e, m)
  | NetworkHeader x off len =>
      let* a := lookup_env e x in
      let* m := update_packet m a
                  (fun p => set_network_header (_data p + Z.of_nat off) (Z.of_nat len) p) in
      Ok (e, m)
  | Shift x offset =>
      let* a := lookup_env e x in
      let* (q, m) := shift_data offset m a in
      Ok (<[x := q]> e, m)
  end.

Fixpoint exec_all (os : list op) (s : env * Mem) : res (env * Mem) :=
  match os with
  | [] => Ok s
  | o :: os => let* s := exec o s in exec_all os s
  end.

End packet.

(** ** What packets promise

    Every name has its own bytes, and its own network and transport header at an
    offset from the first byte, whatever is done with the others. *)

Record view := mkView { v_bytes : bytes; v_nh : option Z; v_h : option Z }.

Abbreviation views := (gmap nat view).

Definition write_bytes (off : nat) (data bs : bytes) : bytes :=
  take off bs ++ data ++ drop (off + length data) bs.

(** The offsets are from the first byte: they move when it does. *)
Definition spec_drop (n : Z) (v : view) : view :=
  let n := Z.min n (Z.of_nat (length (v_bytes v))) in
  mkView (drop (Z.to_nat n) (v_bytes v)) (Z.add (- n) <$> v_nh v) (Z.add (- n) <$> v_h v).
Definition spec_push (data : bytes) (v : view) : view :=
  let n := Z.of_nat (length data) in
  mkView (data ++ v_bytes v) (Z.add n <$> v_nh v) (Z.add n <$> v_h v).
Definition spec_take (n : Z) (v : view) : view :=
  let n := Z.min n (Z.of_nat (length (v_bytes v))) in
  mkView (take (length (v_bytes v) - Z.to_nat n) (v_bytes v)) (v_nh v) (v_h v).

(** [None] where the program is not one: an unknown name, a name in use, writing
    outside the packet, a number that is not of its type.  Moving a packet whose
    network header lies before its data is left out: the header may be lost. *)
Definition spec_step (o : op) (s : views) : option views :=
  match o with
  | Make x data | MakeDestructor x data =>
      guard (s !! x = None);; Some (<[x := mkView data None None]> s)
  | Clone x y => v ← s !! x; guard (s !! y = None);; Some (<[y := v]> s)
  | Kill x => _ ← s !! x; Some (delete x s)
  | Uniqueify x => _ ← s !! x; Some s
  | Shift x offset => v ← s !! x; guard (0 <= default 0 (v_nh v));; Some s
  | Write x off data =>
      v ← s !! x; guard (off + length data <= length (v_bytes v))%nat;;
      Some (<[x := mkView (write_bytes off data (v_bytes v)) (v_nh v) (v_h v)]> s)
  | Push x data => v ← s !! x; Some (<[x := spec_push data v]> s)
  | Put x data => v ← s !! x; Some (<[x := mkView (v_bytes v ++ data) (v_nh v) (v_h v)]> s)
  | Pull x n => v ← s !! x; guard (0 <= n < 2 ^ 32);; Some (<[x := spec_drop n v]> s)
  | Take x n => v ← s !! x; guard (0 <= n < 2 ^ 32);; Some (<[x := spec_take n v]> s)
  | NetworkHeader x off len =>
      v ← s !! x; guard (off + len <= length (v_bytes v))%nat;;
      Some (<[x := mkView (v_bytes v) (Some (Z.of_nat off)) (Some (Z.of_nat (off + len)))]> s)
  end.

Fixpoint spec_all (os : list op) (s : views) : option views :=
  match os with
  | [] => Some s
  | o :: os => s ← spec_step o s; spec_all os s
  end.

(** By how much the operation can make a buffer longer than all others. *)
Definition op_cost (o : op) : Z :=
  match o with
  | Make _ data | MakeDestructor _ data => 29 + Z.of_nat (length data)
  | Push _ data | Put _ data => 130 + Z.of_nat (length data)
  | Shift _ offset => 2 * Z.abs offset + 9
  | _ => 2
  end.

Fixpoint program_cost (os : list op) : Z :=
  match os with
  | [] => 0
  | o :: os => op_cost o + program_cost os
  end.
