(* ===== verification/PacketsInv.v ===== *)
(** The invariant of packets in the default configuration, without threads:
    reference counts, buffers and pools; every operation of [Packets] keeps it,
    leaves the other packets alone and does what its name says. *)

From stdpp Require Import gmap.
From S2P Require Import Prelude Packets.

(** ** The invariant

    [ext a] is the number of references to packet [a] held outside the packets:
    by elements, or by a call in progress. *)

Definition refs (ps : gmap positive Packet) (d : positive) : nat :=
  size (filter (fun kv => _data_packet kv.2 = Some d) ps).

Record Graph (ps : gmap positive Packet) (ext : positive -> nat) : Prop := {
  g_clone : forall a p d, ps !! a = Some p -> _data_packet p = Some d ->
    exists q, ps !! d = Some q /\ _buf q = _buf p;
  g_count : forall a p, ps !! a = Some p ->
    _use_count p = Z.of_nat (ext a + refs ps a) /\ (1 <= ext a + refs ps a)%nat;
  g_held : forall a, (1 <= ext a)%nat -> is_Some (ps !! a);
  g_rank : exists rank : positive -> nat, forall a p d,
    ps !! a = Some p -> _data_packet p = Some d -> (rank d < rank a)%nat
}.

Definition shape (bf : gmap positive bytes) (p : Packet) : Prop :=
  exists b bs, _buf p = Some b /\ bf !! b = Some bs /\
    0 <= _head p <= _data p /\ _data p <= _tail p <= _end p /\ _end p <= Z.of_nat (length bs) /\
    (_data_packet p = None -> _head p = 0 /\ _end p = Z.of_nat (length bs)) /\
    (forall h, _h p = Some h -> exists n, _nh p = Some n /\ n <= h) /\ _mac p = None.

Record Store (ps : gmap positive Packet) (bf : gmap positive bytes) (pd : list positive) (B : Z) : Prop := {
  s_shape : forall a p, ps !! a = Some p -> shape bf p;
  s_owner : forall a c p q, ps !! a = Some p -> ps !! c = Some q ->
    _data_packet p = None -> _data_packet q = None -> _buf p = _buf q -> a = c;
  s_nodup : NoDup pd;
  s_pd : forall b, b ∈ pd -> exists bs, bf !! b = Some bs /\ Z.of_nat (length bs) = CLICK_PACKET_POOL_BUFSIZ;
  s_free : forall b, b ∈ pd -> forall a p, ps !! a = Some p -> _buf p <> Some b;
  s_all : forall b bs, bf !! b = Some bs -> Z.of_nat (length bs) <= B /\
    (b ∈ pd \/ exists a p, ps !! a = Some p /\ _data_packet p = None /\ _buf p = Some b)
}.

(** [pend] objects are counted and not yet in the list. *)
Record Pool (ps : gmap positive Packet) (pp : PacketPool) (pend : nat) : Prop := {
  p_nodup : NoDup (pp_p pp);
  p_free : forall a, a ∈ pp_p pp -> ps !! a = None;
  p_count : pp_pcount pp = Z.of_nat (length (pp_p pp) + pend);
  p_size : pp_pcount pp <= CLICK_PACKET_POOL_SIZE;
  p_dcount : pp_pdcount pp = Z.of_nat (length (pp_pd pp));
  p_dsize : pp_pdcount pp <= CLICK_PACKET_POOL_SIZE
}.

Record Fresh (m : Mem) : Prop := {
  f_pkts : forall a, is_Some (pkts m !! a) -> (a < next_addr m)%positive;
  f_bufs : forall b, is_Some (bufs m !! b) -> (b < next_addr m)%positive;
  f_pool : forall a, a ∈ pp_p (packet_pool m) -> (a < next_addr m)%positive
}.

Record Inv (m : Mem) (ext : positive -> nat) (pend : nat) (B : Z) : Prop := {
  i_graph : Graph (pkts m) ext;
  i_store : Store (pkts m) (bufs m) (pp_pd (packet_pool m)) B;
  i_pool : Pool (pkts m) (packet_pool m) pend;
  i_fresh : Fresh m;
  i_size : Z.of_nat (size (pkts m)) <= B < 2 ^ 31
}.

Definition ext_inc (a : positive) (ext : positive -> nat) : positive -> nat :=
  fun c => if decide (c = a) then S (ext c) else ext c.
Definition ext_dec (a : positive) (ext : positive -> nat) : positive -> nat :=
  fun c => if decide (c = a) then pred (ext c) else ext c.

(** What a program sees of a packet. *)
Definition view_of (bf : gmap positive bytes) (p : Packet) : view :=
  let bs := default [] (_buf p ≫= fun b => bf !! b) in
  mkView (take (Z.to_nat (_tail p - _data p)) (drop (Z.to_nat (_data p)) bs))
    ((fun x => x - _data p) <$> _nh p) ((fun x => x - _data p) <$> _h p).
Definition view_at (m : Mem) (a : positive) : option view := view_of (bufs m) <$> pkts m !! a.

(** ** Reference counts *)

Definition ref1 (p : Packet) (d : positive) : nat := if decide (_data_packet p = Some d) then 1 else 0.

Lemma refs_insert ps a p d : ps !! a = None -> refs (<[a := p]> ps) d = (ref1 p d + refs ps d)%nat.
Proof.
  intros H. unfold refs, ref1. destruct (decide _) as [E|E].
  - rewrite map_filter_insert_True by done. rewrite map_size_insert_None; [done|].
    rewrite map_lookup_filter_None. by left.
  - rewrite map_filter_insert_False by done. by rewrite delete_id.
Qed.

Lemma refs_delete ps a p d : ps !! a = Some p -> refs ps d = (ref1 p d + refs (delete a ps) d)%nat.
Proof.
  intros H. rewrite <- (refs_insert (delete a ps) a p d) by apply lookup_delete_eq. by rewrite insert_delete_id.
Qed.

Lemma refs_update ps a p q d :
  ps !! a = Some p -> _data_packet q = _data_packet p -> refs (<[a := q]> ps) d = refs ps d.
Proof.
  intros H E. rewrite (refs_delete ps a p) by done. rewrite <- insert_delete_eq, refs_insert by apply lookup_delete_eq.
  unfold ref1. by rewrite E.
Qed.

Lemma refs_pos ps d : (1 <= refs ps d)%nat <-> exists a p, ps !! a = Some p /\ _data_packet p = Some d.
Proof.
  split.
  - intros H. destruct (map_choose (filter (fun kv => _data_packet kv.2 = Some d) ps)) as (a & p & Hp).
    { intros E. unfold refs in H. rewrite E, map_size_empty in H. lia. }
    apply map_lookup_filter_Some in Hp as [??]. by exists a, p.
  - intros (a & p & Hp & E). rewrite (refs_delete ps a p) by done. unfold ref1. rewrite decide_True by done. lia.
Qed.

Lemma refs_zero ps d : refs ps d = 0%nat <-> forall a p, ps !! a = Some p -> _data_packet p <> Some d.
Proof.
  pose proof (refs_pos ps d). split.
  - intros E a p Hp Hd. assert (1 <= refs ps d)%nat by (apply H; eauto). lia.
  - intros Hno. destruct (decide (refs ps d = 0%nat)) as [|Hn]; [done|].
    destruct (proj1 H) as (a & p & Hp & E); [lia|]. by destruct (Hno a p).
Qed.

Lemma refs_size ps d : (refs ps d <= size ps)%nat.
Proof. unfold refs. apply map_subseteq_size, map_filter_subseteq. Qed.

(** ** The steps of the graph *)

Lemma Graph_ext ps ext ext' : (forall a, ext a = ext' a) -> Graph ps ext -> Graph ps ext'.
Proof.
  intros E G. split; [apply G| | |apply G].
  - intros a p Hp. rewrite <- E. by apply G.
  - intros a. rewrite <- E. apply G.
Qed.

(** Updating fields that are not part of the graph. *)
Lemma graph_update ps ext a p q :
  Graph ps ext -> ps !! a = Some p -> _data_packet q = _data_packet p -> _use_count q = _use_count p ->
  _buf q = _buf p -> Graph (<[a := q]> ps) ext.
Proof.
  intros G Hp Ed Ec Eb. split.
  - intros c r d Hr Hd. apply lookup_insert_Some in Hr as [[<- <-]|[Hne Hr]].
    + destruct (g_clone _ _ G a p d) as (s & Hs & Es); [done|congruence|].
      destruct (decide (d = a)) as [->|]; [exists q; rewrite lookup_insert_eq; split; congruence|].
      exists s. rewrite lookup_insert_ne by done. split; congruence.
    + destruct (g_clone _ _ G c r d) as (s & Hs & Es); [done..|].
      destruct (decide (d = a)) as [->|]; [exists q; rewrite lookup_insert_eq; split; congruence|].
      exists s. by rewrite lookup_insert_ne by done.
  - intros c r Hr. rewrite (refs_update ps a p q) by done.
    apply lookup_insert_Some in Hr as [[<- <-]|[Hne Hr]].
    + rewrite Ec. by apply G.
    + by apply G.
  - intros c Hc. destruct (decide (c = a)) as [->|]; [rewrite lookup_insert_eq; eauto|].
    rewrite lookup_insert_ne by done. by apply G.
  - destruct (g_rank _ _ G) as [rank Hr]. exists rank. intros c r d Hc Hd.
    apply lookup_insert_Some in Hc as [[<- <-]|[Hne Hc]]; [apply (Hr a p); congruence|eauto].
Qed.

(** Releasing a reference that is not the last. *)
Lemma graph_release ps ext a p :
  Graph ps ext -> ps !! a = Some p -> (1 <= ext a)%nat -> 1 < _use_count p ->
  Graph (<[a := with_count (_use_count p - 1) p]> ps) (ext_dec a ext).
Proof.
  intros G Hp He Hc. split.
  - intros c r d Hr Hd.
    assert (exists s, ps !! d = Some s /\ _buf s = _buf r) as (s & Hs & Es).
    { apply lookup_insert_Some in Hr as [[<- <-]|[Hne Hr]]; [by apply (g_clone _ _ G a p d)|].
      by apply (g_clone _ _ G c r d). }
    destruct (decide (d = a)) as [->|].
    + eexists. rewrite lookup_insert_eq. split; [done|]. simpl. congruence.
    + exists s. by rewrite lookup_insert_ne by done.
  - intros c r Hr. rewrite (refs_update ps a p) by done. unfold ext_dec.
    apply lookup_insert_Some in Hr as [[<- <-]|[Hne Hr]].
    + rewrite decide_True by done. destruct (g_count _ _ G a p Hp). simpl. lia.
    + rewrite decide_False by done. by apply G.
  - intros c Hc'. unfold ext_dec in Hc'. destruct (decide (c = a)) as [->|].
    + rewrite lookup_insert_eq. eauto.
    + rewrite lookup_insert_ne by done. by apply G.
  - destruct (g_rank _ _ G) as [rank Hr]. exists rank. intros c r d Hc' Hd.
    apply lookup_insert_Some in Hc' as [[<- <-]|[Hne Hc']]; eauto.
Qed.

(** Removing a packet without references; its own reference to the packet it was
    cloned of is then held outside. *)
Definition ext_drop (a : positive) (p : Packet) (ext : positive -> nat) : positive -> nat :=
  fun c => ((if decide (c = a) then 0 else ext c) + ref1 p c)%nat.

Lemma graph_no_self ps ext a p : Graph ps ext -> ps !! a = Some p -> _data_packet p <> Some a.
Proof. intros G Hp Hd. destruct (g_rank _ _ G) as [rank Hr]. specialize (Hr a p a Hp Hd). lia. Qed.

Lemma graph_drop ps ext a p :
  Graph ps ext -> ps !! a = Some p -> refs ps a = 0%nat -> Graph (delete a ps) (ext_drop a p ext).
Proof.
  intros G Hp Hr. pose proof (graph_no_self _ _ _ _ G Hp) as Hself. rewrite refs_zero in Hr. split.
  - intros c r d Hc Hd. apply lookup_delete_Some in Hc as [Hne Hc].
    destruct (g_clone _ _ G c r d) as (s & Hs & Es); [done..|]. exists s. rewrite lookup_delete_ne; [done|].
    intros ->. by apply (Hr c r).
  - intros c r Hc. apply lookup_delete_Some in Hc as [Hne Hc]. unfold ext_drop.
    rewrite decide_False by done. destruct (g_count _ _ G c r Hc) as [E1 E2].
    rewrite (refs_delete ps a p) in E1, E2 by done. lia.
  - intros c Hc. unfold ext_drop, ref1 in Hc.
    destruct (decide (c = a)) as [->|]; [rewrite decide_False in Hc by done; simpl in Hc; lia|].
    rewrite lookup_delete_ne by done.
    destruct (decide (_data_packet p = Some c)) as [E|]; [|apply (g_held _ _ G); lia].
    destruct (g_clone _ _ G a p c) as (s & Hs & _); eauto.
  - destruct (g_rank _ _ G) as [rank Hk]. exists rank. intros c r d Hc Hd.
    apply lookup_delete_Some in Hc as [_ Hc]. eauto.
Qed.

Lemma ref1_root p d : _data_packet p = None -> ref1 p d = 0%nat.
Proof. intros H. unfold ref1. by rewrite decide_False by congruence. Qed.

Lemma graph_absent ps ext a : Graph ps ext -> ps !! a = None -> ext a = 0%nat /\ refs ps a = 0%nat.
Proof.
  intros G Ha. split.
  - destruct (ext a) eqn:E; [done|]. destruct (g_held _ _ G a) as [? H]; [lia|congruence].
  - apply refs_zero. intros c p Hp Hd. destruct (g_clone _ _ G c p a) as (s & Hs & _); [done..|congruence].
Qed.

(** A new packet with a buffer of its own. *)
Lemma graph_add ps ext a p :
  Graph ps ext -> ps !! a = None -> _data_packet p = None -> _use_count p = 1 ->
  Graph (<[a := p]> ps) (ext_inc a ext).
Proof.
  intros G Ha Hd Hc. destruct (graph_absent _ _ _ G Ha) as [Ea Er]. split.
  - intros c r d Hr Hd'. apply lookup_insert_Some in Hr as [[<- <-]|[Hne Hr]]; [congruence|].
    destruct (g_clone _ _ G c r d) as (s & Hs & Es); [done..|]. exists s.
    rewrite lookup_insert_ne; [done|]. congruence.
  - intros c r Hr. rewrite refs_insert, ref1_root by done. unfold ext_inc.
    apply lookup_insert_Some in Hr as [[<- <-]|[Hne Hr]].
    + rewrite decide_True by done. lia.
    + rewrite decide_False by done. by apply G.
  - intros c Hc'. unfold ext_inc in Hc'. destruct (decide (c = a)) as [->|].
    + rewrite lookup_insert_eq. eauto.
    + rewrite lookup_insert_ne by done. by apply G.
  - destruct (g_rank _ _ G) as [rank Hk]. exists rank. intros c r d Hc' Hd'.
    apply lookup_insert_Some in Hc' as [[<- <-]|[Hne Hc']]; [congruence|eauto].
Qed.

(** A clone. *)
Lemma graph_clone ps ext a p q r :
  Graph ps ext -> ps !! a = Some p -> ps !! q = None -> _data_packet r = Some a -> _use_count r = 1 ->
  _buf r = _buf p ->
  Graph (<[a := with_count (_use_count p + 1) p]> (<[q := r]> ps)) (ext_inc q ext).
Proof.
  intros G Hp Hq Hd Hc Hb. destruct (graph_absent _ _ _ G Hq) as [Ea Er].
  assert (Hne : q <> a) by congruence.
  assert (Hp' : <[q := r]> ps !! a = Some p) by (by rewrite lookup_insert_ne).
  split.
  - intros c s d Hs Hd'.
    assert (exists t, ps !! d = Some t /\ _buf t = _buf s) as (t & Ht & Et).
    { apply lookup_insert_Some in Hs as [[<- <-]|[Hn Hs]]; [by apply (g_clone _ _ G a p d)|].
      apply lookup_insert_Some in Hs as [[<- <-]|[Hn' Hs]]; [|by apply (g_clone _ _ G c s d)].
      exists p. split; congruence. }
    destruct (decide (d = a)) as [->|].
    + eexists. rewrite lookup_insert_eq. split; [done|]. simpl. congruence.
    + exists t. rewrite !lookup_insert_ne by congruence. done.
  - intros c s Hs. rewrite (refs_update _ a p) by done. rewrite refs_insert by done. unfold ext_inc, ref1.
    apply lookup_insert_Some in Hs as [[<- <-]|[Hn Hs]].
    + rewrite decide_False by done. rewrite decide_True by done. destruct (g_count _ _ G a p Hp). simpl. lia.
    + apply lookup_insert_Some in Hs as [[<- <-]|[Hn' Hs]].
      * rewrite decide_True by done. rewrite decide_False by congruence. rewrite Er, Ea. lia.
      * rewrite !decide_False by congruence. by apply G.
  - intros c Hc'. unfold ext_inc in Hc'. destruct (decide (c = a)) as [->|]; [rewrite lookup_insert_eq; eauto|].
    rewrite lookup_insert_ne by done. destruct (decide (c = q)) as [->|]; [rewrite lookup_insert_eq; eauto|].
    rewrite lookup_insert_ne by done. by apply G.
  - destruct (g_rank _ _ G) as [rank Hk].
    exists (fun c => if decide (c = q) then S (rank a) else rank c). intros c s d Hs Hd'.
    apply lookup_insert_Some in Hs as [[<- <-]|[Hn Hs]].
    + rewrite decide_False; [rewrite decide_False by done; by apply (Hk a p)|].
      intros ->. destruct (g_clone _ _ G a p q) as (t & Ht & _); [done..|congruence].
    + apply lookup_insert_Some in Hs as [[<- <-]|[Hn' Hs]].
      * assert (d = a) by congruence. subst. rewrite decide_False, decide_True by done. lia.
      * rewrite decide_False; [rewrite decide_False by done; by apply (Hk c s)|].
        intros ->. destruct (g_clone _ _ G c s q) as (t & Ht & _); [done..|congruence].
Qed.

(** Every packet has its buffer from one that owns it. *)
Lemma graph_root ps ext a p :
  Graph ps ext -> ps !! a = Some p ->
  exists r q, ps !! r = Some q /\ _data_packet q = None /\ _buf q = _buf p /\ (r = a \/ (1 <= refs ps r)%nat).
Proof.
  intros G. destruct (g_rank _ _ G) as [rank Hk].
  revert p. induction a as [a IH] using (induction_ltof1 _ rank). intros p Hp.
  destruct (_data_packet p) as [d|] eqn:Ed; [|exists a, p; auto].
  destruct (g_clone _ _ G a p d) as (s & Hs & Es); [done..|].
  destruct (IH d (Hk a p d Hp Ed) s Hs) as (r & q & Hr & Hd & Hb & Hor).
  exists r, q. repeat split; [done|done|congruence|]. right. destruct Hor as [->|]; [|done].
  apply refs_pos. eauto.
Qed.

Lemma graph_sole ps ext a p c q :
  Graph ps ext -> ps !! a = Some p -> _data_packet p = None -> refs ps a = 0%nat ->
  (forall c r, ps !! c = Some r -> _data_packet r = None -> _buf r = _buf p -> c = a) ->
  ps !! c = Some q -> c <> a -> _buf q <> _buf p.
Proof.
  intros G Hp Hd Hr Hown Hq Hne Hb. destruct (graph_root _ _ c q G Hq) as (r & s & Hs & Hds & Hbs & Hor).
  assert (r = a) by (eapply Hown; [done|done|congruence]). subst. destruct Hor; [congruence|lia].
Qed.

(** ** The steps of the store *)

Lemma shape_mono bf bf' p :
  (forall b bs, _buf p = Some b -> bf !! b = Some bs ->
    exists bs', bf' !! b = Some bs' /\ length bs' = length bs) -> shape bf p -> shape bf' p.
Proof.
  intros H (b & bs & Hb & Hbs & Hr). destruct (H b bs Hb Hbs) as (bs' & Hbs' & El).
  exists b, bs'. by rewrite El.
Qed.

Lemma store_mono ps bf pd B B' : B <= B' -> Store ps bf pd B -> Store ps bf pd B'.
Proof.
  intros HB S. split; [apply S|apply S|apply S|apply S|apply S|]. intros b bs Hb.
  destruct (s_all _ _ _ _ S b bs Hb). split; [lia|done].
Qed.

Lemma store_update ps bf pd B a p q :
  Store ps bf pd B -> ps !! a = Some p -> _data_packet q = _data_packet p -> _buf q = _buf p -> shape bf q ->
  Store (<[a := q]> ps) bf pd B.
Proof.
  intros S Hp Ed Eb Hq.
  assert (Hback : forall c r, <[a := q]> ps !! c = Some r ->
    exists s, ps !! c = Some s /\ _data_packet s = _data_packet r /\ _buf s = _buf r).
  { intros c r [[<- <-]|[_ H]]%lookup_insert_Some; eauto. }
  split.
  - intros c r [[<- <-]|[_ H]]%lookup_insert_Some; [done|]. by eapply S.
  - intros c e r t Hc He Hr Ht Hb. destruct (Hback c r Hc) as (s & Hs & ? & ?).
    destruct (Hback e t He) as (u & Hu & ? & ?). apply (s_owner _ _ _ _ S c e s u); congruence.
  - apply S.
  - apply S.
  - intros b Hb c r Hc. destruct (Hback c r Hc) as (s & Hs & _ & <-). by apply (s_free _ _ _ _ S b Hb c s).
  - intros b bs Hb. destruct (s_all _ _ _ _ S b bs Hb) as [HB [H|(c & r & Hc & Hr & Hbr)]]; split; auto.
    right. destruct (decide (c = a)) as [->|].
    + exists a, q. rewrite lookup_insert_eq. split; [done|]. assert (r = p) by congruence. subst. split; congruence.
    + exists c, r. by rewrite lookup_insert_ne.
Qed.

Lemma store_write ps bf pd B b bs bs' :
  Store ps bf pd B -> bf !! b = Some bs -> length bs' = length bs -> Store ps (<[b := bs']> bf) pd B.
Proof.
  intros S Hb El.
  assert (Hfwd : forall c cs, bf !! c = Some cs ->
    exists cs', <[b := bs']> bf !! c = Some cs' /\ length cs' = length cs).
  { intros c cs Hc. destruct (decide (c = b)) as [->|].
    - exists bs'. rewrite lookup_insert_eq. split; congruence.
    - exists cs. by rewrite lookup_insert_ne. }
  split.
  - intros a p Hp. eapply shape_mono; [|by eapply S]. eauto.
  - apply S.
  - apply S.
  - intros c Hc. destruct (s_pd _ _ _ _ S c Hc) as (cs & Hcs & El'). destruct (Hfwd c cs Hcs) as (cs' & ? & E).
    exists cs'. by rewrite E.
  - apply S.
  - intros c cs [[<- <-]|[_ H]]%lookup_insert_Some; [rewrite El|]; by apply S.
Qed.

(** A clone refers to a buffer that is there. *)
Lemma store_clone ps bf pd B q r d :
  Store ps bf pd B -> ps !! q = None -> _data_packet r = Some d -> shape bf r ->
  (forall b, _buf r = Some b -> b ∉ pd) -> Store (<[q := r]> ps) bf pd B.
Proof.
  intros S Hq Hd Hr Hpd. split.
  - intros c t [[<- <-]|[_ H]]%lookup_insert_Some; [done|]. by eapply S.
  - intros c e t u [[<- <-]|[_ Hc]]%lookup_insert_Some; [congruence|].
    intros [[<- <-]|[_ He]]%lookup_insert_Some; [congruence|]. by apply S.
  - apply S.
  - apply S.
  - intros b Hb c t [[<- <-]|[_ Hc]]%lookup_insert_Some; [intros E; by apply (Hpd b)|]. by apply (s_free _ _ _ _ S b Hb c).
  - intros b bs Hb. destruct (s_all _ _ _ _ S b bs Hb) as [HB [H|(c & t & Hc & Ht)]]; split; auto.
    right. exists c, t. rewrite lookup_insert_ne by congruence. done.
Qed.

Lemma store_drop_clone ps bf pd B a p d :
  Store ps bf pd B -> ps !! a = Some p -> _data_packet p = Some d -> Store (delete a ps) bf pd B.
Proof.
  intros S Hp Hd. split.
  - intros c r [_ H]%lookup_delete_Some. by eapply S.
  - intros c e r t [_ Hc]%lookup_delete_Some [_ He]%lookup_delete_Some. by apply S.
  - apply S.
  - apply S.
  - intros b Hb c r [_ Hc]%lookup_delete_Some. by apply (s_free _ _ _ _ S b Hb c).
  - intros b bs Hb. destruct (s_all _ _ _ _ S b bs Hb) as [HB [H|(c & t & Hc & Ht & Hbt)]]; split; auto.
    right. exists c, t. rewrite lookup_delete_ne by congruence. done.
Qed.

Section drop_owner.
Context (ps : gmap positive Packet) (bf : gmap positive bytes) (pd : list positive) (B : Z).
Context (a : positive) (p : Packet) (b : positive).
Context (S : Store ps bf pd B) (Hp : ps !! a = Some p) (Hd : _data_packet p = None) (Hb : _buf p = Some b).
Context (Hsole : forall c q, ps !! c = Some q -> c <> a -> _buf q <> Some b).

Lemma owner_not_pooled : b ∉ pd.
Proof. intros H. by apply (s_free _ _ _ _ S b H a p). Qed.

(** The buffer is freed, with its packet. *)
Lemma store_drop_free : Store (delete a ps) (delete b bf) pd B.
Proof.
  split.
  - intros c r [Hne Hc]%lookup_delete_Some. eapply shape_mono; [|by eapply S].
    intros x xs Hx Hxs. exists xs. rewrite lookup_delete_ne; [done|]. intros ->. by apply (Hsole c r).
  - intros c e r t [_ Hc]%lookup_delete_Some [_ He]%lookup_delete_Some. by apply S.
  - apply S.
  - intros c Hc. destruct (s_pd _ _ _ _ S c Hc) as (cs & Hcs & El). exists cs.
    rewrite lookup_delete_ne; [done|]. intros E. apply owner_not_pooled. by rewrite E.
  - intros x Hx c r [_ Hc]%lookup_delete_Some. by apply (s_free _ _ _ _ S x Hx c).
  - intros x xs [Hne Hx]%lookup_delete_Some.
    destruct (s_all _ _ _ _ S x xs Hx) as [HB [H|(c & t & Hc & Ht & Hbt)]]; split; auto.
    right. exists c, t. rewrite lookup_delete_ne; [done|]. congruence.
Qed.

(** The buffer goes to the pool. *)
Lemma store_drop_pool bs bs' :
  bf !! b = Some bs -> length bs' = length bs -> Z.of_nat (length bs) = CLICK_PACKET_POOL_BUFSIZ ->
  Store (delete a ps) (<[b := bs']> bf) (b :: pd) B.
Proof.
  intros Hbs El Hsz. pose proof (store_write _ _ _ _ b bs bs' S Hbs El) as S'. split.
  - intros c r [_ Hc]%lookup_delete_Some. by eapply S'.
  - intros c e r t [_ Hc]%lookup_delete_Some [_ He]%lookup_delete_Some. by apply S.
  - constructor; [apply owner_not_pooled|apply S].
  - intros c [->|Hc]%elem_of_cons; [|by apply (s_pd _ _ _ _ S')].
    exists bs'. rewrite lookup_insert_eq, El. done.
  - intros x [->|Hx]%elem_of_cons c r [Hne Hc]%lookup_delete_Some; [by apply (Hsole c)|].
    by apply (s_free _ _ _ _ S x Hx c).
  - intros x xs Hx. destruct (s_all _ _ _ _ S' x xs Hx) as [HB [H|(c & t & Hc & Ht & Hbt)]]; split; auto.
    + left. apply elem_of_cons; by right.
    + destruct (decide (c = a)) as [->|]; [left; assert (x = b) as -> by congruence; apply elem_of_cons; by left|].
      right. exists c, t. by rewrite lookup_delete_ne.
Qed.
End drop_owner.

(** A packet with a buffer that is new, or comes from the pool. *)
Lemma store_add ps bf pd pd' B a p b bs :
  Store ps bf pd B -> ps !! a = None -> (forall c q, ps !! c = Some q -> _buf q <> Some b) ->
  _data_packet p = None -> _buf p = Some b -> shape (<[b := bs]> bf) p -> Z.of_nat (length bs) <= B ->
  (pd' = pd /\ b ∉ pd \/ pd = b :: pd') -> Store (<[a := p]> ps) (<[b := bs]> bf) pd' B.
Proof.
  intros S Ha Hsole Hd Hb Hsh Hsz Hpd.
  assert (Hpd' : forall x, x ∈ pd' -> x ∈ pd /\ x <> b).
  { intros x Hx. destruct Hpd as [[-> Hn]| ->]; [split; [done|by intros ->]|].
    split; [apply elem_of_cons; by right|]. intros ->. pose proof (s_nodup _ _ _ _ S) as [H _]%NoDup_cons. done. }
  split.
  - intros c r [[<- <-]|[_ H]]%lookup_insert_Some; [done|]. eapply shape_mono; [|by eapply S].
    intros x xs Hx Hxs. exists xs. rewrite lookup_insert_ne; [done|]. intros ->. by apply (Hsole c r).
  - intros c e t u [[<- <-]|[Hn Hc]]%lookup_insert_Some [[<- <-]|[Hn' He]]%lookup_insert_Some Hdt Hdu Hbb.
    + done.
    + destruct (Hsole e u He). congruence.
    + destruct (Hsole c t Hc). congruence.
    + by apply (s_owner _ _ _ _ S c e t u).
  - destruct Hpd as [[-> Hn]| ->]; [apply S|]. by pose proof (s_nodup _ _ _ _ S) as [_ H]%NoDup_cons.
  - intros x Hx. destruct (Hpd' x Hx). rewrite lookup_insert_ne by done. by apply (s_pd _ _ _ _ S).
  - intros x Hx c r [[<- <-]|[_ Hc]]%lookup_insert_Some; destruct (Hpd' x Hx); [congruence|].
    by apply (s_free _ _ _ _ S x) with c.
  - intros x xs [[<- <-]|[Hne Hx]]%lookup_insert_Some.
    + split; [done|]. right. exists a, p. by rewrite lookup_insert_eq.
    + destruct (s_all _ _ _ _ S x xs Hx) as [HB [H|(c & t & Hc & Ht)]]; split; auto.
      * left. destruct Hpd as [[-> Hn]| ->]; [done|]. by apply elem_of_cons in H as [->|].
      * right. exists c, t. rewrite lookup_insert_ne by congruence. done.
Qed.

(** ** Ranges of a buffer *)

Lemma write_range_ok (bs src : bytes) off :
  0 <= off -> off + Z.of_nat (length src) <= Z.of_nat (length bs) ->
  write_range bs off src = Ok (take (Z.to_nat off) bs ++ src ++ drop (Z.to_nat off + length src) bs) /\
  length (take (Z.to_nat off) bs ++ src ++ drop (Z.to_nat off + length src) bs) = length bs.
Proof.
  intros H0 H1. unfold write_range. rewrite !(proj2 (Z.leb_le _ _)) by lia. split; [done|].
  rewrite !length_app, length_take, length_drop. lia.
Qed.

Lemma read_range_ok (bs : bytes) off n :
  0 <= off -> 0 <= n -> off + n <= Z.of_nat (length bs) ->
  read_range bs off n = Ok (take (Z.to_nat n) (drop (Z.to_nat off) bs)).
Proof. intros. unfold read_range. by rewrite !(proj2 (Z.leb_le _ _)) by lia. Qed.

(** ** Killing *)

(** What is left of the packets and buffers is as it was, but for the counts. *)
Record framed (m m' : Mem) : Prop := {
  fr_pkts : forall c p', pkts m' !! c = Some p' -> exists p, pkts m !! c = Some p /\
    p' = with_count (_use_count p') p /\ forall b, _buf p = Some b -> bufs m' !! b = bufs m !! b;
  fr_pool : forall c, c ∈ pp_p (packet_pool m') -> c ∈ pp_p (packet_pool m) \/ is_Some (pkts m !! c);
  fr_next : next_addr m' = next_addr m
}.

Lemma framed_trans m1 m2 m3 : framed m1 m2 -> framed m2 m3 -> framed m1 m3.
Proof.
  intros F G. split.
  - intros c p'' H. destruct (fr_pkts _ _ G c p'' H) as (p' & Hp' & E' & Hb').
    destruct (fr_pkts _ _ F c p' Hp') as (p & Hp & E & Hb). exists p. split; [done|]. split.
    + rewrite E', E. done.
    + intros b Hpb. rewrite Hb' by (rewrite E; done). by apply Hb.
  - intros c [H|[p' H]]%(fr_pool _ _ G); [by apply F|]. right. destruct (fr_pkts _ _ F c p' H) as (p & ? & _). eauto.
  - by rewrite (fr_next _ _ G), (fr_next _ _ F).
Qed.

Lemma view_of_count bf n p : view_of bf (with_count n p) = view_of bf p.
Proof. done. Qed.

Lemma view_of_eq bf bf' p : (forall b, _buf p = Some b -> bf' !! b = bf !! b) -> view_of bf' p = view_of bf p.
Proof. intros H. unfold view_of. destruct (_buf p) as [b|]; simpl; [rewrite (H b eq_refl)|]; done. Qed.

Lemma framed_view m m' c : framed m m' -> is_Some (pkts m' !! c) -> view_at m' c = view_at m c.
Proof.
  intros F [p' Hp']. destruct (fr_pkts _ _ F c p' Hp') as (p & Hp & E & Hb). unfold view_at. rewrite Hp, Hp'.
  simpl. f_equal. rewrite E, view_of_count. by apply view_of_eq.
Qed.

Lemma pool_delete ps pp k a : Pool ps pp k -> Pool (delete a ps) pp k.
Proof.
  intros P. split; try apply P. intros c Hc. destruct (decide (c = a)) as [->|]; [apply lookup_delete_eq|].
  rewrite lookup_delete_ne by done. by apply P.
Qed.

Lemma Inv_ext m ext ext' k B : (forall a, ext a = ext' a) -> Inv m ext k B -> Inv m ext' k B.
Proof. intros E I. split; [by eapply Graph_ext, I|apply I..]. Qed.

(** A count is a 32-bit number. *)
Lemma inv_count m ext k B a p : Inv m ext k B -> pkts m !! a = Some p ->
  _use_count p = Z.of_nat (ext a + refs (pkts m) a) /\ (1 <= ext a + refs (pkts m) a)%nat.
Proof. intros I. apply I. Qed.

Lemma u32_small z : 0 <= z < 2 ^ 32 -> u32 z = z.
Proof. intros H. by apply uwrap_id. Qed.
Lemma i32_small z : - 2 ^ 31 <= z < 2 ^ 31 -> i32 z = z.
Proof. intros H. apply swrap_id; [lia|]. unfold in_s. lia. Qed.

Section kill.
Context (addr : positive -> Z).

(** At most one reference from outside to a packet, and one of a call. *)
Definition held_once (a : positive) (ext : positive -> nat) : Prop :=
  (1 <= ext a <= 2)%nat /\ forall c, c <> a -> (ext c <= 1)%nat.

Definition kills_ok (K : Mem -> positive -> res Mem) (n : nat) : Prop :=
  forall m ext k B a, (size (pkts m) <= n)%nat -> Inv m ext k B -> held_once a ext ->
  exists m', K m a = Ok m' /\ Inv m' (ext_dec a ext) k B /\ framed m m'.

Section last_reference.
Context (m : Mem) (ext : positive -> nat) (k : nat) (B : Z) (a : positive) (p : Packet).
Context (I : Inv m ext k B) (Hp : pkts m !! a = Some p) (Hext : ext a = 1%nat) (Hr : refs (pkts m) a = 0%nat).
Context (Hheld : held_once a ext).

Lemma drop_fresh bf : (forall b, is_Some (bf !! b) -> is_Some (bufs m !! b)) ->
  forall pp m', (forall c, c ∈ pp_p pp -> c = a \/ c ∈ pp_p (packet_pool m)) ->
  pkts m' = delete a (pkts m) -> bufs m' = bf -> packet_pool m' = pp -> next_addr m' = next_addr m -> Fresh m'.
Proof.
  intros Hbf pp m' Hpp E1 E2 E3 E4. destruct (i_fresh _ _ _ _ I) as [F1 F2 F3]. split.
  - rewrite E1, E4. intros c [q [_ Hq]%lookup_delete_Some]. apply F1. eauto.
  - rewrite E2, E4. auto.
  - rewrite E3, E4. intros c [->|Hc]%Hpp; [apply F1; eauto|by apply F3].
Qed.

Lemma drop_size : Z.of_nat (size (delete a (pkts m))) <= B < 2 ^ 31.
Proof.
  destruct (i_size _ _ _ _ I). split; [|done]. rewrite map_size_delete_Some by eauto. lia.
Qed.

Lemma drop_root_ext c : _data_packet p = None -> ext_drop a p ext c = ext_dec a ext c.
Proof.
  intros Hd. unfold ext_drop, ext_dec. rewrite ref1_root by done. destruct (decide (c = a)) as [->|]; [|lia].
  rewrite Hext. done.
Qed.

Lemma drop_sole b : _data_packet p = None -> _buf p = Some b ->
  forall c q, pkts m !! c = Some q -> c <> a -> _buf q <> Some b.
Proof.
  intros Hd Hb c q Hq Hne. rewrite <- Hb. eapply graph_sole; [apply I|done..| |done|done].
  intros e r He Hde Hbe. by apply (s_owner _ _ _ _ (i_store _ _ _ _ I) e a r p).
Qed.

(** The state in which a root is gone, with [pp] and [bf] as the case may be. *)
Lemma drop_root m' pp bf b :
  _data_packet p = None -> _buf p = Some b ->
  pkts m' = delete a (pkts m) -> bufs m' = bf -> packet_pool m' = pp -> next_addr m' = next_addr m ->
  Store (delete a (pkts m)) bf (pp_pd pp) B -> Pool (delete a (pkts m)) pp k ->
  (forall c, c ∈ pp_p pp -> c = a \/ c ∈ pp_p (packet_pool m)) ->
  (forall c, is_Some (bf !! c) -> is_Some (bufs m !! c)) ->
  (forall c, c <> b -> bf !! c = bufs m !! c) ->
  Inv m' (ext_dec a ext) k B /\ framed m m'.
Proof.
  intros Hd Hb E1 E2 E3 E4 S P Hpp Hbf Hsame. split; split.
  - rewrite E1. eapply Graph_ext; [intros c; by apply drop_root_ext|]. apply graph_drop; [apply I|done..].
  - by rewrite E1, E2, E3.
  - by rewrite E1, E3.
  - by apply (drop_fresh bf Hbf pp).
  - rewrite E1. apply drop_size.
  - rewrite E1, E2. intros c q [Hne Hq]%lookup_delete_Some. exists q. split; [done|]. split; [by destruct q|].
    intros x Hx. apply Hsame. intros ->. by apply (drop_sole b Hd Hb c q).
  - rewrite E3. intros c [->|Hc]%Hpp; [right; eauto|by left].
  - done.
Qed.

Lemma drop_pool_full : Pool (delete a (pkts m)) (packet_pool m) k.
Proof. apply pool_delete, I. Qed.

Lemma drop_not_pooled : a ∉ pp_p (packet_pool m).
Proof. intros H. apply (p_free _ _ _ (i_pool _ _ _ _ I)) in H. congruence. Qed.

Lemma drop_pool_link :
  pp_pcount (packet_pool m) <> CLICK_PACKET_POOL_SIZE ->
  Pool (delete a (pkts m)) (with_p (a :: pp_p (packet_pool m)) (u32 (pp_pcount (packet_pool m) + 1)) (packet_pool m)) k.
Proof.
  clear Hext Hr Hheld. intros Hn. destruct (i_pool _ _ _ _ I) as [P1 P2 P3 P4 P5 P6].
  unfold CLICK_PACKET_POOL_SIZE in *. rewrite u32_small by lia. split; simpl; try done; unfold CLICK_PACKET_POOL_SIZE in *; try lia.
  - constructor; [apply drop_not_pooled|done].
  - intros c [->|Hc]%elem_of_cons; [apply lookup_delete_eq|]. by apply (p_free _ _ _ drop_pool_full).
Qed.
End last_reference.

Lemma pool_data_link ps pp k b :
  Pool ps pp k -> pp_pdcount pp <> CLICK_PACKET_POOL_SIZE ->
  Pool ps (with_pd (b :: pp_pd pp) (u32 (pp_pdcount pp + 1)) pp) k.
Proof.
  intros [P1 P2 P3 P4 P5 P6] Hn. unfold CLICK_PACKET_POOL_SIZE in *. rewrite u32_small by lia.
  split; simpl; try done; unfold CLICK_PACKET_POOL_SIZE in *; lia.
Qed.

(** Linking an object that the pool already counts. *)
Lemma inv_link m ext k B a :
  Inv m ext (S k) B -> pkts m !! a = None -> a ∉ pp_p (packet_pool m) -> (a < next_addr m)%positive ->
  Inv (link_object a m) ext k B.
Proof.
  intros I Ha Hn Hlt. destruct (i_pool _ _ _ _ I) as [P1 P2 P3 P4 P5 P6].
  split; [apply I|apply I| | |apply I]; simpl.
  - split; simpl; try done; [by constructor| |lia]. intros c [->|Hc]%elem_of_cons; auto.
  - destruct (i_fresh _ _ _ _ I) as [F1 F2 F3]. split; simpl; [done|done|].
    intros c [->|Hc]%elem_of_cons; auto.
Qed.

Lemma inv_pend m ext k B :
  Inv m ext k B -> pp_pcount (packet_pool m) <> CLICK_PACKET_POOL_SIZE -> Inv (count_object m) ext (S k) B.
Proof.
  intros I Hn. destruct (i_pool _ _ _ _ I) as [P1 P2 P3 P4 P5 P6]. unfold CLICK_PACKET_POOL_SIZE in *.
  split; [apply I|apply I| | |apply I].
  - split; simpl; try done; unfold CLICK_PACKET_POOL_SIZE in *; rewrite ?u32_small by lia; lia.
  - by destruct (i_fresh _ _ _ _ I).
Qed.

(** The clone is gone, and its reference with the caller. *)
Lemma inv_drop_clone m ext k B a p d :
  Inv m ext k B -> pkts m !! a = Some p -> refs (pkts m) a = 0%nat -> _data_packet p = Some d ->
  Inv (with_pkts (delete a) m) (ext_drop a p ext) k B.
Proof.
  intros I Hp Hr Hd. split; simpl.
  - apply graph_drop; [apply I|done..].
  - eapply store_drop_clone; [apply I|done..].
  - apply pool_delete, I.
  - destruct (i_fresh _ _ _ _ I) as [F1 F2 F3]. split; simpl; [|done..].
    intros c [q [_ Hq]%lookup_delete_Some]. eauto.
  - destruct (i_size _ _ _ _ I). split; [|done]. rewrite map_size_delete_Some by eauto. lia.
Qed.

Lemma framed_delete m a : framed m (with_pkts (delete a) m).
Proof.
  split; simpl; [|by left|done]. intros c p [_ Hp]%lookup_delete_Some. exists p. split; [done|]. split; [by destruct p|done].
Qed.

Lemma ext_drop_dec a p d ext c :
  _data_packet p = Some d -> d <> a -> ext a = 1%nat -> ext_dec d (ext_drop a p ext) c = ext_dec a ext c.
Proof.
  intros Hd Hne Ha. unfold ext_dec, ext_drop, ref1. rewrite Hd.
  destruct (decide (c = d)) as [->|]; [rewrite (decide_True (P := Some d = Some d)), !(decide_False (P := d = a)) by done; lia|].
  rewrite (decide_False (P := Some d = Some c)) by congruence.
  destruct (decide (c = a)) as [->|]; lia.
Qed.

Lemma held_once_drop a p d ext :
  _data_packet p = Some d -> d <> a -> held_once a ext -> held_once d (ext_drop a p ext).
Proof.
  intros Hd Hne [Ha Hc]. unfold held_once, ext_drop, ref1. rewrite Hd. split.
  - rewrite decide_False, decide_True by done. specialize (Hc d Hne). lia.
  - intros c Hcd. rewrite (decide_False (P := Some d = Some c)) by congruence.
    destruct (decide (c = a)); [lia|]. specialize (Hc c n). lia.
Qed.

Lemma get_set m a p : get (set a p m) a = Ok p.
Proof. unfold get, set, with_pkts. simpl. by rewrite lookup_insert_eq. Qed.

Lemma delete_set m a p : with_pkts (delete a) (set a p m) = with_pkts (delete a) m.
Proof. unfold with_pkts, set. simpl. unfold with_pkts. simpl. by rewrite delete_insert_eq. Qed.

Lemma set_set m a p q : set a p (set a q m) = set a p m.
Proof. unfold set, with_pkts. simpl. by rewrite insert_insert_eq. Qed.

#[local] Arguments recycle_data : simpl never.
#[local] Arguments recycle_object : simpl never.
#[local] Arguments link_data : simpl never.
#[local] Arguments Packet_destroy : simpl never.

Section recycle.
Context (K : Mem -> positive -> res Mem) (n : nat) (HK : kills_ok K n).
Context (m : Mem) (ext : positive -> nat) (k : nat) (B : Z) (a : positive) (p : Packet).
Context (I : Inv m ext k B) (Hp : pkts m !! a = Some p) (Hext : ext a = 1%nat) (Hr : refs (pkts m) a = 0%nat).
Context (Hheld : held_once a ext) (Hn : (size (pkts m) <= S n)%nat).

Definition recycled : Prop :=
  exists m', recycle false addr K (set a (with_count 0 p) m) a = Ok m' /\ Inv m' (ext_dec a ext) k B /\ framed m m'.

Lemma nested_kill d k' m0 : _data_packet p = Some d -> Inv m0 (ext_drop a p ext) k' B ->
  pkts m0 = delete a (pkts m) ->
  exists m', K m0 d = Ok m' /\ Inv m' (ext_dec a ext) k' B /\ framed m0 m'.
Proof.
  intros Hd I0 E. assert (Hne : d <> a).
  { intros ->. by apply (graph_no_self _ _ _ _ (i_graph _ _ _ _ I) Hp). }
  destruct (HK m0 (ext_drop a p ext) k' B d) as (m' & HK' & I' & F').
  - rewrite E, map_size_delete_Some by eauto. lia.
  - done.
  - by apply held_once_drop.
  - exists m'. split; [done|]. split; [|done]. eapply Inv_ext; [|done]. intros c. by apply ext_drop_dec.
Qed.

Lemma destroy_clone m0 q d : pkts m0 !! a = Some q -> _data_packet q = Some d ->
  Packet_destroy K m0 a = K (with_pkts (delete a) m0) d.
Proof. intros Hq Hd. unfold Packet_destroy, get. rewrite Hq. simpl. by rewrite Hd. Qed.

Lemma recycle_clone d : _data_packet p = Some d -> recycled.
Proof.
  intros Hd. unfold recycled, recycle. rewrite get_set.
  pose proof (inv_drop_clone _ _ _ _ _ _ _ I Hp Hr Hd) as I0.
  assert (Ed : pooled_data (with_count 0 p) = None) by (unfold pooled_data; simpl; by rewrite Hd).
  simpl. rewrite Ed. unfold make_room.
  change (packet_pool (set a (with_count 0 p) m)) with (packet_pool m).
  destruct (Z.eqb_spec (pp_pcount (packet_pool m)) CLICK_PACKET_POOL_SIZE) as [Hfull|Hfull].
  - destruct (nested_kill d k (with_pkts (delete a) m) Hd I0 eq_refl) as (m' & HK' & I' & F').
    exists m'. rewrite (destroy_clone _ (with_count 0 p) d) by (done || apply lookup_insert_eq).
    rewrite delete_set, HK'. simpl. split; [done|]. split; [done|]. eapply framed_trans; [apply framed_delete|done].
  - apply inv_pend in I0; [|done].
    destruct (nested_kill d (S k) (count_object (with_pkts (delete a) m)) Hd I0 eq_refl) as (m' & HK' & I' & F').
    simpl. unfold recycle_object.
    rewrite (destroy_clone _ (with_count 0 p) d) by (done || apply lookup_insert_eq).
    change (count_object (set a (with_count 0 p) m)) with (set a (with_count 0 p) (count_object m)).
    rewrite delete_set. change (with_pkts (delete a) (count_object m)) with (count_object (with_pkts (delete a) m)).
    rewrite HK'. simpl. rewrite (proj2 (Z.leb_le _ _)) by apply I'.
    assert (Hnone : pkts m' !! a = None).
    { destruct (pkts m' !! a) as [q|] eqn:Eq; [|done]. destruct (fr_pkts _ _ F' a q Eq) as (q' & Hq' & _).
      simpl in Hq'. by rewrite lookup_delete_eq in Hq'. }
    assert (Hpool : a ∉ pp_p (packet_pool m')).
    { intros [H|[q H]]%(fr_pool _ _ F'); simpl in H; [|by rewrite lookup_delete_eq in H].
      by eapply (drop_not_pooled m). }
    eexists. split; [done|]. split.
    + apply inv_link; [done..|]. rewrite (fr_next _ _ F'). simpl. apply I. eauto.
    + assert (F : framed m m').
      { eapply framed_trans; [apply (framed_delete m a)|]. by destruct F'. }
      destruct F as [F1 F2 F3]. split; simpl; [done| |done]. intros c [->|Hc]%elem_of_cons; eauto.
Qed.

Lemma destroy_empty m0 q : pkts m0 !! a = Some q -> _data_packet q = None -> _buf q = None ->
  Packet_destroy K m0 a = Ok (with_pkts (delete a) m0).
Proof. intros Hq Hd Hb. unfold Packet_destroy, get. rewrite Hq. simpl. by rewrite Hd, Hb. Qed.

Lemma destroy_owner m0 q b bs :
  pkts m0 !! a = Some q -> _data_packet q = None -> _buf q = Some b -> bufs m0 !! b = Some bs ->
  exists m', Packet_destroy K m0 a = Ok m' /\ pkts m' = delete a (pkts m0) /\ bufs m' = delete b (bufs m0) /\
    packet_pool m' = packet_pool m0 /\ next_addr m' = next_addr m0.
Proof.
  intros Hq Hd Hb Hbs. unfold Packet_destroy, get. rewrite Hq. simpl. rewrite Hd, Hb.
  destruct (_destructor q); [by eexists|]. unfold delete_array. simpl. rewrite Hbs. simpl. by eexists.
Qed.

Lemma delete_array_ok m0 b bs : bufs m0 !! b = Some bs -> delete_array m0 b = Ok (with_bufs (delete b) m0).
Proof. intros H. unfold delete_array. by rewrite H. Qed.

Lemma recycle_data_ok m0 b bs :
  bufs m0 !! b = Some bs -> Z.of_nat (length bs) = CLICK_PACKET_POOL_BUFSIZ ->
  pp_pdcount (packet_pool m0) = Z.of_nat (length (pp_pd (packet_pool m0))) ->
  pp_pdcount (packet_pool m0) < CLICK_PACKET_POOL_SIZE ->
  exists bs', length bs' = length bs /\
  recycle_data addr m0 b = Ok (with_pool (with_pd (b :: pp_pd (packet_pool m0)) (u32 (pp_pdcount (packet_pool m0) + 1)))
                            (with_bufs (insert b bs') m0)).
Proof.
  intros Hbs Hl Hc Hlt. unfold recycle_data, link_data.
  change (bufs (count_data m0)) with (bufs m0). rewrite Hbs. cbn [of_option mbind res_bind].
  change (pp_pd (packet_pool (count_data m0))) with (pp_pd (packet_pool m0)).
  destruct (write_range_ok bs (le_encode 8 (match pp_pd (packet_pool m0) with x :: _ => addr x | [] => 0 end)) 0)
    as [E El]; [lia|rewrite length_le_encode; unfold CLICK_PACKET_POOL_BUFSIZ in *; lia|].
  rewrite E. cbn [mbind res_bind]. rewrite (proj2 (Z.leb_le _ _)).
  - eexists. split; [exact El|]. done.
  - simpl. unfold CLICK_PACKET_POOL_SIZE in *. rewrite u32_small by lia. lia.
Qed.

(** *** A packet with a buffer of its own *)

Section owner.
Context (Hd : _data_packet p = None) (b : positive) (bs : bytes) (Hb : _buf p = Some b) (Hbs : bufs m !! b = Some bs).

Let P := i_pool _ _ _ _ I.
Let P0 := drop_pool_full m ext k B a I.
Let Hsole := drop_sole m ext k B a p I Hp Hr b Hd Hb.

Lemma owner_freed m' pp :
  pkts m' = delete a (pkts m) -> bufs m' = delete b (bufs m) -> packet_pool m' = pp -> next_addr m' = next_addr m ->
  pp_pd pp = pp_pd (packet_pool m) -> Pool (delete a (pkts m)) pp k ->
  (forall c, c ∈ pp_p pp -> c = a \/ c ∈ pp_p (packet_pool m)) -> Inv m' (ext_dec a ext) k B /\ framed m m'.
Proof.
  intros E1 E2 E3 E4 E5 HP Hpp.
  eapply (drop_root m ext k B a p I Hp Hext Hr m' pp (delete b (bufs m)) b); try done.
  - rewrite E5. eapply store_drop_free; [apply I|done..].
  - intros c [cs [_ Hcs]%lookup_delete_Some]. eauto.
  - intros c Hc. by rewrite lookup_delete_ne.
Qed.

Lemma owner_pooled m' pp bs' :
  Z.of_nat (length bs) = CLICK_PACKET_POOL_BUFSIZ -> length bs' = length bs ->
  pkts m' = delete a (pkts m) -> bufs m' = <[b := bs']> (bufs m) -> packet_pool m' = pp -> next_addr m' = next_addr m ->
  pp_pd pp = b :: pp_pd (packet_pool m) -> Pool (delete a (pkts m)) pp k ->
  (forall c, c ∈ pp_p pp -> c = a \/ c ∈ pp_p (packet_pool m)) -> Inv m' (ext_dec a ext) k B /\ framed m m'.
Proof.
  intros Hsz El E1 E2 E3 E4 E5 HP Hpp.
  eapply (drop_root m ext k B a p I Hp Hext Hr m' pp (<[b := bs']> (bufs m)) b); try done.
  - rewrite E5. eapply store_drop_pool; [apply I|done..].
  - intros c [cs [[<- _]|[_ Hcs]]%lookup_insert_Some]; eauto.
  - intros c Hc. by rewrite lookup_insert_ne.
Qed.

Let Hlink : forall c, c ∈ a :: pp_p (packet_pool m) -> c = a \/ c ∈ pp_p (packet_pool m).
Proof. intros c. apply elem_of_cons. Qed.

(** Its buffer has the size of the pool's: it goes there, if there is room. *)
Lemma recycle_pooled :
  pooled_data (with_count 0 p) = Some b -> Z.of_nat (length bs) = CLICK_PACKET_POOL_BUFSIZ -> recycled.
Proof.
  intros Epd Hsz. unfold recycled, recycle. rewrite get_set. simpl. rewrite Epd, set_set.
  set (q := with_buf None (with_count 0 p)). unfold make_room.
  change (packet_pool (set a q m)) with (packet_pool m).
  assert (Hemp : forall m0, Packet_destroy K (set a q m0) a = Ok (with_pkts (delete a) m0)).
  { intros m0. rewrite (destroy_empty _ q) by (done || apply lookup_insert_eq). by rewrite delete_set. }
  destruct (Z.eqb_spec (pp_pcount (packet_pool m)) CLICK_PACKET_POOL_SIZE) as [Hfull|Hfull].
  - rewrite Hemp. simpl.
    destruct (Z.eqb_spec (pp_pdcount (packet_pool m)) CLICK_PACKET_POOL_SIZE) as [Hdfull|Hdfull].
    + rewrite (delete_array_ok _ _ bs) by done. simpl. eexists. split; [done|].
      apply (owner_freed _ (packet_pool m)); [done..|by right].
    + simpl. destruct (recycle_data_ok (with_pkts (delete a) m) b bs) as (bs' & El & ->);
        [exact Hbs|exact Hsz|exact (p_dcount _ _ _ P)|pose proof (p_dsize _ _ _ P); simpl; lia|].
      simpl. eexists. split; [done|]. eapply (owner_pooled _ _ bs'); [done..|by apply pool_data_link|by right].
  - simpl. pose proof (drop_pool_link m ext k B a p I Hp Hfull) as P1.
    destruct (Z.eqb_spec (pp_pdcount (packet_pool m)) CLICK_PACKET_POOL_SIZE) as [Hdfull|Hdfull].
    + rewrite (delete_array_ok _ _ bs) by done. simpl. unfold recycle_object.
      change (count_object (with_bufs (delete b) (set a q m))) with (set a q (count_object (with_bufs (delete b) m))).
      rewrite Hemp. simpl. rewrite (proj2 (Z.leb_le _ _)) by apply P1. eexists. split; [done|].
      by eapply owner_freed; [..|exact P1|].
    + simpl. unfold recycle_object. change (count_object (set a q m)) with (set a q (count_object m)).
      rewrite Hemp. simpl. rewrite (proj2 (Z.leb_le _ _)) by apply P1. simpl.
      destruct (recycle_data_ok (link_object a (with_pkts (delete a) (count_object m))) b bs) as (bs' & El & ->);
        [exact Hbs|exact Hsz|exact (p_dcount _ _ _ P)|pose proof (p_dsize _ _ _ P); simpl; lia|].
      simpl. eexists. split; [done|].
      eapply (owner_pooled _ _ bs'); [done..|by apply (pool_data_link _ _ _ b P1)|exact Hlink].
Qed.

(** Its buffer is freed. *)
Lemma recycle_freed : pooled_data (with_count 0 p) = None -> recycled.
Proof.
  intros Epd. unfold recycled, recycle. rewrite get_set. simpl. rewrite Epd. unfold make_room.
  change (packet_pool (set a (with_count 0 p) m)) with (packet_pool m).
  destruct (Z.eqb_spec (pp_pcount (packet_pool m)) CLICK_PACKET_POOL_SIZE) as [Hfull|Hfull].
  - destruct (destroy_owner (set a (with_count 0 p) m) (with_count 0 p) b bs) as (m' & -> & E1 & E2 & E3 & E4);
      [apply lookup_insert_eq|done..|].
    simpl in *. rewrite delete_insert_eq in E1. exists m'. split; [done|].
    apply (owner_freed _ (packet_pool m)); [done..|by right].
  - simpl. unfold recycle_object.
    destruct (destroy_owner (count_object (set a (with_count 0 p) m)) (with_count 0 p) b bs) as (m' & -> & E1 & E2 & E3 & E4);
      [apply lookup_insert_eq|done..|].
    simpl in *. rewrite delete_insert_eq in E1. pose proof (drop_pool_link m ext k B a p I Hp Hfull) as P1.
    rewrite E3. rewrite (proj2 (Z.leb_le _ _)) by apply P1. eexists. split; [done|].
    apply (owner_freed _ (with_p (a :: pp_p (packet_pool m)) (u32 (pp_pcount (packet_pool m) + 1)) (packet_pool m)));
      [done|done| |done|done|exact P1|exact Hlink].
    simpl. by rewrite E3.
Qed.
End owner.

Lemma recycle_owner : _data_packet p = None -> recycled.
Proof.
  intros Hd. destruct (s_shape _ _ _ _ (i_store _ _ _ _ I) a p Hp) as (b & bs & Hb & Hbs & _ & _ & _ & Ho & _).
  destruct (Ho Hd) as [Eh Ee].
  destruct (pooled_data (with_count 0 p)) as [b'|] eqn:Epd; [|by eapply recycle_freed].
  unfold pooled_data in Epd. simpl in Epd. rewrite Hd, Hb in Epd.
  destruct (negb (_destructor p)) eqn:Edt; [|done]. simpl in Epd.
  destruct (Z.eqb_spec (_end p - _head p) CLICK_PACKET_POOL_BUFSIZ) as [Esz|]; [|done].
  eapply (recycle_pooled Hd b bs); [done|done| |lia].
  unfold pooled_data. simpl. rewrite Hd, Hb, Edt. simpl. by rewrite (proj2 (Z.eqb_eq _ _) Esz).
Qed.

Lemma recycle_ok : recycled.
Proof. destruct (_data_packet p) as [d|] eqn:E; [by apply (recycle_clone d)|by apply recycle_owner]. Qed.
End recycle.

(** Killing a packet releases one reference, and frees what no reference is left
    to. *)
Lemma kill_loop_ok n : kills_ok (kill_loop false addr n) n.
Proof.
  induction n as [|n IH]; intros m ext k B a Hn I [Ha Hoth].
  - destruct (g_held _ _ (i_graph _ _ _ _ I) a) as [p Hp]; [lia|].
    pose proof (map_size_non_empty_iff (pkts m)) as [_ H]. destruct H; [|lia].
    intros E. rewrite E in Hp. done.
  - destruct (g_held _ _ (i_graph _ _ _ _ I) a) as [p Hp]; [lia|].
    destruct (inv_count _ _ _ _ _ _ I Hp) as [Ec E1].
    pose proof (refs_size (pkts m) a). pose proof (i_size _ _ _ _ I).
    cbn [kill_loop]. unfold get. rewrite Hp. cbn [of_option mbind res_bind].
    rewrite u32_small by lia. destruct (Z.eqb_spec (_use_count p - 1) 0) as [E0|E0].
    + rewrite E0. apply (recycle_ok _ n IH m ext k B a p I); (done || lia).
    + eexists. split; [done|]. split; [split; simpl|].
      * apply graph_release; [apply I|done|lia|lia].
      * eapply store_update; [apply I|done|done|done|]. by apply (s_shape _ _ _ _ (i_store _ _ _ _ I) a p).
      * destruct (i_pool _ _ _ _ I) as [P1 P2 P3 P4 P5 P6]. split; try done.
        intros c Hc. rewrite lookup_insert_ne; [by apply P2|]. intros ->. rewrite P2 in Hp; done.
      * destruct (i_fresh _ _ _ _ I) as [F1 F2 F3]. split; simpl; try done.
        intros c [q [[<- _]|[_ Hq]]%lookup_insert_Some]; eauto.
      * rewrite map_size_insert_Some by eauto. done.
      * split; simpl; [|by left|done]. intros c q [[<- <-]|[_ Hq]]%lookup_insert_Some; [by exists p|].
        exists q. split; [done|]. split; [by destruct q|done].
Qed.

Lemma kill_ok m ext k B a : Inv m ext k B -> held_once a ext ->
  exists m', kill false addr m a = Ok m' /\ Inv m' (ext_dec a ext) k B /\ framed m m'.
Proof. intros I H. by apply kill_loop_ok. Qed.

(** *** Killing does not read other packets

    [expensive_uniqueify] kills the packet it was cloned of before it forgets it.
    As clones rank above what they were made of, the call does not look at the
    packet that is being changed. *)

Section frame.
Context (rank : positive -> nat) (a : positive) (q : Packet).

Definition ranked (ps : gmap positive Packet) : Prop :=
  forall c p d, ps !! c = Some p -> _data_packet p = Some d -> (rank d < rank c)%nat.

Definition ignores (K : Mem -> positive -> res Mem) : Prop :=
  forall m d, ranked (pkts m) -> (rank d < rank a)%nat -> K (set a q m) d = set a q <$> K m d.

Lemma ranked_delete ps d : ranked ps -> ranked (delete d ps).
Proof. intros H c p e [_ Hc]%lookup_delete_Some. by apply H. Qed.

Lemma ranked_update ps d p p' : ranked ps -> ps !! d = Some p -> _data_packet p' = _data_packet p -> ranked (<[d := p']> ps).
Proof.
  intros H Hp E c r e [[<- <-]|[_ Hc]]%lookup_insert_Some; [|by apply H]. rewrite E. by apply H.
Qed.

Lemma delete_set_ne m d : d <> a -> with_pkts (delete d) (set a q m) = set a q (with_pkts (delete d) m).
Proof. intros H. unfold with_pkts, set, with_pkts. simpl. by rewrite delete_insert_ne. Qed.

Lemma set_set_ne m d p : d <> a -> set d p (set a q m) = set a q (set d p m).
Proof. intros H. unfold set, with_pkts. simpl. by rewrite insert_insert_ne. Qed.

Lemma get_set_ne m d : d <> a -> get (set a q m) d = get m d.
Proof. intros H. unfold get, set, with_pkts. simpl. by rewrite lookup_insert_ne. Qed.

Lemma destroy_ignores K : ignores K -> ignores (Packet_destroy K).
Proof.
  intros HK m d Hr Hlt. assert (Hne : d <> a) by (intros ->; lia).
  unfold Packet_destroy. rewrite get_set_ne, delete_set_ne by done.
  unfold get. destruct (pkts m !! d) as [p|] eqn:Hp; [|done]. simpl.
  destruct (_data_packet p) as [e|] eqn:Hd.
  - apply HK; [by apply ranked_delete|]. specialize (Hr d p e Hp Hd). lia.
  - destruct (_buf p) as [b|]; [|done]. destruct (_destructor p); [done|].
    unfold delete_array. simpl. by destruct (bufs m !! b).
Qed.

Lemma recycle_ignores K : ignores K -> ignores (recycle false addr K).
Proof.
  intros HK m d Hr Hlt. assert (Hne : d <> a) by (intros ->; lia).
  unfold recycle. rewrite get_set_ne by done.
  unfold get. destruct (pkts m !! d) as [p|] eqn:Hp; [|done]. cbn [of_option mbind res_bind].
  set (m1 := match pooled_data p with Some _ => set d (with_buf None p) m | None => m end).
  assert (E1 : match pooled_data p with Some _ => set d (with_buf None p) (set a q m) | None => set a q m end = set a q m1).
  { unfold m1. destruct (pooled_data p); [by apply set_set_ne|done]. }
  assert (Hr1 : ranked (pkts m1)).
  { unfold m1. destruct (pooled_data p); [by eapply ranked_update|done]. }
  rewrite E1. clearbody m1. generalize (pooled_data p). intros data. clear E1.
  pose proof (destroy_ignores K HK) as HD.
  assert (Hdata : forall m0 b, recycle_data addr (set a q m0) b = set a q <$> recycle_data addr m0 b).
  { intros m0 b. unfold recycle_data, link_data. change (bufs (count_data (set a q m0))) with (bufs (count_data m0)).
    change (packet_pool (count_data (set a q m0))) with (packet_pool (count_data m0)).
    destruct (bufs (count_data m0) !! b) as [bs|]; [|done]. cbn [of_option mbind res_bind].
    destruct (write_range _ _ _); [|done]. cbn [mbind res_bind].
    change (pp_pdcount (packet_pool (with_pool ?f (with_bufs ?g (count_data (set a q m0))))))
      with (pp_pdcount (packet_pool (with_pool f (with_bufs g (count_data m0))))).
    by destruct (_ <=? _). }
  assert (Hobj : forall m0, ranked (pkts m0) -> recycle_object K (set a q m0) d = set a q <$> recycle_object K m0 d).
  { intros m0 H0. unfold recycle_object. change (count_object (set a q m0)) with (set a q (count_object m0)).
    rewrite HD by done. destruct (Packet_destroy K (count_object m0) d) as [m2|]; [|done]. simpl.
    by destruct (_ <=? _). }
  assert (Hlast : forall (object : bool) dat m0, (object = true -> ranked (pkts m0)) ->
    (let* m := if object then recycle_object K (set a q m0) d else Ok (set a q m0) in
     match dat with Some b => recycle_data addr m b | None => Ok m end) =
    set a q <$> (let* m := if object then recycle_object K m0 d else Ok m0 in
     match dat with Some b => recycle_data addr m b | None => Ok m end)).
  { intros object dat m0 H0. destruct object.
    - rewrite Hobj by auto. destruct (recycle_object K m0 d); [|done]. simpl. by destruct dat.
    - simpl. by destruct dat. }
  unfold make_room. change (packet_pool (set a q m1)) with (packet_pool m1).
  destruct (pp_pcount (packet_pool m1) =? CLICK_PACKET_POOL_SIZE).
  - rewrite HD by done. destruct (Packet_destroy K m1 d) as [m2|]; [|done]. cbn [fmap res_fmap mbind res_bind].
    destruct data as [b|]; [|by apply (Hlast false)].
    change (packet_pool (set a q m2)) with (packet_pool m2).
    destruct (_ =? _); [|by apply (Hlast false)].
    unfold delete_array. change (bufs (set a q m2)) with (bufs m2). destruct (bufs m2 !! b); [|done].
    exact (Hlast false None (with_bufs (delete b) m2) ltac:(done)).
  - cbn [mbind res_bind].
    destruct data as [b|]; [|by apply (Hlast true)].
    change (packet_pool (set a q m1)) with (packet_pool m1).
    destruct (_ =? _); [|by apply (Hlast true)].
    unfold delete_array. change (bufs (set a q m1)) with (bufs m1). destruct (bufs m1 !! b); [|done].
    exact (Hlast true None (with_bufs (delete b) m1) ltac:(done)).
Qed.

Lemma kill_loop_ignores n : ignores (kill_loop false addr n).
Proof.
  induction n as [|n IH]; intros m d Hr Hlt; [done|]. assert (Hne : d <> a) by (intros ->; lia).
  cbn [kill_loop]. rewrite get_set_ne by done. unfold get. destruct (pkts m !! d) as [p|] eqn:Hp; [|done].
  cbn [of_option mbind res_bind]. rewrite set_set_ne by done.
  destruct (_ =? 0); [|done]. apply (recycle_ignores _ IH); [|done]. by eapply ranked_update.
Qed.
End frame.

Lemma kill_ignores rank a q m d :
  ranked rank (pkts m) -> (rank d < rank a)%nat -> is_Some (pkts m !! a) ->
  kill false addr (set a q m) d = set a q <$> kill false addr m d.
Proof.
  intros Hr Hlt Ha. unfold kill. change (pkts (set a q m)) with (<[a := q]> (pkts m)).
  rewrite map_size_insert_Some by done. by apply (kill_loop_ignores rank).
Qed.
End kill.
