(* ===== verification/PacketsOps.v ===== *)
(** The operations on packets, in the default configuration: from a state with
    the invariant each succeeds, keeps the invariant, gives its packet the view
    it should have and leaves those of the others. *)

From stdpp Require Import gmap.
From S2P Require Import Prelude Packets PacketsInv.

(** ** Slices of a buffer *)

Definition slice (o n : nat) (bs : bytes) : bytes := take n (drop o bs).

Lemma length_slice o n (bs : bytes) : (o + n <= length bs)%nat -> length (slice o n bs) = n.
Proof. intros H. unfold slice. rewrite length_take, length_drop. lia. Qed.

Lemma slice_slice o n o' n' (bs : bytes) :
  (o' + n' <= n)%nat -> slice o' n' (slice o n bs) = slice (o + o') n' bs.
Proof.
  intros H. unfold slice. rewrite skipn_firstn_comm, take_take, drop_drop. f_equal. lia.
Qed.

Lemma slice_drop o n k (bs : bytes) : (k <= n)%nat -> slice (o + k) (n - k) bs = drop k (slice o n bs).
Proof. intros H. unfold slice. by rewrite skipn_firstn_comm, drop_drop. Qed.

Lemma slice_take o n k (bs : bytes) : (k <= n)%nat -> slice o k bs = take k (slice o n bs).
Proof. intros H. unfold slice. rewrite take_take. f_equal. lia. Qed.

Definition written (off : nat) (src bs : bytes) : bytes := take off bs ++ src ++ drop (off + length src) bs.

(** Writing inside a slice. *)
Lemma slice_written o n off (src bs : bytes) :
  (o <= off)%nat -> (off + length src <= o + n)%nat -> (o + n <= length bs)%nat ->
  slice o n (written off src bs) = written (off - o) src (slice o n bs).
Proof.
  intros H1 H2 H3. unfold slice, written.
  rewrite drop_app_le by (rewrite length_take; lia).
  rewrite skipn_firstn_comm, take_app, length_take, length_drop.
  rewrite !take_take. f_equal; [f_equal; lia|].
  rewrite take_app. f_equal; [apply take_ge; lia|].
  rewrite skipn_firstn_comm, !drop_drop. f_equal; [lia|f_equal; lia].
Qed.

(** A slice of what was written. *)
Lemma slice_of_written o n off (src bs : bytes) :
  (off <= o)%nat -> (o + n <= off + length src)%nat -> (off + length src <= length bs)%nat ->
  slice o n (written off src bs) = slice (o - off) n src.
Proof.
  intros H1 H2 H3. unfold slice, written.
  rewrite drop_app_ge by (rewrite length_take; lia). rewrite length_take.
  rewrite drop_app_le by lia. rewrite take_app_le by (rewrite length_drop; lia).
  do 2 f_equal. lia.
Qed.

(** A slice outside of what was written. *)
Lemma slice_out_written o n off (src bs : bytes) :
  (o + n <= off \/ off + length src <= o)%nat -> (off + length src <= length bs)%nat ->
  slice o n (written off src bs) = slice o n bs.
Proof.
  intros H1 H2. unfold slice, written. destruct H1 as [H1|H1].
  - destruct (decide (n = 0%nat)) as [->|]; [done|].
    rewrite drop_app_le by (rewrite length_take; lia).
    rewrite skipn_firstn_comm, take_app_le by (rewrite length_take, length_drop; lia).
    rewrite take_take. f_equal. lia.
  - rewrite drop_app_ge by (rewrite length_take; lia). rewrite drop_app_ge by (rewrite length_take; lia).
    rewrite length_take, drop_drop. do 2 f_equal. lia.
Qed.

Lemma write_range_written (bs src : bytes) off :
  0 <= off -> off + Z.of_nat (length src) <= Z.of_nat (length bs) ->
  write_range bs off src = Ok (written (Z.to_nat off) src bs).
Proof. intros H1 H2. by apply write_range_ok. Qed.

Lemma length_written off (src bs : bytes) :
  (off + length src <= length bs)%nat -> length (written off src bs) = length bs.
Proof. intros H. unfold written. rewrite !length_app, length_take, length_drop. lia. Qed.

(** ** Views *)

Lemma view_of_slice bf p b bs :
  _buf p = Some b -> bf !! b = Some bs ->
  view_of bf p = mkView (slice (Z.to_nat (_data p)) (Z.to_nat (_tail p - _data p)) bs)
                   ((fun x => x - _data p) <$> _nh p) ((fun x => x - _data p) <$> _h p).
Proof. intros Hb Hbs. unfold view_of. rewrite Hb. simpl. by rewrite Hbs. Qed.

(** ** Adding packets *)

Section ops.
Context (garbage : positive -> nat -> Z) (addr : positive -> Z).

(** An address that belongs to no packet and is not in the pool. *)
Definition unused (m : Mem) (a : positive) : Prop :=
  pkts m !! a = None /\ a ∉ pp_p (packet_pool m) /\ (a < next_addr m)%positive.

Lemma alloc_object_ok wd m ext B a m' :
  Inv m ext 0 B -> pool_allocate_object false wd m = (a, m') ->
  Inv m' ext 0 B /\ unused m' a /\ pkts m' = pkts m /\ bufs m' = bufs m /\
  pp_pd (packet_pool m') = pp_pd (packet_pool m) /\ pp_pdcount (packet_pool m') = pp_pdcount (packet_pool m) /\
  (next_addr m <= next_addr m')%positive.
Proof.
  intros I. destruct (i_pool _ _ _ _ I) as [P1 P2 P3 P4 P5 P6]. destruct (i_fresh _ _ _ _ I) as [F1 F2 F3].
  unfold pool_allocate_object, unused. destruct (pp_p (packet_pool m)) as [|x l] eqn:El.
  - intros [= <- <-]. simpl. rewrite El. split_and!; try done; try lia.
    + split; [apply I|apply I| |split; simpl|apply I].
      * split; rewrite ?El; try done; apply I.
      * intros c Hc. specialize (F1 c Hc). lia.
      * intros c Hc. specialize (F2 c Hc). lia.
      * rewrite El. intros c Hc%elem_of_nil. done.
    + destruct (pkts m !! next_addr m) as [p|] eqn:Hp; [|done]. specialize (F1 (next_addr m)).
      rewrite Hp in F1. specialize (F1 (mk_is_Some _ _ eq_refl)). lia.
    + apply not_elem_of_nil.
  - intros [= <- <-]. apply NoDup_cons in P1 as [P1a P1b]. simpl in P3. simpl. split_and!; try done.
    + split; [apply I|apply I| |split; simpl; try done|apply I].
      * unfold CLICK_PACKET_POOL_SIZE in *. split; simpl; try done; rewrite ?u32_small by lia;
          unfold CLICK_PACKET_POOL_SIZE in *; try lia.
        intros c Hc. apply P2, elem_of_cons. by right.
      * intros c Hc. apply F3, elem_of_cons. by right.
    + apply P2, elem_of_cons. by left.
    + apply F3, elem_of_cons. by left.
Qed.

Lemma inv_add m ext B B' m' a p b bs :
  Inv m ext 0 B -> unused m a -> (forall c q, pkts m !! c = Some q -> _buf q <> Some b) ->
  _data_packet p = None -> _use_count p = 1 -> _buf p = Some b -> shape (<[b := bs]> (bufs m)) p ->
  Z.of_nat (length bs) <= B' -> B + 1 <= B' < 2 ^ 31 ->
  pkts m' = <[a := p]> (pkts m) -> bufs m' = <[b := bs]> (bufs m) ->
  pp_p (packet_pool m') = pp_p (packet_pool m) -> pp_pcount (packet_pool m') = pp_pcount (packet_pool m) ->
  (pp_pd (packet_pool m') = pp_pd (packet_pool m) /\ pp_pdcount (packet_pool m') = pp_pdcount (packet_pool m) /\
     b ∉ pp_pd (packet_pool m) \/
   pp_pd (packet_pool m) = b :: pp_pd (packet_pool m') /\
     pp_pdcount (packet_pool m') = u32 (pp_pdcount (packet_pool m) - 1)) ->
  (b < next_addr m')%positive -> (next_addr m <= next_addr m')%positive ->
  Inv m' (ext_inc a ext) 0 B'.
Proof.
  intros I (Ha & Hpool & Hlt) Hsole Hd Hc Hb Hsh Hl HB E1 E2 E3 E4 E5 Hbn Hn.
  destruct (i_pool _ _ _ _ I) as [P1 P2 P3 P4 P5 P6]. destruct (i_fresh _ _ _ _ I) as [F1 F2 F3].
  split.
  - rewrite E1. apply graph_add; [apply I|done..].
  - rewrite E1, E2. eapply store_add; [eapply store_mono; [|apply I]; lia|done..|].
    destruct E5 as [(-> & _ & ?)|[-> _]]; auto.
  - rewrite E1. split; rewrite ?E3, ?E4; try done.
    + intros c Hc'. rewrite lookup_insert_ne; [by apply P2|]. by intros ->.
    + destruct E5 as [(-> & -> & _)|[E5 ->]]; [done|]. rewrite P5, E5 in *. simpl.
      unfold CLICK_PACKET_POOL_SIZE in *. simpl in P6. rewrite u32_small by lia. lia.
    + destruct E5 as [(_ & -> & _)|[E5 ->]]; [done|]. rewrite P5, E5 in *. simpl.
      unfold CLICK_PACKET_POOL_SIZE in *. simpl in P6. rewrite u32_small by lia. lia.
  - split.
    + rewrite E1. intros c [q [[<- _]|[_ Hq]]%lookup_insert_Some]; [lia|]. specialize (F1 c). 
      rewrite Hq in F1. specialize (F1 (mk_is_Some _ _ eq_refl)). lia.
    + rewrite E2. intros c [q [[<- _]|[_ Hq]]%lookup_insert_Some]; [lia|]. specialize (F2 c).
      rewrite Hq in F2. specialize (F2 (mk_is_Some _ _ eq_refl)). lia.
    + rewrite E3. intros c Hc'. specialize (F3 c Hc'). lia.
  - rewrite E1, map_size_insert_None by done. pose proof (i_size _ _ _ _ I). lia.
Qed.

(** A packet has come in; the others are as they were. *)
Record added (m m' : Mem) (ext : positive -> nat) (B' : Z) (q : positive) (v : view) : Prop := {
  a_inv : Inv m' (ext_inc q ext) 0 B';
  a_new : pkts m !! q = None;
  a_view : view_at m' q = Some v;
  a_others : forall c, is_Some (pkts m !! c) -> view_at m' c = view_at m c
}.

Lemma view_at_same m m' c :
  pkts m' !! c = pkts m !! c ->
  (forall p b, pkts m !! c = Some p -> _buf p = Some b -> bufs m' !! b = bufs m !! b) -> view_at m' c = view_at m c.
Proof.
  intros E H. unfold view_at. rewrite E. destruct (pkts m !! c) as [p|] eqn:Hp; [|done]. simpl. f_equal.
  apply view_of_eq. intros b Hb. by apply (H p).
Qed.

Lemma fresh_unowned m ext k B : Inv m ext k B ->
  forall c q, pkts m !! c = Some q -> _buf q <> Some (next_addr m).
Proof.
  intros I c q Hq Hb. destruct (s_shape _ _ _ _ (i_store _ _ _ _ I) c q Hq) as (b & bs & Hb' & Hbs & _).
  assert (b = next_addr m) as -> by congruence.
  pose proof (f_bufs _ (i_fresh _ _ _ _ I) (next_addr m) (mk_is_Some _ _ Hbs)). lia.
Qed.

Lemma fresh_unpooled m ext k B : Inv m ext k B -> next_addr m ∉ pp_pd (packet_pool m).
Proof.
  intros I H. destruct (s_pd _ _ _ _ (i_store _ _ _ _ I) _ H) as (bs & Hbs & _).
  pose proof (f_bufs _ (i_fresh _ _ _ _ I) (next_addr m) (mk_is_Some _ _ Hbs)). lia.
Qed.

Lemma fresh_nobuf m ext k B : Inv m ext k B -> bufs m !! next_addr m = None.
Proof.
  intros I. destruct (bufs m !! next_addr m) as [bs|] eqn:E; [|done].
  pose proof (f_bufs _ (i_fresh _ _ _ _ I) (next_addr m) (mk_is_Some _ _ E)). lia.
Qed.

Lemma length_fresh_bytes b n : length (fresh_bytes garbage b n) = n.
Proof. unfold fresh_bytes. by rewrite length_fmap, length_seq. Qed.

(** The packet [pool_allocate] gives, with a buffer of its own. *)
Lemma pool_allocate_ok hr len tr m ext B a m' :
  Inv m ext 0 B -> 2048 <= B -> 0 <= hr -> 0 <= len -> 0 <= tr -> B + 1 + hr + len + tr < 2 ^ 31 ->
  pool_allocate false garbage hr len tr m = (a, m') ->
  exists b bs n, Inv m' (ext_inc a ext) 0 (B + 1 + hr + len + tr) /\ pkts m !! a = None /\
    pkts m' = <[a := initialize b hr (hr + len) n false]> (pkts m) /\ bufs m' !! b = Some bs /\
    n = Z.of_nat (length bs) /\ hr + len + tr <= n /\
    (forall c q, pkts m !! c = Some q -> _buf q <> Some b) /\
    (forall c, c <> b -> bufs m' !! c = bufs m !! c).
Proof.
  intros I HB H1 H2 H3 Hlt. unfold pool_allocate. rewrite u32_small by lia.
  set (n := if hr + len + tr <? CLICK_PACKET_POOL_BUFSIZ then CLICK_PACKET_POOL_BUFSIZ else hr + len + tr).
  assert (Hn : hr + len + tr <= n /\ 2048 <= n <= B + 1 + hr + len + tr).
  { unfold n, CLICK_PACKET_POOL_BUFSIZ. destruct (Z.ltb_spec (hr + len + tr) 2048); lia. }
  clearbody n. destruct (pool_allocate_object false _ m) as [a' m0] eqn:Ea.
  destruct (alloc_object_ok _ _ _ _ _ _ I Ea) as (I0 & Hun & E1 & E2 & E3 & E4 & E5).
  assert (Hnew : forall b bs, length bs = Z.to_nat n -> shape (<[b := bs]> (bufs m0)) (initialize b hr (hr + len) n false)).
  { intros b bs El. exists b, bs. rewrite lookup_insert_eq. split_and!; simpl; try done; try lia. }
  destruct Hun as (Hu1 & Hu2 & Hu3).
  destruct (if n =? CLICK_PACKET_POOL_BUFSIZ then pp_pd (packet_pool m0) else []) as [|b l] eqn:Epd.
  - unfold new_array, new_block. intros [= <- <-].
    set (b := next_addr m0). set (bs := fresh_bytes garbage b (Z.to_nat n)).
    assert (El : length bs = Z.to_nat n) by apply length_fresh_bytes.
    exists b, bs, n. split_and!; try lia.
    + eapply (inv_add m0 ext B _ _ a' (initialize b hr (hr + len) n false) b bs); try done; try lia.
      * by eapply fresh_unowned.
      * by apply Hnew.
      * simpl. left. split_and!; [done|done|]. by eapply fresh_unpooled.
      * simpl. unfold b. lia.
      * simpl. lia.
    + by rewrite <- E1.
    + simpl. by rewrite E1.
    + simpl. by rewrite lookup_insert_eq.
    + rewrite <- E1. by eapply fresh_unowned.
    + intros c Hc. simpl. by rewrite lookup_insert_ne, E2.
  - destruct (Z.eqb_spec n CLICK_PACKET_POOL_BUFSIZ) as [En|]; [|done].
    assert (Hin : b ∈ pp_pd (packet_pool m0)) by (rewrite Epd; apply elem_of_cons; by left).
    destruct (s_pd _ _ _ _ (i_store _ _ _ _ I0) b Hin) as (bs & Hbs & El).
    intros [= <- <-]. exists b, bs, n. split_and!; try lia.
    + eapply (inv_add m0 ext B _ _ a' (initialize b hr (hr + len) n false) b bs); try done; try lia.
      * by apply (s_free _ _ _ _ (i_store _ _ _ _ I0)).
      * apply Hnew. lia.
      * simpl. by rewrite insert_id.
      * simpl. right. by rewrite Epd.
      * simpl. apply (f_bufs _ (i_fresh _ _ _ _ I0)). eauto.
    + by rewrite <- E1.
    + simpl. by rewrite E1.
    + done.
    + rewrite <- E1. by apply (s_free _ _ _ _ (i_store _ _ _ _ I0)).
    + intros c Hc. simpl. by rewrite E2.
Qed.

Lemma inv_write m ext k B b bs bs' :
  Inv m ext k B -> bufs m !! b = Some bs -> length bs' = length bs -> Inv (with_bufs (insert b bs') m) ext k B.
Proof.
  intros I Hb El. split; [apply I|by eapply store_write; [apply I|..]|apply I| |apply I].
  destruct (i_fresh _ _ _ _ I) as [F1 F2 F3]. split; simpl; try done.
  intros c [cs [[<- _]|[_ Hc]]%lookup_insert_Some]; eauto.
Qed.

Lemma slice_all (bs : bytes) : slice 0 (length bs) bs = bs.
Proof. unfold slice. rewrite drop_0. by apply take_ge. Qed.

Lemma read_all (bs : bytes) : read_range bs 0 (Z.of_nat (length bs)) = Ok bs.
Proof. rewrite read_range_ok by lia. rewrite Nat2Z.id, drop_0. by rewrite take_ge. Qed.

Lemma make_ok data m ext B :
  Inv m ext 0 B -> 2048 <= B -> B + 29 + Z.of_nat (length data) < 2 ^ 31 ->
  exists a m', make false garbage default_headroom (Some data) (Z.of_nat (length data)) 0 m = Ok (a, m') /\
    added m m' ext (B + 29 + Z.of_nat (length data)) a (mkView data None None).
Proof.
  intros I HB Hlt. unfold make, default_headroom. set (len := Z.of_nat (length data)) in *.
  destruct (pool_allocate false garbage 28 len 0 m) as [a m'] eqn:Ea.
  destruct (pool_allocate_ok 28 len 0 m ext B a m') as (b & bs & n & I' & Hnew & E1 & Hbs & Hn & Hle & Hsole & Hoth);
    [done|done|lia|lia|lia|lia|done|].
  exists a. unfold get. rewrite E1, lookup_insert_eq. cbn [of_option mbind res_bind]. unfold len.
  rewrite read_all. cbn [of_option mbind res_bind]. unfold get_buf. simpl. rewrite Hbs. simpl.
  rewrite write_range_written by lia. simpl. eexists. split; [done|].
  assert (El : length (written 28 data bs) = length bs) by (apply length_written; lia).
  split; [| done | |].
  - eapply inv_write; [|done|done]. replace (B + 29 + Z.of_nat (length data)) with (B + 1 + 28 + len + 0) by lia. done.
  - unfold view_at. simpl. rewrite E1, lookup_insert_eq. simpl. f_equal.
    rewrite (view_of_slice _ _ b (written 28 data bs)) by (done || apply lookup_insert_eq). simpl. f_equal.
    replace (Z.to_nat (28 + len - 28)) with (length data) by lia.
    change (Z.to_nat 28) with 28%nat. rewrite slice_of_written by lia. apply slice_all.
  - intros c [p Hp]. apply view_at_same; simpl.
    + rewrite E1, lookup_insert_ne; [done|]. congruence.
    + intros q x Hq Hx. assert (x <> b) by (intros ->; by apply (Hsole c q)).
      rewrite lookup_insert_ne by done. by apply Hoth.
Qed.

(** A packet around the caller's buffer. *)
Lemma make_destructor_ok data m ext B a m' :
  Inv m ext 0 B -> B + 1 + Z.of_nat (length data) < 2 ^ 31 -> make_destructor false data m = (a, m') ->
  added m m' ext (B + 1 + Z.of_nat (length data)) a (mkView data None None).
Proof.
  intros I Hlt. pose proof (i_size _ _ _ _ I) as Hsize. pose proof (fresh_unowned _ _ _ _ I) as Hsole. pose proof (fresh_unpooled _ _ _ _ I) as Hpd.
  pose proof (fresh_nobuf _ _ _ _ I) as Hnb. unfold make_destructor, new_block.
  set (b := next_addr m) in *. set (len := Z.of_nat (length data)) in *.
  set (m0 := mkMem (pkts m) (<[b := data]> (bufs m)) (packet_pool m) (global_packet_pool m) (Pos.succ b) (destroyed m)).
  destruct (pool_allocate_object false false m0) as [a' m1] eqn:Ea. intros [= <- <-].
  (* the object is allocated as from the state without the buffer *)
  set (m2 := mkMem (pkts m) (bufs m) (packet_pool m) (global_packet_pool m) (Pos.succ b) (destroyed m)).
  assert (I2 : Inv m2 ext 0 B).
  { split; [apply I|apply I|apply I| |apply I]. destruct (i_fresh _ _ _ _ I) as [F1 F2 F3]. unfold b.
    split; simpl; intros c Hc; [specialize (F1 c Hc)|specialize (F2 c Hc)|specialize (F3 c Hc)]; lia. }
  assert (exists m3, pool_allocate_object false false m2 = (a', m3) /\ m1 = with_bufs (insert b data) m3) as (m3 & Ea3 & ->).
  { revert Ea. unfold pool_allocate_object. simpl. destruct (pp_p (packet_pool m)); intros [= <- <-]; by eexists. }
  destruct (alloc_object_ok _ _ _ _ _ _ I2 Ea3) as (I3 & Hun & E1 & E2 & E3 & E4 & E5). simpl in *.
  split.
  - eapply (inv_add m3 ext B _ _ a' (initialize b 0 len len true) b data); try done; try lia.
    + by rewrite E1.
    + exists b, data. rewrite lookup_insert_eq. split_and!; simpl; try done; lia.
    + left. simpl. split_and!; [done|done|]. by rewrite E3.
    + simpl. lia.
  - rewrite <- E1. apply Hun.
  - unfold view_at. simpl. rewrite lookup_insert_eq. simpl. f_equal.
    rewrite (view_of_slice _ _ b data) by (done || apply lookup_insert_eq). simpl. f_equal.
    replace (Z.to_nat (len - 0)) with (length data) by lia. apply slice_all.
  - intros c [p Hp]. apply view_at_same; simpl.
    + rewrite E1, lookup_insert_ne; [done|]. intros ->. destruct Hun as [Hun _]. congruence.
    + intros q x Hq Hx. rewrite E2, lookup_insert_ne; [done|]. intros <-. by apply (Hsole c q).
Qed.

Lemma shape_count bf n p : shape bf p -> shape bf (with_count n p).
Proof. done. Qed.

Lemma clone_ok m ext B a :
  Inv m ext 0 B -> B + 1 < 2 ^ 31 -> (1 <= ext a <= 1)%nat ->
  exists q m' p, clone false m a = Ok (q, m') /\ pkts m !! a = Some p /\
    added m m' ext (B + 1) q (view_of (bufs m) p) /\
    pkts m' !! q = Some (with_destructor false (with_data_packet (Some a) (with_count 1 p))).
Proof.
  intros I HB Ha. destruct (g_held _ _ (i_graph _ _ _ _ I) a) as [p Hp]; [lia|].
  destruct (inv_count _ _ _ _ _ _ I Hp) as [Ec _]. pose proof (refs_size (pkts m) a). pose proof (i_size _ _ _ _ I).
  unfold clone, get. rewrite Hp. simpl. rewrite u32_small by lia.
  destruct (pool_allocate_object false false m) as [q m0] eqn:Eq.
  destruct (alloc_object_ok _ _ _ _ _ _ I Eq) as (I0 & (Hq & Hqp & Hql) & E1 & E2 & E3 & E4 & E5).
  set (r := with_destructor false (with_data_packet (Some a) (with_count 1 p))).
  rewrite <- E1 in Hp. assert (Hne : q <> a) by congruence.
  assert (Hr : shape (bufs m0) r).
  { destruct (s_shape _ _ _ _ (i_store _ _ _ _ I0) a p Hp) as (b & bs & H1 & H2 & H3 & H4 & H5 & _ & H6 & H7).
    exists b, bs. unfold r. simpl. split_and!; try done; lia. }
  exists q. eexists. exists p. split; [done|]. split; [done|]. split; [split|].
  - split; simpl.
    + apply graph_clone; [apply I0|done..].
    + eapply store_update; [eapply (store_clone _ _ _ _ q r a)|..].
      * eapply store_mono; [|apply I0]. lia.
      * done.
      * done.
      * done.
      * intros b Hb Hin. by apply (s_free _ _ _ _ (i_store _ _ _ _ I0) b Hin a p).
      * rewrite lookup_insert_ne by done. exact Hp.
      * done.
      * done.
      * by apply (s_shape _ _ _ _ (i_store _ _ _ _ I0) a p).
    + destruct (i_pool _ _ _ _ I0) as [P1 P2 P3 P4 P5 P6]. split; try done. intros c Hc.
      rewrite lookup_insert_ne by (intros ->; rewrite P2 in Hp; done).
      rewrite lookup_insert_ne by (by intros ->). by apply P2.
    + destruct (i_fresh _ _ _ _ I0) as [F1 F2 F3]. split; simpl; try done.
      intros c [s [[<- _]|[_ [[<- _]|[_ Hs]]%lookup_insert_Some]]%lookup_insert_Some]; eauto.
    + rewrite map_size_insert_Some by (rewrite lookup_insert_ne by done; eauto).
      rewrite map_size_insert_None by done. rewrite E1. lia.
  - by rewrite <- E1.
  - unfold view_at. simpl. rewrite lookup_insert_ne by done. rewrite lookup_insert_eq. simpl. by rewrite E2.
  - intros c [s Hs]. unfold view_at. simpl. rewrite E2, <- E1.
    destruct (decide (c = a)) as [->|]; [by rewrite lookup_insert_eq, Hp|].
    rewrite !lookup_insert_ne by congruence. done.
  - simpl. rewrite lookup_insert_ne by done. by rewrite lookup_insert_eq.
Qed.

(** ** Copying a packet's data

    The part of [expensive_uniqueify] on a packet with one reference. *)

Lemma i32_u32 z : i32 (u32 z) = i32 z.
Proof.
  unfold i32, u32, uwrap. apply (swrap_eq_cong 32 _ _ (- (z / 2 ^ 32))). rewrite Z.mod_eq by lia. lia.
Qed.

Section detach.
Context (m : Mem) (ext : positive -> nat) (B B' : Z) (a : positive) (p : Packet) (eh et : Z).
Context (I : Inv m ext 0 B) (Hp : pkts m !! a = Some p) (Hext : ext a = 1%nat) (Hr : refs (pkts m) a = 0%nat).
Context (Hplain : forall c, (ext c <= 1)%nat) (HB : 2048 <= B) (HB' : B + 1 <= B' < 2 ^ 31).
Context (HBe : B + Z.max 0 eh + Z.max 0 et <= B').
Context (Heh : _head p - _data p <= eh) (Het : _tail p - _end p <= et).

Let hr := _data p - _head p + eh.
Let len := _tail p - _data p.
Let n := Z.max 64 (_end p - _head p + eh + et).
Let b := next_addr m.
Let off := Z.max 0 eh.
Let start := _head p + Z.max 0 (- eh).
Let stop := _end p + Z.min 0 et.

(** The packet after [alloc_data], and at the end. *)
Definition copied : Packet := with_range 0 hr (hr + len) n (with_buf (Some b) p).
Definition unshared : Packet :=
  shift_header_annotations (_head p) eh (with_data_packet None (with_count 1 (with_destructor false copied))).
Definition copy (old : bytes) : bytes :=
  written (Z.to_nat off) (slice (Z.to_nat start) (Z.to_nat (stop - start)) old) (fresh_bytes garbage b (Z.to_nat n)).

Context (ob : positive) (old : bytes) (Hob : _buf p = Some ob) (Hold : bufs m !! ob = Some old).

Lemma p_shape : 0 <= _head p <= _data p /\ _data p <= _tail p <= _end p /\ _end p <= Z.of_nat (length old) <= B /\
  (_data_packet p = None -> _head p = 0 /\ _end p = Z.of_nat (length old)) /\
  (forall h, _h p = Some h -> exists n, _nh p = Some n /\ n <= h) /\ _mac p = None.
Proof.
  destruct (s_shape _ _ _ _ (i_store _ _ _ _ I) a p Hp) as (x & bs & H1 & H2 & H3 & H4 & H5 & H6 & H7 & H8).
  assert (x = ob) as -> by congruence. assert (bs = old) as -> by congruence.
  pose proof (s_all _ _ _ _ (i_store _ _ _ _ I) ob old Hold) as [HS _].
  split; [exact H3|]. split; [exact H4|]. split; [lia|]. auto.
Qed.

Lemma length_copy : length (copy old) = Z.to_nat n.
Proof.
  destruct p_shape as (S1 & S2 & S3 & _). unfold copy.
  rewrite length_written; [apply length_fresh_bytes|].
  rewrite length_fresh_bytes, length_slice by lia. lia.
Qed.

Lemma unshared_shape bf : shape (<[b := copy old]> bf) unshared.
Proof.
  destruct p_shape as (S1 & S2 & S3 & _ & S5 & S6). exists b, (copy old). rewrite lookup_insert_eq, length_copy.
  simpl. split_and!; try done; try lia.
  - intros h. destruct (_h p) as [h0|] eqn:Eh; [|done]. intros [= <-]. destruct (S5 h0 eq_refl) as (x & -> & Hx).
    simpl. eexists. split; [done|]. lia.
  - by rewrite S6.
Qed.

Lemma unshared_view bf : view_of (<[b := copy old]> bf) unshared = view_of (bufs m) p.
Proof.
  destruct p_shape as (S1 & S2 & S3 & _).
  rewrite (view_of_slice _ unshared b (copy old)) by (done || apply lookup_insert_eq).
  rewrite (view_of_slice _ p ob old) by done. simpl.
  replace (hr + len - hr) with (_tail p - _data p) by lia.
  assert (Hx : forall o : option Z, (fun x => x - hr) <$> (Z.add (0 - _head p + eh) <$> o) = (fun x => x - _data p) <$> o).
  { intros [x|]; simpl; [f_equal; lia|done]. }
  rewrite !Hx. f_equal. unfold copy.
  assert (Hsl : length (slice (Z.to_nat start) (Z.to_nat (stop - start)) old) = Z.to_nat (stop - start)).
  { apply length_slice. lia. }
  rewrite slice_of_written; rewrite ?Hsl, ?length_fresh_bytes; try lia.
  rewrite slice_slice by lia. f_equal. lia.
Qed.

(** The state in which the packet has its copy, the old data not being freed. *)
Definition copied_mem (q : Packet) : Mem :=
  mkMem (<[a := q]> (pkts m)) (<[b := copy old]> (bufs m)) (packet_pool m) (global_packet_pool m) (Pos.succ b)
    (destroyed m).

Definition free_old (m0 : Mem) (q : Packet) : res Mem :=
  match _data_packet q with
  | Some d => kill false addr m0 d
  | None => if _destructor q
            then Ok (mkMem (pkts m0) (delete ob (bufs m0)) (packet_pool m0) (global_packet_pool m0)
                       (next_addr m0) (ob :: destroyed m0))
            else delete_array m0 ob
  end.

Lemma detach_eval f : _use_count p = 1 ->
  expensive_uniqueify_loop false garbage addr (S f) eh et m a =
  (let* m' := free_old (copied_mem copied) copied in
   let* q := get m' a in
   Ok (a, set a (shift_header_annotations (_head p) eh
                   (with_data_packet None (with_count 1 (with_destructor false q)))) m')).
Proof.
  intros Hc. destruct p_shape as (S1 & S2 & S3 & _).
  assert (Hget : get m a = Ok p) by (unfold get; by rewrite Hp).
  cbn [expensive_uniqueify_loop]. rewrite Hget. cbn [mbind res_bind].
  assert (Eh : headroom p = _data p - _head p) by (unfold headroom; rewrite u32_small; lia).
  assert (Et : tailroom p = _end p - _tail p) by (unfold tailroom; rewrite u32_small; lia).
  assert (El : Packet_length p = len) by (unfold Packet_length; rewrite u32_small; lia).
  rewrite Eh, Et, El, !i32_u32, !i32_small by lia.
  rewrite !(proj2 (Z.leb_le _ _)) by lia. cbn [andb]. rewrite Hc. cbn [Z.ltb Z.compare Pos.compare Pos.compare_cont].
  assert (Hgb : get_buf m p = Ok (ob, old)) by (unfold get_buf; rewrite Hob; simpl; by rewrite Hold).
  rewrite Hgb. cbn [mbind res_bind].
  unfold alloc_data. rewrite (u32_small (_data p - _head p + eh)), (u32_small (_end p - _tail p + et)) by lia.
  rewrite u32_small by lia. rewrite Hget. cbn [mbind res_bind].
  assert (En : (if len + (_data p - _head p + eh) + (_end p - _tail p + et) <? min_buffer_length
                then min_buffer_length else len + (_data p - _head p + eh) + (_end p - _tail p + et)) = n).
  { unfold min_buffer_length, n, len. destruct (Z.ltb_spec (_tail p - _data p + (_data p - _head p + eh) + (_end p - _tail p + et)) 64); lia. }
  rewrite En. unfold new_array, new_block. cbn [fst snd of_option mbind res_bind].
  rewrite get_set. cbn [of_option mbind res_bind].
  assert (Estart : _head p + (if 0 <=? eh then 0 else - eh) = start) by (unfold start; destruct (Z.leb_spec 0 eh); lia).
  assert (Estop : _end p + (if 0 <=? et then 0 else et) = stop) by (unfold stop; destruct (Z.leb_spec 0 et); lia).
  rewrite Estart, Estop, read_range_ok by lia. cbn [mbind res_bind].
  fold (slice (Z.to_nat start) (Z.to_nat (stop - start)) old).
  unfold get_buf. cbn [_buf with_range with_buf of_option mbind res_bind bufs set with_pkts].
  rewrite lookup_insert_eq. cbn [of_option mbind res_bind _head with_range].
  assert (Eoff : 0 + (if 0 <=? eh then eh else 0) = off) by (unfold off; destruct (Z.leb_spec 0 eh); lia).
  rewrite Eoff, write_range_written; [|lia|].
  2:{ rewrite length_fresh_bytes, length_slice by lia. lia. }
  cbn [mbind res_bind]. unfold with_bufs, set, with_pkts. simpl. rewrite insert_insert_eq. done.
Qed.

(** What the copy leads to. *)
Definition detached (m' : Mem) : Prop :=
  Inv m' ext 0 B' /\ pkts m' !! a = Some unshared /\ view_at m' a = view_at m a /\
  forall c, c <> a -> (1 <= ext c)%nat -> view_at m' c = view_at m c.

Lemma fresh_ne : b <> ob.
Proof. intros E. apply (fresh_unowned m ext 0 B I a p Hp). rewrite Hob. by f_equal. Qed.

Lemma detach_root : _data_packet p = None -> _use_count p = 1 ->
  exists m', (let* m' := free_old (copied_mem copied) copied in
   let* q := get m' a in
   Ok (a, set a (shift_header_annotations (_head p) eh
                   (with_data_packet None (with_count 1 (with_destructor false q)))) m')) = Ok (a, m') /\ detached m'.
Proof.
  intros Hd Hc. pose proof (drop_sole m ext 0 B a p I Hp Hr ob Hd Hob) as Hsole. pose proof fresh_ne as Hne.
  set (m0 := mkMem (delete a (pkts m)) (delete ob (bufs m)) (packet_pool m) (global_packet_pool m) (next_addr m) []).
  assert (I0 : Inv m0 (ext_dec a ext) 0 B).
  { eapply (drop_root m ext 0 B a p I Hp Hext Hr m0 (packet_pool m) (delete ob (bufs m)) ob); try done.
    - eapply store_drop_free; [apply I|done..].
    - by apply (drop_pool_full m ext 0 B a I).
    - by right.
    - intros c [cs [_ Hcs]%lookup_delete_Some]. eauto.
    - intros c Hc'. by rewrite lookup_delete_ne. }
  assert (exists ds, (let* m' := free_old (copied_mem copied) copied in
    let* q := get m' a in
    Ok (a, set a (shift_header_annotations (_head p) eh
                   (with_data_packet None (with_count 1 (with_destructor false q)))) m')) =
    Ok (a, mkMem (<[a := unshared]> (pkts m)) (<[b := copy old]> (delete ob (bufs m))) (packet_pool m)
             (global_packet_pool m) (Pos.succ b) ds)) as [ds ->].
  { unfold free_old, copied_mem. cbn [_data_packet copied with_range with_buf _destructor]. rewrite Hd.
    destruct (_destructor p).
    - eexists. cbn [mbind res_bind]. unfold get, set, with_pkts. simpl. rewrite lookup_insert_eq. simpl.
      rewrite insert_insert_eq, delete_insert_ne by done. done.
    - eexists. rewrite (delete_array_ok _ _ old) by (simpl; by rewrite lookup_insert_ne).
      cbn [mbind res_bind]. unfold get, set, with_pkts, with_bufs. simpl. rewrite lookup_insert_eq. simpl.
      rewrite insert_insert_eq, delete_insert_ne by done. done. }
  eexists. split; [done|]. unfold detached. split; [|split; [|split]].
  - eapply Inv_ext; [|eapply (inv_add m0 (ext_dec a ext) B B' _ a unshared b (copy old)); try done].
    + intros c. unfold ext_inc, ext_dec. destruct (decide (c = a)) as [->|]; [|done]. rewrite Hext. done.
    + split_and!; simpl.
      * apply lookup_delete_eq.
      * intros H. by eapply (drop_not_pooled m ext 0 B a p).
      * apply I. eauto.
    + intros c q Hq. simpl in Hq. apply lookup_delete_Some in Hq as [_ Hq]. by apply (fresh_unowned m ext 0 B I c q).
    + apply unshared_shape.
    + rewrite length_copy. destruct p_shape as (S1 & S2 & S3 & _). lia.
    + simpl. by rewrite insert_delete_eq.
    + left. split_and!; try done. exact (fresh_unpooled m ext 0 B I).
    + simpl. lia.
    + simpl. lia.
  - simpl. by rewrite lookup_insert_eq.
  - unfold view_at. simpl. rewrite lookup_insert_eq, Hp. simpl. f_equal. apply unshared_view.
  - intros c Hca Hce. apply view_at_same; simpl; [by rewrite lookup_insert_ne|].
    intros q x Hq Hx. rewrite lookup_insert_ne by (intros <-; by apply (fresh_unowned m ext 0 B I c q)).
    rewrite lookup_delete_ne; [done|]. intros <-. by apply (Hsole c q).
Qed.

Lemma detach_clone d : _data_packet p = Some d ->
  exists m', (let* m' := free_old (copied_mem copied) copied in
   let* q := get m' a in
   Ok (a, set a (shift_header_annotations (_head p) eh
                   (with_data_packet None (with_count 1 (with_destructor false q)))) m')) = Ok (a, m') /\ detached m'.
Proof.
  intros Hd. pose proof (graph_no_self _ _ _ _ (i_graph _ _ _ _ I) Hp) as Hself.
  assert (Hda : d <> a) by congruence.
  pose proof (inv_drop_clone _ _ _ _ _ _ _ I Hp Hr Hd) as I0.
  assert (I1 : Inv (copied_mem unshared) (ext_inc a (ext_drop a p ext)) 0 B').
  { eapply (inv_add (with_pkts (delete a) m) _ B B' _ a unshared b (copy old)); try done.
    - split_and!; simpl.
      + apply lookup_delete_eq.
      + intros H. by eapply (drop_not_pooled m ext 0 B a p).
      + apply I. eauto.
    - intros c q Hq. simpl in Hq. apply lookup_delete_Some in Hq as [_ Hq]. by apply (fresh_unowned m ext 0 B I c q).
    - apply unshared_shape.
    - rewrite length_copy. destruct p_shape as (S1 & S2 & S3 & _). lia.
    - simpl. by rewrite insert_delete_eq.
    - left. split_and!; try done. exact (fresh_unpooled m ext 0 B I).
    - simpl. lia.
    - simpl. lia. }
  destruct (kill_ok addr (copied_mem unshared) _ 0 B' d I1) as (m3 & Hk & I3 & F3).
  { unfold held_once, ext_inc, ext_drop, ref1. rewrite Hd. split.
    - rewrite !(decide_False (P := d = a)), decide_True by done. pose proof (Hplain d). lia.
    - intros c Hc. rewrite (decide_False (P := Some d = Some c)) by congruence. pose proof (Hplain c).
      destruct (decide (c = a)); lia. }
  assert (I3' : Inv m3 ext 0 B').
  { eapply Inv_ext; [|exact I3]. intros c. unfold ext_dec, ext_inc, ext_drop, ref1. rewrite Hd.
    destruct (decide (c = d)) as [->|].
    - rewrite !(decide_False (P := d = a)), decide_True by done. lia.
    - rewrite (decide_False (P := Some d = Some c)) by congruence.
      destruct (decide (c = a)) as [->|]; lia. }
  assert (Hcm : copied_mem copied = set a copied (copied_mem unshared)).
  { unfold copied_mem, set, with_pkts. simpl. by rewrite insert_insert_eq. }
  destruct (g_rank _ _ (i_graph _ _ _ _ I)) as [rank Hrank].
  assert (Ek : kill false addr (copied_mem copied) d = Ok (set a copied m3)).
  { rewrite Hcm, (kill_ignores addr rank a copied), Hk; [done| |by apply (Hrank a p)|].
    - intros c q e Hq. simpl in Hq. apply lookup_insert_Some in Hq as [[<- <-]|[_ Hq]]; [done|]. by apply Hrank.
    - simpl. rewrite lookup_insert_eq. eauto. }
  assert (Ha3 : pkts m3 !! a = Some unshared).
  { destruct (g_held _ _ (i_graph _ _ _ _ I3') a) as [q Hq]; [lia|].
    destruct (fr_pkts _ _ F3 a q Hq) as (q0 & Hq0 & Eq & _). simpl in Hq0. rewrite lookup_insert_eq in Hq0.
    injection Hq0 as <-.
    assert (Hr3 : refs (pkts m3) a = 0%nat).
    { apply refs_zero. intros c r Hc. destruct (fr_pkts _ _ F3 c r Hc) as (r0 & Hr0 & -> & _).
      simpl in Hr0. apply lookup_insert_Some in Hr0 as [[<- <-]|[_ Hr0]]; [done|]. simpl.
      by apply (proj1 (refs_zero (pkts m) a) Hr c). }
    destruct (g_count _ _ (i_graph _ _ _ _ I3') a q Hq) as [Ec _]. rewrite Hr3, Hext in Ec.
    rewrite Hq, Eq, Ec. done. }
  exists m3. split.
  - unfold free_old. cbn [_data_packet copied with_range with_buf]. rewrite Hd, Ek. cbn [mbind res_bind].
    rewrite get_set. cbn [mbind res_bind]. rewrite set_set. do 2 f_equal.
    change (shift_header_annotations _ _ _) with unshared. unfold set, with_pkts. rewrite insert_id by done. by destruct m3.
  - split; [done|]. split; [done|]. split.
    + unfold view_at. rewrite Ha3, Hp. simpl. f_equal. rewrite <- (unshared_view (bufs m)).
      apply view_of_eq. destruct (fr_pkts _ _ F3 a _ Ha3) as (q0 & Hq0 & _ & Hb).
      simpl in Hq0. rewrite lookup_insert_eq in Hq0. injection Hq0 as <-. exact Hb.
    + intros c Hca Hce. rewrite (framed_view _ _ c F3) by (by apply I3').
      apply view_at_same; simpl; [by rewrite lookup_insert_ne|].
      intros q x Hq Hx. rewrite lookup_insert_ne; [done|]. intros <-. by apply (fresh_unowned m ext 0 B I c q).
Qed.

Lemma detach_ok f : _use_count p = 1 ->
  exists m', expensive_uniqueify_loop false garbage addr (S f) eh et m a = Ok (a, m') /\ detached m'.
Proof.
  intros Hc. rewrite detach_eval by done.
  destruct (_data_packet p) as [d|] eqn:Hd; [by apply (detach_clone d)|by apply detach_root].
Qed.
End detach.

Lemma Inv_mono m ext k B B' : B <= B' < 2 ^ 31 -> Inv m ext k B -> Inv m ext k B'.
Proof.
  intros H I. split; [apply I|eapply store_mono; [|apply I]; lia|apply I|apply I|]. pose proof (i_size _ _ _ _ I). lia.
Qed.

(** Packet [a] has become packet [q], which is not shared. *)
Record moved (m m' : Mem) (ext : positive -> nat) (B' : Z) (a q : positive) (p' : Packet) (v : option view) : Prop := {
  m_inv : Inv m' (ext_inc q (ext_dec a ext)) 0 B';
  m_packet : pkts m' !! q = Some p';
  m_shared : shared p' = false;
  m_view : view_at m' q = v;
  m_others : forall c, c <> a -> (1 <= ext c)%nat -> c <> q /\ view_at m' c = view_at m c
}.

Lemma ext_move_self a ext c : ext a = 1%nat -> ext_inc a (ext_dec a ext) c = ext c.
Proof. intros H. unfold ext_inc, ext_dec. destruct (decide (c = a)) as [->|]; [rewrite H|]; done. Qed.

Section unique.
Context (m : Mem) (ext : positive -> nat) (B : Z) (a : positive) (p : Packet).
Context (I : Inv m ext 0 B) (Hp : pkts m !! a = Some p) (Hext : ext a = 1%nat).
Context (Hplain : forall c, (ext c <= 1)%nat) (HB : 2048 <= B).

Lemma packet_range : 0 <= _head p <= _data p /\ _data p <= _tail p <= _end p /\ _end p <= B /\ B < 2 ^ 31.
Proof.
  clear Hext Hplain HB. destruct (s_shape _ _ _ _ (i_store _ _ _ _ I) a p Hp) as (x & bs & H1 & H2 & H3 & H4 & H5 & _).
  pose proof (s_all _ _ _ _ (i_store _ _ _ _ I) x bs H2) as [HS _]. pose proof (i_size _ _ _ _ I).
  split; [exact H3|]. split; [exact H4|]. lia.
Qed.

Lemma headroom_eq : headroom p = _data p - _head p.
Proof. clear Hext Hplain HB. destruct packet_range as (?&?&?&?). unfold headroom. rewrite u32_small; lia. Qed.
Lemma tailroom_eq : tailroom p = _end p - _tail p.
Proof. clear Hext Hplain HB. destruct packet_range as (?&?&?&?). unfold tailroom. rewrite u32_small; lia. Qed.
Lemma length_eq : Packet_length p = _tail p - _data p.
Proof. clear Hext Hplain HB. destruct packet_range as (?&?&?&?). unfold Packet_length. rewrite u32_small; lia. Qed.

Lemma expensive_shared f eh et :
  _head p - _data p <= eh -> _tail p - _end p <= et -> eh < 2 ^ 31 -> et < 2 ^ 31 -> 1 < _use_count p ->
  expensive_uniqueify_loop false garbage addr (S f) eh et m a =
  (let* (c, m) := clone false m a in
   let* (q, m) := expensive_uniqueify_loop false garbage addr f eh et m c in
   let* m := kill false addr m a in
   Ok (q, m)).
Proof.
  intros Heh Het Heh' Het' Hc. destruct packet_range as (?&?&?&?).
  assert (Hget : get m a = Ok p) by (unfold get; by rewrite Hp).
  cbn [expensive_uniqueify_loop]. rewrite Hget. cbn [mbind res_bind].
  rewrite headroom_eq, tailroom_eq, (i32_u32 (- (_data p - _head p))), (i32_u32 (- (_end p - _tail p))).
  rewrite (i32_small (- (_data p - _head p))), (i32_small (- (_end p - _tail p))) by lia.
  rewrite !(proj2 (Z.leb_le _ _)) by lia. cbn [andb]. by rewrite (proj2 (Z.ltb_lt _ _)) by lia.
Qed.

Definition uniqueified (eh et B' : Z) : Prop :=
  exists q m' p', expensive_uniqueify false garbage addr eh et m a = Ok (q, m') /\
    moved m m' ext B' a q p' (view_at m a) /\ _head p' = 0 /\ _data p' = _data p - _head p + eh /\
    _tail p' = _tail p - _head p + eh /\ _end p - _tail p + et <= _end p' - _tail p'.

Section expensive.
Context (eh et B' : Z) (Heh : _head p - _data p <= eh) (Het : _tail p - _end p <= et).
Context (HB' : B + 2 + Z.max 0 eh + Z.max 0 et <= B' < 2 ^ 31).

(** Without clones: in place. *)
Lemma expensive_single : refs (pkts m) a = 0%nat -> uniqueified eh et B'.
Proof.
  intros Hr. destruct packet_range as (R1 & R2 & R3 & R4).
  destruct (s_shape _ _ _ _ (i_store _ _ _ _ I) a p Hp) as (ob & old & Hob & Hold & _).
  destruct (inv_count _ _ _ _ _ _ I Hp) as [Ec _].
  assert (Hc : _use_count p = 1) by lia.
  destruct (detach_ok m ext B B' a p eh et I Hp Hext Hr Hplain HB ltac:(lia) ltac:(lia) Heh Het ob old Hob Hold 1 Hc)
    as (m' & E & I' & Hp' & Hv & Ho).
  exists a, m', (unshared m p eh et). split; [exact E|]. split; [split|].
  - eapply Inv_ext; [|exact I']. intros c. symmetry. by apply ext_move_self.
  - done.
  - done.
  - done.
  - intros c Hca Hce. auto.
  - simpl. split_and!; lia.
Qed.

(** With clones: a clone gets the copy. *)
Lemma expensive_clone : refs (pkts m) a <> 0%nat -> uniqueified eh et B'.
Proof.
  intros Hr. destruct packet_range as (R1 & R2 & R3 & R4).
  destruct (s_shape _ _ _ _ (i_store _ _ _ _ I) a p Hp) as (ob & old & Hob & Hold & _).
  destruct (inv_count _ _ _ _ _ _ I Hp) as [Ec _]. unfold uniqueified.
  unfold expensive_uniqueify. change 2%nat with (S 1).
  rewrite expensive_shared by lia.
  destruct (clone_ok m ext B a I) as (c & m1 & p0 & Ec1 & Hp0 & A1 & Hc1); [lia|lia|].
  assert (p0 = p) as -> by congruence. rewrite Ec1. cbn [mbind res_bind].
  set (pc := with_destructor false (with_data_packet (Some a) (with_count 1 p))) in *.
  destruct A1 as [I1 Hnew V1 O1].
  destruct (graph_absent _ _ _ (i_graph _ _ _ _ I) Hnew) as [Ee Er].
  assert (Hca : c <> a) by congruence.
  assert (Eec : ext_inc c ext c = 1%nat) by (unfold ext_inc; rewrite decide_True by done; lia).
  destruct (inv_count _ _ _ _ _ _ I1 Hc1) as [Ecc _]. simpl in Ecc.
  assert (Hob1 : exists old1, bufs m1 !! ob = Some old1).
  { destruct (s_shape _ _ _ _ (i_store _ _ _ _ I1) c pc Hc1) as (x & bs & H1 & H2 & _).
    simpl in H1. assert (x = ob) as -> by congruence. eauto. }
  destruct Hob1 as [old1 Hold1].
  destruct (detach_ok m1 (ext_inc c ext) (B + 1) B' c pc eh et I1 Hc1 Eec) with ob old1 0%nat
    as (m2 & E & I2 & Hp2 & Hv2 & Ho2); try done; try lia.
  { intros e. unfold ext_inc. pose proof (Hplain e). destruct (decide (e = c)) as [->|]; lia. }
  rewrite E. cbn [mbind res_bind].
  destruct (kill_ok addr m2 _ 0 B' a I2) as (m3 & Ek & I3 & F3).
  { unfold held_once, ext_inc. rewrite decide_False by done. split; [lia|].
    intros e He. pose proof (Hplain e). destruct (decide (e = c)) as [->|]; lia. }
  rewrite Ek. cbn [mbind res_bind].
  assert (I3' : Inv m3 (ext_inc c (ext_dec a ext)) 0 B').
  { eapply Inv_ext; [|exact I3]. intros e. unfold ext_inc, ext_dec.
    destruct (decide (e = a)), (decide (e = c)); congruence. }
  assert (Hc3 : is_Some (pkts m3 !! c)).
  { apply (g_held _ _ (i_graph _ _ _ _ I3')). unfold ext_inc. rewrite decide_True by done. lia. }
  destruct Hc3 as [p3 Hp3]. destruct (fr_pkts _ _ F3 c p3 Hp3) as (p2 & Hp2' & E3 & _).
  assert (p2 = unshared m1 pc eh et) as -> by congruence.
  assert (Hcount3 : _use_count p3 = 1).
  { destruct (inv_count _ _ _ _ _ _ I3' Hp3) as [Ex _].
    destruct (inv_count _ _ _ _ _ _ I2 Hp2) as [Ex2 _]. simpl in Ex2.
    assert (refs (pkts m3) c = 0%nat).
    { assert (Hr2 : refs (pkts m2) c = 0%nat) by lia. rewrite refs_zero in Hr2 |- *.
      intros e r He. destruct (fr_pkts _ _ F3 e r He) as (r0 & Hr0 & -> & _). exact (Hr2 e r0 Hr0). }
    unfold ext_inc, ext_dec in Ex. rewrite decide_True in Ex by done.
    rewrite decide_False in Ex by done. lia. }
  exists c, m3, p3. split; [done|]. split; [split|].
  - exact I3'.
  - done.
  - unfold shared. rewrite E3, Hcount3. done.
  - rewrite (framed_view _ _ c F3) by eauto. rewrite Hv2. unfold view_at at 1. rewrite Hc1, V1 in *.
    unfold view_at. rewrite Hp. unfold view_at in V1. rewrite Hc1 in V1. exact V1.
  - intros e Hea Hee. assert (e <> c) by (intros ->; lia). split; [done|].
    rewrite (framed_view _ _ e F3).
    2:{ apply (g_held _ _ (i_graph _ _ _ _ I3')). unfold ext_inc, ext_dec. rewrite !decide_False by done. done. }
    rewrite Ho2; [|done|unfold ext_inc; by rewrite decide_False].
    apply O1, (g_held _ _ (i_graph _ _ _ _ I)). done.
  - rewrite E3. simpl. split_and!; lia.
Qed.

Lemma expensive_uniqueify_ok : uniqueified eh et B'.
Proof.
  destruct (decide (refs (pkts m) a = 0%nat)) as [Hr|Hr]; [by apply expensive_single|by apply expensive_clone].
Qed.
End expensive.

(** [uniqueify] gives a packet that is not shared, with the same view. *)
Lemma uniqueify_ok :
  B + 2 < 2 ^ 31 ->
  exists q m' p', uniqueify false garbage addr m a = Ok (q, m') /\ moved m m' ext (B + 2) a q p' (view_at m a).
Proof.
  intros HB2. unfold uniqueify, get. rewrite Hp. cbn [of_option mbind res_bind].
  destruct (shared p) eqn:Es; simpl.
  - destruct packet_range as (?&?&?&?).
    destruct (expensive_uniqueify_ok 0 0 (B + 2)) as (q & m' & p' & E & M & _); [lia|lia|lia|]. eauto.
  - exists a, m, p. split; [done|]. split; try done.
    eapply Inv_ext; [|eapply (Inv_mono _ _ _ B); [lia|done]]. intros c. symmetry. by apply ext_move_self.
Qed.
End unique.

(** ** Changing a packet in place *)

Lemma inv_update m ext k B a p q :
  Inv m ext k B -> pkts m !! a = Some p -> _data_packet q = _data_packet p -> _use_count q = _use_count p ->
  _buf q = _buf p -> shape (bufs m) q -> Inv (set a q m) ext k B.
Proof.
  intros I Hp Ed Ec Eb Hs. split; simpl.
  - eapply graph_update; [apply I|done..].
  - eapply store_update; [apply I|done..].
  - destruct (i_pool _ _ _ _ I) as [P1 P2 P3 P4 P5 P6]. split; try done.
    intros c Hc. rewrite lookup_insert_ne; [by apply P2|]. intros ->. rewrite P2 in Hp; done.
  - destruct (i_fresh _ _ _ _ I) as [F1 F2 F3]. split; simpl; try done.
    intros c [r [[<- _]|[_ Hr]]%lookup_insert_Some]; eauto.
  - rewrite map_size_insert_Some by eauto. apply I.
Qed.

Lemma view_at_set_ne m a q c : c <> a -> view_at (set a q m) c = view_at m c.
Proof. intros H. unfold view_at. simpl. by rewrite lookup_insert_ne. Qed.

Lemma unshared_sole m ext B a p b :
  Inv m ext 0 B -> pkts m !! a = Some p -> ext a = 1%nat -> shared p = false -> _buf p = Some b ->
  forall c q, pkts m !! c = Some q -> c <> a -> _buf q <> Some b.
Proof.
  intros I Hp He Hs Hb. unfold shared in Hs. apply orb_false_iff in Hs as [Hs1 Hs2].
  apply bool_decide_eq_false in Hs1. rewrite Z.ltb_ge in Hs2. destruct (inv_count _ _ _ _ _ _ I Hp) as [Ec _].
  eapply (drop_sole m ext 0 B a p); [done|done|lia| |done]. destruct (_data_packet p); [|done]. by destruct Hs1.
Qed.

(** The packet has its place in the state and a view, the others are as before. *)
Record placed (m m' : Mem) (ext : positive -> nat) (B' : Z) (a q : positive) (v : view) : Prop := {
  pl_inv : Inv m' (ext_inc q (ext_dec a ext)) 0 B';
  pl_view : view_at m' q = Some v;
  pl_others : forall c, c <> a -> (1 <= ext c)%nat -> c <> q /\ view_at m' c = view_at m c
}.

Lemma write_data_ok m ext B a p off src v :
  Inv m ext 0 B -> pkts m !! a = Some p -> ext a = 1%nat -> shared p = false -> view_at m a = Some v ->
  0 <= off -> off + Z.of_nat (length src) <= _tail p - _data p ->
  exists m', write_data m a off src = Ok m' /\ Inv m' ext 0 B /\ pkts m' = pkts m /\
    view_at m' a = Some (mkView (written (Z.to_nat off) src (v_bytes v)) (v_nh v) (v_h v)) /\
    forall c, c <> a -> view_at m' c = view_at m c.
Proof.
  intros I Hp He Hs Hv H0 H1.
  destruct (s_shape _ _ _ _ (i_store _ _ _ _ I) a p Hp) as (b & bs & Hb & Hbs & R1 & R2 & R3 & _).
  pose proof (unshared_sole _ _ _ _ _ b I Hp He Hs Hb) as Hsole.
  unfold write_data, get, get_buf. rewrite Hp. cbn [of_option mbind res_bind]. rewrite Hb. cbn [of_option mbind res_bind].
  rewrite Hbs. cbn [of_option mbind res_bind]. rewrite write_range_written by lia. cbn [mbind res_bind].
  assert (El : length (written (Z.to_nat (_data p + off)) src bs) = length bs) by (apply length_written; lia).
  eexists. split; [done|]. split; [by eapply inv_write|]. split; [done|]. split.
  - unfold view_at in *. simpl. rewrite Hp in *. simpl in *. injection Hv as <-. f_equal.
    rewrite (view_of_slice _ p b (written (Z.to_nat (_data p + off)) src bs)) by (done || apply lookup_insert_eq).
    rewrite (view_of_slice _ p b bs) by done. simpl. f_equal.
    rewrite slice_written by lia. f_equal. lia.
  - intros c Hc. apply view_at_same; [done|]. simpl. intros q x Hq Hx. rewrite lookup_insert_ne; [done|].
    intros <-. by apply (Hsole c q).
Qed.

(** Moving the ends of the data inside the buffer. *)
Section range.
Context (m : Mem) (ext : positive -> nat) (k : nat) (B : Z) (a : positive) (p : Packet) (d t : Z).
Context (I : Inv m ext k B) (Hp : pkts m !! a = Some p) (Hd : _head p <= d) (Ht : d <= t <= _end p).

Definition ranged : Packet := with_range (_head p) d t (_end p) p.

Lemma range_inv : Inv (set a ranged m) ext k B.
Proof.
  eapply inv_update; [done..|].
  destruct (s_shape _ _ _ _ (i_store _ _ _ _ I) a p Hp) as (b & bs & H1 & H2 & H3 & H4 & H5 & H6 & H7 & H8).
  exists b, bs. unfold ranged. simpl. split_and!; try done; lia.
Qed.

Lemma range_view : exists b bs, _buf p = Some b /\ bufs m !! b = Some bs /\ _end p <= Z.of_nat (length bs) /\ 0 <= _head p /\
  view_at (set a ranged m) a =
    Some (mkView (slice (Z.to_nat d) (Z.to_nat (t - d)) bs) ((fun x => x - d) <$> _nh p) ((fun x => x - d) <$> _h p)).
Proof.
  destruct (s_shape _ _ _ _ (i_store _ _ _ _ I) a p Hp) as (b & bs & H1 & H2 & H3 & H4 & H5 & _).
  exists b, bs. split_and!; try done; try lia. unfold view_at. simpl. rewrite lookup_insert_eq. simpl. f_equal.
  by rewrite (view_of_slice _ ranged b bs).
Qed.
End range.

Lemma view_at_inv m ext k B a p : Inv m ext k B -> pkts m !! a = Some p ->
  exists b bs, _buf p = Some b /\ bufs m !! b = Some bs /\ _end p <= Z.of_nat (length bs) /\
    view_at m a = Some (mkView (slice (Z.to_nat (_data p)) (Z.to_nat (_tail p - _data p)) bs)
                          ((fun x => x - _data p) <$> _nh p) ((fun x => x - _data p) <$> _h p)).
Proof.
  intros I Hp. destruct (s_shape _ _ _ _ (i_store _ _ _ _ I) a p Hp) as (b & bs & H1 & H2 & H3 & H4 & H5 & _).
  exists b, bs. split_and!; try done. unfold view_at. rewrite Hp. simpl. f_equal. by apply (view_of_slice _ p b bs).
Qed.

Lemma option_shift (x : option Z) (d e n : Z) : e = n + d -> (fun y => y - d) <$> x = Z.add n <$> ((fun y => y - e) <$> x).
Proof. intros ->. destruct x; simpl; [f_equal; lia|done]. Qed.

(** Moving both ends: the bytes and headers relative to the old ones. *)
Lemma range_views m ext B a p d t v :
  Inv m ext 0 B -> pkts m !! a = Some p -> view_at m a = Some v -> _head p <= d -> d <= t <= _end p ->
  exists w, view_at (set a (ranged p d t) m) a = Some w /\ length (v_bytes w) = Z.to_nat (t - d) /\
    (d <= _data p -> t = _tail p -> drop (Z.to_nat (_data p - d)) (v_bytes w) = v_bytes v) /\
    (_data p <= d -> t = _tail p -> v_bytes w = drop (Z.to_nat (d - _data p)) (v_bytes v)) /\
    (d = _data p -> t <= _tail p -> v_bytes w = take (Z.to_nat (t - d)) (v_bytes v)) /\
    (d = _data p -> _tail p <= t -> take (Z.to_nat (_tail p - d)) (v_bytes w) = v_bytes v) /\
    v_nh w = Z.add (_data p - d) <$> v_nh v /\ v_h w = Z.add (_data p - d) <$> v_h v.
Proof.
  intros I Hp Hv Hd Ht. destruct (packet_range m ext B a p I Hp) as (R1 & R2 & R3 & R4).
  destruct (range_view m ext 0 B a p d t I Hp) as (b & bs & Hb & Hbs & Hl & _ & Ew).
  destruct (view_at_inv m ext 0 B a p I Hp) as (b' & bs' & Hb' & Hbs' & _ & Ev).
  assert (b' = b) as -> by congruence. assert (bs' = bs) as -> by congruence.
  rewrite Ev in Hv. injection Hv as <-. eexists. split; [exact Ew|]. simpl.
  split; [apply length_slice; lia|]. split_and!.
  - intros H1 ->. rewrite <- slice_drop by lia. f_equal; lia.
  - intros H1 ->. rewrite <- slice_drop by lia. f_equal; lia.
  - intros -> H1. apply slice_take. lia.
  - intros -> H1. symmetry. apply slice_take. lia.
  - apply option_shift. lia.
  - apply option_shift. lia.
Qed.

Lemma land_not3 x : 0 <= x < 2 ^ 32 -> Z.land x (u32 (Z.lnot 3)) = x / 4 * 4.
Proof.
  intros H. change (u32 (Z.lnot 3)) with (Z.ldiff (Z.ones 32) 3).
  assert (E : Z.land x (Z.ldiff (Z.ones 32) 3) = Z.ldiff (Z.land x (Z.ones 32)) (Z.ones 2)).
  { apply Z.bits_inj'. intros i Hi. rewrite Z.land_spec, !Z.ldiff_spec, Z.land_spec. change (Z.ones 2) with 3.
    by rewrite andb_assoc. }
  rewrite E, Z.land_ones, Z.mod_small by lia. rewrite Z.ldiff_ones_r by lia.
  rewrite Z.shiftl_mul_pow2, Z.shiftr_div_pow2 by lia. done.
Qed.

Lemma length_view m0 ext0 B0 a0 p0 v0 : Inv m0 ext0 0 B0 -> pkts m0 !! a0 = Some p0 -> view_at m0 a0 = Some v0 ->
  Z.of_nat (length (v_bytes v0)) = _tail p0 - _data p0.
Proof.
  intros I0 Hp0 Hv0. destruct (packet_range m0 ext0 B0 a0 p0 I0 Hp0) as (R1 & R2 & R3 & R4).
  destruct (view_at_inv m0 ext0 0 B0 a0 p0 I0 Hp0) as (b & bs & _ & _ & Hl & E).
  rewrite E in Hv0. injection Hv0 as <-. simpl. rewrite length_slice by lia. lia.
Qed.

Section room.
Context (m : Mem) (ext : positive -> nat) (B : Z) (a : positive) (p : Packet) (v : view) (n : Z).
Context (I : Inv m ext 0 B) (Hp : pkts m !! a = Some p) (Hext : ext a = 1%nat) (Hv : view_at m a = Some v).
Context (Hplain : forall c, (ext c <= 1)%nat) (HB : 2048 <= B) (Hn : 0 <= n) (HBn : B + 130 + n < 2 ^ 31).

(** The result of [push] and [put]: not shared, longer by [n], the view being [w]. *)
Definition roomy (q : positive) (m' : Mem) (w : view) : Prop :=
  Inv m' (ext_inc q (ext_dec a ext)) 0 (B + 130 + n) /\
  (exists p', pkts m' !! q = Some p' /\ shared p' = false /\ _tail p' - _data p' = Z.of_nat (length (v_bytes v)) + n) /\
  view_at m' q = Some w /\ length (v_bytes w) = (length (v_bytes v) + Z.to_nat n)%nat /\
  forall c, c <> a -> (1 <= ext c)%nat -> c <> q /\ view_at m' c = view_at m c.

Lemma inv_stay : Inv m (ext_inc a (ext_dec a ext)) 0 (B + 130 + n).
Proof.
  eapply Inv_ext; [|eapply (Inv_mono _ _ _ B); [lia|done]]. intros c. symmetry. by apply ext_move_self.
Qed.

(** Widening a packet [q] that is not shared. *)
Lemma widen q m' p' d t :
  Inv m' (ext_inc q (ext_dec a ext)) 0 (B + 130 + n) -> pkts m' !! q = Some p' -> shared p' = false ->
  view_at m' q = Some v -> (forall c, c <> a -> (1 <= ext c)%nat -> c <> q /\ view_at m' c = view_at m c) ->
  _head p' <= d -> d <= t <= _end p' -> t - d = _tail p' - _data p' + n ->
  exists w, roomy q (set q (ranged p' d t) m') w /\
    (d = _data p' - n -> drop (Z.to_nat n) (v_bytes w) = v_bytes v /\ v_nh w = Z.add n <$> v_nh v /\ v_h w = Z.add n <$> v_h v) /\
    (d = _data p' -> take (length (v_bytes v)) (v_bytes w) = v_bytes v /\ v_nh w = v_nh v /\ v_h w = v_h v).
Proof.
  intros I' Hp' Hs' Hv' Ho Hd Ht Hlen.
  pose proof (length_view _ _ _ _ _ _ I' Hp' Hv') as El.
  destruct (range_views m' _ _ q p' d t v I' Hp' Hv' Hd Ht) as (w & Hw & Hwl & W1 & _ & _ & W4 & Wn & Wh).
  exists w. split; [split_and!|split].
  - by apply range_inv.
  - exists (ranged p' d t). simpl. rewrite lookup_insert_eq. split_and!; [done|done|]. unfold ranged. simpl. lia.
  - done.
  - rewrite Hwl. lia.
  - intros c Hca Hce. destruct (Ho c Hca Hce) as [Hq Hc]. split; [done|]. by rewrite view_at_set_ne.
  - intros E. assert (En : _data p' - d = n) by lia. rewrite En in W1, Wn, Wh. split; [apply W1; lia|done].
  - intros E. assert (E0 : _data p' - d = 0) by lia. rewrite E0 in Wn, Wh.
    assert (Hid : forall o : option Z, Z.add 0 <$> o = o) by (intros [x|]; simpl; [f_equal; lia|done]).
    rewrite Hid in Wn, Wh. split; [|done].
    replace (length (v_bytes v)) with (Z.to_nat (_tail p' - d)) by lia. apply W4; lia.
Qed.

Lemma push_ok : exists q m' w, Packet_push false garbage addr n m a = Ok (q, m') /\ roomy q m' w /\
  drop (Z.to_nat n) (v_bytes w) = v_bytes v /\ v_nh w = Z.add n <$> v_nh v /\ v_h w = Z.add n <$> v_h v.
Proof.
  destruct (packet_range m ext B a p I Hp) as (R1 & R2 & R3 & R4).
  unfold Packet_push, get. rewrite Hp. cbn [of_option mbind res_bind].
  rewrite (headroom_eq m ext B a p I Hp).
  destruct (Z.leb_spec n (_data p - _head p)) as [Hle|Hgt]; [destruct (shared p) eqn:Es|]; cbn [andb negb].
  2:{ destruct (widen a m p (_data p - n) (_tail p)) as (w & Hw & W & _); [apply inv_stay|done..|auto|lia|lia|lia|].
      exists a. eexists. exists w. split; [done|]. split; [done|]. by apply W. }
  all: unfold expensive_push; rewrite land_not3 by (rewrite u32_small; lia); rewrite u32_small by lia;
    assert (Heh : n + 125 <= (n + 128) / 4 * 4 <= n + 128) by divlia; revert Heh;
    generalize ((n + 128) / 4 * 4); intros eh Heh; rewrite i32_small by lia;
    destruct (expensive_uniqueify_ok m ext B a p I Hp Hext Hplain HB eh 0 (B + 130 + n))
      as (q & m' & p' & E & [I' Hp' Hs' Hv' Ho'] & E1 & E2 & E3 & E4); [lia|lia|lia|];
    rewrite E; cbn [mbind res_bind]; unfold get; rewrite Hp'; cbn [of_option mbind res_bind];
    destruct (packet_range _ _ _ _ _ I' Hp') as (R1' & R2' & R3' & R4');
    destruct (widen q m' p' (_data p' - n) (_tail p')) as (w & Hw & W & _); [done|done|done|by rewrite Hv'|done|lia|lia|lia|];
    exists q, (set q (ranged p' (_data p' - n) (_tail p')) m'), w; (split; [done|]); (split; [done|]); by apply W.
Qed.

Lemma put_ok : exists q m' w, Packet_put false garbage addr n m a = Ok (q, m') /\ roomy q m' w /\
  take (length (v_bytes v)) (v_bytes w) = v_bytes v /\ v_nh w = v_nh v /\ v_h w = v_h v.
Proof.
  destruct (packet_range m ext B a p I Hp) as (R1 & R2 & R3 & R4).
  unfold Packet_put, get. rewrite Hp. cbn [of_option mbind res_bind].
  rewrite (tailroom_eq m ext B a p I Hp).
  destruct (Z.leb_spec n (_end p - _tail p)) as [Hle|Hgt]; [destruct (shared p) eqn:Es|]; cbn [andb negb].
  2:{ destruct (widen a m p (_data p) (_tail p + n)) as (w & Hw & _ & W); [apply inv_stay|done..|auto|lia|lia|lia|].
      exists a. eexists. exists w. split; [done|]. split; [done|]. by apply W. }
  all: unfold expensive_put; rewrite u32_small by lia; rewrite i32_small by lia;
    destruct (expensive_uniqueify_ok m ext B a p I Hp Hext Hplain HB 0 (n + 128) (B + 130 + n))
      as (q & m' & p' & E & [I' Hp' Hs' Hv' Ho'] & E1 & E2 & E3 & E4); [lia|lia|lia|];
    rewrite E; cbn [mbind res_bind]; unfold get; rewrite Hp'; cbn [of_option mbind res_bind];
    destruct (packet_range _ _ _ _ _ I' Hp') as (R1' & R2' & R3' & R4');
    destruct (widen q m' p' (_data p') (_tail p' + n)) as (w & Hw & _ & W); [done|done|done|by rewrite Hv'|done|lia|lia|lia|];
    exists q, (set q (ranged p' (_data p') (_tail p' + n)) m'), w; (split; [done|]); (split; [done|]); by apply W.
Qed.
End room.

Lemma moved_placed m m' ext B' a q p' v :
  moved m m' ext B' a q p' (Some v) -> placed m m' ext B' a q v.
Proof. intros [I' _ _ Hv Ho]. by split. Qed.

(** Changing a packet in place, the view becoming [w]. *)
Lemma set_placed m ext B B' a p q w :
  Inv m ext 0 B -> B <= B' < 2 ^ 31 -> pkts m !! a = Some p -> ext a = 1%nat -> Inv (set a q m) ext 0 B ->
  view_at (set a q m) a = Some w -> placed m (set a q m) ext B' a a w.
Proof.
  intros I HB Hp He I' Hw. split; [|done|].
  - eapply Inv_ext; [|by eapply (Inv_mono _ _ _ B)]. intros c. symmetry. by apply ext_move_self.
  - intros c Hc _. split; [done|]. by apply view_at_set_ne.
Qed.

Section simple.
Context (m : Mem) (ext : positive -> nat) (B : Z) (a : positive) (p : Packet) (v : view).
Context (I : Inv m ext 0 B) (Hp : pkts m !! a = Some p) (Hext : ext a = 1%nat) (Hv : view_at m a = Some v).
Context (HB : B + 1 < 2 ^ 31).

Lemma pull_ok n : 0 <= n -> placed m (set a (Packet_pull n p) m) ext (B + 1) a a (spec_drop n v).
Proof.
  intros Hn. destruct (packet_range m ext B a p I Hp) as (R1 & R2 & R3 & R4).
  pose proof (length_view _ _ _ _ _ _ I Hp Hv) as El.
  unfold Packet_pull. rewrite (length_eq m ext B a p I Hp).
  set (n' := Z.min n (Z.of_nat (length (v_bytes v)))).
  assert (En : (if _tail p - _data p <? n then _tail p - _data p else n) = n').
  { unfold n'. destruct (Z.ltb_spec (_tail p - _data p) n); lia. }
  rewrite En. fold (ranged p (_data p + n') (_tail p)).
  destruct (range_views m ext B a p (_data p + n') (_tail p) v I Hp Hv) as (w & Hw & _ & _ & W2 & _ & _ & Wn & Wh); [lia|lia|].
  replace (_data p - (_data p + n')) with (- n') in * by lia. replace (_data p + n' - _data p) with n' in * by lia.
  eapply set_placed; [done|lia|done|done|apply range_inv; (done || lia)|]. rewrite Hw. f_equal.
  unfold spec_drop. fold n'. rewrite <- Wn, <- Wh, <- W2 by lia. by destruct w.
Qed.

Lemma take_ok n : 0 <= n -> placed m (set a (Packet_take n p) m) ext (B + 1) a a (spec_take n v).
Proof.
  intros Hn. destruct (packet_range m ext B a p I Hp) as (R1 & R2 & R3 & R4).
  pose proof (length_view _ _ _ _ _ _ I Hp Hv) as El.
  unfold Packet_take. rewrite (length_eq m ext B a p I Hp).
  set (n' := Z.min n (Z.of_nat (length (v_bytes v)))).
  assert (En : (if _tail p - _data p <? n then _tail p - _data p else n) = n').
  { unfold n'. destruct (Z.ltb_spec (_tail p - _data p) n); lia. }
  rewrite En. fold (ranged p (_data p) (_tail p - n')).
  destruct (range_views m ext B a p (_data p) (_tail p - n') v I Hp Hv) as (w & Hw & _ & _ & _ & W3 & _ & Wn & Wh); [lia|lia|].
  assert (Hid : forall o : option Z, Z.add (_data p - _data p) <$> o = o) by (intros [x|]; simpl; [f_equal; lia|done]).
  rewrite Hid in Wn, Wh.
  eapply set_placed; [done|lia|done|done|apply range_inv; (done || lia)|]. rewrite Hw. f_equal.
  unfold spec_take. fold n'. rewrite <- Wn, <- Wh.
  replace (length (v_bytes v) - Z.to_nat n')%nat with (Z.to_nat (_tail p - n' - _data p)) by lia.
  rewrite <- W3 by lia. by destruct w.
Qed.

Lemma network_header_ok off len : (off + len <= length (v_bytes v))%nat ->
  exists q, set_network_header (_data p + Z.of_nat off) (Z.of_nat len) p = Ok q /\
    placed m (set a q m) ext (B + 1) a a
      (mkView (v_bytes v) (Some (Z.of_nat off)) (Some (Z.of_nat (off + len)))).
Proof.
  intros Hol. destruct (packet_range m ext B a p I Hp) as (R1 & R2 & R3 & R4).
  pose proof (length_view _ _ _ _ _ _ I Hp Hv) as El.
  unfold set_network_header. rewrite !(proj2 (Z.leb_le _ _)) by lia. cbn [andb]. eexists. split; [done|].
  destruct (s_shape _ _ _ _ (i_store _ _ _ _ I) a p Hp) as (b & bs & H1 & H2 & H3 & H4 & H5 & H6 & H7 & H8).
  eapply set_placed; [done|lia|done|done| |].
  - eapply inv_update; [done..|]. exists b, bs. simpl. split_and!; try done; try lia.
    intros h [= <-]. eexists. split; [done|]. lia.
  - unfold view_at. simpl. rewrite lookup_insert_eq. simpl. f_equal.
    unfold view_at in Hv. rewrite Hp in Hv. simpl in Hv. injection Hv as <-. unfold view_of. simpl.
    f_equal; f_equal; lia.
Qed.
End simple.

(** ** Moving the data in the buffer *)

Lemma land_7 z : 0 <= Z.land z 7 <= 7.
Proof. change 7 with (Z.ones 3) at 1 2. rewrite Z.land_ones by lia. change (2 ^ 3) with 8. divlia. Qed.

Section shift.
Context (m : Mem) (ext : positive -> nat) (B : Z) (a : positive) (p : Packet) (v : view) (o : Z).
Context (I : Inv m ext 0 B) (Hp : pkts m !! a = Some p) (Hext : ext a = 1%nat) (Hv : view_at m a = Some v).
Context (Hplain : forall c, (ext c <= 1)%nat) (HB : 2048 <= B) (HBo : B + 2 * Z.abs o + 9 < 2 ^ 31).
Context (Hhdr : 0 <= default 0 (v_nh v)).

Lemma shift_start_data : shift_start p = Some (_data p).
Proof.
  clear Hext Hplain HB HBo.
  destruct (s_shape _ _ _ _ (i_store _ _ _ _ I) a p Hp) as (b & bs & H1 & H2 & H3 & H4 & H5 & H6 & H7 & H8).
  unfold view_at in Hv. rewrite Hp in Hv. simpl in Hv. injection Hv as <-. simpl in Hhdr.
  unfold shift_start. rewrite H8. simpl.
  assert (Hn : earlier p (_nh p) (_data p) = false).
  { destruct (_nh p) as [x|]; [|done]. simpl in *. rewrite (proj2 (Z.ltb_ge _ _)) by lia. apply andb_false_r. }
  rewrite Hn. destruct (_h p) as [h|] eqn:Eh; [|done]. destruct (H7 h eq_refl) as (x & Ex & Hx).
  rewrite Ex in Hhdr. simpl in *. rewrite (proj2 (Z.ltb_ge _ _)) by lia. by rewrite andb_false_r.
Qed.

(** In place. *)
Lemma shift_in_place b bs :
  shared p = false -> _buf p = Some b -> bufs m !! b = Some bs -> _head p <= _data p + o -> _tail p + o <= _end p ->
  _end p <= Z.of_nat (length bs) ->
  let q := shift_header_annotations (_head p) o (ranged p (_data p + o) (_tail p + o)) in
  let bs' := written (Z.to_nat (_data p + o)) (slice (Z.to_nat (_data p)) (Z.to_nat (_tail p - _data p)) bs) bs in
  placed m (set a q (with_bufs (insert b bs') m)) ext (B + 2 * Z.abs o + 9) a a v.
Proof.
  intros Hs Hb Hbs H1 H2 Hl q bs'. destruct (packet_range m ext B a p I Hp) as (R1 & R2 & R3 & R4).
  pose proof (unshared_sole _ _ _ _ _ b I Hp Hext Hs Hb) as Hsole.
  assert (El : length (slice (Z.to_nat (_data p)) (Z.to_nat (_tail p - _data p)) bs) = Z.to_nat (_tail p - _data p)).
  { apply length_slice. lia. }
  assert (El' : length bs' = length bs) by (apply length_written; lia).
  pose proof (inv_write _ _ _ _ b bs bs' I Hbs El') as I1.
  assert (I2 : Inv (set a q (with_bufs (insert b bs') m)) ext 0 B).
  { eapply inv_update; [exact I1|exact Hp|done..|].
    destruct (s_shape _ _ _ _ (i_store _ _ _ _ I) a p Hp) as (x & xs & S1 & S2 & S3 & S4 & S5 & S6 & S7 & S8).
    assert (x = b) as -> by congruence. assert (xs = bs) as -> by congruence.
    exists b, bs'. simpl. rewrite lookup_insert_eq, El'. split_and!; try done; try lia.
    - intros h. destruct (_h p) as [h0|] eqn:Eh; [|done]. intros [= <-]. destruct (S7 h0 eq_refl) as (y & -> & Hy).
      simpl. eexists. split; [done|]. lia.
    - by rewrite S8. }
  split.
  - eapply Inv_ext; [|eapply (Inv_mono _ _ _ B); [lia|exact I2]]. intros c. symmetry. by apply ext_move_self.
  - unfold view_at. simpl. rewrite lookup_insert_eq. simpl. f_equal.
    rewrite (view_of_slice _ q b bs') by (done || apply lookup_insert_eq). simpl.
    unfold view_at in Hv. rewrite Hp in Hv. simpl in Hv. injection Hv as <-. rewrite (view_of_slice _ p b bs) by done.
    assert (Hx : forall x : option Z, (fun y => y - (_data p + o)) <$> (Z.add (_head p - _head p + o) <$> x) = (fun y => y - _data p) <$> x).
    { intros [x|]; simpl; [f_equal; lia|done]. }
    rewrite !Hx. f_equal. unfold bs'. replace (_tail p + o - (_data p + o)) with (_tail p - _data p) by lia.
    rewrite slice_of_written by lia. rewrite Nat.sub_diag. rewrite <- El at 1. apply slice_all.
  - intros c Hc _. split; [done|]. rewrite view_at_set_ne by done. apply view_at_same; [done|]. simpl.
    intros r x Hr Hx. rewrite lookup_insert_ne; [done|]. intros <-. by apply (Hsole c r).
Qed.

Lemma shift_data_ok :
  exists q m', shift_data false garbage addr o m a = Ok (q, m') /\ placed m m' ext (B + 2 * Z.abs o + 9) a q v.
Proof.
  destruct (packet_range m ext B a p I Hp) as (R1 & R2 & R3 & R4). unfold shift_data.
  destruct (Z.eqb_spec o 0) as [->|Ho].
  { exists a, m. split; [done|]. split; [|done|].
    - eapply Inv_ext; [|eapply (Inv_mono _ _ _ B); [lia|exact I]]. intros c. symmetry. by apply ext_move_self.
    - auto. }
  unfold get. rewrite Hp. cbn [of_option mbind res_bind]. rewrite shift_start_data.
  rewrite (tailroom_eq m ext B a p I Hp), (headroom_eq m ext B a p I Hp).
  destruct (s_shape _ _ _ _ (i_store _ _ _ _ I) a p Hp) as (b & bs & S1 & S2 & S3 & S4 & S5 & _).
  destruct (negb (shared p) && _) eqn:E.
  - apply andb_true_iff in E as [Es Ef]. apply negb_true_iff in Es. cbn [of_option mbind res_bind].
    assert (Hfit : _head p <= _data p + o /\ _tail p + o <= _end p).
    { destruct (Z.ltb_spec o 0); rewrite Z.leb_le in Ef; lia. }
    unfold get_buf. rewrite S1. cbn [of_option mbind res_bind]. rewrite S2. cbn [of_option mbind res_bind].
    rewrite read_range_ok by lia. cbn [mbind res_bind].
    fold (slice (Z.to_nat (_data p)) (Z.to_nat (_tail p - _data p)) bs).
    rewrite write_range_written by (rewrite ?length_slice by lia; lia). cbn [mbind res_bind].
    exists a. eexists. split; [done|]. apply (shift_in_place b bs); (done || lia).
  - rewrite S1. cbn [of_option mbind res_bind].
    set (et := if o <? 0 then - o else 0).
    set (eh := if (o <? 0) && (_data p - _head p <? u32 (- o)) then _ else _).
    assert (Het : 0 <= et <= Z.abs o) by (unfold et; destruct (Z.ltb_spec o 0); lia).
    assert (Heh : _head p - _data p <= eh <= Z.abs o + 7).
    { unfold eh. pose proof (land_7 (u64 (addr b + _data p + o))) as H7. pose proof (land_7 (u64 (addr b + _head p))) as H7'.
      revert H7 H7'. generalize (Z.land (u64 (addr b + _data p + o)) 7), (Z.land (u64 (addr b + _head p)) 7). intros x y Hx Hy.
      destruct (Z.ltb_spec o 0) as [Hneg|Hpos]; cbn [andb].
      - rewrite (u32_small (- o)) by lia. destruct (Z.ltb_spec (_data p - _head p) (- o)).
        + assert (Ei : i32 (u32 (- (_data p - _head p)) + x) = - (_data p - _head p) + x).
          { unfold i32, u32, uwrap. rewrite (swrap_eq_cong 32 _ (- (_data p - _head p) + x) (- (- (_data p - _head p) / 2 ^ 32))).
            - apply swrap_id; [lia|]. unfold in_s. lia.
            - rewrite Z.mod_eq by lia. lia. }
          rewrite Ei. lia.
        + rewrite i32_small by lia. lia.
      - rewrite i32_small by lia. lia. }
    destruct (expensive_uniqueify_ok m ext B a p I Hp Hext Hplain HB eh et (B + 2 * Z.abs o + 9))
      as (q & m' & p' & Eq & M & _); [lia|lia|lia|].
    exists q, m'. split; [exact Eq|]. rewrite Hv in M. by eapply moved_placed.
Qed.
End shift.
End ops.
