(* ===== verification/PacketsProps.v ===== *)
(** Theorems about packets: programs see independent packets, nothing is used
    after it is freed and nothing is leaked, in the default configuration;
    UniqueTee's packets are separate, whatever programs the elements behind its outputs
    run on theirs; where the threaded configuration and
    [shift_data] go wrong. *)

From stdpp Require Import gmap.
From S2P Require Import Prelude Packets PacketsInv PacketsOps.

Section sim.
Context (garbage : positive -> nat -> Z) (addr : positive -> Z).

(** ** Programs and their specification *)

(** Every reference from outside is a name's. *)
Record sim (ext : positive -> nat) (e : env) (m : Mem) (s : views) (B : Z) : Prop := {
  sim_inv : Inv m ext 0 B;
  sim_ext : forall a, ext a = 1%nat /\ (exists x, e !! x = Some a) \/ ext a = 0%nat /\ forall x, e !! x <> Some a;
  sim_inj : forall x y a, e !! x = Some a -> e !! y = Some a -> x = y;
  sim_dom : forall x, e !! x = None <-> s !! x = None;
  sim_view : forall x a, e !! x = Some a -> view_at m a = s !! x
}.

Lemma sim_held ext e m s B x a : sim ext e m s B -> e !! x = Some a -> ext a = 1%nat.
Proof. intros S Hx. destruct (sim_ext _ _ _ _ _ S a) as [[? _]|[_ H]]; [done|]. by destruct (H x). Qed.

Lemma sim_plain ext e m s B : sim ext e m s B -> forall a, (ext a <= 1)%nat.
Proof. intros S a. destruct (sim_ext _ _ _ _ _ S a) as [[-> _]|[-> _]]; lia. Qed.

Lemma sim_lookup ext e m s B x v : sim ext e m s B -> s !! x = Some v ->
  exists a p, e !! x = Some a /\ ext a = 1%nat /\ pkts m !! a = Some p /\ view_at m a = Some v.
Proof.
  intros S Hx. destruct (e !! x) as [a|] eqn:Ha.
  - pose proof (sim_held _ _ _ _ _ _ _ S Ha) as He.
    destruct (g_held _ _ (i_graph _ _ _ _ (sim_inv _ _ _ _ _ S)) a) as [p Hp]; [lia|].
    exists a, p. split_and!; try done. by rewrite (sim_view _ _ _ _ _ S x a Ha).
  - apply (sim_dom _ _ _ _ _ S) in Ha. congruence.
Qed.

Lemma sim_placed ext e m s B B' m' x a q v :
  sim ext e m s B -> e !! x = Some a -> placed m m' ext B' a q v ->
  exists ext', sim ext' (<[x := q]> e) m' (<[x := v]> s) B'.
Proof.
  intros S Hx [I' Hv Ho]. pose proof (sim_held _ _ _ _ _ _ _ S Hx) as Hea.
  assert (Hother : forall y c, e !! y = Some c -> y <> x -> c <> a /\ c <> q /\ view_at m' c = view_at m c).
  { intros y c Hy Hne. assert (c <> a) by (intros ->; by apply Hne, (sim_inj _ _ _ _ _ S y x a)).
    split; [done|]. apply Ho; [done|]. rewrite (sim_held _ _ _ _ _ _ _ S Hy). lia. }
  exists (ext_inc q (ext_dec a ext)). split.
  - done.
  - intros c. unfold ext_inc, ext_dec. destruct (decide (c = q)) as [->|Hcq].
    + left. split; [|exists x; apply lookup_insert_eq]. destruct (decide (q = a)) as [->|Hqa]; [rewrite Hea; done|].
      destruct (sim_ext _ _ _ _ _ S q) as [[Eq [y Hy]]|[Eq _]]; [|lia].
      destruct (decide (y = x)) as [->|]; [congruence|]. destruct (Hother y q Hy) as (_ & ? & _); done.
    + destruct (decide (c = a)) as [->|Hca].
      * right. split; [rewrite Hea; done|]. intros y [[_ E]|[Hne Hy]]%lookup_insert_Some; [congruence|].
        destruct (Hother y a Hy) as (? & _); done.
      * destruct (sim_ext _ _ _ _ _ S c) as [[Ec [y Hy]]|[Ec Hn]].
        -- left. split; [done|]. exists y. rewrite lookup_insert_ne; [done|]. congruence.
        -- right. split; [done|]. intros y [[_ E]|[_ Hy]]%lookup_insert_Some; [congruence|]. by apply (Hn y).
  - intros y z c [[<- <-]|[Hy1 Hy]]%lookup_insert_Some [[<- E]|[Hz1 Hz]]%lookup_insert_Some; try done.
    + destruct (Hother z q Hz) as (_ & ? & _); done.
    + subst c. destruct (Hother y q Hy) as (_ & ? & _); done.
    + by apply (sim_inj _ _ _ _ _ S y z c).
  - intros y. rewrite !lookup_insert_None. by rewrite (sim_dom _ _ _ _ _ S).
  - intros y c [[<- <-]|[Hne Hy]]%lookup_insert_Some; [by rewrite lookup_insert_eq|].
    rewrite lookup_insert_ne by done. destruct (Hother y c Hy) as (_ & _ & ->); [done|]. by apply (sim_view _ _ _ _ _ S).
Qed.

Lemma sim_added ext e m s B B' m' x q v :
  sim ext e m s B -> s !! x = None -> added m m' ext B' q v ->
  exists ext', sim ext' (<[x := q]> e) m' (<[x := v]> s) B'.
Proof.
  intros S Hx [I' Hnew Hv Ho].
  destruct (graph_absent _ _ _ (i_graph _ _ _ _ (sim_inv _ _ _ _ _ S)) Hnew) as [Eq _].
  assert (Hq : forall y, e !! y <> Some q).
  { intros y Hy. pose proof (sim_held _ _ _ _ _ _ _ S Hy). lia. }
  apply (sim_dom _ _ _ _ _ S) in Hx. exists (ext_inc q ext). split.
  - done.
  - intros c. unfold ext_inc. destruct (decide (c = q)) as [->|Hcq].
    + left. split; [lia|]. exists x. apply lookup_insert_eq.
    + destruct (sim_ext _ _ _ _ _ S c) as [[Ec [y Hy]]|[Ec Hn]].
      * left. split; [done|]. exists y. rewrite lookup_insert_ne; [done|]. congruence.
      * right. split; [done|]. intros y [[_ E]|[_ Hy]]%lookup_insert_Some; [congruence|]. by apply (Hn y).
  - intros y z c [[<- <-]|[Hy1 Hy]]%lookup_insert_Some [[<- E]|[Hz1 Hz]]%lookup_insert_Some; try done.
    + by destruct (Hq z).
    + subst c. by destruct (Hq y).
    + by apply (sim_inj _ _ _ _ _ S y z c).
  - intros y. rewrite !lookup_insert_None. by rewrite (sim_dom _ _ _ _ _ S).
  - intros y c [[<- <-]|[Hne Hy]]%lookup_insert_Some; [by rewrite lookup_insert_eq|].
    rewrite lookup_insert_ne by done. rewrite Ho; [by apply (sim_view _ _ _ _ _ S)|].
    apply (g_held _ _ (i_graph _ _ _ _ (sim_inv _ _ _ _ _ S))). rewrite (sim_held _ _ _ _ _ _ _ S Hy). lia.
Qed.

Lemma sim_kill ext e m s B m' x a :
  sim ext e m s B -> e !! x = Some a -> Inv m' (ext_dec a ext) 0 B -> framed m m' ->
  sim (ext_dec a ext) (delete x e) m' (delete x s) B.
Proof.
  intros S Hx I' F. pose proof (sim_held _ _ _ _ _ _ _ S Hx) as Hea.
  assert (Hother : forall y c, e !! y = Some c -> y <> x -> c <> a).
  { intros y c Hy Hne ->. by apply Hne, (sim_inj _ _ _ _ _ S y x a). }
  split.
  - done.
  - intros c. unfold ext_dec. destruct (decide (c = a)) as [->|Hca].
    + right. split; [by rewrite Hea|]. intros y [Hne Hy]%lookup_delete_Some. by destruct (Hother y a Hy).
    + destruct (sim_ext _ _ _ _ _ S c) as [[Ec [y Hy]]|[Ec Hn]].
      * left. split; [done|]. exists y. rewrite lookup_delete_ne; [done|]. congruence.
      * right. split; [done|]. intros y [_ Hy]%lookup_delete_Some. by apply (Hn y).
  - intros y z c [_ Hy]%lookup_delete_Some [_ Hz]%lookup_delete_Some. by apply (sim_inj _ _ _ _ _ S y z c).
  - intros y. rewrite !lookup_delete_None. by rewrite (sim_dom _ _ _ _ _ S).
  - intros y c [Hne Hy]%lookup_delete_Some. rewrite lookup_delete_ne by done.
    rewrite (framed_view _ _ c F); [by apply (sim_view _ _ _ _ _ S)|].
    apply (g_held _ _ (i_graph _ _ _ _ I')). unfold ext_dec. rewrite decide_False by (by apply (Hother y)).
    rewrite (sim_held _ _ _ _ _ _ _ S Hy). lia.
Qed.

Lemma sim_mono ext e m s B B' : B <= B' < 2 ^ 31 -> sim ext e m s B -> sim ext e m s B'.
Proof. intros H [I1 I2 I3 I4 I5]. split; try done. by eapply Inv_mono. Qed.

(** The one reference to the packet an operation returns. *)
Lemma moved_ext (ext : positive -> nat) (a q : positive) (P : positive -> Prop) :
  ext a = 1%nat -> (forall c, (ext c <= 1)%nat) -> (forall c, c <> a -> (1 <= ext c)%nat -> c <> q /\ P c) ->
  ext_inc q (ext_dec a ext) q = 1%nat.
Proof.
  intros Ha Hpl Ho. unfold ext_inc, ext_dec. rewrite decide_True by done.
  destruct (decide (q = a)) as [->|Hne]; [by rewrite Ha|].
  destruct (ext q) eqn:E; [done|]. destruct (Ho q Hne) as [? _]; [lia|done].
Qed.

(** Writing into the packet an operation has returned. *)
Lemma write_placed m m' ext B' a q p' off src w :
  ext a = 1%nat -> (forall c, (ext c <= 1)%nat) ->
  Inv m' (ext_inc q (ext_dec a ext)) 0 B' -> pkts m' !! q = Some p' -> shared p' = false -> view_at m' q = Some w ->
  (forall c, c <> a -> (1 <= ext c)%nat -> c <> q /\ view_at m' c = view_at m c) ->
  0 <= off -> off + Z.of_nat (length src) <= _tail p' - _data p' ->
  exists m'', write_data m' q off src = Ok m'' /\
    placed m m'' ext B' a q (mkView (written (Z.to_nat off) src (v_bytes w)) (v_nh w) (v_h w)).
Proof.
  intros Ha Hpl I' Hp' Hs' Hw Ho H0 H1.
  destruct (write_data_ok m' _ B' q p' off src w I' Hp') as (m'' & E & I'' & _ & Hv'' & Ho''); try done.
  { by apply (moved_ext ext a q (fun c => view_at m' c = view_at m c)). }
  exists m''. split; [done|]. split; [done|done|]. intros c Hc Hce. destruct (Ho c Hc Hce) as [Hcq Ec].
  split; [done|]. by rewrite Ho''.
Qed.

Lemma written_front (src bs : bytes) : written 0 src bs = src ++ drop (length src) bs.
Proof. done. Qed.

Lemma written_back n (src bs : bytes) : length bs = (n + length src)%nat -> written n src bs = take n bs ++ src.
Proof. intros H. unfold written. rewrite (drop_ge bs) by lia. by rewrite app_nil_r. Qed.

Section step.
Context (ext : positive -> nat) (e : env) (m : Mem) (s s' : views) (B : Z).
Context (S : sim ext e m s B) (HB : 2048 <= B).

Let I : Inv m ext 0 B := sim_inv _ _ _ _ _ S.
Let Hpl : forall c, (ext c <= 1)%nat := sim_plain _ _ _ _ _ S.

Definition step_ok (o : op) : Prop :=
  spec_step o s = Some s' -> B + op_cost o < 2 ^ 31 ->
  exists ext' e' m', exec false garbage addr o (e, m) = Ok (e', m') /\ sim ext' e' m' s' (B + op_cost o).

Lemma lookup_env_ok x a : e !! x = Some a -> lookup_env e x = Ok a.
Proof. intros H. unfold lookup_env. by rewrite H. Qed.

Lemma step_make x data : step_ok (Make x data).
Proof.
  intros Hs Hc. cbn [op_cost spec_step] in *. apply bind_Some in Hs as (H & _ & [= <-]).
  destruct (make_ok garbage data m ext B I HB) as (a & m' & E & A); [lia|].
  destruct (sim_added _ _ _ _ _ _ _ x _ _ S H A) as [ext' S'].
  exists ext'. eexists. exists m'. cbn [exec]. rewrite E. cbn [mbind res_bind]. split; [done|].
  by replace (B + (29 + Z.of_nat (length data))) with (B + 29 + Z.of_nat (length data)) by lia.
Qed.

Lemma step_make_destructor x data : step_ok (MakeDestructor x data).
Proof.
  intros Hs Hc. cbn [op_cost spec_step] in *. apply bind_Some in Hs as (H & _ & [= <-]).
  destruct (make_destructor false data m) as [a m'] eqn:E.
  pose proof (make_destructor_ok data m ext B a m' I ltac:(lia) E) as A.
  destruct (sim_added _ _ _ _ _ _ _ x _ _ S H A) as [ext' S'].
  exists ext'. eexists. exists m'. cbn [exec]. rewrite ?E. split; [done|].
  eapply sim_mono; [|exact S']. lia.
Qed.

Lemma step_clone x y : step_ok (Clone x y).
Proof.
  intros Hs Hc. cbn [op_cost spec_step] in *. apply bind_Some in Hs as (v & Hx & (H & _ & [= <-])%bind_Some).
  destruct (sim_lookup _ _ _ _ _ _ _ S Hx) as (a & p & Ha & He & Hp & Hv).
  destruct (clone_ok m ext B a I) as (q & m' & p0 & E & Hp0 & A & _); [lia|lia|].
  assert (p0 = p) as -> by congruence. unfold view_at in Hv. rewrite Hp in Hv. injection Hv as <-.
  destruct (sim_added _ _ _ _ _ _ _ y _ _ S H A) as [ext' S'].
  exists ext'. eexists. exists m'. cbn [exec]. rewrite (lookup_env_ok x a Ha). cbn [mbind res_bind].
  rewrite E. cbn [mbind res_bind]. split; [done|]. eapply sim_mono; [|exact S']. lia.
Qed.

Lemma step_kill x : step_ok (Kill x).
Proof.
  intros Hs Hc. cbn [op_cost spec_step] in *. apply bind_Some in Hs as (v & Hx & [= <-]).
  destruct (sim_lookup _ _ _ _ _ _ _ S Hx) as (a & p & Ha & He & Hp & Hv).
  destruct (kill_ok addr m ext 0 B a I) as (m' & E & I' & F).
  { split; [lia|]. intros c _. apply Hpl. }
  exists (ext_dec a ext). eexists. exists m'. cbn [exec]. rewrite (lookup_env_ok x a Ha). cbn [mbind res_bind].
  rewrite E. cbn [mbind res_bind]. split; [done|].
  apply (sim_mono _ _ _ _ B); [lia|]. by eapply sim_kill.
Qed.

Lemma step_uniqueify x : step_ok (Uniqueify x).
Proof.
  intros Hs Hc. cbn [op_cost spec_step] in *. apply bind_Some in Hs as (v & Hx & [= <-]).
  destruct (sim_lookup _ _ _ _ _ _ _ S Hx) as (a & p & Ha & He & Hp & Hv).
  destruct (uniqueify_ok garbage addr m ext B a p I Hp He Hpl HB Hc) as (q & m' & p' & E & M).
  rewrite Hv in M. destruct (sim_placed _ _ _ _ _ _ _ x a _ _ S Ha (moved_placed _ _ _ _ _ _ _ _ M)) as [ext' S'].
  exists ext'. eexists. exists m'. cbn [exec]. rewrite (lookup_env_ok x a Ha). cbn [mbind res_bind].
  rewrite E. cbn [mbind res_bind]. split; [done|]. by rewrite (insert_id s) in S' by done.
Qed.

Lemma step_write x off data : step_ok (Write x off data).
Proof.
  intros Hs Hc. cbn [op_cost spec_step] in *. apply bind_Some in Hs as (v & Hx & (H & _ & [= <-])%bind_Some).
  destruct (sim_lookup _ _ _ _ _ _ _ S Hx) as (a & p & Ha & He & Hp & Hv).
  destruct (uniqueify_ok garbage addr m ext B a p I Hp He Hpl HB Hc) as (q & m' & p' & E & [I' Hp' Hs' Hv' Ho']).
  rewrite Hv in Hv'. pose proof (length_view _ _ _ _ _ _ I' Hp' Hv') as El.
  destruct (write_placed m m' ext (B + 2) a q p' (Z.of_nat off) data _ He Hpl I' Hp' Hs' Hv' Ho') as (m'' & E' & P); [lia|lia|].
  destruct (sim_placed _ _ _ _ _ _ _ x a _ _ S Ha P) as [ext' S'].
  exists ext'. eexists. exists m''. cbn [exec]. rewrite (lookup_env_ok x a Ha). cbn [mbind res_bind].
  rewrite E. cbn [mbind res_bind]. rewrite E'. cbn [mbind res_bind]. split; [done|]. by rewrite Nat2Z.id in S'.
Qed.

Lemma step_push x data : step_ok (Push x data).
Proof.
  intros Hs Hc. cbn [op_cost spec_step] in *. apply bind_Some in Hs as (v & Hx & [= <-]).
  destruct (sim_lookup _ _ _ _ _ _ _ S Hx) as (a & p & Ha & He & Hp & Hv).
  set (n := Z.of_nat (length data)) in *.
  destruct (push_ok garbage addr m ext B a p v n I Hp He Hv Hpl HB) as (q & m' & w & E & (I' & (p' & Hp' & Hs' & Ep') & Hw & Elw & Ho') & W1 & W2 & W3); [lia|lia|].
  destruct (write_placed m m' ext (B + 130 + n) a q p' 0 data w He Hpl I' Hp' Hs' Hw Ho') as (m'' & E' & P); [lia|lia|].
  destruct (sim_placed _ _ _ _ _ _ _ x a _ _ S Ha P) as [ext' S'].
  exists ext'. eexists. exists m''. cbn [exec]. rewrite (lookup_env_ok x a Ha). cbn [mbind res_bind]. fold n.
  rewrite E. cbn [mbind res_bind]. rewrite E'. cbn [mbind res_bind]. split; [done|].
  change (Z.to_nat 0) with 0%nat in S'. rewrite written_front in S'.
  replace (length data) with (Z.to_nat n) in S' by lia. rewrite W1, W2, W3 in S'.
  eapply sim_mono; [|exact S']. lia.
Qed.

Lemma step_put x data : step_ok (Put x data).
Proof.
  intros Hs Hc. cbn [op_cost spec_step] in *. apply bind_Some in Hs as (v & Hx & [= <-]).
  destruct (sim_lookup _ _ _ _ _ _ _ S Hx) as (a & p & Ha & He & Hp & Hv).
  set (n := Z.of_nat (length data)) in *.
  destruct (put_ok garbage addr m ext B a p v n I Hp He Hv Hpl HB) as (q & m' & w & E & (I' & (p' & Hp' & Hs' & Ep') & Hw & Elw & Ho') & W1 & W2 & W3); [lia|lia|].
  destruct (write_placed m m' ext (B + 130 + n) a q p' (Z.of_nat (length (v_bytes v))) data w He Hpl I' Hp' Hs' Hw Ho')
    as (m'' & E' & P); [lia|lia|].
  destruct (sim_placed _ _ _ _ _ _ _ x a _ _ S Ha P) as [ext' S'].
  exists ext'. eexists. exists m''. cbn [exec]. rewrite (lookup_env_ok x a Ha). cbn [mbind res_bind]. fold n.
  rewrite E. cbn [mbind res_bind]. unfold get. rewrite Hp'. cbn [of_option mbind res_bind].
  rewrite (length_eq _ _ _ _ _ I' Hp'), Ep'.
  replace (Z.of_nat (length (v_bytes v)) + n - n) with (Z.of_nat (length (v_bytes v))) by lia.
  rewrite E'. cbn [mbind res_bind]. split; [done|].
  rewrite Nat2Z.id, written_back, W1, W2, W3 in S' by lia. eapply sim_mono; [|exact S']. lia.
Qed.

(** The operations that change the packet's record only. *)
Lemma step_record x a p f B' w :
  e !! x = Some a -> pkts m !! a = Some p -> placed m (set a f m) ext B' a a w -> B' <= B + 2 < 2 ^ 31 ->
  exists ext', sim ext' e (set a f m) (<[x := w]> s) (B + 2).
Proof.
  intros Ha Hp P HB'. destruct (sim_placed _ _ _ _ _ _ _ x a _ _ S Ha P) as [ext' S'].
  exists ext'. rewrite insert_id in S' by done. eapply sim_mono; [|exact S']. lia.
Qed.

Lemma step_pull x n : step_ok (Pull x n).
Proof.
  intros Hs Hc. cbn [op_cost spec_step] in *. apply bind_Some in Hs as (v & Hx & (H & _ & [= <-])%bind_Some).
  destruct (sim_lookup _ _ _ _ _ _ _ S Hx) as (a & p & Ha & He & Hp & Hv).
  pose proof (pull_ok m ext B a p v I Hp He Hv ltac:(lia) n ltac:(lia)) as P.
  destruct (step_record x a p _ _ _ Ha Hp P) as [ext' S']; [lia|].
  exists ext', e. eexists. split; [|exact S']. cbn [exec]. rewrite (lookup_env_ok x a Ha). cbn [mbind res_bind].
  unfold update_packet, get. rewrite Hp. done.
Qed.

Lemma step_take x n : step_ok (Take x n).
Proof.
  intros Hs Hc. cbn [op_cost spec_step] in *. apply bind_Some in Hs as (v & Hx & (H & _ & [= <-])%bind_Some).
  destruct (sim_lookup _ _ _ _ _ _ _ S Hx) as (a & p & Ha & He & Hp & Hv).
  pose proof (take_ok m ext B a p v I Hp He Hv ltac:(lia) n ltac:(lia)) as P.
  destruct (step_record x a p _ _ _ Ha Hp P) as [ext' S']; [lia|].
  exists ext', e. eexists. split; [|exact S']. cbn [exec]. rewrite (lookup_env_ok x a Ha). cbn [mbind res_bind].
  unfold update_packet, get. rewrite Hp. done.
Qed.

Lemma step_network_header x off len : step_ok (NetworkHeader x off len).
Proof.
  intros Hs Hc. cbn [op_cost spec_step] in *. apply bind_Some in Hs as (v & Hx & (H & _ & [= <-])%bind_Some).
  destruct (sim_lookup _ _ _ _ _ _ _ S Hx) as (a & p & Ha & He & Hp & Hv).
  destruct (network_header_ok m ext B a p _ I Hp He Hv ltac:(lia) off len) as (q & Eq & P); [lia|].
  destruct (step_record x a p _ _ _ Ha Hp P) as [ext' S']; [lia|].
  exists ext', e. eexists. split; [|exact S']. cbn [exec]. rewrite (lookup_env_ok x a Ha). cbn [mbind res_bind].
  unfold update_packet, get. rewrite Hp. cbn [of_option mbind res_bind]. by rewrite Eq.
Qed.

Lemma step_shift x o : step_ok (Shift x o).
Proof.
  intros Hs Hc. cbn [op_cost spec_step] in *. apply bind_Some in Hs as (v & Hx & (H & _ & [= <-])%bind_Some).
  destruct (sim_lookup _ _ _ _ _ _ _ S Hx) as (a & p & Ha & He & Hp & Hv).
  destruct (shift_data_ok garbage addr m ext B a p _ o I Hp He Hv Hpl HB ltac:(lia) ltac:(done)) as (q & m' & E & P).
  destruct (sim_placed _ _ _ _ _ _ _ x a _ _ S Ha P) as [ext' S'].
  exists ext'. eexists. exists m'. cbn [exec]. rewrite (lookup_env_ok x a Ha). cbn [mbind res_bind].
  rewrite E. cbn [mbind res_bind]. split; [done|]. rewrite (insert_id s) in S' by done.
  eapply sim_mono; [|exact S']. lia.
Qed.

Lemma exec_op_ok o : step_ok o.
Proof.
  destruct o; [apply step_make|apply step_make_destructor|apply step_clone|apply step_kill|apply step_uniqueify|
    apply step_write|apply step_push|apply step_put|apply step_pull|apply step_take|apply step_network_header|
    apply step_shift].
Qed.
End step.
End sim.

(** ** Runs *)

Lemma sim_start : sim (fun _ => 0%nat) ∅ mem_start ∅ 2048.
Proof.
  assert (Hnil : forall (P : Prop) (x : positive), x ∈ ([] : list positive) -> P) by (intros P x H; by apply elem_of_nil in H).
  split; [split|..].
  - split; [done|done| |by exists (fun _ => 0%nat)]. intros a H. simpl in H. lia.
  - split; simpl; [done|done|apply NoDup_nil_2|intros b Hb; by apply (Hnil _ b)|intros b Hb; by apply (Hnil _ b)|done].
  - split; simpl; [apply NoDup_nil_2|intros b Hb; by apply (Hnil _ b)|done..].
  - split; simpl; [intros a [? H]; done|intros a [? H]; done|intros b Hb; by apply (Hnil _ b)].
  - done.
  - intros a. right. split; [done|]. intros x. by rewrite lookup_empty.
  - intros x y a. by rewrite lookup_empty.
  - intros x. by rewrite !lookup_empty.
  - intros x a. by rewrite lookup_empty.
Qed.

Lemma program_cost_nonneg os : 0 <= program_cost os.
Proof. induction os as [|o os IH]; simpl; [lia|]. destruct o; simpl; lia. Qed.

Lemma run_packets_ok garbage addr os ext e m s s' B :
  sim ext e m s B -> spec_all os s = Some s' -> 2048 <= B -> B + program_cost os < 2 ^ 31 ->
  exists ext' e' m', exec_all false garbage addr os (e, m) = Ok (e', m') /\ sim ext' e' m' s' (B + program_cost os).
Proof.
  revert ext e m s B. induction os as [|o os IH]; intros ext e m s B S Hs HB Hc;
    cbn [exec_all spec_all program_cost] in *.
  - injection Hs as <-. exists ext, e, m. split; [done|]. by rewrite Z.add_0_r.
  - apply bind_Some in Hs as (s1 & H1 & Hs).
    assert (0 <= op_cost o) by (destruct o; simpl; lia).
    pose proof (program_cost_nonneg os).
    destruct (exec_op_ok garbage addr ext e m s s1 B S HB o H1) as (ext1 & e1 & m1 & E1 & S1); [lia|].
    rewrite E1. cbn [mbind res_bind]. destruct (IH ext1 e1 m1 s1 (B + op_cost o) S1 Hs) as (ext' & e' & m' & E' & S'); [lia|lia|].
    exists ext', e', m'. split; [exact E'|]. by rewrite Z.add_assoc.
Qed.

Lemma run_ok garbage addr os s :
  spec_all os ∅ = Some s -> 2048 + program_cost os < 2 ^ 31 ->
  exists ext e m, exec_all false garbage addr os (∅, mem_start) = Ok (e, m) /\ sim ext e m s (2048 + program_cost os).
Proof. intros Hs Hc. by apply (run_packets_ok _ _ _ _ _ _ _ _ _ sim_start). Qed.

(** Without references from outside there are no packets. *)
Lemma graph_empty ps ext : Graph ps ext -> (forall a, ext a = 0%nat) -> ps = ∅.
Proof.
  intros G He. destruct (g_rank _ _ G) as [rank Hrank].
  destruct (decide (ps = ∅)) as [|Hne]; [done|]. exfalso.
  assert (Hup : forall n, exists a, is_Some (ps !! a) /\ (n <= rank a)%nat).
  { induction n as [|n (a & [p Hp] & Hn)].
    - apply map_choose in Hne as (a & p & Hp). exists a. split; [eauto|lia].
    - destruct (g_count _ _ G a p Hp) as [_ Hc]. rewrite He in Hc.
      apply (proj1 (refs_pos ps a)) in Hc as (c & q & Hq & Hd). exists c. split; [eauto|].
      specialize (Hrank c q a Hq Hd). lia. }
  destruct (Hup (S (max_list (rank <$> (map_to_list ps).*1)))) as (a & [p Hp] & Hn).
  assert (Hin : rank a ∈ rank <$> (map_to_list ps).*1).
  { apply list_elem_of_fmap_2, list_elem_of_fmap. exists (a, p). split; [done|]. by apply elem_of_map_to_list. }
  apply max_list_elem_of_le in Hin. lia.
Qed.

Lemma delete_arrays_ok l m :
  NoDup l -> (forall b, b ∈ l -> is_Some (bufs m !! b)) ->
  exists bf, delete_arrays m l = Ok (with_bufs (fun _ => bf) m) /\
    forall b, bf !! b = if decide (b ∈ l) then None else bufs m !! b.
Proof.
  revert m. induction l as [|x l IH]; intros m Hnd Hl; cbn [delete_arrays].
  - exists (bufs m). split; [by destruct m|]. intros b. rewrite decide_False; [done|]. apply not_elem_of_nil.
  - apply NoDup_cons in Hnd as [Hx Hnd].
    destruct (Hl x) as [bs Hbs]; [apply elem_of_cons; by left|].
    rewrite (delete_array_ok _ _ bs) by done. cbn [mbind res_bind].
    destruct (IH (with_bufs (delete x) m) Hnd) as (bf & E & Hbf).
    { intros b Hb. simpl. rewrite lookup_delete_ne by (intros ->; done). apply Hl, elem_of_cons. by right. }
    exists bf. split; [by rewrite E|]. intros b. rewrite Hbf. simpl.
    destruct (decide (b = x)) as [->|Hne].
    + rewrite (decide_True (P := x ∈ x :: l)) by (apply elem_of_cons; by left).
      destruct (decide (x ∈ l)); [done|apply lookup_delete_eq].
    + rewrite lookup_delete_ne by done.
      destruct (decide (b ∈ l)) as [Hb|Hb].
      * by rewrite decide_True by (apply elem_of_cons; by right).
      * rewrite decide_False; [done|]. rewrite elem_of_cons. tauto.
Qed.

Lemma sim_names ext e m s B a : sim ext e m s B -> ext a = size (filter (fun kv => kv.2 = a) e).
Proof.
  intros S. destruct (sim_ext _ _ _ _ _ S a) as [[-> [x Hx]]|[-> Hn]].
  - assert (Ef : filter (fun kv => kv.2 = a) e = {[x := a]}).
    { apply map_eq. intros y. destruct (decide (y = x)) as [->|Hne].
      - rewrite lookup_singleton_eq. by apply map_lookup_filter_Some.
      - rewrite lookup_singleton_ne by done. apply map_lookup_filter_None. right. intros c Hy Hc. simpl in Hc. subst c.
        by apply Hne, (sim_inj _ _ _ _ _ S y x a). }
    by rewrite Ef, map_size_singleton.
  - assert (Ef : filter (fun kv => kv.2 = a) e = ∅).
    { apply map_empty. intros y. apply map_lookup_filter_None. right. intros c Hy Hc. simpl in Hc. subst c. by apply (Hn y). }
    by rewrite Ef, map_size_empty.
Qed.

(** At the end of a program that has killed its packets. *)
Lemma cleanup_ok ext e m B : sim ext e m ∅ B ->
  pkts m = ∅ /\ exists m', static_cleanup false m = Ok m' /\ bufs m' = ∅.
Proof.
  intros S. pose proof (sim_inv _ _ _ _ _ S) as I. pose proof (i_store _ _ _ _ I) as St.
  assert (Hps : pkts m = ∅).
  { apply (graph_empty _ ext); [apply I|]. intros a. destruct (sim_ext _ _ _ _ _ S a) as [[_ [x Hx]]|[-> _]]; [|done].
    pose proof (proj2 (sim_dom _ _ _ _ _ S x) (lookup_empty x)). congruence. }
  split; [done|]. destruct (i_pool _ _ _ _ I) as [P1 P2 P3 P4 P5 P6].
  destruct (delete_arrays_ok (pp_pd (packet_pool m)) m) as (bf & E & Hbf); [apply St|..].
  { intros b Hb. destruct (s_pd _ _ _ _ St b Hb) as (bs & Hbs & _). eauto. }
  unfold static_cleanup, cleanup_pool. rewrite E. cbn [mbind res_bind]. rewrite Nat.add_0_r in P3.
  rewrite !(proj2 (Z.eqb_eq _ _)), !(proj2 (Z.leb_le _ _)) by done. cbn [andb mbind res_bind].
  eexists. split; [done|]. simpl. apply map_empty. intros b. rewrite Hbf.
  destruct (decide (b ∈ pp_pd (packet_pool m))) as [|Hb]; [done|].
  destruct (bufs m !! b) as [bs|] eqn:Eb; [|done].
  destruct (s_all _ _ _ _ St b bs Eb) as [_ [H|(a & p & Hp & _)]]; [done|]. rewrite Hps, lookup_empty in Hp. done.
Qed.

(** ** The properties *)

(** C17: In the default configuration, without threads, whatever a program does
    with packets -- making, cloning and killing them, pushing, putting, pulling and
    taking bytes, writing through [uniqueify], marking headers, moving the data --
    every name keeps the bytes and header offsets of an independent value: no
    operation faults, uses a packet or buffer that was freed, or changes another
    packet, however buffers are shared and reused.  Buffers stay below 2^31 bytes,
    and a packet is moved ([shift_data]) only while its network header is not in
    front of its data: a header in the headroom can be lost, against what
    packet.hh says. *)
Theorem packets_refine garbage addr os s :
  spec_all os ∅ = Some s -> 2048 + program_cost os < 2 ^ 31 ->
  exists e m, exec_all false garbage addr os (∅, mem_start) = Ok (e, m) /\
    (forall x, s !! x = None -> e !! x = None) /\
    (forall x v, s !! x = Some v -> exists a, e !! x = Some a /\ view_at m a = Some v).
Proof.
  intros Hs Hc. destruct (run_ok garbage addr os s Hs Hc) as (ext & e & m & E & S). exists e, m.
  split; [exact E|]. split; [intros x; apply S|].
  intros x v Hx. destruct (sim_lookup _ _ _ _ _ _ _ S Hx) as (a & p & Ha & _ & _ & Hv). eauto.
Qed.

Definition share_program : list op :=
  [Make 0 [1; 2; 3; 4]; Clone 0 1; NetworkHeader 1 1 2; Pull 0 1; Push 1 [9; 8]; Write 0 0 [7]; Clone 1 2;
   Shift 2 3; Put 2 [5; 6]; Kill 1; Take 0 1].

Lemma packets_refine_witness :
  exists e m, exec_all false (fun _ _ => 0) (fun b => 16 * Zpos b) share_program (∅, mem_start) = Ok (e, m) /\
    exists a b, e !! 0%nat = Some a /\ e !! 2%nat = Some b /\ view_at m a = Some (mkView [7; 3] None None) /\
      view_at m b = Some (mkView [9; 8; 1; 2; 3; 4; 5; 6] (Some 3) (Some 5)).
Proof.
  destruct (packets_refine (fun _ _ => 0) (fun b => 16 * Zpos b) share_program
    {[0%nat := mkView [7; 3] None None; 2%nat := mkView [9; 8; 1; 2; 3; 4; 5; 6] (Some 3) (Some 5)]})
    as (e & m & E & _ & H); [vm_compute; reflexivity|vm_compute; reflexivity|].
  exists e, m. split; [exact E|].
  destruct (H 0%nat (mkView [7; 3] None None)) as (a & Ha & Va); [vm_compute; reflexivity|].
  destruct (H 2%nat (mkView [9; 8; 1; 2; 3; 4; 5; 6] (Some 3) (Some 5))) as (b & Hb & Vb); [vm_compute; reflexivity|].
  exists a, b. auto.
Defined.

(** C18: Without threads ([HAVE_MULTITHREAD] off; the threaded pools lose count), and
    while buffers stay below 2^31 bytes and no packet is moved whose network header
    lies in front of its data, the counts are exact at every point of a program: a
    packet's [_use_count]
    is the number of names and clones that refer to it, a packet that is not
    shared is the only one with its buffer, and every buffer is a live packet's or
    in the pool, never both.  When every packet has been killed, none is left,
    and [static_cleanup] passes its assertions and frees every buffer. *)
Theorem packets_counted garbage addr os s :
  spec_all os ∅ = Some s -> 2048 + program_cost os < 2 ^ 31 ->
  exists e m, exec_all false garbage addr os (∅, mem_start) = Ok (e, m) /\
    (forall a p, pkts m !! a = Some p ->
       _use_count p = Z.of_nat (size (filter (fun kv => kv.2 = a) e)
                                + size (filter (fun kv => _data_packet kv.2 = Some a) (pkts m)))) /\
    (forall a c p q, pkts m !! a = Some p -> pkts m !! c = Some q -> shared p = false -> (exists x, e !! x = Some a) ->
       _buf p = _buf q -> a = c) /\
    (forall b, is_Some (bufs m !! b) <->
       b ∈ pp_pd (packet_pool m) \/ exists a p, pkts m !! a = Some p /\ _buf p = Some b) /\
    (forall b a p, b ∈ pp_pd (packet_pool m) -> pkts m !! a = Some p -> _buf p <> Some b) /\
    (s = ∅ -> pkts m = ∅ /\ exists m', static_cleanup false m = Ok m' /\ bufs m' = ∅).
Proof.
  intros Hs Hc. destruct (run_ok garbage addr os s Hs Hc) as (ext & e & m & E & S).
  pose proof (sim_inv _ _ _ _ _ S) as I. pose proof (i_store _ _ _ _ I) as St. exists e, m.
  split; [exact E|]. split_and!.
  - intros a p Hp. destruct (inv_count _ _ _ _ _ _ I Hp) as [-> _]. f_equal. f_equal.
    by eapply (sim_names ext e m s).
  - intros a c p q Hp Hq Hsh [x Hx] Hb. destruct (decide (c = a)) as [|Hne]; [done|].
    destruct (s_shape _ _ _ _ St a p Hp) as (b & bs & Hb' & _).
    pose proof (sim_held _ _ _ _ _ _ _ S Hx) as He.
    destruct (unshared_sole _ _ _ _ _ b I Hp He Hsh Hb' c q Hq Hne). congruence.
  - intros b. split.
    + intros [bs Hbs]. destruct (s_all _ _ _ _ St b bs Hbs) as [_ [H|(a & p & Hp & _ & Hb)]]; eauto.
    + intros [H|(a & p & Hp & Hb)].
      * destruct (s_pd _ _ _ _ St b H) as (bs & Hbs & _). eauto.
      * destruct (s_shape _ _ _ _ St a p Hp) as (b' & bs & Hb' & Hbs & _). assert (b' = b) as -> by congruence. eauto.
  - intros b a p Hb Hp. by apply (s_free _ _ _ _ St b Hb a p).
  - intros ->. by eapply (cleanup_ok ext e m).
Qed.

Lemma packets_counted_witness :
  exists e m, exec_all false (fun _ _ => 0) (fun b => 16 * Zpos b) (share_program ++ [Kill 0; Kill 2]) (∅, mem_start) = Ok (e, m) /\
    pkts m = ∅ /\ exists m', static_cleanup false m = Ok m' /\ bufs m' = ∅.
Proof.
  destruct (packets_counted (fun _ _ => 0) (fun b => 16 * Zpos b) (share_program ++ [Kill 0; Kill 2]) ∅)
    as (e & m & E & _ & _ & _ & _ & H); [vm_compute; reflexivity|vm_compute; reflexivity|].
  exists e, m. split; [exact E|]. exact (H eq_refl).
Defined.

(** *** UniqueTee *)

(** The names of an operation; it does not touch others. *)
Definition op_names (o : op) : list nat :=
  match o with
  | Make x _ | MakeDestructor x _ | Kill x | Uniqueify x | Write x _ _ | Push x _ | Put x _ | Pull x _ | Take x _
  | NetworkHeader x _ _ | Shift x _ => [x]
  | Clone x y => [x; y]
  end.
Definition program_names (os : list op) : list nat := concat (map op_names os).

(** A step that puts a packet under the name [y] or takes a name away. *)
Lemma frame_insert (z y : nat) (E : env) (c : res (positive * Mem)) :
  z <> y ->
  (let* (q, m) := c in Ok (<[y := q]> (delete z E), m)) =
    (let* r := (let* (q, m) := c in Ok (<[y := q]> E, m)) in Ok (delete z r.1, r.2)) /\
  forall r, (let* (q, m) := c in Ok (<[y := q]> E, m)) = Ok r -> r.1 !! z = E !! z.
Proof.
  intros Hy. destruct c as [[q m]|f]; cbn [mbind res_bind fst snd]; [|done]. split; [by rewrite delete_insert_ne|].
  intros r [= <-]. cbn [fst]. by rewrite lookup_insert_ne.
Qed.

Lemma frame_keep (z : nat) (E : env) (c : res Mem) :
  (let* m := c in Ok (delete z E, m)) = (let* r := (let* m := c in Ok (E, m)) in Ok (delete z r.1, r.2)) /\
  forall r, (let* m := c in Ok (E, m)) = Ok r -> r.1 !! z = E !! z.
Proof. destruct c as [m|f]; cbn [mbind res_bind fst snd]; [|done]. split; [done|]. by intros r [= <-]. Qed.

Lemma frame_delete (z x : nat) (E : env) (c : res Mem) :
  z <> x ->
  (let* m := c in Ok (delete x (delete z E), m)) = (let* r := (let* m := c in Ok (delete x E, m)) in Ok (delete z r.1, r.2)) /\
  forall r, (let* m := c in Ok (delete x E, m)) = Ok r -> r.1 !! z = E !! z.
Proof.
  intros Hx. destruct c as [m|f]; cbn [mbind res_bind fst snd]; [|done]. split; [by rewrite delete_delete|].
  intros r [= <-]. cbn [fst]. by rewrite lookup_delete_ne.
Qed.

Lemma exec_frame garbage addr z o E m :
  z ∉ op_names o ->
  exec false garbage addr o (delete z E, m) = (let* r := exec false garbage addr o (E, m) in Ok (delete z r.1, r.2)) /\
  forall r, exec false garbage addr o (E, m) = Ok r -> r.1 !! z = E !! z.
Proof.
  intros Hz. assert (Hl : forall x, z <> x -> lookup_env (delete z E) x = lookup_env E x)
    by (intros x Hx; unfold lookup_env; by rewrite lookup_delete_ne).
  destruct o; cbn [op_names] in Hz; apply not_elem_of_cons in Hz as [Hx Hz]; cbn [exec]; rewrite ?(Hl _ Hx);
    try (destruct (lookup_env E x) as [a|f]; cbn [mbind res_bind]; [|done]).
  - by apply frame_insert.
  - destruct (make_destructor false data m) as [a m1]. by apply (frame_insert z x E (Ok (a, m1))).
  - apply not_elem_of_cons in Hz as [Hy _]. by apply frame_insert.
  - by apply frame_delete.
  - by apply frame_insert.
  - destruct (uniqueify _ _ _ _ _) as [[q m1]|f]; cbn [mbind res_bind]; [|done].
    destruct (write_data _ _ _ _) as [m2|f]; [|done]. by apply (frame_insert z x E (Ok (q, m2))).
  - destruct (Packet_push _ _ _ _ _ _) as [[q m1]|f]; cbn [mbind res_bind]; [|done].
    destruct (write_data _ _ _ _) as [m2|f]; [|done]. by apply (frame_insert z x E (Ok (q, m2))).
  - destruct (Packet_put _ _ _ _ _ _) as [[q m1]|f]; cbn [mbind res_bind]; [|done].
    destruct (get _ _) as [p|f]; cbn [mbind res_bind]; [|done].
    destruct (write_data _ _ _ _) as [m2|f]; [|done]. by apply (frame_insert z x E (Ok (q, m2))).
  - apply frame_keep.
  - apply frame_keep.
  - apply frame_keep.
  - by apply frame_insert.
Qed.

Lemma exec_all_frame garbage addr z os E m :
  z ∉ program_names os ->
  exec_all false garbage addr os (delete z E, m) = (let* r := exec_all false garbage addr os (E, m) in Ok (delete z r.1, r.2)) /\
  forall r, exec_all false garbage addr os (E, m) = Ok r -> r.1 !! z = E !! z.
Proof.
  revert E m. induction os as [|o os IH]; intros E m Hz; cbn [exec_all]; [split; [done|by intros r [= <-]]|].
  unfold program_names in Hz. cbn [map concat] in Hz. apply not_elem_of_app in Hz as [Ho Hz].
  destruct (exec_frame garbage addr z o E m Ho) as [-> Hk].
  destruct (exec false garbage addr o (E, m)) as [[E1 m1]|f]; cbn [mbind res_bind fst snd]; [|done].
  destruct (IH E1 m1 Hz) as [-> Hr]. split; [done|]. intros r Hall. rewrite (Hr r Hall). by apply (Hk (E1, m1)).
Qed.

Lemma spec_step_frame z o (S s1 : views) :
  z ∉ op_names o -> spec_step o (delete z S) = Some s1 ->
  exists S1, spec_step o S = Some S1 /\ delete z S1 = s1 /\ S1 !! z = S !! z.
Proof.
  intros Hz Hs. destruct o; cbn [op_names] in Hz; repeat setoid_rewrite not_elem_of_cons in Hz; destruct_and? Hz;
    cbn [spec_step] in *; repeat (rewrite lookup_delete_ne in Hs by done);
    repeat match type of Hs with
    | mbind _ ?c = Some _ => destruct c eqn:?; cbn [mbind option_bind] in *; [|done]
    end; simplify_eq/=; eexists; split; try reflexivity;
    rewrite ?delete_insert_ne by done; rewrite ?lookup_insert_ne, ?lookup_delete_ne by done; split; try done.
  by rewrite delete_delete.
Qed.

Lemma spec_all_frame z os (S s1 : views) :
  z ∉ program_names os -> spec_all os (delete z S) = Some s1 ->
  exists S1, spec_all os S = Some S1 /\ delete z S1 = s1 /\ S1 !! z = S !! z.
Proof.
  revert S. induction os as [|o os IH]; intros S Hz; cbn [spec_all]; [intros [= <-]; by exists S|].
  unfold program_names in Hz. cbn [map concat] in Hz. apply not_elem_of_app in Hz as [Ho Hz].
  intros (s0 & Hs & Hall)%bind_Some. destruct (spec_step_frame z o S s0 Ho Hs) as (S0 & -> & <- & E0). cbn [mbind option_bind].
  destruct (IH S0 Hz Hall) as (S1 & -> & <- & E1). exists S1. split_and!; [done|done|congruence].
Qed.

(** A packet gets another name. *)
Lemma sim_rename ext e m s B x y a v :
  sim ext e m s B -> e !! x = Some a -> s !! x = Some v -> delete x s !! y = None ->
  sim ext (<[y := a]> (delete x e)) m (<[y := v]> (delete x s)) B.
Proof.
  intros S Hx Hv Hy.
  assert (Hother : forall z c, delete x e !! z = Some c -> e !! z = Some c /\ z <> x /\ c <> a).
  { intros z c [Hne Hz]%lookup_delete_Some. split_and!; [done|done|]. intros ->. by apply Hne, (sim_inj _ _ _ _ _ S x z a). }
  split.
  - apply S.
  - intros c. destruct (sim_ext _ _ _ _ _ S c) as [[Ec [z Hz]]|[Ec Hn]].
    + left. split; [done|]. destruct (decide (c = a)) as [->|Hca]; [exists y; apply lookup_insert_eq|].
      exists z. assert (z <> x) by congruence.
      rewrite lookup_insert_ne; [by rewrite lookup_delete_ne|]. intros ->.
      rewrite lookup_delete_ne in Hy by done. apply (sim_dom _ _ _ _ _ S) in Hy. congruence.
    + right. split; [done|]. intros z [[_ E]|[_ Hz]]%lookup_insert_Some; [subst c; by apply (Hn x)|].
      apply Hother in Hz as (Hz & _). by apply (Hn z).
  - intros z1 z2 c [[<- <-]|[H1 Hz1]]%lookup_insert_Some [[<- E]|[H2 Hz2]]%lookup_insert_Some; try done.
    + by apply Hother in Hz2 as (_ & _ & ?).
    + subst c. by apply Hother in Hz1 as (_ & _ & ?).
    + apply Hother in Hz1 as (Hz1 & _), Hz2 as (Hz2 & _). by apply (sim_inj _ _ _ _ _ S z1 z2 c).
  - intros z. rewrite !lookup_insert_None, !lookup_delete_None, (sim_dom _ _ _ _ _ S z). done.
  - intros z c [[<- <-]|[Hne Hz]]%lookup_insert_Some; [rewrite lookup_insert_eq, <- Hv; by apply (sim_view _ _ _ _ _ S)|].
    rewrite lookup_insert_ne by done. apply Hother in Hz as (Hz & Hzx & _). rewrite lookup_delete_ne by done.
    by apply (sim_view _ _ _ _ _ S).
Qed.

(** An element that takes a packet, which it relies on not being shared if [own], under
    the name [y] and goes on with a program, at the end of which it may have kept it. *)
Definition receive (garbage : positive -> nat -> Z) (addr : positive -> Z) (own : bool) (r : nat * list op)
    (s : env * Mem) (q : positive) : res (env * Mem) :=
  let* p := get s.2 q in
  assert* negb (own && shared p);
  exec_all false garbage addr r.2 (<[r.1 := q]> s.1, s.2).

(** What UniqueTee promises: every program starts with a value of its own. *)
Fixpoint tee_spec (programs : list (nat * list op)) (v : view) (s : views) : option views :=
  match programs with
  | [] => Some s
  | (y, os) :: programs => guard (s !! y = None);; s ← spec_all os (<[y := v]> s); tee_spec programs v s
  end.

Fixpoint tee_cost (programs : list (nat * list op)) : Z :=
  match programs with
  | [] => 0
  | (_, os) :: programs => 3 + program_cost os + tee_cost programs
  end.

Definition tee_names (programs : list (nat * list op)) : list nat :=
  concat (map (fun r => r.1 :: program_names r.2) programs).

Lemma tee_cost_nonneg programs : 0 <= tee_cost programs.
Proof. induction programs as [|[y os] programs IH]; simpl; [lia|]. pose proof (program_cost_nonneg os). lia. Qed.

Section tee.
Context (garbage : positive -> nat -> Z) (addr : positive -> Z).

(** The program of one output, while the tee has the packet [a] under the name [z]. *)
Lemma receive_ok own z y os ext E m S s1 B q w p :
  sim ext (<[y := q]> E) m (<[y := w]> S) B -> pkts m !! q = Some p -> (own = true -> shared p = false) ->
  z ∉ y :: program_names os -> spec_all os (<[y := w]> (delete z S)) = Some s1 ->
  2048 <= B -> B + program_cost os < 2 ^ 31 ->
  exists ext' E' m' S', receive garbage addr own (y, os) (delete z E, m) q = Ok (delete z E', m') /\
    sim ext' E' m' S' (B + program_cost os) /\ delete z S' = s1 /\ S' !! z = S !! z /\ E' !! z = E !! z.
Proof.
  intros Hsim Hp Hown [Hzy Hz]%not_elem_of_cons Hs HB Hc.
  rewrite <- delete_insert_ne in Hs by done. destruct (spec_all_frame z os _ _ Hz Hs) as (S' & Hall & Hd & HSz).
  destruct (run_packets_ok garbage addr os _ _ _ _ _ _ Hsim Hall HB Hc) as (ext' & E' & m' & Ex & Hsim').
  exists ext', E', m', S'. unfold receive. cbn [fst snd]. unfold get. rewrite Hp. cbn [of_option mbind res_bind].
  assert (own && shared p = false) as -> by (destruct own; [by rewrite Hown|done]). cbn [negb].
  rewrite <- delete_insert_ne by done. destruct (exec_all_frame garbage addr z os (<[y := q]> E) m Hz) as [-> Hk].
  rewrite Ex. split_and!; try done.
  - by rewrite HSz, lookup_insert_ne.
  - specialize (Hk _ Ex). cbn [fst] in Hk. by rewrite Hk, lookup_insert_ne.
Qed.

Lemma tee_loop_ext {W} f g i n (w : W) m a :
  (forall j, (i <= j)%nat -> f j = g j) -> UniqueTee_loop false garbage addr f i n w m a = UniqueTee_loop false garbage addr g i n w m a.
Proof.
  revert i w m. induction n as [|n IH]; intros i w m Hf; cbn [UniqueTee_loop]; rewrite (Hf i) by lia; [done|].
  destruct (clone _ _ _) as [[q m1]|]; [|done]. cbn [mbind res_bind]. destruct (uniqueify _ _ _ _ _) as [[q' m2]|]; [|done].
  cbn [mbind res_bind]. destruct (g i _ _) as [[w3 m3]|]; [|done]. cbn [mbind res_bind]. apply IH. intros j Hj. apply Hf. lia.
Qed.

Lemma tee_loop_ok programs r last i n ext E m S s' B z a v :
  programs = r ++ [last] -> length r = n ->
  sim ext E m S B -> E !! z = Some a -> S !! z = Some v -> z ∉ tee_names programs ->
  tee_spec programs v (delete z S) = Some s' -> 2048 <= B -> B + tee_cost programs < 2 ^ 31 ->
  exists ext' e' m',
    UniqueTee_loop false garbage addr
      (fun j => receive garbage addr (j <? i + n)%nat (default (0%nat, []) (programs !! (j - i)%nat))) i n (delete z E) m a = Ok (e', m') /\
    sim ext' e' m' s' (B + tee_cost programs).
Proof.
  revert r i n ext E m S B. induction programs as [|[y os] programs IH]; intros r i n ext E m S B Hr Hn Hsim Ha Hv Hz Hs HB Hlt.
  { by destruct r. }
  cbn [tee_spec tee_cost] in *. apply bind_Some in Hs as (Hy & _ & (s1 & Hs1 & Hs)%bind_Some).
  unfold tee_names in Hz. cbn [map concat fst snd] in Hz. apply (not_elem_of_app (y :: program_names os)) in Hz as [Hz1 Hz].
  pose proof Hz1 as [Hzy _]%not_elem_of_cons. pose proof (program_cost_nonneg os). pose proof (tee_cost_nonneg programs).
  destruct (sim_lookup _ _ _ _ _ _ _ Hsim Hv) as (a' & p & Ha' & He & Hp & Hva). assert (a' = a) as -> by congruence.
  destruct r as [|r0 r]; cbn [app] in Hr; injection Hr as Hr0 Hr; cbn [length] in Hn.
  - subst n programs. cbn [UniqueTee_loop]. rewrite Nat.sub_diag, Nat.add_0_r, Nat.ltb_irrefl. cbn [lookup list_lookup default].
    pose proof (sim_rename _ _ _ _ _ z y a v Hsim Ha Hv Hy) as Hsim1.
    destruct (run_packets_ok garbage addr os _ _ _ _ _ _ Hsim1 Hs1 HB) as (ext' & e' & m' & Ex & Hsim'); [lia|].
    cbn [tee_spec] in Hs. injection Hs as <-. exists ext', e', m'. unfold receive. cbn [fst snd]. unfold get.
    rewrite Hp. cbn [of_option mbind res_bind andb negb]. split; [exact Ex|]. eapply sim_mono; [|exact Hsim']. lia.
  - subst n. cbn [UniqueTee_loop].
    assert (HSy : S !! y = None) by (by rewrite lookup_delete_ne in Hy by done).
    destruct (clone_ok m ext B a (sim_inv _ _ _ _ _ Hsim)) as (q & m1 & p0 & E1 & Hp0 & A & Hq1); [lia|lia|].
    assert (p0 = p) as -> by congruence. unfold view_at in Hva. rewrite Hp in Hva. injection Hva as Hva. rewrite Hva in A.
    destruct (sim_added _ _ _ _ _ _ _ y _ _ Hsim HSy A) as [ext1 Hsim1]. rewrite E1. cbn [mbind res_bind].
    destruct (sim_lookup _ _ _ _ _ y v Hsim1) as (q' & p1 & Hq & He1 & Hp1 & Hv1); [apply lookup_insert_eq|].
    rewrite lookup_insert_eq in Hq. injection Hq as <-.
    destruct (uniqueify_ok garbage addr m1 ext1 (B + 1) q p1 (sim_inv _ _ _ _ _ Hsim1) Hp1 He1 (sim_plain _ _ _ _ _ Hsim1))
      as (w & m2 & p2 & E2 & M); [lia|lia|]. rewrite E2. cbn [mbind res_bind]. rewrite Hv1 in M.
    destruct (sim_placed _ _ _ _ _ _ _ y q _ _ Hsim1 (lookup_insert_eq _ _ _) (moved_placed _ _ _ _ _ _ _ _ M)) as [ext2 Hsim2].
    rewrite !insert_insert_eq in Hsim2.
    destruct M as [_ Hp2 Hsh2 _ _].
    destruct (receive_ok (i <? i + Datatypes.S (length r))%nat z y os ext2 E m2 S s1 (B + 1 + 2) w v p2 Hsim2 Hp2 (fun _ => Hsh2) Hz1 Hs1)
      as (ext3 & E3 & m3 & S3 & Ex3 & Hsim3 & Hd3 & HSz & HEz); [lia|lia|].
    rewrite Nat.sub_diag. change (default (0%nat, []) (((y, os) :: programs) !! 0%nat)) with (y, os). rewrite Ex3. cbn [mbind res_bind].
    rewrite Ha in HEz. rewrite Hv in HSz. rewrite <- Hd3 in Hs.
    destruct (IH r (Datatypes.S i) (length r) ext3 E3 m3 S3 (B + 1 + 2 + program_cost os)) as (ext' & e' & m' & Ex & Hsim'); try done; [lia|lia|].
    exists ext', e', m'. split.
    + rewrite <- Ex. apply tee_loop_ext. intros j Hj. replace (i + Datatypes.S (length r))%nat with (Datatypes.S i + length r)%nat by lia.
      by replace (j - i)%nat with (Datatypes.S (j - Datatypes.S i)) by lia.
    + by replace (B + (3 + program_cost os + tee_cost programs)) with (B + 1 + 2 + program_cost os + tee_cost programs) by lia.
Qed.
End tee.

(** C31: UniqueTee gives every output a packet of its own.  Behind each output, an element
    takes the packet and goes on with any program on packets: it may write, clone, kill
    or keep it.  All but the last may rely on the packet not being shared.  Whatever
    the programs do, everything is as if each of them had started with an independent
    value with the bytes and headers of the input, and the packets that were there
    before had stayed with their owners: no operation faults, none sees another's
    writes, and when all has been killed no packet is left.  As for packets in general,
    this is without threads, while buffers stay below 2^31 bytes, and for packets whose
    network header is not in front of their data when they are moved. *)
Theorem unique_tee_separate garbage addr os s x v programs s' :
  spec_all os ∅ = Some s -> s !! x = Some v -> programs <> [] -> tee_spec programs v (delete x s) = Some s' ->
  2048 + program_cost os + tee_cost programs < 2 ^ 31 ->
  exists e m a e' m', exec_all false garbage addr os (∅, mem_start) = Ok (e, m) /\ e !! x = Some a /\
    UniqueTee_push false garbage addr
      (fun i => receive garbage addr (S i <? length programs)%nat (default (0%nat, []) (programs !! i)))
      (length programs) (delete x e) m a = Ok (e', m') /\
    (forall y, s' !! y = None -> e' !! y = None) /\
    (forall y w, s' !! y = Some w -> exists b, e' !! y = Some b /\ view_at m' b = Some w) /\
    (s' = ∅ -> pkts m' = ∅).
Proof.
  intros Hs Hx Hne Ht Hlt. pose proof (program_cost_nonneg os). pose proof (tee_cost_nonneg programs).
  destruct (run_ok garbage addr os s Hs) as (ext & e & m & E & S); [lia|].
  destruct (sim_lookup _ _ _ _ _ _ _ S Hx) as (a & p & Ha & He & Hp & Hv).
  set (z := fresh (dom (delete x s) ∪ list_to_set (tee_names programs) : gset nat)).
  assert (Hz : z ∉ (dom (delete x s) ∪ list_to_set (tee_names programs) : gset nat)) by apply is_fresh.
  apply not_elem_of_union in Hz as [Hz1 Hz2]. rewrite not_elem_of_dom in Hz1. rewrite elem_of_list_to_set in Hz2.
  pose proof (sim_rename _ _ _ _ _ x z a v S Ha Hx Hz1) as Sz.
  assert (exists r last, programs = r ++ [last]) as (r & last & Hr).
  { destruct (exists_last Hne) as (r & last & ->). by exists r, last. }
  assert (Hl : length programs = Datatypes.S (length r)) by (rewrite Hr, length_app; cbn; lia).
  destruct (tee_loop_ok garbage addr programs r last 0 (length r) ext _ m _ s' (2048 + program_cost os) z a v Hr eq_refl Sz)
    as (ext' & e' & m' & Ex & S'); try done; try lia.
  { apply lookup_insert_eq. } { apply lookup_insert_eq. }
  { rewrite delete_insert_id; done. }
  exists e, m, a, e', m'. split; [done|]. split; [done|]. split_and!.
  - rewrite Hl. cbn [UniqueTee_push]. rewrite delete_insert_id in Ex.
    + rewrite <- Ex. apply tee_loop_ext. intros j Hj. by rewrite Nat.sub_0_r.
    + apply lookup_delete_None. apply lookup_delete_None in Hz1 as [Hz1|Hz1]; [by left|]. right. by apply (sim_dom _ _ _ _ _ S).
  - intros y. apply S'.
  - intros y w Hy. destruct (sim_lookup _ _ _ _ _ _ _ S' Hy) as (b & q & Hb & _ & _ & Hvb). eauto.
  - intros ->. by destruct (cleanup_ok _ _ _ _ S').
Qed.

(** Three outputs: the first writes into its packet and keeps it, the second writes and
    kills, the third puts a byte in front. *)
Definition demo_outputs : list (nat * list op) :=
  [(2%nat, [Write 2 0 [5]]); (3%nat, [Write 3 1 [6]; Kill 3]); (0%nat, [Push 0 [9]])].

Lemma unique_tee_separate_witness :
  exists e m a e' m', exec_all false (fun _ _ => 0) (fun b => 16 * Zpos b) [Make 0 [1; 2]; Clone 0 1] (∅, mem_start) = Ok (e, m) /\
    e !! 0%nat = Some a /\
    UniqueTee_push false (fun _ _ => 0) (fun b => 16 * Zpos b)
      (fun i => receive (fun _ _ => 0) (fun b => 16 * Zpos b) (S i <? 3)%nat (default (0%nat, []) (demo_outputs !! i)))
      3 (delete 0%nat e) m a = Ok (e', m') /\
    (exists b, e' !! 0%nat = Some b /\ view_at m' b = Some (mkView [9; 1; 2] None None)) /\
    (exists b, e' !! 1%nat = Some b /\ view_at m' b = Some (mkView [1; 2] None None)) /\
    (exists b, e' !! 2%nat = Some b /\ view_at m' b = Some (mkView [5; 2] None None)) /\ e' !! 3%nat = None.
Proof.
  destruct (unique_tee_separate (fun _ _ => 0) (fun b => 16 * Zpos b) [Make 0 [1; 2]; Clone 0 1]
    (<[1%nat := mkView [1; 2] None None]> (<[0%nat := mkView [1; 2] None None]> ∅)) 0 (mkView [1; 2] None None) demo_outputs
    {[0%nat := mkView [9; 1; 2] None None; 1%nat := mkView [1; 2] None None; 2%nat := mkView [5; 2] None None]})
    as (e & m & a & e' & m' & E & Ha & E' & Hn & H & _).
  - reflexivity.
  - reflexivity.
  - discriminate.
  - vm_compute. reflexivity.
  - vm_compute. reflexivity.
  - exists e, m, a, e', m'. split; [exact E|]. split; [exact Ha|]. split; [exact E'|].
    split; [apply H; reflexivity|]. split; [apply H; reflexivity|]. split; [apply H; reflexivity|apply Hn; reflexivity].
Defined.

(** ** Where packets go wrong *)

(** A packet, a thousand clones of it -- the last a clone of a clone -- and all of
    them killed. *)
Definition clone_program : list op :=
  Make 0 [1; 2] :: map (Clone 0) (seq 1 999) ++ [Clone 999 1000] ++ map Kill (seq 1 998) ++
  [Kill 0; Kill 999; Kill 1000].

(** Then three packets more, and one of them killed. *)
Definition crash_program : list op := clone_program ++ [Make 0 []; Clone 0 1; Clone 0 2; Kill 2].

(** Memory that happens to be zero, and blocks at multiples of 16. *)
Definition zero_memory (b : positive) (i : nat) : Z := 0.
Definition aligned (b : positive) : Z := 16 * Zpos b.

(** Packets left, the count of the pool, its length, and whether
    [static_cleanup] fails an assertion. *)
Definition pool_report (s : env * Mem) : nat * Z * nat * bool :=
  let m := s.2 in
  (size (pkts m), pp_pcount (packet_pool m), length (pp_p (packet_pool m)),
   match static_cleanup true m with Fault AssertFailed => true | _ => false end).

(** In the threaded configuration the pools lose count, on one thread: when
    killing a clone also frees the packet it was made of and the pool is flushed to
    the global pool in between, the pool counts fewer objects than it holds.  A
    program that is one by the specification then fails an assertion of [recycle];
    and [static_cleanup] fails its own when the packets have all been killed. *)
Theorem threaded_pool_miscounts :
  is_Some (spec_all crash_program ∅) /\
  exec_all true zero_memory aligned crash_program (∅, mem_start) = Fault AssertFailed /\
  pool_report <$> exec_all true zero_memory aligned clone_program (∅, mem_start) = Ok (0%nat, 1, 3%nat, true).
Proof.
  split; [apply (bool_decide_unpack _); vm_compute; exact Logic.I|].
  split; vm_compute; reflexivity.
Qed.

(** A packet whose network header was pulled off, and a clone of it; the packet is
    moved. *)
Definition shift_program : list op :=
  [Make 0 (replicate 100 7); NetworkHeader 0 0 30; Pull 0 40; Clone 0 1; Shift 0 (-50)].

(** The first byte of the buffer, the network and transport headers of packet 0, and
    what moving it by one byte more does. *)
Definition header_report (s : env * Mem) : res (Z * option Z * option Z * option fault) :=
  let '(e, m) := s in
  let* a := lookup_env e 0 in
  let* p := get m a in
  Ok (_head p, _nh p, _h p,
      match shift_data false zero_memory aligned 1 m a with Fault f => Some f | Ok _ => None end).

(** [shift_data] says that it preserves the headers of a packet, also in the
    headroom.  On a shared packet it does not: the part of the headroom that the
    copy leaves out may hold the network header, whose pointer then lies before the
    new buffer; moving the packet once more reads from there. *)
Theorem shift_data_loses_header :
  (let* s := exec_all false zero_memory aligned shift_program (∅, mem_start) in header_report s) =
  Ok (0, Some (-22), Some 8, Some OutOfBounds).
Proof. vm_compute. reflexivity. Qed.
