(* ===== verification/ConfParse.v ===== *)
(** * ConfParse: configuration strings

    Models the part of lib/confparse.cc and lib/args.cc that a configuration string
    goes through: comments and quotes ([cp_uncomment], [cp_unquote], [cp_quote]),
    arguments at commas and words at spaces ([cp_argvec], [cp_spacevec]), and the
    class [Args] with the parsers of integers, truth values and strings.

    A pointer into a string is an index; a function on the range between two
    pointers has the string as an argument and its end is the string's.  As in the
    code an index may run past the end (an unterminated comment is skipped by two
    characters more than there may be), and [substring] is then empty. *)

From S2P Require Import Prelude.

(** ** Characters *)

Notation c_tab := 9 (only parsing).
Notation c_nl := 10 (only parsing).
Notation c_cr := 13 (only parsing).
Notation c_space := 32 (only parsing).
Notation c_dquote := 34 (only parsing).
Notation c_dollar := 36 (only parsing).
Notation c_squote := 39 (only parsing).
Notation c_star := 42 (only parsing).
Notation c_comma := 44 (only parsing).
Notation c_slash := 47 (only parsing).
Notation c_lt := 60 (only parsing).
Notation c_gt := 62 (only parsing).
Notation c_backslash := 92 (only parsing).

Definition between (lo hi c : Z) : bool := (lo <=? c) && (c <=? hi).
Definition isspace (c : Z) : bool := (c =? c_space) || between 9 13 c.
Definition isdigit (c : Z) : bool := between 48 57 c.
Definition isalpha (c : Z) : bool := between 65 90 c || between 97 122 c.
Definition isalnum (c : Z) : bool := isalpha c || isdigit c.

(** [for (; cond (s); s++)] *)
Fixpoint advance (cond : nat -> bool) (fuel s : nat) : nat :=
  match fuel with
  | S fuel => if cond s then advance cond fuel (S s) else s
  | O => s
  end.

Section text.
Context (str : bytes).

Definition chr (s : nat) : Z := default 0 (str !! s).

(** [String::substring] of two pointers *)
Definition substring (b e : nat) : bytes :=
  if ((b <? e) && (e <=? length str))%nat then take (e - b) (drop b str) else [].

Definition before_end (s : nat) : bool := (s <? length str)%nat.

Definition cp_skip_space (s : nat) : nat := advance (fun s => before_end s && isspace (chr s)) (length str) s.

Definition is_eol (c : Z) : bool := (c =? c_nl) || (c =? c_cr).

(** Is there a comment at [s]? *)
Definition comment_at (s : nat) : bool :=
  (chr s =? c_slash) && before_end (s + 1) && ((chr (s + 1) =? c_slash) || (chr (s + 1) =? c_star)).

Definition skip_comment (s : nat) : nat :=
  if chr (s + 1) =? c_slash then
    let s := advance (fun s => before_end (s + 1) && negb (is_eol (chr s))) (length str) (s + 2) in
    let s := if before_end (s + 1) && (chr s =? c_cr) && (chr (s + 1) =? c_nl) then S s else s in
    S s
  else
    let s := advance (fun s => before_end (s + 2) && (negb (chr s =? c_star) || negb (chr (s + 1) =? c_slash)))
               (length str) (s + 2) in
    (s + 2)%nat.

Fixpoint skip_angle (fuel s : nat) : nat :=
  match fuel with
  | O => s
  | S fuel =>
      if negb (before_end s) then s
      else if chr s =? c_gt then S s
      else if comment_at s then skip_angle fuel (skip_comment s)
      else skip_angle fuel (S s)
  end.

Definition skip_backslash (s : nat) : nat :=
  if negb (before_end (s + 1)) then S s
  else if chr (s + 1) =? c_lt then skip_angle (length str) (s + 2)
  else if (chr (s + 1) =? c_cr) && before_end (s + 2) && (chr (s + 2) =? c_nl) then (s + 3)%nat
  else (s + 2)%nat.

Fixpoint skip_double_quote (fuel s : nat) : nat :=
  match fuel with
  | O => s
  | S fuel =>
      if negb (before_end s) then length str
      else if chr s =? c_backslash then skip_double_quote fuel (skip_backslash s)
      else if chr s =? c_dquote then S s
      else skip_double_quote fuel (S s)
  end.

(** [begin] is at the opening quote. *)
Definition cp_skip_double_quote (begin : nat) : nat := skip_double_quote (length str) (S begin).

Definition skip_single_quote (s : nat) : nat :=
  let s := advance (fun s => before_end s && negb (chr s =? c_squote)) (length str) (S s) in
  if before_end s then S s else length str.

Fixpoint skip_comment_space (fuel s : nat) : nat :=
  match fuel with
  | O => s
  | S fuel =>
      if negb (before_end s) then s
      else if isspace (chr s) then skip_comment_space fuel (S s)
      else if comment_at s then skip_comment_space fuel (skip_comment s)
      else s
  end.
Definition cp_skip_comment_space (s : nat) : nat := skip_comment_space (length str) s.

(** The text between [lpos] and [rpos] is not in [sa] yet; [closed] says that a
    comment has ended it. *)
Fixpoint uncomment_loop (stop_at_comma : bool) (fuel s lpos rpos : nat) (closed : bool) (sa : bytes) : bytes * nat :=
  match fuel with
  | O => (sa ++ substring lpos rpos, s)
  | S fuel =>
      if negb (before_end s) then (sa ++ substring lpos rpos, s)
      else if isspace (chr s) then uncomment_loop stop_at_comma fuel (S s) lpos rpos closed sa
      else if comment_at s then uncomment_loop stop_at_comma fuel (skip_comment s) lpos rpos true sa
      else if (chr s =? c_comma) && stop_at_comma then (sa ++ substring lpos rpos, s)
      else
        let '(lpos, sa) := if closed then (s, sa ++ substring lpos rpos ++ [c_space]) else (lpos, sa) in
        let s :=
          if chr s =? c_squote then skip_single_quote s
          else if chr s =? c_dquote then cp_skip_double_quote s
          else if (chr s =? c_backslash) && before_end (s + 1) && (chr (s + 1) =? c_lt) then skip_backslash s
          else S s in
        uncomment_loop stop_at_comma fuel s lpos s false sa
  end.

(** The text from [i] on, and where it ends: at a comma, if that is asked for. *)
Definition partial_uncomment (i : nat) (stop_at_comma : bool) : bytes * nat :=
  let s := cp_skip_comment_space i in
  uncomment_loop stop_at_comma (length str) s s s false [].

(** ** Backslash escapes *)

Definition hex_value (c : Z) : option Z :=
  if isdigit c then Some (c - 48)
  else if between 65 70 c then Some (c - 55)
  else if between 97 102 c then Some (c - 87)
  else None.

Fixpoint octal_escape (fuel s d : nat) (c : Z) : Z * nat :=
  match fuel with
  | S fuel =>
      if before_end s && between 48 55 (chr s) && (d <? 3)%nat
      then octal_escape fuel (S s) (S d) (c * 8 + chr s - 48) else (c, s)
  | O => (c, s)
  end.

Fixpoint hex_escape (fuel s : nat) (c : Z) : Z * nat :=
  match fuel with
  | S fuel =>
      if before_end s then
        match hex_value (chr s) with
        | Some v => hex_escape fuel (S s) (c * 16 + v)
        | None => (c, s)
        end
      else (c, s)
  | O => (c, s)
  end.

Fixpoint angle_escape (fuel s : nat) (d c : Z) (sa : bytes) : bytes * nat :=
  match fuel with
  | S fuel =>
      if negb (before_end s) then (sa, length str)
      else if chr s =? c_gt then (sa, S s)
      else
        match hex_value (chr s) with
        | Some v =>
            if d + 1 =? 2 then angle_escape fuel (S s) 0 0 (sa ++ [uwrap 8 (c * 16 + v)])
            else angle_escape fuel (S s) (d + 1) (c * 16 + v) sa
        | None => angle_escape fuel (if comment_at s then skip_comment s else S s) d c sa
        end
  | O => (sa, length str)
  end.

(** What an escape at [begin] adds, and where it ends. *)
Definition cp_process_backslash (begin : nat) : bytes * nat :=
  if (begin =? length str - 1)%nat then ([c_backslash], length str)
  else
    let c := chr (begin + 1) in
    if c =? c_cr then
      ([], if before_end (begin + 2) && (chr (begin + 2) =? c_nl) then (begin + 3)%nat else (begin + 2)%nat)
    else if c =? c_nl then ([], (begin + 2)%nat)
    else if c =? 97 (* a *) then ([7], (begin + 2)%nat)
    else if c =? 98 (* b *) then ([8], (begin + 2)%nat)
    else if c =? 102 (* f *) then ([12], (begin + 2)%nat)
    else if c =? 110 (* n *) then ([c_nl], (begin + 2)%nat)
    else if c =? 114 (* r *) then ([c_cr], (begin + 2)%nat)
    else if c =? 116 (* t *) then ([c_tab], (begin + 2)%nat)
    else if c =? 118 (* v *) then ([11], (begin + 2)%nat)
    else if between 48 55 c then
      let '(v, s) := octal_escape (length str) (S begin) 0 0 in ([uwrap 8 v], s)
    else if c =? 120 (* x *) then
      let '(v, s) := hex_escape (length str) (begin + 2) 0 in ([uwrap 8 v], s)
    else if c =? c_lt then angle_escape (length str) (begin + 2) 0 0 []
    else ([c], (begin + 2)%nat).

(** ** Quoting *)

(** [quote] is the open quote, 0 for none. *)
Fixpoint unquote_loop (fuel s : nat) (quote : Z) (sa : bytes) : bytes :=
  match fuel with
  | O => sa
  | S fuel =>
      if negb (before_end s) then sa
      else
        let c := chr s in
        if (c =? c_dquote) || (c =? c_squote) then
          if quote =? 0 then unquote_loop fuel (S s) c sa
          else if quote =? c then unquote_loop fuel (S s) 0 sa
          else unquote_loop fuel (S s) quote (sa ++ [c])
        else if (c =? c_backslash) && before_end (s + 1) &&
                ((quote =? c_dquote) || ((quote =? 0) && (chr (s + 1) =? c_lt))) then
          let '(add, s) := cp_process_backslash s in
          unquote_loop fuel s quote (sa ++ add)
        else unquote_loop fuel (S s) quote (sa ++ [c])
  end.

(** ** Words *)

Fixpoint skip_spacevec_item (fuel s : nat) : nat :=
  match fuel with
  | O => s
  | S fuel =>
      if negb (before_end s) then s
      else if comment_at s then s
      else if chr s =? c_dquote then skip_spacevec_item fuel (cp_skip_double_quote s)
      else if chr s =? c_squote then skip_spacevec_item fuel (skip_single_quote s)
      else if chr s =? c_backslash then
        skip_spacevec_item fuel (if before_end (s + 1) && (chr (s + 1) =? c_lt) then skip_backslash s else S s)
      else if isspace (chr s) then s
      else skip_spacevec_item fuel (S s)
  end.

Fixpoint spacevec_loop (fuel s : nat) : list bytes :=
  match fuel with
  | O => []
  | S fuel =>
      let s := cp_skip_comment_space s in
      if before_end s then
        let t := skip_spacevec_item (length str) s in
        substring s t :: spacevec_loop fuel t
      else []
  end.
Definition cp_spacevec : list bytes := spacevec_loop (length str) 0.

(** ** Arguments *)

Fixpoint argvec_loop (fuel pos : nat) : list bytes :=
  match fuel with
  | O => []
  | S fuel =>
      if before_end pos then
        let '(arg, pos) := partial_uncomment pos true in
        let rest := argvec_loop fuel (S pos) in
        if bool_decide (arg <> []) || before_end pos then arg :: rest else rest
      else []
  end.
Definition cp_argvec : list bytes := argvec_loop (length str) 0.

(** The end of the string that [cp_string] reads. *)
Fixpoint string_end (fuel s : nat) : nat :=
  match fuel with
  | O => s
  | S fuel =>
      if negb (before_end s) then s
      else if isspace (chr s) then s
      else if chr s =? c_dquote then string_end fuel (cp_skip_double_quote s)
      else if chr s =? c_squote then string_end fuel (skip_single_quote s)
      else if (chr s =? c_backslash) && before_end (s + 1) && (chr (s + 1) =? c_lt)
      then string_end fuel (skip_backslash s)
      else string_end fuel (S s)
  end.

(** The first item, and the rest. *)
Definition cp_shift_spacevec : bytes * bytes :=
  let item := cp_skip_comment_space 0 in
  let item_end := skip_spacevec_item (length str) item in
  (substring item item_end, substring (cp_skip_comment_space item_end) (length str)).

End text.

Definition cp_uncomment (str : bytes) : bytes := fst (partial_uncomment str 0 false).

Definition cp_unquote (str : bytes) : bytes :=
  let xtr := cp_uncomment str in unquote_loop xtr (length xtr) 0 0 [].

Definition quote_char (allow_newlines : bool) (c : Z) : bytes :=
  if (c =? c_backslash) || (c =? c_dquote) || (c =? c_dollar) then [c_backslash; c]
  else if c =? c_tab then [c_backslash; 116]
  else if c =? c_cr then [c_backslash; 114]
  else if c =? c_nl then (if allow_newlines then [c] else [c_backslash; 110])
  else if (c <? 32) || (127 <=? c)
  then [c_backslash; 48 + Z.shiftr c 6; 48 + Z.land (Z.shiftr c 3) 7; 48 + Z.land c 7]
  else [c].

Definition cp_quote (str : bytes) (allow_newlines : bool) : bytes :=
  c_dquote :: concat (map (quote_char allow_newlines) str) ++ [c_dquote].

Fixpoint unargvec_rest (conf : list bytes) : bytes :=
  match conf with
  | [] => []
  | a :: conf => c_comma :: c_space :: a ++ unargvec_rest conf
  end.
Definition cp_unargvec (conf : list bytes) : bytes :=
  match conf with
  | [] => []
  | a :: conf => a ++ unargvec_rest conf
  end.

(** [sa.pop_back ()] takes the last space back; there has to be one. *)
Definition cp_unspacevec (words : list bytes) : res bytes :=
  let sa := concat (map (fun w => w ++ [c_space]) words) in
  assert* (1 <=? length sa)%nat;
  Ok (take (length sa - 1) sa).

Definition cp_is_word (str : bytes) : bool :=
  forallb (fun c => negb ((c =? c_dquote) || (c =? c_squote) || (c =? c_backslash) || (c =? c_comma)
                          || (c <=? 32) || (127 <=? c))) str && (0 <? length str)%nat.

(** Without a place for the rest the whole string has to be read. *)
Definition cp_string (str : bytes) : option bytes :=
  let s := string_end str (length str) 0 in
  if (s =? 0)%nat || negb (s =? length str)%nat then None else Some (cp_unquote (substring str 0 s)).

(** ** Integers, truth values *)

Section integers.
Context (str : bytes).

(** The characters of a number from [s] on, and the end of its last digit; an
    underscore is allowed between digits. *)
Fixpoint digits_span (ndigits nletters : Z) (fuel s : nat) (lastdigit : Z) : nat * Z :=
  match fuel with
  | O => (s, lastdigit)
  | S fuel =>
      if negb (before_end str s) then (s, lastdigit)
      else
        let c := chr str s in
        if (c =? 95) && (lastdigit =? Z.of_nat s) then digits_span ndigits nletters fuel (S s) lastdigit
        else if ((48 <=? c) && (c <? 48 + ndigits)) || ((65 <=? c) && (c <? 65 + nletters)) ||
                ((97 <=? c) && (c <? 97 + nletters))
        then digits_span ndigits nletters fuel (S s) (Z.of_nat (S s))
        else (s, lastdigit)
  end.

(** [IntArg::span]: where the number ends, and its base. *)
Definition span (is_signed : bool) (b : Z) : Z * Z :=
  let s := if before_end str 0 && ((is_signed && (chr str 0 =? 45)) || (chr str 0 =? 43)) then 1%nat else 0%nat in
  let prefix (lower upper : Z) :=
    before_end str (s + 2) && (chr str s =? 48) && ((chr str (s + 1) =? lower) || (chr str (s + 1) =? upper)) in
  let '(s, b) :=
    if ((b =? 0) || (b =? 16)) && prefix 120 88 then ((s + 2)%nat, 16)
    else if (b =? 0) && prefix 98 66 then ((s + 2)%nat, 2)
    else if (b =? 0) && before_end str s && (chr str s =? 48) then (s, 8)
    else if b =? 0 then (s, 10)
    else (s, b) in
  let ndigits := if 10 <? b then 10 else b in
  let nletters := if 10 <? b then b - 10 else 0 in
  let '(e, lastdigit) := digits_span ndigits nletters (length str) s (Z.of_nat s - 1) in
  if negb (e =? s)%nat then (lastdigit, b)
  else if (1 <? s)%nat then (Z.of_nat s - 1, b)
  else (0, b).

Definition digit_value (b c : Z) : option Z :=
  let nletters := if 10 <? b then b - 10 else 0 in
  if isdigit c then Some (c - 48)
  else if (65 <=? c) && (c <? 65 + nletters) then Some (c - 55)
  else if (97 <=? c) && (c <? 97 + nletters) then Some (c - 87)
  else None.

(** The value of the digits; other characters are skipped. *)
Fixpoint digits_value (b : Z) (cs : bytes) (v : Z) : Z :=
  match cs with
  | [] => v
  | c :: cs => digits_value b cs (match digit_value b c with Some d => v * b + d | None => v end)
  end.

(** [IntArg::parse] for a type of [size] bytes: a number that is read whole and
    fits.  One that does not is reported, by [error]. *)
Definition IntArg_parse (is_signed : bool) (size : Z) : option Z :=
  let '(xend, b) := span is_signed 0 in
  if (b <? 2) || (36 <? b) || (xend =? 0) || negb (xend =? Z.of_nat (length str)) then None
  else
    let v := digits_value b str 0 in
    let negative := is_signed && (chr str 0 =? 45) in
    let bitsize := size * 8 - Z.b2z is_signed in
    if 2 ^ bitsize + Z.b2z negative <=? v then None
    else Some (if negative then - v else v).

End integers.

Definition BoolArg_parse (str : bytes) : option bool :=
  if decide (str = bytes_of_string "0") then Some false
  else if decide (str = bytes_of_string "n") then Some false
  else if decide (str = bytes_of_string "f") then Some false
  else if decide (str = bytes_of_string "1") then Some true
  else if decide (str = bytes_of_string "y") then Some true
  else if decide (str = bytes_of_string "t") then Some true
  else if decide (str = bytes_of_string "false") then Some false
  else if decide (str = bytes_of_string "true") then Some true
  else if decide (str = bytes_of_string "no") then Some false
  else if decide (str = bytes_of_string "yes") then Some true
  else None.

(** ** Args *)
Module Args.

(** [_kwpos]: the length of an argument's keyword, 0 for a positional one, negative
    once it is used. *)
Record Args := mkArgs {
  _conf : list bytes;
  _kwpos : list Z;
  _read_status : bool;
  _status : bool
}.

Definition is_keyword_char (c : Z) : bool :=
  isalnum c || (c =? 95) || (c =? 58) || (c =? 46) || (c =? 63) || (c =? 33).

Definition kwpos (it : bytes) : Z :=
  let s :=
    if before_end it 0 && (isalpha (chr it 0) || (chr it 0 =? 95))
    then advance (fun s => before_end it s && is_keyword_char (chr it s)) (length it) 1 else 0%nat in
  let t := advance (fun t => before_end it t && isspace (chr it t)) (length it) s in
  if (s =? 0)%nat || (s =? t)%nat || (t =? length it)%nat then 0 else Z.of_nat s.

Definition Args_new (conf : list bytes) : Args := mkArgs conf (map kwpos conf) true true.

Definition mandatory : Z := 1.
Definition positional : Z := 2.
Definition firstmatch : Z := 8.
Definition has (flags f : Z) : bool := negb (Z.land flags f =? 0).

(** The search: the first argument that can be positional, and the match. *)
Fixpoint find_loop (keyword : bytes) (flags : Z) (conf : list bytes) (i : nat) (rest kw : list Z) (got got_kwpos position : Z)
  : list Z * Z * Z * Z :=
  match rest with
  | [] => (kw, got, got_kwpos, position)
  | k :: rest =>
      let position := if (position =? -1) && negb (k =? -1) then (if 0 <=? k then Z.of_nat i else -2) else position in
      let keyword_length := length keyword in
      if (k =? Z.of_nat keyword_length) && bool_decide (take keyword_length (default [] (conf !! i)) = keyword) then
        if has flags firstmatch then (<[i := -2]> kw, Z.of_nat i, k, position)
        else find_loop keyword flags conf (S i) rest (<[i := -2]> kw) (Z.of_nat i) k position
      else find_loop keyword flags conf (S i) rest kw got got_kwpos position
  end.

(** [find]: the text of the argument, empty when there is none. *)
Definition find (keyword : bytes) (flags : Z) (a : Args) : Args * bytes :=
  let read_status := negb (isdigit (chr keyword 0)) in
  let '(kw, got, got_kwpos, position) :=
    find_loop keyword flags (_conf a) 0 (_kwpos a) (_kwpos a) (-1) (-1) (-1) in
  let at_position := default (-1) (kw !! Z.to_nat position) in
  let '(kw, got, got_kwpos) :=
    if has flags positional && (0 <=? position) && (0 <=? at_position) &&
       (((got <? 0) && has flags mandatory) || (at_position =? 0)) &&
       (negb (has flags firstmatch) || (got <? 0) || (position <? got)) then
      let kw := <[Z.to_nat position := -1]> kw in
      let kw := if has flags firstmatch && (position <? got) then <[Z.to_nat got := Z.of_nat (length keyword)]> kw else kw in
      if has flags firstmatch || (got <? position) then (kw, position, 0) else (kw, got, got_kwpos)
    else (kw, got, got_kwpos) in
  if got <? 0 then
    (mkArgs (_conf a) kw false (_status a && negb (has flags mandatory)), [])
  else
    let arg := default [] (_conf a !! Z.to_nat got) in
    let s := if got_kwpos =? 0 then 0%nat
             else advance (fun s => before_end arg s && isspace (chr arg s)) (length arg) (Z.to_nat got_kwpos) in
    (mkArgs (_conf a) kw read_status (_status a), if got_kwpos =? 0 then arg else substring arg s (length arg)).

Definition postparse (ok : bool) (a : Args) : Args :=
  let read_status := ok && _read_status a in
  mkArgs (_conf a) (_kwpos a) read_status (_status a && read_status).

(** [read]: the value for the variable, which it gets when the arguments are
    executed. *)
Definition read {T} (parse : bytes -> option T) (keyword : string) (flags : Z) (a : Args) : Args * option T :=
  let '(a, str) := find (bytes_of_string keyword) flags a in
  if bool_decide (str = []) then (a, None)
  else
    let r := parse str in
    let a := postparse (bool_decide (is_Some r)) a in
    (a, if _read_status a then r else None).

Definition EINVAL : Z := 22.
Definition execute (a : Args) : Z := if _status a then 0 else - EINVAL.

Definition complete (a : Args) : Z :=
  execute (mkArgs (_conf a) (_kwpos a) (_read_status a) (_status a && forallb (fun k => k <? 0) (_kwpos a))).

Definition read_int : string -> Z -> Args -> Args * option Z := read (fun s => IntArg_parse s true 4).
Definition read_unsigned : string -> Z -> Args -> Args * option Z := read (fun s => IntArg_parse s false 4).
Definition read_bool : string -> Z -> Args -> Args * option bool := read BoolArg_parse.
Definition read_string : string -> Z -> Args -> Args * option bytes := read cp_string.

End Args.
