(* ===== verification/ConfProps.v ===== *)
(** * ConfProps: quoting and splitting undo joining

    What [cp_quote] writes is read back by [cp_unquote], by itself and as an item of
    the lists that [cp_unargvec] and [cp_unspacevec] join. *)

From S2P Require Import Prelude ConfParse.

#[global] Instance is_byte_dec b : Decision (is_byte b).
Proof. unfold is_byte. apply _. Defined.

(** ** Positions *)

(** The text from [s] on is [l]. *)
Section position.
Context (str : bytes).

Definition rest_at (s : nat) (l : bytes) : Prop := drop s str = l /\ (s <= length str)%nat.

Lemma rest_at_cons s c l : rest_at s (c :: l) -> chr str s = c /\ before_end str s = true /\ rest_at (S s) l.
Proof.
  intros [Hd Hs]. assert (Hl : str !! s = Some c).
  { rewrite <- (Nat.add_0_r s), <- lookup_drop, Hd. done. }
  pose proof (lookup_lt_Some _ _ _ Hl) as Hlt. unfold chr, before_end. rewrite Hl. split_and!; [done|by apply Nat.ltb_lt|].
  split; [|lia]. rewrite <- Nat.add_1_r, <- drop_drop, Hd. done.
Qed.

Lemma rest_at_nil s : rest_at s [] -> s = length str /\ before_end str s = false.
Proof.
  intros [Hd Hs]. apply (f_equal length) in Hd. rewrite length_drop in Hd. cbn in Hd. assert (s = length str) as -> by lia.
  split; [done|]. apply Nat.ltb_irrefl.
Qed.

Lemma rest_at_length s l : rest_at s l -> length str = (s + length l)%nat.
Proof. intros [Hd Hs]. apply (f_equal length) in Hd. rewrite length_drop in Hd. lia. Qed.

Lemma rest_at_app s l k : rest_at s (l ++ k) -> rest_at (s + length l) k.
Proof.
  intros H. pose proof (rest_at_length _ _ H) as Hl. destruct H as [Hd Hs]. rewrite length_app in Hl. split; [|lia].
  rewrite <- drop_drop, Hd. by rewrite drop_app_length.
Qed.

Lemma rest_at_0 : rest_at 0 str.
Proof. split; [apply drop_0|lia]. Qed.

Lemma rest_at_substring s l k : rest_at s (l ++ k) -> substring str s (s + length l) = l.
Proof.
  intros H. pose proof (rest_at_length _ _ H) as Hl. destruct H as [Hd Hs]. rewrite length_app in Hl. unfold substring.
  destruct l as [|c l]; cbn [length] in *.
  - rewrite Nat.add_0_r, Nat.ltb_irrefl. done.
  - rewrite (proj2 (Nat.ltb_lt s _)), (proj2 (Nat.leb_le _ (length str))) by lia. cbn [andb].
    rewrite Hd. replace (s + S (length l) - s)%nat with (length (c :: l)) by (cbn; lia). apply take_app_length.
Qed.
End position.

(** ** One quoted character *)

(** Either the character itself, or an escape that is read as it. *)
Definition octal (c : Z) : bytes := [48 + Z.shiftr c 6; 48 + Z.land (Z.shiftr c 3) 7; 48 + Z.land c 7].

Lemma octal_digits c : is_byte c ->
  exists d2 d1 d0, octal c = [48 + d2; 48 + d1; 48 + d0] /\ 0 <= d2 <= 3 /\ 0 <= d1 <= 7 /\ 0 <= d0 <= 7 /\ c = d2 * 64 + d1 * 8 + d0.
Proof.
  intros Hc. unfold is_byte in Hc. exists (Z.shiftr c 6), (Z.land (Z.shiftr c 3) 7), (Z.land c 7). split; [done|].
  assert (Hland : forall x, Z.land x 7 = x mod 8) by (intros x; change 7 with (Z.ones 3); by rewrite Z.land_ones).
  rewrite !Hland, !Z.shiftr_div_pow2 by lia.
  change (2 ^ 6) with 64. change (2 ^ 3) with 8. divlia.
Qed.

(** The first character of an escape, its rest and what it is read as. *)
Inductive escape : bytes -> Z -> Prop :=
| escape_self c : c = c_backslash \/ c = c_dquote \/ c = c_dollar -> escape [c] c
| escape_tab : escape [116] c_tab
| escape_cr : escape [114] c_cr
| escape_nl : escape [110] c_nl
| escape_octal c : is_byte c -> escape (octal c) c.

Lemma quote_char_cases nl c : is_byte c ->
  (quote_char nl c = [c] /\ c <> c_backslash /\ c <> c_dquote) \/
  (exists e, quote_char nl c = c_backslash :: e /\ escape e c).
Proof.
  intros Hb. unfold quote_char. destruct ((c =? c_backslash) || (c =? c_dquote) || (c =? c_dollar)) eqn:E1.
  { right. exists [c]. split; [|constructor; lia]. f_equal. }
  destruct (Z.eqb_spec c c_tab) as [->|]; [right; eexists; split; [done|constructor]|].
  destruct (Z.eqb_spec c c_cr) as [->|]; [right; eexists; split; [done|constructor]|].
  destruct (Z.eqb_spec c c_nl) as [->|].
  { destruct nl; [left; by split_and!|right; eexists; split; [done|constructor]]. }
  destruct ((c <? 32) || (127 <=? c)) eqn:E2; [right; eexists; split; [done|by apply escape_octal]|left; split_and!; [done|lia..]].
Qed.

(** ** Reading escapes *)
Section escapes.
Context (str : bytes).

Lemma skip_backslash_escape s e c k :
  escape e c -> rest_at str s (c_backslash :: e ++ k) ->
  exists e1 e', e = e1 :: e' /\ skip_backslash str s = (s + 2)%nat /\ Forall (fun d => d <> c_backslash /\ d <> c_dquote) e'.
Proof.
  intros He H. assert (Hhead : exists e1 e', e = e1 :: e' /\ e1 <> c_lt /\ e1 <> c_cr /\ Forall (fun d => d <> c_backslash /\ d <> c_dquote) e').
  { destruct He as [c Hc| | | |c Hc]; [eexists _, _; split_and!; [done|lia|lia|constructor]..|].
    destruct (octal_digits c Hc) as (d2 & d1 & d0 & -> & ? & ? & ? & _). eexists _, _. split_and!; [done|lia|lia|].
    repeat constructor; lia. }
  destruct Hhead as (e1 & e' & -> & Hlt & Hcr & Hall). exists e1, e'. split_and!; [done| |done].
  destruct (rest_at_cons _ _ _ _ H) as (_ & _ & H0). cbn [app] in H0. destruct (rest_at_cons _ _ _ _ H0) as (Hc1 & Hb1 & _).
  unfold skip_backslash. rewrite !Nat.add_1_r, Hb1, Hc1. cbn [negb].
  by rewrite (proj2 (Z.eqb_neq _ _) Hlt), (proj2 (Z.eqb_neq _ _) Hcr).
Qed.

Lemma octal_escape_spec s c k n :
  is_byte c -> rest_at str s (octal c ++ k) -> (3 <= n)%nat -> octal_escape str n s 0 0 = (c, (s + 3)%nat).
Proof.
  intros Hc. destruct (octal_digits c Hc) as (d2 & d1 & d0 & -> & Hd2 & Hd1 & Hd0 & E). cbn [app]. intros H Hn.
  do 3 (destruct n as [|n]; [lia|]). destruct (rest_at_cons _ _ _ _ H) as (Ha & Hb & H1).
  destruct (rest_at_cons _ _ _ _ H1) as (Ha1 & Hb1 & H2'). destruct (rest_at_cons _ _ _ _ H2') as (Ha2 & Hb2 & _).
  assert (Hd : forall d, 0 <= d <= 7 -> between 48 55 (48 + d) = true) by (intros d Hd; unfold between; lia).
  cbn [octal_escape]. rewrite Hb, Ha, Hd by lia. cbn [andb Nat.ltb Nat.leb]. rewrite Hb1, Ha1, Hd by lia. cbn [andb Nat.ltb Nat.leb].
  rewrite Hb2, Ha2, Hd by lia. cbn [andb Nat.ltb Nat.leb]. destruct n as [|n]; cbn [octal_escape];
    [|rewrite andb_false_r]; f_equal; lia.
Qed.

Lemma process_escape s e c k :
  escape e c -> k <> [] -> rest_at str s (c_backslash :: e ++ k) ->
  cp_process_backslash str s = ([c], (s + 1 + length e)%nat).
Proof.
  intros He Hk H. pose proof (rest_at_length _ _ _ H) as Hl. cbn [length] in Hl. rewrite length_app in Hl.
  assert (Hend : (s =? length str - 1)%nat = false).
  { apply Nat.eqb_neq. destruct k; [done|]. cbn in Hl. lia. }
  destruct (rest_at_cons _ _ _ _ H) as (_ & _ & H0). unfold cp_process_backslash, between. rewrite Hend, Nat.add_1_r.
  destruct He as [c Hc| | | |c Hc]; cbn [app length] in *;
    [|destruct (rest_at_cons _ _ _ _ H0) as (-> & _ & _); cbn; f_equal; lia..|].
  - destruct (rest_at_cons _ _ _ _ H0) as (-> & _ & _). destruct Hc as [->|[->| ->]]; cbn; f_equal; lia.
  - pose proof (octal_escape_spec (S s) c k (length str) Hc H0) as Ho. rewrite Ho by (cbn in Hl; lia).
    destruct (octal_digits c Hc) as (d2 & d1 & d0 & Eo & ? & ? & ? & _). rewrite Eo in H0 |- *. cbn [app length] in *.
    destruct (rest_at_cons _ _ _ _ H0) as (-> & _ & _).
    assert (Hd : exists n, 48 + d2 = 48 + n /\ (n = 0 \/ n = 1 \/ n = 2 \/ n = 3)) by (exists d2; lia).
    destruct Hd as (n & -> & Hn). assert (Hu : uwrap 8 c = c) by (apply uwrap_id; exact Hc).
    destruct Hn as [->|[->|[->| ->]]]; cbn [Z.add Pos.add Z.eqb Pos.eqb between Z.leb Z.compare Pos.compare Pos.compare_cont andb]; rewrite Hu; f_equal; lia.
Qed.
End escapes.

(** ** Quoted text inside a string *)
Section quoted.
Context (str : bytes) (nl : bool).
Implicit Types (t k : bytes) (s : nat).

Definition body t : bytes := concat (map (quote_char nl) t).

Lemma skip_plain s e k fuel :
  Forall (fun d => d <> c_backslash /\ d <> c_dquote) e -> rest_at str s (e ++ k) -> (length e <= fuel)%nat ->
  skip_double_quote str fuel s = skip_double_quote str (fuel - length e) (s + length e).
Proof.
  intros He. revert s fuel. induction He as [|d e [Hd1 Hd2] _ IH]; intros s fuel H Hf; cbn [length].
  { by rewrite Nat.sub_0_r, Nat.add_0_r. }
  destruct (rest_at_cons _ _ _ _ H) as (Hc & Hb & H'). destruct fuel as [|fuel]; [cbn in Hf; lia|].
  cbn [skip_double_quote]. rewrite Hb, Hc, (proj2 (Z.eqb_neq _ _) Hd1), (proj2 (Z.eqb_neq _ _) Hd2). cbn [negb].
  rewrite (IH (S s) fuel H') by (cbn in Hf; lia). by rewrite Nat.add_succ_r.
Qed.

Lemma skip_body t s k fuel :
  Forall is_byte t -> rest_at str s (body t ++ c_dquote :: k) -> (length (body t) < fuel)%nat ->
  skip_double_quote str fuel s = (s + length (body t) + 1)%nat.
Proof.
  intros Ht. revert s fuel. induction Ht as [|c t Hc _ IH]; intros s fuel H Hf.
  - destruct (rest_at_cons _ _ _ _ H) as (Hs & Hb & _). destruct fuel as [|fuel]; [cbn in Hf; lia|].
    cbn [skip_double_quote]. rewrite Hb, Hs. cbn. lia.
  - change (body (c :: t)) with (quote_char nl c ++ body t) in *. rewrite <- app_assoc in H. rewrite length_app in *.
    destruct (quote_char_cases nl c Hc) as [(E & Hn1 & Hn2)|(e & E & He)]; rewrite E in *.
    + rewrite (skip_plain s [c] (body t ++ c_dquote :: k) fuel); [|by repeat constructor|exact H|cbn in Hf |- *; lia].
      apply rest_at_app in H. cbn [length] in *. rewrite (IH (s + 1)%nat) by (try done; lia). lia.
    + destruct (skip_backslash_escape str s e c _ He H) as (e1 & e' & -> & Hsk & Hall).
      destruct (rest_at_cons _ _ _ _ H) as (Hs & Hb & H1). destruct (rest_at_cons _ _ _ _ H1) as (_ & _ & H2).
      destruct fuel as [|fuel]; [lia|]. cbn [skip_double_quote]. rewrite Hb, Hs. cbn [negb Z.eqb Pos.eqb]. rewrite Hsk.
      cbn [length app] in *. replace (s + 2)%nat with (S (S s)) by lia. rewrite (skip_plain (S (S s)) e' _ fuel Hall H2) by lia.
      apply rest_at_app in H2. rewrite (IH (S (S s) + length e')%nat) by (try done; lia). lia.
Qed.

Lemma length_quote t : length (cp_quote t nl) = (length (body t) + 2)%nat.
Proof. unfold cp_quote. cbn [length]. rewrite length_app. cbn. fold (body t). lia. Qed.

Lemma cp_skip_quoted t s k :
  Forall is_byte t -> rest_at str s (cp_quote t nl ++ k) -> cp_skip_double_quote str s = (s + length (cp_quote t nl))%nat.
Proof.
  intros Ht H. pose proof (rest_at_length _ _ _ H) as Hl. rewrite length_app in Hl. unfold cp_quote in H at 1. cbn [app] in H.
  rewrite <- app_assoc in H. destruct (rest_at_cons _ _ _ _ H) as (_ & _ & H1). unfold cp_skip_double_quote.
  rewrite (skip_body t (S s) k) by (try done; rewrite length_quote in Hl; lia). rewrite length_quote. lia.
Qed.

(** An item of a list of arguments: spaces, a quoted text, and then a comma or the
    end. *)
Lemma skip_spaces n s c k :
  rest_at str s (replicate n c_space ++ c :: k) -> isspace c = false -> c <> c_slash ->
  cp_skip_comment_space str s = (s + n)%nat.
Proof.
  intros H Hc Hsl. pose proof (rest_at_length _ _ _ H) as Hl. rewrite length_app, length_replicate in Hl. cbn [length] in Hl.
  unfold cp_skip_comment_space. assert (Hf : (n < length str)%nat) by lia. revert Hf. generalize (length str) at 1 2. clear Hl.
  intros fuel. revert s fuel H. induction n as [|n IH]; intros s fuel H Hf; destruct fuel as [|fuel]; try lia;
    cbn [skip_comment_space replicate app] in *; destruct (rest_at_cons _ _ _ _ H) as (Hs & Hb & H1); rewrite Hb, Hs; cbn [negb].
  - rewrite Hc. unfold comment_at. rewrite Hs, (proj2 (Z.eqb_neq _ _) Hsl). cbn. lia.
  - cbn. rewrite (IH (S s)) by (try done; lia). lia.
Qed.

Lemma skip_to_quote n t s k :
  rest_at str s (replicate n c_space ++ cp_quote t nl ++ k) -> cp_skip_comment_space str s = (s + n)%nat.
Proof. intros H. eapply skip_spaces; [exact H|done|done]. Qed.

Lemma partial_uncomment_quoted stop n t s k :
  Forall is_byte t -> rest_at str s (replicate n c_space ++ cp_quote t nl ++ k) ->
  k = [] \/ (stop = true /\ exists k', k = c_comma :: k') ->
  partial_uncomment str s stop = (cp_quote t nl, (s + n + length (cp_quote t nl))%nat).
Proof.
  intros Ht H Hk. unfold partial_uncomment. rewrite (skip_to_quote n t s k H).
  pose proof (rest_at_length _ _ _ H) as Hl. rewrite !length_app, length_replicate, length_quote in Hl.
  apply rest_at_app in H. rewrite length_replicate in H. set (p := (s + n)%nat) in *.
  destruct (length str) as [|[|fuel]] eqn:Ef; [lia|lia|].
  assert (Hp : chr str p = c_dquote /\ before_end str p = true) by (by destruct (rest_at_cons str p _ _ H) as (? & ? & _)).
  destruct Hp as [Hc Hb]. assert (Hcm : comment_at str p = false) by (unfold comment_at; by rewrite Hc).
  cbn [uncomment_loop]. rewrite Hb, Hcm, Hc. cbn [negb isspace between Z.eqb Pos.eqb Z.leb Z.compare Pos.compare Pos.compare_cont andb orb].
  rewrite (cp_skip_quoted t p k Ht H). pose proof (rest_at_substring str p _ _ H) as Hsub. apply rest_at_app in H.
  set (e := (p + length (cp_quote t nl))%nat) in *. destruct Hk as [->|[-> [k' ->]]].
  - destruct (rest_at_nil _ _ H) as [_ ->]. cbn [negb]. by rewrite Hsub.
  - destruct (rest_at_cons _ _ _ _ H) as (He & -> & _). unfold comment_at. rewrite He. cbn. by rewrite Hsub.
Qed.
End quoted.

(** ** Reading a quoted text *)

Lemma unquote_body nl str t s sa fuel :
  Forall is_byte t -> rest_at str s (body nl t ++ [c_dquote]) -> (length (body nl t) < fuel)%nat ->
  unquote_loop str fuel s c_dquote sa = sa ++ t.
Proof.
  intros Ht. revert s sa fuel. induction Ht as [|c t Hc _ IH]; intros s sa fuel H Hf.
  - destruct (rest_at_cons _ _ _ _ H) as (Hs & Hb & H1). apply rest_at_nil in H1 as [_ He]. destruct fuel as [|fuel]; [lia|].
    cbn [unquote_loop]. rewrite Hb, Hs. cbn. rewrite app_nil_r. destruct fuel; cbn [unquote_loop]; [done|]. by rewrite He.
  - change (body nl (c :: t)) with (quote_char nl c ++ body nl t) in *. rewrite <- app_assoc in H. rewrite length_app in *.
    destruct fuel as [|fuel]; [lia|]. cbn [unquote_loop].
    destruct (quote_char_cases nl c Hc) as [(E & Hn1 & Hn2)|(e & E & He)]; rewrite E in *.
    + destruct (rest_at_cons _ _ _ _ H) as (Hs & Hb & H1). cbn [length] in Hf. rewrite Hb, Hs. cbn [negb].
      rewrite (proj2 (Z.eqb_neq _ _) Hn1), (proj2 (Z.eqb_neq _ _) Hn2). cbn [orb andb].
      destruct (Z.eqb_spec c c_squote) as [Ec|]; [|rewrite (IH (S s)) by (try done; lia); by rewrite <- app_assoc].
      assert (c_dquote =? c = false) as -> by lia. cbn [Z.eqb]. rewrite (IH (S s)) by (try done; lia). by rewrite <- app_assoc.
    + assert (Hk : body nl t ++ [c_dquote] <> []) by (by destruct (body nl t)).
      pose proof (process_escape str s e c _ He Hk H) as Hp. cbn [app] in H.
      destruct (rest_at_cons _ _ _ _ H) as (Hs & Hb & H1). rewrite Hb, Hs. cbn [negb Z.eqb Pos.eqb orb andb].
      assert (Hb1 : before_end str (s + 1) = true).
      { rewrite Nat.add_1_r. destruct He; by destruct (rest_at_cons _ _ _ _ H1) as (_ & ? & _). }
      rewrite Hb1, Hp. cbn [andb]. apply rest_at_app in H1. cbn [length] in Hf.
      replace (s + 1 + length e)%nat with (S s + length e)%nat by lia. rewrite IH by (try done; lia). by rewrite <- app_assoc.
Qed.

Lemma cp_uncomment_quoted nl t : Forall is_byte t -> cp_uncomment (cp_quote t nl) = cp_quote t nl.
Proof.
  intros Ht. unfold cp_uncomment. rewrite (partial_uncomment_quoted _ nl false 0 t 0 []); [done|done| |by left].
  cbn [replicate app]. rewrite app_nil_r. apply rest_at_0.
Qed.

Lemma cp_unquote_quoted nl t : Forall is_byte t -> cp_unquote (cp_quote t nl) = t.
Proof.
  intros Ht. unfold cp_unquote. rewrite cp_uncomment_quoted by done. rewrite length_quote.
  pose proof (rest_at_0 (cp_quote t nl)) as H. unfold cp_quote in H at 2. destruct (rest_at_cons _ _ _ _ H) as (Hs & Hb & H1).
  rewrite Nat.add_succ_r. cbn [unquote_loop]. rewrite Hb, Hs. cbn [negb Z.eqb Pos.eqb orb].
  apply (unquote_body nl _ t 1 [] (length (body nl t) + 1)); [done|exact H1|lia].
Qed.

(** ** Lists of quoted texts *)

Lemma argvec_quoted nl str ws fuel s n :
  Forall (Forall is_byte) ws -> ws <> [] ->
  rest_at str s (replicate n c_space ++ cp_unargvec (map (fun w => cp_quote w nl) ws)) -> (length ws <= fuel)%nat ->
  argvec_loop str fuel s = map (fun w => cp_quote w nl) ws.
Proof.
  intros Hw. revert s n fuel. induction Hw as [|w ws Hw _ IH]; intros s n fuel Hne H Hf; [done|].
  destruct fuel as [|fuel]; [cbn in Hf; lia|]. cbn [argvec_loop map cp_unargvec] in *.
  assert (Hb : before_end str s = true).
  { destruct n; by destruct (rest_at_cons _ _ _ _ H) as (_ & ? & _). }
  rewrite Hb. assert (Hk : let k := unargvec_rest (map (fun w => cp_quote w nl) ws) in k = [] \/ (true = true /\ exists k', k = c_comma :: k')).
  { destruct ws; [by left|right; split; [done|by eexists]]. }
  rewrite (partial_uncomment_quoted str nl true n w s _ Hw H Hk).
  rewrite bool_decide_eq_true_2 by (unfold cp_quote; discriminate). cbn [orb]. f_equal.
  apply rest_at_app in H. rewrite length_replicate in H. apply rest_at_app in H. set (e := (s + n + length (cp_quote w nl))%nat) in *.
  destruct ws as [|w' ws].
  - destruct (rest_at_nil _ _ H) as [He _]. destruct fuel; cbn [argvec_loop]; [done|].
    assert (before_end str (S e) = false) as -> by (apply Nat.ltb_ge; lia). done.
  - cbn [map unargvec_rest] in H. destruct (rest_at_cons _ _ _ _ H) as (_ & _ & H1).
    apply (IH (S e) 1%nat fuel); [done|exact H1|cbn in Hf |- *; lia].
Qed.

Lemma item_quoted nl str t s k fuel :
  Forall is_byte t -> rest_at str s (cp_quote t nl ++ k) -> k = [] \/ (exists k', k = c_space :: k') -> (2 <= fuel)%nat ->
  skip_spacevec_item str fuel s = (s + length (cp_quote t nl))%nat.
Proof.
  intros Ht H Hk Hf. destruct fuel as [|[|fuel]]; [lia..|]. cbn [skip_spacevec_item].
  assert (Hs : chr str s = c_dquote /\ before_end str s = true) by (by destruct (rest_at_cons str s _ _ H) as (? & ? & _)).
  destruct Hs as [Hc Hb]. assert (Hcm : comment_at str s = false) by (unfold comment_at; by rewrite Hc).
  rewrite Hb, Hcm, Hc. cbn [negb Z.eqb Pos.eqb]. rewrite (cp_skip_quoted str nl t s k Ht H). apply rest_at_app in H.
  destruct Hk as [->|[k' ->]].
  - destruct (rest_at_nil _ _ H) as [_ ->]. done.
  - destruct (rest_at_cons _ _ _ _ H) as (He & -> & _). unfold comment_at. rewrite He. done.
Qed.

Definition joined nl (ws : list bytes) : bytes := concat (map (fun w => c_space :: cp_quote w nl) ws).

Lemma unspacevec_joined nl w ws :
  cp_unspacevec (map (fun w => cp_quote w nl) (w :: ws)) = Ok (cp_quote w nl ++ joined nl ws).
Proof.
  assert (E : forall w, concat (map (fun w => w ++ [c_space]) (map (fun w => cp_quote w nl) (w :: ws))) = (cp_quote w nl ++ joined nl ws) ++ [c_space]).
  { induction ws as [|w' ws IH]; intros x; [cbn; by rewrite !app_nil_r|].
    change (map _ (x :: w' :: ws)) with (cp_quote x nl :: map (fun w => cp_quote w nl) (w' :: ws)). cbn [map concat].
    change (_ ++ concat (map _ (map _ ws))) with (concat (map (fun w => w ++ [c_space]) (map (fun w => cp_quote w nl) (w' :: ws)))).
    rewrite IH. unfold joined. cbn [map concat]. rewrite <- !app_assoc. done. }
  unfold cp_unspacevec. rewrite E, length_app. cbn [length]. rewrite (proj2 (Nat.leb_le _ _)) by lia. res_simpl.
  rewrite Nat.add_sub. by rewrite take_app_length.
Qed.

Lemma spacevec_end str fuel s : rest_at str s [] -> spacevec_loop str fuel s = [].
Proof.
  intros H. destruct fuel as [|fuel]; [done|]. cbn [spacevec_loop]. destruct (rest_at_nil _ _ H) as [-> He].
  assert (Hs : cp_skip_comment_space str (length str) = length str).
  { unfold cp_skip_comment_space. destruct (length str) as [|n] at 1; [done|]. cbn [skip_comment_space]. by rewrite He. }
  by rewrite Hs, He.
Qed.

Lemma spacevec_quoted nl str w ws fuel s n :
  Forall (Forall is_byte) (w :: ws) -> rest_at str s (replicate n c_space ++ cp_quote w nl ++ joined nl ws) ->
  (length (w :: ws) <= fuel)%nat -> spacevec_loop str fuel s = map (fun w => cp_quote w nl) (w :: ws).
Proof.
  revert w s n fuel. induction ws as [|w' ws IH]; intros w s n fuel Hws H Hf; destruct fuel as [|fuel]; try (cbn in Hf; lia);
    apply Forall_cons in Hws as [Hw Hws]; cbn [spacevec_loop].
  all: rewrite (skip_to_quote str nl n w s _ H).
  all: apply rest_at_app in H; rewrite length_replicate in H;
    assert (Hb : before_end str (s + n) = true) by (by destruct (rest_at_cons str (s + n) _ _ H) as (_ & ? & _)); rewrite Hb;
    pose proof (rest_at_length _ _ _ H) as Hl; rewrite length_app, length_quote in Hl.
  - rewrite (item_quoted nl str w (s + n) (joined nl [])); [|done|done|by left|lia].
    rewrite (rest_at_substring _ _ _ _ H). apply rest_at_app in H. by rewrite spacevec_end.
  - rewrite (item_quoted nl str w (s + n) (joined nl (w' :: ws))); [|done|done|right; by eexists|lia].
    rewrite (rest_at_substring _ _ _ _ H). apply rest_at_app in H. cbn [map]. f_equal.
    apply (IH w' _ 1%nat); [done|exact H|cbn in Hf |- *; lia].
Qed.

(** ** Properties *)
Module ConfProps.

(** C36: Quoting round-trips, as the comment of [cp_quote] promises, for every string of
    bytes, with and without newlines: [cp_unquote] gives the string back; and a list
    of strings that is quoted and joined at commas or at spaces is split into the
    same quoted strings, whatever separators, quotes, comments or escapes the strings
    contain. *)
Theorem quoting_roundtrip nl (ws : list bytes) (Hw : Forall (Forall is_byte) ws) (Hne : ws <> []) :
  let quoted := map (fun w => cp_quote w nl) ws in
  map cp_unquote quoted = ws /\ cp_argvec (cp_unargvec quoted) = quoted /\
  exists line, cp_unspacevec quoted = Ok line /\ cp_spacevec line = quoted.
Proof.
  intros quoted. split; [|split].
  - unfold quoted. rewrite map_map. clear Hne. induction Hw as [|w ws Hw _ IH]; [done|]. cbn [map]. by rewrite cp_unquote_quoted, IH.
  - unfold cp_argvec. apply (argvec_quoted nl _ ws _ 0 0 Hw Hne); [apply rest_at_0|]. clear Hne.
    unfold quoted. destruct ws as [|w ws]; [done|]. cbn [map cp_unargvec]. rewrite length_app, length_quote. apply Forall_cons in Hw as [_ _].
    induction ws as [|w' ws IH]; cbn [length map unargvec_rest] in *; [lia|]. rewrite length_app. lia.
  - destruct ws as [|w ws]; [done|]. eexists. split; [apply unspacevec_joined|]. unfold cp_spacevec.
    apply (spacevec_quoted nl _ w ws _ 0 0 Hw); [apply rest_at_0|]. rewrite length_app, length_quote. unfold joined.
    clear Hw Hne quoted. induction ws as [|w' ws IH]; cbn [length map concat app] in *; [lia|]. rewrite length_app. lia.
Qed.

Lemma quoting_roundtrip_witness :
  let ws := map bytes_of_string ["LLOYl 0 BARCl 1"; "a, b // c"; "\<41> $x"]%string in
  map cp_unquote (map (fun w => cp_quote w false) ws) = ws /\
  cp_argvec (cp_unargvec (map (fun w => cp_quote w false) ws)) = map (fun w => cp_quote w false) ws.
Proof.
  intros ws. destruct (quoting_roundtrip false ws) as (H1 & H2 & _).
  - apply (bool_decide_eq_true_1 (Forall (Forall is_byte) ws)). vm_compute. reflexivity.
  - discriminate.
  - split; [exact H1|exact H2].
Defined.

End ConfProps.
