(* ===== verification/Lexer.v ===== *)
(** * Lexer: from the text of a configuration to elements and connections

    Models lib/lexer.cc for configurations without compound elements: the lexemes,
    the declarations and connections, the errors that are reported on the way, and
    the part of [create_router] that remains for them.  A configuration that defines
    or uses compound elements, groups, variables or requirements is [Outside].

    A lexer's methods are programs of the state monad [Parser]; the errors they
    report are kept in order, with their line.  The results of [yelement], a vector
    of integers in which the code keeps groups of ports, are records.  Element
    classes are the names that are registered when the lexer is made. *)

From Stdlib Require Import String.
From stdpp Require Import sorting.
From S2P Require Import Prelude ConfParse.

(** ** Lexemes *)

Inductive Kind :=
| lexEOF | lexIdent | lexVariable | lexArrow | lex2Arrow | lex2Colon | lex2Bar | lex3Dot
| lexElementclass | lexRequire | lexProvide | lexDefine
| lexChar (c : Z).
#[global] Instance Kind_eq_dec : EqDecision Kind.
Proof. solve_decision. Defined.

Record Lexeme := mkLexeme { kind : Kind; text : bytes }.
Definition Lexeme_EOF : Lexeme := mkLexeme lexEOF [].

Definition is_kind (t : Lexeme) (k : Kind) : bool := bool_decide (kind t = k).

(** A file, with what the errors say about places in it. *)
Record FileState := mkFileState {
  _big_string : bytes;
  _pos : nat;
  _filename : bytes;
  _original_filename : bytes;
  _lineno : Z
}.

(** A file without a name is called config. *)
Definition FileState_new (data filename : bytes) : FileState :=
  let filename := if bool_decide (filename = []) then bytes_of_string "config" else filename in
  mkFileState data 0 filename filename 1.

Definition at_pos (s : nat) (f : FileState) : FileState :=
  mkFileState (_big_string f) s (_filename f) (_original_filename f) (_lineno f).
Definition at_line (n : Z) (f : FileState) : FileState :=
  mkFileState (_big_string f) (_pos f) (_filename f) (_original_filename f) (u32 n).

Section skips.
Context (str : bytes).

Definition next_line (n : Z) : Z := u32 (n + 1).

(** The functions return a pointer and the line number. *)
Definition skip_line (s : nat) (n : Z) : nat * Z :=
  let e := advance (fun s => before_end str s && negb (is_eol (chr str s))) (length str) s in
  if before_end str e then
    (if (chr str e =? c_cr) && before_end str (e + 1) && (chr str (e + 1) =? c_nl) then (e + 2)%nat else S e, next_line n)
  else (e, n).

(** One character of a text that may be a newline: how far, and the line. *)
Definition newline_at (s : nat) (n : Z) : option (nat * Z) :=
  if chr str s =? c_nl then Some (S s, next_line n)
  else if chr str s =? c_cr then
    Some (if before_end str (s + 1) && (chr str (s + 1) =? c_nl) then (s + 2)%nat else S s, next_line n)
  else None.

Fixpoint skip_slash_star (fuel s : nat) (n : Z) : nat * Z :=
  match fuel with
  | O => (length str, n)
  | S fuel =>
      if negb (before_end str s) then (length str, n)
      else
        match newline_at s n with
        | Some (s, n) => skip_slash_star fuel s n
        | None =>
            if (chr str s =? c_star) && before_end str (s + 1) && (chr str (s + 1) =? c_slash) then ((s + 2)%nat, n)
            else skip_slash_star fuel (S s) n
        end
  end.

(** A comment at [s], if there is one. *)
Definition skip_any_comment (s : nat) (n : Z) : option (nat * Z) :=
  if (chr str s =? c_slash) && before_end str (s + 1) then
    if chr str (s + 1) =? c_slash then Some (skip_line (s + 2) n)
    else if chr str (s + 1) =? c_star then Some (skip_slash_star (length str) (s + 2) n)
    else None
  else None.

Fixpoint skip_backslash_angle (fuel s : nat) (n : Z) : nat * Z :=
  match fuel with
  | O => (length str, n)
  | S fuel =>
      if negb (before_end str s) then (length str, n)
      else
        match newline_at s n with
        | Some (s, n) => skip_backslash_angle fuel s n
        | None =>
            if (chr str s =? c_slash) && before_end str (s + 1) then
              match skip_any_comment s n with
              | Some (s, n) => skip_backslash_angle fuel s n
              | None => skip_backslash_angle fuel (S s) n
              end
            else if chr str s =? c_gt then (S s, n)
            else skip_backslash_angle fuel (S s) n
        end
  end.

Fixpoint skip_quote (endc : Z) (fuel s : nat) (n : Z) : nat * Z :=
  match fuel with
  | O => (length str, n)
  | S fuel =>
      if negb (before_end str s) then (length str, n)
      else
        match newline_at s n with
        | Some (s, n) => skip_quote endc fuel s n
        | None =>
            if (chr str s =? c_backslash) && (endc =? c_dquote) && before_end str (s + 1) then
              if chr str (s + 1) =? c_lt then
                let '(s, n) := skip_backslash_angle (length str) (s + 2) n in skip_quote endc fuel s n
              else if chr str (s + 1) =? c_dquote then skip_quote endc fuel (s + 2) n
              else skip_quote endc fuel (S s) n
            else if chr str s =? endc then (S s, n)
            else skip_quote endc fuel (S s) n
        end
  end.

(** The end of a configuration string, at the parenthesis that closes it. *)
Fixpoint config_end (fuel s : nat) (n depth : Z) : nat * Z :=
  match fuel with
  | O => (s, n)
  | S fuel =>
      if negb (before_end str s) then (s, n)
      else if chr str s =? 40 then config_end fuel (S s) n (depth + 1)
      else if chr str s =? 41 then if depth - 1 =? 0 then (s, n) else config_end fuel (S s) n (depth - 1)
      else
        match newline_at s n with
        | Some (s, n) => config_end fuel s n depth
        | None =>
            match skip_any_comment s n with
            | Some (s, n) => config_end fuel s n depth
            | None =>
                if (chr str s =? c_squote) || (chr str s =? c_dquote) then
                  let '(s, n) := skip_quote (chr str s) (length str) (S s) n in config_end fuel s n depth
                else if (chr str s =? c_backslash) && before_end str (s + 1) && (chr str (s + 1) =? c_lt) then
                  let '(s, n) := skip_backslash_angle (length str) (s + 2) n in config_end fuel s n depth
                else config_end fuel (S s) n depth
            end
        end
  end.

Definition is_word_char (c : Z) : bool := isalnum c || (c =? 95) || (c =? 64).

(** The end of a word: letters, digits, underscores and at signs, in parts that are
    joined by slashes. *)
Fixpoint word_end (fuel s : nat) : nat :=
  match fuel with
  | O => s
  | S fuel =>
      let s := advance (fun s => before_end str s && is_word_char (chr str s)) (length str) (S s) in
      if before_end str (s + 1) && (chr str s =? c_slash) && is_word_char (chr str (s + 1)) then word_end fuel s
      else s
  end.

End skips.

(** ** The lexer *)

Record Port := mkPort { idx : Z; port : Z }.
#[global] Instance Port_eq_dec : EqDecision Port.
Proof. solve_decision. Defined.

(** [Router::Connection]: the end it leads to, and where it comes from. *)
Record Connection := mkConnection { to_ : Port; from_ : Port }.
#[global] Instance Connection_eq_dec : EqDecision Connection.
Proof. solve_decision. Defined.

(** The outermost [Compound]: vectors with an entry per element, and the
    connections. *)
Record Compound := mkCompound {
  _elements : list Z;
  _element_names : list bytes;
  _element_configurations : list bytes;
  _element_landmarks : list (bytes * Z);
  _element_nports : list (Z * Z);
  _conn : list Connection
}.
Definition Compound_new : Compound := mkCompound [] [] [] [] [] [].

Record Lexer := mkLexer {
  _file : FileState;
  _unlex : list Lexeme;
  _element_types : list bytes;
  _element_map : list (bytes * Z);
  _c : Compound;
  _errors : list (Z * string)
}.

(** What a run of the parser comes to: a value, a failed assertion, a text that is
    not modelled, or the end of the fuel. *)
Inductive outcome (A : Type) :=
| Value (a : A)
| Asserted
| Outside
| NoFuel.
Arguments Value {A} a.
Arguments Asserted {A}.
Arguments Outside {A}.
Arguments NoFuel {A}.

Definition Parser (A : Type) : Type := Lexer -> outcome (A * Lexer).
#[global] Instance Parser_ret : MRet Parser := fun A a l => Value (a, l).
#[global] Instance Parser_bind : MBind Parser := fun A B k p l =>
  match p l with
  | Value (a, l) => k a l
  | Asserted => Asserted
  | Outside => Outside
  | NoFuel => NoFuel
  end.

Notation "'let+' x := m 'in' k" := (mbind (M:=Parser) (fun x => k) m)
  (at level 10, x pattern, m at level 100, k at level 200).
Notation "m ;+ k" := (mbind (M:=Parser) (fun _ => k) m) (at level 100, k at level 200, right associativity).

Definition get : Parser Lexer := fun l => Value (l, l).
Definition modify (f : Lexer -> Lexer) : Parser unit := fun l => Value (tt, f l).
Definition outside {A} : Parser A := fun _ => Outside.
Definition no_fuel {A} : Parser A := fun _ => NoFuel.
Definition when_ (b : bool) (p : Parser unit) : Parser unit := if b then p else mret tt.

Definition set_file (f : FileState) (l : Lexer) : Lexer :=
  mkLexer f (_unlex l) (_element_types l) (_element_map l) (_c l) (_errors l).
Definition set_unlex (u : list Lexeme) (l : Lexer) : Lexer :=
  mkLexer (_file l) u (_element_types l) (_element_map l) (_c l) (_errors l).
Definition set_types (ts : list bytes) (l : Lexer) : Lexer :=
  mkLexer (_file l) (_unlex l) ts (_element_map l) (_c l) (_errors l).
Definition set_map (m : list (bytes * Z)) (l : Lexer) : Lexer :=
  mkLexer (_file l) (_unlex l) (_element_types l) m (_c l) (_errors l).
Definition set_c (c : Compound) (l : Lexer) : Lexer :=
  mkLexer (_file l) (_unlex l) (_element_types l) (_element_map l) c (_errors l).
Definition add_error (line : Z) (msg : string) (l : Lexer) : Lexer :=
  mkLexer (_file l) (_unlex l) (_element_types l) (_element_map l) (_c l) (_errors l ++ [(line, msg)]).

Definition lerror (msg : string) : Parser unit := modify (fun l => add_error (_lineno (_file l)) msg l).
(** [_errh->lerror] with the place of an element. *)
Definition lerror_at (line : Z) (msg : string) : Parser unit := modify (add_error line msg).

(** ** Reading lexemes *)

Section directive.
Context (str : bytes).
Definition is_blank (c : Z) : bool := (c =? c_space) || (c =? c_tab).
Definition skip_blanks (s : nat) : nat := advance (fun s => before_end str s && is_blank (chr str s)) (length str) s.

(** A line number, as an [unsigned]. *)
Fixpoint line_number (fuel s : nat) (n : Z) : nat * Z :=
  match fuel with
  | S fuel =>
      if before_end str s && isdigit (chr str s) then line_number fuel (S s) (u32 (n * 10 + chr str s - 48)) else (s, n)
  | O => (s, n)
  end.

(** The end of a file name after its opening quote. *)
Fixpoint filename_end (fuel s : nat) : nat :=
  match fuel with
  | S fuel =>
      if before_end str s && negb (chr str s =? c_dquote) && negb (is_eol (chr str s)) then
        filename_end fuel
          (if (chr str s =? c_backslash) && before_end str (s + 1) && negb (is_eol (chr str (s + 1)))
           then (s + 2)%nat else S s)
      else s
  | O => s
  end.

(** What a directive at [s] does: where it ends, the line and the file name it sets,
    and whether it is a good one. *)
Definition line_directive (s : nat) (n : Z) (filename original : bytes) : nat * Z * bytes * bool :=
  let s := skip_blanks (S s) in
  let s :=
    if before_end str (s + 4) && bool_decide (substring str s (s + 4) = bytes_of_string "line") && is_blank (chr str (s + 4))
    then skip_blanks (s + 5) else s in
  if negb (before_end str s && isdigit (chr str s)) then
    let '(s, n) := skip_line str s n in (s, n, filename, false)
  else
    let '(s, n) := line_number (length str) s 0 in
    let n := u32 (n - 1) in
    let s := skip_blanks s in
    let '(s, filename) :=
      if before_end str s && (chr str s =? c_dquote) then
        let e := filename_end (length str) (S s) in
        let name := cp_unquote (substring str s e ++ [c_dquote]) in
        (e, if bool_decide (name = []) then original else name)
      else (s, filename) in
    let s := advance (fun s => before_end str s && negb (is_eol (chr str s))) (length str) s in
    ((if before_end str (s + 1) && (chr str s =? c_cr) && (chr str (s + 1) =? c_nl) then S s else s), n, filename, true).

Fixpoint skip_whitespace (fuel s : nat) (n : Z) : nat * Z :=
  match fuel with
  | O => (s, n)
  | S fuel =>
      if before_end str s && isspace (chr str s) then
        match newline_at str s n with
        | Some (s, n) => skip_whitespace fuel s n
        | None => skip_whitespace fuel (S s) n
        end
      else (s, n)
  end.

(** The loop over spaces, comments and directives: the errors are the lines of bad
    directives. *)
Fixpoint skip_blank_text (original : bytes) (fuel s : nat) (n : Z) (filename : bytes) (bad : list Z)
  : nat * Z * bytes * list Z :=
  match fuel with
  | O => (s, n, filename, bad)
  | S fuel =>
      let '(s, n) := skip_whitespace (length str) s n in
      if negb (before_end str s) then (s, n, filename, bad)
      else if (chr str s =? c_slash) && before_end str (s + 1) then
        match skip_any_comment str s n with
        | Some (s, n) => skip_blank_text original fuel s n filename bad
        | None => (s, n, filename, bad)
        end
      else if (chr str s =? 35) && ((s =? 0)%nat || is_eol (chr str (s - 1))) then
        let '(s, n', filename, ok) := line_directive s n filename original in
        skip_blank_text original fuel s n' filename (if ok then bad else bad ++ [n])
      else (s, n, filename, bad)
  end.

(** The lexeme at [s], which is not blank, and where it ends.  The kind of a single
    character is its code, and that of the end is 0. *)
Definition lexeme_at (s : nat) : Lexeme * nat :=
  let c := chr str s in
  let two (k : Kind) := (mkLexeme k (substring str s (s + 2)), (s + 2)%nat) in
  if is_word_char c then
    let e := word_end str (length str) s in
    let word := substring str s e in
    (mkLexeme
       (if bool_decide (word = bytes_of_string "elementclass") then lexElementclass
        else if bool_decide (word = bytes_of_string "require") then lexRequire
        else if bool_decide (word = bytes_of_string "provide") then lexProvide
        else if bool_decide (word = bytes_of_string "define") then lexDefine
        else lexIdent) word, e)
  else if c =? c_dollar then
    let e := advance (fun s => before_end str s && (isalnum (chr str s) || (chr str s =? 95))) (length str) (S s) in
    (mkLexeme lexVariable (substring str (S s) e), e)
  else if before_end str (s + 1) && (c =? 45) && (chr str (s + 1) =? c_gt) then two lexArrow
  else if before_end str (s + 1) && (c =? 61) && (chr str (s + 1) =? c_gt) then two lex2Arrow
  else if before_end str (s + 1) && (c =? 58) && (chr str (s + 1) =? 58) then two lex2Colon
  else if before_end str (s + 1) && (c =? 124) && (chr str (s + 1) =? 124) then two lex2Bar
  else if before_end str (s + 2) && (c =? 46) && (chr str (s + 1) =? 46) && (chr str (s + 2) =? 46)
  then (mkLexeme lex3Dot (substring str s (s + 3)), (s + 3)%nat)
  else (mkLexeme (if c =? 0 then lexEOF else lexChar c) (substring str s (s + 1)), S s).
End directive.

(** [FileState::next_lexeme] *)
Definition next_lexeme (f : FileState) : Lexeme * FileState * list Z :=
  let str := _big_string f in
  let '(s, n, filename, bad) := skip_blank_text str (_original_filename f) (S (length str)) (_pos f) (_lineno f) (_filename f) [] in
  let '(t, s) := if before_end str s then lexeme_at str s else (Lexeme_EOF, length str) in
  (t, mkFileState str s filename (_original_filename f) n, bad).

Definition bad_directives (bad : list Z) (l : Lexer) : Lexer :=
  fold_left (fun l n => add_error n "unknown preprocessor directive" l) bad l.

Definition lex : Parser Lexeme := fun l =>
  match _unlex l with
  | t :: u => Value (t, set_unlex u l)
  | [] => let '(t, f, bad) := next_lexeme (_file l) in Value (t, set_file f (bad_directives bad l))
  end.

Definition UNLEX_SIZE : nat := 2.
Definition unlex (t : Lexeme) : Parser unit := fun l =>
  if (length (_unlex l) <? UNLEX_SIZE)%nat then Value (tt, set_unlex (t :: _unlex l) l) else Asserted.

Definition lex_config : Parser bytes := fun l =>
  if bool_decide (_unlex l = []) then
    let f := _file l in
    let '(s, n) := config_end (_big_string f) (length (_big_string f)) (_pos f) (_lineno f) 1 in
    Value (substring (_big_string f) (_pos f) s, set_file (at_line n (at_pos s f)) l)
  else Asserted.

(** [expect]: a lexeme of another kind is not taken. *)
Definition expect (k : Kind) (no_error : bool) : Parser bool := fun l =>
  let fail l := Value (false, if no_error then l else add_error (_lineno (_file l)) "expected" l) in
  match _unlex l with
  | t :: u => if is_kind t k then Value (true, set_unlex u l) else fail l
  | [] =>
      let '(t, f, bad) := next_lexeme (_file l) in
      let l := bad_directives bad l in
      if is_kind t k then Value (true, set_file f l) else fail l
  end.

(** ** Elements *)

Fixpoint index_of (name : bytes) (i : Z) (names : list bytes) : Z :=
  match names with
  | [] => -1
  | n :: names => if decide (n = name) then i else index_of name (i + 1) names
  end.

Definition TUNNEL_TYPE : Z := 0.
Definition ERROR_TYPE : Z := 1.

(** The types a lexer is made with, and those that are registered. *)
Definition Lexer_new (classes : list bytes) : list bytes := bytes_of_string "<tunnel>" :: bytes_of_string "Error" :: classes.

Definition element_type (name : bytes) (l : Lexer) : Z := index_of name 0 (_element_types l).

Definition force_element_type (name : bytes) (report_error : bool) : Parser Z :=
  let+ l := get in
  let ftid := element_type name l in
  if 0 <=? ftid then mret ftid
  else
    when_ report_error (lerror "unknown element class") ;+
    modify (fun l => set_types (_element_types l ++ [name]) l) ;+
    mret (Z.of_nat (length (_element_types l))).

Fixpoint map_find (name : bytes) (m : list (bytes * Z)) : Z :=
  match m with
  | [] => -1
  | kv :: m => if decide (fst kv = name) then snd kv else map_find name m
  end.

(** Every part of a name between slashes has something other than digits. *)
Fixpoint name_ok (name : bytes) (ok : bool) : bool :=
  match name with
  | [] => ok
  | c :: name =>
      if c =? c_slash then ok && (match name with [] => true | _ => name_ok name false end)
      else name_ok name (ok || negb (isdigit c))
  end.

Definition get_element (name : bytes) (etype : Z) (conf : bytes) (filename : bytes) (lineno : Z) : Parser Z :=
  let+ l := get in
  if bool_decide (name = []) || (etype <? 0) || (Z.of_nat (length (_element_types l)) <=? etype) then (fun _ => Asserted)
  else if 0 <=? map_find name (_element_map l) then mret (map_find name (_element_map l))
  else
    let c := _c l in
    let eid := Z.of_nat (length (_elements c)) in
    modify (set_map ((name, eid) :: _element_map l)) ;+
    when_ (negb (name_ok name false)) (lerror "element name has all-digit component") ;+
    let place := if bool_decide (filename = []) && (lineno =? 0) then (_filename (_file l), _lineno (_file l)) else (filename, lineno) in
    modify (set_c (mkCompound (_elements c ++ [etype]) (_element_names c ++ [name]) (_element_configurations c ++ [conf])
                     (_element_landmarks c ++ [place]) (_element_nports c ++ [(0, 0)]) (_conn c))) ;+
    mret eid.

(** [String (int)] *)
Fixpoint decimal_digits (fuel : nat) (n : Z) (acc : bytes) : bytes :=
  match fuel with
  | O => acc
  | S fuel => if n <? 10 then (48 + n) :: acc else decimal_digits fuel (n / 10) ((48 + n mod 10) :: acc)
  end.
Definition String_int (n : Z) : bytes :=
  let digits := S (Z.to_nat (Z.log2 (Z.abs n))) in
  if n <? 0 then 45 :: decimal_digits digits (- n) [] else decimal_digits digits n [].

(** Outside of compound elements [_anonymous_offset] is 0. *)
Definition anon_element_name (class_name : bytes) (l : Lexer) : bytes :=
  59 :: class_name ++ 64 :: String_int (Z.of_nat (length (_elements (_c l))) + 1).

(** ** Statements *)

(** The ports of a list in brackets; a -1 at the end of an open one. *)
Fixpoint yport_loop (fuel : nat) (nports : nat) (ports : list Z) : Parser (list Z * bool) :=
  match fuel with
  | O => no_fuel
  | S fuel =>
      let+ t := lex in
      let next ports :=
        let+ t := lex in
        if is_kind t (lexChar 93) then mret (ports, true)
        else
          when_ (negb (is_kind t (lexChar c_comma))) (lerror "syntax error: expected ','" ;+ unlex t) ;+
          yport_loop fuel nports ports in
      if is_kind t lexIdent then
        match IntArg_parse (text t) true 4 with
        | Some p => next (ports ++ [p])
        | None => lerror "syntax error: port number should be integer" ;+ next (ports ++ [0])
        end
      else if is_kind t (lexChar 93) then
        mret ((if (nports =? length ports)%nat then ports ++ [0] else ports) ++ [-1], true)
      else
        lerror "syntax error: expected port number" ;+ unlex t ;+
        mret (ports, negb (length ports =? nports)%nat)
  end.

Definition yport (fuel : nat) : Parser (list Z) :=
  let+ open := expect (lexChar 91) true in
  if negb open then mret []
  else let+ r := yport_loop fuel 0 [] in mret (fst r).

(** A group of the vector [yelement] makes, and what it remembers of an element
    until it knows the whole list. *)
Record Group := mkGroup { g_element : Z; g_inputs : list Z; g_outputs : list Z }.

Record ElementState := mkElementState {
  es_name : bytes;
  es_type : Z;
  es_decl_type : Z;
  es_bare : bool;
  es_configuration : bytes;
  es_filename : bytes;
  es_lineno : Z;
  es_inputs : list Z;
  es_outputs : list Z
}.

(** One element of the list after its input ports, from its name [t] on: the
    declaration, the configuration and the output ports; and the next lexeme. *)
Definition yelement_item (fuel : nat) (inputs : list Z) (name : bytes) : Parser (ElementState * Lexeme) :=
  let+ l := get in
  let type := element_type name l in
  let filename := _filename (_file l) in
  let lineno := _lineno (_file l) in
  let+ t := lex in
  let+ (decl_type, bare, t) :=
    (if is_kind t lex2Colon then
       let+ t := lex in
       let+ decl :=
         (if is_kind t lexIdent then force_element_type (text t) true
          else if is_kind t (lexChar 123) then outside
          else
            lerror "missing element type in declaration" ;+
            let+ d := force_element_type name true in
            unlex t ;+ mret d) in
       let+ t := lex in mret (decl, false, t)
     else mret (-1, true, t)) in
  let+ (configuration, bare, t) :=
    (if is_kind t (lexChar 40) then
       let+ l := get in
       when_ (0 <=? map_find name (_element_map l)) (lerror "configuration string ignored on element reference") ;+
       let+ conf := lex_config in
       expect (lexChar 41) false ;+
       let+ t := lex in mret (conf, false, t)
     else mret ([], bare, t)) in
  let+ (outputs, t) :=
    (if is_kind t (lexChar 91) then
       unlex t ;+
       let+ outputs := yport fuel in
       let+ t := lex in mret (outputs, t)
     else mret ([], t)) in
  mret (mkElementState name type decl_type bare configuration filename lineno inputs outputs, t).

(** The list of elements up to a lexeme that does not go on with it; [None] when
    there is none. *)
Fixpoint yelement_list (in_allowed : bool) (fuel : nat) (es : list ElementState) : Parser (option (list ElementState * Lexeme)) :=
  match fuel with
  | O => no_fuel
  | S fuel =>
      let+ inputs := yport fuel in
      let+ t := lex in
      if is_kind t lexIdent then
        let+ (e, t) := yelement_item fuel inputs (text t) in
        if is_kind t (lexChar c_comma) then yelement_list in_allowed fuel (es ++ [e])
        else mret (Some (es ++ [e], t))
      else if is_kind t (lexChar 123) || is_kind t (lexChar 40) then outside
      else
        when_ (negb (bool_decide (inputs = []))) (lerror "stranded port ignored") ;+
        match es with
        | [] => (if in_allowed then unlex t else lerror "syntax error near") ;+ mret None
        | _ => mret (Some (es, t))
        end
  end.

Definition is_arrow (t : Lexeme) : bool := is_kind t lexArrow || is_kind t lex2Arrow.

(** All elements but the last are names alone. *)
Fixpoint all_bare (es : list ElementState) : bool :=
  match es with
  | [] | [_] => true
  | e :: es => es_bare e && all_bare es
  end.

Definition with_decl (e : ElementState) (decl : Z) (conf : bytes) : ElementState :=
  mkElementState (es_name e) (es_type e) decl (es_bare e) conf (es_filename e) (es_lineno e) (es_inputs e) (es_outputs e).

(** A declaration of several elements gives all of them the class and the
    configuration of the last. *)
Definition spread (in_allowed : bool) (t : Lexeme) (es : list ElementState) : list ElementState :=
  let any_ports := existsb (fun e => negb (bool_decide (es_inputs e = [])) || negb (bool_decide (es_outputs e = []))) es in
  match last es with
  | Some e =>
      if (1 <? length es)%nat && negb in_allowed && negb (is_arrow t) && negb any_ports &&
         all_bare es && negb (es_decl_type e =? 0)
      then map (fun x => with_decl x (es_decl_type e) (es_configuration e)) (removelast es) ++ [e]
      else es
  | None => es
  end.

(** The index of an element that is used or declared. *)
Definition add_element (e : ElementState) : Parser Group :=
  let+ l := get in
  let old := map_find (es_name e) (_element_map l) in
  let+ i :=
    (if (0 <=? es_type e) || (old <? 0) then
       when_ ((0 <=? es_decl_type e) && (0 <=? es_type e)) (lerror_at (es_lineno e) "class used as element name") ;+
       let+ type :=
         (if (es_decl_type e <? 0) && (es_type e <? 0) then
            lerror_at (es_lineno e) "undeclared element" ;+ force_element_type (es_name e) false
          else mret (es_type e)) in
       let+ l := get in
       let name := if 0 <=? type then anon_element_name (es_name e) l else es_name e in
       get_element name (if 0 <=? type then type else es_decl_type e) (es_configuration e) (es_filename e) (es_lineno e)
     else
       when_ (0 <=? es_decl_type e)
         (lerror_at (es_lineno e) "redeclaration of element" ;+
          when_ (negb (default 0 (_elements (_c l) !! Z.to_nat old) =? TUNNEL_TYPE))
            (lerror_at (snd (default ([], 0) (_element_landmarks (_c l) !! Z.to_nat old))) "element previously declared here")) ;+
       mret old) in
  mret (mkGroup i (es_inputs e) (es_outputs e)).

Fixpoint add_elements (es : list ElementState) : Parser (list Group) :=
  match es with
  | [] => mret []
  | e :: es => let+ g := add_element e in let+ gs := add_elements es in mret (g :: gs)
  end.

Definition yelement (in_allowed : bool) (fuel : nat) : Parser (option (list Group)) :=
  let+ r := yelement_list in_allowed fuel [] in
  match r with
  | None => mret None
  | Some (es, t) => unlex t ;+ let+ gs := add_elements (spread in_allowed t es) in mret (Some gs)
  end.

(** ** Connections *)

(** [Compound::connect] *)
Definition connect (from_idx from_port to_idx to_port : Z) (c : Compound) : Compound :=
  let from_port := if from_port <? 0 then 0 else from_port in
  let to_port := if to_port <? 0 then 0 else to_port in
  let nports := alter (fun n => (if fst n <=? to_port then i32 (to_port + 1) else fst n, snd n)) (Z.to_nat to_idx) (_element_nports c) in
  let nports := alter (fun n => (fst n, if snd n <=? from_port then i32 (from_port + 1) else snd n)) (Z.to_nat from_idx) nports in
  mkCompound (_elements c) (_element_names c) (_element_configurations c) (_element_landmarks c) nports
    (_conn c ++ [mkConnection (mkPort to_idx to_port) (mkPort from_idx from_port)]).

Definition ports_of (isoutput : bool) (g : Group) : list Z := if isoutput then g_outputs g else g_inputs g.

Definition yconnection_check_useless (x : list Group) (isoutput : bool) : Parser unit :=
  when_ (existsb (fun g => negb (bool_decide (ports_of isoutput g = []))) x)
    (lerror (if isoutput then "output ports ignored at end of chain" else "input ports ignored at start of chain")).

(** The least number of ports, and how many groups are open. *)
Fixpoint yconnection_analyze_ports (x : list Group) (isoutput : bool) : nat * nat :=
  match x with
  | [] => (0, 0)%nat
  | g :: x =>
      let '(min_ports, expandable) := yconnection_analyze_ports x isoutput in
      let ports := ports_of isoutput g in
      let n := length ports in
      if (n <=? 1)%nat then (S min_ports, expandable)
      else if bool_decide (last ports = Some (-1)) then (min_ports + (n - 1), S expandable)%nat
      else (min_ports + n, expandable)%nat
  end.

(** One side of the loop of [yconnection_connect_all]: the groups from [it] on, the
    position in its ports, the port, or -1 before it is known, and how often an
    open list is still extended. *)
Record Side := mkSide { it : list Group; ppos : nat; side_port : Z; nexpandable : Z }.

Definition first_port (isoutput : bool) (g : Group) (p : Z) : Z :=
  if p <? 0 then default 0 (head (ports_of isoutput g)) else p.

(** The step of a side from its group [g] and its port [p]. *)
Definition next_port (isoutput step : bool) (minp : nat) (g : Group) (rest : list Group) (p : Z) (s : Side) : Side :=
  if negb step then mkSide (g :: rest) (ppos s) p (nexpandable s)
  else
    let pvec := ports_of isoutput g in
    let np := length pvec in
    let pos := S (ppos s) in
    let at_ i := default 0 (pvec !! i) in
    if (pos <? np)%nat && (0 <=? at_ pos) then mkSide (g :: rest) pos (at_ pos) (nexpandable s)
    else if (0 <? np)%nat && (at_ (np - 1)%nat =? -1) && (0 <? nexpandable s) then
      mkSide (g :: rest) pos (i32 (at_ (np - 2)%nat + Z.of_nat pos - (Z.of_nat np - 2))) (nexpandable s - 1)
    else if (np =? 0)%nat && (minp =? 1)%nat && (0 <? nexpandable s) then
      mkSide (g :: rest) pos (Z.of_nat pos) (nexpandable s - 1)
    else mkSide rest 0 (-1) (nexpandable s).

Fixpoint connect_loop (fuel : nat) (step_in step_out : bool) (min_in min_out : nat) (ins outs : Side) : Parser unit :=
  match it ins, it outs with
  | gi :: ri, go :: ro =>
      match fuel with
      | O => no_fuel
      | S fuel =>
          let pi := first_port false gi (side_port ins) in
          let po := first_port true go (side_port outs) in
          modify (fun l => set_c (connect (g_element go) po (g_element gi) pi (_c l)) l) ;+
          connect_loop fuel step_in step_out min_in min_out
            (next_port false step_in min_in gi ri pi ins) (next_port true step_out min_out go ro po outs)
      end
  | _, _ => mret tt
  end.

Definition no_ports (isoutput : bool) (x : list Group) : bool :=
  match x with
  | g :: _ => bool_decide (ports_of isoutput g = [])
  | [] => true
  end.

Definition yconnection_connect_all (outputs inputs : list Group) (connector : Kind) : Parser unit :=
  let '(min_out, exp_out) := yconnection_analyze_ports outputs true in
  let '(min_in, exp_in) := yconnection_analyze_ports inputs false in
  let many := (1 <? exp_in + exp_out)%nat in
  let exp_out := if many && (min_in <? min_out)%nat then O else exp_out in
  let exp_in := if many && negb (min_in <? min_out)%nat then O else exp_in in
  let wide := bool_decide (connector = lex2Arrow) in
  let exp_in := if wide && (min_in =? 1)%nat && (1 <? min_out)%nat && no_ports false inputs then 1%nat else exp_in in
  let exp_out := if wide && (min_out =? 1)%nat && (1 <? min_in)%nat && no_ports true outputs then 1%nat else exp_out in
  let step_in := (1 <? min_in)%nat || negb (exp_in =? 0)%nat in
  let step_out := (1 <? min_out)%nat || negb (exp_out =? 0)%nat in
  let nexp (e mine other : nat) := if (e =? 0)%nat then 0 else Z.of_nat other - Z.of_nat mine in
  when_ many (lerror "at most one expandable port allowed per connection") ;+
  when_ (step_in && step_out)
    (when_ (negb wide) (lerror "syntax error: many-to-many connections require '=>'") ;+
     if (exp_in =? 0)%nat && (exp_out =? 0)%nat && negb (min_in =? min_out)%nat then
       lerror "connection mismatch: outputs connected to inputs"
     else if (exp_in =? 0)%nat && (min_in <? min_out)%nat then
       lerror "connection mismatch: or more outputs connected to inputs"
     else
       when_ ((exp_out =? 0)%nat && (min_out <? min_in)%nat)
         (lerror "connection mismatch: outputs connected to or more inputs")) ;+
  let step_in := step_in || negb step_out in
  connect_loop (3 * (min_in + min_out)) step_in step_out min_in min_out
    (mkSide inputs 0 (-1) (nexp exp_in min_in min_out)) (mkSide outputs 0 (-1) (nexp exp_out min_out min_in)).

(** ** Statements *)

(** The kinds that end a chain and belong to what follows. *)
Definition starts_next (t : Lexeme) : bool :=
  is_kind t lexIdent || is_kind t (lexChar 123) || is_kind t (lexChar 125) || is_kind t (lexChar 91) || is_kind t (lexChar 41) ||
  is_kind t lex2Bar || is_kind t lexElementclass || is_kind t lexRequire || is_kind t lexProvide || is_kind t lexDefine.

(** The lexemes after an element up to the arrow that goes on with the chain, or
    [None] at its end. *)
Fixpoint relex (fuel : nat) (elements2 : list Group) : Parser (option Kind) :=
  match fuel with
  | O => no_fuel
  | S fuel =>
      let+ t := lex in
      if is_kind t (lexChar c_comma) || is_kind t lex2Colon then lerror "syntax error before" ;+ relex fuel elements2
      else if is_arrow t then mret (Some (kind t))
      else if starts_next t || is_kind t (lexChar 59) || is_kind t lexEOF then
        when_ (starts_next t) (unlex t) ;+ yconnection_check_useless elements2 true ;+ mret None
      else
        lerror "syntax error near" ;+
        when_ (is_kind t lexVariable || is_kind t lex3Dot) (unlex t) ;+ mret None
  end.

Fixpoint yconnection_loop (fuel : nat) (elements1 : list Group) (connector : Kind) : Parser unit :=
  match fuel with
  | O => no_fuel
  | S fuel =>
      let+ r := yelement (negb (bool_decide (elements1 = []))) fuel in
      match r with
      | None => yconnection_check_useless elements1 true
      | Some elements2 =>
          (if bool_decide (elements1 = []) then yconnection_check_useless elements2 false
           else yconnection_connect_all elements1 elements2 connector) ;+
          let+ next := relex fuel elements2 in
          match next with
          | Some connector => yconnection_loop fuel elements2 connector
          | None => mret tt
          end
      end
  end.

Definition yconnection (fuel : nat) : Parser unit := yconnection_loop fuel [] lexEOF.

(** The kinds a connection or a declaration starts with. *)
Definition starts_connection (t : Lexeme) : bool :=
  is_kind t lexIdent || is_kind t (lexChar 91) || is_kind t (lexChar 123) || is_kind t (lexChar 40) || is_arrow t.

(** Whether there may be more statements.  Element classes, requirements and
    definitions are outside. *)
Definition ystatement (fuel : nat) : Parser bool :=
  let+ t := lex in
  if starts_connection t then unlex t ;+ yconnection fuel ;+ mret true
  else if is_kind t lexElementclass || is_kind t lexRequire || is_kind t lexDefine then outside
  else if is_kind t (lexChar 59) then mret true
  else if is_kind t lexEOF then mret false
  else lerror "syntax error near" ;+ mret true.

Fixpoint statements (fuel n : nat) : Parser unit :=
  match n with
  | O => no_fuel
  | S n =>
      let+ more := ystatement fuel in
      if (more : bool) then statements fuel n else mret tt
  end.

(** ** Completion *)

(** [name.find_right('@')], as the text up to it and the text behind it. *)
Fixpoint split_right (c : Z) (name : bytes) : option (bytes * bytes) :=
  match name with
  | [] => None
  | x :: name =>
      match split_right c name with
      | Some (pre, post) => Some (x :: pre, post)
      | None => if x =? c then Some ([x], name) else None
      end
  end.

(** The do loop: the next number whose name is free. *)
Fixpoint free_name (fuel : nat) (m : list (bytes * Z)) (prefix : bytes) (anonymizer : Z) : option bytes :=
  match fuel with
  | O => None
  | S fuel =>
      let anonymizer := i32 (anonymizer + 1) in
      let name := prefix ++ String_int anonymizer in
      if 0 <=? map_find name m then free_name fuel m prefix anonymizer else Some name
  end.

(** The number is a decimal one without leading zeros. *)
Definition deanonymize_element_name (ename : bytes) (eidx : Z) : Parser bytes := fun l =>
  match ename with
  | [] => Asserted
  | c :: name =>
      let found (name : bytes) := Value (name, set_map ((name, eidx) :: _element_map l) l) in
      if negb (c =? 59) then Asserted
      else if 0 <=? map_find name (_element_map l) then
        match split_right 64 name with
        | None => Asserted
        | Some (prefix, number) =>
            let anonymizer := default 0 (IntArg_parse (take (advance (fun i => (i <? length number)%nat && isdigit (chr number i)) (length number) 0) number) true 4) in
            match free_name (S (length (_element_map l))) (_element_map l) prefix anonymizer with
            | Some name => found name
            | None => NoFuel
            end
        end
      else found name
  end.

Definition set_names (names : list bytes) (c : Compound) : Compound :=
  mkCompound (_elements c) names (_element_configurations c) (_element_landmarks c) (_element_nports c) (_conn c).

(** [expand_compound_element] for an element that is not compound.  A configuration
    without a dollar sign is its own expansion; others are outside. *)
Definition expand_compound_element (which : nat) : Parser unit :=
  let+ l := get in
  let name := default [] (_element_names (_c l) !! which) in
  (match name with
   | [] => (fun _ => Asserted)
   | c :: _ =>
       if c =? 59 then
         let+ name := deanonymize_element_name name (Z.of_nat which) in
         modify (fun l => set_c (set_names (<[which := name]> (_element_names (_c l))) (_c l)) l)
       else mret tt
   end) ;+
  if existsb (fun c => c =? c_dollar) (default [] (_element_configurations (_c l) !! which)) then outside else mret tt.

Fixpoint expand_all (n : nat) : Parser unit :=
  match n with
  | O => mret tt
  | S n => expand_all n ;+ expand_compound_element n
  end.

Definition port_lt (x y : Port) : bool := (idx x <? idx y) || ((idx x =? idx y) && (port x <? port y)).
Definition connection_lt (x y : Connection) : bool :=
  port_lt (to_ x) (to_ y) || (bool_decide (to_ x = to_ y) && port_lt (from_ x) (from_ y)).

(** [click_qsort] of connections.  The order is total, so that every sort has this
    result. *)
Definition connection_le (x y : Connection) : Prop := connection_lt y x = false.
#[global] Instance connection_le_dec x y : Decision (connection_le x y).
Proof. unfold connection_le. apply _. Defined.
Definition sort_connections (conn : list Connection) : list Connection := merge_sort connection_le conn.

(** What [create_router] hands to the router: the class, the name and the
    configuration of each element, and the connections. *)
Record RouterConf := mkRouterConf {
  router_elements : list (bytes * bytes * bytes);
  router_conn : list Connection;
  conn_sorted : bool
}.

(** [Router::add_connection] *)
Definition add_connection (c : Connection) (r : RouterConf) : res RouterConf :=
  assert* ((0 <=? idx (from_ c)) && (0 <=? port (from_ c)) && (0 <=? idx (to_ c)) && (0 <=? port (to_ c)));
  let sorted := conn_sorted r && match last (router_conn r) with Some b => negb (connection_lt c b) | None => true end in
  let known :=
    if sorted then bool_decide (last (router_conn r) = Some c)
    else existsb (fun b => bool_decide (b = c)) (router_conn r) in
  Ok (mkRouterConf (router_elements r) (if known then router_conn r else router_conn r ++ [c]) sorted).

Fixpoint add_connections (cs : list Connection) (r : RouterConf) : res RouterConf :=
  match cs with
  | [] => Ok r
  | c :: cs => let* r := add_connection c r in add_connections cs r
  end.

(** Every class of a flat configuration makes an element, so that the router's
    numbers are those of the lexer. *)
Definition create_router : Parser RouterConf :=
  let+ l := get in
  expand_all (length (_elements (_c l))) ;+
  let+ l := get in
  let c := _c l in
  let classes := map (fun t => default [] (_element_types l !! Z.to_nat t)) (_elements c) in
  match add_connections (sort_connections (_conn c))
          (mkRouterConf (zip (zip classes (_element_names c)) (_element_configurations c)) [] true) with
  | Ok r => mret r
  | Fault _ => (fun _ => Asserted)
  end.

(** [begin_parse] of a text, and [click_read_router] without the archives: all
    statements, and the router that comes of them. *)
Definition begin_parse (classes : list bytes) (data filename : bytes) : Lexer :=
  mkLexer (FileState_new data filename) [] (Lexer_new classes) [] Compound_new [].

Definition click_read_router (classes : list bytes) (data filename : bytes) : outcome (RouterConf * list (Z * string)) :=
  let fuel := (2 * length data + 2)%nat in
  match (statements fuel fuel ;+ create_router) (begin_parse classes data filename) with
  | Value (r, l) => Value (r, _errors l)
  | Asserted => Asserted
  | Outside => Outside
  | NoFuel => NoFuel
  end.
