(* ===== verification/LexerProps.v ===== *)
(** * LexerProps: the parser ends, and none of its assertions fails

    Whatever the text is, the parser reaches its end with the fuel that
    [click_read_router] gives it: every loop takes lexemes, of which there are at
    most as many as characters.  At most one lexeme is ever put back, so that
    neither the assertion of [unlex] nor that of [lex_config] fails; every element has
    a name and a registered class, as [get_element] asserts, and all names and
    connections have the form that [create_router] asserts. *)

From Stdlib Require Import String.
From stdpp Require Import sorting.
From S2P Require Import Prelude ConfParse Lexer.

(** ** The pointers move forward *)

Section forward.
Context (str : bytes).

(** What is left of the text. *)
Definition remaining (s : nat) : nat := (length str - s)%nat.

Lemma advance_le cond fuel s : (s <= advance cond fuel s)%nat.
Proof. revert s. induction fuel as [|fuel IH]; intros s; cbn; [lia|]. destruct (cond s); [|lia]. specialize (IH (S s)). lia. Qed.

Lemma skip_line_forward s n : (remaining (fst (skip_line str s n)) <= remaining s)%nat.
Proof.
  unfold skip_line, remaining.
  pose proof (advance_le (fun s => before_end str s && negb (is_eol (chr str s))) (length str) s).
  repeat case_match; cbn [fst]; lia.
Qed.

Lemma newline_at_forward s n s' n' : newline_at str s n = Some (s', n') -> (s < s')%nat.
Proof. unfold newline_at. intros E. repeat case_match; simplify_eq; lia. Qed.

Lemma skip_slash_star_forward fuel s n : (remaining (fst (skip_slash_star str fuel s n)) <= remaining s)%nat.
Proof.
  revert s n. induction fuel as [|fuel IH]; intros s n; cbn [skip_slash_star]; [unfold remaining; cbn; lia|].
  destruct (before_end str s); cbn [negb]; [|unfold remaining; cbn; lia].
  destruct (newline_at str s n) as [[s' n']|] eqn:E.
  - apply newline_at_forward in E. specialize (IH s' n'). unfold remaining in *. lia.
  - case_match; [unfold remaining; cbn; lia|]. specialize (IH (S s) n). unfold remaining in *. lia.
Qed.

Lemma skip_any_comment_forward s n s' n' :
  skip_any_comment str s n = Some (s', n') -> (remaining s' <= remaining (s + 2))%nat.
Proof.
  unfold skip_any_comment. intros E. repeat case_match; try done; injection E as E.
  - pose proof (skip_line_forward (s + 2) n) as Hl. by rewrite E in Hl.
  - pose proof (skip_slash_star_forward (length str) (s + 2) n) as Hl. by rewrite E in Hl.
Qed.

Lemma skip_backslash_angle_forward fuel s n : (remaining (fst (skip_backslash_angle str fuel s n)) <= remaining s)%nat.
Proof.
  revert s n. induction fuel as [|fuel IH]; intros s n; cbn [skip_backslash_angle]; [unfold remaining; cbn; lia|].
  destruct (before_end str s); cbn [negb]; [|unfold remaining; cbn; lia].
  destruct (newline_at str s n) as [[s' n']|] eqn:E.
  - apply newline_at_forward in E. specialize (IH s' n'). unfold remaining in *. lia.
  - destruct ((chr str s =? c_slash) && before_end str (s + 1)).
    + destruct (skip_any_comment str s n) as [[s' n']|] eqn:E'.
      * apply skip_any_comment_forward in E'. specialize (IH s' n'). unfold remaining in *. lia.
      * specialize (IH (S s) n). unfold remaining in *. lia.
    + destruct (chr str s =? c_gt); [unfold remaining; cbn; lia|]. specialize (IH (S s) n). unfold remaining in *. lia.
Qed.

Lemma skip_quote_forward endc fuel s n : (remaining (fst (skip_quote str endc fuel s n)) <= remaining s)%nat.
Proof.
  revert s n. induction fuel as [|fuel IH]; intros s n; cbn [skip_quote]; [unfold remaining; cbn; lia|].
  destruct (before_end str s); cbn [negb]; [|unfold remaining; cbn; lia].
  destruct (newline_at str s n) as [[s' n']|] eqn:E.
  { apply newline_at_forward in E. specialize (IH s' n'). unfold remaining in *. lia. }
  assert (forall k, (remaining (fst (skip_quote str endc fuel (s + k)%nat n)) <= remaining s)%nat) as IHk.
  { intros k. specialize (IH (s + k)%nat n). unfold remaining in *. lia. }
  pose proof (IHk 1%nat) as IH1. rewrite Nat.add_1_r in IH1.
  destruct (_ && _ && _); [|destruct (chr str s =? endc); [unfold remaining; cbn; lia|exact IH1]].
  destruct (chr str (s + 1) =? c_lt); [|destruct (chr str (s + 1) =? c_dquote); [apply IHk|exact IH1]].
  pose proof (skip_backslash_angle_forward (length str) (s + 2) n) as Hb.
  destruct (skip_backslash_angle str (length str) (s + 2) n) as [s2 n2]. specialize (IH s2 n2).
  unfold remaining in *. cbn in *. lia.
Qed.

Lemma config_end_forward fuel s n depth : (remaining (fst (config_end str fuel s n depth)) <= remaining s)%nat.
Proof.
  revert s n depth. induction fuel as [|fuel IH]; intros s n depth; cbn [config_end]; [done|].
  assert (forall s' n' d, (s <= s')%nat -> (remaining (fst (config_end str fuel s' n' d)) <= remaining s)%nat) as IHk.
  { intros s' n' d Hs. specialize (IH s' n' d). unfold remaining in *. lia. }
  destruct (before_end str s); cbn [negb]; [|done].
  destruct (chr str s =? 40); [apply IHk; lia|].
  destruct (chr str s =? 41); [destruct (depth - 1 =? 0); [done|apply IHk; lia]|].
  destruct (newline_at str s n) as [[s' n']|] eqn:E; [apply newline_at_forward in E; apply IHk; lia|].
  destruct (skip_any_comment str s n) as [[s' n']|] eqn:E'.
  { apply skip_any_comment_forward in E'. specialize (IH s' n' depth). unfold remaining in *. lia. }
  destruct (_ || _).
  { pose proof (skip_quote_forward (chr str s) (length str) (S s) n) as Hq.
    destruct (skip_quote str (chr str s) (length str) (S s) n) as [s2 n2]. specialize (IH s2 n2 depth).
    unfold remaining in *. cbn in *. lia. }
  destruct (_ && _ && _); [|apply IHk; lia].
  pose proof (skip_backslash_angle_forward (length str) (s + 2) n) as Hb.
  destruct (skip_backslash_angle str (length str) (s + 2) n) as [s2 n2]. specialize (IH s2 n2 depth).
  unfold remaining in *. cbn in *. lia.
Qed.

Lemma word_end_forward fuel s : (0 < fuel)%nat -> (s < word_end str fuel s)%nat.
Proof.
  revert s. induction fuel as [|fuel IH]; intros s Hf; [lia|]. cbn [word_end].
  pose proof (advance_le (fun s => before_end str s && is_word_char (chr str s)) (length str) (S s)) as Ha.
  set (e := advance _ _ _) in *. destruct (_ && _ && _); [|lia].
  destruct fuel as [|fuel]; [cbn; lia|]. specialize (IH e). lia.
Qed.

Lemma line_number_forward fuel s n : (s <= fst (line_number str fuel s n))%nat.
Proof.
  revert s n. induction fuel as [|fuel IH]; intros s n; cbn [line_number]; [done|].
  destruct (_ && _); [|done]. specialize (IH (S s) (u32 (n * 10 + chr str s - 48))). lia.
Qed.

Lemma filename_end_forward fuel s : (s <= filename_end str fuel s)%nat.
Proof.
  revert s. induction fuel as [|fuel IH]; intros s; cbn [filename_end]; [done|].
  destruct (_ && _ && negb (is_eol _)); [|done]. destruct (_ && _ && _).
  - specialize (IH (s + 2)%nat). lia.
  - specialize (IH (S s)). lia.
Qed.

Lemma skip_blanks_forward s : (s <= skip_blanks str s)%nat.
Proof. apply advance_le. Qed.

Lemma line_directive_forward s n filename original s' n' f ok :
  line_directive str s n filename original = (s', n', f, ok) -> (remaining s' <= remaining (S s))%nat.
Proof.
  unfold line_directive. pose proof (skip_blanks_forward (S s)) as H0. set (s0 := skip_blanks str (S s)) in *.
  match goal with |- context [negb (before_end str ?x && isdigit _)] => set (s1 := x) end.
  assert (s0 <= s1)%nat as H1.
  { unfold s1. destruct (_ && _ && _); [|done]. pose proof (skip_blanks_forward (s0 + 5)). lia. }
  destruct (negb _).
  { pose proof (skip_line_forward s1 n) as Hl. destruct (skip_line str s1 n) as [s2 n2]. intros [= <- <- <- <-].
    unfold remaining in *. cbn in *. lia. }
  pose proof (line_number_forward (length str) s1 0) as H2. destruct (line_number str (length str) s1 0) as [s2 n2]. cbn in H2.
  pose proof (skip_blanks_forward s2) as H3. set (s3 := skip_blanks str s2) in *.
  match goal with |- context [let '(_, _) := ?x in _] => destruct x as [s4 fn] eqn:E4 end.
  assert (s3 <= s4)%nat as H4.
  { destruct (_ && _) in E4; injection E4 as <- <-; [|done]. pose proof (filename_end_forward (length str) (S s3)). lia. }
  pose proof (advance_le (fun s => before_end str s && negb (is_eol (chr str s))) (length str) s4) as H5.
  set (e := advance _ _ s4) in *. intros [= <- <- <- <-]. unfold remaining. clearbody s0 s1 s3 e. destruct (_ && _ && _); lia.
Qed.

Lemma skip_whitespace_forward fuel s n : (s <= fst (skip_whitespace str fuel s n))%nat.
Proof.
  revert s n. induction fuel as [|fuel IH]; intros s n; cbn [skip_whitespace]; [done|].
  destruct (_ && _); [|done]. destruct (newline_at str s n) as [[s' n']|] eqn:E.
  - apply newline_at_forward in E. specialize (IH s' n'). lia.
  - specialize (IH (S s) n). lia.
Qed.

Lemma skip_blank_text_forward original fuel s n f bad s' n' f' bad' :
  skip_blank_text str original fuel s n f bad = (s', n', f', bad') -> (remaining s' <= remaining s)%nat.
Proof.
  revert s n f bad. induction fuel as [|fuel IH]; intros s n f bad E; cbn [skip_blank_text] in E; [by injection E as <-|].
  pose proof (skip_whitespace_forward (length str) s n) as H0.
  destruct (skip_whitespace str (length str) s n) as [s0 n0]. cbn in H0.
  assert (remaining s0 <= remaining s)%nat as H0' by (unfold remaining; lia).
  destruct (negb _); [by injection E as <-|]. destruct ((_ =? c_slash) && _).
  - destruct (skip_any_comment str s0 n0) as [[s1 n1]|] eqn:E1; [|by injection E as <-].
    apply skip_any_comment_forward in E1. apply IH in E. unfold remaining in *. lia.
  - destruct (_ && _); [|by injection E as <-].
    destruct (line_directive str s0 n0 f original) as [[[s1 n1] f1] ok] eqn:E1.
    apply line_directive_forward in E1. apply IH in E. unfold remaining in *. lia.
Qed.

Lemma lexeme_at_forward s : before_end str s = true -> (s < snd (lexeme_at str s))%nat.
Proof.
  intros Hb. unfold lexeme_at. cbv zeta.
  destruct (is_word_char (chr str s)).
  { cbn [snd]. apply word_end_forward. unfold before_end in Hb. apply Nat.ltb_lt in Hb. lia. }
  destruct (chr str s =? c_dollar); [cbn [snd]; eapply Nat.lt_le_trans; [|apply advance_le]; lia|].
  repeat match goal with |- context [if ?b then (_, _) else _] => destruct b end; cbn [snd]; lia.
Qed.
End forward.

(** ** Runs that end *)

(** A text that has none of what is not modelled: no parenthesis or brace, and none
    of the keywords. *)
Definition plain (str : bytes) : Prop :=
  Forall (fun c => c <> 40 /\ c <> 123) str /\
  forall s e, substring str s e ∉ [bytes_of_string "elementclass"; bytes_of_string "require"; bytes_of_string "define"].

Section ends.
(** When a text may be outside of the model. *)
Context (allowed : Prop).

(** [m] ends from [l], without a failed assertion, and with [Q]; or it comes to
    something that is outside of the model, where that is allowed. *)
Definition ends {A} (m : Parser A) (l : Lexer) (Q : A -> Lexer -> Prop) : Prop :=
  match m l with
  | Value (a, l') => Q a l'
  | Outside => allowed
  | Asserted | NoFuel => False
  end.

Lemma ends_mono {A} (m : Parser A) l (Q R : A -> Lexer -> Prop) :
  ends m l Q -> (forall a l', Q a l' -> R a l') -> ends m l R.
Proof. unfold ends. intros H HQ. destruct (m l) as [[a l']| | |]; [exact (HQ a l' H)|done..]. Qed.

Lemma ends_bind {A B} (m : Parser A) (k : A -> Parser B) l (Q : A -> Lexer -> Prop) (R : B -> Lexer -> Prop) :
  ends m l Q -> (forall a l', Q a l' -> ends (k a) l' R) -> ends (mbind k m) l R.
Proof. unfold ends, mbind, Parser_bind. intros H HQ. destruct (m l) as [[a l']| | |]; [exact (HQ a l' H)|done..]. Qed.

Lemma ends_ret {A} (a : A) l (Q : A -> Lexer -> Prop) : Q a l -> ends (mret a) l Q.
Proof. done. Qed.

Lemma ends_when b m l (Q : unit -> Lexer -> Prop) : Q tt l -> (b = true -> ends m l Q) -> ends (when_ b m) l Q.
Proof. intros Ht Hm. destruct b; [by apply Hm|exact Ht]. Qed.

(** ** The invariant *)

Definition name_word (n : bytes) : Prop := exists c w, n = c :: w /\ c <> 59.

(** The name of an element: a word, or the anonymous form. *)
Definition name_form (n : bytes) : Prop := name_word n \/ exists r, n = 59 :: r /\ 64 ∈ r.

(** What starts something that is not modelled. *)
Definition special (t : Lexeme) : bool :=
  is_kind t (lexChar 123) || is_kind t (lexChar 40) || is_kind t lexElementclass || is_kind t lexRequire || is_kind t lexDefine.

Definition lexeme_form (t : Lexeme) : Prop :=
  (kind t = lexIdent -> name_word (text t)) /\ (special t = true -> allowed).

Definition connection_ok (c : Connection) : Prop := 0 <= idx (from_ c) /\ 0 <= port (from_ c) /\ 0 <= idx (to_ c) /\ 0 <= port (to_ c).

Record good (l : Lexer) : Prop := mkGood {
  good_names : Forall name_form (_element_names (_c l));
  good_length : length (_element_names (_c l)) = length (_elements (_c l));
  good_map : Forall (fun kv : bytes * Z => 0 <= snd kv) (_element_map l);
  good_conn : Forall connection_ok (_conn (_c l));
  good_unlex : Forall lexeme_form (_unlex l);
  good_text : plain (_big_string (_file l)) \/ allowed;
  good_conf : allowed \/ Forall (fun conf => conf = []) (_element_configurations (_c l))
}.

Definition weight (t : Lexeme) : nat := if is_kind t lexEOF then 0 else 1.
Definition measure (l : Lexer) : nat :=
  (2 * remaining (_big_string (_file l)) (_pos (_file l)) + sum_list (map weight (_unlex l)))%nat.

(** A state with at most [u] lexemes put back, at most [m] steps left, at most [T]
    elements together with what the steps left can add, and at least [ts] types. *)
Record st (l : Lexer) (u m T ts : nat) : Prop := mkSt {
  st_good : good l;
  st_unlex : (length (_unlex l) <= u)%nat;
  st_measure : (measure l <= m)%nat;
  st_count : (length (_elements (_c l)) + measure l <= T)%nat;
  st_types : (ts <= length (_element_types l))%nat;
  st_map : (length (_element_map l) <= length (_elements (_c l)))%nat
}.

Lemma st_weaken l u m u' m' T T' ts ts' :
  st l u m T ts -> (u <= u')%nat -> (m <= m')%nat -> (T <= T')%nat -> (ts' <= ts)%nat -> st l u' m' T' ts'.
Proof. intros [? ? ? ? ? ?] ? ? ? ?. split; [done|lia..]. Qed.

Lemma weight_kind t k : kind t = k -> k <> lexEOF -> weight t = 1%nat.
Proof. intros <- Hk. unfold weight, is_kind. by rewrite bool_decide_eq_false_2. Qed.

Lemma weight_le t : (weight t <= 1)%nat.
Proof. unfold weight. destruct (is_kind t lexEOF); lia. Qed.

Lemma is_kind_spec t k : is_kind t k = true <-> kind t = k.
Proof. apply bool_decide_eq_true. Qed.

(** The parts of a lexer that errors do not touch. *)
Lemma st_error l u m n msg {T ts} : st l u m T ts -> st (add_error n msg l) u m T ts.
Proof. intros [[? ? ? ? ? ? ?] ? ? ? ? ?]. by split. Qed.

Lemma st_bad_directives bad l u m {T ts} : st l u m T ts -> st (bad_directives bad l) u m T ts.
Proof.
  unfold bad_directives. revert l. induction bad as [|n bad IH]; intros l Hs; [done|]. cbn. apply IH. by apply st_error.
Qed.

Lemma bad_directives_c bad l : _c (bad_directives bad l) = _c l.
Proof. unfold bad_directives. revert l. induction bad as [|n bad IH]; intros l; [done|]. cbn. by rewrite IH. Qed.

Lemma lerror_ends msg l u m {T ts} : st l u m T ts -> ends (lerror msg) l (fun _ l' => st l' u m T ts).
Proof. intros Hs. by apply st_error. Qed.

Lemma lerror_at_ends n msg l u m {T ts} : st l u m T ts -> ends (lerror_at n msg) l (fun _ l' => st l' u m T ts).
Proof. intros Hs. by apply st_error. Qed.

Lemma get_ends l (Q : Lexer -> Lexer -> Prop) : Q l l -> ends get l Q.
Proof. done. Qed.

(** ** Lexemes *)

Lemma advance_bound cond n fuel s : (forall s, cond s = true -> s < n)%nat -> (advance cond fuel s <= Nat.max n s)%nat.
Proof.
  intros Hc. revert s. induction fuel as [|fuel IH]; intros s; cbn; [lia|].
  destruct (cond s) eqn:E; [|lia]. apply Hc in E. specialize (IH (S s)). lia.
Qed.

Lemma word_end_bound str fuel s : (s < length str -> word_end str fuel s <= length str)%nat.
Proof.
  revert s. induction fuel as [|fuel IH]; intros s Hs; cbn [word_end]; [lia|].
  pose proof (advance_bound (fun s => before_end str s && is_word_char (chr str s)) (length str) (length str) (S s)) as Hb.
  set (e := advance _ _ _) in *.
  assert (e <= length str)%nat.
  { specialize (Hb ltac:(intros x [Hx _]%andb_prop; by apply Nat.ltb_lt)). lia. }
  destruct (_ && _ && _) eqn:E; [|done]. apply IH.
  apply andb_prop in E as [[E _]%andb_prop _]. apply Nat.ltb_lt in E. lia.
Qed.

Lemma word_form str s : before_end str s = true -> is_word_char (chr str s) = true ->
  name_word (substring str s (word_end str (length str) s)).
Proof.
  intros Hb Ew. apply Nat.ltb_lt in Hb. pose proof (word_end_bound str (length str) s Hb) as Hle.
  pose proof (word_end_forward str (length str) s ltac:(lia)) as Hlt.
  set (e := word_end _ _ _) in *. unfold substring.
  rewrite (proj2 (Nat.ltb_lt _ _) Hlt), (proj2 (Nat.leb_le _ _) Hle). cbn [andb].
  destruct (lookup_lt_is_Some_2 str s Hb) as [c Ec]. rewrite (drop_S _ _ _ Ec).
  destruct (e - s)%nat as [|k] eqn:Ek; [lia|]. cbn [take]. exists c, (take k (drop (S s) str)). split; [done|].
  intros ->. unfold chr in Ew. by rewrite Ec in Ew.
Qed.

Lemma lexeme_at_form str s : before_end str s = true -> plain str \/ allowed -> lexeme_form (fst (lexeme_at str s)).
Proof.
  intros Hb Hp. split.
  { pose proof (word_form str s Hb) as Hw. unfold lexeme_at. cbv zeta.
    destruct (is_word_char (chr str s)); [intros _; by apply Hw|]. destruct (chr str s =? c_dollar); [done|].
    repeat match goal with |- context [if ?b then (_, _) else _] => destruct b end; cbn [fst kind]; try done.
    by destruct (chr str s =? 0). }
  destruct Hp as [[Hc Hk]|Ha]; [|done]. intros Hs. exfalso. revert Hs. unfold lexeme_at. cbv zeta.
  destruct (is_word_char (chr str s)).
  { cbn [fst]. pose proof (Hk s (word_end str (length str) s)) as Hw. set (w := substring _ _ _) in *.
    rewrite !not_elem_of_cons in Hw. destruct Hw as (Hw1 & Hw2 & Hw3 & _).
    rewrite (bool_decide_eq_false_2 (w = bytes_of_string "elementclass")), (bool_decide_eq_false_2 (w = bytes_of_string "require")),
      (bool_decide_eq_false_2 (w = bytes_of_string "define")) by done. by destruct (bool_decide _). }
  apply Nat.ltb_lt in Hb. destruct (lookup_lt_is_Some_2 str s Hb) as [c Ec].
  assert (chr str s = c) as Ech by (unfold chr; by rewrite Ec).
  pose proof (Forall_lookup_1 _ _ _ _ Hc Ec) as [Hc1 Hc2]. rewrite Ech.
  destruct (c =? c_dollar); [done|].
  repeat match goal with |- context [if ?b then (_, _) else _] => destruct b end; cbn [fst]; try done.
  destruct (c =? 0); [done|]. unfold special, is_kind. cbn [kind].
  by rewrite !bool_decide_eq_false_2 by congruence.
Qed.

Lemma next_lexeme_spec f t f' bad :
  next_lexeme f = (t, f', bad) -> plain (_big_string f) \/ allowed ->
  lexeme_form t /\ _big_string f' = _big_string f /\
  (weight t + remaining (_big_string f) (_pos f') <= remaining (_big_string f) (_pos f))%nat.
Proof.
  unfold next_lexeme. set (str := _big_string f). intros E0 Hp. revert E0.
  destruct (skip_blank_text str (_original_filename f) (S (length str)) (_pos f) (_lineno f) (_filename f) [])
    as [[[s n] fn] b] eqn:E. apply skip_blank_text_forward in E.
  destruct (before_end str s) eqn:Eb.
  - pose proof (lexeme_at_forward str s Eb) as Hf. pose proof (lexeme_at_form str s Eb Hp) as Hk.
    destruct (lexeme_at str s) as [t' s']. intros [= <- <- <-]. cbn [fst snd _big_string _pos] in *. split_and!; [done|done|].
    pose proof (weight_le t'). apply Nat.ltb_lt in Eb. unfold remaining in *. clearbody str. lia.
  - intros [= <- <- <-]. split_and!; [done|done|]. change (weight Lexeme_EOF) with 0%nat. unfold remaining. cbn [_pos]. lia.
Qed.

Lemma lex_ends' l u m {T ts} :
  st l u m T ts -> ends lex l (fun t l' =>
    lexeme_form t /\ (weight t <= m /\ weight t <= T)%nat /\ st l' (pred u) (m - weight t) (T - weight t) ts /\
    (measure l' + weight t <= measure l)%nat /\ (forall t0 us, _unlex l = t0 :: us -> t = t0)).
Proof.
  intros [[H1 H2 H3 H4 H5 H6 H7] Hu Hm HT Hty Hmp]. unfold ends, lex. destruct (_unlex l) as [|t us] eqn:Eu.
  - destruct (next_lexeme (_file l)) as [[t f] bad] eqn:En. destruct (next_lexeme_spec _ _ _ _ En H6) as (Hf & Hs & Hw).
    assert (_unlex (bad_directives bad l) = []) as Eu'.
    { clear -Eu. unfold bad_directives. revert l Eu. induction bad as [|n bad IH]; intros l Eu; [done|]. cbn. by apply IH. }
    assert (measure (set_file f (bad_directives bad l)) + weight t <= measure l)%nat as Hml.
    { unfold measure. cbn [set_file _file _unlex]. rewrite Eu', Eu, Hs. cbn [map sum_list sum_list_with]. lia. }
    assert (_c (bad_directives bad l) = _c l) as Ec by apply bad_directives_c.
    split_and!; [done|lia|lia| |done|done].
    destruct (st_bad_directives bad l (pred u) m (T := T) (ts := ts)) as [[G1 G2 G3 G4 G5 G6 G7] G8 G9 G10 G11 G12].
    { split; [by split; rewrite ?Eu|rewrite Eu; cbn; lia|done..]. }
    split; [split; try done; cbn; by rewrite Hs|cbn; rewrite Eu'; cbn; lia|lia|cbn [set_file _c]; rewrite Ec; lia|done|done].
  - apply Forall_cons in H5 as [Ht Hus]. cbn in Hu.
    assert (measure (set_unlex us l) + weight t <= measure l)%nat as Hml.
    { unfold measure. rewrite Eu. cbn [set_unlex _file _unlex map sum_list sum_list_with id]. lia. }
    split_and!; [done|lia|lia| |done|by intros ? ? [= <- <-]]. split; [by split|cbn; lia|lia|cbn [set_unlex _c]; lia|done|done].
Qed.

Lemma lex_ends l u m {T ts} :
  st l u m T ts -> ends lex l (fun t l' => lexeme_form t /\ (weight t <= m /\ weight t <= T)%nat /\ st l' (pred u) (m - weight t) (T - weight t) ts).
Proof. intros Hs. eapply ends_mono; [eapply (lex_ends' l u m Hs)|]. intros t l' (? & ? & ? & _). done. Qed.

Lemma unlex_ends t l u m {T ts} :
  st l u m T ts -> (u < 2)%nat -> lexeme_form t -> ends (unlex t) l (fun _ l' => st l' (S u) (m + weight t) (T + weight t) ts).
Proof.
  intros [[H1 H2 H3 H4 H5 H6 H7] Hu Hm] H2u Hf. unfold ends, unlex, UNLEX_SIZE.
  rewrite (proj2 (Nat.ltb_lt _ _)) by lia. split; [split; try done; by constructor|cbn; lia| | |done|done];
    unfold measure in *; cbn [set_unlex _file _unlex _c map sum_list sum_list_with id]; lia.
Qed.

Lemma lex_config_ends l m {T ts} : st l 0 m T ts -> ends lex_config l (fun _ l' => st l' 0 m T ts).
Proof.
  intros [[H1 H2 H3 H4 H5 H6 H7] Hu Hm HT Hty Hmp]. unfold ends, lex_config.
  assert (_unlex l = []) as Eu by (apply nil_length_inv; lia).
  rewrite bool_decide_eq_true_2 by done.
  pose proof (config_end_forward (_big_string (_file l)) (length (_big_string (_file l))) (_pos (_file l)) (_lineno (_file l)) 1) as Hf.
  destruct (config_end _ _ _ _ _) as [s n]. cbn [fst] in Hf. split; [by split|done| | |done|done];
    unfold measure in *; cbn [set_file at_line at_pos _file _unlex _big_string _pos _c]; lia.
Qed.

Lemma expect_ends k no_error l u m {T ts} :
  st l u m T ts -> k <> lexEOF ->
  ends (expect k no_error) l (fun b l' =>
    if b then (1 <= m)%nat /\ st l' (pred u) (m - 1) T ts
    else st l' u m T ts /\ (no_error = true -> _unlex l <> [] -> l' = l)).
Proof.
  intros Hs Hk. unfold ends, expect. destruct (_unlex l) as [|t us] eqn:Eu.
  - pose proof (lex_ends l u m Hs) as Hl. unfold ends, lex in Hl. rewrite Eu in Hl.
    destruct (next_lexeme (_file l)) as [[t f] bad]. destruct Hl as (_ & Hw & Hl).
    destruct (is_kind t k) eqn:E.
    + apply is_kind_spec in E. rewrite (weight_kind t k E Hk) in *. split; [lia|eapply st_weaken; [exact Hl|lia..]].
    + split; [|done]. apply (st_bad_directives bad) in Hs. destruct no_error; [done|by apply st_error].
  - pose proof (lex_ends l u m Hs) as Hl. unfold ends, lex in Hl. rewrite Eu in Hl. destruct Hl as (_ & Hw & Hl).
    destruct (is_kind t k) eqn:E.
    + apply is_kind_spec in E. rewrite (weight_kind t k E Hk) in *. split; [lia|eapply st_weaken; [exact Hl|lia..]].
    + destruct no_error; split; [done|done|by apply st_error|done].
Qed.

(** ** Ports *)

Lemma st_up l u m m' {T T' ts} : st l 0 m T ts -> (m <= m' /\ T <= T')%nat -> (u = 1)%nat -> st l u m' T' ts.
Proof. intros Hs Hm ->. eapply st_weaken; [exact Hs|lia..]. Qed.

Ltac held := match goal with H : _ |- _ => exact H end.

(** Puts a lexeme back that was just taken. *)
Lemma unlex_back t l m {T ts} : st l 0 (m - weight t) (T - weight t) ts -> (weight t <= m /\ weight t <= T)%nat -> lexeme_form t -> ends (unlex t) l (fun _ l' => st l' 1 m T ts).
Proof.
  intros Hs Hw Hf. eapply ends_mono; [apply (unlex_ends t l 0 _ Hs); [lia|done]|]. intros ? l' H. cbn in H.
  eapply st_weaken; [exact H|lia..].
Qed.

Lemma yport_loop_ends fuel nports ports l m {T ts} :
  st l 1 m T ts -> (m < fuel)%nat -> ends (yport_loop fuel nports ports) l (fun _ l' => st l' 1 m T ts).
Proof.
  revert ports l m T. induction fuel as [|fuel IH]; intros ports l m T Hs Hm; [lia|]. cbn [yport_loop].
  eapply ends_bind; [eapply (lex_ends l 1 m Hs)|]. intros t l1 (Hf & Hw & H1). cbn [pred] in H1.
  assert (forall ps l2, st l2 0 (m - 1) T ts -> (1 <= m)%nat ->
    ends (let+ t := lex in
          if is_kind t (lexChar 93) then mret (ps, true)
          else when_ (negb (is_kind t (lexChar c_comma))) (lerror "syntax error: expected ','" ;+ unlex t) ;+
               yport_loop fuel nports ps) l2 (fun _ l' => st l' 1 m T ts)) as Hnext.
  { intros ps l2 H2 Hm1. eapply ends_bind; [eapply (lex_ends l2 0 _ H2)|]. intros t2 l3 (Hf2 & Hw2 & H3). cbn [pred] in H3.
    destruct (is_kind t2 (lexChar 93)); [eapply st_up; [exact H3|lia|done]|].
    eapply ends_bind with (Q := fun _ l' => st l' 1 (m - 1) T ts).
    - apply ends_when; [eapply st_up; [exact H3|lia|done]|]. intros _.
      eapply ends_bind; [eapply (lerror_ends _ l3 0 _ H3)|]. intros ? l4 H4. eapply unlex_back; [held|lia|done].
    - intros ? l4 H4. eapply ends_mono; [apply (IH ps l4 (m - 1)%nat _ H4); lia|]. intros ? l5 H5.
      eapply st_weaken; [exact H5|lia..]. }
  destruct (is_kind t lexIdent) eqn:Ei.
  - apply is_kind_spec in Ei. rewrite (weight_kind t _ Ei) in * by done.
    assert (st l1 0 (m - 1) T ts) as H1' by (eapply st_weaken; [exact H1|lia..]).
    destruct (IntArg_parse (text t) true 4); [apply Hnext; [done|lia]|].
    eapply ends_bind; [eapply (lerror_ends _ l1 0 _ H1')|]. intros ? l2 H2. apply Hnext; [done|lia].
  - destruct (is_kind t (lexChar 93)); [eapply st_up; [exact H1|lia|done]|].
    eapply ends_bind; [eapply (lerror_ends _ l1 0 _ H1)|]. intros ? l2 H2.
    eapply ends_bind; [eapply (unlex_back t l2 m); [held|lia|done]|]. intros ? l3 H3. exact H3.
Qed.

(** Nothing is taken where there is no bracket. *)
Lemma yport_ends fuel l m {T ts} :
  st l 1 m T ts -> (m <= fuel)%nat ->
  ends (yport fuel) l (fun _ l' => st l' 1 m T ts /\ (_unlex l <> [] -> l' = l \/ (1 <= m)%nat /\ st l' 1 (m - 1) T ts)).
Proof.
  intros Hs Hm. unfold yport. eapply ends_bind; [by eapply (expect_ends (lexChar 91) true l 1 m Hs)|].
  intros b l1 H1. destruct b; cbn [negb] in *.
  - destruct H1 as [Hm1 H1]. cbn [pred] in H1. eapply ends_bind.
    + apply (yport_loop_ends fuel 0 [] l1 (m - 1) (T := T) (ts := ts)); [eapply st_up; [exact H1|lia|done]|lia].
    + intros r l2 H2. split; [eapply st_weaken; [exact H2|lia..]|]. intros _. right. split; [lia|exact H2].
  - destruct H1 as [H1 He]. split; [exact H1|]. intros Hu. left. by apply He.
Qed.

(** ** Elements *)

(** A state of an element whose classes are among the first [ts]. *)
Definition es_ok (ts : nat) (e : ElementState) : Prop :=
  name_word (es_name e) /\ (allowed \/ es_configuration e = []) /\ es_type e < Z.of_nat ts /\ es_decl_type e < Z.of_nat ts.

Lemma es_ok_more ts ts' e : es_ok ts e -> (ts <= ts')%nat -> es_ok ts' e.
Proof. intros (? & ? & ? & ?) Hle. split_and!; [done|done|lia..]. Qed.

Lemma index_of_bound name i names : 0 <= i -> index_of name i names < i + Z.of_nat (length names) \/ index_of name i names = -1.
Proof.
  revert i. induction names as [|x names IH]; intros i Hi; cbn [index_of length]; [by right|].
  destruct (decide (x = name)); [left; lia|]. destruct (IH (i + 1)) as [H|H]; [lia|left; lia|by right].
Qed.

Lemma element_type_bound name l : element_type name l < Z.of_nat (length (_element_types l)).
Proof. unfold element_type. destruct (index_of_bound name 0 (_element_types l)) as [H| ->]; lia. Qed.

Lemma force_element_type_ends name r l u m {T ts} :
  st l u m T ts ->
  ends (force_element_type name r) l (fun d l' => exists ts', (ts <= ts')%nat /\ 0 <= d < Z.of_nat ts' /\ st l' u m T ts').
Proof.
  intros Hs. unfold force_element_type. eapply ends_bind; [by apply (get_ends l (fun a l' => l' = l /\ a = l))|].
  intros a l1 [-> ->]. pose proof (element_type_bound name l) as Hb. pose proof (st_types _ _ _ _ _ Hs) as Hts.
  destruct (Z.leb_spec 0 (element_type name l)) as [Hp|Hp].
  { exists (length (_element_types l)). split_and!; [done|done|done|]. destruct Hs. by split. }
  eapply ends_bind with (Q := fun _ l' => st l' u m T ts /\ _element_types l' = _element_types l).
  - apply ends_when; [done|]. intros _. split; [by apply st_error|done].
  - intros ? l2 [[[? ? ? ? ? ? ?] ? ? ? ? ?] Ety]. exists (S (length (_element_types l))). split_and!; [lia|lia|lia|].
    split; [by split|done|done|done|cbn [set_types _element_types]; rewrite Ety, length_app; cbn; lia|done].
Qed.

Lemma yelement_item_ends fuel inputs name l m {T ts} :
  st l 0 m T ts -> (m <= fuel)%nat -> name_word name ->
  ends (yelement_item fuel inputs name) l (fun r l' => exists ts', (ts <= ts')%nat /\
    es_ok ts' (fst r) /\ lexeme_form (snd r) /\ (weight (snd r) <= m /\ weight (snd r) <= T)%nat /\
    st l' 0 (m - weight (snd r)) (T - weight (snd r)) ts').
Proof.
  intros Hs Hm Hn. unfold yelement_item. eapply ends_bind; [by apply (get_ends l (fun a l' => l' = l /\ a = l))|].
  intros l0 l1 [-> ->]. pose proof (element_type_bound name l) as Hty. pose proof (st_types _ _ _ _ _ Hs) as Hts.
  assert (st l 0 m T (length (_element_types l))) as Hs' by (destruct Hs; by split).
  clear Hs. rename Hs' into Hs. set (ts0 := length (_element_types l)) in *. clearbody ts0.
  eapply ends_bind; [eapply (lex_ends l 0 m Hs)|]. intros t l2 (Hf & Hw & H2). cbn [pred] in H2.
  eapply ends_bind with (Q := fun (r : Z * bool * Lexeme) (l' : Lexer) => exists ts', (ts0 <= ts')%nat /\ fst (fst r) < Z.of_nat ts' /\
    lexeme_form (snd r) /\ (weight (snd r) <= m /\ weight (snd r) <= T)%nat /\ st l' 0 (m - weight (snd r)) (T - weight (snd r)) ts').
  { destruct (is_kind t lex2Colon) eqn:Ec; [|exists ts0; cbn [fst snd]; split_and!; [done|lia|done|lia|lia|done]]. clear Ec.
    eapply ends_bind; [eapply (lex_ends l2 0 _ H2)|]. intros t2 l3 (Hf2 & Hw2 & H3). cbn [pred] in H3.
    eapply ends_bind with (Q := fun d l' => exists ts', (ts0 <= ts')%nat /\ d < Z.of_nat ts' /\ st l' 1 m T ts').
    - destruct (is_kind t2 lexIdent).
      { eapply ends_mono; [eapply (force_element_type_ends (text t2) true l3 0 _ H3)|]. intros d l4 (ts' & Hle & Hd & H4).
        exists ts'. split_and!; [done|lia|]. eapply st_up; [exact H4|lia|done]. }
      destruct (is_kind t2 (lexChar 123)) eqn:Eb; [apply Hf2; unfold special; by rewrite Eb|].
      eapply ends_bind; [eapply (lerror_ends _ l3 0 _ H3)|]. intros ? l4 H4.
      eapply ends_bind; [eapply (force_element_type_ends name true l4 0 _ H4)|]. intros d l5 (ts' & Hle & Hd & H5).
      eapply ends_bind; [eapply (unlex_back t2 l5 (m - weight t)); [exact H5|lia|done]|]. intros ? l6 H6.
      exists ts'. split_and!; [done|lia|]. eapply st_weaken; [exact H6|lia..].
    - intros d l4 (ts' & Hle & Hd & H4). eapply ends_bind; [eapply (lex_ends l4 1 m H4)|]. intros t5 l5 (Hf5 & Hw5 & H5).
      exists ts'. cbn [fst snd]. done. }
  clear t l2 Hf Hw H2. intros [[decl bare] t] l2 (ts1 & Hts1 & Hdecl & Hf & Hw & H2). cbn [fst snd] in *.
  eapply ends_bind with (Q := fun (r : bytes * bool * Lexeme) (l' : Lexer) =>
    (allowed \/ fst (fst r) = []) /\ lexeme_form (snd r) /\ (weight (snd r) <= m /\ weight (snd r) <= T)%nat /\
    st l' 0 (m - weight (snd r)) (T - weight (snd r)) ts1).
  { destruct (is_kind t (lexChar 40)) eqn:Eb; [|split; [by right|done]].
    assert allowed as Hal by (apply Hf; unfold special; rewrite Eb; by rewrite orb_true_r).
    eapply ends_bind; [by apply (get_ends l2 (fun a l' => l' = l2))|]. intros ? l3 ->.
    eapply ends_bind with (Q := fun _ l' => st l' 0 (m - weight t) (T - weight t) ts1).
    { apply ends_when; [done|]. intros _. by apply lerror_ends. }
    intros ? l3 H3. eapply ends_bind; [eapply (lex_config_ends l3 _ H3)|]. intros conf l4 H4.
    eapply ends_bind; [by eapply (expect_ends (lexChar 41) false l4 0 _ H4)|]. intros b l5 H5.
    assert (st l5 0 m T ts1) as H5'.
    { destruct b; [destruct H5 as [_ H5]|destruct H5 as [H5 _]]; (eapply st_weaken; [exact H5|cbn; lia..]). }
    eapply ends_bind; [eapply (lex_ends l5 0 m H5')|]. intros t6 l6 (Hf6 & Hw6 & H6). split; [by left|done]. }
  clear t l2 Hf Hw H2. intros [[conf bare'] t] l2 (Hconf & Hf & Hw & H2). cbn [fst snd] in *.
  eapply ends_bind with (Q := fun (r : list Z * Lexeme) (l' : Lexer) =>
    lexeme_form (snd r) /\ (weight (snd r) <= m /\ weight (snd r) <= T)%nat /\ st l' 0 (m - weight (snd r)) (T - weight (snd r)) ts1).
  { destruct (is_kind t (lexChar 91)); [|done].
    eapply ends_bind; [eapply (unlex_back t l2 m); [exact H2|lia|done]|]. intros ? l3 H3.
    eapply ends_bind; [eapply (yport_ends fuel l3 m H3 Hm)|]. intros outputs l4 [H4 _].
    eapply ends_bind; [eapply (lex_ends l4 1 m H4)|]. intros t5 l5 (Hf5 & Hw5 & H5). done. }
  intros [outputs t3] l3 (Hf3 & Hw3 & H3). cbn [snd] in *. exists ts1. cbn [fst snd]. split_and!; [lia| |done|lia|lia|done].
  unfold es_ok. cbn [es_name es_configuration es_type es_decl_type fst]. split_and!; [done|done|lia|done].
Qed.

(** How much of the measure a list of elements has used up: one for its first. *)
Definition first_used (es : list ElementState) : nat := match es with [] => 1 | _ => 0 end.

(** A lexeme that was put back and is not the end of the file. *)
Definition pending (l : Lexer) : Prop := exists t, _unlex l = [t] /\ weight t = 1%nat.

Lemma yelement_list_ends in_allowed fuel es l m {T ts} :
  st l 1 m T ts -> (m < fuel)%nat -> Forall (es_ok ts) es ->
  ends (yelement_list in_allowed fuel es) l (fun r l' =>
    match r with
    | None => st l' 1 m T ts /\ (in_allowed = false -> pending l -> (1 <= m)%nat /\ st l' 1 (m - 1) T ts)
    | Some (es', t) => exists ts', (ts <= ts')%nat /\
        Forall (es_ok ts') es' /\ lexeme_form t /\ (first_used es + weight t <= m)%nat /\
        (length es' + weight t <= length es + T)%nat /\
        st l' 0 (m - first_used es - weight t) (length es + T - length es' - weight t) ts'
    end).
Proof.
  revert es l m T ts. induction fuel as [|fuel IH]; intros es l m T ts Hs Hm Hes; [lia|]. cbn [yelement_list].
  eapply ends_bind; [eapply (yport_ends fuel l m Hs); lia|]. intros inputs l1 [H1 Hp].
  eapply ends_bind; [eapply (lex_ends' l1 1 m H1)|]. intros t l2 (Hf & Hw & H2 & Hml & Ht). cbn [pred] in H2.
  destruct (is_kind t lexIdent) eqn:Ei.
  { apply is_kind_spec in Ei. rewrite (weight_kind t _ Ei) in * by done.
    eapply ends_bind; [eapply (yelement_item_ends fuel inputs (text t) l2 _ H2); [lia|by apply Hf]|].
    intros [e t3] l3 (ts3 & Hts3 & He & Hf3 & Hw3 & H3). cbn [fst snd] in *.
    assert (Forall (es_ok ts3) (es ++ [e])) as Hes'.
    { apply Forall_app. split; [|by constructor]. eapply Forall_impl; [exact Hes|]. intros x Hx. by eapply es_ok_more. }
    assert (length (es ++ [e]) = S (length es)) as Hlen by (rewrite length_app; cbn; lia).
    assert (first_used es <= 1)%nat by (destruct es; cbn; lia).
    destruct (is_kind t3 (lexChar c_comma)).
    - assert (st l3 1 (m - 1) (T - 1) ts3) as H3' by (eapply st_up; [exact H3|lia|done]).
      eapply ends_mono; [apply (IH (es ++ [e]) l3 (m - 1)%nat _ _ H3'); [lia|done]|].
      intros [[es' t']|] l4 H4.
      + assert (first_used (es ++ [e]) = 0%nat) as E0 by (by destruct es). rewrite E0, Hlen in H4.
        destruct H4 as (ts' & Hts' & Ha & Hb & Hc & Hc' & Hd). exists ts'.
        split_and!; [lia|done|done|lia|lia|eapply st_weaken; [exact Hd|lia..]].
      + destruct H4 as [H4 _]. split; [eapply st_weaken; [exact H4|lia..]|]. intros _ _. split; [lia|eapply st_weaken; [exact H4|lia..]].
    - exists ts3. rewrite Hlen. split_and!; [done|done|done|lia|lia|eapply st_weaken; [exact H3|lia..]]. }
  destruct (_ || _) eqn:Eb; [apply Hf; unfold special; by rewrite Eb|].
  assert (pending l -> (1 <= m)%nat /\ st l2 0 (m - 1) T ts) as Hpend.
  { intros (t0 & Eu & Ew). destruct Hp as [->|[Hm1 Hs1]]; [by rewrite Eu| |].
    - rewrite (Ht t0 [] Eu), Ew in *. split; [lia|eapply st_weaken; [exact H2|lia..]].
    - split; [done|]. destruct H2 as [G Gu _ GT Gts Gmap]. destruct Hs1 as [_ _ Gm _ _ _]. split; [done|done|lia|lia|done|done]. }
  eapply ends_bind with (Q := fun _ l' => st l' 0 (m - weight t) (T - weight t) ts /\ (pending l -> (1 <= m)%nat /\ st l' 0 (m - 1) T ts)).
  { apply ends_when; [done|]. intros _. split; [by apply st_error|]. intros Hpl. destruct (Hpend Hpl). split; [done|by apply st_error]. }
  intros ? l3 [H3 Hp3]. destruct es as [|e es].
  2:{ exists ts. cbn [first_used]. split_and!; [done|done|done|lia|lia|]. eapply st_weaken; [exact H3|lia..]. }
  destruct in_allowed; cbn [orb].
  - eapply ends_bind; [eapply (unlex_back t l3 m); [exact H3|lia|done]|]. intros ? l4 H4. by split.
  - eapply ends_bind with (Q := fun _ l' => st l' 1 m T ts /\ (pending l -> (1 <= m)%nat /\ st l' 1 (m - 1) T ts)).
    + split; [apply st_error; eapply st_up; [exact H3|lia|done]|]. intros Hpl. destruct (Hp3 Hpl) as [? Hp3']. split; [done|].
      apply st_error. eapply st_up; [exact Hp3'|lia|done].
    + intros ? l4 [H4 Hp4]. split; [exact H4|]. intros _. exact Hp4.
Qed.

(** ** Adding elements *)

Lemma get_element_ends name etype conf filename lineno l u m {T ts} :
  st l u m T ts -> name_form name -> allowed \/ conf = [] -> 0 <= etype < Z.of_nat ts ->
  ends (get_element name etype conf filename lineno) l (fun i l' => 0 <= i /\ st l' u m (S T) ts).
Proof.
  intros Hs Hn Hconf Het. unfold get_element. eapply ends_bind; [by apply (get_ends l (fun a l' => l' = l /\ a = l))|].
  intros a l1 [-> ->]. pose proof (st_types _ _ _ _ _ Hs) as Hty.
  assert (name <> []) as Hne by (destruct Hn as [(c & w & -> & _)|(r & -> & _)]; done).
  rewrite bool_decide_eq_false_2, (proj2 (Z.ltb_ge etype 0)), (proj2 (Z.leb_gt _ etype)) by (done || lia). cbn [orb].
  destruct (Z.leb_spec 0 (map_find name (_element_map l))) as [Hf|Hf].
  { split; [done|]. eapply st_weaken; [exact Hs|lia..]. }
  destruct Hs as [[H1 H2 H3 H4 H5 H6 H7] Hu Hm HT Hts Hmap].
  assert (Hms : forall mp l', measure (set_map mp l') = measure l') by done.
  eapply ends_bind with (Q := fun _ l' => good l' /\ _c l' = _c l /\ _unlex l' = _unlex l /\ measure l' = measure l /\
    _element_types l' = _element_types l /\ length (_element_map l') = S (length (_element_map l))).
  { split_and!; try done. split; try done. cbn. constructor; [cbn; lia|done]. }
  intros ? l2 (G & Ec & Eu & Em & Et & El). eapply ends_bind with (Q := fun _ l' => good l' /\ _c l' = _c l /\ _unlex l' = _unlex l /\
    measure l' = measure l /\ _element_types l' = _element_types l /\ length (_element_map l') = S (length (_element_map l))).
  { apply ends_when; [done|]. intros _. split_and!; try done. destruct G. by split. }
  clear l2 G Ec Eu Em Et El. intros ? l3 ([G1 G2 G3 G4 G5 G6 G7] & Ec & Eu & Em & Et & El).
  eapply ends_bind with (Q := fun _ l' => st l' u m (S T) ts).
  { assert (forall c', measure (set_c c' l3) = measure l3) as Hmc by done.
    split; [split; cbn; try done| | | | |].
    - apply Forall_app. split; [done|by constructor].
    - rewrite !length_app, H2. done.
    - destruct Hconf as [?| ->]; [by left|]. destruct H7 as [?|H7]; [by left|]. right. apply Forall_app. by split; [|constructor].
    - cbn [set_c _unlex]. by rewrite Eu.
    - by rewrite Hmc, Em.
    - rewrite Hmc, Em. cbn [set_c _c _elements]. rewrite length_app. cbn [length]. lia.
    - cbn [set_c _element_types]. by rewrite Et.
    - cbn [set_c _c _elements _element_map]. rewrite length_app, El. cbn. lia. }
  intros ? l4 H4'. split; [lia|exact H4'].
Qed.

Lemma add_element_ends e l m {T ts} :
  st l 1 m T ts -> es_ok ts e -> ends (add_element e) l (fun g l' => 0 <= g_element g /\ st l' 1 m (S T) ts).
Proof.
  intros Hs (He & Hconf & Hty & Hdty). unfold add_element. eapply ends_bind; [by apply (get_ends l (fun a l' => l' = l /\ a = l))|].
  intros a l1 [-> ->]. eapply ends_bind with (Q := fun i l' => 0 <= i /\ st l' 1 m (S T) ts).
  2: { intros i l2 H2. exact H2. }
  destruct ((0 <=? es_type e) || (map_find (es_name e) (_element_map l) <? 0)) eqn:Eo.
  - eapply ends_bind with (Q := fun _ l' => st l' 1 m T ts).
    { apply ends_when; [done|]. intros _. by apply lerror_at_ends. }
    intros ? l2 H2. eapply ends_bind with (Q := fun ty l' => exists ts', (ts <= ts')%nat /\ ty < Z.of_nat ts' /\
      (ty < 0 -> 0 <= es_decl_type e) /\ st l' 1 m T ts').
    { destruct (_ && _) eqn:Eneg.
      - eapply ends_bind; [eapply lerror_at_ends; exact H2|]. intros ? l3 H3.
        eapply ends_mono; [eapply force_element_type_ends; exact H3|]. intros d l4 (ts' & Hle & Hd & H4). exists ts'. split_and!; [done|lia|lia|done].
      - exists ts. apply andb_false_iff in Eneg. rewrite !Z.ltb_ge in Eneg. split_and!; [done|done|lia|done]. }
    intros ty l3 (ts' & Hle & Htyb & Hpos & H3). eapply ends_bind; [by apply (get_ends l3 (fun a l' => l' = l3))|]. intros a4 l4 ->.
    eapply ends_mono; [apply (get_element_ends _ _ _ _ _ l3 1 m H3)|].
    + destruct (0 <=? ty); [|by left]. right. eexists. split; [done|]. apply elem_of_app. right. by left.
    + exact Hconf.
    + destruct (Z.leb_spec 0 ty); [lia|]. specialize (Hpos ltac:(lia)). lia.
    + intros i l5 [Hi H5]. split; [done|]. eapply st_weaken; [exact H5|lia..].
  - apply orb_false_iff in Eo as [_ Eo]. apply Z.ltb_ge in Eo. eapply ends_bind with (Q := fun _ l' => st l' 1 m T ts).
    { apply ends_when; [done|]. intros _. eapply ends_bind; [eapply lerror_at_ends; exact Hs|]. intros ? l2 H2.
      apply ends_when; [done|]. intros _. by apply lerror_at_ends. }
    intros ? l2 H2. split; [done|]. eapply st_weaken; [exact H2|lia..].
Qed.

Definition groups_ok (gs : list Group) : Prop := Forall (fun g => 0 <= g_element g) gs.

Lemma add_elements_ends es l m {T ts} :
  st l 1 m T ts -> Forall (es_ok ts) es -> ends (add_elements es) l (fun gs l' => groups_ok gs /\ st l' 1 m (length es + T) ts).
Proof.
  intros Hs He. revert l T Hs. induction He as [|e es He _ IH]; intros l T Hs; cbn [add_elements length]; [by split; [constructor|]|].
  eapply ends_bind; [by eapply (add_element_ends e l m Hs)|]. intros g l1 [Hg H1].
  eapply ends_bind; [eapply IH; exact H1|]. intros gs l2 [Hgs H2]. split; [by constructor|].
  by replace (S (length es) + T)%nat with (length es + S T)%nat by lia.
Qed.

Lemma spread_ok in_allowed t es ts :
  Forall (es_ok ts) es -> Forall (es_ok ts) (spread in_allowed t es) /\ length (spread in_allowed t es) = length es.
Proof.
  intros He. unfold spread. destruct (last es) as [e|] eqn:El; [|done]. destruct (_ && _); [|done].
  apply last_Some in El as [es' ->]. rewrite removelast_last. apply Forall_app in He as [He1 He2].
  split; [|by rewrite !length_app, length_map].
  apply Forall_app. split; [|done]. apply Forall_map. eapply Forall_impl; [exact He1|].
  intros x (Hx & _ & Hx2 & _). apply Forall_cons in He2 as [(_ & Hc & _ & Hd) _]. by split_and!.
Qed.

Lemma yelement_ends in_allowed fuel l m {T ts} :
  st l 1 m T ts -> (m < fuel)%nat ->
  ends (yelement in_allowed fuel) l (fun r l' =>
    match r with
    | None => st l' 1 m T ts /\ (in_allowed = false -> pending l -> (1 <= m)%nat /\ st l' 1 (m - 1) T ts)
    | Some gs => groups_ok gs /\ (1 <= m)%nat /\ st l' 1 (m - 1) T ts
    end).
Proof.
  intros Hs Hm. unfold yelement. eapply ends_bind; [by eapply (yelement_list_ends in_allowed fuel [] l m Hs Hm)|].
  intros [[es t]|] l1 H1; [|exact H1]. destruct H1 as (ts' & Hts & Hes & Hf & Hw & Hl & H1). cbn [first_used length] in *.
  eapply ends_bind; [eapply (unlex_back t l1 (m - 1) (T := (T - length es)%nat)); [exact H1|lia|done]|]. intros ? l2 H2.
  destruct (spread_ok in_allowed t es ts' Hes) as [Hsp Hspl].
  eapply ends_bind; [eapply (add_elements_ends _ l2 _ H2 Hsp)|].
  intros gs l3 [Hg H3]. rewrite Hspl in H3. split_and!; [done|lia|]. eapply st_weaken; [exact H3|lia..].
Qed.

(** ** Connections *)

Lemma connect_st a b c d l u m {T ts} : 0 <= a -> 0 <= c -> st l u m T ts -> st (set_c (connect a b c d (_c l)) l) u m T ts.
Proof.
  intros Ha Hc [[H1 H2 H3 H4 H5 H6 H7] Hu Hm HT Hts Hmap]. split; [split; cbn; try done|done..].
  apply Forall_app. split; [done|]. constructor; [|done]. unfold connection_ok. cbn.
  destruct (Z.ltb_spec b 0), (Z.ltb_spec d 0); lia.
Qed.

(** The most steps a side can still make: one per port and one to leave a group. *)
Definition group_steps (isoutput : bool) (gs : list Group) : nat := sum_list_with (fun g => S (length (ports_of isoutput g))) gs.
Definition side_steps (isoutput : bool) (s : Side) : nat :=
  match it s with
  | [] => 0
  | g :: rest => S (length (ports_of isoutput g) - ppos s + group_steps isoutput rest + Z.to_nat (nexpandable s))
  end.

Lemma next_port_steps isoutput minp g rest p s :
  it s = g :: rest -> (side_steps isoutput (next_port isoutput true minp g rest p s) < side_steps isoutput s)%nat.
Proof.
  intros E. unfold next_port, side_steps. rewrite E. cbn [negb].
  repeat match goal with
  | |- context [if ?b then mkSide _ _ _ _ else _] => let E := fresh "E" in destruct b eqn:E
  end; cbn [it ppos nexpandable].
  - apply andb_prop in E0 as [E0%Nat.ltb_lt _]. lia.
  - apply andb_prop in E1 as [_ E1%Z.ltb_lt]. lia.
  - apply andb_prop in E2 as [_ E2%Z.ltb_lt]. lia.
  - destruct rest as [|g' rest]; [lia|]. unfold group_steps. cbn [sum_list_with]. lia.
Qed.

Lemma next_port_groups isoutput step minp g rest p s :
  groups_ok (g :: rest) -> groups_ok (it (next_port isoutput step minp g rest p s)).
Proof.
  intros Hg. unfold next_port. destruct step; cbn [negb]; [|done].
  repeat match goal with |- context [if ?b then mkSide _ _ _ _ else _] => destruct b end; [done..|]. by apply Forall_cons in Hg as [_ Hg].
Qed.

Lemma connect_loop_ends fuel step_in step_out min_in min_out ins outs l u m {T ts} :
  st l u m T ts -> groups_ok (it ins) -> groups_ok (it outs) ->
  step_in = true /\ (side_steps false ins <= fuel)%nat \/ step_out = true /\ (side_steps true outs <= fuel)%nat ->
  ends (connect_loop fuel step_in step_out min_in min_out ins outs) l (fun _ l' => st l' u m T ts).
Proof.
  revert ins outs l. induction fuel as [|fuel IH]; intros ins outs l Hs Hi Ho Hf; cbn [connect_loop].
  - unfold side_steps in Hf. destruct (it ins) eqn:Ei; [done|]. destruct (it outs) eqn:Eo; [done|].
    destruct Hf as [[_ Hf]|[_ Hf]]; lia.
  - destruct (it ins) as [|gi ri] eqn:Ei; [done|]. destruct (it outs) as [|go ro] eqn:Eo; [done|].
    pose proof Hi as Hi'. pose proof Ho as Ho'. apply Forall_cons in Hi' as [Hgi _], Ho' as [Hgo _].
    eapply ends_bind with (Q := fun _ l' => st l' u m T ts); [by apply connect_st|]. intros ? l1 H1.
    apply IH; [exact H1|by apply next_port_groups..|].
    destruct Hf as [[-> Hf]|[-> Hf]]; [left|right]; (split; [done|]).
    + pose proof (next_port_steps false min_in gi ri (first_port false gi (side_port ins)) ins Ei). lia.
    + pose proof (next_port_steps true min_out go ro (first_port true go (side_port outs)) outs Eo). lia.
Qed.

Lemma analyze_steps isoutput gs : (group_steps isoutput gs <= 3 * fst (yconnection_analyze_ports gs isoutput))%nat.
Proof.
  induction gs as [|g gs IH]; [done|]. cbn [yconnection_analyze_ports group_steps sum_list_with] in *.
  unfold group_steps in IH. destruct (yconnection_analyze_ports gs isoutput) as [mp ex]. cbn [fst] in IH.
  destruct (Nat.leb_spec (length (ports_of isoutput g)) 1) as [Hl|Hl]; [cbn [fst]; lia|].
  destruct (bool_decide _); cbn [fst]; lia.
Qed.

Lemma side_steps_start isoutput gs p nexp mine other :
  (group_steps isoutput gs <= 3 * mine)%nat -> nexp <= Z.of_nat other ->
  (side_steps isoutput (mkSide gs 0 p nexp) <= 3 * (mine + other))%nat.
Proof. unfold side_steps, group_steps. destruct gs as [|g gs]; cbn; lia. Qed.

Lemma yconnection_check_useless_ends x o l u m {T ts} : st l u m T ts -> ends (yconnection_check_useless x o) l (fun _ l' => st l' u m T ts).
Proof. intros Hs. apply ends_when; [done|]. intros _. by eapply lerror_ends. Qed.

Lemma yconnection_connect_all_ends outputs inputs connector l u m {T ts} :
  st l u m T ts -> groups_ok outputs -> groups_ok inputs ->
  ends (yconnection_connect_all outputs inputs connector) l (fun _ l' => st l' u m T ts).
Proof.
  intros Hs Ho Hi. unfold yconnection_connect_all.
  pose proof (analyze_steps true outputs) as Hao. pose proof (analyze_steps false inputs) as Hai.
  destruct (yconnection_analyze_ports outputs true) as [min_out e_out].
  destruct (yconnection_analyze_ports inputs false) as [min_in e_in]. cbn [fst] in *.
  eapply ends_bind with (Q := fun _ l' => st l' u m T ts).
  { apply ends_when; [done|]. intros _. by eapply lerror_ends. }
  intros ? l1 H1. eapply ends_bind with (Q := fun _ l' => st l' u m T ts).
  { apply ends_when; [done|]. intros _. eapply ends_bind with (Q := fun _ l' => st l' u m T ts).
    { apply ends_when; [done|]. intros _. by eapply lerror_ends. }
    intros ? l2 H2. repeat match goal with |- context [if ?b then lerror _ else _] => destruct b; [by eapply lerror_ends|] end.
    apply ends_when; [done|]. intros _. by eapply lerror_ends. }
  intros ? l2 H2. apply connect_loop_ends; [exact H2|done|done|].
  match goal with |- _ \/ ?b = true /\ _ => destruct b end; [right; split; [done|]|left; split; [apply orb_true_r|]].
  - rewrite (Nat.add_comm min_in min_out). apply side_steps_start; [done|]. destruct (_ =? 0)%nat; lia.
  - apply side_steps_start; [done|]. destruct (_ =? 0)%nat; lia.
Qed.

(** ** Statements *)

Lemma relex_ends fuel gs l m {T ts} :
  st l 1 m T ts -> (m < fuel)%nat ->
  ends (relex fuel gs) l (fun k l' => match k with Some _ => (1 <= m)%nat /\ st l' 1 (m - 1) T ts | None => st l' 1 m T ts end).
Proof.
  revert l m. induction fuel as [|fuel IH]; intros l m Hs Hm; [lia|]. cbn [relex].
  eapply ends_bind; [eapply (lex_ends l 1 m Hs)|]. intros t l1 (Hf & Hw & H1). cbn [pred] in H1.
  destruct (_ || _) eqn:E1.
  { assert (weight t = 1%nat) as Et.
    { apply orb_prop in E1 as [E|E]; apply is_kind_spec in E; by rewrite (weight_kind t _ E). }
    rewrite Et in *. eapply ends_bind; [eapply (lerror_ends _ l1 0 _ H1)|]. intros ? l2 H2.
    eapply ends_mono; [apply (IH l2 (m - 1)%nat); [eapply st_up; [exact H2|lia|done]|lia]|].
    intros [k|] l3 H3; [destruct H3 as [? H3]; split; [lia|]|]; (eapply st_weaken; [exact H3|lia..]). }
  destruct (is_arrow t) eqn:E2.
  { assert (weight t = 1%nat) as Et.
    { apply orb_prop in E2 as [E|E]; apply is_kind_spec in E; by rewrite (weight_kind t _ E). }
    rewrite Et in *. split; [lia|eapply st_up; [exact H1|lia|done]]. }
  assert (st l1 1 m T ts) as H1' by (eapply st_up; [exact H1|lia|done]). clear E1 E2.
  destruct (_ || _).
  - eapply ends_bind with (Q := fun _ l' => st l' 1 m T ts).
    { apply ends_when; [done|]. intros _. eapply unlex_back; [held|lia|done]. }
    intros ? l2 H2. eapply ends_bind; [by eapply (yconnection_check_useless_ends gs true l2 1 m)|]. intros ? l3 H3. exact H3.
  - eapply ends_bind; [eapply (lerror_ends _ l1 0 _ H1)|]. intros ? l2 H2. eapply ends_bind with (Q := fun _ l' => st l' 1 m T ts).
    { apply ends_when; [eapply st_up; [exact H2|lia|done]|]. intros _. eapply unlex_back; [held|lia|done]. }
    intros ? l3 H3. exact H3.
Qed.

Lemma yconnection_loop_ends fuel gs connector l m {T ts} :
  st l 1 m T ts -> (S m < fuel)%nat -> groups_ok gs ->
  ends (yconnection_loop fuel gs connector) l (fun _ l' =>
    st l' 1 m T ts /\ (gs = [] -> pending l -> (1 <= m)%nat /\ st l' 1 (m - 1) T ts)).
Proof.
  revert gs connector l m. induction fuel as [|fuel IH]; intros gs connector l m Hs Hm Hg; [lia|]. cbn [yconnection_loop].
  eapply ends_bind; [eapply (yelement_ends (negb (bool_decide (gs = []))) fuel l m Hs); lia|].
  intros [gs2|] l1 H1.
  - destruct H1 as (Hg2 & Hm1 & H1).
    assert (forall l', st l' 1 (m - 1) T ts -> st l' 1 m T ts /\ (gs = [] -> pending l -> (1 <= m)%nat /\ st l' 1 (m - 1) T ts)) as Hend.
    { intros l' H. split; [eapply st_weaken; [exact H|lia..]|done]. }
    eapply ends_bind with (Q := fun _ l' => st l' 1 (m - 1) T ts).
    { destruct (bool_decide (gs = [])); [by eapply yconnection_check_useless_ends|by apply yconnection_connect_all_ends]. }
    intros ? l2 H2. eapply ends_bind; [eapply (relex_ends fuel gs2 l2 (m - 1) H2); lia|].
    intros [k|] l3 H3; [|by apply Hend]. destruct H3 as [Hm3 H3].
    eapply ends_mono; [apply (IH gs2 k l3 _ H3); [lia|done]|]. intros ? l4 [H4 _].
    apply Hend. eapply st_weaken; [exact H4|lia..].
  - destruct H1 as [H1 Hp]. unfold ends, yconnection_check_useless.
    destruct (existsb _ gs) eqn:Ex; cbn.
    + split; [by apply st_error|]. intros ->. done.
    + split; [done|]. intros Hgs Hpl. apply Hp; [|done]. by rewrite bool_decide_eq_true_2.
Qed.

Lemma ystatement_ends fuel l m {T ts} :
  st l 1 m T ts -> (S m < fuel)%nat ->
  ends (ystatement fuel) l (fun more l' => if more then (1 <= m)%nat /\ st l' 1 (m - 1) T ts else st l' 1 m T ts).
Proof.
  intros Hs Hm. unfold ystatement. eapply ends_bind; [eapply (lex_ends l 1 m Hs)|]. intros t l1 (Hf & Hw & H1). cbn [pred] in H1.
  assert (is_kind t lexEOF = false -> weight t = 1%nat) as Hweight by (intros E; unfold weight; by rewrite E).
  destruct (starts_connection t) eqn:Es.
  { assert (weight t = 1%nat) as Et.
    { apply Hweight. destruct (is_kind t lexEOF) eqn:Ee; [|done]. apply is_kind_spec in Ee. clear -Es Ee.
      unfold starts_connection, is_arrow, is_kind in Es. by rewrite Ee in Es. }
    assert (ends (unlex t) l1 (fun _ l' => st l' 1 m T ts /\ pending l')) as Hu.
    { pose proof (unlex_back t l1 m H1 Hw Hf) as Hb. unfold ends, unlex in *.
      assert (_unlex l1 = []) as Eu by (apply nil_length_inv; destruct H1; lia).
      rewrite Eu in *. cbn in *. split; [exact Hb|]. by exists t. }
    eapply ends_bind; [exact Hu|]. intros ? l2 [H2 Hp].
    eapply ends_bind; [eapply (yconnection_loop_ends fuel [] lexEOF l2 m H2 Hm); constructor|].
    intros ? l3 [_ H3]. by apply H3. }
  destruct (_ || _) eqn:Eb.
  { apply Hf. unfold special. destruct (is_kind t (lexChar 123)), (is_kind t (lexChar 40)); [done..|exact Eb]. }
  destruct (is_kind t (lexChar 59)) eqn:E5.
  { apply is_kind_spec in E5. rewrite (weight_kind t _ E5) in * by done. split; [lia|eapply st_up; [exact H1|lia|done]]. }
  destruct (is_kind t lexEOF) eqn:Ee; [eapply st_up; [exact H1|lia|done]|]. rewrite (Hweight eq_refl) in *.
  eapply ends_bind; [eapply (lerror_ends _ l1 0 _ H1)|]. intros ? l2 H2. split; [lia|eapply st_up; [exact H2|lia|done]].
Qed.

Lemma statements_ends fuel n l m {T ts} :
  st l 1 m T ts -> (S m < fuel)%nat -> (m < n)%nat -> ends (statements fuel n) l (fun _ l' => st l' 1 m T ts).
Proof.
  revert l m. induction n as [|n IH]; intros l m Hs Hm Hn; [lia|]. cbn [statements].
  eapply ends_bind; [by eapply (ystatement_ends fuel l m Hs)|]. intros more l1 H1. destruct more; [|exact H1].
  destruct H1 as [Hm1 H1]. eapply ends_mono; [apply (IH l1 (m - 1)%nat H1); lia|]. intros ? l2 H2.
  eapply st_weaken; [exact H2|lia..].
Qed.

(** ** Completion *)

(** Numbers are printed injectively. *)
Definition digits_fold : bytes -> Z -> Z := fold_left (fun v c => v * 10 + (c - 48)).

Lemma decimal_digits_fold fuel n acc :
  0 <= n < 10 ^ Z.of_nat fuel -> (0 < fuel)%nat -> digits_fold (decimal_digits fuel n acc) 0 = digits_fold acc n.
Proof.
  revert n acc. induction fuel as [|fuel IH]; intros n acc Hn Hf; [lia|]. cbn [decimal_digits].
  destruct (Z.ltb_spec n 10) as [Hl|Hl].
  - unfold digits_fold. cbn [fold_left]. f_equal. lia.
  - rewrite Nat2Z.inj_succ, Z.pow_succ_r in Hn by lia.
    destruct fuel as [|fuel]; [cbn in Hn; lia|]. rewrite IH; [| |lia].
    + unfold digits_fold. cbn [fold_left]. f_equal. pose proof (Z.div_mod n 10). lia.
    + split; [apply Z.div_pos; lia|]. apply Z.div_lt_upper_bound; lia.
Qed.

Lemma decimal_digits_head fuel n : 0 <= n -> (0 < fuel)%nat -> forall acc, (forall c w, acc = c :: w -> 48 <= c) ->
  exists c w, decimal_digits fuel n acc = c :: w /\ 48 <= c.
Proof.
  revert n. induction fuel as [|fuel IH]; intros n Hn Hf acc Ha; [lia|]. cbn [decimal_digits].
  destruct (Z.ltb_spec n 10) as [Hl|Hl]; [eexists _, _; split; [done|lia]|].
  pose proof (Z.mod_pos_bound n 10). destruct fuel as [|fuel]; [cbn; eexists _, _; split; [done|lia]|].
  apply IH; [apply Z.div_pos; lia|lia|]. intros c w [= <- <-]. lia.
Qed.

Lemma log2_digits n : 0 <= n -> n < 10 ^ Z.of_nat (S (Z.to_nat (Z.log2 n))).
Proof.
  intros Hn. pose proof (Z.log2_nonneg n). destruct (decide (n = 0)) as [->|Hz]; [done|].
  pose proof (Z.log2_spec n ltac:(lia)) as [_ Hs]. rewrite Nat2Z.inj_succ, Z2Nat.id by lia.
  eapply Z.lt_le_trans; [exact Hs|]. apply Z.pow_le_mono_l. lia.
Qed.

Lemma String_int_inj a b : String_int a = String_int b -> a = b.
Proof.
  assert (forall n, 0 <= n -> digits_fold (decimal_digits (S (Z.to_nat (Z.log2 n))) n []) 0 = n) as Hv.
  { intros n Hn. rewrite decimal_digits_fold; [done| |lia]. split; [done|by apply log2_digits]. }
  assert (forall n k w, 0 <= n -> 45 :: w <> decimal_digits (S k) n []) as Hne.
  { intros n k w Hn E. destruct (decimal_digits_head (S k) n Hn ltac:(lia) []) as (c & w' & E' & Hc); [done|].
    rewrite E' in E. injection E as <- _. lia. }
  unfold String_int. intros E. destruct (Z.ltb_spec a 0) as [Ha|Ha], (Z.ltb_spec b 0) as [Hb|Hb].
  - apply (f_equal (@List.tl Z)) in E. cbn [List.tl] in E. rewrite (Z.abs_neq a), (Z.abs_neq b) in E by lia.
    apply (f_equal (fun w => digits_fold w 0)) in E. cbv beta in E. rewrite !Hv in E by lia. lia.
  - exfalso. by eapply Hne; [|exact E].
  - exfalso. by eapply Hne; [|symmetry; exact E].
  - rewrite (Z.abs_eq a), (Z.abs_eq b) in E by lia.
    apply (f_equal (fun w => digits_fold w 0)) in E. cbv beta in E. by rewrite !Hv in E by lia.
Qed.

Lemma map_find_in name m : 0 <= map_find name m -> name ∈ map fst m.
Proof.
  induction m as [|kv m IH]; cbn; [lia|]. destruct (decide (kv.1 = name)) as [<-|Hn]; [by left|]. intros Hf. right. by apply IH.
Qed.

Lemma i32_cong a b : (a - b) mod 2 ^ 32 = 0 -> i32 a = i32 b.
Proof.
  intros H. apply Z.mod_divide in H as [q Hq]; [|done]. unfold i32, swrap.
  replace (a + 2 ^ (32 - 1)) with (b + 2 ^ (32 - 1) + q * 2 ^ 32) by lia. by rewrite Z.mod_add.
Qed.

Lemma i32_step n k : i32 (i32 n + k) = i32 (n + k).
Proof.
  apply i32_cong. unfold i32, swrap. change (2 ^ (32 - 1)) with 2147483648. change (2 ^ 32) with 4294967296.
  pose proof (Z.div_mod (n + 2147483648) 4294967296 ltac:(lia)) as E.
  replace ((n + 2147483648) mod 4294967296 - 2147483648 + k - (n + k)) with ((- ((n + 2147483648) / 4294967296)) * 4294967296) by lia.
  by rewrite Z.mod_mul.
Qed.

Lemma i32_inj n i j : 0 <= i < 2 ^ 32 -> 0 <= j < 2 ^ 32 -> i32 (n + i) = i32 (n + j) -> i = j.
Proof.
  intros Hi Hj. unfold i32, swrap. change (2 ^ (32 - 1)) with 2147483648. change (2 ^ 32) with 4294967296 in *. intros E.
  pose proof (Z.div_mod (n + i + 2147483648) 4294967296 ltac:(lia)). pose proof (Z.div_mod (n + j + 2147483648) 4294967296 ltac:(lia)). lia.
Qed.

(** Among as many numbers as there are names and one more, one gives a free name; the
    numbers are different as long as there are at most 2^32. *)
Lemma free_name_found fuel m prefix n :
  (length m < fuel)%nat -> Z.of_nat fuel <= 2 ^ 32 -> exists name, free_name fuel m prefix n = Some name.
Proof.
  intros Hf Hb. destruct (free_name fuel m prefix n) as [name|] eqn:E; [by exists name|]. exfalso.
  assert (forall fuel n, free_name fuel m prefix n = None ->
    forall k, (k < fuel)%nat -> prefix ++ String_int (i32 (n + 1 + Z.of_nat k)) ∈ map fst m) as Hall.
  { clear. induction fuel as [|fuel IH]; intros n E k Hk; [lia|]. cbn [free_name] in E.
    destruct (Z.leb_spec 0 (map_find (prefix ++ String_int (i32 (n + 1))) m)) as [Hm|Hm]; [|done].
    destruct k as [|k]; [rewrite Z.add_0_r; by apply map_find_in|].
    specialize (IH _ E k ltac:(lia)). rewrite <- Z.add_assoc, i32_step in IH.
    by replace (n + 1 + Z.of_nat (S k)) with (n + 1 + (1 + Z.of_nat k)) by lia. }
  set (names := (fun k => prefix ++ String_int (i32 (n + 1 + Z.of_nat k))) <$> seq 0 fuel).
  assert (names ⊆+ map fst m) as Hsub.
  { apply NoDup_submseteq.
    - apply NoDup_alt. intros i j x Hi Hj. unfold names in Hi, Hj. rewrite list_lookup_fmap in Hi, Hj.
      apply fmap_Some in Hi as (ki & Hi & ->), Hj as (kj & Hj & Eij). apply lookup_seq in Hi as [-> Hi], Hj as [-> Hj].
      apply app_inv_head, String_int_inj, i32_inj in Eij; lia.
    - intros x Hx. apply list_elem_of_fmap in Hx as (k & -> & Hk). apply elem_of_seq in Hk. apply Hall with fuel; [done|lia]. }
  apply submseteq_length in Hsub. unfold names in Hsub. rewrite length_fmap, length_seq, length_map in Hsub. lia.
Qed.

Lemma split_right_in c name : c ∈ name -> exists pre post, split_right c name = Some (pre, post).
Proof.
  induction name as [|x name IH]; [by intros ?%elem_of_nil|]. intros Hin. cbn.
  destruct (split_right c name) as [[pre post]|] eqn:E; [by eauto|].
  apply elem_of_cons in Hin as [->|Hin]; [rewrite Z.eqb_refl; by eauto|]. destruct (IH Hin) as (? & ? & ?). done.
Qed.

Lemma deanonymize_ends r eidx l :
  64 ∈ r -> Z.of_nat (S (length (_element_map l))) <= 2 ^ 32 ->
  ends (deanonymize_element_name (59 :: r) eidx) l (fun _ l' =>
    _c l' = _c l /\ length (_element_map l') = S (length (_element_map l))).
Proof.
  intros Hin Hb. unfold ends, deanonymize_element_name. cbn [Z.eqb Pos.eqb negb].
  destruct (0 <=? map_find r (_element_map l)); [|done].
  destruct (split_right_in 64 r Hin) as (pre & post & ->).
  set (n := default 0 _). by destruct (free_name_found (S (length (_element_map l))) (_element_map l) pre n) as [name ->]; [lia|done|].
Qed.

(** The names from number [i] on are still those of the parser, and at most [i] names
    have been added to the [n] of the parser. *)
Record expanded (l : Lexer) (n i : nat) : Prop := mkExpanded {
  ex_length : length (_element_names (_c l)) = n;
  ex_names : forall j name, (i <= j)%nat -> _element_names (_c l) !! j = Some name -> name_form name;
  ex_conn : Forall connection_ok (_conn (_c l));
  ex_conf : allowed \/ Forall (fun conf => conf = []) (_element_configurations (_c l));
  ex_map : (length (_element_map l) <= n + i)%nat
}.

Lemma expand_compound_element_ends which l n :
  expanded l n which -> (which < n)%nat -> Z.of_nat (2 * n) <= 2 ^ 32 ->
  ends (expand_compound_element which) l (fun _ l' => expanded l' n (S which)).
Proof.
  intros [H1 H2 H3 H4 H5] Hw Hb. unfold expand_compound_element.
  eapply ends_bind; [by apply (get_ends l (fun a l' => l' = l /\ a = l))|]. intros a l1 [-> ->].
  destruct (lookup_lt_is_Some_2 (_element_names (_c l)) which) as [name En]; [lia|]. rewrite En. cbn [default id].
  pose proof (H2 which name ltac:(lia) En) as Hn.
  eapply ends_bind with (Q := fun _ l' => expanded l' n (S which)).
  { destruct Hn as [(c & w & -> & Hc)|(r & -> & Hin)].
    - rewrite (proj2 (Z.eqb_neq c 59) Hc). split; [done| |done|done|lia]. intros j nm Hj. apply H2. lia.
    - cbn [Z.eqb Pos.eqb]. eapply ends_bind; [apply deanonymize_ends; [done|lia]|]. intros nm l2 [E2 Em]. split; cbn.
      + rewrite length_insert, E2. done.
      + intros j nm' Hj. rewrite E2, list_lookup_insert_ne by lia. apply H2. lia.
      + by rewrite E2.
      + by rewrite E2.
      + rewrite Em. lia. }
  intros ? l2 Hl2. destruct (existsb _ _) eqn:Ex; [|done]. destruct H4 as [Ha|H4]; [exact Ha|]. exfalso.
  destruct (_element_configurations (_c l) !! which) as [conf|] eqn:Ec; cbn [default id] in Ex; [|done].
  by rewrite (Forall_lookup_1 _ _ _ _ H4 Ec) in Ex.
Qed.

Lemma expand_all_ends k l n :
  expanded l n 0 -> (k <= n)%nat -> Z.of_nat (2 * n) <= 2 ^ 32 -> ends (expand_all k) l (fun _ l' => expanded l' n k).
Proof.
  intros Hl Hk Hb. induction k as [|k IH]; cbn [expand_all]; [done|].
  eapply ends_bind; [apply IH; lia|]. intros ? l1 H1. apply expand_compound_element_ends; [exact H1|lia|done].
Qed.

Lemma add_connections_ok cs r : Forall connection_ok cs -> exists r', add_connections cs r = Ok r'.
Proof.
  intros Hcs. revert r. induction Hcs as [|c cs (Ha & Hb & Hc & Hd) _ IH]; intros r; cbn [add_connections]; [by eauto|].
  unfold add_connection. rewrite !(proj2 (Z.leb_le _ _)) by done. cbn. apply IH.
Qed.

Lemma create_router_ends l u m T ts : st l u m T ts -> Z.of_nat (2 * T) <= 2 ^ 32 -> ends create_router l (fun _ _ => True).
Proof.
  intros [[H1 H2 _ H4 _ _ H7] _ _ HT _ Hmap] Hb. unfold create_router.
  eapply ends_bind; [by apply (get_ends l (fun a l' => l' = l /\ a = l))|]. intros a l1 [-> ->].
  eapply ends_bind; [apply (expand_all_ends (length (_elements (_c l))) l (length (_elements (_c l))))|].
  - split; [done| |done|done|lia]. intros j name _ E. by eapply Forall_lookup_1.
  - done.
  - lia.
  - intros ? l2 [_ _ Hc _ _]. eapply ends_bind; [by apply (get_ends l2 (fun a l' => l' = l2 /\ a = l2))|]. intros a2 l3 [-> ->].
    match goal with |- context [add_connections ?cs ?r] => destruct (add_connections_ok cs r) as [r' ->] end; [|done].
    unfold sort_connections. by rewrite merge_sort_Permutation.
Qed.

Lemma read_ends classes data filename :
  plain data \/ allowed -> Z.of_nat (length data) < 2 ^ 30 ->
  match click_read_router classes data filename with
  | Value _ => True
  | Outside => allowed
  | Asserted | NoFuel => False
  end.
Proof.
  intros Hp Hb. unfold click_read_router. set (fuel := (2 * length data + 2)%nat). set (l := begin_parse classes data filename).
  assert (st l 1 (2 * length data) (2 * length data) 0) as Hs.
  { split; [split|cbn; lia|unfold measure, remaining; cbn; lia|unfold measure, remaining; cbn; lia|lia|done].
    all: cbn; try done; try apply Forall_nil_2. right. apply Forall_nil_2. }
  assert (ends (statements fuel fuel ;+ create_router) l (fun _ _ => True)) as He.
  { eapply ends_bind; [eapply (statements_ends fuel fuel l _ Hs); unfold fuel; lia|]. intros ? l1 H1.
    refine (create_router_ends l1 1 _ _ _ H1 _). lia. }
  unfold ends in He. by destruct ((statements fuel fuel ;+ create_router) l) as [[r l']| | |].
Qed.
End ends.

(** A quoted backslash, as [cp_quote] writes it, hides the parenthesis that closes
    the configuration: its closing quote counts as escaped. *)
Lemma quoted_backslash_misread :
  let str := cp_quote [c_backslash] false ++ [41] in
  fst (config_end str (length str) 0 1 1) = length str /\ cp_unquote (cp_quote [c_backslash] false) = [c_backslash].
Proof. split; vm_compute; reflexivity. Qed.

(** A NUL byte counts as the end of the text. *)
Lemma nul_ends_text :
  click_read_router [bytes_of_string "X"] (bytes_of_string "a :: X;" ++ [0] ++ bytes_of_string "b :: Y;") [] =
  Value (mkRouterConf [(bytes_of_string "X", bytes_of_string "a", [])] [] true, []).
Proof. vm_compute. reflexivity. Qed.

Module LexerProps.

(** C13: The parser is total.  Whatever the text, of less than 2^30 bytes, reading it
    ends: it comes to a router and a list of errors, or to a construct that is not
    modelled (compound elements, groups, requirements, definitions, variables in
    configurations), which takes a parenthesis, a brace or a keyword in the text.  The
    fuel is always enough and no assertion fails: never more than the two lexemes there
    is room for are put back, a configuration string is only read with none put back,
    every element gets a name and a class that is registered, every anonymous name can
    be made unique, although the number tried is an [int] that wraps around, and the
    router only gets connections with elements and ports that are not negative. *)
Theorem parser_total classes data filename (Hb : Z.of_nat (length data) < 2 ^ 30) :
  (exists r errors, click_read_router classes data filename = Value (r, errors)) \/
  click_read_router classes data filename = Outside /\ ~ plain data.
Proof.
  pose proof (read_ends True classes data filename (or_intror I) Hb) as Ht.
  pose proof (fun Hp => read_ends False classes data filename (or_introl Hp) Hb) as Hf.
  destruct (click_read_router classes data filename) as [[r errors]| | |]; [left; by eauto|done|by right|done].
Qed.

(** The two elements of a class without a name, and a third that already has the name
    of the second. *)
Definition anonymous_text : bytes := bytes_of_string "X -> X; X@2 :: X;".

Lemma parser_total_witness :
  exists r, click_read_router [bytes_of_string "X"] anonymous_text [] = Value (r, []) /\
    map (fun e => e.1.2) (router_elements r) = [bytes_of_string "X@1"; bytes_of_string "X@3"; bytes_of_string "X@2"].
Proof.
  destruct (parser_total [bytes_of_string "X"] anonymous_text []) as [(r & errors & E)|[E _]].
  - vm_compute. reflexivity.
  - exists r. vm_compute in E. injection E as <- <-. split; vm_compute; reflexivity.
  - vm_compute in E. discriminate E.
Defined.

End LexerProps.
