(* ===== verification/Hookup.v ===== *)
(** * Hookup: the ports and the connections of a router

    What [Router::initialize] does before any element is configured (lib/router.cc):
    the connections are checked and sorted, every element gets its number of ports
    from its port count specifier, every port becomes push or pull, and the active end
    of each connection is told the other end.  The specifiers are read by the methods
    of [Element] (lib/element.cc).  [visit_base] is the search along the connections
    that elements use to find what is upstream or downstream of them.

    Specifiers are C strings: bytes without a zero, read as zero at their end.  Error
    messages are values of [hookup_error]; messages about flow codes go to the default
    error handler and change nothing, so they are left out. *)

From S2P Require Import Prelude ConfParse Lexer Sorting.

(** What a class says of its elements.  [flow_code] is [None] for the string
    [Element::COMPLETE_FLOW], which is recognised by its address. *)
Record ElementClass := mkClass { port_count : bytes; processing : bytes; flow_code : option bytes }.

(** [Element::Processing] *)
Inductive Processing := VAGNOSTIC | VPUSH | VPULL.
#[global] Instance Processing_eq_dec : EqDecision Processing.
Proof. solve_decision. Defined.

Inductive hookup_error :=
| BadElement (i : Z)
| BadPort (p : Z)
| BadPortCount (ei : Z)
| NoPort (isoutput : bool) (p : Port)
| BadProcessing (ei : Z)
| Mixed (aggie : bool) (c : Connection)
| Reused (isoutput : bool) (p : Port)
| Unused (isoutput : bool) (p : Port).

(** ** Port counts *)

Section specifiers.
Context (str : bytes).

(** [cp_integer] of the digits from [s] on, in base 10: the end and the value, which
    saturates. *)
Definition cp_integer (s : nat) : nat * Z :=
  let digits := drop s str in
  let n := Z.to_nat (fst (span digits true 10)) in
  ((s + n)%nat, Z.min (digits_value 10 (take n digits) 0) (2 ^ 31 - 1)).

Definition notify_nports_pair (s : nat) : option (nat * Z * Z) :=
  let first :=
    if negb (before_end str s) || (chr str s =? 45) then Some (s, 0)
    else if isdigit (chr str s) then Some (cp_integer s)
    else None in
  match first with
  | None => None
  | Some (s, lo) =>
      if before_end str s && (chr str s =? 45) then
        let s := S s in
        if before_end str s && isdigit (chr str s) then let '(s, hi) := cp_integer s in Some (s, lo, hi)
        else Some (s, lo, 2 ^ 31 - 1)
      else Some (s, lo, lo)
  end.

(** The loop that counts plus signs: [plus] and [equal] after it. *)
Fixpoint count_plus (fuel plus equal : nat) : nat * nat :=
  match fuel with
  | O => (plus, equal)
  | S fuel =>
      let equal := S equal in
      if negb (before_end str plus) then (plus, equal)
      else if chr str plus =? 43 then count_plus fuel (S plus) equal
      else (S plus, equal)
  end.

(** The numbers of ports, [None] for a parse error. *)
Definition notify_nports (ninputs noutputs : Z) : option (Z * Z) :=
  match notify_nports_pair 0 with
  | None => None
  | Some (s, ninlo, ninhi) =>
      let s := if negb (before_end str s) then Some 0%nat else if chr str s =? 47 then Some (S s) else None in
      match s with
      | None => None
      | Some s =>
          let equal :=
            if chr str s =? 61 then
              let '(plus, equal) := count_plus (S (length str)) (S s) 0 in
              if before_end str plus then 0%nat else equal
            else 0%nat in
          let ninputs := if ninputs <? ninlo then ninlo else if ninhi <? ninputs then ninhi else ninputs in
          if (0 <? equal)%nat then Some (ninputs, i32 (ninputs + Z.of_nat equal - 1))
          else
            match notify_nports_pair s with
            | Some (s, noutlo, nouthi) =>
                if before_end str s then None
                else Some (ninputs, if noutputs <? noutlo then noutlo else if nouthi <? noutputs then nouthi else noutputs)
            | None => None
            end
      end
  end.

(** ** Processing codes *)

(** The code at [p]: where the next one is, and the value if there is one; else whether
    the character is an error. *)
Definition next_processing_code (p : nat) : nat * (Processing + bool) :=
  let c := chr str p in
  if (c =? 104) || (c =? 72) then (S p, inl VPUSH)
  else if (c =? 108) || (c =? 76) then (S p, inl VPULL)
  else if (c =? 97) || (c =? 65) then (S p, inl VAGNOSTIC)
  else if (c =? 47) || (c =? 0) then (p, inr false)
  else (S p, inr true).

(** The codes of [n] ports; [going] is [last_val >= 0].  The result has the place
    reached, the last value and the number of errors too. *)
Fixpoint processing_codes (n p : nat) (going : bool) (val : Processing) : list Processing * nat * Processing * nat :=
  match n with
  | O => ([], p, val, 0%nat)
  | S n =>
      let '(p, going, val, errors) :=
        if going then
          match next_processing_code p with
          | (p, inl v) => (p, true, v, 0%nat)
          | (p, inr bad) => (p, false, val, if bad then 1%nat else 0%nat)
          end
        else (p, going, val, 0%nat) in
      let '(vs, p, last, more) := processing_codes n p going val in
      (val :: vs, p, last, (errors + more)%nat)
  end.

(** [for (; *p && *p != '/'; p++)] *)
Definition to_slash (p : nat) : nat := advance (fun p => before_end str p && negb (chr str p =? 47)) (length str) p.

Definition processing_vector (ninputs noutputs : nat) : list Processing * list Processing * nat :=
  let '(in_v, p, val, errors) := processing_codes ninputs 0 true VAGNOSTIC in
  let p := to_slash p in
  let p := if before_end str p then S p else 0%nat in
  let '(out_v, _, _, more) := processing_codes noutputs p true val in
  (in_v, out_v, (errors + more)%nat).

(** ** Flow codes *)

Definition at_slash (p : nat) : bool := (chr str p =? 47) || (chr str p =? 0).

Definition skip_flow_code (p : nat) : nat :=
  if at_slash p then p
  else if chr str p =? 91 then
    let p := advance (fun p => before_end str p && negb (chr str p =? 93)) (length str) (S p) in
    if before_end str p then S p else p
  else S p.

(** [for (; *p != '['; p--)] *)
Fixpoint to_bracket (p : nat) : res nat :=
  if chr str p =? 91 then Ok p
  else match p with O => Fault OutOfBounds | S p => to_bracket p end.

(** Back to the last code, at the end of the codes. *)
Definition last_code (p : nat) : res nat :=
  if at_slash p then
    match p with
    | O => Fault OutOfBounds
    | S q =>
        if chr str q =? 93 then match q with O => Fault OutOfBounds | S q => to_bracket q end
        else Ok q
    end
  else Ok p.

(** A set of 256 codes: the letters, and [port + 128] for each port. *)
Definition add_code (port c code : Z) : res (option Z) :=
  if isalpha c then Ok (Some (Z.setbit code c))
  else if c =? 35 then assert* (port + 128 <? 256); Ok (Some (Z.setbit code (port + 128)))
  else Ok None.

Fixpoint bracket_codes (fuel : nat) (port : Z) (p : nat) (code : Z) : res (nat * Z) :=
  match fuel with
  | O => Fault OutOfFuel
  | S fuel =>
      if (chr str p =? 93) || (chr str p =? 0) then Ok (p, code)
      else
        let* c := add_code port (chr str p) code in
        bracket_codes fuel port (S p) (default code c)
  end.

Definition next_flow_code (p : nat) (port : Z) : res (nat * Z) :=
  let* p := last_code p in
  if chr str p =? 91 then
    let negated := chr str (S p) =? 94 in
    let p := if negated then S p else p in
    let* (p, code) := bracket_codes (S (length str)) port (S p) 0 in
    let code := if negated then Z.lxor code (Z.ones 256) else code in
    let p := if chr str p =? 0 then (p - 1)%nat else p in
    Ok (S p, code)
  else
    let* c := add_code port (chr str p) 0 in
    Ok (S p, default 0 c).

Fixpoint flow_to (n : nat) (i : Z) (p : nat) (in_code : Z) : res (list bool) :=
  match n with
  | O => Ok []
  | S n =>
      let* (p, out_code) := next_flow_code p i in
      let* travels := flow_to n (i + 1) p in_code in
      Ok (negb (Z.land in_code out_code =? 0) :: travels)
  end.

(** The ports on the other side to which packets may travel from port [p], for a code
    that is not [COMPLETE_FLOW]. *)
Definition code_flow (isoutput : bool) (p nother : nat) : res (list bool) :=
  let f_out := let slash := to_slash 0 in if before_end str slash then S slash else 0%nat in
  if at_slash f_out then Ok (replicate nother false)
  else
    let f_in := if isoutput then f_out else 0%nat in
    let f_out := if isoutput then 0%nat else f_out in
    let* (_, in_code) := next_flow_code (Nat.iter p skip_flow_code f_in) (Z.of_nat p) in
    flow_to nother 0 f_out in_code.

End specifiers.

(** ** The router *)

(** [Element::Port]: an active port has a number that is not negative. *)
Record PortState := mkPortState { _e : option Z; _port : Z }.
Definition active (s : PortState) : bool := 0 <=? _port s.

(** The part of a router that the hookup is about.  [elements] has the classes, and
    [nports] and [ports] what [Element] has: the inputs' first, then the outputs'. *)
Record Router := mkRouter {
  elements : list ElementClass;
  flow_code_overrides : list (Z * bytes);
  nports : list (Z * Z);
  ports : list (list PortState * list PortState);
  _conn : list Connection;
  _conn_sorted : bool;
  _conn_output_sorter : list nat;
  _have_connections : bool
}.

Definition nelements (r : Router) : Z := Z.of_nat (length (elements r)).

Definition with_conn (conn : list Connection) (sorted : bool) (sorter : list nat) (r : Router) : Router :=
  mkRouter (elements r) (flow_code_overrides r) (nports r) (ports r) conn sorted sorter (_have_connections r).
Definition with_nports (n : list (Z * Z)) (r : Router) : Router :=
  mkRouter (elements r) (flow_code_overrides r) n (ports r) (_conn r) (_conn_sorted r) (_conn_output_sorter r) (_have_connections r).
Definition with_ports (ps : list (list PortState * list PortState)) (r : Router) : Router :=
  mkRouter (elements r) (flow_code_overrides r) (nports r) ps (_conn r) (_conn_sorted r) (_conn_output_sorter r) (_have_connections r).
Definition with_connections (b : bool) (r : Router) : Router :=
  mkRouter (elements r) (flow_code_overrides r) (nports r) (ports r) (_conn r) (_conn_sorted r) (_conn_output_sorter r) b.

(** [Connection::operator[]] *)
Definition conn_end (isoutput : bool) (c : Connection) : Port := if isoutput then from_ c else to_ c.

(** [Element::nports] of an element by its number; 0 where there is none. *)
Definition nports_of (r : Router) (isoutput : bool) (ei : Z) : Z :=
  let n := default (0, 0) (nports r !! Z.to_nat ei) in if isoutput then snd n else fst n.

Definition side {A} (isoutput : bool) (x : A * A) : A := if isoutput then snd x else fst x.

Definition port_state (r : Router) (isoutput : bool) (p : Port) : option PortState :=
  match ports r !! Z.to_nat (idx p) with
  | Some ps => side isoutput ps !! Z.to_nat (port p)
  | None => None
  end.

Definition port_active (r : Router) (isoutput : bool) (p : Port) : bool :=
  (0 <=? port p) && (port p <? nports_of r isoutput (idx p)) &&
  match port_state r isoutput p with Some s => active s | None => false end.

(** *** Sorting the connections *)

Definition click_compare {T} (lt : T -> T -> bool) (a b : T) : Z := if lt a b then -1 else if lt b a then 1 else 0.

Definition conn_at (conn : list Connection) (i : nat) : Connection :=
  default (mkConnection (mkPort 0 0) (mkPort 0 0)) (conn !! i).

Definition conn_output_sorter_compar (conn : list Connection) (a b : nat) : Z :=
  let ca := conn_at conn a in
  let cb := conn_at conn b in
  if port_lt (from_ ca) (from_ cb) then -1
  else if decide (from_ ca = from_ cb) then
    if port_lt (to_ ca) (to_ cb) then -1 else if decide (to_ ca = to_ cb) then 0 else 1
  else 1.

(** The output sorter is only ever shorter than the connections when it is extended. *)
Definition sort_connections (r : Router) : res Router :=
  let* r :=
    if _conn_sorted r then Ok r
    else let* conn := click_qsort (click_compare connection_lt) 1 (_conn r) in Ok (with_conn conn true [] r) in
  let n := length (_conn r) in
  let m := length (_conn_output_sorter r) in
  if (m =? n)%nat then Ok r
  else if (n <? m)%nat then Fault OutOfFuel
  else
    let* sorter := click_qsort (conn_output_sorter_compar (_conn r)) 2 (_conn_output_sorter r ++ seq m (n - m)) in
    Ok (with_conn (_conn r) (_conn_sorted r) sorter r).

(** The number of the connection at position [cix] of the order by that end. *)
Definition conn_index (r : Router) (isoutput : bool) (cix : nat) : res nat :=
  if isoutput then load (_conn_output_sorter r) cix else Ok cix.

Definition conn_in_order (r : Router) (isoutput : bool) (cix : nat) : res Connection :=
  let* ci := conn_index r isoutput cix in load (_conn r) ci.

(** *** Elements and ranges *)

(** [remove_connection]: the last one takes its place. *)
Definition remove_connection (i : nat) (conn : list Connection) : list Connection :=
  match last conn with
  | Some c => take (length conn - 1) (<[i := c]> conn)
  | None => conn
  end.

(** The loops that remove the connections with errors. *)
Fixpoint remove_bad (bad : Connection -> list hookup_error) (fuel i : nat) (conn : list Connection)
    : list Connection * list hookup_error :=
  match fuel with
  | O => (conn, [])
  | S fuel =>
      match conn !! i with
      | None => (conn, [])
      | Some c =>
          match bad c with
          | [] => remove_bad bad fuel (S i) conn
          | es => let '(conn, more) := remove_bad bad fuel i (remove_connection i conn) in (conn, es ++ more)
          end
      end
  end.

Definition remove_all_bad (bad : Connection -> list hookup_error) (r : Router) : Router * list hookup_error :=
  let '(conn, errors) := remove_bad bad (length (_conn r)) 0 (_conn r) in
  match errors with
  | [] => (r, [])
  | _ => (with_conn conn false (_conn_output_sorter r) r, errors)
  end.

Definition bad_element (n : Z) (c : Connection) : list hookup_error :=
  flat_map (fun isoutput : bool =>
    let p := conn_end isoutput c in
    (if (idx p <? 0) || (n <=? idx p) then [BadElement (idx p)] else []) ++
    (if port p <? 0 then [BadPort (port p)] else [])) [false; true].

Definition check_hookup_elements (r : Router) : Router * list hookup_error :=
  remove_all_bad (bad_element (nelements r)) r.

(** The highest port of each element that is connected, -1 for none. *)
Fixpoint highest_ports (isoutput : bool) (conn : list Connection) (n : list Z) : list Z :=
  match conn with
  | [] => n
  | c :: conn =>
      let p := conn_end isoutput c in
      let i := Z.to_nat (idx p) in
      highest_ports isoutput conn (if default 0 (n !! i) <? port p then <[i := port p]> n else n)
  end.

(** [Element::set_nports] of the numbers; bad ones change nothing. *)
Definition set_nports (old new : Z * Z) : Z * Z :=
  if (fst new <? 0) || (snd new <? 0) then old else new.

(** [notify_nports] of every element, from number [ei] on. *)
Fixpoint notify_elements (ei : Z) (es : list ElementClass) (nin nout : list Z) (n : list (Z * Z))
    : list (Z * Z) * list hookup_error :=
  match es, nin, nout, n with
  | e :: es, i :: nin, o :: nout, old :: n =>
      let '(n, errors) := notify_elements (ei + 1) es nin nout n in
      match notify_nports (port_count e) (i32 (i + 1)) (i32 (o + 1)) with
      | Some new => (set_nports old new :: n, errors)
      | None => (old :: n, BadPortCount ei :: errors)
      end
  | _, _, _, n => (n, [])
  end.

Definition bad_range (r : Router) (c : Connection) : list hookup_error :=
  flat_map (fun isoutput : bool =>
    let p := conn_end isoutput c in
    if nports_of r isoutput (idx p) <=? port p then [NoPort isoutput p] else []) [false; true].

Definition check_hookup_range (r : Router) : Router * list hookup_error :=
  let none := replicate (length (elements r)) (-1) in
  let nin := highest_ports false (_conn r) none in
  let nout := highest_ports true (_conn r) none in
  let '(n, errors) := notify_elements 0 (elements r) nin nout (nports r) in
  let '(r, more) := remove_all_bad (bad_range (with_nports n r)) (with_nports n r) in
  (r, errors ++ more).

(** *** Push and pull *)

(** [make_gports], [gport]: the ports of one side are numbered through. *)
Definition gport_offset (r : Router) (isoutput : bool) (ei : Z) : Z :=
  foldr Z.add 0 (map (side isoutput) (take (Z.to_nat ei) (nports r))).
Definition gport (r : Router) (isoutput : bool) (p : Port) : nat :=
  Z.to_nat (gport_offset r isoutput (idx p) + port p).

(** The flow code that counts: the override that was set last, if there is one. *)
Definition flow_code_override (r : Router) (ei : Z) : option bytes :=
  match find (fun o => fst o =? ei) (rev (flow_code_overrides r)) with
  | Some o => Some (snd o)
  | None => None
  end.

Definition port_flow (r : Router) (isoutput : bool) (p : Port) : res (list bool) :=
  let f := match flow_code_override r (idx p) with
           | Some f => Some f
           | None => match elements r !! Z.to_nat (idx p) with Some e => flow_code e | None => None end
           end in
  let nother := Z.to_nat (nports_of r (negb isoutput) (idx p)) in
  if (port p <? 0) || (nports_of r isoutput (idx p) <=? port p) then Ok (replicate nother false)
  else match f with
       | None => Ok (replicate nother true)
       | Some f => code_flow f isoutput (Z.to_nat (port p)) nother
       end.

(** The processing of every port of one side, and the errors. *)
Definition processing_vectors (r : Router) : list Processing * list Processing * list hookup_error :=
  let vs := map (fun x : nat * (ElementClass * (Z * Z)) =>
    (Z.of_nat x.1, processing_vector (processing x.2.1) (Z.to_nat x.2.2.1) (Z.to_nat x.2.2.2)))
    (zip (seq 0 (length (elements r))) (zip (elements r) (nports r))) in
  (flat_map (fun v => v.2.1.1) vs, flat_map (fun v => v.2.1.2) vs,
   flat_map (fun v => replicate v.2.2 (BadProcessing v.1)) vs).

(** The connections inside the elements: from an agnostic input to the agnostic outputs
    that its packets reach. *)
Fixpoint agnostic_outputs (output_pers : list Processing) (og : nat) (ei ip : Z) (j : Z) (bv : list bool)
    : res (list Connection) :=
  match bv with
  | [] => Ok []
  | b :: bv =>
      let* fake :=
        if (b : bool) then
          let* o := load output_pers (og + Z.to_nat j) in
          Ok (if decide (o = VAGNOSTIC) then [mkConnection (mkPort ei ip) (mkPort ei j)] else [])
        else Ok [] in
      let* more := agnostic_outputs output_pers og ei ip (j + 1) bv in
      Ok (fake ++ more)
  end.

Definition agnostic_input (r : Router) (input_pers output_pers : list Processing) (p : Port) : res (list Connection) :=
  let* i := load input_pers (gport r false p) in
  if decide (i = VAGNOSTIC) then
    let* bv := port_flow r false p in
    agnostic_outputs output_pers (gport r true (mkPort (idx p) 0)) (idx p) (port p) 0 bv
  else Ok [].

Fixpoint concat_res {A} (l : list (res (list A))) : res (list A) :=
  match l with
  | [] => Ok []
  | m :: l => let* x := m in let* y := concat_res l in Ok (x ++ y)
  end.

(** All ports of one side, in order. *)
Definition all_ports (r : Router) (isoutput : bool) : list Port :=
  flat_map (fun ei => map (fun i => mkPort (Z.of_nat ei) (Z.of_nat i)) (seq 0 (Z.to_nat (nports_of r isoutput (Z.of_nat ei)))))
    (seq 0 (length (elements r))).

Definition agnostic_connections (r : Router) (input_pers output_pers : list Processing) : res (list Connection) :=
  concat_res (map (agnostic_input r input_pers output_pers) (all_ports r false)).

(** One pass over the connections.  A connection is given with whether it is inside an
    element, and is [None] after an error. *)
Record Spread := mkSpread {
  s_conn : list (option (bool * Connection));
  s_in : list Processing;
  s_out : list Processing;
  s_changed : bool;
  s_errors : list hookup_error
}.

Fixpoint spread_pass (r : Router) (conn : list (option (bool * Connection))) (input_pers output_pers : list Processing)
    : res Spread :=
  match conn with
  | [] => Ok (mkSpread [] input_pers output_pers false [])
  | None :: conn =>
      let* s := spread_pass r conn input_pers output_pers in
      Ok (mkSpread (None :: s_conn s) (s_in s) (s_out s) (s_changed s) (s_errors s))
  | Some (aggie, c) :: conn =>
      let gf := gport r true (from_ c) in
      let gt := gport r false (to_ c) in
      let* pf := load output_pers gf in
      let* pt := load input_pers gt in
      let keep (s : Spread) := mkSpread (Some (aggie, c) :: s_conn s) (s_in s) (s_out s) (s_changed s) (s_errors s) in
      let change (s : Spread) := mkSpread (Some (aggie, c) :: s_conn s) (s_in s) (s_out s) true (s_errors s) in
      match pt, pf with
      | VAGNOSTIC, VAGNOSTIC => let* s := spread_pass r conn input_pers output_pers in Ok (keep s)
      | VAGNOSTIC, _ => let* s := spread_pass r conn (<[gt := pf]> input_pers) output_pers in Ok (change s)
      | _, VAGNOSTIC => let* s := spread_pass r conn input_pers (<[gf := pt]> output_pers) in Ok (change s)
      | _, _ =>
          if decide (pf = pt) then let* s := spread_pass r conn input_pers output_pers in Ok (keep s)
          else
            let* s := spread_pass r conn input_pers output_pers in
            Ok (mkSpread (None :: s_conn s) (s_in s) (s_out s) (s_changed s) (Mixed aggie c :: s_errors s))
      end
  end.

Fixpoint spread_personalities (r : Router) (fuel : nat) (conn : list (option (bool * Connection)))
    (input_pers output_pers : list Processing) : res (list Processing * list Processing * list hookup_error) :=
  match fuel with
  | O => Fault OutOfFuel
  | S fuel =>
      let* s := spread_pass r conn input_pers output_pers in
      if s_changed s then
        let* (i, o, errors) := spread_personalities r fuel (s_conn s) (s_in s) (s_out s) in
        Ok (i, o, s_errors s ++ errors)
      else Ok (s_in s, s_out s, s_errors s)
  end.

(** [initialize_ports]: an input is active if it is pull, an output if it is not. *)
Definition initialize_input (v : Processing) : PortState := mkPortState None (if decide (v = VPULL) then 0 else -1).
Definition initialize_output (v : Processing) : PortState := mkPortState None (if decide (v = VPULL) then -1 else 0).

Definition initialize_ports (r : Router) (input_pers output_pers : list Processing) : list (list PortState * list PortState) :=
  map (fun ei => let ei := Z.of_nat ei in
    let part (isoutput : bool) (pers : list Processing) :=
      take (Z.to_nat (nports_of r isoutput ei)) (drop (Z.to_nat (gport_offset r isoutput ei)) pers) in
    (map initialize_input (part false input_pers), map initialize_output (part true output_pers)))
  (seq 0 (length (elements r))).

(** The errors that make it fail are those of the connections; the others are only
    reported. *)
Definition check_push_and_pull (r : Router) : res (Router * bool * list hookup_error) :=
  let '(input_pers, output_pers, reported) := processing_vectors r in
  let* fake := agnostic_connections r input_pers output_pers in
  let conn := map (fun c => Some (false, c)) (_conn r) ++ map (fun c => Some (true, c)) fake in
  let* (input_pers, output_pers, errors) :=
    spread_personalities r (length input_pers + length output_pers + 1) conn input_pers output_pers in
  match errors with
  | [] => Ok (with_ports (initialize_ports r input_pers output_pers) r, true, reported)
  | _ => Ok (r, false, reported ++ errors)
  end.

(** *** Completeness *)

(** The loop over the connections in the order of one end: a port that is there twice
    must not be active. *)
Fixpoint reused_loop (r : Router) (isoutput : bool) (last : Port) (cixs : list nat) : res (list hookup_error) :=
  match cixs with
  | [] => Ok []
  | cix :: cixs =>
      let* c := conn_in_order r isoutput cix in
      let p := conn_end isoutput c in
      if decide (last = p) then
        let* more := reused_loop r isoutput last cixs in
        Ok ((if port_active r isoutput last then [Reused isoutput last] else []) ++ more)
      else reused_loop r isoutput p cixs
  end.

Definition reused_ports (r : Router) (isoutput : bool) : res (list hookup_error) :=
  let* c := conn_in_order r isoutput 0 in
  reused_loop r isoutput (conn_end isoutput c) (seq 1 (length (_conn r) - 1)).

(** The loop over all ports, [all], and the ports of the connections, [conn], which is
    the [cix]th but for the start and the end. *)
Fixpoint unused_loop (r : Router) (isoutput : bool) (fuel cix : nat) (conn all : Port) : res (list hookup_error) :=
  match fuel with
  | O => Fault OutOfFuel
  | S fuel =>
      if negb (idx all <? nelements r) then Ok []
      else if nports_of r isoutput (idx all) <=? port all then
        unused_loop r isoutput fuel cix conn (mkPort (idx all + 1) 0)
      else if port_lt conn all && (length (_conn r) <=? cix)%nat then
        unused_loop r isoutput fuel cix (mkPort (nelements r) (port conn)) all
      else if port_lt conn all then
        let* c := conn_in_order r isoutput cix in
        unused_loop r isoutput fuel (S cix) (conn_end isoutput c) all
      else
        let* more := unused_loop r isoutput fuel cix conn (mkPort (idx all) (port all + 1)) in
        Ok ((if decide (conn <> all) then [Unused isoutput all] else []) ++ more)
  end.

(** Every round passes an element, a port or a connection, or ends the connections. *)
Definition unused_fuel (r : Router) (isoutput : bool) : nat :=
  (length (elements r) + length (all_ports r isoutput) + length (_conn r) + 2)%nat.

Definition unused_ports (r : Router) (isoutput : bool) : res (list hookup_error) :=
  unused_loop r isoutput (unused_fuel r isoutput) 0 (mkPort (-1) 0) (mkPort 0 0).

Definition check_hookup_completeness (r : Router) : res (Router * list hookup_error) :=
  let* r := sort_connections r in
  let* reused :=
    match _conn r with
    | [] => Ok []
    | _ => concat_res (map (reused_ports r) [false; true])
    end in
  let* unused := concat_res (map (unused_ports r) [false; true]) in
  Ok (r, reused ++ unused).

(** *** The connections *)

(** [Element::connect_port] *)
Definition connect_port (r : Router) (isoutput : bool) (p q : Port) : Router :=
  if port_active r isoutput p then
    let set (s : list PortState) := <[Z.to_nat (port p) := mkPortState (Some (idx q)) (port q)]> s in
    with_ports (alter (fun ps => if isoutput then (fst ps, set (snd ps)) else (set (fst ps), snd ps)) (Z.to_nat (idx p)) (ports r)) r
  else r.

Fixpoint connect_all (conn : list Connection) (r : Router) : Router :=
  match conn with
  | [] => r
  | c :: conn => connect_all conn (connect_port (connect_port r true (from_ c) (to_ c)) false (to_ c) (from_ c))
  end.

Definition set_connections (r : Router) : Router := with_connections true (connect_all (_conn r) r).

(** The part of [Router::initialize] that checks and makes the connections: [all_ok],
    and the errors.  [None] is the early return, without a clean-up. *)
Definition hookup (r : Router) : res (option (Router * bool) * list hookup_error) :=
  let '(r, errors) := check_hookup_elements r in
  match errors with
  | _ :: _ => Ok (None, errors)
  | [] =>
      let '(r, errors) := check_hookup_range r in
      match errors with
      | _ :: _ => Ok (Some (r, false), errors)
      | [] =>
          let* (r, ok, reported) := check_push_and_pull r in
          if (ok : bool) then
            let* (r, errors) := check_hookup_completeness r in
            match errors with
            | [] => Ok (Some (set_connections r, true), reported)
            | _ => Ok (Some (r, false), reported ++ errors)
            end
          else Ok (Some (r, false), reported)
      end
  end.

(** A new router with the elements and the connections of a configuration. *)
Definition new_router (es : list ElementClass) (conn : list Connection) (sorted : bool) : Router :=
  mkRouter es [] (map (fun _ => (0, 0)) es) (map (fun _ => ([], [])) es) conn sorted [] false.

(** ** Searching the connections *)

Definition port_le (x y : Port) : bool := (idx x <? idx y) || ((idx x =? idx y) && (port x <=? port y)).

(** The first position whose port is not less, by bisection. *)
Fixpoint lower_bound (r : Router) (isoutput : bool) (p : Port) (fuel lo hi : nat) : res nat :=
  if (hi <=? lo)%nat then Ok hi
  else match fuel with
       | O => Fault OutOfFuel
       | S fuel =>
           let m := (lo + (hi - lo) / 2)%nat in
           let* c := conn_in_order r isoutput m in
           if port_le p (conn_end isoutput c) then lower_bound r isoutput p fuel lo m
           else lower_bound r isoutput p fuel (S m) hi
       end.

Definition connindex_lower_bound (r : Router) (isoutput : bool) (p : Port) : res nat :=
  assert* (_conn_sorted r && (length (_conn_output_sorter r) =? length (_conn r))%nat);
  lower_bound r isoutput p (length (_conn r)) 0 (length (_conn r)).

Section visit.
Context {V : Type} (visit : Port -> Port -> Z -> V -> V * bool) (r : Router) (forward : bool).

(** The connections at port [sp], from position [cix] on; [visit] is told the port
    found, the port it was found from and the distance. *)
Fixpoint visit_connections (fuel : nat) (sp : Port) (distance : Z) (cix : nat)
    (s : V * list nat * list Port) : res (V * list nat * list Port) :=
  match fuel with
  | O => Ok s
  | S fuel =>
      if (length (_conn r) <=? cix)%nat then Ok s
      else
        let* c := conn_in_order r forward cix in
        if decide (conn_end forward c <> sp) then Ok s
        else
          let '(v, result_bv, next_sources) := s in
          let connpt := conn_end (negb forward) c in
          let conng := gport r (negb forward) connpt in
          if decide (conng ∈ result_bv) then visit_connections fuel sp distance (S cix) s
          else
            let '(v, go) := visit connpt sp distance v in
            if (go : bool) then
              let* scratch := port_flow r (negb forward) connpt in
              let more := flat_map (fun x : nat * bool => if x.2 then [mkPort (idx connpt) (Z.of_nat x.1)] else [])
                            (zip (seq 0 (length scratch)) scratch) in
              visit_connections fuel sp distance (S cix) (v, conng :: result_bv, next_sources ++ more)
            else visit_connections fuel sp distance (S cix) (v, conng :: result_bv, next_sources)
  end.

Fixpoint visit_sources (sources : list Port) (distance : Z) (s : V * list nat * list Port) : res (V * list nat * list Port) :=
  match sources with
  | [] => Ok s
  | sp :: sources =>
      let* cix := connindex_lower_bound r forward sp in
      let* s := visit_connections (length (_conn r)) sp distance cix s in
      visit_sources sources distance s
  end.

Fixpoint visit_rounds (fuel : nat) (sources : list Port) (distance : Z) (v : V) (result_bv : list nat) : res V :=
  match sources with
  | [] => Ok v
  | _ =>
      match fuel with
      | O => Fault OutOfFuel
      | S fuel =>
          let* (v, result_bv, next_sources) := visit_sources sources distance (v, result_bv, []) in
          visit_rounds fuel next_sources (distance + 1) v result_bv
      end
  end.

End visit.

(** [None] in the early stages of a router.  A negative port stands for all of them. *)
Definition visit_base {V} (visit : Port -> Port -> Z -> V -> V * bool) (forward : bool) (first : Port)
    (r : Router) (v : V) : res (option (Router * V)) :=
  if negb (_have_connections r) then Ok None
  else
    let* r := sort_connections r in
    let n := nports_of r forward (idx first) in
    let sources :=
      if port first <? 0 then map (fun i => mkPort (idx first) (Z.of_nat i)) (seq 0 (Z.to_nat n))
      else if port first <? n then [first]
      else [] in
    let* v := visit_rounds visit r forward (length (all_ports r (negb forward)) + 2) sources 1 v [] in
    Ok (Some (r, v)).

(** [ElementFilterRouterVisitor]: the elements found, without duplicates; the filter
    stops the search. *)
Definition filter_visit (filter : option (Port -> bool)) (p source : Port) (distance : Z) (results : list Z) : list Z * bool :=
  (if decide (idx p ∈ results) then results else results ++ [idx p],
   match filter with Some check_match => negb (check_match p) | None => true end).

Definition downstream_elements (filter : option (Port -> bool)) (first : Port) (r : Router) : res (option (Router * list Z)) :=
  visit_base (filter_visit filter) true first r [].
Definition upstream_elements (filter : option (Port -> bool)) (first : Port) (r : Router) : res (option (Router * list Z)) :=
  visit_base (filter_visit filter) false first r [].
