(* ===== verification/HookupProps.v ===== *)
(** * HookupProps: what the hookup of a router guarantees

    The connections are sorted by [click_qsort] as every sort would; push and pull are
    assigned if and only if there is an assignment that fits; and a router that passes
    the checks has every port connected, every active one once, with the active end of
    each connection pointing to the other end. *)

From Stdlib Require Import Sorting.Sorted.
From stdpp Require Import sorting.
From S2P Require Import Prelude ConfParse Lexer Sorting Hookup.

(** ** Orders *)

Lemma StronglySorted_weaken {T} (R S : T -> T -> Prop) l :
  (forall x y, R x y -> S x y) -> StronglySorted R l -> StronglySorted S l.
Proof. intros H. induction 1; constructor; [done|]. eapply Forall_impl; eauto. Qed.

Lemma port_lt_spec x y : port_lt x y = true <-> idx x < idx y \/ idx x = idx y /\ port x < port y.
Proof. unfold port_lt. lia. Qed.

Lemma port_eq x y : x = y <-> idx x = idx y /\ port x = port y.
Proof. destruct x, y; simpl. split; [by intros [= -> ->]|by intros [-> ->]]. Qed.

Lemma connection_lt_spec x y : connection_lt x y = true <->
  port_lt (to_ x) (to_ y) = true \/ to_ x = to_ y /\ port_lt (from_ x) (from_ y) = true.
Proof. unfold connection_lt. rewrite orb_true_iff, andb_true_iff, bool_decide_eq_true. done. Qed.

Lemma connection_eq x y : x = y <-> to_ x = to_ y /\ from_ x = from_ y.
Proof. destruct x, y; simpl. split; [by intros [= -> ->]|by intros [-> ->]]. Qed.

(** A strict total order makes a comparison function. *)
Class StrictOrderB {T} (lt : T -> T -> bool) : Prop := {
  lt_irrefl : forall x, lt x x = false;
  lt_trans : forall x y z, lt x y = true -> lt y z = true -> lt x z = true;
  lt_total : forall x y, lt x y = false -> lt y x = false -> x = y
}.

#[global] Instance port_lt_order : StrictOrderB port_lt.
Proof.
  split.
  - intros x. unfold port_lt. lia.
  - intros x y z. rewrite !port_lt_spec. lia.
  - intros x y. rewrite <- !not_true_iff_false, !port_lt_spec, port_eq. lia.
Qed.

#[global] Instance connection_lt_order : StrictOrderB connection_lt.
Proof.
  split.
  - intros x. apply not_true_iff_false. rewrite connection_lt_spec, !lt_irrefl. intuition congruence.
  - intros x y z. rewrite !connection_lt_spec.
    intros [H1|[E1 H1]] [H2|[E2 H2]]; [left|left|left|right].
    + by eapply lt_trans.
    + congruence.
    + congruence.
    + split; [congruence|]. by eapply lt_trans.
  - intros x y. rewrite <- !not_true_iff_false, !connection_lt_spec, connection_eq. intros Hx Hy.
    assert (to_ x = to_ y) as E by (apply lt_total; apply not_true_iff_false; tauto).
    split; [done|]. apply lt_total; apply not_true_iff_false; intros H; [apply Hx|apply Hy]; right; by split.
Qed.

Section order.
Context {T : Type} (lt : T -> T -> bool) `{!StrictOrderB lt}.

Lemma lt_asym x y : lt x y = true -> lt y x = false.
Proof.
  intros H. apply not_true_iff_false. intros H'. pose proof (lt_trans _ _ _ H H').
  rewrite lt_irrefl in *. done.
Qed.

Lemma click_compare_le x y : click_compare lt x y <= 0 <-> lt y x = false.
Proof.
  unfold click_compare. destruct (lt x y) eqn:Exy; [rewrite (lt_asym _ _ Exy); split; [done|lia]|].
  destruct (lt y x); split; (done || lia).
Qed.

Lemma not_lt_trans x y z : lt y x = false -> lt z y = false -> lt z x = false.
Proof.
  intros Hyx Hzy. apply not_true_iff_false. intros Hzx.
  destruct (lt x y) eqn:Exy; [|by rewrite (lt_total x y) in Hzx by done; congruence].
  pose proof (lt_trans _ _ _ Hzx Exy). congruence.
Qed.

#[global] Instance click_compare_comparison : Comparison (click_compare lt).
Proof.
  split.
  - intros x y. unfold click_compare.
    destruct (lt x y) eqn:Exy; [rewrite (lt_asym _ _ Exy); lia|]. destruct (lt y x); lia.
  - intros x y z. rewrite !click_compare_le. apply not_lt_trans.
Qed.

(** The result of a sort is determined. *)
Lemma sorted_unique l l' :
  StronglySorted (fun x y => click_compare lt x y <= 0) l ->
  StronglySorted (fun x y => click_compare lt x y <= 0) l' -> Permutation l l' -> l = l'.
Proof.
  intros Hl Hl' HP. eapply StronglySorted_unique; [|exact Hl|exact Hl'|exact HP].
  intros x y. rewrite !click_compare_le. intros. by apply lt_total.
Qed.

End order.

#[global] Instance connection_le_trans : Transitive connection_le.
Proof. intros x y z. apply (not_lt_trans connection_lt). Qed.

#[global] Instance connection_le_total : Total connection_le.
Proof.
  intros x y. unfold connection_le. destruct (connection_lt y x) eqn:E; [right|by left]. exact (lt_asym _ _ _ E).
Qed.

Lemma lexer_sort_sorted conn : StronglySorted (fun x y => click_compare connection_lt x y <= 0) (Lexer.sort_connections conn).
Proof.
  eapply StronglySorted_weaken; [|apply Sorted_StronglySorted, Sorted_merge_sort; apply _].
  intros x y H. apply (click_compare_le connection_lt). exact H.
Qed.

(** The connections of a configuration are sorted by [click_qsort] into one order,
    whatever the quicksort does on the way: the order that a merge sort gives them. *)
Theorem click_qsort_connections swaptype conn : Z.of_nat (length conn) < 2 ^ 64 ->
  click_qsort (click_compare connection_lt) swaptype conn = Ok (Lexer.sort_connections conn).
Proof.
  intros Hl. destruct (click_qsort_Ok (click_compare connection_lt) swaptype conn Hl) as (l & -> & HP & Hs).
  f_equal. apply (sorted_unique connection_lt); [apply Hs, _|apply lexer_sort_sorted|].
  rewrite HP. symmetry. apply merge_sort_Permutation.
Qed.

(** ** Sorted connections *)

Definition flip_connection (c : Connection) : Connection := mkConnection (from_ c) (to_ c).

Lemma sorter_compar_eq conn a b : conn_output_sorter_compar conn a b =
  click_compare connection_lt (flip_connection (conn_at conn a)) (flip_connection (conn_at conn b)).
Proof.
  unfold conn_output_sorter_compar, click_compare, connection_lt, flip_connection. simpl.
  set (fa := from_ (conn_at conn a)). set (fb := from_ (conn_at conn b)).
  set (ta := to_ (conn_at conn a)). set (tb := to_ (conn_at conn b)).
  destruct (port_lt fa fb) eqn:E1; [done|]. destruct (decide (fa = fb)) as [->|Hne].
  - rewrite bool_decide_true by done. simpl. rewrite lt_irrefl. simpl.
    destruct (port_lt ta tb) eqn:E2; [done|].
    destruct (decide (ta = tb)) as [->|Hne]; [by rewrite lt_irrefl|].
    destruct (port_lt tb ta) eqn:E3; [done|]. destruct Hne. by apply lt_total.
  - rewrite bool_decide_false by done. simpl.
    destruct (port_lt fb fa) eqn:E3; [done|]. destruct Hne. by apply lt_total.
Qed.

#[global] Instance sorter_comparison conn : Comparison (conn_output_sorter_compar conn).
Proof.
  split; intros *; rewrite !sorter_compar_eq; [apply compar_flip|apply compar_trans].
Qed.

(** What [_conn_sorted] and the output sorter say of the connections. *)
Record Ordered (r : Router) : Prop := mkOrdered {
  ordered_small : Z.of_nat (length (_conn r)) < 2 ^ 64;
  ordered_conn : _conn_sorted r = true -> StronglySorted (fun x y => click_compare connection_lt x y <= 0) (_conn r);
  ordered_sorter : _conn_sorted r = true ->
    Permutation (_conn_output_sorter r) (seq 0 (length (_conn_output_sorter r))) /\
    (length (_conn_output_sorter r) <= length (_conn r))%nat;
  ordered_output : _conn_sorted r = true -> length (_conn_output_sorter r) = length (_conn r) ->
    StronglySorted (fun a b => conn_output_sorter_compar (_conn r) a b <= 0) (_conn_output_sorter r)
}.

(** The connections are sorted, and so are their numbers by the other end. *)
Record Arranged (r : Router) : Prop := mkArranged {
  arranged_flag : _conn_sorted r = true;
  arranged_conn : StronglySorted (fun x y => click_compare connection_lt x y <= 0) (_conn r);
  arranged_sorter : Permutation (_conn_output_sorter r) (seq 0 (length (_conn r)));
  arranged_output : StronglySorted (fun a b => conn_output_sorter_compar (_conn r) a b <= 0) (_conn_output_sorter r)
}.

Lemma arranged_length r : Arranged r -> length (_conn_output_sorter r) = length (_conn r).
Proof. intros [_ _ HP _]. by rewrite HP, length_seq. Qed.

Lemma arranged_ordered r : Z.of_nat (length (_conn r)) < 2 ^ 64 -> Arranged r -> Ordered r.
Proof.
  intros Hl HA. pose proof (arranged_length r HA) as E. destruct HA as [H1 H2 H3 H4].
  constructor; [done..| |done]. intros _. rewrite E. done.
Qed.

Lemma sort_connections_Ok r : Ordered r ->
  exists conn sorter, Hookup.sort_connections r = Ok (with_conn conn true sorter r) /\ Permutation conn (_conn r) /\
    Arranged (with_conn conn true sorter r).
Proof.
  intros [Hsmall Hc Hs Ho]. unfold Hookup.sort_connections.
  assert (exists conn sorter,
    (if _conn_sorted r then Ok r
     else let* conn := click_qsort (click_compare connection_lt) 1 (_conn r) in Ok (with_conn conn true [] r)) =
    Ok (with_conn conn true sorter r) /\ Permutation conn (_conn r) /\
    StronglySorted (fun x y => click_compare connection_lt x y <= 0) conn /\
    Permutation sorter (seq 0 (length sorter)) /\ (length sorter <= length conn)%nat /\
    (length sorter = length conn -> StronglySorted (fun a b => conn_output_sorter_compar conn a b <= 0) sorter))
    as (conn & sorter & -> & HP & Hsc & Hps & Hle & Hso).
  { destruct (_conn_sorted r) eqn:E.
    - exists (_conn r), (_conn_output_sorter r). split_and!; [by destruct r; simpl in *; subst|done|by apply Hc|by apply Hs..|by apply Ho].
    - destruct (click_qsort_Ok (click_compare connection_lt) 1 (_conn r) Hsmall) as (conn & -> & HP & Hsc).
      exists conn, []. split_and!; [done|done|apply Hsc, _|done|simpl; lia|constructor]. }
  res_simpl. cbn [_conn _conn_output_sorter _conn_sorted with_conn].
  destruct (Nat.eqb_spec (length sorter) (length conn)) as [El|Hne].
  - exists conn, sorter. split_and!; [done..|]. constructor; cbn; [done..|by rewrite <- El|by apply Hso].
  - destruct (Nat.ltb_spec (length conn) (length sorter)); [lia|].
    assert (Hseq : Permutation (sorter ++ seq (length sorter) (length conn - length sorter)) (seq 0 (length conn))).
    { rewrite Hps at 1. rewrite <- seq_app. f_equiv. lia. }
    assert (Hlen : length conn = length (_conn r)) by (by rewrite HP).
    destruct (click_qsort_Ok (conn_output_sorter_compar conn) 2 (sorter ++ seq (length sorter) (length conn - length sorter)))
      as (sorter' & -> & HP' & Hs'). { rewrite Hseq, length_seq. lia. }
    exists conn, sorter'. split_and!; [done..|]. constructor; cbn; [done..|by rewrite HP'|apply Hs', _].
Qed.

(** The connections in the order of one end. *)
Definition order (r : Router) (isoutput : bool) : list Connection :=
  if isoutput then map (conn_at (_conn r)) (_conn_output_sorter r) else _conn r.

Lemma conn_in_order_lookup r o k : Arranged r ->
  conn_in_order r o k = match order r o !! k with Some c => Ok c | None => Fault OutOfBounds end.
Proof.
  intros [_ _ HP _]. unfold conn_in_order, conn_index, order, load. destruct o; res_simpl; [|by destruct (_conn r !! k)].
  rewrite list_lookup_fmap. destruct (_conn_output_sorter r !! k) as [i|] eqn:E; [|done]. simpl. unfold conn_at.
  assert (i ∈ seq 0 (length (_conn r))) as Hi by (rewrite <- HP; by eapply list_elem_of_lookup_2).
  apply elem_of_seq in Hi. destruct (lookup_lt_is_Some_2 (_conn r) i) as [c ->]; [lia|]. done.
Qed.

Lemma map_conn_at_seq conn : map (conn_at conn) (seq 0 (length conn)) = conn.
Proof.
  apply list_eq. intros i. rewrite list_lookup_fmap. destruct (decide (i < length conn)%nat).
  - rewrite lookup_seq_lt by done. simpl. unfold conn_at.
    destruct (lookup_lt_is_Some_2 conn i) as [c ->]; [done|]. done.
  - rewrite lookup_seq_ge by lia. simpl. symmetry. apply lookup_ge_None. lia.
Qed.

Lemma order_Permutation r o : Arranged r -> Permutation (order r o) (_conn r).
Proof.
  intros [_ _ HP _]. unfold order. destruct o; [|done]. rewrite HP. by rewrite map_conn_at_seq.
Qed.

Lemma order_sorted r o : Arranged r ->
  StronglySorted (fun x y => port_lt (conn_end o y) (conn_end o x) = false) (order r o).
Proof.
  intros [_ Hc _ Hs]. unfold order. destruct o; simpl.
  - induction Hs as [|a l _ IH Hf]; constructor; [done|]. apply Forall_fmap. eapply Forall_impl; [exact Hf|].
    intros b. simpl. rewrite sorter_compar_eq, (click_compare_le connection_lt). intros Hb.
    apply not_true_iff_false. intros Hlt. apply not_true_iff_false in Hb. apply Hb, connection_lt_spec. by left.
  - eapply StronglySorted_weaken; [|exact Hc]. intros x y. simpl. rewrite (click_compare_le connection_lt). intros Hb.
    apply not_true_iff_false. intros Hlt. apply not_true_iff_false in Hb. apply Hb, connection_lt_spec. by left.
Qed.

(** ** Elements and ranges *)

Lemma remove_bad_none bad : forall fuel i conn conn',
  (length conn <= fuel + i)%nat -> remove_bad bad fuel i conn = (conn', []) ->
  conn' = conn /\ forall k c, (i <= k)%nat -> conn !! k = Some c -> bad c = [].
Proof.
  induction fuel as [|fuel IH]; intros i conn conn' Hf; cbn [remove_bad].
  - intros [= <-]. split; [done|]. intros k c Hk Hc%lookup_lt_Some. lia.
  - destruct (conn !! i) as [c|] eqn:Ec.
    + destruct (bad c) as [|e es] eqn:Eb.
      * intros H. apply IH in H as [-> H]; [|lia]. split; [done|]. intros k d Hk Hd.
        destruct (decide (k = i)) as [->|]; [congruence|]. apply (H k); [lia|done].
      * destruct (remove_bad _ _ _ _) as [? ?]. intros [=].
    + intros [= <-]. split; [done|]. intros k c Hk Hc%lookup_lt_Some. apply lookup_ge_None in Ec. lia.
Qed.

Lemma remove_bad_good bad : forall fuel i conn, Forall (fun c => bad c = []) conn -> remove_bad bad fuel i conn = (conn, []).
Proof.
  induction fuel as [|fuel IH]; intros i conn H; cbn [remove_bad]; [done|].
  destruct (conn !! i) as [c|] eqn:Ec; [|done].
  assert (bad c = []) as -> by (rewrite Forall_lookup in H; by eapply H). by apply IH.
Qed.

(** Without errors nothing is removed, and no connection is bad. *)
Lemma remove_all_bad_none bad r : snd (remove_all_bad bad r) = [] <-> Forall (fun c => bad c = []) (_conn r).
Proof.
  unfold remove_all_bad. split.
  - destruct (remove_bad bad _ 0 (_conn r)) as [conn [|e es]] eqn:E; [|done]. intros _.
    apply remove_bad_none in E as [_ H]; [|lia]. apply Forall_lookup. intros i c. apply H. lia.
  - intros H. by rewrite remove_bad_good.
Qed.

Lemma remove_all_bad_same bad r : snd (remove_all_bad bad r) = [] -> fst (remove_all_bad bad r) = r.
Proof. unfold remove_all_bad. destruct (remove_bad bad _ 0 (_conn r)) as [conn [|e es]]; done. Qed.

(** A connection between elements and a port that exists. *)
Definition in_range (r : Router) (o : bool) (p : Port) : Prop :=
  0 <= idx p < nelements r /\ 0 <= port p < nports_of r o (idx p).

Lemma bad_element_none n c : bad_element n c = [] <-> forall o, 0 <= idx (conn_end o c) < n /\ 0 <= port (conn_end o c).
Proof.
  unfold bad_element. cbn [flat_map]. rewrite app_nil_r. split.
  - intros (H1 & H2)%app_nil. apply app_nil in H1 as [H1 H1'], H2 as [H2 H2'].
    assert (forall (b : bool) (e : hookup_error), (if b then [e] else []) = [] -> b = false) as Hif by (intros [] ? [=]; done).
    apply Hif in H1, H1', H2, H2'. intros []; lia.
  - intros H. pose proof (H true). pose proof (H false).
    repeat match goal with |- context [if ?b then _ else _] => replace b with false by lia end. done.
Qed.

Lemma bad_range_none r c : bad_range r c = [] <-> forall o, port (conn_end o c) < nports_of r o (idx (conn_end o c)).
Proof.
  unfold bad_range. cbn [flat_map]. rewrite app_nil_r. split.
  - intros (H1 & H2)%app_nil.
    assert (forall (b : bool) (e : hookup_error), (if b then [e] else []) = [] -> b = false) as Hif by (intros [] ? [=]; done).
    apply Hif in H1, H2. intros []; lia.
  - intros H. pose proof (H true). pose proof (H false).
    repeat match goal with |- context [if ?b then _ else _] => replace b with false by lia end. done.
Qed.

(** ** Numbering the ports *)

(** Every element has its numbers of ports, which are not negative. *)
Record Shaped (r : Router) : Prop := mkShaped {
  shaped_nports : length (nports r) = length (elements r);
  shaped_ports : length (ports r) = length (elements r);
  shaped_nonneg : Forall (fun n => 0 <= fst n /\ 0 <= snd n) (nports r)
}.

Definition widths (r : Router) (o : bool) : list nat := map (fun n => Z.to_nat (side o n)) (nports r).

Lemma concat_lookup {B} (bs : list (list B)) : forall i b j, bs !! i = Some b -> (j < length b)%nat ->
  concat bs !! (sum_list (take i (map length bs)) + j)%nat = b !! j.
Proof.
  induction bs as [|b0 bs IH]; intros [|i] b j Hi Hj; simplify_eq/=.
  - by rewrite lookup_app_l.
  - rewrite lookup_app_r by lia. rewrite <- (IH i b j) by done. f_equal. lia.
Qed.

Lemma concat_part {B} (bs : list (list B)) : forall i b, bs !! i = Some b ->
  take (length b) (drop (sum_list (take i (map length bs))) (concat bs)) = b.
Proof.
  induction bs as [|b0 bs IH]; intros [|i] b Hi; simplify_eq/=.
  - rewrite drop_0. by rewrite take_app_length.
  - rewrite <- drop_drop, drop_app_length. by apply IH.
Qed.

Lemma length_concat_sum {B} (bs : list (list B)) : length (concat bs) = sum_list (map length bs).
Proof. induction bs as [|b bs IH]; [done|]. simpl. rewrite length_app. lia. Qed.

Lemma nports_of_lookup r o i n : nports r !! i = Some n -> nports_of r o (Z.of_nat i) = side o n.
Proof. intros E. unfold nports_of. rewrite Nat2Z.id, E. by destruct o. Qed.

Section numbering.
Context (r : Router) (HS : Shaped r).

Lemma nports_nonneg o ei : 0 <= nports_of r o ei.
Proof.
  unfold nports_of. destruct (nports r !! Z.to_nat ei) as [n|] eqn:E; [|by destruct o].
  destruct HS as [_ _ Hn]. rewrite Forall_lookup in Hn. destruct (Hn _ _ E). by destruct o.
Qed.

Lemma gport_offset_nat o i : gport_offset r o i = Z.of_nat (sum_list (take (Z.to_nat i) (widths r o))).
Proof.
  unfold gport_offset, widths. destruct HS as [_ _ Hn]. clear HS. generalize (Z.to_nat i) as k.
  induction Hn as [|n l [H1 H2] _ IH]; intros [|k]; [done..|]. simpl. rewrite IH. destruct o; simpl; lia.
Qed.

Lemma in_range_lookup o p : in_range r o p ->
  exists n, nports r !! Z.to_nat (idx p) = Some n /\ nports_of r o (idx p) = side o n /\
    widths r o !! Z.to_nat (idx p) = Some (Z.to_nat (side o n)).
Proof.
  intros [Hi Hp]. unfold nelements in Hi. destruct HS as [Hlen _ _].
  destruct (lookup_lt_is_Some_2 (nports r) (Z.to_nat (idx p))) as [n E]; [lia|]. exists n. split_and!; [done| |].
  - unfold nports_of. rewrite E. by destruct o.
  - unfold widths. by rewrite list_lookup_fmap, E.
Qed.

Lemma gport_nat o p : in_range r o p ->
  gport r o p = (sum_list (take (Z.to_nat (idx p)) (widths r o)) + Z.to_nat (port p))%nat.
Proof. intros [_ ?]. unfold gport. rewrite gport_offset_nat. lia. Qed.

(** A list with a block for each element, as wide as the ports, has the entry of a port
    at the port's number. *)
Lemma block_lookup {B} (bs : list (list B)) o p b : map length bs = widths r o -> in_range r o p ->
  bs !! Z.to_nat (idx p) = Some b -> concat bs !! gport r o p = b !! Z.to_nat (port p).
Proof.
  intros Hw Hp Hb. rewrite gport_nat by done. rewrite <- Hw. apply concat_lookup; [done|].
  destruct (in_range_lookup o p Hp) as (n & _ & En & Ew). destruct Hp as [_ ?].
  rewrite <- Hw, list_lookup_fmap, Hb in Ew. simpl in Ew. assert (length b = Z.to_nat (side o n)) by congruence. lia.
Qed.

Definition port_block (o : bool) (ei : nat) : list Port :=
  map (fun i => mkPort (Z.of_nat ei) (Z.of_nat i)) (seq 0 (Z.to_nat (nports_of r o (Z.of_nat ei)))).

Lemma all_ports_concat o : all_ports r o = concat (map (port_block o) (seq 0 (length (elements r)))).
Proof. unfold all_ports. by rewrite flat_map_concat_map. Qed.

Lemma port_blocks_widths o : map length (map (port_block o) (seq 0 (length (elements r)))) = widths r o.
Proof.
  apply list_eq. intros i. unfold widths. rewrite !list_lookup_fmap. destruct HS as [Hlen _ _].
  destruct (decide (i < length (elements r))%nat).
  - rewrite lookup_seq_lt by done. simpl. destruct (lookup_lt_is_Some_2 (nports r) i) as [n E]; [lia|].
    rewrite E. simpl. unfold port_block. by rewrite length_map, length_seq, (nports_of_lookup r o i n).
  - rewrite lookup_seq_ge by lia. rewrite (lookup_ge_None_2 (nports r)) by lia. done.
Qed.

Lemma all_ports_lookup o p : in_range r o p -> all_ports r o !! gport r o p = Some p.
Proof.
  intros Hp. rewrite all_ports_concat. destruct Hp as [Hi Hj] eqn:E. clear E.
  rewrite (block_lookup _ o p (port_block o (Z.to_nat (idx p)))); [|apply port_blocks_widths|done|].
  - unfold port_block. rewrite list_lookup_fmap, lookup_seq_lt; [simpl; f_equal; apply port_eq; simpl; lia|].
    rewrite Z2Nat.id by lia. lia.
  - rewrite list_lookup_fmap, lookup_seq_lt; [done|]. unfold nelements in Hi. lia.
Qed.

Lemma gport_inj o p q : in_range r o p -> in_range r o q -> gport r o p = gport r o q -> p = q.
Proof. intros Hp%all_ports_lookup Hq%all_ports_lookup E. congruence. Qed.

Lemma gport_lt o p : in_range r o p -> (gport r o p < length (all_ports r o))%nat.
Proof. intros Hp%all_ports_lookup. by eapply lookup_lt_Some. Qed.

Lemma sum_list_split ws : forall g, (g < sum_list ws)%nat ->
  exists i w j, ws !! i = Some w /\ (j < w)%nat /\ g = (sum_list (take i ws) + j)%nat.
Proof.
  clear HS r. induction ws as [|w ws IH]; intros g Hg; simpl in Hg; [lia|].
  destruct (decide (g < w)%nat).
  - exists 0%nat, w, g. by split_and!.
  - destruct (IH (g - w)%nat) as (i & w' & j & Hi & Hj & E); [lia|]. exists (S i), w', j. simpl. split_and!; [done..|lia].
Qed.

(** Every number is that of a port. *)
Lemma gport_surj o g : (g < length (all_ports r o))%nat -> exists p, in_range r o p /\ gport r o p = g.
Proof.
  rewrite all_ports_concat, length_concat_sum, port_blocks_widths. intros (i & w & j & Hi & Hj & ->)%sum_list_split.
  assert (in_range r o (mkPort (Z.of_nat i) (Z.of_nat j))) as Hp.
  { unfold widths in Hi. rewrite list_lookup_fmap in Hi. destruct (nports r !! i) as [n|] eqn:En; [|done].
    injection Hi as <-. pose proof (nports_of_lookup r o i n En). apply lookup_lt_Some in En. destruct HS as [Hlen _ _].
    unfold in_range, nelements. simpl. lia. }
  eexists. split; [exact Hp|]. rewrite gport_nat by done. simpl. by rewrite !Nat2Z.id.
Qed.

Lemma elem_of_all_ports o p : p ∈ all_ports r o <-> in_range r o p.
Proof.
  split; [|intros Hp; by eapply list_elem_of_lookup_2, all_ports_lookup].
  unfold all_ports. rewrite list_elem_of_In, in_flat_map. intros (ei & Hei & Hp).
  apply in_map_iff in Hp as (i & <- & Hi). apply in_seq in Hei, Hi. unfold in_range, nelements. simpl. lia.
Qed.

End numbering.

(** ** Push and pull *)

Lemma length_processing_codes str : forall n p going val, length (fst (fst (fst (processing_codes str n p going val)))) = n.
Proof.
  induction n as [|n IH]; intros p going val; [done|]. cbn [processing_codes].
  destruct (if going then _ else _) as [[[p' going'] val'] errors].
  specialize (IH p' going' val'). destruct (processing_codes str n p' going' val') as [[[vs ?] ?] ?].
  simpl in *. by rewrite IH.
Qed.

Lemma length_processing_vector str n m (o : bool) :
  length (side o (fst (processing_vector str n m))) = if o then m else n.
Proof.
  unfold processing_vector. pose proof (length_processing_codes str n 0 true VAGNOSTIC) as H1.
  destruct (processing_codes str n 0 true VAGNOSTIC) as [[[in_v p] val] errors].
  match goal with |- context [processing_codes str m ?q true val] => pose proof (length_processing_codes str m q true val) as H2;
    destruct (processing_codes str m q true val) as [[[out_v ?] ?] ?] end.
  by destruct o.
Qed.

(** The processing of an element's ports, as its class says, and of one port. *)
Definition element_vector (r : Router) (ei : nat) : option (list Processing * list Processing) :=
  match elements r !! ei, nports r !! ei with
  | Some e, Some n => Some (fst (processing_vector (processing e) (Z.to_nat (fst n)) (Z.to_nat (snd n))))
  | _, _ => None
  end.

Definition declared (r : Router) (o : bool) (p : Port) : option Processing :=
  match element_vector r (Z.to_nat (idx p)) with
  | Some v => side o v !! Z.to_nat (port p)
  | None => None
  end.

Definition vector_blocks (r : Router) (o : bool) : list (list Processing) :=
  map (fun x : ElementClass * (Z * Z) =>
    side o (fst (processing_vector (processing x.1) (Z.to_nat x.2.1) (Z.to_nat x.2.2)))) (zip (elements r) (nports r)).

Lemma processing_vectors_blocks r : Shaped r ->
  fst (processing_vectors r) = (concat (vector_blocks r false), concat (vector_blocks r true)).
Proof.
  intros [Hlen _ _]. unfold processing_vectors, vector_blocks. simpl. rewrite !flat_map_concat_map, !map_map.
  assert (forall (f : ElementClass * (Z * Z) -> list Processing) k (l : list (ElementClass * (Z * Z))),
    map (fun x : nat * (ElementClass * (Z * Z)) => f x.2) (zip (seq k (length l)) l) = map f l) as Hz.
  { intros f k l. revert k. induction l as [|x l IH]; intros k; [done|]. simpl. by rewrite IH. }
  assert (length (elements r) = length (zip (elements r) (nports r))) as ->.
  { rewrite length_zip_with. lia. }
  f_equal; f_equal.
  - exact (Hz (fun x => side false (fst (processing_vector (processing x.1) (Z.to_nat x.2.1) (Z.to_nat x.2.2)))) 0%nat _).
  - exact (Hz (fun x => side true (fst (processing_vector (processing x.1) (Z.to_nat x.2.1) (Z.to_nat x.2.2)))) 0%nat _).
Qed.

Lemma vector_blocks_widths r o : Shaped r -> map length (vector_blocks r o) = widths r o.
Proof.
  intros [Hlen _ _]. unfold vector_blocks, widths. rewrite map_map.
  assert (nports r = map snd (zip (elements r) (nports r))) as Hn.
  { symmetry. apply snd_zip. lia. }
  rewrite Hn at 2. rewrite map_map. apply map_ext. intros [e n]. simpl.
  rewrite length_processing_vector. by destruct o.
Qed.

Lemma declared_lookup r o p : Shaped r -> in_range r o p -> concat (vector_blocks r o) !! gport r o p = declared r o p.
Proof.
  intros HS Hp. destruct (in_range_lookup r HS o p Hp) as (n & En & _ & _).
  destruct (lookup_lt_is_Some_2 (elements r) (Z.to_nat (idx p))) as [e Ee].
  { destruct Hp as [? _]. unfold nelements in *. lia. }
  unfold declared, element_vector. rewrite Ee, En.
  apply (block_lookup r HS); [by apply vector_blocks_widths|done|].
  unfold vector_blocks. rewrite list_lookup_fmap, lookup_zip_with, Ee. simpl. rewrite En. done.
Qed.

Lemma length_vectors r o : Shaped r -> length (concat (vector_blocks r o)) = length (all_ports r o).
Proof.
  intros HS. rewrite all_ports_concat, !length_concat_sum, vector_blocks_widths, port_blocks_widths by done. done.
Qed.

Lemma declared_Some r o p : Shaped r -> in_range r o p -> exists v, declared r o p = Some v.
Proof.
  intros HS Hp. rewrite <- declared_lookup by done. apply lookup_lt_is_Some.
  rewrite length_vectors by done. by apply gport_lt.
Qed.

(** *** Spreading *)

(** A vector says nothing else than the values that are known to hold. *)
Definition agrees (l : list Processing) (tau : nat -> Processing) : Prop :=
  forall g v, l !! g = Some v -> v <> VAGNOSTIC -> tau g = v.

(** What is decided in the first vector is the same in the second. *)
Definition extends (l l' : list Processing) : Prop :=
  length l' = length l /\ forall g v, l !! g = Some v -> v <> VAGNOSTIC -> l' !! g = Some v.

Definition agnostics (l : list Processing) : nat := length (filter (fun v => v = VAGNOSTIC) l).

#[global] Instance extends_preorder : PreOrder extends.
Proof.
  split; [by split|]. intros l1 l2 l3 [H1 H1'] [H2 H2']. split; [congruence|]. eauto.
Qed.

Lemma agnostics_le l : (agnostics l <= length l)%nat.
Proof. apply length_filter. Qed.

Lemma agnostics_insert l g v : l !! g = Some VAGNOSTIC -> v <> VAGNOSTIC ->
  extends l (<[g := v]> l) /\ agnostics l = S (agnostics (<[g := v]> l)).
Proof.
  intros Hg Hv. split.
  - split; [by rewrite length_insert|]. intros k w Hk Hw. rewrite list_lookup_insert_ne; [done|congruence].
  - unfold agnostics. rewrite insert_take_drop by (by eapply lookup_lt_Some).
    rewrite <- (take_drop_middle l g VAGNOSTIC Hg) at 1.
    rewrite !filter_app, !length_app, !filter_cons, decide_True, decide_False by done. simpl. lia.
Qed.

Lemma agrees_insert l tau g v : agrees l tau -> tau g = v -> agrees (<[g := v]> l) tau.
Proof.
  intros Ha Hv k w. destruct (decide (k = g)) as [->|].
  - destruct (decide (g < length l)%nat); [|rewrite list_insert_ge by lia; apply Ha].
    rewrite list_lookup_insert_eq by done. congruence.
  - rewrite list_lookup_insert_ne by done. apply Ha.
Qed.

Section spreading.
Context (r : Router).

Abbreviation gf c := (gport r true (from_ c)).
Abbreviation gt c := (gport r false (to_ c)).

Definition bounded (conn : list (option (bool * Connection))) (i o : list Processing) : Prop :=
  forall a c, Some (a, c) ∈ conn -> (gf c < length o)%nat /\ (gt c < length i)%nat.

Definition linked (conn : list (option (bool * Connection))) (ti to : nat -> Processing) : Prop :=
  forall a c, Some (a, c) ∈ conn -> to (gf c) = ti (gt c).

(** A pass decides only what follows from the connections; it changes nothing only if
    the two ends of every connection are equal, and has errors only if no values fit. *)
Record Pass (conn : list (option (bool * Connection))) (i o : list Processing) (s : Spread) : Prop := mkPass {
  pass_in : extends i (s_in s);
  pass_out : extends o (s_out s);
  pass_measure : (agnostics (s_in s) + agnostics (s_out s) + (if s_changed s then 1 else 0) <= agnostics i + agnostics o)%nat;
  pass_conn : forall x, Some x ∈ s_conn s -> Some x ∈ conn;
  pass_errors : s_errors s = [] -> s_conn s = conn;
  pass_settled : s_changed s = false ->
    s_in s = i /\ s_out s = o /\ forall a c, Some (a, c) ∈ s_conn s -> o !! gf c = i !! gt c;
  pass_sound : forall ti to, agrees i ti -> agrees o to -> linked conn ti to ->
    agrees (s_in s) ti /\ agrees (s_out s) to /\ s_errors s = []
}.

Lemma bounded_tail x conn i o : bounded (x :: conn) i o -> bounded conn i o.
Proof. intros H a c Hc. apply (H a). by right. Qed.

Lemma bounded_extends conn i o i' o' : extends i i' -> extends o o' -> bounded conn i o -> bounded conn i' o'.
Proof. intros [Hi _] [Ho _] H a c Hc. rewrite Hi, Ho. by eapply H. Qed.

Lemma linked_tail x conn ti to : linked (x :: conn) ti to -> linked conn ti to.
Proof. intros H a c Hc. apply (H a). by right. Qed.

(** The connection at the front: its ends are equal. *)
Lemma pass_keep a c conn i o s : o !! gf c = i !! gt c -> Pass conn i o s ->
  Pass (Some (a, c) :: conn) i o (mkSpread (Some (a, c) :: s_conn s) (s_in s) (s_out s) (s_changed s) (s_errors s)).
Proof.
  intros He [H1 H2 H3 H4 H5 H6 H7]. constructor; cbn [s_conn s_in s_out s_changed s_errors]; try done.
  - intros x. rewrite !elem_of_cons. intros [|]; auto.
  - intros E. by rewrite H5.
  - intros E. destruct (H6 E) as (? & ? & H). split_and!; [done..|]. intros a' c'. rewrite elem_of_cons. intros [[= -> ->]|]; eauto.
  - intros ti to Hi Ho Hl%linked_tail. by apply H7.
Qed.

(** One end takes the value of the other. *)
Lemma pass_change a c conn i o i' o' s :
  extends i i' -> extends o o' -> (agnostics i' + agnostics o' + 1 <= agnostics i + agnostics o)%nat ->
  (forall ti to, agrees i ti -> agrees o to -> to (gf c) = ti (gt c) -> agrees i' ti /\ agrees o' to) ->
  Pass conn i' o' s ->
  Pass (Some (a, c) :: conn) i o (mkSpread (Some (a, c) :: s_conn s) (s_in s) (s_out s) true (s_errors s)).
Proof.
  intros Hei Heo Hm Hag [H1 H2 H3 H4 H5 H6 H7]. constructor; cbn [s_conn s_in s_out s_changed s_errors].
  - by etrans.
  - by etrans.
  - destruct (s_changed s); lia.
  - intros x. rewrite !elem_of_cons. intros [|]; auto.
  - intros E. by rewrite H5.
  - done.
  - intros ti to Hi Ho Hl. destruct (Hag ti to Hi Ho) as [Hi' Ho']; [apply (Hl a); by left|].
    apply linked_tail in Hl. by apply H7.
Qed.

(** The two ends are decided differently. *)
Lemma pass_mixed a c conn i o s pf pt :
  o !! gf c = Some pf -> i !! gt c = Some pt -> pf <> VAGNOSTIC -> pt <> VAGNOSTIC -> pf <> pt -> Pass conn i o s ->
  Pass (Some (a, c) :: conn) i o (mkSpread (None :: s_conn s) (s_in s) (s_out s) (s_changed s) (Mixed a c :: s_errors s)).
Proof.
  intros Ef Et Hf Ht Hne [H1 H2 H3 H4 H5 H6 H7]. constructor; cbn [s_conn s_in s_out s_changed s_errors]; try done.
  - intros x. rewrite !elem_of_cons. intros [|]; [done|auto].
  - intros E. destruct (H6 E) as (? & ? & H). split_and!; [done..|]. intros a' c'. rewrite elem_of_cons. intros [|]; [done|eauto].
  - intros ti to Hi Ho Hl. destruct Hne. rewrite <- (Ho _ _ Ef Hf), <- (Hi _ _ Et Ht). apply (Hl a). by left.
Qed.

Lemma pass_none conn i o s : Pass conn i o s ->
  Pass (None :: conn) i o (mkSpread (None :: s_conn s) (s_in s) (s_out s) (s_changed s) (s_errors s)).
Proof.
  intros [H1 H2 H3 H4 H5 H6 H7]. constructor; cbn [s_conn s_in s_out s_changed s_errors]; try done.
  - intros x. rewrite !elem_of_cons. intros [|]; auto.
  - intros E. by rewrite H5.
  - intros E. destruct (H6 E) as (? & ? & H). split_and!; [done..|]. intros a' c'. rewrite elem_of_cons. intros [|]; [done|eauto].
  - intros ti to Hi Ho Hl%linked_tail. by apply H7.
Qed.

Lemma spread_pass_Ok conn : forall i o, bounded conn i o ->
  exists s, spread_pass r conn i o = Ok s /\ Pass conn i o s.
Proof.
  induction conn as [|[[a c]|] conn IH]; intros i o Hb; cbn [spread_pass].
  - eexists. split; [done|]. constructor; cbn [s_conn s_in s_out s_changed s_errors]; try done; [lia|]. intros _. split_and!; [done..|].
    intros a c Hc%elem_of_nil. done.
  - destruct (Hb a c) as [Hf Ht]; [by left|]. pose proof (bounded_tail _ _ _ _ Hb) as Hb'.
    destruct (load_Ok o (gf c) Hf) as (pf & -> & Ef). res_simpl.
    destruct (load_Ok i (gt c) Ht) as (pt & -> & Et). res_simpl.
    assert (Hkeep : pf = pt -> exists s, (let* s := spread_pass r conn i o in
        Ok (mkSpread (Some (a, c) :: s_conn s) (s_in s) (s_out s) (s_changed s) (s_errors s))) = Ok s /\
      Pass (Some (a, c) :: conn) i o s).
    { intros ->. destruct (IH i o Hb') as (s & -> & Hs). eexists. split; [done|]. apply pass_keep; [congruence|done]. }
    assert (Hmixed : pf <> VAGNOSTIC -> pt <> VAGNOSTIC -> pf <> pt -> exists s, (let* s := spread_pass r conn i o in
        Ok (mkSpread (None :: s_conn s) (s_in s) (s_out s) (s_changed s) (Mixed a c :: s_errors s))) = Ok s /\
      Pass (Some (a, c) :: conn) i o s).
    { intros. destruct (IH i o Hb') as (s & -> & Hs). eexists. split; [done|]. by eapply pass_mixed. }
    assert (Hin : pt = VAGNOSTIC -> pf <> VAGNOSTIC -> exists s, (let* s := spread_pass r conn (<[gt c := pf]> i) o in
        Ok (mkSpread (Some (a, c) :: s_conn s) (s_in s) (s_out s) true (s_errors s))) = Ok s /\
      Pass (Some (a, c) :: conn) i o s).
    { intros -> Hne. destruct (agnostics_insert i (gt c) pf Et Hne) as [He Hm].
      destruct (IH (<[gt c := pf]> i) o) as (s & -> & Hs); [by eapply bounded_extends|].
      eexists. split; [done|]. apply (pass_change _ _ _ _ _ (<[gt c := pf]> i) o); [done|done|lia| |done].
      intros ti to Hi Ho E. split; [|done]. apply agrees_insert; [done|]. rewrite <- E. by apply Ho. }
    assert (Hout : pf = VAGNOSTIC -> pt <> VAGNOSTIC -> exists s, (let* s := spread_pass r conn i (<[gf c := pt]> o) in
        Ok (mkSpread (Some (a, c) :: s_conn s) (s_in s) (s_out s) true (s_errors s))) = Ok s /\
      Pass (Some (a, c) :: conn) i o s).
    { intros -> Hne. destruct (agnostics_insert o (gf c) pt Ef Hne) as [He Hm].
      destruct (IH i (<[gf c := pt]> o)) as (s & -> & Hs); [by eapply bounded_extends|].
      eexists. split; [done|]. apply (pass_change _ _ _ _ _ i (<[gf c := pt]> o)); [done|done|lia| |done].
      intros ti to Hi Ho E. split; [done|]. apply agrees_insert; [done|]. rewrite E. by apply Hi. }
    destruct pt, pf; try (by apply Hkeep); try (by apply Hin); try (by apply Hout); by apply Hmixed.
  - destruct (IH i o (bounded_tail _ _ _ _ Hb)) as (s & -> & Hs). eexists. split; [done|]. by apply pass_none.
Qed.

(** The whole loop: it ends; without errors the ends of every connection are equal, and
    there are errors only if no values fit. *)
Lemma spread_personalities_Ok : forall fuel conn i o, bounded conn i o -> (agnostics i + agnostics o < fuel)%nat ->
  exists i' o' errors, spread_personalities r fuel conn i o = Ok (i', o', errors) /\ extends i i' /\ extends o o' /\
    (errors = [] -> forall a c, Some (a, c) ∈ conn -> o' !! gf c = i' !! gt c) /\
    (forall ti to, agrees i ti -> agrees o to -> linked conn ti to -> errors = []).
Proof.
  induction fuel as [|fuel IH]; intros conn i o Hb Hf; [lia|]. cbn [spread_personalities].
  destruct (spread_pass_Ok conn i o Hb) as (s & -> & [H1 H2 H3 H4 H5 H6 H7]). res_simpl.
  destruct (s_changed s) eqn:Ec.
  - destruct (IH (s_conn s) (s_in s) (s_out s)) as (i' & o' & errors & -> & Hi & Ho & Heq & Hs); [|lia|].
    { eapply bounded_extends; [done..|]. intros a c Hc%H4. by eapply Hb. }
    exists i', o', (s_errors s ++ errors). split_and!; [done|by etrans|by etrans| |].
    + intros [E1 E2]%app_nil. rewrite H5 in Heq by done. by apply Heq.
    + intros ti to Hti Hto Hl. destruct (H7 ti to Hti Hto Hl) as (? & ? & ->).
      apply (Hs ti to); [done..|]. intros a c Hc%H4. by eapply Hl.
  - destruct (H6 eq_refl) as (-> & -> & Heq). exists i, o, (s_errors s). split_and!; [done..| |].
    + intros E. rewrite H5 in Heq by done. by apply Heq.
    + intros ti to Hti Hto Hl. by destruct (H7 ti to Hti Hto Hl) as (_ & _ & ->).
Qed.

End spreading.

(** *** Flow inside the elements *)

Lemma flow_to_length str : forall n i p code bv, flow_to str n i p code = Ok bv -> length bv = n.
Proof.
  induction n as [|n IH]; intros i p code bv; cbn [flow_to]; [by intros <-%Ok_inj|].
  intros ([p' out_code] & _ & (travels & E%IH & <-%Ok_inj)%bind_Ok)%bind_Ok. simpl. lia.
Qed.

Lemma port_flow_length r o p bv : port_flow r o p = Ok bv -> length bv = Z.to_nat (nports_of r (negb o) (idx p)).
Proof.
  unfold port_flow. destruct (_ || _); [intros <-%Ok_inj; apply length_replicate|].
  destruct (match flow_code_override r (idx p) with Some f => Some f | None => _ end) as [f|];
    [|intros <-%Ok_inj; apply length_replicate].
  unfold code_flow. destruct (at_slash f _); [intros <-%Ok_inj; apply length_replicate|].
  intros ([p' in_code] & _ & E)%bind_Ok. by eapply flow_to_length.
Qed.

(** Packets that arrive at input [p] may leave at output [q]. *)
Definition flows (r : Router) (p q : Port) : Prop :=
  idx q = idx p /\ 0 <= port q /\ exists bv, port_flow r false p = Ok bv /\ bv !! Z.to_nat (port q) = Some true.

(** The flow codes of the inputs can be read. *)
Definition Flowing (r : Router) : Prop := forall p, in_range r false p -> exists bv, port_flow r false p = Ok bv.

Lemma agnostic_outputs_Ok out og ei ip : forall bv j,
  (forall k, k < length bv -> og + Z.to_nat j + k < length out)%nat -> 0 <= j ->
  exists l, agnostic_outputs out og ei ip j bv = Ok l /\
    forall c, c ∈ l <-> exists k : nat, bv !! k = Some true /\ out !! (og + Z.to_nat j + k)%nat = Some VAGNOSTIC /\
      c = mkConnection (mkPort ei ip) (mkPort ei (j + Z.of_nat k)).
Proof.
  induction bv as [|b bv IH]; intros j Hl Hj; cbn [agnostic_outputs].
  - exists []. split; [done|]. intros c. rewrite elem_of_nil. split; [done|]. by intros (k & Hk & _).
  - simpl in Hl. destruct (load_Ok out (og + Z.to_nat j)) as (v & Ev & Hv); [specialize (Hl 0%nat); lia|].
    destruct (IH (j + 1)) as (l & -> & Hl'); [intros k Hk; specialize (Hl (S k)); lia|lia|].
    set (fake := if b then if decide (v = VAGNOSTIC) then [mkConnection (mkPort ei ip) (mkPort ei j)] else [] else []).
    exists (fake ++ l). split.
    { subst fake. destruct b; [|done]. rewrite Ev. res_simpl. by destruct (decide (v = VAGNOSTIC)). }
    intros c. rewrite elem_of_app, Hl'. split.
    + intros [Hc|(k & Hk & Ho & ->)].
      * exists 0%nat. subst fake. destruct b, (decide (v = VAGNOSTIC)); try by apply elem_of_nil in Hc.
        apply list_elem_of_singleton in Hc as ->. rewrite Nat.add_0_r, Z.add_0_r. subst. done.
      * exists (S k). split_and!; [done| |do 2 f_equal; lia]. rewrite <- Ho. f_equal. lia.
    + intros ([|k] & Hk & Ho & ->).
      * left. injection Hk as ->. rewrite Nat.add_0_r in Ho. subst fake. simpl.
        rewrite decide_True by congruence. rewrite Z.add_0_r. by left.
      * right. exists k. split_and!; [done| |do 2 f_equal; lia]. rewrite <- Ho. f_equal. lia.
Qed.

Lemma concat_res_Ok {A B} (f : A -> res (list B)) (P : A -> B -> Prop) l :
  (forall a, a ∈ l -> exists bs, f a = Ok bs /\ forall b, b ∈ bs <-> P a b) ->
  exists bs, concat_res (map f l) = Ok bs /\ forall b, b ∈ bs <-> exists a, a ∈ l /\ P a b.
Proof.
  induction l as [|a l IH]; intros H; cbn [map concat_res].
  - exists []. split; [done|]. intros b. rewrite elem_of_nil. split; [done|]. by intros (a & ?%elem_of_nil & _).
  - destruct (H a) as (bs & -> & Hbs); [by left|]. res_simpl.
    destruct IH as (bs' & -> & Hbs'); [intros a' Ha'; apply H; by right|]. res_simpl.
    exists (bs ++ bs'). split; [done|]. intros b. rewrite elem_of_app, Hbs, Hbs'. setoid_rewrite elem_of_cons.
    split; [intros [?|(a' & ? & ?)]; eauto|intros (a' & [->|?] & ?); eauto].
Qed.

Lemma agnostic_input_Ok r p : Shaped r -> Flowing r -> in_range r false p ->
  exists l, agnostic_input r (concat (vector_blocks r false)) (concat (vector_blocks r true)) p = Ok l /\
    forall c, c ∈ l <-> p = to_ c /\ declared r false p = Some VAGNOSTIC /\ flows r p (from_ c) /\
      declared r true (from_ c) = Some VAGNOSTIC.
Proof.
  intros HS Hfl Hp. unfold agnostic_input. destruct (declared_Some r false p HS Hp) as [v Hv].
  assert (load (concat (vector_blocks r false)) (gport r false p) = Ok v) as ->.
  { unfold load. by rewrite declared_lookup, Hv. }
  res_simpl. destruct (decide (v = VAGNOSTIC)) as [->|Hne].
  2:{ exists []. split; [done|]. intros c. rewrite elem_of_nil. split; [done|]. intros (-> & Ha & _). congruence. }
  destruct (Hfl p Hp) as [bv Hbv]. rewrite Hbv. res_simpl.
  pose proof (port_flow_length _ _ _ _ Hbv) as Hlen. simpl in Hlen.
  assert (Hout : forall k, (k < length bv)%nat -> in_range r true (mkPort (idx p) (Z.of_nat k)) /\
    (gport r true (mkPort (idx p) 0) + k)%nat = gport r true (mkPort (idx p) (Z.of_nat k))).
  { intros k Hk. destruct Hp as [Hi _]. split; [unfold in_range; simpl; lia|].
    unfold gport. rewrite !gport_offset_nat by done. simpl. lia. }
  destruct (agnostic_outputs_Ok (concat (vector_blocks r true)) (gport r true (mkPort (idx p) 0)) (idx p) (port p) bv 0)
    as (l & -> & Hl); [|done|].
  { intros k Hk. rewrite length_vectors by done. destruct (Hout k Hk) as [Hr E]. apply gport_lt in Hr; [|done]. simpl. lia. }
  exists l. split; [done|]. intros c. rewrite Hl. split.
  - intros (k & Hk & Ho & ->). simpl. destruct (Hout k) as [Hr E]; [by eapply lookup_lt_Some|].
    rewrite Nat.add_0_r, E, declared_lookup in Ho by done.
    split_and!; [by destruct p|done| |done]. split_and!; [done|simpl; lia|]. exists bv. split; [done|].
    by replace (Z.to_nat _) with k by (simpl; lia).
  - intros (-> & _ & (Hi & Hp0 & bv' & Hbv' & Hk) & Ho). assert (bv' = bv) as -> by congruence.
    exists (Z.to_nat (port (from_ c))). destruct (Hout (Z.to_nat (port (from_ c)))) as [Hr E]; [by eapply lookup_lt_Some|].
    assert (mkPort (idx (to_ c)) (Z.of_nat (Z.to_nat (port (from_ c)))) = from_ c) as Ec.
    { apply port_eq. simpl. lia. }
    rewrite Nat.add_0_r, E, declared_lookup, Ec by (done || by rewrite Ec). split_and!; [done..|].
    apply connection_eq. simpl. split; [by destruct (to_ c)|]. apply port_eq. simpl. lia.
Qed.

(** The connections inside the elements are those between agnostic ports that packets
    pass. *)
Lemma agnostic_connections_Ok r : Shaped r -> Flowing r ->
  exists fake, agnostic_connections r (concat (vector_blocks r false)) (concat (vector_blocks r true)) = Ok fake /\
    forall c, c ∈ fake <-> in_range r false (to_ c) /\ declared r false (to_ c) = Some VAGNOSTIC /\
      flows r (to_ c) (from_ c) /\ declared r true (from_ c) = Some VAGNOSTIC.
Proof.
  intros HS Hfl. unfold agnostic_connections.
  destruct (concat_res_Ok (agnostic_input r (concat (vector_blocks r false)) (concat (vector_blocks r true)))
    (fun p c => p = to_ c /\ declared r false p = Some VAGNOSTIC /\ flows r p (from_ c) /\ declared r true (from_ c) = Some VAGNOSTIC)
    (all_ports r false)) as (fake & -> & Hfake).
  - intros p Hp%elem_of_all_ports; [|done]. by apply agnostic_input_Ok.
  - exists fake. split; [done|]. intros c. rewrite Hfake. setoid_rewrite (elem_of_all_ports r HS). split.
    + intros (p & Hp & -> & H). by split.
    + intros [Hp H]. by exists (to_ c).
Qed.

Lemma flows_range r p q : in_range r false p -> flows r p q -> in_range r true q.
Proof.
  intros [Hi _] (Hq & H0 & bv & Hbv & Hk). apply port_flow_length in Hbv. cbn [negb] in Hbv.
  apply lookup_lt_Some in Hk. unfold in_range. rewrite Hq. lia.
Qed.

(** *** The assignment *)

(** An assignment that fits: [pull] says which ports are pull.  Ports have what their
    element declares, and the ends of a connection and agnostic ports between which
    packets flow are equal. *)
Record Consistent (r : Router) (pull : bool -> Port -> bool) : Prop := mkConsistent {
  consistent_declared : forall o p, in_range r o p ->
    (declared r o p = Some VPUSH -> pull o p = false) /\ (declared r o p = Some VPULL -> pull o p = true);
  consistent_conn : forall c, c ∈ _conn r -> pull true (from_ c) = pull false (to_ c);
  consistent_flow : forall p q, in_range r false p -> declared r false p = Some VAGNOSTIC -> flows r p q ->
    declared r true q = Some VAGNOSTIC -> pull true q = pull false p
}.

(** The connections lead from output ports to input ports that exist. *)
Definition Ranged (r : Router) : Prop := forall c, c ∈ _conn r -> forall o, in_range r o (conn_end o c).

(** The assignment that the ports of a router show. *)
Definition pulls (r : Router) (o : bool) (p : Port) : bool := xorb o (port_active r o p).

Definition initialize_port (o : bool) : Processing -> PortState := if o then initialize_output else initialize_input.

Lemma initialize_ports_state r i o (isoutput : bool) p : Shaped r -> in_range r isoutput p ->
  port_state (with_ports (initialize_ports r i o) r) isoutput p =
  match (if isoutput then o else i) !! gport r isoutput p with
  | Some v => Some (initialize_port isoutput v)
  | None => None
  end.
Proof.
  intros HS Hp. pose proof Hp as [Hi Hj]. unfold nelements in Hi.
  unfold port_state, with_ports, initialize_ports. cbn [ports].
  rewrite list_lookup_fmap, lookup_seq_lt by lia. cbn [fmap option_fmap option_map Nat.add]. rewrite Z2Nat.id by lia.
  assert (gport r isoutput p = Z.to_nat (gport_offset r isoutput (idx p)) + Z.to_nat (port p))%nat as ->.
  { unfold gport. rewrite gport_offset_nat by done. lia. }
  destruct isoutput; cbn [side fst snd initialize_port]; rewrite list_lookup_fmap, lookup_take_lt, lookup_drop by lia; by destruct (_ !! _).
Qed.

Lemma pulls_initialized r i o (isoutput : bool) p v : Shaped r -> in_range r isoutput p ->
  (if isoutput then o else i) !! gport r isoutput p = Some v ->
  pulls (with_ports (initialize_ports r i o) r) isoutput p = bool_decide (v = VPULL).
Proof.
  intros HS Hp Hv. unfold pulls, port_active. rewrite initialize_ports_state, Hv by done.
  destruct Hp as [_ Hj]. change (nports_of (with_ports _ r)) with (nports_of r).
  replace (0 <=? port p) with true by lia. replace (port p <? _) with true by lia.
  by destruct isoutput, v.
Qed.

Definition tau (r : Router) (pull : bool -> Port -> bool) (o : bool) (g : nat) : Processing :=
  match all_ports r o !! g with
  | Some p => if pull o p then VPULL else VPUSH
  | None => VPUSH
  end.

Lemma tau_gport r pull o p : Shaped r -> in_range r o p -> tau r pull o (gport r o p) = if pull o p then VPULL else VPUSH.
Proof. intros HS Hp. unfold tau. by rewrite all_ports_lookup. Qed.

Lemma tau_agrees r pull o : Shaped r -> Consistent r pull -> agrees (concat (vector_blocks r o)) (tau r pull o).
Proof.
  intros HS HC g v Hv Hne. destruct (gport_surj r HS o g) as (p & Hp & <-).
  { rewrite <- length_vectors by done. by eapply lookup_lt_Some. }
  rewrite declared_lookup in Hv by done. rewrite tau_gport by done.
  destruct (consistent_declared _ _ HC o p Hp) as [H1 H2]. destruct v; [done|by rewrite H1|by rewrite H2].
Qed.

(** All connections: those of the router and those inside the elements. *)
Definition all_connections (r : Router) (fake : list Connection) : list (option (bool * Connection)) :=
  map (fun c => Some (false, c)) (_conn r) ++ map (fun c => Some (true, c)) fake.

Lemma elem_of_all_connections r fake a c : Some (a, c) ∈ all_connections r fake -> c ∈ _conn r \/ c ∈ fake.
Proof.
  unfold all_connections. rewrite elem_of_app, !list_elem_of_fmap.
  intros [(c' & [= _ ->] & ?)|(c' & [= _ ->] & ?)]; auto.
Qed.

Lemma all_connections_in r fake c : c ∈ _conn r \/ c ∈ fake -> exists a, Some (a, c) ∈ all_connections r fake.
Proof.
  unfold all_connections. setoid_rewrite elem_of_app. setoid_rewrite list_elem_of_fmap. intros [|]; eauto.
Qed.

(** Vectors that extend what is declared, equal at the ends of every connection, make
    ports that show an assignment that fits. *)
Lemma initialized_consistent r i o fake : Shaped r -> Ranged r ->
  extends (concat (vector_blocks r false)) i -> extends (concat (vector_blocks r true)) o ->
  (forall p q, in_range r false p -> declared r false p = Some VAGNOSTIC -> flows r p q ->
     declared r true q = Some VAGNOSTIC -> mkConnection p q ∈ fake) ->
  (forall a c, Some (a, c) ∈ all_connections r fake -> o !! gport r true (from_ c) = i !! gport r false (to_ c)) ->
  Consistent r (pulls (with_ports (initialize_ports r i o) r)).
Proof.
  intros HS HR [Hli Hi] [Hlo Ho] Hfake Heq.
  assert (Hval : forall isoutput p, in_range r isoutput p -> exists v, (if isoutput then o else i) !! gport r isoutput p = Some v).
  { intros isoutput p Hp%gport_lt; [|done]. rewrite <- length_vectors in Hp by done.
    apply lookup_lt_is_Some. destruct isoutput; lia. }
  assert (Hconn : forall c, c ∈ _conn r \/ c ∈ fake -> in_range r true (from_ c) -> in_range r false (to_ c) ->
    pulls (with_ports (initialize_ports r i o) r) true (from_ c) = pulls (with_ports (initialize_ports r i o) r) false (to_ c)).
  { intros c [a Hc]%all_connections_in Hf Ht. destruct (Hval true _ Hf) as [v Hv]. destruct (Hval false _ Ht) as [w Hw].
    rewrite (pulls_initialized r i o true _ v), (pulls_initialized r i o false _ w) by done.
    apply Heq in Hc. assert (v = w) as -> by congruence. done. }
  constructor.
  - intros isoutput p Hp. destruct (Hval isoutput p Hp) as [v Hv].
    rewrite (pulls_initialized r i o isoutput p v) by done. rewrite <- declared_lookup by done.
    split; intros Hd; destruct isoutput; [apply Ho in Hd|apply Hi in Hd|apply Ho in Hd|apply Hi in Hd]; try done;
      rewrite Hd in Hv; by injection Hv as <-.
  - intros c Hc. apply Hconn; [by left|apply (HR c Hc true)|apply (HR c Hc false)].
  - intros p q Hp Hdp Hf Hdq. apply (Hconn (mkConnection p q)); [right; by apply Hfake|by eapply flows_range|done].
Qed.

Lemma check_push_and_pull_Ok r : Shaped r -> Flowing r -> Ranged r ->
  exists r' ok errors, check_push_and_pull r = Ok (r', ok, errors) /\
    (forall pull, Consistent r pull -> ok = true) /\
    (ok = true -> Consistent r (pulls r') /\ exists i o, r' = with_ports (initialize_ports r i o) r /\
      length i = length (all_ports r false) /\ length o = length (all_ports r true)) /\
    (ok = false -> r' = r).
Proof.
  intros HS Hfl HR. unfold check_push_and_pull.
  pose proof (processing_vectors_blocks r HS) as Ev.
  destruct (processing_vectors r) as [[i0 o0] reported]. simpl in Ev. injection Ev as -> ->.
  destruct (agnostic_connections_Ok r HS Hfl) as (fake & -> & Hfake). res_simpl.
  fold (all_connections r fake).
  assert (Hends : forall a c, Some (a, c) ∈ all_connections r fake -> forall o, in_range r o (conn_end o c)).
  { intros a c [Hc|(Hi & _ & Hf & _)%Hfake]%elem_of_all_connections; [by apply HR|].
    intros []; [by eapply flows_range|done]. }
  destruct (spread_personalities_Ok r (length (concat (vector_blocks r false)) + length (concat (vector_blocks r true)) + 1)
    (all_connections r fake) (concat (vector_blocks r false)) (concat (vector_blocks r true)))
    as (i & o & errors & -> & [Hli Hi] & [Hlo Ho] & Heq & Hsound).
  { intros a c Hc. rewrite !length_vectors by done. split; (apply gport_lt; [done|]); [apply (Hends a c Hc true)|apply (Hends a c Hc false)]. }
  { pose proof (agnostics_le (concat (vector_blocks r false))). pose proof (agnostics_le (concat (vector_blocks r true))). lia. }
  res_simpl.
  assert (Hcons : forall pull, Consistent r pull -> errors = []).
  { intros pull HC. apply (Hsound (tau r pull false) (tau r pull true)); [by apply tau_agrees..|].
    intros a c Hc. rewrite !tau_gport by (done || apply (Hends a c Hc true) || apply (Hends a c Hc false)).
    apply elem_of_all_connections in Hc as [Hc|(H1 & H2 & H3 & H4)%Hfake].
    - by rewrite (consistent_conn _ _ HC c Hc).
    - by rewrite (consistent_flow _ _ HC (to_ c) (from_ c)). }
  destruct errors as [|e es].
  - eexists _, true, reported. split_and!; [done|done| |done]. intros _. split; [|exists i, o; rewrite Hli, Hlo, !length_vectors by done; done].
    apply (initialized_consistent r i o fake); [done..| |by apply Heq]. intros p q Hp Hdp Hf Hdq. by apply Hfake.
  - exists r, false, (reported ++ e :: es). split_and!; [done| |done|done]. intros pull HC. by specialize (Hcons pull HC).
Qed.

(** ** Completeness *)

(** The number of connections of a port. *)
Definition uses (r : Router) (o : bool) (p : Port) : nat := length (filter (fun c => conn_end o c = p) (_conn r)).

Definition count (p : Port) (ps : list Port) : nat := length (filter (fun q => q = p) ps).

Lemma count_cons p q ps : count p (q :: ps) = ((if decide (q = p) then 1 else 0) + count p ps)%nat.
Proof. unfold count. rewrite filter_cons. by case_decide. Qed.

Lemma count_0 p ps : p ∉ ps -> count p ps = 0%nat.
Proof.
  induction ps as [|q ps IH]; [done|]. rewrite not_elem_of_cons, count_cons. intros [Hq Hp].
  rewrite decide_False by done. by apply IH.
Qed.

(** The ports of the connections, in the order of one end. *)
Definition end_ports (r : Router) (o : bool) : list Port := map (conn_end o) (order r o).

Lemma end_ports_length r o : Arranged r -> length (end_ports r o) = length (_conn r).
Proof. intros Ha. unfold end_ports. by rewrite length_map, order_Permutation. Qed.

Lemma end_ports_count r o p : Arranged r -> count p (end_ports r o) = uses r o p.
Proof.
  intros Ha. unfold count, end_ports, uses. rewrite <- (order_Permutation r o Ha).
  induction (order r o) as [|c l IH]; [done|]. simpl. rewrite !filter_cons. repeat case_decide; simpl; congruence.
Qed.

Lemma elem_of_end_ports r o p : Arranged r -> p ∈ end_ports r o <-> exists c, c ∈ _conn r /\ conn_end o c = p.
Proof.
  intros Ha. unfold end_ports. rewrite list_elem_of_fmap. setoid_rewrite (order_Permutation r o Ha).
  split; intros (c & H1 & H2); by exists c.
Qed.

Lemma end_ports_sorted r o : Arranged r -> StronglySorted (fun p q => port_lt q p = false) (end_ports r o).
Proof.
  intros Ha. unfold end_ports. induction (order_sorted r o Ha) as [|c l _ IH Hf]; constructor; [done|].
  apply Forall_fmap. exact Hf.
Qed.

Lemma conn_in_order_end r o k p : Arranged r -> end_ports r o !! k = Some p ->
  exists c, conn_in_order r o k = Ok c /\ conn_end o c = p.
Proof.
  intros Ha Hk. unfold end_ports in Hk. rewrite list_lookup_fmap in Hk. rewrite conn_in_order_lookup by done.
  destruct (order r o !! k) as [c|]; [|done]. injection Hk as <-. eauto.
Qed.

(** *** Ports used twice *)

Fixpoint reused_list (r : Router) (o : bool) (last : Port) (ps : list Port) : list hookup_error :=
  match ps with
  | [] => []
  | p :: ps =>
      if decide (last = p) then (if port_active r o last then [Reused o last] else []) ++ reused_list r o last ps
      else reused_list r o p ps
  end.

Lemma reused_loop_list r o : Arranged r -> forall m k last, (k + m = length (_conn r))%nat ->
  reused_loop r o last (seq k m) = Ok (reused_list r o last (drop k (end_ports r o))).
Proof.
  intros Ha. induction m as [|m IH]; intros k last Hk; cbn [reused_loop seq].
  - rewrite drop_ge; [done|]. rewrite end_ports_length by done. lia.
  - destruct (lookup_lt_is_Some_2 (end_ports r o) k) as [p Hp]; [rewrite end_ports_length by done; lia|].
    destruct (conn_in_order_end r o k p Ha Hp) as (c & -> & <-). res_simpl.
    rewrite (drop_S _ _ _ Hp). cbn [reused_list].
    destruct (decide (last = conn_end o c)) as [->|]; rewrite IH by lia; done.
Qed.

Lemma reused_list_spec r o : forall ps last, StronglySorted (fun p q => port_lt q p = false) (last :: ps) ->
  reused_list r o last ps = [] <-> forall p, port_active r o p = true -> (count p (last :: ps) <= 1)%nat.
Proof.
  induction ps as [|p ps IH]; intros last Hs; cbn [reused_list].
  - split; [|done]. intros _ p _. rewrite count_cons. case_decide; cbn; lia.
  - apply StronglySorted_inv in Hs as [Hs' Hf]. destruct (decide (last = p)) as [<-|Hne].
    + destruct (port_active r o last) eqn:Ea; simpl.
      * split; [done|]. intros H. specialize (H last Ea). rewrite !count_cons, decide_True in H by done. lia.
      * rewrite (IH last Hs'). split; intros H q Hq; specialize (H q Hq);
          rewrite !count_cons, decide_False in * by congruence; done.
    + assert (Hlast : last ∉ p :: ps).
      { rewrite elem_of_cons. intros [|Hin]; [done|]. apply StronglySorted_inv in Hs' as [_ Hf'].
        rewrite Forall_cons in Hf. destruct Hf as [Hp _]. rewrite Forall_forall in Hf'. by destruct Hne; apply lt_total; [apply Hf'|]. }
      rewrite (IH p Hs'). split; intros H q Hq; specialize (H q Hq); rewrite (count_cons q last) in *.
      * destruct (decide (last = q)) as [<-|]; [|done]. rewrite count_0 by done. lia.
      * lia.
Qed.

Lemma reused_ports_spec r o : Arranged r -> _conn r <> [] ->
  exists errors, reused_ports r o = Ok errors /\
    (errors = [] <-> forall p, port_active r o p = true -> (uses r o p <= 1)%nat).
Proof.
  intros Ha Hn. unfold reused_ports. pose proof (end_ports_sorted r o Ha) as Hs.
  pose proof (end_ports_length r o Ha) as Hl. destruct (end_ports r o) as [|p ps] eqn:Ee; [by destruct (_conn r)|].
  destruct (conn_in_order_end r o 0 p Ha) as (c & -> & Hc); [by rewrite Ee|]. res_simpl. rewrite Hc.
  rewrite reused_loop_list by (done || simpl in Hl; lia). rewrite Ee. simpl. rewrite drop_0.
  eexists. split; [done|]. rewrite reused_list_spec by done. rewrite <- Ee. by setoid_rewrite end_ports_count.
Qed.

(** *** Ports not used *)

Lemma filter_length_lt {T} (P Q : T -> bool) (l : list T) x :
  (forall y, P y = true -> Q y = true) -> x ∈ l -> P x = false -> Q x = true ->
  (length (List.filter P l) < length (List.filter Q l))%nat.
Proof.
  intros HPQ Hx HP HQ.
  assert (Hle : forall l, (length (List.filter P l) <= length (List.filter Q l))%nat).
  { induction l0 as [|y l0 IH]; simpl; [lia|]. specialize (HPQ y). destruct (P y), (Q y); simpl; lia. }
  induction l as [|y l IH]; [by apply elem_of_nil in Hx|]. simpl. apply elem_of_cons in Hx as [->|Hx].
  - rewrite HP, HQ. specialize (Hle l). simpl. lia.
  - specialize (IH Hx). specialize (HPQ y). destruct (P y), (Q y); simpl; lia.
Qed.

Lemma port_le_spec x y : port_le x y = true <-> idx x < idx y \/ idx x = idx y /\ port x <= port y.
Proof. unfold port_le. lia. Qed.

Section unused.
Context (r : Router) (o : bool) (HS : Shaped r) (HA : Arranged r) (HR : Ranged r).

(** The rounds left at most. *)
Definition rounds (cix : nat) (conn all : Port) : nat :=
  (length (List.filter (port_le all) (all_ports r o)) + Z.to_nat (nelements r - idx all)%Z + (length (_conn r) - cix) +
   (if (idx conn <? nelements r)%Z then 1 else 0))%nat.

(** The ports at or after [all] that have a connection are [conn] and those to come. *)
Record Walk (cix : nat) (conn all : Port) : Prop := mkWalk {
  walk_all : 0 <= idx all /\ 0 <= port all;
  walk_used : forall q, in_range r o q -> port_le all q = true ->
    q ∈ end_ports r o <-> q = conn \/ q ∈ drop cix (end_ports r o);
  walk_conn : Forall (fun q => port_lt q conn = false) (drop cix (end_ports r o))
}.

Lemma walk_element cix conn all : Walk cix conn all -> idx all < nelements r -> nports_of r o (idx all) <= port all ->
  let all' := mkPort (idx all + 1) 0 in
  Walk cix conn all' /\ (rounds cix conn all' < rounds cix conn all)%nat /\
  forall q, in_range r o q -> port_le all q = true <-> port_le all' q = true.
Proof.
  intros [Ha Hu Hc] Hi Hp all'.
  assert (Hsame : forall q, in_range r o q -> port_le all q = true <-> port_le all' q = true).
  { intros q [_ Hq]. rewrite !port_le_spec. subst all'. simpl. split; [|lia]. intros [?|[E ?]]; [lia|]. rewrite <- E in Hq. lia. }
  split_and!; [constructor; [simpl; lia| |done]| |done].
  - intros q Hq Hle. apply Hu; [done|]. by apply Hsame.
  - unfold rounds.
    assert (List.filter (port_le all') (all_ports r o) = List.filter (port_le all) (all_ports r o)) as ->.
    { apply filter_ext_in. intros q Hq%list_elem_of_In%elem_of_all_ports; [|done].
      apply eq_true_iff_eq. symmetry. by apply Hsame. }
    subst all'. simpl. lia.
Qed.

Lemma walk_end cix conn all : Walk cix conn all -> idx all < nelements r -> port_lt conn all = true -> (length (_conn r) <= cix)%nat ->
  let conn' := mkPort (nelements r) (port conn) in
  Walk cix conn' all /\ (rounds cix conn' all < rounds cix conn all)%nat.
Proof.
  intros [Ha Hu Hc] Hi Hlt Hcix conn'. apply port_lt_spec in Hlt.
  assert (drop cix (end_ports r o) = []) as Hd by (apply drop_ge; rewrite end_ports_length by done; lia).
  split; [constructor; [done| |by rewrite Hd]|].
  - intros q Hq Hle. rewrite (Hu q Hq Hle), Hd. apply port_le_spec in Hle.
    assert (q <> conn) by (intros ->; lia). destruct Hq as [Hq _].
    assert (q <> conn') by (intros ->; simpl in Hq; lia). rewrite !elem_of_nil. tauto.
  - unfold rounds. simpl. destruct (Z.ltb_spec (idx conn) (nelements r)), (Z.ltb_spec (nelements r) (nelements r)); lia.
Qed.

Lemma walk_next cix conn all p : Walk cix conn all -> idx all < nelements r -> port_lt conn all = true ->
  end_ports r o !! cix = Some p ->
  Walk (S cix) p all /\ (rounds (S cix) p all < rounds cix conn all)%nat.
Proof.
  intros [Ha Hu Hc] Hi Hlt Hp. apply port_lt_spec in Hlt. pose proof (drop_S _ _ _ Hp) as Hd.
  pose proof (lookup_lt_Some _ _ _ Hp) as Hl. rewrite end_ports_length in Hl by done.
  split; [constructor; [done| |]|].
  - intros q Hq Hle. rewrite (Hu q Hq Hle), Hd, elem_of_cons. apply port_le_spec in Hle.
    assert (q <> conn) by (intros ->; lia). tauto.
  - pose proof (end_ports_sorted r o HA) as Hs. rewrite <- (take_drop cix (end_ports r o)), Hd in Hs.
    apply StronglySorted_app_1_r in Hs. by apply StronglySorted_inv in Hs as [_ Hs].
  - unfold rounds. destruct (Z.ltb_spec (idx conn) (nelements r)); [|lia]. destruct (idx p <? nelements r); lia.
Qed.

Lemma walk_port cix conn all : Walk cix conn all -> in_range r o all -> port_lt conn all = false ->
  let all' := mkPort (idx all) (port all + 1) in
  Walk cix conn all' /\ (rounds cix conn all' < rounds cix conn all)%nat /\
  (forall q, port_le all q = true <-> q = all \/ port_le all' q = true) /\
  (all ∈ end_ports r o <-> conn = all).
Proof.
  intros [Ha Hu Hc] Hi Hlt all'.
  assert (Hsame : forall q, port_le all q = true <-> q = all \/ port_le all' q = true).
  { intros q. rewrite !port_le_spec, port_eq. subst all'. simpl. lia. }
  split_and!; [constructor; [simpl; lia| |done]| |done|].
  - intros q Hq Hle. apply Hu; [done|]. apply Hsame. by right.
  - unfold rounds. subst all'. cbn [idx].
    assert (length (List.filter (port_le (mkPort (idx all) (port all + 1))) (all_ports r o)) <
            length (List.filter (port_le all) (all_ports r o)))%nat; [|lia].
    apply (filter_length_lt _ _ _ all).
    + intros q. rewrite !port_le_spec. simpl. lia.
    + by apply elem_of_all_ports.
    + apply not_true_iff_false. rewrite port_le_spec. simpl. lia.
    + apply port_le_spec. lia.
  - rewrite (Hu all Hi); [|apply port_le_spec; lia]. split; [|by left].
    intros [|Hin]; [done|]. rewrite Forall_forall in Hc. apply lt_total; [done|by apply Hc].
Qed.

Lemma unused_loop_Ok : forall fuel cix conn all, Walk cix conn all -> (rounds cix conn all < fuel)%nat ->
  exists errors, unused_loop r o fuel cix conn all = Ok errors /\
    (errors = [] <-> forall q, in_range r o q -> port_le all q = true -> q ∈ end_ports r o).
Proof.
  induction fuel as [|fuel IH]; intros cix conn all HW Hf; [lia|]. cbn [unused_loop].
  destruct (Z.ltb_spec (idx all) (nelements r)) as [Hi|Hi]; simpl.
  2:{ eexists. split; [done|]. split; [|done]. intros _ q [Hq _] Hle%port_le_spec. lia. }
  destruct (Z.leb_spec (nports_of r o (idx all)) (port all)) as [Hp|Hp].
  { destruct (walk_element cix conn all HW Hi Hp) as (HW' & Hr & Hsame). destruct (IH _ _ _ HW' ltac:(lia)) as (errors & -> & He).
    eexists. split; [done|]. rewrite He. split; intros H q Hq Hle; (apply H; [done|]); by apply Hsame. }
  destruct (port_lt conn all) eqn:Hlt; simpl.
  - destruct (Nat.leb_spec (length (_conn r)) cix) as [Hc|Hc].
    + destruct (walk_end cix conn all HW Hi Hlt Hc) as (HW' & Hr). apply (IH _ _ _ HW'). lia.
    + destruct (lookup_lt_is_Some_2 (end_ports r o) cix) as [p Hcp]; [rewrite end_ports_length by done; lia|].
      destruct (conn_in_order_end r o cix p HA Hcp) as (c & -> & Ec). res_simpl. rewrite Ec.
      destruct (walk_next cix conn all p HW Hi Hlt Hcp) as (HW' & Hr). apply (IH _ _ _ HW'). lia.
  - assert (in_range r o all) as Hr by (destruct HW; unfold in_range; lia).
    destruct (walk_port cix conn all HW Hr Hlt) as (HW' & Hlt' & Hsame & Hin).
    destruct (IH _ _ _ HW' ltac:(lia)) as (errors & -> & He). res_simpl. eexists. split; [done|].
    destruct (decide (conn <> all)) as [Hne|Heq]; simpl.
    + split; [done|]. intros H. destruct Hne. apply Hin, H; [done|]. apply Hsame. by left.
    + rewrite He. split; intros H q Hq Hle; [|apply H; [done|apply Hsame; by right]].
      apply Hsame in Hle as [->|]; [apply Hin; by apply dec_stable|by apply H].
Qed.

Lemma unused_ports_spec : exists errors, unused_ports r o = Ok errors /\
  (errors = [] <-> forall p, in_range r o p -> exists c, c ∈ _conn r /\ conn_end o c = p).
Proof.
  unfold unused_ports. destruct (unused_loop_Ok (unused_fuel r o) 0 (mkPort (-1) 0) (mkPort 0 0)) as (errors & -> & He).
  - constructor; [simpl; lia| |].
    + intros q Hq _. rewrite drop_0. split; [by right|]. intros [->|]; [|done]. destruct Hq as [Hq _]. simpl in Hq. lia.
    + rewrite drop_0. apply Forall_forall. intros q (c & Hc & <-)%elem_of_end_ports; [|done].
      destruct (HR c Hc o) as [? _]. apply not_true_iff_false. rewrite port_lt_spec. simpl. lia.
  - unfold rounds, unused_fuel. pose proof (filter_length_le (port_le (mkPort 0 0)) (all_ports r o)).
    unfold nelements. cbn [idx]. destruct (-1 <? _); lia.
  - eexists. split; [done|]. rewrite He. split.
    + intros H p Hp. apply elem_of_end_ports; [done|]. apply H; [done|]. destruct Hp. apply port_le_spec. simpl. lia.
    + intros H p Hp _. apply elem_of_end_ports; [done|]. by apply H.
Qed.

End unused.

(** Every port has a connection, and every active one only one. *)
Definition Complete (r : Router) : Prop := forall o p, in_range r o p ->
  (exists c, c ∈ _conn r /\ conn_end o c = p) /\ (port_active r o p = true -> (uses r o p <= 1)%nat).

Lemma uses_Permutation r conn sorter o p : Permutation conn (_conn r) -> uses (with_conn conn true sorter r) o p = uses r o p.
Proof. intros HP. unfold uses. cbn [_conn with_conn]. by rewrite HP. Qed.

Lemma uses_0 r o p : Ranged r -> ~ in_range r o p -> uses r o p = 0%nat.
Proof.
  intros HR Hp. unfold uses. assert (filter (fun c => conn_end o c = p) (_conn r) = []) as ->; [|done].
  apply elem_of_nil_inv. intros c [<- Hc]%list_elem_of_filter. by apply Hp, HR.
Qed.

Lemma complete_Permutation r conn sorter : Permutation conn (_conn r) -> Complete (with_conn conn true sorter r) <-> Complete r.
Proof.
  intros HP. unfold Complete.
  split; intros H o p Hp; destruct (H o p Hp) as [(c & Hc & Ec) Hu]; (split; [exists c; split; [|done]|]).
  - cbn in Hc. by rewrite HP in Hc.
  - intros Ha. specialize (Hu Ha). by rewrite uses_Permutation in Hu.
  - cbn. by rewrite HP.
  - intros Ha. rewrite uses_Permutation by done. by apply Hu.
Qed.

Lemma check_hookup_completeness_Ok r : Shaped r -> Ordered r -> Ranged r ->
  exists conn sorter errors, check_hookup_completeness r = Ok (with_conn conn true sorter r, errors) /\
    Permutation conn (_conn r) /\ Arranged (with_conn conn true sorter r) /\ (errors = [] <-> Complete r).
Proof.
  intros [H1 H2 H3] HO HR. unfold check_hookup_completeness.
  destruct (sort_connections_Ok r HO) as (conn & sorter & -> & HP & HA). res_simpl.
  set (r' := with_conn conn true sorter r) in *.
  assert (HS' : Shaped r') by done.
  assert (HR' : Ranged r') by (intros c Hc; apply HR; by rewrite <- HP).
  assert (exists reused, (match _conn r' with [] => Ok [] | _ => concat_res (map (reused_ports r') [false; true]) end) = Ok reused /\
    (reused = [] <-> forall o p, port_active r' o p = true -> (uses r' o p <= 1)%nat)) as (reused & -> & Hre).
  { destruct (_conn r') as [|c l] eqn:Ec.
    - exists []. split; [done|]. split; [|done]. intros _ o p _. unfold uses. rewrite Ec. cbn. lia.
    - assert (_conn r' <> []) as Hne by (by rewrite Ec).
      destruct (reused_ports_spec r' false HA Hne) as (e1 & E1 & He1), (reused_ports_spec r' true HA Hne) as (e2 & E2 & He2).
      cbn [map concat_res]. rewrite E1, E2. res_simpl. eexists. split; [done|]. rewrite app_nil_r. split.
      + intros [-> ->]%app_nil [] p; [by apply He2|by apply He1].
      + intros H. apply app_nil. split; [apply He1|apply He2]; apply H. }
  res_simpl.
  destruct (unused_ports_spec r' false HS' HA HR') as (e1 & E1 & He1), (unused_ports_spec r' true HS' HA HR') as (e2 & E2 & He2).
  cbn [map concat_res]. rewrite E1, E2. res_simpl. exists conn, sorter, (reused ++ e1 ++ e2 ++ []).
  split_and!; [done..|]. rewrite app_nil_r, <- (complete_Permutation r conn sorter HP). fold r'. split.
  - intros (Hr & (Hu1 & Hu2)%app_nil)%app_nil o p Hp. split; [destruct o; [by apply He2|by apply He1]|by apply Hre].
  - intros HC. apply app_nil. split; [|apply app_nil; split; [apply He1|apply He2]; intros p Hp; by apply HC].
    apply Hre. intros o p Ha. destruct (decide (0 <= idx p < nelements r' /\ 0 <= port p < nports_of r' o (idx p))) as [Hp|Hp];
      [by apply HC|]. rewrite uses_0 by done. lia.
Qed.

(** ** The connections made *)

Lemma connect_port_state r (o : bool) p q (o' : bool) p' :
  0 <= idx p -> 0 <= port p -> 0 <= idx p' -> 0 <= port p' -> port_state r o p <> None ->
  port_state (connect_port r o p q) o' p' =
  if decide (port_active r o p = true /\ o' = o /\ p' = p) then Some (mkPortState (Some (idx q)) (port q))
  else port_state r o' p'.
Proof.
  intros Hi Hp Hi' Hp' Hs. unfold connect_port. destruct (port_active r o p) eqn:Ea.
  2:{ rewrite decide_False; [done|]. by intros [? _]. }
  unfold port_state in *. cbn [ports with_ports].
  destruct (decide (Z.to_nat (idx p') = Z.to_nat (idx p))) as [Ei|Hne].
  2:{ rewrite list_lookup_alter_ne by done. rewrite decide_False; [done|]. intros (_ & _ & ->). done. }
  rewrite Ei, list_lookup_alter_eq. destruct (ports r !! Z.to_nat (idx p)) as [[ins outs]|] eqn:Ep; [|done].
  assert (idx p' = idx p) as Ei' by lia.
  destruct (decide (o' = o)) as [->|Hne].
  2:{ rewrite decide_False by (by intros (_ & ? & _)). by destruct o, o'. }
  destruct (decide (port p' = port p)) as [E|Hne].
  - assert (p' = p) as -> by (apply port_eq; done). rewrite decide_True by done.
    destruct o; simpl in *; (rewrite list_lookup_insert_eq; [done|]); apply lookup_lt_is_Some; by apply not_eq_None_Some.
  - rewrite decide_False by (intros (_ & _ & ->); done).
    destruct o; simpl in *; rewrite list_lookup_insert_ne by lia; done.
Qed.

(** Every port has a state. *)
Definition HasPorts (r : Router) : Prop := forall o p, in_range r o p -> port_state r o p <> None.

Lemma port_active_state r o p : in_range r o p ->
  port_active r o p = match port_state r o p with Some s => active s | None => false end.
Proof.
  intros [_ Hp]. unfold port_active. replace (0 <=? port p) with true by lia. by replace (port p <? _) with true by lia.
Qed.

Lemma in_range_connect_port r o p q o' p' : in_range (connect_port r o p q) o' p' <-> in_range r o' p'.
Proof. unfold connect_port. by destruct (port_active r o p). Qed.

Section connect.
Context (r : Router) (HP : HasPorts r) (o : bool) (p q : Port) (Hp : in_range r o p) (Hq : 0 <= port q).

Lemma connect_state o' p' : in_range r o' p' ->
  port_state (connect_port r o p q) o' p' =
  if decide (port_active r o p = true /\ o' = o /\ p' = p) then Some (mkPortState (Some (idx q)) (port q))
  else port_state r o' p'.
Proof.
  intros [Hi' Hp']. pose proof Hp as [Hi Hj]. apply connect_port_state; [lia..|by apply HP].
Qed.

Lemma connect_has_ports : HasPorts (connect_port r o p q).
Proof.
  intros o' p' Hp'. rewrite in_range_connect_port in Hp'. rewrite connect_state by exact Hp'.
  destruct (decide _); [discriminate|by apply HP].
Qed.

(** A port stays active or not. *)
Lemma connect_active o' p' : in_range r o' p' -> port_active (connect_port r o p q) o' p' = port_active r o' p'.
Proof.
  intros Hp'. rewrite !port_active_state by (done || by apply in_range_connect_port). rewrite connect_state by done.
  case_decide as H; [|done]. destruct H as (Ha & -> & ->). rewrite port_active_state in Ha by done. rewrite Ha.
  unfold active. simpl. lia.
Qed.

End connect.

Definition pointing (q : Port) : PortState := mkPortState (Some (idx q)) (port q).

(** Both ends of one connection. *)
Definition connect_both (r : Router) (c : Connection) : Router :=
  connect_port (connect_port r true (from_ c) (to_ c)) false (to_ c) (from_ c).

Lemma in_range_connect_both r c o p : in_range (connect_both r c) o p <-> in_range r o p.
Proof. unfold connect_both. by rewrite !in_range_connect_port. Qed.

Lemma connect_both_spec r c : HasPorts r -> (forall o, in_range r o (conn_end o c)) ->
  HasPorts (connect_both r c) /\
  (forall o p, in_range r o p -> port_active (connect_both r c) o p = port_active r o p) /\
  (forall o p, in_range r o p -> port_state (connect_both r c) o p =
     if decide (port_active r o p = true /\ p = conn_end o c) then Some (pointing (conn_end (negb o) c)) else port_state r o p).
Proof.
  intros HP Hr. pose proof (Hr true) as Hf. pose proof (Hr false) as Ht. simpl in Hf, Ht.
  assert (Hqf : 0 <= port (from_ c)) by (destruct Hf; lia). assert (Hqt : 0 <= port (to_ c)) by (destruct Ht; lia).
  pose proof (connect_has_ports r HP true (from_ c) (to_ c) Hf) as HP1.
  assert (Ht1 : in_range (connect_port r true (from_ c) (to_ c)) false (to_ c)) by by apply in_range_connect_port.
  unfold connect_both. split_and!.
  - by apply connect_has_ports.
  - intros o p Hp. rewrite !connect_active by (done || by apply in_range_connect_port). done.
  - intros o p Hp. rewrite (connect_state _ HP1 false (to_ c) (from_ c) Ht1) by (by apply in_range_connect_port).
    rewrite (connect_active r HP true (from_ c) (to_ c) Hf Hqt false (to_ c) Ht), (connect_state r HP true (from_ c) (to_ c) Hf) by done.
    destruct o; simpl.
    + rewrite decide_False by (by intros (_ & ? & _)).
      destruct (decide (p = from_ c)) as [->|]; repeat case_decide; try done; tauto.
    + destruct (decide (p = to_ c)) as [->|]; repeat case_decide; destruct_and?; try done; tauto.
Qed.

Lemma connect_all_spec : forall conn r, HasPorts r -> (forall c, c ∈ conn -> forall o, in_range r o (conn_end o c)) ->
  let r' := connect_all conn r in
  (forall o p, in_range r' o p <-> in_range r o p) /\
  (forall o p, in_range r o p -> port_active r' o p = port_active r o p) /\
  (forall o p, in_range r o p -> (forall c, c ∈ conn -> conn_end o c = p -> port_active r o p = false) ->
     port_state r' o p = port_state r o p) /\
  (forall o c, c ∈ conn -> port_active r o (conn_end o c) = true ->
     (length (filter (fun d => conn_end o d = conn_end o c) conn) <= 1)%nat ->
     port_state r' o (conn_end o c) = Some (pointing (conn_end (negb o) c))).
Proof.
  induction conn as [|d conn IH]; intros r HP Hr; cbn [connect_all].
  - split_and!; [done..|]. by intros o c ?%elem_of_nil.
  - assert (Hd : forall o, in_range r o (conn_end o d)) by (apply Hr; by left).
    destruct (connect_both_spec r d HP Hd) as (HP1 & Ha1 & Hs1). fold (connect_both r d).
    destruct (IH (connect_both r d) HP1) as (Hi & Ha & Hn & Hc).
    { intros c Hc o. apply in_range_connect_both, Hr. by right. }
    setoid_rewrite in_range_connect_both in Hi. setoid_rewrite in_range_connect_both in Ha.
    setoid_rewrite in_range_connect_both in Hn.
    split_and!.
    + done.
    + intros o p Hp. by rewrite Ha, Ha1.
    + intros o p Hp H. rewrite Hn, Hs1 by (done || (intros c Hin Ec; rewrite Ha1 by done; apply (H c); [by right|done])).
      rewrite decide_False; [done|]. intros [Hact ->]. rewrite (H d) in Hact; [done|by left|done].
    + intros o c Hin Hact Hcount. assert (in_range r o (conn_end o c)) as Hp by by apply Hr.
      rewrite filter_cons in Hcount. destruct (decide (conn_end o d = conn_end o c)) as [Ed|Hne].
      * simpl in Hcount. assert (Hnone : forall e, e ∈ conn -> conn_end o e <> conn_end o c).
        { intros e He Ee. assert (e ∈ filter (fun d => conn_end o d = conn_end o c) conn) as Hf by by apply list_elem_of_filter.
          destruct (filter _ conn); [by apply elem_of_nil in Hf|simpl in Hcount; lia]. }
        rewrite Hn, Hs1 by (done || (intros e He Ee; by destruct (Hnone e He))). rewrite decide_True by done.
        apply elem_of_cons in Hin as [->|Hin]; [done|]. by destruct (Hnone c Hin).
      * apply elem_of_cons in Hin as [->|Hin]; [done|]. apply Hc; [done| |done]. by rewrite Ha1.
Qed.

(** ** The hookup *)

Lemma length_highest_ports o : forall conn n, length (highest_ports o conn n) = length n.
Proof.
  induction conn as [|c conn IH]; intros n; cbn [highest_ports]; [done|]. rewrite IH. case_match; [by rewrite length_insert|done].
Qed.

Lemma notify_elements_shape : forall es ei nin nout n,
  Forall (fun n => 0 <= fst n /\ 0 <= snd n) n ->
  length (fst (notify_elements ei es nin nout n)) = length n /\
  Forall (fun n => 0 <= fst n /\ 0 <= snd n) (fst (notify_elements ei es nin nout n)).
Proof.
  induction es as [|e es IH]; intros ei [|i nin] [|o nout] [|old n] Hn; cbn [notify_elements]; try done.
  apply Forall_cons in Hn as [Hold Hn]. destruct (IH (ei + 1) nin nout n Hn) as [Hlen Hf].
  destruct (notify_elements (ei + 1) es nin nout n) as [n' errors]. simpl in *.
  destruct (notify_nports (port_count e) (i32 (i + 1)) (i32 (o + 1))) as [new|]; simpl;
    (split; [by rewrite Hlen|]); (apply Forall_cons; split; [|done]); [|done].
  unfold set_nports. destruct (Z.ltb_spec (fst new) 0), (Z.ltb_spec (snd new) 0); simpl; try done; lia.
Qed.

(** A range check without errors leaves the connections as they are, and all of them in
    range. *)
Lemma check_hookup_range_none r r' : Shaped r ->
  (forall c, c ∈ _conn r -> forall o, 0 <= idx (conn_end o c) < nelements r /\ 0 <= port (conn_end o c)) ->
  check_hookup_range r = (r', []) -> exists n, r' = with_nports n r /\ Shaped r' /\ Ranged r'.
Proof.
  intros [H1 H2 H3] Hc. unfold check_hookup_range.
  match goal with |- context [notify_elements ?a ?b ?c ?d ?e] => destruct (notify_elements_shape b a c d e H3) as [Hlen Hf];
    destruct (notify_elements a b c d e) as [n errors] end. simpl in Hlen, Hf.
  pose proof (remove_all_bad_none (bad_range (with_nports n r)) (with_nports n r)) as Hnone.
  pose proof (remove_all_bad_same (bad_range (with_nports n r)) (with_nports n r)) as Hsame.
  destruct (remove_all_bad _ _) as [r1 more]. simpl in Hnone, Hsame. intros [= <- E]. apply app_nil in E as [_ ->].
  rewrite (Hsame eq_refl). exists n. split_and!; [done|constructor; cbn; by rewrite ?Hlen|].
  intros c Hin o.
  pose proof (proj1 Hnone eq_refl) as Hall. rewrite Forall_forall in Hall.
  pose proof (proj1 (bad_range_none _ c) (Hall c Hin) o). destruct (Hc c Hin o) as [Hi Hp]. by split.
Qed.

Lemma check_hookup_elements_none r r' : check_hookup_elements r = (r', []) ->
  r' = r /\ forall c, c ∈ _conn r -> forall o, 0 <= idx (conn_end o c) < nelements r /\ 0 <= port (conn_end o c).
Proof.
  unfold check_hookup_elements. intros E.
  pose proof (remove_all_bad_none (bad_element (nelements r)) r) as Hnone.
  pose proof (remove_all_bad_same (bad_element (nelements r)) r) as Hsame.
  rewrite E in *. simpl in *. split; [by apply Hsame|]. intros c Hc.
  pose proof (proj1 Hnone eq_refl) as Hall. rewrite Forall_forall in Hall. by apply bad_element_none, Hall.
Qed.

(** Exactly one end of the connection is active, and it points to the other end. *)
Definition made (r : Router) (c : Connection) : Prop := exists o,
  port_active r o (conn_end o c) = true /\ port_active r (negb o) (conn_end (negb o) c) = false /\
  port_state r o (conn_end o c) = Some (pointing (conn_end (negb o) c)).

Lemma set_connections_made r : HasPorts r -> Ranged r -> Complete r ->
  (forall c, c ∈ _conn r -> pulls r true (from_ c) = pulls r false (to_ c)) ->
  let r' := set_connections r in
  Ranged r' /\ Complete r' /\ Forall (made r') (_conn r').
Proof.
  intros HP HR HC Hpull. unfold set_connections.
  destruct (connect_all_spec (_conn r) r HP HR) as (Hi & Ha & _ & Hs).
  assert (_conn (connect_all (_conn r) r) = _conn r) as Econn.
  { generalize (_conn r) at 1 as l. intros l. clear. revert r. induction l as [|c l IH]; intros r; [done|].
    cbn [connect_all]. rewrite IH. unfold connect_port. by repeat case_match. }
  set (r1 := connect_all (_conn r) r) in *.
  assert (HR' : Ranged (with_connections true r1)).
  { intros c Hc o. apply (Hi o (conn_end o c)). cbn in Hc. rewrite Econn in Hc. by apply HR. }
  assert (Hact : forall o p, in_range r o p -> port_active (with_connections true r1) o p = port_active r o p) by exact Ha.
  split_and!; [done| |].
  - intros o p Hp. change (in_range r1 o p) in Hp. apply Hi in Hp. destruct (HC o p Hp) as [Hex Hu].
    cbn [_conn with_connections]. rewrite Econn. split; [done|]. rewrite Hact by done.
    unfold uses. cbn [_conn with_connections]. by rewrite Econn.
  - cbn [_conn with_connections]. rewrite Econn. apply Forall_forall. intros c Hc.
    pose proof (HR c Hc true) as Hf. pose proof (HR c Hc false) as Ht. specialize (Hpull c Hc). unfold pulls in Hpull.
    assert (exists o, port_active r o (conn_end o c) = true /\ port_active r (negb o) (conn_end (negb o) c) = false) as (o & Ho & Hno).
    { simpl in Hf, Ht. destruct (port_active r true (from_ c)) eqn:E1, (port_active r false (to_ c)) eqn:E2; try done;
        [by exists true|by exists false]. }
    exists o. rewrite !Hact by (apply HR; done). split_and!; [done..|].
    apply (Hs o c Hc Ho). by apply HC; [apply HR|].
Qed.

Lemma ordered_same r r' : _conn r' = _conn r -> _conn_sorted r' = _conn_sorted r ->
  _conn_output_sorter r' = _conn_output_sorter r -> Ordered r -> Ordered r'.
Proof. intros E1 E2 E3 [H1 H2 H3 H4]. constructor; by rewrite ?E1, ?E2, ?E3. Qed.

Lemma initialized_has_ports r i o : Shaped r -> length i = length (all_ports r false) -> length o = length (all_ports r true) ->
  HasPorts (with_ports (initialize_ports r i o) r).
Proof.
  intros HS Hi Ho isoutput p Hp. rewrite initialize_ports_state by done. pose proof (gport_lt r HS isoutput p Hp) as Hlt.
  destruct (lookup_lt_is_Some_2 (if isoutput then o else i) (gport r isoutput p)) as [v Hv]; [destruct isoutput; lia|].
  by rewrite Hv.
Qed.

(** What the hookup makes of a router that passes. *)
Record Hooked (r r' : Router) : Prop := mkHooked {
  hooked_elements : elements r' = elements r;
  hooked_shaped : Shaped r';
  hooked_conn : Permutation (_conn r') (_conn r);
  hooked_sorted : Arranged r';
  hooked_range : Ranged r';
  hooked_complete : Complete r';
  hooked_made : Forall (made r') (_conn r');
  hooked_flag : _have_connections r' = true
}.

Lemma arranged_same r r' : _conn r' = _conn r -> _conn_sorted r' = _conn_sorted r ->
  _conn_output_sorter r' = _conn_output_sorter r -> Arranged r -> Arranged r'.
Proof. intros E1 E2 E3 [H1 H2 H3 H4]. constructor; by rewrite ?E1, ?E2, ?E3. Qed.

Lemma connect_all_shaped : forall conn r, Shaped r -> Shaped (connect_all conn r).
Proof.
  assert (Hone : forall r o p q, Shaped r -> Shaped (connect_port r o p q)).
  { intros r o p q [H1 H2 H3]. unfold connect_port. destruct (port_active r o p); [|done].
    constructor; cbn; [done|by rewrite length_alter|done]. }
  induction conn as [|c conn IH]; intros r HS; [done|]. cbn [connect_all]. by apply IH, Hone, Hone.
Qed.

Lemma connect_all_same : forall conn r, _conn (connect_all conn r) = _conn r /\
  _conn_sorted (connect_all conn r) = _conn_sorted r /\ _conn_output_sorter (connect_all conn r) = _conn_output_sorter r /\
  elements (connect_all conn r) = elements r.
Proof.
  induction conn as [|c conn IH]; intros r; [done|]. cbn [connect_all].
  destruct (IH (connect_port (connect_port r true (from_ c) (to_ c)) false (to_ c) (from_ c))) as (-> & -> & -> & ->).
  unfold connect_port. by repeat case_match.
Qed.

(** The part after the range check. *)
Lemma hookup_checked r : Shaped r -> Ordered r -> Flowing r -> Ranged r ->
  exists r' ok errors,
    (let* (r, ok, reported) := check_push_and_pull r in
     if (ok : bool) then
       let* (r, errors) := check_hookup_completeness r in
       match errors with
       | [] => Ok (Some (set_connections r, true), reported)
       | _ => Ok (Some (r, false), reported ++ errors)
       end
     else Ok (Some (r, false), reported)) = Ok (Some (r', ok), errors) /\ (ok = true -> Hooked r r').
Proof.
  intros HS HO Hfl HR.
  destruct (check_push_and_pull_Ok r HS Hfl HR) as (r1 & ok & reported & -> & _ & Hok & _). res_simpl.
  destruct ok; [|by eexists _, false, _]. destruct (Hok eq_refl) as (HC & i & o & -> & Hi & Ho). clear Hok.
  pose proof (initialized_has_ports r i o HS Hi Ho) as HP. set (r1 := with_ports (initialize_ports r i o) r) in *.
  assert (HS1 : Shaped r1).
  { destruct HS. constructor; cbn; [done| |done]. unfold initialize_ports. by rewrite length_map, length_seq. }
  assert (HO1 : Ordered r1) by (by apply (ordered_same r)).
  assert (HR1 : Ranged r1) by exact HR.
  destruct (check_hookup_completeness_Ok r1 HS1 HO1 HR1) as (conn & sorter & errors & -> & Hperm & HA & Herr). res_simpl.
  destruct errors as [|e es]; [|by eexists _, false, _].
  set (r2 := with_conn conn true sorter r1) in *. eexists _, true, _. split; [done|]. intros _.
  destruct (set_connections_made r2) as (HR2 & HC2 & Hm); [exact HP| | | |].
  - intros c Hc. apply HR1. by rewrite <- Hperm.
  - apply (complete_Permutation r1 conn sorter Hperm). by apply Herr.
  - intros c Hc. apply (consistent_conn _ _ HC). cbn in Hc. by rewrite Hperm in Hc.
  - destruct (connect_all_same (_conn r2) r2) as (E1 & E2 & E3 & E4).
    constructor; [exact E4| | |by apply (arranged_same r2)|done|done|done|done].
    { assert (Shaped r2) as HS2 by (by destruct HS1). by destruct (connect_all_shaped (_conn r2) r2 HS2). }
    change (Permutation (_conn (connect_all (_conn r2) r2)) (_conn r)). by rewrite E1.
Qed.

Lemma hookup_Ok r : Shaped r -> Ordered r -> (forall n, Flowing (with_nports n r)) ->
  exists result errors, hookup r = Ok (result, errors) /\ forall r', result = Some (r', true) -> Hooked r r'.
Proof.
  intros HS HO Hfl. unfold hookup. destruct (check_hookup_elements r) as [r1 e1] eqn:E1.
  destruct e1 as [|e e1]; [|by eexists None, _]. apply check_hookup_elements_none in E1 as [-> He].
  destruct (check_hookup_range r) as [r1 e1] eqn:E1. destruct e1 as [|e e1]; [|by eexists (Some (_, false)), _].
  apply (check_hookup_range_none r r1 HS He) in E1 as (n & -> & HS1 & HR1).
  destruct (hookup_checked (with_nports n r) HS1) as (r' & ok & errors & -> & Hok); [by apply (ordered_same r)|done|done|].
  eexists _, _. split; [done|]. intros r'' [= <- ->]. destruct (Hok eq_refl) as [H1 H2 H3 H4 H5 H6 H7 H8]. by constructor.
Qed.

(** ** The theorems *)

(** Elements whose flow code is [COMPLETE_FLOW]. *)
Lemma complete_flowing r : flow_code_overrides r = [] -> Forall (fun e => flow_code e = None) (elements r) -> Flowing r.
Proof.
  intros Ho He p Hp. unfold port_flow, flow_code_override. rewrite Ho. cbn [rev find].
  destruct (_ || _); [by eexists|]. destruct (elements r !! Z.to_nat (idx p)) as [e|] eqn:E; [|by eexists].
  rewrite Forall_lookup in He. rewrite (He _ _ E). by eexists.
Qed.

Lemma new_router_shaped es conn sorted : Shaped (new_router es conn sorted).
Proof. constructor; cbn; [by rewrite length_map..|]. by apply Forall_fmap, Forall_true. Qed.

Lemma new_router_ordered es conn sorted : Z.of_nat (length conn) < 2 ^ 64 ->
  (sorted = true -> StronglySorted (fun x y => click_compare connection_lt x y <= 0) conn) ->
  Ordered (new_router es conn sorted).
Proof. intros Hl Hs. constructor; cbn; [done|done|split; [done|lia]|intros _ _; constructor]. Qed.

(** A source, a queue, an element that pulls from it and pushes, and a sink whose ports
    are agnostic. *)
Definition pipeline_classes : list ElementClass :=
  [mkClass (bytes_of_string "0/1") (bytes_of_string "h") None; mkClass (bytes_of_string "1") (bytes_of_string "h/l") None;
   mkClass (bytes_of_string "1/1") (bytes_of_string "l/h") None; mkClass (bytes_of_string "1/0") (bytes_of_string "a") None].
Definition connection (from_idx from_port to_idx to_port : Z) : Connection :=
  mkConnection (mkPort to_idx to_port) (mkPort from_idx from_port).
Definition pipeline : Router :=
  new_router pipeline_classes [connection 2 0 3 0; connection 0 0 1 0; connection 1 0 2 0] false.

(** The same with its numbers of ports. *)
Definition pipeline_ranged : Router := fst (check_hookup_range pipeline).

Lemma pipeline_ordered : Ordered pipeline.
Proof. by apply new_router_ordered. Qed.

Lemma pipeline_ranged_ok : Shaped pipeline_ranged /\ Flowing pipeline_ranged /\ Ordered pipeline_ranged /\ Ranged pipeline_ranged.
Proof.
  assert (check_hookup_range pipeline = (pipeline_ranged, [])) as E by reflexivity.
  destruct (check_hookup_range_none pipeline pipeline_ranged (new_router_shaped _ _ _)) with (2 := E) as (n & En & HS & HR).
  { intros c Hc o. unfold pipeline, new_router in Hc. cbn in Hc. rewrite !elem_of_cons in Hc.
    destruct Hc as [->|[->|[->|Hc%elem_of_nil]]]; [destruct o; (split; [split|]; vm_compute; congruence)..|done]. }
  split_and!; [done| | |done].
  - apply complete_flowing; [by rewrite En|]. rewrite En. by repeat constructor.
  - apply (ordered_same pipeline); [by rewrite En..|apply pipeline_ordered].
Qed.

Module HookupTheorems.

(** C11: The assignment of push and pull is decided: [check_push_and_pull] ends, and it
    succeeds if and only if there is an assignment in which every port has what its
    element declares, the two ends of every connection are equal, and so are agnostic
    ports between which packets flow.  The ports then show such an assignment: an input
    is active if it is pull and an output if it is push. *)
Theorem check_push_and_pull_decides r : Shaped r -> Flowing r -> Ranged r ->
  exists r' ok errors, check_push_and_pull r = Ok (r', ok, errors) /\
    (ok = true <-> exists pull, Consistent r pull) /\
    (ok = true -> Consistent r (pulls r')).
Proof.
  intros HS Hfl HR. destruct (check_push_and_pull_Ok r HS Hfl HR) as (r' & ok & errors & -> & H1 & H2 & _).
  exists r', ok, errors. split_and!; [done| |intros E; by destruct (H2 E)].
  split; [intros E; destruct (H2 E); by eexists|intros (pull & HC); by eapply H1].
Qed.

Lemma check_push_and_pull_decides_witness :
  exists r' errors, check_push_and_pull pipeline_ranged = Ok (r', true, errors) /\ Consistent pipeline_ranged (pulls r').
Proof.
  destruct pipeline_ranged_ok as (HS & Hfl & _ & HR).
  destruct (check_push_and_pull_decides pipeline_ranged HS Hfl HR) as (r' & ok & errors & E & _ & H).
  assert (ok = true) as -> by (vm_compute in E; congruence). exists r', errors. split; [exact E|exact (H eq_refl)].
Defined.

(** C32: The check for completeness is exact: it sorts the connections, and reports no
    error if and only if every port of every element has a connection and every active
    port has only one. *)
Theorem check_hookup_completeness_decides r : Shaped r -> Ordered r -> Ranged r ->
  exists r' errors, check_hookup_completeness r = Ok (r', errors) /\ Arranged r' /\
    (errors = [] <-> Complete r).
Proof.
  intros HS HO HR. destruct (check_hookup_completeness_Ok r HS HO HR) as (conn & sorter & errors & -> & _ & HA & He).
  by eexists _, _.
Qed.

Lemma check_hookup_completeness_decides_witness :
  exists r' errors, check_hookup_completeness pipeline_ranged = Ok (r', errors) /\ Arranged r' /\ Complete pipeline_ranged.
Proof.
  destruct pipeline_ranged_ok as (HS & _ & HO & HR).
  destruct (check_hookup_completeness_decides pipeline_ranged HS HO HR) as (r' & errors & E & HA & H).
  exists r', errors. split; [exact E|]. split; [exact HA|]. apply H. vm_compute in E. congruence.
Defined.

(** C10: A router that passes the hookup is connected.  The hookup of any router whose
    flow codes can be read ends without a fault; if it succeeds, the connections are
    those of the configuration, in order, each port has one and each active port exactly
    one, and of the two ends of a connection exactly one is active and points to the
    other. *)
Theorem hookup_connects r : Shaped r -> Ordered r -> (forall n, Flowing (with_nports n r)) ->
  exists result errors, hookup r = Ok (result, errors) /\ forall r', result = Some (r', true) -> Hooked r r'.
Proof. apply hookup_Ok. Qed.

Lemma hookup_connects_witness : exists r', hookup pipeline = Ok (Some (r', true), []) /\ Hooked pipeline r'.
Proof.
  destruct (hookup_connects pipeline (new_router_shaped _ _ _) pipeline_ordered) as (result & errors & E & H).
  - intros n. apply complete_flowing; [reflexivity|]. by repeat constructor.
  - destruct result as [[r' ok]|]; [|vm_compute in E; discriminate E].
    assert (ok = true) as -> by (vm_compute in E; congruence). assert (errors = []) as -> by (vm_compute in E; congruence).
    exists r'. split; [exact E|exact (H r' eq_refl)].
Defined.

End HookupTheorems.
