(* ===== verification/HookupVisit.v ===== *)
(** * HookupVisit: searching along the connections

    [Router::visit_base] finds the ports that packets from a port can reach, or from
    which they can reach it: each of them once, at the least number of connections. *)

From Stdlib Require Import Sorting.Sorted.
From stdpp Require Import sorting.
From S2P Require Import Prelude ConfParse Lexer Sorting Hookup HookupProps.

(** ** Bisection *)

Section bound.
Context (r : Router) (o : bool) (HA : Arranged r) (p : Port).

(** The positions before [k] have lesser ports, those from [k] on do not. *)
Definition is_bound (k : nat) : Prop :=
  forall i q, end_ports r o !! i = Some q -> port_lt q p = true <-> (i < k)%nat.

Lemma end_ports_mono i j q q' : (i <= j)%nat -> end_ports r o !! i = Some q -> end_ports r o !! j = Some q' -> port_lt q' q = false.
Proof.
  intros Hij Hq Hq'. destruct (decide (i = j)) as [->|].
  { assert (q' = q) as -> by congruence. apply lt_irrefl. }
  pose proof (end_ports_sorted r o HA) as Hs. rewrite <- (take_drop_middle _ _ _ Hq) in Hs.
  apply StronglySorted_app_1_r, StronglySorted_inv in Hs as [_ Hs]. rewrite Forall_lookup in Hs.
  apply (Hs (j - S i)%nat). rewrite lookup_drop. by replace (S i + (j - S i))%nat with j by lia.
Qed.

Lemma port_le_lt x y : port_le x y = negb (port_lt y x).
Proof. unfold port_le, port_lt. lia. Qed.

Lemma lower_bound_Ok : forall fuel lo hi, (lo <= hi <= length (_conn r))%nat -> (hi - lo <= fuel)%nat ->
  (forall i q, (i < lo)%nat -> end_ports r o !! i = Some q -> port_lt q p = true) ->
  (forall i q, (hi <= i)%nat -> end_ports r o !! i = Some q -> port_lt q p = false) ->
  exists k, lower_bound r o p fuel lo hi = Ok k /\ is_bound k.
Proof.
  induction fuel as [|fuel IH]; intros lo hi Hlh Hf Hlo Hhi; cbn [lower_bound]; destruct (Nat.leb_spec hi lo) as [Hle|Hlt];
    try lia; try (exists hi; split; [done|]; intros i q Hq;
      (split; [intros E; destruct (decide (i < hi)%nat); [done|]; rewrite (Hhi i q) in E by (done || lia); done|]; intros; apply (Hlo i q); [lia|done])).
  set (m := (lo + (hi - lo) / 2)%nat).
  assert (Hm : (lo <= m < hi)%nat) by (subst m; pose proof (Nat.div_lt (hi - lo) 2); lia). clearbody m.
  destruct (lookup_lt_is_Some_2 (end_ports r o) m) as [pm Hpm]; [rewrite end_ports_length by done; lia|].
  destruct (conn_in_order_end r o m pm HA Hpm) as (c & -> & Ec). res_simpl. rewrite Ec, port_le_lt.
  destruct (port_lt pm p) eqn:Elt; simpl.
  - apply IH; [lia|lia| |done]. intros i q Hi Hq.
    destruct (port_lt q p) eqn:E; [done|]. pose proof (end_ports_mono i m q pm ltac:(lia) Hq Hpm) as Hmono.
    rewrite (not_lt_trans port_lt p q pm E Hmono) in Elt. done.
  - apply IH; [lia|lia|done|]. intros i q Hi Hq.
    pose proof (end_ports_mono m i pm q ltac:(lia) Hpm Hq) as Hmono. exact (not_lt_trans port_lt p pm q Elt Hmono).
Qed.

Lemma connindex_lower_bound_Ok : exists k, connindex_lower_bound r o p = Ok k /\ is_bound k.
Proof.
  unfold connindex_lower_bound. rewrite arranged_flag, arranged_length, Nat.eqb_refl by done. simpl.
  apply lower_bound_Ok; [lia|lia|intros; lia|]. intros i q Hi Hq%lookup_lt_Some. rewrite end_ports_length in Hq by done. lia.
Qed.

End bound.

(** ** The search *)

Section search.
Context {V : Type} (visit : Port -> Port -> Z -> V -> V * bool) (r : Router) (forward : bool) (goes : Port -> bool).
Context (HS : Shaped r) (HA : Arranged r) (HR : Ranged r).
Context (Hflow : forall p, in_range r (negb forward) p -> exists bv, port_flow r (negb forward) p = Ok bv).
Context (Hgo : forall p sp d v, snd (visit p sp d v) = goes p).

(** A connection leads from one port to the other, in the direction of the search;
    packets pass from a port to the ports on the other side of its element. *)
Definition leads (sp p : Port) : Prop := exists c, c ∈ _conn r /\ conn_end forward c = sp /\ conn_end (negb forward) c = p.
Definition passes (p q : Port) : Prop :=
  idx q = idx p /\ 0 <= port q /\ exists bv, port_flow r (negb forward) p = Ok bv /\ bv !! Z.to_nat (port q) = Some true.

(** A visit: the port found, the port it was found from and the distance. *)
Definition entry : Type := Port * Port * Z.
Definition found (log : list entry) : list Port := map (fun e => e.1.1) log.
Definition replay (log : list entry) (v : V) : V := foldl (fun v e => fst (visit e.1.1 e.1.2 e.2 v)) v log.

(** The loop over the connections of a port, as a loop over a list. *)
Definition visit_one (sp : Port) (distance : Z) (c : Connection) (s : V * list nat * list Port) : res (V * list nat * list Port) :=
  let '(v, result_bv, next_sources) := s in
  let connpt := conn_end (negb forward) c in
  let conng := gport r (negb forward) connpt in
  if decide (conng ∈ result_bv) then Ok s
  else
    let '(v, go) := visit connpt sp distance v in
    if (go : bool) then
      let* scratch := port_flow r (negb forward) connpt in
      let more := flat_map (fun x : nat * bool => if x.2 then [mkPort (idx connpt) (Z.of_nat x.1)] else [])
                    (zip (seq 0 (length scratch)) scratch) in
      Ok (v, conng :: result_bv, next_sources ++ more)
    else Ok (v, conng :: result_bv, next_sources).

Fixpoint visit_list (sp : Port) (distance : Z) (cs : list Connection) (s : V * list nat * list Port) : res (V * list nat * list Port) :=
  match cs with
  | [] => Ok s
  | c :: cs =>
      if decide (conn_end forward c <> sp) then Ok s
      else let* s := visit_one sp distance c s in visit_list sp distance cs s
  end.

Lemma visit_connections_list sp d : forall fuel cix s, (length (_conn r) - cix <= fuel)%nat ->
  visit_connections visit r forward fuel sp d cix s = visit_list sp d (drop cix (order r forward)) s.
Proof.
  assert (Hlen : length (order r forward) = length (_conn r)) by (by rewrite order_Permutation).
  induction fuel as [|fuel IH]; intros cix s Hf; cbn [visit_connections].
  - rewrite drop_ge by lia. done.
  - destruct (Nat.leb_spec (length (_conn r)) cix); [by rewrite drop_ge by lia|].
    destruct (lookup_lt_is_Some_2 (order r forward) cix) as [c Hc]; [lia|].
    rewrite conn_in_order_lookup, Hc by done. res_simpl. rewrite (drop_S _ _ _ Hc). cbn [visit_list].
    destruct (decide (conn_end forward c <> sp)); [done|]. destruct s as [[v bv] next]. unfold visit_one.
    destruct (decide (gport r (negb forward) (conn_end (negb forward) c) ∈ bv)); [apply IH; lia|].
    destruct (visit _ sp d v) as [v' [|]]; [|apply IH; lia].
    destruct (port_flow r (negb forward) _) as [scratch|]; [apply IH; lia|done].
Qed.

Lemma elem_of_more p bv q : port_flow r (negb forward) p = Ok bv ->
  q ∈ flat_map (fun x : nat * bool => if x.2 then [mkPort (idx p) (Z.of_nat x.1)] else []) (zip (seq 0 (length bv)) bv) <-> passes p q.
Proof.
  intros Hbv. rewrite list_elem_of_In, in_flat_map. split.
  - intros ([k b] & Hin & Hq). simpl in Hq. destruct b; [|done]. destruct Hq as [<-|[]].
    apply list_elem_of_In, list_elem_of_lookup in Hin as [i Hi]. rewrite lookup_zip_Some in Hi. destruct Hi as [Hk Hb].
    apply lookup_seq in Hk as [-> _]. split_and!; [done|simpl; lia|]. exists bv. split; [done|]. simpl. by rewrite Nat2Z.id.
  - intros (Hi & Hp & bv' & Hbv' & Hk). assert (bv' = bv) as -> by congruence.
    exists (Z.to_nat (port q), true). split.
    + apply list_elem_of_In, list_elem_of_lookup. exists (Z.to_nat (port q)). apply lookup_zip_Some. split; [|done].
      apply lookup_seq. apply lookup_lt_Some in Hk. lia.
    + simpl. left. apply port_eq. simpl. lia.
Qed.

(** *** One round

    In a round at distance [d] the sources are [S0], and [log0] has been visited in the
    rounds before. *)
Section round.
Context (S0 : list Port) (log0 : list entry) (d : Z) (v0 : V).

Record State (L : list entry) (s : V * list nat * list Port) : Prop := mkState {
  state_v : s.1.1 = replay (log0 ++ L) v0;
  state_bits : forall p, in_range r (negb forward) p -> gport r (negb forward) p ∈ s.1.2 <-> p ∈ found (log0 ++ L);
  state_nodup : NoDup (found (log0 ++ L));
  state_new : forall e, e ∈ L -> e.2 = d /\ e.1.2 ∈ S0 /\ leads e.1.2 e.1.1;
  state_next : forall q, q ∈ s.2 <-> exists p, p ∈ found L /\ goes p = true /\ passes p q
}.

Lemma found_app l1 l2 : found (l1 ++ l2) = found l1 ++ found l2.
Proof. unfold found. apply map_app. Qed.

Lemma visit_one_State L s sp c : State L s -> sp ∈ S0 -> c ∈ _conn r -> conn_end forward c = sp ->
  exists s' L', visit_one sp d c s = Ok s' /\ State (L ++ L') s' /\
    conn_end (negb forward) c ∈ found (log0 ++ L ++ L').
Proof.
  intros [Hv Hb Hn Hw Hx] Hsp Hc Ec. destruct s as [[v bv] next]. simpl in Hv, Hb, Hx. unfold visit_one.
  pose proof (HR c Hc (negb forward)) as Hr. set (p := conn_end (negb forward) c) in *.
  destruct (decide (gport r (negb forward) p ∈ bv)) as [Hin|Hout].
  { exists (v, bv, next), []. rewrite app_nil_r. split_and!; [done|by constructor|]. by apply Hb. }
  pose proof (Hgo p sp d v) as Eg. destruct (visit p sp d v) as [v' go] eqn:Evis. simpl in Eg. subst go.
  assert (Hnew : p ∉ found (log0 ++ L)) by (by rewrite <- Hb).
  assert (Hstate : forall more, (forall q, q ∈ more <-> goes p = true /\ passes p q) ->
    State (L ++ [(p, sp, d)]) (v', gport r (negb forward) p :: bv, next ++ more)).
  { intros more Hmore. constructor; simpl; rewrite ?app_assoc.
    - unfold replay. rewrite foldl_app. fold (replay (log0 ++ L) v0). rewrite <- Hv. simpl. by rewrite Evis.
    - intros q Hq. rewrite found_app, elem_of_cons, elem_of_app, Hb by done. cbn.
      rewrite list_elem_of_singleton. split; [intros [E|]; [right; by eapply gport_inj|by left]|intros [| ->]; [by right|by left]].
    - rewrite found_app. apply NoDup_app. split_and!; [done| |apply NoDup_singleton].
      intros q Hq. cbn. rewrite list_elem_of_singleton. by intros ->.
    - intros e. rewrite elem_of_app, list_elem_of_singleton. intros [He| ->]; [by apply Hw|]. split_and!; [done..|]. by exists c.
    - intros q. rewrite elem_of_app, Hx, Hmore. rewrite found_app. setoid_rewrite elem_of_app. cbn. setoid_rewrite list_elem_of_singleton.
      split; [intros [(p' & ? & ?)|?]; [exists p'; tauto|exists p; tauto]|].
      intros (p' & [Hp'| ->] & ? & ?); [left; by exists p'|by right]. }
  assert (Hfound : p ∈ found (log0 ++ L ++ [(p, sp, d)])).
  { rewrite app_assoc, found_app, elem_of_app. right. by left. }
  destruct (goes p) eqn:Egp.
  - destruct (Hflow p Hr) as [scratch Hs]. rewrite Hs. res_simpl. eexists _, [(p, sp, d)]. split_and!; [done| |done].
    apply Hstate. intros q. rewrite elem_of_more by done. tauto.
  - eexists _, [(p, sp, d)]. split_and!; [done| |done]. rewrite <- (app_nil_r next).
    apply Hstate. intros q. rewrite elem_of_nil. split; [done|]. by intros [? _].
Qed.

Lemma visit_list_State sp : sp ∈ S0 -> forall cs L s, State L s -> (forall c, c ∈ cs -> c ∈ _conn r) ->
  StronglySorted (fun x y => port_lt (conn_end forward y) (conn_end forward x) = false) cs ->
  (forall c, c ∈ cs -> port_lt (conn_end forward c) sp = false) ->
  exists s' L', visit_list sp d cs s = Ok s' /\ State (L ++ L') s' /\
    forall c, c ∈ cs -> conn_end forward c = sp -> conn_end (negb forward) c ∈ found (log0 ++ L ++ L').
Proof.
  intros Hsp. induction cs as [|c cs IH]; intros L s Hst Hin Hs Hge; cbn [visit_list].
  - exists s, []. rewrite app_nil_r. split_and!; [done..|]. by intros c ?%elem_of_nil.
  - apply StronglySorted_inv in Hs as [Hs Hf]. destruct (decide (conn_end forward c <> sp)) as [Hne|Heq].
    + exists s, []. rewrite app_nil_r. split_and!; [done..|]. intros c' [->|Hc']%elem_of_cons Ec; [done|].
      rewrite Forall_forall in Hf. specialize (Hf c' Hc'). simpl in Hf. rewrite Ec in Hf.
      destruct Hne. apply lt_total; [apply Hge; by left|done].
    + apply dec_stable in Heq. destruct (visit_one_State L s sp c Hst Hsp) as (s1 & L1 & -> & Hst1 & Hfd); [apply Hin; by left|done|].
      res_simpl. destruct (IH (L ++ L1) s1 Hst1) as (s' & L' & -> & Hst' & Hall);
        [intros; apply Hin; by right|done|intros; apply Hge; by right|].
      exists s', (L1 ++ L'). rewrite <- app_assoc in Hst', Hall. split_and!; [done..|].
      intros c' [->|Hc']%elem_of_cons Ec; [|by apply Hall].
      rewrite !found_app, !elem_of_app in *. tauto.
Qed.

Lemma visit_sources_State : forall sources L s, State L s -> (forall sp, sp ∈ sources -> sp ∈ S0) ->
  exists s' L', visit_sources visit r forward sources d s = Ok s' /\ State (L ++ L') s' /\
    forall sp p, sp ∈ sources -> leads sp p -> p ∈ found (log0 ++ L ++ L').
Proof.
  induction sources as [|sp sources IH]; intros L s Hst Hin; cbn [visit_sources].
  - exists s, []. rewrite app_nil_r. split_and!; [done..|]. by intros sp p ?%elem_of_nil.
  - destruct (connindex_lower_bound_Ok r forward HA sp) as (k & -> & Hk). res_simpl.
    rewrite visit_connections_list by lia.
    destruct (visit_list_State sp (Hin sp ltac:(by left)) (drop k (order r forward)) L s Hst) as (s1 & L1 & -> & Hst1 & Hall1).
    + intros c Hc. rewrite <- (order_Permutation r forward HA). rewrite <- (take_drop k (order r forward)), elem_of_app. by right.
    + pose proof (order_sorted r forward HA) as Hs. rewrite <- (take_drop k (order r forward)) in Hs. by apply StronglySorted_app_1_r in Hs.
    + intros c [i Hi]%list_elem_of_lookup. rewrite lookup_drop in Hi. apply not_true_iff_false. intros Hlt.
      apply (Hk (k + i)%nat) in Hlt; [lia|]. unfold end_ports. by rewrite list_lookup_fmap, Hi.
    + res_simpl. destruct (IH (L ++ L1) s1 Hst1) as (s' & L' & -> & Hst' & Hall'); [intros; apply Hin; by right|].
      exists s', (L1 ++ L'). rewrite <- app_assoc in Hst', Hall'. split_and!; [done..|].
      intros sp' p [->|Hsp']%elem_of_cons Hl; [|by apply (Hall' sp')].
      destruct Hl as (c & Hc & Ec & <-).
      assert (c ∈ drop k (order r forward)) as Hd.
      { rewrite <- (order_Permutation r forward HA) in Hc. apply list_elem_of_lookup in Hc as [i Hi].
        apply list_elem_of_lookup. exists (i - k)%nat. rewrite lookup_drop.
        destruct (decide (i < k)%nat) as [Hlt|]; [|by replace (k + (i - k))%nat with i by lia].
        apply (Hk i sp) in Hlt; [by rewrite lt_irrefl in Hlt|]. unfold end_ports. rewrite list_lookup_fmap, Hi. simpl. by rewrite Ec. }
      specialize (Hall1 c Hd Ec). rewrite !found_app, !elem_of_app in *. tauto.
Qed.

End round.
(** *** All rounds *)

Section rounds.
Context (first : list Port) (v0 : V).

(** The ports found from the first sources, by the number of connections. *)
Inductive Reach : Z -> Port -> Prop :=
| reach_first sp p : sp ∈ first -> leads sp p -> Reach 1 p
| reach_next d p q p' : Reach d p -> goes p = true -> passes p q -> leads q p' -> Reach (d + 1) p'.

Lemma reach_pos d p : Reach d p -> 1 <= d.
Proof. induction 1; lia. Qed.

(** Before the round at distance [d]: everything closer has been visited, once and at
    its least distance, and the sources are what follows the last round's ports. *)
Record Progress (d : Z) (sources : list Port) (log : list entry) : Prop := mkProgress {
  progress_pos : 1 <= d;
  progress_log : forall e, e ∈ log -> Reach e.2 e.1.1 /\ e.2 < d /\ forall n, Reach n e.1.1 -> e.2 <= n;
  progress_all : forall n p, Reach n p -> n < d -> p ∈ found log;
  progress_nodup : NoDup (found log);
  progress_sources : d = 1 /\ sources = first \/
    1 < d /\ forall q, q ∈ sources <-> exists p sp, (p, sp, d - 1) ∈ log /\ goes p = true /\ passes p q
}.

Lemma elem_of_found p log : p ∈ found log <-> exists e, e ∈ log /\ e.1.1 = p.
Proof.
  unfold found. rewrite list_elem_of_fmap. split; intros (e & H1 & H2); by exists e.
Qed.

Lemma source_reach d sources log sp p : Progress d sources log -> sp ∈ sources -> leads sp p -> Reach d p.
Proof.
  intros [_ Hlog _ _ [[-> ->]|[_ Hs]]] Hsp Hl; [by eapply reach_first|].
  apply Hs in Hsp as (p0 & sp0 & He & Hg & Hp). apply Hlog in He as [Hr _]. simpl in Hr.
  replace d with (d - 1 + 1) by lia. by eapply reach_next.
Qed.

(** What is reached at distance [d] is found or follows a source. *)
Lemma reach_source d sources log p : Progress d sources log -> Reach d p ->
  p ∈ found log \/ exists sp, sp ∈ sources /\ leads sp p.
Proof.
  intros [Hd Hlog Hall _ Hs] Hr. inversion Hr as [sp p' Hsp Hl|d' p0 q p' Hr0 Hg Hp Hl]; subst.
  - destruct Hs as [[_ ->]|[? _]]; [right; by exists sp|lia].
  - pose proof (reach_pos _ _ Hr0). destruct Hs as [[? _]|[_ Hs]]; [lia|].
    assert (p0 ∈ found log) as Hin by (apply (Hall d'); [done|lia]). apply elem_of_found in Hin as ([[p0' sp0] k] & He & E).
    simpl in E. subst p0'. destruct (Hlog _ He) as (Hk & Hkd & Hmin). simpl in Hk, Hkd, Hmin. specialize (Hmin d' Hr0).
    destruct (decide (k = d')) as [->|].
    + right. exists q. split; [|done]. apply Hs. exists p0, sp0. by replace (d' + 1 - 1) with d' by lia.
    + left. apply (Hall (k + 1)); [by eapply reach_next|lia].
Qed.

Lemma progress_round d sources log L s : Progress d sources log -> State sources log d v0 L s ->
  (forall sp p, sp ∈ sources -> leads sp p -> p ∈ found (log ++ L)) ->
  Progress (d + 1) s.2 (log ++ L).
Proof.
  intros HP [_ _ Hnd Hnew Hnext] Hcov. pose proof HP as [Hd Hlog Hall _ _].
  assert (HL : forall e, e ∈ L -> Reach d e.1.1 /\ e.2 = d).
  { intros e He. destruct (Hnew e He) as (E & Hsp & Hl). split; [|done]. by eapply source_reach. }
  assert (Hdisj : forall e, e ∈ L -> e.1.1 ∉ found log).
  { intros e He Hin. rewrite found_app in Hnd. apply NoDup_app in Hnd as (_ & Hnd & _). apply (Hnd _ Hin).
    apply elem_of_found. by exists e. }
  constructor; [lia| | |done|].
  - intros e. rewrite elem_of_app. intros [He|He].
    + destruct (Hlog e He) as (? & ? & ?). split_and!; [done|lia|done].
    + destruct (HL e He) as [Hr E]. rewrite E. split_and!; [done|lia|]. intros n Hn.
      destruct (decide (d <= n)); [done|]. destruct (Hdisj e He). apply (Hall n); [done|lia].
  - intros n p Hr Hn. destruct (decide (n < d)).
    + rewrite found_app, elem_of_app. left. by apply (Hall n).
    + assert (n = d) as -> by lia. destruct (reach_source d sources log p HP Hr) as [Hin|(sp & Hsp & Hl)]; [|by apply (Hcov sp)].
      rewrite found_app, elem_of_app. by left.
  - right. split; [lia|]. intros q. rewrite Hnext. replace (d + 1 - 1) with d by lia. split.
    + intros (p & ([[p' sp] k] & He & E)%elem_of_found & Hg & Hp). simpl in E. subst p'.
      destruct (HL _ He) as [_ E]. simpl in E. subst k. exists p, sp. split_and!; [|done..]. rewrite elem_of_app. by right.
    + intros (p & sp & [He|He]%elem_of_app & Hg & Hp).
      * destruct (Hlog _ He) as (_ & Hlt & _). simpl in Hlt. lia.
      * exists p. split_and!; [|done..]. apply elem_of_found. by exists (p, sp, d).
Qed.

(** Without sources everything has been found. *)
Lemma progress_done d log n p : Progress d [] log -> Reach n p -> p ∈ found log.
Proof.
  intros HP. pose proof HP as [Hd Hlog Hall _ Hs]. induction 1 as [sp p Hsp Hl|n p q p' Hr IH Hg Hp Hl].
  - destruct Hs as [[_ E]|[? _]]; [rewrite <- E in Hsp; by apply elem_of_nil in Hsp|].
    apply (Hall 1); [by eapply reach_first|lia].
  - apply elem_of_found in IH as ([[p0 sp0] k] & He & E). simpl in E. subst p0.
    destruct (Hlog _ He) as (Hk & Hkd & _). simpl in Hk, Hkd. pose proof (reach_pos _ _ Hk).
    destruct Hs as [[? _]|[_ Hs]]; [lia|]. destruct (decide (k = d - 1)) as [->|].
    + assert (q ∈ []) as Hq by (apply Hs; by exists p, sp0). by apply elem_of_nil in Hq.
    + apply (Hall (k + 1)); [by eapply reach_next|lia].
Qed.

Lemma reach_range n p : Reach n p -> in_range r (negb forward) p.
Proof. intros H. destruct H as [sp p _ (c & Hc & _ & <-)|d p q p' _ _ _ (c & Hc & _ & <-)]; by apply HR. Qed.

Lemma found_length log : NoDup (found log) -> (forall e, e ∈ log -> exists n, Reach n e.1.1) ->
  (length log <= length (all_ports r (negb forward)))%nat.
Proof.
  intros Hn Hr. transitivity (length (found log)); [unfold found; by rewrite length_map|].
  apply submseteq_length, NoDup_submseteq; [done|]. intros p (e & He & <-)%elem_of_found.
  apply elem_of_all_ports; [done|]. destruct (Hr e He) as [n Hn']. by eapply reach_range.
Qed.

Lemma visit_rounds_Ok : forall fuel d sources log v bv, Progress d sources log -> v = replay log v0 ->
  (forall p, in_range r (negb forward) p -> gport r (negb forward) p ∈ bv <-> p ∈ found log) ->
  (sources <> [] -> length (all_ports r (negb forward)) - length log < fuel)%nat ->
  exists log', visit_rounds visit r forward fuel sources d v bv = Ok (replay log' v0) /\ NoDup (found log') /\
    (forall p, p ∈ found log' <-> exists n, Reach n p) /\
    (forall e, e ∈ log' -> Reach e.2 e.1.1 /\ forall n, Reach n e.1.1 -> e.2 <= n).
Proof.
  induction fuel as [|fuel IH]; intros d [|sp sources] log v bv HP Hv Hb Hf; cbn [visit_rounds];
    try (exfalso; specialize (Hf ltac:(done)); lia);
    try (exists log; rewrite Hv; pose proof HP as [_ Hlog _ Hn _]; split_and!;
      [done|done| |intros e He; by destruct (Hlog e He) as (? & _ & ?)];
      intros p; split; [intros (e & He & <-)%elem_of_found; exists e.2; by apply Hlog|intros (n & Hr); by eapply progress_done]).
  set (S0 := sp :: sources) in *.
  destruct (visit_sources_State S0 log d v0 S0 [] (v, bv, [])) as ([[v1 bv1] next] & L & -> & Hst & Hcov).
  { constructor; simpl; rewrite ?app_nil_r; [done|done|by apply HP|by intros e ?%elem_of_nil|].
    intros q. rewrite elem_of_nil. split; [done|]. by intros (p & ?%elem_of_nil & _). }
  { done. }
  res_simpl. simpl in Hst, Hcov.
  pose proof (progress_round d S0 log L _ HP Hst Hcov) as HP'. simpl in HP'.
  pose proof Hst as [Hv1 Hb1 Hn1 _ Hnext]. simpl in Hv1, Hb1, Hnext.
  apply (IH (d + 1) next (log ++ L)); [done|done|done|]. intros Hne. specialize (Hf ltac:(done)).
  assert (L <> []) as HL.
  { intros ->. destruct next as [|q next]; [done|]. destruct (proj1 (Hnext q) ltac:(by left)) as (p & Hp & _).
    by apply elem_of_nil in Hp. }
  assert (length (log ++ L) <= length (all_ports r (negb forward)))%nat.
  { apply found_length; [done|]. intros e He. destruct (progress_log _ _ _ HP' e He) as [Hr _]. by eexists. }
  rewrite length_app in *. destruct L; [done|]. simpl in *. lia.
Qed.

End rounds.
End search.

(** ** visit_base *)

(** The ports from which the search starts. *)
Definition first_sources (r : Router) (forward : bool) (first : Port) : list Port :=
  let n := nports_of r forward (idx first) in
  if port first <? 0 then map (fun i => mkPort (idx first) (Z.of_nat i)) (seq 0 (Z.to_nat n))
  else if port first <? n then [first]
  else [].

Lemma reach_same r conn sorter forward goes first n p : Permutation conn (_conn r) ->
  Reach (with_conn conn true sorter r) forward goes first n p <-> Reach r forward goes first n p.
Proof.
  intros HP. assert (Hl : forall sp p, leads (with_conn conn true sorter r) forward sp p <-> leads r forward sp p).
  { intros sp p'. unfold leads. cbn [_conn with_conn]. by setoid_rewrite HP. }
  split; induction 1; [eapply reach_first; [done|]|eapply reach_next; [done|done|done|]|eapply reach_first; [done|]|
    eapply reach_next; [done|done|done|]]; by apply Hl.
Qed.

Lemma visit_base_Ok {V} (visit : Port -> Port -> Z -> V -> V * bool) goes forward first r v :
  Shaped r -> Ordered r -> Ranged r -> _have_connections r = true ->
  (forall p, in_range r (negb forward) p -> exists bv, port_flow r (negb forward) p = Ok bv) ->
  (forall p sp d v, snd (visit p sp d v) = goes p) ->
  exists r' log, visit_base visit forward first r v = Ok (Some (r', replay visit log v)) /\ NoDup (found log) /\
    (forall p, p ∈ found log <-> exists n, Reach r forward goes (first_sources r forward first) n p) /\
    (forall e, e ∈ log -> Reach r forward goes (first_sources r forward first) e.2 e.1.1 /\
       forall n, Reach r forward goes (first_sources r forward first) n e.1.1 -> e.2 <= n).
Proof.
  intros HS HO HR Hh Hflow Hgo. unfold visit_base. rewrite Hh. cbn [negb].
  destruct (sort_connections_Ok r HO) as (conn & sorter & -> & HP & HA). res_simpl.
  set (r' := with_conn conn true sorter r) in *. fold (first_sources r' forward first).
  change (first_sources r' forward first) with (first_sources r forward first).
  assert (HS' : Shaped r') by (by destruct HS).
  assert (HR' : Ranged r') by (intros c Hc; apply HR; by rewrite <- HP).
  destruct (visit_rounds_Ok visit r' forward goes HS' HA HR' Hflow Hgo (first_sources r forward first) v
    (length (all_ports r' (negb forward)) + 2) 1 (first_sources r forward first) [] v []) as (log & -> & Hn & Hall & Hlog).
  - constructor; [lia|by intros e ?%elem_of_nil| |constructor|by left].
    intros n p Hr Hlt. apply reach_pos in Hr. lia.
  - done.
  - intros p _. split; by intros ?%elem_of_nil.
  - simpl. lia.
  - res_simpl. exists r', log.
    assert (Hsame : forall n p, Reach r' forward goes (first_sources r forward first) n p <->
      Reach r forward goes (first_sources r forward first) n p) by (intros; by apply reach_same).
    setoid_rewrite Hsame in Hall. setoid_rewrite Hsame in Hlog. done.
Qed.

(** The elements that [filter_visit] collects are those of the ports visited. *)
Lemma filter_visit_replay filter log : forall l i,
  i ∈ replay (filter_visit filter) log l <-> i ∈ l \/ exists p, p ∈ found log /\ idx p = i.
Proof.
  induction log as [|e log IH]; intros l i.
  - split; [by left|]. intros [|(p & ?%elem_of_nil & _)]; done.
  - change (replay (filter_visit filter) (e :: log) l)
      with (replay (filter_visit filter) log (fst (filter_visit filter e.1.1 e.1.2 e.2 l))).
    rewrite IH. cbn [found map]. setoid_rewrite elem_of_cons. simpl.
    destruct (decide (idx e.1.1 ∈ l)) as [Hin|Hin].
    + split; [intros [|(p & ? & ?)]; eauto|]. intros [|(p & [->|] & <-)]; eauto.
    + rewrite elem_of_app, list_elem_of_singleton. split.
      * intros [[| ->]|(p & ? & ?)]; eauto.
      * intros [|(p & [->|] & <-)]; eauto.
Qed.

(** [downstream_elements] finds the elements with an input that is reached from the given
    output, or from all outputs, without passing an input at which the filter matches. *)
Lemma downstream_elements_Ok check_match first r :
  Shaped r -> Ordered r -> Ranged r -> _have_connections r = true -> Flowing r ->
  exists r' l, downstream_elements (Some check_match) first r = Ok (Some (r', l)) /\
    forall i, i ∈ l <-> exists n p, idx p = i /\
      Reach r true (fun p => negb (check_match p)) (first_sources r true first) n p.
Proof.
  intros HS HO HR Hh Hflow. unfold downstream_elements.
  destruct (visit_base_Ok (filter_visit (Some check_match)) (fun p => negb (check_match p)) true first r [])
    as (r' & log & -> & _ & Hall & _); [done..|].
  eexists r', _. split; [done|]. intros i. rewrite filter_visit_replay. setoid_rewrite Hall. split.
  - intros [?%elem_of_nil|(p & (n & Hr) & Hi)]; [done|]. by exists n, p.
  - intros (n & p & Hi & Hr). right. exists p. eauto.
Qed.

Module VisitTheorems.

(** C12: The search along the connections is breadth-first and complete.  In a router with
    its connections, for a visitor that decides by the port whether to go on,
    [visit_base] ends; it visits every port that is reached from the first ones through
    connections and through the flow codes of the elements in between, and no other,
    each once and with its least distance. *)
Theorem visit_base_reaches {V} (visit : Port -> Port -> Z -> V -> V * bool) goes forward first r v :
  Shaped r -> Ordered r -> Ranged r -> _have_connections r = true ->
  (forall p, in_range r (negb forward) p -> exists bv, port_flow r (negb forward) p = Ok bv) ->
  (forall p sp d v, snd (visit p sp d v) = goes p) ->
  exists r' log, visit_base visit forward first r v = Ok (Some (r', replay visit log v)) /\ NoDup (found log) /\
    (forall p, p ∈ found log <-> exists n, Reach r forward goes (first_sources r forward first) n p) /\
    (forall e, e ∈ log -> Reach r forward goes (first_sources r forward first) e.2 e.1.1 /\
       forall n, Reach r forward goes (first_sources r forward first) n e.1.1 -> e.2 <= n).
Proof. apply visit_base_Ok. Qed.

(** The pipeline, searched from all outputs of the source. *)
Definition log_ports (p sp : Port) (d : Z) (l : list (Port * Z)) : list (Port * Z) * bool := (l ++ [(p, d)], true).

Lemma visit_base_reaches_witness :
  exists r r' log, hookup pipeline = Ok (Some (r, true), []) /\
    visit_base log_ports true (mkPort 0 (-1)) r [] = Ok (Some (r', replay log_ports log [])) /\
    replay log_ports log [] = [(mkPort 1 0, 1); (mkPort 2 0, 2); (mkPort 3 0, 3)] /\
    forall p, p ∈ found log <-> exists n, Reach r true (fun _ => true) (first_sources r true (mkPort 0 (-1))) n p.
Proof.
  destruct (hookup_Ok pipeline (new_router_shaped _ _ _) pipeline_ordered) as (result & errors & E & H).
  { intros n. apply complete_flowing; [reflexivity|]. by repeat constructor. }
  destruct result as [[r ok]|]; [|vm_compute in E; discriminate E].
  assert (ok = true) as -> by (vm_compute in E; congruence). assert (errors = []) as -> by (vm_compute in E; congruence).
  destruct (H r eq_refl) as [_ H1 H2 H3 H4 _ _ H7].
  assert (Hr : hookup pipeline = Ok (Some (r, true), [])) by exact E.
  vm_compute in E. injection E as E. symmetry in E.
  destruct (visit_base_reaches log_ports (fun _ => true) true (mkPort 0 (-1)) r []) as (r' & log & Ev & Hn & Hall & Hlog).
  - exact H1.
  - apply arranged_ordered; [by rewrite E|exact H3].
  - exact H4.
  - exact H7.
  - apply complete_flowing; [by rewrite E|]. rewrite E. by repeat constructor.
  - reflexivity.
  - exists r, r', log. split; [exact Hr|]. split; [exact Ev|]. split; [|exact Hall].
    revert Ev. generalize (replay log_ports log []). intros x Ex. rewrite E in Ex. vm_compute in Ex. congruence.
Defined.

End VisitTheorems.
