(* ===== verification/FlowCodes.v ===== *)
(** * FlowCodes: what flow codes mean

    [Element::port_flow] for codes made of letters, as the documentation of
    [Element::flow_code] has it: packets travel between an input and an output whose
    letters are equal, where the last letter of a side stands for all further ports.  The
    code [COMPLETE_FLOW], which is not read but recognised, is one of them. *)

From S2P Require Import Prelude ConfParse Lexer Sorting Hookup.

Definition letters (s : bytes) : Prop := s <> [] /\ Forall (fun c => isalpha c = true) s.

(** The letter of a port. *)
Definition letter_of (s : bytes) (i : nat) : Z := default 0 (s !! Nat.min i (length s - 1)).

Lemma isalpha_range c : isalpha c = true -> 65 <= c <= 122.
Proof. unfold isalpha, between. lia. Qed.

(** Characters past the end are NUL, so codes in brackets end with the string. *)
Lemma chr_inside str p c : chr str p = c -> c <> 0 -> (p < length str)%nat.
Proof. intros <- Hc. unfold chr in Hc. destruct (str !! p) eqn:Hp; [by eapply lookup_lt_Some|done]. Qed.

Lemma bracket_codes_end str port : forall fuel p code, (p <= length str < p + fuel)%nat ->
  bracket_codes str fuel port p code <> Fault OutOfFuel.
Proof.
  induction fuel as [|fuel IH]; intros p code Hf; cbn [bracket_codes]; [lia|].
  destruct ((chr str p =? 93) || (chr str p =? 0)) eqn:Hc; [done|].
  assert (p < length str)%nat by (apply (chr_inside str p (chr str p)); [done|lia]).
  unfold add_code. repeat case_match; res_simpl; try done; apply IH; lia.
Qed.

Lemma to_bracket_end str p : to_bracket str p <> Fault OutOfFuel.
Proof. induction p; cbn [to_bracket]; by case_match. Qed.

Lemma next_flow_code_end str p port : next_flow_code str p port <> Fault OutOfFuel.
Proof.
  unfold next_flow_code. destruct (last_code str p) as [q|e] eqn:Hq; res_simpl.
  2: { unfold last_code in Hq. intros [= ->]. repeat case_match; try done; by eapply to_bracket_end. }
  destruct (Z.eqb_spec (chr str q) 91) as [Hb%chr_inside|_]; [|done|unfold add_code; by repeat case_match].
  set (q' := if chr str (S q) =? 94 then S q else q).
  assert (q' < length str)%nat.
  { subst q'. destruct (Z.eqb_spec (chr str (S q)) 94) as [Hn%chr_inside|_]; done. }
  pose proof (bracket_codes_end str port (S (length str)) (S q') 0 ltac:(lia)) as He.
  by destruct bracket_codes as [[? ?]|]; res_simpl.
Qed.

Lemma setbit_meets c d : 0 <= c -> 0 <= d -> (Z.land (Z.setbit 0 c) (Z.setbit 0 d) =? 0) = negb (c =? d).
Proof.
  intros Hc Hd. destruct (Z.eqb_spec c d) as [->|Hne]; cbn [negb].
  - apply Z.eqb_neq. intros E. assert (Z.testbit (Z.land (Z.setbit 0 d) (Z.setbit 0 d)) d = true) as H.
    { by rewrite Z.land_spec, Z.setbit_eq. }
    rewrite E, Z.bits_0 in H. done.
  - apply Z.eqb_eq. apply Z.bits_inj. intros k. rewrite Z.land_spec, !Z.setbit_eqb, Z.bits_0 by lia.
    destruct (Z.eqb_spec c k), (Z.eqb_spec d k); simpl; (lia || done).
Qed.

Section codes.
Context (pre s post : bytes) (Hs : letters s).
Let str : bytes := pre ++ s ++ post.
Context (Hend : post = [] \/ chr post 0 = 47).

Lemma chr_letter i : (i < length s)%nat -> exists c, chr str (length pre + i) = c /\ s !! i = Some c /\ isalpha c = true.
Proof.
  intros Hi. destruct (lookup_lt_is_Some_2 s i Hi) as [c Hc]. exists c. split_and!; [|done|].
  - unfold chr, str. rewrite lookup_app_r, lookup_app_l by lia. by replace (length pre + i - length pre)%nat with i by lia; rewrite Hc.
  - destruct Hs as [_ Hf]. rewrite Forall_lookup in Hf. by eapply Hf.
Qed.

Lemma chr_end : at_slash str (length pre + length s) = true.
Proof.
  unfold at_slash, chr, str. rewrite lookup_app_r, lookup_app_r by lia.
  replace (length pre + length s - length pre - length s)%nat with 0%nat by lia.
  destruct Hend as [->|E]; [done|]. unfold chr in E. rewrite E. done.
Qed.

Lemma not_slash i : (i < length s)%nat -> at_slash str (length pre + i) = false /\ (chr str (length pre + i) =? 91) = false.
Proof.
  intros Hi. destruct (chr_letter i Hi) as (c & Ec & _ & Ha). unfold at_slash. rewrite Ec.
  unfold isalpha, between in Ha. lia.
Qed.

(** Skipping codes stops at the end of the side. *)
Lemma skip_codes p : Nat.iter p (skip_flow_code str) (length pre) = (length pre + Nat.min p (length s))%nat.
Proof.
  induction p as [|p IH]; [simpl; lia|]. rewrite Nat.iter_succ, IH. unfold skip_flow_code.
  destruct (decide (p < length s)%nat) as [Hp|Hp].
  - rewrite (Nat.min_l p), (Nat.min_l (S p)) by lia. destruct (not_slash p Hp) as [-> ->]. lia.
  - rewrite (Nat.min_r p), (Nat.min_r (S p)), chr_end by lia. done.
Qed.

(** The code at a position of the side, or the last one at its end. *)
Lemma next_code p port : next_flow_code str (length pre + Nat.min p (length s)) port =
  Ok ((length pre + Nat.min (S p) (length s))%nat, Z.setbit 0 (letter_of s p)).
Proof.
  destruct Hs as [Hne _]. assert (0 < length s)%nat by (destruct s; [done|simpl; lia]).
  unfold next_flow_code. set (q := Nat.min p (length s - 1)).
  assert (last_code str (length pre + Nat.min p (length s)) = Ok (length pre + q)%nat) as ->.
  { unfold last_code, q. destruct (decide (p < length s)%nat) as [Hp|Hp].
    - rewrite (Nat.min_l p (length s)), (Nat.min_l p (length s - 1)) by lia. by destruct (not_slash p Hp) as [-> _].
    - rewrite (Nat.min_r p (length s)), (Nat.min_r p (length s - 1)), chr_end by lia.
      destruct (length pre + length s)%nat as [|m] eqn:Em; [lia|].
      assert (m = length pre + (length s - 1))%nat as -> by lia.
      destruct (chr_letter (length s - 1)) as (c & -> & _ & Ha); [lia|].
      by replace (c =? 93) with false by (unfold isalpha, between in Ha; lia). }
  res_simpl. destruct (not_slash q) as [_ ->]; [lia|]. destruct (chr_letter q) as (c & Ec & Hc & Ha); [lia|].
  unfold add_code. rewrite Ec, Ha. res_simpl. unfold letter_of. fold q. rewrite Hc. cbn [default].
  by replace (S (length pre + q)) with (length pre + Nat.min (S p) (length s))%nat by lia.
Qed.

Lemma flow_to_letters in_code : forall n i k, flow_to str n i (length pre + Nat.min k (length s)) in_code =
  Ok (map (fun j => negb (Z.land in_code (Z.setbit 0 (letter_of s j)) =? 0)) (seq k n)).
Proof.
  induction n as [|n IH]; intros i k; cbn [flow_to seq map]; [done|].
  rewrite next_code. res_simpl. rewrite IH. done.
Qed.

End codes.

(** ** Two sides *)

Lemma to_slash_letters s post : Forall (fun c => isalpha c = true) s -> (post = [] \/ chr post 0 = 47) ->
  to_slash (s ++ post) 0 = length s.
Proof.
  intros Hf Hend. unfold to_slash.
  set (cond := fun p => before_end (s ++ post) p && negb (chr (s ++ post) p =? 47)).
  assert (Hin : forall i, (i < length s)%nat -> cond i = true).
  { intros i Hi. destruct (lookup_lt_is_Some_2 s i Hi) as [c Hc]. rewrite Forall_lookup in Hf. pose proof (Hf _ _ Hc) as Ha.
    unfold cond, before_end, chr. rewrite lookup_app_l, Hc, length_app by done. change (default 0 (Some c)) with c.
    apply isalpha_range in Ha. apply andb_true_iff. split; [apply Nat.ltb_lt; lia|apply negb_true_iff, Z.eqb_neq; lia]. }
  assert (Hout : cond (length s) = false).
  { unfold cond, before_end, chr. rewrite lookup_app_r, Nat.sub_diag, length_app by lia.
    destruct Hend as [->|E]; [simpl; rewrite Nat.add_0_r, Nat.ltb_irrefl; done|]. unfold chr in E. rewrite E. by rewrite andb_false_r. }
  assert (H : forall fuel i, (i <= length s)%nat -> (length s - i <= fuel)%nat -> advance cond fuel i = length s).
  { induction fuel as [|fuel IH]; intros i Hi Hfu; cbn [advance]; [lia|].
    destruct (decide (i = length s)) as [->|]; [by rewrite Hout|]. rewrite Hin by lia. apply IH; lia. }
  apply H; [lia|]. rewrite length_app. lia.
Qed.

(** The flow that two sides of letters stand for. *)
Definition letters_flow (ins outs : bytes) (isoutput : bool) (p nother : nat) : list bool :=
  let here := if isoutput then outs else ins in
  let there := if isoutput then ins else outs in
  map (fun j => letter_of here p =? letter_of there j) (seq 0 nother).

Lemma letter_of_range s i : letters s -> 0 <= letter_of s i.
Proof.
  intros [Hne Hf]. unfold letter_of. destruct (s !! _) as [c|] eqn:E; [|done]. rewrite Forall_lookup in Hf.
  apply Hf, isalpha_range in E. simpl. lia.
Qed.

Lemma flow_letters_map here there p nother : letters here -> letters there ->
  map (fun j => negb (Z.land (Z.setbit 0 (letter_of here p)) (Z.setbit 0 (letter_of there j)) =? 0)) (seq 0 nother) =
  map (fun j => letter_of here p =? letter_of there j) (seq 0 nother).
Proof.
  intros Hh Ht. apply map_ext. intros j. rewrite setbit_meets by (by apply letter_of_range). apply negb_involutive.
Qed.

(** One side read at port [p], the other one whole. *)
Lemma read_sides str pre1 s1 post1 pre2 s2 post2 p nother :
  str = pre1 ++ s1 ++ post1 -> str = pre2 ++ s2 ++ post2 -> letters s1 -> letters s2 ->
  (post1 = [] \/ chr post1 0 = 47) -> (post2 = [] \/ chr post2 0 = 47) ->
  (let* (_, in_code) := next_flow_code str (Nat.iter p (skip_flow_code str) (length pre1)) (Z.of_nat p) in
   flow_to str nother 0 (length pre2) in_code) =
  Ok (map (fun j => letter_of s1 p =? letter_of s2 j) (seq 0 nother)).
Proof.
  intros E1 E2 H1 H2 Hp1 Hp2. rewrite E1 at 1 2. rewrite skip_codes, next_code by done. res_simpl.
  pose proof (flow_to_letters pre2 s2 post2 H2 Hp2 (Z.setbit 0 (letter_of s1 p)) nother 0 0) as Hf.
  rewrite Nat.min_0_l, Nat.add_0_r in Hf. rewrite E2, Hf. by rewrite flow_letters_map.
Qed.

Lemma at_slash_letter str pre s post : str = pre ++ s ++ post -> letters s ->
  at_slash str (length pre) = false.
Proof.
  intros -> Hs. destruct (not_slash pre s post Hs 0) as [E _]; [destruct Hs as [Hne _]; destruct s; [done|simpl; lia]|].
  by rewrite Nat.add_0_r in E.
Qed.

Lemma code_flow_sides ins outs isoutput p nother : letters ins -> letters outs ->
  code_flow (ins ++ [47] ++ outs) isoutput p nother = Ok (letters_flow ins outs isoutput p nother).
Proof.
  intros Hi Ho. unfold code_flow. rewrite to_slash_letters by (apply Hi || by right).
  set (str := ins ++ [47] ++ outs).
  assert (before_end str (length ins) = true) as -> by (apply Nat.ltb_lt; unfold str; rewrite !length_app; simpl; lia).
  assert (E1 : str = [] ++ ins ++ [47] ++ outs) by done.
  assert (E2 : str = (ins ++ [47]) ++ outs ++ []) by (unfold str; by rewrite app_nil_r, <- app_assoc).
  assert (El : S (length ins) = length (ins ++ [47])) by (rewrite length_app; simpl; lia). rewrite El.
  rewrite (at_slash_letter str _ outs []) by (done || by left). unfold letters_flow.
  destruct isoutput.
  - apply (read_sides str _ outs [] [] ins ([47] ++ outs)); [done..|by left|by right].
  - apply (read_sides str [] ins ([47] ++ outs) _ outs []); [done..|by right|by left].
Qed.

Lemma code_flow_one s isoutput p nother : letters s ->
  code_flow s isoutput p nother = Ok (letters_flow s s isoutput p nother).
Proof.
  intros Hs. pose proof (app_nil_r s) as Er. unfold code_flow.
  pose proof (to_slash_letters s [] (proj2 Hs) (or_introl eq_refl)) as Ets. rewrite Er in Ets. rewrite Ets.
  unfold before_end. rewrite Nat.ltb_irrefl.
  assert (E : s = [] ++ s ++ []) by (by rewrite app_nil_r).
  pose proof (at_slash_letter s [] s [] E Hs) as Eat. cbn [length] in Eat. rewrite Eat. unfold letters_flow.
  destruct isoutput; apply (read_sides s [] s [] [] s []); done || by left.
Qed.

Module FlowTheorems.

(** C35: Flow codes of letters mean what is documented.  With a code of letters for the
    inputs and letters for the outputs, packets travel between the ports whose letters
    are equal, where the last letter of a side stands for all further ports; a code
    without a slash stands for both sides. *)
Theorem code_flow_letters ins outs isoutput p nother : letters ins -> letters outs ->
  code_flow (ins ++ [47] ++ outs) isoutput p nother = Ok (letters_flow ins outs isoutput p nother) /\
  code_flow ins isoutput p nother = Ok (letters_flow ins ins isoutput p nother).
Proof. intros Hi Ho. split; [by apply code_flow_sides|by apply code_flow_one]. Qed.

(** The example of the documentation: xy/xxyx for two inputs and four outputs. *)
Lemma code_flow_letters_witness :
  code_flow (bytes_of_string "xy/xxyx") false 0 4 = Ok [true; true; false; true] /\
  code_flow (bytes_of_string "xy") false 1 3 = Ok [false; true; true].
Proof.
  destruct (code_flow_letters (bytes_of_string "xy") (bytes_of_string "xxyx") false 0 4) as [E _];
    [by split; [|repeat constructor]..|].
  destruct (code_flow_letters (bytes_of_string "xy") (bytes_of_string "xxyx") false 1 3) as [_ E'];
    [by split; [|repeat constructor]..|].
  split; [exact E|exact E'].
Defined.

End FlowTheorems.
