(* ===== verification/Startup.v ===== *)
(** * Startup: the life of a router's elements

    [Router::initialize] after the hookup, and the destructor (lib/router.cc): elements
    are configured in the order of their phases, then initialized, and each is cleaned
    up once, told how far it got.  The methods of the elements are arguments; they act on
    a state [W] of the world, and every call is recorded.

    Handlers, attachments, threads and the master are left out: nothing here depends on
    them. *)

From Stdlib Require Import Sorting.Sorted.
From S2P Require Import Prelude ConfParse Lexer Sorting Hookup HookupProps.

(** [Element::CleanupStage] *)
Inductive CleanupStage :=
| CLEANUP_BEFORE_CONFIGURE
| CLEANUP_CONFIGURE_FAILED
| CLEANUP_CONFIGURED
| CLEANUP_INITIALIZE_FAILED
| CLEANUP_INITIALIZED
| CLEANUP_ROUTER_INITIALIZED.
#[global] Instance CleanupStage_eq_dec : EqDecision CleanupStage.
Proof. solve_decision. Defined.

(** The states of a router. *)
Inductive RouterState := ROUTER_NEW | ROUTER_PRECONFIGURE | ROUTER_PREINITIALIZE | ROUTER_LIVE | ROUTER_DEAD.
#[global] Instance RouterState_eq_dec : EqDecision RouterState.
Proof. solve_decision. Defined.

(** The calls of elements' methods, with what they return. *)
Inductive Call :=
| Configure (i : nat) (result : Z)
| Initialize (i : nat) (result : Z)
| Cleanup (i : nat) (stage : CleanupStage).
#[global] Instance Call_eq_dec : EqDecision Call.
Proof. solve_decision. Defined.

Record Life := mkLife {
  hooks : Router;
  _state : RouterState;
  _element_configure_order : list nat
}.

Definition configure_order_compar (phase : list Z) (a b : nat) : Z :=
  i32 (default 0 (phase !! a) - default 0 (phase !! b)).

Section life.
Context {W : Type} (configure initialize : nat -> W -> W * Z) (cleanup : nat -> CleanupStage -> W -> W).

Definition configure_order (phases : list Z) : res (list nat) :=
  match phases with
  | [] => Ok []
  | _ => click_qsort (configure_order_compar phases) 2 (seq 0 (length phases))
  end.

(** All elements are configured, even after a failure. *)
Fixpoint configure_elements (order : list nat) (stages : list CleanupStage) (w : W)
    : list CleanupStage * bool * W * list Call :=
  match order with
  | [] => (stages, true, w, [])
  | i :: order =>
      let '(w, result) := configure i w in
      let failed := result <? 0 in
      let stages := <[i := if failed then CLEANUP_CONFIGURE_FAILED else CLEANUP_CONFIGURED]> stages in
      let '(stages, all_ok, w, calls) := configure_elements order stages w in
      (stages, negb failed && all_ok, w, Configure i result :: calls)
  end.

(** The initialization stops at the first failure. *)
Fixpoint initialize_elements (order : list nat) (stages : list CleanupStage) (w : W)
    : res (list CleanupStage * bool * W * list Call) :=
  match order with
  | [] => Ok (stages, true, w, [])
  | i :: order =>
      let* stage := load stages i in
      assert* (bool_decide (stage = CLEANUP_CONFIGURED));
      let '(w, result) := initialize i w in
      if 0 <=? result then
        let* (stages, all_ok, w, calls) := initialize_elements order (<[i := CLEANUP_INITIALIZED]> stages) w in
        Ok (stages, all_ok, w, Initialize i result :: calls)
      else Ok (<[i := CLEANUP_INITIALIZE_FAILED]> stages, false, w, [Initialize i result])
  end.

Fixpoint cleanup_elements (order : list nat) (stages : list CleanupStage) (w : W) : res (W * list Call) :=
  match order with
  | [] => Ok (w, [])
  | i :: order =>
      let* stage := load stages i in
      let* (w, calls) := cleanup_elements order stages (cleanup i stage w) in
      Ok (w, Cleanup i stage :: calls)
  end.

(** The result is that of the method: whether the router can run. *)
Definition initialize_router (phases : list Z) (l : Life) (w : W) : res (Life * bool * W * list Call) :=
  if decide (_state l <> ROUTER_NEW) then Ok (l, false, w, [])
  else
    let n := length (elements (hooks l)) in
    let* (hooked, errors) := hookup (hooks l) in
    match hooked with
    | None => Ok (mkLife (hooks l) ROUTER_PRECONFIGURE (_element_configure_order l), false, w, [])
    | Some (r, all_ok) =>
        let* order := configure_order phases in
        let stages := replicate n CLEANUP_BEFORE_CONFIGURE in
        let '(stages, all_ok, w, configured) :=
          if (all_ok : bool) then configure_elements order stages w else (stages, false, w, []) in
        let* (stages, all_ok, w, initialized) :=
          if (all_ok : bool) then initialize_elements order stages w else Ok (stages, false, w, []) in
        if (all_ok : bool) then Ok (mkLife r ROUTER_LIVE order, true, w, configured ++ initialized)
        else
          let* (w, cleaned) := cleanup_elements (rev order) stages w in
          Ok (mkLife r ROUTER_DEAD order, false, w, configured ++ initialized ++ cleaned)
    end.

(** [Router::~Router] *)
Definition destroy_router (l : Life) (w : W) : res (W * list Call) :=
  let n := length (elements (hooks l)) in
  match _state l with
  | ROUTER_LIVE =>
      cleanup_elements (rev (_element_configure_order l)) (replicate n CLEANUP_ROUTER_INITIALIZED) w
  | ROUTER_DEAD => Ok (w, [])
  | state =>
      assert* ((length (_element_configure_order l) =? 0)%nat && bool_decide (state = ROUTER_NEW \/ state = ROUTER_PRECONFIGURE));
      cleanup_elements (rev (seq 0 n)) (replicate n CLEANUP_BEFORE_CONFIGURE) w
  end.

End life.

(** ** What the calls tell of an element *)

Definition configs (i : nat) (calls : list Call) : list Z :=
  omap (fun c => match c with Configure j result => if decide (j = i) then Some result else None | _ => None end) calls.
Definition inits (i : nat) (calls : list Call) : list Z :=
  omap (fun c => match c with Initialize j result => if decide (j = i) then Some result else None | _ => None end) calls.
Definition cleanups (i : nat) (calls : list Call) : list CleanupStage :=
  omap (fun c => match c with Cleanup j stage => if decide (j = i) then Some stage else None | _ => None end) calls.

(** The stage that the documentation of [Element::cleanup] has for an element with these
    results of [configure] and [initialize], in a router that was [live] or not. *)
Definition stage_told (live : bool) (configured initialized : list Z) : CleanupStage :=
  match configured, initialized with
  | [], _ => CLEANUP_BEFORE_CONFIGURE
  | result :: _, [] => if result <? 0 then CLEANUP_CONFIGURE_FAILED else CLEANUP_CONFIGURED
  | _ :: _, result :: _ =>
      if result <? 0 then CLEANUP_INITIALIZE_FAILED
      else if live then CLEANUP_ROUTER_INITIALIZED else CLEANUP_INITIALIZED
  end.

Lemma configs_app i a b : configs i (a ++ b) = configs i a ++ configs i b.
Proof. apply omap_app. Qed.
Lemma inits_app i a b : inits i (a ++ b) = inits i a ++ inits i b.
Proof. apply omap_app. Qed.
Lemma cleanups_app i a b : cleanups i (a ++ b) = cleanups i a ++ cleanups i b.
Proof. apply omap_app. Qed.

Lemma configs_Configure i j result calls :
  configs j (Configure i result :: calls) = (if decide (i = j) then [result] else []) ++ configs j calls.
Proof. unfold configs. simpl. by destruct (decide (i = j)). Qed.
Lemma inits_Initialize i j result calls :
  inits j (Initialize i result :: calls) = (if decide (i = j) then [result] else []) ++ inits j calls.
Proof. unfold inits. simpl. by destruct (decide (i = j)). Qed.
Lemma cleanups_Cleanup i j stage calls :
  cleanups j (Cleanup i stage :: calls) = (if decide (i = j) then [stage] else []) ++ cleanups j calls.
Proof. unfold cleanups. simpl. by destruct (decide (i = j)). Qed.

Section lifeproofs.
Context {W : Type} (configure initialize : nat -> W -> W * Z) (cleanup : nat -> CleanupStage -> W -> W).

Lemma configure_elements_spec : forall order stages w stages' ok w' calls,
  NoDup order -> Forall (fun i => i < length stages)%nat order ->
  configure_elements configure order stages w = (stages', ok, w', calls) ->
  length stages' = length stages /\
  (forall i, inits i calls = [] /\ cleanups i calls = []) /\
  (forall i, i ∉ order -> stages' !! i = stages !! i /\ configs i calls = []) /\
  (forall i, i ∈ order -> exists result, configs i calls = [result] /\ stages' !! i = Some (stage_told false [result] []) /\
     (ok = true -> 0 <= result)) /\
  (ok = false -> exists i result, i ∈ order /\ configs i calls = [result] /\ result < 0).
Proof.
  induction order as [|i order IH]; intros stages w stages' ok w' calls Hn Hl; cbn [configure_elements].
  - intros [= <- <- <- <-]. split_and!; [done|done|done|by intros i ?%elem_of_nil|done].
  - apply NoDup_cons in Hn as [Hi Hn]. apply Forall_cons in Hl as [Hlt Hl].
    destruct (configure i w) as [w1 result].
    set (stages1 := <[i := if result <? 0 then CLEANUP_CONFIGURE_FAILED else CLEANUP_CONFIGURED]> stages).
    destruct (configure_elements configure order stages1 w1) as [[[stages2 ok2] w2] calls2] eqn:E. intros [= <- <- <- <-].
    assert (Hlen1 : length stages1 = length stages) by (unfold stages1; by rewrite length_insert).
    apply IH in E as (Hlen & Hno & Hout & Hin & Hbad); [|done|by rewrite Hlen1].
    destruct (Hout i Hi) as [Hsi Hci]. split_and!; [congruence| | | |].
    + intros j. apply Hno.
    + intros j [Hj Hjo]%not_elem_of_cons. destruct (Hout j Hjo) as [Hs Hc]. rewrite configs_Configure, decide_False by done.
      split; [|done]. rewrite Hs. unfold stages1. by rewrite list_lookup_insert_ne.
    + intros j [->|Hj]%elem_of_cons; rewrite configs_Configure.
      * exists result. rewrite decide_True, Hci by done. split_and!; [done| |].
        -- rewrite Hsi. unfold stages1. by rewrite list_lookup_insert_eq.
        -- destruct (Z.ltb_spec result 0); [done|lia].
      * destruct (Hin j Hj) as (res & Hc & Hs & Hok). exists res. rewrite decide_False by (by intros ->). split_and!; [done..|].
        intros [_ H]%andb_true_iff. by apply Hok.
    + intros [Hf|Hf]%andb_false_iff.
      * exists i, result. rewrite configs_Configure, decide_True, Hci by done. split_and!; [by left|done|].
        destruct (Z.ltb_spec result 0); done.
      * destruct (Hbad Hf) as (j & res & Hj & Hc & Hr). exists j, res.
        rewrite configs_Configure, decide_False by (by intros ->). split_and!; [by right|done|done].
Qed.

Lemma initialize_elements_spec : forall order stages w,
  NoDup order -> Forall (fun i => stages !! i = Some CLEANUP_CONFIGURED) order ->
  exists stages' ok w' calls, initialize_elements initialize order stages w = Ok (stages', ok, w', calls) /\
  length stages' = length stages /\
  (forall i, configs i calls = [] /\ cleanups i calls = []) /\
  (forall i, inits i calls = [] /\ stages' !! i = stages !! i \/
     exists result, i ∈ order /\ inits i calls = [result] /\ stages' !! i = Some (stage_told false [0] [result])) /\
  (ok = true -> forall i, i ∈ order -> exists result, inits i calls = [result] /\ 0 <= result) /\
  (ok = false -> exists i result, i ∈ order /\ inits i calls = [result] /\ result < 0).
Proof.
  induction order as [|i order IH]; intros stages w Hn Hc; cbn [initialize_elements].
  - exists stages, true, w, []. split_and!; [done|done|done|by left|by intros _ i ?%elem_of_nil|done].
  - apply NoDup_cons in Hn as [Hi Hn]. apply Forall_cons in Hc as [Hci Hc].
    unfold load. rewrite Hci. res_simpl. rewrite bool_decide_true by done.
    destruct (initialize i w) as [w1 result]. pose proof (lookup_lt_Some _ _ _ Hci) as Hlt.
    destruct (Z.leb_spec 0 result) as [Hr|Hr].
    + destruct (IH (<[i := CLEANUP_INITIALIZED]> stages) w1) as (stages' & ok & w' & calls & -> & Hlen & Hno & Hst & Hok & Hbad); [done| |].
      { apply Forall_forall. intros j Hj. rewrite list_lookup_insert_ne by (by intros ->). rewrite Forall_forall in Hc. by apply Hc. }
      res_simpl. eexists _, ok, w', _. split; [done|].
      assert (Hnew : inits i calls = [] /\ stages' !! i = <[i := CLEANUP_INITIALIZED]> stages !! i).
      { destruct (Hst i) as [|(res & Hin & _)]; done. }
      split_and!.
      * by rewrite Hlen, length_insert.
      * intros j. apply Hno.
      * intros j. rewrite inits_Initialize. destruct (decide (i = j)) as [<-|Hne]; simpl.
        -- right. exists result. destruct Hnew as [-> ->]. split_and!; [by left|done|]. rewrite list_lookup_insert_eq by done.
           unfold stage_told. destruct (Z.ltb_spec result 0); [lia|done].
        -- destruct (Hst j) as [[H1 H2]|(res & H1 & H2 & H3)]; [left|right].
           ++ split; [done|]. rewrite H2. by rewrite list_lookup_insert_ne.
           ++ exists res. split_and!; [by right|done|done].
      * intros E j [->|Hj]%elem_of_cons; rewrite inits_Initialize.
        -- rewrite decide_True by done. destruct Hnew as [-> _]. by exists result.
        -- rewrite decide_False by (by intros ->). by apply Hok.
      * intros E. destruct (Hbad E) as (j & res & Hj & Hin & Hneg). exists j, res. rewrite inits_Initialize.
        rewrite decide_False by (by intros ->). split_and!; [by right|done|done].
    + eexists _, false, w1, _. split; [done|]. split_and!; [by rewrite length_insert|done| |done|].
      * intros j. unfold inits. simpl. destruct (decide (i = j)) as [<-|Hne]; simpl.
        -- right. exists result. split_and!; [by left|done|]. rewrite list_lookup_insert_eq by done.
           unfold stage_told. destruct (Z.ltb_spec result 0); [done|lia].
        -- left. by rewrite list_lookup_insert_ne.
      * intros _. exists i, result. unfold inits. simpl. rewrite decide_True by done. split_and!; [by left|done|done].
Qed.

Lemma cleanup_elements_spec : forall order stages w,
  Forall (fun i => i < length stages)%nat order -> NoDup order ->
  exists w' calls, cleanup_elements cleanup order stages w = Ok (w', calls) /\
  (forall i, configs i calls = [] /\ inits i calls = []) /\
  (forall i, cleanups i calls = match stages !! i with Some stage => if decide (i ∈ order) then [stage] else [] | None => [] end).
Proof.
  induction order as [|i order IH]; intros stages w Hl Hn; cbn [cleanup_elements].
  - exists w, []. split_and!; [done|done|]. intros i. by destruct (stages !! i).
  - apply Forall_cons in Hl as [Hlt Hl]. apply NoDup_cons in Hn as [Hi Hn].
    destruct (load_Ok stages i Hlt) as (stage & -> & Hs). res_simpl.
    destruct (IH stages (cleanup i stage w) Hl Hn) as (w' & calls & -> & Hno & Hc). res_simpl.
    eexists _, _. split; [done|]. split; [intros j; apply Hno|]. intros j.
    rewrite cleanups_Cleanup, Hc. destruct (decide (i = j)) as [<-|Hne]; simpl.
    + rewrite Hs, decide_False by done. by rewrite decide_True by left.
    + destruct (stages !! j); [|done]. destruct (decide (j ∈ order)); [by rewrite decide_True by (by right)|].
      rewrite decide_False; [done|]. by intros [|]%elem_of_cons.
Qed.

Lemma configure_order_Ok phases : Z.of_nat (length phases) < 2 ^ 64 ->
  exists order, configure_order phases = Ok order /\ Permutation order (seq 0 (length phases)) /\
    (Forall (fun p => 0 <= p < 2 ^ 31) phases ->
       StronglySorted (fun a b => default 0 (phases !! a) <= default 0 (phases !! b)) order).
Proof.
  intros Hl. unfold configure_order. destruct phases as [|p0 phases0] eqn:E; [by exists []; split_and!; [| |constructor]|].
  rewrite <- E in *. clear E.
  destruct (click_qsort_Ok (configure_order_compar phases) 2 (seq 0 (length phases))) as (order & -> & HP & Hs).
  { by rewrite length_seq. }
  exists order. split_and!; [done..|]. intros Hf.
  assert (Hcmp : forall a b, configure_order_compar phases a b = default 0 (phases !! a) - default 0 (phases !! b)).
  { intros a b. assert (Hr : forall i, 0 <= default 0 (phases !! i) < 2 ^ 31).
    { intros i. destruct (phases !! i) as [p|] eqn:E; simpl; [|lia]. rewrite Forall_lookup in Hf. by eapply Hf. }
    unfold configure_order_compar. apply (swrap_id 32 ltac:(lia)). pose proof (Hr a). pose proof (Hr b). zrange. }
  eapply StronglySorted_weaken; [|apply Hs].
  - intros a b. cbn beta. rewrite Hcmp. lia.
  - split; intros *; rewrite !Hcmp; lia.
Qed.

(** Every element of the order is cleaned up once, with its stage. *)
Lemma cleanup_all n order stages w : Permutation order (seq 0 n) -> length stages = n ->
  exists w' calls, cleanup_elements cleanup (rev order) stages w = Ok (w', calls) /\
  (forall i, configs i calls = [] /\ inits i calls = []) /\
  (forall i, cleanups i calls = match stages !! i with Some stage => [stage] | None => [] end).
Proof.
  intros HP Hl. assert (HP' : Permutation (rev order) (seq 0 n)) by (by rewrite <- Permutation_rev).
  destruct (cleanup_elements_spec (rev order) stages w) as (w' & calls & E & Hno & Hc).
  - rewrite HP'. apply Forall_seq. lia.
  - rewrite HP'. apply NoDup_seq.
  - exists w', calls. split_and!; [done..|]. intros i. rewrite Hc. destruct (stages !! i) as [stage|] eqn:Es; [|done].
    rewrite decide_True; [done|]. rewrite HP', elem_of_seq. apply lookup_lt_Some in Es. lia.
Qed.

(** Both loops over the order: the stages are those the results tell, and a success
    means that every call has succeeded. *)
Lemma start_elements n order w : Permutation order (seq 0 n) ->
  let '(stages, all_ok, w, configured) := configure_elements configure order (replicate n CLEANUP_BEFORE_CONFIGURE) w in
  exists stages' ok w' initialized,
    (if (all_ok : bool) then initialize_elements initialize order stages w else Ok (stages, false, w, [])) =
      Ok (stages', ok, w', initialized) /\
    length stages' = n /\
    forall i, (i < n)%nat ->
      cleanups i (configured ++ initialized) = [] /\
      stages' !! i = Some (stage_told false (configs i (configured ++ initialized)) (inits i (configured ++ initialized))) /\
      (ok = true -> exists c r, configs i (configured ++ initialized) = [c] /\ inits i (configured ++ initialized) = [r] /\
         0 <= c /\ 0 <= r).
Proof.
  intros HP. assert (Hnd : NoDup order) by (rewrite HP; apply NoDup_seq).
  assert (Hin : forall i, (i < n)%nat -> i ∈ order) by (intros i Hi; rewrite HP; apply elem_of_seq; lia).
  destruct (configure_elements configure order (replicate n CLEANUP_BEFORE_CONFIGURE) w) as [[[stages all_ok] w1] configured] eqn:E.
  apply configure_elements_spec in E as (Hlen & Hno & _ & Hc & _); [|done|].
  2:{ rewrite HP, length_replicate. apply Forall_seq. lia. }
  rewrite length_replicate in Hlen. destruct all_ok.
  - destruct (initialize_elements_spec order stages w1 Hnd) as (stages' & ok & w' & initialized & -> & Hlen' & Hno' & Hst & Hok & _).
    { apply Forall_forall. intros i Hi. destruct (Hc i Hi) as (c & _ & Hs & Hpos). rewrite Hs. simpl.
      specialize (Hpos eq_refl). by destruct (Z.ltb_spec c 0); [lia|]. }
    exists stages', ok, w', initialized. split; [done|]. split; [congruence|].
    intros i Hi. destruct (Hc i (Hin i Hi)) as (c & Ec & Hs & Hpos). specialize (Hpos eq_refl).
    destruct (Hno i) as [Hn1 Hn2], (Hno' i) as [Hn3 Hn4].
    rewrite configs_app, inits_app, cleanups_app, Ec, Hn1, Hn2, Hn3, Hn4. simpl. split_and!; [done| |].
    + destruct (Hst i) as [[-> ->]|(res & _ & -> & ->)]; done.
    + intros E. destruct (Hok E i (Hin i Hi)) as (res & -> & Hr). by exists c, res.
  - exists stages, false, w1, []. split_and!; [done..|]. intros i Hi. rewrite app_nil_r.
    destruct (Hc i (Hin i Hi)) as (c & Ec & Hs & _), (Hno i) as [-> ->]. rewrite Ec. by split_and!.
Qed.

Lemma lookup_replicate_Some {T} n (x : T) i : (i < n)%nat -> replicate n x !! i = Some x.
Proof. intros Hi. by apply lookup_replicate. Qed.

(** The life of a router that is made, initialized and later destroyed. *)
Lemma life_Ok phases r w :
  length phases = length (elements r) -> Z.of_nat (length phases) < 2 ^ 64 ->
  Shaped r -> Ordered r -> (forall n, Flowing (with_nports n r)) ->
  exists l ok w1 calls w2 more,
    initialize_router configure initialize cleanup phases (mkLife r ROUTER_NEW []) w = Ok (l, ok, w1, calls) /\
    destroy_router cleanup l w1 = Ok (w2, more) /\
    (ok = true <-> _state l = ROUTER_LIVE) /\
    forall i, (i < length phases)%nat ->
      let told := [stage_told ok (configs i calls) (inits i calls)] in
      configs i more = [] /\ inits i more = [] /\
      (if decide (_state l = ROUTER_DEAD) then cleanups i calls = told /\ cleanups i more = []
       else cleanups i calls = [] /\ cleanups i more = told) /\
      (ok = true -> exists c s, configs i calls = [c] /\ inits i calls = [s] /\ 0 <= c /\ 0 <= s).
Proof.
  intros Hlen Hsmall HS HO Hfl. unfold initialize_router. rewrite decide_False by (intros H; by apply H). cbn [hooks].
  destruct (hookup_Ok r HS HO Hfl) as (result & errors & -> & Hhook). res_simpl. rewrite <- Hlen. set (n := length phases).
  destruct result as [[r' all_ok]|].
  2:{ destruct (cleanup_all n (seq 0 n) (replicate n CLEANUP_BEFORE_CONFIGURE) w) as (w' & calls & E & Hno & Hc);
        [done|apply length_replicate|]. eexists _, false, w, [], w', calls. split; [reflexivity|].
      unfold destroy_router. cbn [hooks _state _element_configure_order]. rewrite <- Hlen. fold n.
      split; [exact E|]. split; [done|].
      intros i Hi. cbv zeta. destruct (Hno i) as [-> ->]. by rewrite Hc, lookup_replicate_Some. }
  destruct (configure_order_Ok phases Hsmall) as (order & -> & HP & _). res_simpl. fold n in HP.
  destruct all_ok.
  2:{ destruct (cleanup_all n order (replicate n CLEANUP_BEFORE_CONFIGURE) w) as (w' & calls & E & Hno & Hc);
        [done|apply length_replicate|]. res_simpl. rewrite E. res_simpl. eexists _, false, w', calls, w', [].
      split; [reflexivity|]. split; [done|]. split; [done|]. intros i Hi. cbv zeta. destruct (Hno i) as [-> ->].
      by rewrite Hc, lookup_replicate_Some. }
  pose proof (start_elements n order w HP) as Hst.
  destruct (configure_elements configure order (replicate n CLEANUP_BEFORE_CONFIGURE) w) as [[[stages all_ok] w1] configured].
  destruct Hst as (stages' & ok & w2 & initialized & -> & Hl & Hst). res_simpl. destruct ok.
  - res_simpl. destruct (cleanup_all n order (replicate n CLEANUP_ROUTER_INITIALIZED) w2) as (w' & calls & E & Hno & Hc);
      [done|apply length_replicate|]. eexists _, true, w2, _, w', calls. split; [reflexivity|].
    unfold destroy_router. cbn [hooks _state _element_configure_order].
    rewrite (hooked_elements _ _ (Hhook r' eq_refl)), <- Hlen. fold n. split; [exact E|]. split; [done|]. intros i Hi. cbv zeta.
    destruct (Hst i Hi) as (H1 & _ & H3). destruct (H3 eq_refl) as (c & s & Ec & Es & Hcp & Hsp).
    destruct (Hno i) as [-> ->]. rewrite H1, Ec, Es, Hc, lookup_replicate_Some by done.
    simpl. destruct (Z.ltb_spec s 0); [lia|]. split_and!; try done. intros _. by exists c, s.
  - destruct (cleanup_all n order stages' w2) as (w' & calls & -> & Hno & Hc); [done..|]. res_simpl.
    eexists _, false, w', _, w', []. split; [reflexivity|]. split; [done|]. split; [done|]. intros i Hi. cbv zeta.
    destruct (Hst i Hi) as (H1 & H2 & _). destruct (Hno i) as [Hn1 Hn2]. rewrite app_assoc.
    rewrite configs_app, inits_app, cleanups_app, Hn1, Hn2, Hc, H1, H2, !(app_nil_r (A := Z)). done.
Qed.

End lifeproofs.

Module StartupTheorems.

(** C15: Every element is cleaned up exactly once in the life of a router, whatever the
    elements' methods do: by [initialize] if that leaves the router dead, and else by the
    destructor, for a router that runs and for one that [initialize] has given up before
    it looked at any element (a connection names an element that is not there).  The stage an
    element is told is the one documented for what happened to it, and a router that
    runs has configured and initialized every element with success.  The router is as
    the parser leaves it, and the flow codes of its elements can be read. *)
Theorem cleaned_up_once {W} (configure initialize : nat -> W -> W * Z) (cleanup : nat -> CleanupStage -> W -> W) phases r w :
  length phases = length (elements r) -> Z.of_nat (length phases) < 2 ^ 64 ->
  Shaped r -> Ordered r -> (forall n, Flowing (with_nports n r)) ->
  exists l ok w1 calls w2 more,
    initialize_router configure initialize cleanup phases (mkLife r ROUTER_NEW []) w = Ok (l, ok, w1, calls) /\
    destroy_router cleanup l w1 = Ok (w2, more) /\
    (ok = true <-> _state l = ROUTER_LIVE) /\
    forall i, (i < length phases)%nat ->
      let told := [stage_told ok (configs i calls) (inits i calls)] in
      configs i more = [] /\ inits i more = [] /\
      (if decide (_state l = ROUTER_DEAD) then cleanups i calls = told /\ cleanups i more = []
       else cleanups i calls = [] /\ cleanups i more = told) /\
      (ok = true -> exists c s, configs i calls = [c] /\ inits i calls = [s] /\ 0 <= c /\ 0 <= s).
Proof. apply life_Ok. Qed.

(** The pipeline, in which the third element fails to initialize. *)
Definition third_fails (i : nat) (w : unit) : unit * Z := (w, if (i =? 2)%nat then -1 else 0).

Lemma cleaned_up_once_witness :
  exists l calls, initialize_router (fun _ w => (w, 0)) third_fails (fun _ _ w => w) [100; 20; 50; 0]
      (mkLife pipeline ROUTER_NEW []) tt = Ok (l, false, tt, calls) /\ _state l = ROUTER_DEAD /\
    cleanups 0 calls = [CLEANUP_CONFIGURED] /\ cleanups 2 calls = [CLEANUP_INITIALIZE_FAILED] /\
    cleanups 3 calls = [CLEANUP_INITIALIZED].
Proof.
  destruct (cleaned_up_once (fun _ w => (w, 0)) third_fails (fun _ _ w => w) [100; 20; 50; 0] pipeline tt)
    as (l & ok & w1 & calls & w2 & more & E & _ & _ & H);
    [reflexivity|reflexivity|apply new_router_shaped|apply pipeline_ordered| |].
  { intros n. apply complete_flowing; [reflexivity|]. by repeat constructor. }
  assert (ok = false) as -> by (vm_compute in E; congruence). destruct w1. exists l, calls. split; [exact E|].
  assert (_state l = ROUTER_DEAD) as Hl by (vm_compute in E; injection E as <- <-; reflexivity). split; [exact Hl|].
  assert (forall i, (i < 4)%nat -> cleanups i calls = [stage_told false (configs i calls) (inits i calls)]) as Ht.
  { intros i Hi. destruct (H i Hi) as (_ & _ & Hc & _). rewrite decide_True in Hc by exact Hl. apply Hc. }
  rewrite !Ht by lia. vm_compute in E. injection E as _ <-. repeat split.
Defined.

End StartupTheorems.
