(* ===== verification/Capture.v ===== *)
(** * Capture: the Chi-X trade feed

    Models chix_trade_handler.{hh,cc} with chix_trade_handler_utils.hh, which keeps
    the open orders of a Chi-X feed and turns executions into trades, and
    msg_filter_symbol.{hh,cc}, which passes trades on by symbol.

    [md_msg] is the message behind the 42 bytes of link, network and transport
    headers; reading past the end of the packet is a fault.  The offsets and lengths
    the code passes as template arguments are arguments.  [report_cycles] returns at
    once. *)

From S2P Require Import Prelude FixedPt Messages Parsing Hashing FirstGen.
Import fixedptc.
Import HashMap (HashMap, HashMap_new, PairPtr, find_pair, pair_value, set_pair_value).

Definition encode_MsgTrade (m : MsgTrade) : bytes :=
  le_encode 8 (mt_price m) ++ le_encode 8 (mt_size m) ++ mt_symbol m ++
  le_encode 8 (mt_timestamp m) ++ le_encode 8 (mt_src_timestamp m).

(** ** ChixTradeHandlerUtils *)
Module ChixTradeHandlerUtils.

(** The byte is read before the length is checked. *)
Fixpoint eliminate_leading_whitespaces (remaining_len : nat) (msg : bytes) (field_ptr : nat) : res (nat * nat) :=
  let* c := of_option OutOfBounds (msg !! field_ptr) in
  if c =? 32 then
    match remaining_len with
    | O => Ok (field_ptr, O)
    | S remaining_len => eliminate_leading_whitespaces remaining_len msg (S field_ptr)
    end
  else Ok (field_ptr, remaining_len).

(** The field without its spaces, in a buffer of [size] bytes set to NUL. *)
Definition field_buffer (msg : bytes) (offset len size : nat) : res bytes :=
  let* r := eliminate_leading_whitespaces len msg offset in
  let '(field_ptr, remaining_len) := r in
  let* cs := read_at field_ptr remaining_len msg in
  write_front cs (replicate size 0).

(** Both results are [int]s. *)
Definition parse_add_order_price (price_offset price_len price_whole_len : nat) (msg : bytes) : res (Z * Z) :=
  let* whole_part := field_buffer msg price_offset price_whole_len price_len in
  let* w := strtol whole_part in
  let* cs := read_at (price_offset + price_whole_len) (price_len - price_whole_len) msg in
  let* decimal_part := write_front cs (replicate price_len 0) in
  let* d := strtol decimal_part in
  Ok (i32 w, i32 d).

Definition parse_add_order_price_as_fixedpt (price_offset price_len price_whole_len : nat) (msg : bytes) : res Z :=
  let* r := parse_add_order_price price_offset price_len price_whole_len msg in
  let '(whole_part_int, decimal_part_int) := r in
  let* decimal_part_float := fixedpt_div (i64 (fixedpt_fromint decimal_part_int)) (i64 (fixedpt_fromint 10000)) in
  Ok (fixedpt_add (fixedpt_fromint whole_part_int) decimal_part_float).

(** The result as a [long]; the callers narrow it to their type. *)
Definition parse_numeric (offset field_length : nat) (msg : bytes) : res Z :=
  let* buffer := field_buffer msg offset field_length (field_length + 1) in
  strtol buffer.

(** A space that is not the first byte becomes NUL. *)
Definition trim_alphanumeric_spaces (field : bytes) : bytes :=
  imap (fun i c => if (c =? 32) && negb (i =? 0)%nat then 0 else c) field.

End ChixTradeHandlerUtils.

(** ** ChixTradeHandler *)
Module ChixTradeHandler.
Import ChixTradeHandlerUtils.

Record OrderInfo := mkOrderInfo { _price : Z; _shares : Z; _symbol : bytes }.
Definition OrderInfo_new : OrderInfo := mkOrderInfo 0 0 (replicate ORDER_SYMBOL_LEN 0).

(** The constructor takes the shares as an [int]. *)
Definition OrderInfo_of (price shares : Z) (symbol : bytes) : OrderInfo := mkOrderInfo price (i32 shares) symbol.

Definition OrderMap : Type := HashMap Z OrderInfo.

Record ChixTradeHandler := mkChix { _orderMap : OrderMap; _active : bool }.
Definition ChixTradeHandler_new : ChixTradeHandler := mkChix (HashMap_new OrderInfo_new) true.

Definition _mac_ip_udp_len : nat := 42.

Inductive OrderMsgType := SHORT | LONG.

Definition do_parse_add_order
    (symbol_offset symbol_len shares_offset shares_len ref_num_offset ref_num_len price_offset price_len price_whole_len : nat)
    (md_msg : bytes) (m : OrderMap) : res OrderMap :=
  let* cs := read_at symbol_offset symbol_len md_msg in
  let* symbol := write_front cs (replicate ORDER_SYMBOL_LEN 0) in
  let symbol := trim_alphanumeric_spaces symbol in
  let* price := parse_add_order_price_as_fixedpt price_offset price_len price_whole_len md_msg in
  let* shares := parse_numeric shares_offset shares_len md_msg in
  let* ref_num := parse_numeric ref_num_offset ref_num_len md_msg in
  let* r := HashMap.insert (i32 ref_num) (OrderInfo_of price shares symbol) m in
  Ok (fst r).

(** The end of a cancellation and of an execution. *)
Definition reduce_shares (ref_num : Z) (pair : PairPtr) (shares : Z) (m : OrderMap) : res OrderMap :=
  let* order := pair_value pair m in
  let left_shares := i64 (_shares order - shares) in
  if left_shares <? 1 then let* r := HashMap.erase ref_num m in Ok (fst r)
  else set_pair_value pair (mkOrderInfo (_price order) left_shares (_symbol order)) m.

Definition do_parse_cancel_order (ref_num_offset ref_num_len cancel_shares_offset cancel_shares_len : nat)
    (md_msg : bytes) (m : OrderMap) : res OrderMap :=
  let* ref_num := parse_numeric ref_num_offset ref_num_len md_msg in
  let ref_num := i32 ref_num in
  let* q := find_pair ref_num m in
  match q with
  | None => Ok m
  | Some q =>
      let* shares_to_cancel := parse_numeric cancel_shares_offset cancel_shares_len md_msg in
      reduce_shares ref_num q shares_to_cancel m
  end.

Definition send_msg_trade (packet : Packet) (symbol : bytes) (price shares timestamp : Z) : res (list (Z * Packet)) :=
  let msg := mkMsgTrade price shares symbol timestamp 0 in
  if (length_of packet <? sizeof_MsgTrade)%nat then Ok []
  else
    let* data := write_front (encode_MsgTrade msg) (pk_data packet) in
    Ok [(0, mkPacket MSG_TRADE data)].

(** The flag is [is_packet_reused]. *)
Definition do_parse_execute_order (ref_num_offset ref_num_len executed_shares_offset executed_shares_len : nat)
    (packet : Packet) (md_msg : bytes) (m : OrderMap) : res (OrderMap * list (Z * Packet) * bool) :=
  let* ref_num := parse_numeric ref_num_offset ref_num_len md_msg in
  let ref_num := i32 ref_num in
  let* q := find_pair ref_num m in
  match q with
  | None => Ok (m, [], false)
  | Some q =>
      let* executed_shares := parse_numeric executed_shares_offset executed_shares_len md_msg in
      let executed_shares := i32 executed_shares in
      let* timestampBuffer := read_at 0 8 md_msg in
      let* n := strtol (timestampBuffer ++ [0]) in
      let timestamp := u64 (i32 n) in
      let* order := pair_value q m in
      let* out := send_msg_trade packet (_symbol order) (_price order) executed_shares timestamp in
      let* m := reduce_shares ref_num q executed_shares m in
      Ok (m, out, true)
  end.

Definition parse_add_order (md_msg : bytes) (order_msg_type : OrderMsgType) (m : OrderMap) : res OrderMap :=
  match order_msg_type with
  | SHORT => do_parse_add_order 25 6 19 6 9 9 31 10 6 md_msg m
  | LONG => do_parse_add_order 29 6 19 10 9 9 35 19 12 md_msg m
  end.

Definition parse_cancel_order (md_msg : bytes) (order_msg_type : OrderMsgType) (m : OrderMap) : res OrderMap :=
  match order_msg_type with
  | SHORT => do_parse_cancel_order 9 9 18 6 md_msg m
  | LONG => do_parse_cancel_order 9 9 18 10 md_msg m
  end.

Definition parse_execute_order (packet : Packet) (md_msg : bytes) (order_msg_type : OrderMsgType) (m : OrderMap)
  : res (OrderMap * list (Z * Packet) * bool) :=
  match order_msg_type with
  | SHORT => do_parse_execute_order 9 9 18 6 packet md_msg m
  | LONG => do_parse_execute_order 9 9 18 10 packet md_msg m
  end.

(** ['A'], ['a'], ['X'], ['x'], ['E'] and ['e'] *)
Definition is_long_enough (msg_type : byte) (msg_len : nat) : bool :=
  if msg_type =? 65 then (msg_len =? 42)%nat
  else if msg_type =? 97 then (msg_len =? 55)%nat
  else if msg_type =? 88 then (msg_len =? 24)%nat
  else if msg_type =? 120 then (msg_len =? 28)%nat
  else if msg_type =? 69 then (msg_len =? 33)%nat
  else if msg_type =? 101 then (msg_len =? 37)%nat
  else false.

Definition push (port : Z) (p : Packet) (e : ChixTradeHandler) : res (ChixTradeHandler * list (Z * Packet)) :=
  if negb (_active e) then Ok (e, [])
  else if (length_of p <? _mac_ip_udp_len + 8 + 1)%nat then Ok (e, [])
  else
    let md_msg := drop _mac_ip_udp_len (pk_data p) in
    let* msg_type := of_option OutOfBounds (md_msg !! 8%nat) in
    if negb (is_long_enough msg_type (length_of p - _mac_ip_udp_len)) then Ok (e, [])
    else
      let book (r : res OrderMap) := let* m := r in Ok (mkChix m (_active e), []) in
      let trade (r : res (OrderMap * list (Z * Packet) * bool)) :=
        let* r := r in let '(m, out, _) := r in Ok (mkChix m (_active e), out) in
      if msg_type =? 65 then book (parse_add_order md_msg SHORT (_orderMap e))
      else if msg_type =? 97 then book (parse_add_order md_msg LONG (_orderMap e))
      else if msg_type =? 88 then book (parse_cancel_order md_msg SHORT (_orderMap e))
      else if msg_type =? 120 then book (parse_cancel_order md_msg LONG (_orderMap e))
      else if msg_type =? 69 then trade (parse_execute_order p md_msg SHORT (_orderMap e))
      else if msg_type =? 101 then trade (parse_execute_order p md_msg LONG (_orderMap e))
      else Ok (e, []).

End ChixTradeHandler.

(** ** MsgFilterSymbol *)
Module MsgFilterSymbol.

Inductive FilterMode := ALLOWING | RESTRICTIVE.

Record MsgFilterSymbol := mkFilter {
  _symbol_map : HashMap ArrayWrapper.ArrayWrapper bool;
  _filter_mode : FilterMode;
  _active : bool
}.
Definition MsgFilterSymbol_new : MsgFilterSymbol := mkFilter (HashMap_new false) RESTRICTIVE true.

(** The loop of [configure]; -1 for a symbol that is there already. *)
Fixpoint insert_symbols (symbols : list bytes) (m : HashMap ArrayWrapper.ArrayWrapper bool)
  : res (HashMap ArrayWrapper.ArrayWrapper bool * Z) :=
  match symbols with
  | [] => Ok (m, 0)
  | symbol :: symbols =>
      let array_wrapper := ArrayWrapper.assign symbol (ArrayWrapper.ArrayWrapper_new ORDER_SYMBOL_LEN) in
      let* r := HashMap.insert array_wrapper true m in
      let '(m, inserted) := r in
      if negb inserted then Ok (m, -1) else insert_symbols symbols m
  end.

(** [ACTIVE] and the words of [ALLOW_SYMBOLS] and [RESTRICT_SYMBOLS], none when the
    parser reports an error. *)
Definition configure (active : option bool) (allow_symbols restrict_symbols : list bytes) (e : MsgFilterSymbol)
  : res (MsgFilterSymbol * Z) :=
  let '(mode, symbols) :=
    match allow_symbols, restrict_symbols with
    | _ :: _, _ => (ALLOWING, allow_symbols)
    | [], _ :: _ => (RESTRICTIVE, restrict_symbols)
    | [], [] => (_filter_mode e, [])
    end in
  let* r := insert_symbols symbols (_symbol_map e) in
  Ok (mkFilter (fst r) mode (default (_active e) active), snd r).

Definition push (port : Z) (p : Packet) (e : MsgFilterSymbol) : res (MsgFilterSymbol * list (Z * Packet)) :=
  if negb (_active e) then Ok (e, [(port, p)])
  else if negb (bool_decide (pk_app_type p = MSG_TRADE)) then Ok (e, [(port, p)])
  else
    let* symbol := read_at 16 ORDER_SYMBOL_LEN (pk_data p) in
    let* q := find_pair (ArrayWrapper.mkArrayWrapper symbol) (_symbol_map e) in
    match _filter_mode e, q with
    | RESTRICTIVE, None | ALLOWING, Some _ => Ok (e, [(port, p)])
    | RESTRICTIVE, Some _ | ALLOWING, None => Ok (e, [])
    end.

End MsgFilterSymbol.
