(* ===== verification/CaptureProps.v ===== *)
(** * CaptureProps: the order book of the Chi-X feed, and what it feeds

    Orders as text, the book they make, and the handler against it; the trades it
    sends are trades for the elements of the first generation. *)

From stdpp Require Import gmap.
From S2P Require Import Prelude FixedPt Messages Parsing Hashing FirstGen FirstGenProps Capture.
Import FPt fixedptc.
Import ChixTradeHandlerUtils.
Import ChixTradeHandler (OrderInfo, mkOrderInfo, OrderInfo_of, OrderMsgType, SHORT, LONG).

(** ** Fields *)

(** A number in a field of [len] bytes: spaces, then its digits. *)
Definition field (len : nat) (ds : bytes) : bytes := replicate (len - length ds) 32 ++ ds.

Record number (len : nat) (ds : bytes) : Prop := {
  nm_digits : Forall is_digit ds;
  nm_some : ds <> [];
  nm_length : (length ds <= len)%nat
}.

Lemma length_field len ds : (length ds <= len)%nat -> length (field len ds) = len.
Proof. intros. unfold field. rewrite length_app, length_replicate. lia. Qed.

Lemma eliminate_spaces k pre d ds post :
  is_digit d ->
  eliminate_leading_whitespaces (k + length (d :: ds)) (pre ++ replicate k 32 ++ (d :: ds) ++ post) (length pre) =
  Ok ((length pre + k)%nat, length (d :: ds)).
Proof.
  intros Hd. revert pre. induction k as [|k IH]; intros pre; cbn [replicate Nat.add].
  - cbn [app]. cbn [length eliminate_leading_whitespaces]. rewrite list_lookup_middle by done. res_simpl.
    unfold is_digit in Hd. rewrite (proj2 (Z.eqb_neq d 32)) by lia. by rewrite Nat.add_0_r.
  - cbn [app eliminate_leading_whitespaces]. rewrite list_lookup_middle by done. res_simpl.
    specialize (IH (pre ++ [32])). rewrite length_app, <- app_assoc in IH. cbn [app length] in IH.
    rewrite Z.eqb_refl. replace (S (length pre)) with (length pre + 1)%nat by lia. cbn [app length]. rewrite IH. do 2 f_equal. lia.
Qed.

Lemma field_buffer_spec md off len ds pre post size :
  md = pre ++ field len ds ++ post -> length pre = off -> number len ds -> (len < size)%nat ->
  field_buffer md off len size = Ok (ds ++ replicate (size - length ds) 0).
Proof.
  intros -> <- [Hd Hn Hl] Hsz. unfold field_buffer, field. destruct ds as [|d ds]; [done|]. apply Forall_cons in Hd as [Hd _].
  rewrite <- app_assoc.
  replace len with ((len - length (d :: ds)) + length (d :: ds))%nat at 1 by lia.
  rewrite eliminate_spaces by done. res_simpl. rewrite app_assoc.
  rewrite read_at_app by (done || rewrite length_app, length_replicate; lia). res_simpl.
  rewrite write_front_Ok by (rewrite length_replicate; lia). by rewrite drop_replicate.
Qed.

Lemma parse_numeric_spec md off len ds pre post :
  md = pre ++ field len ds ++ post -> length pre = off -> number len ds -> (len <= 18)%nat ->
  parse_numeric off len md = Ok (dec_value ds).
Proof.
  intros Hmd Hoff Hn Hl. unfold parse_numeric. rewrite (field_buffer_spec md off len ds pre post) by (done || lia). res_simpl.
  destruct Hn as [Hd _ Hle]. replace (len + 1 - length ds)%nat with (S (len - length ds)) by lia. cbn [replicate].
  apply strtol_digits_only; [done|lia].
Qed.

(** What the parser makes of [w] and [d]: it takes [d] for ten-thousandths. *)
Definition price_read (w d : Z) : Z := w * 2 ^ 40 + d * 2 ^ 40 / 10000.

Lemma add_order_price_spec md off len wlen ws ds pre post :
  md = pre ++ field wlen ws ++ ds ++ post -> length pre = off -> number wlen ws ->
  Forall is_digit ds -> (wlen + length ds = len)%nat -> (1 <= length ds <= 9)%nat -> (1 <= wlen <= 18)%nat ->
  dec_value ws < 2 ^ 22 -> dec_value ds < 2 ^ 23 ->
  parse_add_order_price_as_fixedpt off len wlen md = Ok (price_read (dec_value ws) (dec_value ds)) /\
  in_s 64 (price_read (dec_value ws) (dec_value ds)).
Proof.
  intros Hmd Hoff Hn Hd Hlen Hdl Hwl Hw Hds. unfold parse_add_order_price_as_fixedpt, parse_add_order_price.
  pose proof (dec_value_bound _ (nm_digits _ _ Hn)) as Hbw. pose proof (dec_value_bound _ Hd) as Hbd.
  assert (Hp : 10 ^ Z.of_nat (length ds) <= 10 ^ 9) by (apply Z.pow_le_mono_r; lia).
  rewrite (field_buffer_spec md off wlen ws pre (ds ++ post)) by (done || lia). res_simpl.
  destruct Hn as [Hdw _ Hle]. replace (len - length ws)%nat with (S (len - length ws - 1)) by lia. cbn [replicate].
  rewrite strtol_digits_only by (done || lia). res_simpl.
  replace (len - wlen)%nat with (length ds) by lia.
  rewrite Hmd, app_assoc. rewrite read_at_app by (done || rewrite length_app, length_field by done; lia). res_simpl.
  rewrite write_front_Ok by (rewrite length_replicate; lia). res_simpl. rewrite drop_replicate.
  replace (len - length ds)%nat with (S (wlen - 1)) by lia. cbn [replicate].
  rewrite strtol_digits_only by (done || lia). res_simpl.
  set (w := dec_value ws) in *. set (d := dec_value ds) in *.
  assert (H9 : d < 10 ^ 9) by lia. rewrite (i32_id w), (i32_id d) by zrange.
  assert (Hf : forall z, 0 <= z < 2 ^ 31 -> fixedpt_fromint z = z * 2 ^ 40).
  { intros z Hz. unfold fixedpt_fromint. rewrite Z.shiftl_mul_pow2 by done. change FIXEDPT_FBITS with 40.
    apply swrap_id; [done|]. zrange. }
  rewrite !Hf by zrange. rewrite (i64_id (10000 * 2 ^ 40)) by zrange.
  rewrite (i64_id (d * 2 ^ 40)) by zrange. rewrite div_nonzero by done. res_simpl.
  rewrite (Z.mul_comm 10000), (Z.mul_comm (d * 2 ^ 40)), Z.quot_mul_cancel_l by lia.
  rewrite Z.quot_div_nonneg by lia. unfold price_read.
  assert (0 <= d * 2 ^ 40 / 10000 <= d * 2 ^ 40) by divlia.
  rewrite (i64_id (d * 2 ^ 40 / 10000)) by zrange. unfold fixedpt_add.
  assert (Hr : in_s 64 (w * 2 ^ 40 + d * 2 ^ 40 / 10000)) by (unfold in_s; divlia). by rewrite i64_id.
Qed.

(** ** Orders as text *)

Definition shares_len (t : OrderMsgType) : nat := match t with SHORT => 6 | LONG => 10 end.
Definition whole_len (t : OrderMsgType) : nat := match t with SHORT => 6 | LONG => 12 end.
Definition decimal_len (t : OrderMsgType) : nat := match t with SHORT => 4 | LONG => 7 end.

(** The price with the digits [whole] before and [decimals] behind the point, in units of
    2^-40, rounded down. *)
Definition price_of (whole decimals : bytes) : Z :=
  (dec_value whole * 10 ^ Z.of_nat (length decimals) + dec_value decimals) * 2 ^ 40 / 10 ^ Z.of_nat (length decimals).

Inductive order :=
| AddOrder (t : OrderMsgType) (stamp ref : bytes) (side : byte) (shares symbol whole decimals : bytes) (display : byte)
| CancelOrder (t : OrderMsgType) (stamp ref shares : bytes)
| ExecuteOrder (t : OrderMsgType) (stamp ref shares trade_ref : bytes).

Definition encode_order (o : order) : bytes :=
  match o with
  | AddOrder t stamp ref side shares symbol whole decimals display =>
      stamp ++ [match t with SHORT => 65 | LONG => 97 end] ++ field 9 ref ++ [side] ++ field (shares_len t) shares ++
      (symbol ++ replicate (6 - length symbol) 32) ++ field (whole_len t) whole ++ decimals ++ [display]
  | CancelOrder t stamp ref shares =>
      stamp ++ [match t with SHORT => 88 | LONG => 120 end] ++ field 9 ref ++ field (shares_len t) shares
  | ExecuteOrder t stamp ref shares trade_ref =>
      stamp ++ [match t with SHORT => 69 | LONG => 101 end] ++ field 9 ref ++ field (shares_len t) shares ++ trade_ref
  end.

(** Texts that fit their fields and numbers that fit their types.  The decimals of a long
    order are zeros, since the code takes its seven decimals for ten-thousandths. *)
Definition order_ok (o : order) : Prop :=
  match o with
  | AddOrder t stamp ref side shares symbol whole decimals display =>
      length stamp = 8%nat /\ number 9 ref /\ number (shares_len t) shares /\ dec_value shares < 2 ^ 31 /\
      (symbol <> [] /\ (length symbol <= 6)%nat /\ 0 ∉ symbol /\ 32 ∉ symbol) /\
      number (whole_len t) whole /\ dec_value whole < 2 ^ 22 /\
      Forall is_digit decimals /\ length decimals = decimal_len t /\ (t = LONG -> dec_value decimals = 0)
  | CancelOrder t stamp ref shares => length stamp = 8%nat /\ number 9 ref /\ number (shares_len t) shares
  | ExecuteOrder t stamp ref shares trade_ref =>
      (length stamp = 8%nat /\ Forall is_digit stamp) /\ number 9 ref /\ number (shares_len t) shares /\
      dec_value shares < 2 ^ 31 /\ length trade_ref = 9%nat
  end.

(** ** The order book *)

Definition padded (symbol : bytes) : bytes := symbol ++ replicate (ORDER_SYMBOL_LEN - length symbol) 0.

Definition less_shares (ref n : Z) (b : gmap Z OrderInfo) : gmap Z OrderInfo :=
  match b !! ref with
  | Some i =>
      let left_shares := ChixTradeHandler._shares i - n in
      if left_shares <? 1 then delete ref b
      else <[ref := mkOrderInfo (ChixTradeHandler._price i) left_shares (ChixTradeHandler._symbol i)]> b
  | None => b
  end.

(** What an order does to the book, and the trade it makes. *)
Definition order_step (o : order) (b : gmap Z OrderInfo) : gmap Z OrderInfo * list MsgTrade :=
  match o with
  | AddOrder t stamp ref side shares symbol whole decimals display =>
      (<[dec_value ref := mkOrderInfo (price_of whole decimals) (dec_value shares) (padded symbol)]> b, [])
  | CancelOrder t stamp ref shares => (less_shares (dec_value ref) (dec_value shares) b, [])
  | ExecuteOrder t stamp ref shares trade_ref =>
      match b !! dec_value ref with
      | Some i =>
          (less_shares (dec_value ref) (dec_value shares) b,
           [mkMsgTrade (ChixTradeHandler._price i) (dec_value shares) (ChixTradeHandler._symbol i) (dec_value stamp) 0])
      | None => (b, [])
      end
  end.

Fixpoint order_run (os : list order) (b : gmap Z OrderInfo) : gmap Z OrderInfo * list (list MsgTrade) :=
  match os with
  | [] => (b, [])
  | o :: os => let r := order_step o b in let rs := order_run os (fst r) in (fst rs, snd r :: snd rs)
  end.

(** What is in the book fits the fields of a trade. *)
Definition info_ok (i : OrderInfo) : Prop :=
  priced (ChixTradeHandler._price i) /\ - 2 ^ 31 <= ChixTradeHandler._shares i < 2 ^ 31 /\
  exists s, 0 ∉ s /\ (length s < ORDER_SYMBOL_LEN)%nat /\ ChixTradeHandler._symbol i = padded s.

Lemma trim_symbol symbol :
  symbol <> [] -> (length symbol <= 6)%nat -> 32 ∉ symbol ->
  trim_alphanumeric_spaces ((symbol ++ replicate (6 - length symbol) 32) ++ replicate 4 0) = padded symbol.
Proof.
  intros Hn Hl Hs. unfold trim_alphanumeric_spaces, padded. rewrite <- app_assoc. rewrite imap_app. f_equal.
  - erewrite (imap_ext _ (const id)); [by rewrite imap_const, list_fmap_id|]. intros i c Hc. cbn.
    destruct (Z.eqb_spec c 32) as [->|]; [|done]. by apply list_elem_of_lookup_2 in Hc.
  - erewrite (imap_ext _ (const (fun _ => 0))).
    + rewrite imap_const, (const_fmap _ _ 0) by done. f_equal. rewrite length_app, !length_replicate. unfold ORDER_SYMBOL_LEN. lia.
    + intros i c Hc. cbn. destruct symbol as [|x symbol]; [done|]. cbn [length Nat.add Nat.eqb negb].
      apply lookup_app_Some in Hc as [Hc|[_ Hc]]; apply lookup_replicate in Hc as [-> _]; done.
Qed.

Lemma decode_encode_MsgTrade m rest :
  in_s 64 (mt_price m) -> in_s 64 (mt_size m) -> length (mt_symbol m) = ORDER_SYMBOL_LEN ->
  in_u 64 (mt_timestamp m) -> in_u 64 (mt_src_timestamp m) ->
  decode_MsgTrade (encode_MsgTrade m ++ rest) = Ok m.
Proof.
  destruct m as [p n s t u]. cbn [mt_price mt_size mt_symbol mt_timestamp mt_src_timestamp]. intros Hp Hn Hs Ht Hu.
  unfold encode_MsgTrade, decode_MsgTrade. cbn [mt_price mt_size mt_symbol mt_timestamp mt_src_timestamp].
  rewrite <- !app_assoc. rewrite read_i64_front by done. res_simpl.
  rewrite (read_i64_app 8) by (done || apply length_le_encode). res_simpl.
  rewrite (app_assoc (le_encode 8 p)). rewrite (read_at_app 16) by (done || rewrite !length_app, !length_le_encode; done). res_simpl.
  rewrite (app_assoc _ s). rewrite (read_u64_app 26) by (done || rewrite !length_app, !length_le_encode, Hs; done). res_simpl.
  rewrite (app_assoc _ (le_encode 8 t)).
  by rewrite (read_u64_app 34) by (done || rewrite !length_app, !length_le_encode, Hs; done).
Qed.

(** The trade in a packet that was long enough. *)
Lemma send_msg_trade_spec p i n ts :
  info_ok i -> in_s 64 n -> in_u 64 ts -> (sizeof_MsgTrade <= length (pk_data p))%nat ->
  exists p', ChixTradeHandler.send_msg_trade p (ChixTradeHandler._symbol i) (ChixTradeHandler._price i) n ts = Ok [(0, p')] /\
    pk_app_type p' = MSG_TRADE /\
    decode_MsgTrade (pk_data p') = Ok (mkMsgTrade (ChixTradeHandler._price i) n (ChixTradeHandler._symbol i) ts 0).
Proof.
  intros (Hp & _ & s & Hs0 & Hsl & Hs) Hn Ht Hlen. unfold ChixTradeHandler.send_msg_trade, length_of.
  rewrite (proj2 (Nat.ltb_ge _ _)) by done.
  assert (Hsym : length (ChixTradeHandler._symbol i) = ORDER_SYMBOL_LEN)
    by (rewrite Hs; unfold padded; rewrite length_app, length_replicate; lia).
  rewrite write_front_Ok.
  2:{ unfold encode_MsgTrade. cbn [mt_price mt_size mt_symbol mt_timestamp mt_src_timestamp].
      rewrite !length_app, !length_le_encode, Hsym. unfold ORDER_SYMBOL_LEN, sizeof_MsgTrade in *. lia. }
  res_simpl. eexists. split; [done|]. split; [done|]. unfold priced in Hp. apply decode_encode_MsgTrade; try done; cbn [mt_price]; zrange.
Qed.

Lemma less_shares_ok ref n b : 0 <= n -> map_Forall (fun _ => info_ok) b -> map_Forall (fun _ => info_ok) (less_shares ref n b).
Proof.
  intros Hn Hb. unfold less_shares. destruct (b !! ref) as [i|] eqn:E; [|done]. destruct (Hb ref i E) as (Hp & Hs & Hsym).
  destruct (Z.ltb_spec (ChixTradeHandler._shares i - n) 1); [by apply map_Forall_delete|].
  apply map_Forall_insert_2; [|done]. split_and!; [done| | |done]; cbn [ChixTradeHandler._shares]; lia.
Qed.

Lemma reduce_shares_spec ref n (m : HashMap.HashMap Z OrderInfo) (b : gmap Z OrderInfo) i q :
  represents m b -> b !! ref = Some i -> info_ok i -> 0 <= n < 2 ^ 62 -> HashMap.find_pair ref m = Ok (Some q) ->
  HashMap.pair_value q m = Ok i /\
  exists m', ChixTradeHandler.reduce_shares ref q n m = Ok m' /\ represents m' (less_shares ref n b).
Proof.
  intros Hr Hi (_ & Hs & _) Hn Hq. pose proof (find_pair_spec ref m b Hr I) as Hf. change (key_id ref) with ref in Hf.
  rewrite Hi in Hf. destruct Hf as (q' & Hq' & Hv & Hset). rewrite Hq in Hq'. injection Hq' as <-. split; [done|].
  unfold ChixTradeHandler.reduce_shares, less_shares. rewrite Hv, Hi. res_simpl. rewrite i64_id by zrange.
  destruct (ChixTradeHandler._shares i - n <? 1).
  - destruct (erase_spec ref m b Hr I) as (m' & -> & Hr' & _). res_simpl. by exists m'.
  - destruct (Hset (mkOrderInfo (ChixTradeHandler._price i) (ChixTradeHandler._shares i - n) (ChixTradeHandler._symbol i)))
      as (m' & -> & Hr'). by exists m'.
Qed.

Lemma find_order ref (m : HashMap.HashMap Z OrderInfo) (b : gmap Z OrderInfo) :
  represents m b ->
  match b !! ref with
  | Some i => exists q, HashMap.find_pair ref m = Ok (Some q)
  | None => HashMap.find_pair ref m = Ok None
  end.
Proof.
  intros Hr. pose proof (find_pair_spec ref m b Hr I) as Hf. change (key_id ref) with ref in Hf.
  destruct (b !! ref); [|done]. destruct Hf as (q & Hq & _). by exists q.
Qed.

(** *** The three messages *)

Ltac at_length := rewrite ?length_app, ?length_field by (by apply nm_length); cbn [length]; rewrite ?length_replicate; lia.

Lemma number_bound len ds : number len ds -> 0 <= dec_value ds < 10 ^ Z.of_nat len.
Proof.
  intros [Hd _ Hl]. pose proof (dec_value_bound ds Hd).
  assert (10 ^ Z.of_nat (length ds) <= 10 ^ Z.of_nat len) by (apply Z.pow_le_mono_r; lia). lia.
Qed.

Lemma number_nonneg len ds : number len ds -> 0 <= dec_value ds.
Proof. intros Hn. by destruct (number_bound len ds Hn). Qed.

Lemma ref_i32 ref : number 9 ref -> i32 (dec_value ref) = dec_value ref.
Proof. intros Hr. pose proof (number_bound _ _ Hr). apply i32_id. change (10 ^ Z.of_nat 9) with 1000000000 in *. zrange. Qed.

(** Four decimals, or zeros, are read for what they are. *)
Lemma price_read_right t stamp ref side shares symbol whole decimals display :
  order_ok (AddOrder t stamp ref side shares symbol whole decimals display) ->
  dec_value decimals < 2 ^ 23 /\ price_read (dec_value whole) (dec_value decimals) = price_of whole decimals /\
  priced (price_of whole decimals).
Proof.
  intros (_ & _ & _ & _ & _ & Hw & Hw22 & Hd & Hdl & Hz). pose proof (number_nonneg _ _ Hw).
  pose proof (dec_value_bound _ Hd) as Hb. unfold price_read, price_of, priced. rewrite Hdl in *. destruct t; cbn [decimal_len] in *.
  - change (10 ^ Z.of_nat 4) with 10000 in *. split; [lia|].
    assert (E : dec_value whole * 2 ^ 40 + dec_value decimals * 2 ^ 40 / 10000 =
      (dec_value whole * 10000 + dec_value decimals) * 2 ^ 40 / 10000).
    { rewrite Z.add_comm, <- Z.div_add by lia. f_equal. ring. }
    split; [exact E|]. rewrite <- E. divlia.
  - rewrite Hz by done. change (0 * 2 ^ 40 / 10000) with 0. rewrite !Z.add_0_r. split; [lia|].
    assert (E : dec_value whole * 10 ^ Z.of_nat 7 * 2 ^ 40 / 10 ^ Z.of_nat 7 = dec_value whole * 2 ^ 40).
    { rewrite <- (Z.div_mul (dec_value whole * 2 ^ 40) (10 ^ Z.of_nat 7)) by lia. f_equal. ring. }
    rewrite E. lia.
Qed.

(** What the parsers read of an added order. *)
Lemma add_order_reads t stamp ref side shares symbol whole decimals display :
  let o := AddOrder t stamp ref side shares symbol whole decimals display in
  let md := encode_order o in
  order_ok o ->
  read_at (19 + shares_len t) 6 md = Ok (symbol ++ replicate (6 - length symbol) 32) /\
  parse_numeric 19 (shares_len t) md = Ok (dec_value shares) /\ parse_numeric 9 9 md = Ok (dec_value ref) /\
  parse_add_order_price_as_fixedpt (25 + shares_len t) (whole_len t + decimal_len t) (whole_len t) md =
    Ok (price_of whole decimals) /\
  priced (price_of whole decimals).
Proof.
  intros o md Ho. destruct (price_read_right _ _ _ _ _ _ _ _ _ Ho) as (Hd23 & Hpr & Hnn).
  destruct Ho as (Hst & Href & Hsh & _ & (_ & Hsl & _ & _) & Hw & Hw22 & Hd & Hdl & _).
  set (pre1 := stamp ++ [match t with SHORT => 65 | LONG => 97 end]).
  set (text := symbol ++ replicate (6 - length symbol) 32).
  assert (Ht : length text = 6%nat) by (unfold text; rewrite length_app, length_replicate; lia).
  pose proof (nm_length _ _ Href). pose proof (nm_length _ _ Hsh). pose proof (nm_length _ _ Hw).
  assert (E : md = pre1 ++ field 9 ref ++ [side] ++ field (shares_len t) shares ++ text ++ field (whole_len t) whole ++ decimals ++ [display])
    by (unfold md, pre1, o; cbn [encode_order]; fold text; by rewrite <- (app_assoc stamp)).
  assert (L1 : length pre1 = 9%nat) by (unfold pre1; rewrite length_app, Hst; done).
  split; [|split; [|split]].
  - rewrite E, (app_assoc [side]), (app_assoc (field 9 ref)), (app_assoc pre1). apply read_at_app; [|done].
    rewrite !length_app, !length_field, L1 by done. cbn [length]. lia.
  - apply (parse_numeric_spec md 19 (shares_len t) shares (pre1 ++ field 9 ref ++ [side])
             (text ++ field (whole_len t) whole ++ decimals ++ [display])); [rewrite E, <- !app_assoc; done| |done|destruct t; cbn; lia].
    rewrite !length_app, length_field, L1 by done. done.
  - apply (parse_numeric_spec md 9 9 ref _ _ E); [done|done|lia].
  - split; [|exact Hnn]. rewrite <- Hpr.
    apply (add_order_price_spec md (25 + shares_len t) (whole_len t + decimal_len t) (whole_len t) whole decimals
             (pre1 ++ field 9 ref ++ [side] ++ field (shares_len t) shares ++ text) [display]);
      [rewrite E, <- !app_assoc; done| |done|done|lia|rewrite Hdl; destruct t; cbn; lia|destruct t; cbn; lia|done|done].
    rewrite !length_app, !length_field, L1, Ht by done. cbn [length]. lia.
Qed.

Lemma add_order_spec t stamp ref side shares symbol whole decimals display m b :
  let o := AddOrder t stamp ref side shares symbol whole decimals display in
  order_ok o -> represents m b ->
  exists m', ChixTradeHandler.parse_add_order (encode_order o) t m = Ok m' /\ represents m' (fst (order_step o b)) /\
    info_ok (mkOrderInfo (price_of whole decimals) (dec_value shares) (padded symbol)).
Proof.
  intros o Ho Hr. destruct (add_order_reads _ _ _ _ _ _ _ _ _ Ho) as (Hsy & Hns & Hnr & Hp & Hpr). fold o in Hsy, Hns, Hnr, Hp.
  destruct Ho as (_ & Href & Hsh & Hsh31 & (Hsn & Hsl & Hs0 & Hs32) & _). pose proof (number_nonneg _ _ Hsh) as Hsh0.
  assert (Hdo : ChixTradeHandler.parse_add_order (encode_order o) t m =
    ChixTradeHandler.do_parse_add_order (19 + shares_len t) 6 19 (shares_len t) 9 9 (25 + shares_len t)
      (whole_len t + decimal_len t) (whole_len t) (encode_order o) m) by (by destruct t).
  assert (Ht : length (symbol ++ replicate (6 - length symbol) 32) = 6%nat) by (rewrite length_app, length_replicate; lia).
  rewrite Hdo. unfold ChixTradeHandler.do_parse_add_order. rewrite Hsy. res_simpl.
  rewrite write_front_Ok by (rewrite Ht, length_replicate; unfold ORDER_SYMBOL_LEN; lia). res_simpl.
  rewrite Hp. res_simpl. rewrite Hns. res_simpl. rewrite Hnr. res_simpl. rewrite ref_i32 by done.
  rewrite Ht, drop_replicate. change (ORDER_SYMBOL_LEN - 6)%nat with 4%nat. rewrite trim_symbol by done.
  unfold OrderInfo_of. rewrite (i32_id (dec_value shares)) by zrange.
  match goal with |- context [HashMap.insert ?k ?v m] => destruct (insert_spec k v m b Hr I) as (m' & -> & Hr' & _) end. res_simpl.
  exists m'. split; [done|]. split; [done|]. split_and!; [exact Hpr| | |]; cbn [ChixTradeHandler._shares ChixTradeHandler._symbol]; [lia|lia|].
  exists symbol. split_and!; [done|unfold ORDER_SYMBOL_LEN; lia|done].
Qed.

(** The numbers of a cancellation and of an execution. *)
Lemma ref_shares_reads c stamp ref len shares post :
  length stamp = 8%nat -> number 9 ref -> number len shares -> (len <= 18)%nat ->
  let md := stamp ++ [c] ++ field 9 ref ++ field len shares ++ post in
  parse_numeric 9 9 md = Ok (dec_value ref) /\ parse_numeric 18 len md = Ok (dec_value shares).
Proof.
  intros Hst Href Hsh Hl md. pose proof (nm_length _ _ Href). split.
  - apply (parse_numeric_spec md 9 9 ref (stamp ++ [c]) (field len shares ++ post)); [by rewrite <- app_assoc| |done|lia].
    by rewrite length_app, Hst.
  - apply (parse_numeric_spec md 18 len shares (stamp ++ [c] ++ field 9 ref) post); [by rewrite <- !app_assoc| |done|done].
    by rewrite !length_app, length_field, Hst.
Qed.

Lemma cancel_order_spec t stamp ref shares m b :
  let o := CancelOrder t stamp ref shares in
  order_ok o -> represents m b -> map_Forall (fun _ => info_ok) b ->
  exists m', ChixTradeHandler.parse_cancel_order (encode_order o) t m = Ok m' /\ represents m' (fst (order_step o b)).
Proof.
  intros o (Hst & Href & Hsh) Hr Hb.
  destruct (ref_shares_reads (match t with SHORT => 88 | LONG => 120 end) stamp ref (shares_len t) shares [] Hst Href Hsh) as [Hnr Hns];
    [destruct t; cbn; lia|]. rewrite app_nil_r in Hnr, Hns.
  assert (Hdo : ChixTradeHandler.parse_cancel_order (encode_order o) t m =
    ChixTradeHandler.do_parse_cancel_order 9 9 18 (shares_len t) (encode_order o) m) by (by destruct t).
  rewrite Hdo. unfold ChixTradeHandler.do_parse_cancel_order, o. cbn [encode_order order_step fst]. rewrite Hnr. res_simpl.
  rewrite ref_i32 by done. pose proof (find_order (dec_value ref) m b Hr) as Hf. destruct (b !! dec_value ref) as [i|] eqn:Ei.
  - destruct Hf as (q & Hq). rewrite Hq. res_simpl. rewrite Hns. res_simpl.
    assert (Hn62 : 0 <= dec_value shares < 2 ^ 62).
    { pose proof (number_bound _ _ Hsh). assert (10 ^ Z.of_nat (shares_len t) <= 10 ^ 10) by (apply Z.pow_le_mono_r; [done|]; destruct t; cbn; lia). lia. }
    destruct (reduce_shares_spec _ _ m b i q Hr Ei (Hb _ _ Ei) Hn62 Hq) as (_ & m' & -> & Hr'). by exists m'.
  - rewrite Hf. res_simpl. exists m. split; [done|]. unfold less_shares. by rewrite Ei.
Qed.

Lemma execute_order_spec t stamp ref shares trade_ref p m b :
  let o := ExecuteOrder t stamp ref shares trade_ref in
  order_ok o -> represents m b -> map_Forall (fun _ => info_ok) b -> (sizeof_MsgTrade <= length (pk_data p))%nat ->
  exists m' out reused, ChixTradeHandler.parse_execute_order p (encode_order o) t m = Ok (m', out, reused) /\
    represents m' (fst (order_step o b)) /\
    Forall2 (fun x trade => x.1 = 0 /\ pk_app_type x.2 = MSG_TRADE /\ decode_MsgTrade (pk_data x.2) = Ok trade)
      out (snd (order_step o b)).
Proof.
  intros o ((Hst & Hstd) & Href & Hsh & Hsh31 & _) Hr Hb Hlen.
  destruct (ref_shares_reads (match t with SHORT => 69 | LONG => 101 end) stamp ref (shares_len t) shares trade_ref Hst Href Hsh) as [Hnr Hns];
    [destruct t; cbn; lia|].
  assert (Hdo : ChixTradeHandler.parse_execute_order p (encode_order o) t m =
    ChixTradeHandler.do_parse_execute_order 9 9 18 (shares_len t) p (encode_order o) m) by (by destruct t).
  rewrite Hdo. unfold ChixTradeHandler.do_parse_execute_order, o. cbn [encode_order order_step]. rewrite Hnr. res_simpl.
  rewrite ref_i32 by done. pose proof (find_order (dec_value ref) m b Hr) as Hf. destruct (b !! dec_value ref) as [i|] eqn:Ei.
  - destruct Hf as (q & Hq). rewrite Hq. res_simpl. rewrite Hns. res_simpl.
    pose proof (number_nonneg _ _ Hsh) as Hsh0. rewrite (i32_id (dec_value shares)) by zrange.
    pose proof (read_at_app 0 8 [] stamp) as Hrd. cbn [app] in Hrd. rewrite Hrd by done. res_simpl.
    rewrite strtol_digits_only by (done || lia). res_simpl.
    pose proof (dec_value_bound stamp Hstd) as Hts. rewrite Hst in Hts. change (10 ^ Z.of_nat 8) with 100000000 in Hts.
    rewrite (i32_id (dec_value stamp)) by zrange. rewrite (u64_id (dec_value stamp)) by zrange.
    destruct (reduce_shares_spec _ (dec_value shares) m b i q Hr Ei (Hb _ _ Ei)) as (Hv & m' & Hred & Hr'); [lia|done|].
    rewrite Hv. res_simpl.
    destruct (send_msg_trade_spec p i (dec_value shares) (dec_value stamp) (Hb _ _ Ei)) as (p' & -> & Hty & Hdec); [zrange|zrange|done|].
    res_simpl. rewrite Hred. res_simpl. eexists _, _, _. split; [done|]. split; [done|]. cbn [snd]. repeat constructor; done.
  - rewrite Hf. res_simpl. exists m, [], false. split; [done|]. split; [done|constructor].
Qed.

(** ** Runs *)

Definition order_packet (headers : bytes) (o : order) : Packet := mkPacket NO_APP_MSG (headers ++ encode_order o).

(** A packet sent to output 0 that is the trade. *)
Definition carries (x : Z * Packet) (trade : MsgTrade) : Prop :=
  x.1 = 0 /\ pk_app_type x.2 = MSG_TRADE /\ decode_MsgTrade (pk_data x.2) = Ok trade.

Definition handler_follows (e : ChixTradeHandler.ChixTradeHandler) (b : gmap Z OrderInfo) : Prop :=
  ChixTradeHandler._active e = true /\ represents (ChixTradeHandler._orderMap e) b /\ map_Forall (fun _ => info_ok) b.

Definition order_type (o : order) : byte :=
  match o with
  | AddOrder SHORT _ _ _ _ _ _ _ _ => 65
  | AddOrder LONG _ _ _ _ _ _ _ _ => 97
  | CancelOrder SHORT _ _ _ => 88
  | CancelOrder LONG _ _ _ => 120
  | ExecuteOrder SHORT _ _ _ _ => 69
  | ExecuteOrder LONG _ _ _ _ => 101
  end.

Lemma order_type_at o : order_ok o -> encode_order o !! 8%nat = Some (order_type o).
Proof.
  intros Ho. destruct o as [t stamp ? ? ? ? ? ? ?|t stamp ? ?|t stamp ? ? ?]; cbn [encode_order app];
    (rewrite list_lookup_middle; [by destruct t|]); cbn [order_ok] in Ho; symmetry; apply Ho.
Qed.

Lemma order_long_enough o : order_ok o -> ChixTradeHandler.is_long_enough (order_type o) (length (encode_order o)) = true.
Proof.
  intros Ho. destruct o as [t stamp ref side shares symbol whole decimals display|t stamp ref shares|t stamp ref shares trade_ref];
    cbn [encode_order order_ok] in *.
  - destruct Ho as (Hst & [] & [] & _ & (_ & Hsl & _) & [] & _ & _ & Hdl & _).
    rewrite !length_app, !length_field, length_replicate, Hst, Hdl by done. cbn [length].
    replace (length symbol + (6 - length symbol))%nat with 6%nat by lia. by destruct t.
  - destruct Ho as (Hst & [] & []). rewrite !length_app, !length_field, Hst by done. by destruct t.
  - destruct Ho as ((Hst & _) & [] & [] & _ & Htr). rewrite !length_app, !length_field, Hst, Htr by done. by destruct t.
Qed.

Lemma order_push headers o e b :
  length headers = 42%nat -> order_ok o -> handler_follows e b ->
  exists e' out, ChixTradeHandler.push 0 (order_packet headers o) e = Ok (e', out) /\
    handler_follows e' (fst (order_step o b)) /\ Forall2 carries out (snd (order_step o b)).
Proof.
  intros Hh Ho (Ha & Hr & Hb). pose proof (order_type_at o Ho) as Hty. pose proof (order_long_enough o Ho) as Hle.
  assert (Hmd : drop ChixTradeHandler._mac_ip_udp_len (pk_data (order_packet headers o)) = encode_order o)
    by (cbn [order_packet pk_data]; unfold ChixTradeHandler._mac_ip_udp_len; by rewrite <- Hh, drop_app_length).
  assert (Hlen : length_of (order_packet headers o) = (42 + length (encode_order o))%nat)
    by (unfold length_of; cbn [order_packet pk_data]; by rewrite length_app, Hh).
  pose proof (lookup_lt_Some _ _ _ Hty) as H8.
  unfold ChixTradeHandler.push. rewrite Ha. cbn [negb]. rewrite Hlen.
  rewrite (proj2 (Nat.ltb_ge _ _)) by (unfold ChixTradeHandler._mac_ip_udp_len; lia). rewrite Hmd, Hty. res_simpl.
  replace (42 + length (encode_order o) - ChixTradeHandler._mac_ip_udp_len)%nat with (length (encode_order o))
    by (unfold ChixTradeHandler._mac_ip_udp_len; lia). rewrite Hle. cbn [negb].
  destruct o as [t stamp ref side shares symbol whole decimals display|t stamp ref shares|t stamp ref shares trade_ref].
  - destruct (add_order_spec _ _ _ _ _ _ _ _ _ _ b Ho Hr) as (m' & Hm & Hr' & Hi).
    exists (ChixTradeHandler.mkChix m' true), []. split; [by destruct t; cbn [order_type Z.eqb Pos.eqb]; rewrite Hm|].
    split; [|constructor]. split_and!; [done|done|]. by apply map_Forall_insert_2.
  - destruct (cancel_order_spec _ _ _ _ _ b Ho Hr Hb) as (m' & Hm & Hr').
    exists (ChixTradeHandler.mkChix m' true), []. split; [by destruct t; cbn [order_type Z.eqb Pos.eqb]; rewrite Hm|].
    split; [|constructor]. split_and!; [done|done|]. apply less_shares_ok; [|done]. destruct Ho as (_ & _ & Hs). by eapply number_nonneg.
  - destruct (execute_order_spec _ _ _ _ _ (order_packet headers (ExecuteOrder t stamp ref shares trade_ref)) _ b Ho Hr Hb)
      as (m' & out & reused & Hm & Hr' & Hout); [unfold length_of in Hlen; rewrite Hlen; unfold sizeof_MsgTrade; lia|].
    exists (ChixTradeHandler.mkChix m' true), out. split; [by destruct t; cbn [order_type Z.eqb Pos.eqb]; rewrite Hm|].
    split; [|done]. split_and!; [done|done|]. cbn [order_step]. destruct (b !! dec_value ref); [|done].
    apply less_shares_ok; [|done]. destruct Ho as (_ & _ & Hs & _). by eapply number_nonneg.
Qed.

Lemma orders_run headers os e b :
  length headers = 42%nat -> Forall order_ok os -> handler_follows e b ->
  exists e' outs, run (ChixTradeHandler.push 0) (map (order_packet headers) os) e = Ok (e', outs) /\
    handler_follows e' (fst (order_run os b)) /\ Forall2 (Forall2 carries) outs (snd (order_run os b)).
Proof.
  intros Hh Hos. revert e b. induction Hos as [|o os Ho Hos IH]; intros e b He; cbn [map run order_run]; [by exists e, []|].
  destruct (order_push headers o e b Hh Ho He) as (e1 & out & -> & He1 & Ho1). res_simpl. cbn [fst snd].
  destruct (IH e1 _ He1) as (e2 & outs & -> & He2 & Ho2). res_simpl. cbn [fst snd]. exists e2, (out :: outs).
  split; [done|]. split; [done|]. by constructor.
Qed.

(** The trades of a run: padded symbols of the book and the time stamps of orders. *)
Definition stamp_of_order (o : order) : Z :=
  match o with
  | AddOrder _ stamp _ _ _ _ _ _ _ | CancelOrder _ stamp _ _ | ExecuteOrder _ stamp _ _ _ => dec_value stamp
  end.

Definition fair_trade (start : Z) (m : MsgTrade) : Prop :=
  start <= mt_timestamp m < 2 ^ 32 /\ 0 <= mt_price m /\ keyable (mt_symbol m).

Lemma padded_symbol s : 0 ∉ s -> (length s < ORDER_SYMBOL_LEN)%nat -> keyable (padded s).
Proof. intros. apply padded_good; [done|done|unfold ORDER_SYMBOL_LEN; lia]. Qed.

Lemma order_step_ok o b :
  order_ok o -> map_Forall (fun _ => info_ok) b -> map_Forall (fun _ => info_ok) (fst (order_step o b)).
Proof.
  intros Ho Hb. destruct o; cbn [order_step].
  - destruct (add_order_reads _ _ _ _ _ _ _ _ _ Ho) as (_ & _ & _ & _ & Hpr).
    destruct Ho as (_ & _ & Hsh & Hsh31 & (_ & Hsl & Hs0 & _) & _). pose proof (number_nonneg _ _ Hsh) as Hsh0.
    apply map_Forall_insert_2; [|done]. split_and!; cbn [ChixTradeHandler._price ChixTradeHandler._shares ChixTradeHandler._symbol]; [exact Hpr|lia|lia|].
    exists symbol. split_and!; [done|unfold ORDER_SYMBOL_LEN; lia|done].
  - apply less_shares_ok; [|done]. destruct Ho as (_ & _ & Hs). by eapply number_nonneg.
  - destruct (b !! dec_value ref); [|done]. apply less_shares_ok; [|done]. destruct Ho as (_ & _ & Hs & _). by eapply number_nonneg.
Qed.

Lemma order_run_fair start os b :
  0 <= start -> Forall order_ok os -> Forall (fun o => start <= stamp_of_order o) os -> map_Forall (fun _ => info_ok) b ->
  Forall (fair_trade start) (concat (snd (order_run os b))).
Proof.
  intros Hst Hos. revert b. induction Hos as [|o os Ho Hos IH]; intros b Hs Hb; cbn [order_run snd concat]; [constructor|].
  apply Forall_cons in Hs as [Ho' Hs]. apply Forall_app. split; [|by apply IH, order_step_ok].
  destruct o; cbn [order_step snd]; [constructor|constructor|]. destruct (b !! dec_value ref) as [i|] eqn:Ei; cbn [snd]; [|constructor].
  destruct (Hb _ _ Ei) as (Hpr & _ & s & Hs0 & Hsl & Hsym). destruct Ho as ((Hl & Hd) & _). cbn [stamp_of_order] in Ho'.
  constructor; [|constructor]. unfold fair_trade. cbn [mt_timestamp mt_symbol mt_price]. rewrite Hsym. split; [|split; [apply Hpr|by apply padded_symbol]].
  pose proof (dec_value_bound stamp Hd) as Hb8. rewrite Hl in Hb8. change (10 ^ Z.of_nat 8) with 100000000 in Hb8. lia.
Qed.

Lemma carried_trades start outs ms :
  0 <= start -> Forall2 (Forall2 carries) outs ms -> Forall (fair_trade start) (concat ms) ->
  Forall2 (trade_of start) (map snd (concat outs)) (concat ms).
Proof.
  intros Hst Hc. induction Hc as [|out m outs ms Ho Hos IH]; cbn [concat map]; [constructor|].
  intros [Hf Hfs]%Forall_app. rewrite map_app. apply Forall2_app; [|by apply IH]. clear IH Hfs Hos.
  induction Ho as [|x trade out m (_ & Hty & Hdec) Ho IH]; cbn [map]; [constructor|].
  apply Forall_cons in Hf as [(Hts & Hpr & Hg) Hf]. constructor; [|by apply IH].
  split; [done|done|zrange| |done|done]. rewrite i64_id by zrange. lia.
Qed.

(** ** MsgFilterSymbol *)

Definition word (s : bytes) : Prop := 0 ∉ s /\ (length s < ORDER_SYMBOL_LEN)%nat.

Lemma word_key s :
  word s -> ArrayWrapper.assign s (ArrayWrapper.ArrayWrapper_new ORDER_SYMBOL_LEN) = ArrayWrapper.mkArrayWrapper (padded s) /\
  keyable (padded s) /\ cstr (padded s) = s.
Proof.
  intros [Hs Hl]. split_and!; [|by apply padded_symbol|].
  - unfold ArrayWrapper.assign. cbn [ArrayWrapper._array ArrayWrapper.ArrayWrapper_new]. rewrite length_replicate.
    by rewrite (proj2 (Nat.leb_gt _ _)) by lia.
  - unfold padded. destruct (ORDER_SYMBOL_LEN - length s)%nat as [|j] eqn:E; [lia|]. by apply cstr_app.
Qed.

Lemma filter_symbols_spec (symbols : list bytes) (m : SymbolMap bool) (M : gmap bytes bool) :
  represents m M -> Forall word symbols ->
  exists m' rc, MsgFilterSymbol.insert_symbols symbols m = Ok (m', rc) /\
    (rc = 0 <-> NoDup symbols /\ forall s, s ∈ symbols -> M !! s = None) /\
    (rc = 0 -> exists M', represents m' M' /\ forall k, is_Some (M' !! k) <-> is_Some (M !! k) \/ k ∈ symbols).
Proof.
  intros Hr Hw. revert m M Hr. induction Hw as [|s symbols Hs Hw IH]; intros m M Hr; cbn [MsgFilterSymbol.insert_symbols].
  { exists m, 0. split; [done|]. split; [split; [intros _; split; [constructor|intros s Hin; by apply not_elem_of_nil in Hin]|done]|].
    intros _. exists M. split; [done|]. intros k. rewrite elem_of_nil. tauto. }
  destruct (word_key s Hs) as (-> & Hg & Hid).
  destruct (insert_spec (ArrayWrapper.mkArrayWrapper (padded s)) true m M Hr Hg) as (m1 & -> & Hr1 & _). res_simpl.
  change (key_id (ArrayWrapper.mkArrayWrapper (padded s))) with (cstr (padded s)) in *. rewrite Hid in *.
  destruct (M !! s) as [v|] eqn:Es; cbn.
  { exists m1, (-1). split; [done|]. split; [|done]. split; [done|]. intros [_ Hall]. by rewrite Hall in Es by left. }
  destruct (IH m1 _ Hr1) as (m2 & rc & -> & Hrc & HM). exists m2, rc. split; [done|]. split.
  - rewrite Hrc, NoDup_cons. split.
    + intros [Hnd Hall]. assert (Hni : s ∉ symbols) by (intros Hin; specialize (Hall s Hin); by rewrite lookup_insert_eq in Hall).
      split; [done|]. intros k [->|Hk]%elem_of_cons; [done|]. specialize (Hall k Hk).
      rewrite lookup_insert_ne in Hall; [done|]. by intros ->.
    + intros [[Hni Hnd] Hall]. split; [done|]. intros k Hk. rewrite lookup_insert_ne by (by intros ->). apply Hall. by right.
  - intros H0. destruct (HM H0) as (M' & Hr' & Hk). exists M'. split; [done|]. intros k. rewrite Hk, elem_of_cons, lookup_insert_is_Some'.
    assert (s = k <-> k = s) by (split; congruence). tauto.
Qed.

Lemma decode_MsgTrade_symbol data m : decode_MsgTrade data = Ok m -> read_at 16 ORDER_SYMBOL_LEN data = Ok (mt_symbol m).
Proof. unfold decode_MsgTrade. intros Hd. res_inv. done. Qed.

Lemma filter_push (port : Z) (p : Packet) (m : MsgTrade) (e : MsgFilterSymbol.MsgFilterSymbol) (M : gmap bytes bool) :
  MsgFilterSymbol._active e = true -> represents (MsgFilterSymbol._symbol_map e) M ->
  pk_app_type p = MSG_TRADE -> decode_MsgTrade (pk_data p) = Ok m -> keyable (mt_symbol m) ->
  MsgFilterSymbol.push port p e =
  Ok (e, match MsgFilterSymbol._filter_mode e, M !! cstr (mt_symbol m) with
         | MsgFilterSymbol.RESTRICTIVE, None | MsgFilterSymbol.ALLOWING, Some _ => [(port, p)]
         | _, _ => []
         end).
Proof.
  intros Ha Hr Hty Hd Hg. unfold MsgFilterSymbol.push. rewrite Ha, bool_decide_eq_true_2 by done. cbn [negb].
  rewrite (decode_MsgTrade_symbol _ _ Hd). res_simpl.
  pose proof (find_pair_spec (ArrayWrapper.mkArrayWrapper (mt_symbol m)) _ M Hr Hg) as Hf.
  change (key_id (ArrayWrapper.mkArrayWrapper (mt_symbol m))) with (cstr (mt_symbol m)) in Hf.
  destruct (M !! cstr (mt_symbol m)); [destruct Hf as (q & -> & _)|rewrite Hf]; res_simpl; by destruct (MsgFilterSymbol._filter_mode e).
Qed.

(** ** Orders for the examples *)

(** The texts of numbers and symbols are written as strings of character codes. *)
Definition demo_headers : bytes := replicate 42 0.
Definition demo_orders : list order :=
  [AddOrder SHORT [48; 48; 48; 48; 48; 48; 49; 48] [55] 66 [49; 48; 48] [86; 79; 68] [49; 50] [53; 48; 48; 48] 89;
   AddOrder SHORT [48; 48; 48; 48; 48; 48; 49; 49] [56] 83 [53; 48] [86; 79; 68] [49; 51] [48; 48; 48; 48] 89;
   ExecuteOrder SHORT [48; 48; 48; 48; 48; 48; 50; 48] [55] [54; 48] (replicate 9 48);
   CancelOrder LONG [48; 48; 48; 48; 48; 48; 50; 53] [55] [52; 48];
   ExecuteOrder LONG [48; 48; 48; 48; 49; 49; 48; 48] [56] [49; 48] (replicate 9 48);
   ExecuteOrder SHORT [48; 48; 48; 48; 49; 49; 48; 53] [55] [49] (replicate 9 48)].

Definition demo_prices : list MsgTrade :=
  [mkMsgTrade (25 * 2 ^ 39) 60 (padded [86; 79; 68]) 20 0; mkMsgTrade (13 * 2 ^ 40) 10 (padded [86; 79; 68]) 1100 0].

Lemma demo_orders_ok : Forall order_ok demo_orders.
Proof.
  unfold demo_orders. repeat (apply Forall_cons; split); try apply Forall_nil; try exact I;
    cbn [order_ok]; unfold is_digit; split_and!; repeat constructor; cbn;
    try discriminate; try lia; try (apply (bool_decide_eq_true_1 (_ ∉ _)); vm_compute; reflexivity).
Qed.

Module CaptureProps.

(** C24: On any sequence of well-formed Chi-X messages, short or long, from the start on, the
    handler does not fault, its table is the order book those messages make (an added
    order replaces one with its number, cancelled and executed shares are taken off, an
    order without shares left is gone), and it sends one trade for every execution of an
    order in the book, with the symbol of the order and its price, rounded down to a
    multiple of 2^-40, and nothing else.  Added orders have at most six characters of
    symbol, less than 2^31 shares and a price below 2^22, executions less than 2^31
    shares; the decimals of a long order are zeros, since the code misreads others. *)
Theorem order_book headers os (Hh : length headers = 42%nat) (Hos : Forall order_ok os) :
  exists e outs,
    run (ChixTradeHandler.push 0) (map (order_packet headers) os) ChixTradeHandler.ChixTradeHandler_new = Ok (e, outs) /\
    represents (ChixTradeHandler._orderMap e) (fst (order_run os ∅)) /\
    Forall2 (Forall2 carries) outs (snd (order_run os ∅)).
Proof.
  destruct (orders_run headers os ChixTradeHandler.ChixTradeHandler_new ∅ Hh Hos) as (e & outs & Hr & (_ & Hm & _) & Ho).
  - split_and!; [done|apply represents_new|apply map_Forall_empty].
  - by exists e, outs.
Qed.

Lemma order_book_witness :
  (exists e outs,
    run (ChixTradeHandler.push 0) (map (order_packet demo_headers) demo_orders) ChixTradeHandler.ChixTradeHandler_new
      = Ok (e, outs) /\
    represents (ChixTradeHandler._orderMap e) (fst (order_run demo_orders ∅)) /\
    Forall2 (Forall2 carries) outs (snd (order_run demo_orders ∅))) /\
  concat (snd (order_run demo_orders ∅)) = demo_prices /\ fst (order_run demo_orders ∅) !! 7 = None /\
  ChixTradeHandler._shares <$> (fst (order_run demo_orders ∅) !! 8) = Some 40.
Proof.
  split; [apply (order_book demo_headers demo_orders eq_refl demo_orders_ok)|].
  split; [vm_compute; reflexivity|]. split; vm_compute; reflexivity.
Defined.

(** The trades the handler sends are trades for TrueRange: whatever well-formed messages
    come, from the start time on, feeding what the handler sends into TrueRange does not
    fault, and it answers with the true ranges of the executions by symbol and interval. *)
Theorem executions_to_true_range headers os start len
  (Hh : length headers = 42%nat) (Hos : Forall order_ok os) (Hlen : 0 < len) (Hst : 0 <= start)
  (Hstamps : Forall (fun o => start <= stamp_of_order o) os) :
  exists e outs e' outs',
    run (ChixTradeHandler.push 0) (map (order_packet headers) os) ChixTradeHandler.ChixTradeHandler_new = Ok (e, outs) /\
    run (TrueRange.push start 0) (map snd (concat outs)) (fst (TrueRange.configure (Some len) TrueRange.TrueRange_new)) = Ok (e', outs') /\
    map messages outs' = answers (trade_event start len) range_expected (concat (snd (order_run os ∅))).
Proof.
  destruct (orders_run headers os ChixTradeHandler.ChixTradeHandler_new ∅ Hh Hos) as (e & outs & Hr & _ & Ho).
  { split_and!; [done|apply represents_new|apply map_Forall_empty]. }
  pose proof (order_run_fair start os ∅ Hst Hos Hstamps (map_Forall_empty _)) as Hf.
  pose proof (carried_trades start outs _ Hst Ho Hf) as Ht.
  destruct (run_answers (TrueRange.push start 0) (trade_of start) (trade_event start len) range_expected
              (range_element len) (range_push start len Hlen) _ _
              (fst (TrueRange.configure (Some len) TrueRange.TrueRange_new)) Ht) as (e' & outs' & Hr' & _ & Ho').
  - split_and!; [done|done|done|]. by apply table_follows_new.
  - by exists e, outs, e', outs'.
Qed.

Lemma executions_to_true_range_witness :
  (exists e outs e' outs',
    run (ChixTradeHandler.push 0) (map (order_packet demo_headers) demo_orders) ChixTradeHandler.ChixTradeHandler_new
      = Ok (e, outs) /\
    run (TrueRange.push 0 0) (map snd (concat outs)) (fst (TrueRange.configure (Some 1000) TrueRange.TrueRange_new))
      = Ok (e', outs') /\
    map messages outs' = answers (trade_event 0 1000) range_expected (concat (snd (order_run demo_orders ∅)))) /\
  answers (trade_event 0 1000) range_expected (concat (snd (order_run demo_orders ∅))) =
    [[]; [(0, Ok (mkMsgIndicator (padded [86; 79; 68]) (2 ^ 39) 1100))]].
Proof.
  split; [|vm_compute; reflexivity].
  apply (executions_to_true_range demo_headers demo_orders 0 1000 eq_refl demo_orders_ok); [lia|lia|].
  unfold demo_orders. repeat constructor; vm_compute; discriminate.
Defined.

(** The long form of an order is misread: its seven decimals are divided by ten thousand
    as the four of the short form are, so that 1.5 becomes 501 and 1.9 a negative price,
    and shares that do not fit an [int] are cut off to 32 bits. *)
Theorem long_form_misread :
  let book whole decimals shares :=
    let* m := ChixTradeHandler.parse_add_order
      (encode_order (AddOrder LONG (replicate 8 48) [55] 66 shares [86; 79; 68] whole decimals 89)) LONG
      (HashMap.HashMap_new ChixTradeHandler.OrderInfo_new) in
    let* i := HashMap.findp 7 m in
    Ok ((fun i => (ChixTradeHandler._price i, ChixTradeHandler._shares i)) <$> i) in
  book [49] [53; 48; 48; 48; 48; 48; 48] [49; 48] = Ok (Some (501 * 2 ^ 40, 10)) /\
  (exists price, book [49] [57; 48; 48; 48; 48; 48; 48] [49; 48] = Ok (Some (price, 10)) /\ price < 0) /\
  book [49] [48; 48; 48; 48; 48; 48; 48] [51; 48; 48; 48; 48; 48; 48; 48; 48; 48] = Ok (Some (2 ^ 40, 3000000000 - 2 ^ 32)).
Proof.
  cbn zeta. split; [vm_compute; reflexivity|]. split; [|vm_compute; reflexivity].
  eexists. split; [vm_compute; reflexivity|]. done.
Qed.

(** MsgFilterSymbol accepts a list of words exactly when they are distinct.  With a
    list to allow, it passes the trades of the symbols on the list and no others, on
    the port they came from; with a list to restrict, or none, it passes the others. *)
Theorem filter_by_symbol allow restrict (Hw : Forall word (allow ++ restrict)) :
  let words := match allow with [] => restrict | _ => allow end in
  exists e rc, MsgFilterSymbol.configure None allow restrict MsgFilterSymbol.MsgFilterSymbol_new = Ok (e, rc) /\
    (rc = 0 <-> NoDup words) /\
    (rc = 0 -> forall port p m, pk_app_type p = MSG_TRADE -> decode_MsgTrade (pk_data p) = Ok m -> keyable (mt_symbol m) ->
       let listed := bool_decide (cstr (mt_symbol m) ∈ words) in
       MsgFilterSymbol.push port p e =
       Ok (e, if (match allow with [] => negb listed | _ => listed end) then [(port, p)] else [])).
Proof.
  intros words. assert (Hws : Forall word words) by (apply Forall_app in Hw as [? ?]; unfold words; by destruct allow).
  destruct (filter_symbols_spec words (MsgFilterSymbol._symbol_map MsgFilterSymbol.MsgFilterSymbol_new) ∅) as (m' & rc & Hins & Hrc & HM);
    [apply represents_new|done|].
  set (mode := match allow with [] => MsgFilterSymbol.RESTRICTIVE | _ => MsgFilterSymbol.ALLOWING end).
  exists (MsgFilterSymbol.mkFilter m' mode true), rc. split; [|split].
  - unfold MsgFilterSymbol.configure, mode, words in *. destruct allow, restrict; rewrite Hins; done.
  - rewrite Hrc. split; [by intros []|]. intros Hnd. split; [done|]. intros. apply lookup_empty.
  - intros H0 port p m Hty Hd Hg. destruct (HM H0) as (M & Hr & Hk).
    rewrite (filter_push port p m _ M) by done. cbn [MsgFilterSymbol._filter_mode]. do 2 f_equal.
    assert (Hin : cstr (mt_symbol m) ∈ words <-> is_Some (M !! cstr (mt_symbol m))).
    { rewrite Hk, lookup_empty, is_Some_alt. tauto. }
    rewrite (bool_decide_ext _ _ Hin). destruct (M !! cstr (mt_symbol m)); unfold mode; by destruct allow.
Qed.

Lemma filter_by_symbol_witness :
  let allow := [[86; 79; 68]; [66; 80]] in
  exists e, MsgFilterSymbol.configure None allow [] MsgFilterSymbol.MsgFilterSymbol_new = Ok (e, 0) /\
    MsgFilterSymbol.push 0 (trade_packet (mkMsgTrade 5 1 (padded [66; 80]) 0 0)) e =
      Ok (e, [(0, trade_packet (mkMsgTrade 5 1 (padded [66; 80]) 0 0))]) /\
    MsgFilterSymbol.push 0 (trade_packet (mkMsgTrade 5 1 (padded [66; 81]) 0 0)) e = Ok (e, []).
Proof.
  cbn zeta. destruct (filter_by_symbol [[86; 79; 68]; [66; 80]] []) as (e & rc & Hc & Hrc & Hp).
  - repeat constructor; try (apply (bool_decide_eq_true_1 (_ ∉ _)); vm_compute; reflexivity); cbn; unfold ORDER_SYMBOL_LEN; lia.
  - assert (H0 : rc = 0) by (apply Hrc; apply (bool_decide_eq_true_1 (NoDup _)); vm_compute; reflexivity).
    exists e. split; [by rewrite Hc, H0|]. split.
    + apply (Hp H0 0 _ (mkMsgTrade 5 1 (padded [66; 80]) 0 0)); [reflexivity|vm_compute; reflexivity|].
      apply (bool_decide_eq_true_1 (keyable _)). vm_compute. reflexivity.
    + apply (Hp H0 0 _ (mkMsgTrade 5 1 (padded [66; 81]) 0 0)); [reflexivity|vm_compute; reflexivity|].
      apply (bool_decide_eq_true_1 (keyable _)). vm_compute. reflexivity.
Defined.

End CaptureProps.
