(* ===== verification/Sources.v ===== *)
(** * Sources: from trade messages to value messages, and the sink

    Models the Click elements at both ends of an indicator graph:
    trade_processor.{hh,cc} (parses trades, keeps the interval's high, low, open
    and close per symbol, sends INIT, UPDATE and -- from its timer -- ADD
    messages), source_split.cc (fans a source message out into value messages),
    reuse_tee.cc, timestamper.cc and stat_printer.cc, with
    synapseelement.hh's [get_or_create].

    An element's [push] returns its new state and the packets pushed, each with
    its output port, in order.  Time stamp counters read by [gcc_rdtsc] are
    arguments.  A hash map that is iterated is an association list in iteration
    order; one that is only looked up is a [gmap].  [Processor] has the tables
    themselves. *)

From stdpp Require Import gmap.
From S2P Require Import Prelude FixedPt Messages Parsing AdLine.
Import FPt.

(** ** Interval statistics *)

Record TimeStats := mkTimeStats {
  ts_high : Z;
  ts_low : Z;
  ts_open : Z;
  ts_close : Z;
  ts_size : Z;
  _first_time_updated : bool
}.
Definition TimeStats_new : TimeStats := mkTimeStats 0 0 0 0 0 false.

Definition rollover (t : TimeStats) : TimeStats :=
  mkTimeStats (ts_high t) (ts_low t) (ts_close t) (ts_close t) 0 false.

(** Click's [update_stats]: the flag says whether anything was updated. *)
Definition update_stats (t : TimeStats) (msg : MsgTrade) : TimeStats * bool :=
  let price := mt_price msg in
  let size := i64 (ts_size t + mt_size msg) in
  if negb (_first_time_updated t) then (mkTimeStats price price (ts_open t) price size true, true)
  else
    let rc := false in
    let '(high, rc) := if ts_high t <? price then (price, true) else (ts_high t, rc) in
    let '(low, rc) := if price <? ts_low t then (price, true) else (ts_low t, rc) in
    let '(close, rc) := if negb (price =? ts_close t) then (price, true) else (ts_close t, rc) in
    (mkTimeStats high low (ts_open t) close size true, rc).

Module TradeProcessor.

(** [first_symbol] is a static variable of [push], which all trade processors of the
    program share: the field is the value that this element finds in it, and
    [push_shared] threads the variable from one element to the next. *)
Record TradeProcessor := mkTP {
  _active : bool;
  _subscriptions_map : gmap (list Z) Z;
  _time_stats_map : list (list Z * TimeStats);
  _total_msgs : Z;
  first_symbol : bool;
  timer_scheduled : bool
}.

Definition TradeProcessor_new : TradeProcessor := mkTP true ∅ [] 0 true false.

(** [ArrayWrapper::operator= (const char* )] *)
Definition symbol_key (s : bytes) : bytes :=
  if (ORDER_SYMBOL_LEN <=? length s)%nat then replicate ORDER_SYMBOL_LEN 0
  else s ++ replicate (ORDER_SYMBOL_LEN - length s) 0.

(** The words of [SYMBOLS_ROUTING] in pairs; [HashMap::insert] says false for a
    symbol that is there already. *)
Fixpoint subscribe (words : list bytes) (m : gmap (list Z) Z) : res (gmap (list Z) Z * Z) :=
  match words with
  | [] => Ok (m, 0)
  | [_] => Fault AssertFailed
  | symbol :: port :: words =>
      let* port_int := strtol (port ++ [0]) in
      let key := symbol_key symbol in
      let fresh := bool_decide (m !! key = None) in
      let m := <[key := i32 port_int]> m in
      if negb fresh then Ok (m, -1) else subscribe words m
  end.

Definition configure (words : list bytes) (tp : TradeProcessor) : res (TradeProcessor * Z) :=
  let* r := subscribe words (_subscriptions_map tp) in
  Ok (mkTP (_active tp) r.1 (_time_stats_map tp) (_total_msgs tp) (first_symbol tp)
        (timer_scheduled tp), r.2).

Fixpoint find_stats (symbol : bytes) (m : list (list Z * TimeStats)) : option TimeStats :=
  match m with
  | [] => None
  | kv :: m => if decide (kv.1 = symbol) then Some kv.2 else find_stats symbol m
  end.

Fixpoint store_stats (symbol : bytes) (t : TimeStats) (m : list (list Z * TimeStats))
  : list (list Z * TimeStats) :=
  match m with
  | [] => [(symbol, t)]
  | kv :: m => if decide (kv.1 = symbol) then (symbol, t) :: m else kv :: store_stats symbol t m
  end.

(** [SynapseElement::get_or_create]: the entry and whether it was created. *)
Definition get_or_create (symbol : bytes) (m : list (list Z * TimeStats)) : TimeStats * bool :=
  match find_stats symbol m with
  | Some t => (t, false)
  | None => (TimeStats_new, true)
  end.

Definition send_update_msg (stats : TimeStats) (timestamp : Z) (out_port : Z) (packet : Packet)
    (is_init : bool) : res (list (Z * Packet)) :=
  if (length_of packet <? sizeof_MsgSource)%nat then Ok []
  else
    let msg_source := mkMsgSource (ts_close stats) (ts_high stats) (ts_low stats) (ts_open stats) timestamp 0 in
    let* data := write_front (encode_MsgSource msg_source) (pk_data packet) in
    Ok [(out_port, mkPacket (if is_init then MSG_INIT_SOURCE else MSG_UPDATE_SOURCE) data)].

(** A fresh packet has one byte more than the message; it is not initialised,
    hence [junk]. *)
Definition send_add_msg (junk now : Z) (stats : TimeStats) (out_port : Z) : res (list (Z * Packet)) :=
  let msg_source :=
    mkMsgSource (ts_close stats) (ts_high stats) (ts_low stats) (ts_open stats) now (ts_size stats) in
  let fresh := replicate (sizeof_MsgSource + 1) junk in
  let* data := write_front (encode_MsgSource msg_source) fresh in
  Ok [(out_port, mkPacket MSG_ADD_SOURCE data)].

Definition push (port : Z) (p : Packet) (tp : TradeProcessor)
  : res (TradeProcessor * list (Z * Packet)) :=
  if negb (_active tp) then Ok (tp, [(port, p)])
  else
    let tp := mkTP (_active tp) (_subscriptions_map tp) (_time_stats_map tp) (u64 (_total_msgs tp + 1))
                (first_symbol tp) (timer_scheduled tp) in
    let* parsed := populate_msg_trade_click MsgTrade_new p in
    match parsed with
    | None => Ok (tp, [])
    | Some msg_trade =>
        match _subscriptions_map tp !! mt_symbol msg_trade with
        | None => Ok (tp, [])
        | Some out_port =>
            let scheduled := if first_symbol tp then true else timer_scheduled tp in
            let '(time_stats, added) := get_or_create (mt_symbol msg_trade) (_time_stats_map tp) in
            let '(time_stats, updated) := update_stats time_stats msg_trade in
            let tp := mkTP (_active tp) (_subscriptions_map tp)
                        (store_stats (mt_symbol msg_trade) time_stats (_time_stats_map tp))
                        (_total_msgs tp) false scheduled in
            if negb updated then Ok (tp, [])
            else
              let* out := send_update_msg time_stats (mt_src_timestamp msg_trade) out_port p added in
              Ok (tp, out)
        end
    end.

Definition push_shared (first : bool) (port : Z) (p : Packet) (tp : TradeProcessor)
  : res (bool * TradeProcessor * list (Z * Packet)) :=
  let* r := push port p (mkTP (_active tp) (_subscriptions_map tp) (_time_stats_map tp) (_total_msgs tp) first
                           (timer_scheduled tp)) in
  Ok (first_symbol r.1, r.1, r.2).

(** The loop of [run_timer]; [now i] is the counter read for entry [i]. *)
Fixpoint run_timer_loop (junk : Z) (now : nat -> Z) (i : nat) (subs : gmap (list Z) Z)
    (m : list (list Z * TimeStats)) : res (list (list Z * TimeStats) * list (Z * Packet)) :=
  match m with
  | [] => Ok ([], [])
  | kv :: m =>
      match subs !! kv.1 with
      | None =>
          let* r := run_timer_loop junk now (S i) subs m in
          Ok (kv :: r.1, r.2)
      | Some out_port =>
          let* out := send_add_msg junk (now i) kv.2 out_port in
          let* r := run_timer_loop junk now (S i) subs m in
          Ok ((kv.1, rollover kv.2) :: r.1, out ++ r.2)
      end
  end.

Definition run_timer (junk : Z) (now : nat -> Z) (tp : TradeProcessor)
  : res (TradeProcessor * list (Z * Packet)) :=
  let* r := run_timer_loop junk now 0 (_subscriptions_map tp) (_time_stats_map tp) in
  Ok (mkTP (_active tp) (_subscriptions_map tp) r.1 (_total_msgs tp) (first_symbol tp) true, r.2).

End TradeProcessor.

Module SourceSplit.

Record SourceSplit := mkSplit {
  _close_port : Z;
  _high_port : Z;
  _low_port : Z;
  _open_port : Z;
  _volume_port : Z
}.
Definition SourceSplit_new : SourceSplit := mkSplit (-1) (-1) (-1) (-1) (-1).

(** Ports not mentioned in the configuration keep their value. *)
Definition configure (close high low open volume : option Z) (s : SourceSplit) : SourceSplit * Z :=
  (mkSplit (default (_close_port s) close) (default (_high_port s) high) (default (_low_port s) low)
     (default (_open_port s) open) (default (_volume_port s) volume), 0).

Definition new_type (msg_type : PacketAppType) : PacketAppType :=
  match msg_type with
  | MSG_ADD_SOURCE => MSG_ADD
  | MSG_UPDATE_SOURCE => MSG_UPDATE
  | MSG_INIT_SOURCE => MSG_INIT
  | _ => MSG_UPDATE
  end.

Definition sendMsg (pad : bytes) (packet : Packet) (out_port value timestamp : Z)
    (msg_type : PacketAppType) : res (list (Z * Packet)) :=
  if (length_of packet <? sizeof_MsgValue)%nat then Ok []
  else
    let* data := write_front (encode_MsgValue pad (mkMsgValue (fromC value) timestamp)) (pk_data packet) in
    Ok [(out_port, mkPacket (new_type msg_type) data)].

(** [if (port > -1) sendMsg (clone of p, port, ...)] *)
Definition send_if (pad : bytes) (p : Packet) (port value timestamp : Z) (t : PacketAppType)
  : res (list (Z * Packet)) :=
  if -1 <? port then sendMsg pad p port value timestamp t else Ok [].

Definition push (pad : bytes) (p : Packet) (s : SourceSplit) : res (list (Z * Packet)) :=
  if negb (bool_decide (pk_app_type p = MSG_ADD_SOURCE)) &&
     negb (bool_decide (pk_app_type p = MSG_UPDATE_SOURCE)) &&
     negb (bool_decide (pk_app_type p = MSG_INIT_SOURCE)) then Ok []
  else
    let* copy := decode_MsgSource (pk_data p) in
    let t := pk_app_type p in
    let ts := ms_timestamp copy in
    let* o := send_if pad p (_open_port s) (ms_open copy) ts t in
    let* h := send_if pad p (_high_port s) (ms_high copy) ts t in
    let* c := send_if pad p (_close_port s) (ms_close copy) ts t in
    let* l := send_if pad p (_low_port s) (ms_low copy) ts t in
    let* v := send_if pad p (_volume_port s) (i64 (fixedptc.fixedpt_fromint (ms_volume copy))) ts t in
    Ok (o ++ h ++ c ++ l ++ v).

End SourceSplit.

Module ReuseTee.

Definition COPY_MSG_MAX_LEN : nat := 256.

(** The first [length p] bytes of the copy buffer are the packet's; [n] is the
    number of outputs. *)
Definition push (n : nat) (p : Packet) : res (list (Z * Packet)) :=
  assert* (length_of p <? COPY_MSG_MAX_LEN)%nat;
  let copy_buffer := pk_data p ++ replicate (COPY_MSG_MAX_LEN - length_of p) 0 in
  let copy := mkPacket (pk_app_type p) (take (length_of p) copy_buffer) in
  Ok (map (fun i => (Z.of_nat i, copy)) (seq 0 n)).

End ReuseTee.

Module Timestamper.

Record Timestamper := mkTimestamper {
  _active : bool;
  _print_avg : bool;
  _replace_tstamp : bool;
  _total_cycles : Z;
  _running_count : Z
}.
Definition Timestamper_new : Timestamper := mkTimestamper true false true 0 0.

Definition configure (print_avg replace_tstamp : option bool) (t : Timestamper) : Timestamper * Z :=
  (mkTimestamper (_active t) (default (_print_avg t) print_avg)
     (default (_replace_tstamp t) replace_tstamp) (_total_cycles t) (_running_count t), 0).

Definition print_avg_latency (now tstamp : Z) (t : Timestamper) : Timestamper :=
  mkTimestamper (_active t) (_print_avg t) (_replace_tstamp t)
    (u64 (_total_cycles t + u64 (now - tstamp))) (u64 (_running_count t + 1)).

(** [msg->_timestamp = now], eight bytes at offset [off]. *)
Definition write_u64_at (off : nat) (v : Z) (data : bytes) : res bytes :=
  if (off + 8 <=? length data)%nat
  then Ok (take off data ++ le_encode 8 v ++ drop (off + 8) data)
  else Fault OutOfBounds.

(** [off] is the offset of the timestamp in the message; [now1] and [now2] the
    counter values read. *)
Definition stamp (now1 now2 : Z) (off : nat) (p : Packet) (t : Timestamper)
  : res (Timestamper * Packet) :=
  let* t :=
    if _print_avg t then
      let* tstamp := read_u64 off (pk_data p) in Ok (print_avg_latency now1 tstamp t)
    else Ok t in
  let* data := if _replace_tstamp t then write_u64_at off now2 (pk_data p) else Ok (pk_data p) in
  Ok (t, mkPacket (pk_app_type p) data).

Definition simple_action (now1 now2 : Z) (p : Packet) (t : Timestamper) : res (Timestamper * Packet) :=
  if negb (_active t) then Ok (t, p)
  else
    match pk_app_type p with
    | MSG_UPDATE_SOURCE => stamp now1 now2 32 p t
    | MSG_UPDATE => stamp now1 now2 16 p t
    | _ => Ok (t, p)
    end.

End Timestamper.

Module StatPrinter.
Import RunningStat.

Definition MAX_ALL_VALUES : nat := 5000.

Record StatPair := mkStatPair { _start_tstamp : Z; _end_tstamp : Z; sp_value : FixedPt }.

(** [g_svec] is the global vector of arrays, one per printer; [_mt_arr_idx] is
    this printer's. *)
Record StatPrinter := mkStatPrinter {
  _running_stat : Stats;
  _all_values_counter : nat;
  _active : bool;
  _combined_mode : bool;
  _longest_indic : bool;
  _mt_arr_idx : nat
}.

Definition StatPrinter_new (g_svec : list (list StatPair)) : StatPrinter * list (list StatPair) :=
  let g_svec := g_svec ++ [replicate MAX_ALL_VALUES (mkStatPair 0 0 FixedPt_default)] in
  (mkStatPrinter Stats_new 0 true false false (length g_svec - 1), g_svec).

Definition configure (combined_mode longest : option bool) (s : StatPrinter) : StatPrinter * Z :=
  (mkStatPrinter (_running_stat s) (_all_values_counter s) (_active s)
     (default (_combined_mode s) combined_mode) (default (_longest_indic s) longest) (_mt_arr_idx s), 0).

Definition update_running_stat_new (cycles_now : Z) (p : Packet) (s : StatPrinter)
    (g_svec : list (list StatPair)) : res (StatPrinter * list (list StatPair)) :=
  let* msg := decode_MsgValue (pk_data p) in
  let cycles_start := mv_timestamp msg in
  let* the_arr := of_option AssertFailed (g_svec !! _mt_arr_idx s) in
  let i := _all_values_counter s in
  if _combined_mode s && (1 <? length g_svec)%nat then
    if (i <? MAX_ALL_VALUES - 1)%nat then
      let arr := <[i := mkStatPair cycles_start cycles_now (mv_value msg)]> the_arr in
      Ok (mkStatPrinter (_running_stat s) (S i) (_active s) (_combined_mode s) (_longest_indic s)
            (_mt_arr_idx s), <[_mt_arr_idx s := arr]> g_svec)
    else Ok (s, g_svec)
  else
    let stat := update_counter (u64 (cycles_now - cycles_start)) (_running_stat s) in
    if (i <? MAX_ALL_VALUES - 1)%nat then
      let* old := of_option OutOfBounds (the_arr !! i) in
      let arr := <[i := mkStatPair (_start_tstamp old) (_end_tstamp old) (mv_value msg)]> the_arr in
      Ok (mkStatPrinter stat (S i) (_active s) (_combined_mode s) (_longest_indic s) (_mt_arr_idx s),
          <[_mt_arr_idx s := arr]> g_svec)
    else
      Ok (mkStatPrinter stat i (_active s) (_combined_mode s) (_longest_indic s) (_mt_arr_idx s), g_svec).

(** The packet is passed on unchanged. *)
Definition simple_action (cycles_now : Z) (p : Packet) (s : StatPrinter) (g_svec : list (list StatPair))
  : res (StatPrinter * list (list StatPair) * Packet) :=
  if negb (_active s) then Ok (s, g_svec, p)
  else
    match pk_app_type p with
    | MSG_UPDATE =>
        let* r := update_running_stat_new cycles_now p s g_svec in
        Ok (r.1, r.2, p)
    | _ => Ok (s, g_svec, p)
    end.

(** Entry [i] of every array. *)
Fixpoint entries (i : nat) (g_svec : list (list StatPair)) : res (list StatPair) :=
  match g_svec with
  | [] => Ok []
  | arr :: g_svec =>
      let* e := of_option OutOfBounds (arr !! i) in
      let* es := entries i g_svec in
      Ok (e :: es)
  end.

(** The latency of message [i]: of the slowest indicator, or the average. *)
Definition combined_latency (longest : bool) (es : list StatPair) (start_cycle : Z) : Z :=
  if longest then
    let max_cycles :=
      fold_left (fun m e => if m <? _end_tstamp e then _end_tstamp e else m) es 0 in
    u64 (max_cycles - start_cycle)
  else
    let total_cycles :=
      fold_left (fun t e => u64 (t + u64 (_end_tstamp e - start_cycle))) es 0 in
    total_cycles / Z.of_nat (length es).

(** The loop of the destructor over [n] messages from [i]. *)
Fixpoint combine_loop (n i : nat) (longest : bool) (g_svec : list (list StatPair)) (stat : Stats)
  : res Stats :=
  match n with
  | O => Ok stat
  | S n =>
      let* es := entries i g_svec in
      let* first := of_option AssertFailed (es !! 0%nat) in
      combine_loop n (S i) longest g_svec
        (update_counter (combined_latency longest es (_start_tstamp first)) stat)
  end.

(** What the destructor reports: the running statistics, if it reports any. *)
Definition StatPrinter_report (s : StatPrinter) (g_svec : list (list StatPair)) : res (option Stats) :=
  if negb (_combined_mode s) then Ok (Some (_running_stat s))
  else if (_mt_arr_idx s =? 0)%nat then
    let* stat := combine_loop (_all_values_counter s) 0 (_longest_indic s) g_svec (_running_stat s) in
    Ok (Some stat)
  else Ok None.

End StatPrinter.
