(* ===== verification/SourceProps.v ===== *)
(** * SourceProps: properties of the sources and the sink *)

From stdpp Require Import gmap.
From S2P Require Import Prelude FixedPt Messages Parsing AdLine Sources.
Import FPt.

(** ** Interval statistics *)

Definition trade_run (t : TimeStats) (msgs : list MsgTrade) : TimeStats :=
  fold_left (fun t m => (update_stats t m).1) msgs t.

Definition prices (msgs : list MsgTrade) : list Z := map mt_price msgs.

Lemma update_stats_first t m :
  _first_time_updated t = false ->
  update_stats t m =
    (mkTimeStats (mt_price m) (mt_price m) (ts_open t) (mt_price m) (i64 (ts_size t + mt_size m)) true, true).
Proof. intros Hf. unfold update_stats. by rewrite Hf. Qed.

Lemma update_stats_next t m :
  _first_time_updated t = true ->
  (update_stats t m).1 =
    mkTimeStats (Z.max (ts_high t) (mt_price m)) (Z.min (ts_low t) (mt_price m)) (ts_open t)
      (mt_price m) (i64 (ts_size t + mt_size m)) true.
Proof.
  intros Hf. unfold update_stats. rewrite Hf. cbn [negb].
  destruct (Z.ltb_spec (ts_high t) (mt_price m)), (Z.ltb_spec (mt_price m) (ts_low t)),
    (Z.eqb_spec (mt_price m) (ts_close t)); cbn [negb fst]; f_equal; lia.
Qed.

Lemma last_cons (x d : Z) l : List.last (x :: l) d = List.last l x.
Proof.
  revert x d. induction l as [|y l IH]; intros x d; [done|].
  change (List.last (x :: y :: l) d) with (List.last (y :: l) d). by rewrite !IH.
Qed.

(** After the first trade of an interval. *)
Lemma trade_run_next t msgs :
  _first_time_updated t = true -> (forall z, ts_size t = z -> i64 z = z) ->
  trade_run t msgs =
    mkTimeStats (fold_left Z.max (prices msgs) (ts_high t)) (fold_left Z.min (prices msgs) (ts_low t))
      (ts_open t) (List.last (prices msgs) (ts_close t))
      (i64 (ts_size t + foldr Z.add 0 (map mt_size msgs))) true.
Proof.
  revert t. induction msgs as [|m msgs IH]; intros t Hf Hz; cbn [trade_run fold_left prices map foldr].
  - rewrite Z.add_0_r, (Hz _ eq_refl). destruct t; simpl in *; subst; done.
  - change (fold_left _ msgs ?x) with (trade_run x msgs). rewrite update_stats_next by done.
    rewrite IH; [|done|]; cbn [ts_high ts_low ts_open ts_close ts_size].
    + rewrite last_cons. f_equal.
      unfold i64. rewrite swrap_add_l by lia. f_equal. lia.
    + intros z <-. apply swrap_idem. lia.
Qed.

(** ** [TradeProcessor] as a state machine *)
Section tp.
Import TradeProcessor.
Implicit Types (m : list (list Z * TimeStats)) (s : list Z).

Lemma find_store s s' t m :
  find_stats s' (store_stats s t m) = if decide (s = s') then Some t else find_stats s' m.
Proof.
  induction m as [|[k u] m IH]; cbn [store_stats find_stats fst snd].
  - by destruct (decide (s = s')).
  - destruct (decide (k = s)) as [->|Hk]; cbn [find_stats fst snd]; [|rewrite IH];
      repeat case_decide; congruence.
Qed.

Lemma keys_store s t m :
  (store_stats s t m).*1 = if decide (s ∈ m.*1) then m.*1 else m.*1 ++ [s].
Proof.
  induction m as [|[k u] m IH]; cbn [store_stats fst snd]; [done|].
  rewrite fmap_cons. destruct (decide (k = s)) as [->|Hk]; rewrite fmap_cons; cbn [fst].
  - rewrite decide_True by left. done.
  - rewrite IH. destruct (decide (s ∈ m.*1)) as [Hin|Hin].
    + rewrite decide_True by (by right). done.
    + rewrite decide_False; [done|]. rewrite elem_of_cons. intros [->|]; done.
Qed.

Lemma find_None s m : find_stats s m = None <-> s ∉ m.*1.
Proof.
  induction m as [|[k u] m IH]; cbn [find_stats fst snd]; [split; [intros _; apply not_elem_of_nil|done]|].
  rewrite fmap_cons, not_elem_of_cons. cbn [fst]. destruct (decide (k = s)) as [->|Hk]; [split; [done|by intros [? _]]|].
  rewrite IH. split; [done|by intros [_ ?]].
Qed.

(** The symbols with statistics are distinct and subscribed. *)
Definition tp_inv (tp : TradeProcessor) : Prop :=
  NoDup (_time_stats_map tp).*1 /\
  Forall (fun s => is_Some (_subscriptions_map tp !! s)) (_time_stats_map tp).*1.

(** What can happen to a configured processor. *)
Inductive tp_step : TradeProcessor -> list (Z * Packet) -> TradeProcessor -> Prop :=
| tp_push port p tp tp' out : push port p tp = Ok (tp', out) -> tp_step tp out tp'
| tp_timer junk now tp tp' out : run_timer junk now tp = Ok (tp', out) -> tp_step tp out tp'.

Inductive tp_reach : TradeProcessor -> Prop :=
| tp_start words tp : configure words TradeProcessor_new = Ok (tp, 0) -> tp_reach tp
| tp_next tp out tp' : tp_reach tp -> tp_step tp out tp' -> tp_reach tp'.

Lemma run_timer_loop_spec junk now i subs m :
  Forall (fun s => is_Some (subs !! s)) m.*1 ->
  run_timer_loop junk now i subs m =
    Ok (map (fun kv => (kv.1, rollover kv.2)) m,
        imap (fun j kv => (default 0 (subs !! kv.1),
          mkPacket MSG_ADD_SOURCE
            (encode_MsgSource (mkMsgSource (ts_close kv.2) (ts_high kv.2) (ts_low kv.2) (ts_open kv.2)
                                 (now (i + j)%nat) (ts_size kv.2)) ++ [junk]))) m).
Proof.
  revert i. induction m as [|[s t] m IH]; intros i Hall; [done|].
  rewrite fmap_cons in Hall. apply Forall_cons in Hall as [[port Hp] Hall]. cbn [fst] in Hp.
  cbn [run_timer_loop fst snd]. rewrite Hp. unfold send_add_msg.
  rewrite write_front_Ok by (rewrite length_encode_MsgSource, length_replicate; unfold sizeof_MsgSource; lia).
  rewrite length_encode_MsgSource. res_simpl. rewrite IH by done. res_simpl. cbn [fst snd map imap app].
  rewrite Hp, Nat.add_0_r. do 3 f_equal. apply imap_ext. intros j kv _. simpl. by rewrite Nat.add_succ_r.
Qed.

Lemma tp_inv_reach tp : tp_reach tp -> tp_inv tp.
Proof.
  induction 1 as [words tp Hc|tp out tp' Hr [Hnd Hall] Hs].
  - unfold configure in Hc. destruct (subscribe _ _) as [r|]; simpl in Hc; [|done].
    injection Hc as <- _. split; constructor.
  - destruct Hs as [port p tp tp' out E|junk now tp tp' out E].
    + unfold push in E. destruct (_active tp); cbn [negb] in E; [|by simplify_eq].
      destruct (populate_msg_trade_click _ p) as [[msg|]|]; cbn [mbind res_bind] in E; [|by simplify_eq|done].
      cbn [_subscriptions_map _time_stats_map _active _total_msgs first_symbol timer_scheduled] in E.
      destruct (_subscriptions_map tp !! mt_symbol msg) as [port'|] eqn:Hsub; [|by simplify_eq].
      destruct (get_or_create _ _) as [t0 added]. destruct (update_stats t0 msg) as [t1 upd].
      assert (Hinv : NoDup (store_stats (mt_symbol msg) t1 (_time_stats_map tp)).*1 /\
        Forall (fun s => is_Some (_subscriptions_map tp !! s))
          (store_stats (mt_symbol msg) t1 (_time_stats_map tp)).*1).
      { rewrite keys_store. destruct (decide _) as [|Hn]; [done|]. split.
        - apply NoDup_app. split; [done|]. split; [|apply NoDup_singleton].
          intros x Hx ->%list_elem_of_singleton. done.
        - apply Forall_app. split; [done|]. apply Forall_singleton. by eexists. }
      destruct upd; cbn [negb] in E; [|by simplify_eq].
      destruct (send_update_msg _ _ _ _ _); cbn [mbind res_bind] in E; by simplify_eq.
    + unfold run_timer in E. rewrite run_timer_loop_spec in E by done. cbn [mbind res_bind] in E.
      injection E as <- _. cbn [fst snd]. unfold tp_inv. cbn [_time_stats_map _subscriptions_map].
      assert (Hk : (map (fun kv : list Z * TimeStats => (kv.1, rollover kv.2)) (_time_stats_map tp)).*1 =
                   (_time_stats_map tp).*1).
      { rewrite <- list_fmap_compose. by apply list_fmap_ext. }
      by rewrite Hk.
Qed.

(** Only one trade processor of a program gets its timer: once the shared variable is
    false, no trade starts the timer of any other, whose intervals then never end. *)
Theorem one_timer_for_all port p tp first tp' out :
  push_shared false port p tp = Ok (first, tp', out) -> first = false /\ timer_scheduled tp' = timer_scheduled tp.
Proof.
  unfold push_shared, push. intros E. cbn [_active _subscriptions_map _time_stats_map _total_msgs first_symbol timer_scheduled] in E.
  repeat (case_match; simplify_eq/=; try done); res_inv; repeat (case_match; simplify_eq/=; try done); res_inv; done.
Qed.
End tp.


(** ** Overwriting the timestamp of a message *)
Section stamped.
Context (data : bytes) (off : nat) (v : Z) (Hoff : (off + 8 <= length data)%nat).

Lemma read_at_stamp o n :
  (o + n <= off \/ off + 8 <= o)%nat ->
  read_at o n (take off data ++ le_encode 8 v ++ drop (off + 8) data) = read_at o n data.
Proof.
  intros Ho. unfold read_at. rewrite !length_app, length_take, length_le_encode, length_drop.
  replace (off `min` length data + (8 + (length data - (off + 8))))%nat with (length data) by lia.
  destruct (Nat.leb_spec (o + n) (length data)); [|done]. f_equal. apply list_eq. intros i.
  destruct (decide (i < n)%nat) as [Hi|Hi]; [|rewrite !lookup_take_ge by lia; done].
  rewrite !lookup_take_lt, !lookup_drop by done. destruct Ho as [Ho|Ho].
  - rewrite lookup_app_l by (rewrite length_take; lia). by rewrite lookup_take_lt by lia.
  - rewrite lookup_app_r by (rewrite length_take; lia). rewrite lookup_app_r by (rewrite length_take, length_le_encode; lia).
    rewrite lookup_drop, length_take, length_le_encode. f_equal. lia.
Qed.

Lemma read_i64_stamp o :
  (o + 8 <= off \/ off + 8 <= o)%nat ->
  read_i64 o (take off data ++ le_encode 8 v ++ drop (off + 8) data) = read_i64 o data.
Proof. intros Ho. unfold read_i64. by rewrite read_at_stamp. Qed.

Lemma read_bool_stamp o :
  (o + 1 <= off \/ off + 8 <= o)%nat ->
  read_bool o (take off data ++ le_encode 8 v ++ drop (off + 8) data) = read_bool o data.
Proof. intros Ho. unfold read_bool. by rewrite read_at_stamp. Qed.

Lemma read_u64_stamp :
  in_u 64 v -> read_u64 off (take off data ++ le_encode 8 v ++ drop (off + 8) data) = Ok v.
Proof. intros Hv. apply read_u64_app; [|done]. rewrite length_take. lia. Qed.
End stamped.

(** Stamping a packet at an offset inside it. *)
Lemma stamp_at now1 now2 off ty data t :
  Timestamper._replace_tstamp t = true -> Timestamper._print_avg t = false -> (off + 8 <= length data)%nat ->
  Timestamper.stamp now1 now2 off (mkPacket ty data) t =
    Ok (t, mkPacket ty (take off data ++ le_encode 8 now2 ++ drop (off + 8) data)).
Proof.
  intros Hrep Havg Hoff. unfold Timestamper.stamp, Timestamper.write_u64_at. rewrite Havg. res_simpl. rewrite Hrep.
  cbn [pk_data pk_app_type]. by rewrite (proj2 (Nat.leb_le _ _)).
Qed.

Lemma decode_MsgSource_length data m : decode_MsgSource data = Ok m -> (sizeof_MsgSource <= length data)%nat.
Proof.
  unfold decode_MsgSource, read_i64, read_u64, read_at. intros Hm. res_inv.
  repeat match goal with H : (_ <=? _)%nat = true |- _ => apply Nat.leb_le in H end. unfold sizeof_MsgSource. lia.
Qed.

Lemma stamp_source now1 now2 ty data t m :
  Timestamper._replace_tstamp t = true -> Timestamper._print_avg t = false -> in_u 64 now2 ->
  decode_MsgSource data = Ok m ->
  exists data', Timestamper.stamp now1 now2 32 (mkPacket ty data) t = Ok (t, mkPacket ty data') /\
    length data' = length data /\
    decode_MsgSource data' = Ok (mkMsgSource (ms_close m) (ms_high m) (ms_low m) (ms_open m) now2 (ms_volume m)).
Proof.
  intros Hrep Havg Hnow Hm. pose proof (decode_MsgSource_length _ _ Hm) as Hoff. unfold sizeof_MsgSource in Hoff.
  eexists. split; [apply stamp_at; [done|done|lia]|]. rewrite !length_app, length_take, length_le_encode, length_drop.
  split; [lia|].
  unfold decode_MsgSource in *. res_inv. rewrite !read_i64_stamp by (done || lia). rewrite read_u64_stamp by (done || lia).
  repeat match goal with H : read_i64 _ data = Ok _ |- _ => rewrite H end. done.
Qed.

(** ** [StatPrinter] over a sequence of packets *)
Section stat_printer.
Import StatPrinter.

Fixpoint print_run (ps : list (Z * Packet)) (s : StatPrinter) (g : list (list StatPair))
  : res (StatPrinter * list (list StatPair)) :=
  match ps with
  | [] => Ok (s, g)
  | np :: ps =>
      let* r := simple_action np.1 np.2 s g in
      print_run ps r.1.1 r.1.2
  end.

(** An UPDATE packet read at [np.1] carrying the value [m.1] sent at [m.2]. *)
Definition update_packet (np : Z * Packet) (m : FixedPt * Z) : Prop :=
  pk_app_type np.2 = MSG_UPDATE /\ decode_MsgValue (pk_data np.2) = Ok (mkMsgValue m.1 m.2).

Definition latency (np : Z * Packet) (m : FixedPt * Z) : Z := u64 (np.1 - m.2).

Lemma print_step np m s arr g :
  update_packet np m -> _active s = true -> _combined_mode s = false ->
  g !! _mt_arr_idx s = Some arr -> length arr = MAX_ALL_VALUES -> (_all_values_counter s <= 4999)%nat ->
  exists s' arr', simple_action np.1 np.2 s g = Ok (s', <[_mt_arr_idx s := arr']> g, np.2) /\
    _running_stat s' = RunningStat.update_counter (latency np m) (_running_stat s) /\
    _active s' = true /\ _combined_mode s' = false /\ _mt_arr_idx s' = _mt_arr_idx s /\
    length arr' = MAX_ALL_VALUES /\
    _all_values_counter s' = Nat.min 4999 (S (_all_values_counter s)) /\
    map sp_value (take (_all_values_counter s') arr') =
      take 4999 (map sp_value (take (_all_values_counter s) arr) ++ [m.1]).
Proof.
  intros [Ht Hd] Ha Hc Hg Hl Hi. unfold simple_action, update_running_stat_new.
  rewrite Ha, Ht. cbn [negb]. rewrite Hd. res_simpl. rewrite Hg. res_simpl. rewrite Hc. cbn [andb mv_timestamp mv_value].
  assert (Hml : length (map sp_value (take (_all_values_counter s) arr)) = _all_values_counter s).
  { rewrite length_map, length_take, Hl. unfold MAX_ALL_VALUES. lia. }
  destruct (Nat.ltb_spec (_all_values_counter s) (MAX_ALL_VALUES - 1)) as [Hlt|Hge].
  - destruct (lookup_lt_is_Some_2 arr (_all_values_counter s)) as [old Hold]; [lia|]. rewrite Hold. res_simpl.
    eexists _, _. split; [reflexivity|].
    cbn [_running_stat _active _combined_mode _mt_arr_idx _all_values_counter fst snd].
    unfold MAX_ALL_VALUES in *. rewrite length_insert, Hl, take_insert_S by lia. rewrite map_app.
    split_and!; try done; [lia|]. symmetry. apply firstn_all2. rewrite length_app, Hml. simpl. lia.
  - exists (mkStatPrinter (RunningStat.update_counter (latency np m) (_running_stat s)) (_all_values_counter s)
              (_active s) (_combined_mode s) (_longest_indic s) (_mt_arr_idx s)), arr.
    unfold MAX_ALL_VALUES in *. rewrite list_insert_id by done. split; [by rewrite Ha, Hc|].
    cbn [_running_stat _active _combined_mode _mt_arr_idx _all_values_counter].
    split_and!; try done; [lia|]. rewrite take_app_le by lia. symmetry. apply firstn_all2. lia.
Qed.

Lemma print_run_spec ps ms s arr g :
  Forall2 update_packet ps ms -> _active s = true -> _combined_mode s = false ->
  g !! _mt_arr_idx s = Some arr -> length arr = MAX_ALL_VALUES -> (_all_values_counter s <= 4999)%nat ->
  exists s' g' arr', print_run ps s g = Ok (s', g') /\ g' !! _mt_arr_idx s = Some arr' /\
    _running_stat s' = RunningStat.run (zip_with latency ps ms) (_running_stat s) /\
    _combined_mode s' = false /\
    map sp_value (take (_all_values_counter s') arr') =
      take 4999 (map sp_value (take (_all_values_counter s) arr) ++ map fst ms).
Proof.
  intros Hps. revert s arr g. induction Hps as [|np m ps ms Hnp Hps IH]; intros s arr g Ha Hc Hg Hl Hi.
  - exists s, g, arr. cbn [map]. rewrite app_nil_r. split_and!; try done. symmetry. apply firstn_all2.
    rewrite length_map, length_take. lia.
  - destruct (print_step np m s arr g Hnp Ha Hc Hg Hl Hi)
      as (s1 & arr1 & E & Hst & Ha1 & Hc1 & Hi1 & Hl1 & Hn1 & Hv1).
    assert (Hg1 : <[_mt_arr_idx s := arr1]> g !! _mt_arr_idx s1 = Some arr1).
    { rewrite Hi1. apply list_lookup_insert_eq. by eapply lookup_lt_Some. }
    destruct (IH s1 arr1 _ Ha1 Hc1 Hg1 Hl1 ltac:(lia)) as (s' & g' & arr' & E' & Hg' & Hst' & Hc' & Hv').
    exists s', g', arr'. cbn [print_run]. rewrite E. res_simpl. cbn [fst snd].
    split; [done|]. rewrite Hi1 in Hg'. split; [done|]. split.
    { by rewrite Hst', Hst. }
    split; [done|]. rewrite Hv', Hv1. cbn [map].
    replace (_ ++ m.1 :: map fst ms) with ((map sp_value (take (_all_values_counter s) arr) ++ [m.1]) ++ map fst ms)
      by (by rewrite <- app_assoc).
    set (X := _ ++ [m.1]). destruct (decide (length X <= 4999)%nat) as [Hx|Hx].
    + by rewrite (firstn_all2 X).
    + rewrite take_app_le by (rewrite length_take; lia). rewrite (take_app_le X) by lia.
      by rewrite take_take.
Qed.
End stat_printer.

(** What [SourceSplit] sends for a field with a configured port. *)
Definition split_packet (pad : bytes) (p : Packet) (value ts : Z) : Packet :=
  mkPacket (SourceSplit.new_type (pk_app_type p))
    (encode_MsgValue pad (mkMsgValue (fromC value) ts) ++ drop sizeof_MsgValue (pk_data p)).

Lemma send_if_spec pad p port value ts :
  length pad = 7%nat -> (sizeof_MsgValue <= length_of p)%nat ->
  SourceSplit.send_if pad p port value ts (pk_app_type p) =
    Ok (if -1 <? port then [(port, split_packet pad p value ts)] else []).
Proof.
  intros Hp Hl. unfold SourceSplit.send_if, SourceSplit.sendMsg. destruct (-1 <? port); [|done].
  rewrite (proj2 (Nat.ltb_ge _ _)) by done.
  rewrite write_front_Ok by (rewrite length_encode_MsgValue; done).
  by rewrite length_encode_MsgValue.
Qed.

(** *** A source message on its way into a graph *)

Definition is_source (t : PacketAppType) : Prop :=
  t = MSG_INIT_SOURCE \/ t = MSG_UPDATE_SOURCE \/ t = MSG_ADD_SOURCE.

(** The time stamp after the timestamper: updates get the counter's value. *)
Definition stamped (now : Z) (p : Packet) (src : MsgSource) : Z :=
  if decide (pk_app_type p = MSG_UPDATE_SOURCE) then now else ms_timestamp src.

Lemma decode_source_range data src :
  decode_MsgSource data = Ok src -> in_s 64 (ms_close src) /\ in_s 64 (ms_high src) /\ in_s 64 (ms_low src).
Proof. unfold decode_MsgSource, read_i64. intros Hd. res_inv. split_and!; apply i64_range. Qed.

Lemma stamp_stage now p src :
  is_source (pk_app_type p) -> decode_MsgSource (pk_data p) = Ok src -> in_u 64 (stamped now p src) ->
  exists p1, Timestamper.simple_action now now p Timestamper.Timestamper_new = Ok (Timestamper.Timestamper_new, p1) /\
    pk_app_type p1 = pk_app_type p /\ length_of p1 = length_of p /\
    decode_MsgSource (pk_data p1) =
      Ok (mkMsgSource (ms_close src) (ms_high src) (ms_low src) (ms_open src) (stamped now p src) (ms_volume src)).
Proof.
  intros Ht Hd Hu. unfold Timestamper.simple_action. cbn [Timestamper.Timestamper_new Timestamper._active negb].
  destruct p as [ty data]. unfold stamped in *. cbn [pk_app_type pk_data] in *. destruct Ht as [-> | [-> | ->]].
  - exists (mkPacket MSG_INIT_SOURCE data). by destruct src.
  - rewrite decide_True in * by done.
    destruct (stamp_source now now MSG_UPDATE_SOURCE data Timestamper.Timestamper_new src) as (d & E & Hl & Hd'); try done.
    by exists (mkPacket MSG_UPDATE_SOURCE d).
  - exists (mkPacket MSG_ADD_SOURCE data). by destruct src.
Qed.

Module SourceProps.

(** Within an interval the statistics are the maximum, the minimum and the
    last of the trade prices and the sum of the sizes (modulo 2^64); the open
    price is untouched.  The first trade of the interval restarts them. *)
Theorem interval_statistics t m msgs (Hf : _first_time_updated t = false) :
  let t' := trade_run t (m :: msgs) in
  ts_high t' = fold_left Z.max (prices msgs) (mt_price m) /\
  ts_low t' = fold_left Z.min (prices msgs) (mt_price m) /\
  ts_close t' = List.last (prices msgs) (mt_price m) /\
  ts_open t' = ts_open t /\
  ts_size t' = i64 (ts_size t + foldr Z.add 0 (map mt_size (m :: msgs))) /\
  rollover t' = mkTimeStats (ts_high t') (ts_low t') (ts_close t') (ts_close t') 0 false.
Proof.
  intros t'. subst t'. cbn [trade_run fold_left]. change (fold_left _ msgs ?x) with (trade_run x msgs).
  rewrite update_stats_first, trade_run_next by (done || (intros z <-; apply swrap_idem; lia)).
  cbn [ts_high ts_low ts_open ts_close ts_size map foldr fst]. split_and!; try done.
  unfold i64. rewrite swrap_add_l by lia. f_equal. lia.
Qed.

Lemma interval_statistics_witness :
  let tr p s := mkMsgTrade p s [] 0 0 in
  ts_high (trade_run TimeStats_new [tr 5 1; tr 9 2; tr 3 4]) = 9 /\
  ts_low (trade_run TimeStats_new [tr 5 1; tr 9 2; tr 3 4]) = 3.
Proof.
  destruct (interval_statistics TimeStats_new (mkMsgTrade 5 1 [] 0 0)
              [mkMsgTrade 9 2 [] 0 0; mkMsgTrade 3 4 [] 0 0] eq_refl) as (-> & -> & _).
  split; reflexivity.
Defined.

(** A trade is reported exactly when it is the first of its interval or
    changes the high, the low or the close. *)
Theorem update_reported t m :
  (update_stats t m).2 = true <->
  _first_time_updated t = false \/
  (ts_high (update_stats t m).1, ts_low (update_stats t m).1, ts_close (update_stats t m).1) <>
  (ts_high t, ts_low t, ts_close t).
Proof.
  destruct (_first_time_updated t) eqn:Hf.
  - rewrite update_stats_next by done. cbn [ts_high ts_low ts_close]. unfold update_stats. rewrite Hf. cbn [negb].
    destruct (Z.ltb_spec (ts_high t) (mt_price m)), (Z.ltb_spec (mt_price m) (ts_low t)),
      (Z.eqb_spec (mt_price m) (ts_close t)); cbn [negb snd]; split; intros H'; try done;
      try (right; intros [= ? ? ?]; lia);
      destruct H' as [|H']; try done; exfalso; apply H'; f_equal; [f_equal|]; lia.
  - rewrite update_stats_first by done. split; [by left|done].
Qed.

Section tp_props.
Import TradeProcessor.

(** One trade of a subscribed symbol: its statistics and nobody else's are
    updated, the interval timer is started by the first such trade, and the
    packet goes out on the symbol's port, overwritten with the new statistics
    and typed INIT for the symbol's very first trade and UPDATE later -- or is
    dropped when nothing changed. *)
Theorem trade_processor_push tp port p msg out_port
  (Hact : _active tp = true) (Hparse : populate_msg_trade_click MsgTrade_new p = Ok (Some msg))
  (Hsub : _subscriptions_map tp !! mt_symbol msg = Some out_port)
  (Hlen : (sizeof_MsgSource <= length_of p)%nat) :
  let old := find_stats (mt_symbol msg) (_time_stats_map tp) in
  let new := update_stats (default TimeStats_new old) msg in
  exists tp', push port p tp =
      Ok (tp', if new.2 then
                 [(out_port,
                   mkPacket (if decide (old = None) then MSG_INIT_SOURCE else MSG_UPDATE_SOURCE)
                     (encode_MsgSource (mkMsgSource (ts_close new.1) (ts_high new.1) (ts_low new.1)
                                          (ts_open new.1) (mt_src_timestamp msg) 0) ++
                      drop sizeof_MsgSource (pk_data p)))]
               else []) /\
    find_stats (mt_symbol msg) (_time_stats_map tp') = Some new.1 /\
    (forall s, s <> mt_symbol msg -> find_stats s (_time_stats_map tp') = find_stats s (_time_stats_map tp)) /\
    timer_scheduled tp' = (first_symbol tp || timer_scheduled tp) /\ first_symbol tp' = false.
Proof.
  intros old new. unfold push. rewrite Hact. cbn [negb]. rewrite Hparse. res_simpl.
  cbn [_subscriptions_map _time_stats_map _active _total_msgs first_symbol timer_scheduled]. rewrite Hsub.
  unfold get_or_create. fold old.
  assert (Ho : (match old with Some t => (t, false) | None => (TimeStats_new, true) end) =
               (default TimeStats_new old, bool_decide (old = None))).
  { by destruct old. }
  rewrite Ho. fold new. destruct new as [t upd] eqn:En. cbn [fst snd].
  assert (Hsend : send_update_msg t (mt_src_timestamp msg) out_port p (bool_decide (old = None)) =
    Ok [(out_port, mkPacket (if decide (old = None) then MSG_INIT_SOURCE else MSG_UPDATE_SOURCE)
          (encode_MsgSource (mkMsgSource (ts_close t) (ts_high t) (ts_low t) (ts_open t) (mt_src_timestamp msg) 0) ++
           drop sizeof_MsgSource (pk_data p)))]).
  { unfold send_update_msg. rewrite (proj2 (Nat.ltb_ge _ _)) by done.
    rewrite write_front_Ok by (rewrite length_encode_MsgSource; done).
    rewrite length_encode_MsgSource. res_simpl. by rewrite bool_decide_decide; destruct (decide _). }
  rewrite Hsend. destruct upd; cbn [negb]; res_simpl; eexists; (split; [reflexivity|]);
    cbn [_time_stats_map timer_scheduled first_symbol]; (split_and!; [|intros s Hs| |done]);
    rewrite ?find_store; repeat case_decide; try congruence; by destruct (first_symbol tp).
Qed.

Definition demo_packet (price : string) : Packet :=
  mkPacket NO_APP_MSG (replicate 42 0 ++ [9; 0; 0; 0; 0; 0; 0; 0] ++
    bytes_of_string "T|0|BPl|" ++ bytes_of_string price ++ bytes_of_string "|100").

Lemma trade_processor_push_witness :
  exists tp tp', configure [bytes_of_string "BPl"; bytes_of_string "3"] TradeProcessor_new = Ok (tp, 0) /\
    push 0 (demo_packet "50.25") tp = Ok (tp',
      [(3, mkPacket MSG_INIT_SOURCE
             (encode_MsgSource (mkMsgSource (201 * 2 ^ 38) (201 * 2 ^ 38) (201 * 2 ^ 38) 0 9 0) ++
              drop 48 (pk_data (demo_packet "50.25"))))]) /\ timer_scheduled tp' = true.
Proof.
  eexists. destruct (trade_processor_push
    (mkTP true (<[symbol_key (bytes_of_string "BPl") := 3]> ∅) [] 0 true false) 0 (demo_packet "50.25")
    (mkMsgTrade (201 * 2 ^ 38) 100 (symbol_key (bytes_of_string "BPl")) 0 9) 3)
    as (tp' & E & _ & _ & Ht & _).
  - reflexivity.
  - vm_compute. reflexivity.
  - vm_compute. reflexivity.
  - vm_compute. lia.
  - exists tp'. split; [vm_compute; reflexivity|]. split; [exact E|exact Ht].
Defined.

(** In every reachable state the timer emits exactly one ADD message per
    symbol seen so far, on the symbol's port and with the statistics of the
    interval that ends, and starts a new interval for each; it never faults. *)
Theorem trade_processor_timer tp junk now (Hr : tp_reach tp) :
  exists tp', run_timer junk now tp =
    Ok (tp', imap (fun i kv => (default 0 (_subscriptions_map tp !! kv.1),
               mkPacket MSG_ADD_SOURCE
                 (encode_MsgSource (mkMsgSource (ts_close kv.2) (ts_high kv.2) (ts_low kv.2) (ts_open kv.2)
                                      (now i) (ts_size kv.2)) ++ [junk]))) (_time_stats_map tp)) /\
    NoDup (_time_stats_map tp).*1 /\
    Forall (fun s => is_Some (_subscriptions_map tp !! s)) (_time_stats_map tp).*1 /\
    _time_stats_map tp' = map (fun kv => (kv.1, rollover kv.2)) (_time_stats_map tp).
Proof.
  destruct (tp_inv_reach tp Hr) as [Hnd Hall]. unfold run_timer.
  rewrite run_timer_loop_spec by done. res_simpl. eexists. by split_and!.
Qed.

Lemma trade_processor_timer_witness :
  exists tp tp' outs, tp_reach tp /\ run_timer 0 (fun i => 1000 + Z.of_nat i) tp = Ok (tp', outs) /\
    length outs = 1%nat.
Proof.
  set (tp0 := mkTP true (<[symbol_key (bytes_of_string "BPl") := 3]> ∅) [] 0 true false).
  destruct (push 0 (demo_packet "50.25") tp0) as [[tp1 out]|] eqn:E; [|vm_compute in E; discriminate E].
  assert (Hr : tp_reach tp1).
  { apply (tp_next tp0 out); [|by eapply tp_push].
    apply (tp_start [bytes_of_string "BPl"; bytes_of_string "3"]). vm_compute. reflexivity. }
  destruct (trade_processor_timer tp1 0 (fun i => 1000 + Z.of_nat i) Hr) as (tp' & Et & _).
  eexists tp1, tp', _. split; [exact Hr|]. split; [exact Et|].
  vm_compute in E. injection E as <- _. vm_compute. reflexivity.
Defined.

End tp_props.

(** [SourceSplit] sends, in the order open, high, close, low, volume, one
    packet per configured port; each decodes to its own field of the source
    message with the message's timestamp, and INIT, UPDATE and ADD sources become
    INIT, UPDATE and ADD values. *)
Theorem source_split_push pad p s m
  (Hpad : length pad = 7%nat) (Hwf : wf_MsgSource m)
  (Ht : pk_app_type p = MSG_ADD_SOURCE \/ pk_app_type p = MSG_UPDATE_SOURCE \/ pk_app_type p = MSG_INIT_SOURCE)
  (Hdec : decode_MsgSource (pk_data p) = Ok m) (Hlen : (sizeof_MsgSource <= length_of p)%nat)
  (Hvol : in_s 24 (ms_volume m)) :
  let fields := [(SourceSplit._open_port s, ms_open m); (SourceSplit._high_port s, ms_high m);
                 (SourceSplit._close_port s, ms_close m); (SourceSplit._low_port s, ms_low m);
                 (SourceSplit._volume_port s, ms_volume m * 2 ^ 40)] in
  SourceSplit.push pad p s =
    Ok (map (fun f => (f.1, split_packet pad p f.2 (ms_timestamp m)))
          (filter (fun f => -1 < f.1) fields)) /\
  Forall (fun f => decode_MsgValue (pk_data (split_packet pad p f.2 (ms_timestamp m))) =
                   Ok (mkMsgValue (fromC f.2) (ms_timestamp m))) fields.
Proof.
  intros fields. assert (Hlen' : (sizeof_MsgValue <= length_of p)%nat) by (unfold sizeof_MsgSource, sizeof_MsgValue in *; lia).
  destruct Hwf as (Hc & Hh & Hl & Ho & Hts & Hv). split.
  - unfold SourceSplit.push. replace (negb _ && _ && _) with false
      by (destruct Ht as [-> | [-> | ->]]; by rewrite !bool_decide_decide).
    rewrite Hdec. res_simpl. rewrite !send_if_spec by done. res_simpl. rewrite fromint_val by done.
    f_equal. subst fields. rewrite !filter_cons. cbn [fst].
    repeat match goal with
    | |- context [decide (-1 < ?x)] =>
        destruct (decide (-1 < x)) as [?H|?H];
        [rewrite (proj2 (Z.ltb_lt (-1) x)) by done|rewrite (proj2 (Z.ltb_ge (-1) x)) by lia]
    end; done.
  - assert (Hf : Forall (fun f : Z * Z => in_s 64 f.2) fields).
    { subst fields. rewrite !Forall_cons. split_and!; try done. cbn [snd]. zrange. }
    eapply Forall_impl; [exact Hf|]. intros [port v] Hin. cbn [split_packet pk_data snd].
    apply decode_encode_MsgValue; [done|by split].
Qed.

Lemma source_split_push_witness :
  let m := mkMsgSource 10 20 5 7 99 3 in
  let p := mkPacket MSG_ADD_SOURCE (encode_MsgSource m ++ [0]) in
  let s := SourceSplit.mkSplit 2 0 1 (-1) (-1) in
  SourceSplit.push (replicate 7 0) p s =
    Ok [(0, split_packet (replicate 7 0) p 20 99); (2, split_packet (replicate 7 0) p 10 99);
        (1, split_packet (replicate 7 0) p 5 99)].
Proof.
  destruct (source_split_push (replicate 7 0)
    (mkPacket MSG_ADD_SOURCE (encode_MsgSource (mkMsgSource 10 20 5 7 99 3) ++ [0]))
    (SourceSplit.mkSplit 2 0 1 (-1) (-1)) (mkMsgSource 10 20 5 7 99 3)) as [E _].
  - reflexivity.
  - unfold wf_MsgSource. simpl. split_and!; zrange.
  - by left.
  - vm_compute. reflexivity.
  - vm_compute. lia.
  - cbn [ms_volume]. zrange.
  - exact E.
Defined.

(** [Timestamper] replaces the timestamp and nothing else: with replacement on,
    an UPDATE value message and an UPDATE source message keep every other field
    and their length; packets of any other type pass unchanged. *)
Theorem timestamper_replaces now1 now2 p t
  (Hact : Timestamper._active t = true) (Hrep : Timestamper._replace_tstamp t = true)
  (Havg : Timestamper._print_avg t = false) (Hnow : in_u 64 now2) :
  match pk_app_type p with
  | MSG_UPDATE => forall m, decode_MsgValue (pk_data p) = Ok m ->
      exists p', Timestamper.simple_action now1 now2 p t = Ok (t, p') /\ length_of p' = length_of p /\
                 decode_MsgValue (pk_data p') = Ok (mkMsgValue (mv_value m) now2)
  | MSG_UPDATE_SOURCE => forall m, decode_MsgSource (pk_data p) = Ok m ->
      exists p', Timestamper.simple_action now1 now2 p t = Ok (t, p') /\ length_of p' = length_of p /\
                 decode_MsgSource (pk_data p') =
                   Ok (mkMsgSource (ms_close m) (ms_high m) (ms_low m) (ms_open m) now2 (ms_volume m))
  | _ => Timestamper.simple_action now1 now2 p t = Ok (t, p)
  end.
Proof.
  unfold Timestamper.simple_action. rewrite Hact. cbn [negb]. destruct p as [ty data].
  destruct ty; cbn [pk_app_type pk_data]; try done; intros m Hm.
  - destruct (stamp_source now1 now2 MSG_UPDATE_SOURCE data t m Hrep Havg Hnow Hm) as (data' & E & Hl & Hd).
    by exists (mkPacket MSG_UPDATE_SOURCE data').
  - assert (Hoff : (16 + 8 <= length data)%nat).
    { unfold decode_MsgValue in Hm. res_inv. unfold read_u64, read_at in *. res_inv.
      repeat match goal with H : (_ <=? _)%nat = true |- _ => apply Nat.leb_le in H end. lia. }
    rewrite stamp_at by done. eexists. split; [done|]. unfold length_of. cbn [pk_data].
    rewrite !length_app, length_take, length_le_encode, length_drop. split; [lia|].
    unfold decode_MsgValue in *. res_inv. rewrite read_i64_stamp by (done || lia).
    rewrite read_bool_stamp by (done || lia). rewrite read_u64_stamp by done.
    repeat match goal with H : read_i64 _ data = Ok _ |- _ => rewrite H end.
    repeat match goal with H : read_bool _ data = Ok _ |- _ => rewrite H end. done.
Qed.

Lemma timestamper_replaces_witness :
  exists p', Timestamper.simple_action 0 777
    (mkPacket MSG_UPDATE (encode_MsgValue (replicate 7 0) (mkMsgValue (fromInt 5) 3)))
    Timestamper.Timestamper_new = Ok (Timestamper.Timestamper_new, p') /\
    length_of p' = 24%nat /\ decode_MsgValue (pk_data p') = Ok (mkMsgValue (fromInt 5) 777).
Proof.
  pose proof (timestamper_replaces 0 777
    (mkPacket MSG_UPDATE (encode_MsgValue (replicate 7 0) (mkMsgValue (fromInt 5) 3)))
    Timestamper.Timestamper_new eq_refl eq_refl eq_refl ltac:(zrange)) as H.
  exact (H (mkMsgValue (fromInt 5) 3) eq_refl).
Defined.

(** [ReuseTee] delivers an identical copy of the packet to each of its
    outputs, in port order; packets of 256 bytes or more trip its assertion. *)
Theorem reuse_tee_copies n p :
  ReuseTee.push n p =
    if (length_of p <? 256)%nat then Ok (map (fun i => (Z.of_nat i, p)) (seq 0 n)) else Fault AssertFailed.
Proof.
  unfold ReuseTee.push, ReuseTee.COPY_MSG_MAX_LEN. destruct (length_of p <? 256)%nat; [|done].
  f_equal. apply map_ext. intros i. f_equal. destruct p as [t d]. unfold length_of. cbn [pk_data pk_app_type].
  by rewrite take_app_length.
Qed.

(** A printer that is alone reports what it saw: after any sequence of UPDATE
    packets its array starts with their values in order (the first 4999), and
    the statistics it reports at the end are the running statistics of the
    latencies. *)
Theorem stat_printer_records ps ms (Hps : Forall2 update_packet ps ms) :
  let '(s0, g0) := StatPrinter.StatPrinter_new [] in
  exists s g arr, print_run ps s0 g0 = Ok (s, g) /\ g !! 0%nat = Some arr /\
    map StatPrinter.sp_value (take (StatPrinter._all_values_counter s) arr) = take 4999 (map fst ms) /\
    StatPrinter.StatPrinter_report s g =
      Ok (Some (RunningStat.run (zip_with latency ps ms) RunningStat.Stats_new)).
Proof.
  unfold StatPrinter.StatPrinter_new. cbn [app length].
  destruct (print_run_spec ps ms (StatPrinter.mkStatPrinter RunningStat.Stats_new 0 true false false 0)
    (replicate StatPrinter.MAX_ALL_VALUES (StatPrinter.mkStatPair 0 0 FixedPt_default))
    [replicate StatPrinter.MAX_ALL_VALUES (StatPrinter.mkStatPair 0 0 FixedPt_default)] Hps)
    as (s & g & arr & E & Hg & Hst & Hc & Hv); try done.
  - apply Nat.le_0_l.
  - exists s, g, arr. split; [exact E|]. split; [done|]. split; [done|].
    unfold StatPrinter.StatPrinter_report. by rewrite Hc, Hst.
Qed.

Lemma stat_printer_records_witness :
  let p v ts := mkPacket MSG_UPDATE (encode_MsgValue (replicate 7 0) (mkMsgValue (fromInt v) ts)) in
  let '(s0, g0) := StatPrinter.StatPrinter_new [] in
  exists s g arr, print_run [(15, p 4 10); (32, p 6 20)] s0 g0 = Ok (s, g) /\ g !! 0%nat = Some arr /\
    map StatPrinter.sp_value (take (StatPrinter._all_values_counter s) arr) =
      take 4999 (map fst [(fromInt 4, 10); (fromInt 6, 20)]) /\
    StatPrinter.StatPrinter_report s g =
      Ok (Some (RunningStat.run
        (zip_with latency [(15, p 4 10); (32, p 6 20)] [(fromInt 4, 10); (fromInt 6, 20)])
        RunningStat.Stats_new)).
Proof.
  refine (stat_printer_records
    [(15, mkPacket MSG_UPDATE (encode_MsgValue (replicate 7 0) (mkMsgValue (fromInt 4) 10)));
     (32, mkPacket MSG_UPDATE (encode_MsgValue (replicate 7 0) (mkMsgValue (fromInt 6) 20)))]
    [(fromInt 4, 10); (fromInt 6, 20)] _).
  repeat constructor; vm_compute; reflexivity.
Defined.

End SourceProps.
