(* ===== verification/Processor.v ===== *)
(** * Trade processor on its hash tables

    Models trade_processor.{hh,cc} with the tables it has, two
    [HashMap<SymbolArrayWrapper, ...>] keyed by the ten bytes of a symbol, and the
    iterator of the timer's loop.  [Sources] has the same element with a finite map
    and a list in their place; here that one is the specification.  The order in
    which the timer visits the symbols is the one of the buckets, so that the two
    agree up to the order of the list.

    The keys are symbols padded with zeros: the parser and [operator=] make no
    others, and on those the table's comparison by [strcmp] and its hash code of the
    first four bytes fit together. *)

From stdpp Require Import gmap.
From S2P Require Import Prelude FixedPt Messages Hashing Parsing Sources SourceProps FirstGen.
Import HashMap (HashMap, HashMap_new, PairPtr, findp, pair_value, set_pair_value).

(** ** The element *)
Module HashedProcessor.

Record TradeProcessor := mkTP {
  _active : bool;
  _subscriptions_map : SymbolMap Z;
  _time_stats_map : SymbolMap TimeStats;
  _total_msgs : Z;
  first_symbol : bool;
  timer_scheduled : bool
}.

Definition TradeProcessor_new : TradeProcessor :=
  mkTP true (HashMap_new 0) (HashMap_new TimeStats_new) 0 true false.

Fixpoint subscribe (words : list bytes) (m : SymbolMap Z) : res (SymbolMap Z * Z) :=
  match words with
  | [] => Ok (m, 0)
  | [_] => Fault AssertFailed
  | symbol :: port :: words =>
      let array_wrapper := ArrayWrapper.assign symbol (ArrayWrapper.ArrayWrapper_new ORDER_SYMBOL_LEN) in
      let* port_int := strtol (port ++ [0]) in
      let* r := HashMap.insert array_wrapper (i32 port_int) m in
      let '(m, inserted) := r in
      if negb inserted then Ok (m, -1) else subscribe words m
  end.

Definition configure (words : list bytes) (tp : TradeProcessor) : res (TradeProcessor * Z) :=
  let* r := subscribe words (_subscriptions_map tp) in
  Ok (mkTP (_active tp) (fst r) (_time_stats_map tp) (_total_msgs tp) (first_symbol tp) (timer_scheduled tp), snd r).

(** The write handler of [active]. *)
Definition set_active (b : bool) (tp : TradeProcessor) : TradeProcessor :=
  mkTP b (_subscriptions_map tp) (_time_stats_map tp) (_total_msgs tp) (first_symbol tp) (timer_scheduled tp).

Definition push (port : Z) (p : Packet) (tp : TradeProcessor) : res (TradeProcessor * list (Z * Packet)) :=
  if negb (_active tp) then Ok (tp, [(port, p)])
  else
    let tp := mkTP (_active tp) (_subscriptions_map tp) (_time_stats_map tp) (u64 (_total_msgs tp + 1))
                (first_symbol tp) (timer_scheduled tp) in
    let* parsed := populate_msg_trade_click MsgTrade_new p in
    match parsed with
    | None => Ok (tp, [])
    | Some msg_trade =>
        let* out_port := findp (ArrayWrapper.mkArrayWrapper (mt_symbol msg_trade)) (_subscriptions_map tp) in
        match out_port with
        | None => Ok (tp, [])
        | Some out_port =>
            let tp := mkTP (_active tp) (_subscriptions_map tp) (_time_stats_map tp) (_total_msgs tp) false
                        (if first_symbol tp then true else timer_scheduled tp) in
            let* r := get_or_create TimeStats_new (mt_symbol msg_trade) (_time_stats_map tp) in
            let '(m, time_stats, time_stats_added) := r in
            match time_stats with
            | None => Ok (mkTP (_active tp) (_subscriptions_map tp) m (_total_msgs tp) (first_symbol tp) (timer_scheduled tp), [])
            | Some q =>
                let* t := pair_value q m in
                let '(t, updated) := update_stats t msg_trade in
                let* m := set_pair_value q t m in
                let tp := mkTP (_active tp) (_subscriptions_map tp) m (_total_msgs tp) (first_symbol tp) (timer_scheduled tp) in
                if negb updated then Ok (tp, [])
                else
                  let* out := TradeProcessor.send_update_msg t (mt_src_timestamp msg_trade) out_port p time_stats_added in
                  Ok (tp, out)
            end
        end
    end.

(** The body of the timer's loop, for the [i]th entry. *)
Definition timer_body (junk : Z) (now : nat -> Z) (subs : SymbolMap Z) (i : nat)
    (e : ArrayWrapper.ArrayWrapper * TimeStats) : res (TimeStats * list (Z * Packet)) :=
  let* out_port := findp (fst e) subs in
  match out_port with
  | None => Ok (snd e, [])
  | Some out_port =>
      let* out := TradeProcessor.send_add_msg junk (now i) (snd e) out_port in
      Ok (rollover (snd e), out)
  end.

(** An iterator visits as many entries as the table has. *)
Definition run_timer (junk : Z) (now : nat -> Z) (tp : TradeProcessor) : res (TradeProcessor * list (Z * Packet)) :=
  let m := _time_stats_map tp in
  let* r := HashMap.for_each (timer_body junk now (_subscriptions_map tp)) (Z.to_nat (HashMap._n m)) 0 (HashMap.begin_ m) m in
  Ok (mkTP (_active tp) (_subscriptions_map tp) (fst r) (_total_msgs tp) (first_symbol tp) true, snd r).

(** What happens to a processor. *)
Inductive event :=
| Pushed (port : Z) (p : Packet)
| Fired (junk : Z) (now : nat -> Z)
| Written (active : bool).

Definition step (ev : event) (tp : TradeProcessor) : res (TradeProcessor * list (Z * Packet)) :=
  match ev with
  | Pushed port p => push port p tp
  | Fired junk now => run_timer junk now tp
  | Written b => Ok (set_active b tp, [])
  end.

Fixpoint run (evs : list event) (tp : TradeProcessor) : res (list (list (Z * Packet))) :=
  match evs with
  | [] => Ok []
  | ev :: evs =>
      let* r := step ev tp in
      let* outs := run evs (fst r) in
      Ok (snd r :: outs)
  end.

End HashedProcessor.
Import HashedProcessor (event, Pushed, Fired, Written).

(** ** Padded symbols as keys *)

Definition padded_symbol (a : bytes) : Prop :=
  (length (cstr a) < ORDER_SYMBOL_LEN)%nat /\ a = cstr a ++ replicate (ORDER_SYMBOL_LEN - length (cstr a)) 0.
#[global] Instance padded_symbol_dec a : Decision (padded_symbol a).
Proof. unfold padded_symbol. apply _. Defined.

Lemma cstr_no_nul a : 0 ∉ cstr a.
Proof.
  induction a as [|x a IH]; cbn [cstr]; [apply not_elem_of_nil|]. destruct (Z.eqb_spec x 0) as [|Hx]; [apply not_elem_of_nil|].
  apply not_elem_of_cons. by split; [congruence|].
Qed.

Lemma padded_keyable a : padded_symbol a -> keyable a.
Proof. intros [Hl ->]. apply padded_good; [apply cstr_no_nul|done|unfold ORDER_SYMBOL_LEN; lia]. Qed.

Lemma padded_app s : 0 ∉ s -> (length s < ORDER_SYMBOL_LEN)%nat -> padded_symbol (s ++ replicate (ORDER_SYMBOL_LEN - length s) 0).
Proof.
  intros Hs Hl. assert (Hc : cstr (s ++ replicate (ORDER_SYMBOL_LEN - length s) 0) = s).
  { destruct (ORDER_SYMBOL_LEN - length s)%nat as [|j] eqn:E; [lia|]. by apply cstr_app. }
  unfold padded_symbol. by rewrite Hc.
Qed.

(** A padded symbol is the same key as another when the arrays are equal. *)
#[local, program] Instance padded_lawful : LawfulKey ArrayWrapper.ArrayWrapper bytes := {
  good_key a := padded_symbol (ArrayWrapper._array a);
  key_id a := ArrayWrapper._array a
}.
Next Obligation.
  intros a b Ha Hb. destruct (key_eq_id (LawfulKey := symbol_lawful) a b (padded_keyable _ Ha) (padded_keyable _ Hb)) as (r & E & Hr).
  exists r. split; [done|]. rewrite Hr. cbn [key_id symbol_lawful]. split; [|congruence].
  destruct Ha as [_ Ha], Hb as [_ Hb]. intros Hc. by rewrite Ha, Hb, Hc.
Qed.
Next Obligation. intros a b _ _ Hid. destruct a, b. cbn in Hid. by subst. Qed.

Lemma symbol_key_padded s : 0 ∉ s -> padded_symbol (TradeProcessor.symbol_key s).
Proof.
  intros Hs. unfold TradeProcessor.symbol_key. destruct (Nat.leb_spec ORDER_SYMBOL_LEN (length s)) as [|Hl]; [|by apply padded_app].
  apply (bool_decide_eq_true_1 (padded_symbol _)). vm_compute. reflexivity.
Qed.

Lemma assign_symbol_key s :
  ArrayWrapper.assign s (ArrayWrapper.ArrayWrapper_new ORDER_SYMBOL_LEN) = ArrayWrapper.mkArrayWrapper (TradeProcessor.symbol_key s).
Proof.
  unfold ArrayWrapper.assign, ArrayWrapper.ArrayWrapper_new, TradeProcessor.symbol_key. cbn [ArrayWrapper._array].
  rewrite length_replicate. by destruct (_ <=? _)%nat.
Qed.

(** What the parser leaves in a message is padded. *)
Lemma strncpy_chars_form n src cs :
  strncpy_chars n src = Ok cs -> exists s, cs = s ++ replicate (n - length s) 0 /\ 0 ∉ s /\ (length s <= n)%nat.
Proof.
  revert src cs. induction n as [|n IH]; intros src cs; cbn [strncpy_chars].
  { intros [= <-]. exists []. split_and!; [done|apply not_elem_of_nil|done]. }
  destruct src as [|c src]; [done|]. destruct (Z.eqb_spec c 0) as [|Hc].
  - intros [= <-]. exists []. split_and!; [done|apply not_elem_of_nil|cbn; lia].
  - destruct (strncpy_chars n src) as [r|] eqn:E; [|done]. res_simpl. intros [= <-].
    destruct (IH _ _ E) as (s & -> & Hs & Hl). exists (c :: s). split_and!; [done| |cbn; lia].
    apply not_elem_of_cons. by split; [congruence|].
Qed.

Lemma strncpy_zeros N n src s :
  strncpy (replicate N 0) src n = Ok s -> exists w, s = w ++ replicate (N - length w) 0 /\ 0 ∉ w /\ (length w <= n)%nat.
Proof.
  unfold strncpy. destruct (strncpy_chars n src) as [cs|] eqn:E; [|done]. res_simpl.
  destruct (strncpy_chars_form _ _ _ E) as (w & -> & Hw & Hl). unfold write_front.
  destruct (Nat.leb_spec (length (w ++ replicate (n - length w) 0)) (length (replicate N 0))) as [Hle|]; [|done].
  intros [= <-]. exists w. split_and!; [|done|done]. rewrite length_app, !length_replicate in Hle.
  rewrite length_app, !length_replicate, drop_replicate, <- app_assoc, <- replicate_add. f_equal. f_equal. lia.
Qed.

Lemma strncpy_padded n src s :
  (n < ORDER_SYMBOL_LEN)%nat -> strncpy (replicate ORDER_SYMBOL_LEN 0) src n = Ok s -> padded_symbol s.
Proof. intros Hn (w & -> & Hw & Hl)%strncpy_zeros. apply padded_app; [done|lia]. Qed.

Lemma zeros_padded : padded_symbol (replicate ORDER_SYMBOL_LEN 0).
Proof. apply (bool_decide_eq_true_1 (padded_symbol _)). vm_compute. reflexivity. Qed.

Definition scanned (counter : nat) (msg : MsgTrade) : Prop :=
  if (counter <? 3)%nat then mt_symbol msg = replicate ORDER_SYMBOL_LEN 0 else padded_symbol (mt_symbol msg).

Lemma scan_padded md rest i start counter msg r :
  scanned counter msg -> scan md rest i start counter msg = Ok (Some r) -> scanned (fst r) (snd r).
Proof.
  revert i start counter msg. induction rest as [|c rest IH]; intros i start counter msg Hs; cbn [scan]; [by intros [= <-]|].
  destruct (c =? 124); [|by apply IH]. destruct counter as [|[|[|[|counter]]]]; try done; try by apply IH.
  - destruct (Nat.ltb_spec (ORDER_SYMBOL_LEN - 1) (i - start)) as [|Hl]; [done|]. unfold scanned in Hs. cbn in Hs. rewrite Hs.
    destruct (strncpy _ _ _) as [s|] eqn:E; [|done]. res_simpl. apply IH. unfold scanned. cbn [Nat.ltb Nat.leb].
    cbn [with_symbol mt_symbol]. refine (strncpy_padded _ _ _ _ E). unfold ORDER_SYMBOL_LEN in *. lia.
  - destruct (parse_price_as_fixedpt _) as [price|]; [|done]. res_simpl. destruct (_ <=? _)%nat; [done|].
    destruct (strtol _) as [size|]; [|done]. res_simpl. by apply IH.
Qed.

Lemma parsed_padded p msg : populate_msg_trade_click MsgTrade_new p = Ok (Some msg) -> padded_symbol (mt_symbol msg).
Proof.
  unfold populate_msg_trade_click, scan_message. destruct (_ <? _)%nat; [done|]. destruct (_ <? _)%nat; [done|].
  destruct (scan _ _ _ _ _ _) as [[[counter m]|]|] eqn:E; [|done..]. res_simpl. destruct (_ <? _)%nat; [done|]. intros [= <-].
  assert (H0 : scanned 0 MsgTrade_new) by done. pose proof (scan_padded _ _ _ _ _ _ _ H0 E) as Hs. unfold scanned in Hs. cbn [fst snd] in Hs.
  cbn [with_src_timestamp mt_symbol]. destruct (counter <? 3)%nat; [rewrite Hs; apply zeros_padded|done].
Qed.

(** ** The two processors side by side *)
Section refinement.
Import TradeProcessor.
Implicit Types (h : HashedProcessor.TradeProcessor) (tp : TradeProcessor).

Lemma find_stats_map s (l : list (list Z * TimeStats)) : find_stats s l = (list_to_map l : gmap bytes TimeStats) !! s.
Proof.
  induction l as [|[k t] l IH]; [done|]. cbn [find_stats list_to_map fst snd foldr uncurry].
  rewrite lookup_insert, IH. done.
Qed.

Lemma store_stats_map s t (l : list (list Z * TimeStats)) :
  list_to_map (store_stats s t l) = (<[s := t]> (list_to_map l) : gmap bytes TimeStats).
Proof.
  apply map_eq. intros k. rewrite <- find_stats_map, find_store, lookup_insert, <- find_stats_map. done.
Qed.

Lemma store_stats_nodup s t (l : list (list Z * TimeStats)) : NoDup l.*1 -> NoDup (store_stats s t l).*1.
Proof.
  intros Hl. rewrite keys_store. destruct (decide _) as [|Hn]; [done|]. apply NoDup_app. split; [done|].
  split; [|apply NoDup_singleton]. by intros x Hx ->%list_elem_of_singleton.
Qed.

(** The tables hold the map and the list. *)
Record implements h tp : Prop := {
  im_active : HashedProcessor._active h = _active tp;
  im_total : HashedProcessor._total_msgs h = _total_msgs tp;
  im_first : HashedProcessor.first_symbol h = first_symbol tp;
  im_timer : HashedProcessor.timer_scheduled h = timer_scheduled tp;
  im_subs : represents (HashedProcessor._subscriptions_map h) (_subscriptions_map tp);
  im_stats : represents (HashedProcessor._time_stats_map h) (list_to_map (_time_stats_map tp));
  im_nodup : NoDup (_time_stats_map tp).*1
}.

(** The same processor with its list in another order. *)
Definition with_stats (l : list (list Z * TimeStats)) tp : TradeProcessor :=
  mkTP (_active tp) (_subscriptions_map tp) l (_total_msgs tp) (first_symbol tp) (timer_scheduled tp).

Definition spec_step (ev : event) tp : res (TradeProcessor * list (Z * Packet)) :=
  match ev with
  | Pushed port p => push port p tp
  | Fired junk now => run_timer junk now tp
  | Written b => Ok (mkTP b (_subscriptions_map tp) (_time_stats_map tp) (_total_msgs tp) (first_symbol tp) (timer_scheduled tp), [])
  end.

(** The answers a processor may give, whatever the order of its list at each event. *)
Inductive spec_answers : TradeProcessor -> list event -> res (list (list (Z * Packet))) -> Prop :=
| answers_done tp : spec_answers tp [] (Ok [])
| answers_fault tp l ev evs f :
    l ≡ₚ _time_stats_map tp -> spec_step ev (with_stats l tp) = Fault f -> spec_answers tp (ev :: evs) (Fault f)
| answers_next tp l ev evs tp' out outs :
    l ≡ₚ _time_stats_map tp -> spec_step ev (with_stats l tp) = Ok (tp', out) -> spec_answers tp' evs outs ->
    spec_answers tp (ev :: evs) (let* outs := outs in Ok (out :: outs)).

Lemma subscribe_implements words m M :
  Forall (fun w => 0 ∉ w) words -> represents m M ->
  match subscribe words M with
  | Ok (M', rc) => exists m', HashedProcessor.subscribe words m = Ok (m', rc) /\ represents m' M'
  | Fault f => HashedProcessor.subscribe words m = Fault f
  end.
Proof.
  revert m M. induction words as [words IH] using (induction_ltof1 _ (@length bytes)); unfold ltof in IH. intros m M Hw Hr.
  destruct words as [|symbol [|port words]]; cbn [subscribe HashedProcessor.subscribe]; [by exists m|done|].
  apply Forall_cons in Hw as [Hs Hw]. apply Forall_cons in Hw as [_ Hw]. destruct (strtol _) as [n|f]; [|done]. res_simpl.
  rewrite assign_symbol_key. set (key := ArrayWrapper.mkArrayWrapper (symbol_key symbol)).
  destruct (insert_spec key (i32 n) m M Hr (symbol_key_padded symbol Hs)) as (m' & -> & Hr' & _). res_simpl. cbn [key_id padded_lawful].
  change (ArrayWrapper._array key) with (symbol_key symbol) in *. destruct (bool_decide _); cbn [negb].
  - apply IH; [cbn; lia|done|done].
  - by exists m'.
Qed.

Lemma configure_implements words :
  Forall (fun w => 0 ∉ w) words ->
  match configure words TradeProcessor_new with
  | Ok (tp, rc) => exists h, HashedProcessor.configure words HashedProcessor.TradeProcessor_new = Ok (h, rc) /\ implements h tp
  | Fault f => HashedProcessor.configure words HashedProcessor.TradeProcessor_new = Fault f
  end.
Proof.
  intros Hw. unfold configure, HashedProcessor.configure.
  pose proof (subscribe_implements words (HashMap_new 0) ∅ Hw (proj1 (represents_new _))) as H.
  cbn [_subscriptions_map TradeProcessor_new HashedProcessor._subscriptions_map HashedProcessor.TradeProcessor_new].
  destruct (subscribe words ∅) as [[M rc]|f]; [|by rewrite H]. destruct H as (m & -> & Hr). res_simpl. eexists. split; [done|].
  constructor; try done; [apply (proj1 (represents_new _))|constructor].
Qed.

Lemma with_own_stats tp : with_stats (_time_stats_map tp) tp = tp.
Proof. by destruct tp. Qed.

(** A trade. *)
Lemma push_implements h tp port p :
  implements h tp ->
  match push port p tp with
  | Ok (tp', out) => exists h', HashedProcessor.push port p h = Ok (h', out) /\ implements h' tp'
  | Fault f => HashedProcessor.push port p h = Fault f
  end.
Proof.
  destruct h as [ha hs ht hn hf hm], tp as [a s t n f tm]. intros [Ha Hn Hf Ht Hs Hst Hnd]. cbn in *. subst.
  unfold push, HashedProcessor.push. cbn [_active HashedProcessor._active]. destruct a; cbn [negb]; [|by eexists].
  destruct (populate_msg_trade_click _ p) as [[msg|]|] eqn:Ep; res_simpl; [|by eexists|done].
  pose proof (parsed_padded p msg Ep) as Hpad. set (key := ArrayWrapper.mkArrayWrapper (mt_symbol msg)).
  cbn [_subscriptions_map HashedProcessor._subscriptions_map _time_stats_map HashedProcessor._time_stats_map
       _active HashedProcessor._active _total_msgs HashedProcessor._total_msgs first_symbol HashedProcessor.first_symbol
       timer_scheduled HashedProcessor.timer_scheduled].
  rewrite (findp_spec key hs s Hs Hpad). res_simpl. change (key_id key) with (mt_symbol msg).
  destruct (s !! mt_symbol msg) as [out_port|]; [|by eexists].
  destruct (get_or_create_spec TimeStats_new (mt_symbol msg) ht _ Hst Hpad) as (m1 & q & -> & Hv & Hset). res_simpl.
  cbn [key_id padded_lawful ArrayWrapper._array] in *. rewrite <- find_stats_map in *. rewrite Hv. res_simpl. clear Hv.
  assert (Hg : get_or_create (mt_symbol msg) t = (default TimeStats_new (find_stats (mt_symbol msg) t), bool_decide (find_stats (mt_symbol msg) t = None)))
    by (unfold get_or_create; by destruct (find_stats _ _)).
  rewrite Hg. destruct (update_stats _ msg) as [t1 upd]. destruct (Hset t1) as (m2 & -> & Hr2). res_simpl. rewrite <- store_stats_map in Hr2.
  pose proof (store_stats_nodup (mt_symbol msg) t1 t Hnd) as Hnd2.
  destruct upd; cbn [negb]; [|by eexists]. destruct (send_update_msg _ _ _ _ _) as [out|]; res_simpl; [by eexists|done].
Qed.

(** The timer: the value and the packets of one entry. *)
Definition timer_value (s : gmap (list Z) Z) (e : ArrayWrapper.ArrayWrapper * TimeStats) : TimeStats :=
  match s !! ArrayWrapper._array (fst e) with None => snd e | Some _ => rollover (snd e) end.

Definition timer_out (junk : Z) (now : nat -> Z) (s : gmap (list Z) Z) (i : nat) (e : ArrayWrapper.ArrayWrapper * TimeStats) : list (Z * Packet) :=
  match s !! ArrayWrapper._array (fst e) with
  | None => []
  | Some port => match send_add_msg junk (now i) (snd e) port with Ok out => out | Fault _ => [] end
  end.

Lemma send_add_Ok junk now t port : exists out, send_add_msg junk now t port = Ok out.
Proof.
  unfold send_add_msg. rewrite write_front_Ok by (rewrite length_encode_MsgSource, length_replicate; unfold sizeof_MsgSource; lia).
  by eexists.
Qed.

Lemma timer_body_Ok junk now hs s i e :
  represents hs s -> padded_symbol (ArrayWrapper._array (fst e)) ->
  HashedProcessor.timer_body junk now hs i e = Ok (timer_value s e, timer_out junk now s i e).
Proof.
  intros Hs Hk. unfold HashedProcessor.timer_body, timer_value, timer_out. rewrite (findp_spec (fst e) hs s Hs Hk). res_simpl.
  cbn [key_id padded_lawful]. destruct (s !! _) as [port|]; [|done].
  destruct (send_add_Ok junk (now i) (snd e) port) as [out ->]. by res_simpl.
Qed.

Lemma timer_loop_Ok junk now i s es :
  run_timer_loop junk now i s (ids es) =
  Ok (ids (map (turned (timer_value s)) es), concat (imap (fun j e => timer_out junk now s (i + j)%nat e) es)).
Proof.
  revert i. induction es as [|e es IH]; intros i; [done|]. cbn [ids map run_timer_loop fst snd]. fold (ids es). rewrite IH.
  cbn [imap concat]. rewrite Nat.add_0_r.
  assert (Hi : imap ((fun j e => timer_out junk now s (i + j)%nat e) ∘ S) es = imap (fun j e => timer_out junk now s (S i + j)%nat e) es)
    by (apply imap_ext; intros j x _; cbn; f_equal; lia).
  rewrite Hi. fold (ids (map (turned (timer_value s)) es)). cbn [turned fst snd key_id padded_lawful].
  assert (Ho : timer_out junk now s i e = match s !! ArrayWrapper._array (fst e) with
    | None => [] | Some port => match send_add_msg junk (now i) (snd e) port with Ok out => out | Fault _ => [] end end) by done.
  assert (Hv : timer_value s e = match s !! ArrayWrapper._array (fst e) with None => snd e | Some _ => rollover (snd e) end) by done.
  rewrite Ho, Hv. destruct (s !! _) as [port|]; [|by res_simpl].
  destruct (send_add_Ok junk (now i) (snd e) port) as [out ->]. by res_simpl.
Qed.

Lemma timer_implements h tp junk now :
  implements h tp ->
  exists l h' tp' out, l ≡ₚ _time_stats_map tp /\ run_timer junk now (with_stats l tp) = Ok (tp', out) /\
    HashedProcessor.run_timer junk now h = Ok (h', out) /\ implements h' tp'.
Proof.
  destruct h as [ha hs ht hn hf hm], tp as [a s t n f tm]. intros [Ha Hn Hf Ht Hs Hst Hnd]. cbn in *. subst.
  pose proof (all_turned_spec (timer_value s) ht _ Hst) as Hr'. destruct (Hst) as [Hsh Hnd1 HM Hlen].
  exists (ids (HashMap.entries ht)). eexists _, _, _. split; [by apply list_to_map_inj|].
  unfold run_timer, HashedProcessor.run_timer, with_stats. cbn [_subscriptions_map _time_stats_map HashedProcessor._subscriptions_map HashedProcessor._time_stats_map].
  rewrite timer_loop_Ok. split; [by res_simpl|].
  rewrite (for_each_begin _ (timer_value s) (timer_out junk now s)); [|done| |rewrite Hlen; lia].
  - split; [by res_simpl|]. constructor; try done. cbn [_time_stats_map fst].
    rewrite <- (entries_all_turned (timer_value s) ht Hsh). apply (rp_nodup _ _ Hr').
  - intros j e He. apply timer_body_Ok; [done|]. apply (entries_good ht _ e Hst). by eapply list_elem_of_lookup_2.
Qed.

Lemma run_implements evs h tp : implements h tp -> spec_answers tp evs (HashedProcessor.run evs h).
Proof.
  revert h tp. induction evs as [|ev evs IH]; intros h tp Hi; cbn [HashedProcessor.run]; [constructor|].
  destruct ev as [port p|junk now|b]; cbn [HashedProcessor.step].
  - pose proof (push_implements h tp port p Hi) as Hp. destruct (push port p tp) as [[tp' out]|f] eqn:E.
    + destruct Hp as (h' & -> & Hi'). res_simpl. eapply answers_next; [done| |by apply IH]. by rewrite with_own_stats.
    + rewrite Hp. eapply answers_fault; [done|]. by rewrite with_own_stats.
  - destruct (timer_implements h tp junk now Hi) as (l & h' & tp' & out & Hl & E & -> & Hi'). res_simpl.
    eapply answers_next; [exact Hl|exact E|by apply IH].
  - res_simpl. eapply answers_next; [done|reflexivity|]. apply IH. destruct Hi. by constructor.
Qed.
End refinement.

(** ** Properties *)
Module ProcessorProps.

(** C28: On its hash tables the trade processor does what it does on a finite map and a
    list.  For routing words without NUL bytes it is configured with the same result,
    and to any sequence of trades, timer calls and writes of its handler it gives
    answers -- the packets of every event, or the fault that ends them -- that the
    other gives, with its list of symbols in some order when the timer runs. *)
Theorem hashed_processor_refines words (evs : list event) (Hw : Forall (fun w => 0 ∉ w) words) :
  match TradeProcessor.configure words TradeProcessor.TradeProcessor_new with
  | Ok (tp, rc) =>
      exists h, HashedProcessor.configure words HashedProcessor.TradeProcessor_new = Ok (h, rc) /\
        spec_answers tp evs (HashedProcessor.run evs h)
  | Fault f => HashedProcessor.configure words HashedProcessor.TradeProcessor_new = Fault f
  end.
Proof.
  pose proof (configure_implements words Hw) as H. destruct (TradeProcessor.configure _ _) as [[tp rc]|f]; [|done].
  destruct H as (h & Hc & Hi). exists h. split; [done|]. by apply run_implements.
Qed.

Definition demo_words : list bytes := map bytes_of_string ["BPl"; "3"; "VODl"; "4"]%string.
Definition demo_events : list event :=
  [Pushed 0 (SourceProps.demo_packet "50.25"); Fired 0 (fun i => Z.of_nat i); Written false; Pushed 0 (SourceProps.demo_packet "50.50")].

Lemma hashed_processor_refines_witness :
  exists tp h outs, TradeProcessor.configure demo_words TradeProcessor.TradeProcessor_new = Ok (tp, 0) /\
    HashedProcessor.configure demo_words HashedProcessor.TradeProcessor_new = Ok (h, 0) /\
    HashedProcessor.run demo_events h = Ok outs /\ map (map fst) outs = [[3]; [3]; []; [0]] /\
    spec_answers tp demo_events (Ok outs).
Proof.
  pose proof (hashed_processor_refines demo_words demo_events) as H.
  assert (Hw : Forall (fun w => 0 ∉ w) demo_words) by (apply (bool_decide_eq_true_1 (Forall _ _)); vm_compute; reflexivity).
  specialize (H Hw). destruct (TradeProcessor.configure _ _) as [[tp rc]|] eqn:Ec; [|vm_compute in Ec; discriminate Ec].
  assert (Hrc : rc = 0) by (vm_compute in Ec; by injection Ec). subst rc. destruct H as (h & Hh & Hr).
  destruct (HashedProcessor.run demo_events h) as [outs|] eqn:Er.
  - exists tp, h, outs. split; [reflexivity|]. split; [exact Hh|]. split; [exact Er|]. split; [|exact Hr].
    vm_compute in Hh. injection Hh as <-. vm_compute in Er. injection Er as <-. vm_compute. reflexivity.
  - vm_compute in Hh. injection Hh as <-. vm_compute in Er. discriminate Er.
Defined.

End ProcessorProps.
