(* ===== verification/Router.v ===== *)
(** * Router: elements wired into a graph

    Models the part of Click's router the configurations rely on: an element
    pushes a packet to an output port, the port is connected to an input port of
    another element ([Element::Port::push], [Element::checked_output_push] of
    include/click/element.hh), and the call returns when everything downstream
    has been done.  [router_push] is that depth-first propagation; its fuel is
    the depth of the call stack.

    A configuration is a list of declarations and a list of connections, as in
    the files of indicator_configs; [build] constructs the elements, whose numbers
    of ports follow from the connections. *)

From S2P Require Import Prelude FixedPt CircArray Messages Buffers IndicatorBase IndicatorLaws.
From S2P Require Import Smoothing Directional Ratios AdLine Parsing Sources.
Import FPt IndicatorBase.

(** The indicator classes. *)
Inductive Kind :=
| KEwma | KSum | KPdm | KNdm | KNewTrueRange | KVmu | KVmd
| KPdi | KNdi | KViu | KVid | KDx | KTrix.

Definition kstate (k : Kind) : Type :=
  match k with
  | KEwma => EwmaIncremental.EwmaIncremental
  | KSum => Sum.Sum
  | KPdm => Pdm.Pdm
  | KNdm => Ndm.Ndm
  | KNewTrueRange => NewTrueRange.NewTrueRange
  | KVmu => Vmu.Vmu
  | KVmd => Vmd.Vmd
  | KPdi => Pdi.Pdi
  | KNdi => Ndi.Ndi
  | KViu => Viu.Viu
  | KVid => Vid.Vid
  | KDx => Dx.Dx
  | KTrix => Trix.Trix
  end.

(** Their virtual methods. *)
#[global] Instance kelement (k : Kind) : IndicatorElement (kstate k) :=
  match k with
  | KEwma => EwmaIncremental.EwmaIncremental_element
  | KSum => Sum.Sum_element
  | KPdm => Pdm.Pdm_element
  | KNdm => Ndm.Ndm_element
  | KNewTrueRange => NewTrueRange.NewTrueRange_element
  | KVmu => Vmu.Vmu_element
  | KVmd => Vmd.Vmd_element
  | KPdi => Pdi.Pdi_element
  | KNdi => Ndi.Ndi_element
  | KViu => Viu.Viu_element
  | KVid => Vid.Vid_element
  | KDx => Dx.Dx_element
  | KTrix => Trix.Trix_element
  end.

Module Router.

(** The global vector [g_svec_kb_synapse] of the printers is kept with the
    printer: every configuration has one. *)
Inductive Element :=
| Indicator (k : Kind) (ib : IndicatorBase (kstate k))
| Tee (noutputs : nat)
| Splitter (s : SourceSplit.SourceSplit)
| Stamper (t : Timestamper.Timestamper)
| Printer (s : StatPrinter.StatPrinter) (g_svec : list (list StatPrinter.StatPair))
| Discard (count : Z).

(** What the environment supplies while a packet travels: the padding of the
    messages and the cycle counters read by the timestamper and the printer. *)
Record Env := mkEnv { env_pad : bytes; now_stamp : Z; now_print : Z }.

(** [Discard::push]: the packet is counted and dropped. *)
Definition discard_push (count : Z) : Z := u64 (count + 1).

Section router.
Context (env : Env).

(** [e->push (port, p)]: the new state and what is pushed to the outputs.  An
    element with only a [simple_action] passes on to the output with the number
    of the input. *)
Definition element_push (e : Element) (port : nat) (p : Packet) : res (Element * list (Z * Packet)) :=
  match e with
  | Indicator k ib =>
      let* r := push (env_pad env) ib (Z.of_nat port) p in
      Ok (Indicator k r.1, map (fun p => (0, p)) r.2)
  | Tee n => let* out := ReuseTee.push n p in Ok (Tee n, out)
  | Splitter s => let* out := SourceSplit.push (env_pad env) p s in Ok (Splitter s, out)
  | Stamper t =>
      let* r := Timestamper.simple_action (now_stamp env) (now_stamp env) p t in
      Ok (Stamper r.1, [(Z.of_nat port, r.2)])
  | Printer s g =>
      let* r := StatPrinter.simple_action (now_print env) p s g in
      Ok (Printer r.1.1 r.1.2, [(Z.of_nat port, r.2)])
  | Discard count => Ok (Discard (discard_push count), [])
  end.

(** [((element, output), (element, input))] *)
Context (hookup : list ((nat * Z) * (nat * nat))).

Fixpoint target_in (h : list ((nat * Z) * (nat * nat))) (i : nat) (port : Z) : option (nat * nat) :=
  match h with
  | [] => None
  | c :: h => if (c.1.1 =? i)%nat && (c.1.2 =? port) then Some c.2 else target_in h i port
  end.
Definition target : nat -> Z -> option (nat * nat) := target_in hookup.

(** A packet pushed to an output that is not connected is killed. *)
Definition killed : Type := nat * Z * Packet.

(** The outputs of element [i] in turn; [go] is a push to an input. *)
Fixpoint deliver (go : nat -> nat -> Packet -> list Element -> res (list Element * list killed))
    (i : nat) (out : list (Z * Packet)) (es : list Element) : res (list Element * list killed) :=
  match out with
  | [] => Ok (es, [])
  | o :: out =>
      match target i o.1 with
      | None =>
          let* s := deliver go i out es in Ok (s.1, (i, o.1, o.2) :: s.2)
      | Some (j, port) =>
          let* r := go j port o.2 es in
          let* s := deliver go i out r.1 in
          Ok (s.1, r.2 ++ s.2)
      end
  end.

Fixpoint router_push (fuel : nat) (i port : nat) (p : Packet) (es : list Element)
  : res (list Element * list killed) :=
  match fuel with
  | O => Fault StackOverflow
  | S fuel =>
      let* e := of_option NullDeref (es !! i) in
      let* r := element_push e port p in
      deliver (router_push fuel) i r.2 (<[i := r.1]> es)
  end.
End router.

(** Packets entering at input 0 of element 0, each with its environment. *)
Fixpoint router_run (hookup : list ((nat * Z) * (nat * nat))) (fuel : nat) (ps : list (Env * Packet))
    (es : list Element) : res (list Element * list (list killed)) :=
  match ps with
  | [] => Ok (es, [])
  | ep :: ps =>
      let* r := router_push ep.1 hookup fuel 0 0 ep.2 es in
      let* s := router_run hookup fuel ps r.1 in
      Ok (s.1, r.2 :: s.2)
  end.

(** ** Configurations *)

(** The number of input and of output ports the connections use. *)
Definition ninputs (hookup : list ((nat * Z) * (nat * nat))) (i : nat) : nat :=
  foldr (fun c n => if (c.2.1 =? i)%nat then Nat.max (S c.2.2) n else n) 0%nat hookup.
Definition noutputs (hookup : list ((nat * Z) * (nat * nat))) (i : nat) : nat :=
  foldr (fun c n => if (c.1.1 =? i)%nat then Nat.max (S (Z.to_nat c.1.2)) n else n) 0%nat hookup.

(** [periods] is [ALPHA_PERIODS] or [SUM_PERIODS], [buf_size] and [op_mode] are
    [BUF_SIZE] (10 when left out) and [OP_MODE]. *)
Inductive Decl :=
| DIndicator (k : Kind) (periods : option Z) (buf_size op_mode : Z)
| DReuseTee
| DSourceSplit (close high low : option Z)
| DTimestamper
| DStatPrinter
| DDiscard.

Definition kconfigure (k : Kind) (periods : option Z) (in_ports : Z) (args : option (Z * Z))
  : res (IndicatorBase (kstate k)) :=
  match k with
  | KEwma =>
      let* r := EwmaIncremental.configure in_ports periods args
                  (IndicatorBase_new EwmaIncremental.EwmaIncremental_new) in Ok r.1
  | KSum => Ok (Sum.configure in_ports periods args (IndicatorBase_new Sum.Sum_new)).1
  | KPdm => Ok (Pdm.configure in_ports args (IndicatorBase_new Pdm.Pdm_new)).1
  | KNdm => Ok (Ndm.configure in_ports args (IndicatorBase_new Ndm.Ndm_new)).1
  | KNewTrueRange =>
      Ok (NewTrueRange.configure in_ports args (IndicatorBase_new NewTrueRange.NewTrueRange_new)).1
  | KVmu => Ok (Vmu.configure in_ports args (IndicatorBase_new Vmu.Vmu_new)).1
  | KVmd => Ok (Vmd.configure in_ports args (IndicatorBase_new Vmd.Vmd_new)).1
  | KPdi => Ok (Pdi.configure in_ports args (IndicatorBase_new Pdi.Pdi_new)).1
  | KNdi => Ok (Ndi.configure in_ports args (IndicatorBase_new Ndi.Ndi_new)).1
  | KViu => Ok (Viu.configure in_ports args (IndicatorBase_new Viu.Viu_new)).1
  | KVid => Ok (Vid.configure in_ports args (IndicatorBase_new Vid.Vid_new)).1
  | KDx => Ok (Dx.configure in_ports args (IndicatorBase_new Dx.Dx_new)).1
  | KTrix => Ok (Trix.configure in_ports args (IndicatorBase_new Trix.Trix_new)).1
  end.

Definition build_element (hookup : list ((nat * Z) * (nat * nat))) (i : nat) (d : Decl) : res Element :=
  match d with
  | DIndicator k periods buf_size op_mode =>
      let* ib := kconfigure k periods (Z.of_nat (ninputs hookup i)) (Some (buf_size, op_mode)) in
      Ok (Indicator k ib)
  | DReuseTee => Ok (Tee (noutputs hookup i))
  | DSourceSplit close high low =>
      Ok (Splitter (SourceSplit.configure close high low None None SourceSplit.SourceSplit_new).1)
  | DTimestamper => Ok (Stamper Timestamper.Timestamper_new)
  | DStatPrinter => let '(s, g) := StatPrinter.StatPrinter_new [] in Ok (Printer s g)
  | DDiscard => Ok (Discard 0)
  end.

Fixpoint build (hookup : list ((nat * Z) * (nat * nat))) (i : nat) (ds : list Decl) : res (list Element) :=
  match ds with
  | [] => Ok []
  | d :: ds =>
      let* e := build_element hookup i d in
      let* es := build hookup (S i) ds in
      Ok (e :: es)
  end.

End Router.
