(* ===== verification/Configs.v ===== *)
(** * Configs: the element graphs of indicator_configs

    The nine configurations, from the output of [trade_processor] on: the
    declarations, and the connections as the files write them, between named
    elements.  [hookup] numbers them, as the router does when it has parsed a
    configuration.  The elements are listed in the direction of the flow.
    [IN_PORTS], which trix.click and its variants pass, is read by nothing; the
    number of inputs is that of the connections. *)

From Stdlib Require Import String.
From S2P Require Import Prelude FixedPt IndicatorBase Sources Router.
Import Router.
#[local] Open Scope string_scope.

Record Config := mkConfig {
  elements : list (string * Decl);
  wires : list ((string * Z) * (nat * string))
}.

Fixpoint eindex (name : string) (i : nat) (es : list (string * Decl)) : option nat :=
  match es with
  | [] => None
  | e :: es => if decide (e.1 = name) then Some i else eindex name (S i) es
  end.

Definition connection (es : list (string * Decl)) (w : (string * Z) * (nat * string))
  : option ((nat * Z) * (nat * nat)) :=
  match eindex w.1.1 0 es, eindex w.2.2 0 es with
  | Some i, Some j => Some ((i, w.1.2), (j, w.2.1))
  | _, _ => None
  end.

(** A connection of an unknown element is an error. *)
Fixpoint connections_of (es : list (string * Decl)) (ws : list ((string * Z) * (nat * string)))
  : option (list ((nat * Z) * (nat * nat))) :=
  match ws with
  | [] => Some []
  | w :: ws =>
      match connection es w, connections_of es ws with
      | Some c, Some cs => Some (c :: cs)
      | _, _ => None
      end
  end.

Definition hookup (c : Config) : list ((nat * Z) * (nat * nat)) := default [] (connections_of (elements c) (wires c)).
Definition decls (c : Config) : list Decl := map snd (elements c).

(** [a[n] -> [m]b] *)
Notation "a '@' n '-->' m '@' b" := ((a, n%Z), (m%nat, b)) (at level 40, n at level 9, m at level 9, b at level 9, only parsing).

(** ** TRIX *)

Definition trix_config (op_mode : Z) : Config := {|
  elements := [
    ("tstamp", DTimestamper);
    ("split_1", DSourceSplit (Some 0) None None);
    ("ewma_1", DIndicator KEwma (Some 13) 13 op_mode);
    ("ewma_2", DIndicator KEwma (Some 13) 13 op_mode);
    ("ewma_3", DIndicator KEwma (Some 13) 13 op_mode);
    ("trix", DIndicator KTrix None 13 op_mode);
    ("stats", DStatPrinter);
    ("Discard", DDiscard)];
  wires := [
    "tstamp" @ 0 --> 0 @ "split_1";
    "split_1" @ 0 --> 0 @ "ewma_1";
    "ewma_1" @ 0 --> 0 @ "ewma_2";
    "ewma_2" @ 0 --> 0 @ "ewma_3";
    "ewma_3" @ 0 --> 0 @ "trix";
    "trix" @ 0 --> 0 @ "stats";
    "stats" @ 0 --> 0 @ "Discard"] |}.

Definition trix_opt : Config := trix_config 2.
Definition trix_naive : Config := trix_config 1.
Definition trix : Config := trix_config 2.

(** ** DMI *)

(** The graph below the splitter. *)
Definition dmi_elements (op_mode : Z) : list (string * Decl) := [
  ("tee_high", DReuseTee);
  ("tee_low", DReuseTee);
  ("pdm", DIndicator KPdm None 10 op_mode);
  ("ndm", DIndicator KNdm None 10 op_mode);
  ("tr", DIndicator KNewTrueRange None 10 op_mode);
  ("ewma_pdm", DIndicator KEwma (Some 13) 13 op_mode);
  ("ewma_ndm", DIndicator KEwma (Some 13) 13 op_mode);
  ("ewma_tr", DIndicator KEwma (Some 13) 13 op_mode);
  ("tee_ewma_tr", DReuseTee);
  ("pdi", DIndicator KPdi None 10 op_mode);
  ("ndi", DIndicator KNdi None 10 op_mode);
  ("dx", DIndicator KDx None 10 op_mode);
  ("ewma_dx", DIndicator KEwma (Some 13) 13 op_mode);
  ("stats", DStatPrinter);
  ("Discard", DDiscard)].

Definition dmi_wires : list ((string * Z) * (nat * string)) := [
  "split_1" @ 0 --> 0 @ "tee_high";
  "split_1" @ 1 --> 0 @ "tee_low";
  "split_1" @ 2 --> 2 @ "tr";
  "tee_high" @ 0 --> 0 @ "pdm";
  "tee_high" @ 1 --> 0 @ "ndm";
  "tee_high" @ 2 --> 0 @ "tr";
  "tee_low" @ 0 --> 1 @ "pdm";
  "tee_low" @ 1 --> 1 @ "ndm";
  "tee_low" @ 2 --> 1 @ "tr";
  "pdm" @ 0 --> 0 @ "ewma_pdm";
  "ndm" @ 0 --> 0 @ "ewma_ndm";
  "tr" @ 0 --> 0 @ "ewma_tr";
  "ewma_tr" @ 0 --> 0 @ "tee_ewma_tr";
  "ewma_pdm" @ 0 --> 0 @ "pdi";
  "ewma_ndm" @ 0 --> 0 @ "ndi";
  "tee_ewma_tr" @ 0 --> 1 @ "pdi";
  "tee_ewma_tr" @ 1 --> 1 @ "ndi";
  "pdi" @ 0 --> 0 @ "dx";
  "ndi" @ 0 --> 1 @ "dx";
  "dx" @ 0 --> 0 @ "ewma_dx";
  "ewma_dx" @ 0 --> 0 @ "stats";
  "stats" @ 0 --> 0 @ "Discard"].

Definition split_1 : string * Decl := ("split_1", DSourceSplit (Some 2) (Some 0) (Some 1)).
Definition tstamp : string * Decl := ("tstamp", DTimestamper).

Definition dmi_config (op_mode : Z) : Config :=
  mkConfig (tstamp :: split_1 :: dmi_elements op_mode) ("tstamp" @ 0 --> 0 @ "split_1" :: dmi_wires).
Definition dmi_opt : Config := dmi_config 2.
Definition dmi_naive : Config := dmi_config 1.
Definition dmi_tee : Config := mkConfig (split_1 :: dmi_elements 2) dmi_wires.

(** ** Vortex *)

Definition vortex_elements (op_mode : Z) : list (string * Decl) := [
  ("tee_high", DReuseTee);
  ("tee_low", DReuseTee);
  ("vmu", DIndicator KVmu None 10 op_mode);
  ("vmd", DIndicator KVmd None 10 op_mode);
  ("tr", DIndicator KNewTrueRange None 10 op_mode);
  ("sum_vmu", DIndicator KSum (Some 13) 13 op_mode);
  ("sum_vmd", DIndicator KSum (Some 13) 13 op_mode);
  ("sum_tr", DIndicator KSum (Some 13) 13 op_mode);
  ("tee_sum_tr", DReuseTee);
  ("viu", DIndicator KViu None 10 op_mode);
  ("vid", DIndicator KVid None 10 op_mode);
  ("stats", DStatPrinter);
  ("Discard", DDiscard)].

(** The output of [viu] is left unconnected. *)
Definition vortex_wires : list ((string * Z) * (nat * string)) := [
  "split_1" @ 0 --> 0 @ "tee_high";
  "split_1" @ 1 --> 0 @ "tee_low";
  "split_1" @ 2 --> 2 @ "tr";
  "tee_high" @ 0 --> 0 @ "vmu";
  "tee_high" @ 1 --> 0 @ "vmd";
  "tee_high" @ 2 --> 0 @ "tr";
  "tee_low" @ 0 --> 1 @ "vmu";
  "tee_low" @ 1 --> 1 @ "vmd";
  "tee_low" @ 2 --> 1 @ "tr";
  "vmu" @ 0 --> 0 @ "sum_vmu";
  "vmd" @ 0 --> 0 @ "sum_vmd";
  "tr" @ 0 --> 0 @ "sum_tr";
  "sum_tr" @ 0 --> 0 @ "tee_sum_tr";
  "sum_vmu" @ 0 --> 0 @ "viu";
  "sum_vmd" @ 0 --> 0 @ "vid";
  "tee_sum_tr" @ 0 --> 1 @ "viu";
  "tee_sum_tr" @ 1 --> 1 @ "vid";
  "vid" @ 0 --> 0 @ "stats";
  "stats" @ 0 --> 0 @ "Discard"].

Definition vortex_config (op_mode : Z) : Config :=
  mkConfig (tstamp :: split_1 :: vortex_elements op_mode) ("tstamp" @ 0 --> 0 @ "split_1" :: vortex_wires).
Definition vortex_opt : Config := vortex_config 2.
Definition vortex_naive : Config := vortex_config 1.
Definition vortex_tee : Config := mkConfig (split_1 :: vortex_elements 2) vortex_wires.

Definition all_configs : list Config :=
  [trix; trix_opt; trix_naive; dmi_opt; dmi_naive; dmi_tee; vortex_opt; vortex_naive; vortex_tee].
