(* ===== verification/Renaming.v ===== *)
(** * Renaming: the order of a configuration's elements does not matter

    Two configurations with the same named elements and the same connections, listed
    in any order, give routers that number their elements differently and do the same
    otherwise: built from one and from the other, and driven by the same packets at
    the same element, every element ends in the same state.  [router_run_from]
    lets packets enter at an element that need not be the first. *)

From Stdlib Require Import String.
From S2P Require Import Prelude IndicatorBase Messages Sources Router Configs.
Import Router.

(** Packets entering at input 0 of an element. *)
Fixpoint router_run_from (hookup : list ((nat * Z) * (nat * nat))) (fuel entry : nat) (ps : list (Env * Packet))
    (es : list Element) : res (list Element * list (list killed)) :=
  match ps with
  | [] => Ok (es, [])
  | ep :: ps =>
      let* r := router_push ep.1 hookup fuel entry 0 ep.2 es in
      let* s := router_run_from hookup fuel entry ps r.1 in
      Ok (s.1, r.2 :: s.2)
  end.

Lemma router_run_from_first hookup fuel ps es : router_run_from hookup fuel 0 ps es = router_run hookup fuel ps es.
Proof. revert es. induction ps as [|ep ps IH]; intros es; [done|]. cbn. destruct (router_push _ _ _ _ _ _ _) as [r|f]; cbn; [|done]. by rewrite IH. Qed.

(** ** Runs of a renamed router *)

Section renaming.
Context (n : nat) (ρ : nat -> nat) (h h' : list ((nat * Z) * (nat * nat))).
Context (Hinj : forall i j, (i < n)%nat -> (j < n)%nat -> ρ i = ρ j -> i = j).
Context (Htarget : forall i port, (i < n)%nat -> target h' (ρ i) port = (fun t => (ρ t.1, t.2)) <$> target h i port).

Definition renamed (es es' : list Element) : Prop :=
  length es = n /\ forall i, (i < n)%nat -> es' !! ρ i = es !! i.

Lemma renamed_insert es es' i e :
  (i < n)%nat -> renamed es es' -> renamed (<[i := e]> es) (<[ρ i := e]> es').
Proof.
  intros Hi [Hl Hr]. split; [by rewrite length_insert|]. intros j Hj. destruct (decide (i = j)) as [<-|Hn].
  - rewrite (list_lookup_insert_eq es) by lia. apply list_lookup_insert_eq.
    assert (is_Some (es' !! ρ i)) as Hs by (rewrite Hr by done; apply lookup_lt_is_Some; lia).
    by apply lookup_lt_is_Some in Hs.
  - rewrite !list_lookup_insert_ne; [by apply Hr|done|]. intros E. by apply Hn, Hinj.
Qed.

(** A push that succeeds, and the same push of the renamed router. *)
Definition follows (r : res (list Element * list killed)) (r' : res (list Element * list killed)) : Prop :=
  forall es k, r = Ok (es, k) ->
    exists es', r' = Ok (es', map (fun x => (ρ x.1.1, x.1.2, x.2)) k) /\ renamed es es'.

Lemma deliver_follows go go' i out es es' :
  (forall j port p es es', renamed es es' -> follows (go j port p es) (go' (ρ j) port p es')) ->
  (i < n)%nat -> renamed es es' ->
  follows (deliver h go i out es) (deliver h' go' (ρ i) out es').
Proof.
  intros Hgo Hi. revert es es'. induction out as [|o out IH]; intros es es' Hr es2 k E.
  - cbn in E. injection E as <- <-. by exists es'.
  - cbn [deliver] in *. rewrite Htarget by done. destruct (target h i o.1) as [[j port]|]; cbn in *.
    + destruct (go j port o.2 es) as [[e1 k1]|f] eqn:E1; [|done]. cbn in E.
      destruct (Hgo j port o.2 es es' Hr e1 k1 E1) as (e1' & -> & Hr1). cbn.
      destruct (deliver h go i out e1) as [[e2 k2]|f] eqn:E2; [|done]. cbn in E. injection E as <- <-.
      destruct (IH e1 e1' Hr1 e2 k2 E2) as (e2' & -> & Hr2). cbn. exists e2'. by rewrite map_app.
    + destruct (deliver h go i out es) as [[e2 k2]|f] eqn:E2; [|done]. cbn in E. injection E as <- <-.
      destruct (IH es es' Hr e2 k2 E2) as (e2' & -> & Hr2). cbn. by exists e2'.
Qed.

Lemma router_push_follows env fuel i port p es es' :
  renamed es es' -> follows (router_push env h fuel i port p es) (router_push env h' fuel (ρ i) port p es').
Proof.
  revert i port p es es'. induction fuel as [|fuel IH]; intros i port p es es' Hr es2 k E; [done|].
  cbn [router_push] in *. destruct (es !! i) as [e|] eqn:Ee; [|done].
  assert (i < n)%nat as Hi by (destruct Hr as [<- _]; by eapply lookup_lt_Some).
  rewrite (proj2 Hr) by done. rewrite Ee. cbn in E |- *.
  destruct (element_push env e port p) as [[e1 out]|f]; [|done]. cbn in E |- *.
  eapply deliver_follows; [exact IH|done|by apply renamed_insert|exact E].
Qed.

Lemma router_run_follows fuel entry ps es es' r ks :
  renamed es es' -> router_run_from h fuel entry ps es = Ok (r, ks) ->
  exists r' ks', router_run_from h' fuel (ρ entry) ps es' = Ok (r', ks') /\ renamed r r'.
Proof.
  revert es es' ks. induction ps as [|ep ps IH]; intros es es' ks Hr E.
  - cbn in E. injection E as <- <-. by exists es', [].
  - cbn in E |- *. destruct (router_push _ _ _ _ _ _ _) as [[e1 k1]|f] eqn:E1; [|done]. cbn in E.
    destruct (router_push_follows _ _ _ _ _ _ es' Hr e1 k1 E1) as (e1' & -> & Hr1). cbn.
    destruct (router_run_from h fuel entry ps e1) as [[e2 k2]|f] eqn:E2; [|done]. cbn in E. injection E as <- <-.
    destruct (IH e1 e1' k2 Hr1 E2) as (r' & ks' & -> & Hr2). cbn. by eexists _, _.
Qed.
End renaming.

(** ** Configurations *)

(** The names of the elements are distinct, the connections join elements that are
    there, and no output is connected twice. *)
Record well_named (c : Config) : Prop := mkWellNamed {
  wn_names : NoDup (map fst (elements c));
  wn_known : Forall (fun w => w.1.1 ∈ map fst (elements c) /\ w.2.2 ∈ map fst (elements c)) (wires c);
  wn_outputs : NoDup (map fst (wires c))
}.
#[global] Instance well_named_dec c : Decision (well_named c).
Proof.
  destruct (decide (NoDup (map fst (elements c)) /\
    Forall (fun w => w.1.1 ∈ map fst (elements c) /\ w.2.2 ∈ map fst (elements c)) (wires c) /\ NoDup (map fst (wires c))))
    as [(H1 & H2 & H3)|H]; [by left|right; intros [H1 H2 H3]; by apply H].
Defined.

(** The number of an element with a name. *)
Definition number (c : Config) (name : string) : nat := default 0%nat (eindex name 0 (elements c)).

Lemma eindex_spec name i es j :
  NoDup (map fst es) -> eindex name i es = Some j <-> (i <= j)%nat /\ map fst es !! (j - i)%nat = Some name.
Proof.
  revert i. induction es as [|e es IH]; intros i Hd; cbn [eindex map].
  - split; [done|]. intros [_ E]. by rewrite lookup_nil in E.
  - apply NoDup_cons in Hd as [Hn Hd]. destruct (decide (e.1 = name)) as [<-|Hne].
    + split.
      * intros [= <-]. by rewrite Nat.sub_diag.
      * intros [Hle E]. destruct (j - i)%nat as [|k] eqn:Ek; [f_equal; lia|]. cbn in E. exfalso. apply Hn.
        by eapply list_elem_of_lookup_2.
    + rewrite IH by done. split.
      * intros [Hle E]. split; [lia|]. by replace (j - i)%nat with (S (j - S i)) by lia.
      * intros [Hle E]. destruct (j - i)%nat as [|k] eqn:Ek; [by injection E|].
        split; [lia|]. by replace (j - S i)%nat with k by lia.
Qed.

Section config.
Context (c : Config) (Hc : well_named c).

Lemma number_lookup name : name ∈ map fst (elements c) -> map fst (elements c) !! number c name = Some name /\ (number c name < length (elements c))%nat.
Proof.
  intros Hin. apply list_elem_of_lookup_1 in Hin as [j Ej]. unfold number.
  assert (eindex name 0 (elements c) = Some j) as ->
    by (apply (eindex_spec name 0 _ j (wn_names c Hc)); rewrite Nat.sub_0_r; split; [lia|done]).
  cbn. split; [done|]. apply lookup_lt_Some in Ej. by rewrite length_map in Ej.
Qed.

Lemma number_of i name : map fst (elements c) !! i = Some name -> number c name = i.
Proof.
  intros E. unfold number.
  by rewrite (proj2 (eindex_spec name 0 (elements c) i (wn_names c Hc)))
    by (rewrite Nat.sub_0_r; split; [lia|done]).
Qed.

Lemma eindex_number name : name ∈ map fst (elements c) -> eindex name 0 (elements c) = Some (number c name).
Proof.
  intros Hin. apply (eindex_spec name 0 _ _ (wn_names c Hc)). rewrite Nat.sub_0_r. split; [lia|].
  by apply number_lookup.
Qed.

(** The connections by numbers. *)
Definition numbered (w : (string * Z) * (nat * string)) : (nat * Z) * (nat * nat) :=
  ((number c w.1.1, w.1.2), (number c w.2.2, w.2.1)).

Lemma hookup_numbered : hookup c = map numbered (wires c).
Proof.
  unfold hookup. enough (connections_of (elements c) (wires c) = Some (map numbered (wires c))) as -> by done.
  pose proof (wn_known c Hc) as Hk. induction Hk as [|w ws [H1 H2] _ IH]; [done|].
  cbn [connections_of map]. unfold connection. rewrite (eindex_number _ H1), (eindex_number _ H2), IH. done.
Qed.

(** Where an output leads, by names. *)
Fixpoint wire_from (name : string) (port : Z) (ws : list ((string * Z) * (nat * string))) : option (nat * string) :=
  match ws with
  | [] => None
  | w :: ws => if decide (w.1 = (name, port)) then Some w.2 else wire_from name port ws
  end.

Lemma target_wire name port :
  name ∈ map fst (elements c) -> target (hookup c) (number c name) port = (fun t => (number c t.2, t.1)) <$> wire_from name port (wires c).
Proof.
  intros Hin. rewrite hookup_numbered. unfold target. pose proof (wn_known c Hc) as Hk.
  induction Hk as [|w ws [H1 _] _ IH]; [done|]. destruct w as [[a p] [q b]].
  cbn [map target_in numbered fst snd wire_from] in *.
  destruct (decide ((a, p) = (name, port))) as [[= -> ->]|Hne].
  - by rewrite Nat.eqb_refl, Z.eqb_refl.
  - destruct (Nat.eqb_spec (number c a) (number c name)) as [E|E]; cbn [andb]; [|exact IH].
    destruct (Z.eqb_spec p port) as [->|Ep]; [|exact IH].
    destruct (number_lookup a H1) as [Ea _], (number_lookup name Hin) as [En _]. rewrite E in Ea. congruence.
Qed.
End config.

Lemma wire_from_spec name port ws t :
  NoDup (map fst ws) -> wire_from name port ws = Some t <-> ((name, port), t) ∈ ws.
Proof.
  induction ws as [|w ws IH]; intros Hd; cbn [wire_from map].
  - split; [done|]. by intros ?%elem_of_nil.
  - apply NoDup_cons in Hd as [Hn Hd]. destruct (decide (w.1 = (name, port))) as [E|Hne].
    + split.
      * intros [= <-]. rewrite <- E, <- surjective_pairing. by left.
      * intros [<-|Hin]%elem_of_cons; [done|]. exfalso. apply Hn. rewrite E.
        by apply (list_elem_of_fmap_2 fst) in Hin.
    + rewrite IH by done. rewrite elem_of_cons. split; [by right|]. intros [<-|Hin]; [by destruct Hne|done].
Qed.

Lemma wire_from_permuted name port ws ws' :
  NoDup (map fst ws) -> ws ≡ₚ ws' -> wire_from name port ws' = wire_from name port ws.
Proof.
  intros Hd Hp. assert (NoDup (map fst ws')) as Hd' by (by rewrite <- Hp).
  destruct (wire_from name port ws) as [t|] eqn:E.
  - apply wire_from_spec; [done|]. rewrite <- Hp. by apply wire_from_spec.
  - destruct (wire_from name port ws') as [t|] eqn:E'; [|done].
    apply wire_from_spec in E'; [|done]. rewrite <- Hp in E'. apply (wire_from_spec _ _ _ _ Hd) in E'. congruence.
Qed.

(** The ports that connections use, by names. *)
Definition wire_inputs (name : string) (ws : list ((string * Z) * (nat * string))) : nat :=
  foldr (fun w n => if decide (w.2.2 = name) then Nat.max (S w.2.1) n else n) 0%nat ws.
Definition wire_outputs (name : string) (ws : list ((string * Z) * (nat * string))) : nat :=
  foldr (fun w n => if decide (w.1.1 = name) then Nat.max (S (Z.to_nat w.1.2)) n else n) 0%nat ws.

Lemma foldr_max_permuted {A} (P : A -> Prop) `{!forall x, Decision (P x)} (f : A -> nat) (l l' : list A) :
  l ≡ₚ l' ->
  foldr (fun x n => if decide (P x) then Nat.max (f x) n else n) 0%nat l =
  foldr (fun x n => if decide (P x) then Nat.max (f x) n else n) 0%nat l'.
Proof.
  induction 1 as [|x l l' _ IH|x y l|l l2 l3 _ IH1 _ IH2]; cbn [foldr]; [done| | |by rewrite IH1].
  - by rewrite IH.
  - destruct (decide (P x)), (decide (P y)); lia.
Qed.

Lemma numbers_differ c name a :
  well_named c -> name ∈ map fst (elements c) -> a ∈ map fst (elements c) ->
  (number c a =? number c name)%nat = bool_decide (a = name).
Proof.
  intros Hc Hin Ha. case_bool_decide as E; [subst; apply Nat.eqb_refl|]. apply Nat.eqb_neq. intros En.
  destruct (number_lookup c Hc a Ha) as [Ea _], (number_lookup c Hc name Hin) as [Eb _]. rewrite En in Ea. congruence.
Qed.

Lemma ninputs_wire c name :
  well_named c -> name ∈ map fst (elements c) -> ninputs (hookup c) (number c name) = wire_inputs name (wires c).
Proof.
  intros Hc Hin. rewrite (hookup_numbered c Hc). pose proof (wn_known c Hc) as Hk.
  unfold ninputs, wire_inputs. induction Hk as [|w ws [_ H2] _ IH]; [done|].
  cbn [map foldr numbered fst snd]. rewrite IH, (numbers_differ c name w.2.2 Hc Hin H2).
  case_bool_decide as E; [by rewrite decide_True|by rewrite decide_False].
Qed.

Lemma noutputs_wire c name :
  well_named c -> name ∈ map fst (elements c) -> noutputs (hookup c) (number c name) = wire_outputs name (wires c).
Proof.
  intros Hc Hin. rewrite (hookup_numbered c Hc). pose proof (wn_known c Hc) as Hk.
  unfold noutputs, wire_outputs. induction Hk as [|w ws [H1 _] _ IH]; [done|].
  cbn [map foldr numbered fst snd]. rewrite IH, (numbers_differ c name w.1.1 Hc Hin H1).
  case_bool_decide as E; [by rewrite decide_True|by rewrite decide_False].
Qed.

(** ** Building *)

Lemma build_spec h i ds es :
  build h i ds = Ok es <->
  length es = length ds /\ forall j d, ds !! j = Some d -> exists e, build_element h (i + j) d = Ok e /\ es !! j = Some e.
Proof.
  revert i es. induction ds as [|d ds IH]; intros i es; cbn [build].
  - split.
    + intros [= <-]. split; [done|]. intros j d E. by rewrite lookup_nil in E.
    + intros [Hl _]. by rewrite (nil_length_inv es).
  - split.
    + destruct (build_element h i d) as [e|f] eqn:Ee; [|done]. cbn.
      destruct (build h (S i) ds) as [es1|f] eqn:E1; [|done]. cbn. intros [= <-].
      apply IH in E1 as [Hl Hj]. split; [by cbn; rewrite Hl|]. intros [|j] d' Ed; cbn in Ed.
      * injection Ed as <-. exists e. by rewrite Nat.add_0_r.
      * replace (i + S j)%nat with (S i + j)%nat by lia. by apply Hj.
    + intros [Hl Hj]. destruct es as [|e es]; [done|].
      destruct (Hj 0%nat d eq_refl) as (e1 & E1 & [= ->]). rewrite Nat.add_0_r in E1. rewrite E1. cbn.
      rewrite (proj2 (IH (S i) es)); [done|]. split; [by injection Hl|]. intros j d' Ed.
      destruct (Hj (S j) d' Ed) as (e2 & E2 & E3). exists e2. split; [|done].
      by replace (S i + j)%nat with (i + S j)%nat by lia.
Qed.

Lemma build_element_ports h h' i i' d :
  ninputs h' i' = ninputs h i -> noutputs h' i' = noutputs h i -> build_element h' i' d = build_element h i d.
Proof. intros E1 E2. destruct d; cbn [build_element]; by rewrite ?E1, ?E2. Qed.

(** ** Two orders of one configuration *)

Section permuted.
Context (c c' : Config) (Hc : well_named c).
Context (Helements : elements c ≡ₚ elements c') (Hwires : wires c ≡ₚ wires c').

Lemma well_named_permuted : well_named c'.
Proof.
  destruct Hc as [H1 H2 H3]. split.
  - by rewrite <- Helements.
  - rewrite <- Hwires. eapply Forall_impl; [exact H2|]. intros w [Ha Hb].
    rewrite <- Helements. done.
  - by rewrite <- Hwires.
Qed.

(** The number in [c'] of the element that [c] numbers [i]. *)
Definition renumber (i : nat) : nat := number c' (default EmptyString (map fst (elements c) !! i)).

Lemma named_element i : (i < length (elements c))%nat ->
  exists name, map fst (elements c) !! i = Some name /\ name ∈ map fst (elements c) /\ name ∈ map fst (elements c') /\
    number c name = i /\ renumber i = number c' name.
Proof.
  intros Hi. destruct (lookup_lt_is_Some_2 (map fst (elements c)) i) as [name E]; [by rewrite length_map|].
  exists name. pose proof (list_elem_of_lookup_2 _ _ _ E) as Hin. split_and!; [done|done|by rewrite <- Helements| |].
  - by apply number_of.
  - unfold renumber. by rewrite E.
Qed.

Lemma renumber_inj i j :
  (i < length (elements c))%nat -> (j < length (elements c))%nat -> renumber i = renumber j -> i = j.
Proof.
  intros Hi Hj E. destruct (named_element i Hi) as (a & Ea & _ & Ha & <- & Ra).
  destruct (named_element j Hj) as (b & Eb & _ & Hb & <- & Rb). rewrite Ra, Rb in E.
  destruct (number_lookup c' well_named_permuted a Ha) as [La _].
  destruct (number_lookup c' well_named_permuted b Hb) as [Lb _]. rewrite E in La. congruence.
Qed.

Lemma renumber_target i port :
  (i < length (elements c))%nat ->
  target (hookup c') (renumber i) port = (fun t => (renumber t.1, t.2)) <$> target (hookup c) i port.
Proof.
  intros Hi. destruct (named_element i Hi) as (name & _ & H1 & H2 & E & ->). rewrite <- E.
  rewrite (target_wire c' well_named_permuted name port H2), (target_wire c Hc name port H1).
  rewrite (wire_from_permuted name port (wires c) (wires c') (wn_outputs c Hc) Hwires).
  destruct (wire_from name port (wires c)) as [[q b]|] eqn:Ew; [|done]. cbn. repeat f_equal.
  apply (wire_from_spec _ _ _ _ (wn_outputs c Hc)) in Ew.
  pose proof (proj1 (Forall_forall _ _) (wn_known c Hc) _ Ew) as [_ Hb]. cbn in Hb.
  destruct (number_lookup c Hc b Hb) as [Lb _]. unfold renumber. by rewrite Lb.
Qed.

Lemma map_lookup {A B} (f : A -> B) l i : map f l !! i = f <$> l !! i.
Proof. apply list_lookup_fmap. Qed.

Lemma elements_lookup_name d i name e :
  elements d !! i = Some (name, e) -> map fst (elements d) !! i = Some name /\ decls d !! i = Some e.
Proof. intros E. unfold decls. by rewrite !map_lookup, E. Qed.

(** The element of [c] with the name and the declaration of one of [c']. *)
Lemma element_back j name e :
  elements c' !! j = Some (name, e) -> exists i, elements c !! i = Some (name, e) /\ number c name = i /\ number c' name = j.
Proof.
  intros E. pose proof (list_elem_of_lookup_2 _ _ _ E) as Hin. rewrite <- Helements in Hin.
  apply list_elem_of_lookup_1 in Hin as [i Ei]. exists i.
  apply elements_lookup_name in E as [E _]. pose proof (elements_lookup_name _ _ _ _ Ei) as [Ei' _].
  split_and!; [done|by apply number_of|by apply (number_of c' well_named_permuted)].
Qed.

Lemma build_renamed es :
  build (hookup c) 0 (decls c) = Ok es ->
  exists es', build (hookup c') 0 (decls c') = Ok es' /\ renamed (length (elements c)) renumber es es'.
Proof.
  intros [Hl Hb]%build_spec. unfold decls in Hl. rewrite length_map in Hl.
  exists (map (fun e => default (Discard 0) (es !! number c e.1)) (elements c')). split.
  - apply build_spec. split; [unfold decls; by rewrite !length_map|]. intros j d Ed. cbn [Nat.add].
    unfold decls in Ed. rewrite map_lookup in Ed. rewrite map_lookup.
    destruct (elements c' !! j) as [[name d']|] eqn:Ej; [|done]. injection Ed as ->. cbn [fmap option_fmap option_map fst].
    destruct (element_back j name d Ej) as (i & Ei & En & <-).
    apply elements_lookup_name in Ei as [Hi Hd]. destruct (Hb i d Hd) as (e & Ee & Ele). cbn [Nat.add] in Ee.
    exists e. rewrite En, Ele. split; [|done]. rewrite <- Ee, <- En.
    pose proof (list_elem_of_lookup_2 _ _ _ Hi) as Hin.
    assert (name ∈ map fst (elements c')) as Hin' by (by rewrite <- Helements).
    apply build_element_ports.
    + rewrite (ninputs_wire c' name well_named_permuted Hin'), (ninputs_wire c name Hc Hin).
      unfold wire_inputs. by apply foldr_max_permuted.
    + rewrite (noutputs_wire c' name well_named_permuted Hin'), (noutputs_wire c name Hc Hin).
      unfold wire_outputs. by apply foldr_max_permuted.
  - split; [done|]. intros i Hi. destruct (named_element i Hi) as (name & _ & _ & H2 & E & ->).
    destruct (number_lookup c' well_named_permuted name H2) as [L _].
    rewrite map_lookup in L. rewrite map_lookup.
    destruct (elements c' !! number c' name) as [[nm d]|]; [|done]. injection L as ->. cbn. rewrite E.
    destruct (lookup_lt_is_Some_2 es i) as [e He]; [lia|]. by rewrite He.
Qed.

(** Both are built, and runs at the same element leave every element in the same
    state. *)
Lemma permuted_runs es name fuel ps r ks :
  build (hookup c) 0 (decls c) = Ok es -> name ∈ map fst (elements c) ->
  router_run_from (hookup c) fuel (number c name) ps es = Ok (r, ks) ->
  exists es' r' ks', build (hookup c') 0 (decls c') = Ok es' /\
    router_run_from (hookup c') fuel (number c' name) ps es' = Ok (r', ks') /\
    forall x, x ∈ map fst (elements c) -> r' !! number c' x = r !! number c x.
Proof.
  intros Eb Hin Er. destruct (build_renamed es Eb) as (es' & Eb' & Hr).
  destruct (router_run_follows _ _ _ _ renumber_inj renumber_target _ _ _ _ _ _ _ Hr Er) as (r' & ks' & Er' & Hr').
  assert (forall x, x ∈ map fst (elements c) -> renumber (number c x) = number c' x) as Hre.
  { intros x Hx. unfold renumber. by rewrite (proj1 (number_lookup c Hc x Hx)). }
  rewrite (Hre name Hin) in Er'. exists es', r', ks'. split_and!; [done..|]. intros x Hx. rewrite <- (Hre x Hx).
  apply Hr'. by apply number_lookup.
Qed.
End permuted.
