(* ===== verification/ConfigText.v ===== *)
(** * ConfigText: the files of indicator_configs, read by the lexer

    The texts of the nine configurations as they are in the files, the arguments the
    elements' [configure] methods read from them with [Args], and that the lexer
    makes of each file the graph of Configs.v, with the capture device and the trade
    processor in front of it. *)

From Stdlib Require Import String.
From S2P Require Import Prelude ConfParse Lexer FixedPt IndicatorBase Sources Router Configs Renaming.
Import Args Router.

(** ** The arguments of the elements *)

(** The value of the variables when the arguments are in order. *)
Definition executed {A} (a : Args) (v : A) : option A := if 0 <=? execute a then Some v else None.
Definition completed {A} (a : Args) (v : A) : option A := if 0 <=? complete a then Some v else None.

(** [BUF_SIZE] and [OP_MODE] *)
Definition IndicatorBase_args (conf : list bytes) : option (Z * Z) :=
  let '(a, _) := read_bool "DEBUG" 0 (Args_new conf) in
  let '(a, buffer_size) := read_int "BUF_SIZE" 0 a in
  let '(a, op_mode) := read_int "OP_MODE" mandatory a in
  executed a (default 10 buffer_size, default 1 op_mode).

Definition EwmaIncremental_args (conf : list bytes) : option Z :=
  let '(a, alpha) := read_int "ALPHA_PERIODS" mandatory (Args_new conf) in executed a (default 0 alpha).

Definition Sum_args (conf : list bytes) : option Z :=
  let '(a, periods) := read_int "SUM_PERIODS" mandatory (Args_new conf) in executed a (default 0 periods).

(** The ports of the close, the high, the low, the open price and the volume. *)
Definition SourceSplit_args (conf : list bytes) : option (option Z * option Z * option Z * option Z * option Z) :=
  let '(a, _) := read_bool "DEBUG" 0 (Args_new conf) in
  let '(a, close) := read_int "CLOSE" 0 a in
  let '(a, high) := read_int "HIGH" 0 a in
  let '(a, low) := read_int "LOW" 0 a in
  let '(a, open) := read_int "OPEN" 0 a in
  let '(a, volume) := read_int "VOLUME" 0 a in
  completed a (close, high, low, open, volume).

Definition StatPrinter_args (conf : list bytes) : option (option Z * option bool * option bool) :=
  let '(a, interval) := read_int "REPORT_INTERVAL" 0 (Args_new conf) in
  let '(a, combined) := read_bool "COMBINED_MODE" 0 a in
  let '(a, longest) := read_bool "LD" 0 a in
  completed a (interval, combined, longest).

Definition Timestamper_args (conf : list bytes) : option (option bool * option bool) :=
  let '(a, print_avg) := read_bool "PRINTAVG" 0 (Args_new conf) in
  let '(a, replace_tstamp) := read_bool "REPLACETSTAMP" 0 a in
  completed a (print_avg, replace_tstamp).

Definition ReuseTee_args (conf : list bytes) : option (option Z) :=
  let '(a, n) := read_unsigned "N" positional (Args_new conf) in completed a n.

(** The interval, and the words of the routes. *)
Definition TradeProcessor_args (conf : list bytes) : option (option Z * list bytes) :=
  let '(a, interval) := read_int "AGGREGATION_INTERVAL_SEC" 0 (Args_new conf) in
  let '(a, symbols_ports) := read_string "SYMBOLS_ROUTING" 0 a in
  let '(a, _) := read_bool "DEBUG" 0 a in
  completed a (interval, cp_spacevec (default [] symbols_ports)).

(** ** Declarations *)

(** An element of a file: the capture device with its configuration, the trade
    processor with its interval and its routes, or an element of the graph. *)
Inductive Declared :=
| DDevice (conf : bytes)
| DTradeProcessor (interval : option Z) (words : list bytes)
| DGraph (d : Decl).
#[global] Instance RouterKind_eq_dec : EqDecision Kind.
Proof. solve_decision. Defined.
#[global] Instance Decl_eq_dec : EqDecision Decl.
Proof. solve_decision. Defined.
#[global] Instance Declared_eq_dec : EqDecision Declared.
Proof. solve_decision. Defined.

(** The class names of the indicators, as [class_name] gives them. *)
Definition indicators : list (string * Kind) :=
  [("EwmaIncremental", KEwma); ("Sum", KSum); ("Pdm", KPdm); ("Ndm", KNdm); ("NewTrueRange", KNewTrueRange);
   ("Vmu", KVmu); ("Vmd", KVmd); ("Pdi", KPdi); ("Ndi", KNdi); ("Viu", KViu); ("Vid", KVid); ("Dx", KDx); ("Trix", KTrix)]%string.

Definition classes : list bytes :=
  map bytes_of_string
    (map fst indicators ++ ["FromDevice"%string; "TradeProcessor"%string; "SourceSplit"%string; "ReuseTee"%string;
                            "Timestamper"%string; "StatPrinter"%string; "Discard"%string]).

Fixpoint lookup_class (class : bytes) (l : list (string * Kind)) : option Kind :=
  match l with
  | [] => None
  | c :: l => if decide (bytes_of_string (fst c) = class) then Some (snd c) else lookup_class class l
  end.

Definition Discard_args (conf : list bytes) : option (option bool * option Z) :=
  let '(a, active) := read_bool "ACTIVE" 0 (Args_new conf) in
  let '(a, burst) := read_unsigned "BURST" 0 a in
  completed a (active, burst).

(** The periods an indicator reads besides the arguments of all of them. *)
Definition periods_of (k : Kind) (conf : list bytes) : option Z :=
  match k with
  | KEwma => EwmaIncremental_args conf
  | KSum => Sum_args conf
  | _ => None
  end.

(** The declaration of an element with a class and a configuration; [None] for
    classes that no file uses and arguments that a [Decl] does not have. *)
Definition declare (class conf : bytes) : option Declared :=
  let args := cp_argvec conf in
  let named (n : string) := bool_decide (class = bytes_of_string n) in
  match lookup_class class indicators with
  | Some k =>
      match IndicatorBase_args args with
      | Some (buffer_size, op_mode) => Some (DGraph (DIndicator k (periods_of k args) buffer_size op_mode))
      | None => None
      end
  | None =>
      if named "FromDevice"%string then Some (DDevice conf)
      else if named "TradeProcessor"%string then
        match TradeProcessor_args args with Some (interval, words) => Some (DTradeProcessor interval words) | None => None end
      else if named "SourceSplit"%string then
        match SourceSplit_args args with
        | Some (close, high, low, None, None) => Some (DGraph (DSourceSplit close high low))
        | _ => None
        end
      else if named "ReuseTee"%string then
        match ReuseTee_args args with Some None => Some (DGraph DReuseTee) | _ => None end
      else if named "Timestamper"%string then
        match Timestamper_args args with Some (None, None) => Some (DGraph DTimestamper) | _ => None end
      else if named "StatPrinter"%string then
        match StatPrinter_args args with Some (None, None, None) => Some (DGraph DStatPrinter) | _ => None end
      else if named "Discard"%string then
        match Discard_args args with Some (None, None) => Some (DGraph DDiscard) | _ => None end
      else None
  end.

(** The name of an element without the number that makes an anonymous one unique. *)
Definition label (name : bytes) : bytes :=
  match split_right 64 name with
  | Some (pre, _) => removelast pre
  | None => name
  end.

Fixpoint string_of_bytes (b : bytes) : string :=
  match b with
  | [] => EmptyString
  | c :: b => String (Ascii.ascii_of_nat (Z.to_nat c)) (string_of_bytes b)
  end.

(** The elements of a router by their labels. *)
Definition labels (r : RouterConf) : list string := map (fun e => string_of_bytes (label (snd (fst e)))) (router_elements r).
Definition declared_elements (r : RouterConf) : list (string * option Declared) :=
  zip (labels r) (map (fun e => declare (fst (fst e)) (snd e)) (router_elements r)).

Definition wire : Type := (string * Z) * (nat * string).
Definition named_wires (r : RouterConf) : list wire :=
  let names := labels r in
  let label_at i := default EmptyString (names !! Z.to_nat i) in
  map (fun c => ((label_at (idx (from_ c)), port (from_ c)), (Z.to_nat (port (to_ c)), label_at (idx (to_ c))))) (router_conn r).

(** The graph behind the capture device and the trade processor, in the order of
    the file, and what is in front of it. *)
Definition graph_elements (r : RouterConf) : list (string * Decl) :=
  omap (fun e => match snd e with Some (DGraph d) => Some (fst e, d) | _ => None end) (declared_elements r).
Definition front_elements (r : RouterConf) : list (string * option Declared) :=
  filter (fun e => match snd e with Some (DGraph _) => false | _ => true end = true) (declared_elements r).
Definition in_graph (names : list string) (w : wire) : bool :=
  bool_decide (fst (fst w) ∈ names) && bool_decide (snd (snd w) ∈ names).
Definition graph_config (r : RouterConf) : Config :=
  let es := graph_elements r in
  let names := map fst es in
  mkConfig es (filter (fun w => in_graph names w = true) (named_wires r)).
Definition front_wires (r : RouterConf) : list wire :=
  let names := map fst (graph_elements r) in
  filter (fun w => in_graph names w = false) (named_wires r).

(** ** The files *)

(** Lines of text.  A back quote stands for a double quote, and no file has one. *)
Definition text_of (lines : list string) : bytes :=
  concat (map (fun l => map (fun c => if c =? 96 then c_dquote else c) (bytes_of_string l) ++ [c_nl]) lines).

#[local] Open Scope string_scope.

(** trix.click, trix_opt.click, trix_naive.click *)
Definition trix_text (op_mode : string) : bytes := text_of [
   EmptyString;
   "input_device          :: FromDevice (eth0)";
   EmptyString;
   "//symbol_filter         :: MsgFilterSymbol (ALLOW_SYMBOLS `LLOYl BARCl`)";
   EmptyString;
   "//trade_processor       :: TradeProcessor (AGGREGATION_INTERVAL_SEC 10, SYMBOLS_ROUTING `LLOYl 0 BARCl 1`)";
   "trade_processor       :: TradeProcessor (AGGREGATION_INTERVAL_SEC 10, SYMBOLS_ROUTING `BPl 0`, DEBUG false)";
   EmptyString;
   "ewma_1, ewma_2, ewma_3  :: EwmaIncremental (ALPHA_PERIODS 13, BUF_SIZE 13, DEBUG false, IN_PORTS 1, OP_MODE " +:+ op_mode +:+ ")";
   EmptyString;
   "trix                  :: Trix (BUF_SIZE 13, DEBUG false, IN_PORTS 1, OP_MODE " +:+ op_mode +:+ ")";
   EmptyString;
   "split_1               :: SourceSplit (CLOSE 0, DEBUG  false)";
   EmptyString;
   "tstamp                :: Timestamper";
   EmptyString;
   "stats                 :: StatPrinter";
   EmptyString;
   EmptyString;
   "// my new attempt";
   "input_device -> trade_processor[0] -> tstamp -> split_1[0] -> ewma_1 -> ewma_2 -> ewma_3 -> trix -> stats-> Discard;";
   EmptyString].

(** dmi_opt.click, dmi_naive.click *)
Definition dmi_text (op_mode : string) : bytes := text_of [
   EmptyString;
   "input_device          :: FromDevice (eth0)";
   EmptyString;
   "//symbol_filter         :: MsgFilterSymbol (ALLOW_SYMBOLS `LLOYl BARCl`)";
   EmptyString;
   "//trade_processor       :: TradeProcessor (AGGREGATION_INTERVAL_SEC 10, SYMBOLS_ROUTING `LLOYl 0 BARCl 1`)";
   "trade_processor         :: TradeProcessor (AGGREGATION_INTERVAL_SEC 10, SYMBOLS_ROUTING `BPl 0`, DEBUG false)";
   EmptyString;
   "split_1                 :: SourceSplit (HIGH 0, LOW 1, CLOSE 2, DEBUG  false)";
   EmptyString;
   "tee_high, tee_low,";
   " tee_ewma_tr            :: ReuseTee";
   EmptyString;
   "pdm                     :: Pdm (DEBUG false, OP_MODE " +:+ op_mode +:+ ")";
   "ndm                     :: Ndm (DEBUG false, OP_MODE " +:+ op_mode +:+ ")";
   EmptyString;
   "tr                      :: NewTrueRange (DEBUG false, OP_MODE " +:+ op_mode +:+ ")";
   EmptyString;
   "ewma_pdm, ewma_ndm,";
   "      ewma_tr, ewma_dx  :: EwmaIncremental (ALPHA_PERIODS 13, BUF_SIZE 13, DEBUG false, OP_MODE " +:+ op_mode +:+ ")";
   EmptyString;
   "pdi                     :: Pdi (DEBUG false, OP_MODE " +:+ op_mode +:+ ")";
   "ndi                     :: Ndi (DEBUG false, OP_MODE " +:+ op_mode +:+ ")";
   EmptyString;
   "dx                      :: Dx (DEBUG false, OP_MODE " +:+ op_mode +:+ ")";
   EmptyString;
   "tstamp                  :: Timestamper";
   EmptyString;
   "stats                   :: StatPrinter";
   EmptyString;
   "// -------------------";
   EmptyString;
   "input_device -> trade_processor[0] -> tstamp -> split_1[0] -> tee_high; split_1[1] -> tee_low; split_1[2] -> [2]tr;";
   EmptyString;
   "tee_high[0] -> [0]pdm; tee_high[1] -> [0]ndm; tee_high[2] -> [0]tr;";
   "tee_low[0]  -> [1]pdm; tee_low[1]  -> [1]ndm; tee_low[2]  -> [1]tr;";
   EmptyString;
   "pdm -> ewma_pdm;";
   "ndm -> ewma_ndm;";
   "tr  -> ewma_tr -> tee_ewma_tr;";
   EmptyString;
   "ewma_pdm -> [0]pdi;";
   "ewma_ndm -> [0]ndi;";
   EmptyString;
   "tee_ewma_tr[0] -> [1]pdi;";
   "tee_ewma_tr[1] -> [1]ndi;";
   EmptyString;
   "pdi -> [0]dx;";
   "ndi -> [1]dx;";
   EmptyString;
   "dx -> ewma_dx -> stats -> Discard;";
   EmptyString;
   EmptyString;
   EmptyString].

(** dmi_tee.click *)
Definition dmi_tee_text (op_mode : string) : bytes := text_of [
   EmptyString;
   "input_device          :: FromDevice (eth0)";
   EmptyString;
   "//symbol_filter         :: MsgFilterSymbol (ALLOW_SYMBOLS `LLOYl BARCl`)";
   EmptyString;
   "//trade_processor       :: TradeProcessor (AGGREGATION_INTERVAL_SEC 10, SYMBOLS_ROUTING `LLOYl 0 BARCl 1`)";
   "trade_processor         :: TradeProcessor (AGGREGATION_INTERVAL_SEC 10, SYMBOLS_ROUTING `BPl 0`, DEBUG false)";
   EmptyString;
   "split_1                 :: SourceSplit (HIGH 0, LOW 1, CLOSE 2, DEBUG  false)";
   EmptyString;
   "tee_high, tee_low,";
   " tee_ewma_tr            :: ReuseTee";
   EmptyString;
   "pdm                     :: Pdm (DEBUG false, OP_MODE " +:+ op_mode +:+ ")";
   "ndm                     :: Ndm (DEBUG false, OP_MODE " +:+ op_mode +:+ ")";
   EmptyString;
   "tr                      :: NewTrueRange (DEBUG false, OP_MODE " +:+ op_mode +:+ ")";
   EmptyString;
   "ewma_pdm, ewma_ndm,";
   "      ewma_tr, ewma_dx  :: EwmaIncremental (ALPHA_PERIODS 13, BUF_SIZE 13, DEBUG false, OP_MODE " +:+ op_mode +:+ ")";
   EmptyString;
   "pdi                     :: Pdi (DEBUG false, OP_MODE " +:+ op_mode +:+ ")";
   "ndi                     :: Ndi (DEBUG false, OP_MODE " +:+ op_mode +:+ ")";
   EmptyString;
   "dx                      :: Dx (DEBUG false, OP_MODE " +:+ op_mode +:+ ")";
   EmptyString;
   "stats                   :: StatPrinter";
   EmptyString;
   "// -------------------";
   EmptyString;
   "input_device -> trade_processor[0] -> split_1[0] -> tee_high; split_1[1] -> tee_low; split_1[2] -> [2]tr;";
   EmptyString;
   "tee_high[0] -> [0]pdm; tee_high[1] -> [0]ndm; tee_high[2] -> [0]tr;";
   "tee_low[0]  -> [1]pdm; tee_low[1]  -> [1]ndm; tee_low[2]  -> [1]tr;";
   EmptyString;
   "pdm -> ewma_pdm;";
   "ndm -> ewma_ndm;";
   "tr  -> ewma_tr -> tee_ewma_tr;";
   EmptyString;
   "ewma_pdm -> [0]pdi;";
   "ewma_ndm -> [0]ndi;";
   EmptyString;
   "tee_ewma_tr[0] -> [1]pdi;";
   "tee_ewma_tr[1] -> [1]ndi;";
   EmptyString;
   "pdi -> [0]dx;";
   "ndi -> [1]dx;";
   EmptyString;
   "dx -> ewma_dx -> stats -> Discard;";
   EmptyString;
   EmptyString;
   EmptyString].

(** vortex_opt.click, vortex_naive.click *)
Definition vortex_text (op_mode : string) : bytes := text_of [
   EmptyString;
   "input_device          :: FromDevice (eth0)";
   EmptyString;
   "//symbol_filter         :: MsgFilterSymbol (ALLOW_SYMBOLS `LLOYl BARCl`)";
   EmptyString;
   "//trade_processor       :: TradeProcessor (AGGREGATION_INTERVAL_SEC 10, SYMBOLS_ROUTING `LLOYl 0 BARCl 1`)";
   "trade_processor         :: TradeProcessor (AGGREGATION_INTERVAL_SEC 10, SYMBOLS_ROUTING `BPl 0`, DEBUG false)";
   EmptyString;
   "split_1                 :: SourceSplit (HIGH 0, LOW 1, CLOSE 2, DEBUG  false)";
   EmptyString;
   "tee_high, tee_low,";
   "  tee_sum_tr            :: ReuseTee";
   EmptyString;
   "vmu                     :: Vmu (DEBUG false, OP_MODE " +:+ op_mode +:+ ")";
   "vmd                     :: Vmd (DEBUG false, OP_MODE " +:+ op_mode +:+ ")";
   EmptyString;
   "tr                      :: NewTrueRange (DEBUG false, OP_MODE " +:+ op_mode +:+ ")";
   EmptyString;
   "sum_vmu, sum_vmd, sum_tr:: Sum (DEBUG false, OP_MODE " +:+ op_mode +:+ ", SUM_PERIODS 13, BUF_SIZE 13)";
   EmptyString;
   "viu                     :: Viu (DEBUG false, OP_MODE " +:+ op_mode +:+ ")";
   "vid                     :: Vid (DEBUG false, OP_MODE " +:+ op_mode +:+ ")";
   EmptyString;
   "tstamp                  :: Timestamper";
   EmptyString;
   "stats                   :: StatPrinter";
   EmptyString;
   "// -------------------";
   EmptyString;
   "input_device -> trade_processor[0] -> tstamp -> split_1[0] -> tee_high; split_1[1] -> tee_low; split_1[2] -> [2]tr;";
   EmptyString;
   "tee_high[0] -> [0]vmu; tee_high[1] -> [0]vmd; tee_high[2] -> [0]tr;";
   "tee_low[0]  -> [1]vmu; tee_low[1]  -> [1]vmd; tee_low[2]  -> [1]tr;";
   EmptyString;
   "vmu -> sum_vmu;";
   "vmd -> sum_vmd;";
   "tr  -> sum_tr -> tee_sum_tr;";
   EmptyString;
   "sum_vmu -> [0]viu;";
   "sum_vmd -> [0]vid;";
   EmptyString;
   "tee_sum_tr[0] -> [1]viu;";
   "tee_sum_tr[1] -> [1]vid -> stats -> Discard;";
   EmptyString;
   EmptyString].

(** vortex_tee.click *)
Definition vortex_tee_text (op_mode : string) : bytes := text_of [
   EmptyString;
   "input_device          :: FromDevice (eth0)";
   EmptyString;
   "//symbol_filter         :: MsgFilterSymbol (ALLOW_SYMBOLS `LLOYl BARCl`)";
   EmptyString;
   "//trade_processor       :: TradeProcessor (AGGREGATION_INTERVAL_SEC 10, SYMBOLS_ROUTING `LLOYl 0 BARCl 1`)";
   "trade_processor         :: TradeProcessor (AGGREGATION_INTERVAL_SEC 10, SYMBOLS_ROUTING `BPl 0`, DEBUG false)";
   EmptyString;
   "split_1                 :: SourceSplit (HIGH 0, LOW 1, CLOSE 2, DEBUG false)";
   EmptyString;
   "tee_high, tee_low,";
   "  tee_sum_tr            :: ReuseTee";
   EmptyString;
   "vmu                     :: Vmu (DEBUG false, OP_MODE " +:+ op_mode +:+ ")";
   "vmd                     :: Vmd (DEBUG false, OP_MODE " +:+ op_mode +:+ ")";
   EmptyString;
   "tr                      :: NewTrueRange (DEBUG false, OP_MODE " +:+ op_mode +:+ ")";
   EmptyString;
   "sum_vmu, sum_vmd, sum_tr:: Sum (DEBUG false, OP_MODE " +:+ op_mode +:+ ", SUM_PERIODS 13, BUF_SIZE 13)";
   EmptyString;
   "viu                     :: Viu (DEBUG false, OP_MODE " +:+ op_mode +:+ ")";
   "vid                     :: Vid (DEBUG false, OP_MODE " +:+ op_mode +:+ ")";
   EmptyString;
   "stats                   :: StatPrinter";
   EmptyString;
   "// -------------------";
   EmptyString;
   "input_device -> trade_processor[0] -> split_1[0] -> tee_high; split_1[1] -> tee_low; split_1[2] -> [2]tr;";
   EmptyString;
   "tee_high[0] -> [0]vmu; tee_high[1] -> [0]vmd; tee_high[2] -> [0]tr;";
   "tee_low[0]  -> [1]vmu; tee_low[1]  -> [1]vmd; tee_low[2]  -> [1]tr;";
   EmptyString;
   "vmu -> sum_vmu;";
   "vmd -> sum_vmd;";
   "tr  -> sum_tr -> tee_sum_tr;";
   EmptyString;
   "sum_vmu -> [0]viu;";
   "sum_vmd -> [0]vid;";
   EmptyString;
   "tee_sum_tr[0] -> [1]viu;";
   "tee_sum_tr[1] -> [1]vid -> stats -> Discard;";
   EmptyString;
   EmptyString].


Definition files : list (bytes * Config) :=
  [(trix_text "2", trix); (trix_text "2", trix_opt); (trix_text "1", trix_naive);
   (dmi_text "2", dmi_opt); (dmi_text "1", dmi_naive); (dmi_tee_text "2", dmi_tee);
   (vortex_text "2", vortex_opt); (vortex_text "1", vortex_naive); (vortex_tee_text "2", vortex_tee)].
#[local] Close Scope string_scope.

(** What every file has in front of its graph, which starts with the element
    [first]. *)
Definition front_declared : list (string * option Declared) :=
  [("input_device"%string, Some (DDevice (bytes_of_string "eth0")));
   ("trade_processor"%string, Some (DTradeProcessor (Some 10) [bytes_of_string "BPl"; bytes_of_string "0"]))].
Definition front_connected (first : string) : list wire :=
  [(("input_device"%string, 0), (0%nat, "trade_processor"%string)); (("trade_processor"%string, 0), (0%nat, first))].

Definition first_element (c : Config) : string := default EmptyString (head (map fst (elements c))).

(** A file is read as a graph: without errors, with the device and the processor in
    front, and with the elements and the connections of the graph in some order. *)
Definition read_as (text : bytes) (c : Config) : Prop :=
  match click_read_router classes text [] with
  | Value (r, errors) =>
      errors = [] /\ front_elements r = front_declared /\ front_wires r ≡ₚ front_connected (first_element c) /\
      elements c ≡ₚ elements (graph_config r) /\ wires c ≡ₚ wires (graph_config r)
  | _ => False
  end.
#[global] Instance read_as_dec text c : Decision (read_as text c).
Proof. unfold read_as. destruct (click_read_router classes text []) as [[r errors]| | |]; apply _. Defined.

Lemma files_read : Forall (fun f => read_as (fst f) (snd f)) files.
Proof. apply (bool_decide_unpack _). vm_compute. exact I. Qed.

Lemma configs_well_named : Forall (fun f => well_named (snd f) /\ elements (snd f) <> []) files.
Proof. apply (bool_decide_unpack _). vm_compute. exact I. Qed.

(** The graph of a file that is read as a configuration runs as the configuration. *)
Lemma read_as_runs r c fuel ps es es1 kls :
  well_named c -> elements c <> [] -> elements c ≡ₚ elements (graph_config r) -> wires c ≡ₚ wires (graph_config r) ->
  build (hookup c) 0 (decls c) = Ok es -> router_run (hookup c) fuel ps es = Ok (es1, kls) ->
  let c' := graph_config r in
  exists es' es1' kls', build (hookup c') 0 (decls c') = Ok es' /\
    router_run_from (hookup c') fuel (number c' (first_element c)) ps es' = Ok (es1', kls') /\
    forall name, name ∈ map fst (elements c) -> es1' !! number c' name = es1 !! number c name.
Proof.
  intros Hw Hn He Hwi Eb Er c'. rewrite <- router_run_from_first in Er.
  assert (number c (first_element c) = 0%nat /\ first_element c ∈ map fst (elements c)) as [E0 Hin].
  { unfold number, first_element. destruct (elements c) as [|e l]; [done|]. cbn. rewrite decide_True by done. split; [done|by left]. }
  rewrite <- E0 in Er. exact (permuted_runs c c' Hw He Hwi es (first_element c) fuel ps es1 kls Eb Hin Er).
Qed.

Module FileProps.

(** C9: A configuration file runs as its graph.  Each of the nine files is read
    without an error; the router that is made of it has the capture device, the
    trade processor with its interval and its route, and behind them a graph which
    is that of Configs.v but for the order in which the file lists the elements.
    The order does not matter: whatever packets the graph of Configs.v is run with
    successfully, the router of the file is built and runs with them too, from the
    element the trade processor is connected to, and leaves every element in the
    same state. *)
Theorem file_runs_as_graph text c (Hf : (text, c) ∈ files) :
  exists r, click_read_router classes text [] = Value (r, []) /\
    front_elements r = front_declared /\ front_wires r ≡ₚ front_connected (first_element c) /\
    forall fuel ps es es1 kls,
      build (hookup c) 0 (decls c) = Ok es -> router_run (hookup c) fuel ps es = Ok (es1, kls) ->
      let c' := graph_config r in
      exists es' es1' kls', build (hookup c') 0 (decls c') = Ok es' /\
        router_run_from (hookup c') fuel (number c' (first_element c)) ps es' = Ok (es1', kls') /\
        forall name, name ∈ map fst (elements c) -> es1' !! number c' name = es1 !! number c name.
Proof.
  pose proof (proj1 (Forall_forall _ _) files_read _ Hf) as Hr.
  pose proof (proj1 (Forall_forall _ _) configs_well_named _ Hf) as [Hw Hn].
  clear Hf. change (read_as text c) in Hr. change (well_named c) in Hw. change (elements c <> []) in Hn.
  unfold read_as in Hr.
  destruct (click_read_router classes text []) as [[r errors]| | |]; [|contradiction..].
  destruct Hr as (-> & Hfe & Hfw & He & Hwi). exists r. split; [reflexivity|]. split; [exact Hfe|]. split; [exact Hfw|].
  intros fuel ps es es1 kls Eb Er. exact (read_as_runs r c fuel ps es es1 kls Hw Hn He Hwi Eb Er).
Qed.

Lemma file_runs_as_graph_witness :
  (trix_text "2"%string, trix) ∈ files /\
  exists r, click_read_router classes (trix_text "2"%string) [] = Value (r, []) /\ front_elements r = front_declared.
Proof.
  assert ((trix_text "2"%string, trix) ∈ files) as Hf by (apply elem_of_cons; left; reflexivity).
  split; [exact Hf|].
  destruct (file_runs_as_graph (trix_text "2"%string) trix Hf) as (r & E & H & _).
  exists r. split; [exact E|exact H].
Defined.

End FileProps.
