(* ===== verification/HookupFiles.v ===== *)
(** * HookupFiles: the configuration files pass the hookup

    The port counts and the processing that the classes of the nine configurations
    declare, and that the router made of each file is hooked up: with push ports only,
    and with the numbers of ports that the graphs of Configs.v are built for. *)

From Stdlib Require Import String Sorting.Sorted.
From S2P Require Import Prelude ConfParse Lexer Sorting Hookup HookupProps Router Configs Renaming ConfigText.

(** The [port_count] and [processing] methods.  Classes without the latter are agnostic;
    none of them has a flow code of its own. *)
Definition AGNOSTIC : bytes := bytes_of_string "a".
Definition PUSH : bytes := bytes_of_string "h".
Definition PORTS_1_0 : bytes := bytes_of_string "1/0".

Definition IndicatorBase_class : ElementClass := mkClass (bytes_of_string "1-/-") AGNOSTIC None.
Definition SourceSplit_class : ElementClass := mkClass (bytes_of_string "1/-") AGNOSTIC None.
Definition Timestamper_class : ElementClass := mkClass (bytes_of_string "1/1") AGNOSTIC None.
Definition StatPrinter_class : ElementClass := mkClass (bytes_of_string "1-/-") AGNOSTIC None.
Definition TradeProcessor_class : ElementClass := mkClass (bytes_of_string "1/-") AGNOSTIC None.
Definition ReuseTee_class : ElementClass := mkClass (bytes_of_string "1/1-") PUSH None.
Definition Discard_class : ElementClass := mkClass PORTS_1_0 AGNOSTIC None.
Definition FromDevice_class : ElementClass := mkClass (bytes_of_string "0/1-2") PUSH None.

Definition element_classes : list (string * ElementClass) :=
  map (fun i => (fst i, IndicatorBase_class)) indicators ++
  [("FromDevice", FromDevice_class); ("TradeProcessor", TradeProcessor_class); ("SourceSplit", SourceSplit_class);
   ("ReuseTee", ReuseTee_class); ("Timestamper", Timestamper_class); ("StatPrinter", StatPrinter_class);
   ("Discard", Discard_class)]%string.

Fixpoint class_of (class : bytes) (l : list (string * ElementClass)) : option ElementClass :=
  match l with
  | [] => None
  | c :: l => if decide (bytes_of_string (fst c) = class) then Some (snd c) else class_of class l
  end.

(** The router of a configuration whose classes are all known. *)
Definition router_of (r : RouterConf) : option Hookup.Router :=
  match mapM (fun e => class_of (fst (fst e)) element_classes) (router_elements r) with
  | Some cs => Some (new_router cs (router_conn r) (conn_sorted r))
  | None => None
  end.

(** The ports of the elements of the graph are those its connections use, but for the
    input of the first element, which the trade processor is connected to. *)
Definition ports_as_built (r : RouterConf) (c : Config) (n : list (Z * Z)) : bool :=
  let c' := graph_config r in
  forallb (fun x : string * (Z * Z) =>
    if bool_decide (x.1 ∈ map fst (elements c')) then
      (bool_decide (x.1 = first_element c) || (x.2.1 =? Z.of_nat (Router.ninputs (hookup c') (number c' x.1)))) &&
      (x.2.2 =? Z.of_nat (Router.noutputs (hookup c') (number c' x.1)))
    else true) (zip (labels r) n).

Definition sorted_conn (conn : list Connection) : bool :=
  forallb (fun x : Connection * Connection => negb (connection_lt x.2 x.1)) (zip conn (tail conn)).

Lemma sorted_conn_spec conn : sorted_conn conn = true ->
  StronglySorted (fun x y => click_compare connection_lt x y <= 0) conn.
Proof.
  intros H. apply Sorted_StronglySorted; [intros x y z; apply compar_trans|].
  induction conn as [|x conn IH]; constructor.
  - apply IH. destruct conn as [|y conn]; [done|]. by apply andb_true_iff in H as [_ H].
  - destruct conn as [|y conn]; constructor. apply andb_true_iff in H as [H _].
    apply (click_compare_le connection_lt). by apply negb_true_iff.
Qed.

(** The file is read, its router is hooked up without an error, all ports are push, and
    their numbers are those of the graph. *)
Definition hooks_up (text : bytes) (c : Config) : bool :=
  match click_read_router classes text [] with
  | Value (r, []) =>
      match router_of r with
      | Some r0 =>
          (Z.of_nat (length (_conn r0)) <? 2 ^ 64) && sorted_conn (_conn r0) &&
          match Hookup.hookup r0 with
          | Ok (Some (r', true), []) =>
              forallb (fun o => forallb (fun p => negb (pulls r' o p)) (all_ports r' o)) [false; true] &&
              ports_as_built r c (nports r')
          | _ => false
          end
      | None => false
      end
  | _ => false
  end.

Lemma files_hooks_up : forallb (fun f => hooks_up (fst f) (snd f)) files = true.
Proof. vm_compute. reflexivity. Qed.

Lemma router_of_flowing r r0 : router_of r = Some r0 -> Shaped r0 /\ forall n, Flowing (with_nports n r0).
Proof.
  unfold router_of. destruct (mapM _ _) as [cs|] eqn:E; [|done]. intros [= <-]. split; [apply new_router_shaped|].
  intros n. apply complete_flowing; [done|]. cbn. apply mapM_Some in E.
  apply Forall_forall. intros x Hx. apply list_elem_of_lookup in Hx as [i Hi].
  destruct (Forall2_lookup_r _ _ _ _ _ E Hi) as (e & _ & Hc). revert Hc. generalize (fst (fst e)) as class. intros class.
  assert (Forall (fun c => flow_code (snd c) = None) element_classes) as Hall by (by repeat constructor).
  clear E. induction Hall as [|c l Hc _ IH]; [done|]. simpl. case_decide; [by intros [= <-]|exact IH].
Qed.

Module FileHookup.

(** The configuration files are hooked up.  Each of the nine files makes a router
    that passes the checks without an error: its connections are those of the file,
    every port of every element is connected, all ports are push, each connection is
    made at the output it starts from, and the elements of the graph have the numbers of
    ports that the graph of Configs.v uses. *)
Theorem files_hook_up text c (Hf : (text, c) ∈ files) :
  exists r r0 r', click_read_router classes text [] = Value (r, []) /\ router_of r = Some r0 /\
    Hookup.hookup r0 = Ok (Some (r', true), []) /\ Hooked r0 r' /\
    (forall o p, in_range r' o p -> pulls r' o p = false) /\ ports_as_built r c (nports r') = true.
Proof.
  pose proof files_hooks_up as H. rewrite forallb_forall in H. specialize (H _ (proj1 (list_elem_of_In _ _) Hf)).
  cbn [fst snd] in H. clear Hf. unfold hooks_up in H.
  destruct (click_read_router classes text []) as [[r [|]]| | |]; try discriminate H.
  destruct (router_of r) as [r0|] eqn:E0; [|discriminate H]. apply andb_true_iff in H as [[Hl Hs]%andb_true_iff H].
  destruct (router_of_flowing r r0 E0) as [HS Hfl].
  destruct (hookup_Ok r0 HS) with (2 := Hfl) as (result & errors & Eh & Hh).
  { unfold router_of in E0. destruct (mapM _ _) as [cs|]; [|discriminate E0]. injection E0 as <-.
    apply new_router_ordered; [by apply Z.ltb_lt|intros _; by apply sorted_conn_spec]. }
  rewrite Eh in H. destruct result as [[r' [|]]|]; try discriminate H. destruct errors; [|discriminate H].
  apply andb_true_iff in H as [Hp Hn]. exists r, r0, r'. split_and!; [done|done|done|by apply Hh| |done].
  intros o p Hr. pose proof (hooked_shaped _ _ (Hh r' eq_refl)) as HS'. apply elem_of_all_ports in Hr; [|done].
  cbn [forallb] in Hp. rewrite !andb_true_iff, !forallb_forall in Hp. destruct Hp as (H1 & H2 & _).
  apply list_elem_of_In in Hr. destruct o; apply negb_true_iff; [by apply H2|by apply H1].
Qed.

Lemma files_hook_up_witness :
  (trix_text "2"%string, trix) ∈ files /\
  exists r r0 r', click_read_router classes (trix_text "2"%string) [] = Value (r, []) /\ router_of r = Some r0 /\
    Hookup.hookup r0 = Ok (Some (r', true), []) /\ Hooked r0 r'.
Proof.
  assert ((trix_text "2"%string, trix) ∈ files) as Hf by (apply elem_of_cons; left; reflexivity).
  split; [exact Hf|]. destruct (files_hook_up (trix_text "2"%string) trix Hf) as (r & r0 & r' & H1 & H2 & H3 & H4 & _).
  exists r, r0, r'. exact (conj H1 (conj H2 (conj H3 H4))).
Defined.

End FileHookup.
