(* ===== verification/Dataflow.v ===== *)
(** * Dataflow: what a graph of indicator elements computes

    The specification of a router: a synchronous dataflow network.  In one round
    the nodes are evaluated once each, in the order of their numbers; a node whose
    inputs have all arrived computes [node_step], one that receives nothing stays
    as it is.  The second part shows that [flow] solves the network's equations:
    all the values that arrive are the values sent, and every node computes from
    all its arrivals. *)

From S2P Require Import Prelude FixedPt CircArray Messages Buffers IndicatorBase IndicatorLaws.
From S2P Require Import Smoothing Directional Ratios Router.
Import FPt Buffers BuffersFacts IndicatorBase IndicatorBaseFacts Router.

#[global] Instance klaws (k : Kind) : IndicatorLaws (kstate k) :=
  match k with
  | KEwma => EwmaIncremental_laws
  | KSum => Sum_laws
  | KPdm => Pdm_laws
  | KNdm => Ndm_laws
  | KNewTrueRange => NewTrueRange_laws
  | KVmu => Vmu_laws
  | KVmd => Vmd_laws
  | KPdi => Pdi_laws
  | KNdi => Ndi_laws
  | KViu => Viu_laws
  | KVid => Vid_laws
  | KDx => Dx_laws
  | KTrix => Trix_laws
  end.

(** ** Nodes *)

(** An indicator waits for its first round, or has committed a history.  The
    elements in front of the network, which handle source messages, take no part
    in its rounds. *)
Inductive status := Idle (m : OpMode) | Live (m : OpMode) (H : history).

Inductive node :=
| NFront
| NInd (k : Kind) (P : par (E:=kstate k)) (cap : nat) (s : status)
| NTee (n : nat)
| NPrinter (vals : list FixedPt)
| NDiscard.

Definition arity (n : node) : nat :=
  match n with
  | NInd k _ _ _ => nports (E:=kstate k)
  | _ => 1
  end.

(** A round of type [t] with the values [vs]: the new state and the values sent,
    with their ports. *)
Definition node_step (t : PacketAppType) (n : node) (vs : list FixedPt)
  : res (node * list (Z * FixedPt)) :=
  match n with
  | NFront => Ok (n, [])
  | NInd k P cap (Idle m) =>
      let v := out_init P vs in
      Ok (NInd k P cap (Live m [vs]), if get_valid v then [(0, v)] else [])
  | NInd k P cap (Live m H) =>
      if decide (t = MSG_INIT) then Fault AssertFailed
      else
        let* s := spec_step P cap (m, H) t vs in
        Ok (NInd k P cap (Live s.1.1 s.1.2), [(0, s.2)])
  | NTee n => Ok (NTee n, map (fun i => (Z.of_nat i, vs !!! 0%nat)) (seq 0 n))
  | NPrinter vals =>
      Ok (NPrinter (if decide (t = MSG_UPDATE) then take 4999 (vals ++ [vs !!! 0%nat]) else vals),
          [(0, vs !!! 0%nat)])
  | NDiscard => Ok (NDiscard, [])
  end.

(** A node that may be left out of a round. *)
Definition skippable (n : node) : bool :=
  match n with NInd _ _ _ (Live _ _) => false | _ => true end.

(** ** Rounds of a network *)

(** The values that arrive in a round, by node and input port. *)
Abbreviation arrivals := (list ((nat * nat) * FixedPt)).

Fixpoint arrived (a : arrivals) (j q : nat) : option FixedPt :=
  match a with
  | [] => None
  | x :: a => if (x.1.1 =? j)%nat && (x.1.2 =? q)%nat then Some x.2 else arrived a j q
  end.

Definition gather (a : arrivals) (j n : nat) : list (option FixedPt) := map (arrived a j) (seq 0 n).

Definition node_flow (t : PacketAppType) (j : nat) (n : node) (a : arrivals)
  : res (node * list (Z * FixedPt)) :=
  let ins := gather a j (arity n) in
  if forallb (fun o => negb (is_in o)) ins
  then if skippable n then Ok (n, []) else Fault AssertFailed
  else match mapM id ins with
       | Some vs => node_step t n vs
       | None => Fault AssertFailed
       end.

(** What the outputs of node [j] deliver. *)
Fixpoint connect (hookup : list ((nat * Z) * (nat * nat))) (j : nat) (out : list (Z * FixedPt)) : arrivals :=
  match out with
  | [] => []
  | o :: out =>
      match target hookup j o.1 with
      | Some jq => (jq, o.2) :: connect hookup j out
      | None => connect hookup j out
      end
  end.

(** The nodes from number [j] on; the values sent, by node. *)
Fixpoint flow (hookup : list ((nat * Z) * (nat * nat))) (t : PacketAppType) (j : nat) (ns : list node)
    (a : arrivals) : res (list node * list (list (Z * FixedPt))) :=
  match ns with
  | [] => Ok ([], [])
  | n :: ns =>
      let* r := node_flow t j n a in
      let* s := flow hookup t (S j) ns (connect hookup j r.2 ++ a) in
      Ok (r.1 :: s.1, r.2 :: s.2)
  end.

(** Outputs are words again. *)
Lemma nports_pos k : (0 < nports (E:=kstate k))%nat.
Proof. destruct k; simpl; lia. Qed.

Lemma wf_add x y : wf_fpt (add x y). Proof. apply i64_range. Qed.
Lemma wf_sub x y : wf_fpt (sub x y). Proof. apply i64_range. Qed.
Lemma wf_fromInt z : wf_fpt (fromInt z). Proof. apply i64_range. Qed.
Lemma wf_abs x : wf_fpt x -> wf_fpt (fpt_abs x).
Proof. intros Hx. unfold fpt_abs. destruct (_ <? _); [apply i64_range|done]. Qed.
Lemma wf_ratio x y : wf_fpt (ratio x y).
Proof. unfold ratio. destruct (_ =? _); apply i64_range. Qed.
Lemma wf_div x y v : div x y = Ok v -> wf_fpt v.
Proof.
  unfold div, fixedptc.fixedpt_div. destruct (_ =? 0); [done|]. intros [= <-]. apply i64_range.
Qed.
Lemma wf_max x y : wf_fpt x -> wf_fpt y -> wf_fpt (NewTrueRange.fpt_max x y).
Proof. intros Hx Hy. unfold NewTrueRange.fpt_max. by destruct (gt x y). Qed.
Lemma wf_window_sum l : (2 <= length l)%nat -> wf_fpt (window_sum l).
Proof. intros Hl. rewrite window_sum_val by done. apply i64_range. Qed.
Lemma wf_ewma alpha l : (2 <= length l)%nat -> wf_fpt (ewma alpha l).
Proof. destruct l as [|x [|y l]]; simpl; intros; [lia|lia|apply i64_range]. Qed.

Create HintDb wf_fpt.
#[export] Hint Resolve wf_add wf_sub wf_fromInt wf_abs wf_ratio wf_max wf_window_sum wf_ewma : wf_fpt.

Lemma out_init_wf k (P : par (E:=kstate k)) vs :
  length vs = nports (E:=kstate k) -> Forall wf_fpt vs -> get_valid (out_init P vs) = true ->
  wf_fpt (out_init P vs).
Proof.
  intros Hl Hw Hv. destruct k; simpl in *; try done; unfold dx_value; auto with wf_fpt.
  all: split_vector Hl; by apply Forall_cons in Hw as [? _].
Qed.

Lemma spec_out_wf k (P : par (E:=kstate k)) cap m H vs v :
  (2 <= cap)%nat -> H <> [] -> spec_out P cap m H vs = Ok v -> wf_fpt v.
Proof.
  intros Hc Hne E. assert (Hlen : forall vs, (2 <= length (take cap (column 0 (vs :: H))))%nat).
  { intros. rewrite length_take. unfold column. rewrite length_map. destruct H; simpl in *; [done|lia]. }
  assert (Hlen' : forall vs, (2 <= length (column 0 (vs :: H)))%nat).
  { intros. unfold column. rewrite length_map. destruct H; simpl in *; [done|lia]. }
  destruct k, m; cbn [spec_out out_naive out_opt klaws EwmaIncremental_laws Sum_laws] in E;
    try (apply Ok_inj in E as <-).
  1-3: apply wf_ewma; apply Hlen || apply Hlen'.
  1-3: apply wf_window_sum, Hlen.
  all: simpl in *; unfold dx_value; auto with wf_fpt.
  all: try (unfold Pdm.calculate_pdm, Ndm.calculate_ndm;
            repeat match goal with |- context [if ?b then _ else _] => destruct b end; by auto with wf_fpt).
  all: try (unfold NewTrueRange.calculate_tr; by auto with wf_fpt).
  all: unfold trix_naive, trix_opt in E; try (by eapply wf_div).
  destruct (div _ _); [|done]. injection E as <-. apply i64_range.
Qed.

(** ** From the flow to a solution *)

(** What has arrived after the nodes from [j] on have sent [os]. *)
Fixpoint arrivals_after (hookup : list ((nat * Z) * (nat * nat))) (j : nat) (os : list (list (Z * FixedPt)))
    (a : arrivals) : arrivals :=
  match os with
  | [] => a
  | o :: os => arrivals_after hookup (S j) os (connect hookup j o ++ a)
  end.

Section flow.
Context (t : PacketAppType) (hookup : list ((nat * Z) * (nat * nat))).
Implicit Types (a : arrivals) (os : list (list (Z * FixedPt))).

Lemma arrived_elem a j q v : arrived a j q = Some v -> ((j, q), v) ∈ a.
Proof.
  induction a as [|[[j' q'] v'] a IH]; [done|]. cbn [arrived fst snd].
  destruct (Nat.eqb_spec j' j) as [->|]; [destruct (Nat.eqb_spec q' q) as [->|]|]; cbn [andb].
  - intros [= ->]. left.
  - intros. right. auto.
  - intros. right. auto.
Qed.

Lemma elem_arrived a j q v : ((j, q), v) ∈ a -> exists v', arrived a j q = Some v'.
Proof.
  induction a as [|[[j' q'] v'] a IH]; [by intros ?%elem_of_nil|]. intros [E|Hin]%elem_of_cons; cbn [arrived fst snd].
  - injection E as -> -> ->. rewrite !Nat.eqb_refl. by eexists.
  - destruct (_ && _); [by eexists|auto].
Qed.

Lemma elem_connect j o x v : (x, v) ∈ connect hookup j o <-> exists port, (port, v) ∈ o /\ target hookup j port = Some x.
Proof.
  induction o as [|[port w] o IH]; cbn [connect fst snd].
  - split; [by intros ?%elem_of_nil|by intros (? & ?%elem_of_nil & _)].
  - assert (Hc : (exists port', (port', v) ∈ (port, w) :: o /\ target hookup j port' = Some x) <->
                 (w = v /\ target hookup j port = Some x) \/ (x, v) ∈ connect hookup j o).
    { rewrite IH. split.
      - intros (port' & [[= -> ->]|Hin]%elem_of_cons & Ht'); [by left|right; by exists port'].
      - intros [[-> Ht']|(port' & Hin & Ht')]; [exists port; by split; [left|]|exists port'; by split; [right|]]. }
    rewrite Hc. destruct (target hookup j port) as [y|] eqn:E.
    + rewrite elem_of_cons. split; [intros [[= -> ->]|]; auto|intros [[-> [= ->]]|]; auto].
    + split; [by right|intros [[_ ?]|]; done].
Qed.

Lemma elem_arrivals_after j os a x :
  x ∈ arrivals_after hookup j os a <-> x ∈ a \/ exists i o, os !! i = Some o /\ x ∈ connect hookup (j + i) o.
Proof.
  revert j a. induction os as [|o os IH]; intros j a; cbn [arrivals_after].
  - split; [by left|intros [|(i & o & ? & _)]; done].
  - rewrite IH, elem_of_app. split.
    + intros [[Hx|Hx]|(i & o' & Ho & Hx)]; [right; exists 0%nat, o; by rewrite Nat.add_0_r|by left|].
      right. exists (S i), o'. by rewrite <- Nat.add_succ_comm.
    + intros [Hx|([|i] & o' & Ho & Hx)]; [by left; right| |].
      * injection Ho as ->. rewrite Nat.add_0_r in Hx. by left; left.
      * right. exists i, o'. by rewrite Nat.add_succ_comm.
Qed.

Lemma flow_spec j ns a ns' os :
  flow hookup t j ns a = Ok (ns', os) ->
  length ns' = length ns /\ length os = length ns /\
  forall i n, ns !! i = Some n -> exists n' o, ns' !! i = Some n' /\ os !! i = Some o /\
    node_flow t (j + i) n (arrivals_after hookup j (take i os) a) = Ok (n', o).
Proof.
  revert j a ns' os. induction ns as [|n ns IH]; intros j a ns' os Hf; cbn [flow] in Hf.
  - injection Hf as <- <-. split_and!; [done|done|]. intros i n Hi. done.
  - destruct (node_flow t j n a) as [[n1 o1]|] eqn:E1; [|done]. cbn [mbind res_bind fst snd] in Hf.
    destruct (flow hookup t (S j) ns _) as [[ns2 os2]|] eqn:E2; [|done]. cbn [mbind res_bind fst snd] in Hf.
    injection Hf as <- <-. destruct (IH _ _ _ _ E2) as (Hl1 & Hl2 & Hn). split_and!; [simpl; lia|simpl; lia|].
    intros [|i] m Hm; cbn [lookup list_lookup] in *.
    + injection Hm as ->. exists n1, o1. by rewrite Nat.add_0_r.
    + destruct (Hn i m Hm) as (n' & o & Hn' & Ho & E). exists n', o. split_and!; [done|done|].
      rewrite <- Nat.add_succ_comm. done.
Qed.

(** A well-wired graph, for nodes with the arities [ar]. *)
Definition well_wired (ar : list nat) : bool :=
  forallb (fun c => (c.1.1 <? c.2.1)%nat && match ar !! c.2.1 with Some n => (c.2.2 <? n)%nat | None => false end)
    hookup &&
  bool_decide (NoDup hookup.*2).

Lemma target_elem i port x : target hookup i port = Some x -> ((i, port), x) ∈ hookup.
Proof.
  unfold target. induction hookup as [|[[i' port'] x'] h IH]; [done|]. cbn [target_in fst snd].
  destruct (Nat.eqb_spec i' i) as [->|]; [destruct (Z.eqb_spec port' port) as [->|]|]; cbn [andb].
  - intros [= ->]. left.
  - intros. right. auto.
  - intros. right. auto.
Qed.

Lemma wired_acyclic ns i port j q :
  well_wired (map arity ns) = true -> target hookup i port = Some (j, q) ->
  (i < j)%nat /\ exists n, ns !! j = Some n /\ (q < arity n)%nat.
Proof.
  intros [Hw _]%andb_true_iff Htg%target_elem. rewrite forallb_forall in Hw.
  apply list_elem_of_In in Htg. specialize (Hw _ Htg). cbn [fst snd] in Hw.
  apply andb_true_iff in Hw as [Hij Hq]. apply Nat.ltb_lt in Hij. split; [done|].
  rewrite list_lookup_fmap in Hq. destruct (ns !! j) as [n|]; [|done]. exists n. split; [done|]. by apply Nat.ltb_lt.
Qed.

Lemma wired_inj ns i port i' port' x :
  well_wired (map arity ns) = true -> target hookup i port = Some x -> target hookup i' port' = Some x ->
  i = i' /\ port = port'.
Proof.
  intros [_ Hnd%bool_decide_eq_true]%andb_true_iff H1%target_elem H2%target_elem.
  apply list_elem_of_lookup in H1 as [a1 H1], H2 as [a2 H2].
  assert (a1 = a2) as ->.
  { eapply NoDup_lookup; [exact Hnd| |]; rewrite list_lookup_fmap; [by rewrite H1|by rewrite H2]. }
  rewrite H1 in H2. injection H2 as -> ->. done.
Qed.

Lemma arrived_app_fresh b a j q : (forall x v, (x, v) ∈ b -> x.1 <> j) -> arrived (b ++ a) j q = arrived a j q.
Proof.
  induction b as [|[[j' q'] v] b IH]; intros Hb; [done|]. cbn [arrived app fst snd].
  rewrite (proj2 (Nat.eqb_neq j' j)) by (apply (Hb (j', q') v); left). cbn [andb]. apply IH.
  intros x w Hx. apply (Hb x w). by right.
Qed.

(** Later nodes do not reach back. *)
Lemma arrived_later ns j os a k q :
  well_wired (map arity ns) = true -> (k <= j)%nat ->
  arrived (arrivals_after hookup j os a) k q = arrived a k q.
Proof.
  intros Hw. revert j a. induction os as [|o os IH]; intros j a Hk; cbn [arrivals_after]; [done|].
  rewrite IH by lia. apply arrived_app_fresh. intros [x y] v Hx.
  apply elem_connect in Hx as (port & _ & Htg). destruct (wired_acyclic ns _ _ _ _ Hw Htg) as [Hlt _].
  cbn [fst]. lia.
Qed.

Lemma arrivals_after_app j os os' a :
  arrivals_after hookup j (os ++ os') a =
    arrivals_after hookup (j + length os) os' (arrivals_after hookup j os a).
Proof.
  revert j a. induction os as [|o os IH]; intros j a; cbn [arrivals_after app length].
  - by rewrite Nat.add_0_r.
  - by rewrite IH, Nat.add_succ_comm.
Qed.

Lemma arrived_at ns os a i q :
  well_wired (map arity ns) = true -> (i <= length os)%nat ->
  arrived (arrivals_after hookup 0 (take i os) a) i q = arrived (arrivals_after hookup 0 os a) i q.
Proof.
  intros Hw Hi. rewrite <- (take_drop i os) at 2. rewrite arrivals_after_app, length_take.
  rewrite (arrived_later ns _ (drop i os)) by (done || lia). done.
Qed.

(** *** Nodes send words on distinct ports *)
Definition node_ok (n : node) : Prop :=
  match n with
  | NInd _ _ cap s => (2 <= cap)%nat /\ match s with Idle _ => True | Live _ H => H <> [] end
  | _ => True
  end.

Lemma node_step_nodup n vs n' o : node_step t n vs = Ok (n', o) -> NoDup o.*1.
Proof.
  destruct n as [|k P cap [m|m H]|m|vals|]; cbn [node_step].
  - intros [= <- <-]. constructor.
  - intros [= <- <-]. destruct (get_valid _); [apply NoDup_singleton|constructor].
  - destruct (decide _); [done|]. destruct (spec_step _ _ _ _ _); [|done]. intros [= <- <-]. apply NoDup_singleton.
  - intros [= <- <-]. rewrite <- list_fmap_compose. apply NoDup_fmap_2_strong; [|apply NoDup_seq].
    intros x y _ _ Hxy. cbn in Hxy. lia.
  - intros [= <- <-]. apply NoDup_singleton.
  - intros [= <- <-]. constructor.
Qed.

Lemma node_step_wf n vs n' o :
  node_ok n -> length vs = arity n -> Forall wf_fpt vs -> node_step t n vs = Ok (n', o) ->
  Forall (fun pv => wf_fpt pv.2) o.
Proof.
  intros Hok Hl Hw. assert (Hhd : forall v, vs = [v] -> wf_fpt v) by (intros v ->; by apply Forall_cons in Hw as [? _]).
  destruct n as [|k P cap [m|m H]|m|vals|]; cbn [node_step arity] in *.
  - intros [= <- <-]. constructor.
  - intros [= <- <-]. destruct (get_valid _) eqn:Ev; [|constructor]. constructor; [|constructor].
    by apply out_init_wf.
  - destruct (decide _); [done|]. unfold spec_step. destruct Hok as [Hc Hne].
    destruct (spec_out P cap m H vs) as [v|] eqn:Eo; [|done]. res_simpl. destruct (decide (t = MSG_ADD)).
    all: res_simpl; intros [= <- <-]; constructor; [|constructor]; by eapply spec_out_wf.
  - intros [= <- <-]. apply Forall_fmap, Forall_forall. intros i _. cbn. split_vector Hl. by apply Hhd.
  - intros [= <- <-]. constructor; [|constructor]. cbn. split_vector Hl. by apply Hhd.
  - intros [= <- <-]. constructor.
Qed.

Lemma gather_lookup a j m q : (q < m)%nat -> gather a j m !! q = Some (arrived a j q).
Proof. intros Hq. unfold gather. by rewrite list_lookup_fmap, lookup_seq_lt by done. Qed.

Lemma gather_values a j m vs :
  mapM id (gather a j m) = Some vs ->
  length vs = m /\ forall q, (q < m)%nat -> arrived a j q = vs !! q.
Proof.
  rewrite mapM_Some. intros Hf. pose proof (Forall2_length _ _ _ Hf) as Hl.
  unfold gather in Hl. rewrite length_map, length_seq in Hl. split; [done|]. intros q Hq.
  destruct (Forall2_lookup_l _ _ _ _ _ Hf (gather_lookup a j m q Hq)) as (v & Hv & E). by rewrite Hv.
Qed.

Lemma node_flow_cases j n a n' o :
  node_flow t j n a = Ok (n', o) ->
  ((forall q, (q < arity n)%nat -> arrived a j q = None) /\ skippable n = true /\ n' = n /\ o = []) \/
  ((0 < arity n)%nat /\ exists vs, mapM id (gather a j (arity n)) = Some vs /\ node_step t n vs = Ok (n', o)).
Proof.
  unfold node_flow. destruct (forallb _ _) eqn:En.
  - destruct (skippable n); [|done]. intros [= <- <-]. left. split; [|done]. intros q Hq.
    rewrite forallb_forall in En. specialize (En (arrived a j q)).
    assert (Hin : In (arrived a j q) (gather a j (arity n))).
    { apply list_elem_of_In, list_elem_of_lookup. exists q. by apply gather_lookup. }
    specialize (En Hin). by destruct (arrived a j q).
  - destruct (mapM _ _) as [vs|] eqn:Em; [|done]. intros Hs. right. split; [|by exists vs].
    destruct (arity n); [done|lia].
Qed.

Section main.
Context (f : nat) (ns ns' : list node) (os : list (list (Z * FixedPt))) (out0 : list (Z * FixedPt)).
Context (Hw : well_wired (map arity ns) = true) (Hfront : forall j, ns !! j = Some NFront <-> (j <= f)%nat).
Context (Hflow : flow hookup t 0 ns (connect hookup f out0) = Ok (ns', os)).
Context (Hnd0 : NoDup out0.*1) (Hwf0 : Forall (fun pv => wf_fpt pv.2) out0) (Hok : Forall node_ok ns).

Definition sent (i : nat) : list (Z * FixedPt) := if (i =? f)%nat then out0 else default [] (os !! i).
Definition all_arrivals : arrivals := arrivals_after hookup 0 os (connect hookup f out0).
Definition values_at (j : nat) : list FixedPt :=
  default [] (mapM id (gather all_arrivals j (match ns !! j with Some n => arity n | None => 0%nat end))).

Lemma front_sends_nothing j : (j <= f)%nat -> os !! j = Some [] /\ ns' !! j = Some NFront.
Proof using Hflow Hfront.
  intros Hj%Hfront. destruct (flow_spec _ _ _ _ _ Hflow) as (_ & _ & Hn).
  destruct (Hn j NFront Hj) as (n' & o & Hn' & Ho & E).
  apply node_flow_cases in E as [(_ & _ & -> & ->)|(_ & vs & _ & E)]; [done|]. injection E as <- <-. done.
Qed.

Lemma elem_all_arrivals x v :
  (x, v) ∈ all_arrivals <-> exists i port, target hookup i port = Some x /\ (port, v) ∈ sent i.
Proof using Hflow Hfront.
  unfold all_arrivals. rewrite elem_arrivals_after, elem_connect. unfold sent. split.
  - intros [(port & Hp & Htg)|(i & o & Ho & (port & Hp & Htg)%elem_connect)].
    + exists f, port. by rewrite Nat.eqb_refl.
    + exists i, port. cbn in Htg. destruct (Nat.eqb_spec i f) as [->|]; [|by rewrite Ho].
      destruct (front_sends_nothing f) as [Hf _]; [done|]. rewrite Hf in Ho. injection Ho as <-. by apply elem_of_nil in Hp.
  - intros (i & port & Htg & Hp). destruct (Nat.eqb_spec i f) as [->|]; [left; by exists port|].
    destruct (os !! i) as [o|] eqn:Ho; [|by apply elem_of_nil in Hp]. right. exists i, o. split; [done|].
    apply elem_connect. by exists port.
Qed.

(** Nothing arrives in front. *)
Lemma front_quiet j q : (j <= f)%nat -> arrived all_arrivals j q = None.
Proof using Hflow Hfront Hw.
  intros Hj. destruct (arrived _ j q) as [v|] eqn:E; [|done].
  apply arrived_elem, elem_all_arrivals in E as (i & port & Htg & Hin).
  destruct (wired_acyclic ns _ _ _ _ Hw Htg) as [Hij _]. unfold sent in Hin.
  rewrite (proj2 (Nat.eqb_neq i f)) in Hin by lia.
  destruct (front_sends_nothing i) as [Hi _]; [lia|]. rewrite Hi in Hin. by apply elem_of_nil in Hin.
Qed.

(** Every node, against all arrivals. *)
Lemma flow_node j n :
  ns !! j = Some n -> exists n', ns' !! j = Some n' /\
  (((forall q, (q < arity n)%nat -> arrived all_arrivals j q = None) /\ skippable n = true /\ n' = n /\
    (j <> f -> sent j = [])) \/
   ((0 < arity n)%nat /\ j <> f /\ n <> NFront /\ length (values_at j) = arity n /\
    (forall q, (q < arity n)%nat -> arrived all_arrivals j q = values_at j !! q) /\
    node_step t n (values_at j) = Ok (n', sent j))).
Proof using Hflow Hfront Hw.
  intros Hn. destruct (flow_spec _ _ _ _ _ Hflow) as (_ & Hlo & Hns). destruct (Hns j n Hn) as (n' & o & Hn' & Ho & E).
  exists n'. split; [done|]. cbn in E.
  assert (Harr : forall q, arrived (arrivals_after hookup 0 (take j os) (connect hookup f out0)) j q = arrived all_arrivals j q).
  { intros q. apply (arrived_at ns); [done|]. apply lookup_lt_Some in Ho. lia. }
  apply node_flow_cases in E as [(Hnone & Hs & -> & ->)|(Ha & vs & Em & Hstep)].
  - left. split_and!; [|done|done|]. { intros q Hq. rewrite <- Harr. auto. }
    intros Hj. unfold sent. by rewrite (proj2 (Nat.eqb_neq _ _)), Ho by done.
  - assert (Eg : mapM id (gather all_arrivals j (arity n)) = Some vs).
    { rewrite <- Em. f_equal. unfold gather. apply map_ext. intros q. by rewrite Harr. }
    destruct (gather_values _ _ _ _ Eg) as [Hl Hv].
    assert (Hj : (f < j)%nat).
    { destruct (le_lt_dec j f) as [Hle|]; [|done]. specialize (Hv 0%nat Ha). rewrite front_quiet in Hv by done.
      symmetry in Hv. apply lookup_ge_None_1 in Hv. lia. }
    right. unfold values_at. rewrite Hn, Eg. split_and!; try done; [lia| |].
    + intros ->. apply Hfront in Hn. lia.
    + unfold sent. by rewrite (proj2 (Nat.eqb_neq _ _)), Ho by lia.
Qed.

Lemma sent_wf i : Forall (fun pv => wf_fpt pv.2) (sent i).
Proof using Hflow Hfront Hw Hwf0 Hok.
  induction (lt_wf i) as [i _ IH]. destruct (decide (i = f)) as [->|Hif].
  { unfold sent. by rewrite Nat.eqb_refl. }
  destruct (ns !! i) as [n|] eqn:Hn.
  - destruct (flow_node i n Hn) as (n' & _ & [(_ & _ & _ & Hs)|(Ha & _ & _ & Hl & Hv & Hstep)]); [by rewrite Hs|].
    apply (node_step_wf n (values_at i) n'); [by eapply Forall_lookup_1|done| |done].
    apply Forall_lookup_2. intros q v Hq. pose proof (lookup_lt_Some _ _ _ Hq) as Hlt. rewrite Hl in Hlt.
    rewrite <- Hv in Hq by done. apply arrived_elem, elem_all_arrivals in Hq as (k & port & Htg & Hin).
    destruct (wired_acyclic ns _ _ _ _ Hw Htg) as [Hki _]. specialize (IH k Hki).
    by apply (Forall_forall _ _) with (x := (port, v)) in IH.
  - unfold sent. rewrite (proj2 (Nat.eqb_neq _ _)) by done.
    destruct (flow_spec _ _ _ _ _ Hflow) as (_ & Hlo & _). rewrite lookup_ge_None_2; [constructor|].
    rewrite Hlo. by apply lookup_ge_None_1.
Qed.

Lemma sent_nodup i : NoDup (sent i).*1.
Proof using Hflow Hfront Hw Hnd0.
  destruct (decide (i = f)) as [->|Hif]; [unfold sent; by rewrite Nat.eqb_refl|].
  destruct (ns !! i) as [n|] eqn:Hn.
  - destruct (flow_node i n Hn) as (n' & _ & [(_ & _ & _ & Hs)|(_ & _ & _ & _ & _ & Hstep)]); [rewrite Hs by done; constructor|].
    by eapply node_step_nodup.
  - unfold sent. rewrite (proj2 (Nat.eqb_neq _ _)) by done.
    destruct (flow_spec _ _ _ _ _ Hflow) as (_ & Hlo & _). rewrite lookup_ge_None_2; [constructor|].
    rewrite Hlo. by apply lookup_ge_None_1.
Qed.
End main.
End flow.
