(* ===== verification/Propagation.v ===== *)
(** * Propagation: depth-first pushes compute the dataflow

    [live] relates an element to the node it implements.  The lemmas follow one
    packet into one element ([node_deliver]), then a packet and all it sets off
    through the graph ([push_ok_all]): whatever the order in which the packets of
    a round reach the ports of an element, every element fires once, with the
    values of the round. *)

From S2P Require Import Prelude FixedPt CircArray Messages Buffers IndicatorBase IndicatorLaws.
From S2P Require Import Smoothing Directional Ratios IndicatorProps AdLine Parsing Sources SourceProps.
From S2P Require Import Router Dataflow.
Import FPt Buffers BuffersFacts IndicatorBase IndicatorBaseFacts Router.

(** ** Elements implement nodes *)

(** The recorded values of a printer that is alone. *)
Definition printer_ok (s : StatPrinter.StatPrinter) (g : list (list StatPrinter.StatPair))
    (vals : list FixedPt) : Prop :=
  StatPrinter._active s = true /\ StatPrinter._combined_mode s = false /\
  (StatPrinter._all_values_counter s <= 4999)%nat /\
  exists arr, g !! StatPrinter._mt_arr_idx s = Some arr /\ length arr = StatPrinter.MAX_ALL_VALUES /\
    vals = map StatPrinter.sp_value (take (StatPrinter._all_values_counter s) arr).

(** Between rounds, after one with time stamp [ts]. *)
Definition live (e : Element) (ts : Z) (n : node) : Prop :=
  match n with
  | NFront => True
  | NInd k P cap s =>
      (2 <= cap)%nat /\ exists ib, e = Indicator k ib /\
      match s with
      | Idle m => idle cap ib m P
      | Live m H => inv cap P ib ts (m, H)
      end
  | NTee n => e = Tee n
  | NPrinter vals => exists s g, e = Printer s g /\ printer_ok s g vals
  | NDiscard => exists c, e = Discard c
  end.

Lemma live_skippable e ts ts' n : skippable n = true -> live e ts n -> live e ts' n.
Proof. by destruct n as [|k P cap []| | |]. Qed.

Lemma live_node_ok e ts1 n : live e ts1 n -> node_ok n.
Proof.
  destruct n as [|k P cap [m|m H]| | |]; try done; intros (Hc & ib & _ & Hi); split; try done. apply Hi.
Qed.

(** *** A round in progress: [d] says which ports have been served *)
Definition got_of (d : nat -> bool) (vs : list FixedPt) : list (option FixedPt) :=
  imap (fun q v => if d q then Some v else None) vs.
Definition serve (d : nat -> bool) (q : nat) : nat -> bool := fun x => (x =? q)%nat || d x.
Definition all_served (d : nat -> bool) (n : nat) : bool := forallb d (seq 0 n).
Definition none_served (d : nat -> bool) (n : nat) : bool := forallb (fun q => negb (d q)) (seq 0 n).

Lemma got_of_lookup d vs q : got_of d vs !! q = (fun v => if d q then Some v else None) <$> vs !! q.
Proof. apply list_lookup_imap. Qed.

Lemma got_of_serve d vs q v : vs !! q = Some v -> <[q := Some v]> (got_of d vs) = got_of (serve d q) vs.
Proof.
  intros Hv. apply list_eq. intros x. rewrite got_of_lookup. unfold serve.
  destruct (Nat.eqb_spec x q) as [->|Hx].
  - rewrite list_lookup_insert_eq, Hv; [done|]. unfold got_of. rewrite length_imap. by eapply lookup_lt_Some.
  - rewrite list_lookup_insert_ne by done. by rewrite got_of_lookup.
Qed.

Lemma all_served_iff d n : all_served d n = true <-> forall q, (q < n)%nat -> d q = true.
Proof.
  unfold all_served. rewrite forallb_forall. split; intros Hd q Hq.
  - apply Hd, in_seq. lia.
  - apply Hd. apply in_seq in Hq. lia.
Qed.

Lemma none_served_iff d n : none_served d n = true <-> forall q, (q < n)%nat -> d q = false.
Proof.
  unfold none_served. rewrite forallb_forall. split; intros Hd q Hq.
  - apply negb_true_iff, Hd, in_seq. lia.
  - apply negb_true_iff, Hd. apply in_seq in Hq. lia.
Qed.

Lemma serve_not_none d q m : (q < m)%nat -> none_served (serve d q) m = false.
Proof.
  intros Hq. apply not_true_iff_false. rewrite none_served_iff. intros Hn. specialize (Hn q Hq).
  unfold serve in Hn. by rewrite Nat.eqb_refl in Hn.
Qed.

Lemma got_of_all d vs : all_served d (length vs) = true -> got_of d vs = map Some vs.
Proof.
  rewrite all_served_iff. intros Hd. apply list_eq. intros q. rewrite got_of_lookup, list_lookup_fmap.
  destruct (vs !! q) as [v|] eqn:E; [|done]. simpl. by rewrite Hd by (by eapply lookup_lt_Some).
Qed.

Lemma got_of_none d vs : none_served d (length vs) = true -> got_of d vs = replicate (length vs) None.
Proof.
  rewrite none_served_iff. intros Hd. apply list_eq. intros q. rewrite got_of_lookup.
  destruct (vs !! q) as [v|] eqn:E; simpl.
  - apply lookup_lt_Some in E. rewrite Hd by done. by rewrite lookup_replicate_2.
  - rewrite lookup_ge_None_2; [done|]. rewrite length_replicate. by apply lookup_ge_None_1.
Qed.

(** The ports that are still to be served, as messages. *)
Definition todo (d : nat -> bool) (vs : list FixedPt) : list (nat * FixedPt) :=
  filter (fun qv => d qv.1 = false) (zip (seq 0 (length vs)) vs).

Lemma elem_of_todo d vs q v : (q, v) ∈ todo d vs <-> d q = false /\ vs !! q = Some v.
Proof.
  unfold todo. rewrite list_elem_of_filter. cbn [fst]. f_equiv. rewrite list_elem_of_lookup. split.
  - intros [i Hi]. rewrite lookup_zip_with in Hi.
    destruct (seq 0 (length vs) !! i) as [x|] eqn:Ex; [|done].
    destruct (vs !! i) as [y|] eqn:Ey; [|done]. injection Hi as -> ->.
    apply lookup_seq in Ex as [-> _]. done.
  - intros Hv. exists q. rewrite lookup_zip_with, lookup_seq_lt by (by eapply lookup_lt_Some).
    by rewrite Hv.
Qed.

Lemma todo_keys d vs : (todo d vs).*1 = filter (fun q => d q = false) (seq 0 (length vs)).
Proof.
  unfold todo. rewrite <- (fst_zip (seq 0 (length vs)) vs) at 2 by (by rewrite length_seq).
  generalize (zip (seq 0 (length vs)) vs). intros l. induction l as [|[q v] l IH]; [done|].
  rewrite fmap_cons, !filter_cons. cbn [fst]. destruct (decide _); [|done]. by rewrite fmap_cons, IH.
Qed.

Lemma remaining_todo d vs q v :
  d q = false -> vs !! q = Some v -> remaining (got_of d vs) ((q, v) :: todo (serve d q) vs).
Proof.
  intros Hq Hv. split.
  - rewrite fmap_cons. cbn [fst]. apply NoDup_cons. rewrite todo_keys. split.
    + rewrite list_elem_of_filter. unfold serve. rewrite Nat.eqb_refl. by intros [? _].
    + apply NoDup_filter, NoDup_seq.
  - intros x. rewrite fmap_cons, elem_of_cons, todo_keys, list_elem_of_filter, elem_of_seq, got_of_lookup.
    cbn [fst]. unfold serve. destruct (Nat.eqb_spec x q) as [->|Hx].
    + rewrite Hv, Hq. simpl. intuition congruence.
    + cbn [orb]. destruct (vs !! x) as [w|] eqn:Ew; simpl.
      * pose proof (lookup_lt_Some _ _ _ Ew). destruct (d x); intuition (congruence || lia).
      * apply lookup_ge_None_1 in Ew. intuition (congruence || lia).
Qed.

Lemma todo_nil d vs : todo d vs = [] <-> all_served d (length vs) = true.
Proof.
  rewrite all_served_iff. split.
  - intros Hn q Hq. destruct (d q) eqn:E; [done|]. destruct (lookup_lt_is_Some_2 vs q Hq) as [v Hv].
    assert (Hin : (q, v) ∈ todo d vs) by (by apply elem_of_todo). rewrite Hn in Hin. by apply elem_of_nil in Hin.
  - intros Hd. destruct (todo d vs) as [|[q v] l] eqn:E; [done|]. exfalso.
    assert (Hin : (q, v) ∈ todo d vs) by (rewrite E; left). apply elem_of_todo in Hin as [Hq Hv].
    rewrite Hd in Hq; [done|]. by eapply lookup_lt_Some.
Qed.

Section round.
Context (env : Env) (Hpad : length (env_pad env) = 7%nat).
Context (t : PacketAppType) (Ht : known t) (ts0 ts : Z) (H0 : 0 <= ts0) (Hts : ts0 < ts) (Hu : in_u 64 ts).

(** A packet that carries [v] in this round. *)
Definition carry (v : FixedPt) (p : Packet) : Prop :=
  pk_app_type p = t /\ decode_MsgValue (pk_data p) = Ok (mkMsgValue v ts) /\ (length_of p < 256)%nat.

Definition carry_out (o : Z * Packet) (ov : Z * FixedPt) : Prop := o.1 = ov.1 /\ carry ov.2 o.2.

Definition reply (p : Packet) (v : FixedPt) : Packet :=
  mkPacket t (encode_MsgValue (env_pad env) (mkMsgValue v ts) ++ drop sizeof_MsgValue (pk_data p)).

Lemma carry_reply p v w : carry w p -> wf_fpt v -> carry v (reply p v).
Proof using Hpad Hu.
  intros (_ & Hd & Hl) Hv. split; [done|]. split; [by apply decode_encode_MsgValue|].
  apply decode_MsgValue_length in Hd. unfold length_of in *. cbn [reply pk_data].
  rewrite length_app, length_encode_MsgValue, length_drop by done. lia.
Qed.

(** *** One packet into one element *)
Section node.
Context (n n' : node) (vs : list FixedPt) (out : list (Z * FixedPt)).
Context (Hnf : n <> NFront) (Hstep : node_step t n vs = Ok (n', out)) (Hlen : length vs = arity n) (Hwf : Forall wf_fpt vs).

(** What the end of the round does to an indicator whose buffers were opened
    with the histories [h]. *)
Definition closes {k} (ib : IndicatorBase (kstate k)) (h : list (list FixedPt)) (cap : nat) : Prop :=
  _active ib = true /\ (2 <= cap)%nat /\
  forall b p w, carry w p ->
    round_done (nports (E:=kstate k)) cap (is_temp ib t) b ts h (map Some vs) ->
    exists ib', finish (env_pad env) ib b p ts = Ok (ib', map (fun o => reply p o.2) out) /\
      live (Indicator k ib') ts n' /\ Forall (fun o => o.1 = 0 /\ wf_fpt o.2) out.

(** Served on the ports [d]. *)
Definition node_at (d : nat -> bool) (e : Element) : Prop :=
  if all_served d (arity n) then live e ts n'
  else if none_served d (arity n) then live e ts0 n
  else
    match n with
    | NInd k P cap s =>
        exists ib b h, e = Indicator k ib /\ ib_buffers ib = Some b /\ closes ib h cap /\
          phase (nports (E:=kstate k)) cap (is_temp ib t) b ts h (got_of d vs)
    | _ => False
    end.

(** An indicator at the start of the round. *)
Lemma live_opens k P cap s e :
  n = NInd k P cap s -> live e ts0 n ->
  exists ib b h, e = Indicator k ib /\ ib_buffers ib = Some b /\ closes ib h cap /\
    phase (nports (E:=kstate k)) cap (is_temp ib t) b ts h (replicate (length vs) None).
Proof using Hpad Ht H0 Hts Hnf Hstep Hlen Hwf.
  intros Hn Hlive. subst n. cbn [live arity] in *. destruct Hlive as (Hc & ib & -> & Hs).
  assert (Hsend : forall q p w v, carry w p ->
    send_msg_value (env_pad env) p v ts t = Ok (out_packet (env_pad env) (PRound t ts vs [(q, p)]) v)).
  { intros q p w v (_ & Hd & _). by eapply send_msg_value_Ok. }
  destruct s as [m|m H].
  - destruct (idle_steady cap (nports_pos k) _ _ _ Hs) as (b & Hb & Hst).
    exists ib, b, (windows (nports (E:=kstate k)) cap []). split_and!; [done|done| |].
    + split; [apply Hs|]. split; [done|]. intros b' p w Hp Hdone. injection Hstep as <- <-.
      destruct (finish_init (env_pad env) cap Hc P ib m (PRound t ts vs [(0%nat, p)]) b' p Hs Hlen)
        as (ib' & E & Hinv); [apply Hp|intros; by eapply Hsend|done|].
      exists ib'. split; [|split].
      * cbn [pr_tstamp pr_values] in E. rewrite E. by destruct (get_valid _).
      * split; [done|]. by exists ib'.
      * destruct (get_valid (out_init P vs)) eqn:Ev; [|constructor]. constructor; [|constructor].
        split; [done|]. by apply out_init_wf.
    + eapply phase_start; [exact Hst|lia|by rewrite Hlen].
  - cbn [node_step] in Hstep. destruct (decide (t = MSG_INIT)) as [|Hni]; [done|].
    assert (Hk : t = MSG_ADD \/ t = MSG_UPDATE) by (destruct Ht as [|[|]]; tauto).
    destruct (finish_step (env_pad env) Hpad cap Hc (nports_pos k) P ib ts0 (m, H) Hs)
      as (b & h & Hb & Hst & Hfin).
    exists ib, b, h. split_and!; [done|done| |].
    + split; [apply Hs|]. split; [done|]. intros b' p w Hp Hdone.
      specialize (Hfin (PRound t ts vs [(0%nat, p)]) b' p Hk Hlen (proj1 Hp)
        ltac:(intros; by eapply Hsend) Hdone). cbn [pr_type pr_values pr_tstamp] in Hfin.
      destruct (spec_step P cap (m, H) t vs) as [[[m1 H1] v]|] eqn:Es; [|done].
      cbn [mbind res_bind fst snd] in Hstep. injection Hstep as <- <-.
      destruct (finish _ _ _ _ _) as [[ib' o]|]; [|done]. destruct Hfin as [Ho Hinv]. cbn [fst snd] in *.
      exists ib'. split; [by rewrite Ho|]. split; [split; [done|]; by exists ib'|].
      constructor; [|constructor]. split; [done|]. cbn [snd]. unfold spec_step in Es.
      destruct (spec_out P cap m H vs) as [v'|] eqn:Eo; [|done]. cbn [mbind res_bind] in Es.
      apply (spec_out_wf k P cap m H vs); [done|apply Hs|]. destruct (decide _); congruence.
    + eapply phase_start; [exact Hst|lia|by rewrite Hlen].
Qed.

Lemma closes_set_buffers {k} (ib : IndicatorBase (kstate k)) b h cap :
  closes ib h cap -> closes (set_buffers ib b) h cap.
Proof. done. Qed.

(** The packet completes the round, or is kept until the others are there. *)
Definition delivered (d : nat -> bool) (q : nat) (r : res (Element * list (Z * Packet))) : Prop :=
  exists e' o, r = Ok (e', o) /\ node_at (serve d q) e' /\
    if all_served (serve d q) (arity n) then Forall2 carry_out o out else o = [].

Lemma indicator_deliver k P cap s e d q v p :
  n = NInd k P cap s -> node_at d e -> (q < arity n)%nat -> d q = false -> vs !! q = Some v -> carry v p ->
  delivered d q (element_push env e q p).
Proof using Hpad Ht H0 Hts Hu Hnf Hstep Hlen Hwf.
  intros Hn Hat Hq Hd Hv Hp.
  assert (Hopen : exists ib b h, e = Indicator k ib /\ ib_buffers ib = Some b /\ closes ib h cap /\
    phase (nports (E:=kstate k)) cap (is_temp ib t) b ts h (got_of d vs)).
  { unfold node_at in Hat. destruct (all_served d (arity n)) eqn:Ea.
    { rewrite all_served_iff in Ea. rewrite Ea in Hd by done. done. }
    destruct (none_served d (arity n)) eqn:En; [|by rewrite Hn in Hat].
    rewrite (got_of_none d vs) by (by rewrite Hlen). by eapply live_opens. }
  destruct Hopen as (ib & b & h & -> & Hb & Hcl & Hph). pose proof Hcl as (Ha & Hc & Hfin).
  destruct Hp as (Hty & Hdec & Hpl). unfold delivered. cbn [element_push].
  rewrite (push_shape _ ib b q p v ts), Hty by (rewrite ?Hty; done).
  destruct (deliver1_spec (nports (E:=kstate k)) cap (is_temp ib t) b ts h (got_of d vs) q v (todo (serve d q) vs))
    as (b' & E1 & Hb'); [lia|done|by apply remaining_todo|].
  rewrite E1. res_simpl. rewrite (got_of_serve _ _ _ _ Hv) in Hb'. rewrite <- Hlen. unfold node_at. rewrite <- Hlen.
  destruct (decide (todo (serve d q) vs = [])) as [Et|Et]; rewrite todo_nil in Et.
  - rewrite Et. pose proof Hb' as (Hcomp & _). rewrite Hcomp. rewrite got_of_all in Hb' by done.
    destruct (Hfin b' p v) as (ib' & Ef & Hl & Hw); [done|done|]. rewrite Ef. res_simpl. cbn [fst snd].
    eexists _, _. split; [done|]. split; [done|]. rewrite map_map. apply Forall2_fmap_l.
    apply Forall_Forall2_diag. eapply Forall_impl; [exact Hw|]. intros [z w] [Hz Hww]. cbn [fst snd] in *.
    split; [done|]. by eapply carry_reply.
  - apply not_true_is_false in Et. rewrite Et. destruct Hb' as (Hcomp & Hph' & _). rewrite Hcomp. res_simpl.
    eexists _, _. split; [done|]. split; [|done]. rewrite serve_not_none by (by rewrite Hlen). rewrite Hn.
    exists (set_buffers ib b'), b', h. split_and!; [done|done|by apply closes_set_buffers|done].
Qed.

Lemma node_deliver e d q v p :
  node_at d e -> (q < arity n)%nat -> d q = false -> vs !! q = Some v -> carry v p ->
  delivered d q (element_push env e q p).
Proof using Hpad Ht H0 Hts Hu Hnf Hstep Hlen Hwf.
  intros Hat Hq Hd Hv Hp.
  pose proof (fun k P cap s Hn => indicator_deliver k P cap s e d q v p Hn Hat Hq Hd Hv Hp) as Hind.
  unfold delivered, node_at, closes in *.
  destruct n as [|k P cap s|m|vals|]; [done|by apply (Hind k P cap s)| | |]; clear Hind.
  all: cbn [arity] in Hq; assert (q = 0%nat) as -> by lia; cbn [arity] in *.
  all: assert (Ha : all_served d 1 = false) by (unfold all_served; simpl; by rewrite Hd).
  all: assert (Hno : none_served d 1 = true) by (unfold none_served; simpl; by rewrite Hd).
  all: rewrite Ha, Hno in Hat; cbn [live] in Hat; change (all_served (serve d 0) 1) with true.
  all: destruct vs as [|v' [|]]; try done; injection Hv as ->; cbn [node_step] in Hstep.
  - subst e. injection Hstep as <- <-. cbn [element_push].
    unfold ReuseTee.push, ReuseTee.COPY_MSG_MAX_LEN. destruct Hp as (Hty & Hdec & Hpl).
    rewrite (proj2 (Nat.ltb_lt _ _)) by done. res_simpl. eexists _, _. split; [done|]. split; [done|].
    apply Forall2_fmap_l, Forall2_fmap_r, Forall_Forall2_diag, Forall_forall. intros i _.
    split; [done|]. cbn [snd]. unfold length_of in *. rewrite take_app_length.
    split; [done|]. by split.
  - destruct Hat as (s & g & -> & Hact & Hcm & Hcnt & arr & Hg & Hl & ->). cbn [element_push].
    change ([v] !!! 0%nat) with v in *. destruct Hp as (Hty & Hdec & Hpl).
    destruct (decide (t = MSG_UPDATE)) as [Etu|Etu].
    + destruct (print_step (now_print env, p) (v, ts) s arr g) as (s' & arr' & E & _ & Ha' & Hc' & Hi' & Hl' & Hn' & Hm');
        try done; [split; [by transitivity t|done]|].
      cbn [fst snd] in *. rewrite E. res_simpl. cbn [fst snd]. injection Hstep as <- <-.
      eexists _, _. split; [done|]. split; [|constructor; [|constructor]; split; [done|by split]].
      eexists _, _. split; [done|]. split; [done|]. split; [done|]. split; [lia|]. exists arr'.
      rewrite Hi'. split; [apply list_lookup_insert_eq; by eapply lookup_lt_Some|]. by split.
    + injection Hstep as <- <-.
      assert (E : StatPrinter.simple_action (now_print env) p s g = Ok (s, g, p)).
      { unfold StatPrinter.simple_action. rewrite Hact, Hty. by destruct t. }
      rewrite E. res_simpl. eexists _, _. split; [done|]. split; [|constructor; [|constructor]; split; [done|by split]].
      eexists _, _. split; [done|]. split; [done|]. split; [done|]. split; [done|]. by exists arr.
  - destruct Hat as [c ->]. injection Hstep as <- <-. cbn [element_push].
    eexists _, _. split; [done|]. split; [by eexists|constructor].
Qed.
End node.

(** ** Depth-first delivery *)
Section network.
Context (hookup : list ((nat * Z) * (nat * nat))) (f : nat) (ns ns' : list node).
Context (outs : nat -> list (Z * FixedPt)) (arr : nat -> nat -> option FixedPt) (vals : nat -> list FixedPt).
Implicit Types (D : nat -> nat -> bool) (es : list Element) (kl : list killed).

(** The graph has no cycle -- edges go to higher numbers -- and every input
    is fed by one output. *)
Context (Hacyclic : forall i port j q, target hookup i port = Some (j, q) ->
  (i < j)%nat /\ exists n, ns !! j = Some n /\ (q < arity n)%nat).
Context (Hinj : forall i port i' port' x, target hookup i port = Some x -> target hookup i' port' = Some x ->
  i = i' /\ port = port').

(** A solution of the dataflow equations: [arr] are the values that arrive,
    [outs] those that are sent; [f] is the node the packets come from. *)
Definition silent (j : nat) (n : node) : Prop :=
  (forall q, (q < arity n)%nat -> arr j q = None) /\ ns' !! j = Some n /\ skippable n = true /\
  (j <> f -> outs j = []).
Definition fires (j : nat) (n n' : node) : Prop :=
  (0 < arity n)%nat /\ j <> f /\ n <> NFront /\ ns' !! j = Some n' /\ length (vals j) = arity n /\
  (forall q, (q < arity n)%nat -> arr j q = vals j !! q) /\ Forall wf_fpt (vals j) /\
  node_step t n (vals j) = Ok (n', outs j).
Context (Hsol : forall j n, ns !! j = Some n -> silent j n \/ exists n', fires j n n').
Context (Hsrc : forall j q v, arr j q = Some v ->
  exists i port, target hookup i port = Some (j, q) /\ (port, v) ∈ outs i).
Context (Hdst : forall i port v j q, (port, v) ∈ outs i -> target hookup i port = Some (j, q) -> arr j q = Some v).
Context (Hnd : forall i, NoDup (outs i).*1) (Hrange : forall i, ns !! i = None -> outs i = []).
Context (Hns : length ns' = length ns).

(** [D j q]: the packet for input [q] of node [j] has been delivered. *)
Definition feeds (i j q : nat) : Prop := exists port, target hookup i port = Some (j, q).
Definition fired D (i : nat) : bool :=
  (i =? f)%nat ||
  match ns !! i with Some n => (0 <? arity n)%nat && all_served (D i) (arity n) | None => false end.

Definition at_round D es : Prop :=
  length es = length ns /\
  forall j n, ns !! j = Some n ->
    exists e, es !! j = Some e /\
    if none_served (D j) (arity n) then live e ts0 n
    else exists n', fires j n n' /\ node_at n n' (vals j) (outs j) (D j) e.

(** Only elements that have fired have delivered. *)
Definition caused D : Prop := forall j q, D j q = true -> exists i, feeds i j q /\ fired D i = true.

(** What propagating packets does: deliveries are added -- the ones asked for
    ([new]) and those of elements that had not fired -- and elements that fire
    deliver all they send; [kl] collects what has no target. *)
Record grows D D' (new : nat -> nat -> Prop) kl : Prop := {
  g_mono : forall j q, D j q = true -> D' j q = true;
  g_new : forall j q, D' j q = true -> D j q = true \/ new j q \/ exists i, feeds i j q /\ fired D i = false;
  g_closed : forall i, fired D' i = true -> fired D i = false -> forall port v, (port, v) ∈ outs i ->
    match target hookup i port with
    | Some x => D' x.1 x.2 = true
    | None => exists p, (i, port, p) ∈ kl /\ carry v p
    end;
  g_sound : Forall (fun x => exists v, (x.1.2, v) ∈ outs x.1.1 /\ carry v x.2) kl
}.

Lemma fired_mono D D' i : (forall j q, D j q = true -> D' j q = true) -> fired D i = true -> fired D' i = true.
Proof.
  intros Hm. unfold fired. rewrite !orb_true_iff. intros [?|Hf]; [by left|right].
  destruct (ns !! i) as [n|]; [|done]. rewrite andb_true_iff, all_served_iff in *.
  destruct Hf as [Ha Hf]. split; auto.
Qed.

Lemma fired_mono_false D D' i : (forall j q, D j q = true -> D' j q = true) -> fired D' i = false -> fired D i = false.
Proof.
  intros Hm Hf. destruct (fired D i) eqn:E; [|done]. by rewrite (fired_mono D D' i Hm E) in Hf.
Qed.

Lemma grows_trans D D1 D2 new1 new2 kl1 kl2 :
  grows D D1 new1 kl1 -> grows D1 D2 new2 kl2 ->
  grows D D2 (fun j q => new1 j q \/ new2 j q) (kl1 ++ kl2).
Proof.
  intros [M1 N1 C1 S1] [M2 N2 C2 S2]. split.
  - auto.
  - intros j q Hd. destruct (N2 j q Hd) as [Hd1|[Hn|(i & Hi & Hf)]]; [|by right; left; right|].
    + destruct (N1 j q Hd1) as [?|[?|?]]; auto.
    + right; right. exists i. split; [done|]. by eapply fired_mono_false.
  - intros i Hi2 Hi port v Hv. destruct (fired D1 i) eqn:E1.
    + specialize (C1 i E1 Hi port v Hv). destruct (target hookup i port) as [x|]; [by apply M2|].
      destruct C1 as (p & Hp & Hc). exists p. rewrite elem_of_app. auto.
    + specialize (C2 i Hi2 E1 port v Hv). destruct (target hookup i port) as [x|]; [done|].
      destruct C2 as (p & Hp & Hc). exists p. rewrite elem_of_app. auto.
  - by apply Forall_app.
Qed.

Definition served D (j q : nat) : nat -> nat -> bool := fun x y => if (x =? j)%nat then serve (D x) q y else D x y.

Lemma served_mono D j q x y : D x y = true -> served D j q x y = true.
Proof. unfold served, serve. destruct (x =? j)%nat; [|done]. intros ->. apply orb_true_r. Qed.

Lemma served_new D j q x y : served D j q x y = true -> D x y = true \/ (x = j /\ y = q).
Proof.
  unfold served, serve. destruct (Nat.eqb_spec x j) as [->|]; [|auto].
  destruct (Nat.eqb_spec y q) as [->|]; auto.
Qed.

Lemma served_self D j q : served D j q j q = true.
Proof. unfold served, serve. by rewrite !Nat.eqb_refl. Qed.

Lemma served_fired D j q i : i <> j -> fired (served D j q) i = fired D i.
Proof. intros Hi. unfold fired, served. by rewrite (proj2 (Nat.eqb_neq i j)) by done. Qed.

(** A push to input [q] of node [j], and the outcome it must have. *)
Definition pushed D (new : nat -> nat -> Prop) (r : res (list Element * list killed)) : Prop :=
  exists es' kl D', r = Ok (es', kl) /\ at_round D' es' /\ caused D' /\ grows D D' new kl /\
    (forall j q, new j q -> D' j q = true).

Definition push_ok (fuel : nat) : Prop :=
  forall j q p v D es, (length ns <= fuel + j)%nat -> at_round D es -> caused D ->
    arr j q = Some v -> carry v p -> D j q = false -> (exists i, feeds i j q /\ fired D i = true) ->
    pushed D (fun x y => x = j /\ y = q) (router_push env hookup fuel j q p es).

Lemma grows_refl D : grows D D (fun _ _ => False) [].
Proof. split; auto. intros i -> . done. Qed.

Lemma grows_impl D D' (new new' : nat -> nat -> Prop) kl :
  (forall j q, new j q -> new' j q) -> grows D D' new kl -> grows D D' new' kl.
Proof. intros Hi [M N C S]. split; auto. intros j q Hd. destruct (N j q Hd) as [|[|]]; auto. Qed.

Lemma grows_kill D D' new kl i port p v :
  (port, v) ∈ outs i -> carry v p -> grows D D' new kl -> grows D D' new ((i, port, p) :: kl).
Proof.
  intros Hv Hp [M N C S]. split; auto.
  - intros k Hk1 Hk2 port' v' Hv'. specialize (C k Hk1 Hk2 port' v' Hv').
    destruct (target hookup k port'); [done|]. destruct C as (p' & ? & ?). exists p'. by split; [right|].
  - constructor; [by exists v|done].
Qed.

(** The outputs of a node that has fired. *)
Definition sent_to i (ov : list (Z * FixedPt)) (x y : nat) : Prop :=
  exists port v, (port, v) ∈ ov /\ target hookup i port = Some (x, y).

Lemma deliver_ok fuel i out ov D es :
  push_ok fuel -> (length ns <= S fuel + i)%nat -> fired D i = true -> ov ⊆ outs i -> NoDup ov.*1 ->
  Forall2 carry_out out ov -> at_round D es -> caused D ->
  (forall port v j q, (port, v) ∈ ov -> target hookup i port = Some (j, q) -> D j q = false) ->
  exists es' kl D', deliver hookup (router_push env hookup fuel) i out es = Ok (es', kl) /\
    at_round D' es' /\ caused D' /\ grows D D' (sent_to i ov) kl /\
    (forall port v, (port, v) ∈ ov ->
       match target hookup i port with
       | Some x => D' x.1 x.2 = true
       | None => exists p, (i, port, p) ∈ kl /\ carry v p
       end).
Proof using Hpad Hacyclic Hinj Hdst.
  intros Hpush Hfuel Hf Hsub Hndv Hout. revert D es Hf Hsub Hndv.
  induction Hout as [|[port p] [port' v] out ov [Hport Hc] Hout IH]; intros D es Hf Hsub Hndv Hat Hcau Hfree.
  - exists es, [], D. split_and!; try done; [|by intros ? ? ?%elem_of_nil].
    eapply grows_impl; [|apply grows_refl]. done.
  - cbn [fst snd] in Hport, Hc. subst port'. cbn [deliver fst snd].
    rewrite fmap_cons in Hndv. apply NoDup_cons in Hndv as [Hp Hndv].
    assert (Hin : (port, v) ∈ outs i) by (apply Hsub; left).
    assert (Hsub' : ov ⊆ outs i) by (intros x Hx; apply Hsub; by right).
    destruct (target hookup i port) as [[j q]|] eqn:Et.
    + destruct (Hacyclic _ _ _ _ Et) as [Hij _].
      destruct (Hpush j q p v D es) as (es1 & kl1 & D1 & E1 & Hat1 & Hcau1 & Hg1 & Hnew1); try done.
      { clear -Hfuel Hij. lia. } { by eapply Hdst. } { eapply Hfree; [left|done]. } { exists i. split; [by exists port|done]. }
      rewrite E1. res_simpl. cbn [fst snd].
      destruct (IH D1 es1) as (es2 & kl2 & D2 & E2 & Hat2 & Hcau2 & Hg2 & Hall); try done.
      * eapply fired_mono; [apply Hg1|done].
      * intros port' v' j' q' Hin' Ht'. destruct (D1 j' q') eqn:Ed; [|done].
        destruct (g_new _ _ _ _ Hg1 _ _ Ed) as [Hd|[[-> ->]|(i' & [port2 Hi'] & Hf')]].
        -- rewrite (Hfree port' v' j' q') in Hd; [done|by right|done].
        -- destruct (Hinj _ _ _ _ _ Et Ht') as [_ <-]. destruct Hp.
           apply list_elem_of_fmap. by exists (port, v').
        -- destruct (Hinj _ _ _ _ _ Ht' Hi') as [-> _]. congruence.
      * rewrite E2. res_simpl. eexists _, _, D2. split; [done|]. split; [done|]. split; [done|]. split.
        -- eapply grows_impl; [|exact (grows_trans _ _ _ _ _ _ _ Hg1 Hg2)].
           intros x y [[-> ->]|(port' & v' & Hin' & Ht')]; [exists port, v; by split; [left|]|].
           exists port', v'. by split; [right|].
        -- intros port' v' [[= -> ->]|Hin']%elem_of_cons.
           ++ rewrite Et. cbn [fst snd]. apply Hg2. by apply Hnew1.
           ++ specialize (Hall port' v' Hin'). destruct (target hookup i port'); [done|].
              destruct Hall as (p' & ? & ?). exists p'. rewrite elem_of_app. auto.
    + destruct (IH D es) as (es2 & kl2 & D2 & E2 & Hat2 & Hcau2 & Hg2 & Hall); try done.
      { intros port' v' j' q' Hin' Ht'. eapply Hfree; [by right|done]. }
      rewrite E2. res_simpl. cbn [fst snd]. eexists _, _, D2. split; [done|]. split; [done|]. split; [done|]. split.
      * eapply grows_impl; [|by eapply grows_kill].
        intros x y (port' & v' & Hin' & Ht'). exists port', v'. by split; [right|].
      * intros port' v' [[= -> ->]|Hin']%elem_of_cons.
        -- rewrite Et. exists p. by split; [left|].
        -- specialize (Hall port' v' Hin'). destruct (target hookup i port'); [done|].
           destruct Hall as (p' & ? & ?). exists p'. by split; [right|].
Qed.

Lemma fired_all D j n :
  ns !! j = Some n -> (0 < arity n)%nat -> j <> f -> fired D j = all_served (D j) (arity n).
Proof.
  intros Hn Ha Hf. unfold fired. rewrite Hn, (proj2 (Nat.eqb_neq _ _)), (proj2 (Nat.ltb_lt _ _)) by done. done.
Qed.

Lemma fires_fired D i n n' :
  ns !! i = Some n -> fires i n n' -> (forall q v, arr i q = Some v -> D i q = true) -> fired D i = true.
Proof.
  intros Hn (Ha & Hif & _ & _ & Hlen & Hvals & _) HD. rewrite (fired_all D i n Hn Ha Hif), all_served_iff.
  intros q Hq. destruct (lookup_lt_is_Some_2 (vals i) q) as [w Hw]; [by rewrite Hlen|].
  apply (HD q w). by rewrite Hvals.
Qed.

Lemma fires_unfired i n n' : ns !! i = Some n -> fires i n n' -> fired (fun _ _ => false) i = false.
Proof.
  intros Hn (Ha & Hif & _). rewrite (fired_all _ i n Hn Ha Hif). apply not_true_iff_false.
  rewrite all_served_iff. intros Hall. by specialize (Hall 0%nat Ha).
Qed.

(** Only a node that fires sends. *)
Lemma sender i port v :
  (port, v) ∈ outs i -> i <> f -> exists n n', ns !! i = Some n /\ fires i n n'.
Proof using Hsol Hrange.
  intros Hin Hif. destruct (ns !! i) as [n|] eqn:Hn; [|rewrite Hrange in Hin by done; by apply elem_of_nil in Hin].
  destruct (Hsol i n Hn) as [(_ & _ & _ & Ho)|[n' Hf]]; [|by exists n, n'].
  rewrite Ho in Hin by done. by apply elem_of_nil in Hin.
Qed.

(** The state after one more delivery. *)
Lemma at_round_served D es j q n n' e :
  at_round D es -> ns !! j = Some n -> (q < arity n)%nat -> fires j n n' ->
  node_at n n' (vals j) (outs j) (serve (D j) q) e ->
  at_round (served D j q) (<[j := e]> es).
Proof using.
  intros [Hl Hat] Hn Hq Hf He. split; [by rewrite length_insert|]. intros i m Hm.
  destruct (decide (i = j)) as [->|Hij].
  - rewrite Hn in Hm. injection Hm as <-. exists e. split.
    + apply list_lookup_insert_eq. rewrite Hl. by eapply lookup_lt_Some.
    + unfold served. rewrite Nat.eqb_refl, serve_not_none by done. by exists n'.
  - destruct (Hat i m Hm) as (e' & He' & Hcase). exists e'. rewrite list_lookup_insert_ne by done.
    split; [done|]. unfold served. by rewrite (proj2 (Nat.eqb_neq i j)) by done.
Qed.

(** The node that receives the packet. *)
Lemma node_receives D es j q v p :
  at_round D es -> arr j q = Some v -> carry v p -> D j q = false ->
  exists n n' e e' o, ns !! j = Some n /\ (q < arity n)%nat /\ fires j n n' /\ es !! j = Some e /\
    element_push env e q p = Ok (e', o) /\ at_round (served D j q) (<[j := e']> es) /\
    if all_served (serve (D j) q) (arity n) then Forall2 carry_out o (outs j) else o = [].
Proof using Hpad Ht H0 Hts Hu Hacyclic Hsol Hsrc.
  intros Hat Harr Hp Hd. destruct (Hsrc j q v Harr) as (i & port & Htg & _).
  destruct (Hacyclic _ _ _ _ Htg) as (_ & n & Hn & Hq).
  destruct (Hsol j n Hn) as [[Hnone _]|[n' Hf]]; [by rewrite Hnone in Harr|].
  pose proof Hf as (Ha & Hjf & Hnf & Hn' & Hlen & Hvals & Hwf & Hstep).
  destruct (proj2 Hat j n Hn) as (e & He & Hcase).
  assert (Hna : node_at n n' (vals j) (outs j) (D j) e).
  { destruct (none_served (D j) (arity n)) eqn:En.
    - unfold node_at. rewrite En. destruct (all_served (D j) (arity n)) eqn:Ea; [|done].
      rewrite all_served_iff in Ea. by rewrite Ea in Hd.
    - destruct Hcase as (n2 & Hf2 & Hna). pose proof Hf2 as (_ & _ & _ & Hn2 & _). congruence. }
  rewrite Hvals in Harr by done.
  destruct (node_deliver n n' (vals j) (outs j) Hnf Hstep Hlen Hwf e (D j) q v p Hna Hq Hd Harr Hp)
    as (e' & o & E & Hna' & Ho).
  exists n, n', e, e', o. split_and!; try done. by eapply at_round_served.
Qed.

Lemma caused_served D j q :
  caused D -> (exists i, feeds i j q /\ fired D i = true) -> caused (served D j q).
Proof.
  intros Hc Hi x y Hd. apply served_new in Hd as [Hd|[-> ->]].
  - destruct (Hc x y Hd) as (i & ? & ?). exists i. split; [done|]. eapply fired_mono; [|done].
    intros. by apply served_mono.
  - destruct Hi as (i & ? & ?). exists i. split; [done|]. eapply fired_mono; [|done].
    intros. by apply served_mono.
Qed.

Lemma push_ok_all fuel : push_ok fuel.
Proof using Hpad Ht H0 Hts Hu Hacyclic Hinj Hsol Hsrc Hdst Hnd.
  induction fuel as [|fuel IH]; intros j q p v D es Hfuel Hat Hcau Harr Hp Hd Hby.
  { destruct (Hsrc j q v Harr) as (i & port & Htg & _). destruct (Hacyclic _ _ _ _ Htg) as (_ & n & Hn & _).
    apply lookup_lt_Some in Hn. clear -Hfuel Hn. lia. }
  destruct (node_receives D es j q v p Hat Harr Hp Hd) as (n & n' & e & e' & o & Hn & Hq & Hf & He & E & Hat1 & Ho).
  pose proof Hf as (Ha & Hjf & _). pose proof (fired_all D j n Hn Ha Hjf) as Hfj.
  pose proof (caused_served D j q Hcau Hby) as Hcau1. unfold pushed. cbn [router_push]. rewrite He. res_simpl.
  rewrite E. res_simpl. cbn [fst snd].
  assert (Hfalse : fired D j = false).
  { rewrite Hfj. apply not_true_iff_false. rewrite all_served_iff. intros Hall. by rewrite Hall in Hd. }
  assert (Hf1 : fired (served D j q) j = all_served (serve (D j) q) (arity n)).
  { rewrite (fired_all _ j n Hn Ha Hjf). unfold served. by rewrite Nat.eqb_refl. }
  destruct (all_served (serve (D j) q) (arity n)) eqn:Eall.
  - destruct (deliver_ok fuel j o (outs j) (served D j q) (<[j := e']> es))
      as (es2 & kl & D2 & E2 & Hat2 & Hcau2 & Hg & Hall); try done.
    { intros port w x y Hin Htg. destruct (served D j q x y) eqn:Ed; [|done]. exfalso.
      apply served_new in Ed as [Hdx|[-> ->]].
      - destruct (Hcau x y Hdx) as (i & [port' Hi] & Hfi).
        destruct (Hinj _ _ _ _ _ Htg Hi) as [-> _]. congruence.
      - destruct (Hacyclic _ _ _ _ Htg) as [Hlt _]. clear -Hlt. lia. }
    exists es2, kl, D2. split; [done|]. split; [done|]. split; [done|]. destruct Hg as [M N C S]. split; [split|].
    + intros x y Hxy. by apply M, served_mono.
    + intros x y Hxy. destruct (N x y Hxy) as [H1|[(port & w & Hin & Htg)|(i & Hi & Hfi)]].
      * apply served_new in H1 as [|]; auto.
      * right; right. exists j. split; [by exists port|done].
      * right; right. exists i. split; [done|]. eapply fired_mono_false; [|done]. intros. by apply served_mono.
    + intros i Hi Hi0 port w Hw. destruct (decide (i = j)) as [->|Hij]; [by apply (Hall port w)|].
      apply (C i Hi); [by rewrite served_fired|done].
    + done.
    + intros x y [-> ->]. apply M, served_self.
  - subst o. cbn [deliver]. exists (<[j := e']> es), [], (served D j q). split_and!; try done.
    + split; [intros; by apply served_mono| |intros i Hi Hi0; exfalso|constructor].
      * intros x y Hxy. apply served_new in Hxy as [|]; auto.
      * destruct (decide (i = j)) as [->|Hij]; [congruence|]. rewrite served_fired in Hi by done. congruence.
    + intros x y [-> ->]. apply served_self.
Qed.

Lemma all_delivered D kl :
  grows (fun _ _ => false) D (sent_to f (outs f)) kl ->
  (forall port v, (port, v) ∈ outs f ->
     match target hookup f port with
     | Some x => D x.1 x.2 = true
     | None => exists p, (f, port, p) ∈ kl /\ carry v p
     end) ->
  forall j q v, arr j q = Some v -> D j q = true.
Proof using Hacyclic Hsol Hsrc Hrange.
  intros Hg Hfirst j. induction (lt_wf j) as [j _ IH]. intros q v Harr.
  destruct (Hsrc j q v Harr) as (i & port & Htg & Hin).
  destruct (decide (i = f)) as [->|Hif].
  { specialize (Hfirst port v Hin). by rewrite Htg in Hfirst. }
  destruct (Hacyclic _ _ _ _ Htg) as (Hij & _).
  destruct (sender i port v Hin Hif) as (n & n' & Hn & Hf).
  assert (Hfi : fired D i = true) by (eapply fires_fired; eauto).
  pose proof (g_closed _ _ _ _ Hg i Hfi (fires_unfired i n n' Hn Hf) port v Hin) as Hc. by rewrite Htg in Hc.
Qed.

(** The packets of a round, delivered depth first, bring every node to its new
    state, and every value sent to an output without a connection is killed there. *)
Lemma network_round fuel out es :
  (length ns <= S fuel + f)%nat -> ns !! f = Some NFront ->
  Forall2 carry_out out (outs f) -> Forall2 (fun e n => live e ts0 n) es ns ->
  exists es' kl, deliver hookup (router_push env hookup fuel) f out es = Ok (es', kl) /\
    Forall2 (fun e n => live e ts n) es' ns' /\
    (forall i port v, (port, v) ∈ outs i -> target hookup i port = None ->
       exists p, (i, port, p) ∈ kl /\ carry v p) /\
    Forall (fun x => exists v, (x.1.2, v) ∈ outs x.1.1 /\ carry v x.2) kl.
Proof using Hpad Ht H0 Hts Hu Hacyclic Hinj Hsol Hsrc Hdst Hnd Hrange Hns.
  intros Hfuel Hfront Hout Hlive. pose proof (Forall2_length _ _ _ Hlive) as Hl.
  assert (Hat : at_round (fun _ _ => false) es).
  { split; [done|]. intros j n Hn. destruct (Forall2_lookup_r _ _ _ _ _ Hlive Hn) as (e & He & Hle).
    exists e. split; [done|]. by rewrite (proj2 (none_served_iff _ _)). }
  destruct (deliver_ok fuel f out (outs f) (fun _ _ => false) es) as (es' & kl & D & E & [Hl' Hat'] & _ & Hg & Hall);
    try done; [by apply push_ok_all|by unfold fired; rewrite Nat.eqb_refl|].
  pose proof (all_delivered D kl Hg Hall) as Hdel. exists es', kl. split; [done|]. split; [|split].
  - apply Forall2_same_length_lookup_2; [by rewrite Hl', Hns|]. intros j e n' He Hn'.
    destruct (lookup_lt_is_Some_2 ns j) as [n Hn]; [rewrite <- Hns; by eapply lookup_lt_Some|].
    destruct (Hat' j n Hn) as (e' & He' & Hcase). rewrite He in He'. injection He' as <-.
    destruct (Hsol j n Hn) as [(Hnone & Hns' & Hskip & _)|[n2 Hf]].
    + assert (n' = n) as -> by congruence. apply (live_skippable e ts0); [done|].
      destruct (none_served (D j) (arity n)); [done|]. destruct Hcase as (n2 & (Ha & _ & _ & _ & Hlen & Hvals & _) & _).
      specialize (Hnone 0%nat Ha). rewrite Hvals in Hnone by done. apply lookup_ge_None_1 in Hnone.
      clear -Hnone Hlen Ha. lia.
    + pose proof Hf as (Ha & _ & _ & Hn2 & Hlen & Hvals & _). assert (n2 = n') as -> by congruence.
      assert (Hdj : forall q, (q < arity n)%nat -> D j q = true).
      { intros q Hq. destruct (lookup_lt_is_Some_2 (vals j) q) as [w Hw]; [by rewrite Hlen|].
        apply (Hdel j q w). by rewrite Hvals. }
      destruct (none_served (D j) (arity n)) eqn:En.
      { rewrite none_served_iff in En. specialize (En 0%nat Ha). by rewrite Hdj in En. }
      destruct Hcase as (n3 & Hf3 & Hna). pose proof Hf3 as (_ & _ & _ & Hn3 & _). assert (n3 = n') as -> by congruence.
      unfold node_at in Hna. by rewrite (proj2 (all_served_iff _ _)) in Hna.
  - intros i port v Hin Htg. destruct (decide (i = f)) as [->|Hif]; [specialize (Hall port v Hin); by rewrite Htg in Hall|].
    destruct (sender i port v Hin Hif) as (n & n' & Hn & Hf).
    assert (Hfi : fired D i = true) by (eapply fires_fired; eauto).
    pose proof (g_closed _ _ _ _ Hg i Hfi (fires_unfired i n n' Hn Hf) port v Hin) as Hc. by rewrite Htg in Hc.
  - apply Hg.
Qed.
End network.

(** The packets sent by the splitter, number [f]. *)
Lemma flow_refined hookup f ns ns' os out0 out es fuel :
  well_wired hookup (map arity ns) = true -> (forall j, ns !! j = Some NFront <-> (j <= f)%nat) ->
  flow hookup t 0 ns (connect hookup f out0) = Ok (ns', os) ->
  NoDup out0.*1 -> Forall (fun pv => wf_fpt pv.2) out0 -> Forall2 carry_out out out0 ->
  Forall2 (fun e n => live e ts0 n) es ns -> (length ns <= S fuel + f)%nat ->
  exists es' kl, deliver hookup (router_push env hookup fuel) f out es = Ok (es', kl) /\
    Forall2 (fun e n => live e ts n) es' ns' /\
    (forall i port v, (port, v) ∈ sent f os out0 i -> target hookup i port = None ->
       exists p, (i, port, p) ∈ kl /\ carry v p) /\
    Forall (fun x => exists v, (x.1.2, v) ∈ sent f os out0 x.1.1 /\ carry v x.2) kl.
Proof using Hpad Ht H0 Hts Hu.
  intros Hw Hfront Hflow Hnd0 Hwf0 Hout Hlive Hfuel.
  assert (Hok : Forall node_ok ns).
  { apply Forall_lookup_2. intros j n Hn. destruct (Forall2_lookup_r _ _ _ _ _ Hlive Hn) as (e & _ & He).
    by eapply live_node_ok. }
  destruct (flow_spec _ _ _ _ _ _ _ Hflow) as (Hl1 & Hl2 & _).
  pose proof (elem_all_arrivals t hookup f ns ns' os out0 Hfront Hflow) as Helem.
  pose proof (flow_node t hookup f ns ns' os out0 Hw Hfront Hflow) as Hnode.
  assert (Hnd : forall i, NoDup (sent f os out0 i).*1) by (intros i; by eapply sent_nodup).
  apply (network_round hookup f ns ns' (sent f os out0) (arrived (all_arrivals hookup f os out0))
    (values_at hookup f ns os out0)); try done.
  - intros i port j q. by apply wired_acyclic.
  - intros i port i' port' x. by apply wired_inj with (ns := ns).
  - intros j n Hn. destruct (Hnode j n Hn) as (n' & Hn' & [(Hnone & Hs & -> & Ho)|(Ha & Hjf & Hnf & Hl & Hv & Hstep)]).
    + left. by split.
    + right. exists n'. split_and!; try done. apply Forall_lookup_2. intros q v Hq.
      pose proof (lookup_lt_Some _ _ _ Hq) as Hlt. rewrite Hl in Hlt. rewrite <- Hv in Hq by done.
      apply arrived_elem, Helem in Hq as (k & port & _ & Hin).
      pose proof (sent_wf t hookup f ns ns' os out0 Hw Hfront Hflow Hwf0 Hok k) as Hwf.
      by apply (Forall_forall _ _) with (x := (port, v)) in Hwf.
  - intros j q v Harr. by apply Helem, arrived_elem.
  - intros i port v j q Hin Htg. assert (Hx : ((j, q), v) ∈ all_arrivals hookup f os out0) by (apply Helem; eauto).
    destruct (elem_arrived _ _ _ _ Hx) as [v' Hv']. rewrite Hv'. f_equal.
    apply arrived_elem, Helem in Hv' as (i' & port' & Htg' & Hin').
    destruct (wired_inj hookup ns _ _ _ _ _ Hw Htg Htg') as [<- <-].
    apply list_elem_of_lookup in Hin as [a Hina], Hin' as [b Hinb].
    assert (a = b) as ->.
    { eapply (NoDup_lookup _ _ _ port (Hnd i)); rewrite list_lookup_fmap; [by rewrite Hina|by rewrite Hinb]. }
    congruence.
  - intros i Hi. unfold sent. destruct (Nat.eqb_spec i f) as [->|].
    + rewrite (proj2 (Hfront f)) in Hi by done. done.
    + rewrite lookup_ge_None_2; [done|]. rewrite Hl2. by apply lookup_ge_None_1.
  - by apply Hfront.
  - unfold sent. by rewrite Nat.eqb_refl.
Qed.
End round.
