(* ===== verification/RouterProps.v ===== *)
(** * RouterProps: runs of a configured router

    Pushes through an acyclic graph terminate: a call tree of finite depth exists
    and [router_push] computes it ([router_push_pushes], [pushes_det]).  A source
    message is stamped, split and sent into the network ([front_push]); a run of
    the router computes what the dataflow network computes ([refine_run]). *)

From S2P Require Import Prelude FixedPt CircArray Messages Buffers IndicatorBase IndicatorLaws.
From S2P Require Import Smoothing Directional Ratios IndicatorProps AdLine Parsing Sources SourceProps.
From S2P Require Import Router Dataflow Propagation.
Import FPt Buffers BuffersFacts IndicatorBase IndicatorBaseFacts Router.

Abbreviation connections := (list ((nat * Z) * (nat * nat))).

(** ** Termination *)

(** The calls an element's [push] makes, as a natural semantics: a derivation is
    a finite tree of calls. *)
Section pushes.
Context (env : Env) (hookup : connections).

Inductive pushes : nat -> nat -> Packet -> list Element -> res (list Element * list killed) -> Prop :=
| pushes_null i port p es : es !! i = None -> pushes i port p es (Fault NullDeref)
| pushes_fault i port p es e f :
    es !! i = Some e -> element_push env e port p = Fault f -> pushes i port p es (Fault f)
| pushes_deliver i port p es e e' out r :
    es !! i = Some e -> element_push env e port p = Ok (e', out) ->
    delivers i out (<[i := e']> es) r -> pushes i port p es r
with delivers : nat -> list (Z * Packet) -> list Element -> res (list Element * list killed) -> Prop :=
| delivers_done i es : delivers i [] es (Ok (es, []))
| delivers_kill i port p out es r :
    target hookup i port = None -> delivers i out es r ->
    delivers i ((port, p) :: out) es (let* s := r in Ok (s.1, (i, port, p) :: s.2))
| delivers_fault i port p out es j q f :
    target hookup i port = Some (j, q) -> pushes j q p es (Fault f) ->
    delivers i ((port, p) :: out) es (Fault f)
| delivers_push i port p out es j q es' kl r :
    target hookup i port = Some (j, q) -> pushes j q p es (Ok (es', kl)) -> delivers i out es' r ->
    delivers i ((port, p) :: out) es (let* s := r in Ok (s.1, kl ++ s.2)).

(** Connections lead to elements with higher numbers, below [n]. *)
Definition acyclic (n : nat) : bool := forallb (fun c => (c.1.1 <? c.2.1)%nat && (c.2.1 <? n)%nat) hookup.

Lemma acyclic_target n i port j q :
  acyclic n = true -> target hookup i port = Some (j, q) -> (i < j < n)%nat.
Proof.
  unfold acyclic. rewrite forallb_forall. intros Ha Ht%target_elem%list_elem_of_In.
  apply Ha, andb_true_iff in Ht as [H1 H2]. apply Nat.ltb_lt in H1, H2. done.
Qed.

Lemma deliver_length go i out es es' kl :
  (forall j q p es es' kl, go j q p es = Ok (es', kl) -> length es' = length es) ->
  deliver hookup go i out es = Ok (es', kl) -> length es' = length es.
Proof.
  intros Hgo. revert es es' kl. induction out as [|[port p] out IH]; intros es es' kl; cbn [deliver fst snd].
  - by intros [= <- <-].
  - destruct (target hookup i port) as [[j q]|].
    + destruct (go j q p es) as [[es1 kl1]|] eqn:Eg; [|done]. cbn [mbind res_bind fst snd].
      destruct (deliver hookup go i out es1) as [[es2 kl2]|] eqn:Ed; [|done]. intros [= <- <-].
      rewrite (IH _ _ _ Ed). by eapply Hgo.
    + destruct (deliver hookup go i out es) as [[es2 kl2]|] eqn:Ed; [|done]. intros [= <- <-]. by eapply IH.
Qed.

Lemma router_push_length fuel i port p es es' kl :
  router_push env hookup fuel i port p es = Ok (es', kl) -> length es' = length es.
Proof.
  revert i port p es es' kl. induction fuel as [|fuel IH]; intros i port p es es' kl; cbn [router_push]; [done|].
  destruct (es !! i) as [e|]; [|done]. cbn [of_option mbind res_bind].
  destruct (element_push env e port p) as [[e' out]|]; [|done]. cbn [mbind res_bind fst snd].
  intros Hd. apply deliver_length in Hd; [|by eauto]. by rewrite Hd, length_insert.
Qed.

Lemma deliver_delivers go i out es :
  (forall j q p es', (i < j < length es)%nat -> length es' = length es ->
     pushes j q p es' (go j q p es') /\ forall es'' kl, go j q p es' = Ok (es'', kl) -> length es'' = length es') ->
  acyclic (length es) = true -> delivers i out es (deliver hookup go i out es).
Proof.
  revert es. induction out as [|[port p] out IH]; intros es Hgo Ha; cbn [deliver fst snd]; [constructor|].
  destruct (target hookup i port) as [[j q]|] eqn:Et.
  - destruct (Hgo j q p es) as [Hp Hl]; [by eapply acyclic_target|done|].
    destruct (go j q p es) as [[es1 kl1]|f]; cbn [mbind res_bind fst snd].
    + apply (delivers_push i port p out es j q es1 kl1); [done|done|]. specialize (Hl _ _ eq_refl). by apply IH; rewrite Hl.
    + by apply (delivers_fault i port p out es j q f).
  - apply (delivers_kill i port p out es); [done|]. by apply IH.
Qed.

Lemma router_push_pushes fuel i port p es :
  acyclic (length es) = true -> (0 < fuel)%nat -> (length es <= fuel + i)%nat ->
  pushes i port p es (router_push env hookup fuel i port p es).
Proof.
  revert i port p es. induction fuel as [|fuel IH]; intros i port p es Ha H0 Hf; [lia|].
  cbn [router_push]. destruct (es !! i) as [e|] eqn:He; cbn [of_option mbind res_bind]; [|by apply pushes_null].
  destruct (element_push env e port p) as [[e' out]|f] eqn:Ep; cbn [mbind res_bind fst snd];
    [|by eapply pushes_fault].
  eapply pushes_deliver; [done|done|]. apply deliver_delivers; [|by rewrite length_insert].
  rewrite length_insert. intros j q p' es' Hj Hl. split; [|intros es'' kl; apply router_push_length].
  apply lookup_lt_Some in He. apply IH; [by rewrite Hl|lia|lia].
Qed.
End pushes.

Scheme pushes_ind2 := Induction for pushes Sort Prop
with delivers_ind2 := Induction for delivers Sort Prop.

Lemma pushes_det env hookup i port p es r1 r2 :
  pushes env hookup i port p es r1 -> pushes env hookup i port p es r2 -> r1 = r2.
Proof.
  intros Hp. revert r2. induction Hp using pushes_ind2 with
    (P0 := fun i out es r1 _ => forall r2, delivers env hookup i out es r2 -> r1 = r2);
    intros r2 H2; inversion H2; subst; try congruence.
  - assert (e2 = e) as -> by congruence.
    assert (e'0 = e' /\ out0 = out) as [-> ->] by (split; congruence). auto.
  - f_equal. auto.
  - apply IHHp. congruence.
  - assert (Fault f = Ok (es', kl)) by (apply IHHp; congruence). done.
  - assert (Ok (es', kl) = Fault f) by (apply IHHp; congruence). done.
  - assert (j0 = j /\ q0 = q) as [-> ->] by (split; congruence).
    assert (Ok (es', kl) = Ok (es'0, kl0)) as [= -> ->] by auto. f_equal. auto.
Qed.

(** ** The front: timestamper and splitter *)

(** The fields of a source message that have a port, in the order they are sent. *)
Definition split_values (s : SourceSplit.SourceSplit) (src : MsgSource) : list (Z * FixedPt) :=
  flat_map (fun pv => if -1 <? pv.1 then [(pv.1, fromC pv.2)] else [])
    [(SourceSplit._open_port s, ms_open src); (SourceSplit._high_port s, ms_high src);
     (SourceSplit._close_port s, ms_close src); (SourceSplit._low_port s, ms_low src);
     (SourceSplit._volume_port s, i64 (fixedptc.fixedpt_fromint (ms_volume src)))].

Definition split_ports (s : SourceSplit.SourceSplit) : list Z :=
  (split_values s (mkMsgSource 0 0 0 0 0 0)).*1.

Lemma split_values_ports s src : (split_values s src).*1 = split_ports s.
Proof. unfold split_ports, split_values. cbn [flat_map fst snd]. by repeat case_match. Qed.

Lemma decode_source_fields data src :
  decode_MsgSource data = Ok src -> Forall (in_s 64) [ms_open src; ms_high src; ms_close src; ms_low src].
Proof. unfold decode_MsgSource, read_i64. intros Hd. res_inv. repeat constructor; apply i64_range. Qed.

(** Valid words. *)
Lemma split_values_words s src data :
  decode_MsgSource data = Ok src ->
  Forall (fun pv => pv.2 = fromC (getC pv.2) /\ wf_fpt pv.2) (split_values s src).
Proof.
  intros Hf%decode_source_fields. rewrite !Forall_cons in Hf. destruct Hf as (? & ? & ? & ? & _).
  unfold split_values. cbn [flat_map fst snd].
  repeat case_match; cbn [app]; repeat (apply Forall_cons; split); try done; split; (done || apply i64_range).
Qed.

Lemma split_stage pad p s src :
  length pad = 7%nat -> is_source (pk_app_type p) -> decode_MsgSource (pk_data p) = Ok src ->
  SourceSplit.push pad p s =
  Ok (map (fun pv => (pv.1, split_packet pad p (getC pv.2) (ms_timestamp src))) (split_values s src)).
Proof.
  intros Hpad Ht Hd. pose proof (decode_MsgSource_length _ _ Hd) as Hl.
  unfold SourceSplit.push. replace (negb _ && _ && _) with false
    by (destruct Ht as [-> | [-> | ->]]; by rewrite !bool_decide_decide).
  assert (Hl' : (sizeof_MsgValue <= length_of p)%nat).
  { unfold length_of, sizeof_MsgSource, sizeof_MsgValue in *. lia. }
  rewrite Hd. res_simpl. rewrite !send_if_spec by done. res_simpl.
  unfold split_values. cbn [flat_map fst snd]. rewrite !map_app, app_nil_r. f_equal.
  repeat (f_equal; [by case_match|]). by case_match.
Qed.

Lemma split_stage_carry pad p s src :
  length pad = 7%nat -> is_source (pk_app_type p) -> decode_MsgSource (pk_data p) = Ok src ->
  in_u 64 (ms_timestamp src) -> (length_of p < 256)%nat ->
  exists out, SourceSplit.push pad p s = Ok out /\
    Forall2 (carry_out (SourceSplit.new_type (pk_app_type p)) (ms_timestamp src)) out (split_values s src).
Proof.
  intros Hpad Ht Hd Hu Hl. eexists. split; [by apply split_stage|]. apply Forall2_fmap_l.
  pose proof (split_values_words s src _ Hd) as Hwf. pose proof (decode_MsgSource_length _ _ Hd) as Hml.
  induction Hwf as [|[port v] l [Hv Hw] Hwf IH]; constructor; [|done]. split; [done|]. cbn [fst snd] in *.
  split; [done|]. split.
  - cbn [split_packet pk_data]. rewrite <- Hv. by apply decode_encode_MsgValue.
  - unfold length_of, sizeof_MsgSource in *. cbn [split_packet pk_data].
    rewrite length_app, length_encode_MsgValue, length_drop by done. unfold sizeof_MsgValue. lia.
Qed.

(** The elements in front of the network: a splitter, number [f], with or
    without a timestamper before it. *)
Definition front_ok (hookup : connections) (f : nat) (s : SourceSplit.SourceSplit) (es : list Element) : Prop :=
  match f with
  | O => es !! 0%nat = Some (Splitter s)
  | _ => f = 1%nat /\ es !! 0%nat = Some (Stamper Timestamper.Timestamper_new) /\
         es !! 1%nat = Some (Splitter s) /\ target hookup 0 0 = Some (1%nat, 0%nat)
  end.

Definition stamp_of (f : nat) (env : Env) (p : Packet) (src : MsgSource) : Z :=
  match f with O => ms_timestamp src | _ => stamped (now_stamp env) p src end.

Lemma front_push env hookup f s es fuel p src :
  length (env_pad env) = 7%nat -> front_ok hookup f s es -> is_source (pk_app_type p) ->
  decode_MsgSource (pk_data p) = Ok src -> in_u 64 (stamp_of f env p src) -> (length_of p < 256)%nat ->
  exists out,
    Forall2 (carry_out (SourceSplit.new_type (pk_app_type p)) (stamp_of f env p src)) out (split_values s src) /\
    forall es' kl, deliver hookup (router_push env hookup fuel) f out es = Ok (es', kl) ->
      router_push env hookup (S (f + fuel)) 0 0 p es = Ok (es', kl).
Proof.
  intros Hpad Hf Ht Hd Hu Hl. destruct f as [|f]; cbn [front_ok stamp_of] in *.
  - destruct (split_stage_carry (env_pad env) p s src) as (out & E & Hc); try done. exists out. split; [done|].
    intros es' kl Hdel. cbn [Nat.add router_push]. rewrite Hf. cbn [of_option mbind res_bind element_push]. rewrite E.
    res_simpl. cbn [fst snd]. by rewrite list_insert_id.
  - destruct Hf as (-> & H0 & H1 & Htg).
    destruct (stamp_stage (now_stamp env) p src Ht Hd Hu) as (p1 & E1 & Ht1 & Hl1 & Hd1). rewrite <- Ht1, <- Hl1 in *.
    destruct (split_stage_carry (env_pad env) p1 s _ Hpad Ht Hd1 Hu Hl) as (out & E & Hc).
    exists out. split; [exact Hc|].
    intros es' kl Hdel. change (S (1 + fuel)) with (S (S fuel)). cbn [router_push]. rewrite H0.
    cbn [of_option mbind res_bind element_push]. rewrite E1. res_simpl. cbn [fst snd deliver].
    change (Z.of_nat 0) with 0. rewrite Htg, list_insert_id by done. cbn [router_push]. rewrite H1. cbn [of_option mbind res_bind element_push].
    rewrite E. res_simpl. cbn [fst snd]. rewrite list_insert_id by done. rewrite Hdel. res_simpl. cbn [fst snd].
    by rewrite app_nil_r.
Qed.

(** Pushes go forward: the elements before stay as they are. *)
Section forward.
Context (env : Env) (hookup : connections).
Context (Hacyclic : forall i port j q, target hookup i port = Some (j, q) -> (i < j)%nat).

Lemma deliver_frame go i out es es' kl x :
  (forall j q p es es' kl, (x < j)%nat -> go j q p es = Ok (es', kl) -> es' !! x = es !! x) ->
  (x <= i)%nat -> deliver hookup go i out es = Ok (es', kl) -> es' !! x = es !! x.
Proof using Hacyclic.
  intros Hgo Hx. revert es es' kl. induction out as [|[port p] out IH]; intros es es' kl; cbn [deliver fst snd].
  - by intros [= <- <-].
  - destruct (target hookup i port) as [[j q]|] eqn:Et.
    + apply Hacyclic in Et. destruct (go j q p es) as [[es1 kl1]|] eqn:Eg; [|done]. cbn [mbind res_bind fst snd].
      destruct (deliver hookup go i out es1) as [[es2 kl2]|] eqn:Ed; [|done]. intros [= <- <-].
      rewrite (IH _ _ _ Ed). eapply Hgo; [|done]. lia.
    + destruct (deliver hookup go i out es) as [[es2 kl2]|] eqn:Ed; [|done]. intros [= <- <-]. by eapply IH.
Qed.

Lemma router_push_frame fuel i port p es es' kl x :
  (x < i)%nat -> router_push env hookup fuel i port p es = Ok (es', kl) -> es' !! x = es !! x.
Proof using Hacyclic.
  revert i port p es es' kl. induction fuel as [|fuel IH]; intros i port p es es' kl Hx; cbn [router_push]; [done|].
  destruct (es !! i) as [e|]; [|done]. cbn [of_option mbind res_bind].
  destruct (element_push env e port p) as [[e' out]|]; [|done]. cbn [mbind res_bind fst snd].
  intros Hd. apply (deliver_frame _ _ _ _ _ _ x) in Hd; [|by eauto|lia].
  rewrite Hd. apply list_lookup_insert_ne. lia.
Qed.
End forward.

(** ** Runs *)

(** The dataflow network on a list of source messages: the values sent in each
    round, by element; element [f] is the splitter. *)
Fixpoint flow_run (hookup : connections) (f : nat) (s : SourceSplit.SourceSplit)
    (ms : list (PacketAppType * MsgSource)) (ns : list node)
  : res (list node * list (list (list (Z * FixedPt)))) :=
  match ms with
  | [] => Ok (ns, [])
  | m :: ms =>
      let out := split_values s m.2 in
      let* r := flow hookup (SourceSplit.new_type m.1) 0 ns (connect hookup f out) in
      let* rest := flow_run hookup f s ms r.1 in
      Ok (rest.1, <[f := out]> r.2 :: rest.2)
  end.

(** Packets with the source messages [ms], at increasing times after [ts]. *)
Fixpoint sourced (f : nat) (ts : Z) (ps : list (Env * Packet)) (ms : list (PacketAppType * MsgSource)) : Prop :=
  match ps, ms with
  | [], [] => True
  | ep :: ps, m :: ms =>
      let ts' := stamp_of f ep.1 ep.2 m.2 in
      length (env_pad ep.1) = 7%nat /\ is_source m.1 /\ pk_app_type ep.2 = m.1 /\
      decode_MsgSource (pk_data ep.2) = Ok m.2 /\ (length_of ep.2 < 256)%nat /\
      ts < ts' /\ in_u 64 ts' /\ sourced f ts' ps ms
  | _, _ => False
  end.

(** The packets killed at outputs that are not connected carry the values the
    network sends there. *)
Definition kills_agree (hookup : connections) (t : PacketAppType) (ts : Z) (kl : list killed)
    (out : list (list (Z * FixedPt))) : Prop :=
  (forall i port v, (port, v) ∈ default [] (out !! i) -> target hookup i port = None ->
     exists p, (i, port, p) ∈ kl /\ carry t ts v p) /\
  Forall (fun x => exists v, (x.1.2, v) ∈ default [] (out !! x.1.1) /\ carry t ts v x.2) kl.

Fixpoint runs_agree (hookup : connections) (f : nat) (ps : list (Env * Packet))
    (ms : list (PacketAppType * MsgSource)) (kls : list (list killed)) (outs : list (list (list (Z * FixedPt)))) : Prop :=
  match ps, ms, kls, outs with
  | [], [], [], [] => True
  | ep :: ps, m :: ms, kl :: kls, out :: outs =>
      kills_agree hookup (SourceSplit.new_type m.1) (stamp_of f ep.1 ep.2 m.2) kl out /\
      runs_agree hookup f ps ms kls outs
  | _, _, _, _ => False
  end.

Lemma sent_insert f os out0 i : (f < length os)%nat -> sent f os out0 i = default [] (<[f := out0]> os !! i).
Proof.
  intros Hf. unfold sent. destruct (Nat.eqb_spec i f) as [->|Hi].
  - by rewrite list_lookup_insert_eq.
  - by rewrite list_lookup_insert_ne.
Qed.

Lemma source_known t : is_source t -> known (SourceSplit.new_type t).
Proof. unfold known. intros [-> | [-> | ->]]; cbn; auto. Qed.

Section runs.
Context (hookup : connections) (f : nat) (s : SourceSplit.SourceSplit) (Hports : NoDup (split_ports s)).

(** The elements of a router and the nodes they implement. *)
Record implements (es : list Element) (ts : Z) (ns : list node) : Prop := {
  im_wired : well_wired hookup (map arity ns) = true;
  im_nodes : forall j, ns !! j = Some NFront <-> (j <= f)%nat;
  im_front : front_ok hookup f s es;
  im_live : Forall2 (fun e n => live e ts n) es ns
}.

Lemma node_step_arity t n vs n' o : node_step t n vs = Ok (n', o) -> arity n' = arity n /\ (n' = NFront <-> n = NFront).
Proof.
  destruct n as [|k P cap [m|m H]|m|vals|]; cbn [node_step]; try (by intros [= <- <-]).
  destruct (decide _); [done|]. destruct (spec_step _ _ _ _ _); [|done]. by intros [= <- <-].
Qed.

Lemma flow_arity t j ns a ns' os :
  flow hookup t j ns a = Ok (ns', os) -> map arity ns' = map arity ns /\
  forall i, ns' !! i = Some NFront <-> ns !! i = Some NFront.
Proof.
  revert j a ns' os. induction ns as [|n ns IH]; intros j a ns' os; cbn [flow].
  - by intros [= <- <-].
  - destruct (node_flow t j n a) as [[n1 o1]|] eqn:E1; [|done]. cbn [mbind res_bind fst snd].
    destruct (flow hookup t (S j) ns _) as [[ns2 os2]|] eqn:E2; [|done]. cbn [mbind res_bind fst snd].
    intros [= <- <-]. apply IH in E2 as [Ha Hf].
    assert (Hn : arity n1 = arity n /\ (n1 = NFront <-> n = NFront)).
    { apply node_flow_cases in E1 as [(_ & _ & -> & _)|(_ & vs & _ & E)]; [done|]. by eapply node_step_arity. }
    cbn [map]. destruct Hn as [-> Hn]. split; [by rewrite Ha|]. intros [|i]; cbn; [|apply Hf].
    split; intros [= E]; f_equal; tauto.
Qed.

Lemma refine_round env ts0 es ns p src t ns' os fuel :
  implements es ts0 ns -> length (env_pad env) = 7%nat -> is_source t -> pk_app_type p = t ->
  decode_MsgSource (pk_data p) = Ok src -> (length_of p < 256)%nat -> 0 <= ts0 ->
  ts0 < stamp_of f env p src -> in_u 64 (stamp_of f env p src) ->
  flow hookup (SourceSplit.new_type t) 0 ns (connect hookup f (split_values s src)) = Ok (ns', os) ->
  (length ns <= fuel)%nat ->
  exists es' kl, router_push env hookup fuel 0 0 p es = Ok (es', kl) /\
    implements es' (stamp_of f env p src) ns' /\
    kills_agree hookup (SourceSplit.new_type t) (stamp_of f env p src) kl (<[f := split_values s src]> os).
Proof using Hports.
  intros [Hw Hn Hf Hl] Hpad Ht <- Hd Hlen H0 Hts Hu Hflow Hfuel.
  destruct (flow_spec _ _ _ _ _ _ _ Hflow) as (Hl1 & Hl2 & _).
  assert (Hlf : (f < length ns)%nat) by (eapply lookup_lt_Some, Hn; done).
  destruct (Nat.le_exists_sub (S f) fuel) as (fuel' & -> & _); [lia|].
  replace (fuel' + S f)%nat with (S (f + fuel')) by lia.
  destruct (front_push env hookup f s es fuel' p src) as (out & Hout & Hpush); try done.
  destruct (flow_refined env Hpad (SourceSplit.new_type (pk_app_type p)) (source_known _ Ht) ts0
    (stamp_of f env p src) H0 Hts Hu hookup f ns ns' os (split_values s src) out es fuel')
    as (es' & kl & Ed & Hl' & Hk1 & Hk2); try done; [by rewrite split_values_ports| |lia|].
  { eapply Forall_impl; [by eapply split_values_words|]. by intros x [_ ?]. }
  exists es', kl. split; [by apply Hpush|].
  assert (Hframe : forall x, (x <= f)%nat -> es' !! x = es !! x).
  { assert (Hac : forall i port j q, target hookup i port = Some (j, q) -> (i < j)%nat)
      by (intros i port j q Htg; by apply (wired_acyclic hookup ns) in Htg as [? _]).
    intros x Hx. eapply deliver_frame; [exact Hac| |exact Hx|exact Ed]. intros. by eapply router_push_frame. }
  destruct (flow_arity _ _ _ _ _ _ Hflow) as [Ha Hfr]. split.
  - constructor; [by rewrite Ha| |by destruct f as [|[|]]; cbn [front_ok] in *; rewrite !Hframe by lia|done].
    intros j. by rewrite Hfr.
  - assert (Hs : forall i, default [] (<[f := split_values s src]> os !! i) = sent f os (split_values s src) i)
      by (intros i; symmetry; apply sent_insert; lia).
    split; [intros i port v; rewrite Hs; apply Hk1|].
    eapply Forall_impl; [exact Hk2|]. intros x. by rewrite Hs.
Qed.

Lemma refine_run ts0 es ns ps ms ns' outs fuel :
  implements es ts0 ns -> 0 <= ts0 -> sourced f ts0 ps ms -> flow_run hookup f s ms ns = Ok (ns', outs) ->
  (length ns <= fuel)%nat ->
  exists es' kls ts, router_run hookup fuel ps es = Ok (es', kls) /\ implements es' ts ns' /\
    runs_agree hookup f ps ms kls outs.
Proof using Hports.
  revert ts0 es ns ms ns' outs. induction ps as [|[env p] ps IH]; intros ts0 es ns [|[t src] ms] ns' outs Him H0 Hs Hf Hfuel;
    try done; cbn [flow_run fst snd] in Hf.
  - injection Hf as <- <-. by exists es, [], ts0.
  - destruct Hs as (Hpad & Ht & Hpt & Hd & Hl & Hts & Hu & Hs). cbn [fst snd] in *.
    destruct (flow hookup _ _ _ _) as [[ns1 os1]|] eqn:E1; [|done]. cbn [mbind res_bind fst snd] in Hf.
    destruct (flow_run hookup f s ms ns1) as [[ns2 outs2]|] eqn:E2; [|done]. injection Hf as <- <-.
    destruct (refine_round env ts0 es ns p src t ns1 os1 fuel) as (es1 & kl & Ep & Him1 & Hk); try done.
    destruct (flow_spec _ _ _ _ _ _ _ E1) as (Hl1 & _ & _).
    destruct (IH (stamp_of f env p src) es1 ns1 ms ns2 outs2) as (es' & kls & ts & Er & Him' & Hr); try done; [lia|by rewrite Hl1|].
    exists es', (kl :: kls), ts. cbn [router_run fst snd]. rewrite Ep. res_simpl. cbn [fst snd]. rewrite Er. res_simpl. done.
Qed.
End runs.
