(* ===== verification/Typing.v ===== *)
(** * Typing: configurations checked once and for all

    [typed] checks a configuration's connections against the classes of its
    elements, [balanced] that the inputs of every element arrive in the same
    rounds.  The theorems are about the elements a configuration builds: a typed
    one implements its dataflow network ([router_refines_flow]), its pushes
    terminate ([router_terminates]), and one that is balanced as well runs without
    a fault ([typed_router_runs]). *)

From S2P Require Import Prelude FixedPt CircArray Messages Buffers IndicatorBase IndicatorLaws.
From S2P Require Import Smoothing Directional Ratios IndicatorProps AdLine Parsing Sources SourceProps.
From S2P Require Import Router Configs Dataflow Propagation RouterProps.
Import FPt Buffers BuffersFacts IndicatorBase IndicatorBaseFacts Router.

(** ** Typed configurations *)

(** The parameter of an indicator of class [k]. *)
Definition kpar (k : Kind) (periods : option Z) : res (par (E:=kstate k)) :=
  match k with
  | KEwma =>
      match periods with
      | Some n => div (fromInt 2) (add (fromInt n) (fromInt 1))
      | None => Ok FixedPt_default
      end
  | KSum | KPdm | KNdm | KNewTrueRange | KVmu | KVmd
  | KPdi | KNdi | KViu | KVid | KDx | KTrix => Ok tt
  end.

(** The node a declaration stands for. *)
Definition node_of (hookup : connections) (i : nat) (d : Decl) : res node :=
  match d with
  | DIndicator k periods buf_size op_mode =>
      let* P := kpar k periods in
      Ok (NInd k P (Z.to_nat buf_size) (Idle (if op_mode =? 1 then NAIVE else STARTUP)))
  | DReuseTee => Ok (NTee (noutputs hookup i))
  | DSourceSplit _ _ _ | DTimestamper => Ok NFront
  | DStatPrinter => Ok (NPrinter [])
  | DDiscard => Ok NDiscard
  end.

Fixpoint nodes_of (hookup : connections) (i : nat) (ds : list Decl) : res (list node) :=
  match ds with
  | [] => Ok []
  | d :: ds =>
      let* n := node_of hookup i d in
      let* ns := nodes_of hookup (S i) ds in
      Ok (n :: ns)
  end.

Definition decl_arity (d : Decl) : nat :=
  match d with DIndicator k _ _ _ => nports (E:=kstate k) | _ => 1 end.

(** An indicator has as many inputs as its class reads, and room for two values. *)
Definition decl_ok (hookup : connections) (i : nat) (d : Decl) : bool :=
  match d with
  | DIndicator k _ buf_size _ => (ninputs hookup i =? nports (E:=kstate k))%nat && (2 <=? buf_size)
  | _ => true
  end.

Fixpoint decls_ok (hookup : connections) (i : nat) (ds : list Decl) : bool :=
  match ds with
  | [] => true
  | d :: ds => decl_ok hookup i d && decls_ok hookup (S i) ds
  end.

(** The splitter of a configuration and its number. *)
Definition front_of (ds : list Decl) : option (nat * SourceSplit.SourceSplit) :=
  let splitter close high low :=
    (SourceSplit.configure close high low None None SourceSplit.SourceSplit_new).1 in
  match ds with
  | DSourceSplit close high low :: _ => Some (0%nat, splitter close high low)
  | DTimestamper :: DSourceSplit close high low :: _ => Some (1%nat, splitter close high low)
  | _ => None
  end.

Definition is_front (d : Decl) : bool :=
  match d with DSourceSplit _ _ _ | DTimestamper => true | _ => false end.

Definition typed (ds : list Decl) (hookup : connections) : bool :=
  match front_of ds with
  | Some (f, s) =>
      forallb (fun d => negb (is_front d)) (drop (S f) ds) && bool_decide (NoDup (split_ports s)) &&
      ((f =? 0)%nat || bool_decide (target hookup 0 0 = Some (1%nat, 0%nat))) &&
      decls_ok hookup 0 ds && well_wired hookup (map decl_arity ds)
  | None => false
  end.

Lemma nodes_of_arity hookup i ds ns : nodes_of hookup i ds = Ok ns -> map arity ns = map decl_arity ds.
Proof.
  revert i ns. induction ds as [|d ds IH]; intros i ns; cbn [nodes_of]; [by intros [= <-]|].
  destruct (node_of hookup i d) as [n|] eqn:En; [|done]. cbn [mbind res_bind].
  destruct (nodes_of hookup (S i) ds) as [ns'|] eqn:Es; [|done]. intros [= <-]. cbn [map]. rewrite (IH _ _ Es). f_equal.
  destruct d as [k periods b o| | | | |]; cbn [node_of] in En; try (by injection En as <-).
  destruct (kpar k periods); [|done]. by injection En as <-.
Qed.

Lemma nodes_of_lookup hookup i ds ns j :
  nodes_of hookup i ds = Ok ns -> ns !! j = Some NFront <-> exists d, ds !! j = Some d /\ is_front d = true.
Proof.
  revert i ns j. induction ds as [|d ds IH]; intros i ns j; cbn [nodes_of].
  { intros [= <-]. split; [done|]. by intros (d & ? & _). }
  destruct (node_of hookup i d) as [n|] eqn:En; [|done]. cbn [mbind res_bind].
  destruct (nodes_of hookup (S i) ds) as [ns'|] eqn:Es; [|done]. intros [= <-]. destruct j as [|j]; cbn; [|by eapply IH].
  assert (Hd : n = NFront <-> is_front d = true).
  { destruct d as [k periods b o| | | | |]; cbn [node_of] in En; try (by injection En as <-).
    destruct (kpar k periods); [|done]. by injection En as <-. }
  split; [intros [= E]; exists d; tauto|]. intros (d' & [= <-] & Hf). f_equal. tauto.
Qed.

Lemma new_cache_shape m : cache_shape m (replicate m CacheStruct_new).
Proof. split; [apply length_replicate|]. apply Forall_replicate, CacheStruct_new_wf. Qed.

Lemma kconfigure_idle k periods cap op_mode P :
  kpar k periods = Ok P ->
  exists ib, kconfigure k periods (Z.of_nat (nports (E:=kstate k))) (Some (Z.of_nat cap, op_mode)) = Ok ib /\
    idle cap ib (if op_mode =? 1 then NAIVE else STARTUP) P.
Proof.
  intros HP. destruct k; cbn [kpar kconfigure] in *.
  - unfold EwmaIncremental.configure. destruct periods as [n|].
    + rewrite HP. res_simpl. eexists. split; [done|].
      exact (idle_configured (EwmaIncremental.mkEwma [CacheStruct_new; CacheStruct_new] P) cap op_mode
               (new_cache_shape 2) (nports_pos KEwma)).
    + injection HP as <-. res_simpl. eexists. split; [done|].
      exact (idle_configured EwmaIncremental.EwmaIncremental_new cap op_mode (new_cache_shape 2) (nports_pos KEwma)).
  - destruct P. eexists. split; [done|]. unfold Sum.configure.
    destruct periods as [n|]; [exact (idle_configured (Sum.mkSum _ n) cap op_mode (new_cache_shape 3) (nports_pos KSum))|].
    exact (idle_configured Sum.Sum_new cap op_mode (new_cache_shape 3) (nports_pos KSum)).
  - destruct P. eexists. split; [done|]. exact (idle_configured Pdm.Pdm_new cap op_mode (new_cache_shape 3) (nports_pos KPdm)).
  - destruct P. eexists. split; [done|]. exact (idle_configured Ndm.Ndm_new cap op_mode (new_cache_shape 3) (nports_pos KNdm)).
  - destruct P. eexists. split; [done|]. exact (idle_configured NewTrueRange.NewTrueRange_new cap op_mode (new_cache_shape 2) (nports_pos KNewTrueRange)).
  - destruct P. eexists. split; [done|]. exact (idle_configured Vmu.Vmu_new cap op_mode (new_cache_shape 2) (nports_pos KVmu)).
  - destruct P. eexists. split; [done|]. exact (idle_configured Vmd.Vmd_new cap op_mode (new_cache_shape 2) (nports_pos KVmd)).
  - destruct P. eexists. split; [done|]. exact (idle_configured Pdi.Pdi_new cap op_mode (new_cache_shape 1) (nports_pos KPdi)).
  - destruct P. eexists. split; [done|]. exact (idle_configured Ndi.Ndi_new cap op_mode (new_cache_shape 1) (nports_pos KNdi)).
  - destruct P. eexists. split; [done|]. exact (idle_configured Viu.Viu_new cap op_mode (new_cache_shape 1) (nports_pos KViu)).
  - destruct P. eexists. split; [done|]. exact (idle_configured Vid.Vid_new cap op_mode (new_cache_shape 1) (nports_pos KVid)).
  - destruct P. eexists. split; [done|]. exact (idle_configured Dx.Dx_new cap op_mode (new_cache_shape 1) (nports_pos KDx)).
  - destruct P. eexists. split; [done|]. exact (idle_configured Trix.Trix_new cap op_mode (new_cache_shape 2) (nports_pos KTrix)).
Qed.

Lemma new_printer_ok : let '(s, g) := StatPrinter.StatPrinter_new [] in printer_ok s g [].
Proof.
  cbn [StatPrinter.StatPrinter_new]. split_and!; try done; [cbn; lia|].
  eexists. split; [reflexivity|]. split; [by rewrite length_replicate|done].
Qed.

Lemma build_element_live hookup i d n ts :
  decl_ok hookup i d = true -> node_of hookup i d = Ok n ->
  exists e, build_element hookup i d = Ok e /\ live e ts n /\
    match d with
    | DSourceSplit close high low =>
        e = Splitter (SourceSplit.configure close high low None None SourceSplit.SourceSplit_new).1
    | DTimestamper => e = Stamper Timestamper.Timestamper_new
    | _ => True
    end.
Proof.
  destruct d as [k periods b o| | | | |]; cbn [decl_ok node_of build_element]; intros Hok Hn.
  - apply andb_true_iff in Hok as [Hi Hb]. apply Nat.eqb_eq in Hi. apply Z.leb_le in Hb.
    destruct (kpar k periods) as [P|] eqn:EP; [|done]. injection Hn as <-.
    destruct (kconfigure_idle k periods (Z.to_nat b) o P EP) as (ib & E & Hid).
    rewrite Hi. rewrite Z2Nat.id in E by lia. rewrite E. exists (Indicator k ib). split_and!; [done| |done].
    split; [lia|]. by exists ib.
  - injection Hn as <-. by eexists.
  - injection Hn as <-. by eexists.
  - injection Hn as <-. by eexists.
  - injection Hn as <-. pose proof new_printer_ok as Hp. destruct (StatPrinter.StatPrinter_new []) as [s g].
    eexists. split; [done|]. split; [|done]. by exists s, g.
  - injection Hn as <-. eexists. split; [done|]. split; [|done]. by exists 0.
Qed.

Lemma build_live hookup i ds ns ts :
  decls_ok hookup i ds = true -> nodes_of hookup i ds = Ok ns ->
  exists es, build hookup i ds = Ok es /\ Forall2 (fun e n => live e ts n) es ns /\
    Forall2 (fun e d => match d with
      | DSourceSplit close high low =>
          e = Splitter (SourceSplit.configure close high low None None SourceSplit.SourceSplit_new).1
      | DTimestamper => e = Stamper Timestamper.Timestamper_new
      | _ => True
      end) es ds.
Proof.
  revert i ns. induction ds as [|d ds IH]; intros i ns; cbn [decls_ok nodes_of build]; intros Hok Hn.
  - injection Hn as <-. by exists [].
  - apply andb_true_iff in Hok as [Hd Hok]. destruct (node_of hookup i d) as [n|] eqn:En; [|done]. cbn [mbind res_bind] in Hn.
    destruct (nodes_of hookup (S i) ds) as [ns'|] eqn:Es; [|done]. injection Hn as <-.
    destruct (build_element_live hookup i d n ts Hd En) as (e & Ee & Hl & Hf).
    destruct (IH _ _ Hok Es) as (es & Ees & Hls & Hfs). rewrite Ee. res_simpl. rewrite Ees. res_simpl.
    exists (e :: es). split; [done|]. by split; constructor.
Qed.

(** The elements a typed configuration builds implement its nodes. *)
Lemma typed_implements ds hookup f s ns ts :
  typed ds hookup = true -> front_of ds = Some (f, s) -> nodes_of hookup 0 ds = Ok ns ->
  exists es, build hookup 0 ds = Ok es /\ implements hookup f s es ts ns /\ NoDup (split_ports s).
Proof.
  unfold typed. intros Ht Hf Hn. rewrite Hf in Ht. rewrite !andb_true_iff in Ht.
  destruct Ht as [[[[Hnf Hp] Htg] Hok] Hw]. apply bool_decide_eq_true in Hp.
  destruct (build_live hookup 0 ds ns ts Hok Hn) as (es & Eb & Hl & Hfr). exists es. split; [done|]. split; [|done].
  constructor; [by rewrite (nodes_of_arity _ _ _ _ Hn)| | |done].
  - intros j. rewrite (nodes_of_lookup _ _ _ _ j Hn).
    assert (Hge : forall d, ds !! j = Some d -> is_front d = true -> (j <= f)%nat).
    { intros d Hd Hi. destruct (le_lt_dec j f) as [|Hgt]; [done|]. exfalso.
      rewrite forallb_forall in Hnf. specialize (Hnf d). rewrite Hi in Hnf. cbn in Hnf.
      enough (false = true) by done. apply Hnf, list_elem_of_In, list_elem_of_lookup. exists (j - S f)%nat.
      rewrite lookup_drop. by replace (S f + (j - S f))%nat with j by lia. }
    split; [intros (d & Hd & Hi); by eapply Hge|]. intros Hj. clear -Hf Hj.
    destruct ds as [|[] ds]; try done; cbn [front_of] in Hf.
    + injection Hf as <- <-. assert (j = 0%nat) as -> by lia. by eexists.
    + destruct ds as [|[] ds]; try done. injection Hf as <- <-.
      destruct j as [|[|j]]; [by eexists|by eexists|lia].
  - clear -Hf Hfr Htg. destruct Hfr as [|e d es ds He Hfr]; [done|]. destruct d; try done; cbn [front_of] in Hf.
    + injection Hf as <- <-. by subst e.
    + destruct Hfr as [|e' d es ds He' Hfr]; [done|]. destruct d; try done. injection Hf as <- <-.
      cbn [Nat.eqb orb] in Htg. apply bool_decide_eq_true in Htg. subst. by cbn.
Qed.

(** ** Balanced configurations

    Whether a node of a network fires in a round does not depend on the values,
    only on which nodes have fired before.  An abstract run on the shapes of the
    nodes therefore shows once and for all that the inputs of every node arrive
    in the same rounds. *)

#[global] Instance Kind_eq_dec : EqDecision Kind.
Proof. solve_decision. Defined.

Inductive shape :=
| SFront
| SInd (k : Kind) (live : bool)
| STee (n : nat)
| SPrinter
| SDiscard.

#[global] Instance shape_eq_dec : EqDecision shape.
Proof. solve_decision. Defined.

Definition shape_of (n : node) : shape :=
  match n with
  | NFront => SFront
  | NInd k _ _ s => SInd k (match s with Live _ _ => true | Idle _ => false end)
  | NTee n => STee n
  | NPrinter _ => SPrinter
  | NDiscard => SDiscard
  end.

Definition shape_of_decl (hookup : connections) (i : nat) (d : Decl) : shape :=
  match d with
  | DIndicator k _ _ _ => SInd k false
  | DReuseTee => STee (noutputs hookup i)
  | DSourceSplit _ _ _ | DTimestamper => SFront
  | DStatPrinter => SPrinter
  | DDiscard => SDiscard
  end.

Definition shape_arity (sh : shape) : nat :=
  match sh with SInd k _ => nports (E:=kstate k) | _ => 1 end.

(** Classes that send their first result. *)
Definition sends_first (k : Kind) : bool :=
  match k with KPdm | KNdm | KNewTrueRange | KVmu | KVmd => false | _ => true end.

(** The ports a node sends to; TRIX, which may divide by zero, has no safe step. *)
Definition shape_step (sh : shape) : option (shape * list Z) :=
  match sh with
  | SFront => Some (sh, [])
  | SInd k false => Some (SInd k true, if sends_first k then [0] else [])
  | SInd k true => if decide (k = KTrix) then None else Some (sh, [0])
  | STee n => Some (sh, map Z.of_nat (seq 0 n))
  | SPrinter => Some (sh, [0])
  | SDiscard => Some (sh, [])
  end.

Definition arrives (a : list (nat * nat)) (j q : nat) : bool :=
  existsb (fun x => (x.1 =? j)%nat && (x.2 =? q)%nat) a.

Definition shape_flow (j : nat) (sh : shape) (a : list (nat * nat)) : option (shape * list Z) :=
  let ins := map (arrives a j) (seq 0 (shape_arity sh)) in
  if forallb negb ins then match sh with SInd _ true => None | _ => Some (sh, []) end
  else if forallb id ins then shape_step sh else None.

Fixpoint shape_connect (hookup : connections) (j : nat) (ports : list Z) : list (nat * nat) :=
  match ports with
  | [] => []
  | port :: ports =>
      match target hookup j port with
      | Some jq => jq :: shape_connect hookup j ports
      | None => shape_connect hookup j ports
      end
  end.

(** The shapes after a round, and the ports each node sends to. *)
Fixpoint shapes_flow (hookup : connections) (j : nat) (shs : list shape) (a : list (nat * nat))
  : option (list shape * list (list Z)) :=
  match shs with
  | [] => Some ([], [])
  | sh :: shs =>
      match shape_flow j sh a with
      | Some (sh', ports) =>
          match shapes_flow hookup (S j) shs (shape_connect hookup j ports ++ a) with
          | Some (shs', sends) => Some (sh' :: shs', ports :: sends)
          | None => None
          end
      | None => None
      end
  end.

Definition shapes_round (hookup : connections) (f : nat) (s : SourceSplit.SourceSplit) (shs : list shape)
  : option (list shape * list (list Z)) :=
  shapes_flow hookup 0 shs (shape_connect hookup f (split_ports s)).

(** The first and the second round succeed, and from then on every round is like
    the second: the ports the nodes send to from then on. *)
Definition steady_sends (ds : list Decl) (hookup : connections) : option (list (list Z)) :=
  match front_of ds with
  | Some (f, s) =>
      match shapes_round hookup f s (imap (shape_of_decl hookup) ds) with
      | Some (shs1, _) =>
          match shapes_round hookup f s shs1 with
          | Some (shs2, sends) =>
              if decide (shapes_round hookup f s shs2 = Some (shs2, sends)) then Some sends else None
          | None => None
          end
      | None => None
      end
  | None => None
  end.

Definition balanced (ds : list Decl) (hookup : connections) : bool :=
  match steady_sends ds hookup with Some _ => true | None => false end.

(** *** The abstract run is faithful *)

Lemma ewma_valid alpha l : (2 <= length l)%nat -> get_valid (ewma alpha l) = true.
Proof. destruct l as [|x [|y l]]; simpl length; try lia. intros _. by rewrite ewma_cons. Qed.

Lemma window_sum_valid l : (2 <= length l)%nat -> get_valid (window_sum l) = true.
Proof. intros Hl. by rewrite window_sum_val. Qed.

Lemma ratio_valid x y : get_valid (ratio x y) = true.
Proof. unfold ratio. by destruct (_ =? _). Qed.

Lemma abs_valid x : get_valid x = true -> get_valid (fpt_abs x) = true.
Proof. unfold fpt_abs. by destruct (_ <? _). Qed.

Lemma max_valid x y : get_valid x = true -> get_valid y = true -> get_valid (NewTrueRange.fpt_max x y) = true.
Proof. unfold NewTrueRange.fpt_max. by destruct (gt x y). Qed.

Lemma out_total k (P : par (E:=kstate k)) cap m H vs :
  k <> KTrix -> (2 <= cap)%nat -> H <> [] ->
  exists v, spec_out P cap m H vs = Ok v /\ get_valid v = true.
Proof.
  intros Hk Hc Hne. assert (Hl : forall p, (2 <= length (column p (vs :: H)))%nat).
  { intros p. unfold column. rewrite length_map. destruct H; [done|]. simpl. lia. }
  assert (Hlt : forall p, (2 <= length (take cap (column p (vs :: H))))%nat).
  { intros p. rewrite length_take. specialize (Hl p). lia. }
  destruct k; try done; destruct m; eexists; (split; [reflexivity|]);
    auto using ewma_valid, window_sum_valid, ratio_valid, abs_valid.
  all: try (unfold Pdm.calculate_pdm, Ndm.calculate_ndm; by repeat case_match).
  all: try (unfold NewTrueRange.calculate_tr; by apply max_valid; [|apply max_valid]).
  all: apply ratio_valid.
Qed.

Definition all_valid {A} (l : list (A * FixedPt)) : Prop := Forall (fun x => get_valid x.2 = true) l.

Lemma first_total k (P : par (E:=kstate k)) vs :
  length vs = nports (E:=kstate k) -> Forall (fun v => get_valid v = true) vs ->
  get_valid (out_init P vs) = sends_first k.
Proof.
  intros Hl Hv. destruct k; try done; try (apply ratio_valid);
    cbn in Hl; split_vector Hl; by apply Forall_cons in Hv as [? _].
Qed.

Lemma arrives_spec a j q : arrives a.*1 j q = is_in (arrived a j q).
Proof.
  induction a as [|[[j' q'] v] a IH]; [done|]. cbn [arrived fmap list_fmap fst snd arrives existsb].
  destruct ((j' =? j)%nat && (q' =? q)%nat); [done|]. apply IH.
Qed.

Lemma arrived_valid a j q v : all_valid a -> arrived a j q = Some v -> get_valid v = true.
Proof.
  intros Ha. induction Ha as [|[[j' q'] w] a Hw Ha IH]; [done|]. cbn [arrived fst snd].
  destruct (_ && _); [by intros [= <-]|done].
Qed.

Lemma gather_total a j m :
  all_valid a -> forallb id (map (arrives a.*1 j) (seq 0 m)) = true ->
  exists vs, mapM id (gather a j m) = Some vs /\ length vs = m /\ Forall (fun v => get_valid v = true) vs.
Proof.
  intros Ha. unfold gather. generalize 0%nat. induction m as [|m IH]; intros i; cbn [seq map forallb].
  - by exists [].
  - intros [Hi Hm]%andb_true_iff. cbn in Hi. rewrite arrives_spec in Hi. destruct (IH _ Hm) as (vs & E & Hl & Hv).
    destruct (arrived a j i) as [v|] eqn:Ev; [|done]. exists (v :: vs). cbn [mapM]. cbn. rewrite E. cbn.
    split_and!; [done|lia|]. constructor; [by eapply arrived_valid|done].
Qed.

Lemma gather_none a j m :
  forallb (fun o : option FixedPt => negb (is_in o)) (gather a j m) = forallb negb (map (arrives a.*1 j) (seq 0 m)).
Proof.
  unfold gather. generalize (seq 0 m). intros l. induction l as [|q l IH]; [done|].
  cbn [map forallb]. by rewrite arrives_spec, IH.
Qed.

Lemma shape_of_arity n : shape_arity (shape_of n) = arity n.
Proof. by destruct n. Qed.

(** Only a node that has fired refuses an INIT. *)
Definition may_fire (t : PacketAppType) (n : node) : Prop :=
  node_ok n /\ (t = MSG_INIT -> skippable n = true).

Lemma shape_step_sound t n vs sh ports :
  may_fire t n -> length vs = arity n -> Forall (fun v => get_valid v = true) vs ->
  shape_step (shape_of n) = Some (sh, ports) ->
  exists n' o, node_step t n vs = Ok (n', o) /\ shape_of n' = sh /\ o.*1 = ports /\ all_valid o /\ node_ok n'.
Proof.
  intros [Hok Hi] Hl Hv. assert (Hhd : forall v, vs = [v] -> get_valid v = true) by (intros v ->; by apply Forall_cons in Hv as [? _]).
  destruct n as [|k P cap [m|m H]|m|vals|]; cbn [shape_of shape_step node_step arity skippable] in *.
  - intros [= <- <-]. exists NFront, []. split_and!; try done. constructor.
  - intros [= <- <-]. rewrite (first_total k P vs) by done. destruct Hok as [Hc _].
    eexists _, _. split; [done|]. split; [done|]. pose proof (first_total k P vs Hl Hv) as Hf.
    destruct (sends_first k); split_and!; try done; by repeat constructor.
  - destruct (decide (k = KTrix)) as [|Hk]; [done|]. intros [= <- <-]. destruct Hok as [Hc Hne].
    rewrite decide_False by (intros ->; by specialize (Hi eq_refl)).
    destruct (out_total k P cap m H vs Hk Hc Hne) as (v & Eo & Hvv). unfold spec_step. rewrite Eo. res_simpl.
    destruct (decide (t = MSG_ADD)); res_simpl; cbn [fst snd]; eexists _, _; (split; [done|]); split_and!; try done;
      by repeat constructor.
  - intros [= <- <-]. eexists _, _. split; [done|]. split; [done|]. split_and!; [by rewrite <- list_fmap_compose| |done].
    apply Forall_fmap, Forall_forall. intros i _. cbn. split_vector Hl. by apply Hhd.
  - intros [= <- <-]. eexists _, _. split; [done|]. split_and!; try done. constructor; [|constructor]. cbn.
    split_vector Hl. by apply Hhd.
  - intros [= <- <-]. exists NDiscard, []. split_and!; try done. constructor.
Qed.

Lemma shape_flow_sound t j n a sh ports :
  may_fire t n -> all_valid a -> shape_flow j (shape_of n) a.*1 = Some (sh, ports) ->
  exists n' o, node_flow t j n a = Ok (n', o) /\ shape_of n' = sh /\ o.*1 = ports /\ all_valid o /\ node_ok n'.
Proof.
  intros Hm Ha. unfold shape_flow, node_flow. rewrite gather_none, shape_of_arity. destruct (forallb negb _) eqn:En.
  - intros Hs. assert (skippable n = true /\ sh = shape_of n /\ ports = []) as (-> & -> & ->).
    { destruct n as [|k P cap []| | |]; cbn in *; try done; by injection Hs as <- <-. }
    eexists _, _. split; [done|]. split_and!; try done; [constructor|apply Hm].
  - destruct (forallb id _) eqn:Ei; [|done]. destruct (gather_total a j (arity n) Ha Ei) as (vs & -> & Hl & Hv).
    by apply shape_step_sound.
Qed.

Lemma shape_connect_spec hookup j o : (connect hookup j o).*1 = shape_connect hookup j o.*1.
Proof.
  induction o as [|[port v] o IH]; [done|]. cbn [connect fmap list_fmap shape_connect fst snd].
  destruct (target hookup j port); [|done]. cbn. by rewrite <- IH.
Qed.

Lemma connect_valid hookup j o : all_valid o -> all_valid (connect hookup j o).
Proof.
  intros Ho. induction Ho as [|[port v] o Hv Ho IH]; [constructor|]. cbn [connect fst snd].
  destruct (target hookup j port); [|done]. by constructor.
Qed.

Lemma shapes_flow_sound hookup t j ns a shs sends :
  Forall (may_fire t) ns -> all_valid a -> shapes_flow hookup j (map shape_of ns) a.*1 = Some (shs, sends) ->
  exists ns' os, flow hookup t j ns a = Ok (ns', os) /\ map shape_of ns' = shs /\ Forall node_ok ns' /\
    map (fun o => o.*1) os = sends.
Proof.
  intros Hm. revert j a shs sends. induction Hm as [|n ns Hn Hm IH]; intros j a shs sends Ha; cbn [map shapes_flow flow].
  - intros [= <- <-]. by eexists _, _.
  - destruct (shape_flow j (shape_of n) a.*1) as [[sh ports]|] eqn:Es; [|done].
    destruct (shapes_flow hookup (S j) _ _) as [[shs' sends']|] eqn:Ef; [|done]. intros [= <- <-].
    destruct (shape_flow_sound t j n a sh ports Hn Ha Es) as (n' & o & -> & <- & <- & Hv & Hok).
    res_simpl. cbn [fst snd]. rewrite <- shape_connect_spec, <- fmap_app in Ef.
    apply IH in Ef as (ns' & os & -> & <- & Hok' & <-); [|by apply Forall_app; split; [apply connect_valid|]].
    res_simpl. eexists _, _. split; [done|]. split; [done|]. split; [by constructor|done].
Qed.

Lemma flow_round hookup f s t ns src data shs sends :
  Forall (may_fire t) ns -> decode_MsgSource data = Ok src ->
  shapes_round hookup f s (map shape_of ns) = Some (shs, sends) ->
  exists ns' os, flow hookup t 0 ns (connect hookup f (split_values s src)) = Ok (ns', os) /\
    map shape_of ns' = shs /\ Forall node_ok ns' /\ map (fun o => o.*1) os = sends.
Proof.
  intros Hm Hd Hs. apply shapes_flow_sound; [done| |].
  - apply connect_valid. eapply Forall_impl; [by eapply split_values_words|]. intros x [-> _]. done.
  - by rewrite shape_connect_spec, split_values_ports.
Qed.

(** Once started. *)
Definition later (t : PacketAppType) : Prop := t = MSG_UPDATE_SOURCE \/ t = MSG_ADD_SOURCE.

Lemma later_fires t ns : later t -> Forall node_ok ns -> Forall (may_fire (SourceSplit.new_type t)) ns.
Proof.
  intros Ht Hok. eapply Forall_impl; [exact Hok|]. intros n Hn. split; [done|]. by destruct Ht as [-> | ->].
Qed.

(** What a printer has recorded after a round in which it sent. *)
Definition updates (ms : list (PacketAppType * MsgSource)) : nat :=
  length (filter (fun m => m.1 = MSG_UPDATE_SOURCE) ms).

Definition records (ns : list node) (j n : nat) : Prop :=
  exists vals, ns !! j = Some (NPrinter vals) /\ length vals = Nat.min 4999 n.

Lemma node_flow_records t j vals a n' o :
  node_flow t j (NPrinter vals) a = Ok (n', o) -> o <> [] ->
  exists v, n' = NPrinter (if decide (t = MSG_UPDATE) then take 4999 (vals ++ [v]) else vals).
Proof.
  intros E Ho. apply node_flow_cases in E as [(_ & _ & _ & ->)|(_ & vs & _ & E)]; [done|].
  injection E as <- _. by eexists.
Qed.

Lemma flow_records hookup t ns a ns' os j k :
  flow hookup (SourceSplit.new_type t) 0 ns a = Ok (ns', os) -> records ns j k ->
  (map (fun o => o.*1) os) !! j = Some [0] -> later t ->
  records ns' j (k + updates [(t, mkMsgSource 0 0 0 0 0 0)]).
Proof.
  intros Hf (vals & Hj & Hk) Ho Ht. destruct (flow_spec _ _ _ _ _ _ _ Hf) as (_ & _ & Hn).
  destruct (Hn j _ Hj) as (n' & o & Hn' & Ho' & E). rewrite list_lookup_fmap, Ho' in Ho. cbn in Ho.
  destruct (node_flow_records _ _ _ _ _ _ E) as (v & ->); [by destruct o|]. eexists. split; [exact Hn'|].
  unfold updates. rewrite filter_cons. cbn [fst]. destruct Ht as [-> | ->]; cbn [SourceSplit.new_type].
  - rewrite !decide_True by done. rewrite length_take, length_app, Hk. simpl length. lia.
  - rewrite !decide_False by done. simpl length. lia.
Qed.

Lemma updates_cons t src ms : updates ((t, src) :: ms) = (updates [(t, mkMsgSource 0 0 0 0 0 0)] + updates ms)%nat.
Proof. unfold updates. rewrite !filter_cons. cbn [fst]. by destruct (decide _). Qed.

Lemma flow_settled hookup f s ts ps ms ns shs sends :
  sourced f ts ps ms -> Forall (fun m => later m.1) ms -> Forall node_ok ns -> map shape_of ns = shs ->
  shapes_round hookup f s shs = Some (shs, sends) ->
  exists ns' outs, flow_run hookup f s ms ns = Ok (ns', outs) /\
    forall j k, sends !! j = Some [0] -> records ns j k -> records ns' j (k + updates ms).
Proof.
  revert ts ps ns. induction ms as [|[t src] ms IH]; intros ts [|[env p] ps] ns Hs Hl Hok Hsh Hfix;
    try done; cbn [flow_run].
  { eexists _, _. split; [done|]. intros j k _. by rewrite Nat.add_0_r. }
  destruct Hs as (_ & _ & _ & Hd & _ & _ & _ & Hs). apply Forall_cons in Hl as [Ht Hl]. cbn [fst snd] in *.
  destruct (flow_round hookup f s (SourceSplit.new_type t) ns src (pk_data p) shs sends (later_fires _ _ Ht Hok) Hd)
    as (ns1 & os & E1 & Hsh1 & Hok1 & Hsend); [by rewrite Hsh|]. rewrite E1. res_simpl. cbn [fst snd].
  destruct (IH _ _ ns1 Hs Hl Hok1 Hsh1 Hfix) as (ns' & outs & -> & Hrec). eexists _, _. split; [done|].
  intros j k Hj Hr. rewrite updates_cons, Nat.add_assoc. apply Hrec; [done|].
  eapply flow_records; [exact E1|done|by rewrite Hsend|done].
Qed.

(** The nodes a configuration starts with. *)
Lemma nodes_of_start hookup i ds ns :
  decls_ok hookup i ds = true -> nodes_of hookup i ds = Ok ns ->
  map shape_of ns = imap (fun k => shape_of_decl hookup (i + k)) ds /\
  Forall (fun n => node_ok n /\ skippable n = true) ns.
Proof.
  revert i ns. induction ds as [|d ds IH]; intros i ns; cbn [decls_ok nodes_of imap]; intros Hok Hn.
  - by injection Hn as <-.
  - apply andb_true_iff in Hok as [Hd Hok]. destruct (node_of hookup i d) as [n|] eqn:En; [|done]. cbn [mbind res_bind] in Hn.
    destruct (nodes_of hookup (S i) ds) as [ns'|] eqn:Es; [|done]. injection Hn as <-.
    destruct (IH _ _ Hok Es) as [Hs Hf]. cbn [map].
    assert (Hd' : shape_of n = shape_of_decl hookup i d /\ node_ok n /\ skippable n = true).
    { destruct d as [k periods b o| | | | |]; cbn [node_of decl_ok] in *; try (by injection En as <-).
      destruct (kpar k periods); [|done]. injection En as <-. apply andb_true_iff in Hd as [_ Hb%Z.leb_le].
      cbn. split_and!; try done. lia. }
    destruct Hd' as (-> & Hd'). split; [|by constructor]. rewrite Nat.add_0_r, Hs. f_equal.
    apply imap_ext. intros k x _. cbn. by rewrite Nat.add_succ_r.
Qed.

(** The first round records nothing. *)
Lemma start_records hookup ds ns a ns' os j :
  nodes_of hookup 0 ds = Ok ns -> flow hookup MSG_INIT 0 ns a = Ok (ns', os) -> ds !! j = Some DStatPrinter -> records ns' j 0.
Proof.
  intros Hn Hf Hj.
  assert (Hp : ns !! j = Some (NPrinter [])).
  { clear -Hn Hj. revert ns j Hn Hj. generalize 0%nat. induction ds as [|d ds IH]; intros i ns j; [done|]. cbn [nodes_of].
    destruct (node_of hookup i d) as [n|] eqn:En; [|done]. cbn [mbind res_bind].
    destruct (nodes_of hookup (S i) ds) as [ns'|] eqn:Es; [|done]. intros [= <-]. destruct j as [|j]; cbn.
    - intros [= ->]. by injection En as <-.
    - by eapply IH. }
  destruct (flow_spec _ _ _ _ _ _ _ Hf) as (_ & _ & Hs). destruct (Hs j _ Hp) as (n' & o & Hn' & _ & E).
  apply node_flow_cases in E as [(_ & _ & -> & _)|(_ & vs & _ & E)]; [by exists []|].
  injection E as <- _. exists []. by split.
Qed.

Lemma balanced_run ds hookup f s ns ps src ms sends :
  typed ds hookup = true -> steady_sends ds hookup = Some sends -> front_of ds = Some (f, s) ->
  nodes_of hookup 0 ds = Ok ns -> sourced f 0 ps ((MSG_INIT_SOURCE, src) :: ms) ->
  Forall (fun m => later m.1) ms ->
  exists ns' outs, flow_run hookup f s ((MSG_INIT_SOURCE, src) :: ms) ns = Ok (ns', outs) /\
    forall j, sends !! j = Some [0] -> ds !! j = Some DStatPrinter -> records ns' j (updates ms).
Proof.
  unfold typed, steady_sends. intros Ht Hb Hf Hn Hs Hl. rewrite Hf in Ht, Hb. rewrite !andb_true_iff in Ht.
  destruct Ht as [[_ Hok] _]. destruct (nodes_of_start hookup 0 ds ns Hok Hn) as [Hsh Hst].
  change (map shape_of ns = imap (shape_of_decl hookup) ds) in Hsh.
  destruct (shapes_round hookup f s (imap _ ds)) as [[shs1 sends1]|] eqn:E1; [|done].
  destruct (shapes_round hookup f s shs1) as [[shs2 sends2]|] eqn:E2; [|done].
  destruct (decide _) as [Hfix|]; [|done]. injection Hb as <-.
  destruct ps as [|[env p] ps]; [done|]. destruct Hs as (_ & _ & _ & Hd & _ & _ & _ & Hs). cbn [fst snd] in *.
  cbn [flow_run fst snd]. rewrite <- Hsh in E1.
  destruct (flow_round hookup f s (SourceSplit.new_type MSG_INIT_SOURCE) ns src (pk_data p) shs1 sends1)
    as (ns1 & os1 & F1 & Hsh1 & Hok1 & _); [|exact Hd|done|].
  { eapply Forall_impl; [exact Hst|]. by intros n [? ?]. }
  rewrite F1. res_simpl. cbn [fst snd].
  assert (H0 : forall j, ds !! j = Some DStatPrinter -> records ns1 j 0) by (intros j Hj; by eapply start_records).
  destruct ms as [|[t src2] ms], ps as [|[env2 p2] ps]; try done.
  { eexists _, _. split; [done|]. intros j _. apply H0. }
  apply Forall_cons in Hl as [Ht2 Hl]. destruct Hs as (_ & _ & _ & Hd2 & _ & _ & _ & Hs). cbn [flow_run fst snd] in *.
  rewrite <- Hsh1 in E2.
  destruct (flow_round hookup f s (SourceSplit.new_type t) ns1 src2 (pk_data p2) shs2 sends2 (later_fires _ _ Ht2 Hok1) Hd2 E2)
    as (ns2 & os2 & F2 & Hsh2 & Hok2 & Hsend).
  rewrite F2. res_simpl. cbn [fst snd].
  destruct (flow_settled hookup f s _ ps ms ns2 shs2 sends2 Hs Hl Hok2 Hsh2 Hfix) as (ns' & outs & -> & Hrec).
  eexists _, _. split; [done|]. intros j Hj Hd'. rewrite updates_cons. apply Hrec; [done|].
  apply (flow_records hookup t ns1 _ ns2 os2 j 0 F2 (H0 j Hd')); [by rewrite Hsend|done].
Qed.

Lemma nodes_of_length hookup i ds ns : nodes_of hookup i ds = Ok ns -> length ns = length ds.
Proof. intros Hn%nodes_of_arity. apply (f_equal length) in Hn. by rewrite !length_map in Hn. Qed.

Lemma build_refines ds hookup f s ns ps ms ns' outs :
  typed ds hookup = true -> front_of ds = Some (f, s) -> nodes_of hookup 0 ds = Ok ns ->
  sourced f 0 ps ms -> flow_run hookup f s ms ns = Ok (ns', outs) ->
  exists es es' kls ts, build hookup 0 ds = Ok es /\ router_run hookup (length ds) ps es = Ok (es', kls) /\
    implements hookup f s es' ts ns' /\ runs_agree hookup f ps ms kls outs.
Proof.
  intros Ht Hf Hn Hs Hr. destruct (typed_implements ds hookup f s ns 0 Ht Hf Hn) as (es & Eb & Him & Hnd).
  destruct (refine_run hookup f s Hnd 0 es ns ps ms ns' outs (length ds)) as (es' & kls & ts & Er & Him' & Ha);
    try done; [by rewrite (nodes_of_length _ _ _ _ Hn)|].
  by exists es, es', kls, ts.
Qed.

(** *** A run of vortex_opt.click *)
Definition demo_msgs : list (PacketAppType * MsgSource) :=
  [(MSG_INIT_SOURCE, mkMsgSource 100 120 90 100 5 0);
   (MSG_UPDATE_SOURCE, mkMsgSource 110 130 95 100 6 0);
   (MSG_ADD_SOURCE, mkMsgSource 105 140 80 100 9 7)].
Definition demo_packets : list (Env * Packet) :=
  imap (fun i m => (mkEnv (repeat 0 7) (7 + Z.of_nat i) 20, mkPacket m.1 (encode_MsgSource m.2))) demo_msgs.
Definition demo_split : SourceSplit.SourceSplit := SourceSplit.mkSplit 2 0 1 (-1) (-1).

Lemma demo_sourced : sourced 1 0 demo_packets demo_msgs.
Proof.
  unfold demo_packets, demo_msgs. cbn [imap]. unfold sourced. cbn [fst snd].
  split_and!; try (by vm_compute); try (unfold is_source; by auto); try (vm_compute; by split);
    apply Nat.ltb_lt; by vm_compute.
Qed.

(** The value of a computation known to succeed. *)
Definition result {A} (d : A) (x : res A) : A := match x with Ok a => a | Fault _ => d end.
Definition demo_nodes : list node := result [] (nodes_of (hookup vortex_opt) 0 (decls vortex_opt)).
Definition demo_run : list node * list (list (list (Z * FixedPt))) :=
  result ([], []) (flow_run (hookup vortex_opt) 1 demo_split demo_msgs demo_nodes).
Definition demo_elements : list Element := result [] (build (hookup vortex_opt) 0 (decls vortex_opt)).

(** The configurations with a diamond, and what the checks say of them. *)
Definition diamonds : list Config := [dmi_opt; dmi_naive; dmi_tee; vortex_opt; vortex_naive; vortex_tee].

Definition checked (c : Config) : bool :=
  match steady_sends (decls c) (hookup c), eindex "stats"%string 0 (elements c) with
  | Some sends, Some j =>
      typed (decls c) (hookup c) && bool_decide (sends !! j = Some [0]) &&
      match nodes_of (hookup c) 0 (decls c), decls c !! j with Ok _, Some DStatPrinter => true | _, _ => false end
  | _, _ => false
  end.

Lemma diamonds_checked : forallb checked diamonds = true.
Proof. vm_compute. reflexivity. Qed.

(** A printer that is served in the steady rounds. *)
Lemma update_recorded ds hookup f s ns ps src ms sends j
    (Ht : typed ds hookup = true) (Hb : steady_sends ds hookup = Some sends) (Hf : front_of ds = Some (f, s))
    (Hn : nodes_of hookup 0 ds = Ok ns) (Hj : sends !! j = Some [0]) (Hd : ds !! j = Some DStatPrinter)
    (Hs : sourced f 0 ps ((MSG_INIT_SOURCE, src) :: ms)) (Hl : Forall (fun m => later m.1) ms) :
  exists es es' kls s g, build hookup 0 ds = Ok es /\ router_run hookup (length ds) ps es = Ok (es', kls) /\
    es' !! j = Some (Printer s g) /\ StatPrinter._all_values_counter s = Nat.min 4999 (updates ms).
Proof.
  destruct (balanced_run ds hookup f s ns ps src ms sends Ht Hb Hf Hn Hs Hl) as (ns' & outs & Hr & Hrec).
  destruct (build_refines ds hookup f s ns ps _ ns' outs Ht Hf Hn Hs Hr) as (es & es' & kls & ts & Hx & Hy & Hz & _).
  destruct (Hrec j Hj Hd) as (vals & Hv & Hlen).
  destruct (Forall2_lookup_r _ _ _ _ _ (im_live _ _ _ _ _ _ Hz) Hv) as (e & He & sp & g & -> & _ & _ & Hc & arr & _ & Ha & ->).
  exists es, es', kls, sp, g. split_and!; try assumption. rewrite <- Hlen, length_map, length_take, Ha.
  unfold StatPrinter.MAX_ALL_VALUES. lia.
Qed.

Module TypingProps.

(** C3: Depth-first pushes compute the dataflow network.  The elements a typed
    configuration builds, driven by any source messages with increasing time
    stamps for which the network has values, run without a fault: every element
    ends in a state that implements its node -- whatever the order in which the
    packets of a round reached its ports, it fired once per round with the values
    of that round -- and the packets killed at unconnected outputs carry exactly
    the values the network sends there. *)
Theorem router_refines_flow ds hookup f s ns ps ms ns' outs
    (Ht : typed ds hookup = true) (Hf : front_of ds = Some (f, s)) (Hn : nodes_of hookup 0 ds = Ok ns)
    (Hs : sourced f 0 ps ms) (Hr : flow_run hookup f s ms ns = Ok (ns', outs)) :
  exists es es' kls ts, build hookup 0 ds = Ok es /\ router_run hookup (length ds) ps es = Ok (es', kls) /\
    implements hookup f s es' ts ns' /\ runs_agree hookup f ps ms kls outs.
Proof. by eapply build_refines. Qed.

Lemma router_refines_flow_witness :
  exists es es' kls ts, build (hookup vortex_opt) 0 (decls vortex_opt) = Ok es /\
    router_run (hookup vortex_opt) (length (decls vortex_opt)) demo_packets es = Ok (es', kls) /\
    implements (hookup vortex_opt) 1 demo_split es' ts demo_run.1 /\
    runs_agree (hookup vortex_opt) 1 demo_packets demo_msgs kls demo_run.2.
Proof.
  apply (router_refines_flow (decls vortex_opt) (hookup vortex_opt) 1 demo_split demo_nodes demo_packets demo_msgs
    demo_run.1 demo_run.2).
  - vm_compute. reflexivity.
  - reflexivity.
  - vm_compute. reflexivity.
  - exact demo_sourced.
  - vm_compute. reflexivity.
Defined.

(** C6: Pushes terminate.  In a graph whose connections lead forward, a push into
    any element, of any packet and in any state, makes a finite tree of calls
    with one result, which [router_push] computes when its fuel is the number of
    elements or more. *)
Theorem router_terminates env hookup fuel i port p es r
    (Ha : acyclic hookup (length es) = true) (Hf : (0 < fuel)%nat) (Hl : (length es <= fuel)%nat) :
  pushes env hookup i port p es r <-> router_push env hookup fuel i port p es = r.
Proof.
  assert (Hp : pushes env hookup i port p es (router_push env hookup fuel i port p es))
    by (apply router_push_pushes; [done|done|lia]).
  split; [by apply pushes_det|]. by intros <-.
Qed.

Lemma router_terminates_witness :
  let env := mkEnv (repeat 0 7) 7 20 in
  let p := mkPacket MSG_INIT_SOURCE (encode_MsgSource (mkMsgSource 100 120 90 100 5 0)) in
  pushes env (hookup vortex_opt) 0 0 p demo_elements
    (router_push env (hookup vortex_opt) 15 0 0 p demo_elements).
Proof.
  intros env p. apply (router_terminates env (hookup vortex_opt) 15 0 0 p demo_elements).
  - vm_compute. reflexivity.
  - vm_compute. lia.
  - vm_compute. lia.
  - reflexivity.
Defined.

(** C7: Typed and balanced configurations run.  If the connections of a
    configuration fit the classes of its elements and the inputs of every element
    arrive in the same rounds -- both are checks on the configuration alone -- then
    the elements it builds take an INIT message and UPDATEs and ADDs after it, in
    any order, without a fault, and end in states their classes allow.  The stamps
    of the messages, as they reach the splitter, are positive and strictly
    increasing: with equal stamps an element with two inputs takes the second
    message for a part of the first.  Packets are shorter than 256 bytes, as
    [ReuseTee] asserts. *)
Theorem typed_router_runs ds hookup f s ns ps src ms
    (Ht : typed ds hookup = true) (Hb : balanced ds hookup = true) (Hf : front_of ds = Some (f, s))
    (Hn : nodes_of hookup 0 ds = Ok ns) (Hs : sourced f 0 ps ((MSG_INIT_SOURCE, src) :: ms))
    (Hl : Forall (fun m => later m.1) ms) :
  exists es es' kls ts ns', build hookup 0 ds = Ok es /\ router_run hookup (length ds) ps es = Ok (es', kls) /\
    implements hookup f s es' ts ns'.
Proof.
  unfold balanced in Hb. destruct (steady_sends ds hookup) as [sends|] eqn:Es; [|done].
  destruct (balanced_run ds hookup f s ns ps src ms sends Ht Es Hf Hn Hs Hl) as (ns' & outs & Hr & _).
  destruct (build_refines ds hookup f s ns ps _ ns' outs Ht Hf Hn Hs Hr) as (es & es' & kls & ts & Hx & Hy & Hz & _).
  by exists es, es', kls, ts, ns'.
Qed.

Lemma typed_router_runs_witness :
  exists es es' kls ts ns', build (hookup vortex_opt) 0 (decls vortex_opt) = Ok es /\
    router_run (hookup vortex_opt) (length (decls vortex_opt)) demo_packets es = Ok (es', kls) /\
    implements (hookup vortex_opt) 1 demo_split es' ts ns'.
Proof.
  apply (typed_router_runs (decls vortex_opt) (hookup vortex_opt) 1 demo_split demo_nodes demo_packets
    (mkMsgSource 100 120 90 100 5 0) (tl demo_msgs)).
  - vm_compute. reflexivity.
  - vm_compute. reflexivity.
  - reflexivity.
  - vm_compute. reflexivity.
  - exact demo_sourced.
  - constructor; [by left|]. constructor; [by right|constructor].
Defined.

(** C8: Every update is answered.  The DMI and Vortex configurations -- optimised,
    naive and without a timestamper -- pass the checks; so from an INIT message on
    the router runs without a fault, and every UPDATE that follows, in any mixture
    with ADDs, leads to one more value in the array of [stats], up to the 4999 it
    has room for, as long as the stamps -- the timestamper's, or the packets' own
    where there is none -- strictly increase and packets are shorter than 256
    bytes. *)
Theorem every_update_recorded c f s j ps src ms
    (Hc : c ∈ diamonds) (Hf : front_of (decls c) = Some (f, s)) (Hj : eindex "stats"%string 0 (elements c) = Some j)
    (Hs : sourced f 0 ps ((MSG_INIT_SOURCE, src) :: ms)) (Hl : Forall (fun m => later m.1) ms) :
  exists es es' kls s g, build (hookup c) 0 (decls c) = Ok es /\
    router_run (hookup c) (length (decls c)) ps es = Ok (es', kls) /\
    es' !! j = Some (Printer s g) /\ StatPrinter._all_values_counter s = Nat.min 4999 (updates ms).
Proof.
  pose proof diamonds_checked as Hd. rewrite forallb_forall in Hd.
  apply list_elem_of_In, Hd in Hc. unfold checked in Hc. rewrite Hj in Hc.
  destruct (steady_sends _ _) as [sends|] eqn:Es; [|done]. rewrite !andb_true_iff in Hc. destruct Hc as [[Ht Hsd] Hn].
  destruct (nodes_of _ _ _) as [ns|] eqn:En; [|done]. destruct (decls c !! j) as [[]|] eqn:Ed; try done.
  apply bool_decide_eq_true in Hsd. by eapply update_recorded.
Qed.

Lemma every_update_recorded_witness :
  exists es es' kls s g, build (hookup vortex_opt) 0 (decls vortex_opt) = Ok es /\
    router_run (hookup vortex_opt) (length (decls vortex_opt)) demo_packets es = Ok (es', kls) /\
    es' !! 13%nat = Some (Printer s g) /\ StatPrinter._all_values_counter s = Nat.min 4999 (updates (tl demo_msgs)).
Proof.
  apply (every_update_recorded vortex_opt 1 demo_split 13 demo_packets (mkMsgSource 100 120 90 100 5 0) (tl demo_msgs)).
  - by repeat (left || right).
  - reflexivity.
  - reflexivity.
  - exact demo_sourced.
  - constructor; [by left|]. constructor; [by right|constructor].
Defined.

End TypingProps.
