(* ===== verification/Baseline.v ===== *)
(** * Baseline: the monolithic program

    Models hand_coded/hc_types.h, indicator_manager.{h,cpp} and main.cpp: the
    command line, one [IndicatorManager] per subscribed symbol, the UDP callback
    that turns a trade into an initialisation or an UPDATE, and the timer
    callback that closes the interval with an ADD.  The state of the program is
    the map [gSymbols], the timer's status and the [ADLine] singleton.

    The hash map is iterated, so it is an association list in iteration order.
    [getopt], [recvfrom] and libev are the outside: options arrive parsed, a
    datagram is a byte list, and the cycle counter is an argument. *)

From stdpp Require Import gmap.
From S2P Require Import Prelude FixedPt Messages Parsing HandCoded AdLine Sources.

(** [struct Params], without the debug flag: output is not modelled. *)
Record Params := mkParams {
  _is_trix : bool;
  _is_dmi : bool;
  _is_vortex : bool;
  _is_adline : bool;
  _symbols : list bytes;
  _ewma_periods : Z;
  _interval_len_secs : Z;
  _port : Z
}.
Definition Params_new : Params := mkParams false false false false [] 0 0 0.

Module IndicatorManager.

(** [5000*2], kept as an opaque product: it is only ever compared. *)
Definition s_all_values_size : nat := Z.to_nat (5000 * 2).

Record IndicatorManager := mkManager {
  _trix : option TrixHc.Trix;
  _dmi : option Dmi.Dmi;
  _vortex : option Vortex.Vortex;
  _ad_line_tick : option ADLineTick.ADLineTick;
  _running_stats : RunningStat.Stats;
  _all_values : list Z;
  _all_values_counter : nat;
  _symbol : bytes;
  _initialized : bool
}.

(** [if (flag) new ...] *)
Definition new_if {A} (flag : bool) (m : res A) : res (option A) :=
  if flag then let* a := m in Ok (Some a) else Ok None.

(** [if (ptr) ptr->f ()], where [f] changes the object. *)
Definition call_if {A} (f : A -> res A) (o : option A) : res (option A) :=
  match o with Some a => let* a := f a in Ok (Some a) | None => Ok None end.

(** The same with a result; [d] is the value the result variable starts with. *)
Definition result_if {A R} (f : A -> res (A * R)) (d : R) (o : option A) : res (option A * R) :=
  match o with Some a => let* r := f a in Ok (Some r.1, r.2) | None => Ok (None, d) end.

(** An [int] passed as [size_t]: a negative one is too large to allocate. *)
Definition vortex_of_periods (periods : Z) : res Vortex.Vortex :=
  if periods <? 0 then Fault BadAlloc else Vortex.Vortex_new (Z.to_nat periods).

(** The constructor, with [configure_indicators]. *)
Definition IndicatorManager_new (pars : Params) (symbol : bytes) : res IndicatorManager :=
  let* t := new_if (_is_trix pars) (TrixHc.Trix_new (_ewma_periods pars)) in
  let* d := new_if (_is_dmi pars) (Dmi.Dmi_new (_ewma_periods pars)) in
  let* v := new_if (_is_vortex pars) (vortex_of_periods (_ewma_periods pars)) in
  let* a := new_if (_is_adline pars) (Ok (ADLineTick.ADLineTick_new symbol)) in
  Ok (mkManager t d v a RunningStat.Stats_new (replicate s_all_values_size 0) 0 symbol false).

Definition initialize_indicators (high low close : Z) (m : IndicatorManager) : IndicatorManager :=
  mkManager (TrixHc.initialize close <$> _trix m) (Dmi.initialize close high low <$> _dmi m)
    (Vortex.initialize close high low <$> _vortex m) (ADLineTick.initialize close <$> _ad_line_tick m)
    (_running_stats m) (_all_values m) (_all_values_counter m) (_symbol m) true.

(** The calls [emit_add] and [emit_update] share: every indicator in turn, the
    singleton passed along. *)
Definition calculate_all (high low close : Z) (update_type : UpdateType) (m : IndicatorManager)
    (line : ADLine.ADLine) : res (IndicatorManager * ADLine.ADLine * (Z * Z * (Z * Z) * Z)) :=
  let* t := result_if (TrixHc.calculate_value close update_type) 0 (_trix m) in
  let* d := result_if (Dmi.calculate_value close high low update_type) 0 (_dmi m) in
  let* v := result_if (Vortex.calculate_value close high low update_type) (0, 0) (_vortex m) in
  let* a :=
    match _ad_line_tick m with
    | None => Ok (None, line, 0)
    | Some tick =>
        let* r := ADLineTick.calculate_value close update_type tick line in
        Ok (Some r.1.1, r.1.2, r.2)
    end in
  Ok (mkManager t.1 d.1 v.1 a.1.1 (_running_stats m) (_all_values m) (_all_values_counter m)
        (_symbol m) (_initialized m), a.1.2, (t.2, d.2, v.2, a.2)).

Definition emit_add (high low close : Z) (m : IndicatorManager) (line : ADLine.ADLine)
  : res (IndicatorManager * ADLine.ADLine) :=
  let* r := calculate_all high low close ADD m line in Ok r.1.

(** [_all_values[i] = v] *)
Definition store (i : nat) (v : Z) (values : list Z) : res (list Z) :=
  if (i <? length values)%nat then Ok (<[i := v]> values) else Fault OutOfBounds.

Definition store_if {A} (o : option A) (i : nat) (v : Z) (values : list Z) : res (list Z) :=
  match o with Some _ => store i v values | None => Ok values end.

(** The vortex has two values and advances the counter between them. *)
Definition record_values (m : IndicatorManager) (results : Z * Z * (Z * Z) * Z) : res (list Z * nat) :=
  let '(result_trix, result_dmi, result_vortex, result_adline) := results in
  let i := _all_values_counter m in
  if (i <? s_all_values_size - 1)%nat then
    let* values := store_if (_trix m) i result_trix (_all_values m) in
    let* values := store_if (_dmi m) i result_dmi values in
    let* values := store_if (_vortex m) i result_vortex.1 values in
    let i := match _vortex m with Some _ => S i | None => i end in
    let* values := store_if (_vortex m) i result_vortex.2 values in
    let* values := store_if (_ad_line_tick m) i result_adline values in
    Ok (values, S i)
  else Ok (_all_values m, i).

Definition emit_update (high low close cycles_start cycles_now : Z) (m : IndicatorManager)
    (line : ADLine.ADLine) : res (IndicatorManager * ADLine.ADLine) :=
  let* r := calculate_all high low close UPDATE m line in
  let '(m, line, results) := r in
  let* v := record_values m results in
  Ok (mkManager (_trix m) (_dmi m) (_vortex m) (_ad_line_tick m)
        (RunningStat.update_counter (u64 (cycles_now - cycles_start)) (_running_stats m))
        v.1 v.2 (_symbol m) (_initialized m), line).

(** What the destructor prints. *)
Definition report (m : IndicatorManager) : list Z * RunningStat.Stats :=
  (take (_all_values_counter m) (_all_values m), _running_stats m).

End IndicatorManager.

Module Baseline.
Import IndicatorManager.

(** [update_hloc]: true when something was updated. *)
Definition update_hloc (msg_trade : MsgTrade) (t : TimeStats) : TimeStats * bool :=
  let price := mt_price msg_trade in
  if negb (_first_time_updated t) then
    (mkTimeStats price price (ts_open t) price (i64 (ts_size t + mt_size msg_trade)) true, true)
  else
    let '(t, rc) :=
      if price >? ts_high t
      then (mkTimeStats price (ts_low t) (ts_open t) (ts_close t) (ts_size t) (_first_time_updated t), true)
      else (t, false) in
    let '(t, rc) :=
      if price <? ts_low t
      then (mkTimeStats (ts_high t) price (ts_open t) (ts_close t) (ts_size t) (_first_time_updated t), true)
      else (t, rc) in
    let t := mkTimeStats (ts_high t) (ts_low t) (ts_open t) (ts_close t)
               (i64 (ts_size t + mt_size msg_trade)) (_first_time_updated t) in
    if negb (price =? ts_close t)
    then (mkTimeStats (ts_high t) (ts_low t) (ts_open t) price (ts_size t) (_first_time_updated t), true)
    else (t, rc).

Definition SymbolsMap : Type := list (bytes * (TimeStats * IndicatorManager)).

Record Baseline := mkBaseline {
  gSymbols : SymbolsMap;
  timer_active : bool;
  ad_line : ADLine.ADLine
}.

Fixpoint find (symbol : bytes) (m : SymbolsMap) : option (TimeStats * IndicatorManager) :=
  match m with
  | [] => None
  | kv :: m => if decide (kv.1 = symbol) then Some kv.2 else find symbol m
  end.

(** Assigning through the iterator [find] returned. *)
Fixpoint assign (symbol : bytes) (e : TimeStats * IndicatorManager) (m : SymbolsMap) : SymbolsMap :=
  match m with
  | [] => []
  | kv :: m => if decide (kv.1 = symbol) then (kv.1, e) :: m else kv :: assign symbol e m
  end.

(** [on_timer_cb]: an ADD and a rollover for every entry. *)
Fixpoint on_timer_loop (m : SymbolsMap) (line : ADLine.ADLine) : res (SymbolsMap * ADLine.ADLine) :=
  match m with
  | [] => Ok ([], line)
  | kv :: m =>
      let time_stats := kv.2.1 in
      let* r := emit_add (Fx.fromC (ts_high time_stats)) (Fx.fromC (ts_low time_stats))
                  (Fx.fromC (ts_close time_stats)) kv.2.2 line in
      let* rest := on_timer_loop m r.2 in
      Ok ((kv.1, (rollover time_stats, r.1)) :: rest.1, rest.2)
  end.

Definition on_timer_cb (s : Baseline) : res Baseline :=
  let* r := on_timer_loop (gSymbols s) (ad_line s) in
  Ok (mkBaseline r.1 (timer_active s) r.2).

Definition BUFLEN : nat := 512.

(** [udp_read_cb]: [None] is a failed [recvfrom]; a datagram longer than the
    buffer is cut by [recvfrom]. *)
Definition udp_read_cb (cycles_now : Z) (datagram : option bytes) (s : Baseline) : res Baseline :=
  match datagram with
  | None => Ok s
  | Some d =>
      let* parsed := populate_msg_trade MsgTrade_new (take BUFLEN d) in
      match parsed with
      | None => Ok s
      | Some msg =>
          match find (mt_symbol msg) (gSymbols s) with
          | None => Ok s
          | Some (time_stats, ind_mgr) =>
              let '(time_stats, updated) := update_hloc msg time_stats in
              let high := Fx.fromC (ts_high time_stats) in
              let low := Fx.fromC (ts_low time_stats) in
              let close := Fx.fromC (ts_close time_stats) in
              let* r :=
                if negb updated then Ok (ind_mgr, ad_line s)
                else if negb (_initialized ind_mgr)
                then Ok (initialize_indicators high low close ind_mgr, ad_line s)
                else emit_update high low close (mt_src_timestamp msg) cycles_now ind_mgr (ad_line s) in
              Ok (mkBaseline (assign (mt_symbol msg) (time_stats, r.1) (gSymbols s)) true r.2)
          end
      end
  end.

(** *** Start-up *)

(** [strtok (str, ",")] until it returns NULL: the non-empty pieces. *)
Fixpoint split_comma (s acc : bytes) : list bytes :=
  match s with
  | [] => match acc with [] => [] | _ => [acc] end
  | c :: s =>
      if c =? 44 then
        match acc with [] => split_comma s [] | _ => acc :: split_comma s [] end
      else split_comma s (acc ++ [c])
  end.

Definition parse_symbol_list (in_str : bytes) (symbols : list bytes) : list bytes :=
  symbols ++ split_comma in_str [].

(** One option as [getopt] reports it.  [-e] and [-w] only switch on output,
    and any other letter falls through the switch. *)
Definition parse_option (c : Z) (optarg : bytes) (p : Params) : res (option Params) :=
  let '(mkParams t d v a syms n i po) := p in
  let number (k : Z -> Params) := let* x := strtol (optarg ++ [0]) in Ok (Some (k (i32 x))) in
  if c =? 116 (* t *) then Ok (Some (mkParams true d v a syms n i po))
  else if c =? 100 (* d *) then Ok (Some (mkParams t true v a syms n i po))
  else if c =? 118 (* v *) then Ok (Some (mkParams t d true a syms n i po))
  else if c =? 97 (* a *) then Ok (Some (mkParams t d v true syms n i po))
  else if c =? 115 (* s *) then Ok (Some (mkParams t d v a (parse_symbol_list optarg syms) n i po))
  else if c =? 110 (* n *) then number (fun n => mkParams t d v a syms n i po)
  else if c =? 105 (* i *) then number (fun i => mkParams t d v a syms n i po)
  else if c =? 112 (* p *) then number (fun po => mkParams t d v a syms n i po)
  else if c =? 63 (* ? *) then Ok None
  else Ok (Some p).

(** [None]: the process exits. *)
Fixpoint parse_cmds (opts : list (Z * bytes)) (p : Params) : res (option Params) :=
  match opts with
  | [] => Ok (Some p)
  | o :: opts =>
      let* r := parse_option o.1 o.2 p in
      match r with Some p => parse_cmds opts p | None => Ok None end
  end.

(** [memset], [strcpy]: no bound is checked. *)
Definition symbol_buffer (s : bytes) : res bytes :=
  if (ORDER_SYMBOL_LEN <=? length s)%nat then Fault OutOfBounds
  else Ok (s ++ replicate (ORDER_SYMBOL_LEN - length s) 0).

(** The loop of [main]: the manager is built before [insert], which keeps an
    entry that is there. *)
Fixpoint insert_symbols (pars : Params) (symbols : list bytes) (m : SymbolsMap) : res SymbolsMap :=
  match symbols with
  | [] => Ok m
  | s :: symbols =>
      let* key := symbol_buffer s in
      let* mgr := IndicatorManager_new pars key in
      insert_symbols pars symbols
        (match find key m with Some _ => m | None => m ++ [(key, (TimeStats_new, mgr))] end)
  end.

(** [main] up to [ev_run]; the timer is initialised but not started. *)
Definition start (argc : Z) (opts : list (Z * bytes)) : res (option Baseline) :=
  if argc <? 2 then Ok None
  else
    let* p := parse_cmds opts Params_new in
    match p with
    | None => Ok None
    | Some pars =>
        let* m := insert_symbols pars (_symbols pars) [] in
        Ok (Some (mkBaseline m false ADLine.ADLine_new))
    end.

End Baseline.
