(* ===== verification/BaselineProps.v ===== *)
(** * BaselineProps: the baseline's front end and Click's agree

    A simulation between [Baseline] (hand_coded/main.cpp) and [TradeProcessor]
    (trade_processor.cc): configured with the same symbols they keep the same
    interval statistics, and every packet one of them sends is the call the
    other makes on the symbol's indicators.  The points where the baseline does
    more than Click -- an ADD for symbols that never traded -- and where it
    faults are theorems of their own. *)

From stdpp Require Import gmap.
From S2P Require Import Prelude FixedPt CircArray Messages Parsing HandCoded AdLine Sources SourceProps Baseline.
Import IndicatorManager Baseline.

(** [injection] would compute the encoded bytes. *)
Lemma Ok_pair_inj {A B} (a a' : A) (b b' : B) : Ok (a, b) = Ok (a', b') -> a = a' /\ b = b'.
Proof. by intros [= -> ->]. Qed.

(** ** The symbol map *)

Lemma find_assign k k' e m :
  is_Some (find k m) -> find k' (assign k e m) = if decide (k = k') then Some e else find k' m.
Proof.
  induction m as [|[x v] m IH]; cbn [find assign fst snd]; [by intros []|].
  destruct (decide (x = k)) as [->|Hx]; intros Hs; cbn [find fst snd].
  - repeat case_decide; congruence.
  - rewrite IH by done. repeat case_decide; congruence.
Qed.

Lemma find_fresh k m : find k m = None <-> k ∉ m.*1.
Proof.
  induction m as [|[x v] m IH]; cbn [find fst snd]; [split; [intros _; apply not_elem_of_nil|done]|].
  rewrite fmap_cons, not_elem_of_cons. cbn [fst].
  destruct (decide (x = k)) as [->|Hx]; [split; [done|by intros [? _]]|].
  rewrite IH. split; [done|by intros [_ ?]].
Qed.

Lemma find_snoc k k' e m :
  find k' (m ++ [(k, e)]) = match find k' m with Some x => Some x | None => if decide (k = k') then Some e else None end.
Proof.
  induction m as [|[x v] m IH]; cbn [find app fst snd]; [done|].
  destruct (decide (x = k')); [done|apply IH].
Qed.

(** ** The calls a source message stands for *)

(** What [IndicatorManager] does when Click sends a packet for its symbol. *)
Definition drive1 (now : Z) (pk : Packet) (m : IndicatorManager) (line : ADLine.ADLine)
  : res (IndicatorManager * ADLine.ADLine) :=
  let* src := decode_MsgSource (pk_data pk) in
  let '(mkMsgSource close high low _ ts _) := src in
  match pk_app_type pk with
  | MSG_INIT_SOURCE => Ok (initialize_indicators high low close m, line)
  | MSG_UPDATE_SOURCE => emit_update high low close ts now m line
  | MSG_ADD_SOURCE => emit_add high low close m line
  | _ => Fault AssertFailed
  end.

Fixpoint drive (now : Z) (out : list (Z * Packet)) (m : IndicatorManager) (line : ADLine.ADLine)
  : res (IndicatorManager * ADLine.ADLine) :=
  match out with
  | [] => Ok (m, line)
  | o :: out => let* r := drive1 now o.2 m line in drive now out r.1 r.2
  end.

Lemma calculate_all_flags h l c u m line m' line' rs :
  calculate_all h l c u m line = Ok (m', line', rs) ->
  _initialized m' = _initialized m /\ _all_values m' = _all_values m /\
  _all_values_counter m' = _all_values_counter m /\ _running_stats m' = _running_stats m /\
  (is_Some (_trix m') <-> is_Some (_trix m)) /\ (is_Some (_dmi m') <-> is_Some (_dmi m)) /\
  (is_Some (_vortex m') <-> is_Some (_vortex m)) /\
  (is_Some (_ad_line_tick m') <-> is_Some (_ad_line_tick m)).
Proof.
  unfold calculate_all, result_if. intros E.
  destruct (_trix m); destruct (_dmi m); destruct (_vortex m); destruct (_ad_line_tick m);
    res_inv; repeat (rewrite ?is_Some_alt; cbn); split_and!; done.
Qed.

Lemma emit_update_initialized h l c t0 t1 m line r :
  emit_update h l c t0 t1 m line = Ok r -> _initialized r.1 = _initialized m.
Proof.
  unfold emit_update. intros E. apply bind_Ok in E as ([[m1 line1] rs] & E & Hr).
  apply bind_Ok in Hr as (v & _ & [= <-]). by apply calculate_all_flags in E as [? _].
Qed.

Lemma emit_add_initialized h l c m line r :
  emit_add h l c m line = Ok r -> _initialized r.1 = _initialized m.
Proof.
  unfold emit_add. intros E. apply bind_Ok in E as ([[m1 line1] rs] & E & [= <-]).
  by apply calculate_all_flags in E as [? _].
Qed.

(** ** What the parser can produce *)

Lemma parse_price_range str p : parse_price_as_fixedpt str = Ok p -> in_s 64 p.
Proof.
  unfold parse_price_as_fixedpt, fixedptc.fixedpt_add. intros E.
  destruct (find_dot str 0) as [[|[|n]]|]; res_inv; try apply i64_range; zrange.
Qed.

Lemma scan_price_range md rest i st cnt msg r msg' :
  in_s 64 (mt_price msg) -> scan md rest i st cnt msg = Ok (Some (r, msg')) -> in_s 64 (mt_price msg').
Proof.
  revert i st cnt msg. induction rest as [|c rest IH]; intros i st cnt msg Hm E.
  - cbn [scan] in E. by simplify_eq.
  - cbn [scan] in E. destruct (c =? 124); [|by eapply IH].
    destruct cnt as [|[|[|[|cnt]]]]; [exact (IH _ _ _ _ Hm E)..| | |discriminate E].
    + destruct (_ <? _)%nat; [done|]. apply bind_Ok in E as (s & _ & E). by refine (IH _ _ _ _ _ E).
    + apply bind_Ok in E as (p & Ep & E). destruct (_ <=? _)%nat; [done|].
      apply bind_Ok in E as (n & _ & E). refine (IH _ _ _ _ _ E). by eapply parse_price_range.
Qed.

Lemma le_decode_range bs : Forall is_byte bs -> 0 <= le_decode bs < 256 ^ Z.of_nat (length bs).
Proof.
  induction 1 as [|b bs Hb _ IH]; cbn [le_decode length]; [done|].
  unfold is_byte in Hb. rewrite Nat2Z.inj_succ, Z.pow_succ_r by lia. lia.
Qed.

Lemma scan_message_range ts md msg :
  Forall is_byte ts -> length ts = tstamp_len -> scan_message ts md MsgTrade_new = Ok (Some msg) ->
  in_s 64 (mt_price msg) /\ in_u 64 (mt_src_timestamp msg).
Proof.
  intros Hb Hl E. unfold scan_message in E. apply bind_Ok in E as ([[cnt m]|] & Es & E); [|done].
  destruct (_ <? _)%nat; [done|]. injection E as <-. split.
  - refine (scan_price_range _ _ _ _ _ MsgTrade_new _ m _ Es). vm_compute; split; congruence.
  - cbn [with_src_timestamp mt_src_timestamp]. pose proof (le_decode_range ts Hb) as H. rewrite Hl in H. exact H.
Qed.

(** Behind the 42 bytes of headers Click parses what the baseline receives. *)
Lemma same_parse headers d t :
  length headers = s_mac_ip_udp_len -> (tstamp_len <= length d)%nat ->
  populate_msg_trade_click MsgTrade_new (mkPacket t (headers ++ d)) = populate_msg_trade MsgTrade_new d.
Proof.
  intros Hh Hd. unfold populate_msg_trade_click, populate_msg_trade, length_of. cbn [pk_data].
  rewrite length_app, Hh. unfold s_mac_ip_udp_len, tstamp_len in *.
  rewrite !(proj2 (Nat.ltb_ge _ _)) by lia. f_equal.
  - by rewrite <- Hh, drop_app_length.
  - rewrite <- drop_drop, <- Hh, drop_app_length. done.
Qed.

(** ** The simulation relation *)

Definition wf_stats (t : TimeStats) : Prop :=
  in_s 64 (ts_high t) /\ in_s 64 (ts_low t) /\ in_s 64 (ts_open t) /\ in_s 64 (ts_close t) /\ in_s 64 (ts_size t).

Lemma wf_stats_new : wf_stats TimeStats_new.
Proof. repeat split; vm_compute; congruence. Qed.

Lemma update_stats_wf t m : wf_stats t -> in_s 64 (mt_price m) -> wf_stats (update_stats t m).1.
Proof.
  intros (Hh & Hl & Ho & Hc & Hz) Hp. unfold update_stats.
  destruct (negb (_first_time_updated t)).
  - split_and!; cbn [fst ts_high ts_low ts_open ts_close ts_size]; try done; apply i64_range.
  - repeat case_match; simplify_eq; split_and!; cbn [fst ts_high ts_low ts_open ts_close ts_size]; try done; apply i64_range.
Qed.

Lemma rollover_wf t : wf_stats t -> wf_stats (rollover t).
Proof. intros (Hh & Hl & Ho & Hc & Hz). split_and!; simpl; try done; zrange. Qed.

(** Both updates of the interval, and whether they report it, agree. *)
Lemma update_hloc_stats m t : update_hloc m t = update_stats t m.
Proof.
  destruct t as [h l o c z f]. unfold update_hloc, update_stats.
  cbn [ts_high ts_low ts_open ts_close ts_size _first_time_updated]. rewrite Z.gtb_ltb.
  destruct f; [|done]. cbn [negb].
  destruct (h <? mt_price m);
    cbn [ts_high ts_low ts_open ts_close ts_size _first_time_updated]; destruct (mt_price m <? l);
    cbn [ts_high ts_low ts_open ts_close ts_size _first_time_updated]; by destruct (mt_price m =? c).
Qed.

Section simulation.
Import TradeProcessor.

Record front_rel (tp : TradeProcessor) (s : Baseline) : Prop := mkFrontRel {
  fr_active : _active tp = true;
  fr_timer : timer_scheduled tp = timer_active s;
  fr_first : first_symbol tp = negb (timer_active s);
  fr_symbols k : is_Some (_subscriptions_map tp !! k) <-> is_Some (find k (gSymbols s));
  fr_entry k t m :
    find k (gSymbols s) = Some (t, m) ->
    wf_stats t /\ find_stats k (_time_stats_map tp) = (if _initialized m then Some t else None) /\
    (_initialized m = false -> t = TimeStats_new)
}.

(** Storing an updated entry on both sides keeps the relation. *)
Lemma front_rel_store tp s k t m t' m' line n :
  front_rel tp s -> find k (gSymbols s) = Some (t, m) -> wf_stats t' -> _initialized m' = true ->
  front_rel
    (mkTP true (_subscriptions_map tp) (store_stats k t' (_time_stats_map tp)) n false true)
    (mkBaseline (assign k (t', m') (gSymbols s)) true line).
Proof.
  intros R Hk Ht' Hm'. constructor; cbn [_active timer_scheduled timer_active first_symbol negb
    _subscriptions_map _time_stats_map gSymbols]; [done..| |].
  - intros k'. rewrite find_assign by by eexists. rewrite (fr_symbols _ _ R).
    case_decide as Hkk; [subst; rewrite Hk; split; by eexists|done].
  - intros k' u w. rewrite find_assign by by eexists. rewrite find_store.
    case_decide as Hkk; [|apply (fr_entry _ _ R)]. intros [= <- <-]. by rewrite Hm'.
Qed.

Lemma decode_sent t ts junk :
  wf_stats t -> in_u 64 ts ->
  decode_MsgSource (encode_MsgSource (mkMsgSource (ts_close t) (ts_high t) (ts_low t) (ts_open t) ts 0) ++ junk) =
  Ok (mkMsgSource (ts_close t) (ts_high t) (ts_low t) (ts_open t) ts 0).
Proof. intros (Hh & Hl & Ho & Hc & _) Hts. apply decode_encode_MsgSource. split_and!; try done; simpl; zrange. Qed.
End simulation.

Section steps.
Import TradeProcessor.

(** One trade, message already parsed: [push] below its parser. *)
Lemma push_parsed port p tp msg :
  _active tp = true -> populate_msg_trade_click MsgTrade_new p = Ok (Some msg) ->
  (sizeof_MsgSource <= length_of p)%nat ->
  push port p tp =
    match _subscriptions_map tp !! mt_symbol msg with
    | None => Ok (mkTP true (_subscriptions_map tp) (_time_stats_map tp) (u64 (_total_msgs tp + 1))
                    (first_symbol tp) (timer_scheduled tp), [])
    | Some out_port =>
        let '(t, added) := get_or_create (mt_symbol msg) (_time_stats_map tp) in
        let u := update_stats t msg in
        Ok (mkTP true (_subscriptions_map tp) (store_stats (mt_symbol msg) u.1 (_time_stats_map tp))
              (u64 (_total_msgs tp + 1)) false (if first_symbol tp then true else timer_scheduled tp),
            if u.2 then
              [(out_port, mkPacket (if added then MSG_INIT_SOURCE else MSG_UPDATE_SOURCE)
                 (encode_MsgSource (mkMsgSource (ts_close u.1) (ts_high u.1) (ts_low u.1) (ts_open u.1)
                                      (mt_src_timestamp msg) 0) ++ drop sizeof_MsgSource (pk_data p)))]
            else [])
    end.
Proof.
  intros Ha Hp Hl. unfold push. rewrite Ha, Hp. cbn [negb]. res_simpl.
  cbn [_subscriptions_map _time_stats_map _active _total_msgs first_symbol timer_scheduled].
  destruct (_subscriptions_map tp !! mt_symbol msg) as [out_port|]; [|done].
  destruct (get_or_create _ _) as [t added]. destruct (update_stats t msg) as [t1 [|]]; [|done].
  cbn [negb fst snd]. unfold send_update_msg. rewrite (proj2 (Nat.ltb_ge _ _)) by done.
  rewrite write_front_Ok by (rewrite length_encode_MsgSource; exact Hl).
  rewrite length_encode_MsgSource. by res_simpl.
Qed.

Lemma front_rel_count tp s n :
  front_rel tp s ->
  front_rel (mkTP true (_subscriptions_map tp) (_time_stats_map tp) n (first_symbol tp) (timer_scheduled tp)) s.
Proof. intros R. constructor; try done; apply R. Qed.

(** A trade for a subscribed symbol. *)
Lemma front_step_known tp s msg t m out_port now pk_rest :
  front_rel tp s -> find (mt_symbol msg) (gSymbols s) = Some (t, m) ->
  in_s 64 (mt_price msg) -> in_u 64 (mt_src_timestamp msg) ->
  let u := update_stats t msg in
  let out :=
    if u.2 then
      [(out_port : Z, mkPacket (if _initialized m then MSG_UPDATE_SOURCE else MSG_INIT_SOURCE)
         (encode_MsgSource (mkMsgSource (ts_close u.1) (ts_high u.1) (ts_low u.1) (ts_open u.1)
                              (mt_src_timestamp msg) 0) ++ pk_rest))]
    else [] in
  (if negb u.2 then Ok (m, ad_line s)
   else if negb (_initialized m)
   then Ok (initialize_indicators (ts_high u.1) (ts_low u.1) (ts_close u.1) m, ad_line s)
   else emit_update (ts_high u.1) (ts_low u.1) (ts_close u.1) (mt_src_timestamp msg) now m (ad_line s)) =
  drive now out m (ad_line s) /\
  forall r, drive now out m (ad_line s) = Ok r -> _initialized r.1 = true.
Proof.
  intros R Hk Hp Hts u out. destruct (fr_entry _ _ R _ _ _ Hk) as (Hw & _ & Hnew).
  pose proof (update_stats_wf t msg Hw Hp) as Hu. fold u in Hu. subst out.
  destruct u.2 eqn:Hupd; cbn [negb drive fst snd].
  - unfold drive1. cbn [pk_data pk_app_type]. rewrite decode_sent by done. res_simpl.
    destruct (_initialized m) eqn:Hi; cbn [negb].
    + destruct (emit_update _ _ _ _ _ _ _) as [r|] eqn:E; res_simpl; split; try done.
      * by destruct r.
      * intros r' [= <-]. cbn [fst]. apply emit_update_initialized in E. congruence.
    + split; [done|]. by intros r' [= <-].
  - split; [done|]. intros r [= <-]. cbn [fst]. destruct (_initialized m); [done|].
    exfalso. subst u. by rewrite (Hnew eq_refl) in Hupd.
Qed.

(** The [i]-th packet drives the [i]-th entry. *)
Fixpoint drive_each (out : list (Z * Packet)) (m : SymbolsMap) (line : ADLine.ADLine)
  : res (SymbolsMap * ADLine.ADLine) :=
  match out, m with
  | o :: out, kv :: m =>
      let* r := drive1 0 o.2 kv.2.2 line in
      let* rest := drive_each out m r.2 in
      Ok ((kv.1, (rollover kv.2.1, r.1)) :: rest.1, rest.2)
  | _, _ => Ok (m, line)
  end.

Definition stats_of (m : SymbolsMap) : list (list Z * TimeStats) := map (fun kv => (kv.1, kv.2.1)) m.

Lemma find_stats_elem k t ts : NoDup ts.*1 -> (k, t) ∈ ts <-> find_stats k ts = Some t.
Proof.
  induction ts as [|[x u] ts IH]; intros Hn; cbn [find_stats fst snd]; [split; [by intros ?%elem_of_nil|done]|].
  rewrite fmap_cons in Hn. apply NoDup_cons in Hn as [Hx Hn]. cbn [fst] in Hx. rewrite elem_of_cons. case_decide as Hk.
  - subst x. split; [|intros [= ->]; by left]. intros [[= ->]|Hin]; [done|]. by apply (list_elem_of_fmap_2 fst) in Hin.
  - rewrite IH by done. split; [|by right]. by intros [[= -> ->]|].
Qed.

Lemma find_elem k e (m : SymbolsMap) : NoDup m.*1 -> (k, e) ∈ m -> find k m = Some e.
Proof.
  induction m as [|[x v] m IH]; intros Hn Hin; [by apply elem_of_nil in Hin|].
  rewrite fmap_cons in Hn. apply NoDup_cons in Hn as [Hx Hn]. cbn [find fst snd] in *.
  apply elem_of_cons in Hin as [[= -> ->]|Hin]; [by rewrite decide_True|].
  rewrite decide_False; [by apply IH|]. intros ->. apply Hx. apply (list_elem_of_fmap_2 fst) in Hin. done.
Qed.

Lemma stats_of_perm ts (m : SymbolsMap) :
  ts.*1 ≡ₚ m.*1 -> NoDup m.*1 ->
  (forall k t g, find k m = Some (t, g) -> find_stats k ts = Some t) -> ts ≡ₚ stats_of m.
Proof.
  intros Hk Hn Hf. assert (Hts : NoDup ts.*1) by (by rewrite Hk).
  assert (Hm : (stats_of m).*1 = m.*1) by (unfold stats_of; rewrite <- list_fmap_compose; by apply list_fmap_ext).
  apply NoDup_Permutation; [by eapply NoDup_fmap_1| |intros [k t]].
  - apply (NoDup_fmap_1 fst). by rewrite Hm.
  - rewrite find_stats_elem by done. unfold stats_of. rewrite list_elem_of_fmap. split.
    + intros Ht. assert (k ∈ m.*1) as Hin.
      { rewrite <- Hk. apply find_stats_elem in Ht; [|done]. by apply (list_elem_of_fmap_2 fst) in Ht. }
      apply list_elem_of_fmap in Hin as ([k' [t' g]] & -> & Hin). cbn [fst] in *. exists (k', (t', g)). split; [|done].
      pose proof (Hf _ _ _ (find_elem _ _ _ Hn Hin)). cbn [fst snd]. congruence.
    + intros ([k' [t' g]] & [= -> ->] & Hin). by apply (Hf k' t' g), find_elem.
Qed.

Definition add_packet (junk now : Z) (t : TimeStats) : Packet :=
  mkPacket MSG_ADD_SOURCE
    (encode_MsgSource (mkMsgSource (ts_close t) (ts_high t) (ts_low t) (ts_open t) now (ts_size t)) ++ [junk]).

Lemma drive_add junk now t m line :
  wf_stats t -> in_u 64 now ->
  drive1 0 (add_packet junk now t) m line = emit_add (ts_high t) (ts_low t) (ts_close t) m line.
Proof.
  intros (Hh & Hl & Ho & Hc & Hz) Hn. unfold drive1, add_packet. cbn [pk_data pk_app_type].
  rewrite decode_encode_MsgSource by done. by res_simpl.
Qed.

(** The baseline's loop, driven by the packets of Click's loop for its entries; each of
    [zs] is a reading of the counter and an entry. *)
Lemma on_timer_drive junk (port : bytes -> Z) m (zs : list (Z * (list Z * TimeStats))) line :
  zs.*2 = stats_of m -> Forall (in_u 64) zs.*1 -> Forall (fun kv => wf_stats kv.2.1) m ->
  on_timer_loop m line = drive_each (map (fun z => (port z.2.1, add_packet junk z.1 z.2.2)) zs) m line.
Proof.
  revert zs line. induction m as [|[k [t g]] m IH]; intros [|[now [k' t']] zs] line Hz Hn Hw; try done.
  rewrite fmap_cons in Hz. cbn [stats_of map fst snd] in Hz. injection Hz as -> -> Hz. change (Forall (in_u 64) (now :: zs.*1)) in Hn.
  apply Forall_cons in Hn as [Hn Hns]. apply Forall_cons in Hw as [Ht Hw].
  cbn [on_timer_loop map drive_each fst snd] in *. rewrite drive_add by done. unfold Fx.fromC.
  destruct (emit_add _ _ _ _ _) as [r|]; res_simpl; [|done]. by rewrite (IH zs).
Qed.

Lemma imap_readings {A B} (f : Z -> A -> B) (nows : nat -> Z) i l :
  imap (fun j x => f (nows (i + j)%nat) x) l = map (fun z => f z.1 z.2) (zip (map nows (seq i (length l))) l).
Proof.
  revert i. induction l as [|x l IH]; intros i; [done|]. cbn [imap length seq map zip zip_with fst snd]. rewrite Nat.add_0_r. f_equal.
  rewrite <- IH. apply imap_ext. intros j y _. simpl. by rewrite Nat.add_succ_r.
Qed.

(** The entries of Click's loop, with the counters read for them, in another order. *)
Lemma reorder_readings (nows : nat -> Z) (ts ts' : list (list Z * TimeStats)) :
  ts ≡ₚ ts' -> (forall j, in_u 64 (nows j)) ->
  exists zs, zs ≡ₚ zip (map nows (seq 0 (length ts))) ts /\ zs.*2 = ts' /\ Forall (in_u 64) zs.*1.
Proof.
  intros Hp Hn. set (zs := zip (map nows (seq 0 (length ts))) ts).
  assert (Hz : zs.*2 = ts) by (apply snd_zip; rewrite length_map, length_seq; lia).
  destruct (Permutation_map_inv snd zs (l1 := ts')) as (zs' & -> & Hp'); [rewrite <- Hp; change (map snd zs) with (zs.*2); by rewrite Hz|].
  exists zs'. split_and!; [by rewrite Hp'|done|]. rewrite <- Hp'. unfold zs. apply Forall_forall. intros n Hin.
  apply list_elem_of_fmap in Hin as ([n' kv] & -> & Hin). apply elem_of_zip_l, list_elem_of_fmap in Hin as (j & -> & _). apply Hn.
Qed.

(** The shape of the map after the timer. *)
Lemma on_timer_find m line r k :
  on_timer_loop m line = Ok r ->
  match find k m, find k r.1 with
  | Some (t, g), Some (t', g') => t' = rollover t /\ _initialized g' = _initialized g
  | None, None => True
  | _, _ => False
  end.
Proof.
  revert line r. induction m as [|[x [t g]] m IH]; intros line r E; cbn [on_timer_loop] in E; [by res_inv|].
  apply bind_Ok in E as (a & Ea & E). apply bind_Ok in E as (b & Eb & E). injection E as <-.
  cbn [find fst snd]. destruct (decide (x = k)); [|by eapply IH].
  split; [done|]. by apply emit_add_initialized in Ea.
Qed.

Lemma find_stats_rollover k ts :
  find_stats k (map (fun kv => (kv.1, rollover kv.2)) ts) = rollover <$> find_stats k ts.
Proof. induction ts as [|[x t] ts IH]; cbn [map find_stats fst snd]; [done|]. by case_decide. Qed.
End steps.

(** ** Start-up *)
Section startup.
Import TradeProcessor.

Definition good_symbol (s : bytes) : Prop :=
  s <> [] /\ Forall (fun c => c <> 0 /\ c <> 44) s /\ (length s <= 9)%nat.

Fixpoint join (syms : list bytes) : bytes :=
  match syms with
  | [] => []
  | [s] => s
  | s :: syms => s ++ 44 :: join syms
  end.

Lemma split_word s rest acc :
  Forall (fun c => c <> 0 /\ c <> 44) s -> split_comma (s ++ rest) acc = split_comma rest (acc ++ s).
Proof.
  intros Hs. revert acc. induction Hs as [|c s [_ Hc] _ IH]; intros acc; cbn [app split_comma].
  - by rewrite app_nil_r.
  - rewrite (proj2 (Z.eqb_neq _ _) Hc), IH. by rewrite <- app_assoc.
Qed.

Lemma split_join syms : Forall good_symbol syms -> split_comma (join syms) [] = syms.
Proof.
  induction 1 as [|s syms (Hne & Hs & _) Hall IH]; [done|]. destruct syms as [|s' syms].
  - cbn [join]. rewrite <- (app_nil_r s) at 1. rewrite split_word by done. cbn [split_comma app]. by destruct s.
  - change (join (s :: s' :: syms)) with (s ++ 44 :: join (s' :: syms)). rewrite split_word by done.
    cbn [split_comma app Z.eqb Pos.eqb]. rewrite IH. by destruct s.
Qed.

Lemma symbol_buffer_key s : good_symbol s -> symbol_buffer s = Ok (symbol_key s).
Proof.
  intros (_ & _ & Hl). unfold symbol_buffer, symbol_key, ORDER_SYMBOL_LEN.
  by rewrite (proj2 (Nat.leb_gt _ _)) by lia.
Qed.

Lemma pad_inj n m (s s' : bytes) :
  Forall (fun c => c <> 0) s -> Forall (fun c => c <> 0) s' ->
  s ++ replicate n 0 = s' ++ replicate m 0 -> s = s'.
Proof.
  intros Hs. revert s' n m. induction Hs as [|c s Hc _ IH]; intros s' n m Hs' E.
  - destruct Hs' as [|c' s' Hc' _]; [done|]. destruct n; [done|]. by injection E as <- _.
  - destruct Hs' as [|c' s' Hc' Hs']; cbn [app] in E.
    + destruct m; [done|]. by injection E as -> _.
    + injection E as <- E. f_equal. by eapply IH.
Qed.

Lemma symbol_key_inj s s' : good_symbol s -> good_symbol s' -> symbol_key s = symbol_key s' -> s = s'.
Proof.
  intros (_ & Hs & Hl) (_ & Hs' & Hl'). unfold symbol_key, ORDER_SYMBOL_LEN.
  rewrite !(proj2 (Nat.leb_gt _ _)) by lia. apply pad_inj; eapply Forall_impl; try done; by intros c [? _].
Qed.

Lemma keys_fresh s syms :
  good_symbol s -> Forall good_symbol syms -> s ∉ syms -> symbol_key s ∉ map symbol_key syms.
Proof.
  intros Hs Hall Hn Hin. apply list_elem_of_fmap in Hin as (s' & E & Hin).
  rewrite Forall_forall in Hall. apply symbol_key_inj in E; [congruence|done|by apply Hall].
Qed.

(** What [insert_symbols] builds. *)
Definition fresh_entry (pars : Params) (s : bytes) (kv : bytes * (TimeStats * IndicatorManager)) : Prop :=
  kv.1 = symbol_key s /\ kv.2.1 = TimeStats_new /\ IndicatorManager_new pars (symbol_key s) = Ok kv.2.2.

Lemma insert_symbols_spec pars syms m :
  Forall good_symbol syms -> NoDup syms -> (forall s, s ∈ syms -> symbol_key s ∉ m.*1) ->
  (forall k, exists mgr, IndicatorManager_new pars k = Ok mgr) ->
  exists m', insert_symbols pars syms m = Ok (m ++ m') /\ Forall2 (fresh_entry pars) syms m'.
Proof.
  intros Hall. revert m. induction Hall as [|s syms Hs Hall IH]; intros m Hn Hm Hnew.
  - exists []. rewrite app_nil_r. split; [done|constructor].
  - apply NoDup_cons in Hn as [Hin Hn]. cbn [insert_symbols]. rewrite symbol_buffer_key by done. res_simpl.
    destruct (Hnew (symbol_key s)) as [mgr Hmgr]. rewrite Hmgr. res_simpl.
    rewrite (proj2 (find_fresh _ _)) by (apply Hm; by left).
    destruct (IH (m ++ [(symbol_key s, (TimeStats_new, mgr))])) as (m' & E & Hm'); [done| |done|].
    + intros s' Hs'. rewrite fmap_app, not_elem_of_app. split; [apply Hm; by right|].
      cbn [fmap list_fmap fst]. rewrite list_elem_of_singleton. intros Heq.
      apply symbol_key_inj in Heq as ->; [done| |done]. rewrite Forall_forall in Hall. by apply Hall.
    + exists ((symbol_key s, (TimeStats_new, mgr)) :: m'). rewrite E, <- app_assoc.
      split; [done|]. constructor; [|done]. by split.
Qed.

Lemma subscribe_spec (sp : list (bytes * bytes)) m :
  Forall good_symbol sp.*1 -> NoDup sp.*1 -> Forall (fun p => Forall is_digit p /\ (length p <= 18)%nat) sp.*2 ->
  (forall s, s ∈ sp.*1 -> m !! symbol_key s = None) ->
  exists m', subscribe (concat (map (fun x => [x.1; x.2]) sp)) m = Ok (m', 0) /\
    forall k, is_Some (m' !! k) <-> is_Some (m !! k) \/ k ∈ map symbol_key sp.*1.
Proof.
  revert m. induction sp as [|[s p] sp IH]; intros m Hg Hn Hp Hm.
  - exists m. split; [done|]. intros k. split; [by left|]. intros [?|Hin]; [done|]. by apply elem_of_nil in Hin.
  - rewrite !fmap_cons in *. cbn [fst snd] in *.
    apply Forall_cons in Hg as [Hs Hg]. apply NoDup_cons in Hn as [Hin Hn]. apply Forall_cons in Hp as [[Hpd Hpl] Hp].
    cbn [concat map app subscribe fst snd]. rewrite strtol_digits_only by done. res_simpl.
    rewrite bool_decide_true by (apply Hm; by left). cbn [negb].
    destruct (IH (<[symbol_key s := i32 (dec_value p)]> m)) as (m' & E & Hk); try done.
    + intros s' Hs'. rewrite lookup_insert_ne; [apply Hm; by right|].
      intros Heq. apply symbol_key_inj in Heq as ->; [done..|]. rewrite Forall_forall in Hg. by apply Hg.
    + exists m'. split; [exact E|]. intros k. rewrite Hk, elem_of_cons, lookup_insert_is_Some'.
      split; [intros [[<-|?]|?]|intros [?|[->|?]]]; auto.
Qed.

Lemma manager_new_fresh pars k m : IndicatorManager_new pars k = Ok m -> _initialized m = false.
Proof.
  unfold IndicatorManager_new. generalize (replicate s_all_values_size 0). intros vs E. by res_inv.
Qed.

Lemma parse_options ds syms :
  Forall is_digit ds -> (length ds <= 18)%nat -> Forall good_symbol syms ->
  parse_cmds [(116, []); (110, ds); (115, join syms)] Params_new =
  Ok (Some (mkParams true false false false syms (i32 (dec_value ds)) 0 0)).
Proof.
  intros Hd Hl Hs.
  assert (E : forall p, parse_option 110 ds p =
    let '(mkParams t d v a syms _ i po) := p in
    let* x := strtol (ds ++ [0]) in Ok (Some (mkParams t d v a syms (i32 x) i po))) by (by intros []).
  cbn [parse_cmds fst snd].
  change (parse_option 116 [] Params_new) with (Ok (Some (mkParams true false false false [] 0 0 0))).
  res_simpl. rewrite E. rewrite strtol_digits_only by done. res_simpl. unfold parse_option, parse_symbol_list. cbn [Z.eqb Pos.eqb].
  res_simpl. by rewrite split_join.
Qed.

(** The managers can be built for every indicator. *)
Lemma manager_new_Ok pars k : 1 <= _ewma_periods pars < 2 ^ 22 -> exists mgr, IndicatorManager_new pars k = Ok mgr.
Proof.
  intros Hn. unfold IndicatorManager_new, TrixHc.Trix_new, Dmi.Dmi_new, vortex_of_periods, alfa_of_periods, Fx.div, fixedptc.fixedpt_div.
  assert (Hd : Fx.add (Fx.fromInt (_ewma_periods pars)) (Fx.fromInt 1) <> 0).
  { unfold Fx.add, Fx.fromInt, fixedptc.fixedpt_add. rewrite !FixedPt.fromint_val by zrange. rewrite i64_id by zrange. lia. }
  rewrite (proj2 (Z.eqb_neq _ _) Hd). rewrite (proj2 (Z.ltb_ge _ _)) by lia.
  destruct (Z.to_nat (_ewma_periods pars)) as [|n] eqn:En; [lia|].
  unfold new_if. destruct (_is_trix pars), (_is_dmi pars), (_is_vortex pars), (_is_adline pars); res_simpl; by eexists.
Qed.
End startup.

(** ** Faults of the timer, and what a manager records *)

Lemma on_timer_app m1 m2 line :
  on_timer_loop (m1 ++ m2) line =
  (let* r1 := on_timer_loop m1 line in
   let* r2 := on_timer_loop m2 r1.2 in Ok (r1.1 ++ r2.1, r2.2)).
Proof.
  revert line. induction m1 as [|kv m1 IH]; intros line; cbn [app on_timer_loop].
  - res_simpl. cbn [fst snd]. by destruct (on_timer_loop m2 line) as [[]|].
  - destruct (emit_add _ _ _ _ _) as [r|]; res_simpl; [|done]. rewrite IH.
    destruct (on_timer_loop m1 r.2) as [[m1' line1]|]; res_simpl; [|done]. cbn [fst snd].
    by destruct (on_timer_loop m2 line1) as [r2|].
Qed.

(** The components of a new manager. *)
Lemma manager_new_parts pars k m :
  IndicatorManager_new pars k = Ok m ->
  new_if (_is_trix pars) (TrixHc.Trix_new (_ewma_periods pars)) = Ok (_trix m) /\
  new_if (_is_dmi pars) (Dmi.Dmi_new (_ewma_periods pars)) = Ok (_dmi m) /\
  new_if (_is_vortex pars) (vortex_of_periods (_ewma_periods pars)) = Ok (_vortex m).
Proof.
  unfold IndicatorManager_new. generalize (replicate s_all_values_size 0). intros vs E.
  apply bind_Ok in E as (t & -> & E). apply bind_Ok in E as (d & -> & E). apply bind_Ok in E as (v & -> & E).
  by res_inv.
Qed.

Lemma new_if_Some {A} b (m : res A) a : new_if b m = Ok (Some a) -> m = Ok a.
Proof. unfold new_if. destruct b; [|done]. intros E. by res_inv. Qed.

Lemma new_if_true {A} b (m : res A) o : new_if b m = Ok o -> b = true -> is_Some o.
Proof. unfold new_if. intros E ->. res_inv. by eexists. Qed.

Definition flat_dmi (d : Dmi.Dmi) (p : Z) : Prop :=
  Dmi._prev_close d = p /\ Dmi._prev_high d = p /\ Dmi._prev_low d = p /\
  EwmaHc._initialized (Dmi._ewma_tr d) = false.

Definition flat_vortex (v : Vortex.Vortex) (p : Z) : Prop :=
  Vortex._prev_close v = p /\ Vortex._prev_high v = p /\ Vortex._prev_low v = p /\
  SumRingBuffer._last_sum (Vortex._tr_sum v) = 0.

Lemma sub_self p : Fx.sub p p = 0.
Proof. unfold Fx.sub, fixedptc.fixedpt_sub. by rewrite Z.sub_diag. Qed.

(** A new indicator asked to close an interval whose prices are all the one it
    was initialised with divides by a true range of zero. *)
Lemma flat_dmi_fault d p : flat_dmi d p -> Dmi.calculate_value p p p ADD d = Fault DivByZero.
Proof.
  intros (Hc & Hh & Hl & Hi). unfold Dmi.calculate_value, Dmi.calculate_tr. rewrite Hc, sub_self.
  change (Fx.max 0 (Fx.max 0 0)) with 0.
  destruct (EwmaHc.calculate_new_value _ (Dmi._ewma_pdm d)), (EwmaHc.calculate_new_value _ (Dmi._ewma_ndm d)).
  unfold EwmaHc.calculate_new_value at 1. by rewrite Hi.
Qed.

Lemma flat_vortex_fault v p : flat_vortex v p -> Vortex.calculate_value p p p ADD v = Fault DivByZero.
Proof.
  intros (Hc & Hh & Hl & Hs). unfold Vortex.calculate_value. rewrite bool_decide_false by done. cbn [andb]. res_simpl.
  rewrite Hc, sub_self. unfold SumRingBuffer.get_total_sum. rewrite Hs. reflexivity.
Qed.

Lemma new_dmi_flat n d : Dmi.Dmi_new n = Ok d -> flat_dmi d 0.
Proof. unfold Dmi.Dmi_new. intros E. by res_inv. Qed.

Lemma new_vortex_flat n v : vortex_of_periods n = Ok v -> flat_vortex v 0.
Proof. unfold vortex_of_periods, Vortex.Vortex_new. intros E. destruct (n <? 0); [done|]. by destruct (Z.to_nat n); res_inv. Qed.

Lemma new_trix_fault n t : TrixHc.Trix_new n = Ok t -> TrixHc.calculate_value 0 ADD t = Fault DivByZero.
Proof. unfold TrixHc.Trix_new. intros E. by res_inv. Qed.

(** What [emit_add] does when the first indicator the manager has faults. *)
Lemma flat_add_fault p m line :
  (forall t, _trix m = Some t -> TrixHc.calculate_value p ADD t = Fault DivByZero) ->
  (forall d, _dmi m = Some d -> flat_dmi d p) -> (forall v, _vortex m = Some v -> flat_vortex v p) ->
  is_Some (_trix m) \/ is_Some (_dmi m) \/ is_Some (_vortex m) ->
  emit_add p p p m line = Fault DivByZero.
Proof.
  intros Ht Hd Hv Hsome. unfold emit_add, calculate_all, result_if.
  destruct (_trix m) as [t|]; [by rewrite (Ht t)|]. res_simpl.
  destruct (_dmi m) as [d|]; [by rewrite (flat_dmi_fault d p) by auto|]. res_simpl.
  destruct (_vortex m) as [v|]; [by rewrite (flat_vortex_fault v p) by auto|].
  destruct Hsome as [[]|[[]|[]]]; done.
Qed.

(** The values an UPDATE adds, when one indicator is selected. *)
Definition values_of (m : IndicatorManager) (results : Z * Z * (Z * Z) * Z) : list Z :=
  let '(trix, dmi, vortex, adline) := results in
  match _trix m, _dmi m, _vortex m, _ad_line_tick m with
  | Some _, _, _, _ => [trix]
  | _, Some _, _, _ => [dmi]
  | _, _, Some _, _ => [vortex.1; vortex.2]
  | _, _, _, _ => [adline]
  end.

Definition b2n (b : bool) : nat := if b then 1 else 0.

Definition one_indicator (m : IndicatorManager) : Prop :=
  (b2n (bool_decide (is_Some (_trix m))) + b2n (bool_decide (is_Some (_dmi m))) +
   b2n (bool_decide (is_Some (_vortex m))) + b2n (bool_decide (is_Some (_ad_line_tick m))) = 1)%nat.

Lemma all_values_size : Z.of_nat s_all_values_size = 10000.
Proof. unfold s_all_values_size. lia. Qed.

Lemma store_take i v vs :
  (i < length vs)%nat -> exists vs', store i v vs = Ok vs' /\ length vs' = length vs /\ take (S i) vs' = take i vs ++ [v].
Proof.
  intros Hi. unfold store. rewrite (proj2 (Nat.ltb_lt _ _)) by done. eexists. split; [done|].
  split; [apply length_insert|]. by apply take_insert_S.
Qed.

Lemma record_values_spec m results :
  length (_all_values m) = s_all_values_size -> one_indicator m ->
  exists vs n, record_values m results = Ok (vs, n) /\ length vs = s_all_values_size /\
    take n vs = take (_all_values_counter m) (_all_values m) ++
      (if (_all_values_counter m <? s_all_values_size - 1)%nat then values_of m results else []).
Proof.
  destruct results as [[[rt rd] [v1 v2]] ra]. intros Hl Hone. unfold record_values. pose proof all_values_size as Hsz.
  destruct (Nat.ltb_spec (_all_values_counter m) (s_all_values_size - 1)) as [Hr|Hr].
  2: { eexists _, _. split; [done|]. split; [done|]. by rewrite app_nil_r. }
  unfold one_indicator, values_of, store_if in *.
  destruct (_trix m) as [t|], (_dmi m) as [d|], (_vortex m) as [v|], (_ad_line_tick m) as [a|];
    cbn in Hone; try discriminate Hone; res_simpl; cbn [fst snd].
  3: { destruct (store_take (_all_values_counter m) v1 (_all_values m)) as (vs & -> & Hl1 & Ht1); [lia|]. res_simpl.
       destruct (store_take (S (_all_values_counter m)) v2 vs) as (vs2 & -> & Hl2 & Ht2); [lia|]. res_simpl.
       eexists _, _. split; [done|]. split; [lia|]. rewrite Ht2, Ht1. by rewrite <- app_assoc. }
  all: match goal with |- context [store ?i ?v ?l] =>
         destruct (store_take i v l) as (vs & -> & Hl1 & Ht1); [lia|] end; res_simpl;
       eexists _, _; split; [done|]; by split; [lia|].
Qed.

(** ** A one-symbol configuration, for the examples *)
Section demo.
Import TradeProcessor.

Definition demo_key : bytes := symbol_key (bytes_of_string "AAA").

Definition demo_manager (trix dmi : bool) : IndicatorManager :=
  match IndicatorManager_new (mkParams trix dmi false false [] 13 0 0) demo_key with
  | Ok m => m
  | Fault _ => mkManager None None None None RunningStat.Stats_new [] 0 demo_key false
  end.

Definition demo_tp : TradeProcessor := mkTP true {[demo_key := 0]} [] 0 true false.
Definition demo_baseline : Baseline :=
  mkBaseline [(demo_key, (TimeStats_new, demo_manager true false))] false ADLine.ADLine_new.

Lemma demo_manager_new trix dmi :
  IndicatorManager_new (mkParams trix dmi false false [] 13 0 0) demo_key = Ok (demo_manager trix dmi).
Proof.
  unfold demo_manager. destruct (manager_new_Ok (mkParams trix dmi false false [] 13 0 0) demo_key) as [m ->]; [|done].
  cbn [_ewma_periods]. lia.
Qed.

Lemma demo_rel : front_rel demo_tp demo_baseline.
Proof.
  constructor; cbn [demo_tp demo_baseline _active timer_scheduled timer_active first_symbol negb
    _subscriptions_map _time_stats_map gSymbols find find_stats fst snd]; try done.
  - intros k. case_decide as Hk.
    + subst k. rewrite lookup_singleton_eq. split; by eexists.
    + rewrite lookup_singleton_ne by done. by split; intros [].
  - intros k t m. case_decide; [|done]. intros [= <- <-].
    rewrite (manager_new_fresh _ _ _ (demo_manager_new true false)).
    split_and!; [apply wf_stats_new|done|done].
Qed.

Definition demo_trade : bytes :=
  replicate 8 1 ++ bytes_of_string "0|1|AAA|12.5|100".

Definition demo_stats : TimeStats := mkTimeStats (25 * 2 ^ 39) (25 * 2 ^ 39) 0 (25 * 2 ^ 39) 100 true.
Definition demo_traded_tp : TradeProcessor :=
  mkTP true {[demo_key := 0]} [(demo_key, demo_stats)] 1 false true.
Definition demo_traded : Baseline :=
  mkBaseline [(demo_key, (demo_stats, initialize_indicators (25 * 2 ^ 39) (25 * 2 ^ 39) (25 * 2 ^ 39) (demo_manager true false)))]
    true ADLine.ADLine_new.

Lemma demo_traded_rel : front_rel demo_traded_tp demo_traded.
Proof.
  refine (front_rel_store demo_tp demo_baseline demo_key TimeStats_new (demo_manager true false) demo_stats
    (initialize_indicators (25 * 2 ^ 39) (25 * 2 ^ 39) (25 * 2 ^ 39) (demo_manager true false))
    ADLine.ADLine_new 1 demo_rel _ _ _).
  - done.
  - repeat split; vm_compute; congruence.
  - done.
Qed.
End demo.

Module BaselineProps.
Section sim.
Import TradeProcessor.

(** C29: The two front ends agree on every trade.  In related states the baseline,
    given a datagram of 8 (the time stamp) to 512 bytes (its buffer), and Click's
    [TradeProcessor], given the same bytes behind
    its 42 bytes of headers, both fault alike, both ignore it, or both take it for the
    same symbol: what the baseline does to the symbol's indicators is what the packet
    Click sends asks for (initialise, update, or nothing), and the states are
    related again. *)
Theorem front_ends_agree tp s headers d t port now
  (R : front_rel tp s) (Hh : length headers = s_mac_ip_udp_len)
  (Hd : (tstamp_len <= length d <= BUFLEN)%nat) (Hb : Forall is_byte d) :
  match push port (mkPacket t (headers ++ d)) tp with
  | Fault f => udp_read_cb now (Some d) s = Fault f
  | Ok (tp', out) =>
      (udp_read_cb now (Some d) s = Ok s /\ out = [] /\ front_rel tp' s) \/
      (exists symbol ts mgr ts', find symbol (gSymbols s) = Some (ts, mgr) /\
         Forall (fun o => _subscriptions_map tp !! symbol = Some o.1) out /\
         udp_read_cb now (Some d) s =
           (let* r := drive now out mgr (ad_line s) in
            Ok (mkBaseline (assign symbol (ts', r.1) (gSymbols s)) true r.2)) /\
         forall r, drive now out mgr (ad_line s) = Ok r ->
           front_rel tp' (mkBaseline (assign symbol (ts', r.1) (gSymbols s)) true r.2))
  end.
Proof.
  destruct Hd as [Hd1 Hd2]. pose proof (fr_active _ _ R) as Ha.
  pose proof (same_parse headers d t Hh Hd1) as Hparse.
  assert (Hlen : (sizeof_MsgSource <= length_of (mkPacket t (headers ++ d)))%nat).
  { unfold length_of. cbn [pk_data]. rewrite length_app, Hh. unfold sizeof_MsgSource, s_mac_ip_udp_len, tstamp_len in *. lia. }
  unfold udp_read_cb. rewrite firstn_all2 by exact Hd2. rewrite <- Hparse.
  destruct (populate_msg_trade_click MsgTrade_new _) as [[msg|]|f] eqn:Ep.
  - rewrite (push_parsed _ _ _ msg) by done. res_simpl.
    assert (Hmsg : in_s 64 (mt_price msg) /\ in_u 64 (mt_src_timestamp msg)).
    { symmetry in Hparse. unfold populate_msg_trade in Hparse. rewrite (proj2 (Nat.ltb_ge _ _)) in Hparse by done.
      eapply scan_message_range, Hparse; [by apply Forall_take|]. by rewrite length_take, Nat.min_l. }
    destruct Hmsg as [Hp Hts]. pose proof (fr_symbols _ _ R (mt_symbol msg)) as Hsym.
    destruct (_subscriptions_map tp !! mt_symbol msg) as [out_port|] eqn:Hsub.
    + destruct (proj1 Hsym ltac:(by eexists)) as [[ts mgr] Hk]. rewrite Hk.
      destruct (fr_entry _ _ R _ _ _ Hk) as (Hw & Hfind & Hnew).
      assert (Hg : get_or_create (mt_symbol msg) (_time_stats_map tp) = (ts, negb (_initialized mgr))).
      { unfold get_or_create. rewrite Hfind. destruct (_initialized mgr); [done|]. by rewrite Hnew. }
      rewrite Hg. cbv zeta. cbn [pk_data]. right.
      destruct (front_step_known tp s msg ts mgr out_port now (drop sizeof_MsgSource (headers ++ d)) R Hk Hp Hts)
        as [Hdrive Hinit].
      exists (mt_symbol msg), ts, mgr, (update_stats ts msg).1. rewrite update_hloc_stats.
      destruct (update_stats ts msg) as [u upd] eqn:Hu. cbn [fst snd] in *. unfold Fx.fromC.
      replace (if negb (_initialized mgr) then MSG_INIT_SOURCE else MSG_UPDATE_SOURCE)
        with (if _initialized mgr then MSG_UPDATE_SOURCE else MSG_INIT_SOURCE) by (by destruct (_initialized mgr)).
      split_and!; [done|by destruct upd; repeat constructor| |].
      * rewrite <- Hdrive. reflexivity.
      * intros r Hr. replace (if first_symbol tp then true else timer_scheduled tp) with true.
        -- eapply front_rel_store; [done..| |by apply Hinit].
           change u with (u, upd).1. rewrite <- Hu. by apply update_stats_wf.
        -- rewrite (fr_first _ _ R), (fr_timer _ _ R). by destruct (timer_active s).
    + left. destruct (find (mt_symbol msg) (gSymbols s)) as [e|] eqn:Hk; [destruct (proj2 Hsym ltac:(by eexists)) as [? [=]]|].
      split_and!; try done. by apply front_rel_count.
  - unfold push. rewrite Ha, Ep. cbn [negb mbind res_bind]. left. split_and!; try done. by apply front_rel_count.
  - unfold push. by rewrite Ha, Ep.
Qed.

Lemma front_ends_agree_witness :
  exists tp' out,
    push 0 (mkPacket NO_APP_MSG (replicate 42 0 ++ demo_trade)) demo_tp = Ok (tp', out) /\ length out = 1%nat /\
    ((udp_read_cb 7 (Some demo_trade) demo_baseline = Ok demo_baseline /\ out = [] /\ front_rel tp' demo_baseline) \/
     (exists symbol ts mgr ts', find symbol (gSymbols demo_baseline) = Some (ts, mgr) /\
        Forall (fun o => _subscriptions_map demo_tp !! symbol = Some o.1) out /\
        udp_read_cb 7 (Some demo_trade) demo_baseline =
          (let* r := drive 7 out mgr (ad_line demo_baseline) in
           Ok (mkBaseline (assign symbol (ts', r.1) (gSymbols demo_baseline)) true r.2)) /\
        forall r, drive 7 out mgr (ad_line demo_baseline) = Ok r ->
          front_rel tp' (mkBaseline (assign symbol (ts', r.1) (gSymbols demo_baseline)) true r.2))).
Proof.
  pose proof (front_ends_agree demo_tp demo_baseline (replicate 42 0) demo_trade NO_APP_MSG 0 7 demo_rel eq_refl
    ltac:(split; apply Nat.leb_le; vm_compute; reflexivity) ltac:(repeat constructor; vm_compute; congruence)) as H.
  destruct (push 0 (mkPacket NO_APP_MSG (replicate 42 0 ++ demo_trade)) demo_tp) as [[tp' out]|] eqn:E;
    [|vm_compute in E; discriminate E].
  exists tp', out. split; [done|]. split; [|exact H].
  vm_compute in E. injection E as _ <-. reflexivity.
Defined.

(** C30: When the timer fires and every subscribed symbol has traded, the two
    programs close the interval alike: Click sends one ADD for every symbol, on its port,
    the baseline's ADDs are these packets, symbol by symbol in the order of its own map
    (the two maps need not agree in their order), and the states are related again. *)
Theorem timers_agree tp s junk nows
  (R : front_rel tp s) (Hact : timer_active s = true) (Hn : NoDup (gSymbols s).*1)
  (Htraded : (_time_stats_map tp).*1 ≡ₚ (gSymbols s).*1) (Hnow : forall i, in_u 64 (nows i)) :
  exists tp' out out', run_timer junk nows tp = Ok (tp', out) /\
    out' ≡ₚ out /\ map (fun o => Some o.1) out' = map (fun k => _subscriptions_map tp !! k) (gSymbols s).*1 /\
    on_timer_cb s = (let* r := drive_each out' (gSymbols s) (ad_line s) in Ok (mkBaseline r.1 true r.2)) /\
    forall s', on_timer_cb s = Ok s' -> front_rel tp' s'.
Proof.
  assert (Hent : forall k t g, find k (gSymbols s) = Some (t, g) -> _initialized g = true /\
            wf_stats t /\ find_stats k (_time_stats_map tp) = Some t).
  { intros k t g Hk. destruct (fr_entry _ _ R _ _ _ Hk) as (Hw & Hf & _).
    destruct (_initialized g); [done|]. apply find_None in Hf. rewrite Htraded in Hf.
    apply find_fresh in Hf. congruence. }
  assert (Hts : _time_stats_map tp ≡ₚ stats_of (gSymbols s)).
  { apply stats_of_perm; try done. intros k t g Hk. by apply Hent in Hk as (_ & _ & ?). }
  assert (Hs : Forall (fun k => is_Some (_subscriptions_map tp !! k)) (gSymbols s).*1).
  { apply Forall_forall. intros k Hk. apply (fr_symbols _ _ R).
    destruct (find k (gSymbols s)) eqn:E; [by eexists|]. by apply find_fresh in E. }
  assert (Hsubs : Forall (fun k => is_Some (_subscriptions_map tp !! k)) (_time_stats_map tp).*1) by (by rewrite Htraded).
  destruct (reorder_readings nows _ _ Hts Hnow) as (zs & Hzp & Hz2 & Hz1).
  set (port := fun k => default 0 (_subscriptions_map tp !! k)).
  set (packet := fun now kv => (port kv.1, add_packet junk now kv.2)).
  unfold run_timer. rewrite run_timer_loop_spec by done. res_simpl.
  eexists _, _, (map (fun z => packet z.1 z.2) zs). split; [reflexivity|]. split_and!.
  - rewrite Hzp. rewrite <- (imap_readings packet nows 0). done.
  - rewrite map_map. transitivity (map (fun kv => Some (port kv.1)) zs.*2); [symmetry; apply map_map|].
    rewrite Hz2. unfold stats_of. rewrite map_map. cbn [fst]. change ((gSymbols s).*1) with (map fst (gSymbols s)). rewrite map_map.
    apply map_ext_in. intros kv Hin. unfold port. eapply Forall_forall in Hs as [q Hq]; [|apply (list_elem_of_fmap_2 fst), list_elem_of_In, Hin].
    by rewrite Hq.
  - unfold on_timer_cb. rewrite Hact. f_equal. apply on_timer_drive; [done|done|].
    apply Forall_forall. intros [k [t g]] Hin%find_elem; [|done]. by apply Hent in Hin as (_ & ? & _).
  - unfold on_timer_cb. rewrite Hact. intros s' E. apply bind_Ok in E as (r & Hr & [= <-]).
    constructor; cbn [_active timer_scheduled timer_active first_symbol _subscriptions_map _time_stats_map gSymbols fst snd].
    + apply R.
    + done.
    + rewrite (fr_first _ _ R). by rewrite Hact.
    + intros k. rewrite (fr_symbols _ _ R). pose proof (on_timer_find _ _ _ k Hr) as Hk.
      destruct (find k (gSymbols s)) as [[]|], (find k r.1) as [[]|]; try done; split; by eexists.
    + intros k t g Hg. pose proof (on_timer_find _ _ _ k Hr) as Hk. rewrite Hg in Hk.
      destruct (find k (gSymbols s)) as [[t0 g0]|] eqn:E; [|done]. destruct Hk as [-> Hi].
      destruct (Hent _ _ _ E) as (Hi0 & Hw & Hf). rewrite Hi, Hi0, find_stats_rollover, Hf.
      split_and!; [by apply rollover_wf|done|done].
Qed.

Lemma timers_agree_witness :
  exists tp' out out',
    run_timer 0 (fun i => Z.of_nat i mod 2 ^ 64) demo_traded_tp = Ok (tp', out) /\
    out' ≡ₚ out /\ map (fun o => Some o.1) out' = [Some 0] /\
    on_timer_cb demo_traded =
      (let* r := drive_each out' (gSymbols demo_traded) (ad_line demo_traded) in Ok (mkBaseline r.1 true r.2)) /\
    forall s', on_timer_cb demo_traded = Ok s' -> front_rel tp' s'.
Proof.
  refine (timers_agree demo_traded_tp demo_traded 0 (fun i => Z.of_nat i mod 2 ^ 64) demo_traded_rel eq_refl _ _ _).
  - apply NoDup_singleton.
  - done.
  - intros i. apply uwrap_range. lia.
Defined.

(** Started with the same distinct symbols -- the baseline with
    [-t -n periods -s A,B,...], Click with the words of [SYMBOLS_ROUTING] -- the
    two programs begin in related states, the timer not yet running and one
    fresh entry per symbol. *)
Theorem front_ends_start sp ds
  (Hg : Forall good_symbol sp.*1) (Hn : NoDup sp.*1)
  (Hp : Forall (fun p => Forall is_digit p /\ (length p <= 18)%nat) sp.*2)
  (Hds : Forall is_digit ds) (Hdl : (length ds <= 18)%nat) (Hdv : 1 <= dec_value ds < 2 ^ 22) :
  exists tp s,
    configure (concat (map (fun x => [x.1; x.2]) sp)) TradeProcessor_new = Ok (tp, 0) /\
    start 6 [(116, []); (110, ds); (115, join sp.*1)] = Ok (Some s) /\
    front_rel tp s /\ (gSymbols s).*1 = map symbol_key sp.*1 /\ timer_active s = false.
Proof.
  set (pars := mkParams true false false false sp.*1 (i32 (dec_value ds)) 0 0).
  assert (Hpars : _ewma_periods pars = dec_value ds) by (apply swrap_id; [lia|zrange]).
  destruct (subscribe_spec sp ∅ Hg Hn Hp) as (subs & Es & Hsubs); [done|].
  destruct (insert_symbols_spec pars sp.*1 [] Hg Hn) as (m & Em & Hm).
  { intros s _. apply not_elem_of_nil. }
  { intros k. apply manager_new_Ok. by rewrite Hpars. }
  assert (Hkeys : m.*1 = map symbol_key sp.*1).
  { clear -Hm. induction Hm as [|s kv ss m (Hk & _) _ IH]; [done|]. rewrite fmap_cons, IH, Hk. done. }
  eexists _, (mkBaseline m false ADLine.ADLine_new). split_and!.
  - unfold configure. cbn [_subscriptions_map TradeProcessor_new]. rewrite Es. by res_simpl.
  - unfold start. rewrite parse_options by done. fold pars. cbn [Z.ltb Z.compare Pos.compare Pos.compare_cont].
    res_simpl. change (_symbols pars) with sp.*1. by rewrite Em.
  - constructor; cbn [_active timer_scheduled timer_active first_symbol negb _subscriptions_map _time_stats_map
      gSymbols fst]; try done.
    + intros k. rewrite Hsubs, lookup_empty. rewrite <- Hkeys. split.
      * intros [[? [=]]|Hin]. destruct (find k m) eqn:E; [by eexists|]. by apply find_fresh in E.
      * intros [e He]. right. destruct (decide (k ∈ m.*1)) as [|Hk]; [done|]. apply find_fresh in Hk. congruence.
    + intros k t g Hk. assert (Hf : t = TimeStats_new /\ _initialized g = false).
      { clear -Hm Hk. induction Hm as [|s [k' [t' g']] ss m (_ & Ht & Hg) _ IH]; [done|].
        cbn [find fst snd] in *. case_decide; [|by apply IH]. injection Hk as -> ->. split; [done|].
        by eapply manager_new_fresh. }
      destruct Hf as [-> ->]. split_and!; [apply wf_stats_new|done|done].
  - exact Hkeys.
  - done.
Qed.

Lemma front_ends_start_witness :
  let sp := [(bytes_of_string "AAA", bytes_of_string "0"); (bytes_of_string "BP", bytes_of_string "1")] in
  exists tp s,
    configure (concat (map (fun x => [x.1; x.2]) sp)) TradeProcessor_new = Ok (tp, 0) /\
    start 6 [(116, []); (110, bytes_of_string "13"); (115, bytes_of_string "AAA,BP")] = Ok (Some s) /\
    front_rel tp s /\ (gSymbols s).*1 = map symbol_key sp.*1 /\ timer_active s = false.
Proof.
  refine (front_ends_start
    [(bytes_of_string "AAA", bytes_of_string "0"); (bytes_of_string "BP", bytes_of_string "1")]
    (bytes_of_string "13") _ _ _ _ _ _).
  - repeat constructor; try (vm_compute; congruence); apply Nat.leb_le; vm_compute; reflexivity.
  - apply NoDup_cons. split; [|apply NoDup_singleton]. by rewrite list_elem_of_singleton.
  - repeat constructor; try (vm_compute; congruence); apply Nat.leb_le; vm_compute; reflexivity.
  - repeat constructor; vm_compute; congruence.
  - apply Nat.leb_le. vm_compute. reflexivity.
  - vm_compute. split; congruence.
Defined.
End sim.

(** A subscribed symbol that has not traded when the timer first fires
    crashes the baseline: with TRIX, DMI or Vortex selected the ADD for its empty
    entry divides by zero, whatever the other entries are. *)
Theorem untraded_symbol_fault pars k mgr m1 m2 line r
  (Hnew : IndicatorManager_new pars k = Ok mgr)
  (Hsel : _is_trix pars || _is_dmi pars || _is_vortex pars = true)
  (Hm1 : on_timer_loop m1 line = Ok r) :
  on_timer_cb (mkBaseline (m1 ++ (k, (TimeStats_new, mgr)) :: m2) true line) = Fault DivByZero.
Proof.
  unfold on_timer_cb. cbn [gSymbols ad_line]. rewrite on_timer_app, Hm1. res_simpl. cbn [on_timer_loop fst snd].
  rewrite flat_add_fault; [done|..]; destruct (manager_new_parts _ _ _ Hnew) as (Ht & Hd & Hv).
  - intros t Et. rewrite Et in Ht. by eapply new_trix_fault, new_if_Some.
  - intros d Ed. rewrite Ed in Hd. by eapply new_dmi_flat, new_if_Some.
  - intros v Ev. rewrite Ev in Hv. by eapply new_vortex_flat, new_if_Some.
  - apply orb_true_iff in Hsel as [[Hsel|Hsel]%orb_true_iff|Hsel];
      [left|right; left|right; right]; by eapply new_if_true.
Qed.

Lemma untraded_symbol_fault_witness :
  on_timer_cb (mkBaseline [(demo_key, (TimeStats_new, demo_manager true false))] true ADLine.ADLine_new) =
  Fault DivByZero.
Proof.
  exact (untraded_symbol_fault (mkParams true false false false [] 13 0 0) demo_key (demo_manager true false) [] []
    ADLine.ADLine_new ([], ADLine.ADLine_new) (demo_manager_new true false) eq_refl eq_refl).
Defined.

(** A single trade in the first interval crashes the DMI and the Vortex of
    the baseline: the trade initialises them, and the ADD the timer then makes
    sees a true range of zero and divides by it. *)
Theorem first_interval_fault pars k mgr line now d msg
  (Hnew : IndicatorManager_new pars k = Ok mgr)
  (Hsel : _is_trix pars = false /\ _is_dmi pars || _is_vortex pars = true)
  (Hd : (length d <= BUFLEN)%nat) (Hmsg : populate_msg_trade MsgTrade_new d = Ok (Some msg))
  (Hk : mt_symbol msg = k) :
  exists s', udp_read_cb now (Some d) (mkBaseline [(k, (TimeStats_new, mgr))] false line) = Ok s' /\
    on_timer_cb s' = Fault DivByZero.
Proof.
  destruct (manager_new_parts _ _ _ Hnew) as (Ht & Hdm & Hv). destruct Hsel as [Hst Hsel].
  unfold udp_read_cb. rewrite firstn_all2 by done. rewrite Hmsg. res_simpl. cbn [gSymbols find fst snd ad_line].
  rewrite decide_True by done. unfold update_hloc. cbn [TimeStats_new _first_time_updated negb ts_open ts_size ts_high ts_low ts_close].
  rewrite (manager_new_fresh _ _ _ Hnew). cbn [negb]. res_simpl. eexists. split; [reflexivity|].
  cbn [assign fst snd]. rewrite decide_True by done. unfold on_timer_cb. cbn [gSymbols on_timer_loop fst snd ts_high ts_low ts_close].
  rewrite flat_add_fault; [done|..]; unfold initialize_indicators, Fx.fromC in *; cbn [_trix _dmi _vortex].
  - intros t Et. rewrite Hst in Ht. injection Ht as Ht. by rewrite <- Ht in Et.
  - intros e (e0 & Ee & ->)%fmap_Some. rewrite Ee in Hdm. apply new_if_Some, new_dmi_flat in Hdm as (_ & _ & _ & ?).
    by split_and!.
  - intros e (e0 & Ee & ->)%fmap_Some. rewrite Ee in Hv. apply new_if_Some, new_vortex_flat in Hv as (_ & _ & _ & ?).
    by split_and!.
  - right. rewrite !fmap_is_Some. apply orb_true_iff in Hsel as [Hsel|Hsel]; [left|right]; by eapply new_if_true.
Qed.

Lemma first_interval_fault_witness :
  exists s', udp_read_cb 7 (Some demo_trade)
      (mkBaseline [(demo_key, (TimeStats_new, demo_manager false true))] false ADLine.ADLine_new) = Ok s' /\
    on_timer_cb s' = Fault DivByZero.
Proof.
  refine (first_interval_fault (mkParams false true false false [] 13 0 0) demo_key (demo_manager false true)
    ADLine.ADLine_new 7 demo_trade (mkMsgTrade (25 * 2 ^ 39) 100 demo_key 0 72340172838076673)
    (demo_manager_new false true) (conj eq_refl eq_refl) _ _ eq_refl).
  - apply Nat.leb_le. vm_compute. reflexivity.
  - vm_compute. reflexivity.
Defined.

(** Values are recorded in order and in bounds: with one indicator selected an
    UPDATE appends its value -- the Vortex its two -- to what the manager reports
    at the end, until 9999 are stored, and counts its latency. *)
Theorem manager_records h l c t0 t1 m line m1 line1 results
  (Hl : length (_all_values m) = s_all_values_size) (Hone : one_indicator m)
  (Hcalc : calculate_all h l c UPDATE m line = Ok (m1, line1, results)) :
  exists m', emit_update h l c t0 t1 m line = Ok (m', line1) /\
    (report m').1 = (report m).1 ++
      (if (_all_values_counter m <? s_all_values_size - 1)%nat then values_of m1 results else []) /\
    (report m').2 = RunningStat.update_counter (u64 (t1 - t0)) (report m).2 /\
    length (_all_values m') = s_all_values_size /\ one_indicator m'.
Proof.
  unfold emit_update. rewrite Hcalc. res_simpl.
  apply calculate_all_flags in Hcalc as (_ & Hv & Hc & Hs & Ht & Hd & Hx & Ha).
  assert (Hone1 : one_indicator m1).
  { unfold one_indicator. by rewrite (bool_decide_ext _ _ Ht), (bool_decide_ext _ _ Hd), (bool_decide_ext _ _ Hx), (bool_decide_ext _ _ Ha). }
  destruct (record_values_spec m1 results) as (vs & n & -> & Hlv & Htake); [by rewrite Hv|done|]. res_simpl.
  eexists. split; [reflexivity|]. unfold report. cbn [fst snd _all_values _all_values_counter _running_stats].
  rewrite Htake, Hv, Hc, Hs. done.
Qed.

Lemma manager_records_witness :
  let m := initialize_indicators (Fx.fromInt 10) (Fx.fromInt 10) (Fx.fromInt 10) (demo_manager true false) in
  exists m' line',
    emit_update (Fx.fromInt 11) (Fx.fromInt 11) (Fx.fromInt 11) 5 9 m ADLine.ADLine_new = Ok (m', line') /\
    length (report m').1 = 1%nat.
Proof.
  intros m.
  destruct (calculate_all (Fx.fromInt 11) (Fx.fromInt 11) (Fx.fromInt 11) UPDATE m ADLine.ADLine_new)
    as [[[m1 line1] [[[rt rd] rv] ra]]|] eqn:E; [|vm_compute in E; discriminate E].
  destruct (manager_records (Fx.fromInt 11) (Fx.fromInt 11) (Fx.fromInt 11) 5 9 m ADLine.ADLine_new m1 line1
    (rt, rd, rv, ra)) as (m' & Em & Hr & _).
  - vm_compute. reflexivity.
  - vm_compute. reflexivity.
  - exact E.
  - exists m', line1. split; [exact Em|]. rewrite Hr.
    destruct (proj2 (proj1 (proj2 (proj2 (proj2 (proj2 (calculate_all_flags _ _ _ _ _ _ _ _ _ E)))))) (mk_is_Some _ _ eq_refl))
      as [t Ht].
    unfold values_of. rewrite Ht. vm_compute. reflexivity.
Defined.
End BaselineProps.
