(* ===== verification/TrixGraph.v ===== *)
(** * TrixGraph: the TRIX graph of Click and the baseline's TRIX

    Models the element graph of indicator_configs/trix_opt.click below the
    [TradeProcessor]:

      [tstamp -> split_1[0] -> ewma_1 -> ewma_2 -> ewma_3 -> trix]

    A source packet is pushed through the whole chain; what the last element
    emits is the output.  The theorem relates the chain to hand_coded/trix.cpp:
    driven by the same source messages both give the same values. *)

From S2P Require Import Prelude FixedPt CircArray Messages Buffers IndicatorBase IndicatorLaws.
From S2P Require Import Smoothing Ratios IndicatorProps HandCoded AdLine Parsing Sources SourceProps.
Import FPt IndicatorBase IndicatorBaseFacts.

Module TrixGraph.

Abbreviation Ewma := (IndicatorBase EwmaIncremental.EwmaIncremental).

Record TrixGraph := mkGraph {
  tstamp : Timestamper.Timestamper;
  split_1 : SourceSplit.SourceSplit;
  ewma_1 : Ewma;
  ewma_2 : Ewma;
  ewma_3 : Ewma;
  trix : IndicatorBase Trix.Trix
}.

(** The configuration: [ALPHA_PERIODS periods, BUF_SIZE cap, IN_PORTS 1, OP_MODE 2]. *)
Definition TrixGraph_new (periods : Z) (cap : nat) : res TrixGraph :=
  let ewma :=
    EwmaIncremental.configure 1 (Some periods) (Some (Z.of_nat cap, 2))
      (IndicatorBase_new EwmaIncremental.EwmaIncremental_new) in
  let* e1 := ewma in
  let* e2 := ewma in
  let* e3 := ewma in
  Ok (mkGraph Timestamper.Timestamper_new
        (SourceSplit.configure (Some 0) None None None None SourceSplit.SourceSplit_new).1
        e1.1 e2.1 e3.1
        (Trix.configure 1 (Some (Z.of_nat cap, 2)) (IndicatorBase_new Trix.Trix_new)).1).

(** Packets arriving on input 0. *)
Definition push_list {E} `{IndicatorElement E} (pad : bytes) (ib : IndicatorBase E) (ps : list Packet) :=
  push_all pad ib (map (fun p => (0%nat, p)) ps).

(** [split_1[0]] *)
Definition output_0 (out : list (Z * Packet)) : list Packet :=
  map snd (filter (fun o => o.1 = 0) out).

(** One source packet; [now1] and [now2] are the counter values the timestamper
    reads. *)
Definition graph_push (pad : bytes) (now1 now2 : Z) (p : Packet) (g : TrixGraph)
  : res (TrixGraph * list Packet) :=
  let* t := Timestamper.simple_action now1 now2 p (tstamp g) in
  let* s := SourceSplit.push pad t.2 (split_1 g) in
  let* r1 := push_list pad (ewma_1 g) (output_0 s) in
  let* r2 := push_list pad (ewma_2 g) r1.2 in
  let* r3 := push_list pad (ewma_3 g) r2.2 in
  let* r4 := push_list pad (trix g) r3.2 in
  Ok (mkGraph t.1 (split_1 g) r1.1 r2.1 r3.1 r4.1, r4.2).

Fixpoint graph_run (pad : bytes) (ps : list (Z * Packet)) (g : TrixGraph)
  : res (TrixGraph * list Packet) :=
  match ps with
  | [] => Ok (g, [])
  | np :: ps =>
      let* r := graph_push pad np.1 np.1 np.2 g in
      let* s := graph_run pad ps r.1 in
      Ok (s.1, r.2 ++ s.2)
  end.

(** The baseline's indicator, driven by the same messages. *)
Fixpoint trix_run (us : list (UpdateType * Z)) (t : TrixHc.Trix) : res (TrixHc.Trix * list Z) :=
  match us with
  | [] => Ok (t, [])
  | u :: us =>
      let* r := TrixHc.calculate_value u.2 u.1 t in
      let* s := trix_run us r.1 in
      Ok (s.1, r.2 :: s.2)
  end.

End TrixGraph.
Import TrixGraph.

(** ** One packet through one element *)
Section one.
Context {E : Type} `{IndicatorLaws E} (H1 : nports = 1%nat).
Context (pad : bytes) (Hpad : length pad = 7%nat) (cap : nat) (Hcap : (2 <= cap)%nat).

Definition result_packet (p : Packet) (v : FixedPt) (ts : Z) : Packet :=
  mkPacket (pk_app_type p) (encode_MsgValue pad (mkMsgValue v ts) ++ drop sizeof_MsgValue (pk_data p)).

Lemma one_round p v ts :
  decode_MsgValue (pk_data p) = Ok (mkMsgValue v ts) ->
  pround_ok nports (PRound (pk_app_type p) ts [v] [(0%nat, p)]).
Proof using H1.
  intros Hd. rewrite H1. split; [done|]. exists [(0%nat, v)]. split; [done|].
  constructor; [|constructor]. by split.
Qed.

Lemma push_one P ib ts0 st p v ts :
  inv cap P ib ts0 st -> pk_app_type p = MSG_ADD \/ pk_app_type p = MSG_UPDATE ->
  decode_MsgValue (pk_data p) = Ok (mkMsgValue v ts) -> ts0 < ts ->
  res_rel (fun r s => inv cap P r.1 ts s.1 /\ r.2 = [result_packet p s.2 ts])
    (push_list pad ib [p]) (spec_step P cap st (pk_app_type p) [v]).
Proof using Hpad Hcap H1.
  intros Hinv Ht Hd Hts. assert (Hn : (0 < nports)%nat) by lia.
  pose proof (step_round pad Hpad cap Hcap Hn P ib ts0 st (PRound (pk_app_type p) ts [v] [(0%nat, p)])
    Hinv Ht (one_round p v ts Hd) Hts) as Hs.
  unfold push_list. cbn [map pr_pkts pr_type pr_values] in *.
  destruct (push_all _ _ _) as [[ib' o]|], (spec_step _ _ _ _ _) as [[s w]|]; try done.
  destruct Hs as [Ho Hi]. done.
Qed.

Lemma init_one P ib m p v ts :
  idle cap ib m P -> pk_app_type p = MSG_INIT ->
  decode_MsgValue (pk_data p) = Ok (mkMsgValue v ts) -> 0 < ts -> get_valid (out_init P [v]) = true ->
  exists ib', push_list pad ib [p] = Ok (ib', [result_packet p (out_init P [v]) ts]) /\
    inv cap P ib' ts (m, [[v]]).
Proof using Hpad Hcap H1.
  intros Hidle Ht Hd Hts Hv. assert (Hn : (0 < nports)%nat) by lia.
  destruct (init_round pad Hpad cap Hcap Hn P ib m (PRound (pk_app_type p) ts [v] [(0%nat, p)])
    Hidle) as (ib' & E1 & Hinv); [by right; right|by apply one_round|done|].
  exists ib'. cbn [pr_pkts pr_values pr_tstamp pr_type] in *. rewrite Hv in E1. by split.
Qed.

Lemma result_packet_decode p v ts :
  wf_fpt v -> in_u 64 ts -> decode_MsgValue (pk_data (result_packet p v ts)) = Ok (mkMsgValue v ts).
Proof using Hpad. intros Hv Hts. apply decode_encode_MsgValue; [done|by split]. Qed.
End one.

(** ** The chain *)
Section chain.
Context (pad : bytes) (Hpad : length pad = 7%nat) (cap : nat) (Hcap : (2 <= cap)%nat) (alpha : FixedPt).
Implicit Types (H : history).

Definition ewma_next (H : history) (v : FixedPt) : FixedPt := ewma alpha (v :: column 0 H).

Definition ewma_inv (ib : Ewma) (ts : Z) (st : OpMode * history) : Prop :=
  inv (E:=EwmaIncremental.EwmaIncremental) cap alpha ib ts st.
Definition trix_inv (ib : IndicatorBase Trix.Trix) (ts : Z) (st : OpMode * history) : Prop :=
  inv (E:=Trix.Trix) cap tt ib ts st.

Definition committed (t : PacketAppType) (m : OpMode) (H : history) (v : FixedPt) : OpMode * history :=
  if decide (t = MSG_ADD) then (NORMAL, [v] :: H) else (m, H).

Lemma ewma_next_val H v :
  H <> [] ->
  ewma_next H v = add (mul (int_sub 1 alpha) v) (mul alpha (ewma alpha (column 0 H))).
Proof. intros Hne. unfold ewma_next. apply ewma_cons. by destruct H. Qed.

Lemma ewma_next_wf H v : H <> [] -> wf_fpt (ewma_next H v).
Proof. intros Hne. rewrite ewma_next_val by done. apply i64_range. Qed.

Lemma spec_step_ewma m H t v :
  (m = STARTUP /\ length H = 1%nat) \/ (m = NORMAL /\ H <> []) ->
  spec_step (E:=EwmaIncremental.EwmaIncremental) alpha cap (m, H) t [v] =
  Ok (committed t m H v, ewma_next H v).
Proof using Hcap.
  clear pad Hpad. intros Hm. unfold spec_step, committed.
  assert (Ho : spec_out (E:=EwmaIncremental.EwmaIncremental) alpha cap m H [v] = Ok (ewma_next H v)).
  { destruct Hm as [[-> Hl]|[-> _]]; [|done]. cbn [spec_out out_naive EwmaIncremental_laws].
    rewrite firstn_all2; [done|]. unfold column. rewrite length_map. simpl. lia. }
  rewrite Ho. res_simpl. destruct (decide _); [|done]. by destruct Hm as [[-> _]|[-> _]].
Qed.

(** An averaging element takes a value in and passes the average on. *)
Lemma ewma_stage (ib : Ewma) ts0 m H p v ts :
  ewma_inv ib ts0 (m, H) -> (m = STARTUP \/ m = NORMAL) ->
  pk_app_type p = MSG_ADD \/ pk_app_type p = MSG_UPDATE ->
  decode_MsgValue (pk_data p) = Ok (mkMsgValue v ts) -> ts0 < ts -> in_u 64 ts ->
  exists ib', push_list pad ib [p] = Ok (ib', [result_packet pad p (ewma_next H v) ts]) /\
    ewma_inv ib' ts (committed (pk_app_type p) m H v) /\
    decode_MsgValue (pk_data (result_packet pad p (ewma_next H v) ts)) = Ok (mkMsgValue (ewma_next H v) ts).
Proof using Hpad Hcap.
  intros Hinv Hm Ht Hd Hts Hu. pose proof (push_one (E:=EwmaIncremental.EwmaIncremental) eq_refl pad Hpad cap Hcap alpha ib ts0 (m, H) p v ts Hinv Ht Hd Hts) as Hp.
  assert (Hne : H <> []) by apply Hinv.
  rewrite spec_step_ewma in Hp.
  2: { destruct Hm as [-> | ->]; [left|by right]. split; [done|]. destruct Hinv as (_ & _ & _ & _ & _ & _ & b & _ & Hl & _). done. }
  destruct (push_list pad ib [p]) as [[ib' o]|]; [|done]. destruct Hp as [Hi Ho]. cbn [fst snd] in *. subst o.
  exists ib'. split; [done|]. split; [done|]. apply result_packet_decode; [done|by apply ewma_next_wf|done].
Qed.

(** The value of the last element; [last] is the newest average, [pen] the one
    committed before it. *)
Definition trix_out (m : OpMode) (last pen : FixedPt) : res FixedPt :=
  match m with NORMAL => trix_opt last pen | _ => trix_naive last pen end.

Lemma trix_stage (ib : IndicatorBase Trix.Trix) ts0 m H p v ts :
  trix_inv ib ts0 (m, H) -> (m = STARTUP \/ m = NORMAL) ->
  pk_app_type p = MSG_ADD \/ pk_app_type p = MSG_UPDATE ->
  decode_MsgValue (pk_data p) = Ok (mkMsgValue v ts) -> ts0 < ts ->
  res_rel (fun r w => trix_inv r.1 ts (committed (pk_app_type p) m H v) /\ r.2 = [result_packet pad p w ts])
    (push_list pad ib [p]) (trix_out m v (hd [] H !!! 0%nat)).
Proof using Hpad Hcap.
  intros Hinv Hm Ht Hd Hts. pose proof (push_one (E:=Trix.Trix) eq_refl pad Hpad cap Hcap tt ib ts0 (m, H) p v ts Hinv Ht Hd Hts) as Hp.
  unfold spec_step in Hp.
  assert (Ho : spec_out (E:=Trix.Trix) tt cap m H [v] = trix_out m v (hd [] H !!! 0%nat)) by (by destruct Hm as [-> | ->]).
  rewrite Ho in Hp. destruct (trix_out _ _ _) as [w|f]; [|by destruct (push_list pad ib [p])].
  cbn [mbind res_bind] in Hp. unfold committed.
  replace (match m with STARTUP => NORMAL | _ => m end) with NORMAL in Hp by (by destruct Hm as [-> | ->]).
  destruct (push_list pad ib [p]) as [[ib' o]|]; destruct (decide _); done.
Qed.

(** *** The front: timestamper and splitter *)

Definition close_split : SourceSplit.SourceSplit := SourceSplit.mkSplit 0 (-1) (-1) (-1) (-1).

Lemma split_close p src :
  is_source (pk_app_type p) -> decode_MsgSource (pk_data p) = Ok src ->
  SourceSplit.push pad p close_split = Ok [(0, split_packet pad p (ms_close src) (ms_timestamp src))].
Proof using Hpad.
  clear cap Hcap. intros Ht Hd. pose proof (decode_MsgSource_length _ _ Hd) as Hl.
  unfold SourceSplit.push. replace (negb _ && _ && _) with false
    by (destruct Ht as [-> | [-> | ->]]; by rewrite !bool_decide_decide).
  assert (Hl' : (sizeof_MsgValue <= length_of p)%nat).
  { unfold length_of, sizeof_MsgSource, sizeof_MsgValue in *. lia. }
  rewrite Hd. res_simpl. by rewrite !send_if_spec by done.
Qed.

Lemma front_stage now p src :
  is_source (pk_app_type p) -> decode_MsgSource (pk_data p) = Ok src -> in_u 64 (stamped now p src) ->
  exists p1 p2, Timestamper.simple_action now now p Timestamper.Timestamper_new = Ok (Timestamper.Timestamper_new, p1) /\
    SourceSplit.push pad p1 close_split = Ok [(0, p2)] /\
    pk_app_type p2 = SourceSplit.new_type (pk_app_type p) /\
    decode_MsgValue (pk_data p2) = Ok (mkMsgValue (fromC (ms_close src)) (stamped now p src)).
Proof using Hpad.
  intros Ht Hd Hu. pose proof (decode_source_range _ _ Hd) as [Hc _].
  destruct (stamp_stage now p src Ht Hd Hu) as (p1 & E1 & Ht1 & _ & Hd1).
  exists p1, (split_packet pad p1 (ms_close src) (stamped now p src)). split; [done|].
  split; [rewrite <- Ht1 in Ht; exact (split_close p1 _ Ht Hd1)|]. cbn [split_packet pk_app_type pk_data]. rewrite Ht1.
  split; [done|]. apply decode_encode_MsgValue; [done|by split].
Qed.

(** *** The baseline's averages *)

Definition hc (H : history) : EwmaHc.EwmaHc :=
  EwmaHc.mkEwmaHc true (getC (ewma alpha (column 0 H))) (getC alpha).

Lemma hc_next H v :
  H <> [] -> EwmaHc.calculate_new_value (getC v) (hc H) = (hc H, getC (ewma_next H v)).
Proof. intros Hne. unfold EwmaHc.calculate_new_value. rewrite ewma_next_val by done. reflexivity. Qed.

Lemma hc_commit H v : EwmaHc.set_last_value (getC (ewma_next H v)) (hc H) = hc ([v] :: H).
Proof. reflexivity. Qed.

Lemma hc_ratio last pen :
  (let* q := Fx.div (Fx.sub (getC last) (getC pen)) (getC pen) in Ok (Fx.int_mul 100 q)) =
  (getC <$> trix_opt last pen).
Proof.
  unfold trix_opt, div, Fx.div, Fx.sub, getC. cbn [_value sub fromC].
  by destruct (fixedptc.fixedpt_div _ _).
Qed.

(** Both orders of rounding divide by the same value. *)
Lemma trix_out_fault m last pen :
  res_rel (fun w w' => m = NORMAL -> w = w') (trix_out m last pen) (trix_opt last pen).
Proof.
  unfold trix_out, trix_naive, trix_opt, div, fixedptc.fixedpt_div. cbn [_value].
  destruct m; destruct (_value pen =? 0); done.
Qed.

(** *** The simulation *)

Definition update_type_of (t : PacketAppType) : UpdateType :=
  if decide (t = MSG_ADD_SOURCE) then ADD else UPDATE.

(** The graph has committed the histories [H1] ... [H4], which the baseline's
    averages summarise. *)
Record graph_rel (g : TrixGraph) (t : TrixHc.Trix) (ts : Z) (m : OpMode) (H1 H2 H3 H4 : history) : Prop := {
  gr_tstamp : tstamp g = Timestamper.Timestamper_new;
  gr_split : split_1 g = close_split;
  gr_1 : ewma_inv (ewma_1 g) ts (m, H1);
  gr_2 : ewma_inv (ewma_2 g) ts (m, H2);
  gr_3 : ewma_inv (ewma_3 g) ts (m, H3);
  gr_4 : trix_inv (trix g) ts (m, H4);
  gr_mode : m = STARTUP \/ m = NORMAL;
  gr_last : hd [] H4 !!! 0%nat = ewma alpha (column 0 H3);
  gr_hc : t = TrixHc.mkTrix (hc H1) (hc H2) (hc H3)
}.

(** An output packet against the baseline's value: the same number once the
    graph is past its first ADD; before that the naive formula, which rounds
    elsewhere, on the same two averages. *)
Definition out_agrees (m : OpMode) (o : Packet) (z : Z) : Prop :=
  exists w ts, decode_MsgValue (pk_data o) = Ok (mkMsgValue w ts) /\
  match m with
  | NORMAL => getC w = z
  | _ => exists last pen w', trix_naive last pen = Ok w /\ trix_opt last pen = Ok w' /\ getC w' = z
  end.

Lemma trix_out_wf m last pen w : trix_out m last pen = Ok w -> wf_fpt w.
Proof.
  unfold trix_out, trix_naive, trix_opt, div. intros E.
  destruct m; destruct (fixedptc.fixedpt_div _ _) as [q|] eqn:Eq; try done; injection E as <-.
  1,3: unfold fixedptc.fixedpt_div in Eq; destruct (_ =? 0); [done|]; injection Eq as <-; apply i64_range.
  apply i64_range.
Qed.

Lemma hd_committed t m H v : hd [] (committed t m H v).2 = if decide (t = MSG_ADD) then [v] else hd [] H.
Proof. unfold committed. by destruct (decide _). Qed.

(** The chain below the splitter on one value. *)
Lemma chain_step g t ts0 m H1 H2 H3 H4 p v ts :
  graph_rel g t ts0 m H1 H2 H3 H4 -> pk_app_type p = MSG_ADD \/ pk_app_type p = MSG_UPDATE ->
  decode_MsgValue (pk_data p) = Ok (mkMsgValue v ts) -> ts0 < ts -> in_u 64 ts ->
  let a1 := ewma_next H1 v in let a2 := ewma_next H2 a1 in let a3 := ewma_next H3 a2 in
  let ty := pk_app_type p in
  exists e1 e2 e3 p1 p2 p3,
    push_list pad (ewma_1 g) [p] = Ok (e1, [p1]) /\ push_list pad (ewma_2 g) [p1] = Ok (e2, [p2]) /\
    push_list pad (ewma_3 g) [p2] = Ok (e3, [p3]) /\
    ewma_inv e1 ts (committed ty m H1 v) /\ ewma_inv e2 ts (committed ty m H2 a1) /\
    ewma_inv e3 ts (committed ty m H3 a2) /\
    res_rel (fun r w => trix_inv r.1 ts (committed ty m H4 a3) /\
               exists o, r.2 = [o] /\ decode_MsgValue (pk_data o) = Ok (mkMsgValue w ts))
      (push_list pad (trix g) [p3]) (trix_out m a3 (ewma alpha (column 0 H3))).
Proof using Hpad Hcap.
  intros R Ht Hd Hts Hu a1 a2 a3 ty. pose proof (gr_mode _ _ _ _ _ _ _ _ R) as Hm.
  destruct (ewma_stage _ ts0 m H1 p v ts (gr_1 _ _ _ _ _ _ _ _ R) Hm Ht Hd Hts Hu) as (e1 & E1 & I1 & D1).
  destruct (ewma_stage _ ts0 m H2 (result_packet pad p a1 ts) a1 ts (gr_2 _ _ _ _ _ _ _ _ R) Hm Ht D1 Hts Hu) as (e2 & E2 & I2 & D2).
  destruct (ewma_stage _ ts0 m H3 (result_packet pad (result_packet pad p a1 ts) a2 ts) a2 ts (gr_3 _ _ _ _ _ _ _ _ R) Hm Ht D2 Hts Hu) as (e3 & E3 & I3 & D3).
  pose proof (trix_stage _ ts0 m H4
    (result_packet pad (result_packet pad (result_packet pad p a1 ts) a2 ts) a3 ts) a3 ts (gr_4 _ _ _ _ _ _ _ _ R) Hm Ht D3 Hts) as H4'.
  eexists e1, e2, e3, _, _, _. split_and!; [exact E1|exact E2|exact E3|exact I1|exact I2|exact I3|].
  rewrite (gr_last _ _ _ _ _ _ _ _ R) in H4'. fold a1 a2 a3 in H4' |- *.
  destruct (trix_out m a3 _) as [w|] eqn:Ew, (push_list pad (trix g) _) as [[e4 o]|]; try done.
  destruct H4' as [I4 Ho]. split; [exact I4|]. eexists. split; [exact Ho|].
  apply result_packet_decode; [done|by eapply trix_out_wf|done].
Qed.

(** The baseline on the same value. *)
Lemma hc_calculate H1 H2 H3 v u :
  H1 <> [] -> H2 <> [] -> H3 <> [] ->
  let a1 := ewma_next H1 v in let a2 := ewma_next H2 a1 in let a3 := ewma_next H3 a2 in
  TrixHc.calculate_value (getC v) u (TrixHc.mkTrix (hc H1) (hc H2) (hc H3)) =
  (let* w := trix_opt a3 (ewma alpha (column 0 H3)) in
   Ok (match u with
       | ADD => TrixHc.mkTrix (hc ([v] :: H1)) (hc ([a1] :: H2)) (hc ([a2] :: H3))
       | UPDATE => TrixHc.mkTrix (hc H1) (hc H2) (hc H3)
       end, getC w)).
Proof.
  intros N1 N2 N3 a1 a2 a3. unfold TrixHc.calculate_value.
  cbn [TrixHc._ewma_1 TrixHc._ewma_2 TrixHc._ewma_3].
  rewrite (hc_next H1 v N1). fold a1. rewrite (hc_next H2 a1 N2). fold a2. rewrite (hc_next H3 a2 N3). fold a3.
  change (EwmaHc.get_last_value (hc H3)) with (getC (ewma alpha (column 0 H3))).
  pose proof (hc_ratio a3 (ewma alpha (column 0 H3))) as Hr.
  destruct (Fx.div _ _) as [q|], (trix_opt _ _) as [w|]; cbn [mbind res_bind fmap res_fmap] in *; try congruence.
  injection Hr as ->. destruct u; [|done]. by rewrite <- !hc_commit.
Qed.

Definition mode_after (ty : PacketAppType) (m : OpMode) : OpMode :=
  if decide (ty = MSG_ADD_SOURCE) then NORMAL else m.

Lemma graph_step g t ts0 m H1 H2 H3 H4 now p src :
  graph_rel g t ts0 m H1 H2 H3 H4 ->
  pk_app_type p = MSG_ADD_SOURCE \/ pk_app_type p = MSG_UPDATE_SOURCE ->
  decode_MsgSource (pk_data p) = Ok src -> ts0 < stamped now p src -> in_u 64 (stamped now p src) ->
  res_rel (fun r s => (exists o, r.2 = [o] /\ out_agrees m o s.2) /\
             exists H1 H2 H3 H4, graph_rel r.1 s.1 (stamped now p src) (mode_after (pk_app_type p) m) H1 H2 H3 H4)
    (graph_push pad now now p g)
    (TrixHc.calculate_value (ms_close src) (update_type_of (pk_app_type p)) t).
Proof using Hpad Hcap.
  intros R Ht Hd Hts Hu. set (ts := stamped now p src) in *. set (v := fromC (ms_close src)).
  destruct (front_stage now p src) as (p1 & p2 & E1 & E2 & Hty & Hd2); [unfold is_source; tauto|done|done|].
  assert (Hty2 : pk_app_type p2 = MSG_ADD \/ pk_app_type p2 = MSG_UPDATE)
    by (rewrite Hty; destruct Ht as [-> | ->]; auto).
  destruct (chain_step g t ts0 m H1 H2 H3 H4 p2 v ts R Hty2 Hd2 Hts Hu)
    as (e1 & e2 & e3 & q1 & q2 & q3 & S1 & S2 & S3 & I1 & I2 & I3 & S4).
  unfold graph_push. rewrite (gr_tstamp _ _ _ _ _ _ _ _ R), (gr_split _ _ _ _ _ _ _ _ R), E1. res_simpl. cbn [fst snd].
  rewrite E2. res_simpl. change (output_0 [(0, p2)]) with [p2]. rewrite S1. res_simpl. cbn [fst snd].
  rewrite S2. res_simpl. cbn [fst snd]. rewrite S3. res_simpl. cbn [fst snd].
  rewrite (gr_hc _ _ _ _ _ _ _ _ R). change (ms_close src) with (getC v).
  rewrite hc_calculate by (apply (gr_1 _ _ _ _ _ _ _ _ R) || apply (gr_2 _ _ _ _ _ _ _ _ R) || apply (gr_3 _ _ _ _ _ _ _ _ R)).
  set (a1 := ewma_next H1 v) in *. set (a2 := ewma_next H2 a1) in *. set (a3 := ewma_next H3 a2) in *.
  set (pen := ewma alpha (column 0 H3)) in *.
  pose proof (trix_out_fault m a3 pen) as Hf.
  destruct (trix_out m a3 pen) as [w|] eqn:Ew, (trix_opt a3 pen) as [w'|] eqn:Ew', (push_list pad (trix g) [q3]) as [[e4 o4]|];
    try done; [|simpl in *; congruence].
  destruct S4 as [I4 (o & Ho & Hdo)]. cbn [fst snd] in *. res_simpl. split.
  - exists o. split; [done|]. exists w, ts. split; [done|].
    destruct m; [by exists a3, pen, w'|by rewrite Hf|by exists a3, pen, w'].
  - unfold update_type_of, mode_after, committed in *. rewrite Hty in *. cbn [fst snd].
    destruct Ht as [Ht|Ht]; rewrite Ht in *; cbn [SourceSplit.new_type] in *.
    + rewrite decide_True in I1, I2, I3, I4 by done. rewrite !decide_True by done. exists ([v] :: H1), ([a1] :: H2), ([a2] :: H3), ([a3] :: H4).
      constructor; cbn [tstamp split_1 ewma_1 ewma_2 ewma_3 trix]; try done; [by right].
    + rewrite decide_False in I1, I2, I3, I4 by done. rewrite !decide_False by done. exists H1, H2, H3, H4.
      constructor; cbn [tstamp split_1 ewma_1 ewma_2 ewma_3 trix]; try done; apply R.
Qed.

(** Source packets with increasing time stamps, and the updates they stand for. *)
Fixpoint sources_ok (ts : Z) (ps : list (Z * Packet)) (us : list (UpdateType * Z)) : Prop :=
  match ps, us with
  | [], [] => True
  | np :: ps, u :: us =>
      exists src, (pk_app_type np.2 = MSG_ADD_SOURCE \/ pk_app_type np.2 = MSG_UPDATE_SOURCE) /\
        decode_MsgSource (pk_data np.2) = Ok src /\
        ts < stamped np.1 np.2 src /\ in_u 64 (stamped np.1 np.2 src) /\
        u = (update_type_of (pk_app_type np.2), ms_close src) /\
        sources_ok (stamped np.1 np.2 src) ps us
  | _, _ => False
  end.

(** One output per source packet, each in agreement. *)
Fixpoint outs_agree (m : OpMode) (ps : list (Z * Packet)) (outs : list Packet) (zs : list Z) : Prop :=
  match ps, outs, zs with
  | [], [], [] => True
  | np :: ps, o :: outs, z :: zs =>
      out_agrees m o z /\ outs_agree (mode_after (pk_app_type np.2) m) ps outs zs
  | _, _, _ => False
  end.

Lemma graph_simulation g t ts0 m H1 H2 H3 H4 ps us :
  graph_rel g t ts0 m H1 H2 H3 H4 -> sources_ok ts0 ps us ->
  res_rel (fun r s => outs_agree m ps r.2 s.2) (graph_run pad ps g) (trix_run us t).
Proof using Hpad Hcap.
  revert g t ts0 m H1 H2 H3 H4 us. induction ps as [|[now p] ps IH]; intros g t ts0 m H1 H2 H3 H4 [|u us] R Hok; try done.
  destruct Hok as (src & Hty & Hd & Hts & Hu & -> & Hok). cbn [graph_run trix_run fst snd] in *.
  eapply res_rel_bind; [by eapply graph_step|]. intros [g1 o1] [t1 z] [(o & Ho & Ha) (K1 & K2 & K3 & K4 & R1)].
  cbn [fst snd] in *. subst o1. eapply res_rel_bind; [by eapply IH|]. intros [g2 os] [t2 zs] Hos. by split.
Qed.

(** *** Start-up *)

#[local] Opaque fixedptc.fixedpt_div fixedptc.fixedpt_fromint i64.

Definition new_ewma : EwmaIncremental.EwmaIncremental :=
  EwmaIncremental.mkEwma [CacheStruct_new; CacheStruct_new] alpha.
Definition idle_ewma : Ewma := (configure 1 (Some (Z.of_nat cap, 2)) (IndicatorBase_new new_ewma)).1.
Definition idle_trix : IndicatorBase Trix.Trix :=
  (configure 1 (Some (Z.of_nat cap, 2)) (IndicatorBase_new Trix.Trix_new)).1.

Lemma idle_ewma_ok : idle (E:=EwmaIncremental.EwmaIncremental) cap idle_ewma STARTUP alpha.
Proof.
  assert (He : elem_ok new_ewma) by (split; [done|]; repeat constructor; apply CacheStruct_new_wf).
  exact (idle_configured new_ewma cap 2 He (Nat.lt_0_succ 0)).
Qed.

Lemma idle_trix_ok : idle (E:=Trix.Trix) cap idle_trix STARTUP tt.
Proof.
  assert (He : elem_ok Trix.Trix_new) by (split; [done|]; repeat constructor; apply CacheStruct_new_wf).
  exact (idle_configured Trix.Trix_new cap 2 He (Nat.lt_0_succ 0)).
Qed.

Lemma graph_alpha n g periods :
  TrixGraph_new periods n = Ok g ->
  exists alpha, div (fromInt 2) (add (fromInt periods) (fromInt 1)) = Ok alpha.
Proof.
  unfold TrixGraph_new, EwmaIncremental.configure. intros Hg.
  destruct (div _ _) as [a|]; [by exists a|done].
Qed.

Lemma graph_new g periods :
  div (fromInt 2) (add (fromInt periods) (fromInt 1)) = Ok alpha -> TrixGraph_new periods cap = Ok g ->
  g = mkGraph Timestamper.Timestamper_new close_split idle_ewma idle_ewma idle_ewma idle_trix.
Proof.
  intros Ha Hg. unfold TrixGraph_new, EwmaIncremental.configure in Hg. rewrite Ha in Hg.
  cbn [mbind res_bind fst snd] in Hg. by injection Hg as <-.
Qed.

Lemma trix_new t periods :
  div (fromInt 2) (add (fromInt periods) (fromInt 1)) = Ok alpha -> TrixHc.Trix_new periods = Ok t ->
  t = let e := EwmaHc.set_alfa (getC alpha) EwmaHc.EwmaHc_new in TrixHc.mkTrix e e e.
Proof.
  intros Ha Ht. unfold TrixHc.Trix_new, alfa_of_periods, Fx.div in Ht. unfold div in Ha.
  change (fixedptc.fixedpt_div (Fx.fromInt 2) _) with
    (fixedptc.fixedpt_div (_value (fromInt 2)) (_value (add (fromInt periods) (fromInt 1)))) in Ht.
  destruct (fixedptc.fixedpt_div _ _); [|done]. injection Ha as <-. by injection Ht as <-.
Qed.

(** The first value goes through an averaging element unchanged. *)
Lemma init_stage q v ts :
  pk_app_type q = MSG_INIT -> decode_MsgValue (pk_data q) = Ok (mkMsgValue v ts) ->
  get_valid v = true -> wf_fpt v -> 0 < ts -> in_u 64 ts ->
  exists ib', push_list pad idle_ewma [q] = Ok (ib', [result_packet pad q v ts]) /\
    ewma_inv ib' ts (STARTUP, [[v]]) /\ pk_app_type (result_packet pad q v ts) = MSG_INIT /\
    decode_MsgValue (pk_data (result_packet pad q v ts)) = Ok (mkMsgValue v ts).
Proof using Hpad Hcap.
  intros Hq Hd Hv Hwf Hts Hu.
  assert (H1 : nports (E:=EwmaIncremental.EwmaIncremental) = 1%nat) by reflexivity.
  destruct (init_one H1 pad Hpad cap Hcap alpha idle_ewma STARTUP q v ts
    idle_ewma_ok Hq Hd Hts Hv) as (ib' & E & Hinv).
  exists ib'. split_and!; [done|done|done|by apply result_packet_decode].
Qed.

Lemma graph_init g t periods p src now :
  TrixGraph_new periods cap = Ok g -> TrixHc.Trix_new periods = Ok t ->
  div (fromInt 2) (add (fromInt periods) (fromInt 1)) = Ok alpha ->
  pk_app_type p = MSG_INIT_SOURCE -> decode_MsgSource (pk_data p) = Ok src ->
  0 < ms_timestamp src -> in_u 64 (ms_timestamp src) ->
  exists g1 o, graph_push pad now now p g = Ok (g1, [o]) /\
    exists H1 H2 H3 H4,
      graph_rel g1 (TrixHc.initialize (ms_close src) t) (ms_timestamp src) STARTUP H1 H2 H3 H4.
Proof using Hpad Hcap.
  intros Hg Ht Ha Hty Hd Hts Hu. rewrite (graph_new g periods Ha Hg), (trix_new t periods Ha Ht).
  assert (Hst : stamped now p src = ms_timestamp src) by (unfold stamped; by rewrite Hty).
  destruct (front_stage now p src) as (p1 & p2 & E1 & E2 & Hty2 & Hd2); [by left|done|by rewrite Hst|].
  rewrite Hst in Hd2. rewrite Hty in Hty2. cbn [SourceSplit.new_type] in Hty2.
  set (v := fromC (ms_close src)) in *. set (ts := ms_timestamp src) in *.
  assert (Hwf : wf_fpt v) by (by eapply decode_source_range).
  destruct (init_stage p2 v ts) as (e1 & S1 & I1 & T1 & D1); try done.
  destruct (init_stage _ v ts T1 D1) as (e2 & S2 & I2 & T2 & D2); try done.
  destruct (init_stage _ v ts T2 D2) as (e3 & S3 & I3 & T3 & D3); try done.
  assert (H1 : nports (E:=Trix.Trix) = 1%nat) by reflexivity.
  destruct (init_one H1 pad Hpad cap Hcap tt idle_trix STARTUP _ v ts idle_trix_ok T3 D3 Hts eq_refl)
    as (e4 & S4 & I4).
  unfold graph_push. cbn [tstamp split_1 ewma_1 ewma_2 ewma_3 trix]. rewrite E1. res_simpl. cbn [fst snd].
  rewrite E2. res_simpl. change (output_0 [(0, p2)]) with [p2].
  rewrite S1. res_simpl. cbn [fst snd]. rewrite S2. res_simpl. cbn [fst snd]. rewrite S3. res_simpl. cbn [fst snd].
  rewrite S4. res_simpl. eexists _, _. split; [done|]. exists [[v]], [[v]], [[v]], [[v]].
  constructor; cbn [tstamp split_1 ewma_1 ewma_2 ewma_3 trix]; try done; by left.
Qed.
End chain.

Module TrixGraphProps.

(** C2: The Click TRIX graph computes what the baseline's TRIX computes.  Both
    configured with the same period, initialised by the same first message and
    driven by the same UPDATE and ADD source messages (with increasing time
    stamps), they fault together -- on a division by an average of zero -- or
    produce one value per message: equal bit for bit after the first ADD, and
    until then the two roundings of the same quotient. *)
Theorem trix_graph_agrees pad periods cap g t p0 src0 now0 ps us
  (Hpad : length pad = 7%nat) (Hcap : (2 <= cap)%nat)
  (Hg : TrixGraph_new periods cap = Ok g) (Ht : TrixHc.Trix_new periods = Ok t)
  (Hty : pk_app_type p0 = MSG_INIT_SOURCE) (Hd : decode_MsgSource (pk_data p0) = Ok src0)
  (Hts : 0 < ms_timestamp src0) (Hu : in_u 64 (ms_timestamp src0))
  (Hps : sources_ok (ms_timestamp src0) ps us) :
  exists g1 o0, graph_push pad now0 now0 p0 g = Ok (g1, [o0]) /\
    res_rel (fun r s => outs_agree STARTUP ps r.2 s.2)
      (graph_run pad ps g1) (trix_run us (TrixHc.initialize (ms_close src0) t)).
Proof.
  destruct (graph_alpha _ _ _ Hg) as [alpha Ha].
  destruct (graph_init pad Hpad cap Hcap alpha g t periods p0 src0 now0 Hg Ht Ha Hty Hd Hts Hu)
    as (g1 & o & E & H1 & H2 & H3 & H4 & R).
  exists g1, o. split; [done|]. by eapply graph_simulation.
Qed.

Definition demo_source (t : PacketAppType) (close ts : Z) : Packet :=
  mkPacket t (encode_MsgSource (mkMsgSource (close * 2 ^ 40) 0 0 0 ts 0) ++ [0]).
Definition demo_sources : list (Z * Packet) :=
  [(20, demo_source MSG_UPDATE_SOURCE 101 0); (25, demo_source MSG_ADD_SOURCE 102 30);
   (40, demo_source MSG_UPDATE_SOURCE 103 0)].
Definition demo_updates : list (UpdateType * Z) :=
  [(UPDATE, 101 * 2 ^ 40); (ADD, 102 * 2 ^ 40); (UPDATE, 103 * 2 ^ 40)].

Lemma trix_graph_agrees_witness :
  exists g t g1 o0, TrixGraph_new 13 13 = Ok g /\ TrixHc.Trix_new 13 = Ok t /\
    graph_push (replicate 7 0) 5 5 (demo_source MSG_INIT_SOURCE 100 10) g = Ok (g1, [o0]) /\
    res_rel (fun r s => outs_agree STARTUP demo_sources r.2 s.2)
      (graph_run (replicate 7 0) demo_sources g1)
      (trix_run demo_updates (TrixHc.initialize (100 * 2 ^ 40) t)).
Proof.
  destruct (TrixGraph_new 13 13) as [g|] eqn:Eg; [|vm_compute in Eg; discriminate Eg].
  destruct (TrixHc.Trix_new 13) as [t|] eqn:Et; [|vm_compute in Et; discriminate Et].
  destruct (trix_graph_agrees (replicate 7 0) 13 13 g t (demo_source MSG_INIT_SOURCE 100 10)
    (mkMsgSource (100 * 2 ^ 40) 0 0 0 10 0) 5 demo_sources demo_updates) as (g1 & o0 & E & Hrun).
  - reflexivity.
  - lia.
  - exact Eg.
  - exact Et.
  - reflexivity.
  - vm_compute. reflexivity.
  - cbn. lia.
  - cbn. zrange.
  - eexists. split; [by right|]. split; [vm_compute; reflexivity|]. split; [vm_compute; reflexivity|].
    split; [vm_compute; split; congruence|]. split; [reflexivity|].
    eexists. split; [by left|]. split; [vm_compute; reflexivity|]. split; [vm_compute; reflexivity|].
    split; [vm_compute; split; congruence|]. split; [reflexivity|].
    eexists. split; [by right|]. split; [vm_compute; reflexivity|]. split; [vm_compute; reflexivity|].
    split; [vm_compute; split; congruence|]. split; [reflexivity|]. exact I.
  - exists g, t, g1, o0. split; [done|]. split; [done|]. split; [exact E|exact Hrun].
Defined.

End TrixGraphProps.
