(* ===== verification/Stepping.v ===== *)
(** * Stepping: one round of a concrete network

    Lemmas and a tactic that evaluate [flow] on a network whose wiring is known
    and whose values and histories are variables.  Shared by the graphs. *)

From S2P Require Import Prelude FixedPt CircArray Messages Buffers IndicatorBase IndicatorLaws.
From S2P Require Import Smoothing Directional Ratios IndicatorProps AdLine Parsing Sources.
From S2P Require Import HandCoded Router Dataflow Propagation RouterProps Typing.
Import FPt Buffers BuffersFacts IndicatorBase Router.

(** The status after a round: an ADD commits the values. *)
Definition advance (t : PacketAppType) (m : OpMode) (H : history) (vs : list FixedPt) : status :=
  if decide (t = MSG_ADD) then Live (match m with STARTUP => NORMAL | _ => m end) (vs :: H) else Live m H.

Lemma step_live k (P : par (E:=kstate k)) cap m H vs t v :
  t <> MSG_INIT -> spec_out P cap m H vs = Ok v ->
  node_step t (NInd k P cap (Live m H)) vs = Ok (NInd k P cap (advance t m H vs), [(0, v)]).
Proof.
  intros Ht Hv. unfold node_step, spec_step, advance. rewrite decide_False by done. rewrite Hv. res_simpl.
  by destruct (decide _).
Qed.

(** Both modes of an exact class. *)
Lemma step_exact k (P : par (E:=kstate k)) cap m H vs t v :
  t <> MSG_INIT -> k <> KEwma -> k <> KTrix -> out_opt P cap H vs = Ok v ->
  node_step t (NInd k P cap (Live m H)) vs = Ok (NInd k P cap (advance t m H vs), [(0, v)]).
Proof. intros Ht H1 H2 Hv. apply step_live; [done|]. rewrite <- Hv. by destruct k, m. Qed.

Lemma step_first k (P : par (E:=kstate k)) cap m vs t :
  get_valid (out_init P vs) = true ->
  node_step t (NInd k P cap (Idle m)) vs = Ok (NInd k P cap (Live m [vs]), [(0, out_init P vs)]).
Proof. intros Hv. cbn [node_step]. by rewrite Hv. Qed.

Lemma flow_nil hookup t j a : flow hookup t j [] a = Ok ([], []).
Proof. done. Qed.

Lemma flow_fire hookup t j n ns a vs n' o ns' os :
  mapM id (gather a j (arity n)) = Some vs -> vs <> [] -> node_step t n vs = Ok (n', o) ->
  flow hookup t (S j) ns (connect hookup j o ++ a) = Ok (ns', os) ->
  flow hookup t j (n :: ns) a = Ok (n' :: ns', o :: os).
Proof.
  intros Hg Hvs Hs Hf. cbn [flow]. assert (node_flow t j n a = Ok (n', o)) as ->.
  { unfold node_flow. rewrite Hg. destruct (forallb _ _) eqn:E; [|done]. exfalso.
    destruct (gather a j (arity n)) as [|[x|] l]; [|done|done]. by injection Hg as <-. }
  res_simpl. cbn [fst snd]. by rewrite Hf.
Qed.

Lemma flow_skip hookup t j n ns a ns' os :
  forallb (fun o => negb (is_in o)) (gather a j (arity n)) = true -> skippable n = true ->
  flow hookup t (S j) ns a = Ok (ns', os) -> flow hookup t j (n :: ns) a = Ok (n :: ns', [] :: os).
Proof.
  intros Hg Hs Hf. cbn [flow]. unfold node_flow. rewrite Hg, Hs. res_simpl. cbn [fst snd connect app]. by rewrite Hf.
Qed.

(** [fire] proves the [node_step] of a node that receives its inputs. *)
Ltac flow_tac fire :=
  repeat (cbn [connect app target target_in Nat.eqb andb Z.eqb fst snd Pos.eqb]; first
    [ apply flow_nil
    | eapply flow_skip; [reflexivity|reflexivity|]
    | eapply flow_fire; [cbn; reflexivity|done|fire|] ]).

Ltac fire_tac :=
  first [ apply step_exact; [assumption|done|done|reflexivity]
        | apply step_first; first [reflexivity|assumption|apply ratio_valid]
        | reflexivity ].

(** ** Words of the baseline *)

Lemma fx_ratio a b z : Fx.div (getC a) (getC b) = Ok z -> ratio a b = fromC z.
Proof.
  unfold Fx.div, fixedptc.fixedpt_div, ratio. destruct (getC b =? 0); [done|]. intros [= <-].
  by rewrite Z.shiftl_mul_pow2.
Qed.

Lemma fx_abs x : getC (fpt_abs x) = Fx.abs (getC x).
Proof. unfold fpt_abs, Fx.abs, Fx.getC, getC. by destruct (_ <? _). Qed.

Lemma fx_max x y : getC (NewTrueRange.fpt_max x y) = Fx.max (getC x) (getC y).
Proof. unfold NewTrueRange.fpt_max, Fx.max, gt, Fx.gt, Fx.getC, getC. by destruct (_ <? _). Qed.

(** The update type the baseline is called with. *)
Definition update_of (t : PacketAppType) : UpdateType := if decide (t = MSG_ADD_SOURCE) then ADD else UPDATE.

(** The results of UPDATE messages. *)
Definition of_updates {A} (ms : list (PacketAppType * MsgSource)) (zs : list A) : list A :=
  map snd (filter (fun mz => mz.1.1 = MSG_UPDATE_SOURCE) (zip ms zs)).

Lemma of_updates_cons {A} m ms (z : A) zs :
  of_updates (m :: ms) (z :: zs) =
  (if decide (m.1 = MSG_UPDATE_SOURCE) then [z] else []) ++ of_updates ms zs.
Proof. unfold of_updates. cbn [zip zip_with]. rewrite filter_cons. cbn [fst]. by destruct (decide _). Qed.

(** ** Later messages and the printer *)

Lemma later_add t : later t ->
  (t = MSG_ADD_SOURCE /\ SourceSplit.new_type t = MSG_ADD) \/ (t = MSG_UPDATE_SOURCE /\ SourceSplit.new_type t = MSG_UPDATE).
Proof. intros [-> | ->]; auto. Qed.

Lemma later_not_init t : later t -> SourceSplit.new_type t <> MSG_INIT.
Proof. by intros [-> | ->]. Qed.

Definition stats_after (t : PacketAppType) (stats : list FixedPt) (v : FixedPt) : list FixedPt :=
  if decide (t = MSG_UPDATE) then take 4999 (stats ++ [v]) else stats.

Lemma take_take_app {A} n (a l : list A) : take n (take n a ++ l) = take n (a ++ l).
Proof.
  destruct (decide (length a <= n)%nat) as [Ha|Ha]; [by rewrite (firstn_all2 a)|].
  rewrite take_app_le by (rewrite length_take; lia). rewrite (take_app_le a) by lia. by rewrite take_take, Nat.min_id.
Qed.

Lemma stats_after_run t stats x l :
  later t ->
  take 4999 (stats_after (SourceSplit.new_type t) stats x ++ l) =
  take 4999 (stats ++ (if decide (t = MSG_UPDATE_SOURCE) then [x] else []) ++ l).
Proof.
  intros [-> | ->]; unfold stats_after.
  - rewrite !decide_True by done. by rewrite take_take_app, <- app_assoc.
  - by rewrite !decide_False by done.
Qed.

Lemma stats_after_length t stats x : (length stats <= 4999)%nat -> (length (stats_after t stats x) <= 4999)%nat.
Proof. intros Hl. unfold stats_after. destruct (decide _); [|done]. rewrite length_take. lia. Qed.
