(* ===== verification/VortexGraph.v ===== *)
(** * VortexGraph: the Vortex graph of Click and the baseline's Vortex

    The network of vortex_opt.click and vortex_naive.click, stepped against
    hand_coded/vortex.cpp: driven by the same source messages, the packets of
    [viu] and the values recorded from [vid] are the numbers the baseline
    returns. *)

From S2P Require Import Prelude FixedPt CircArray Messages Buffers IndicatorBase IndicatorLaws.
From S2P Require Import Smoothing Directional Ratios IndicatorProps AdLine Parsing Sources SourceProps.
From S2P Require Import HandCoded Router Configs Dataflow Propagation RouterProps Typing Stepping.
Import FPt CircArray CircArrayFacts Buffers BuffersFacts IndicatorBase Router.

(** ** The baseline's sums *)
Import SumRingBuffer.

(** Everything pushed so far, newest first; [n] values are kept. *)
Definition ring_rel (n : nat) (s : SumRingBuffer) (l : list Z) : Prop :=
  _initialized s = negb (length l =? 0)%nat /\ repr (_ring_buffer s) n (reverse (take n l)) /\
  _last_sum s = i64 (zsum (take n l)).

Lemma ring_rel_new n : ring_rel n (SumRingBuffer_new n) [].
Proof. split; [done|]. split; [rewrite take_nil; apply repr_new|by rewrite take_nil]. Qed.

Lemma sum_loop_spec rb cap pre l z :
  repr rb cap (pre ++ l) -> sum_loop (length l) (length pre) rb (i64 z) = Ok (i64 (z + zsum l)).
Proof.
  revert pre z. induction l as [|x l IH]; intros pre z Hr; cbn [length sum_loop].
  - unfold zsum. cbn [foldr]. by rewrite Z.add_0_r.
  - rewrite (repr_get _ _ _ _ Hr), lookup_app_r by lia. rewrite Nat.sub_diag. cbn [lookup list_lookup of_option mbind res_bind].
    assert (E : Fx.add (i64 z) x = i64 (z + x)) by (unfold Fx.add, fixedptc.fixedpt_add, i64; by autorewrite with wrap).
    rewrite E. specialize (IH (pre ++ [x]) (z + x)). rewrite length_app in IH. cbn [length] in IH.
    rewrite Nat.add_1_r in IH. rewrite IH by (by rewrite <- app_assoc). unfold zsum. cbn [foldr]. by rewrite Z.add_assoc.
Qed.

Lemma zsum_reverse l : zsum (reverse l) = zsum l.
Proof.
  induction l as [|x l IH]; [done|]. rewrite reverse_cons, zsum_app, IH. unfold zsum. cbn [foldr]. lia.
Qed.

Lemma ring_push n s l x :
  (0 < n)%nat -> ring_rel n s l -> exists s', push_back_new_value x s = Ok s' /\ ring_rel n s' (x :: l).
Proof.
  intros Hn (_ & Hr & _). destruct (repr_push_back _ _ _ x Hr Hn) as (a & E & Ha).
  rewrite reverse_involutive in Ha.
  assert (Ht : take n (x :: take n l) = take n (x :: l)).
  { destruct n as [|n]; [lia|]. cbn [take]. f_equal. rewrite take_take. f_equal. lia. }
  rewrite Ht in Ha. unfold push_back_new_value. rewrite E. res_simpl. cbn [fst].
  destruct (repr_length _ _ _ Ha) as [Hl _]. unfold occupancy. rewrite <- Hl.
  change (Fx.fromInt 0) with (i64 0).
  pose proof (sum_loop_spec a n [] _ 0 Ha) as Hs. cbn [length] in Hs. rewrite Hs. res_simpl.
  eexists. split; [done|]. split; [done|]. split; [done|]. cbn [_last_sum]. by rewrite zsum_reverse.
Qed.

(** A sum and one value more, on both sides. *)
Lemma window_total n s l x :
  ring_rel n s (map getC l) -> l <> [] -> (0 < n)%nat ->
  getC (window_sum (take (S n) (x :: l))) = Fx.add (get_total_sum s) (getC x).
Proof.
  intros (_ & _ & Hs) Hne Hn. unfold get_total_sum. rewrite Hs. cbn [take].
  rewrite window_sum_val.
  - cbn [map getC fromC _value]. unfold Fx.add, fixedptc.fixedpt_add, i64, zsum. cbn [foldr].
    autorewrite with wrap. f_equal. rewrite Z.add_comm. f_equal. f_equal. by rewrite <- firstn_map.
  - destruct l as [|y l]; [done|]. destruct n as [|n]; [lia|]. simpl. lia.
Qed.

(** Doubling both terms of a quotient. *)
Lemma fx_div_double x y :
  - 2 ^ 62 <= x < 2 ^ 62 -> - 2 ^ 62 <= y < 2 ^ 62 -> Fx.div (Fx.add x x) (Fx.add y y) = Fx.div x y.
Proof.
  intros Hx Hy. unfold Fx.div, Fx.add, fixedptc.fixedpt_add, fixedptc.fixedpt_div.
  rewrite (i64_id (x + x)), (i64_id (y + y)) by zrange. destruct (Z.eqb_spec y 0) as [->|Hy0]; [done|].
  rewrite (proj2 (Z.eqb_neq _ _)) by lia. rewrite !Z.shiftl_mul_pow2 by done.
  replace ((x + x) * 2 ^ fixedptc.FIXEDPT_FBITS) with (x * 2 ^ fixedptc.FIXEDPT_FBITS * 2) by ring.
  replace (y + y) with (y * 2) by ring. by rewrite Z.quot_mul_cancel_r.
Qed.

(** ** The network *)

Definition vortex_hookup : connections := Eval vm_compute in hookup vortex_opt.
Definition hlc_split : SourceSplit.SourceSplit := SourceSplit.mkSplit 2 0 1 (-1) (-1).

Definition vortex_nodes (vmu vmd tr sum_vmu sum_vmd sum_tr viu vid : status) (stats : list FixedPt) : list node :=
  [NFront; NFront; NTee 3; NTee 3;
   NInd KVmu tt 10 vmu; NInd KVmd tt 10 vmd; NInd KNewTrueRange tt 10 tr;
   NInd KSum tt 13 sum_vmu; NInd KSum tt 13 sum_vmd; NInd KSum tt 13 sum_tr; NTee 2;
   NInd KViu tt 10 viu; NInd KVid tt 10 vid; NPrinter stats; NDiscard].

(** What the first elements compute from a message and the one before. *)
Definition vmu_of (src prev : MsgSource) : FixedPt := fpt_abs (sub (fromC (ms_high src)) (fromC (ms_low prev))).
Definition vmd_of (src prev : MsgSource) : FixedPt := fpt_abs (sub (fromC (ms_low src)) (fromC (ms_high prev))).
Definition tr_of (src prev : MsgSource) : FixedPt :=
  NewTrueRange.calculate_tr (fromC (ms_low src)) (fromC (ms_high src)) (fromC (ms_close prev)).

Definition hl (src : MsgSource) : list FixedPt := [fromC (ms_high src); fromC (ms_low src)].
Definition hlc (src : MsgSource) : list FixedPt := hl src ++ [fromC (ms_close src)].

Lemma vmu_valid src prev : get_valid (vmu_of src prev) = true. Proof. by apply abs_valid. Qed.
Lemma vmd_valid src prev : get_valid (vmd_of src prev) = true. Proof. by apply abs_valid. Qed.
Lemma tr_valid src prev : get_valid (tr_of src prev) = true.
Proof. by apply max_valid; [|apply max_valid]. Qed.

Lemma step_vmu cap m H src prev t :
  t <> MSG_INIT -> hd [] H = hl prev ->
  node_step t (NInd KVmu tt cap (Live m H)) (hl src) = Ok (NInd KVmu tt cap (advance t m H (hl src)), [(0, vmu_of src prev)]).
Proof. intros Ht Hh. apply step_exact; [done|done|done|]. cbn. by rewrite Hh. Qed.

Lemma step_vmd cap m H src prev t :
  t <> MSG_INIT -> hd [] H = hl prev ->
  node_step t (NInd KVmd tt cap (Live m H)) (hl src) = Ok (NInd KVmd tt cap (advance t m H (hl src)), [(0, vmd_of src prev)]).
Proof. intros Ht Hh. apply step_exact; [done|done|done|]. cbn. by rewrite Hh. Qed.

Lemma step_tr cap m H src prev t :
  t <> MSG_INIT -> hd [] H = hlc prev ->
  node_step t (NInd KNewTrueRange tt cap (Live m H)) (hlc src) =
  Ok (NInd KNewTrueRange tt cap (advance t m H (hlc src)), [(0, tr_of src prev)]).
Proof. intros Ht Hh. apply step_exact; [done|done|done|]. cbn. by rewrite Hh. Qed.

Lemma fx_vmu src prev : getC (vmu_of src prev) = Fx.abs (Fx.sub (ms_high src) (ms_low prev)).
Proof. apply fx_abs. Qed.
Lemma fx_vmd src prev : getC (vmd_of src prev) = Fx.abs (Fx.sub (ms_low src) (ms_high prev)).
Proof. apply fx_abs. Qed.
Lemma fx_tr src prev :
  getC (tr_of src prev) = Fx.max (Fx.sub (ms_close prev) (ms_low src))
    (Fx.max (Fx.sub (ms_high src) (ms_low src)) (Fx.sub (ms_high src) (ms_close prev))).
Proof. unfold tr_of, NewTrueRange.calculate_tr. by rewrite !fx_max. Qed.

#[local] Opaque vmu_of vmd_of tr_of.

Ltac vortex_fire :=
  first [ apply step_vmu; eassumption | apply step_vmd; eassumption | apply step_tr; eassumption
        | apply step_first; first [apply vmu_valid|apply vmd_valid|apply tr_valid]
        | fire_tac ].

Definition vortex_round (t : PacketAppType) (src : MsgSource) (ns : list node) :=
  flow vortex_hookup t 0 ns (connect vortex_hookup 1 (split_values hlc_split src)).

Lemma vortex_init m src stats :
  exists os, vortex_round MSG_INIT src
    (vortex_nodes (Idle m) (Idle m) (Idle m) (Idle m) (Idle m) (Idle m) (Idle m) (Idle m) stats) =
  Ok (vortex_nodes (Live m [hl src]) (Live m [hl src]) (Live m [hlc src])
        (Idle m) (Idle m) (Idle m) (Idle m) (Idle m) stats, os).
Proof.
  eexists. unfold vortex_round, vortex_nodes, vortex_hookup. cbn [split_values hlc_split flat_map app fst snd Z.ltb Z.compare].
  flow_tac fire_tac.
Qed.

Lemma vortex_first m t src prev H1 H2 H3 stats :
  t <> MSG_INIT -> hd [] H1 = hl prev -> hd [] H2 = hl prev -> hd [] H3 = hlc prev ->
  let u := vmu_of src prev in let d := vmd_of src prev in let r := tr_of src prev in
  exists os, vortex_round t src
    (vortex_nodes (Live m H1) (Live m H2) (Live m H3) (Idle m) (Idle m) (Idle m) (Idle m) (Idle m) stats) =
  Ok (vortex_nodes (advance t m H1 (hl src)) (advance t m H2 (hl src)) (advance t m H3 (hlc src))
        (Live m [[u]]) (Live m [[d]]) (Live m [[r]]) (Live m [[u; r]]) (Live m [[d; r]])
        (stats_after t stats (ratio d r)), os) /\ os !! 11%nat = Some [(0, ratio u r)].
Proof.
  intros Ht E1 E2 E3 u d r. eexists. unfold vortex_round, vortex_nodes, vortex_hookup.
  cbn [split_values hlc_split flat_map app fst snd Z.ltb Z.compare]. split.
  - flow_tac vortex_fire.
  - reflexivity.
Qed.

Lemma vortex_step t src prev m1 m2 m3 m4 m5 m6 m7 m8 H1 H2 H3 SU SD SR H7 H8 stats :
  t <> MSG_INIT -> hd [] H1 = hl prev -> hd [] H2 = hl prev -> hd [] H3 = hlc prev ->
  let u := vmu_of src prev in let d := vmd_of src prev in let r := tr_of src prev in
  let su := window_sum (take 13 (u :: column 0 SU)) in
  let sd := window_sum (take 13 (d :: column 0 SD)) in
  let sr := window_sum (take 13 (r :: column 0 SR)) in
  exists os, vortex_round t src
    (vortex_nodes (Live m1 H1) (Live m2 H2) (Live m3 H3) (Live m4 SU) (Live m5 SD) (Live m6 SR)
       (Live m7 H7) (Live m8 H8) stats) =
  Ok (vortex_nodes (advance t m1 H1 (hl src)) (advance t m2 H2 (hl src)) (advance t m3 H3 (hlc src))
        (advance t m4 SU [u]) (advance t m5 SD [d]) (advance t m6 SR [r])
        (advance t m7 H7 [su; sr]) (advance t m8 H8 [sd; sr])
        (stats_after t stats (ratio sd sr)), os) /\ os !! 11%nat = Some [(0, ratio su sr)].
Proof.
  intros Ht E1 E2 E3 u d r su sd sr. eexists. unfold vortex_round, vortex_nodes, vortex_hookup.
  cbn [split_values hlc_split flat_map app fst snd Z.ltb Z.compare]. split.
  - flow_tac vortex_fire.
  - reflexivity.
Qed.

(** ** The simulation *)
Import Vortex.

(** The baseline remembers the prices of [prev]. *)
Definition remembers (v : Vortex) (prev : MsgSource) : Prop :=
  _prev_close v = ms_close prev /\ _prev_high v = ms_high prev /\ _prev_low v = ms_low prev.

Definition rings (v : Vortex) (lu ld lr : list Z) : Prop :=
  ring_rel 12 (_vmu_sum v) lu /\ ring_rel 12 (_vmd_sum v) ld /\ ring_rel 12 (_tr_sum v) lr.

Lemma push_sums_spec v lu ld lr xu xd xr :
  rings v lu ld lr -> exists v', push_sums xu xd xr v = Ok v' /\ rings v' (xu :: lu) (xd :: ld) (xr :: lr) /\
    _prev_close v' = _prev_close v /\ _prev_high v' = _prev_high v /\ _prev_low v' = _prev_low v.
Proof.
  intros (Hu & Hd & Hr). unfold push_sums.
  destruct (ring_push 12 _ _ xu (Nat.lt_0_succ 11) Hu) as (su & -> & Hu').
  destruct (ring_push 12 _ _ xd (Nat.lt_0_succ 11) Hd) as (sd & -> & Hd').
  destruct (ring_push 12 _ _ xr (Nat.lt_0_succ 11) Hr) as (sr & -> & Hr').
  res_simpl. eexists. split; [done|]. by split.
Qed.

(** One call of the baseline, from the sums [v1] it divides. *)
Lemma calculate_spec src prev t v v1 lu ld lr r :
  let u := getC (vmu_of src prev) in let d := getC (vmd_of src prev) in let x := getC (tr_of src prev) in
  remembers v prev ->
  (if bool_decide (update_of t = UPDATE) && negb (is_initialized (_vmu_sum v)) then push_sums u d x v else Ok v) = Ok v1 ->
  rings v1 lu ld lr -> remembers v1 prev ->
  calculate_value (ms_close src) (ms_high src) (ms_low src) (update_of t) v = Ok r ->
  exists zu zd v', r = (v', (zu, zd)) /\
    Fx.div (Fx.add (get_total_sum (_vmu_sum v1)) u) (Fx.add (get_total_sum (_tr_sum v1)) x) = Ok zu /\
    Fx.div (Fx.add (get_total_sum (_vmd_sum v1)) d) (Fx.add (get_total_sum (_tr_sum v1)) x) = Ok zd /\
    if decide (t = MSG_ADD_SOURCE) then rings v' (u :: lu) (d :: ld) (x :: lr) /\ remembers v' src
    else v' = v1.
Proof.
  intros u d x (Hc & Hh & Hl) Hv1 Hr Hm1. unfold calculate_value. rewrite Hc, Hh, Hl, <- fx_vmu, <- fx_vmd, <- fx_tr.
  fold u d x. rewrite Hv1. res_simpl.
  destruct (Fx.div (Fx.add (get_total_sum (_vmu_sum v1)) u) _) as [zu|]; [|done]. res_simpl.
  destruct (Fx.div (Fx.add (get_total_sum (_vmd_sum v1)) d) _) as [zd|]; [|done]. res_simpl.
  unfold update_of. destruct (decide (t = MSG_ADD_SOURCE)).
  - destruct (push_sums_spec v1 lu ld lr u d x Hr) as (v' & -> & Hr' & _). res_simpl. intros [= <-].
    eexists zu, zd, _. split; [done|]. by split_and!.
  - intros [= <-]. by eexists zu, zd, _.
Qed.

Inductive vortex_rel (v : Vortex) (stats : list FixedPt) : list node -> Prop :=
| vortex_rel_live m1 m2 m3 m4 m5 m6 m7 m8 H1 H2 H3 SU SD SR H7 H8 prev :
    hd [] H1 = hl prev -> hd [] H2 = hl prev -> hd [] H3 = hlc prev -> remembers v prev ->
    rings v (map getC (column 0 SU)) (map getC (column 0 SD)) (map getC (column 0 SR)) ->
    SU <> [] -> SD <> [] -> SR <> [] ->
    vortex_rel v stats (vortex_nodes (Live m1 H1) (Live m2 H2) (Live m3 H3)
      (Live m4 SU) (Live m5 SD) (Live m6 SR) (Live m7 H7) (Live m8 H8) stats).

Lemma simulate_step t src v stats ns v' zu zd :
  vortex_rel v stats ns -> later t ->
  calculate_value (ms_close src) (ms_high src) (ms_low src) (update_of t) v = Ok (v', (zu, zd)) ->
  exists ns' os, vortex_round (SourceSplit.new_type t) src ns = Ok (ns', os) /\
    os !! 11%nat = Some [(0, fromC zu)] /\
    vortex_rel v' (stats_after (SourceSplit.new_type t) stats (fromC zd)) ns'.
Proof.
  intros [m1 m2 m3 m4 m5 m6 m7 m8 H1 H2 H3 SU SD SR H7 H8 prev E1 E2 E3 Hm Hr N1 N2 N3] Ht Hcalc.
  destruct (vortex_step (SourceSplit.new_type t) src prev m1 m2 m3 m4 m5 m6 m7 m8 H1 H2 H3 SU SD SR H7 H8 stats
    (later_not_init t Ht) E1 E2 E3) as (os & Ef & Eo).
  pose proof Hr as (Hu & Hd & Hx).
  assert (Hinit : is_initialized (_vmu_sum v) = true).
  { unfold is_initialized. destruct Hu as (-> & _). unfold column. rewrite !length_map. by destruct SU. }
  assert (Hv1 : forall x, (if bool_decide (update_of t = UPDATE) && negb (is_initialized (_vmu_sum v)) then x else Ok v) = Ok v)
    by (intros x; by rewrite Hinit, andb_false_r).
  destruct (calculate_spec src prev t v v _ _ _ _ Hm (Hv1 _) Hr Hm Hcalc) as (zu' & zd' & v2 & [= <- <- <-] & Du & Dd & Hv').
  assert (Hne : forall S : history, S <> [] -> column 0 S <> []) by (intros S HS; unfold column; by destruct S).
  rewrite <- !(window_total 12 _ _ _ Hu), <- !(window_total 12 _ _ _ Hx) in Du by (lia || auto).
  rewrite <- !(window_total 12 _ _ _ Hd), <- !(window_total 12 _ _ _ Hx) in Dd by (lia || auto).
  apply fx_ratio in Du, Dd. rewrite Du in Eo. rewrite Dd in Ef. eexists _, os. split; [exact Ef|]. split; [exact Eo|].
  destruct (later_add t Ht) as [[-> Hn]|[-> Hn]]; unfold advance; rewrite Hn; cbn [decide decide_rel] in *.
  - rewrite !(decide_True (P := MSG_ADD = MSG_ADD)) by done. rewrite decide_True in Hv' by done. destruct Hv' as [Hr' Hm'].
    apply (vortex_rel_live v' _ _ _ _ _ _ _ _ _ _ _ _ _ _ _ _ _ src); try done.
  - rewrite !(decide_False (P := MSG_UPDATE = MSG_ADD)) by done. rewrite decide_False in Hv' by done. subst v'.
    apply (vortex_rel_live v _ _ _ _ _ _ _ _ _ _ _ _ _ _ _ _ _ prev); try done.
Qed.

(** ** The first messages *)

(** Prices that leave room for doubling a difference. *)
Definition priced (src : MsgSource) : Prop :=
  0 <= ms_close src < 2 ^ 61 /\ 0 <= ms_high src < 2 ^ 61 /\ 0 <= ms_low src < 2 ^ 61.

Lemma fx_sub_small a b : 0 <= a < 2 ^ 61 -> 0 <= b < 2 ^ 61 -> - 2 ^ 61 < Fx.sub a b < 2 ^ 61.
Proof. intros Ha Hb. unfold Fx.sub, fixedptc.fixedpt_sub. rewrite i64_id by zrange. lia. Qed.

Lemma fx_abs_small x : - 2 ^ 61 < x < 2 ^ 61 -> - 2 ^ 61 < Fx.abs x < 2 ^ 61.
Proof. intros Hx. unfold Fx.abs, Fx.getC, Fx.fromC. destruct (_ <? _); [rewrite i64_id by zrange|]; lia. Qed.

Lemma first_small src prev :
  priced src -> priced prev ->
  let small x := - 2 ^ 61 < x < 2 ^ 61 in
  small (getC (vmu_of src prev)) /\ small (getC (vmd_of src prev)) /\ small (getC (tr_of src prev)).
Proof.
  intros (Hc & Hh & Hl) (Pc & Ph & Pl) small. rewrite fx_vmu, fx_vmd, fx_tr.
  split_and!; [by apply fx_abs_small, fx_sub_small|by apply fx_abs_small, fx_sub_small|].
  unfold Fx.max. repeat case_match; by apply fx_sub_small.
Qed.

Lemma single_total n s x : ring_rel n s [x] -> (0 < n)%nat -> in_s 64 x -> get_total_sum s = x.
Proof.
  intros (_ & _ & Hs) Hn Hx. unfold get_total_sum. rewrite Hs. destruct n as [|n]; [lia|]. cbn [take].
  rewrite take_nil. unfold zsum. cbn [foldr]. rewrite Z.add_0_r. by apply i64_id.
Qed.

Lemma fx_add_0 x : in_s 64 x -> Fx.add 0 x = x.
Proof. intros Hx. unfold Fx.add, fixedptc.fixedpt_add. by rewrite Z.add_0_l, i64_id. Qed.

(** The sums of the first message count it once or twice; the quotients are the
    same. *)
Lemma first_quotients src prev t v v' zu zd :
  priced src -> priced prev -> later t -> remembers v prev -> rings v [] [] [] ->
  calculate_value (ms_close src) (ms_high src) (ms_low src) (update_of t) v = Ok (v', (zu, zd)) ->
  let u := getC (vmu_of src prev) in let d := getC (vmd_of src prev) in let x := getC (tr_of src prev) in
  Fx.div u x = Ok zu /\ Fx.div d x = Ok zd /\ rings v' [u] [d] [x] /\
  remembers v' (if decide (t = MSG_ADD_SOURCE) then src else prev).
Proof.
  intros Hs Hp Ht Hm Hr Hcalc u d x. destruct (first_small src prev Hs Hp) as (Su & Sd & Sx). fold u d x in Su, Sd, Sx.
  pose proof Hr as (Hu & Hd & Hx).
  assert (Hinit : is_initialized (_vmu_sum v) = false) by (unfold is_initialized; by destruct Hu as (-> & _)).
  destruct (later_add t Ht) as [[-> _]|[-> _]].
  - destruct (calculate_spec src prev MSG_ADD_SOURCE v v _ _ _ _ Hm eq_refl Hr Hm Hcalc)
      as (zu' & zd' & v2 & [= <- <- <-] & Du & Dd & Hv').
    fold u d x in Du, Dd, Hv'. assert (Hz : forall s, ring_rel 12 s [] -> get_total_sum s = 0) by (intros s (_ & _ & Hs'); exact Hs').
    rewrite !Hz, !fx_add_0 in Du by (done || zrange). rewrite !Hz, !fx_add_0 in Dd by (done || zrange).
    rewrite decide_True in Hv' by done. rewrite decide_True by done. by destruct Hv'.
  - destruct (push_sums_spec v _ _ _ u d x Hr) as (v1 & Ep & Hr1 & Hc1 & Hh1 & Hl1).
    assert (Hm1 : remembers v1 prev) by (unfold remembers; by rewrite Hc1, Hh1, Hl1).
    assert (Hv1 : (if bool_decide (update_of MSG_UPDATE_SOURCE = UPDATE) && negb (is_initialized (_vmu_sum v))
                   then push_sums u d x v else Ok v) = Ok v1) by (by rewrite Hinit).
    destruct (calculate_spec src prev MSG_UPDATE_SOURCE v v1 _ _ _ _ Hm Hv1 Hr1 Hm1 Hcalc)
      as (zu' & zd' & v2 & [= <- <- <-] & Du & Dd & Hv').
    fold u d x in Du, Dd. rewrite decide_False in Hv' by done. rewrite decide_False by done. subst v'. destruct Hr1 as (Ru & Rd & Rx).
    rewrite (single_total 12 _ u Ru), (single_total 12 _ x Rx), fx_div_double in Du by (lia || zrange).
    rewrite (single_total 12 _ d Rd), (single_total 12 _ x Rx), fx_div_double in Dd by (lia || zrange). done.
Qed.

Lemma simulate_first t m src prev v stats v' zu zd :
  priced src -> priced prev -> later t -> remembers v prev -> rings v [] [] [] ->
  calculate_value (ms_close src) (ms_high src) (ms_low src) (update_of t) v = Ok (v', (zu, zd)) ->
  exists ns' os, vortex_round (SourceSplit.new_type t) src
      (vortex_nodes (Live m [hl prev]) (Live m [hl prev]) (Live m [hlc prev])
         (Idle m) (Idle m) (Idle m) (Idle m) (Idle m) stats) = Ok (ns', os) /\
    os !! 11%nat = Some [(0, fromC zu)] /\
    vortex_rel v' (stats_after (SourceSplit.new_type t) stats (fromC zd)) ns'.
Proof.
  intros Hs Hp Ht Hm Hr Hcalc.
  destruct (first_quotients src prev t v v' zu zd Hs Hp Ht Hm Hr Hcalc) as (Du & Dd & Hr' & Hm').
  destruct (vortex_first m (SourceSplit.new_type t) src prev [hl prev] [hl prev] [hlc prev] stats
    (later_not_init t Ht) eq_refl eq_refl eq_refl) as (os & Ef & Eo).
  apply fx_ratio in Du, Dd. rewrite Du in Eo. rewrite Dd in Ef. eexists _, os. split; [exact Ef|]. split; [exact Eo|].
  destruct (later_add t Ht) as [[-> Hn]|[-> Hn]]; unfold advance; rewrite Hn.
  - rewrite !(decide_True (P := MSG_ADD = MSG_ADD)) by done. rewrite decide_True in Hm' by done.
    by apply (vortex_rel_live v' _ _ _ _ _ _ _ _ _ _ _ _ _ _ _ _ _ src).
  - rewrite !(decide_False (P := MSG_UPDATE = MSG_ADD)) by done. rewrite decide_False in Hm' by done.
    by apply (vortex_rel_live v' _ _ _ _ _ _ _ _ _ _ _ _ _ _ _ _ _ prev).
Qed.

(** ** Runs *)

(** The baseline's indicator, driven by the same messages. *)
Fixpoint vortex_run (ms : list (PacketAppType * MsgSource)) (v : Vortex) : res (Vortex * list (Z * Z)) :=
  match ms with
  | [] => Ok (v, [])
  | m :: ms =>
      let* r := calculate_value (ms_close m.2) (ms_high m.2) (ms_low m.2) (update_of m.1) v in
      let* s := vortex_run ms r.1 in
      Ok (s.1, r.2 :: s.2)
  end.

Definition viu_out (out : list (list (Z * FixedPt))) (z : Z * Z) : Prop := out !! 11%nat = Some [(0, fromC z.1)].

Lemma simulate_run ms v stats ns v' zs :
  vortex_rel v stats ns -> (length stats <= 4999)%nat -> Forall (fun m => later m.1) ms ->
  vortex_run ms v = Ok (v', zs) ->
  exists ns' outs, flow_run vortex_hookup 1 hlc_split ms ns = Ok (ns', outs) /\
    vortex_rel v' (take 4999 (stats ++ map fromC (of_updates ms zs.*2))) ns' /\ Forall2 viu_out outs zs.
Proof.
  revert v stats ns v' zs. induction ms as [|[t src] ms IH]; intros v stats ns v' zs Hrel Hlen Hl Hrun; cbn [vortex_run flow_run] in *.
  - injection Hrun as <- <-. eexists _, _. split; [done|]. split; [|constructor].
    change (of_updates [] ([] : list (Z * Z)).*2) with (@nil Z). cbn [map]. by rewrite app_nil_r, firstn_all2.
  - apply Forall_cons in Hl as [Ht Hl]. cbn [fst snd] in *.
    destruct (calculate_value _ _ _ _ v) as [[v1 [zu zd]]|] eqn:Ec; [|done]. cbn [mbind res_bind fst snd] in Hrun.
    destruct (vortex_run ms v1) as [[v2 zs2]|] eqn:Er; [|done]. injection Hrun as <- <-.
    destruct (simulate_step t src v stats ns v1 zu zd Hrel Ht Ec) as (ns1 & os & Ef & Eo & Hrel1).
    destruct (IH v1 _ ns1 v2 zs2 Hrel1 (stats_after_length _ _ _ Hlen) Hl Er) as (ns' & outs & Ef' & Hrel' & Ho).
    unfold vortex_round in Ef. rewrite Ef. res_simpl. cbn [fst snd]. rewrite Ef'. res_simpl. eexists _, _. split; [done|].
    cbn [fmap list_fmap snd]. rewrite of_updates_cons, map_app. cbn [fst snd].
    rewrite stats_after_run in Hrel' by done. split.
    + by replace (map fromC (if decide (t = MSG_UPDATE_SOURCE) then [zd] else [])) with
        (if decide (t = MSG_UPDATE_SOURCE) then [fromC zd] else []) by (by destruct (decide _)).
    + constructor; [|done]. unfold viu_out. by rewrite list_lookup_insert_ne.
Qed.

Lemma vortex_start src v0 :
  Vortex_new 13 = Ok v0 ->
  let v := initialize (ms_close src) (ms_high src) (ms_low src) v0 in remembers v src /\ rings v [] [] [].
Proof. intros [= <-] v. split; [done|]. split_and!; apply ring_rel_new. Qed.

Lemma vortex_flow m src ms v0 v' zs :
  Forall priced (src :: map snd ms) -> Forall (fun m => later m.1) ms -> Vortex_new 13 = Ok v0 ->
  vortex_run ms (initialize (ms_close src) (ms_high src) (ms_low src) v0) = Ok (v', zs) ->
  exists ns' out outs, flow_run vortex_hookup 1 hlc_split ((MSG_INIT_SOURCE, src) :: ms)
    (vortex_nodes (Idle m) (Idle m) (Idle m) (Idle m) (Idle m) (Idle m) (Idle m) (Idle m) []) = Ok (ns', out :: outs) /\
    ns' !! 13%nat = Some (NPrinter (take 4999 (map fromC (of_updates ms zs.*2)))) /\ Forall2 viu_out outs zs.
Proof.
  intros Hp Hl [Hm Hr]%(vortex_start src) Hrun. apply Forall_cons in Hp as [Hp0 Hp].
  destruct (vortex_init m src []) as (os0 & E0). unfold vortex_round in E0. cbn [flow_run fst snd SourceSplit.new_type].
  rewrite E0. res_simpl. cbn [fst snd].
  destruct ms as [|[t src1] ms]; cbn [flow_run vortex_run] in *.
  { injection Hrun as <- <-. eexists _, _, []. split; [done|]. by split. }
  apply Forall_cons in Hl as [Ht Hl]. cbn [map fst snd] in *. apply Forall_cons in Hp as [Hp1 _].
  destruct (calculate_value _ _ _ _ _) as [[v1 [zu zd]]|] eqn:Ec; [|done]. cbn [mbind res_bind fst snd] in Hrun.
  destruct (vortex_run ms v1) as [[v2 zs2]|] eqn:Er; [|done]. injection Hrun as <- <-.
  destruct (simulate_first t m src1 src _ [] v1 zu zd Hp1 Hp0 Ht Hm Hr Ec) as (ns1 & os & Ef & Eo & Hrel1).
  destruct (simulate_run ms v1 _ ns1 v2 zs2 Hrel1) as (ns' & outs & Ef' & Hrel' & Ho); [|done|done|].
  { apply stats_after_length. simpl. lia. }
  unfold vortex_round in Ef. rewrite Ef. res_simpl. cbn [fst snd]. rewrite Ef'. res_simpl. eexists _, _, _. split; [done|].
  rewrite stats_after_run in Hrel' by done. cbn [fmap list_fmap snd]. rewrite of_updates_cons, map_app. cbn [fst snd].
  split; [|constructor; [unfold viu_out; by rewrite list_lookup_insert_ne|done]].
  destruct Hrel'. cbn [vortex_nodes lookup list_lookup]. do 3 f_equal. by destruct (decide _).
Qed.

Lemma runs_viu ps ms kls outs zs :
  runs_agree vortex_hookup 1 ps ms kls outs -> Forall2 viu_out outs zs ->
  Forall2 (fun kl (z : Z * Z) => exists p ts, (11%nat, 0, p) ∈ kl /\
             decode_MsgValue (pk_data p) = Ok (mkMsgValue (fromC z.1) ts)) kls zs.
Proof.
  intros Hr Ho. revert ps ms kls Hr. induction Ho as [|out z outs zs Hz Ho IH]; intros [|ep ps] [|m ms] [|kl kls] Hr; try done.
  destruct Hr as [[Hk _] Hr]. constructor; [|by eapply IH]. 
  destruct (Hk 11%nat 0 (fromC z.1)) as (p & Hp & _ & Hd & _); [rewrite Hz; left|done|]. eauto.
Qed.

Definition demo_vortex : Vortex * list (Z * Z) :=
  let v := mkVortex 100 120 90 (SumRingBuffer_new 12) (SumRingBuffer_new 12) (SumRingBuffer_new 12) in
  result (v, []) (vortex_run (tl demo_msgs) v).
Definition demo_results : list (Z * Z) := Eval vm_compute in demo_vortex.2.

Module VortexProps.

(** C4: The Click Vortex graph computes what the baseline's Vortex computes.  The
    configuration vortex_opt.click (or vortex_naive.click), driven by packets of
    less than 256 bytes with an INIT and then UPDATE and ADD messages in any order,
    which the timestamper gives strictly increasing stamps, and the baseline,
    initialised with the same prices and called once per message: if the baseline
    does not divide by zero,
    the router runs without a fault, the packet [viu] sends in every round carries
    the baseline's first result, and the printer has recorded the baseline's
    second results of the UPDATEs (the first 4999).  Prices are nonnegative and
    below 2^61, since the baseline counts its first UPDATE twice, above and below
    the fraction line. *)
Theorem vortex_graph_agrees op_mode ps src ms v0 v' zs
    (Hs : sourced 1 0 ps ((MSG_INIT_SOURCE, src) :: ms)) (Hl : Forall (fun m => later m.1) ms)
    (Hp : Forall priced (src :: map snd ms)) (Hv : Vortex_new 13 = Ok v0)
    (Hrun : vortex_run ms (initialize (ms_close src) (ms_high src) (ms_low src) v0) = Ok (v', zs)) :
  let c := vortex_config op_mode in
  exists es es' kl kls s g, build (hookup c) 0 (decls c) = Ok es /\
    router_run (hookup c) (length (decls c)) ps es = Ok (es', kl :: kls) /\
    Forall2 (fun kl (z : Z * Z) => exists p ts, (11%nat, 0, p) ∈ kl /\
               decode_MsgValue (pk_data p) = Ok (mkMsgValue (fromC z.1) ts)) kls zs /\
    es' !! 13%nat = Some (Printer s g) /\
    printer_ok s g (take 4999 (map fromC (of_updates ms zs.*2))).
Proof.
  intros c. set (m := if op_mode =? 1 then NAIVE else STARTUP).
  destruct (vortex_flow m src ms v0 v' zs Hp Hl Hv Hrun) as (ns' & out & outs & Ef & Hn & Ho).
  destruct (build_refines (decls c) (hookup c) 1 hlc_split _ ps _ ns' (out :: outs) eq_refl eq_refl eq_refl Hs Ef)
    as (es & es' & kls & ts & Eb & Er & Him & Ha).
  destruct ps as [|ep ps], kls as [|kl kls]; try done. destruct Ha as [_ Ha].
  destruct (Forall2_lookup_r _ _ _ _ _ (im_live _ _ _ _ _ _ Him) Hn) as (e & He & s & g & -> & Hpr).
  exists es, es', kl, kls, s, g. split_and!; try done. by eapply runs_viu.
Qed.

Lemma vortex_graph_agrees_witness :
  let c := vortex_config 2 in
  exists es es' kl kls s g, build (hookup c) 0 (decls c) = Ok es /\
    router_run (hookup c) (length (decls c)) demo_packets es = Ok (es', kl :: kls) /\
    Forall2 (fun kl (z : Z * Z) => exists p ts, (11%nat, 0, p) ∈ kl /\
               decode_MsgValue (pk_data p) = Ok (mkMsgValue (fromC z.1) ts)) kls demo_results /\
    es' !! 13%nat = Some (Printer s g) /\
    printer_ok s g (take 4999 (map fromC (of_updates (tl demo_msgs) demo_results.*2))).
Proof.
  apply (vortex_graph_agrees 2 demo_packets (mkMsgSource 100 120 90 100 5 0) (tl demo_msgs)
    (result (mkVortex 0 0 0 (SumRingBuffer_new 12) (SumRingBuffer_new 12) (SumRingBuffer_new 12)) (Vortex_new 13))
    demo_vortex.1 demo_results).
  - exact demo_sourced.
  - constructor; [by left|]. constructor; [by right|constructor].
  - repeat constructor; vm_compute; congruence.
  - reflexivity.
  - vm_compute. reflexivity.
Defined.

End VortexProps.
