(* ===== verification/DmiGraph.v ===== *)
(** * DmiGraph: the DMI graph of Click and the baseline's DMI

    The network of dmi_opt.click, stepped against hand_coded/dmi.cpp.  The two
    agree on every message as long as the baseline's directional indices do not
    cancel; when they do, the baseline returns early and the two part. *)

From S2P Require Import Prelude FixedPt CircArray Messages Buffers IndicatorBase IndicatorLaws.
From S2P Require Import Smoothing Directional Ratios IndicatorProps AdLine Parsing Sources SourceProps.
From S2P Require Import HandCoded TrixGraph Router Configs Dataflow Propagation RouterProps Typing Stepping VortexGraph.
Import FPt Buffers BuffersFacts IndicatorBase Router Dmi EwmaHc.

(** ** The network *)

Definition dmi_hookup : connections := Eval vm_compute in hookup dmi_opt.

Section network.
Context (alpha : FixedPt).

Definition dmi_nodes (pdm ndm tr ewma_pdm ewma_ndm ewma_tr pdi ndi dx ewma_dx : status) (stats : list FixedPt) : list node :=
  [NFront; NFront; NTee 3; NTee 3;
   NInd KPdm tt 10 pdm; NInd KNdm tt 10 ndm; NInd KNewTrueRange tt 10 tr;
   NInd KEwma alpha 13 ewma_pdm; NInd KEwma alpha 13 ewma_ndm; NInd KEwma alpha 13 ewma_tr; NTee 2;
   NInd KPdi tt 10 pdi; NInd KNdi tt 10 ndi; NInd KDx tt 10 dx; NInd KEwma alpha 13 ewma_dx;
   NPrinter stats; NDiscard].

Definition pdm_of (src prev : MsgSource) : FixedPt :=
  Pdm.calculate_pdm (fromC (ms_low src)) (fromC (ms_low prev)) (fromC (ms_high src)) (fromC (ms_high prev)).
Definition ndm_of (src prev : MsgSource) : FixedPt :=
  Ndm.calculate_ndm (fromC (ms_low src)) (fromC (ms_low prev)) (fromC (ms_high src)) (fromC (ms_high prev)).

Lemma pdm_valid src prev : get_valid (pdm_of src prev) = true.
Proof. unfold pdm_of, Pdm.calculate_pdm. by repeat case_match. Qed.
Lemma ndm_valid src prev : get_valid (ndm_of src prev) = true.
Proof. unfold ndm_of, Ndm.calculate_ndm. by repeat case_match. Qed.

Lemma dx_valid pdi ndi : get_valid (dx_value pdi ndi) = true.
Proof. apply ratio_valid. Qed.

Lemma step_pdm cap m H src prev t :
  t <> MSG_INIT -> hd [] H = hl prev ->
  node_step t (NInd KPdm tt cap (Live m H)) (hl src) = Ok (NInd KPdm tt cap (advance t m H (hl src)), [(0, pdm_of src prev)]).
Proof. intros Ht Hh. apply step_exact; [done|done|done|]. cbn. by rewrite Hh. Qed.

Lemma step_ndm cap m H src prev t :
  t <> MSG_INIT -> hd [] H = hl prev ->
  node_step t (NInd KNdm tt cap (Live m H)) (hl src) = Ok (NInd KNdm tt cap (advance t m H (hl src)), [(0, ndm_of src prev)]).
Proof. intros Ht Hh. apply step_exact; [done|done|done|]. cbn. by rewrite Hh. Qed.

(** An average past its first value: in its first mode it holds one value only,
    so that both modes compute the same. *)
Definition ewma_ready (m : OpMode) (H : history) : Prop :=
  (m = STARTUP /\ length H = 1%nat) \/ (m = NORMAL /\ H <> []).

Lemma step_ewma cap m H t v :
  (2 <= cap)%nat -> t <> MSG_INIT -> ewma_ready m H ->
  node_step t (NInd KEwma alpha cap (Live m H)) [v] =
  Ok (NInd KEwma alpha cap (advance t m H [v]), [(0, ewma_next alpha H v)]).
Proof.
  intros Hc Ht Hm. apply step_live; [done|]. destruct Hm as [[-> Hl]|[-> _]]; [|done].
  cbn. rewrite firstn_all2; [done|]. unfold column. cbn [length]. rewrite length_map. lia.
Qed.

(** The same on the baseline's side. *)
Lemma fx_pdm src prev d :
  _prev_high d = ms_high prev -> _prev_low d = ms_low prev ->
  calculate_pdm (ms_high src) (ms_low src) d = getC (pdm_of src prev).
Proof.
  intros Hh Hl. unfold calculate_pdm, pdm_of, Pdm.calculate_pdm, Fx.lt, lt, Fx.getC, getC. rewrite Hh, Hl.
  cbn [sub fromC _value fromInt]. unfold Fx.sub, Fx.fromInt. by repeat case_match.
Qed.

Lemma fx_ndm src prev d :
  _prev_high d = ms_high prev -> _prev_low d = ms_low prev ->
  calculate_ndm (ms_high src) (ms_low src) d = getC (ndm_of src prev).
Proof.
  intros Hh Hl. unfold calculate_ndm, ndm_of, Ndm.calculate_ndm, Fx.lt, lt, Fx.getC, getC. rewrite Hh, Hl.
  cbn [sub fromC _value fromInt]. unfold Fx.sub, Fx.fromInt. by repeat case_match.
Qed.

Lemma fx_dx pdi ndi z :
  Fx.div (Fx.int_mul 100 (Fx.abs (Fx.sub pdi ndi))) (Fx.add pdi ndi) = Ok z -> dx_value (fromC pdi) (fromC ndi) = fromC z.
Proof.
  intros Hz. apply fx_ratio. rewrite <- Hz. unfold int_mul, Fx.int_mul, mul, getC. cbn [_value fromC add].
  change (_value (fpt_abs ?x)) with (getC (fpt_abs x)). by rewrite fx_abs.
Qed.

Definition dmi_round (t : PacketAppType) (src : MsgSource) (ns : list node) :=
  flow dmi_hookup t 0 ns (connect dmi_hookup 1 (split_values hlc_split src)).

#[local] Opaque pdm_of ndm_of tr_of ewma_next dx_value ratio.

Lemma cap_13 : (2 <= 13)%nat. Proof. lia. Qed.

Ltac dmi_fire :=
  first [ apply step_pdm; eassumption | apply step_ndm; eassumption | apply step_tr; eassumption
        | apply (step_ewma 13 _ _ _ _ cap_13); eassumption
        | apply step_first; first [apply pdm_valid|apply ndm_valid|apply tr_valid|apply ratio_valid|apply dx_valid]
        | fire_tac ].

Lemma dmi_init m src stats :
  exists os, dmi_round MSG_INIT src
    (dmi_nodes (Idle m) (Idle m) (Idle m) (Idle m) (Idle m) (Idle m) (Idle m) (Idle m) (Idle m) (Idle m) stats) =
  Ok (dmi_nodes (Live m [hl src]) (Live m [hl src]) (Live m [hlc src])
        (Idle m) (Idle m) (Idle m) (Idle m) (Idle m) (Idle m) (Idle m) stats, os).
Proof.
  eexists. unfold dmi_round, dmi_nodes, dmi_hookup. cbn [split_values hlc_split flat_map app fst snd Z.ltb Z.compare].
  flow_tac fire_tac.
Qed.

Lemma dmi_first m t src prev H1 H2 H3 stats :
  t <> MSG_INIT -> hd [] H1 = hl prev -> hd [] H2 = hl prev -> hd [] H3 = hlc prev ->
  let p := pdm_of src prev in let n := ndm_of src prev in let r := tr_of src prev in
  let pdi := ratio p r in let ndi := ratio n r in let x := dx_value pdi ndi in
  exists os, dmi_round t src
    (dmi_nodes (Live m H1) (Live m H2) (Live m H3) (Idle m) (Idle m) (Idle m) (Idle m) (Idle m) (Idle m) (Idle m) stats) =
  Ok (dmi_nodes (advance t m H1 (hl src)) (advance t m H2 (hl src)) (advance t m H3 (hlc src))
        (Live m [[p]]) (Live m [[n]]) (Live m [[r]]) (Live m [[p; r]]) (Live m [[n; r]]) (Live m [[pdi; ndi]]) (Live m [[x]])
        (stats_after t stats x), os).
Proof.
  intros Ht E1 E2 E3 p n r pdi ndi x. eexists. unfold dmi_round, dmi_nodes, dmi_hookup.
  cbn [split_values hlc_split flat_map app fst snd Z.ltb Z.compare]. flow_tac dmi_fire.
Qed.

Lemma dmi_step t src prev m1 m2 m3 m4 m5 m6 m7 m8 m9 m10 H1 H2 H3 P N R H7 H8 H9 X stats :
  t <> MSG_INIT -> hd [] H1 = hl prev -> hd [] H2 = hl prev -> hd [] H3 = hlc prev ->
  ewma_ready m4 P -> ewma_ready m5 N -> ewma_ready m6 R -> ewma_ready m10 X ->
  let p := pdm_of src prev in let n := ndm_of src prev in let r := tr_of src prev in
  let ap := ewma_next alpha P p in let an := ewma_next alpha N n in let ar := ewma_next alpha R r in
  let pdi := ratio ap ar in let ndi := ratio an ar in let x := dx_value pdi ndi in
  exists os, dmi_round t src
    (dmi_nodes (Live m1 H1) (Live m2 H2) (Live m3 H3) (Live m4 P) (Live m5 N) (Live m6 R)
       (Live m7 H7) (Live m8 H8) (Live m9 H9) (Live m10 X) stats) =
  Ok (dmi_nodes (advance t m1 H1 (hl src)) (advance t m2 H2 (hl src)) (advance t m3 H3 (hlc src))
        (advance t m4 P [p]) (advance t m5 N [n]) (advance t m6 R [r])
        (advance t m7 H7 [ap; ar]) (advance t m8 H8 [an; ar]) (advance t m9 H9 [pdi; ndi]) (advance t m10 X [x])
        (stats_after t stats (ewma_next alpha X x)), os).
Proof.
  intros Ht E1 E2 E3 R1 R2 R3 R4 p n r ap an ar pdi ndi x. eexists. unfold dmi_round, dmi_nodes, dmi_hookup.
  cbn [split_values hlc_split flat_map app fst snd Z.ltb Z.compare]. flow_tac dmi_fire.
Qed.
End network.

(** ** The baseline *)

(** The indices a message gives, as [calculate_value] computes them. *)
Definition indices (c h l : Z) (d : Dmi) : res (Z * Z) :=
  let '(_, pdm_smoothed) := calculate_new_value (calculate_pdm h l d) (_ewma_pdm d) in
  let '(_, ndm_smoothed) := calculate_new_value (calculate_ndm h l d) (_ewma_ndm d) in
  let '(_, tr_smoothed) := calculate_new_value (calculate_tr c h l d) (_ewma_tr d) in
  let* pdi := Fx.div pdm_smoothed tr_smoothed in
  let* ndi := Fx.div ndm_smoothed tr_smoothed in
  Ok (pdi, ndi).

Fixpoint dmi_run (ms : list (PacketAppType * MsgSource)) (d : Dmi) : res (Dmi * list Z) :=
  match ms with
  | [] => Ok (d, [])
  | m :: ms =>
      let* r := calculate_value (ms_close m.2) (ms_high m.2) (ms_low m.2) (update_of m.1) d in
      let* s := dmi_run ms r.1 in
      Ok (s.1, r.2 :: s.2)
  end.

(** No message makes the indices cancel. *)
Fixpoint dmi_regular (ms : list (PacketAppType * MsgSource)) (d : Dmi) : bool :=
  match ms with
  | [] => true
  | m :: ms =>
      let '(c, h, l) := (ms_close m.2, ms_high m.2, ms_low m.2) in
      match indices c h l d, calculate_value c h l (update_of m.1) d with
      | Ok (pdi, ndi), Ok (d', _) => negb (Fx.add pdi ndi =? 0) && dmi_regular ms d'
      | _, _ => false
      end
  end.

(** The baseline's averages, once past their first values. *)
Definition dmi_of (alpha : FixedPt) (prev : MsgSource) (P N R X : history) : Dmi :=
  mkDmi (ms_close prev) (ms_high prev) (ms_low prev) (hc alpha P) (hc alpha N) (hc alpha R) (hc alpha X).

(** One call of the baseline, its averages given by [e1] ... [e4]. *)
Lemma calculate_regular c h l t d e1 e2 e3 ap an ar d' z src :
  calculate_new_value (calculate_pdm h l d) (_ewma_pdm d) = (e1, ap) ->
  calculate_new_value (calculate_ndm h l d) (_ewma_ndm d) = (e2, an) ->
  calculate_new_value (calculate_tr c h l d) (_ewma_tr d) = (e3, ar) ->
  c = ms_close src -> h = ms_high src -> l = ms_low src -> dmi_regular [(t, src)] d = true ->
  calculate_value c h l (update_of t) d = Ok (d', z) ->
  exists pdi ndi dx e4, Fx.div ap ar = Ok pdi /\ Fx.div an ar = Ok ndi /\
    Fx.div (Fx.int_mul 100 (Fx.abs (Fx.sub pdi ndi))) (Fx.add pdi ndi) = Ok dx /\
    calculate_new_value dx (_ewma_dx d) = (e4, z) /\
    d' = if decide (t = MSG_ADD_SOURCE)
         then mkDmi c h l (set_last_value ap e1) (set_last_value an e2) (set_last_value ar e3) (set_last_value z e4)
         else mkDmi (_prev_close d) (_prev_high d) (_prev_low d) e1 e2 e3 e4.
Proof.
  intros E1 E2 E3 -> -> -> Hreg Hcalc. cbn [dmi_regular fst snd] in Hreg. rewrite Hcalc in Hreg.
  unfold indices, calculate_value in *. rewrite E1, E2, E3 in Hreg, Hcalc.
  destruct (Fx.div ap ar) as [pdi|]; [|done]. cbn [mbind res_bind] in *.
  destruct (Fx.div an ar) as [ndi|]; [|done]. cbn [mbind res_bind] in *.
  apply andb_true_iff in Hreg as [Hz _]. apply negb_true_iff in Hz. unfold Fx.getC in Hcalc. rewrite Hz in Hcalc.
  destruct (Fx.div (Fx.int_mul 100 _) _) as [dx|] eqn:Ex; [|done]. cbn [mbind res_bind _ewma_dx] in Hcalc.
  destruct (calculate_new_value dx (_ewma_dx d)) as [e4 w] eqn:E4. exists pdi, ndi, dx, e4.
  unfold update_of in Hcalc. by destruct (decide _); injection Hcalc as <- <-.
Qed.

Lemma dmi_calculate alpha prev P N R X src t d' z :
  P <> [] -> N <> [] -> R <> [] -> X <> [] ->
  let d := dmi_of alpha prev P N R X in
  let p := pdm_of src prev in let n := ndm_of src prev in let r := tr_of src prev in
  let ap := ewma_next alpha P p in let an := ewma_next alpha N n in let ar := ewma_next alpha R r in
  let x := dx_value (ratio ap ar) (ratio an ar) in
  dmi_regular [(t, src)] d = true ->
  calculate_value (ms_close src) (ms_high src) (ms_low src) (update_of t) d = Ok (d', z) ->
  fromC z = ewma_next alpha X x /\
  d' = if decide (t = MSG_ADD_SOURCE) then dmi_of alpha src ([p] :: P) ([n] :: N) ([r] :: R) ([x] :: X) else d.
Proof.
  intros NP NN NR NX d p n r ap an ar x Hreg Hcalc.
  destruct (calculate_regular (ms_close src) (ms_high src) (ms_low src) t d (hc alpha P) (hc alpha N) (hc alpha R) (getC ap) (getC an) (getC ar) d' z src)
    as (pdi & ndi & dx & e4 & Ep & En & Ex & E4 & ->); try done.
  { rewrite (fx_pdm src prev) by done. by apply hc_next. }
  { rewrite (fx_ndm src prev) by done. by apply hc_next. }
  { unfold calculate_tr. cbn [d dmi_of _prev_close]. rewrite <- fx_tr. by apply hc_next. }
  apply fx_ratio in Ep, En. apply fx_dx in Ex.
  assert (Hx : fromC dx = x) by (unfold x; by rewrite Ep, En, Ex). change dx with (getC (fromC dx)) in E4.
  rewrite Hx in E4. cbn [d dmi_of _ewma_dx] in E4. rewrite hc_next in E4 by done. injection E4 as <- <-.
  split; [by rewrite ewma_next_val|]. unfold dmi_of. by rewrite <- !hc_commit.
Qed.

(** The first message after the prices are set. *)
Definition dmi_idle (alpha : FixedPt) (prev : MsgSource) : Dmi :=
  let e := set_alfa (getC alpha) EwmaHc_new in mkDmi (ms_close prev) (ms_high prev) (ms_low prev) e e e e.

Lemma dmi_calculate_first alpha prev src t d' z :
  let d := dmi_idle alpha prev in
  let p := pdm_of src prev in let n := ndm_of src prev in let r := tr_of src prev in
  let x := dx_value (ratio p r) (ratio n r) in
  dmi_regular [(t, src)] d = true ->
  calculate_value (ms_close src) (ms_high src) (ms_low src) (update_of t) d = Ok (d', z) ->
  fromC z = x /\
  d' = dmi_of alpha (if decide (t = MSG_ADD_SOURCE) then src else prev) [[p]] [[n]] [[r]] [[x]].
Proof.
  intros d p n r x Hreg Hcalc. set (e := fun v => mkEwmaHc true (getC v) (getC alpha)).
  destruct (calculate_regular (ms_close src) (ms_high src) (ms_low src) t d (e p) (e n) (e r) (getC p) (getC n) (getC r) d' z src)
    as (pdi & ndi & dx & e4 & Ep & En & Ex & E4 & ->); try done.
  { by rewrite (fx_pdm src prev). }
  { by rewrite (fx_ndm src prev). }
  { unfold calculate_tr. cbn [d dmi_idle _prev_close]. by rewrite <- fx_tr. }
  apply fx_ratio in Ep, En. apply fx_dx in Ex.
  assert (Hx : x = fromC dx) by (unfold x; by rewrite Ep, En, Ex). injection E4 as <- <-. rewrite Hx.
  split; [done|]. by destruct (decide _).
Qed.

Lemma regular_cons m ms d d' z :
  dmi_regular (m :: ms) d = true ->
  calculate_value (ms_close m.2) (ms_high m.2) (ms_low m.2) (update_of m.1) d = Ok (d', z) ->
  dmi_regular [m] d = true /\ dmi_regular ms d' = true.
Proof.
  cbn [dmi_regular]. intros Hr Hc. rewrite Hc in *. destruct (indices _ _ _ d) as [[pdi ndi]|]; [|done].
  apply andb_true_iff in Hr as [-> Hr]. done.
Qed.

(** ** The simulation *)

Inductive dmi_rel (alpha : FixedPt) (d : Dmi) (stats : list FixedPt) : list node -> Prop :=
| dmi_rel_live m1 m2 m3 m4 m5 m6 m7 m8 m9 m10 H1 H2 H3 P N R H7 H8 H9 X prev :
    hd [] H1 = hl prev -> hd [] H2 = hl prev -> hd [] H3 = hlc prev ->
    ewma_ready m4 P -> ewma_ready m5 N -> ewma_ready m6 R -> ewma_ready m10 X ->
    d = dmi_of alpha prev P N R X ->
    dmi_rel alpha d stats (dmi_nodes alpha (Live m1 H1) (Live m2 H2) (Live m3 H3) (Live m4 P) (Live m5 N) (Live m6 R)
      (Live m7 H7) (Live m8 H8) (Live m9 H9) (Live m10 X) stats).

Lemma ready_nonempty m H : ewma_ready m H -> H <> [].
Proof. intros [[_ Hl]|[_ Hn]]; [by intros ->|done]. Qed.

Lemma ready_add m H v : ewma_ready m H -> ewma_ready (match m with STARTUP => NORMAL | _ => m end) (v :: H).
Proof. intros [[-> _]|[-> _]]; by right. Qed.

Lemma dmi_simulate_step alpha t src d stats ns d' z :
  dmi_rel alpha d stats ns -> later t -> dmi_regular [(t, src)] d = true ->
  calculate_value (ms_close src) (ms_high src) (ms_low src) (update_of t) d = Ok (d', z) ->
  exists ns' os, dmi_round (SourceSplit.new_type t) src ns = Ok (ns', os) /\
    dmi_rel alpha d' (stats_after (SourceSplit.new_type t) stats (fromC z)) ns'.
Proof.
  intros [m1 m2 m3 m4 m5 m6 m7 m8 m9 m10 H1 H2 H3 P N R H7 H8 H9 X prev E1 E2 E3 R1 R2 R3 R4 ->] Ht Hreg Hcalc.
  destruct (dmi_calculate alpha prev P N R X src t d' z) as [-> Hd']; try (by eapply ready_nonempty); try done.
  destruct (dmi_step alpha (SourceSplit.new_type t) src prev m1 m2 m3 m4 m5 m6 m7 m8 m9 m10 H1 H2 H3 P N R H7 H8 H9 X stats
    (later_not_init t Ht) E1 E2 E3 R1 R2 R3 R4) as (os & Ef).
  eexists _, os. split; [exact Ef|].
  destruct (later_add t Ht) as [[-> Hn]|[-> Hn]]; unfold advance; rewrite Hn.
  - rewrite !(decide_True (P := MSG_ADD = MSG_ADD)) by done. rewrite decide_True in Hd' by done.
    apply (dmi_rel_live alpha d' _ _ _ _ _ _ _ _ _ _ _ _ _ _ _ _ _ _ _ _ _ src); try done; by apply ready_add.
  - rewrite !(decide_False (P := MSG_UPDATE = MSG_ADD)) by done. rewrite decide_False in Hd' by done.
    by apply (dmi_rel_live alpha d' _ _ _ _ _ _ _ _ _ _ _ _ _ _ _ _ _ _ _ _ _ prev).
Qed.

Lemma dmi_simulate_first alpha t src prev stats d' z :
  later t -> dmi_regular [(t, src)] (dmi_idle alpha prev) = true ->
  calculate_value (ms_close src) (ms_high src) (ms_low src) (update_of t) (dmi_idle alpha prev) = Ok (d', z) ->
  let i := Idle STARTUP in
  exists ns' os, dmi_round (SourceSplit.new_type t) src
      (dmi_nodes alpha (Live STARTUP [hl prev]) (Live STARTUP [hl prev]) (Live STARTUP [hlc prev]) i i i i i i i stats) = Ok (ns', os) /\
    dmi_rel alpha d' (stats_after (SourceSplit.new_type t) stats (fromC z)) ns'.
Proof.
  intros Ht Hreg Hcalc i. destruct (dmi_calculate_first alpha prev src t d' z Hreg Hcalc) as [-> Hd'].
  destruct (dmi_first alpha STARTUP (SourceSplit.new_type t) src prev [hl prev] [hl prev] [hlc prev] stats
    (later_not_init t Ht) eq_refl eq_refl eq_refl) as (os & Ef).
  assert (Hr : forall v, ewma_ready STARTUP [v]) by (by left).
  eexists _, os. split; [exact Ef|].
  destruct (later_add t Ht) as [[-> Hn]|[-> Hn]]; unfold advance; rewrite Hn.
  - rewrite !(decide_True (P := MSG_ADD = MSG_ADD)) by done. rewrite decide_True in Hd' by done.
    by apply (dmi_rel_live alpha d' _ _ _ _ _ _ _ _ _ _ _ _ _ _ _ _ _ _ _ _ _ src).
  - rewrite !(decide_False (P := MSG_UPDATE = MSG_ADD)) by done. rewrite decide_False in Hd' by done.
    by apply (dmi_rel_live alpha d' _ _ _ _ _ _ _ _ _ _ _ _ _ _ _ _ _ _ _ _ _ prev).
Qed.

Lemma dmi_simulate_run alpha ms d stats ns d' zs :
  dmi_rel alpha d stats ns -> (length stats <= 4999)%nat -> Forall (fun m => later m.1) ms ->
  dmi_regular ms d = true -> dmi_run ms d = Ok (d', zs) ->
  exists ns' outs, flow_run dmi_hookup 1 hlc_split ms ns = Ok (ns', outs) /\
    dmi_rel alpha d' (take 4999 (stats ++ map fromC (of_updates ms zs))) ns'.
Proof.
  revert d stats ns d' zs. induction ms as [|[t src] ms IH]; intros d stats ns d' zs Hrel Hlen Hl Hreg Hrun; cbn [dmi_run flow_run] in *.
  - injection Hrun as <- <-. eexists _, _. split; [done|].
    change (of_updates [] ([] : list Z)) with (@nil Z). cbn [map]. by rewrite app_nil_r, firstn_all2.
  - apply Forall_cons in Hl as [Ht Hl]. cbn [fst snd] in *.
    destruct (calculate_value _ _ _ _ d) as [[d1 z]|] eqn:Ec; [|done]. cbn [mbind res_bind fst snd] in Hrun.
    destruct (dmi_run ms d1) as [[d2 zs2]|] eqn:Er; [|done]. injection Hrun as <- <-.
    destruct (regular_cons _ _ _ _ _ Hreg Ec) as [Hr1 Hr2].
    destruct (dmi_simulate_step alpha t src d stats ns d1 z Hrel Ht Hr1 Ec) as (ns1 & os & Ef & Hrel1).
    destruct (IH d1 _ ns1 d2 zs2 Hrel1 (stats_after_length _ _ _ Hlen) Hl Hr2 Er) as (ns' & outs & Ef' & Hrel').
    unfold dmi_round in Ef. rewrite Ef. res_simpl. cbn [fst snd]. rewrite Ef'. res_simpl. eexists _, _. split; [done|].
    rewrite of_updates_cons, map_app. cbn [fst snd]. rewrite stats_after_run in Hrel' by done.
    by replace (map fromC (if decide (t = MSG_UPDATE_SOURCE) then [z] else [])) with
      (if decide (t = MSG_UPDATE_SOURCE) then [fromC z] else []) by (by destruct (decide _)).
Qed.

Lemma dmi_flow alpha src ms d' zs :
  Forall (fun m => later m.1) ms -> dmi_regular ms (dmi_idle alpha src) = true ->
  dmi_run ms (dmi_idle alpha src) = Ok (d', zs) ->
  let i := Idle STARTUP in
  exists ns' outs, flow_run dmi_hookup 1 hlc_split ((MSG_INIT_SOURCE, src) :: ms) (dmi_nodes alpha i i i i i i i i i i []) = Ok (ns', outs) /\
    ns' !! 15%nat = Some (NPrinter (take 4999 (map fromC (of_updates ms zs)))).
Proof.
  intros Hl Hreg Hrun i. destruct (dmi_init alpha STARTUP src []) as (os0 & E0). unfold dmi_round in E0.
  cbn [flow_run fst snd SourceSplit.new_type]. unfold i. rewrite E0. res_simpl. cbn [fst snd].
  destruct ms as [|[t src1] ms]; cbn [flow_run dmi_run] in *.
  { injection Hrun as <- <-. by eexists _, _. }
  apply Forall_cons in Hl as [Ht Hl]. cbn [fst snd] in *.
  destruct (calculate_value _ _ _ _ _) as [[d1 z]|] eqn:Ec; [|done]. cbn [mbind res_bind fst snd] in Hrun.
  destruct (dmi_run ms d1) as [[d2 zs2]|] eqn:Er; [|done]. injection Hrun as <- <-.
  destruct (regular_cons _ _ _ _ _ Hreg Ec) as [Hr1 Hr2].
  destruct (dmi_simulate_first alpha t src1 src [] d1 z Ht Hr1 Ec) as (ns1 & os & Ef & Hrel1).
  destruct (dmi_simulate_run alpha ms d1 _ ns1 d2 zs2 Hrel1) as (ns' & outs & Ef' & Hrel'); [|done|done|done|].
  { apply stats_after_length. simpl. lia. }
  unfold dmi_round in Ef. rewrite Ef. res_simpl. cbn [fst snd]. rewrite Ef'. res_simpl. eexists _, _. split; [done|].
  rewrite stats_after_run in Hrel' by done. rewrite of_updates_cons, map_app. cbn [fst snd].
  destruct Hrel'. cbn [dmi_nodes lookup list_lookup]. do 3 f_equal. by destruct (decide _).
Qed.

(** [2 / (13 + 1)] *)
Definition dmi_alpha : FixedPt := Eval vm_compute in result FixedPt_default (kpar KEwma (Some 13)).

Lemma dmi_start src d0 :
  Dmi_new 13 = Ok d0 -> initialize (ms_close src) (ms_high src) (ms_low src) d0 = dmi_idle dmi_alpha src.
Proof.
  intros Hd. assert (E : Dmi_new 13 = Ok (dmi_idle dmi_alpha (mkMsgSource 0 0 0 0 0 0))) by (by vm_compute).
  rewrite E in Hd. by injection Hd as <-.
Qed.

(** What a printer has recorded. *)
Definition recorded (es : list Element) (i : nat) : list Z :=
  match es !! i with
  | Some (Printer s g) =>
      map (fun x => getC (StatPrinter.sp_value x))
        (take (StatPrinter._all_values_counter s) (default [] (g !! StatPrinter._mt_arr_idx s)))
  | _ => []
  end.

(** Both programs on the same messages. *)
Definition dmi_click (ps : list (Env * Packet)) : res (list Z) :=
  let* es := build (hookup dmi_opt) 0 (decls dmi_opt) in
  let* r := router_run (hookup dmi_opt) (length (decls dmi_opt)) ps es in
  Ok (recorded r.1 15).
Definition dmi_baseline (ms : list (PacketAppType * MsgSource)) : res (list Z) :=
  match ms with
  | [] => Ok []
  | m :: ms =>
      let* d := Dmi_new 13 in
      let* r := dmi_run ms (initialize (ms_close m.2) (ms_high m.2) (ms_low m.2) d) in
      Ok r.2
  end.

(** Prices of 100, then a message whose range lies inside the one before, then a
    new high. *)
Definition inside_msgs : list (PacketAppType * MsgSource) :=
  let price z := z * 2 ^ 40 in
  [(MSG_INIT_SOURCE, mkMsgSource (price 100) (price 120) (price 90) (price 100) 5 0);
   (MSG_UPDATE_SOURCE, mkMsgSource (price 100) (price 110) (price 95) (price 100) 6 0);
   (MSG_UPDATE_SOURCE, mkMsgSource (price 125) (price 130) (price 95) (price 100) 7 0)].
Definition inside_packets : list (Env * Packet) :=
  imap (fun i m => (mkEnv (repeat 0 7) (7 + Z.of_nat i) 20, mkPacket m.1 (encode_MsgSource m.2))) inside_msgs.

Definition demo_dmi : Dmi * list Z :=
  result (dmi_idle dmi_alpha (mkMsgSource 100 120 90 100 5 0), [])
    (dmi_run (tl demo_msgs) (dmi_idle dmi_alpha (mkMsgSource 100 120 90 100 5 0))).

Module DmiProps.

(** C5: The Click DMI graph computes what the baseline's DMI computes.  The
    configuration dmi_opt.click, driven by packets of less than 256 bytes with an
    INIT and then UPDATE and ADD messages in any order, which the timestamper gives
    strictly increasing stamps, and the baseline, initialised with the same prices
    and called once per message: if the baseline divides by zero nowhere and its two directional
    indices never cancel, the router runs without a fault and its printer has
    recorded the baseline's results of the UPDATEs (the first 4999), bit for bit. *)
Theorem dmi_graph_agrees ps src ms d0 d' zs
    (Hs : sourced 1 0 ps ((MSG_INIT_SOURCE, src) :: ms)) (Hl : Forall (fun m => later m.1) ms)
    (Hd : Dmi_new 13 = Ok d0)
    (Hreg : dmi_regular ms (initialize (ms_close src) (ms_high src) (ms_low src) d0) = true)
    (Hrun : dmi_run ms (initialize (ms_close src) (ms_high src) (ms_low src) d0) = Ok (d', zs)) :
  exists es es' kls s g, build (hookup dmi_opt) 0 (decls dmi_opt) = Ok es /\
    router_run (hookup dmi_opt) (length (decls dmi_opt)) ps es = Ok (es', kls) /\
    es' !! 15%nat = Some (Printer s g) /\
    printer_ok s g (take 4999 (map fromC (of_updates ms zs))).
Proof.
  rewrite (dmi_start src d0 Hd) in Hreg, Hrun.
  destruct (dmi_flow dmi_alpha src ms d' zs Hl Hreg Hrun) as (ns' & outs & Ef & Hn).
  destruct (build_refines (decls dmi_opt) (hookup dmi_opt) 1 hlc_split _ ps _ ns' outs eq_refl eq_refl eq_refl Hs Ef)
    as (es & es' & kls & ts & Eb & Er & Him & Ha).
  destruct (Forall2_lookup_r _ _ _ _ _ (im_live _ _ _ _ _ _ Him) Hn) as (e & He & s & g & -> & Hpr).
  exists es, es', kls, s, g. split_and!; assumption.
Qed.

Lemma dmi_graph_agrees_witness :
  exists es es' kls s g, build (hookup dmi_opt) 0 (decls dmi_opt) = Ok es /\
    router_run (hookup dmi_opt) (length (decls dmi_opt)) demo_packets es = Ok (es', kls) /\
    es' !! 15%nat = Some (Printer s g) /\
    printer_ok s g (take 4999 (map fromC (of_updates (tl demo_msgs) demo_dmi.2))).
Proof.
  apply (dmi_graph_agrees demo_packets (mkMsgSource 100 120 90 100 5 0) (tl demo_msgs)
    (dmi_idle dmi_alpha (mkMsgSource 0 0 0 0 0 0)) demo_dmi.1 demo_dmi.2).
  - exact demo_sourced.
  - constructor; [by left|]. constructor; [by right|constructor].
  - vm_compute. reflexivity.
  - vm_compute. reflexivity.
  - vm_compute. reflexivity.
Defined.

(** When the directional indices cancel the two programs part.  A message
    whose range lies inside the one before has no directional movement; the
    baseline then returns zero before its last average has seen a value, the
    graph averages the zero.  On the next message, a new high, the baseline
    reports a DMI of 100 and the graph one of 85.7. *)
Theorem dmi_cancelled_indices_diverge :
  dmi_baseline inside_msgs = Ok [0; 100 * 2 ^ 40] /\
  dmi_click inside_packets = Ok [0; 94243853809400].
Proof. split; vm_compute; reflexivity. Qed.

End DmiProps.
